(* ===== verification/_CoqProject ===== *)
-Q . S2P
Prelude.v
Qt.v
QtSample.v
QMap.v
Json.v
JsonSample.v
Zlib.v
WebSocket.v
HttpFraming.v
NetFraming.v
WsRepeater.v
WsRelay.v
Blocklist.v
InterceptLogic.v
InterceptController.v
ServerLifecycle.v
ScopeLogic.v
ProxyPolicy.v
SessionManager.v
Placeholders.v
ChainRunner.v
Utf8.v
Redirect.v
SessionRules.v
HttpClient.v
Transcode.v
H2Telemetry.v
H2Headers.v
ProxyConnection.v
ConnectionSpec.v
CertLogic.v
ControlLogic.v
ControlServer.v
Intruder.v
IntruderGenerators.v
IntruderRules.v
IntruderRuns.v
IntruderRunner.v
Extensions.v
Marketplace.v
Templates.v
NucleiYaml.v
Repeater.v
ProxyModel.v
ProjectMeta.v
HistoryStore.v
Crawler.v
Compare.v
CiGate.v
HistoryLogic.v
Dns.v
Oast.v
