(* ===== verification/Prelude.v ===== *)
(** * Nullock: a verification library for its proxy and tool core

    Nullock is an intercepting HTTP proxy and web-security workbench in C++
    with Qt.  A worker thread per connection reads a request, checks its framing
    and the scope, applies the rewriting rules, may park it for the operator,
    forwards it, and treats the response alike; WebSocket upgrades are relayed
    through an incremental frame parser, HTTP/2 is translated field by field.
    The tools (repeater, intruder, comparer, crawler, CI gate, history) use a
    second HTTP client.  This library models the parts whose correctness those
    flows rest on, definition by definition from the source, and proves what
    they promise.

    ** Files and sources (paths under src/Src/)

    Shared layers:
    - [Prelude]: notations, tactics ([split_bools], [to_prop], [zdecide],
      [case_if]), machine integers, sizes ([zlen]), step relations with
      invariants by rule induction ([steps_invariant]).
    - [Qt]: [QByteArray] and [QString] as lists of code units with their
      container operations; the parts of Qt that depend on Unicode tables, on
      codecs or on PCRE are the classes [QtText], [QtRegex] with their
      documented laws in [QtTextLaws].  [QtSample]: concrete instances on which
      the witnesses evaluate.  [QMap]: ordered maps.  [Json]: [QJsonValue] and the
      class [QtJson] of its text, [JsonSample] an instance of it.
      [Zlib]: the inflate interface and content_decode.cpp.

    The proxy, BackEnd/Proxy:
    - [WebSocket] (websocket.cpp, ws_encode.cpp): [feed] is
      [WsFrameParser::feed] on the buffer and the give-up flag; the inflater.
    - [HttpFraming] (proxy_logic.cpp, the readers and serializers of
      proxy_server.cpp): parsing, the framing guard [isFramingSafe], the chunked
      decoder, reading from a socket (a list of segments) and writing out.
    - [WsRepeater] (ws_repeater.cpp): the registry of live WebSocket sessions.
    - [WsRelay] (proxy_server.cpp, runWebSocketRelay): one tunnel over the parser,
      the inflater and the registry.
    - [Blocklist] (proxy_server.cpp, markMitmBlocked to setBlocklistPath): the set
      of pinned hosts and its file under two mutexes.
    - [InterceptLogic] (intercept_logic.cpp) and [InterceptController]
      (intercept.cpp): rules and byte repairs, and the state machine that the
      main thread and the workers share.
    - [ServerLifecycle] (proxy_server.cpp, start to shutdownAndJoin): the listener,
      the worker threads and their joining, interleaved with the interceptor.
    - [ScopeLogic] (scope_logic.cpp) and [ProxyPolicy] (proxy_server.cpp,
      tls_accept_logic.cpp): advanced scope, the glob layer under it, match
      and replace, accepted certificates.
    - [H2Telemetry] (h2_events.cpp, h2_logic.cpp), [H2Headers]
      (h2_client_logic.cpp, h2_server_logic.cpp), [CertLogic] (cert_logic.cpp).
    - [ProxyConnection] (proxy_server.cpp, class Connection): [run], the tunnels
      and their three exchange loops, composed from the parts above and the
      session components; [ConnectionSpec]: what a connection guarantees.

    Sessions, Core/Networking:
    - [SessionManager] (session_manager.cpp, session_manager_logic.cpp): the cookie
      jar, capture and injection.
    - [Placeholders] (session_rules_logic.cpp, chain_runner_logic.cpp): the
      substitution loops.  [ChainRunner] (chain_runner.cpp, chain_runner_logic.cpp):
      request chains.  [SessionRules] (session_rules.cpp, session_rules_logic.cpp):
      extraction, injection, login macros and re-authentication.

    - [HttpClient] (networking.cpp, outbound_scope.cpp, networking_outcome.cpp): the
      client every tool sends with, over a socket that is a script of its rounds.

    Out-of-band callbacks, Core/APIs/Oast:
    - [Dns] (dns_logic.cpp, the answers of dns_sink.cpp): the query parser.
    - [Oast] (oast_server.cpp, dns_sink.cpp, oast_logic.cpp, oast_correlator.cpp):
      minting, the sinks and their hit logs, the remote poll, and the registry of
      tokens with its file.

    The tools, Core/Networking and Core/Storage:
    - [Utf8]: UTF-8 and code points, with an instance of the text classes that
      codes them for real.
    - [Transcode] (transcode.cpp): the decoder workbench, its detectors and
      smart decoding.
    - [Redirect] (redirect_logic.cpp, the loop of repeater.cpp): following redirects.
    - The intruder: [Intruder] (intruder_engine.cpp) generates requests,
      [IntruderGenerators] (intruder_generators.cpp, intruder_pool_logic.cpp) payloads,
      [IntruderRules] (intruder_rules.cpp) processes them, [IntruderRuns]
      (intruder_grep.cpp, intruder_persist_logic.cpp) greps answers and saves attacks,
      and [IntruderRunner] (intruder.cpp) composes them: the configuration, one
      request with its retries and redirects, and the run as steps of the GUI
      thread, the attack worker, its tasks and the calls they queue.
    - [Repeater] (repeater.cpp): the tabs, one send on the GUI thread or in the
      background, and the project state both ways.
    - [Crawler] (crawler.cpp, crawler_logic.cpp): links out of a page, the scope of a
      walk, and the walk as steps of its worker and the controlling thread.
    - [NetFraming] (networking_logic.cpp), [Compare] (compare.cpp), [CiGate]
      (ci_gate_logic.cpp), [HistoryLogic] (history_logic.cpp).

    The history and the project, Core/Storage and FrontEnd/GUI/Models/Proxy:
    - [ProxyModel] (proxy_model.cpp, proxy_filter_model.cpp, site_map_model.cpp): the
      table of captures as a window on a log, its filter and the list of hosts; the
      rows that control_server.cpp probes.
    - [ProjectMeta] (project_store.cpp, project_logic.cpp): project.json, the
      quarantine of imported rules, the edits of scope, rules, triage and session, and
      the names of projects.
    - [HistoryStore] (project_store.cpp, history_index.cpp): the lines of the history,
      opening, appending, clearing, notes and the index, and the steps that wire them
      to the table as app.cpp does.

    Extensions, Core/APIs/ExtensionsAPI and Core/Networking:
    - [Extensions] (extension_perms_logic.cpp, extensions_api.cpp): permissions, and
      the host of the scripts, over a JavaScript engine whose runs are trees of
      calls to the host's objects.
    - [Marketplace] (update_check_logic.cpp, update_check.cpp, marketplace_logic.cpp,
      marketplace.cpp): version precedence, the catalog, installs and removals.

    Templates, Core/Networking:
    - [NucleiYaml] (nuclei_yaml_logic.cpp): the reader of block-style YAML and the
      mapping of foreign templates.
    - [Templates] (template_engine_logic.cpp, template_request_logic.cpp): payload
      sets, the requests of a template, its matchers and its extractors.

    The control server, BackEnd/Control:
    - [ControlLogic] (control_logic.cpp): who may call what, the escaping and the
      filters of reports, configuration documents.
    - [ControlServer] (control_server.cpp, start to handle): the intake of connections
      and the state machine that reads a request up to its dispatch.

    ** How state and operations are modelled

    A C++ object is a Record of its fields and a method a function from the old
    state to the new one with its results; a method that runs under the
    object's mutex is one step.  Threads interleave through a step relation
    ([InterceptController.step]) whose actions are the methods called on the
    main thread, the queued deliveries and the two halves of a blocked worker;
    [Blocklist.step] and [SessionRules.sstep] do the same between the critical
    sections of calls and background tasks, [IntruderRunner.step] between a worker
    pool and the event loop, [Repeater.rstep] between a background send and the
    operator, [ControlServer.cstep] between peers and timers, [Crawler.kstep] between
    a walk and its controls, [Extensions.xstep] between the calls on the script host.  [HistoryStore.step] is
    what the event loop runs one at a time.
    A network is a function from the requests sent so
    far to the next answer ([Net]).
    A connection is the trace of its effects ([ProxyConnection.M], a writer with
    early exit) as a function of what the worker meets; its loops run over the
    list of exchanges for which their condition held, so they need no fuel.
    Errors are values ([option], verdict types).  [indexOf] gives an [option]
    for -1.  Integers are [Z] with the wrap-around written where the code's
    width matters; an overflow that C++ leaves undefined is [None].

    Loops that are not structural carry fuel, chosen from the data: bytes of
    the buffer for the parsers (each round consumes at least one), tokens of
    both sides for the diff's walk, the result cap for the intruder's loops.
    Each such loop has a theorem that its fuel is enough, so the results are
    unconditional: [feed_loop] in [ws_chunking_irrelevant], [decodeChunked_loop]
    in [decodeChunkedAvailable_bounded], [NetFraming.feed_loop] in
    [feedChunked_sound], [cluster_loop] in [generateCombinations_spec],
    [findMarkers_loop] in [applyPayloads_correct], [walk] in [diff_correct], the
    substitution loops in [substitution_single_pass], [product_loop] in
    [build_enumerates]; the YAML reader's nesting is bounded by its own guard, which
    [yaml_total] shows is never exceeded by the fuel.

    ** What the theorems show

    - Connections: every run keeps the proxy's contract ([connection_contract]);
      on HTTP/1 a request in scope is written to an origin only as the rules and the
      interceptor left it ([upstream_bytes_gated]); only trusted, in-scope tunnels are decrypted
      ([connect_decrypts_only]) and hosts are blocked for lasting reasons only
      ([blocklist_learning]); out of scope or with nothing configured the proxy is
      transparent ([plain_out_of_scope], [inert_exchange_transparent], whose
      conditions say which exchanges).
    - Message integrity: frames sent are frames delivered whatever the
      segmentation ([ws_stream_delivery], [ws_chunking_irrelevant]); chunked and
      length bodies are read exactly ([readChunkedBody_roundtrip],
      [readLengthBody_exact], [feedChunked_sound]); repairs of edited messages
      touch only what they should ([recomputeContentLength_surgical],
      [fixTrailingNewline_correct]); text views of requests are lossless
      ([request_text_roundtrip]); HTTP/2 translation is faithful
      ([h2_request_roundtrip]).
    - Request smuggling: the guard is characterised exactly
      ([isFramingSafe_iff]), agrees with the decoder
      ([framing_guard_decoder_agree]) and survives re-serialization
      when no bare line feed is in the request line ([forwarded_request_reparse]); Content-Length lists are unambiguous
      ([parseContentLengthHeaders_iff]).
    - Concurrency: no worker is lost, woken twice or left parked behind a
      disabled toggle ([intercept_safety]), the queue can always be drained
      ([intercept_drain]), unedited messages pass unchanged
      ([intercept_passthrough]) and in order ([intercept_fifo]); the blocklist file
      follows the set and its locks never deadlock ([blocklist_persisted],
      [blocklist_terminates]); re-authentication runs once per host and at most
      every five seconds ([reauth_guarded]).
    - Sessions: a request gets exactly the cookies of its host, path and transport
      ([cookie_injection_reference], [path_match_boundary]); no value ever crosses
      hosts ([session_values_provenance]); nothing taken from a target adds a line
      to a request ([cookie_injection_no_split], [session_injection_safe],
      [chain_requests_no_split]) or is expanded twice ([substitution_single_pass]);
      rewritten requests of less than 2 GiB and form bodies are exact
      ([normalizeContentLength_framing], [upsertFormParameter_correct]); the
      configuration survives its file ([jar_export_import],
      [session_config_roundtrip]).
    - Threads: worker threads are never lost and no running one is deleted
      ([worker_tracking]); shutdown can complete ([shutdown_completes]) and is final
      ([shutdown_is_final]).
    - Callbacks: any datagram is parsed within bounds ([dns_parse_safe]) and exactly
      the standard queries are accepted ([dns_parse_iff]) and answered
      ([dns_response_correct]); a minted URL leads back to its token
      ([mint_roundtrip]), a token is reported once ([one_report_per_token],
      [registered_callback_reported]) across restarts ([oast_state_roundtrip]), and
      cursors see each hit once ([poll_exactly_once]).
    - WebSocket tunnels: what passes is unchanged ([ws_relay_transparent]), what is
      reported is every message, inflated, for streams the relay follows
      ([ws_history_complete]), within bounds
      ([ws_relay_bounded]), and each tunnel is deregistered ([ws_relay_lifecycle]).
    - Policy: compiled scope equals its specification and fails closed
      ([scope_decision], [scope_fails_closed], [scope_gates_consistent]);
      rewriting is confined to the scope and keeps messages of less than 2 GiB framed
      ([match_replace_safe]); bad certificates are refused
      ([upstream_cert_fails_closed]); hosts cannot inject into openssl's input
      ([cert_host_no_injection]) nor filters into SQL
      ([find_query_injection_safe]).
    - Bounds: buffers, decoded bodies, telemetry and inflated messages stay
      within their caps ([ws_buffer_bounded], [inflateMessage_bounded],
      [decodeContentEncoding_bounded], [h2_telemetry_bounded]).
    - Tools: attacks, iterators and ranges equal their reference enumerations
      ([generateCombinations_spec], [customIterator_correct],
      [numbers_correct], [applyPayloads_correct]); a diff is a longest common
      subsequence diff of its inputs ([diff_correct]); the gate's verdict
      ([gate_decision]); the session registry refines its call log
      ([ws_registry_refines]).
    - The decoder workbench: operations never end in a half-failed result
      ([apply_well_typed]), what it encodes decodes back ([transcode_roundtrip],
      [escape_roundtrip]), smart decoding ends in a replayable chain
      ([smartDecode_replay]).
    - The HTTP client: nothing is written around the outbound scope
      ([send_scope_gated]), which decides on what the server will see
      ([scope_decides_target]); an answer is read from what arrived and, when its
      framing has an end, complete ([receive_sound]), every segmentation delivers it
      ([receive_delivers]) and each failure is reported as what it was
      ([send_failures]).
    - Redirects: a chain is bounded, allowed hop by hop ([follow_redirects_safe]) and
      leaks no credentials to another origin ([follow_headers]).
    - Attacks: progress is the number of complete rows and a run touches no
      complete row ([attack_run_safe]); every run can end, a list attack that is not
      stopped with every row complete ([attack_run_completes]); requests are retried only
      behind transport failures ([fire_one_requests]); settings stay in range
      ([settings_stay_bounded]); rules chain, slice and escape as documented
      ([rules_chain], [slice_rules], [url_encode_chars_roundtrip]); a saved attack
      survives its file ([saved_run_roundtrip]) and resumes what is missing
      ([resume_plan]).
    - The repeater: a background send delivers what a direct one would, into its own
      tab and over nothing else ([async_send_isolated]); one send is one exchange
      ([send_one_exchange]); tabs stay well formed ([repeater_well_formed]) and
      survive the project file ([repeater_project_roundtrip]).
    - The crawler stays in scope and in its bounds ([crawl_scoped]), misses no link of
      the pages it fetched ([crawl_complete]) and ends ([crawl_terminates]).
    - The history: the table shows the newest rows of the log under ids that are places
      in it ([window_refines_log]), the hosts are its counts ([site_map_counts]), the
      filter is exact ([filter_rows]); table, file and index mean the same row by an id
      as long as the queued calls of captures arrive in order ([history_ids_agree]) and a note stays with its row ([annotate_exact]).
    - The project: what is saved is read back ([metadata_roundtrip]), except rules with
      credentials whose host pattern is one of the wildcards looked for
      ([quarantine_on_load]); a missing setting is the safe
      one ([missing_settings_fail_closed]); a project's directory stays under its root
      ([project_name_safe]); triage edits are exact ([triage_exact]).
    - Extensions change traffic only with a declared capability
      ([mutation_needs_grant], [permission_granted_iff]) and add no
      line or field by its text ([mutations_well_formed]); what they and the user store lasts
      ([storage_survives_restart], [enablement_persists]).
    - Templates send one request per combination of their payloads ([build_enumerates]),
      each of them one message with the template's headers and body
      ([template_request_read]), and report as their matchers say
      ([evaluate_verdict]); what is written in block style without tabs is
      read back ([yaml_roundtrip]), any text is read ([yaml_total]), and literal blocks keep their
      lines ([literal_block_exact]).
    - Installs write verified files of offered entries under plain names
      ([install_safe], [catalog_entries_installable]) and are undone by removals
      ([uninstall_undoes_install]); the list shows what is on disk
      ([merge_reflects_disk]); versions are ordered as specified, with core numbers
      up to 2147483647 ([semver_reference]) and updates announced accordingly ([update_check_sound]).
    - The control server: nothing is dispatched around its gate
      ([dispatch_authorized], [token_gate_exact]), what peers hold is bounded
      ([intake_bounded]), every connection ends ([every_connection_ends]) and a
      valid request gets through however it is cut ([any_segmentation_dispatches]);
      reports read back as their findings and texts shape none
      ([xml_report_structure], [markdown_text_safe]),
      paths stay under their base ([safe_join_confined]), the pre-screen of patterns
      and the report filters are what they say ([catastrophic_regex_iff],
      [report_filters_agree]).
    - Defects shown by theorems: [content_length_list_drops_body],
      [bare_status_line_refused], [sanitize_identity_except_ipv6],
      [charBlocks_overflow], [brute_unbounded], [status_filter_truncated],
      [injection_splits_frame], [upgrade_leftover_not_parsed],
      [imported_host_unreachable], [cookie_name_smuggles], [max_age_sentinel],
      [chain_cookie_attribute], [url_key_corrupted], [body_injection_desync],
      [captured_braces_block_rule], [unnamed_macro_locks_host],
      [head_response_starves], [interim_response_desync], [connect_ipv6_split],
      [connect_early_bytes_lost], [empty_path_query],
      [h2_browser_h1_origin_malformed], [tunnelled_connect_unguarded],
      [tunnel_ignores_url_scope], [force_hold_hangs_shutdown],
      [registry_overflow_forgets], [poll_watermark], [ipv6_base_malformed],
      [follow_repeats_request_line], [resend_reflects_processed],
      [resend_ignores_scope], [resend_overtakes], [resend_keeps_reflected],
      [truncated_read_succeeds], [upgrade_answer_lost], [newer_version_accepted],
      [xml_noncharacter_kept], [port_zero_in_scope], [replaced_worker_not_joined],
      [request_body_corrupted], [partial_result_drops_request],
      [registration_during_dispatch], [registration_during_unload],
      [padded_id_shares_file], [payload_expanded_twice],
      [trailing_space_duplicates_length], [keep_adds_line],
      [escaped_quote_cuts_value], [inner_quote_keeps_comment],
      [big_integer_changes], [probe_wrong_rows], [site_map_keeps_evicted],
      [summary_path_corrupted], [quarantine_repeats], [failed_append_shifts_ids],
      [crossed_slots_swap_ids], [torn_line_swallows_next], [reopened_row_differs],
      [bare_lf_repeats_field], [quoted_tab_changes], [three_stars_not_quarantined],
      [grown_body_length], [huge_body_length], [big_core_reads_zero].

    ** Not modelled

    Sockets, TLS, openssl and nghttp2 drivers, SQLite, QML and the rest of the GUI
    are I/O or third-party; of the project store the HAR exchange, the findings file,
    the workspaces of the tools and the revision tokens are left out; the handlers behind the control server's dispatch map HTTP paths
    onto the components; the active scanners are lists of probes with text
    heuristics; the sequencer is floating-point statistics.  Of the session
    components only plain getters, change signals and the memo of compiled globs are
    left out; of the intruder its destructor, its pauses and the generators of
    Unicode payloads; of the extension host the watched paths and times; of
    the templates their folders on disk and the scan that runs them. *)

From stdpp Require Export base numbers list option strings sets gmap.
From Stdlib Require Ascii String.
From Stdlib Require Export ZArith Lia Bool.


#[global] Set Default Goal Selector "!".
#[global] Set Warnings "-clear-no-such-hyp".

Declare Scope nl_scope.
Delimit Scope nl_scope with nl.

(** ** Machine integers *)

Module Word.
Local Open Scope Z_scope.

Definition INT_MAX : Z := 2147483647.
Definition INT_MIN : Z := -2147483648.
Definition I64_MAX : Z := 9223372036854775807.
Definition I64_MIN : Z := -9223372036854775808.

(** Two's-complement reading of the low [w] bits (C++20 signed conversion). *)
Definition s64 (z : Z) : Z := (z + 2 ^ 63) mod 2 ^ 64 - 2 ^ 63.
Definition u8 (z : Z) : Z := z mod 2 ^ 8.
Definition u32 (z : Z) : Z := z mod 2 ^ 32.
(** The same of 32 bits: a size or a wider integer kept in an [int]. *)
Definition s32 (z : Z) : Z := (z + 2 ^ 31) mod 2 ^ 32 - 2 ^ 31.

Lemma s32_small z : - 2 ^ 31 <= z < 2 ^ 31 -> s32 z = z.
Proof. intros H. unfold s32. rewrite Z.mod_small; lia. Qed.

Lemma s64_small z : - 2 ^ 63 <= z < 2 ^ 63 -> s64 z = z.
Proof. intros H. unfold s64. rewrite Z.mod_small; lia. Qed.

Lemma s64_range z : - 2 ^ 63 <= s64 z < 2 ^ 63.
Proof. unfold s64. pose proof (Z.mod_pos_bound (z + 2 ^ 63) (2 ^ 64)). lia. Qed.

Lemma u8_range z : 0 <= u8 z < 256.
Proof. apply Z.mod_pos_bound. lia. Qed.

Lemma u8_small z : 0 <= z < 256 -> u8 z = z.
Proof. apply Z.mod_small. Qed.

(** Octets put together and taken apart. *)
Lemma lor_shiftl_8 h l : 0 <= l < 256 -> Z.lor (Z.shiftl h 8) l = h * 256 + l.
Proof.
  intros Hl. rewrite <- Z.lxor_lor, <- Z.add_nocarry_lxor.
  - rewrite Z.shiftl_mul_pow2 by lia. lia.
  - apply Z.bits_inj'. intros n Hn. rewrite Z.land_spec, Z.bits_0.
    destruct (Z.lt_ge_cases n 8).
    + by rewrite Z.shiftl_spec_low.
    + rewrite <- (Z.mod_small l (2 ^ 8)) by lia.
      by rewrite Z.mod_pow2_bits_high, andb_false_r by lia.
  - apply Z.bits_inj'. intros n Hn. rewrite Z.land_spec, Z.bits_0.
    destruct (Z.lt_ge_cases n 8).
    + by rewrite Z.shiftl_spec_low.
    + rewrite <- (Z.mod_small l (2 ^ 8)) by lia.
      by rewrite Z.mod_pow2_bits_high, andb_false_r by lia.
Qed.

Lemma shift_byte n k : 0 <= k -> Z.land (Z.shiftr n k) 255 = (n / 2 ^ k) mod 256.
Proof.
  intros Hk. change 255 with (Z.ones 8). by rewrite Z.land_ones, Z.shiftr_div_pow2 by lia.
Qed.

Lemma land_255 n : Z.land n 255 = n mod 256.
Proof. rewrite <- (Z.shiftr_0_r n) at 1. rewrite shift_byte by lia. by rewrite Z.div_1_r. Qed.
End Word.
Export Word.

(** ** String literals as lists of code units *)

Definition lit (s : String.string) : list Z :=
  map (fun a => Z.of_N (Ascii.N_of_ascii a)) (String.list_ascii_of_string s).

(** One character literal, ['c'] in the source. *)
Definition chr (s : String.string) : Z := hd 0%Z (lit s).

(** ** Boolean automation *)

Create HintDb nl.

Ltac split_bools :=
  repeat match goal with
  | H : _ && _ = true |- _ => apply andb_true_iff in H; destruct H
  | H : _ || _ = false |- _ => apply orb_false_iff in H; destruct H
  | H : negb _ = true |- _ => apply negb_true_iff in H
  | H : negb _ = false |- _ => apply negb_false_iff in H
  | H : bool_decide _ = true |- _ => apply bool_decide_eq_true in H
  | H : bool_decide _ = false |- _ => apply bool_decide_eq_false in H
  end.

(** The converse, in the goal. *)
Ltac join_bools :=
  repeat match goal with
  | |- _ && _ = true => apply andb_true_iff; split
  | |- negb _ = true => apply negb_true_iff
  end.

Ltac to_prop :=
  repeat match goal with
  | H : (_ <? _)%Z = true |- _ => apply Z.ltb_lt in H
  | H : (_ <? _)%Z = false |- _ => apply Z.ltb_ge in H
  | H : (_ <=? _)%Z = true |- _ => apply Z.leb_le in H
  | H : (_ <=? _)%Z = false |- _ => apply Z.leb_gt in H
  | H : (_ =? _)%Z = true |- _ => apply Z.eqb_eq in H
  | H : (_ =? _)%Z = false |- _ => apply Z.eqb_neq in H
  | H : (_ >? _)%Z = _ |- _ => rewrite Z.gtb_ltb in H
  | H : (_ >=? _)%Z = _ |- _ => rewrite Z.geb_leb in H
  | H : (_ <? _)%nat = true |- _ => apply Nat.ltb_lt in H
  | H : (_ <? _)%nat = false |- _ => apply Nat.ltb_ge in H
  | H : (_ <=? _)%nat = true |- _ => apply Nat.leb_le in H
  | H : (_ <=? _)%nat = false |- _ => apply Nat.leb_gt in H
  | H : (_ =? _)%nat = true |- _ => apply Nat.eqb_eq in H
  | H : (_ =? _)%nat = false |- _ => apply Nat.eqb_neq in H
  end.

(** Decide one comparison of the goal by arithmetic. *)
Ltac zdecide :=
  match goal with
  | |- context [(?a <? ?b)%Z] =>
      first [ rewrite (proj2 (Z.ltb_lt a b)) by lia | rewrite (proj2 (Z.ltb_ge a b)) by lia ]
  | |- context [(?a <=? ?b)%Z] =>
      first [ rewrite (proj2 (Z.leb_le a b)) by lia | rewrite (proj2 (Z.leb_gt a b)) by lia ]
  | |- context [(?a =? ?b)%Z] =>
      first [ rewrite (proj2 (Z.eqb_eq a b)) by lia | rewrite (proj2 (Z.eqb_neq a b)) by lia ]
  | |- context [(?a <? ?b)%nat] =>
      first [ rewrite (proj2 (Nat.ltb_lt a b)) by lia | rewrite (proj2 (Nat.ltb_ge a b)) by lia ]
  | |- context [(?a <=? ?b)%nat] =>
      first [ rewrite (proj2 (Nat.leb_le a b)) by lia | rewrite (proj2 (Nat.leb_gt a b)) by lia ]
  | |- context [(?a =? ?b)%nat] =>
      first [ rewrite (proj2 (Nat.eqb_eq a b)) by lia | rewrite (proj2 (Nat.eqb_neq a b)) by lia ]
  end.
Ltac zdecides := repeat (zdecide; cbn [andb orb negb]).

(** Case analysis on the scrutinee of the first [if] of the goal. *)
Ltac case_if E :=
  match goal with
  | |- context [if ?b then _ else _] => destruct b eqn:E
  end.

(** The same in a hypothesis. *)
Ltac case_if_in H E :=
  match type of H with
  | context [if ?b then _ else _] => destruct b eqn:E
  end.

(** ** Sizes *)

Definition zlen {A} (l : list A) : Z := Z.of_nat (length l).

Section Zlen.
Context {A : Type}.
Implicit Types l k : list A.
Local Open Scope Z_scope.

Lemma zlen_nonneg l : 0 <= zlen l.
Proof. unfold zlen. lia. Qed.
Lemma zlen_nil : zlen (@nil A) = 0.
Proof. done. Qed.
Lemma zlen_cons x l : zlen (x :: l) = zlen l + 1.
Proof. unfold zlen. simpl. lia. Qed.
Lemma zlen_app l k : zlen (l ++ k) = zlen l + zlen k.
Proof. unfold zlen. rewrite length_app. lia. Qed.
Lemma zlen_take n l : zlen (take n l) <= zlen l.
Proof. unfold zlen. rewrite length_take. lia. Qed.
Lemma zlen_drop n l : zlen (drop n l) <= zlen l.
Proof. unfold zlen. rewrite length_drop. lia. Qed.
End Zlen.

#[export] Hint Resolve zlen_nonneg : nl.
Create Rewrite HintDb nlsize.
#[export] Hint Rewrite @zlen_nil @zlen_cons @zlen_app : nlsize.

(** ** Boolean filters *)

Lemma elem_of_filter_bool {A} (f : A -> bool) (l : list A) x : x ∈ List.filter f l <-> x ∈ l /\ f x = true.
Proof. by rewrite !list_elem_of_In, filter_In. Qed.

Lemma filter_drop_all {A} (f : A -> bool) l : (forall x, x ∈ l -> f x = false) -> List.filter f l = [].
Proof.
  induction l as [|x l IH]; intros Hf; cbn; [done|]. rewrite Hf by left. apply IH. intros y Hy. apply Hf. by right.
Qed.

Lemma filter_keep_all {A} (f : A -> bool) l : (forall x, x ∈ l -> f x = true) -> List.filter f l = l.
Proof.
  induction l as [|x l IH]; intros Hf; cbn; [done|]. rewrite Hf by left. f_equal. apply IH. intros y Hy. apply Hf. by right.
Qed.

(** A computed result, for evaluations that do not read the whole state back. *)
Definition or_else {A} (d : A) (o : option A) : A := match o with Some a => a | None => d end.
Lemma some_or_else {A} (d : A) (o : option A) :
  (if o then true else false) = true -> o = Some (or_else d o).
Proof. by destruct o. Qed.

(** ** Reflexive transitive closure of a step relation *)

Section Steps.
Context {St Lab : Type} (step : St -> Lab -> St -> Prop).

Inductive steps : St -> list Lab -> St -> Prop :=
| steps_nil s : steps s [] s
| steps_cons s a s' tr s'' : step s a s' -> steps s' tr s'' -> steps s (a :: tr) s''.

Lemma steps_app s tr s' tr' s'' :
  steps s tr s' -> steps s' tr' s'' -> steps s (tr ++ tr') s''.
Proof. induction 1; simpl; eauto using steps. Qed.

(** Rule induction for invariants: a property kept by every step holds along
    every trace. *)
Lemma steps_invariant (P : St -> Prop) :
  (forall s a s', P s -> step s a s' -> P s') ->
  forall s tr s', steps s tr s' -> P s -> P s'.
Proof. intros Hs s tr s'. induction 1; eauto. Qed.

(** The same when the property speaks of the trace so far. *)
Lemma steps_invariant_trace (P : list Lab -> St -> Prop) :
  (forall pre s a s', P pre s -> step s a s' -> P (pre ++ [a]) s') ->
  forall pre s tr s', steps s tr s' -> P pre s -> P (pre ++ tr) s'.
Proof.
  intros Hs pre s tr s' H. revert pre. induction H as [s|s a s1 tr s2 H1 H2 IH]; intros pre HP.
  - by rewrite app_nil_r.
  - change (pre ++ a :: tr) with (pre ++ [a] ++ tr). rewrite app_assoc. eauto.
Qed.
End Steps.

(** A trace whose labels all satisfy a condition is a trace of the restricted relation. *)
Lemma steps_restrict {St Lab} (step : St -> Lab -> St -> Prop) (ok : Lab -> Prop) s tr s' :
  steps step s tr s' -> Forall ok tr -> steps (fun s a s' => step s a s' /\ ok a) s tr s'.
Proof.
  induction 1 as [s|s a s1 tr s2 H1 H2 IH]; intros Hok; [constructor|].
  apply Forall_cons in Hok as [Ha Hok]. econstructor; [by split|auto].
Qed.
