(* ===== verification/Qt.v ===== *)
(** * The Qt value types the program computes with

    [QByteArray] and [QString] are lists of code units held in [Z]: bytes in
    [0,256) and UTF-16 units in [0,65536).  The container operations of the two
    classes (append, [at], [left], [mid], [indexOf], [split], the ASCII case
    and white-space functions of [QByteArray], [number]) are list functions
    with the documented results.  What depends on the Unicode tables, on the
    UTF-8 codec, on the number parser or on PCRE is a parameter: the classes
    [QtText] and [QtRegex], with the documented facts the code relies on in
    [QtTextLaws]. *)

From S2P Require Import Prelude.

Local Open Scope Z_scope.

Abbreviation bytes := (list Z).
Abbreviation qstr := (list Z).

(** Well-formed byte arrays and strings. *)
Definition is_byte (b : Z) : Prop := 0 <= b < 256.
Definition wf_bytes (l : bytes) : Prop := Forall is_byte l.
Definition is_ascii (c : Z) : bool := (0 <=? c) && (c <? 128).
Definition all_ascii (s : qstr) : bool := forallb is_ascii s.

(** [a == b] on byte arrays and strings. *)
Definition seq_eqb (a b : list Z) : bool := bool_decide (a = b).

(** ** Sequence operations *)

(** [s.at(i)] / [s[i]]; every use below is in range. *)
Definition at_ (s : list Z) (i : nat) : Z := nth i s 0.

(** [s.mid(pos, len)]. *)
Definition mid (s : list Z) (pos len : nat) : list Z := take len (drop pos s).

(** [s.indexOf(c)] with [None] for -1. *)
Fixpoint index_of (c : Z) (s : list Z) : option nat :=
  match s with
  | [] => None
  | x :: s' => if x =? c then Some 0%nat else S <$> index_of c s'
  end.

(** [s.startsWith(p)]. *)
Fixpoint starts_with (p s : list Z) : bool :=
  match p, s with
  | [], _ => true
  | x :: p', y :: s' => (x =? y) && starts_with p' s'
  | _ :: _, [] => false
  end.

(** [s.indexOf(pattern)] and [s.indexOf(pattern, from)]. *)
Fixpoint index_sub (p s : list Z) : option nat :=
  if starts_with p s then Some 0%nat
  else match s with
       | [] => None
       | _ :: s' => S <$> index_sub p s'
       end.

Definition index_sub_from (p s : list Z) (from : nat) : option nat :=
  Nat.add from <$> index_sub p (drop from s).

Definition index_of_from (c : Z) (s : list Z) (from : nat) : option nat :=
  Nat.add from <$> index_of c (drop from s).

(** [s.lastIndexOf(c)]. *)
Definition last_index_of (c : Z) (s : list Z) : option nat :=
  (fun i => (length s - 1 - i)%nat) <$> index_of c (rev s).

(** [s.contains(...)], case-sensitive. *)
Definition contains_sub (p s : list Z) : bool :=
  match index_sub p s with Some _ => true | None => false end.
Definition contains_chr (c : Z) (s : list Z) : bool :=
  match index_of c s with Some _ => true | None => false end.

Definition starts_with_chr (c : Z) (s : list Z) : bool :=
  match s with x :: _ => x =? c | [] => false end.
Definition ends_with_chr (c : Z) (s : list Z) : bool :=
  match last s with Some x => x =? c | None => false end.
Definition ends_with (p s : list Z) : bool := starts_with (rev p) (rev s).

(** [s.chop(1)]. *)
Definition chop1 (s : list Z) : list Z := take (length s - 1) s.

(** [s.split(c)]: one more part than there are separators. *)
Fixpoint split_on (c : Z) (s : list Z) : list (list Z) :=
  match s with
  | [] => [[]]
  | x :: s' =>
      if x =? c then [] :: split_on c s'
      else match split_on c s' with
           | [] => [[x]]
           | p :: ps => (x :: p) :: ps
           end
  end.

Definition is_nil {A} (l : list A) : bool := match l with [] => true | _ => false end.

(** [Qt::SkipEmptyParts]. *)
Definition split_skip (c : Z) (s : list Z) : list (list Z) :=
  List.filter (fun p => negb (is_nil p)) (split_on c s).

(** [list.join(sep)]. *)
Fixpoint join (sep : list Z) (ps : list (list Z)) : list Z :=
  match ps with
  | [] => []
  | [p] => p
  | p :: ps' => p ++ sep ++ join sep ps'
  end.

(** [s.replace(before, after)] for a non-empty [before]: leftmost
    non-overlapping occurrences, left to right; [fuel] counts units. *)
Fixpoint replace_fuel (fuel : nat) (before after s : list Z) : list Z :=
  match fuel with
  | O => s
  | S fuel' =>
      match s with
      | [] => []
      | x :: s' =>
          if starts_with before s
          then after ++ replace_fuel fuel' before after (drop (length before) s)
          else x :: replace_fuel fuel' before after s'
      end
  end.
Definition replace_all (before after s : list Z) : list Z :=
  if is_nil before then s else replace_fuel (length s) before after s.

(** ** ASCII functions of [QByteArray] *)

Definition ascii_lower1 (c : Z) : Z := if (65 <=? c) && (c <=? 90) then c + 32 else c.
Definition ascii_upper1 (c : Z) : Z := if (97 <=? c) && (c <=? 122) then c - 32 else c.
Definition b_lower (s : bytes) : bytes := map ascii_lower1 s.

(** White space of [QByteArray::trimmed]: HT, LF, VT, FF, CR and SP. *)
Definition b_space (c : Z) : bool := ((9 <=? c) && (c <=? 13)) || (c =? 32).

Fixpoint drop_while (f : Z -> bool) (s : list Z) : list Z :=
  match s with
  | [] => []
  | x :: s' => if f x then drop_while f s' else s
  end.
Definition trim_by (f : Z -> bool) (s : list Z) : list Z :=
  rev (drop_while f (rev (drop_while f s))).
Definition b_trimmed (s : bytes) : bytes := trim_by b_space s.

Definition is_digit (c : Z) : bool := (48 <=? c) && (c <=? 57).
Definition digit_val (c : Z) : Z :=
  if is_digit c then c - 48
  else if (97 <=? c) && (c <=? 102) then c - 87
  else if (65 <=? c) && (c <=? 70) then c - 55
  else 99.
Definition is_hexdigit (c : Z) : bool :=
  is_digit c || ((97 <=? c) && (c <=? 102)) || ((65 <=? c) && (c <=? 70)).

(** Value of a digit string in [base], most significant digit first. *)
Definition digits_val (base : Z) (s : list Z) : Z :=
  fold_left (fun acc c => acc * base + digit_val c) s 0.

(** [QByteArray::number(n)] / [QString::number(n, base)] (lower-case digits). *)
Definition digit_chr (d : Z) : Z := if d <? 10 then 48 + d else 87 + d.
Fixpoint to_digits (fuel : nat) (base n : Z) (acc : list Z) : list Z :=
  match fuel with
  | O => acc
  | S fuel' =>
      let acc' := digit_chr (n mod base) :: acc in
      if n <? base then acc' else to_digits fuel' base (n / base) acc'
  end.
Definition number (base n : Z) : list Z :=
  if n <? 0 then 45 :: to_digits 64 base (- n) [] else to_digits 64 base n [].

(** [QByteArray::toHex]: two lower-case hex digits per byte. *)
Definition hex_byte (b : Z) : list Z := [digit_chr (b / 16); digit_chr (b mod 16)].
Definition to_hex (s : bytes) : list Z := flat_map hex_byte s.

(** ** What the model takes from Qt as parameters *)

Class QtText := {
  u_space : Z -> bool;                       (* QChar::isSpace *)
  u_lower : qstr -> qstr;                    (* QString::toLower *)
  u_upper : qstr -> qstr;                    (* QString::toUpper *)
  u_cieq : qstr -> qstr -> bool;             (* compare(_, CaseInsensitive) == 0 *)
  u_contains_ci : qstr -> qstr -> bool;      (* hay.contains(needle, CaseInsensitive) *)
  u_starts_ci : qstr -> qstr -> bool;        (* s.startsWith(p, CaseInsensitive) *)
  u_toutf8 : qstr -> bytes;                  (* QString::toUtf8 *)
  u_fromutf8 : bytes -> qstr;                (* QString::fromUtf8 *)
  u_tolatin1 : qstr -> bytes;                (* QString::toLatin1 *)
  u_tolonglong : Z -> list Z -> option Z;    (* toLongLong(&ok, base) *)
}.

(** [QString::trimmed]. *)
Definition u_trimmed {Q : QtText} (s : qstr) : qstr := trim_by u_space s.

(** [toInt(&ok, base)]: the [toLongLong] parse with the range of [int]. *)
Definition u_toint {Q : QtText} (base : Z) (s : list Z) : option Z :=
  match u_tolonglong base s with
  | Some v => if (INT_MIN <=? v) && (v <=? INT_MAX) then Some v else None
  | None => None
  end.

(** The documented facts the proofs use: on ASCII text the Unicode functions
    are the ASCII ones, Latin-1 and UTF-8 agree on ASCII, a digit string parses
    to its value when it fits 64 bits, parsing never leaves the range, and a
    comma (no group separators in the C locale) makes it fail. *)
Class QtTextLaws (Q : QtText) : Prop := {
  law_space_ascii c : is_ascii c = true -> u_space c = b_space c;
  law_lower_ascii s : all_ascii s = true -> u_lower s = map ascii_lower1 s;
  law_upper_ascii s : all_ascii s = true -> u_upper s = map ascii_upper1 s;
  law_cieq_ascii s t :
    all_ascii s = true -> all_ascii t = true ->
    u_cieq s t = seq_eqb (map ascii_lower1 s) (map ascii_lower1 t);
  law_toutf8_ascii s : all_ascii s = true -> u_toutf8 s = s;
  law_fromutf8_ascii s : all_ascii s = true -> u_fromutf8 s = s;
  law_tolatin1 s : Forall is_byte s -> u_tolatin1 s = s;
  law_tolonglong_digits base s :
    (base = 10 \/ base = 16) -> s <> [] ->
    forallb (fun c => digit_val c <? base) s = true ->
    u_tolonglong base s =
      (if digits_val base s <=? I64_MAX then Some (digits_val base s) else None);
  law_tolonglong_range base s v :
    u_tolonglong base s = Some v -> I64_MIN <= v <= I64_MAX;
  law_tolonglong_comma base s : 44 ∈ s -> u_tolonglong base s = None
}.

(** [QRegularExpression]: validity and "has a match", by pattern text and the
    case-insensitive option; [wildcardToRegularExpression]. *)
Class QtRegex := {
  rx_valid : bool -> qstr -> bool;
  rx_match : bool -> qstr -> qstr -> bool;
  rx_wildcard : qstr -> qstr;
}.

(** ** Lemmas on the sequence operations *)

Lemma seq_eqb_eq a b : seq_eqb a b = true <-> a = b.
Proof. unfold seq_eqb. by rewrite bool_decide_eq_true. Qed.

Lemma seq_eqb_refl a : seq_eqb a a = true.
Proof. by apply seq_eqb_eq. Qed.

Lemma is_nil_true {A} (l : list A) : is_nil l = true <-> l = [].
Proof. by destruct l. Qed.

Lemma at_app_r p s i : at_ (p ++ s) (length p + i) = at_ s i.
Proof. unfold at_. by rewrite app_nth2_plus. Qed.

Lemma at_app_l p s i : (i < length p)%nat -> at_ (p ++ s) i = at_ p i.
Proof. intros H. unfold at_. by rewrite app_nth1. Qed.

Lemma at_drop s n i : at_ (drop n s) i = at_ s (n + i).
Proof.
  unfold at_. revert s. induction n as [|n IH]; intros [|x s]; simpl; try done.
  by destruct i.
Qed.

Lemma at_wf s i : wf_bytes s -> is_byte (at_ s i).
Proof.
  unfold at_. intros H. revert i. induction H as [|x s Hx _ IH]; intros [|i]; simpl;
    try done; split; lia.
Qed.

Lemma mid_app p s n : mid (p ++ s) (length p) n = take n s.
Proof. unfold mid. by rewrite drop_app_length. Qed.

Lemma length_mid s p n : length (mid s p n) = (n `min` (length s - p))%nat.
Proof. unfold mid. by rewrite length_take, length_drop. Qed.

Lemma index_of_Some c s i :
  index_of c s = Some i ->
  (i < length s)%nat /\ at_ s i = c /\ index_of c (take i s) = None.
Proof.
  revert i. induction s as [|x s IH]; simpl; intros i H; [done|].
  destruct (x =? c) eqn:E.
  - simplify_eq. split; [lia|]. split; [by apply Z.eqb_eq in E|done].
  - destruct (index_of c s) as [j|] eqn:F; simplify_eq/=.
    destruct (IH j eq_refl) as (? & ? & Hn). split; [lia|]. split; [done|].
    rewrite E. by rewrite Hn.
Qed.

Lemma index_of_None c s : index_of c s = None <-> c ∉ s.
Proof.
  induction s as [|x s IH]; simpl.
  - split; [intros _; apply not_elem_of_nil|done].
  - rewrite not_elem_of_cons. destruct (x =? c) eqn:E.
    + apply Z.eqb_eq in E. split; [done|]. intros []; congruence.
    + apply Z.eqb_neq in E. destruct (index_of c s); simpl.
      * split; [done|]. intros [_ H]. by apply IH in H.
      * split; [|done]. intros _. split; [congruence|by apply IH].
Qed.

Lemma index_of_app c s t :
  c ∉ s -> index_of c (s ++ c :: t) = Some (length s).
Proof.
  induction s as [|x s IH]; simpl; intros H.
  - by rewrite Z.eqb_refl.
  - apply not_elem_of_cons in H as [H1 H2]. rewrite (proj2 (Z.eqb_neq x c)) by congruence.
    by rewrite IH.
Qed.

Lemma index_of_split c s i :
  index_of c s = Some i -> s = take i s ++ c :: drop (S i) s /\ c ∉ take i s.
Proof.
  intros H. destruct (index_of_Some _ _ _ H) as (Hl & Ha & Hn). split.
  - rewrite <- (take_drop i s) at 1. f_equal.
    rewrite (drop_S s c i); [done|].
    unfold at_ in Ha. destruct (nth_lookup_or_length s i 0) as [Hs|Hs]; [by rewrite Hs, Ha|lia].
  - by apply index_of_None.
Qed.

Lemma starts_with_spec p s : starts_with p s = true <-> exists t, s = p ++ t.
Proof.
  revert s. induction p as [|x p IH]; simpl; intros s.
  - split; eauto.
  - destruct s as [|y s]; simpl.
    + split; [done|]. intros [t Ht]. done.
    + rewrite andb_true_iff, Z.eqb_eq, IH. split.
      * intros [-> [t ->]]. eauto.
      * intros [t Ht]. simplify_eq. eauto.
Qed.

Lemma ends_with_spec p s : ends_with p s = true <-> exists u, s = u ++ p.
Proof.
  unfold ends_with. rewrite starts_with_spec. split; intros [t Ht].
  - exists (rev t). rewrite <- (rev_involutive s), Ht, rev_app_distr. by rewrite rev_involutive.
  - exists (rev t). by rewrite Ht, rev_app_distr.
Qed.

Lemma starts_with_app p t : starts_with p (p ++ t) = true.
Proof. apply starts_with_spec. eauto. Qed.

(** The first occurrence: a match at [i] and none earlier. *)
Lemma index_sub_Some p s i :
  index_sub p s = Some i ->
  (i <= length s)%nat /\ starts_with p (drop i s) = true /\
  forall j, (j < i)%nat -> starts_with p (drop j s) = false.
Proof.
  revert i. induction s as [|x s IH]; intros i H; simpl in H.
  - destruct (starts_with p []) eqn:E; simplify_eq. split; [simpl; lia|]. split; [done|lia].
  - destruct (starts_with p (x :: s)) eqn:E; simplify_eq/=.
    + split; [lia|]. split; [done|lia].
    + destruct (index_sub p s) as [k|]; simplify_eq/=.
      destruct (IH k eq_refl) as (? & ? & Hn). split; [lia|]. split; [done|].
      intros [|j] Hj; simpl; [done|]. apply Hn. lia.
Qed.

Lemma index_sub_None p s :
  index_sub p s = None -> forall j, (j <= length s)%nat -> starts_with p (drop j s) = false.
Proof.
  induction s as [|x s IH]; simpl; intros H j Hj.
  - destruct (starts_with p []) eqn:E; [done|]. replace j with 0%nat by lia. done.
  - destruct (starts_with p (x :: s)) eqn:E; [done|]. destruct j; simpl; [done|].
    destruct (index_sub p s); [done|]. apply IH; [done|lia].
Qed.

Lemma index_sub_intro p s i :
  (i <= length s)%nat -> starts_with p (drop i s) = true ->
  (forall j, (j < i)%nat -> starts_with p (drop j s) = false) ->
  index_sub p s = Some i.
Proof.
  intros Hi Hm Hf. destruct (index_sub p s) as [k|] eqn:E.
  - destruct (index_sub_Some _ _ _ E) as (Hk & Hs & Hn). f_equal.
    destruct (lt_eq_lt_dec k i) as [[?|?]|?]; [|done|].
    + by rewrite Hf in Hs.
    + by rewrite Hn in Hm.
  - by rewrite (index_sub_None _ _ E) in Hm.
Qed.

Lemma starts_with_firstn p s t : (length p <= length s)%nat -> starts_with p (s ++ t) = starts_with p s.
Proof.
  revert s. induction p as [|x p IH]; intros [|y s] Hl; cbn in *; try done; [lia|]. rewrite IH by lia. done.
Qed.

(** The first occurrence stays the first in a longer text. *)
Lemma index_sub_prefix p s t k : p <> [] -> index_sub p s = Some k -> index_sub p (s ++ t) = Some k.
Proof.
  intros Hp H. destruct (index_sub_Some _ _ _ H) as (Hl & Hs & Hf).
  assert (Hlen : (k + length p <= length s)%nat).
  { apply starts_with_spec in Hs as [u Hu]. apply (f_equal length) in Hu. rewrite length_drop, length_app in Hu.
    destruct p; [done|]. cbn [length] in *. lia. }
  apply index_sub_intro.
  - rewrite length_app. lia.
  - rewrite drop_app_le by lia. rewrite starts_with_firstn by (rewrite length_drop; lia). done.
  - intros j Hj. rewrite drop_app_le by lia. rewrite starts_with_firstn by (rewrite length_drop; lia). by apply Hf.
Qed.

Lemma split_on_not_nil c s : split_on c s <> [].
Proof. destruct s as [|x s]; simpl; [done|]. destruct (x =? c); [done|]. by destruct (split_on c s). Qed.

Lemma split_on_cons_ne c x s :
  x <> c -> exists p ps, split_on c s = p :: ps /\ split_on c (x :: s) = (x :: p) :: ps.
Proof.
  intros H. simpl. rewrite (proj2 (Z.eqb_neq x c) H).
  destruct (split_on c s) as [|p ps] eqn:E; [by apply split_on_not_nil in E|eauto].
Qed.

(** Splitting and joining on the separator is the identity. *)
Lemma join_split c s : join [c] (split_on c s) = s.
Proof.
  induction s as [|x s IH]; [done|]. destruct (decide (x = c)) as [->|Hx].
  - simpl. rewrite Z.eqb_refl. destruct (split_on c s) as [|p ps] eqn:E.
    + by apply split_on_not_nil in E.
    + change (join [c] ([] :: p :: ps)) with ([] ++ [c] ++ join [c] (p :: ps)).
      by rewrite IH.
  - destruct (split_on_cons_ne c x s Hx) as (p & ps & E1 & E2). rewrite E2, E1 in *.
    destruct ps; simpl in *; congruence.
Qed.

Lemma split_on_app c s t :
  c ∉ s -> split_on c (s ++ c :: t) = s :: split_on c t.
Proof.
  induction s as [|x s IH]; simpl; intros H.
  - by rewrite Z.eqb_refl.
  - apply not_elem_of_cons in H as [H1 H2].
    rewrite (proj2 (Z.eqb_neq x c)) by congruence. by rewrite IH.
Qed.

Lemma split_on_no c s : c ∉ s -> split_on c s = [s].
Proof.
  induction s as [|x s IH]; simpl; intros H; [done|].
  apply not_elem_of_cons in H as [H1 H2].
  rewrite (proj2 (Z.eqb_neq x c)) by congruence. by rewrite IH.
Qed.

Lemma split_on_sep c a b : split_on c (a ++ c :: b) = split_on c a ++ split_on c b.
Proof.
  induction a as [|x a IH]; [cbn; by rewrite Z.eqb_refl|]. cbn [app split_on]. rewrite IH. destruct (x =? c); [done|].
  pose proof (split_on_not_nil c a). by destruct (split_on c a).
Qed.

(** Splitting what was joined. *)
Lemma split_join c segs : segs <> [] -> Forall (fun s => c ∉ s) segs -> split_on c (join [c] segs) = segs.
Proof.
  induction segs as [|s segs IH]; intros Hn Hf; [done|]. apply Forall_cons in Hf as [Hs Hf].
  destruct segs as [|s' segs]; [by apply split_on_no|].
  change (join [c] (s :: s' :: segs)) with (s ++ c :: join [c] (s' :: segs)).
  rewrite split_on_app by done. by rewrite IH.
Qed.

Lemma split_on_parts c s p : p ∈ split_on c s -> c ∉ p.
Proof.
  revert p. induction s as [|x s IH]; simpl; intros p H.
  - apply list_elem_of_singleton in H as ->. apply not_elem_of_nil.
  - destruct (x =? c) eqn:E.
    + apply elem_of_cons in H as [->|H]; [apply not_elem_of_nil|eauto].
    + apply Z.eqb_neq in E. destruct (split_on c s) as [|q qs] eqn:F.
      * by apply split_on_not_nil in F.
      * apply elem_of_cons in H as [->|H].
        -- apply not_elem_of_cons. split; [congruence|]. apply IH. left.
        -- apply IH. by right.
Qed.

(** ** Numbers *)

Lemma digit_val_chr d : 0 <= d < 16 -> digit_val (digit_chr d) = d.
Proof.
  intros H. assert (Hd : In d (map Z.of_nat (seq 0 16))).
  { apply in_map_iff. exists (Z.to_nat d). split; [lia|]. apply in_seq. lia. }
  simpl in Hd. repeat (destruct Hd as [<-|Hd]; [done|]). done.
Qed.

Lemma digits_val_to_digits fuel base n acc :
  2 <= base <= 16 -> 0 <= n < base ^ Z.of_nat fuel ->
  digits_val base (to_digits fuel base n acc)
  = fold_left (fun a c => a * base + digit_val c) acc n.
Proof.
  intros Hb. revert n acc. induction fuel as [|fuel IH]; intros n acc Hn.
  - simpl in Hn. assert (n = 0) as -> by lia. done.
  - rewrite Nat2Z.inj_succ, Z.pow_succ_r in Hn by lia. cbn [to_digits].
    destruct (n <? base) eqn:E; to_prop.
    + unfold digits_val. cbn [fold_left]. rewrite Z.mod_small, digit_val_chr by lia. done.
    + rewrite IH.
      * cbn [fold_left]. rewrite digit_val_chr by (pose proof (Z.mod_pos_bound n base); lia).
        f_equal. pose proof (Z.div_mod n base). lia.
      * split; [apply Z.div_pos; lia|]. apply Z.div_lt_upper_bound; lia.
Qed.

(** The digits [number] writes: never a separator, a space or a line break. *)
Definition digit_like (base c : Z) : bool := (digit_val c <? base) && (0 <=? digit_val c).

Lemma to_digits_forall (P : Z -> Prop) fuel base n acc :
  2 <= base <= 16 -> 0 <= n ->
  (forall d, 0 <= d < base -> P (digit_chr d)) ->
  Forall P acc -> Forall P (to_digits fuel base n acc).
Proof.
  intros Hb Hn HP. revert n acc Hn. induction fuel as [|fuel IH]; intros n acc Hn Ha; [done|].
  cbn [to_digits]. pose proof (Z.mod_pos_bound n base).
  destruct (n <? base); [constructor; auto with lia|].
  apply IH; [apply Z.div_pos; lia|]. constructor; [apply HP; lia|done].
Qed.

Lemma to_digits_not_nil fuel base n acc : to_digits (S fuel) base n acc <> [].
Proof.
  revert n acc. induction fuel as [|fuel IH]; intros n acc; cbn [to_digits].
  - by destruct (n <? base).
  - destruct (n <? base); [done|]. apply IH.
Qed.

Definition is_alnum (c : Z) : bool := ((48 <=? c) && (c <=? 57)) || ((97 <=? c) && (c <=? 102)).

Lemma digit_chr_alnum d : 0 <= d < 16 -> is_alnum (digit_chr d) = true.
Proof.
  intros H. assert (Hd : In d (map Z.of_nat (seq 0 16))).
  { apply in_map_iff. exists (Z.to_nat d). split; [lia|]. apply in_seq. lia. }
  simpl in Hd. repeat (destruct Hd as [<-|Hd]; [done|]). done.
Qed.

Lemma number_alnum base n :
  2 <= base <= 16 -> 0 <= n -> Forall (fun c => is_alnum c = true) (number base n).
Proof.
  intros Hb Hn. unfold number. zdecide.
  apply to_digits_forall; try done. intros d Hd. apply digit_chr_alnum. lia.
Qed.

Lemma number_not_nil base n : 0 <= n -> number base n <> [].
Proof. intros Hn. unfold number. zdecide. apply to_digits_not_nil. Qed.

Lemma number_digits base n :
  2 <= base <= 16 -> 0 <= n -> forallb (fun c => digit_val c <? base) (number base n) = true.
Proof.
  intros Hb Hn. apply forallb_forall. apply List.Forall_forall. unfold number. zdecide.
  apply to_digits_forall; try done. intros d Hd. rewrite digit_val_chr by lia.
  apply Z.ltb_lt. lia.
Qed.

Lemma number_value base n : 2 <= base <= 16 -> 0 <= n <= I64_MAX -> digits_val base (number base n) = n.
Proof.
  intros Hb Hn. unfold number. zdecide. rewrite digits_val_to_digits; [done|done|].
  split; [lia|]. eapply Z.le_lt_trans; [apply Hn|].
  eapply Z.lt_le_trans; [|apply Z.pow_le_mono_l; split; [|apply Hb]; lia]. done.
Qed.

(** Parsing what [number] wrote. *)
Lemma tolonglong_number `{QtTextLaws} base n :
  base = 10 \/ base = 16 -> 0 <= n <= I64_MAX -> u_tolonglong base (number base n) = Some n.
Proof.
  intros Hb Hn. assert (2 <= base <= 16) by lia.
  rewrite law_tolonglong_digits; [|done|apply number_not_nil; lia|apply number_digits; lia].
  rewrite number_value by done. by zdecide.
Qed.

(** ** Trimming *)

Lemma drop_while_id f s : Forall (fun c => f c = false) s -> drop_while f s = s.
Proof. intros H. destruct H as [|x s Hx _]; simpl; [done|]. by rewrite Hx. Qed.

Lemma trim_by_id f s : Forall (fun c => f c = false) s -> trim_by f s = s.
Proof.
  intros H. unfold trim_by. rewrite (drop_while_id f s) by done.
  rewrite drop_while_id by by apply List.Forall_rev. apply rev_involutive.
Qed.

(** Only the ends matter. *)
Lemma drop_while_head f x s : f x = false -> drop_while f (x :: s) = x :: s.
Proof. intros H. simpl. by rewrite H. Qed.

Lemma drop_while_suffix f s : exists p, s = p ++ drop_while f s /\ Forall (fun c => f c = true) p.
Proof.
  induction s as [|x s (p & Hp & Hf)]; simpl; [by exists []|].
  destruct (f x) eqn:E; [|by exists []]. exists (x :: p). simpl. split; [congruence|by constructor].
Qed.

Lemma drop_while_headP f s : match drop_while f s with [] => True | x :: _ => f x = false end.
Proof. induction s as [|x s IH]; simpl; [done|]. destruct (f x) eqn:E; [done|by rewrite E]. Qed.

Lemma contains_sub_spec p s : contains_sub p s = true <-> exists a b, s = a ++ p ++ b.
Proof.
  unfold contains_sub. destruct (index_sub p s) as [i|] eqn:E.
  - split; [|done]. intros _. destruct (index_sub_Some _ _ _ E) as (_ & Hs & _). apply starts_with_spec in Hs as [t Ht].
    exists (take i s), t. by rewrite <- Ht, take_drop.
  - split; [done|]. intros (a & b & ->). pose proof (index_sub_None _ _ E (length a)) as H.
    rewrite drop_app_length, starts_with_app in H. rewrite length_app in H. by specialize (H ltac:(lia)).
Qed.

(** A part is a stretch of the text. *)
Lemma split_on_infix c s : forall p, p ∈ split_on c s -> exists a b, s = a ++ p ++ b.
Proof.
  assert (H : (exists t, s = hd [] (split_on c s) ++ t) /\ forall p, p ∈ split_on c s -> exists a b, s = a ++ p ++ b); [|apply H].
  induction s as [|x s [[t Ht] IH]]; cbn [split_on].
  - split; [by exists []|]. intros p ->%list_elem_of_singleton. by exists [], [].
  - destruct (x =? c).
    + split; [by exists (x :: s)|]. intros p [->|Hp]%elem_of_cons; [by exists [], (x :: s)|].
      destruct (IH p Hp) as (a & b & Hs). exists (x :: a), b. cbn [app]. by rewrite Hs at 1.
    + destruct (split_on c s) as [|q qs] eqn:F; [by apply split_on_not_nil in F|]. cbn [hd] in *.
      split; [exists t; cbn [app]; by rewrite Ht at 1|]. intros p [->|Hp]%elem_of_cons; [exists [], t; cbn [app]; by rewrite Ht at 1|].
      destruct (IH p) as (a & b & Hs); [by apply elem_of_cons; right|]. exists (x :: a), b. cbn [app]. by rewrite Hs at 1.
Qed.

Lemma drop_while_app_all f s t : Forall (fun c => f c = true) s -> drop_while f (s ++ t) = drop_while f t.
Proof. induction 1 as [|x s Hx _ IH]; [done|]. cbn [app drop_while]. by rewrite Hx. Qed.

Lemma drop_while_idem f s : drop_while f (drop_while f s) = drop_while f s.
Proof.
  pose proof (drop_while_headP f s) as H. destruct (drop_while f s) as [|x t]; [done|].
  by apply drop_while_head.
Qed.

Lemma drop_while_snoc f s x : f x = false -> drop_while f (s ++ [x]) = drop_while f s ++ [x].
Proof.
  intros H. induction s as [|y s IH]; simpl; [by rewrite H|].
  by destruct (f y).
Qed.

(** Shape of a trimmed string: no trimmable unit at either end. *)
Definition ends_clean (f : Z -> bool) (s : list Z) : Prop :=
  match s with [] => True | x :: _ => f x = false end /\
  match last s with None => True | Some y => f y = false end.

Lemma trim_by_clean f s : ends_clean f s -> trim_by f s = s.
Proof.
  intros [H1 H2]. unfold trim_by. destruct s as [|x s]; [done|].
  rewrite drop_while_head by done. destruct (rev (x :: s)) as [|y t] eqn:E.
  - apply (f_equal (@rev Z)) in E. rewrite rev_involutive in E. done.
  - apply (f_equal (@rev Z)) in E. rewrite rev_involutive in E. simpl in E.
    rewrite E, last_snoc in H2. rewrite drop_while_head by done. by rewrite E.
Qed.

Lemma ends_clean_trim f s : ends_clean f (trim_by f s).
Proof.
  unfold trim_by. set (t := drop_while f s). pose proof (drop_while_headP f s) as Ht. fold t in Ht.
  pose proof (drop_while_headP f (rev t)) as Hr.
  destruct (drop_while_suffix f (rev t)) as (p & Hp & Hf).
  set (u := drop_while f (rev t)) in *.
  assert (Htu : t = rev u ++ rev p) by (rewrite <- rev_app_distr, <- Hp; by rewrite rev_involutive).
  split.
  - destruct (rev u) as [|x v] eqn:E; [done|]. rewrite Htu in Ht. done.
  - destruct u as [|y v]; simpl; [done|]. by rewrite last_snoc.
Qed.

Lemma trim_by_idem f s : trim_by f (trim_by f s) = trim_by f s.
Proof. apply trim_by_clean, ends_clean_trim. Qed.

Lemma trim_by_incl f s x : x ∈ trim_by f s -> x ∈ s.
Proof.
  assert (H : forall t, x ∈ drop_while f t -> x ∈ t).
  { intros t Hx. destruct (drop_while_suffix f t) as (p & Hp & _). rewrite Hp.
    apply elem_of_app. by right. }
  unfold trim_by. intros Hx. apply list_elem_of_In, in_rev, list_elem_of_In, H in Hx.
  apply list_elem_of_In, in_rev, list_elem_of_In in Hx. by apply H.
Qed.

(** ** ASCII text *)

Lemma all_ascii_elem s c : all_ascii s = true -> c ∈ s -> is_ascii c = true.
Proof. unfold all_ascii. rewrite forallb_forall. intros H Hc. by apply H, list_elem_of_In. Qed.

Lemma all_ascii_incl s t : all_ascii s = true -> (forall c, c ∈ t -> c ∈ s) -> all_ascii t = true.
Proof.
  intros H Hi. apply forallb_forall. intros c Hc. apply list_elem_of_In in Hc.
  eapply all_ascii_elem; eauto.
Qed.

Lemma all_ascii_app s t : all_ascii (s ++ t) = all_ascii s && all_ascii t.
Proof. apply forallb_app. Qed.

Lemma trim_by_ext_in f g s : (forall c, c ∈ s -> f c = g c) -> trim_by f s = trim_by g s.
Proof.
  assert (Hd : forall s, (forall c, c ∈ s -> f c = g c) -> drop_while f s = drop_while g s).
  { clear s. intros s. induction s as [|x s IH]; intros H; simpl; [done|].
    rewrite (H x) by left. destruct (g x); [|done]. apply IH. intros c Hc. apply H. by right. }
  intros H. unfold trim_by. rewrite (Hd s H). rewrite (Hd (rev (drop_while g s))); [done|].
  intros c Hc. apply H. apply list_elem_of_In, in_rev, list_elem_of_In in Hc.
  destruct (drop_while_suffix g s) as (p & -> & _). apply elem_of_app. by right.
Qed.

Lemma u_trimmed_ascii `{QtTextLaws} s : all_ascii s = true -> u_trimmed s = b_trimmed s.
Proof. intros Ha. apply trim_by_ext_in. intros c Hc. apply law_space_ascii. by eapply all_ascii_elem. Qed.

Lemma split_on_elem c s p x : p ∈ split_on c s -> x ∈ p -> x ∈ s.
Proof.
  intros Hp Hx. revert p Hp Hx. induction s as [|y s IH]; simpl; intros p Hp Hx.
  - apply list_elem_of_singleton in Hp as ->. done.
  - destruct (y =? c).
    + apply elem_of_cons in Hp as [->|Hp]; [by apply not_elem_of_nil in Hx|]. right. eauto.
    + destruct (split_on c s) as [|q qs] eqn:E; [by apply split_on_not_nil in E|].
      apply elem_of_cons in Hp as [->|Hp]; [|right; eapply IH; [by right|done]].
      apply elem_of_cons in Hx as [->|Hx]; [left|right; eapply IH; [left|done]].
Qed.

(** ** Replacement *)

Lemma replace_fuel_enough before after : before <> [] -> forall n s f,
  (length s <= n)%nat -> (length s <= f)%nat ->
  replace_fuel f before after s = replace_fuel (length s) before after s.
Proof.
  intros Hb. induction n as [|n IH]; intros s f Hn Hf.
  - destruct s; [by destruct f|cbn in Hn; lia].
  - destruct s as [|x s]; [by destruct f|]. destruct f as [|f]; [cbn in Hf; lia|].
    cbn [length] in *. cbn [replace_fuel]. destruct (starts_with before (x :: s)); f_equal.
    + assert (Hd : (length (drop (length before) (x :: s)) <= length s)%nat)
        by (rewrite length_drop; destruct before; [done|]; cbn [length]; lia).
      transitivity (replace_fuel (length (drop (length before) (x :: s))) before after (drop (length before) (x :: s)));
        [apply IH; lia|symmetry; apply IH; lia].
    + apply IH; lia.
Qed.

(** [replace_all] unit by unit. *)
Lemma replace_all_cons before after x s :
  before <> [] ->
  replace_all before after (x :: s) =
    if starts_with before (x :: s) then after ++ replace_all before after (drop (length before) (x :: s))
    else x :: replace_all before after s.
Proof.
  intros Hb. unfold replace_all. assert (is_nil before = false) as -> by (by destruct before).
  cbn [length replace_fuel]. destruct (starts_with before (x :: s)); f_equal.
  apply (replace_fuel_enough before after Hb (length s)); rewrite length_drop; destruct before; try done; cbn [length]; lia.
Qed.

Lemma replace_all_nil before after : replace_all before after [] = [].
Proof. unfold replace_all. by destruct (is_nil before). Qed.
