(* ===== verification/QtSample.v ===== *)
(** * A concrete Qt text layer

    An ASCII instance of [QtText] that satisfies [QtTextLaws], and a literal
    instance of [QtRegex]; the theorems' witnesses are evaluated on them. *)

From S2P Require Import Prelude Qt.

Local Open Scope Z_scope.

Definition sample_sign (s : list Z) : Z * list Z :=
  match s with
  | c :: s' => if c =? 45 then (-1, s') else if c =? 43 then (1, s') else (1, s)
  | [] => (1, s)
  end.

(** White space around, an optional sign, then one or more digits of the base. *)
Definition sample_tolonglong (base : Z) (s : list Z) : option Z :=
  let '(sg, d) := sample_sign (b_trimmed s) in
  if is_nil d then None
  else if negb (forallb (fun c => (digit_val c <? base) && negb (c =? 44)) d) then None
  else
    let v := sg * digits_val base d in
    if (I64_MIN <=? v) && (v <=? I64_MAX) then Some v else None.

Definition lower_eq (s t : list Z) : bool := seq_eqb (map ascii_lower1 s) (map ascii_lower1 t).

Definition asciiText : QtText := {|
  u_space := b_space;
  u_lower := map ascii_lower1;
  u_upper := map ascii_upper1;
  u_cieq := lower_eq;
  u_contains_ci hay p := contains_sub (map ascii_lower1 p) (map ascii_lower1 hay);
  u_starts_ci s p := starts_with (map ascii_lower1 p) (map ascii_lower1 s);
  u_toutf8 := map (fun c => if (0 <=? c) && (c <? 256) then c else 63);
  u_fromutf8 s := s;
  u_tolatin1 := map (fun c => if c <? 256 then c else 63);
  u_tolonglong := sample_tolonglong
|}.

(** Patterns matched as literal substrings. *)
Definition literalRegex : QtRegex := {|
  rx_valid _ _ := true;
  rx_match _ p s := contains_sub p s;
  rx_wildcard p := p
|}.

Lemma digit_no_space base c :
  base <= 16 -> (digit_val c <? base) = true ->
  b_space c = false /\ (c =? 45) = false /\ (c =? 43) = false /\ (c =? 44) = false.
Proof.
  intros Hb H. unfold digit_val, b_space, is_digit in *.
  repeat case_match; split_bools; to_prop; try lia;
  repeat split; try (apply Z.eqb_neq; lia);
  apply orb_false_iff; split; try (apply Z.eqb_neq; lia);
  apply andb_false_iff; rewrite !Z.leb_gt; lia.
Qed.

(** A text of digits of the base is read as their value. *)
Lemma sample_reads_digits base s :
  base <= 16 -> s <> [] -> forallb (fun c => digit_val c <? base) s = true ->
  sample_sign (b_trimmed s) = (1, s) /\
  forallb (fun c => (digit_val c <? base) && negb (c =? 44)) s = true.
Proof.
  intros Hb Hs Hd. rewrite forallb_forall in Hd.
  assert (Hall : forall c, In c s -> b_space c = false /\ (c =? 45) = false /\
            (c =? 43) = false /\ (c =? 44) = false)
    by (intros c Hc; apply (digit_no_space base); [lia|by apply Hd]).
  assert (Ht : b_trimmed s = s).
  { apply trim_by_id, List.Forall_forall. intros c Hc. by apply Hall. }
  rewrite Ht. split.
  - destruct s as [|c s']; [done|]. simpl. destruct (Hall c) as (_ & -> & -> & _); [by left|done].
  - apply forallb_forall. intros c Hc. rewrite Hd by done. by destruct (Hall c Hc) as (_ & _ & _ & ->).
Qed.

Lemma digits_val_nonneg base s : 0 <= base -> 0 <= digits_val base s.
Proof.
  intros Hb. unfold digits_val.
  assert (G : forall l a, 0 <= a -> 0 <= fold_left (fun acc c => acc * base + digit_val c) l a).
  { induction l as [|c l IH]; intros a Ha; cbn [fold_left]; [done|]. apply IH.
    assert (0 <= digit_val c); [|nia].
    unfold digit_val, is_digit. repeat case_match; split_bools; to_prop; lia. }
  by apply G.
Qed.

(** Trimming and the sign leave a comma where it was. *)
Lemma comma_drop_while t : 44 ∈ t -> 44 ∈ drop_while b_space t.
Proof.
  intros Ht. destruct (drop_while_suffix b_space t) as (p & Hp & Hf).
  rewrite Hp in Ht. apply elem_of_app in Ht as [Ht|Ht]; [|done].
  rewrite Forall_forall in Hf. by apply Hf in Ht.
Qed.

Lemma comma_trimmed t : 44 ∈ t -> 44 ∈ b_trimmed t.
Proof.
  unfold b_trimmed, trim_by. intros Ht.
  rewrite list_elem_of_In, <- in_rev, <- list_elem_of_In. apply comma_drop_while.
  rewrite list_elem_of_In, <- in_rev, <- list_elem_of_In. by apply comma_drop_while.
Qed.

Lemma comma_after_sign t sg d : 44 ∈ t -> sample_sign t = (sg, d) -> 44 ∈ d.
Proof.
  intros Hc Hs. destruct t as [|c t]; [by apply not_elem_of_nil in Hc|].
  simpl in Hs. destruct (c =? 45) eqn:E1; [|destruct (c =? 43) eqn:E2]; simplify_eq; [| |done];
    by apply elem_of_cons in Hc as [<-|Hc].
Qed.

#[export] Instance asciiText_laws : QtTextLaws asciiText.
Proof.
  split; try done.
  - intros s H. cbn. rewrite <- (map_id s) at 2. apply map_ext_in. intros c Hc. apply list_elem_of_In in Hc.
    pose proof (all_ascii_elem _ _ H Hc) as Ha. unfold is_ascii in Ha. split_bools. to_prop. by zdecides.
  - intros s H. cbn. rewrite <- (map_id s) at 2. apply map_ext_in. intros c Hc.
    rewrite Forall_forall in H. apply list_elem_of_In, H in Hc. unfold is_byte in Hc. by zdecide.
  - intros base s Hb Hs Hd. cbn. unfold sample_tolonglong.
    destruct (sample_reads_digits base s ltac:(lia) Hs Hd) as [-> ->].
    destruct (is_nil s) eqn:E; [by apply is_nil_true in E|]. cbn [negb]. rewrite Z.mul_1_l.
    pose proof (digits_val_nonneg base s ltac:(lia)).
    unfold I64_MIN. zdecide. done.
  - intros base s v H. cbn in H. unfold sample_tolonglong in H.
    destruct (sample_sign _). repeat case_match; simplify_eq. split_bools. to_prop. done.
  - intros base s H. cbn. unfold sample_tolonglong.
    destruct (sample_sign (b_trimmed s)) as [sg d] eqn:Es.
    apply comma_trimmed in H. pose proof (comma_after_sign _ _ _ H Es) as Hin.
    destruct (is_nil d); [done|].
    destruct (forallb _ d) eqn:E; [|done].
    rewrite forallb_forall in E. apply list_elem_of_In, E in Hin. split_bools. done.
Qed.
