(* ===== verification/QMap.v ===== *)
(** * QMap: an ordered map as its key-sorted list of entries

    The maps of the modelled code that are iterated ([QMap], [QJsonObject]) are
    lists of entries in strictly increasing key order.  [KeyOrder] is the
    comparison the key type's [operator<] provides, with instances for integers
    and for strings (lexicographic on code units, as [QString::operator<]). *)

From S2P Require Import Prelude.

Class KeyOrder (K : Type) := {
  klt : K -> K -> bool;
  klt_irrefl a : klt a a = false;
  klt_trans a b c : klt a b = true -> klt b c = true -> klt a c = true;
  klt_total a b : klt a b = false -> klt b a = false -> a = b
}.

#[export] Instance Z_order : KeyOrder Z.
Proof. refine {| klt := Z.ltb |}; intros; to_prop; rewrite ?Z.ltb_irrefl, ?Z.ltb_lt; lia || done. Defined.

Fixpoint str_ltb (a b : list Z) : bool :=
  match a, b with
  | _, [] => false
  | [], _ :: _ => true
  | x :: a', y :: b' => if (x <? y)%Z then true else if (y <? x)%Z then false else str_ltb a' b'
  end.

#[export] Instance str_order : KeyOrder (list Z).
Proof.
  refine {| klt := str_ltb |}.
  - induction a as [|x a IH]; simpl; [done|]. by rewrite Z.ltb_irrefl.
  - induction a as [|x a IH]; intros [|y b] [|z c]; simpl; try done.
    intros H1 H2. repeat case_match; to_prop; try done; try lia. eauto.
  - induction a as [|x a IH]; intros [|y b]; simpl; try done.
    intros H1 H2. repeat case_match; to_prop; try done. f_equal; [lia|auto].
Defined.

Section QMap.
Context {K V : Type} `{KeyOrder K}.
Implicit Types (m : list (K * V)) (k : K) (v : V).

Fixpoint qm_get k m : option V :=
  match m with
  | [] => None
  | (k', v') :: m' =>
      if klt k' k then qm_get k m' else if klt k k' then None else Some v'
  end.

Definition qm_has k m : bool := match qm_get k m with Some _ => true | None => false end.

Fixpoint qm_insert k v m : list (K * V) :=
  match m with
  | [] => [(k, v)]
  | (k', v') :: m' =>
      if klt k' k then (k', v') :: qm_insert k v m'
      else if klt k k' then (k, v) :: m
      else (k', v) :: m'
  end.

Fixpoint qm_remove k m : list (K * V) :=
  match m with
  | [] => []
  | (k', v') :: m' =>
      if klt k' k then (k', v') :: qm_remove k m'
      else if klt k k' then m
      else m'
  end.

(** Every key of [m] is above [k]. *)
Definition above k m : Prop := Forall (fun e => klt k (fst e) = true) m.

Fixpoint qm_sorted m : Prop :=
  match m with [] => True | (k, _) :: m' => above k m' /\ qm_sorted m' end.

#[export] Instance qm_sorted_dec m : Decision (qm_sorted m).
Proof. induction m as [|[k v] m IH]; cbn [qm_sorted]; unfold above; apply _. Defined.

Lemma klt_asym a b : klt a b = true -> klt b a = false.
Proof.
  intros Hab. destruct (klt b a) eqn:E; [|done].
  rewrite <- (klt_irrefl a). symmetry. by apply (klt_trans a b a).
Qed.

Lemma above_trans k k' m : klt k k' = true -> above k' m -> above k m.
Proof. intros Hk Ha. eapply Forall_impl; [exact Ha|]. intros e He. by eapply klt_trans. Qed.

Lemma above_insert k k' v m : klt k k' = true -> above k m -> above k (qm_insert k' v m).
Proof.
  intros Hk. induction 1 as [|[k1 v1] m Hh Ht IH]; simpl; [by constructor|].
  destruct (klt k1 k'); [by constructor|]. destruct (klt k' k1); repeat (constructor; try done).
Qed.

Lemma above_remove k k' m : above k m -> above k (qm_remove k' m).
Proof.
  induction 1 as [|[k1 v1] m Hh Ht IH]; simpl; [constructor|].
  destruct (klt k1 k'); [by constructor|]. destruct (klt k' k1); [by constructor|done].
Qed.

Lemma qm_insert_sorted k v m : qm_sorted m -> qm_sorted (qm_insert k v m).
Proof.
  induction m as [|[k1 v1] m IH]; simpl; [by repeat constructor|]. intros [Ha Hs].
  destruct (klt k1 k) eqn:E1; simpl.
  - split; [by apply above_insert|auto].
  - destruct (klt k k1) eqn:E2; simpl.
    + split; [|done]. constructor; [done|]. by eapply above_trans.
    + done.
Qed.

Lemma qm_remove_sorted k m : qm_sorted m -> qm_sorted (qm_remove k m).
Proof.
  induction m as [|[k1 v1] m IH]; simpl; [done|]. intros [Ha Hs].
  destruct (klt k1 k); simpl; [split; [by apply above_remove|auto]|].
  destruct (klt k k1); simpl; done.
Qed.

Lemma qm_get_above k m : above k m -> qm_get k m = None.
Proof.
  destruct 1 as [|[k1 v1] m Hh Ht]; simpl in *; [done|]. by rewrite (klt_asym _ _ Hh), Hh.
Qed.

Lemma qm_get_insert k v m : qm_get k (qm_insert k v m) = Some v.
Proof.
  induction m as [|[k1 v1] m IH]; simpl; [by rewrite klt_irrefl|].
  destruct (klt k1 k) eqn:E1; simpl; [by rewrite E1|].
  destruct (klt k k1) eqn:E2; simpl; [by rewrite klt_irrefl|by rewrite E1, E2].
Qed.

Lemma qm_get_insert_ne k k' v m : k <> k' -> qm_get k (qm_insert k' v m) = qm_get k m.
Proof.
  intros Hne. induction m as [|[k1 v1] m IH]; simpl.
  - destruct (klt k' k) eqn:E1; [done|]. destruct (klt k k') eqn:E2; [done|].
    by destruct Hne; apply klt_total.
  - destruct (klt k1 k') eqn:E1; simpl; [by rewrite IH|].
    destruct (klt k' k1) eqn:E2; simpl.
    + destruct (klt k' k) eqn:E3; [done|]. destruct (klt k k') eqn:E4.
      * rewrite (klt_asym k k1), (klt_trans k k' k1) by (done || by eapply klt_trans). done.
      * by destruct Hne; apply klt_total.
    + assert (k1 = k') as -> by by apply klt_total.
      destruct (klt k' k) eqn:E3; [done|]. destruct (klt k k') eqn:E4; [done|].
      by destruct Hne; apply klt_total.
Qed.

Lemma qm_get_remove k m : qm_sorted m -> qm_get k (qm_remove k m) = None.
Proof.
  induction m as [|[k1 v1] m IH]; simpl; [done|]. intros [Ha Hs].
  destruct (klt k1 k) eqn:E1; simpl; [rewrite E1; auto|].
  destruct (klt k k1) eqn:E2; simpl; [by rewrite E1, E2|].
  assert (k1 = k) as -> by by apply klt_total. by apply qm_get_above.
Qed.

Lemma qm_get_remove_ne k k' m : qm_sorted m -> k <> k' -> qm_get k (qm_remove k' m) = qm_get k m.
Proof.
  intros Hs Hne. induction m as [|[k1 v1] m IH]; simpl in *; [done|]. destruct Hs as [Ha Hs].
  destruct (klt k1 k') eqn:E1; simpl; [by rewrite IH|].
  destruct (klt k' k1) eqn:E2; simpl; [done|].
  assert (k1 = k') as -> by by apply klt_total.
  destruct (klt k' k) eqn:E3; [done|]. destruct (klt k k') eqn:E4.
  - apply qm_get_above. by eapply above_trans.
  - by destruct Hne; apply klt_total.
Qed.

Lemma qm_get_In k v m : qm_sorted m -> qm_get k m = Some v <-> In (k, v) m.
Proof.
  induction m as [|[k1 v1] m IH]; simpl; [split; [done|tauto]|]. intros [Ha Hs].
  destruct (klt k1 k) eqn:E1.
  - rewrite IH by done. split; [auto|]. intros [[= -> ->]|]; [|done]. by rewrite klt_irrefl in E1.
  - destruct (klt k k1) eqn:E2.
    + split; [done|]. intros [[= -> ->]|Hi]; [by rewrite klt_irrefl in E2|].
      pose proof (proj1 (List.Forall_forall _ _) (above_trans _ _ _ E2 Ha) _ Hi) as Hc.
      simpl in Hc. by rewrite klt_irrefl in Hc.
    + assert (k1 = k) as -> by by apply klt_total. split; [intros [= ->]; auto|].
      intros [[= ->]|Hi]; [done|]. pose proof (proj1 (List.Forall_forall _ _) Ha _ Hi) as Hc.
      simpl in Hc. by rewrite klt_irrefl in Hc.
Qed.

Lemma qm_insert_length k v m :
  (length (qm_insert k v m) <= S (length m))%nat /\ (length m <= length (qm_insert k v m))%nat.
Proof.
  induction m as [|[k1 v1] m IH]; simpl; [lia|].
  destruct (klt k1 k); simpl; [lia|]. destruct (klt k k1); simpl; lia.
Qed.

Lemma qm_remove_length k m v : qm_get k m = Some v -> S (length (qm_remove k m)) = length m.
Proof.
  induction m as [|[k1 v1] m IH]; simpl; [done|].
  destruct (klt k1 k) eqn:E1; simpl; [intros; by rewrite IH|].
  by destruct (klt k k1).
Qed.
End QMap.

#[export] Hint Resolve qm_insert_sorted qm_remove_sorted : nl.
