(* ===== verification/Json.v ===== *)
(** * JSON values: [QJsonValue], [QJsonObject], [QJsonArray]

    A value is what Qt 6 stores: integers and other doubles apart, objects as
    key-sorted entries ([QMap.v]).  The accessors are Qt's: a value of another
    type gives the default.  JSON text is a parameter: [QtJson] with the law that
    text written by Qt reads back. *)

From Stdlib Require Import SpecFloat.
From S2P Require Import Prelude Qt QMap.

Local Open Scope Z_scope.

Inductive json :=
| JUndefined
| JNull
| JBool (b : bool)
| JInt (n : Z)
| JDouble (d : spec_float)
| JString (s : qstr)
| JArray (l : list json)
| JObject (m : list (qstr * json)).

Definition toBool (d : bool) (v : json) : bool := match v with JBool b => b | _ => d end.
Definition toString (v : json) : qstr := match v with JString s => s | _ => [] end.
Definition toObject (v : json) : list (qstr * json) := match v with JObject m => m | _ => [] end.
Definition toArray (v : json) : list json := match v with JArray l => l | _ => [] end.
(** [toInt(d)]: integers in the range of [int]. *)
Definition toInt (d : Z) (v : json) : Z :=
  match v with JInt n => if (INT_MIN <=? n) && (n <=? INT_MAX) then n else d | _ => d end.

(** [o.value(key)], [o.contains(key)], [o.insert(key, v)] (inserting undefined
    removes the key) and the initializer-list constructor. *)
Definition value (o : list (qstr * json)) (key : qstr) : json := default JUndefined (qm_get key o).
Definition contains (o : list (qstr * json)) (key : qstr) : bool := qm_has key o.
Definition insert (key : qstr) (v : json) (o : list (qstr * json)) : list (qstr * json) :=
  match v with JUndefined => qm_remove key o | _ => qm_insert key v o end.
Definition object (entries : list (qstr * json)) : list (qstr * json) :=
  fold_left (fun o e => insert (fst e) (snd e) o) entries [].

(** ** Structural induction and values that have a text *)

Lemma json_ind' (P : json -> Prop) :
  P JUndefined -> P JNull -> (forall b, P (JBool b)) -> (forall n, P (JInt n)) -> (forall d, P (JDouble d)) ->
  (forall s, P (JString s)) -> (forall l, Forall P l -> P (JArray l)) ->
  (forall m, Forall (fun e => P (snd e)) m -> P (JObject m)) -> forall v, P v.
Proof.
  intros HU HN HB HI HD HS HA HO. fix IH 1. intros [| |b|n|d|s|l|m]; [done|done|apply HB|apply HI|apply HD|apply HS| |].
  - apply HA. induction l as [|v l IHl]; constructor; [apply IH|exact IHl].
  - apply HO. induction m as [|[k v] m IHm]; constructor; [apply IH|exact IHm].
Qed.

(** UTF-16 text without surrogates. *)
Definition plain_str (s : qstr) : bool := forallb (fun c => (0 <=? c) && (c <? 55296)) s.

(** Values whose text reads back: no undefined, no fractions, plain strings, objects
    sorted by their keys, nesting within Qt's limit of 1024. *)
Fixpoint json_plain (depth : nat) (v : json) : bool :=
  match depth with
  | O => false
  | S depth' =>
      match v with
      | JUndefined | JDouble _ => false
      | JNull | JBool _ => true
      | JInt n => (- 2 ^ 53 <=? n) && (n <=? 2 ^ 53)
      | JString s => plain_str s
      | JArray l => forallb (json_plain depth') l
      | JObject m => bool_decide (qm_sorted m) && forallb (fun e => plain_str (fst e) && json_plain depth' (snd e)) m
      end
  end.

(** [QJsonDocument::fromJson] (the top-level array or object), its compact
    rendering, and [QString::number(d, 'g', 17)]. *)
Class QtJson := {
  json_parse : bytes -> option json;
  json_compact : json -> bytes;
  number_g17 : spec_float -> qstr
}.

Class QtJsonLaws (J : QtJson) : Prop := {
  law_json_text v :
    json_plain 512 v = true -> match v with JArray _ | JObject _ => True | _ => False end ->
    json_parse (json_compact v) = Some v
}.

Lemma plain_members depth l :
  qm_sorted l -> Forall (fun e => plain_str (fst e) = true /\ json_plain depth (snd e) = true) l ->
  json_plain (S depth) (JObject l) = true.
Proof.
  intros Hs Hl. cbn [json_plain]. rewrite bool_decide_true by done. cbn [andb]. apply forallb_forall.
  intros e Hin%list_elem_of_In. rewrite Forall_forall in Hl. by destruct (Hl e Hin) as [-> ->].
Qed.

Lemma plain_array depth l : Forall (fun v => json_plain depth v = true) l -> json_plain (S depth) (JArray l) = true.
Proof.
  intros Hl. cbn [json_plain]. apply forallb_forall. intros v Hin%list_elem_of_In. rewrite Forall_forall in Hl. by apply Hl.
Qed.

(** Numbers in the range of [int]. *)
Definition int_ok (n : Z) : Prop := INT_MIN <= n <= INT_MAX.
Lemma toInt_ok d n : int_ok n -> toInt d (JInt n) = n.
Proof. intros [? ?]. unfold toInt. by zdecides. Qed.
Lemma plain_int n depth : int_ok n -> json_plain (S depth) (JInt n) = true.
Proof. unfold int_ok, INT_MIN, INT_MAX. intros H. cbn [json_plain]. apply andb_true_iff. split; apply Z.leb_le; lia. Qed.
Lemma plain_string s depth : plain_str s = true -> json_plain (S depth) (JString s) = true.
Proof. done. Qed.

Lemma plain_mono v : forall depth depth', (depth <= depth')%nat -> json_plain depth v = true -> json_plain depth' v = true.
Proof.
  induction v as [| |b|n|d|s|l IH|m IH] using json_ind'; intros [|depth] [|depth'] Hle H; try (cbn in H; done); try lia.
  - cbn [json_plain] in *. rewrite forallb_forall in *. intros v Hv. rewrite Forall_forall in IH.
    apply (IH v) with (depth := depth); [by apply list_elem_of_In|lia|by apply H].
  - cbn [json_plain] in *. apply andb_true_iff in H as [-> H]. cbn [andb]. rewrite forallb_forall in *. intros e He. rewrite Forall_forall in IH.
    specialize (H e He). apply andb_true_iff in H as [-> H]. cbn [andb]. apply (IH e) with (depth := depth); [by apply list_elem_of_In|lia|done].
Qed.

(** What the initializer list builds: sorted, with entries of the list only. *)
Lemma insert_members k v o e : In e (insert k v o) -> e = (k, v) \/ In e o.
Proof.
  assert (HI : In e (qm_insert k v o) -> e = (k, v) \/ In e o).
  { induction o as [|[k' v'] o IH]; cbn [qm_insert]; [intros [<-|[]]; by left|]. destruct (klt k' k) eqn:E1; [intros [<-|H]; [by right; left|destruct (IH H); [by left|by right; right]]|].
    destruct (klt k k') eqn:E2; [intros [<-|H]; [by left|by right]|]. rewrite (klt_total _ _ E1 E2). intros [<-|H]; [by left|by right; right]. }
  destruct v; try exact HI. cbn [insert]. clear HI. induction o as [|[k' v'] o IH]; cbn [qm_remove]; [done|].
  repeat case_match; cbn [In]; tauto.
Qed.
Lemma insert_sorted k v o : qm_sorted o -> qm_sorted (insert k v o).
Proof. intros Ho. destruct v; [by apply qm_remove_sorted|by apply qm_insert_sorted..]. Qed.

Lemma object_built entries o :
  qm_sorted o -> qm_sorted (fold_left (fun o e => insert (fst e) (snd e) o) entries o) /\
  forall e, In e (fold_left (fun o e => insert (fst e) (snd e) o) entries o) -> In e entries \/ In e o.
Proof.
  revert o. induction entries as [|[k v] es IH]; intros o Ho; cbn [fold_left fst snd]; [split; [done|by right]|].
  destruct (IH (insert k v o)) as [H1 H2]; [by apply insert_sorted|]. split; [done|]. intros e He.
  destruct (H2 e He) as [H|H]; [by left; right|]. apply insert_members in H as [->|H]; [by left; left|by right].
Qed.
Lemma plain_object depth entries :
  Forall (fun e => plain_str (fst e) = true /\ json_plain depth (snd e) = true) entries -> json_plain (S depth) (JObject (object entries)) = true.
Proof.
  intros H. destruct (object_built entries [] I) as [H1 H2]. apply plain_members; [exact H1|]. apply List.Forall_forall. intros e He.
  destruct (H2 e He) as [Hi|[]]. rewrite List.Forall_forall in H. by apply H.
Qed.
