(* ===== verification/JsonSample.v ===== *)
(** * A concrete JSON text

    An instance of [QtJson] that satisfies [QtJsonLaws]: a prefix code in which
    every value starts with a tag and every sequence with its length. *)

From Stdlib Require Import SpecFloat.
From S2P Require Import Prelude Qt QtSample QMap Json.

Local Open Scope Z_scope.

Fixpoint enc (v : json) : list Z :=
  match v with
  | JUndefined => [0] | JNull => [1] | JDouble _ => [4]
  | JBool b => [2; Z.b2z b] | JInt n => [3; n]
  | JString s => 5 :: zlen s :: s
  | JArray l => 6 :: zlen l :: flat_map enc l
  | JObject m => 7 :: zlen m :: flat_map (fun e => zlen (fst e) :: fst e ++ enc (snd e)) m
  end.

Fixpoint dec_list (p : list Z -> option (json * list Z)) (n : nat) (r : list Z) : option (list json * list Z) :=
  match n with
  | O => Some ([], r)
  | S n' =>
      match p r with
      | None => None
      | Some (v, r1) => match dec_list p n' r1 with None => None | Some (vs, r2) => Some (v :: vs, r2) end
      end
  end.

Fixpoint dec_members (p : list Z -> option (json * list Z)) (n : nat) (r : list Z) : option (list (qstr * json) * list Z) :=
  match n with
  | O => Some ([], r)
  | S n' =>
      match r with
      | [] => None
      | k :: r0 =>
          match p (drop (Z.to_nat k) r0) with
          | None => None
          | Some (v, r1) =>
              match dec_members p n' r1 with None => None | Some (m, r2) => Some ((take (Z.to_nat k) r0, v) :: m, r2) end
          end
      end
  end.

Fixpoint dec (fuel : nat) (l : list Z) : option (json * list Z) :=
  match fuel with
  | O => None
  | S fuel' =>
      match l with
      | [] => None
      | t :: r =>
          if t =? 1 then Some (JNull, r)
          else match r with
               | [] => None
               | n :: r' =>
                   if t =? 2 then Some (JBool (n =? 1), r')
                   else if t =? 3 then Some (JInt n, r')
                   else if t =? 5 then Some (JString (take (Z.to_nat n) r'), drop (Z.to_nat n) r')
                   else if t =? 6 then match dec_list (dec fuel') (Z.to_nat n) r' with Some (l, r2) => Some (JArray l, r2) | None => None end
                   else match dec_members (dec fuel') (Z.to_nat n) r' with Some (m, r2) => Some (JObject m, r2) | None => None end
               end
      end
  end.

Lemma dec_list_enc fuel l r :
  Forall (fun v => forall r, dec fuel (enc v ++ r) = Some (v, r)) l ->
  dec_list (dec fuel) (length l) (flat_map enc l ++ r) = Some (l, r).
Proof.
  induction 1 as [|v l Hv _ IH]; cbn [dec_list length flat_map]; [done|]. rewrite <- app_assoc, Hv. by rewrite IH.
Qed.

Lemma dec_members_enc fuel m r :
  Forall (fun e => forall r, dec fuel (enc (snd e) ++ r) = Some (snd e, r)) m ->
  dec_members (dec fuel) (length m) (flat_map (fun e => zlen (fst e) :: fst e ++ enc (snd e)) m ++ r) = Some (m, r).
Proof.
  induction 1 as [|[k v] m Hv _ IH]; cbn [dec_members length flat_map fst snd app]; [done|].
  change (zlen k) with (Z.of_nat (length k)). rewrite Nat2Z.id, <- !app_assoc, drop_app_length, Hv, IH.
  by rewrite take_app_length.
Qed.

Lemma dec_enc v : forall depth fuel r, json_plain depth v = true -> (depth <= fuel)%nat -> dec fuel (enc v ++ r) = Some (v, r).
Proof.
  induction v as [| |b|n|d|s|l IH|m IH] using json_ind'; intros [|depth] [|fuel] r Hp Hle; try (cbn in Hp; done); try lia.
  - by destruct b.
  - cbn. unfold zlen. by rewrite Nat2Z.id, drop_app_length, take_app_length.
  - cbn [json_plain] in Hp. cbn [enc app dec Z.eqb Pos.eqb]. unfold zlen. rewrite Nat2Z.id, dec_list_enc; [done|].
    apply Forall_forall. intros v Hv r'. rewrite Forall_forall in IH. rewrite forallb_forall in Hp.
    apply (IH v Hv depth); [by apply Hp, list_elem_of_In|lia].
  - cbn [json_plain] in Hp. apply andb_true_iff in Hp as [_ Hp].
    cbn [enc app dec Z.eqb Pos.eqb]. change (zlen m) with (Z.of_nat (length m)). rewrite Nat2Z.id, dec_members_enc; [done|].
    apply Forall_forall. intros e He r'. rewrite Forall_forall in IH. rewrite forallb_forall in Hp.
    apply (IH e He depth); [|lia]. specialize (Hp e). rewrite <- list_elem_of_In in Hp. specialize (Hp He). by split_bools.
Qed.

Definition treeJson : QtJson := {|
  json_parse b := match dec 512 b with
                  | Some ((JArray _ | JObject _) as v, []) => Some v
                  | _ => None
                  end;
  json_compact := enc;
  number_g17 _ := []
|}.

#[export] Instance treeJson_laws : QtJsonLaws treeJson.
Proof.
  split. intros v Hp Hv. cbn [json_parse json_compact treeJson].
  rewrite <- (app_nil_r (enc v)), (dec_enc v 512 512 [] Hp) by done. by destruct v.
Qed.
