(* ===== verification/Zlib.v ===== *)
(** * zlib's [inflate], and the decoders that drain it

    The class [Zlib] is what the program calls of zlib: [inflateInit2] by window
    bits and one [inflate] call with an output window of a given size.
    [ZlibLaws] states the documented contract that a call writes at most the
    window.  [decodeContentEncoding] models Src/BackEnd/Proxy/content_decode.cpp;
    the WebSocket inflater (WebSocket.v) uses the same interface. *)

From S2P Require Import Prelude Qt QtSample.

Local Open Scope Z_scope.

(** The return codes the two loops tell apart: every code outside the first
    three is treated as fatal by both. *)
Inductive zret := Z_OK | Z_STREAM_END | Z_BUF_ERROR | Z_HARD_ERROR.
Inductive zflush := Z_NO_FLUSH | Z_SYNC_FLUSH.

#[export] Instance zret_eq_dec : EqDecision zret.
Proof. solve_decision. Defined.

Class Zlib := {
  zstream : Type;
  z_init : Z -> option zstream;                       (* inflateInit2(&zs, windowBits) *)
  z_inflate : zflush -> Z -> zstream -> bytes -> zret * bytes * bytes * zstream
}.

Class ZlibLaws (ZL : Zlib) : Prop :=
  law_window fl w zs inp : 0 <= w -> zlen (snd (fst (fst (z_inflate fl w zs inp)))) <= w.

Definition hard_error (r : zret) : bool :=
  match r with Z_HARD_ERROR => true | _ => false end.

(** What zlib documents of a raw deflate stream read with sync flushes.  [carries zs inp
    out zs']: a stream in the state [zs] is given [inp], the compression of [out] up to
    a flush, behind which its state is [zs'].  A call then writes the next bytes of
    [out], as many as the window takes; [refuses zs inp]: the data is corrupt, and some
    call reports it, after those that filled their window. *)
Class ZlibStream (ZL : Zlib) := {
  carries : zstream -> bytes -> bytes -> zstream -> Prop;
  refuses : zstream -> bytes -> Prop;
  law_carries zs inp out zs' w : carries zs inp out zs' -> 0 < w ->
    let '(rc, produced, rest, zs1) := z_inflate Z_SYNC_FLUSH w zs inp in
    hard_error rc = false /\ produced = take (Z.to_nat w) out /\
    (if zlen out <? w then zs1 = zs' else carries zs1 rest (drop (Z.to_nat w) out) zs');
  law_refuses zs inp w : refuses zs inp -> 0 < w ->
    let '(rc, produced, rest, zs1) := z_inflate Z_SYNC_FLUSH w zs inp in
    hard_error rc = true \/ (zlen produced = w /\ refuses zs1 rest)
}.

Section ContentDecode.
Context `{QtText} `{ZL : Zlib}.

Definition kInflateBuf : Z := 64 * 1024.

(** The [do ... while] of [inflateWith]: [None] is the early [return {}]. *)
Fixpoint inflateWith_loop (fuel : nat) (maxOut : Z) (zs : zstream) (next_in out : bytes)
    : option (option (zret * bytes)) :=
  match fuel with
  | O => None
  | S fuel' =>
      let '(rc, produced, rest, zs') := z_inflate Z_NO_FLUSH kInflateBuf zs next_in in
      if hard_error rc then Some None
      else if (0 <? zlen produced) && (maxOut <? zlen out + zlen produced) then Some None
      else
        let out' := out ++ produced in
        if negb (bool_decide (rc = Z_STREAM_END)) && (kInflateBuf - zlen produced =? 0)
        then inflateWith_loop fuel' maxOut zs' rest out'
        else Some (Some (rc, out'))
  end.

Definition inflateWith_fuel (maxOut : Z) : nat := Z.to_nat (maxOut / kInflateBuf + 2).

(** [inflateWith(in, windowBits, maxOut, decoded)]: output and [decoded]. *)
Definition inflateWith (inp : bytes) (windowBits maxOut : Z) : option (bytes * bool) :=
  if is_nil inp then Some ([], false)
  else match z_init windowBits with
       | None => Some ([], false)
       | Some zs =>
           match inflateWith_loop (inflateWith_fuel maxOut) maxOut zs inp [] with
           | None => None
           | Some None => Some ([], false)
           | Some (Some (rc, out)) =>
               Some (out, bool_decide (rc = Z_STREAM_END) || negb (is_nil out))
           end
       end.

Definition decodeContentEncoding (encoding : qstr) (body : bytes) (maxOut : Z)
    : option (bytes * bool) :=
  let e := u_lower (u_trimmed encoding) in
  if is_nil e || seq_eqb e (lit "identity") then Some ([], false)
  else if seq_eqb e (lit "gzip") || seq_eqb e (lit "x-gzip") then inflateWith body (15 + 16) maxOut
  else if seq_eqb e (lit "deflate") then
    match inflateWith body 15 maxOut with
    | Some (out, true) => Some (out, true)
    | Some (_, false) => inflateWith body (-15) maxOut
    | None => None
    end
  else Some ([], false).

(** ** The decoder always returns, within the cap *)

Lemma inflateWith_loop_total `{!ZlibLaws ZL} fuel maxOut zs inp out :
  zlen out <= maxOut -> maxOut < zlen out + Z.of_nat fuel * kInflateBuf ->
  exists r, inflateWith_loop fuel maxOut zs inp out = Some r /\
    match r with Some (_, o) => zlen o <= maxOut | None => True end.
Proof.
  revert zs inp out. induction fuel as [|fuel IH]; intros zs inp out Ho Hf; [lia|].
  cbn [inflateWith_loop]. pose proof (law_window Z_NO_FLUSH kInflateBuf zs inp) as Hw.
  assert (0 < kInflateBuf) by (unfold kInflateBuf; lia).
  destruct (z_inflate Z_NO_FLUSH kInflateBuf zs inp) as [[[rc prod] rest] zs']. cbn [fst snd] in Hw.
  destruct (hard_error rc); [by exists None|].
  pose proof (zlen_nonneg prod).
  destruct (_ && _) eqn:E1; [by exists None|].
  assert (zlen out + zlen prod <= maxOut).
  { apply andb_false_iff in E1 as [E1|E1]; to_prop; lia. }
  destruct (negb _ && _) eqn:E2.
  - split_bools. to_prop. apply IH; rewrite zlen_app; lia.
  - eexists. split; [done|]. simpl. rewrite zlen_app. lia.
Qed.

Lemma inflateWith_total `{!ZlibLaws ZL} inp bits maxOut :
  0 <= maxOut ->
  exists out decoded, inflateWith inp bits maxOut = Some (out, decoded) /\ zlen out <= maxOut.
Proof.
  intros Hm. unfold inflateWith. destruct (is_nil inp); [by exists [], false|].
  destruct (z_init bits) as [zs|]; [|by exists [], false].
  destruct (inflateWith_loop_total (inflateWith_fuel maxOut) maxOut zs inp [])
    as ([[rc o]|] & -> & Ho); [done| |by eauto|by exists [], false].
  unfold inflateWith_fuel. assert (0 < kInflateBuf) by (unfold kInflateBuf; lia).
  pose proof (Z.div_mod maxOut kInflateBuf). pose proof (Z.mod_pos_bound maxOut kInflateBuf).
  pose proof (Z.div_pos maxOut kInflateBuf). rewrite zlen_nil. nia.
Qed.
End ContentDecode.

(** A stream that copies its input through the window: a concrete [Zlib]. *)
Definition storedZlib : Zlib := {|
  zstream := unit;
  z_init _ := Some tt;
  z_inflate _ w zs inp :=
    ((if zlen inp <=? w then Z_STREAM_END else Z_OK),
     take (Z.to_nat w) inp, drop (Z.to_nat w) inp, zs)
|}.

#[export] Instance storedZlib_laws : ZlibLaws storedZlib.
Proof. intros fl w zs inp Hw. simpl. unfold zlen. rewrite length_take. lia. Qed.

(** A stream that carries its output in front of the tail of a flush, as long as that does
    not start with 255, which is corrupt; the state tells whether a message is cut. *)
Definition markedZlib : Zlib := {|
  zstream := bool;
  z_init _ := Some false;
  z_inflate _ w cut inp :=
    let body := take (length inp - 4) inp in
    if negb cut && starts_with_chr 255 inp then (Z_HARD_ERROR, [], inp, cut)
    else (Z_OK, take (Z.to_nat w) body, drop (Z.to_nat w) inp, negb (zlen body <? w))
|}.
#[export] Instance markedZlib_laws : ZlibLaws markedZlib.
Proof.
  intros fl w cut inp Hw. cbn [z_inflate markedZlib]. destruct (_ && _); cbn [fst snd]; [rewrite zlen_nil; lia|]. unfold zlen. rewrite length_take. lia.
Qed.

#[export] Program Instance markedStream : ZlibStream markedZlib := {|
  carries cut inp out cut' := inp = out ++ [0; 0; 255; 255] /\ cut' = false /\ (cut = true \/ starts_with_chr 255 inp = false);
  refuses cut inp := cut = false /\ starts_with_chr 255 inp = true
|}.
Next Obligation.
  intros cut inp out cut' w (-> & -> & Hc) Hw. cbn [z_inflate markedZlib].
  assert (E : negb cut && starts_with_chr 255 (out ++ [0; 0; 255; 255]) = false) by (destruct Hc as [-> | ->]; [done|apply andb_false_r]).
  rewrite E, length_app. cbn [length]. rewrite Nat.add_sub, take_app_length. split_and!; try done.
  destruct (zlen out <? w) eqn:El; cbn [negb]; [done|]. to_prop. split_and!; try done; [|by left].
  rewrite drop_app_le by (unfold zlen in *; lia). done.
Qed.
Next Obligation. intros cut inp w [-> Hr] Hw. cbn [z_inflate markedZlib negb andb]. rewrite Hr. by left. Qed.

(** Whatever coding a hostile origin announces and whatever compressed bytes
    it sends, decoding for inspection terminates, never produces more than the
    cap, and codings the proxy does not decode leave nothing. *)
Theorem decodeContentEncoding_bounded `{QtText, ZL : Zlib} `{!ZlibLaws ZL} encoding body maxOut :
  0 <= maxOut ->
  exists out decoded, decodeContentEncoding encoding body maxOut = Some (out, decoded) /\
    zlen out <= maxOut /\ (body = [] -> out = [] /\ decoded = false).
Proof.
  intros Hm.
  assert (G : forall bits, exists out decoded, inflateWith body bits maxOut = Some (out, decoded) /\
    zlen out <= maxOut /\ (body = [] -> out = [] /\ decoded = false)).
  { intros bits. destruct (inflateWith_total body bits maxOut Hm) as (o & d & Hi & Ho).
    exists o, d. split; [done|]. split; [done|]. intros ->. unfold inflateWith in Hi. by simplify_eq/=. }
  unfold decodeContentEncoding. destruct (is_nil _ || _); [by exists [], false|].
  destruct (_ || _); [done|]. destruct (seq_eqb _ _); [|by exists [], false].
  destruct (G 15) as (o & [|] & -> & Ho & He); [|done]. by exists o, true.
Qed.

Lemma decodeContentEncoding_bounded_witness :
  exists out decoded,
    decodeContentEncoding (H := asciiText) (ZL := storedZlib) (lit "gzip") [31; 139] 100
      = Some (out, decoded) /\ zlen out <= 100.
Proof.
  destruct (decodeContentEncoding_bounded (H := asciiText) (ZL := storedZlib)
              (lit "gzip") [31; 139] 100) as (o & d & Hd & Ho & _); [discriminate|].
  exists o, d. exact (conj Hd Ho).
Defined.
