(* ===== verification/WebSocket.v ===== *)
(** * RFC 6455 framing: Src/BackEnd/Proxy/websocket.{hpp,cpp}, ws_encode.cpp

    [tryParseOne] and [feed] are the incremental frame parser of one direction
    of a relayed WebSocket, [wsEncodeFrame] the one serializer the proxy uses,
    [wsHoldEligible] the hold decision of the intercept path and
    [inflateMessage] the permessage-deflate reader with its output cap.  zlib's
    [inflate] is a parameter of the last one. *)

From S2P Require Import Prelude Qt Zlib.

Local Open Scope Z_scope.

(** ** Data *)

(** [WsFrame]: payload already unmasked. *)
Record WsFrame := mkFrame {
  opcode : Z;
  fin : bool;
  rsv1 : bool;
  payload : bytes
}.

Definition kMaxFramePayload : Z := 16 * 1024 * 1024.
Definition kMaxBufferBytes : Z := 2 * kMaxFramePayload.

(** [WsFrameParser]. *)
Record WsFrameParser := mkParser { m_buf : bytes; m_giveUp : bool }.

(** The [qint64] result of [tryParseOne] with its out-parameter: 0, -1 or the
    size of the frame. *)
Inductive parse_result :=
| Incomplete
| ProtocolError
| Parsed (f : WsFrame) (consumed : Z).

(** ** [wsOpcodeLabel] *)

Definition wsOpcodeLabel (op : Z) : list Z :=
  let o := Z.land op 15 in
  if o =? 0 then lit "cont"
  else if o =? 1 then lit "text"
  else if o =? 2 then lit "binary"
  else if o =? 8 then lit "close"
  else if o =? 9 then lit "ping"
  else if o =? 10 then lit "pong"
  else lit "reserved".

(** ** [WsFrameParser::tryParseOne] *)

(** The eight-byte length: [payloadLen = (payloadLen << 8) | byte] on [qint64]. *)
Definition read64 (buf : bytes) (pos : nat) : Z :=
  fold_left (fun acc i => s64 (Z.lor (Z.shiftl acc 8) (at_ buf (pos + i)))) (seq 0 8) 0.

(** The length field: an early return, or the payload length and the offset of
    the byte after it. *)
Definition payloadLength (buf : bytes) (start : nat) (avail b1 : Z)
    : parse_result + (Z * nat) :=
  let len7 := Z.land b1 127 in
  if len7 =? 126 then
    if avail <? 2 + 2 then inl Incomplete
    else inr (Z.lor (Z.shiftl (at_ buf (start + 2)) 8) (at_ buf (start + 2 + 1)), 4%nat)
  else if len7 =? 127 then
    if avail <? 2 + 8 then inl Incomplete
    else
      let len := read64 buf (start + 2) in
      if (len <? 0) || (kMaxFramePayload <? len) then inl ProtocolError
      else inr (len, 10%nat)
  else inr (len7, 2%nat).

(** [payload[i] ^ mask[i & 3]]. *)
Definition xorMask (key : bytes) (p : bytes) : bytes :=
  imap (fun i b => Z.lxor b (at_ key (Nat.land i 3))) p.

Definition tryParseOne (buf : bytes) (start : nat) : parse_result :=
  let avail := zlen buf - Z.of_nat start in
  if avail <? 2 then Incomplete
  else
    let b0 := at_ buf start in
    let b1 := at_ buf (start + 1) in
    let f_fin := negb (Z.land b0 128 =? 0) in
    let f_rsv1 := negb (Z.land b0 64 =? 0) in
    let f_opcode := Z.land b0 15 in
    let masked := negb (Z.land b1 128 =? 0) in
    match payloadLength buf start avail b1 with
    | inl r => r
    | inr (payloadLen, offset) =>
        if masked && (avail <? Z.of_nat offset + 4) then Incomplete
        else
          let mask := if masked then mid buf (start + offset) 4 else [0; 0; 0; 0] in
          let offset := if masked then (offset + 4)%nat else offset in
          if avail <? Z.of_nat offset + payloadLen then Incomplete
          else
            let raw := mid buf (start + offset) (Z.to_nat payloadLen) in
            Parsed (mkFrame f_opcode f_fin f_rsv1
                            (if masked then xorMask mask raw else raw))
                   (Z.of_nat offset + payloadLen)
    end.

(** ** [WsFrameParser::feed] *)

(** The [while (true)] loop: the frames emitted and the final cursor, or [None]
    as cursor after a protocol error.  A frame is at least two bytes long, so
    the buffer's length bounds the iterations ([feed_loop_total]). *)
Fixpoint feed_loop (fuel : nat) (buf : bytes) (pos : nat) (out : list WsFrame)
    : option (list WsFrame * option nat) :=
  match fuel with
  | O => None
  | S fuel' =>
      match tryParseOne buf pos with
      | ProtocolError => Some (out, None)
      | Incomplete => Some (out, Some pos)
      | Parsed f consumed => feed_loop fuel' buf (pos + Z.to_nat consumed) (out ++ [f])
      end
  end.

Definition feed (p : WsFrameParser) (chunk : bytes) : list WsFrame * WsFrameParser :=
  if m_giveUp p then ([], p)
  else if kMaxBufferBytes - zlen (m_buf p) <? zlen chunk then ([], mkParser [] true)
  else
    let buf := m_buf p ++ chunk in
    match feed_loop (S (length buf)) buf 0 [] with
    | Some (out, None) => (out, mkParser [] true)
    | Some (out, Some pos) => (out, mkParser (drop pos buf) false)
    | None => ([], p)
    end.

Definition bufferedBytes (p : WsFrameParser) : Z := zlen (m_buf p).
Definition initParser : WsFrameParser := mkParser [] false.

(** A run of [feed] calls, the events in order. *)
Fixpoint feed_all (p : WsFrameParser) (chunks : list bytes) : list WsFrame * WsFrameParser :=
  match chunks with
  | [] => ([], p)
  | c :: cs =>
      let '(o1, p1) := feed p c in
      let '(o2, p2) := feed_all p1 cs in
      (o1 ++ o2, p2)
  end.

(** ** [wsEncodeFrame] and [wsHoldEligible] *)

(** The four bytes of [key] are what [QRandomGenerator::system()] draws. *)
Definition wsEncodeFrame (key : bytes) (op : Z) (f_fin f_rsv1 : bool)
    (pl : bytes) (mask : bool) : bytes :=
  let b0 := Z.lor (Z.lor (if f_fin then 128 else 0) (if f_rsv1 then 64 else 0))
                  (Z.land op 15) in
  let len := zlen pl in
  let maskBit := if mask then 128 else 0 in
  let lenField :=
    if len <? 126 then [Z.lor maskBit len]
    else if len <=? 65535 then
      [Z.lor maskBit 126; Z.land (Z.shiftr len 8) 255; Z.land len 255]
    else
      Z.lor maskBit 127 ::
      map (fun shift => Z.land (Z.shiftr len shift) 255) [56; 48; 40; 32; 24; 16; 8; 0] in
  [b0] ++ lenField ++ (if mask then key ++ xorMask key pl else pl).

Definition wsHoldEligible (op : Z) (r1 r2 r3 : bool) : bool :=
  if negb (Z.land op 8 =? 0) then false
  else if r1 || r2 || r3 then false
  else (op =? 1) || (op =? 2).

(** ** [WsInflater::inflateMessage] *)

Definition kInflateChunk : Z := 16 * 1024.
Definition kMaxInflatedMessage : Z := 64 * 1024 * 1024.
Definition kDeflateTail : bytes := [0; 0; 255; 255].

Section Inflater.
Context `{ZL : Zlib}.

(** [m_stream] (with its null state) and [m_ok]. *)
Record WsInflater := mkInflater { m_stream : option zstream; m_ok : bool }.

Definition healthy (i : WsInflater) : bool := m_ok i.

(** The constructor: [inflateInit2(zs, -15)]. *)
Definition newInflater : WsInflater :=
  match z_init (-15) with
  | Some zs => mkInflater (Some zs) true
  | None => mkInflater None false
  end.

(** The [for (;;)] loop: output, stream, and whether it finished cleanly. *)
Fixpoint inflate_loop (fuel : nat) (zs : zstream) (next_in out : bytes)
    : option (bytes * zstream * bool) :=
  match fuel with
  | O => None
  | S fuel' =>
      let '(ret, produced, rest, zs') := z_inflate Z_SYNC_FLUSH kInflateChunk zs next_in in
      if hard_error ret then Some (out, zs', false)
      else
        let out' := out ++ produced in
        if kMaxInflatedMessage <? zlen out' then Some (out', zs', false)
        else if negb (kInflateChunk - zlen produced =? 0) then Some (out', zs', true)
        else inflate_loop fuel' zs' rest out'
  end.

(** Each full window is 16 KiB and the output is capped at 64 MiB. *)
Definition inflate_fuel : nat := Z.to_nat (kMaxInflatedMessage / kInflateChunk + 2).

Definition inflateMessage (i : WsInflater) (compressed : bytes)
    : option (bytes * bool * WsInflater) :=
  match m_ok i, m_stream i with
  | true, Some zs =>
      match inflate_loop inflate_fuel zs (compressed ++ kDeflateTail) [] with
      | Some (out, zs', good) => Some (out, good, mkInflater (Some zs') good)
      | None => None
      end
  | _, _ => Some ([], false, i)
  end.
End Inflater.

(** ** Bytes and lengths *)

Lemma shift_byte_is_byte n k : is_byte (Z.land (Z.shiftr n k) 255).
Proof.
  unfold is_byte. change 255 with (Z.ones 8). rewrite Z.land_ones by lia.
  apply Z.mod_pos_bound. lia.
Qed.

(** The accumulator of [read64] does not wrap as long as the value it builds is
    below 2^63. *)
Lemma be_fold_ge buf pos l acc :
  wf_bytes buf -> 0 <= acc ->
  acc <= fold_left (fun a i => a * 256 + at_ buf (pos + i)) l acc.
Proof.
  intros Hw. revert acc. induction l as [|i l IH]; intros acc Ha; cbn [fold_left]; [lia|].
  pose proof (at_wf buf (pos + i) Hw) as Hi. unfold is_byte in Hi.
  specialize (IH (acc * 256 + at_ buf (pos + i))). lia.
Qed.

Lemma read64_fold buf pos l acc :
  wf_bytes buf -> 0 <= acc ->
  fold_left (fun a i => a * 256 + at_ buf (pos + i)) l acc < 2 ^ 63 ->
  fold_left (fun a i => s64 (Z.lor (Z.shiftl a 8) (at_ buf (pos + i)))) l acc
  = fold_left (fun a i => a * 256 + at_ buf (pos + i)) l acc.
Proof.
  intros Hw. revert acc. induction l as [|i l IH]; intros acc Ha Hb; [done|].
  cbn [fold_left] in *. pose proof (at_wf buf (pos + i) Hw) as Hi. unfold is_byte in Hi.
  pose proof (be_fold_ge buf pos l (acc * 256 + at_ buf (pos + i)) Hw).
  rewrite lor_shiftl_8 by done. rewrite s64_small by lia. apply IH; [lia|done].
Qed.

(** ** The encoder's fields, read back *)

Lemma in_range_seq n k : 0 <= n < Z.of_nat k -> In n (map Z.of_nat (seq 0 k)).
Proof. intros H. apply in_map_iff. exists (Z.to_nat n). split; [lia|]. apply in_seq. lia. Qed.

Lemma enc_b0 op (f_fin f_rsv1 : bool) :
  0 <= op < 16 ->
  let b0 := Z.lor (Z.lor (if f_fin then 128 else 0) (if f_rsv1 then 64 else 0)) (Z.land op 15) in
  Z.land b0 15 = op /\ negb (Z.land b0 128 =? 0) = f_fin /\ negb (Z.land b0 64 =? 0) = f_rsv1.
Proof.
  intros Hop. apply (in_range_seq op 16) in Hop. simpl in Hop.
  destruct f_fin, f_rsv1; repeat (destruct Hop as [<-|Hop]; [done|]); done.
Qed.

Lemma enc_b1 (mask : bool) l :
  0 <= l < 128 ->
  Z.land (Z.lor (if mask then 128 else 0) l) 127 = l /\
  negb (Z.land (Z.lor (if mask then 128 else 0) l) 128 =? 0) = mask.
Proof.
  intros Hl. apply (in_range_seq l 128) in Hl.
  assert (H : forallb (fun l => (Z.land (Z.lor (if mask then 128 else 0) l) 127 =? l) &&
    Bool.eqb (negb (Z.land (Z.lor (if mask then 128 else 0) l) 128 =? 0)) mask)
    (map Z.of_nat (seq 0 128)) = true) by (destruct mask; vm_compute; done).
  rewrite forallb_forall in H. apply H in Hl. split_bools.
  split; [by apply Z.eqb_eq|by apply eqb_prop].
Qed.

(** The length field of a frame, as the encoder writes it. *)
Definition len_field (mask : bool) (len : Z) : bytes :=
  let maskBit := if mask then 128 else 0 in
  if len <? 126 then [Z.lor maskBit len]
  else if len <=? 65535 then
    [Z.lor maskBit 126; Z.land (Z.shiftr len 8) 255; Z.land len 255]
  else
    Z.lor maskBit 127 ::
    map (fun shift => Z.land (Z.shiftr len shift) 255) [56; 48; 40; 32; 24; 16; 8; 0].

Definition be64 (n : Z) : bytes :=
  map (fun shift => Z.land (Z.shiftr n shift) 255) [56; 48; 40; 32; 24; 16; 8; 0].

Lemma be64_wf n : wf_bytes (be64 n).
Proof. repeat constructor; apply shift_byte_is_byte. Qed.

Lemma read64_app pre bs tail :
  length bs = 8%nat -> read64 (pre ++ bs ++ tail) (length pre) = read64 bs 0.
Proof.
  intros Hl. unfold read64. cbn [fold_left seq].
  rewrite !at_app_r, !(at_app_l bs tail) by (rewrite Hl; lia). done.
Qed.

Lemma horner n j k :
  0 <= k -> j = k + 8 -> n / 2 ^ j * 256 + (n / 2 ^ k) mod 256 = n / 2 ^ k.
Proof.
  intros Hk ->. rewrite Z.pow_add_r, <- Z.div_div by lia. change (2 ^ 8) with 256.
  pose proof (Z.div_mod (n / 2 ^ k) 256). lia.
Qed.

Lemma read64_be64 n : 0 <= n < 2 ^ 62 -> read64 (be64 n) 0 = n.
Proof.
  intros Hn.
  assert (Hv : fold_left (fun a i => a * 256 + at_ (be64 n) (0 + i)) (seq 0 8) 0 = n).
  { unfold be64. cbn [fold_left seq map Nat.add]. unfold at_. cbn [nth].
    rewrite !shift_byte by lia. rewrite Z.mul_0_l, Z.add_0_l.
    rewrite (Z.mod_small (n / 2 ^ 56))
      by (split; [apply Z.div_pos; lia|apply Z.div_lt_upper_bound; lia]).
    rewrite (horner n 56 48), (horner n 48 40), (horner n 40 32), (horner n 32 24),
      (horner n 24 16), (horner n 16 8), (horner n 8 0) by lia. by rewrite Z.div_1_r. }
  unfold read64. rewrite read64_fold; [done|apply be64_wf|lia|lia].
Qed.

Lemma payloadLength_encoded pre b0 (mask : bool) len tail :
  0 <= len <= kMaxFramePayload ->
  let buf := pre ++ b0 :: len_field mask len ++ tail in
  let b1 := at_ buf (length pre + 1) in
  payloadLength buf (length pre) (zlen buf - zlen pre) b1
    = inr (len, S (length (len_field mask len))) /\
  negb (Z.land b1 128 =? 0) = mask.
Proof.
  intros Hlen buf b1. assert (Hl : 0 <= len <= 16777216) by exact Hlen. clear Hlen.
  assert (Hd : drop (length pre) buf = b0 :: len_field mask len ++ tail)
    by apply drop_app_length.
  assert (Hat : forall i, at_ buf (length pre + i) = at_ (b0 :: len_field mask len ++ tail) i)
    by (intros i; by rewrite <- Hd, at_drop).
  assert (Hb1 : b1 = at_ (len_field mask len ++ tail) 0) by apply Hat. clearbody b1.
  replace (zlen buf - zlen pre) with (zlen (len_field mask len) + zlen tail + 1)
    by (unfold buf; rewrite zlen_app, zlen_cons, zlen_app; lia).
  pose proof (zlen_nonneg tail).
  unfold len_field in *. destruct (len <? 126) eqn:E1; [|destruct (len <=? 65535) eqn:E2];
    to_prop; subst b1; cbn [at_ nth app] in *.
  - destruct (enc_b1 mask len) as [H1 H2]; [lia|]. unfold at_; cbn [nth].
    unfold payloadLength. rewrite H1, H2. rewrite !(proj2 (Z.eqb_neq _ _)) by lia. done.
  - destruct (enc_b1 mask 126) as [H1 H2]; [lia|]. unfold at_; cbn [nth].
    unfold payloadLength. rewrite H1, H2. split; [|done]. cbn [Z.eqb Pos.eqb].
    rewrite (proj2 (Z.ltb_ge _ _)) by (unfold zlen in *; simpl length; lia).
    rewrite <- Nat.add_assoc, !Hat. unfold at_; cbn [nth Nat.add].
    rewrite lor_shiftl_8 by (rewrite land_255; apply Z.mod_pos_bound; lia).
    rewrite shift_byte, land_255 by lia. do 2 f_equal.
    Z.to_euclidean_division_equations. lia.
  - destruct (enc_b1 mask 127) as [H1 H2]; [lia|]. unfold at_; cbn [nth].
    unfold payloadLength. rewrite H1, H2. split; [|done]. cbn [Z.eqb Pos.eqb].
    rewrite (proj2 (Z.ltb_ge _ _)) by (unfold zlen in *; simpl length; lia).
    replace (read64 buf (length pre + 2)) with len.
    { rewrite (proj2 (Z.ltb_ge _ _)), (proj2 (Z.ltb_ge _ _)) by (unfold kMaxFramePayload; lia). done. }
    rewrite <- (read64_be64 len) at 1 by lia.
    rewrite <- (read64_app (pre ++ [b0; Z.lor (if mask then 128 else 0) 127]) (be64 len) tail)
      by done.
    rewrite length_app. simpl length. f_equal. unfold buf, be64. by rewrite <- app_assoc.
Qed.

(** ** Masking *)

Lemma length_xorMask key p : length (xorMask key p) = length p.
Proof. apply length_imap. Qed.

Lemma xorMask_involutive key p : xorMask key (xorMask key p) = p.
Proof.
  unfold xorMask. apply list_eq. intros i. rewrite !list_lookup_imap.
  destruct (p !! i); simpl; [|done]. f_equal.
  by rewrite Z.lxor_assoc, Z.lxor_nilpotent, Z.lxor_0_r.
Qed.

(** ** Round trip *)

(** The frame an encoder call describes. *)
Definition frame_ok (f : WsFrame) : Prop :=
  0 <= opcode f < 16 /\ zlen (payload f) <= kMaxFramePayload.

Definition encode (key : bytes) (mask : bool) (f : WsFrame) : bytes :=
  wsEncodeFrame key (opcode f) (fin f) (rsv1 f) (payload f) mask.

Lemma wsEncodeFrame_shape key op f r pl mask :
  wsEncodeFrame key op f r pl mask =
  Z.lor (Z.lor (if f then 128 else 0) (if r then 64 else 0)) (Z.land op 15)
  :: len_field mask (zlen pl) ++ (if mask then key ++ xorMask key pl else pl).
Proof. done. Qed.

Lemma mid_app_skip p q s n : mid (p ++ q ++ s) (length p + length q) n = take n s.
Proof. unfold mid. rewrite app_assoc, <- length_app. by rewrite drop_app_length. Qed.

Lemma tryParseOne_encode key mask f pre rest :
  frame_ok f -> length key = 4%nat ->
  tryParseOne (pre ++ encode key mask f ++ rest) (length pre)
  = Parsed f (zlen (encode key mask f)).
Proof.
  intros [Hop Hlen] Hk. destruct f as [op f_fin f_rsv1 pl]. unfold encode; cbn [opcode fin rsv1 payload] in *.
  rewrite wsEncodeFrame_shape. set (b0 := Z.lor _ _).
  set (lf := len_field mask (zlen pl)). set (body := if mask then _ else _).
  destruct (payloadLength_encoded pre b0 mask (zlen pl) (body ++ rest)) as [HL HM];
    [pose proof (zlen_nonneg pl); lia|]. fold lf in HL, HM.
  rewrite <- app_comm_cons, <- app_assoc.
  set (buf := pre ++ b0 :: lf ++ body ++ rest) in *. cbv zeta in HL, HM.
  destruct (enc_b0 op f_fin f_rsv1 Hop) as (E1 & E2 & E3). fold b0 in E1, E2, E3.
  assert (Hb0 : at_ buf (length pre) = b0)
    by (rewrite <- (Nat.add_0_r (length pre)); unfold buf; by rewrite at_app_r).
  assert (Hav : zlen buf - zlen pre = 1 + zlen lf + zlen body + zlen rest)
    by (unfold buf; rewrite zlen_app, zlen_cons, !zlen_app; lia).
  assert (Hlf : 1 <= zlen lf).
  { unfold lf, len_field. repeat case_match; unfold zlen; simpl length; lia. }
  assert (Hbody : zlen body = (if mask then 4 else 0) + zlen pl).
  { unfold body. destruct mask; [|lia]. rewrite zlen_app. unfold zlen. rewrite Hk, length_xorMask. lia. }
  pose proof (zlen_nonneg rest). pose proof (zlen_nonneg pl). pose proof (zlen_nonneg body).
  unfold tryParseOne. rewrite Hb0. change (Z.of_nat (length pre)) with (zlen pre).
  rewrite HL, HM, E1, E2, E3, Hav. zdecide.
  assert (Hbuf : buf = pre ++ (b0 :: lf) ++ body ++ rest) by done.
  change (S (length lf)) with (length (b0 :: lf)).
  assert (Hoff : Z.of_nat (length (b0 :: lf)) = 1 + zlen lf) by (unfold zlen; simpl; lia).
  destruct mask; unfold body in *.
  - zdecides. rewrite Nat2Z.inj_add. zdecides.
    rewrite Hbuf, mid_app_skip, <- app_assoc, (app_assoc (b0 :: lf)).
    rewrite <- Hk. rewrite take_app_length.
    replace (length pre + (length (b0 :: lf) + length key))%nat
      with (length pre + length ((b0 :: lf) ++ key))%nat by (rewrite length_app; lia).
    rewrite mid_app_skip. unfold zlen at 1. rewrite Nat2Z.id.
    rewrite <- (length_xorMask key pl) at 1. rewrite take_app_length, xorMask_involutive.
    f_equal. rewrite zlen_cons, zlen_app, Hbody, Hoff, Hk. lia.
  - cbn [andb]. zdecides.
    rewrite Hbuf, mid_app_skip. unfold zlen at 1. rewrite Nat2Z.id, take_app_length.
    f_equal. rewrite zlen_cons, zlen_app, Hoff. lia.
Qed.

(** ** The parse depends on the bytes from the cursor on, and only on the frame *)

Lemma read64_drop buf start k : read64 buf (start + k) = read64 (drop start buf) k.
Proof.
  unfold read64. cbn [fold_left seq]. rewrite !at_drop.
  by rewrite <- !Nat.add_assoc.
Qed.

Lemma payloadLength_drop buf start avail b1 :
  payloadLength buf start avail b1 = payloadLength (drop start buf) 0 avail b1.
Proof.
  unfold payloadLength. rewrite read64_drop, !at_drop. by rewrite <- !Nat.add_assoc.
Qed.

Lemma zlen_drop_le (buf : bytes) start :
  (start <= length buf)%nat -> zlen (drop start buf) = zlen buf - Z.of_nat start.
Proof. intros H. unfold zlen. rewrite length_drop. lia. Qed.

Lemma tryParseOne_drop buf start :
  (start <= length buf)%nat -> tryParseOne buf start = tryParseOne (drop start buf) 0.
Proof.
  intros H. unfold tryParseOne. rewrite zlen_drop_le by done.
  rewrite payloadLength_drop, !at_drop, Nat.add_0_r.
  replace (zlen buf - Z.of_nat start - Z.of_nat 0) with (zlen buf - Z.of_nat start) by lia.
  destruct (_ <? 2); [done|]. destruct (payloadLength _ _ _ _) as [|[len off]]; [done|].
  unfold mid. by rewrite !drop_drop.
Qed.

(** What a decoded length field says about the frame. *)
Lemma payloadLength_bounds buf start avail b1 len off :
  wf_bytes buf -> 0 <= b1 -> 2 <= avail ->
  payloadLength buf start avail b1 = inr (len, off) ->
  (2 <= off <= 10)%nat /\ Z.of_nat off <= avail /\ 0 <= len <= kMaxFramePayload.
Proof.
  unfold payloadLength, kMaxFramePayload. intros Hw Hb Ha H.
  pose proof (at_wf buf (start + 2) Hw). pose proof (at_wf buf (start + 2 + 1) Hw).
  unfold is_byte in *.
  assert (0 <= Z.land b1 127 < 128)
    by (change 127 with (Z.ones 7); rewrite Z.land_ones by lia; apply Z.mod_pos_bound; lia).
  repeat case_match; simplify_eq; split_bools; to_prop; rewrite ?lor_shiftl_8 by lia; lia.
Qed.

Lemma payloadLength_app buf more b1 :
  2 <= zlen buf ->
  payloadLength buf 0 (zlen buf) b1 <> inl Incomplete ->
  payloadLength (buf ++ more) 0 (zlen (buf ++ more)) b1 = payloadLength buf 0 (zlen buf) b1.
Proof.
  intros Hb H. rewrite zlen_app. pose proof (zlen_nonneg more).
  unfold payloadLength in *. unfold zlen in *.
  destruct (Z.land b1 127 =? 126); [|destruct (Z.land b1 127 =? 127); [|done]].
  - destruct (Z.of_nat (length buf) <? 2 + 2) eqn:E; [done|]. to_prop.
    zdecide. by rewrite !at_app_l by lia.
  - destruct (Z.of_nat (length buf) <? 2 + 8) eqn:E; [done|]. to_prop.
    zdecide. replace (read64 (buf ++ more) (0 + 2)) with (read64 buf (0 + 2)); [done|].
    unfold read64. cbn [fold_left seq]. by rewrite !at_app_l by lia.
Qed.

(** A complete verdict is stable when more bytes arrive. *)
Lemma tryParseOne_app0 buf more :
  tryParseOne buf 0 <> Incomplete -> wf_bytes buf ->
  tryParseOne (buf ++ more) 0 = tryParseOne buf 0.
Proof.
  intros H Hw. unfold tryParseOne in *. rewrite !Z.sub_0_r in *.
  destruct (zlen buf <? 2) eqn:E2; [done|]. to_prop.
  assert ((2 <= length buf)%nat) by (unfold zlen in *; lia).
  pose proof (zlen_nonneg more).
  rewrite !(at_app_l buf more) by lia.
  replace (zlen (buf ++ more) <? 2) with false by (symmetry; rewrite zlen_app; apply Z.ltb_ge; lia).
  pose proof (at_wf buf (0 + 1) Hw) as Hb1. unfold is_byte in Hb1.
  destruct (payloadLength buf 0 (zlen buf) (at_ buf (0 + 1))) as [r|[len off]] eqn:EL.
  - rewrite payloadLength_app by (try rewrite EL; try done; congruence). by rewrite EL.
  - destruct (payloadLength_bounds _ _ _ _ _ _ Hw (proj1 Hb1) E2 EL) as (Ho & Ho' & Hl).
    rewrite payloadLength_app by (try rewrite EL; done). rewrite EL.
    rewrite zlen_app. set (masked := negb _) in *.
    destruct (masked && (zlen buf <? Z.of_nat off + 4)) eqn:EM; [done|].
    set (off' := if masked then _ else _) in *.
    destruct (zlen buf <? Z.of_nat off' + len) eqn:EP; [done|]. to_prop.
    assert (Hm : masked && (zlen buf + zlen more <? Z.of_nat off + 4) = false)
      by (destruct masked; [|done]; cbn [andb] in *; to_prop; apply Z.ltb_ge; lia).
    rewrite Hm. zdecide.
    assert (Hmid : forall p n, (p + n <= length buf)%nat -> mid (buf ++ more) p n = mid buf p n).
    { intros p n Hpn. unfold mid. rewrite drop_app_le by lia.
      by rewrite take_app_le by (rewrite length_drop; lia). }
    assert (Hend : (0 + off' + Z.to_nat len <= length buf)%nat) by (unfold zlen in *; lia).
    rewrite (Hmid _ _ Hend).
    destruct masked; [|done]. by rewrite Hmid by (unfold off' in Hend; lia).
Qed.

Lemma wf_drop n (buf : bytes) : wf_bytes buf -> wf_bytes (drop n buf).
Proof. apply Forall_drop. Qed.

Lemma tryParseOne_app buf more start :
  (start <= length buf)%nat -> wf_bytes buf ->
  tryParseOne buf start <> Incomplete ->
  tryParseOne (buf ++ more) start = tryParseOne buf start.
Proof.
  intros Hs Hw H. rewrite tryParseOne_drop in H by done.
  rewrite (tryParseOne_drop buf), (tryParseOne_drop (buf ++ more)) by (rewrite ?length_app; lia).
  rewrite drop_app_le by lia. by apply tryParseOne_app0; [|apply wf_drop].
Qed.

(** Size of a parsed frame: it makes progress and stays in the buffer. *)
Lemma tryParseOne_size buf start f n :
  (start <= length buf)%nat -> wf_bytes buf -> tryParseOne buf start = Parsed f n ->
  2 <= n /\ Z.of_nat start + n <= zlen buf.
Proof.
  intros Hs Hw. unfold tryParseOne. intros H.
  case_match; [done|]. to_prop.
  pose proof (at_wf buf (start + 1) Hw) as Hb1. unfold is_byte in Hb1.
  destruct (payloadLength _ _ _ _) as [r|[len off]] eqn:EL.
  - destruct r; [done|done|]. exfalso. unfold payloadLength in EL. by repeat case_match.
  - destruct (payloadLength_bounds _ _ _ _ _ _ Hw (proj1 Hb1) ltac:(done) EL) as (? & ? & ?).
    repeat case_match; simplify_eq; to_prop; split_bools; to_prop; lia.
Qed.

Lemma tryParseOne_payload buf start f n :
  (start <= length buf)%nat -> wf_bytes buf -> tryParseOne buf start = Parsed f n ->
  zlen (payload f) <= kMaxFramePayload.
Proof.
  intros Hs Hw. unfold tryParseOne. intros H. case_match; [done|]. to_prop.
  pose proof (at_wf buf (start + 1) Hw) as Hb1. unfold is_byte in Hb1.
  destruct (payloadLength _ _ _ _) as [r|[len off]] eqn:EL.
  - destruct r; [done|done|]. exfalso. unfold payloadLength in EL. by repeat case_match.
  - destruct (payloadLength_bounds _ _ _ _ _ _ Hw (proj1 Hb1) ltac:(done) EL) as (_ & _ & Hl).
    assert (Hraw : forall p, zlen (mid buf p (Z.to_nat len)) <= len)
      by (intros p; unfold mid, zlen; rewrite length_take; lia).
    assert (Hx : forall k p, zlen (xorMask k (mid buf p (Z.to_nat len))) <= len)
      by (intros k p; unfold zlen; rewrite length_xorMask; apply Hraw).
    repeat case_match; simplify_eq; cbn [payload]; etrans; [apply Hx|lia|apply Hraw|lia].
Qed.

(** An incomplete frame is shorter than the largest frame: the buffer never has
    to hold more than one. *)
Lemma tryParseOne_incomplete buf start :
  (start <= length buf)%nat -> wf_bytes buf -> tryParseOne buf start = Incomplete ->
  zlen buf - Z.of_nat start < kMaxFramePayload + 14.
Proof.
  intros Hs Hw. unfold tryParseOne. intros H. unfold kMaxFramePayload.
  case_match; to_prop; [lia|].
  pose proof (at_wf buf (start + 1) Hw) as Hb1. unfold is_byte in Hb1.
  destruct (payloadLength _ _ _ _) as [r|[len off]] eqn:EL.
  - subst r. unfold payloadLength in EL. repeat case_match; simplify_eq; to_prop; lia.
  - destruct (payloadLength_bounds _ _ _ _ _ _ Hw (proj1 Hb1) ltac:(done) EL) as (? & ? & Hl).
    unfold kMaxFramePayload in Hl.
    repeat case_match; simplify_eq; split_bools; to_prop; lia.
Qed.

(** ** The parsing loop *)

(** The loop never runs out of fuel: every frame is at least two bytes. *)
Lemma feed_loop_total fuel buf pos out :
  wf_bytes buf -> (pos <= length buf)%nat -> (length buf - pos < fuel)%nat ->
  exists r, feed_loop fuel buf pos out = Some r.
Proof.
  intros Hw. revert pos out. induction fuel as [|fuel IH]; intros pos out Hp Hf; [lia|].
  cbn [feed_loop]. destruct (tryParseOne buf pos) as [| |f n] eqn:E; eauto.
  destruct (tryParseOne_size _ _ _ _ Hp Hw E). unfold zlen in *. apply IH; lia.
Qed.

(** More fuel does not change the answer. *)
Lemma feed_loop_mono fuel fuel' buf pos out r :
  feed_loop fuel buf pos out = Some r -> (fuel <= fuel')%nat ->
  feed_loop fuel' buf pos out = Some r.
Proof.
  revert fuel' pos out. induction fuel as [|fuel IH]; intros fuel' pos out H Hf; [done|].
  destruct fuel' as [|fuel']; [lia|]. cbn [feed_loop] in *.
  destruct (tryParseOne buf pos); try done. apply IH; [done|lia].
Qed.

(** Loop results: earlier frames put in front, the cursor moved. *)
Definition with_out (out : list WsFrame) (x : list WsFrame * option nat)
    : list WsFrame * option nat := (out ++ fst x, snd x).
Definition shift_cursor (k : nat) (x : list WsFrame * option nat)
    : list WsFrame * option nat := (fst x, option_map (Nat.add k) (snd x)).

(** The frames already emitted are only carried along. *)
Lemma feed_loop_out fuel buf pos out :
  feed_loop fuel buf pos out
  = option_map (with_out out) (feed_loop fuel buf pos []).
Proof.
  revert pos out. induction fuel as [|fuel IH]; intros pos out; [done|].
  cbn [feed_loop]. destruct (tryParseOne buf pos) as [| |f n]; simpl;
    unfold with_out; simpl; rewrite ?app_nil_r; [done..|].
  rewrite IH, (IH _ [f]). unfold with_out. destruct (feed_loop fuel buf _ []) as [[o r]|]; simpl; [|done].
  by rewrite <- app_assoc.
Qed.

(** The loop as a total function of the buffer: frames, and the cursor left. *)
Definition scan (buf : bytes) : list WsFrame * option nat :=
  default ([], None) (feed_loop (S (length buf)) buf 0 []).

Lemma scan_spec buf : wf_bytes buf -> feed_loop (S (length buf)) buf 0 [] = Some (scan buf).
Proof.
  intros Hw. unfold scan.
  destruct (feed_loop_total (S (length buf)) buf 0 []) as [r Hr]; [done|lia|lia|].
  by rewrite Hr.
Qed.

Lemma feed_loop_shift fuel buf pos :
  wf_bytes buf -> (pos <= length buf)%nat ->
  feed_loop fuel buf pos []
  = option_map (shift_cursor pos) (feed_loop fuel (drop pos buf) 0 []).
Proof.
  intros Hw. revert pos.
  assert (G : forall pos k, (pos + k <= length buf)%nat ->
    feed_loop fuel buf (pos + k) []
    = option_map (shift_cursor pos) (feed_loop fuel (drop pos buf) k [])).
  { induction fuel as [|fuel IH]; intros pos k Hk; [done|]. cbn [feed_loop].
    rewrite (tryParseOne_drop buf), (tryParseOne_drop (drop pos buf))
      by (rewrite ?length_drop; lia).
    rewrite drop_drop. destruct (tryParseOne (drop (pos + k) buf) 0) as [| |f n] eqn:E;
      [done..|].
    destruct (tryParseOne_size _ _ _ _ (Nat.le_0_l _) (wf_drop _ _ Hw) E) as [? Hn].
    unfold zlen in Hn. rewrite length_drop in Hn.
    cbn [app]. rewrite (feed_loop_out _ buf), (feed_loop_out _ (drop pos buf)).
    rewrite <- Nat.add_assoc, IH by lia.
    unfold with_out, shift_cursor. by destruct (feed_loop fuel (drop pos buf) _ []) as [[]|]. }
  intros pos Hp. rewrite <- (G pos 0%nat) by lia. by rewrite Nat.add_0_r.
Qed.

(** One step of [scan]. *)
Lemma scan_unfold buf :
  wf_bytes buf ->
  scan buf = match tryParseOne buf 0 with
             | ProtocolError => ([], None)
             | Incomplete => ([], Some 0%nat)
             | Parsed f n =>
                 with_out [f] (shift_cursor (Z.to_nat n) (scan (drop (Z.to_nat n) buf)))
             end.
Proof.
  intros Hw. pose proof (scan_spec buf Hw) as H. cbn [feed_loop] in H.
  destruct (tryParseOne buf 0) as [| |f n] eqn:E; simplify_eq/=; [done..|].
  destruct (tryParseOne_size _ _ _ _ (Nat.le_0_l _) Hw E) as [Hn1 Hn2]. unfold zlen in Hn2.
  rewrite feed_loop_out, feed_loop_shift in H by (done || lia).
  pose proof (scan_spec (drop (Z.to_nat n) buf) (wf_drop _ _ Hw)) as Hs.
  rewrite (feed_loop_mono _ (length buf) _ _ _ _ Hs) in H by (rewrite length_drop; lia).
  simpl in H. congruence.
Qed.

Lemma scan_encode key mask f rest :
  frame_ok f -> length key = 4%nat -> wf_bytes (encode key mask f ++ rest) ->
  scan (encode key mask f ++ rest)
  = with_out [f] (shift_cursor (length (encode key mask f)) (scan rest)).
Proof.
  intros Hf Hk Hw. rewrite scan_unfold by done.
  pose proof (tryParseOne_encode key mask f [] rest Hf Hk) as H.
  cbn [app length] in H. rewrite H.
  unfold zlen. rewrite Nat2Z.id, drop_app_length. done.
Qed.

(** Where [scan] stops there is no complete frame left. *)
Lemma scan_stops n buf o r :
  (length buf < n)%nat -> wf_bytes buf -> scan buf = (o, r) ->
  match r with
  | Some p => (p <= length buf)%nat /\ tryParseOne buf p = Incomplete
  | None => True
  end.
Proof.
  revert buf o r. induction n as [|n IH]; intros buf o r Hn Hw H; [lia|].
  rewrite scan_unfold in H by done.
  destruct (tryParseOne buf 0) as [| |f m] eqn:E; simplify_eq; [split; [lia|done]|done|].
  destruct (tryParseOne_size _ _ _ _ (Nat.le_0_l _) Hw E) as [Hn1 Hn2]. unfold zlen in Hn2.
  destruct (scan (drop (Z.to_nat m) buf)) as [o' r'] eqn:Es.
  unfold with_out, shift_cursor in H. simplify_eq/=.
  apply IH in Es; [|rewrite length_drop; lia|by apply wf_drop].
  destruct r' as [p|]; simpl; [|done]. rewrite length_drop in Es. destruct Es as [Hp Hi].
  split; [lia|]. rewrite tryParseOne_drop in Hi |- * by (rewrite ?length_drop; lia).
  by rewrite drop_drop in Hi.
Qed.

(** Scanning a longer buffer resumes where scanning the prefix stopped. *)
Lemma scan_app n buf more :
  (length buf < n)%nat -> wf_bytes buf -> wf_bytes more ->
  scan (buf ++ more) =
  match scan buf with
  | (o, None) => (o, None)
  | (o, Some p) =>
      with_out o (shift_cursor p (scan (drop p buf ++ more)))
  end.
Proof.
  revert buf. induction n as [|n IH]; intros buf Hn Hw Hm; [lia|].
  rewrite (scan_unfold buf) by done. destruct (tryParseOne buf 0) as [| |f m] eqn:E.
  - rewrite drop_0. unfold with_out, shift_cursor. by destruct (scan (buf ++ more)) as [o [p|]].
  - rewrite scan_unfold by by apply Forall_app. rewrite tryParseOne_app0; rewrite ?E; done.
  - destruct (tryParseOne_size _ _ _ _ (Nat.le_0_l _) Hw E) as [Hn1 Hn2]. unfold zlen in Hn2.
    rewrite scan_unfold by by apply Forall_app.
    rewrite tryParseOne_app0; rewrite ?E; [|done..].
    rewrite drop_app_le by lia.
    rewrite IH by (rewrite ?length_drop; try apply wf_drop; done || lia).
    destruct (scan (drop (Z.to_nat m) buf)) as [o [p|]]; [|done].
    unfold with_out, shift_cursor. simpl. rewrite drop_drop.
    destruct (scan (drop (Z.to_nat m + p) buf ++ more)) as [o' [r'|]]; simpl; [|done].
    by rewrite Nat.add_assoc.
Qed.

(** ** The parser's invariant *)

(** The buffer holds bytes, no complete frame, and is empty once given up. *)
Definition parser_inv (p : WsFrameParser) : Prop :=
  wf_bytes (m_buf p) /\ tryParseOne (m_buf p) 0 = Incomplete /\
  (m_giveUp p = true -> m_buf p = []).

Lemma parser_inv_init : parser_inv initParser.
Proof. split; [constructor|]. by split. Qed.

Lemma parser_inv_size p : parser_inv p -> zlen (m_buf p) < kMaxFramePayload + 14.
Proof.
  intros (Hw & Hi & _). pose proof (tryParseOne_incomplete _ _ (Nat.le_0_l _) Hw Hi). lia.
Qed.

(** [feed] through [scan]. *)
Lemma feed_scan p chunk :
  wf_bytes (m_buf p) -> wf_bytes chunk -> m_giveUp p = false ->
  zlen (m_buf p) + zlen chunk <= kMaxBufferBytes ->
  feed p chunk =
  match scan (m_buf p ++ chunk) with
  | (o, None) => (o, mkParser [] true)
  | (o, Some pos) => (o, mkParser (drop pos (m_buf p ++ chunk)) false)
  end.
Proof.
  intros Hp Hc Hg Hl. unfold feed. rewrite Hg. zdecide.
  rewrite scan_spec by by apply Forall_app. by destruct (scan _).
Qed.

Lemma feed_inv p chunk : parser_inv p -> wf_bytes chunk -> parser_inv (snd (feed p chunk)).
Proof.
  intros Hi Hc. pose proof Hi as (Hw & Hn & Hg). unfold feed.
  destruct (m_giveUp p) eqn:E; [done|]. case_match; [split; [constructor|]; by split|].
  assert (Hwf : wf_bytes (m_buf p ++ chunk)) by by apply Forall_app.
  rewrite scan_spec by done. destruct (scan _) as [o [pos|]] eqn:Es;
    [|split; [constructor|]; by split].
  apply (scan_stops (S (length (m_buf p ++ chunk)))) in Es; [|lia|done].
  destruct Es as [Hpos Hs]. split; [by apply wf_drop|]. split; [|done].
  simpl. by rewrite <- tryParseOne_drop.
Qed.

Lemma feed_all_inv chunks p :
  parser_inv p -> Forall wf_bytes chunks -> parser_inv (snd (feed_all p chunks)).
Proof.
  intros Hp Hc. revert p Hp. induction Hc as [|c cs Hc _ IH]; intros p Hp; [done|].
  cbn [feed_all]. pose proof (feed_inv p c Hp Hc) as H1. destruct (feed p c) as [o1 p1].
  specialize (IH p1 H1). by destruct (feed_all p1 cs).
Qed.

(** Every frame delivered is within the frame cap, whatever is fed. *)
Definition frame_small (f : WsFrame) : Prop := zlen (payload f) <= kMaxFramePayload.

Lemma feed_loop_frames fuel buf pos out r :
  wf_bytes buf -> (pos <= length buf)%nat -> Forall frame_small out ->
  feed_loop fuel buf pos out = Some r -> Forall frame_small (fst r).
Proof.
  intros Hw. revert pos out. induction fuel as [|fuel IH]; intros pos out Hp Ho H; cbn [feed_loop] in H; [done|].
  destruct (tryParseOne buf pos) as [| |f n] eqn:E; simplify_eq; [done..|].
  destruct (tryParseOne_size _ _ _ _ Hp Hw E) as [H1 H2]. unfold zlen in H2.
  apply IH in H; [done|lia|]. apply Forall_app. split; [done|]. repeat constructor.
  by eapply tryParseOne_payload.
Qed.

Lemma feed_frames p chunk :
  wf_bytes (m_buf p) -> wf_bytes chunk -> Forall frame_small (fst (feed p chunk)).
Proof.
  intros Hp Hc. unfold feed. destruct (m_giveUp p); [constructor|].
  case_if Hbig; [constructor|].
  destruct (feed_loop _ _ _ _) as [[out [pos|]]|] eqn:E1; [| |constructor];
    (apply feed_loop_frames in E1; [done|by apply Forall_app|lia|constructor]).
Qed.

Lemma feed_all_frames chunks p :
  parser_inv p -> Forall wf_bytes chunks -> Forall frame_small (fst (feed_all p chunks)).
Proof.
  intros Hp Hc. revert p Hp. induction Hc as [|c cs Hc _ IH]; intros p Hp; [constructor|].
  cbn [feed_all]. pose proof (feed_inv p c Hp Hc) as H1.
  pose proof (feed_frames p c (proj1 Hp) Hc) as H2. destruct (feed p c) as [o1 p1].
  specialize (IH p1 H1). destruct (feed_all p1 cs) as [o2 p2]. by apply Forall_app.
Qed.

(** ** Runs of [feed] *)

Definition small_chunk (c : bytes) : Prop :=
  wf_bytes c /\ zlen c <= kMaxFramePayload - 14.

(** The state [scan] leaves behind. *)
Definition scan_result (buf : bytes) : list WsFrame * WsFrameParser :=
  match scan buf with
  | (o, None) => (o, mkParser [] true)
  | (o, Some pos) => (o, mkParser (drop pos buf) false)
  end.

Lemma feed_all_given_up p chunks : m_giveUp p = true -> feed_all p chunks = ([], p).
Proof.
  intros H. induction chunks as [|c cs IH]; [done|]. cbn [feed_all].
  unfold feed. by rewrite H, IH.
Qed.

Lemma feed_small p c :
  parser_inv p -> m_giveUp p = false -> small_chunk c ->
  feed p c = scan_result (m_buf p ++ c).
Proof.
  intros Hp Hg [Hc Hs]. pose proof (parser_inv_size p Hp) as Hz.
  apply feed_scan; [apply Hp|done|done|]. unfold kMaxBufferBytes in *. lia.
Qed.

(** With chunks of at most 16 MiB - 14 bytes the parser computes [scan] of the
    whole stream. *)
Lemma feed_all_scan chunks p :
  parser_inv p -> m_giveUp p = false -> Forall small_chunk chunks ->
  feed_all p chunks = scan_result (m_buf p ++ concat chunks).
Proof.
  intros Hp Hg Hc. revert p Hp Hg.
  induction Hc as [|c cs Hc Hcs IH]; intros [buf g] Hp Hg; simpl in Hg; subst g; cbn [feed_all].
  - simpl. rewrite app_nil_r. unfold scan_result.
    destruct Hp as (Hw & Hi & _). simpl in *. rewrite scan_unfold, Hi by done. by rewrite drop_0.
  - pose proof (feed_inv _ c Hp (proj1 Hc)) as Hp1. revert Hp1.
    rewrite (feed_small _ _ Hp) by done. cbn [m_buf concat].
    assert (Hcat : wf_bytes (concat cs)).
    { unfold wf_bytes. rewrite Forall_concat. by eapply Forall_impl; [exact Hcs|intros ? []]. }
    assert (Hw : wf_bytes (buf ++ c)) by (apply Forall_app; split; [apply Hp|apply Hc]).
    unfold scan_result at 1. intros Hp1. revert Hp1.
    unfold scan_result. rewrite app_assoc, (scan_app (S (length (buf ++ c))) (buf ++ c)) by (done || (rewrite length_app; lia)).
    pose proof (scan_stops (S (length (buf ++ c))) (buf ++ c)) as Hst.
    destruct (scan (buf ++ c)) as [o [pos|]] eqn:Es; intros Hp1; cbn [snd] in Hp1.
    + rewrite IH by done. cbn [m_buf]. unfold scan_result.
      destruct (Hst _ _ ltac:(lia) Hw eq_refl) as [Hpos _].
      unfold with_out, shift_cursor.
      destruct (scan (drop pos (buf ++ c) ++ concat cs)) as [o' [pos'|]]; simpl; [|done].
      rewrite <- (drop_app_le _ (concat cs)) by done. by rewrite drop_drop.
    + rewrite feed_all_given_up by done. simpl. by rewrite app_nil_r.
Qed.

(** A frame as a peer sends it: its masking key, whether it masks, the frame. *)
Definition Sent : Type := bytes * bool * WsFrame.
Definition sent_frame (s : Sent) : WsFrame := snd s.
Definition sent_ok (s : Sent) : Prop := length (fst (fst s)) = 4%nat /\ frame_ok (sent_frame s).
Definition sent_bytes (s : Sent) : bytes := encode (fst (fst s)) (snd (fst s)) (sent_frame s).

Lemma scan_sent sent :
  Forall sent_ok sent -> wf_bytes (concat (map sent_bytes sent)) ->
  scan (concat (map sent_bytes sent))
  = (map sent_frame sent, Some (length (concat (map sent_bytes sent)))).
Proof.
  intros Hf. induction Hf as [|s sent [Hk Hs] Hfs IH]; intros Hw; [done|].
  cbn [map concat] in *. pose proof (proj2 (proj1 (Forall_app _ _ _) Hw)) as Hw'.
  unfold sent_bytes at 1. rewrite scan_encode by done. rewrite IH by done.
  unfold with_out, shift_cursor. cbn [fst snd option_map]. by rewrite length_app.
Qed.

Lemma small_chunks_wf chunks : Forall small_chunk chunks -> wf_bytes (concat chunks).
Proof.
  intros Hc. unfold wf_bytes. rewrite Forall_concat. by eapply Forall_impl; [exact Hc|intros ? []].
Qed.

(** The parser's events do not depend on how the relay slices the stream:
    two ways of cutting the same bytes into reads of at most 16 MiB - 14 give the
    same frames in the same order and leave the parser in the same state,
    protocol errors included. *)
Theorem ws_chunking_irrelevant chunks1 chunks2 :
  Forall small_chunk chunks1 -> Forall small_chunk chunks2 ->
  concat chunks1 = concat chunks2 ->
  feed_all initParser chunks1 = feed_all initParser chunks2.
Proof.
  intros H1 H2 He.
  rewrite !feed_all_scan by (done || apply parser_inv_init). by rewrite He.
Qed.

Definition ws_example_stream : bytes :=
  wsEncodeFrame [1; 2; 3; 4] 1 true false (lit "ab") true ++
  wsEncodeFrame [1; 2; 3; 4] 9 true false [] true.

Definition small_chunkb (c : bytes) : bool :=
  forallb (fun b => (0 <=? b) && (b <? 256)) c && (zlen c <=? kMaxFramePayload - 14).

Lemma small_chunk_dec c : small_chunkb c = true -> small_chunk c.
Proof.
  unfold small_chunkb. intros H. split_bools. to_prop. split; [|done].
  rewrite forallb_forall in H. apply List.Forall_forall. intros b Hb.
  apply H in Hb. split_bools. to_prop. split; done.
Qed.

Lemma small_chunks_dec cs : forallb small_chunkb cs = true -> Forall small_chunk cs.
Proof.
  rewrite forallb_forall. intros H. apply List.Forall_forall. intros c Hc.
  by apply small_chunk_dec, H.
Qed.

Lemma ws_chunking_irrelevant_witness :
  feed_all initParser [ws_example_stream]
  = feed_all initParser (map (fun b => [b]) ws_example_stream).
Proof.
  apply ws_chunking_irrelevant.
  - apply small_chunks_dec. vm_compute. reflexivity.
  - apply small_chunks_dec. vm_compute. reflexivity.
  - vm_compute; reflexivity.
Defined.

(** C7. Delivery: a stream of frames written by the proxy's own encoder, each with
    its own masking key or unmasked, and cut into reads in any way is reported as
    exactly those frames, nothing is left in the buffer and the parser does not
    give up. *)
Theorem ws_stream_delivery sent chunks :
  Forall sent_ok sent -> Forall small_chunk chunks ->
  concat chunks = concat (map sent_bytes sent) ->
  feed_all initParser chunks = (map sent_frame sent, initParser).
Proof.
  intros Hf Hc He. pose proof (small_chunks_wf _ Hc) as Hw. rewrite He in Hw.
  rewrite feed_all_scan by (done || apply parser_inv_init). rewrite He. simpl.
  unfold scan_result. rewrite scan_sent by done. by rewrite drop_all.
Qed.

Lemma ws_stream_delivery_witness :
  feed_all initParser (map (fun b => [b]) ws_example_stream)
  = ([mkFrame 1 true false (lit "ab"); mkFrame 9 true false []], initParser).
Proof.
  apply (ws_stream_delivery [([1; 2; 3; 4], true, mkFrame 1 true false (lit "ab"));
                             ([1; 2; 3; 4], true, mkFrame 9 true false [])]).
  - repeat constructor; vm_compute; discriminate || reflexivity.
  - apply small_chunks_dec. vm_compute. reflexivity.
  - vm_compute. reflexivity.
Defined.

(** Memory: after any sequence of reads, of any sizes, the reassembly buffer
    holds less than one maximal frame and its header, hence less than the
    32 MiB cap; and a parser that gave up holds nothing. *)
Theorem ws_buffer_bounded chunks :
  Forall wf_bytes chunks ->
  let p := snd (feed_all initParser chunks) in
  bufferedBytes p < kMaxFramePayload + 14 /\ bufferedBytes p <= kMaxBufferBytes /\
  (m_giveUp p = true -> bufferedBytes p = 0).
Proof.
  intros Hc p. pose proof (feed_all_inv chunks initParser parser_inv_init Hc) as Hp.
  pose proof (parser_inv_size _ Hp) as Hz. unfold bufferedBytes, kMaxBufferBytes, kMaxFramePayload in *.
  fold p in Hz, Hp. split; [done|]. split; [lia|].
  intros Hg. destruct Hp as (_ & _ & H). by rewrite H.
Qed.

Lemma ws_buffer_bounded_witness :
  bufferedBytes (snd (feed_all initParser [[129; 133]; [1; 2; 3]])) < kMaxFramePayload + 14.
Proof.
  apply (ws_buffer_bounded [[129; 133]; [1; 2; 3]]).
  repeat constructor; discriminate || reflexivity.
Defined.

(** An absurd length is fatal: when the frame at the front of the buffer
    declares a 64-bit length with the high bit set or above 16 MiB, [feed]
    clears the buffer, gives up, and every later call is a no-op. *)
Theorem ws_absurd_length_fatal p chunk later :
  parser_inv p -> m_giveUp p = false -> small_chunk chunk ->
  let buf := m_buf p ++ chunk in
  2 + 8 <= zlen buf -> Z.land (at_ buf 1) 127 = 127 ->
  read64 buf 2 < 0 \/ kMaxFramePayload < read64 buf 2 ->
  feed p chunk = ([], mkParser [] true) /\
  feed_all (snd (feed p chunk)) later = ([], mkParser [] true).
Proof.
  intros Hp Hg Hc buf Hlen H127 Hbad.
  assert (Hw : wf_bytes buf) by (apply Forall_app; split; [apply Hp|apply Hc]).
  assert (Hf : feed p chunk = ([], mkParser [] true)).
  { rewrite feed_small by done. fold buf. unfold scan_result.
    rewrite scan_unfold by done.
    assert (tryParseOne buf 0 = ProtocolError) as ->; [|done].
    unfold tryParseOne, payloadLength. rewrite Z.sub_0_r. cbn [Nat.add]. zdecide.
    rewrite H127. simpl (127 =? 126). simpl (127 =? 127). cbv iota. zdecide.
    replace ((read64 buf 2 <? 0) || (kMaxFramePayload <? read64 buf 2)) with true; [done|].
    symmetry. apply orb_true_iff. destruct Hbad; [left|right]; by apply Z.ltb_lt. }
  rewrite Hf. split; [done|]. by apply feed_all_given_up.
Qed.

Lemma ws_absurd_length_fatal_witness :
  feed initParser [130; 127; 255; 0; 0; 0; 0; 0; 0; 1; 65] = ([], mkParser [] true).
Proof.
  apply (ws_absurd_length_fatal initParser [130; 127; 255; 0; 0; 0; 0; 0; 0; 1; 65] []).
  - apply parser_inv_init.
  - reflexivity.
  - apply small_chunk_dec. vm_compute. reflexivity.
  - vm_compute. discriminate.
  - reflexivity.
  - left. vm_compute. reflexivity.
Defined.

(** ** The inflater *)

Section InflaterProofs.
Context `{ZL : Zlib} `{!ZlibLaws ZL}.

Lemma inflate_loop_total fuel zs inp out :
  zlen out <= kMaxInflatedMessage ->
  kMaxInflatedMessage < zlen out + Z.of_nat fuel * kInflateChunk ->
  exists out' zs' good, inflate_loop fuel zs inp out = Some (out', zs', good) /\
    zlen out' <= kMaxInflatedMessage + kInflateChunk /\
    (good = true -> zlen out' <= kMaxInflatedMessage).
Proof.
  revert zs inp out. induction fuel as [|fuel IH]; intros zs inp out Ho Hf; [lia|].
  cbn [inflate_loop]. pose proof (law_window Z_SYNC_FLUSH kInflateChunk zs inp) as Hw.
  destruct (z_inflate Z_SYNC_FLUSH kInflateChunk zs inp) as [[[ret prod] rest] zs']. cbn [fst snd] in Hw.
  assert (0 < kInflateChunk) by (unfold kInflateChunk; lia).
  destruct (hard_error ret).
  { exists out, zs', false. split; [done|]. split; [lia|done]. }
  pose proof (zlen_app out prod) as Hl.
  destruct (kMaxInflatedMessage <? zlen (out ++ prod)) eqn:E1; to_prop.
  { exists (out ++ prod), zs', false. split; [done|]. split; [lia|done]. }
  destruct (negb (kInflateChunk - zlen prod =? 0)) eqn:E2; split_bools; to_prop.
  { exists (out ++ prod), zs', true. split; [done|]. split; lia. }
  apply IH; lia.
Qed.

(** [inflateMessage] on every input: it returns, within the cap plus a window. *)
Lemma inflateMessage_total (i : WsInflater) (compressed : bytes) :
  exists out ok i', inflateMessage i compressed = Some (out, ok, i') /\
    zlen out <= kMaxInflatedMessage + kInflateChunk /\
    (ok = true -> zlen out <= kMaxInflatedMessage /\ healthy i' = true) /\
    (ok = false -> m_stream i <> None -> healthy i' = false).
Proof.
  unfold inflateMessage, healthy.
  destruct i as [[zs|] [|]]; cbn [m_ok m_stream]; try by (do 3 eexists; repeat split; done).
  destruct (inflate_loop_total inflate_fuel zs (compressed ++ kDeflateTail) [])
    as (out & zs' & good & -> & Hb & Hg); [done|vm_compute; done|].
  exists out, good, (mkInflater (Some zs') good). split; [done|]. split; [done|].
  split; [intros ->; split; [by apply Hg|done]|]. by intros ->.
Qed.

Lemma inflate_loop_carries `{!ZlibStream ZL} fuel : forall zs inp out zs' acc, carries zs inp out zs' ->
  zlen acc <= kMaxInflatedMessage -> kMaxInflatedMessage < zlen acc + Z.of_nat fuel * kInflateChunk ->
  if zlen (acc ++ out) <=? kMaxInflatedMessage then inflate_loop fuel zs inp acc = Some (acc ++ out, zs', true)
  else exists o z, inflate_loop fuel zs inp acc = Some (o, z, false).
Proof.
  induction fuel as [|fuel IH]; intros zs inp out zs' acc Hc Ha Hf; [lia|]. cbn [inflate_loop].
  pose proof (law_carries zs inp out zs' kInflateChunk Hc ltac:(done)) as Hl.
  destruct (z_inflate Z_SYNC_FLUSH kInflateChunk zs inp) as [[[rc prod] rest] zs1]. destruct Hl as (-> & -> & Hn).
  rewrite !zlen_app. pose proof (zlen_nonneg out). assert (Hk : 0 < kInflateChunk) by done.
  destruct (zlen out <? kInflateChunk) eqn:E; to_prop.
  - subst zs1. rewrite take_ge by (unfold zlen in *; lia).
    destruct (kMaxInflatedMessage <? zlen acc + zlen out) eqn:E1; to_prop.
    + rewrite (proj2 (Z.leb_gt _ _)) by lia. by do 2 eexists.
    + rewrite (proj2 (Z.leb_le _ _)) by lia. rewrite (proj2 (Z.eqb_neq _ _)) by lia. done.
  - assert (Ht : zlen (take (Z.to_nat kInflateChunk) out) = kInflateChunk) by (unfold zlen in *; rewrite length_take; lia).
    rewrite Ht, Z.sub_diag. cbn [Z.eqb negb]. destruct (kMaxInflatedMessage <? zlen acc + kInflateChunk) eqn:E1; to_prop.
    + rewrite (proj2 (Z.leb_gt _ _)) by lia. by do 2 eexists.
    + specialize (IH zs1 rest (drop (Z.to_nat kInflateChunk) out) zs' (acc ++ take (Z.to_nat kInflateChunk) out) Hn).
      rewrite <- app_assoc, take_drop, !zlen_app, Ht in IH. apply IH; lia.
Qed.

Lemma inflate_loop_refuses `{!ZlibStream ZL} fuel : forall zs inp acc r, refuses zs inp -> inflate_loop fuel zs inp acc = Some r -> snd r = false.
Proof.
  induction fuel as [|fuel IH]; intros zs inp acc r Hr; [done|]. cbn [inflate_loop].
  pose proof (law_refuses zs inp kInflateChunk Hr ltac:(done)) as Hl.
  destruct (z_inflate Z_SYNC_FLUSH kInflateChunk zs inp) as [[[rc prod] rest] zs1].
  destruct (hard_error rc); [by intros [= <-]|]. destruct Hl as [?|[-> Hn]]; [done|].
  rewrite Z.sub_diag. cbn [Z.eqb negb]. destruct (_ <? _); [by intros [= <-]|]. by apply IH.
Qed.

(** The state of an inflater as the peer knows it: the stream, or nothing after it
    failed. *)
Definition in_state (i : WsInflater) (st : option zstream) : Prop :=
  match st with Some zs => i = mkInflater (Some zs) true | None => healthy i = false end.

Lemma newInflater_state : in_state newInflater (z_init (-15)).
Proof. unfold newInflater. by destruct (z_init (-15)). Qed.

(** A message behind which the tail is carried is inflated, if it is not too large. *)
Lemma inflateMessage_carries `{!ZlibStream ZL} zs zs' compressed out : carries zs (compressed ++ [0; 0; 255; 255]) out zs' ->
  if zlen out <=? kMaxInflatedMessage then inflateMessage (mkInflater (Some zs) true) compressed = Some (out, true, mkInflater (Some zs') true)
  else exists o i, inflateMessage (mkInflater (Some zs) true) compressed = Some (o, false, i) /\ healthy i = false.
Proof.
  intros Hc. unfold inflateMessage. cbn [m_ok m_stream].
  pose proof (inflate_loop_carries inflate_fuel zs (compressed ++ kDeflateTail) out zs' [] Hc ltac:(done) ltac:(vm_compute; done)) as Hl.
  cbn [app] in Hl. destruct (zlen out <=? kMaxInflatedMessage); [by rewrite Hl|]. destruct Hl as (o & z & ->). by do 2 eexists.
Qed.
Lemma inflateMessage_refuses `{!ZlibStream ZL} zs compressed : refuses zs (compressed ++ [0; 0; 255; 255]) ->
  exists o i, inflateMessage (mkInflater (Some zs) true) compressed = Some (o, false, i) /\ healthy i = false.
Proof.
  intros Hr. unfold inflateMessage. cbn [m_ok m_stream].
  destruct (inflate_loop_total inflate_fuel zs (compressed ++ kDeflateTail) []) as (o & z & g & E & _); [done|vm_compute; done|].
  rewrite E. apply inflate_loop_refuses in E; [|done]. cbn [snd] in E. subst g. by do 2 eexists.
Qed.

Lemma inflateMessage_unhealthy (i : WsInflater) (compressed : bytes) :
  healthy i = false -> inflateMessage i compressed = Some ([], false, i).
Proof. destruct i as [zs o]; simpl; intros ->. done. Qed.
End InflaterProofs.

(** The inflater's drain loop ends on every input, however the compressed
    stream is chosen: the output is at most the 64 MiB cap plus one window, a
    message reported good is within the cap, and a message that is not reported
    good leaves the inflater permanently unhealthy, so that later messages are
    refused. *)
Theorem inflateMessage_bounded `{ZL : Zlib} `{!ZlibLaws ZL} (i : WsInflater) (compressed : bytes) :
  exists out ok i', inflateMessage i compressed = Some (out, ok, i') /\
    zlen out <= kMaxInflatedMessage + kInflateChunk /\
    (ok = true -> zlen out <= kMaxInflatedMessage /\ healthy i' = true) /\
    (ok = false -> forall later, m_stream i <> None -> healthy i' = false /\
       inflateMessage i' later = Some ([], false, i')).
Proof.
  destruct (inflateMessage_total i compressed) as (out & ok & i' & He & Hb & Ho & Hn).
  exists out, ok, i'. repeat (split; [done|]). intros Hok later Hs.
  split; [by apply Hn|]. by apply inflateMessage_unhealthy, Hn.
Qed.

Lemma inflateMessage_bounded_witness :
  exists out ok i',
    inflateMessage (newInflater (ZL := storedZlib)) [1; 2; 3] = Some (out, ok, i') /\
    zlen out <= kMaxInflatedMessage + kInflateChunk.
Proof.
  destruct (inflateMessage_bounded (ZL := storedZlib) newInflater [1; 2; 3])
    as (out & ok & i' & H & Hl & _).
  exists out, ok, i'. exact (conj H Hl).
Defined.

(** [wsHoldEligible] is exactly "a text or binary data frame no extension owns". *)
Lemma wsHoldEligible_iff op r1 r2 r3 :
  wsHoldEligible op r1 r2 r3 = true <-> (op = 1 \/ op = 2) /\ r1 = false /\ r2 = false /\ r3 = false.
Proof.
  unfold wsHoldEligible. split.
  - intros H. destruct (negb _); [done|]. destruct r1, r2, r3; try done.
    apply orb_true_iff in H. rewrite !Z.eqb_eq in H. done.
  - by intros ([-> | ->] & -> & -> & ->).
Qed.
