(* ===== verification/HttpFraming.v ===== *)
(** * HTTP/1.1 framing in the proxy: Src/BackEnd/Proxy/proxy_logic.{hpp,cpp} and
    the readers and serializers of proxy_server.cpp

    [parseHeaders], [isFramingSafe] and [decodeChunkedAvailable] are the pure
    framing layer; [readRequestFrom] and [readResponse] the code that frames a
    message read from a socket; [serializeRequestForOrigin] and
    [serializeResponse] what is written to the other side.  A socket is the
    sequence of segments its reads will deliver before it closes or times out. *)

From S2P Require Import Prelude Qt QtSample Zlib.

Local Open Scope Z_scope.

Definition CR : Z := 13.
Definition LF : Z := 10.
Definition CRLF : bytes := [13; 10].
Definition CRLFCRLF : bytes := [13; 10; 13; 10].

Section HttpLogic.
Context `{QtText}.

(** ** proxy_logic.cpp *)

Definition hasControlByte (s : qstr) : bool :=
  existsb (fun u => (u =? 13) || (u =? 10) || (u =? 0)) s.

(** Optional white space of a field value: SP and HTAB only. *)
Definition is_ows (c : Z) : bool := (c =? 32) || (c =? 9).
Definition fieldValue (v : bytes) : qstr := trim_by is_ows v.

(** obs-fold: append to the last value. *)
Definition fold_into_last (hs : list (qstr * qstr)) (cont : qstr) : list (qstr * qstr) :=
  match rev hs with
  | [] => []
  | (n, v) :: r => rev r ++ [(n, if is_nil v then cont else v ++ 32 :: cont)]
  end.

Definition parse_line (hs : list (qstr * qstr)) (line0 : bytes) : list (qstr * qstr) :=
  let line := if ends_with_chr CR line0 then chop1 line0 else line0 in
  if is_nil line then hs
  else if starts_with_chr 32 line || starts_with_chr 9 line then
    if is_nil hs then hs
    else
      let cont := fieldValue line in
      if is_nil cont then hs else fold_into_last hs cont
  else
    match index_of 58 line with
    | None | Some O => hs
    | Some colon =>
        hs ++ [(u_trimmed (take colon line), fieldValue (drop (colon + 1) line))]
    end.

Definition parseHeaders (headerBlock : bytes) : list (qstr * qstr) :=
  fold_left parse_line (tail (split_on LF headerBlock)) [].

Fixpoint findHeader (headers : list (qstr * qstr)) (name : qstr) : qstr :=
  match headers with
  | [] => []
  | h :: hs => if u_cieq (fst h) name then snd h else findHeader hs name
  end.

Definition isChunkedTransfer (te : qstr) : bool :=
  match last (split_skip 44 (u_lower te)) with
  | None => false
  | Some c => seq_eqb (u_trimmed c) (lit "chunked")
  end.

(** The Content-Length elements of one field: [None] is [return false], the
    value threaded is the local [cl]. *)
Fixpoint framing_cl (cl : qstr) (vals : list qstr) : option qstr :=
  match vals with
  | [] => Some cl
  | v0 :: vs =>
      let v := u_trimmed v0 in
      if is_nil v then None
      else match u_tolonglong 10 v with
           | None => None
           | Some n =>
               if n <? 0 then None
               else if is_nil cl then framing_cl v vs
               else if negb (seq_eqb cl v) then None
               else framing_cl cl vs
           end
  end.

Definition te_codings (v : qstr) : list qstr := map u_trimmed (split_skip 44 (u_lower v)).

Definition te_acceptable (v : qstr) : bool :=
  let codings := te_codings v in
  match last codings with
  | None => false
  | Some c =>
      seq_eqb c (lit "chunked") &&
      (length (List.filter (fun c => seq_eqb c (lit "chunked")) codings) =? 1)%nat
  end.

(** The loop over the headers, with [sawTE] and [cl]. *)
Fixpoint framing_loop (isRequest : bool) (sawTE : bool) (cl : qstr)
    (headers : list (qstr * qstr)) : option (bool * qstr) :=
  match headers with
  | [] => Some (sawTE, cl)
  | h :: hs =>
      if hasControlByte (fst h) || hasControlByte (snd h) then None
      else if u_cieq (fst h) (lit "Transfer-Encoding") then
        if negb (te_acceptable (snd h)) then None
        else if isRequest then None
        else framing_loop isRequest true cl hs
      else if u_cieq (fst h) (lit "Content-Length") then
        match framing_cl cl (split_skip 44 (snd h)) with
        | None => None
        | Some cl' => framing_loop isRequest sawTE cl' hs
        end
      else framing_loop isRequest sawTE cl hs
  end.

Definition isFramingSafe (headers : list (qstr * qstr)) (isRequest : bool) : bool :=
  match framing_loop isRequest false [] headers with
  | None => false
  | Some (sawTE, cl) => negb (sawTE && negb (is_nil cl))
  end.

Inductive ChunkResult := Complete | NeedMore | Error.

Definition kMaxChunkBytes : Z := 16 * 1024 * 1024.
Definition kMaxDecodedBytes : Z := 256 * 1024 * 1024.

(** [decodeChunkedAvailable(buffer, decoded)]: verdict and both buffers.  Each
    round consumes a size line, so the buffer's length bounds the rounds. *)
Fixpoint decodeChunked_loop (fuel : nat) (buffer decoded : bytes)
    : option (ChunkResult * bytes * bytes) :=
  match fuel with
  | O => None
  | S fuel' =>
      match index_sub CRLF buffer with
      | None => Some (NeedMore, buffer, decoded)
      | Some crlf =>
          let sizeLine0 := take crlf buffer in
          let sizeLine :=
            match index_of 59 sizeLine0 with
            | Some semi => take semi sizeLine0
            | None => sizeLine0
            end in
          match u_tolonglong 16 (b_trimmed sizeLine) with
          | None => Some (Error, buffer, decoded)
          | Some chunkSize =>
              if (chunkSize <? 0) || (kMaxChunkBytes <? chunkSize)
              then Some (Error, buffer, decoded)
              else if chunkSize =? 0 then
                match index_sub_from CRLFCRLF buffer crlf with
                | None => Some (NeedMore, buffer, decoded)
                | Some e => Some (Complete, drop (e + 4) buffer, decoded)
                end
              else if kMaxDecodedBytes <? zlen decoded + chunkSize
              then Some (Error, buffer, decoded)
              else if zlen buffer <? Z.of_nat crlf + 2 + chunkSize + 2
              then Some (NeedMore, buffer, decoded)
              else
                let n := Z.to_nat chunkSize in
                let buffer1 := drop (crlf + 2) buffer in
                let decoded1 := decoded ++ take n buffer1 in
                if negb (seq_eqb (mid buffer1 n 2) CRLF)
                then Some (Error, buffer1, decoded1)
                else decodeChunked_loop fuel' (drop (n + 2) buffer1) decoded1
          end
      end
  end.

Definition decodeChunkedAvailable (buffer decoded : bytes)
    : option (ChunkResult * bytes * bytes) :=
  decodeChunked_loop (S (length buffer)) buffer decoded.

Definition isProxyHopRequestHeader (name : qstr) : bool :=
  u_cieq name (lit "Proxy-Connection") || u_cieq name (lit "Proxy-Authorization").

(** ** Messages (proxy_server.hpp) *)

Record HttpRequest := mkRequest {
  rq_method : qstr; rq_target : qstr; rq_httpVersion : qstr;
  rq_host : qstr; rq_port : Z; rq_tls : bool;
  rq_path : qstr; rq_headers : list (qstr * qstr); rq_body : bytes
}.

(** Assignments to one field. *)
Definition with_target (t : qstr) (r : HttpRequest) : HttpRequest :=
  mkRequest (rq_method r) t (rq_httpVersion r) (rq_host r) (rq_port r) (rq_tls r) (rq_path r) (rq_headers r) (rq_body r).
Definition with_origin (host : qstr) (port : Z) (tls : bool) (r : HttpRequest) : HttpRequest :=
  mkRequest (rq_method r) (rq_target r) (rq_httpVersion r) host port tls (rq_path r) (rq_headers r) (rq_body r).
Definition with_path (p : qstr) (r : HttpRequest) : HttpRequest :=
  mkRequest (rq_method r) (rq_target r) (rq_httpVersion r) (rq_host r) (rq_port r) (rq_tls r) p (rq_headers r) (rq_body r).
Definition with_headers (hs : list (qstr * qstr)) (r : HttpRequest) : HttpRequest :=
  mkRequest (rq_method r) (rq_target r) (rq_httpVersion r) (rq_host r) (rq_port r) (rq_tls r) (rq_path r) hs (rq_body r).
Definition with_body (b : bytes) (r : HttpRequest) : HttpRequest :=
  mkRequest (rq_method r) (rq_target r) (rq_httpVersion r) (rq_host r) (rq_port r) (rq_tls r) (rq_path r) (rq_headers r) b.

Record HttpResponse := mkResponse {
  rs_httpVersion : qstr; rs_statusCode : Z; rs_reasonPhrase : qstr;
  rs_headers : list (qstr * qstr); rs_body : bytes; rs_decodedBody : bytes; rs_contentDecoded : bool
}.

Definition bodyForInspection (r : HttpResponse) : bytes :=
  if rs_contentDecoded r || negb (is_nil (rs_decodedBody r)) then rs_decodedBody r else rs_body r.

(** ** Serializers *)

Definition header_line (h : qstr * qstr) : bytes :=
  u_tolatin1 (fst h) ++ lit ": " ++ u_tolatin1 (snd h) ++ CRLF.

Definition serializeRequestForOrigin (req : HttpRequest) : bytes :=
  u_tolatin1 (rq_method req) ++ [32] ++ u_tolatin1 (rq_path req) ++ [32]
  ++ u_tolatin1 (rq_httpVersion req) ++ CRLF
  ++ flat_map (fun h => if isProxyHopRequestHeader (fst h) then [] else header_line h)
       (rq_headers req)
  ++ CRLF ++ rq_body req.

Definition status_line (resp : HttpResponse) : bytes :=
  u_tolatin1 (rs_httpVersion resp) ++ [32] ++ number 10 (rs_statusCode resp) ++ [32]
  ++ u_tolatin1 (rs_reasonPhrase resp) ++ CRLF.

Definition serializeResponse (resp : HttpResponse) : bytes :=
  let kept := List.filter (fun h => negb (u_cieq (fst h) (lit "Transfer-Encoding")))
                (rs_headers resp) in
  let sawContentLength := existsb (fun h => u_cieq (fst h) (lit "Content-Length")) kept in
  status_line resp
  ++ flat_map header_line kept
  ++ (if sawContentLength then []
      else lit "Content-Length: " ++ number 10 (zlen (rs_body resp)) ++ CRLF)
  ++ CRLF ++ rs_body resp.

Definition serializeUpgradeResponse (resp : HttpResponse) : bytes :=
  status_line resp ++ flat_map header_line (rs_headers resp) ++ CRLF ++ rs_body resp.

(** ** Readers

    [segs] are the segments later reads deliver; when they run out a wait fails
    (timeout, close or shutdown).  A reader returns the segments it left unread. *)

Definition kMaxHeaderBytes : Z := 64 * 1024.
Definition kMaxBody : Z := 128 * 1024 * 1024.
Definition kMaxCloseDelimitedBytes : Z := 256 * 1024 * 1024.

Fixpoint readHeaderBlock (out : bytes) (segs : list bytes) : option (bytes * list bytes) :=
  if contains_sub CRLFCRLF out then Some (out, segs)
  else if kMaxHeaderBytes <? zlen out then None
  else match segs with
       | [] => None
       | s :: segs' => readHeaderBlock (out ++ s) segs'
       end.

(** [readExact]: [socket->read(n - out.size())] leaves the rest of a segment. *)
Fixpoint readExact (n : Z) (out : bytes) (segs : list bytes) : option (bytes * list bytes) :=
  if n <=? zlen out then Some (out, segs)
  else match segs with
       | [] => None
       | s :: segs' =>
           let want := Z.to_nat (n - zlen out) in
           if (length s <=? want)%nat then readExact n (out ++ s) segs'
           else Some (out ++ take want s, drop want s :: segs')
       end.

Fixpoint readUntilClose (out : bytes) (segs : list bytes) : option bytes :=
  match segs with
  | [] => if kMaxCloseDelimitedBytes <? zlen out then None else Some out
  | s :: segs' =>
      if kMaxCloseDelimitedBytes <? zlen (out ++ s) then None
      else readUntilClose (out ++ s) segs'
  end.

Fixpoint readChunkedBody (buffer decoded : bytes) (segs : list bytes)
    : option (bytes * bytes * list bytes) :=
  match decodeChunkedAvailable buffer decoded with
  | Some (Complete, buffer', decoded') => Some (decoded', buffer', segs)
  | Some (Error, _, _) | None => None
  | Some (NeedMore, buffer', decoded') =>
      match segs with
      | [] => None
      | s :: segs' => readChunkedBody (buffer' ++ s) decoded' segs'
      end
  end.

(** A body framed by the Content-Length text [cl], the bytes [rest] already
    read: [toLongLong] without its flag is 0 when it fails. *)
Definition readLengthBody (cl : qstr) (rest : bytes) (segs : list bytes)
    : option (bytes * list bytes) :=
  let n := default 0 (u_tolonglong 10 cl) in
  if (n <? 0) || (kMaxBody <? n) then None
  else if zlen rest <? n then
    match readExact (n - zlen rest) [] segs with
    | None => None
    | Some (extra, segs') => Some (rest ++ extra, segs')
    end
  else Some (take (Z.to_nat n) rest, segs).

Definition readRequestFrom (segs : list bytes) : option (HttpRequest * list bytes) :=
  match readHeaderBlock [] segs with
  | None => None
  | Some (buf, segs1) =>
      let sep := default 0%nat (index_sub CRLFCRLF buf) in
      let headerBlock := take sep buf in
      let rest := drop (sep + 4) buf in
      let requestLine :=
        match index_sub CRLF headerBlock with
        | Some i => take i headerBlock
        | None => headerBlock
        end in
      match split_on 32 requestLine with
      | m :: t :: v :: _ =>
          let headers := parseHeaders headerBlock in
          let req := mkRequest m t v [] 80 false t headers [] in
          if u_cieq m (lit "CONNECT") then Some (req, segs1)
          else if negb (isFramingSafe headers true) then None
          else
            let cl := findHeader headers (lit "Content-Length") in
            if is_nil cl then Some (req, segs1)
            else match readLengthBody cl rest segs1 with
                 | None => None
                 | Some (body, segs2) => Some (with_body body req, segs2)
                 end
      | _ => None
      end
  end.

(** Which of the three body framings a response gets. *)
Inductive BodyFraming := NoBody | Chunked | ByLength (cl : qstr) | UntilClose.

Definition responseFraming (statusCode : Z) (headers : list (qstr * qstr)) : BodyFraming :=
  if (statusCode =? 101) || (statusCode =? 204) || (statusCode =? 304)
     || ((100 <=? statusCode) && (statusCode <? 200)) then NoBody
  else if isChunkedTransfer (findHeader headers (lit "Transfer-Encoding")) then Chunked
  else
    let cl := findHeader headers (lit "Content-Length") in
    if is_nil cl then UntilClose else ByLength cl.

Definition readResponse `{ZL : Zlib} (maxOut : Z) (segs : list bytes) : option (HttpResponse * list bytes) :=
  match readHeaderBlock [] segs with
  | None => None
  | Some (buf, segs1) =>
      let sep := default 0%nat (index_sub CRLFCRLF buf) in
      let headerBlock := take sep buf in
      let rest := drop (sep + 4) buf in
      let statusLine :=                            (* left(-1) is empty *)
        match index_sub CRLF headerBlock with
        | Some i => take i headerBlock
        | None => []
        end in
      match index_of 32 statusLine with
      | None => None
      | Some sp1 =>
          match index_of_from 32 statusLine (sp1 + 1) with
          | None => None
          | Some sp2 =>
              let code := default 0 (u_toint 10 (mid statusLine (sp1 + 1) (sp2 - sp1 - 1))) in
              let headers := parseHeaders headerBlock in
              let build body decoded :=
                mkResponse (take sp1 statusLine) code (drop (sp2 + 1) statusLine)
                  headers body decoded false in
              let finish body segs' :=
                match decodeContentEncoding (findHeader headers (lit "Content-Encoding"))
                        body maxOut with
                | Some (dec, _) => Some (build body dec, segs')
                | None => None
                end in
              match responseFraming code headers with
              | NoBody => Some (build rest [], segs1)
              | f =>
                  if negb (isFramingSafe headers false) then None
                  else match f with
                       | Chunked =>
                           match readChunkedBody rest [] segs1 with
                           | None => None
                           | Some (decoded, _, segs2) => finish decoded segs2
                           end
                       | ByLength cl =>
                           match readLengthBody cl rest segs1 with
                           | None => None
                           | Some (body, segs2) => finish body segs2
                           end
                       | _ =>
                           match readUntilClose [] segs1 with
                           | None => None
                           | Some tl => finish (rest ++ tl) []
                           end
                       end
              end
          end
      end
  end.
End HttpLogic.

(** ** The framing guard, as a specification *)

Section FramingSpec.
Context `{QtText}.

Definition isTE (h : qstr * qstr) : bool := u_cieq (fst h) (lit "Transfer-Encoding").
Definition isCL (h : qstr * qstr) : bool := negb (isTE h) && u_cieq (fst h) (lit "Content-Length").

(** The Content-Length elements of a message, in order. *)
Definition cl_elements (hs : list (qstr * qstr)) : list qstr :=
  flat_map (fun h => if isCL h then map u_trimmed (split_skip 44 (snd h)) else []) hs.

Definition valid_cl (v : qstr) : Prop :=
  v <> [] /\ exists n, u_tolonglong 10 v = Some n /\ 0 <= n.

Definition clean_header (h : qstr * qstr) : Prop :=
  hasControlByte (fst h) = false /\ hasControlByte (snd h) = false.

(** Running over the elements [vals] from the value [cl] ends with [cl']: every
    element is valid and is [cl'], and a value already set is never replaced. *)
Definition cl_run (cl : qstr) (vals : list qstr) (cl' : qstr) : Prop :=
  Forall valid_cl vals /\ Forall (fun v => v = cl') vals /\ (cl <> [] \/ vals = [] -> cl' = cl).

Lemma cl_run_nonempty cl vals cl' : cl_run cl vals cl' -> vals <> [] -> cl' <> [].
Proof.
  intros (Hv & He & _) Hne. destruct vals as [|v vs]; [done|].
  apply Forall_cons in Hv as [[Hn _] _]. apply Forall_cons in He as [-> _]. done.
Qed.

Lemma cl_run_app cl xs ys cl' :
  cl_run cl (xs ++ ys) cl' <-> exists c, cl_run cl xs c /\ cl_run c ys cl'.
Proof.
  split.
  - intros (Hv & He & Hc). rewrite !Forall_app in *. destruct Hv as [Hv1 Hv2], He as [He1 He2].
    destruct (decide (xs = [])) as [->|Hx].
    + exists cl. split; repeat split; try done; naive_solver.
    + exists cl'. split; repeat split; try done. intros [Hcl|?]; [auto|done].
  - intros (c & H1 & H2). destruct (decide (xs = [])) as [->|Hx].
    { destruct H1 as (_ & _ & Hc). rewrite <- (Hc (or_intror eq_refl)). done. }
    pose proof (cl_run_nonempty _ _ _ H1 Hx) as Hne.
    destruct H1 as (Hv1 & He1 & Hc1), H2 as (Hv2 & He2 & Hc2).
    rewrite (Hc2 (or_introl Hne)) in *. repeat split; rewrite ?Forall_app; try done.
    intros [Hcl|Hn]; [auto|]. by apply app_eq_nil in Hn as [-> _].
Qed.

Lemma framing_cl_spec cl vals cl' :
  framing_cl cl vals = Some cl' <->
  cl_run cl (map u_trimmed vals) cl'.
Proof.
  unfold cl_run.
  revert cl. induction vals as [|v0 vs IH]; intros cl; cbn [framing_cl map].
  - split; [intros [= ->]; auto|]. intros (_ & _ & Hc). f_equal. symmetry. auto.
  - set (v := u_trimmed v0). rewrite !Forall_cons. unfold valid_cl at 1.
    destruct (is_nil v) eqn:Ev.
    { apply is_nil_true in Ev. rewrite Ev. naive_solver. }
    assert (Hv : v <> []) by (intros ->; done).
    destruct (u_tolonglong 10 v) as [n|]; [|naive_solver].
    destruct (n <? 0) eqn:En; to_prop.
    { split; [done|]. intros [[(_ & m & Hm & Hm0) _] _]. simplify_eq. lia. }
    destruct (is_nil cl) eqn:Ec.
    + apply is_nil_true in Ec as ->. rewrite IH. split.
      * intros (H1 & H2 & H3). specialize (H3 (or_introl Hv)) as ->.
        split; [eauto|]. split; [by split|]. by intros [|].
      * intros ((_ & H1) & (-> & H2) & _). eauto.
    + assert (Hc : cl <> []) by (intros ->; done).
      destruct (negb (seq_eqb cl v)) eqn:Es; split_bools.
      * split; [done|]. intros (_ & (Hvc & _) & H3). exfalso.
        assert (seq_eqb cl v = true); [|congruence]. apply seq_eqb_eq. naive_solver.
      * apply seq_eqb_eq in Es. rewrite IH. split.
        -- intros (H1 & H2 & H3). specialize (H3 (or_introl Hc)) as ->.
           split; [eauto|]. split; [by split|]. done.
        -- intros ((_ & H1) & (_ & H2) & H3). split; [done|]. split; [done|]. auto.
Qed.

(** What the guard asks of a Transfer-Encoding field. *)
Definition te_ok (isReq : bool) (h : qstr * qstr) : Prop :=
  isTE h = true -> te_acceptable (snd h) = true /\ isReq = false.

Lemma framing_loop_spec isReq te cl hs te' cl' :
  framing_loop isReq te cl hs = Some (te', cl') <->
  Forall clean_header hs /\ Forall (te_ok isReq) hs /\
  cl_run cl (cl_elements hs) cl' /\ te' = te || existsb isTE hs.
Proof.
  revert te cl. induction hs as [|h hs IH]; intros te cl; cbn [framing_loop cl_elements flat_map existsb].
  - rewrite orb_false_r. unfold cl_run. naive_solver.
  - fold (cl_elements hs). unfold isCL. change (u_cieq (fst h) (lit "Transfer-Encoding")) with (isTE h).
    rewrite !Forall_cons. unfold clean_header at 1, te_ok at 1.
    destruct (hasControlByte (fst h)); [naive_solver|].
    destruct (hasControlByte (snd h)); [naive_solver|]. cbn [orb].
    destruct (isTE h) eqn:Et; cbn [negb andb app].
    + destruct (te_acceptable (snd h)) eqn:Ea; cbn [negb]; [|naive_solver].
      destruct isReq; [naive_solver|]. rewrite IH, orb_true_r. naive_solver.
    + assert (Hf : forall P : Prop, (false = true -> P) <-> True) by done. rewrite Hf.
      destruct (u_cieq (fst h) (lit "Content-Length")); [|rewrite IH; tauto].
      rewrite cl_run_app. destruct (framing_cl cl _) as [c1|] eqn:Ec.
      * pose proof (proj1 (framing_cl_spec _ _ _) Ec) as Hc1. rewrite IH. split.
        { intros (? & ? & ? & ?). repeat split; try done. by exists c1. }
        intros (? & ? & (c & Hc & ?) & ?). apply framing_cl_spec in Hc.
        assert (c = c1) as -> by congruence. tauto.
      * split; [done|]. intros (_ & _ & (c & Hc & _) & _). apply framing_cl_spec in Hc. congruence.
Qed.

Definition uniform {A} (l : list A) : Prop := forall x y, x ∈ l -> y ∈ l -> x = y.
End FramingSpec.

Lemma framing_safe_iff `{QtText} hs isReq :
  isFramingSafe hs isReq = true <->
  Forall clean_header hs /\
  (forall h, In h hs -> isTE h = true -> te_acceptable (snd h) = true /\ isReq = false) /\
  Forall valid_cl (cl_elements hs) /\
  (forall v w, v ∈ cl_elements hs -> w ∈ cl_elements hs -> v = w) /\
  (existsb isTE hs = true -> cl_elements hs = []).
Proof.
  unfold isFramingSafe. split.
  - destruct (framing_loop isReq false [] hs) as [[te cl]|] eqn:E; [|done].
    apply framing_loop_spec in E as (H1 & H2 & (H3 & H4 & H5) & ->). intros Hs.
    rewrite List.Forall_forall in H2.
    rewrite Forall_forall in H4. repeat (split; [done|]). split.
    + intros v w Hv Hw. by rewrite (H4 v Hv), (H4 w Hw).
    + intros Hte. rewrite Hte in Hs. destruct (cl_elements hs) as [|v l]; [done|].
      rewrite Forall_cons in H3. destruct H3 as [[Hv _] _].
      rewrite (H4 v ltac:(left)) in Hv. by destruct cl.
  - intros (H1 & H2 & H3 & H4 & H5).
    assert (E : framing_loop isReq false [] hs = Some (existsb isTE hs, hd [] (cl_elements hs))).
    { apply framing_loop_spec. split; [done|]. split; [by apply List.Forall_forall|].
      split; [|done]. split; [done|]. split.
      - rewrite Forall_forall. intros v Hv. apply H4; [done|].
        destruct (cl_elements hs); [by apply not_elem_of_nil in Hv|left].
      - intros [Hc|Hc]; [done|by rewrite Hc]. }
    rewrite E. destruct (existsb isTE hs); [|done]. by rewrite H5.
Qed.

Lemma has_control_iff s : hasControlByte s = false <-> 13 ∉ s /\ 10 ∉ s /\ 0 ∉ s.
Proof.
  unfold hasControlByte. rewrite <- not_true_iff_false, existsb_exists. setoid_rewrite <- list_elem_of_In. split.
  - intros Hn. split_and!; intros Hi; apply Hn; eexists; (split; [exact Hi|reflexivity]).
  - intros (H1 & H2 & H3) (u & Hu & E). apply orb_true_iff in E as [[E|E]%orb_true_iff|E]; apply Z.eqb_eq in E; by subst u.
Qed.
Lemma clean_no_cr h : clean_header h -> 13 ∉ snd h.
Proof. intros [_ Hv]. by apply has_control_iff in Hv as [? _]. Qed.

(** The codings of a Transfer-Encoding value: the last is chunked, and no other. *)
Lemma te_acceptable_iff `{QtText} v :
  te_acceptable v = true <-> exists before, te_codings v = before ++ [lit "chunked"] /\ lit "chunked" ∉ before.
Proof.
  unfold te_acceptable. set (P := fun c => seq_eqb c (lit "chunked")).
  assert (Hlen : forall l, length (List.filter P l) = 0%nat <-> lit "chunked" ∉ l).
  { induction l as [|c l IH]; cbn [List.filter]; [split; [intros _; apply not_elem_of_nil|done]|]. rewrite not_elem_of_cons. unfold P at 1.
    destruct (seq_eqb c _) eqn:E; [apply seq_eqb_eq in E as ->; cbn [length]; split; [lia|naive_solver]|].
    rewrite IH. split; [|naive_solver]. intros Hn. split; [|done]. intros <-. by rewrite (proj2 (seq_eqb_eq _ _) eq_refl) in E. }
  destruct (te_codings v) as [|c l _] using rev_ind.
  - split; [done|]. intros (b & E & _). by destruct b.
  - rewrite last_snoc, List.filter_app, length_app. cbn [List.filter]. unfold P at 2. split.
    + intros E. apply andb_true_iff in E as [E1 E2]. apply seq_eqb_eq in E1 as ->. rewrite (proj2 (seq_eqb_eq _ _) eq_refl) in E2.
      exists l. split; [done|]. apply Hlen. apply Nat.eqb_eq in E2. cbn [length] in E2. lia.
    + intros (b & E & Hb). apply app_inj_tail in E as [-> ->]. rewrite (proj2 (seq_eqb_eq _ _) eq_refl). cbn [length andb].
      apply Nat.eqb_eq. rewrite (proj2 (Hlen b) Hb). done.
Qed.

(** C6. The framing guard accepts a message exactly when: no header name or value
    carries CR, LF or NUL; a Transfer-Encoding occurs in responses only, and its
    comma-separated codings, lower-cased and trimmed, are chunked in the last place
    and nowhere else; every Content-Length element is a non-empty non-negative decimal
    of 64 bits and all elements are the same text; and the two framings are not used
    together. *)
Theorem isFramingSafe_iff `{QtText} hs isReq :
  isFramingSafe hs isReq = true <->
  (forall h c, In h hs -> c = 13 \/ c = 10 \/ c = 0 -> c ∉ fst h /\ c ∉ snd h) /\
  (forall h, In h hs -> isTE h = true -> isReq = false /\
     exists before, map u_trimmed (split_skip 44 (u_lower (snd h))) = before ++ [lit "chunked"] /\ lit "chunked" ∉ before) /\
  (forall v, v ∈ cl_elements hs -> v <> [] /\ exists n, u_tolonglong 10 v = Some n /\ 0 <= n) /\
  (forall v w, v ∈ cl_elements hs -> w ∈ cl_elements hs -> v = w) /\
  (existsb isTE hs = true -> cl_elements hs = []).
Proof.
  rewrite framing_safe_iff, List.Forall_forall. unfold clean_header. setoid_rewrite has_control_iff.
  assert (HT : (forall h, In h hs -> isTE h = true -> te_acceptable (snd h) = true /\ isReq = false) <->
    (forall h, In h hs -> isTE h = true -> isReq = false /\
     exists before, map u_trimmed (split_skip 44 (u_lower (snd h))) = before ++ [lit "chunked"] /\ lit "chunked" ∉ before)).
  { setoid_rewrite te_acceptable_iff. unfold te_codings. naive_solver. }
  rewrite HT, Forall_forall. unfold valid_cl. apply and_iff_compat_r. split.
  - intros Hc h c Hin. destruct (Hc h Hin) as ((?&?&?) & ?&?&?). by intros [->|[->| ->]].
  - intros Hc h Hin. split_and!; (eapply Hc; [exact Hin|]); auto.
Qed.

(** The guard and the body decoder agree: for a response the guard accepts,
    a message that has any Transfer-Encoding field is decoded as chunked, it has
    no Content-Length element that could say otherwise, and a message without
    the field is never decoded as chunked. *)
Theorem framing_guard_decoder_agree `{QtTextLaws} code hs :
  isFramingSafe hs false = true ->
  responseFraming code hs <> NoBody ->
  (existsb isTE hs = true -> responseFraming code hs = Chunked /\ cl_elements hs = []) /\
  (existsb isTE hs = false -> responseFraming code hs <> Chunked).
Proof.
  intros Hs Hb. apply framing_safe_iff in Hs as (_ & Hte & _ & _ & Hx).
  unfold responseFraming in *. destruct (_ || _); [done|].
  assert (Hfind : forall name, (existsb (fun h => u_cieq (fst h) name) hs = false -> findHeader hs name = []) /\
    (existsb (fun h => u_cieq (fst h) name) hs = true ->
     exists h, In h hs /\ u_cieq (fst h) name = true /\ findHeader hs name = snd h)).
  { intros name. clear. induction hs as [|h hs [IH1 IH2]]; simpl; [done|].
    destruct (u_cieq (fst h) name) eqn:E; simpl.
    - split; [done|]. intros _. exists h. auto.
    - split; [done|]. intros Hh. destruct (IH2 Hh) as (h' & Hi & He & Hf). exists h'. auto. }
  destruct (Hfind (lit "Transfer-Encoding")) as [Hno Hyes]. split.
  - intros Ht. split; [|auto]. destruct (Hyes Ht) as (h & Hin & Hn & Hf). rewrite Hf.
    destruct (Hte h Hin Hn) as [Ha _].
    assert (isChunkedTransfer (snd h) = true) as ->; [|done].
    unfold te_acceptable, te_codings, isChunkedTransfer in *. rewrite fmap_last in Ha.
    destruct (last (split_skip 44 (u_lower (snd h)))); simpl in Ha; [|done]. by split_bools.
  - intros Ht. rewrite (Hno Ht).
    assert (isChunkedTransfer [] = false) as ->.
    { unfold isChunkedTransfer. by rewrite law_lower_ascii. }
    cbv zeta. destruct (is_nil _); discriminate.
Qed.

(** ** What is forwarded re-parses to what was checked *)

Section Reparse.
Context `{QtTextLaws}.

(** Shape of a parsed field. *)
Record field_ok (h : qstr * qstr) : Prop := mkFieldOk {
  fo_name_wf : wf_bytes (fst h);
  fo_value_wf : wf_bytes (snd h);
  fo_colon : 58 ∉ fst h;
  fo_name_lf : 10 ∉ fst h;
  fo_value_lf : 10 ∉ snd h;
  fo_name : u_trimmed (fst h) = fst h;
  fo_value : fieldValue (snd h) = snd h
}.

Definition nonempty_name (h : qstr * qstr) : bool := negb (is_nil (fst h)).
Definition forwarded (h : qstr * qstr) : bool :=
  nonempty_name h && negb (isProxyHopRequestHeader (fst h)).

Lemma header_line_eq h : field_ok h -> header_line h = fst h ++ [58; 32] ++ snd h ++ [13; 10].
Proof. intros [Hn Hv _ _ _ _ _]. unfold header_line. by rewrite !law_tolatin1. Qed.

Lemma index_of_cons_ne c x s : x <> c -> index_of c (x :: s) = S <$> index_of c s.
Proof. intros Hx. simpl. by rewrite (proj2 (Z.eqb_neq x c)). Qed.

Lemma trim_drop_head f x s : f x = true -> trim_by f (x :: s) = trim_by f s.
Proof. intros Hx. unfold trim_by. simpl. by rewrite Hx. Qed.

Lemma parse_header_line hs h :
  field_ok h ->
  parse_line hs (fst h ++ [58; 32] ++ snd h ++ [13])
  = if nonempty_name h then hs ++ [h] else hs.
Proof.
  intros [Hnw Hvw Hc _ _ Hn Hv]. unfold parse_line, nonempty_name. destruct h as [n v]; cbn [fst snd] in *.
  rewrite (app_assoc n), (app_assoc (n ++ _) v).
  assert (ends_with_chr CR (((n ++ [58; 32]) ++ v) ++ [13]) = true) as ->
    by (unfold ends_with_chr; by rewrite last_snoc).
  assert (chop1 (((n ++ [58; 32]) ++ v) ++ [13]) = (n ++ [58; 32]) ++ v) as ->.
  { unfold chop1. rewrite !length_app. simpl.
    replace (length n + 2 + length v + 1 - 1)%nat with (length ((n ++ [58; 32]) ++ v))
      by (rewrite !length_app; simpl; lia). apply take_app_length. }
  rewrite <- app_assoc. destruct n as [|x n]; [done|].
  assert (Hx : u_space x = false).
  { pose proof (ends_clean_trim u_space (x :: n)) as [Hh _]. unfold u_trimmed in Hn. by rewrite Hn in Hh. }
  assert (H32 : x <> 32) by (intros ->; by rewrite law_space_ascii in Hx).
  assert (H9 : x <> 9) by (intros ->; by rewrite law_space_ascii in Hx).
  cbn [app is_nil starts_with_chr negb].
  rewrite (proj2 (Z.eqb_neq x 32)), (proj2 (Z.eqb_neq x 9)) by done. cbn [orb].
  change (x :: n ++ 58 :: 32 :: v) with ((x :: n) ++ 58 :: 32 :: v).
  rewrite index_of_app by done. cbn [length].
  change (S (length n)) with (length (x :: n)). rewrite take_app_length, Hn.
  replace (length (x :: n) + 1)%nat with (length ((x :: n) ++ [58])) by (rewrite length_app; done).
  replace ((x :: n) ++ 58 :: 32 :: v) with (((x :: n) ++ [58]) ++ 32 :: v) by (by rewrite <- app_assoc).
  rewrite drop_app_length. unfold fieldValue in *. rewrite trim_drop_head by done. by rewrite Hv.
Qed.

(** Every field [parseHeaders] builds has that shape. *)
Lemma in_trim f s (P : Z -> Prop) : Forall P s -> Forall P (trim_by f s).
Proof. rewrite !Forall_forall. intros Hs x Hx. apply Hs. by eapply trim_by_incl. Qed.

Lemma not_in_trim f s x : x ∉ s -> x ∉ trim_by f s.
Proof. intros Hx Hi. by apply Hx, (trim_by_incl f). Qed.

Lemma fold_value_clean v cont :
  v <> [] -> cont <> [] -> fieldValue v = v -> fieldValue cont = cont ->
  fieldValue (v ++ 32 :: cont) = v ++ 32 :: cont.
Proof.
  unfold fieldValue. intros Hv Hc Ev Ec. apply trim_by_clean.
  pose proof (ends_clean_trim is_ows v) as [Hh _]. pose proof (ends_clean_trim is_ows cont) as [_ Hl].
  rewrite Ev in Hh. rewrite Ec in Hl. split.
  - by destruct v.
  - replace (v ++ 32 :: cont) with ((v ++ [32]) ++ cont) by (by rewrite <- app_assoc).
    rewrite last_app. by destruct (last cont) eqn:E; [|apply last_None in E].
Qed.

Lemma fold_into_last_ok hs cont :
  Forall field_ok hs -> wf_bytes cont -> 10 ∉ cont -> cont <> [] -> fieldValue cont = cont ->
  Forall field_ok (fold_into_last hs cont).
Proof.
  intros Hf Hw Hlf Hne Hc. unfold fold_into_last. apply List.Forall_rev in Hf.
  destruct (rev hs) as [|[n v] r]; [constructor|].
  apply Forall_cons in Hf as [[A B C D E F G] Hr]. cbn [fst snd] in *.
  apply Forall_app. split; [by apply List.Forall_rev|]. constructor; [|constructor].
  destruct (is_nil v) eqn:Ev; [by split|].
  assert (v <> []) by (intros ->; done).
  split; cbn [fst snd]; try done.
  - apply Forall_app. split; [done|]. constructor; [split; lia|done].
  - rewrite not_elem_of_app, not_elem_of_cons. done.
  - by apply fold_value_clean.
Qed.

Lemma parse_line_ok hs line :
  Forall field_ok hs -> wf_bytes line -> 10 ∉ line -> Forall field_ok (parse_line hs line).
Proof.
  intros Hf Hw Hlf. unfold parse_line.
  set (l := if ends_with_chr CR line then chop1 line else line).
  assert (Hl : wf_bytes l /\ 10 ∉ l).
  { unfold l, chop1. destruct (ends_with_chr CR line); [|done].
    split; [by apply Forall_take|]. intros Hin. by apply Hlf, (subseteq_take (length line - 1) line). }
  clearbody l. destruct Hl as [Hwl Hll].
  destruct (is_nil l); [done|]. destruct (_ || _).
  - destruct (is_nil hs); [done|]. destruct (is_nil (fieldValue l)) eqn:E; [done|].
    apply fold_into_last_ok; try done.
    + by apply in_trim.
    + by apply not_in_trim.
    + intros Hn. by rewrite Hn in E.
    + apply trim_by_idem.
  - destruct (index_of 58 l) as [[|colon]|] eqn:E; try done.
    apply Forall_app. split; [done|]. constructor; [|constructor].
    destruct (index_of_Some _ _ _ E) as (_ & _ & Hno). apply index_of_None in Hno.
    assert (Ht : forall n, 10 ∉ take n l) by (intros n Hi; by apply Hll, (subseteq_take n l)).
    assert (Hd : forall n, 10 ∉ drop n l) by (intros n Hi; by apply Hll, (subseteq_drop n l)).
    split; cbn [fst snd]; unfold u_trimmed, fieldValue.
    + by apply in_trim, Forall_take.
    + by apply in_trim, Forall_drop.
    + by apply not_in_trim.
    + by apply not_in_trim.
    + by apply not_in_trim.
    + apply trim_by_idem.
    + apply trim_by_idem.
Qed.

Lemma parseHeaders_ok block : wf_bytes block -> Forall field_ok (parseHeaders block).
Proof.
  intros Hw. unfold parseHeaders.
  assert (Hp : forall p, p ∈ tail (split_on LF block) -> wf_bytes p /\ 10 ∉ p).
  { intros p Hp. assert (Hin : p ∈ split_on LF block) by (destruct (split_on LF block); [done|by right]).
    split; [|by apply split_on_parts in Hin]. unfold wf_bytes. rewrite Forall_forall.
    intros x Hx. rewrite <- (join_split LF block) in Hw. unfold wf_bytes in Hw. rewrite Forall_forall in Hw.
    apply Hw. clear -Hin Hx. induction (split_on LF block) as [|q qs IH]; [by apply not_elem_of_nil in Hin|].
    apply elem_of_cons in Hin as [->|Hin]; destruct qs; simpl; try (by apply not_elem_of_nil in Hin);
      rewrite ?elem_of_app, ?elem_of_cons; auto. }
  revert Hp. generalize (tail (split_on LF block)). intros ls Hp.
  assert (G : forall acc, Forall field_ok acc -> Forall field_ok (fold_left parse_line ls acc)).
  { induction ls as [|l ls IH]; intros acc Ha; [done|]. cbn [fold_left]. apply IH.
    - intros p Hin. apply Hp. by right.
    - destruct (Hp l ltac:(left)). by apply parse_line_ok. }
  apply G. constructor.
Qed.

Lemma flat_map_filter_skip hs :
  flat_map (fun h => if isProxyHopRequestHeader (fst h) then [] else header_line h) hs
  = flat_map header_line (List.filter (fun h => negb (isProxyHopRequestHeader (fst h))) hs).
Proof. induction hs as [|h hs IH]; simpl; [done|]. destruct (isProxyHopRequestHeader _); simpl; by rewrite IH. Qed.

End Reparse.

(** The end of the header section of what [serializeRequestForOrigin] writes. *)
Section HeaderEnd.
Context `{QtTextLaws}.

Definition core (h : qstr * qstr) : bytes := fst h ++ [58; 32] ++ snd h.

Lemma core_lf h : field_ok h -> 10 ∉ core h.
Proof. intros [_ _ _ Hn Hv _ _]. unfold core. rewrite !not_elem_of_app. split; [done|]. split; [set_solver|done]. Qed.

Lemma crlf_second x y r : starts_with CRLFCRLF (x :: y :: r) = true -> y = 10.
Proof. unfold CRLFCRLF. cbn [starts_with]. intros E. split_bools. by to_prop. Qed.

(** A line that no CRLF ends early; an LF of its own is possible. *)
Definition no_crlf (line : bytes) : Prop := index_sub CRLF line = None.

Lemma no_crlf_cons x line : no_crlf (x :: line) -> no_crlf line /\ starts_with CRLF (x :: line) = false.
Proof. unfold no_crlf. cbn [index_sub]. destruct (starts_with CRLF (x :: line)); [done|]. by destruct (index_sub CRLF line). Qed.

Lemma no_crlf_lf line : 10 ∉ line -> no_crlf line.
Proof.
  intros Hl. unfold no_crlf. destruct (index_sub CRLF line) as [i|] eqn:E; [|done].
  destruct (index_sub_Some _ _ _ E) as (_ & Hs & _). apply starts_with_spec in Hs as [t Ht].
  exfalso. apply Hl, (subseteq_drop i). rewrite Ht. cbn. right. left.
Qed.

Lemma index_end_line line rest :
  no_crlf line ->
  index_sub CRLFCRLF (line ++ CRLF ++ rest) =
    if starts_with CRLF rest then Some (length line)
    else Nat.add (length line + 2) <$> index_sub CRLFCRLF rest.
Proof.
  unfold CRLF. induction line as [|x line IH]; intros Hl.
  - assert (H1 : starts_with CRLFCRLF (13 :: 10 :: rest) = starts_with [13; 10] rest) by done.
    assert (H2 : starts_with CRLFCRLF (10 :: rest) = false) by done.
    cbn [app index_sub]. rewrite H1, H2. destruct (starts_with [13; 10] rest); [done|].
    cbn [length Nat.add]. by destruct (index_sub CRLFCRLF rest).
  - apply no_crlf_cons in Hl as [Hl Hx]. specialize (IH Hl).
    transitivity (S <$> index_sub CRLFCRLF (line ++ [13; 10] ++ rest)).
    + change ((x :: line) ++ [13; 10] ++ rest) with (x :: (line ++ [13; 10] ++ rest)).
      cbn [index_sub]. destruct (starts_with CRLFCRLF _) eqn:E; [|done]. exfalso.
      destruct line as [|y line]; [by apply crlf_second in E|].
      unfold CRLFCRLF, CRLF in *. cbn [starts_with app] in E, Hx. apply andb_true_iff in E as [E1 E2]. apply andb_true_iff in E2 as [E2 _]. by rewrite E1, E2 in Hx.
    + rewrite IH. destruct (starts_with _ rest); [done|]. by destruct (index_sub CRLFCRLF rest).
Qed.

Lemma header_section_end hs body : Forall field_ok hs -> forall line, no_crlf line ->
  let out := line ++ CRLF ++ flat_map header_line hs ++ CRLF ++ body in
  exists sep, index_sub CRLFCRLF out = Some sep /\
    take sep out = line ++ flat_map (fun h => CRLF ++ core h) hs /\ drop (sep + 4) out = body.
Proof.
  induction 1 as [|h hs Hh _ IH]; intros line Hl out.
  - exists (length line). subst out. cbn [flat_map app]. rewrite index_end_line by done.
    split; [by rewrite starts_with_app|]. rewrite app_nil_r, take_app_length. split; [done|].
    replace (length line + 4)%nat with (length (line ++ CRLFCRLF)) by (rewrite length_app; done).
    replace (line ++ CRLF ++ CRLF ++ body) with ((line ++ CRLFCRLF) ++ body) by (by rewrite <- app_assoc).
    apply drop_app_length.
  - destruct (IH (core h)) as (sep & Hi & Ht & Hd); [by apply no_crlf_lf, core_lf|].
    assert (Hout : out = line ++ CRLF ++ core h ++ CRLF ++ flat_map header_line hs ++ CRLF ++ body).
    { subst out. cbn [flat_map]. rewrite header_line_eq by done. unfold core, CRLF. by rewrite <- !app_assoc. }
    clearbody out. subst out. set (rest := core h ++ _) in *.
    assert (Hst : starts_with CRLF rest = false).
    { pose proof (core_lf h Hh) as Hc. unfold rest. destruct (core h) as [|x c] eqn:E.
      { unfold core in E. by destruct (fst h). }
      destruct c as [|y c]; [unfold core in E; destruct (fst h) as [|? [|? ?]]; done|].
      cbn [app CRLF starts_with]. apply not_elem_of_cons in Hc as [_ Hc]. apply not_elem_of_cons in Hc as [Hy _].
      rewrite (proj2 (Z.eqb_neq 10 y)) by done. by rewrite andb_false_r. }
    exists (length line + 2 + sep)%nat. rewrite index_end_line, Hst, Hi by done. split; [done|].
    replace (length line + 2)%nat with (length (line ++ CRLF)) by (rewrite length_app; done).
    rewrite !(app_assoc line). split.
    + rewrite take_app_add, Ht. cbn [flat_map]. by rewrite <- !app_assoc.
    + rewrite <- Nat.add_assoc, drop_app_add. done.
Qed.

(** A final CR of a line is the line end's. *)
Lemma parse_line_cr hs l : ends_with_chr CR l = false -> parse_line hs (l ++ [13]) = parse_line hs l.
Proof.
  intros Hl. unfold parse_line.
  assert (ends_with_chr CR (l ++ [13]) = true) as -> by (unfold ends_with_chr; by rewrite last_snoc).
  rewrite Hl. unfold chop1. rewrite length_app. cbn [length]. rewrite Nat.add_sub, take_app_length. done.
Qed.

Lemma core_no_cr h : 13 ∉ snd h -> ends_with_chr CR (core h) = false.
Proof.
  intros Hv. unfold ends_with_chr, core. rewrite !last_app. destruct (last (snd h)) as [y|] eqn:E; [|done].
  apply Z.eqb_neq. intros ->. apply Hv. apply last_Some_elem_of in E. done.
Qed.

(** What an LF in the first line makes a field of. *)
Definition first_line_fields (line : bytes) (hs : list (qstr * qstr)) : list (qstr * qstr) :=
  parseHeaders (if is_nil hs then line else line ++ [13]).

Lemma first_line_fields_none line hs : 10 ∉ line -> first_line_fields line hs = [].
Proof.
  intros Hl. unfold first_line_fields, parseHeaders. rewrite split_on_no; [done|].
  destruct (is_nil hs); [done|]. rewrite not_elem_of_app. split; [done|set_solver].
Qed.

Lemma parse_section line hs :
  Forall field_ok hs -> Forall (fun h => 13 ∉ snd h) hs ->
  parseHeaders (line ++ flat_map (fun h => CRLF ++ core h) hs) = first_line_fields line hs ++ List.filter nonempty_name hs.
Proof.
  intros Hok Hcr. unfold first_line_fields, parseHeaders.
  assert (Hsplit : forall h hs' acc, Forall field_ok (h :: hs') -> Forall (fun h => 13 ∉ snd h) (h :: hs') ->
    fold_left parse_line (split_on LF (core h ++ flat_map (fun h => CRLF ++ core h) hs')) acc
    = acc ++ List.filter nonempty_name (h :: hs')).
  { intros h hs'. revert h. induction hs' as [|h' hs' IH]; intros h acc H1 H2;
      apply Forall_cons in H1 as [Hh H1], H2 as [Hh2 H2].
    - cbn [flat_map]. rewrite app_nil_r, split_on_no by by apply core_lf. cbn [fold_left].
      rewrite <- parse_line_cr by by apply core_no_cr. unfold core. rewrite <- !app_assoc, parse_header_line by done.
      cbn [List.filter]. destruct (nonempty_name h); [done|by rewrite app_nil_r].
    - cbn [flat_map]. replace (core h ++ (CRLF ++ core h') ++ flat_map (fun h => CRLF ++ core h) hs')
        with ((core h ++ [13]) ++ LF :: (core h' ++ flat_map (fun h => CRLF ++ core h) hs'))
        by (unfold CRLF, LF; by rewrite <- !app_assoc).
      rewrite split_on_app.
      2: { rewrite not_elem_of_app. split; [by apply core_lf|set_solver]. }
      cbn [fold_left]. rewrite IH by done. unfold core. rewrite <- !app_assoc, parse_header_line by done.
      cbn [List.filter]. destruct (nonempty_name h); [by rewrite <- app_assoc|done]. }
  destruct hs as [|h hs].
  - cbn [flat_map is_nil List.filter]. by rewrite !app_nil_r.
  - cbn [flat_map is_nil]. replace (line ++ (CRLF ++ core h) ++ flat_map (fun h => CRLF ++ core h) hs)
      with ((line ++ [13]) ++ LF :: (core h ++ flat_map (fun h => CRLF ++ core h) hs))
      by (unfold CRLF, LF; by rewrite <- !app_assoc).
    rewrite split_on_sep. destruct (split_on LF (line ++ [13])) as [|l ls] eqn:El; [by apply split_on_not_nil in El|].
    cbn [tail app]. rewrite fold_left_app. by apply Hsplit.
Qed.

Lemma filter_forwarded hs :
  List.filter nonempty_name (List.filter (fun h => negb (isProxyHopRequestHeader (fst h))) hs)
  = List.filter forwarded hs.
Proof.
  induction hs as [|h hs IH]; simpl; [done|]. unfold forwarded at 1.
  destruct (isProxyHopRequestHeader (fst h)); simpl; rewrite ?andb_false_r, ?andb_true_r; [done|].
  destruct (nonempty_name h); by rewrite IH.
Qed.

(** A safe list stays safe when fields are dropped. *)
Lemma framing_safe_filter f hs isReq : isFramingSafe hs isReq = true -> isFramingSafe (List.filter f hs) isReq = true.
Proof.
  rewrite !framing_safe_iff. intros (H1 & H2 & H3 & H4 & H5).
  assert (Hin : forall h, In h (List.filter f hs) -> In h hs) by (intros h Hh; by apply filter_In in Hh as [? _]).
  assert (Hcl : forall v, v ∈ cl_elements (List.filter f hs) -> v ∈ cl_elements hs).
  { intros v. rewrite !list_elem_of_In. unfold cl_elements. rewrite !in_flat_map.
    intros (h & Hh & Hv). exists h. auto. }
  split; [rewrite List.Forall_forall in *; auto|]. split; [auto|].
  split; [rewrite Forall_forall in *; auto|]. split; [auto|].
  intros Ht. assert (cl_elements hs = []) as Hnil.
  { apply H5. rewrite existsb_exists in *. destruct Ht as (h & ? & ?). eauto. }
  destruct (cl_elements (List.filter f hs)) as [|v l]; [done|].
  specialize (Hcl v ltac:(left)). rewrite Hnil in Hcl. by apply not_elem_of_nil in Hcl.
Qed.
End HeaderEnd.

Definition request_line `{QtText} (req : HttpRequest) : bytes :=
  u_tolatin1 (rq_method req) ++ [32] ++ u_tolatin1 (rq_path req) ++ [32] ++ u_tolatin1 (rq_httpVersion req).

(** C5. No smuggling through re-serialization: take any request whose fields were
    parsed from the bytes a client sent and that the framing guard accepts, with a
    first line that no CRLF cuts.  The first blank line of what the proxy writes to
    the origin ends exactly the header section, so that the origin sees exactly this
    body.  Read by the same rules that section parses to what an LF in the first line
    makes fields of, and then the fields the guard examined, minus the proxy-hop ones
    and those with a blank name; without such an LF there are no others, and the
    section is accepted again.  (The reader lets an LF through:
    [bare_lf_repeats_field].) *)
Theorem forwarded_request_reparse `{QtTextLaws} req block :
  wf_bytes block -> rq_headers req = parseHeaders block -> isFramingSafe (rq_headers req) true = true ->
  no_crlf (request_line req) ->
  let out := serializeRequestForOrigin req in
  exists sep, index_sub CRLFCRLF out = Some sep /\ drop (sep + 4) out = rq_body req /\
    (exists extra, parseHeaders (take sep out) = extra ++ List.filter forwarded (rq_headers req) /\
       (10 ∉ request_line req -> extra = [])) /\
    (10 ∉ request_line req -> isFramingSafe (parseHeaders (take sep out)) true = true).
Proof.
  intros Hw Hh Hsafe Hl out. set (hs := List.filter (fun h => negb (isProxyHopRequestHeader (fst h))) (rq_headers req)).
  assert (Hok : Forall field_ok hs).
  { apply List.Forall_forall. intros h Hin. apply filter_In in Hin as [Hin _]. rewrite Hh in Hin.
    pose proof (parseHeaders_ok block Hw) as Hok. rewrite List.Forall_forall in Hok. by apply Hok. }
  assert (Hcr : Forall (fun h => 13 ∉ snd h) hs).
  { apply framing_safe_iff in Hsafe as (Hc & _). apply List.Forall_forall. intros h Hin.
    apply filter_In in Hin as [Hin _]. rewrite List.Forall_forall in Hc. by apply clean_no_cr, Hc. }
  assert (Hout : out = request_line req ++ CRLF ++ flat_map header_line hs ++ CRLF ++ rq_body req).
  { unfold out, serializeRequestForOrigin, request_line, hs. rewrite flat_map_filter_skip. by rewrite <- !app_assoc. }
  destruct (header_section_end hs (rq_body req) Hok (request_line req) Hl) as (sep & Hi & Ht & Hd).
  exists sep. rewrite Hout. split; [done|]. split; [done|]. rewrite Ht, parse_section by done.
  unfold hs at 2 4. rewrite filter_forwarded. split.
  - eexists. split; [done|]. apply first_line_fields_none.
  - intros H10. rewrite first_line_fields_none by done. by apply framing_safe_filter.
Qed.

Lemma forwarded_request_reparse_witness :
  let QT := asciiText in
  let block := lit "GET / HTTP/1.1" ++ CRLF ++ lit "Host: a" ++ CRLF ++
               lit "Proxy-Authorization: Basic x" ++ CRLF ++ lit "X-A: 1" ++ CRLF ++ lit "  2" in
  let req := mkRequest (lit "GET") (lit "/") (lit "HTTP/1.1") [] 80 false (lit "/") (parseHeaders block) (lit "body") in
  exists sep, index_sub CRLFCRLF (serializeRequestForOrigin req) = Some sep /\
    drop (sep + 4) (serializeRequestForOrigin req) = lit "body".
Proof.
  intros QT block req.
  destruct (forwarded_request_reparse (Q := asciiText) req block) as (sep & Hi & Hd & _).
  - repeat constructor; discriminate.
  - reflexivity.
  - reflexivity.
  - reflexivity.
  - exists sep. split; [exact Hi|exact Hd].
Defined.

(** Defect: the reader cuts the first line at the first CRLF and the fields at every LF.
    A bare LF in the target is accepted and forwarded as it came, inside the first line
    and once more as the field that was read from it. *)
Example bare_lf_repeats_field :
  let QT := asciiText in
  let line := lit "GET /a" ++ [10] ++ lit "X:1 HTTP/1.1" in
  exists req, readRequestFrom [line ++ CRLF ++ lit "Host: h" ++ CRLFCRLF] = Some (req, []) /\
    rq_headers req = [(lit "X", lit "1 HTTP/1.1"); (lit "Host", lit "h")] /\
    option_map (fun sep => parseHeaders (take sep (serializeRequestForOrigin req))) (index_sub CRLFCRLF (serializeRequestForOrigin req))
      = Some ((lit "X", lit "1 HTTP/1.1") :: rq_headers req).
Proof. eexists. split; [vm_compute; reflexivity|]. split; vm_compute; reflexivity. Qed.

(** ** The chunked decoder *)

Section ChunkSpec.
Context `{QtTextLaws}.

(** The chunked coding of a list of chunks, as a sender writes it. *)
Definition encodeChunk (c : bytes) : bytes := number 16 (zlen c) ++ CRLF ++ c ++ CRLF.
Definition lastChunk : bytes := lit "0" ++ CRLFCRLF.
Definition encodeChunks (cs : list bytes) : bytes := flat_map encodeChunk cs ++ lastChunk.

Definition chunk_ok (c : bytes) : Prop := c <> [] /\ zlen c <= kMaxChunkBytes.

(** A size line, in a buffer that is a prefix of a stream that has it. *)
Lemma index_sub_line l t : 13 ∉ l -> index_sub CRLF (l ++ CRLF ++ t) = Some (length l).
Proof.
  induction l as [|x l IH]; intros Hl; [done|].
  apply not_elem_of_cons in Hl as [Hx Hl].
  transitivity (S <$> index_sub CRLF (l ++ CRLF ++ t)); [|by rewrite IH].
  cbn [index_sub starts_with app CRLF]. by zdecide.
Qed.

Lemma size_line_split b rest l t :
  b ++ rest = l ++ CRLF ++ t -> 13 ∉ l ->
  (exists b', b = l ++ CRLF ++ b' /\ b' ++ rest = t) \/
  (index_sub CRLF b = None /\ rest <> []).
Proof.
  intros E Hl. destruct (decide (length l + 2 <= length b)%nat) as [Hlen|Hlen].
  - left. exists (drop (length l + 2) b).
    assert (Ht : take (length l + 2) b = l ++ CRLF).
    { rewrite <- (take_app_le b rest) by done. rewrite E, app_assoc, take_app_le, take_ge;
        [done| |]; rewrite length_app; simpl; lia. }
    rewrite <- (take_drop (length l + 2) b) in E at 1. rewrite <- (take_drop (length l + 2) b) at 1.
    rewrite Ht, <- !app_assoc in *. split; [done|]. by do 2 apply app_inv_head in E.
  - right. split.
    + destruct (index_sub CRLF b) as [i|] eqn:Ei; [|done].
      destruct (index_sub_Some _ _ _ Ei) as (Hi & Hs & _).
      apply starts_with_spec in Hs as [t' Ht'].
      assert (Hi2 : (i + 2 <= length b)%nat).
      { apply (f_equal length) in Ht'. rewrite length_drop, length_app in Ht'. simpl in Ht'. lia. }
      exfalso. apply Hl.
      assert (Hx : l !! i = Some 13).
      { rewrite <- (lookup_app_l l (CRLF ++ t)) by lia. rewrite <- E, lookup_app_l by lia.
        rewrite <- (Nat.add_0_r i), <- lookup_drop, Ht'. done. }
      by eapply list_elem_of_lookup_2.
    + intros ->. rewrite app_nil_r in E. subst b. rewrite !length_app in Hlen. simpl in Hlen. lia.
Qed.

Lemma alnum_clean s :
  Forall (fun c => is_alnum c = true) s ->
  13 ∉ s /\ 59 ∉ s /\ b_trimmed s = s.
Proof.
  intros Hs. rewrite Forall_forall in Hs.
  split; [intros Hi; by specialize (Hs _ Hi)|]. split; [intros Hi; by specialize (Hs _ Hi)|].
  apply trim_by_id, Forall_forall. intros x Hx. specialize (Hs _ Hx).
  unfold is_alnum, b_space in *. repeat case_match; to_prop; lia.
Qed.

(** The outcome promised of one call on a buffer that is a prefix of the coded
    stream: everything, or a consistent position and bytes still to come. *)
Definition decode_outcome (cs : list bytes) (decoded rest extra : bytes)
    (r : option (ChunkResult * bytes * bytes)) : Prop :=
  (exists b', r = Some (Complete, b', decoded ++ concat cs) /\ b' ++ rest = extra) \/
  (exists b' d' cs', r = Some (NeedMore, b', d') /\ rest <> [] /\ Forall chunk_ok cs' /\
     d' ++ concat cs' = decoded ++ concat cs /\ b' ++ rest = encodeChunks cs' ++ extra).

Lemma decode_last fuel b rest extra decoded :
  b ++ rest = lastChunk ++ extra ->
  decode_outcome [] decoded rest extra (decodeChunked_loop (S fuel) b decoded).
Proof.
  intros E. unfold decode_outcome. simpl concat. rewrite app_nil_r.
  assert (Hn : exists b' d' cs', Some (NeedMore, b, decoded) = Some (NeedMore, b', d') /\
    Forall chunk_ok cs' /\ d' ++ concat cs' = decoded /\ b' ++ rest = encodeChunks cs' ++ extra).
  { exists b, decoded, []. simpl. by rewrite app_nil_r. }
  destruct (size_line_split b rest (lit "0") (CRLF ++ extra)) as [(b' & -> & Eb)|[Ei Hr]].
  { by rewrite E. }
  { apply index_of_None. reflexivity. }
  - cbn [decodeChunked_loop]. rewrite index_sub_line by (by apply index_of_None).
    change (length (lit "0")) with 1%nat. rewrite take_app_le, take_ge by (simpl; lia).
    change (index_of 59 (lit "0")) with (@None nat). cbv iota.
    change (b_trimmed (lit "0")) with (number 16 0).
    rewrite tolonglong_number by (unfold I64_MAX; lia). cbv iota.
    change (_ || _) with false. change (0 =? 0) with true. cbv iota.
    unfold index_sub_from. change (drop 1 (lit "0" ++ CRLF ++ b')) with (CRLF ++ b').
    destruct (decide (2 <= length b')%nat) as [H2|H2].
    + left. destruct b' as [|x [|y b']]; [simpl in H2; lia..|].
      simpl in Eb. injection Eb as -> -> Eb. exists b'. done.
    + right. destruct Hn as (u & v & w & Hn & ?). exists u, v, w.
      assert (rest <> []).
      { intros ->. rewrite app_nil_r in Eb. subst b'. rewrite length_app in H2. simpl in H2. lia. }
      split; [|done]. rewrite <- Hn. destruct (index_sub CRLFCRLF (CRLF ++ b')) as [i|] eqn:Ei; [|done].
      destruct (index_sub_Some _ _ _ Ei) as (_ & Hs & _). apply starts_with_spec in Hs as [t Ht].
      apply (f_equal length) in Ht. rewrite length_drop, !length_app in Ht. simpl in Ht. lia.
  - right. destruct Hn as (u & v & w & Hn & ?). exists u, v, w. split; [|done].
    cbn [decodeChunked_loop]. by rewrite Ei.
Qed.

Lemma encodeChunks_cons c cs extra :
  encodeChunks (c :: cs) ++ extra
  = number 16 (zlen c) ++ CRLF ++ (c ++ CRLF ++ encodeChunks cs ++ extra).
Proof. unfold encodeChunks, encodeChunk. cbn [flat_map]. by rewrite <- !app_assoc. Qed.

(** One data chunk: consumed whole when it is all there, left alone otherwise. *)
Lemma decode_chunk fuel c b rest t decoded :
  chunk_ok c -> zlen decoded + zlen c <= kMaxDecodedBytes ->
  b ++ rest = number 16 (zlen c) ++ CRLF ++ (c ++ CRLF ++ t) ->
  (exists b', b' ++ rest = t /\ (length b' < length b)%nat /\
     decodeChunked_loop (S fuel) b decoded = decodeChunked_loop fuel b' (decoded ++ c)) \/
  (rest <> [] /\ decodeChunked_loop (S fuel) b decoded = Some (NeedMore, b, decoded)).
Proof.
  intros [Hne Hmax] Htot E. pose proof (zlen_nonneg c) as Hc0.
  destruct (alnum_clean (number 16 (zlen c))) as (H13 & H59 & Htrim); [by apply number_alnum|].
  destruct (size_line_split _ _ _ _ E H13) as [(b' & -> & Eb)|[Ei Hr]].
  2: { right. split; [done|]. cbn [decodeChunked_loop]. by rewrite Ei. }
  cbn [decodeChunked_loop]. rewrite index_sub_line by done.
  rewrite take_app_le, take_ge, (proj2 (index_of_None 59 _)), Htrim by done.
  unfold kMaxChunkBytes, kMaxDecodedBytes in *.
  rewrite tolonglong_number by (unfold I64_MAX; lia).
  assert (zlen c <> 0) by (destruct c; [done|rewrite zlen_cons; pose proof (zlen_nonneg c); lia]).
  zdecides. rewrite !zlen_app. change (zlen CRLF) with 2. fold (zlen (number 16 (zlen c))).
  destruct (_ <? _) eqn:Elt; to_prop.
  - right. split; [|done]. intros ->. rewrite app_nil_r in Eb. subst b'.
    rewrite !zlen_app in Elt. change (zlen CRLF) with 2 in Elt. pose proof (zlen_nonneg t). lia.
  - left. assert (Hlen : (length c + 2 <= length b')%nat) by (unfold zlen in *; lia).
    assert (Hb' : b' = c ++ CRLF ++ drop (length c + 2) b').
    { assert (Ht : take (length c + 2) b' = c ++ CRLF).
      { rewrite <- (take_app_le b' rest) by done. rewrite Eb, app_assoc, take_app_le, take_ge;
          [done| |]; rewrite length_app; simpl; lia. }
      rewrite <- (take_drop (length c + 2) b') at 1. by rewrite Ht, <- app_assoc. }
    set (b2 := drop (length c + 2) b') in *. clearbody b2. subst b'. exists b2.
    rewrite <- !app_assoc in Eb. do 2 apply app_inv_head in Eb. split; [done|].
    split; [rewrite !length_app; simpl; lia|].
    rewrite (app_assoc (number _ _)).
    replace (length (number 16 (zlen c)) + 2)%nat with (length (number 16 (zlen c) ++ CRLF))
      by (rewrite length_app; done).
    rewrite drop_app_length. assert (Z.to_nat (zlen c) = length c) as -> by (unfold zlen; lia).
    rewrite take_app_length, mid_app. cbn [take CRLF app].
    replace (drop (length c + 2) (c ++ 13 :: 10 :: b2)) with b2; [done|].
    change (c ++ 13 :: 10 :: b2) with (c ++ [13; 10] ++ b2).
    rewrite app_assoc, (drop_app_length' (c ++ _)); [done|]. rewrite length_app. simpl. lia.
Qed.

Lemma decode_stream fuel cs b rest extra decoded :
  (length b < fuel)%nat -> Forall chunk_ok cs ->
  zlen decoded + zlen (concat cs) <= kMaxDecodedBytes ->
  b ++ rest = encodeChunks cs ++ extra ->
  decode_outcome cs decoded rest extra (decodeChunked_loop fuel b decoded).
Proof.
  intros Hf Hcs. revert fuel b decoded Hf. induction Hcs as [|c cs Hc Hcs IH]; intros [|fuel] b decoded Hf Hm E;
    try lia; [by apply decode_last|].
  rewrite encodeChunks_cons in E. cbn [concat] in *. rewrite zlen_app in Hm.
  destruct (decode_chunk fuel c b rest _ decoded Hc ltac:(pose proof (zlen_nonneg (concat cs)); lia) E)
    as [(b' & Eb & Hl & ->)|[Hr ->]].
  - unfold decode_outcome. cbn [concat]. rewrite (app_assoc decoded). apply IH; [lia|rewrite zlen_app; lia|done].
  - right. exists b, decoded, (c :: cs). split; [done|]. split; [done|]. split; [by constructor|].
    split; [done|]. by rewrite encodeChunks_cons.
Qed.
End ChunkSpec.

(** Chunked bodies: whatever segments the peer's bytes arrive in, a body sent in
    the chunked coding (chunks of 1 byte to 16 MiB, at most 256 MiB in all) is
    read back as exactly the concatenation of its chunks, and the bytes after
    the last chunk stay in the buffer or in later segments, none lost. *)
Theorem readChunkedBody_roundtrip `{QtTextLaws} cs extra buffer segs :
  Forall chunk_ok cs -> zlen (concat cs) <= kMaxDecodedBytes ->
  buffer ++ concat segs = encodeChunks cs ++ extra ->
  exists buffer' segs', readChunkedBody buffer [] segs = Some (concat cs, buffer', segs') /\
    buffer' ++ concat segs' = extra.
Proof.
  intros Hcs Hm. change (zlen (concat cs)) with (zlen (@nil Z) + zlen (concat cs)) in Hm.
  change (concat cs) with ([] ++ concat cs). revert Hcs Hm.
  generalize (@nil Z). intros decoded. revert cs buffer decoded.
  induction segs as [|s segs IH]; intros cs buffer decoded Hcs Hm E;
    destruct (decode_stream (S (length buffer)) cs buffer _ extra decoded ltac:(lia) Hcs Hm E)
      as [(b' & Hd & Eb)|(b' & d' & cs' & Hd & Hr & Hcs' & Hc & Eb)];
    cbn [readChunkedBody]; unfold decodeChunkedAvailable; rewrite Hd; eauto; [done|].
  rewrite <- Hc. apply IH; [done| |].
  - rewrite <- zlen_app, Hc, zlen_app. done.
  - by rewrite <- app_assoc.
Qed.

Lemma readChunkedBody_roundtrip_witness :
  let QT := asciiText in
  exists buffer' segs',
    readChunkedBody (lit "5") [] [CRLF ++ lit "hel"; lit "lo"; CRLF ++ lit "0"; CRLF; CRLF ++ lit "GET"]
    = Some (lit "hello", buffer', segs') /\ buffer' ++ concat segs' = lit "GET".
Proof.
  intros QT.
  apply (readChunkedBody_roundtrip [lit "hello"] (lit "GET")).
  - repeat constructor; discriminate.
  - vm_compute. discriminate.
  - reflexivity.
Defined.

(** ** Bounds and bodies framed by length *)

Lemma decodeChunked_loop_bounded `{QtText} fuel buffer decoded :
  (length buffer < fuel)%nat -> zlen decoded <= kMaxDecodedBytes ->
  exists r buffer' decoded', decodeChunked_loop fuel buffer decoded = Some (r, buffer', decoded') /\
    zlen decoded' <= kMaxDecodedBytes /\ (length buffer' <= length buffer)%nat.
Proof.
  revert buffer decoded. induction fuel as [|fuel IH]; intros buffer decoded Hf Hd; [lia|].
  cbn [decodeChunked_loop].
  destruct (index_sub CRLF buffer) as [crlf|] eqn:Ei; [|by eauto 6].
  destruct (u_tolonglong _ _) as [n|]; [|by eauto 6].
  destruct (_ || _) eqn:En; [by eauto 6|]. split_bools; to_prop.
  destruct (n =? 0) eqn:E0; to_prop.
  { destruct (index_sub_from _ _ _); [|by eauto 6]. eexists _, _, _. split; [done|]. split; [done|].
    rewrite length_drop. lia. }
  destruct (_ <? _) eqn:Et; [by eauto 6|]. destruct (_ <? _) eqn:Ek in |- *; [by eauto 6|]. to_prop.
  assert (Hnew : zlen (decoded ++ take (Z.to_nat n) (drop (crlf + 2) buffer)) <= kMaxDecodedBytes).
  { rewrite zlen_app. unfold zlen at 2. rewrite length_take. lia. }
  destruct (negb _).
  { eexists _, _, _. split; [done|]. split; [done|]. rewrite length_drop. lia. }
  destruct (IH (drop (Z.to_nat n + 2) (drop (crlf + 2) buffer)) _ ltac:(rewrite !length_drop;
    unfold zlen in *; lia) Hnew) as (r & b & d & -> & Hd' & Hb).
  exists r, b, d. split; [done|]. split; [done|]. rewrite !length_drop in Hb. lia.
Qed.

(** The chunked decoder always returns, never grows its buffer, and never lets
    the decoded body pass 256 MiB, whatever the peer sends. *)
Theorem decodeChunkedAvailable_bounded `{QtText} buffer decoded :
  zlen decoded <= kMaxDecodedBytes ->
  exists r buffer' decoded', decodeChunkedAvailable buffer decoded = Some (r, buffer', decoded') /\
    zlen decoded' <= kMaxDecodedBytes /\ (length buffer' <= length buffer)%nat.
Proof. apply decodeChunked_loop_bounded. lia. Qed.

Lemma decodeChunkedAvailable_bounded_witness :
  let QT := asciiText in
  exists r buffer' decoded',
    decodeChunkedAvailable (lit "3" ++ CRLF ++ lit "abcXY") [] = Some (r, buffer', decoded') /\
    zlen decoded' <= kMaxDecodedBytes /\
    (length buffer' <= length (lit "3" ++ CRLF ++ lit "abcXY"))%nat.
Proof.
  intros QT. apply (decodeChunkedAvailable_bounded (lit "3" ++ CRLF ++ lit "abcXY") []).
  vm_compute. discriminate.
Defined.

Lemma readExact_spec n out segs :
  zlen out <= n ->
  (n <= zlen out + zlen (concat segs) ->
   exists segs', readExact n out segs = Some (take (Z.to_nat n) (out ++ concat segs), segs') /\
     concat segs' = drop (Z.to_nat (n - zlen out)) (concat segs)) /\
  (zlen out + zlen (concat segs) < n -> readExact n out segs = None).
Proof.
  revert out. induction segs as [|s segs IH]; intros out Ho; cbn [readExact concat].
  - rewrite zlen_nil. split; intros Hn; [|by zdecide]. zdecide. exists [].
    rewrite app_nil_r, drop_nil, take_ge by (unfold zlen in *; lia). done.
  - rewrite zlen_app. destruct (n <=? zlen out) eqn:E; to_prop.
    { split; intros Hn; [|pose proof (zlen_nonneg s); pose proof (zlen_nonneg (concat segs)); lia].
      exists (s :: segs). replace (Z.to_nat (n - zlen out)) with 0%nat by lia.
      rewrite take_app_le, take_ge by (unfold zlen in *; lia). done. }
    destruct (length s <=? _)%nat eqn:Es; to_prop.
    + assert (Hs : zlen (out ++ s) <= n) by (rewrite zlen_app; unfold zlen in *; lia).
      destruct (IH _ Hs) as [H1 H2]. rewrite zlen_app in H1, H2. split; intros Hn.
      * destruct H1 as (segs' & -> & Hc); [lia|]. exists segs'. rewrite <- app_assoc. split; [done|].
        rewrite Hc, drop_app_ge by (unfold zlen in *; lia). f_equal. unfold zlen in *. lia.
      * apply H2. lia.
    + split; intros Hn; [|exfalso; pose proof (zlen_nonneg (concat segs)); unfold zlen in *; lia].
      eexists. split.
      * do 2 f_equal. rewrite take_app_ge by (unfold zlen in *; lia). f_equal.
        rewrite take_app_le by (unfold zlen in *; lia). f_equal. unfold zlen in *. lia.
      * cbn [concat]. by rewrite drop_app_le by lia.
Qed.

(** Bodies framed by Content-Length, for a request or a response: the body is
    exactly the declared number of bytes of the stream, for every segmentation,
    and what later segments hold is left to be read; a declared length over 128 MiB or a
    stream that ends early is refused. *)
Theorem readLengthBody_exact `{Q : QtText} cl n rest segs :
  u_tolonglong 10 cl = Some n ->
  (0 <= n <= kMaxBody -> n <= zlen (rest ++ concat segs) ->
   exists segs', readLengthBody cl rest segs = Some (take (Z.to_nat n) (rest ++ concat segs), segs') /\
     concat segs' = drop (Z.to_nat (n - zlen rest)) (concat segs)) /\
  (n < 0 \/ kMaxBody < n \/ zlen (rest ++ concat segs) < n -> readLengthBody cl rest segs = None).
Proof.
  intros Hcl. unfold readLengthBody. rewrite Hcl, zlen_app. cbn [default from_option id].
  pose proof (zlen_nonneg (concat segs)). pose proof (zlen_nonneg rest).
  split.
  - intros Hn Hz. zdecides. destruct (zlen rest <? n) eqn:E; to_prop.
    + destruct (proj1 (readExact_spec (n - zlen rest) [] segs ltac:(rewrite zlen_nil; lia)))
        as (segs' & -> & Hc); [rewrite zlen_nil; lia|].
      exists segs'. rewrite zlen_nil, Z.sub_0_r in Hc. split; [|done]. do 2 f_equal. cbn [app].
      rewrite take_app_ge by (unfold zlen in *; lia). do 2 f_equal. unfold zlen in *. lia.
    + exists segs. rewrite take_app_le by (unfold zlen in *; lia).
      by replace (Z.to_nat (n - zlen rest)) with 0%nat by lia.
  - intros Hn. destruct (_ || _) eqn:E; [done|]. split_bools; to_prop. zdecides.
    rewrite (proj2 (readExact_spec (n - zlen rest) [] segs ltac:(rewrite zlen_nil; lia)));
      [done|rewrite zlen_nil; lia].
Qed.

Lemma readLengthBody_exact_witness :
  let QT := asciiText in
  exists segs', readLengthBody (lit "5") (lit "he") [lit "l"; lit "loGET"] = Some (lit "hello", segs') /\
    concat segs' = lit "GET".
Proof.
  intros QT.
  apply (proj1 (readLengthBody_exact (Q := asciiText) (lit "5") 5 (lit "he") [lit "l"; lit "loGET"] eq_refl)).
  - unfold kMaxBody. lia.
  - vm_compute. discriminate.
Defined.

(** ** Two defects the model shows *)

Lemma cl_elements_pair `{QtTextLaws} n :
  0 <= n -> cl_elements [(lit "Content-Length", number 10 n ++ lit ", " ++ number 10 n)]
            = [number 10 n; number 10 n].
Proof.
  intros Hn. pose proof (number_alnum 10 n ltac:(lia) ltac:(lia)) as Hal. rewrite Forall_forall in Hal.
  assert (Hc : 44 ∉ number 10 n) by (intros Hi; by specialize (Hal _ Hi)).
  pose proof (number_not_nil 10 n Hn) as Hne.
  unfold cl_elements, isCL, isTE. cbn [flat_map fst snd]. rewrite !law_cieq_ascii by done.
  change (negb _ && _) with true. cbv iota. rewrite app_nil_r.
  change (number 10 n ++ lit ", " ++ number 10 n) with (number 10 n ++ 44 :: 32 :: number 10 n).
  unfold split_skip. rewrite split_on_app, split_on_no by (rewrite ?not_elem_of_cons; done).
  cbn [List.filter]. destruct (number 10 n) as [|d ds] eqn:E; [done|]. cbn [is_nil negb List.filter map].
  assert (Hsp : forall c, c ∈ d :: ds -> u_space c = false).
  { intros c Hcin. specialize (Hal c Hcin). unfold is_alnum in Hal.
    rewrite law_space_ascii; unfold is_ascii, b_space; split_bools; to_prop; by zdecides. }
  assert (Ht : u_trimmed (d :: ds) = d :: ds) by (apply trim_by_id, Forall_forall; exact Hsp).
  unfold u_trimmed in *. by rewrite (trim_drop_head _ 32), Ht by (by rewrite law_space_ascii).
Qed.

(** Defect: a Content-Length list of equal values is accepted by the framing
    guard, which is how RFC 9110 allows it to be read, but the reader parses
    the whole field text, fails and takes length 0, so the message is passed
    on with its Content-Length field and an empty body. *)
Theorem content_length_list_drops_body `{QtTextLaws} n isReq rest segs :
  0 <= n <= I64_MAX ->
  let cl := number 10 n ++ lit ", " ++ number 10 n in
  isFramingSafe [(lit "Content-Length", cl)] isReq = true /\
  readLengthBody cl rest segs = Some ([], segs).
Proof.
  intros Hn cl. pose proof (number_alnum 10 n ltac:(lia) ltac:(lia)) as Hal.
  rewrite Forall_forall in Hal.
  assert (Hc : 44 ∉ number 10 n) by (intros Hi; by specialize (Hal _ Hi)).
  split.
  - rewrite framing_safe_iff.
    assert (Hte : isTE (lit "Content-Length", cl) = false)
      by (unfold isTE; rewrite law_cieq_ascii by done; done).
    assert (Hel : cl_elements [(lit "Content-Length", cl)] = [number 10 n; number 10 n])
      by (apply cl_elements_pair; lia).
    rewrite Hel. assert (Hv : valid_cl (number 10 n))
      by (split; [apply number_not_nil; lia|]; exists n; rewrite tolonglong_number by auto; split; [done|lia]).
    split; [repeat constructor|]; cbn [fst snd].
    { unfold hasControlByte. apply not_true_iff_false. rewrite existsb_exists. intros (u & Hu & Eu).
      apply list_elem_of_In in Hu. unfold cl in Hu. change (lit ", ") with [44; 32] in Hu. rewrite !elem_of_app, !elem_of_cons, elem_of_nil in Hu.
      destruct Hu as [Hu|[[->|[->|[]]]|Hu]]; try done; specialize (Hal _ Hu); unfold is_alnum in Hal;
        split_bools; to_prop; lia. }
    split; [intros h [<-|[]]; by rewrite Hte|]. split; [by constructor; [|constructor; [|constructor]]|].
    split; [|cbn [existsb]; by rewrite Hte].
    intros v w Hv' Hw'. rewrite !elem_of_cons, elem_of_nil in Hv', Hw'. naive_solver.
  - unfold readLengthBody. rewrite law_tolonglong_comma by (unfold cl; rewrite !elem_of_app; right; left; change (lit ", ") with [44; 32]; left).
    cbn. pose proof (zlen_nonneg rest). by zdecides.
Qed.

Lemma content_length_list_drops_body_witness :
  let QT := asciiText in
  readLengthBody (number 10 5 ++ lit ", " ++ number 10 5) (lit "hello") [] = Some ([], []).
Proof.
  intros QT. apply (content_length_list_drops_body (Q := asciiText) 5 true (lit "hello") []).
  unfold I64_MAX. lia.
Defined.

(** Defect: the response reader cuts the status line with
    left(indexOf(CRLF)), which is empty when the header block is the status
    line alone, so a response without header fields (such as
    "HTTP/1.1 100 Continue") is refused, while the request reader, which guards
    the same index, accepts a request without header fields. *)
Theorem bare_status_line_refused `{QtText, Zlib} maxOut line rest segs :
  13 ∉ line -> 10 ∉ line ->
  readResponse maxOut ((line ++ CRLFCRLF ++ rest) :: segs) = None /\
  forall m t v, line = m ++ 32 :: t ++ 32 :: v -> 32 ∉ m -> 32 ∉ t -> 32 ∉ v ->
    u_cieq m (lit "CONNECT") = false ->
    readRequestFrom ((line ++ CRLFCRLF ++ rest) :: segs) = Some (mkRequest m t v [] 80 false t [] [], segs).
Proof.
  intros Hl Hlf.
  assert (Hi : index_sub CRLFCRLF (line ++ CRLFCRLF ++ rest) = Some (length line)).
  { apply index_sub_intro; [rewrite length_app; lia| |].
    - by rewrite drop_app_length, starts_with_app.
    - intros j Hj. rewrite drop_app_le by lia.
      destruct (drop j line) as [|x l] eqn:E.
      { apply (f_equal length) in E. rewrite length_drop in E. simpl in E. lia. }
      cbn [app starts_with CRLFCRLF]. assert (x <> 13); [|by zdecide].
      intros ->. apply Hl. apply (subseteq_drop j). rewrite E. left. }
  assert (Hr : readHeaderBlock [] ((line ++ CRLFCRLF ++ rest) :: segs) = Some (line ++ CRLFCRLF ++ rest, segs)).
  { cbn [readHeaderBlock]. change (contains_sub CRLFCRLF []) with false. cbv iota. cbn [app].
    change (kMaxHeaderBytes <? zlen []) with false. cbv iota.
    destruct segs; cbn [readHeaderBlock]; unfold contains_sub; by rewrite Hi. }
  assert (Hn : index_sub CRLF line = None).
  { destruct (index_sub CRLF line) as [i|] eqn:E; [|done].
    destruct (index_sub_Some _ _ _ E) as (_ & Hs & _). apply starts_with_spec in Hs as [t Ht].
    exfalso. apply Hl, (subseteq_drop i). rewrite Ht. left. }
  split.
  - unfold readResponse. rewrite Hr, Hi. cbn [default from_option id]. rewrite take_app_length, Hn. done.
  - intros m t v -> Hm Ht Hv Hc. unfold readRequestFrom. rewrite Hr, Hi. cbn [default from_option id].
    rewrite take_app_length, Hn. rewrite split_on_app, split_on_app, split_on_no by done.
    rewrite Hc. unfold parseHeaders. rewrite split_on_no; done.
Qed.

Lemma bare_status_line_refused_witness :
  let QT := asciiText in let ZL := storedZlib in
  readResponse 1000 [lit "HTTP/1.1 100 Continue" ++ CRLFCRLF ++ []] = None.
Proof.
  intros QT ZL. apply (bare_status_line_refused 1000 (lit "HTTP/1.1 100 Continue") [] []);
    apply index_of_None; reflexivity.
Defined.

Lemma framing_guard_decoder_agree_witness :
  let QT := asciiText in
  let hs := [(lit "Transfer-Encoding", lit "gzip, chunked")] in
  responseFraming 200 hs = Chunked /\ cl_elements hs = [].
Proof.
  intros QT hs.
  apply (framing_guard_decoder_agree (Q := asciiText) 200 hs); [reflexivity|discriminate|reflexivity].
Defined.

(** ** A forwarded request, read again *)

Section Reread.
Context `{QtTextLaws}.

Lemma readHeaderBlock_wf segs : forall out buf segs',
  wf_bytes out -> Forall wf_bytes segs -> readHeaderBlock out segs = Some (buf, segs') ->
  wf_bytes buf /\ contains_sub CRLFCRLF buf = true.
Proof.
  induction segs as [|s segs IH]; intros out buf segs' Ho Hs; cbn [readHeaderBlock];
    destruct (contains_sub CRLFCRLF out) eqn:E; try (intros; by simplify_eq); destruct (kMaxHeaderBytes <? zlen out); try done.
  apply Forall_cons in Hs as [Hs1 Hs]. apply IH; [by apply Forall_app|done].
Qed.

Lemma split_parts_wf c s p : wf_bytes s -> p ∈ split_on c s -> wf_bytes p.
Proof. unfold wf_bytes. rewrite !Forall_forall. intros Hs Hp x Hx. apply Hs. by eapply split_on_elem. Qed.

Lemma findHeader_filter f hs name :
  Forall (fun h => u_cieq (fst h) name = true -> f h = true) hs ->
  findHeader (List.filter f hs) name = findHeader hs name.
Proof.
  induction 1 as [|h hs Hh _ IH]; [done|]. cbn [List.filter findHeader].
  destruct (u_cieq (fst h) name) eqn:E.
  - rewrite Hh by done. cbn [findHeader]. by rewrite E.
  - destruct (f h); [|done]. cbn [findHeader]. by rewrite E.
Qed.

Lemma content_length_forwarded hs :
  Forall (fun h => all_ascii (fst h) = true) hs ->
  findHeader (List.filter forwarded hs) (lit "Content-Length") = findHeader hs (lit "Content-Length").
Proof.
  intros Ha. apply findHeader_filter. eapply Forall_impl; [exact Ha|]. intros [n v]. cbn [fst]. intros Hn Hc.
  unfold forwarded, nonempty_name, isProxyHopRequestHeader. cbn [fst].
  rewrite law_cieq_ascii in Hc by done. rewrite !law_cieq_ascii by done.
  apply seq_eqb_eq in Hc. rewrite Hc. by destruct n.
Qed.

Lemma readLengthBody_again cl rest segs body segs' :
  readLengthBody cl rest segs = Some (body, segs') -> readLengthBody cl body [] = Some (body, []).
Proof.
  unfold readLengthBody. set (n := default 0 (u_tolonglong 10 cl)). destruct (_ || _) eqn:E; [done|].
  split_bools. to_prop. intros Hr. assert (Hl : zlen body = n).
  { destruct (zlen rest <? n) eqn:El; to_prop.
    - destruct (readExact _ _ _) as [[extra s']|] eqn:Ex; [|done]. simplify_eq.
      destruct (Z.le_gt_cases (n - zlen rest) (zlen (concat segs))) as [Hle|Hgt].
      + destruct (proj1 (readExact_spec (n - zlen rest) [] segs ltac:(rewrite zlen_nil; lia)) ltac:(rewrite zlen_nil; lia))
          as (s'' & E' & _). rewrite Ex in E'. injection E' as -> ->. rewrite zlen_app. cbn [app].
        unfold zlen in *. rewrite length_take. lia.
      + rewrite (proj2 (readExact_spec (n - zlen rest) [] segs ltac:(rewrite zlen_nil; lia)) ltac:(rewrite zlen_nil; lia)) in Ex. done.
    - simplify_eq. unfold zlen in *. rewrite length_take. lia. }
  rewrite Hl, Z.ltb_irrefl. rewrite take_ge by (unfold zlen in Hl; lia). done.
Qed.

Lemma index_crlf_line line t : 10 ∉ line -> index_sub CRLF (line ++ CRLF ++ t) = Some (length line).
Proof.
  intros Hl. apply index_sub_intro.
  - rewrite length_app. lia.
  - by rewrite drop_app_length, starts_with_app.
  - intros j Hj. rewrite drop_app_le by lia. destruct (drop j line) as [|x l] eqn:E.
    { apply (f_equal length) in E. rewrite length_drop in E. simpl in E. lia. }
    cbn [app starts_with CRLF]. destruct l as [|y l].
    + cbn [app starts_with]. by rewrite andb_false_r.
    + cbn [app starts_with]. assert (y <> 10); [|rewrite (proj2 (Z.eqb_neq 10 y)) by done; by rewrite andb_false_r].
      intros ->. apply Hl. apply (subseteq_drop j). rewrite E. right. left.
Qed.

(** The line the reader cut off is the whole request line. *)
Lemma reread_line line hs :
  10 ∉ line ->
  let head := line ++ flat_map (fun h => CRLF ++ core h) hs in
  match index_sub CRLF head with Some i => take i head | None => head end = line.
Proof.
  intros Hl head. subst head. destruct hs as [|h hs].
  - cbn [flat_map]. rewrite app_nil_r. destruct (index_sub CRLF line) as [i|] eqn:E; [|done].
    destruct (index_sub_Some _ _ _ E) as (_ & Hs & _). apply starts_with_spec in Hs as [t Ht].
    exfalso. apply Hl, (subseteq_drop i). rewrite Ht. cbn. right. left.
  - cbn [flat_map]. rewrite <- app_assoc. rewrite index_crlf_line by done. apply take_app_length.
Qed.

Lemma reread_forwarded segs req rest req' :
  Forall wf_bytes segs -> readRequestFrom segs = Some (req, rest) ->
  u_cieq (rq_method req) (lit "CONNECT") = false ->
  rq_method req' = rq_method req -> rq_httpVersion req' = rq_httpVersion req ->
  rq_headers req' = rq_headers req -> rq_body req' = rq_body req ->
  wf_bytes (rq_path req') -> 32 ∉ rq_path req' -> 10 ∉ request_line req' ->
  Forall (fun h => all_ascii (fst h) = true) (rq_headers req) ->
  readRequestFrom [serializeRequestForOrigin req'] =
    Some (mkRequest (rq_method req) (rq_path req') (rq_httpVersion req) [] 80 false (rq_path req')
            (List.filter forwarded (rq_headers req)) (rq_body req), []).
Proof.
  intros Hw Hr Hm Em Ev Eh Eb Hpw Hp32 Hlf Ha. unfold readRequestFrom in Hr.
  destruct (readHeaderBlock [] segs) as [[buf segs1]|] eqn:Eh1; [|done].
  destruct (readHeaderBlock_wf _ _ _ _ ltac:(constructor) Hw Eh1) as [Hbw _].
  set (block := take _ buf) in *. set (line := match index_sub CRLF block with Some i => take i block | None => block end) in *.
  assert (Hblw : wf_bytes block) by by apply Forall_take.
  assert (Hlw : wf_bytes line) by (unfold line; destruct (index_sub CRLF block); [by apply Forall_take|done]).
  destruct (split_on 32 line) as [|m [|t [|v ps]]] eqn:Es; try done.
  assert (Hm1 : wf_bytes m /\ 32 ∉ m) by (split; [eapply (split_parts_wf 32 line)|eapply (split_on_parts 32 line)]; [done..| |]; rewrite Es; left).
  assert (Hv1 : wf_bytes v /\ 32 ∉ v) by (split; [eapply (split_parts_wf 32 line)|eapply (split_on_parts 32 line)]; [done..| |]; rewrite Es; do 2 right; left).
  set (hs := parseHeaders block) in *.
  assert (Hmeq : rq_method req = m /\ rq_httpVersion req = v /\ rq_headers req = hs).
  { repeat case_match; simplify_eq; done. }
  destruct Hmeq as (Rm & Rv & Rh). rewrite Rm in Hm. rewrite Hm in Hr.
  destruct (isFramingSafe hs true) eqn:Hsafe; cbn [negb] in Hr; [|done].
  (* what was written *)
  set (kept := List.filter (fun h => negb (isProxyHopRequestHeader (fst h))) hs).
  pose proof (parseHeaders_ok block Hblw) as Hok. fold hs in Hok.
  assert (Hkok : Forall field_ok kept).
  { apply List.Forall_forall. intros h Hin. apply filter_In in Hin as [Hin _]. rewrite List.Forall_forall in Hok. auto. }
  assert (Hcr : Forall (fun h => 13 ∉ snd h) kept).
  { apply framing_safe_iff in Hsafe as (Hc & _). apply List.Forall_forall. intros h Hin.
    apply filter_In in Hin as [Hin _]. rewrite List.Forall_forall in Hc. by apply clean_no_cr, Hc. }
  set (out := serializeRequestForOrigin req').
  assert (Hout : out = request_line req' ++ CRLF ++ flat_map header_line kept ++ CRLF ++ rq_body req').
  { unfold out, serializeRequestForOrigin, request_line. rewrite Eh, Rh, flat_map_filter_skip. by rewrite <- !app_assoc. }
  destruct (header_section_end kept (rq_body req') Hkok (request_line req') (no_crlf_lf _ Hlf)) as (sep & Hi & Ht & Hd).
  rewrite <- Hout in Hi, Ht, Hd.
  assert (Hblock : readHeaderBlock [] [out] = Some (out, [])).
  { cbn [readHeaderBlock]. change (contains_sub CRLFCRLF []) with false. cbv iota. cbn [app].
    change (kMaxHeaderBytes <? zlen []) with false. cbv iota. unfold contains_sub. by rewrite Hi. }
  assert (Hrl : request_line req' = m ++ 32 :: rq_path req' ++ 32 :: v).
  { unfold request_line. by rewrite Em, Ev, Rm, Rv, !law_tolatin1 by naive_solver. }
  unfold readRequestFrom. fold out. rewrite Hblock, Hi. cbn [default from_option id]. rewrite Ht, Hd.
  rewrite reread_line by done. rewrite Hrl, split_on_app, split_on_app, split_on_no by naive_solver.
  rewrite Hm, <- Hrl, parse_section, first_line_fields_none by done. cbn [app]. unfold kept. rewrite filter_forwarded, Rm, Rv, Rh, Eb.
  rewrite (framing_safe_filter forwarded hs true Hsafe). cbn [negb]. rewrite content_length_forwarded by by rewrite <- Rh.
  destruct (is_nil (findHeader hs (lit "Content-Length"))) eqn:Ecl.
  - by injection Hr as <- _.
  - destruct (readLengthBody _ _ segs1) as [[body segs2]|] eqn:El; [|done]. injection Hr as <- _. cbn [rq_body with_body].
    by rewrite (readLengthBody_again _ _ _ _ _ El).
Qed.
End Reread.

(** The shape of a request that was read. *)
Lemma readRequestFrom_shape `{QtText} segs req rest :
  Forall wf_bytes segs -> readRequestFrom segs = Some (req, rest) ->
  wf_bytes (rq_target req) /\ 32 ∉ rq_target req /\ rq_path req = rq_target req /\
  req = mkRequest (rq_method req) (rq_target req) (rq_httpVersion req) [] 80 false (rq_target req) (rq_headers req) (rq_body req).
Proof.
  intros Hw Hr. unfold readRequestFrom in Hr.
  destruct (readHeaderBlock [] segs) as [[buf segs1]|] eqn:Eh1; [|done].
  assert (Hbw : wf_bytes buf) by (eapply readHeaderBlock_wf; [constructor|done|done]).
  set (block := take _ buf) in *. set (line := match index_sub CRLF block with Some i => take i block | None => block end) in *.
  assert (Hlw : wf_bytes line) by (unfold line, block; destruct (index_sub CRLF _); repeat apply Forall_take; done).
  destruct (split_on 32 line) as [|m [|t [|v ps]]] eqn:Es; try done.
  assert (Ht : wf_bytes t /\ 32 ∉ t) by (split; [eapply (split_parts_wf 32 line)|eapply (split_on_parts 32 line)]; [done..| |]; rewrite Es; right; left).
  destruct Ht. repeat case_match; simplify_eq; done.
Qed.
