(* ===== verification/NetFraming.v ===== *)
(** * The scanner's HTTP/1.1 response framing: Src/Core/Networking/networking_logic.{hpp,cpp}

    The client that the tools send requests with: the text form of a request,
    status lines, interim responses, header parsing and Content-Length, the
    rewriting of Host, read deadlines and the incremental chunked decoder.
    [parseHeaders], [findHeader] and [transferEncodingIsChunked] are line for
    line the functions of proxy_logic.cpp and are those of [HttpFraming.v]. *)

From S2P Require Import Prelude Qt QtSample Zlib HttpFraming.

Local Open Scope Z_scope.

Section NetFraming.
Context `{QtText}.

Definition kMaxBodyBytes : Z := 128 * 1024 * 1024.
Definition kMaxChunkLineBytes : Z := 64 * 1024.
Definition kMaxInterimResponses : Z := 8.
Definition kMaxTotalReadMs : Z := 300000.

(** ** Requests as text *)

(** [fromUtf8]/[toUtf8]/[toLatin1]; [fromLatin1] is the identity on code units. *)
Definition decodeRequestText (data : bytes) : qstr * bool :=
  let utf8 := u_fromutf8 data in
  let latin1 := negb (seq_eqb (u_toutf8 utf8) data) in
  (if latin1 then data else utf8, latin1).

Definition head_boundary (text : qstr) : option (nat * nat) :=
  let sep := index_sub [13; 10; 13; 10] text in
  let lf := index_sub [10; 10] text in
  match sep, lf with
  | None, None => None
  | None, Some l => Some (l, 2%nat)
  | Some s, Some l => if (l <? s)%nat then Some (l, 2%nat) else Some (s, 4%nat)
  | Some s, None => Some (s, 4%nat)
  end.

Definition normalize_head (head : qstr) : qstr :=
  replace_all [10] [13; 10] (replace_all [13; 10] [10] head).

Definition encodeRequestText (text : qstr) (latin1 : bool) : bytes :=
  if latin1 && negb (seq_eqb (u_tolatin1 text) text) then []
  else
    let '(head, body) :=
      match head_boundary text with
      | None => (text, [])
      | Some (sep, width) => (take sep text, drop (sep + width) text)
      end in
    let raw := normalize_head head ++ [13; 10; 13; 10] ++ body in
    if latin1 then u_tolatin1 raw else u_toutf8 raw.

(** ** Status lines *)

Record StatusLine := mkStatus {
  sl_ok : bool; sl_httpVersion : qstr; sl_statusCode : Z; sl_reasonPhrase : qstr
}.

Definition parseStatusLine (line : bytes) : StatusLine :=
  match index_of 32 line with
  | None => mkStatus false [] 0 []
  | Some sp1 =>
      match index_of_from 32 line (sp1 + 1) with
      | None => mkStatus false [] 0 []
      | Some sp2 =>
          let code := mid line (sp1 + 1) (sp2 - sp1 - 1) in
          let codeOk := (length code =? 3)%nat && forallb is_digit code in
          mkStatus true (take sp1 line)
            (if codeOk then default 0 (u_toint 10 code) else 0)
            (drop (sp2 + 1) line)
      end
  end.

Inductive InterimAction := Final | SkipToNext | TooManyInterim.

Definition classifyInterimResponse (status : StatusLine) (seen maxInterim : Z) : InterimAction :=
  if negb (sl_ok status) then Final
  else if (sl_statusCode status <? 100) || (200 <=? sl_statusCode status) then Final
  else if maxInterim <=? seen then TooManyInterim
  else SkipToNext.

(** ** Host rewriting *)

(** Does the field value name [oh]?  The carried port suffix if so. *)
Definition host_match (value oh : qstr) : option qstr :=
  if u_cieq value oh then Some []
  else if (length oh <? length value)%nat && u_starts_ci value oh && (at_ value (length oh) =? 58)
  then Some (drop (length oh) value)
  else None.

(** The loop over the lines after the first; [None] is "return the request". *)
Fixpoint rewrite_lines (lines : list qstr) (oh newHost : qstr) : option (list qstr) :=
  match lines with
  | [] => None
  | line :: rest =>
      let cr := ends_with_chr CR line in
      let bare := if cr then chop1 line else line in
      if is_nil bare then None
      else
        let continue := cons line <$> rewrite_lines rest oh newHost in
        match index_of 58 bare with
        | None | Some O => continue
        | Some colon =>
            if negb (u_cieq (u_trimmed (take colon bare)) (lit "Host")) then continue
            else match host_match (u_trimmed (drop (colon + 1) bare)) oh with
                 | None => None
                 | Some suffix =>
                     Some ((take (colon + 1) bare ++ [32] ++ newHost ++ suffix
                            ++ (if cr then [13] else [])) :: rest)
                 end
        end
  end.

Definition rewriteHostHeader (requestText oldHost newHost : qstr) : qstr :=
  let oh := u_trimmed oldHost in
  if is_nil oh || seq_eqb oldHost newHost then requestText
  else match split_on 10 requestText with
       | [] => requestText
       | l0 :: lines =>
           match rewrite_lines lines oh newHost with
           | None => requestText
           | Some lines' => join [10] (l0 :: lines')
           end
       end.

(** ** Content-Length *)

Record ContentLength := mkCL { cl_ok : bool; cl_value : Z }.

Definition parseContentLength (cl : qstr) : ContentLength :=
  let t := trim_by is_ows cl in
  if is_nil t then mkCL false 0
  else if negb (forallb is_digit t) then mkCL false 0
  else match u_tolonglong 10 t with
       | None => mkCL false 0
       | Some n => if (n <? 0) || (kMaxBodyBytes <? n) then mkCL false 0 else mkCL true n
       end.

Definition nextReadTimeoutMs (elapsedMs perReadMs totalMs : Z) : Z :=
  if (perReadMs <=? 0) || (totalMs <=? 0) then 0
  else
    let remaining := totalMs - elapsedMs in
    if remaining <=? 0 then 0
    else if remaining <? perReadMs then remaining else perReadMs.

Record ContentLengthAll := mkCLAll {
  ca_present : bool; ca_ok : bool; ca_value : Z; ca_values : list qstr
}.

(** The elements of one field; [inl] is the early return. *)
Fixpoint cl_elems (raws : list qstr) (have : bool) (out : ContentLengthAll)
    : ContentLengthAll + (bool * ContentLengthAll) :=
  match raws with
  | [] => inr (have, out)
  | raw :: rs =>
      let vs := ca_values out ++ [raw] in
      let one := parseContentLength raw in
      if negb (cl_ok one) then inl (mkCLAll (ca_present out) false (ca_value out) vs)
      else if negb have then cl_elems rs true (mkCLAll (ca_present out) (ca_ok out) (cl_value one) vs)
      else if negb (cl_value one =? ca_value out)
      then inl (mkCLAll (ca_present out) false (ca_value out) vs)
      else cl_elems rs have (mkCLAll (ca_present out) (ca_ok out) (ca_value out) vs)
  end.

Fixpoint cl_fields (headers : list (qstr * qstr)) (have : bool) (out : ContentLengthAll) : ContentLengthAll :=
  match headers with
  | [] => mkCLAll (ca_present out) have (ca_value out) (ca_values out)
  | h :: hs =>
      if negb (u_cieq (fst h) (lit "Content-Length")) then cl_fields hs have out
      else
        match cl_elems (split_on 44 (snd h)) have (mkCLAll true (ca_ok out) (ca_value out) (ca_values out)) with
        | inl r => r
        | inr (have', out') => cl_fields hs have' out'
        end
  end.

Definition parseContentLengthHeaders (headers : list (qstr * qstr)) : ContentLengthAll :=
  cl_fields headers false (mkCLAll false false 0 []).

(** ** Chunked bodies *)

Record ChunkSize := mkChunkSize { ck_ok : bool; ck_size : Z }.

Definition parseChunkSizeLine (sizeLine : bytes) : ChunkSize :=
  let s := match index_of 59 sizeLine with Some semi => take semi sizeLine | None => sizeLine end in
  let s := b_trimmed s in
  if is_nil s then mkChunkSize false 0
  else if negb (forallb is_hexdigit s) then mkChunkSize false 0
  else match u_tolonglong 16 s with
       | None => mkChunkSize false 0
       | Some sz => if (sz <? 0) || (kMaxBodyBytes <? sz) then mkChunkSize false 0 else mkChunkSize true sz
       end.

Inductive ChunkDecode := CNeedMore | CDone | CError.

Definition need_or_error (buffer : bytes) : ChunkDecode :=
  if kMaxChunkLineBytes <? zlen buffer then CError else CNeedMore.

(** The trailer scan from [pos]: verdict and, when complete, where it ends. *)
Fixpoint trailer_loop (fuel : nat) (buffer : bytes) (pos : nat) (trailerBytes : Z)
    : option (ChunkDecode * nat) :=
  match fuel with
  | O => None
  | S fuel' =>
      match index_sub_from CRLF buffer pos with
      | None => Some (need_or_error buffer, pos)
      | Some e =>
          if (e =? pos)%nat then Some (CDone, (e + 2)%nat)
          else
            let n := Z.of_nat (e - pos) in
            if kMaxChunkLineBytes <? n then Some (CError, pos)
            else
              let trailerBytes' := trailerBytes + n + 2 in
              if kMaxChunkLineBytes <? trailerBytes' then Some (CError, pos)
              else trailer_loop fuel' buffer (e + 2) trailerBytes'
      end
  end.

Fixpoint feed_loop (fuel : nat) (buffer decoded : bytes) : option (ChunkDecode * bytes * bytes) :=
  match fuel with
  | O => None
  | S fuel' =>
      match index_sub CRLF buffer with
      | None => Some (need_or_error buffer, buffer, decoded)
      | Some crlf =>
          if kMaxChunkLineBytes <? Z.of_nat crlf then Some (CError, buffer, decoded)
          else
            let cs := parseChunkSizeLine (take crlf buffer) in
            if negb (ck_ok cs) then Some (CError, buffer, decoded)
            else if kMaxBodyBytes <? zlen decoded + ck_size cs then Some (CError, buffer, decoded)
            else if ck_size cs =? 0 then
              match trailer_loop (S (length buffer)) buffer (crlf + 2) 0 with
              | None => None
              | Some (CDone, e) => Some (CDone, drop e buffer, decoded)
              | Some (r, _) => Some (r, buffer, decoded)
              end
            else if zlen buffer <? Z.of_nat crlf + 2 + ck_size cs + 2
            then Some (CNeedMore, buffer, decoded)
            else
              let n := Z.to_nat (ck_size cs) in
              if negb (seq_eqb (mid buffer (crlf + 2 + n) 2) CRLF) then Some (CError, buffer, decoded)
              else feed_loop fuel' (drop (crlf + 2 + n + 2) buffer) (decoded ++ mid buffer (crlf + 2) n)
      end
  end.

Definition feedChunked (buffer decoded : bytes) : option (ChunkDecode * bytes * bytes) :=
  feed_loop (S (length buffer)) buffer decoded.
End NetFraming.

(** ** Request text *)

Section RequestText.
Context `{QtTextLaws}.

(** Every LF follows a CR. *)
Fixpoint crlf_only (prev : Z) (s : qstr) : bool :=
  match s with
  | [] => true
  | x :: s' => (negb (x =? 10) || (prev =? 13)) && crlf_only x s'
  end.

Lemma to_lf_cons x s : x <> 13 -> replace_all [13; 10] [10] (x :: s) = x :: replace_all [13; 10] [10] s.
Proof. intros Hx. rewrite replace_all_cons by done. cbn [starts_with]. by zdecide. Qed.

Lemma to_crlf_cons x s : x <> 10 -> replace_all [10] [13; 10] (x :: s) = x :: replace_all [10] [13; 10] s.
Proof. intros Hx. rewrite replace_all_cons by done. cbn [starts_with]. by zdecide. Qed.

Lemma normalize_head_crlf n : forall s prev,
  (length s <= n)%nat -> prev <> 13 -> crlf_only prev s = true -> normalize_head s = s.
Proof.
  unfold normalize_head. induction n as [|n IH]; intros s prev Hn Hp Hc.
  - destruct s; [by rewrite !replace_all_nil|cbn in Hn; lia].
  - destruct s as [|x s]; [by rewrite !replace_all_nil|]. cbn [crlf_only length] in *. split_bools.
    assert (Hx : x <> 10) by (intros ->; match goal with H : _ || (prev =? 13) = true |- _ => rewrite (proj2 (Z.eqb_neq prev 13)) in H by done; done end).
    destruct (decide (x = 13)) as [->|Hx13].
    + destruct s as [|y s].
      * reflexivity.
      * destruct (decide (y = 10)) as [->|Hy].
        -- rewrite replace_all_cons by done. cbn [starts_with Z.eqb Pos.eqb andb length drop app].
           rewrite replace_all_cons by done. cbn [starts_with Z.eqb Pos.eqb andb length drop app].
           cbn [crlf_only length] in *. split_bools. do 2 f_equal. by apply (IH s 10); [lia| |].
        -- rewrite (replace_all_cons [13; 10]) by done.
           assert (starts_with [13; 10] (13 :: y :: s) = false) as ->.
           { cbn [starts_with]. zdecide. by zdecide. }
           rewrite to_crlf_cons by done. f_equal. apply (IH (y :: s) 0); [lia|done|].
           cbn [crlf_only] in *. split_bools. join_bools; [|done]. by zdecides.
    + rewrite to_lf_cons, to_crlf_cons by done. f_equal. by apply (IH s x); [lia| |].
Qed.
End RequestText.

(** A request shown as text and sent unedited is the request captured: for any
    bytes, valid UTF-8 or not, whose head uses CRLF line ends and is closed by
    a blank line, encoding the decoded text gives back exactly those bytes. *)
Theorem request_text_roundtrip `{QtTextLaws} data sep :
  wf_bytes data ->
  let '(text, latin1) := decodeRequestText data in
  head_boundary text = Some (sep, 4%nat) -> crlf_only 0 (take sep text) = true ->
  encodeRequestText text latin1 = data.
Proof.
  intros Hw. unfold decodeRequestText. set (latin1 := negb _). set (text := if latin1 then _ else _).
  intros Hb Hc. unfold encodeRequestText.
  assert (Hraw : normalize_head (take sep text) ++ [13; 10; 13; 10] ++ drop (sep + 4) text = text).
  { rewrite (normalize_head_crlf (length (take sep text)) _ 0) by done.
    assert (Hs : index_sub [13; 10; 13; 10] text = Some sep).
    { unfold head_boundary in Hb. destruct (index_sub [13; 10; 13; 10] text), (index_sub [10; 10] text); try done;
        [case_if_in Hb E; [done|]|]; by injection Hb as ->. }
    destruct (index_sub_Some _ _ _ Hs) as (_ & Hst & _). apply starts_with_spec in Hst as [t Ht].
    rewrite <- drop_drop, Ht. change (drop 4 ([13; 10; 13; 10] ++ t)) with t.
    rewrite <- (take_drop sep text) at 2. by rewrite Ht. }
  assert (Hl : latin1 = true -> u_tolatin1 text = text).
  { intros E. unfold text. rewrite E. by apply law_tolatin1. }
  assert (latin1 && negb (seq_eqb (u_tolatin1 text) text) = false) as ->.
  { destruct latin1 eqn:E; [|done]. rewrite Hl by done. by rewrite seq_eqb_refl. }
  rewrite Hb, Hraw. destruct latin1 eqn:E.
  - rewrite Hl by done. unfold text. done.
  - unfold text. subst latin1. apply negb_false_iff, seq_eqb_eq in E. done.
Qed.

Lemma request_text_roundtrip_witness :
  let QT := asciiText in
  encodeRequestText (lit "GET / HTTP/1.1" ++ [13; 10] ++ lit "A: b" ++ [13; 10; 13; 10] ++ lit "x") false
  = lit "GET / HTTP/1.1" ++ [13; 10] ++ lit "A: b" ++ [13; 10; 13; 10] ++ lit "x".
Proof.
  intros QT.
  apply (request_text_roundtrip (Q := asciiText)
    (lit "GET / HTTP/1.1" ++ [13; 10] ++ lit "A: b" ++ [13; 10; 13; 10] ++ lit "x") 20).
  - repeat constructor; discriminate.
  - reflexivity.
  - reflexivity.
Defined.

(** ** Content-Length *)

Section ContentLengthSpec.
Context `{QtText}.

Definition isContentLength (h : qstr * qstr) : bool := u_cieq (fst h) (lit "Content-Length").

(** Every comma-separated element of every Content-Length field, empty ones kept. *)
Definition all_elements (headers : list (qstr * qstr)) : list qstr :=
  flat_map (fun h => if isContentLength h then split_on 44 (snd h) else []) headers.

Definition means (n : Z) (e : qstr) : Prop := parseContentLength e = mkCL true n.

Lemma parseContentLength_cases e :
  (exists n, parseContentLength e = mkCL true n /\ 0 <= n <= kMaxBodyBytes) \/ parseContentLength e = mkCL false 0.
Proof.
  unfold parseContentLength. destruct (is_nil _); [by right|]. destruct (negb _); [by right|].
  destruct (u_tolonglong _ _) as [n|]; [|by right]. destruct (_ || _) eqn:E; [by right|left].
  split_bools; to_prop. eauto.
Qed.

Lemma cl_elems_spec raws : forall have out,
  match cl_elems raws have out with
  | inl r => ca_ok r = false /\ ca_present r = ca_present out /\
      ~ (exists n, (have = true -> n = ca_value out) /\ Forall (means n) raws)
  | inr (have', out') =>
      ca_present out' = ca_present out /\ ca_ok out' = ca_ok out /\
      have' = have || negb (is_nil raws) /\
      (have = true -> ca_value out' = ca_value out) /\ Forall (means (ca_value out')) raws
  end.
Proof.
  induction raws as [|raw rs IH]; intros have out; cbn [cl_elems].
  - rewrite orb_false_r. done.
  - destruct (parseContentLength_cases raw) as [(n & En & _)|En]; rewrite En; cbn [cl_ok cl_value negb].
    2: { split; [done|]. split; [done|]. intros (n & _ & Hf). apply Forall_cons in Hf as [Hm _].
         unfold means in Hm. congruence. }
    destruct have; cbn [negb].
    + destruct (n =? ca_value out) eqn:Ev; cbn [negb]; to_prop.
      * specialize (IH true (mkCLAll (ca_present out) (ca_ok out) (ca_value out) (ca_values out ++ [raw]))).
        destruct (cl_elems _ _ _) as [r|[h' o']]; cbn [ca_present ca_ok ca_value] in IH.
        -- destruct IH as (H1 & H2 & H3). split; [done|]. split; [done|]. intros (k & Hk & Hf). apply H3.
           exists k. split; [done|]. by apply Forall_cons in Hf as [_ ?].
        -- destruct IH as (H1 & H2 & H3 & H4 & H5). split; [done|]. split; [done|]. split; [done|]. split; [done|].
           constructor; [|done]. unfold means. rewrite En, (H4 eq_refl). by rewrite Ev.
      * split; [done|]. split; [done|]. intros (k & Hk & Hf). apply Forall_cons in Hf as [Hm _].
        unfold means in Hm. rewrite En in Hm. injection Hm as ->. specialize (Hk eq_refl). congruence.
    + specialize (IH true (mkCLAll (ca_present out) (ca_ok out) n (ca_values out ++ [raw]))).
      destruct (cl_elems _ _ _) as [r|[h' o']]; cbn [ca_present ca_ok ca_value] in IH.
      * destruct IH as (H1 & H2 & H3). split; [done|]. split; [done|]. intros (k & _ & Hf). apply H3.
        apply Forall_cons in Hf as [Hm Hf]. unfold means in Hm. rewrite En in Hm. injection Hm as ->. by exists k.
      * destruct IH as (H1 & H2 & H3 & H4 & H5). split; [done|]. split; [done|]. split; [done|]. split; [done|].
        constructor; [|done]. unfold means. by rewrite En, (H4 eq_refl).
Qed.

Lemma cl_fields_spec headers : forall have out,
  let r := cl_fields headers have out in
  (ca_ok r = true <->
   (have = true \/ all_elements headers <> []) /\
   exists n, (have = true -> n = ca_value out) /\ Forall (means n) (all_elements headers)) /\
  (ca_ok r = true -> (have = true -> ca_value r = ca_value out) /\ Forall (means (ca_value r)) (all_elements headers)).
Proof.
  induction headers as [|h hs IH]; intros have out; cbn [cl_fields].
  - cbn [all_elements flat_map ca_ok ca_value]. split; [|done]. split.
    + intros ->. split; [by left|]. exists (ca_value out). done.
    + intros ([?|?] & _); done.
  - unfold all_elements. cbn [flat_map]. unfold isContentLength at 1 3 5.
    destruct (u_cieq (fst h) (lit "Content-Length")) eqn:E; cbn [negb]; [|apply IH].
    set (raws := split_on 44 (snd h)). assert (Hne : raws <> []) by apply split_on_not_nil.
    pose proof (cl_elems_spec raws have (mkCLAll true (ca_ok out) (ca_value out) (ca_values out))) as He.
    fold (all_elements hs). destruct (cl_elems _ _ _) as [r|[have' out']].
    + cbn [ca_value] in He. destruct He as (H1 & _ & H3). rewrite H1. split; [|done]. split; [done|].
      intros (_ & n & Hn & Hf). exfalso. apply H3. exists n. split; [done|]. by apply Forall_app in Hf as [? _].
    + cbn [ca_value ca_ok ca_present] in He. destruct He as (_ & _ & H3 & H4 & H5).
      assert (have' = true) as -> by (rewrite H3; destruct raws; [done|]; by rewrite orb_true_r).
      specialize (IH true out'). cbv zeta in IH. destruct IH as [IH1 IH2]. split.
      * rewrite IH1. split.
        -- intros (_ & n & Hn & Hf). split; [right; by destruct raws|]. rewrite (Hn eq_refl) in Hf.
           exists (ca_value out'). split; [intros ->; by apply H4|]. by apply Forall_app.
        -- intros (_ & n & Hn & Hf). split; [by left|]. apply Forall_app in Hf as [Hf1 Hf2].
           exists n. split; [|done]. intros _. destruct raws as [|x xs]; [done|].
           apply Forall_cons in Hf1 as [Hx _], H5 as [Hx' _]. unfold means in *. congruence.
      * intros Hok. destruct (IH2 Hok) as [H6 H7]. specialize (H6 eq_refl).
        split; [intros Hh; by rewrite H6, H4|]. apply Forall_app. split; [by rewrite H6|done].
Qed.
End ContentLengthSpec.

(** Content-Length is accepted exactly when it is unambiguous: over all fields of
    that name, split at commas with empty elements kept, there is at least one
    element and all of them are plain digit strings for one and the same
    number, at most 128 MiB; that number is then the length. *)
Theorem parseContentLengthHeaders_iff `{QtText} headers n :
  let r := parseContentLengthHeaders headers in
  ca_ok r = true /\ ca_value r = n <->
  all_elements headers <> [] /\ Forall (fun e => parseContentLength e = mkCL true n) (all_elements headers).
Proof.
  intros r. destruct (cl_fields_spec headers false (mkCLAll false false 0 [])) as [H1 H2].
  fold (parseContentLengthHeaders headers) in H1, H2. fold r in H1, H2. split.
  - intros [Hok <-]. destruct (H2 Hok) as [_ Hf]. apply H1 in Hok as ([?|Hne] & _); [done|]. done.
  - intros [Hne Hf]. assert (Hok : ca_ok r = true) by (apply H1; split; [by right|]; by exists n).
    split; [done|]. destruct (H2 Hok) as [_ Hf'].
    destruct (all_elements headers) as [|x xs]; [done|].
    apply Forall_cons in Hf as [Hx _], Hf' as [Hx' _]. unfold means in *. congruence.
Qed.

(** ** Chunked bodies *)

(** The grammar of RFC 9112 section 7.1: a line is what precedes its first CRLF. *)
Definition is_line (line : bytes) : Prop := index_sub CRLF (line ++ CRLF) = Some (length line).

Inductive trailer : bytes -> Prop :=
| trailer_end : trailer CRLF
| trailer_field line rest : is_line line -> line <> [] -> trailer rest -> trailer (line ++ CRLF ++ rest).

Section Chunked.
Context `{QtText}.

Inductive chunked : bytes -> bytes -> Prop :=
| chunked_last line tr :
    is_line line -> parseChunkSizeLine line = mkChunkSize true 0 -> trailer tr ->
    chunked (line ++ CRLF ++ tr) []
| chunked_chunk line data rest body :
    is_line line -> parseChunkSizeLine line = mkChunkSize true (zlen data) -> data <> [] ->
    chunked rest body -> chunked (line ++ CRLF ++ data ++ CRLF ++ rest) (data ++ body).

(** The first line of a buffer. *)
Lemma first_line s k :
  index_sub CRLF s = Some k -> s = take k s ++ CRLF ++ drop (k + 2) s /\ is_line (take k s) /\ (k + 2 <= length s)%nat.
Proof.
  intros Hk. destruct (index_sub_Some _ _ _ Hk) as (Hl & Hs & Hf).
  apply starts_with_spec in Hs as [t Ht].
  assert (Hd : drop (k + 2) s = t) by (rewrite <- drop_drop, Ht; done).
  assert (Hst : s = take k s ++ CRLF ++ t) by (rewrite <- Ht; by rewrite take_drop).
  assert (Hlen : length (take k s) = k) by (rewrite length_take; lia).
  split; [by rewrite Hd|]. split; [|apply (f_equal length) in Ht; rewrite length_drop, length_app in Ht; cbn in Ht; lia].
  unfold is_line. rewrite Hlen. apply index_sub_intro; [rewrite length_app; lia| |].
  - rewrite <- Hlen at 1. by rewrite drop_app_length.
  - intros j Hj. specialize (Hf j Hj). rewrite Hst, app_assoc, drop_app_le in Hf by (rewrite length_app, Hlen; cbn; lia).
    destruct (starts_with _ (drop j _)) eqn:E; [|done]. apply starts_with_spec in E as [u Hu].
    rewrite Hu, <- app_assoc, starts_with_app in Hf. done.
Qed.

Lemma need_or_error_cases b :
  need_or_error b = CError \/ need_or_error b = CNeedMore /\ zlen b <= kMaxChunkLineBytes.
Proof. unfold need_or_error. destruct (_ <? _) eqn:E; to_prop; auto. Qed.

Lemma trailer_loop_spec buffer fuel : forall pos tb,
  (length buffer < fuel + pos)%nat -> (pos <= length buffer)%nat ->
  exists r e, trailer_loop fuel buffer pos tb = Some (r, e) /\
    match r with
    | CDone => exists tr, drop pos buffer = tr ++ drop e buffer /\ trailer tr
    | CNeedMore => zlen buffer <= kMaxChunkLineBytes
    | CError => True
    end.
Proof.
  induction fuel as [|fuel IH]; intros pos tb Hf Hp; [lia|].
  cbn [trailer_loop]. unfold index_sub_from. destruct (index_sub CRLF (drop pos buffer)) as [k|] eqn:E; cbn [fmap option_fmap option_map].
  2: { destruct (need_or_error_cases buffer) as [->|[-> ?]]; do 2 eexists; split; done. }
  destruct (first_line _ _ E) as (Hd & Hline & Hk). rewrite length_drop in Hk. rewrite drop_drop in Hd.
  destruct (pos + k =? pos)%nat eqn:Ee; to_prop.
  { assert (k = 0%nat) as -> by lia. do 2 eexists. split; [done|]. exists CRLF. split; [|constructor].
    rewrite Hd at 1. cbn [take app]. by rewrite Nat.add_assoc. }
  destruct (_ <? _); [do 2 eexists; split; done|]. destruct (_ <? _); [do 2 eexists; split; done|].
  destruct (IH (pos + k + 2)%nat (tb + Z.of_nat (pos + k - pos) + 2)) as (r & e & Hr & Hs); [lia|lia|].
  exists r, e. split; [done|]. destruct r; [done| |done]. destruct Hs as (tr & Htr & Ht).
  exists (take k (drop pos buffer) ++ CRLF ++ tr). split.
  - rewrite Hd at 1. rewrite Nat.add_assoc, Htr. by rewrite <- !app_assoc.
  - constructor; [done| |done]. intros Hn. apply (f_equal length) in Hn.
    rewrite length_take, length_drop in Hn. cbn in Hn. lia.
Qed.

Definition feed_ok (buffer decoded : bytes) (res : ChunkDecode * bytes * bytes) : Prop :=
  let '(r, buffer', decoded') := res in
  (zlen decoded <= kMaxBodyBytes -> zlen decoded' <= kMaxBodyBytes) /\
  match r with
  | CDone => exists enc body, buffer = enc ++ buffer' /\ decoded' = decoded ++ body /\ chunked enc body
  | CNeedMore => zlen buffer' < kMaxChunkLineBytes + kMaxBodyBytes + 4
  | CError => True
  end.

Lemma parseChunkSizeLine_range line :
  ck_ok (parseChunkSizeLine line) = true ->
  parseChunkSizeLine line = mkChunkSize true (ck_size (parseChunkSizeLine line)) /\
  0 <= ck_size (parseChunkSizeLine line) <= kMaxBodyBytes.
Proof.
  unfold parseChunkSizeLine. destruct (is_nil _); [done|]. destruct (negb _); [done|].
  destruct (u_tolonglong _ _) as [z|]; [|done]. destruct (_ || _) eqn:E; [done|].
  split_bools; to_prop. intros _. done.
Qed.

(** A whole chunk at the front of the buffer. *)
Lemma chunk_split s k n :
  index_sub CRLF s = Some k -> (k + 2 + n + 2 <= length s)%nat -> mid s (k + 2 + n) 2 = CRLF ->
  s = take k s ++ CRLF ++ mid s (k + 2) n ++ CRLF ++ drop (k + 2 + n + 2) s.
Proof.
  intros Hk Hn Hm. destruct (first_line _ _ Hk) as (Hd & _ & _). rewrite Hd at 1. do 2 f_equal.
  unfold mid in *. rewrite <- (take_drop n (drop (k + 2) s)) at 1. f_equal. rewrite drop_drop.
  rewrite <- (take_drop 2 (drop (k + 2 + n) s)) at 1. rewrite drop_drop. by f_equal.
Qed.

Lemma feed_loop_spec fuel : forall buffer decoded,
  (length buffer < fuel)%nat -> exists res, feed_loop fuel buffer decoded = Some res /\ feed_ok buffer decoded res.
Proof.
  induction fuel as [|fuel IH]; intros buffer decoded Hf; [lia|]. cbn [feed_loop].
  destruct (index_sub CRLF buffer) as [k|] eqn:E.
  2: { eexists. split; [done|]. split; [done|]. destruct (need_or_error_cases buffer) as [->|[-> ?]]; [done|].
       unfold kMaxBodyBytes. lia. }
  destruct (first_line _ _ E) as (Hd & Hline & Hk).
  destruct (_ <? Z.of_nat k) eqn:Ek; [by eexists|]. set (cs := parseChunkSizeLine _).
  destruct (ck_ok cs) eqn:Eok; cbn [negb]; [|by eexists].
  destruct (parseChunkSizeLine_range _ Eok) as [Hcs Hrange]. fold cs in Hcs, Hrange.
  destruct (_ <? zlen decoded + _) eqn:Eb; [by eexists|]. destruct (ck_size cs =? 0) eqn:Ez; to_prop.
  - destruct (trailer_loop_spec buffer (S (length buffer)) (k + 2) 0) as (r & e & Hr & Hs); [lia|lia|].
    rewrite Hr. destruct r; eexists; (split; [done|]); (split; [done|]).
    + unfold kMaxBodyBytes. lia.
    + destruct Hs as (tr & Htr & Ht). exists (take k buffer ++ CRLF ++ tr), []. split.
      * rewrite Hd at 1. rewrite Htr. by rewrite <- !app_assoc.
      * split; [by rewrite app_nil_r|]. apply (chunked_last (take k buffer) tr); [done|fold cs; by rewrite Hcs, Ez|done].
    + done.
  - destruct (zlen buffer <? _) eqn:En; to_prop.
    { eexists. split; [done|]. split; [done|]. lia. }
    set (n := Z.to_nat (ck_size cs)) in *. unfold zlen in En.
    destruct (seq_eqb _ CRLF) eqn:Es; cbn [negb]; [|by eexists]. apply seq_eqb_eq in Es.
    set (data := mid buffer (k + 2) n). assert (Hdata : length data = n) by (unfold data; rewrite length_mid; lia).
    destruct (IH (drop (k + 2 + n + 2) buffer) (decoded ++ data)) as ([[r b'] d'] & Hr & Hb & Hs); [rewrite length_drop; lia|].
    exists (r, b', d'). split; [done|]. split.
    { intros _. apply Hb. rewrite zlen_app. unfold zlen at 2. lia. }
    destruct r; [done| |done]. destruct Hs as (enc & body & He & Hd' & Hc).
    exists (take k buffer ++ CRLF ++ data ++ CRLF ++ enc), (data ++ body). split.
    + rewrite (chunk_split buffer k n E) at 1 by (done || lia). rewrite He. by rewrite <- !app_assoc.
    + split; [by rewrite Hd', app_assoc|]. apply (chunked_chunk (take k buffer) data enc body); [done| | |done].
      * fold cs. rewrite Hcs. unfold zlen. rewrite Hdata. f_equal. lia.
      * intros Hn. rewrite Hn in Hdata. cbn in Hdata. lia.
Qed.

(** "Need more" has consumed whole chunks: what follows them completes the message. *)
Lemma feed_loop_more fuel : forall buffer decoded b' d', feed_loop fuel buffer decoded = Some (CNeedMore, b', d') ->
  exists pre data, buffer = pre ++ b' /\ d' = decoded ++ data /\
    forall enc body, chunked enc body -> chunked (pre ++ enc) (data ++ body).
Proof.
  induction fuel as [|fuel IH]; intros buffer decoded b' d' H0; cbn [feed_loop] in H0; [done|].
  assert (Hstay : (CNeedMore, buffer, decoded) = (CNeedMore, b', d') -> exists pre data, buffer = pre ++ b' /\ d' = decoded ++ data /\
    forall enc body, chunked enc body -> chunked (pre ++ enc) (data ++ body)).
  { intros [= <- <-]. exists [], []. rewrite app_nil_r. by split_and!. }
  destruct (index_sub CRLF buffer) as [k|] eqn:E; [|apply Hstay; destruct (need_or_error_cases buffer) as [En|[En _]]; rewrite En in H0; [done|by injection H0 as <- <-]].
  destruct (first_line _ _ E) as (Hd & Hline & Hk).
  destruct (_ <? Z.of_nat k); [done|]. set (cs := parseChunkSizeLine _) in *.
  destruct (ck_ok cs) eqn:Eok; cbn [negb] in H0; [|done].
  destruct (parseChunkSizeLine_range _ Eok) as [Hcs Hrange]. fold cs in Hcs, Hrange.
  destruct (_ <? zlen decoded + _); [done|]. destruct (ck_size cs =? 0) eqn:Ez; to_prop.
  - destruct (trailer_loop_spec buffer (S (length buffer)) (k + 2) 0) as (r & e & Hr & _); [lia|lia|].
    rewrite Hr in H0. destruct r; try done. injection H0 as <- <-. by apply Hstay.
  - destruct (zlen buffer <? _) eqn:En; to_prop; [injection H0 as <- <-; by apply Hstay|].
    set (n := Z.to_nat (ck_size cs)) in *. unfold zlen in En.
    destruct (seq_eqb _ CRLF) eqn:Es; cbn [negb] in H0; [|done]. apply seq_eqb_eq in Es.
    set (data := mid buffer (k + 2) n) in *. assert (Hdata : length data = n) by (unfold data; rewrite length_mid; lia).
    apply IH in H0 as (pre & data' & Hb & Hd' & Hc).
    exists (take k buffer ++ CRLF ++ data ++ CRLF ++ pre), (data ++ data'). split_and!.
    + rewrite (chunk_split buffer k n E) at 1 by (done || lia). rewrite Hb. by rewrite <- !app_assoc.
    + by rewrite Hd', app_assoc.
    + intros enc body Hm. rewrite <- !app_assoc. apply (chunked_chunk (take k buffer) data (pre ++ enc) (data' ++ body)); [done| | |by apply Hc].
      * fold cs. rewrite Hcs. unfold zlen. rewrite Hdata. f_equal. lia.
      * intros Hn. rewrite Hn in Hdata. cbn in Hdata. lia.
Qed.

Lemma feedChunked_ok buffer decoded : exists res, feedChunked buffer decoded = Some res /\ feed_ok buffer decoded res.
Proof. apply feed_loop_spec. lia. Qed.

(** ** Whole messages in pieces *)

(** A chunked message within the decoder's limits on size lines and on the trailer. *)
Inductive chunked_within : bytes -> bytes -> Prop :=
| within_last line tr :
    is_line line -> parseChunkSizeLine line = mkChunkSize true 0 -> trailer tr ->
    zlen (line ++ CRLF ++ tr) <= kMaxChunkLineBytes -> chunked_within (line ++ CRLF ++ tr) []
| within_chunk line data rest body :
    is_line line -> parseChunkSizeLine line = mkChunkSize true (zlen data) -> data <> [] ->
    zlen line + 2 <= kMaxChunkLineBytes -> chunked_within rest body ->
    chunked_within (line ++ CRLF ++ data ++ CRLF ++ rest) (data ++ body).

Lemma within_chunked enc body : chunked_within enc body -> chunked enc body.
Proof. induction 1; econstructor; eauto. Qed.

(** The first line end of a beginning of a text that starts with a line. *)
Lemma line_in_prefix buffer t line more : is_line line -> buffer ++ t = line ++ CRLF ++ more ->
  (index_sub CRLF buffer = None /\ (length buffer < length line + 2)%nat) \/
  (index_sub CRLF buffer = Some (length line) /\ buffer = line ++ CRLF ++ drop (length line + 2) buffer /\
   drop (length line + 2) buffer ++ t = more).
Proof.
  intros Hl Hb. assert (Hfull : index_sub CRLF (buffer ++ t) = Some (length line)).
  { rewrite Hb, app_assoc. apply index_sub_prefix; [done|exact Hl]. }
  destruct (index_sub CRLF buffer) as [k|] eqn:E.
  - right. assert (k = length line) as ->.
    { apply (index_sub_prefix CRLF buffer t) in E; [|done]. congruence. }
    destruct (first_line _ _ E) as (Hd & _ & Hk).
    assert (Ht : take (length line) buffer = line).
    { apply (f_equal (take (length line))) in Hb. rewrite take_app_le in Hb by lia. by rewrite take_app_length in Hb. }
    split; [done|]. split; [by rewrite Ht in Hd|]. rewrite Ht in Hd. rewrite Hd in Hb. rewrite <- !app_assoc in Hb.
    apply app_inv_head in Hb. by apply app_inv_head in Hb.
  - left. split; [done|]. destruct (decide (length buffer < length line + 2)%nat) as [?|Hge]; [done|exfalso].
    assert (Hp : buffer = (line ++ CRLF) ++ drop (length line + 2) buffer).
    { apply (f_equal (take (length line + 2))) in Hb. rewrite take_app_le in Hb by lia. rewrite app_assoc in Hb.
      rewrite take_app_le in Hb by (rewrite length_app; cbn; lia). rewrite (take_ge (line ++ CRLF)) in Hb by (rewrite length_app; cbn; lia).
      rewrite <- Hb. by rewrite take_drop. }
    rewrite Hp in E. rewrite (index_sub_prefix CRLF (line ++ CRLF) (drop (length line + 2) buffer) (length line) ltac:(done) Hl) in E. done.
Qed.

Lemma trailer_prefix tr : trailer tr -> forall fuel buffer pos tb t extra,
  (length buffer < fuel + pos)%nat -> (pos <= length buffer)%nat -> drop pos buffer ++ t = tr ++ extra ->
  0 <= tb -> tb + zlen tr <= kMaxChunkLineBytes -> Z.of_nat pos + zlen tr <= kMaxChunkLineBytes ->
  (exists e, trailer_loop fuel buffer pos tb = Some (CDone, e) /\ drop e buffer ++ t = extra) \/
  (exists e, trailer_loop fuel buffer pos tb = Some (CNeedMore, e)).
Proof.
  assert (Hend : forall fuel buffer pos tb t line more, (length buffer < fuel + pos)%nat -> (pos <= length buffer)%nat ->
    is_line line -> drop pos buffer ++ t = line ++ CRLF ++ more -> Z.of_nat pos + zlen line + 2 <= kMaxChunkLineBytes ->
    (exists e, trailer_loop fuel buffer pos tb = Some (CNeedMore, e)) \/
    (index_sub_from CRLF buffer pos = Some (pos + length line)%nat /\ drop (pos + length line + 2) buffer ++ t = more /\ (0 < fuel)%nat /\
     (pos + length line + 2 <= length buffer)%nat)).
  { intros fuel buffer pos tb t line more Hf Hp Hl Hb Hlim. destruct fuel as [|fuel]; [lia|]. cbn [trailer_loop]. unfold index_sub_from.
    destruct (line_in_prefix (drop pos buffer) t line more Hl Hb) as [[E Hlen]|(E & Hd & Hm)]; rewrite E; cbn [fmap option_fmap option_map].
    - left. unfold need_or_error. rewrite length_drop in Hlen. destruct (_ <? zlen buffer) eqn:El; to_prop; [|by eexists].
      unfold zlen in *. lia.
    - right. rewrite drop_drop in Hm. split_and!; [done|by rewrite Nat.add_assoc in Hm|lia|].
      apply (f_equal length) in Hd. rewrite !length_app, length_drop in Hd. cbn in Hd. lia. }
  induction 1 as [|line rest Hl Hne Ht IH]; intros fuel buffer pos tb t extra Hf Hp Hb Htb Hlim1 Hlim2.
  - destruct (Hend fuel buffer pos tb t [] extra) as [?|(E & Hm & Hfu & Hle)]; [lia|done|done|exact Hb|cbn in Hlim2 |- *; unfold zlen in *; cbn in *; lia|by right|].
    destruct fuel as [|fuel]; [lia|]. cbn [trailer_loop]. left. rewrite E. cbn [length]. rewrite Nat.add_0_r, Nat.eqb_refl. cbn [length] in Hm.
    eexists. split; [done|]. by rewrite Nat.add_0_r in Hm.
  - rewrite !zlen_app in Hlim1, Hlim2. change (zlen CRLF) with 2 in Hlim1, Hlim2. pose proof (zlen_nonneg rest) as Hz. rewrite <- !app_assoc in Hb.
    destruct (Hend fuel buffer pos tb t line (rest ++ extra)) as [?|(E & Hm & Hfu & Hle)]; [lia|done|done|exact Hb|lia|by right|].
    destruct fuel as [|fuel]; [lia|]. cbn [trailer_loop]. rewrite E.
    assert (Hnz : (length line <> 0)%nat) by (by destruct line). destruct (_ =? pos)%nat eqn:E0; to_prop; [lia|].
    unfold zlen in *. destruct (_ <? _) eqn:E1; to_prop; [lia|]. destruct (_ <? _) eqn:E2; to_prop; [lia|].
    apply IH; [lia|lia|done|lia|lia|lia].
Qed.

(** With the whole trailer at hand the scan ends. *)
Lemma trailer_prefix_done tr : trailer tr -> forall fuel buffer pos tb extra,
  (length buffer < fuel + pos)%nat -> (pos <= length buffer)%nat -> drop pos buffer = tr ++ extra ->
  0 <= tb -> tb + zlen tr <= kMaxChunkLineBytes -> Z.of_nat pos + zlen tr <= kMaxChunkLineBytes ->
  exists e, trailer_loop fuel buffer pos tb = Some (CDone, e).
Proof.
  induction 1 as [|line rest Hl Hne Ht IH]; intros fuel buffer pos tb extra Hf Hp Hb Htb Hlim1 Hlim2; (destruct fuel as [|fuel]; [lia|]);
    cbn [trailer_loop]; unfold index_sub_from; rewrite Hb.
  - change (index_sub CRLF (CRLF ++ extra)) with (Some 0%nat). cbn [fmap option_fmap option_map]. rewrite Nat.add_0_r, Nat.eqb_refl. by eexists.
  - rewrite !zlen_app in Hlim1, Hlim2. change (zlen CRLF) with 2 in Hlim1, Hlim2. pose proof (zlen_nonneg rest).
    rewrite <- !app_assoc, (app_assoc line), (index_sub_prefix CRLF (line ++ CRLF) _ (length line) ltac:(done) Hl). cbn [fmap option_fmap option_map].
    assert (Hnz : (length line <> 0)%nat) by (by destruct line). destruct (_ =? pos)%nat eqn:E0; to_prop; [lia|].
    unfold zlen in *. destruct (_ <? _) eqn:E1; to_prop; [lia|]. destruct (_ <? _) eqn:E2; to_prop; [lia|].
    assert (Hlen : (pos + length line + 2 <= length buffer)%nat).
    { apply (f_equal length) in Hb. rewrite length_drop, !length_app in Hb. cbn in Hb. lia. }
    apply (IH fuel buffer _ _ extra); [lia|lia| |lia|lia|lia].
    replace (pos + length line + 2)%nat with (pos + (length line + 2))%nat by lia. rewrite <- drop_drop, Hb, <- !app_assoc, <- drop_drop, drop_app_length. done.
Qed.

(** Fed with the beginning of a message within the limits, the decoder is done at its end
    and before it needs more, having taken whole chunks. *)
Lemma feed_prefix enc body : chunked_within enc body -> forall fuel buffer decoded t extra,
  (length buffer < fuel)%nat -> buffer ++ t = enc ++ extra -> zlen decoded + zlen body <= kMaxBodyBytes ->
  (exists b', feed_loop fuel buffer decoded = Some (CDone, b', decoded ++ body) /\ b' ++ t = extra) \/
  (exists b' body1 body2 enc2, feed_loop fuel buffer decoded = Some (CNeedMore, b', decoded ++ body1) /\ body = body1 ++ body2 /\
     chunked_within enc2 body2 /\ b' ++ t = enc2 ++ extra /\ t <> []).
Proof.
  induction 1 as [line tr Hl Hp Ht Hlim|line data rest body Hl Hp Hne Hlim Hr IH]; intros fuel buffer decoded t extra Hf Hb Hmax;
    (destruct fuel as [|fuel]; [lia|]); cbn [feed_loop]; rewrite <- !app_assoc in Hb.
  - destruct (line_in_prefix buffer t line (tr ++ extra) Hl Hb) as [[E Hlen]|(E & Hd & Hm)]; rewrite E.
    + right. exists buffer, [], [], (line ++ CRLF ++ tr). rewrite !zlen_app in Hlim. change (zlen CRLF) with 2 in Hlim. pose proof (zlen_nonneg tr).
      assert (Hne : need_or_error buffer = CNeedMore).
      { unfold need_or_error. destruct (_ <? _) eqn:E'; [|done]. to_prop. unfold zlen in *. lia. }
      rewrite Hne, app_nil_r. split_and!; [done|done| |by rewrite <- !app_assoc|].
      * constructor; try done. rewrite !zlen_app. change (zlen CRLF) with 2. lia.
      * intros ->. rewrite app_nil_r in Hb. apply (f_equal length) in Hb. rewrite !length_app in Hb. cbn in Hb. lia.
    + pose proof Hlim as Hlim'. rewrite !zlen_app in Hlim. change (zlen CRLF) with 2 in Hlim. pose proof (zlen_nonneg tr).
      destruct (_ <? Z.of_nat _) eqn:E1; to_prop; [unfold zlen in *; lia|].
      assert (Htake : take (length line) buffer = line) by (rewrite Hd; apply take_app_length).
      rewrite Htake, Hp. cbn [ck_ok ck_size negb]. destruct (_ <? zlen decoded + 0) eqn:E2; to_prop; [rewrite zlen_nil in Hmax; lia|]. cbn [Z.eqb].
      assert (Hpos : (length line + 2 <= length buffer)%nat).
      { apply (f_equal length) in Hd. rewrite !length_app in Hd. cbn in Hd. lia. }
      destruct (trailer_prefix tr Ht (S (length buffer)) buffer (length line + 2) 0 t extra) as [(e & He & Hx)|(e & He)]; try (unfold zlen in *; lia); try done.
      * left. rewrite He. eexists. rewrite app_nil_r. by split.
      * right. rewrite He. exists buffer, [], [], (line ++ CRLF ++ tr). rewrite app_nil_r. split_and!; [done|done| |by rewrite <- !app_assoc|].
        -- by constructor.
        -- intros ->. rewrite app_nil_r in Hm. destruct (trailer_prefix_done tr Ht (S (length buffer)) buffer (length line + 2) 0 extra) as (e' & He'); try (unfold zlen in *; lia); try done. congruence.
  - destruct (line_in_prefix buffer t line (data ++ CRLF ++ rest ++ extra) Hl Hb) as [[E Hlen]|(E & Hd & Hm)]; rewrite E.
    + right. exists buffer, [], (data ++ body), (line ++ CRLF ++ data ++ CRLF ++ rest).
      assert (Hnn : need_or_error buffer = CNeedMore).
      { unfold need_or_error. destruct (_ <? _) eqn:E'; [|done]. to_prop. unfold zlen in *. lia. }
      rewrite Hnn, app_nil_r. split_and!; [done|done|by constructor|by rewrite <- !app_assoc|].
      intros ->. rewrite app_nil_r in Hb. apply (f_equal length) in Hb. rewrite !length_app in Hb. cbn in Hb. lia.
    + destruct (_ <? Z.of_nat _) eqn:E1; to_prop; [unfold zlen in *; lia|].
      assert (Htake : take (length line) buffer = line) by (rewrite Hd; apply take_app_length).
      rewrite Htake, Hp. cbn [ck_ok ck_size negb]. rewrite zlen_app in Hmax. pose proof (zlen_nonneg body).
      destruct (_ <? zlen decoded + _) eqn:E2; to_prop; [lia|].
      assert (Hnz : zlen data <> 0) by (destruct data; [done|rewrite zlen_cons; pose proof (zlen_nonneg data); lia]).
      destruct (zlen data =? 0) eqn:E3; to_prop; [lia|].
      destruct (zlen buffer <? _) eqn:E4; to_prop.
      { right. exists buffer, [], (data ++ body), (line ++ CRLF ++ data ++ CRLF ++ rest). rewrite app_nil_r.
        split_and!; [done|done|by constructor|by rewrite <- !app_assoc|]. intros ->. rewrite app_nil_r in Hb.
        apply (f_equal length) in Hb. rewrite !length_app in Hb. cbn in Hb. unfold zlen in *. lia. }
      replace (Z.to_nat (zlen data)) with (length data) by (unfold zlen; lia).
      set (k := (length line + 2)%nat) in *.
      assert (Hk : (k + length data + 2 <= length buffer)%nat) by (unfold zlen, k in *; lia).
      assert (Hdata : drop k buffer = data ++ CRLF ++ drop (k + length data + 2) buffer /\ drop (k + length data + 2) buffer ++ t = rest ++ extra).
      { assert (Hg : drop k buffer = (data ++ CRLF) ++ drop (length data + 2) (drop k buffer)).
        { apply (f_equal (take (length data + 2))) in Hm. rewrite take_app_le in Hm by (rewrite length_drop; lia).
          rewrite (app_assoc data) in Hm. rewrite take_app_le in Hm by (rewrite length_app; cbn; lia).
          rewrite (take_ge (data ++ CRLF)) in Hm by (rewrite length_app; cbn; lia). rewrite <- Hm. by rewrite take_drop. }
        rewrite drop_drop, Nat.add_assoc in Hg. split; [by rewrite <- app_assoc in Hg|].
        rewrite Hg in Hm. rewrite <- !app_assoc in Hm. apply app_inv_head in Hm. by apply app_inv_head in Hm. }
      destruct Hdata as [Hd1 Hd2].
      assert (Hcr : mid buffer (k + length data) 2 = CRLF).
      { unfold mid. rewrite <- drop_drop, Hd1, drop_app_length. done. }
      assert (Hmid : mid buffer k (length data) = data) by (unfold mid; rewrite Hd1; apply take_app_length).
      rewrite Hcr, seq_eqb_refl. cbn [negb]. rewrite Hmid.
      destruct (IH fuel (drop (k + length data + 2) buffer) (decoded ++ data) t extra) as [(b' & He & Hx)|(b' & b1 & b2 & e2 & He & Hs1 & Hs2 & Hs3 & Hs4)];
        [rewrite length_drop; lia|done|rewrite zlen_app; lia| |].
      * left. exists b'. by rewrite He, <- app_assoc.
      * right. exists b', (data ++ b1), b2, e2. rewrite He, Hs1, <- !app_assoc. by split_and!.
Qed.
End Chunked.

(** The incremental chunked decoder always returns, and is sound: "done" means
    that exactly a chunked message of RFC 9112 was consumed, ending with its
    terminated trailer section, and that its data was appended to the body,
    in order.  Neither the body nor an unfinished buffer outgrows its limit. *)
Theorem feedChunked_sound `{QtText} buffer decoded :
  exists r buffer' decoded',
    feedChunked buffer decoded = Some (r, buffer', decoded') /\
    (zlen decoded <= kMaxBodyBytes -> zlen decoded' <= kMaxBodyBytes) /\
    match r with
    | CDone => exists enc body, buffer = enc ++ buffer' /\ decoded' = decoded ++ body /\ chunked enc body
    | CNeedMore => zlen buffer' < kMaxChunkLineBytes + kMaxBodyBytes + 4
    | CError => True
    end.
Proof.
  destruct (feed_loop_spec (S (length buffer)) buffer decoded) as ([[r b'] d'] & Hr & Hs); [lia|].
  exists r, b', d'. by split.
Qed.

Lemma feedChunked_sound_witness :
  let QT := asciiText in
  feedChunked (lit "3;x" ++ CRLF ++ lit "abc" ++ CRLF ++ lit "0" ++ CRLF ++ lit "T: 1" ++ CRLF ++ CRLF ++ lit "next") []
    = Some (CDone, lit "next", lit "abc") /\ zlen (lit "abc") <= kMaxBodyBytes.
Proof.
  intros QT. split; [reflexivity|].
  destruct (feedChunked_sound (H := asciiText)
    (lit "3;x" ++ CRLF ++ lit "abc" ++ CRLF ++ lit "0" ++ CRLF ++ lit "T: 1" ++ CRLF ++ CRLF ++ lit "next") [])
    as (r & b & d & Hr & Hb & _).
  vm_compute in Hr. injection Hr as <- <- <-. apply Hb. cbv. discriminate.
Defined.
