(* ===== verification/WsRepeater.v ===== *)
(** * The live-session registry of Src/BackEnd/Proxy/ws_repeater.{hpp,cpp}

    [WsRepeater] is the singleton's state; every public method runs under its
    mutex, so an execution is a sequence of calls.  Signals are the events the
    relay receives.  Sockets are opaque identities: nothing here uses them. *)

From S2P Require Import Prelude Qt QtSample QMap WebSocket.

Local Open Scope Z_scope.

Section WsRepeater.
Context `{QtText}.

Record WsSessionInfo := mkInfo {
  si_id : Z; si_host : qstr; si_port : Z; si_openedAtMs : Z;
  si_framesUp : Z; si_framesDown : Z
}.

Record Entry := mkEntry { e_client : Z; e_upstream : Z; e_info : WsSessionInfo }.

Record WsRepeater := mkRepeater { m_sessions : list (Z * Entry); m_nextId : Z }.

Definition initRepeater : WsRepeater := mkRepeater [] 1.

Inductive Signal :=
| sessionsChanged
| frameQueued (sid : Z) (data : bytes) (toUpstream : bool).

Definition registerSession (s : WsRepeater) (client upstream : Z) (host : qstr) (port now : Z)
    : Z * WsRepeater * list Signal :=
  let sid := m_nextId s in
  let e := mkEntry client upstream (mkInfo sid host port now 0 0) in
  (sid, mkRepeater (qm_insert sid e (m_sessions s)) (sid + 1), [sessionsChanged]).

Definition deregisterSession (s : WsRepeater) (sid : Z) : WsRepeater * list Signal :=
  (mkRepeater (qm_remove sid (m_sessions s)) (m_nextId s), [sessionsChanged]).

Definition count_frame (fromClient : bool) (e : Entry) : Entry :=
  let i := e_info e in
  mkEntry (e_client e) (e_upstream e)
    (if fromClient
     then mkInfo (si_id i) (si_host i) (si_port i) (si_openedAtMs i) (si_framesUp i + 1) (si_framesDown i)
     else mkInfo (si_id i) (si_host i) (si_port i) (si_openedAtMs i) (si_framesUp i) (si_framesDown i + 1)).

Definition noteFrame (s : WsRepeater) (sid : Z) (fromClient : bool) : WsRepeater * list Signal :=
  match qm_get sid (m_sessions s) with
  | None => (s, [])
  | Some e =>
      (mkRepeater (qm_insert sid (count_frame fromClient e) (m_sessions s)) (m_nextId s),
       [sessionsChanged])
  end.

Definition sessions (s : WsRepeater) : list WsSessionInfo :=
  map (fun e => e_info (snd e)) (m_sessions s).

Definition buildFrame (key : bytes) (op : Z) (pl : bytes) (mask : bool) : bytes :=
  wsEncodeFrame key op true false pl mask.

Definition clientToServer (direction : qstr) : bool :=
  u_cieq direction (lit "up") || u_cieq direction (lit "client")
  || u_cieq direction (lit "upstream").

Definition sendFrame (key : bytes) (s : WsRepeater) (sid : Z) (direction : qstr)
    (op : Z) (pl : bytes) : bool * list Signal :=
  if qm_has sid (m_sessions s) then
    let up := clientToServer direction in
    (true, [frameQueued sid (buildFrame key (u8 (Z.land op 15)) pl up) up])
  else (false, []).

(** ** Executions *)

Inductive Call :=
| Register (client upstream : Z) (host : qstr) (port now : Z)
| Deregister (sid : Z)
| NoteFrame (sid : Z) (fromClient : bool)
| Send (key : bytes) (sid : Z) (direction : qstr) (op : Z) (pl : bytes).

Definition run_call (s : WsRepeater) (c : Call) : WsRepeater :=
  match c with
  | Register cl up h p now => snd (fst (registerSession s cl up h p now))
  | Deregister sid => fst (deregisterSession s sid)
  | NoteFrame sid fc => fst (noteFrame s sid fc)
  | Send _ _ _ _ _ => s
  end.

Definition run_calls (log : list Call) : WsRepeater := fold_left run_call log initRepeater.

(** ** The registry as a function of the call log

    Session [sid] is the [sid]-th registration; it is gone once a later call
    deregisters it; its counters are the frames noted for it since. *)
Fixpoint registration (sid : Z) (log : list Call) : option (Entry * list Call) :=
  match log with
  | [] => None
  | Register cl up h p now :: rest =>
      if sid =? 1 then Some (mkEntry cl up (mkInfo 0 h p now 0 0), rest)
      else registration (sid - 1) rest
  | _ :: rest => registration sid rest
  end.

Definition is_dereg (sid : Z) (c : Call) : bool :=
  match c with Deregister i => i =? sid | _ => false end.
Definition is_note (sid : Z) (fc : bool) (c : Call) : bool :=
  match c with NoteFrame i f => (i =? sid) && Bool.eqb f fc | _ => false end.
Definition count (f : Call -> bool) (log : list Call) : Z := zlen (List.filter f log).

Definition spec_session (log : list Call) (sid : Z) : option Entry :=
  match registration sid log with
  | None => None
  | Some (e, rest) =>
      if existsb (is_dereg sid) rest then None
      else Some (mkEntry (e_client e) (e_upstream e)
             (mkInfo sid (si_host (e_info e)) (si_port (e_info e)) (si_openedAtMs (e_info e))
                (count (is_note sid true) rest) (count (is_note sid false) rest)))
  end.

Definition is_reg (c : Call) : bool := match c with Register _ _ _ _ _ => true | _ => false end.
Definition registers (log : list Call) : Z := count is_reg log.

Lemma count_cons f c log : count f (c :: log) = (if f c then 1 else 0) + count f log.
Proof. unfold count. cbn [List.filter]. destruct (f c); [rewrite zlen_cons|]; lia. Qed.

Lemma count_snoc f log c : count f (log ++ [c]) = count f log + (if f c then 1 else 0).
Proof.
  unfold count. rewrite List.filter_app, zlen_app. simpl. by destruct (f c).
Qed.

Lemma registration_beyond sid log : registers log < sid -> registration sid log = None.
Proof.
  revert sid. induction log as [|c log IH]; intros sid Hs; [done|].
  unfold registers in *. rewrite count_cons in Hs. destruct c; cbn [is_reg registration] in *; try (by apply IH).
  pose proof (zlen_nonneg (List.filter is_reg log)). unfold count in *.
  zdecide. apply IH. lia.
Qed.

(** Appending a call after the registration extends the rest. *)
Lemma registration_snoc sid log c :
  registration sid (log ++ [c]) =
  match registration sid log with
  | Some (e, rest) => Some (e, rest ++ [c])
  | None =>
      match c with
      | Register cl up h p now =>
          if sid - registers log =? 1 then Some (mkEntry cl up (mkInfo 0 h p now 0 0), []) else None
      | _ => None
      end
  end.
Proof.
  revert sid. induction log as [|c0 log IH]; intros sid; cbn [app registration].
  - change (registers []) with 0. rewrite Z.sub_0_r. by destruct c.
  - unfold registers in *. rewrite count_cons. destruct c0; cbn [is_reg]; try apply IH.
    destruct (sid =? 1); [done|]. rewrite IH. destruct (registration (sid - 1) log) as [[]|]; [done|].
    destruct c; try done. by replace (sid - 1 - count is_reg log) with (sid - (1 + count is_reg log)) by lia.
Qed.

Lemma spec_session_beyond sid log : registers log < sid -> spec_session log sid = None.
Proof. intros Hs. unfold spec_session. by rewrite registration_beyond. Qed.

Lemma registers_snoc log c : registers (log ++ [c]) = registers log + (if is_reg c then 1 else 0).
Proof. apply count_snoc. Qed.

Lemma run_calls_nextId log : m_nextId (run_calls log) = registers log + 1.
Proof.
  induction log as [|c log IH] using rev_ind; [done|].
  unfold run_calls in *. rewrite fold_left_app, registers_snoc. cbn [fold_left].
  destruct c; cbn; rewrite ?IH; try lia. unfold noteFrame. destruct (qm_get _ _); cbn; lia.
Qed.

Lemma run_calls_sorted log : qm_sorted (m_sessions (run_calls log)).
Proof.
  induction log as [|c log IH] using rev_ind; [done|].
  unfold run_calls in *. rewrite fold_left_app. cbn [fold_left].
  destruct c; cbn; auto with nl. unfold noteFrame. destruct (qm_get _ _); cbn; auto with nl.
Qed.

(** How one more call changes the specification. *)
Lemma spec_session_snoc log c sid :
  1 <= sid -> spec_session (log ++ [c]) sid =
  match c with
  | Register cl up h p now =>
      if sid =? registers log + 1 then Some (mkEntry cl up (mkInfo sid h p now 0 0))
      else spec_session log sid
  | Deregister i => if i =? sid then None else spec_session log sid
  | NoteFrame i fc =>
      if i =? sid then count_frame fc <$> spec_session log sid else spec_session log sid
  | Send _ _ _ _ _ => spec_session log sid
  end.
Proof.
  intros Hs. unfold spec_session at 1. rewrite registration_snoc.
  destruct (registration sid log) as [[e rest]|] eqn:E.
  - assert (Hne : sid <> registers log + 1).
    { intros ->. rewrite registration_beyond in E by lia. done. }
    unfold spec_session. rewrite E, existsb_app, !count_snoc. cbn [existsb].
    destruct (existsb _ rest) eqn:Ex; cbn [orb].
    { destruct c; cbn; zdecides; try done; by case_match. }
    destruct c; cbn; zdecides; rewrite ?Z.add_0_r; try done.
    + by destruct (_ =? _).
    + destruct (_ =? _); cbn; rewrite ?Z.add_0_r; [|done].
      by destruct fromClient; cbn; rewrite ?Z.add_0_r.
  - unfold spec_session. rewrite E. destruct c; cbn; try done.
    + destruct (sid - registers log =? 1) eqn:E1; to_prop; zdecides; [done|done].
    + by case_match.
    + by case_match.
Qed.
End WsRepeater.

Lemma registry_lookup `{QtText} log sid :
  1 <= sid -> qm_get sid (m_sessions (run_calls log)) = spec_session log sid.
Proof.
  intros Hs. induction log as [|c log IH] using rev_ind; [done|].
  rewrite spec_session_snoc by done. pose proof (run_calls_sorted log) as Hsort.
  pose proof (run_calls_nextId log) as Hid. unfold run_calls in *. rewrite fold_left_app. cbn [fold_left].
  destruct c; cbn [run_call].
  - cbn. rewrite Hid. destruct (sid =? registers log + 1) eqn:E; to_prop.
    + subst sid. apply qm_get_insert.
    + by rewrite qm_get_insert_ne.
  - cbn. destruct (sid0 =? sid) eqn:E; to_prop; [subst; by apply qm_get_remove|].
    by rewrite qm_get_remove_ne by (done || lia).
  - unfold noteFrame. destruct (sid0 =? sid) eqn:E; to_prop.
    + subst. rewrite <- IH. destruct (qm_get sid _) as [e|] eqn:Eg; cbn; [by rewrite qm_get_insert|done].
    + destruct (qm_get sid0 _); cbn; [|done]. by rewrite qm_get_insert_ne by lia.
  - done.
Qed.

(** ** A session inside an interleaved log *)

(** The calls that concern session [sid] once it is registered. *)
Definition touches (sid : Z) (c : Call) : bool :=
  match c with Deregister i | NoteFrame i _ => i =? sid | _ => false end.

Lemma existsb_filter {A} (f g : A -> bool) l :
  (forall x, f x = true -> g x = true) -> existsb f (List.filter g l) = existsb f l.
Proof.
  intros H. induction l as [|x l IH]; [done|]. cbn [List.filter existsb].
  destruct (g x) eqn:E; cbn [existsb]; rewrite IH; [done|].
  destruct (f x) eqn:E2; [|done]. apply H in E2. congruence.
Qed.

Lemma count_filter f g log :
  (forall x, f x = true -> g x = true) -> count f (List.filter g log) = count f log.
Proof.
  intros H. induction log as [|x l IH]; [done|]. cbn [List.filter].
  destruct (g x) eqn:E; rewrite ?count_cons, IH; [done|].
  destruct (f x) eqn:E2; [|lia]. apply H in E2. congruence.
Qed.

Lemma registration_here `{QtText} pre cl up h p now post :
  registration (registers pre + 1) (pre ++ Register cl up h p now :: post)
  = Some (mkEntry cl up (mkInfo 0 h p now 0 0), post).
Proof.
  induction pre as [|c pre IH]; [done|]. unfold registers in *. rewrite count_cons.
  pose proof (zlen_nonneg (List.filter is_reg pre)). unfold count in *.
  destruct c; cbn [app registration is_reg]; rewrite ?Z.add_0_l; try apply IH.
  zdecide. rewrite <- IH. f_equal. lia.
Qed.

(** What the registry holds for a session depends on its own calls only, whatever
    other sessions do in between. *)
Lemma session_in_log `{QtText} pre cl up h p now post sid :
  m_nextId (run_calls pre) = sid ->
  qm_get sid (m_sessions (run_calls (pre ++ Register cl up h p now :: post))) =
  let own := List.filter (touches sid) post in
  if existsb (is_dereg sid) own then None
  else Some (mkEntry cl up (mkInfo sid h p now (count (is_note sid true) own) (count (is_note sid false) own))).
Proof.
  rewrite run_calls_nextId. intros <-. cbv zeta.
  pose proof (zlen_nonneg (List.filter is_reg pre)). unfold registers, count in *.
  rewrite registry_lookup by lia. fold (count is_reg pre). fold (registers pre).
  unfold spec_session. rewrite registration_here.
  rewrite existsb_filter by (by intros []).
  fold (count (is_note (registers pre + 1) true) (List.filter (touches (registers pre + 1)) post)).
  fold (count (is_note (registers pre + 1) false) (List.filter (touches (registers pre + 1)) post)).
  rewrite !count_filter; [done|intros [] Hc; simpl in *; split_bools; done..].
Qed.

(** The registry refines its call log: after any sequence of calls, looking up
    a session gives exactly the session of that registration, with the endpoint it was
    registered with and counters equal to the frames noted for it since, if no
    later call deregistered it, and nothing otherwise; ids are never reused. *)
Theorem ws_registry_refines `{QtText} log sid :
  1 <= sid -> qm_get sid (m_sessions (run_calls log)) = spec_session log sid.
Proof. apply registry_lookup. Qed.

Lemma ws_registry_refines_witness :
  let QT := asciiText in
  qm_get 2 (m_sessions (run_calls [Register 10 11 (lit "a") 80 5; Register 12 13 (lit "b") 81 6;
    NoteFrame 2 true; NoteFrame 1 false; NoteFrame 2 true; Deregister 1]))
  = Some (mkEntry 12 13 (mkInfo 2 (lit "b") 81 6 2 0)).
Proof.
  intros QT. refine (eq_trans (ws_registry_refines (H := asciiText) _ 2 _) _); [lia|reflexivity].
Defined.

(** Injection: [sendFrame] succeeds exactly for a live session, and then queues
    for that session one signal whose bytes the frame parser reads back as one
    complete, uncompressed frame with the payload and the low four bits of the opcode,
    masked exactly when it goes to the server. *)
Theorem ws_send_frame_correct `{QtText} log key sid direction op pl :
  1 <= sid -> length key = 4%nat -> zlen pl <= kMaxFramePayload ->
  (forall e, spec_session log sid = Some e ->
     exists data, sendFrame key (run_calls log) sid direction op pl
       = (true, [frameQueued sid data (clientToServer direction)]) /\
     tryParseOne data 0 = Parsed (mkFrame (op mod 16) true false pl) (zlen data) /\
     negb (Z.land (at_ data 1) 128 =? 0) = clientToServer direction) /\
  (spec_session log sid = None -> sendFrame key (run_calls log) sid direction op pl = (false, [])).
Proof.
  intros Hs Hk Hp.
  pose proof (registry_lookup log sid Hs) as Hg. unfold sendFrame, qm_has. rewrite Hg.
  split; [|by intros ->]. intros e ->. cbv iota zeta.
  set (up := clientToServer direction). set (op4 := u8 (Z.land op 15)).
  assert (Hop : op4 = op mod 16).
  { unfold op4. change 15 with (Z.ones 4). rewrite Z.land_ones by lia.
    change (2 ^ 4) with 16. pose proof (Z.mod_pos_bound op 16).
    by rewrite u8_small by lia. }
  exists (buildFrame key op4 pl up). split; [done|]. rewrite <- Hop. split.
  - pose proof (tryParseOne_encode key up (mkFrame op4 true false pl) [] []) as Hr.
    rewrite app_nil_r in Hr. apply Hr; [|done]. split; [|done]. cbn. rewrite Hop.
    apply Z.mod_pos_bound. lia.
  - unfold buildFrame. rewrite wsEncodeFrame_shape. cbn [at_ nth]. unfold len_field.
    pose proof (zlen_nonneg pl). destruct (zlen pl <? 126) eqn:E; [|destruct (_ <=? 65535)];
      to_prop; cbn [app nth at_]; apply enc_b1; lia.
Qed.

Lemma ws_send_frame_correct_witness :
  let QT := asciiText in
  exists data, sendFrame [1; 2; 3; 4] (run_calls [Register 10 11 (lit "a") 80 5]) 1 (lit "UP") 1 (lit "hi")
    = (true, [frameQueued 1 data true]) /\
  tryParseOne data 0 = Parsed (mkFrame 1 true false (lit "hi")) (zlen data) /\
  negb (Z.land (at_ data 1) 128 =? 0) = true.
Proof.
  intros QT.
  refine (proj1 (ws_send_frame_correct (H := asciiText) _ [1; 2; 3; 4] 1 (lit "UP") 1 (lit "hi") _ _ _) _ _).
  - lia.
  - reflexivity.
  - vm_compute. discriminate.
  - reflexivity.
Defined.
