(* ===== verification/WsRelay.v ===== *)
(** * The WebSocket relay: [Connection::runWebSocketRelay] of
      Src/BackEnd/Proxy/proxy_server.cpp

    After a 101 the proxy forwards the bytes of both directions unchanged, and
    beside that parses each direction ([WebSocket.feed]), reassembles and
    inflates its messages ([processFrame]) and reports them as History rows
    ([emitMessage]).  The relay registers itself with the repeater
    ([WsRepeater]) and writes the frames queued for its session.  An execution
    is the list of events the nested event loop dispatches, and why it ended. *)

From S2P Require Import Prelude Qt QtSample QMap Zlib WebSocket HttpFraming WsRepeater.

Local Open Scope Z_scope.

(** ** One message: [emitMessage] *)

(** The arguments of [emitMessage]. *)
Record WsEvent := mkEvent {
  ev_fromClient : bool; ev_opcode : Z; ev_fin : bool; ev_payload : bytes; ev_deflated : bool
}.

(** The synthetic request and response of a History row. *)
Record HistoryRow := mkRow {
  hr_method : qstr; hr_host : qstr; hr_port : Z; hr_path : qstr; hr_reqBody : bytes;
  hr_httpVersion : qstr; hr_statusCode : Z; hr_reasonPhrase : qstr; hr_wasTls : bool;
  hr_respHeaders : list (qstr * qstr); hr_respBody : bytes
}.

Definition emitMessage (host : qstr) (port : Z) (e : WsEvent) : HistoryRow :=
  let label := wsOpcodeLabel (ev_opcode e) in
  let deflate := if ev_deflated e then lit " deflate" else [] in
  let mime := if ev_opcode e =? 1 then lit "text/plain" else lit "application/octet-stream" in
  mkRow (lit "WS" ++ [if ev_fromClient e then 8593 else 8595]) host port
    (lit "(" ++ label ++ deflate ++ lit ", " ++ number 10 (zlen (ev_payload e)) ++ lit " B"
       ++ (if ev_fin e then [] else lit ", continued") ++ lit ")")
    (ev_payload e)
    (lit "WS") 101 (label ++ deflate) true [(lit "Content-Type", mime)] (ev_payload e).

(** ** Reassembly: [WsMsgState] and [processFrame] *)

Record WsMsgState := mkMsg { ms_inMsg : bool; ms_compressed : bool; ms_opcode : Z; ms_buf : bytes }.
Definition newMsg : WsMsgState := mkMsg false false 0 [].

Definition kMaxWsMessageBytes : Z := 64 * 1024 * 1024.

(** [f.opcode & 0x08]. *)
Definition is_control (f : WsFrame) : bool := negb (Z.land (opcode f) 8 =? 0).

(** The frame taken into the message state; [None] is a stray continuation. *)
Definition accumulate (st : WsMsgState) (f : WsFrame) : option WsMsgState :=
  if negb (opcode f =? 0) then Some (mkMsg true (rsv1 f) (opcode f) (payload f))
  else if ms_inMsg st then
    Some (mkMsg true (ms_compressed st) (ms_opcode st) (ms_buf st ++ payload f))
  else None.

Section Relay.
Context `{ZL : Zlib}.

(** The end of [processFrame]: the complete message, inflated when marked. *)
Definition finishMessage (fromClient : bool) (st : WsMsgState) (inf : WsInflater)
    : option (WsEvent * WsInflater) :=
  if ms_compressed st then
    match inflateMessage inf (ms_buf st) with
    | None => None
    | Some (dec, ok, inf') =>
        Some (mkEvent fromClient (ms_opcode st) true (if ok : bool then dec else ms_buf st) ok, inf')
    end
  else Some (mkEvent fromClient (ms_opcode st) true (ms_buf st) false, inf).

Definition processFrame (fromClient : bool) (st : WsMsgState) (inf : WsInflater) (f : WsFrame)
    : option (list WsEvent * WsMsgState * WsInflater) :=
  if is_control f then
    Some ([mkEvent fromClient (opcode f) (fin f) (payload f) false], st, inf)
  else
    match accumulate st f with
    | None => Some ([mkEvent fromClient 0 (fin f) (payload f) false], st, inf)
    | Some st1 =>
        if kMaxWsMessageBytes <? zlen (ms_buf st1) then
          Some ([mkEvent fromClient (ms_opcode st1) false (ms_buf st1) false], newMsg, inf)
        else if negb (fin f) then Some ([], st1, inf)
        else
          match finishMessage fromClient st1 inf with
          | None => None
          | Some (e, inf') => Some ([e], newMsg, inf')
          end
    end.

Fixpoint processFrames (fromClient : bool) (st : WsMsgState) (inf : WsInflater) (fs : list WsFrame)
    : option (list WsEvent * WsMsgState * WsInflater) :=
  match fs with
  | [] => Some ([], st, inf)
  | f :: fs' =>
      match processFrame fromClient st inf f with
      | None => None
      | Some (es, st1, inf1) =>
          match processFrames fromClient st1 inf1 fs' with
          | None => None
          | Some (es', st2, inf2) => Some (es ++ es', st2, inf2)
          end
      end
  end.

(** ** One direction: parser, message state and inflater *)

Record Direction := mkDir { d_parser : WsFrameParser; d_msg : WsMsgState; d_inflater : WsInflater }.
Definition newDirection (inf : WsInflater) : Direction := mkDir initParser newMsg inf.

(** The parsing half of a [readyRead] handler: the messages, the number of
    frames noted, and the new state. *)
Definition onBytes (fromClient : bool) (d : Direction) (chunk : bytes)
    : option (list WsEvent * nat * Direction) :=
  let '(fs, p') := feed (d_parser d) chunk in
  match processFrames fromClient (d_msg d) (d_inflater d) fs with
  | None => None
  | Some (es, st', inf') => Some (es, length fs, mkDir p' st' inf')
  end.

Fixpoint onReads (fromClient : bool) (d : Direction) (chunks : list bytes)
    : option (list WsEvent * nat * Direction) :=
  match chunks with
  | [] => Some ([], 0%nat, d)
  | c :: cs =>
      match onBytes fromClient d c with
      | None => None
      | Some (es, n, d1) =>
          match onReads fromClient d1 cs with
          | None => None
          | Some (es', n', d2) => Some (es ++ es', (n + n')%nat, d2)
          end
      end
  end.

(** ** The relay *)

Inductive RelayEvent :=
| ClientReadyRead (chunk : bytes)
| UpstreamReadyRead (chunk : bytes)
| FrameQueued (sid : Z) (frame : bytes) (toUpstream : bool).

Inductive ExitReason := SocketDisconnected | ShuttingDown.

(** Bytes written to each socket, events reported, calls made on the repeater. *)
Record Relay := mkRelay {
  rl_client : Direction; rl_upstream : Direction;
  rl_toUpstream : bytes; rl_toClient : bytes;
  rl_history : list WsEvent; rl_calls : list Call
}.

Definition relayStep (wsId : Z) (r : Relay) (ev : RelayEvent) : option Relay :=
  match ev with
  | ClientReadyRead b =>
      match onBytes true (rl_client r) b with
      | None => None
      | Some (es, n, d) =>
          Some (mkRelay d (rl_upstream r) (rl_toUpstream r ++ b) (rl_toClient r)
                  (rl_history r ++ es) (rl_calls r ++ replicate n (NoteFrame wsId true)))
      end
  | UpstreamReadyRead b =>
      match onBytes false (rl_upstream r) b with
      | None => None
      | Some (es, n, d) =>
          Some (mkRelay (rl_client r) d (rl_toUpstream r) (rl_toClient r ++ b)
                  (rl_history r ++ es) (rl_calls r ++ replicate n (NoteFrame wsId false)))
      end
  | FrameQueued sid frame toUpstream =>
      if negb (sid =? wsId) then Some r
      else if toUpstream : bool then
        Some (mkRelay (rl_client r) (rl_upstream r) (rl_toUpstream r ++ frame) (rl_toClient r)
                (rl_history r) (rl_calls r))
      else
        Some (mkRelay (rl_client r) (rl_upstream r) (rl_toUpstream r) (rl_toClient r ++ frame)
                (rl_history r) (rl_calls r))
  end.

Fixpoint relayLoop (wsId : Z) (r : Relay) (evs : list RelayEvent) : option Relay :=
  match evs with
  | [] => Some r
  | ev :: evs' =>
      match relayStep wsId r ev with
      | None => None
      | Some r' => relayLoop wsId r' evs'
      end
  end.

(** The state when the loop is entered. *)
Definition startRelay (client upstream : Z) (host : qstr) (port now : Z) : Relay :=
  mkRelay (newDirection newInflater) (newDirection newInflater) [] [] []
    [Register client upstream host port now].

(** [runWebSocketRelay]: [wsId] is what [registerSession] returned; the loop is
    entered only while both sockets are connected and no shutdown began; a
    [disconnected] signal deregisters, and so does the end of the function. *)
Definition runWebSocketRelay (wsId client upstream : Z) (host : qstr) (port now : Z)
    (enter : bool) (evs : list RelayEvent) (exit : ExitReason) : option Relay :=
  let r0 := startRelay client upstream host port now in
  match (if enter then relayLoop wsId r0 evs else Some r0) with
  | None => None
  | Some r =>
      let signalled :=
        match enter, exit with true, SocketDisconnected => [Deregister wsId] | _, _ => [] end in
      Some (mkRelay (rl_client r) (rl_upstream r) (rl_toUpstream r) (rl_toClient r)
              (rl_history r) (rl_calls r ++ signalled ++ [Deregister wsId]))
  end.
End Relay.

(** ** Totality and composition *)

Section RelayLemmas.
Context `{ZL : Zlib} `{!ZlibLaws ZL}.

Lemma finishMessage_total fc st inf :
  exists e inf', finishMessage fc st inf = Some (e, inf') /\
    zlen (ev_payload e) <= Z.max (zlen (ms_buf st)) kMaxInflatedMessage.
Proof.
  unfold finishMessage. destruct (ms_compressed st); [|do 2 eexists; split; [done|]; simpl; lia].
  destruct (inflateMessage_total inf (ms_buf st)) as (out & ok & inf' & -> & _ & Hok & _).
  do 2 eexists. split; [done|]. simpl. destruct ok; [destruct (Hok eq_refl)|]; lia.
Qed.

Lemma processFrame_total fc st inf f : exists r, processFrame fc st inf f = Some r.
Proof.
  unfold processFrame. destruct (is_control f); [eauto|]. destruct (accumulate st f); [|eauto].
  destruct (finishMessage_total fc w inf) as (e & inf' & -> & _). repeat case_match; eauto.
Qed.

Lemma processFrames_total fc st inf fs : exists r, processFrames fc st inf fs = Some r.
Proof.
  revert st inf. induction fs as [|f fs IH]; intros st inf; cbn [processFrames]; [eauto|].
  destruct (processFrame_total fc st inf f) as [[[es st1] inf1] ->].
  destruct (IH st1 inf1) as [[[es' st2] inf2] ->]. eauto.
Qed.

Lemma processFrames_app fc st inf fs gs :
  processFrames fc st inf (fs ++ gs) =
  match processFrames fc st inf fs with
  | None => None
  | Some (es, st1, inf1) =>
      match processFrames fc st1 inf1 gs with
      | None => None
      | Some (es', st2, inf2) => Some (es ++ es', st2, inf2)
      end
  end.
Proof.
  revert st inf. induction fs as [|f fs IH]; intros st inf; cbn [processFrames app].
  - by destruct (processFrames fc st inf gs) as [[[]]|].
  - destruct (processFrame fc st inf f) as [[[es st1] inf1]|]; [|done]. rewrite IH.
    destruct (processFrames fc st1 inf1 fs) as [[[es' st2] inf2]|]; [|done].
    destruct (processFrames fc st2 inf2 gs) as [[[es'' st3] inf3]|]; [|done].
    by rewrite <- app_assoc.
Qed.

(** The reads of a direction: the parser over the reads, then [processFrame]
    over the frames it delivers. *)
Lemma onReads_frames fc d chunks :
  onReads fc d chunks =
  match processFrames fc (d_msg d) (d_inflater d) (fst (feed_all (d_parser d) chunks)) with
  | None => None
  | Some (es, st', inf') =>
      Some (es, length (fst (feed_all (d_parser d) chunks)),
            mkDir (snd (feed_all (d_parser d) chunks)) st' inf')
  end.
Proof.
  revert d. induction chunks as [|c cs IH]; intros [p st inf]; [done|].
  cbn [onReads feed_all]. unfold onBytes. cbn [d_parser d_msg d_inflater].
  destruct (feed p c) as [fs p1]. destruct (feed_all p1 cs) as [gs p2] eqn:E. cbn [fst snd].
  rewrite processFrames_app. destruct (processFrames fc st inf fs) as [[[es st1] inf1]|]; [|done].
  rewrite IH. cbn [d_parser d_msg d_inflater]. rewrite E. cbn [fst snd].
  destruct (processFrames fc st1 inf1 gs) as [[[es' st2] inf2]|]; [|done].
  by rewrite length_app.
Qed.

Lemma onBytes_total fc d c : exists r, onBytes fc d c = Some r.
Proof.
  unfold onBytes. destruct (feed (d_parser d) c) as [fs p].
  destruct (processFrames_total fc (d_msg d) (d_inflater d) fs) as [[[es st] inf] ->]. eauto.
Qed.

Lemma relayStep_total wsId r ev : exists r', relayStep wsId r ev = Some r'.
Proof.
  destruct ev as [b|b|sid fr up]; cbn [relayStep].
  - destruct (onBytes_total true (rl_client r) b) as [[[es n] d] ->]. eauto.
  - destruct (onBytes_total false (rl_upstream r) b) as [[[es n] d] ->]. eauto.
  - repeat case_match; eauto.
Qed.

Lemma relayLoop_total wsId r evs : exists r', relayLoop wsId r evs = Some r'.
Proof.
  revert r. induction evs as [|ev evs IH]; intros r; cbn [relayLoop]; [eauto|].
  by destruct (relayStep_total wsId r ev) as [r' ->].
Qed.
End RelayLemmas.

(** ** What the History shows, as a specification

    A peer sends control frames and messages; a message is its fragments, with
    control frames between them. *)

Inductive WsItem :=
| Control (f : WsFrame)
| Message (op : Z) (compressed : bool) (first : bytes) (more : list (list WsFrame * bytes)).

Fixpoint continuations (more : list (list WsFrame * bytes)) : list WsFrame :=
  match more with
  | [] => []
  | (cs, p) :: more' => cs ++ mkFrame 0 (is_nil more') false p :: continuations more'
  end.

Definition item_frames (i : WsItem) : list WsFrame :=
  match i with
  | Control f => [f]
  | Message op c first more => mkFrame op (is_nil more) c first :: continuations more
  end.

Definition whole (first : bytes) (more : list (list WsFrame * bytes)) : bytes :=
  first ++ concat (map snd more).

Definition control_event (fc : bool) (f : WsFrame) : WsEvent :=
  mkEvent fc (opcode f) (fin f) (payload f) false.

Definition item_ok (i : WsItem) : Prop :=
  match i with
  | Control f => is_control f = true
  | Message op c first more =>
      Z.land op 8 = 0 /\ op <> 0 /\ zlen (whole first more) <= kMaxWsMessageBytes /\
      Forall (fun m => Forall (fun f => is_control f = true) (fst m)) more
  end.

(** What the History is to show of an item, by what the peer's compressor did: one row per
    control frame as it comes, and one per message, behind the control frames among its
    fragments.  [st] is the state of the peer's stream, nothing once it is lost.  A
    compressed message, with the tail RFC 7692 strips, is a flush of that stream and is
    shown as what it carries; if that is larger than the cap, or the data is corrupt, it
    is shown as it came, and so are the compressed ones behind it. *)
Section Shown.
Context `{ZL : Zlib} `{!ZlibStream ZL}.
Definition message_events (fc : bool) (op : Z) (more : list (list WsFrame * bytes)) (body : bytes) (inflated : bool) : list WsEvent :=
  map (control_event fc) (concat (map fst more)) ++ [mkEvent fc op true body inflated].
Inductive shown (fc : bool) : option zstream -> WsItem -> list WsEvent -> option zstream -> Prop :=
| shown_control st f : shown fc st (Control f) [control_event fc f] st
| shown_plain st op first more : shown fc st (Message op false first more) (message_events fc op more (whole first more) false) st
| shown_inflated zs zs' op first more body :
    carries zs (whole first more ++ [0; 0; 255; 255]) body zs' -> zlen body <= kMaxInflatedMessage ->
    shown fc (Some zs) (Message op true first more) (message_events fc op more body true) (Some zs')
| shown_too_large zs zs' op first more body :
    carries zs (whole first more ++ [0; 0; 255; 255]) body zs' -> kMaxInflatedMessage < zlen body ->
    shown fc (Some zs) (Message op true first more) (message_events fc op more (whole first more) false) None
| shown_corrupt zs op first more :
    refuses zs (whole first more ++ [0; 0; 255; 255]) ->
    shown fc (Some zs) (Message op true first more) (message_events fc op more (whole first more) false) None
| shown_lost op first more : shown fc None (Message op true first more) (message_events fc op more (whole first more) false) None.
Inductive shown_all (fc : bool) : option zstream -> list WsItem -> list WsEvent -> option zstream -> Prop :=
| shown_nil st : shown_all fc st [] [] st
| shown_cons st i es st1 items es' st' : shown fc st i es st1 -> shown_all fc st1 items es' st' -> shown_all fc st (i :: items) (es ++ es') st'.
End Shown.

Section History.
Context `{ZL : Zlib} `{!ZlibLaws ZL} `{!ZlibStream ZL}.

Lemma processFrames_controls fc st inf cs :
  Forall (fun f => is_control f = true) cs ->
  processFrames fc st inf cs = Some (map (control_event fc) cs, st, inf).
Proof.
  induction 1 as [|f cs Hf _ IH]; [done|]. cbn [processFrames map].
  unfold processFrame. by rewrite Hf, IH.
Qed.

Lemma processFrame_data fc st inf f st1 :
  is_control f = false -> accumulate st f = Some st1 -> zlen (ms_buf st1) <= kMaxWsMessageBytes ->
  processFrame fc st inf f =
  (if fin f then
     match finishMessage fc st1 inf with
     | None => None
     | Some (e, inf') => Some ([e], newMsg, inf')
     end
   else Some ([], st1, inf)).
Proof. intros Hc Ha Hl. unfold processFrame. rewrite Hc, Ha. zdecide. by destruct (fin f). Qed.

(** From inside a message, its continuations complete it. *)
Lemma processFrames_continuations fc c op buf inf more :
  more <> [] ->
  zlen (buf ++ concat (map snd more)) <= kMaxWsMessageBytes ->
  Forall (fun m => Forall (fun f => is_control f = true) (fst m)) more ->
  processFrames fc (mkMsg true c op buf) inf (continuations more) =
  match finishMessage fc (mkMsg true c op (buf ++ concat (map snd more))) inf with
  | None => None
  | Some (e, inf') => Some (map (control_event fc) (concat (map fst more)) ++ [e], newMsg, inf')
  end.
Proof.
  intros Hne Hlen Hcs. revert buf Hlen. induction Hcs as [|[cs p] more Hc Hcs IH]; intros buf Hlen; [done|].
  cbn [continuations map snd fst concat] in *. rewrite processFrames_app, processFrames_controls by done.
  rewrite app_assoc in Hlen. pose proof (zlen_nonneg (concat (map snd more))).
  pose proof Hlen as Hlen'. rewrite zlen_app in Hlen'.
  cbn [processFrames]. rewrite (processFrame_data _ _ _ _ (mkMsg true c op (buf ++ p))) by (done || (simpl; lia)).
  cbn [fin].
  destruct more as [|m more]; cbn [is_nil].
  - cbn [map concat]. rewrite !app_nil_r. by destruct (finishMessage _ _ _) as [[e inf']|].
  - rewrite IH by done. rewrite <- app_assoc.
    destruct (finishMessage _ _ _) as [[e inf']|]; [|done]. by rewrite map_app, <- app_assoc.
Qed.

(** A message from the state the parser is in between messages. *)
Lemma processFrames_message fc inf op c first more : item_ok (Message op c first more) ->
  processFrames fc newMsg inf (item_frames (Message op c first more)) =
  match finishMessage fc (mkMsg true c op (whole first more)) inf with
  | None => None
  | Some (e, inf') => Some (map (control_event fc) (concat (map fst more)) ++ [e], newMsg, inf')
  end.
Proof.
  intros (Hop & Hne & Hlen & Hcs). cbn [item_frames processFrames].
  pose proof Hlen as Hl. unfold whole in *. rewrite zlen_app in Hl.
  pose proof (zlen_nonneg (concat (map snd more))).
  rewrite (processFrame_data _ _ _ _ (mkMsg true c op first)); cbn [ms_buf fin].
  - destruct more as [|m more]; cbn [is_nil].
    + cbn [map concat continuations processFrames]. rewrite app_nil_r.
      by destruct (finishMessage _ _ _) as [[e inf']|].
    + rewrite processFrames_continuations by done.
      by destruct (finishMessage _ _ _) as [[e inf']|].
  - unfold is_control; cbn [opcode]. by rewrite Hop.
  - unfold accumulate; cbn [opcode]. by zdecide.
  - lia.
Qed.

Lemma processFrames_shown fc inf st i es st' : item_ok i -> in_state inf st -> shown fc st i es st' ->
  exists inf', in_state inf' st' /\ processFrames fc newMsg inf (item_frames i) = Some (es, newMsg, inf').
Proof.
  intros Hi Hst Hs. destruct Hs as [st f|st op first more|zs zs' op first more body Hc Hb|zs zs' op first more body Hc Hb|zs op first more Hr|op first more].
  { exists inf. split; [done|]. cbn. unfold processFrame. cbn in Hi. by rewrite Hi. }
  all: rewrite processFrames_message by done; unfold finishMessage; cbn [ms_compressed ms_opcode ms_buf].
  - by exists inf.
  - cbn in Hst. subst inf. apply inflateMessage_carries in Hc. rewrite (proj2 (Z.leb_le _ _) Hb) in Hc. rewrite Hc. by eexists.
  - cbn in Hst. subst inf. apply inflateMessage_carries in Hc. rewrite (proj2 (Z.leb_gt _ _) Hb) in Hc. destruct Hc as (o & i & -> & ?). by exists i.
  - cbn in Hst. subst inf. apply inflateMessage_refuses in Hr as (o & i & -> & ?). by exists i.
  - rewrite inflateMessage_unhealthy by done. by exists inf.
Qed.

Lemma processFrames_shown_all fc items : Forall item_ok items -> forall inf st es st', in_state inf st -> shown_all fc st items es st' ->
  exists inf', in_state inf' st' /\ processFrames fc newMsg inf (flat_map item_frames items) = Some (es, newMsg, inf').
Proof.
  induction 1 as [|i items Hi _ IH]; intros inf st es st' Hst Hs; inversion Hs; subst; [by exists inf|].
  cbn [flat_map]. rewrite processFrames_app.
  match goal with H1 : shown _ _ _ _ _, H2 : shown_all _ _ _ _ _ |- _ => destruct (processFrames_shown _ _ _ _ _ _ Hi Hst H1) as (inf1 & Hi1 & ->);
    destruct (IH _ _ _ _ Hi1 H2) as (inf2 & Hi2 & ->) end. by exists inf2.
Qed.

(** C27. The History is complete and in order: when a peer sends any sequence of control
    frames and messages of at most 64 MiB, fragmented as it likes with control frames
    between the fragments, in frames the parser takes, masked with any keys, and the
    relay reads them in pieces of at most 16 MiB less 14 bytes, then the direction returns
    and reports one row per control frame and one per message with its whole payload: as
    sent, or, of a compressed message, exactly what the peer's stream carries in it, while
    the stream is intact and that is at most 64 MiB; otherwise it and the compressed
    messages behind it are shown as they came, without the mark.  Every frame is counted
    once and nothing is left pending.  (Frames that came with the answer of the upgrade are
    not read by the relay: [upgrade_leftover_not_parsed].) *)
Theorem ws_history_complete fc inf st items events st' sent chunks :
  Forall item_ok items -> in_state inf st -> shown_all fc st items events st' ->
  Forall sent_ok sent -> map sent_frame sent = flat_map item_frames items ->
  Forall small_chunk chunks -> concat chunks = concat (map sent_bytes sent) ->
  exists inf', in_state inf' st' /\
    onReads fc (newDirection inf) chunks = Some (events, length (flat_map item_frames items), mkDir initParser newMsg inf').
Proof.
  intros Hi Hst Hsh Hs Hf Hc He. destruct (processFrames_shown_all fc items Hi inf st events st' Hst Hsh) as (inf' & Hst' & Hev).
  exists inf'. split; [done|]. rewrite onReads_frames. cbn [newDirection d_parser d_msg d_inflater].
  pose proof (small_chunks_wf _ Hc) as Hw. rewrite He in Hw.
  rewrite feed_all_scan by (done || apply parser_inv_init). rewrite He. cbn [app m_buf initParser].
  unfold scan_result. rewrite scan_sent by done. rewrite drop_all. cbn [fst snd]. by rewrite Hf, Hev.
Qed.
End History.

(** ** What the relay writes, and what it reads *)

Definition clientReads (evs : list RelayEvent) : list bytes :=
  omap (fun ev => match ev with ClientReadyRead b => Some b | _ => None end) evs.
Definition upstreamReads (evs : list RelayEvent) : list bytes :=
  omap (fun ev => match ev with UpstreamReadyRead b => Some b | _ => None end) evs.

(** The bytes each socket must receive: the other side's, unchanged, with the
    frames queued for this session between them, in the order dispatched. *)
Definition toUpstreamOf (wsId : Z) (evs : list RelayEvent) : bytes :=
  flat_map (fun ev => match ev with
                      | ClientReadyRead b => b
                      | FrameQueued sid f true => if sid =? wsId then f else []
                      | _ => []
                      end) evs.
Definition toClientOf (wsId : Z) (evs : list RelayEvent) : bytes :=
  flat_map (fun ev => match ev with
                      | UpstreamReadyRead b => b
                      | FrameQueued sid f false => if sid =? wsId then f else []
                      | _ => []
                      end) evs.

Definition from (fc : bool) (l : list WsEvent) : list WsEvent :=
  List.filter (fun e => Bool.eqb (ev_fromClient e) fc) l.

#[local] Arguments from : simpl never.
#[local] Arguments count : simpl never.

Section RelaySpec.
Context `{ZL : Zlib} `{!ZlibLaws ZL}.

Lemma processFrame_from fc st inf f es st' inf' :
  processFrame fc st inf f = Some (es, st', inf') -> Forall (fun e => ev_fromClient e = fc) es.
Proof.
  unfold processFrame, finishMessage. intros H. repeat case_match; simplify_eq; by repeat constructor.
Qed.

Lemma processFrames_from fc st inf fs es st' inf' :
  processFrames fc st inf fs = Some (es, st', inf') -> Forall (fun e => ev_fromClient e = fc) es.
Proof.
  revert st inf es. induction fs as [|f fs IH]; intros st inf es H; cbn [processFrames] in H; simplify_eq; [done|].
  destruct (processFrame fc st inf f) as [[[es1 st1] inf1]|] eqn:E; [|done].
  destruct (processFrames fc st1 inf1 fs) as [[[es2 st2] inf2]|] eqn:E2; simplify_eq.
  apply Forall_app. eauto using processFrame_from.
Qed.

Lemma onBytes_from fc d c es n d' :
  onBytes fc d c = Some (es, n, d') -> Forall (fun e => ev_fromClient e = fc) es.
Proof.
  unfold onBytes. destruct (feed _ _) as [fs p]. intros H.
  destruct (processFrames _ _ _ _) as [[[]]|] eqn:E; simplify_eq. by eapply processFrames_from.
Qed.

Lemma from_all fc es : Forall (fun e => ev_fromClient e = fc) es -> from fc es = es /\ from (negb fc) es = [].
Proof.
  induction 1 as [|e es He _ [IH1 IH2]]; [done|]. unfold from in *. cbn [List.filter].
  rewrite He, IH1, IH2. by destruct fc.
Qed.

(** The state of a relay after [evs], in terms of each direction on its own. *)
Record runs_to (wsId : Z) (r : Relay) (evs : list RelayEvent) (r' : Relay) : Prop := mkRunsTo {
  rt_toUpstream : rl_toUpstream r' = rl_toUpstream r ++ toUpstreamOf wsId evs;
  rt_toClient : rl_toClient r' = rl_toClient r ++ toClientOf wsId evs;
  rt_up : exists es n, onReads true (rl_client r) (clientReads evs) = Some (es, n, rl_client r') /\
    from true (rl_history r') = from true (rl_history r) ++ es /\
    count (is_note wsId true) (rl_calls r') = count (is_note wsId true) (rl_calls r) + Z.of_nat n;
  rt_down : exists es n, onReads false (rl_upstream r) (upstreamReads evs) = Some (es, n, rl_upstream r') /\
    from false (rl_history r') = from false (rl_history r) ++ es /\
    count (is_note wsId false) (rl_calls r') = count (is_note wsId false) (rl_calls r) + Z.of_nat n;
  rt_calls : exists notes, rl_calls r' = rl_calls r ++ notes /\ Forall (fun c => exists fc, c = NoteFrame wsId fc) notes
}.

Lemma count_replicate wsId fc fc' n :
  count (is_note wsId fc) (replicate n (NoteFrame wsId fc')) = if Bool.eqb fc fc' then Z.of_nat n else 0.
Proof.
  induction n as [|n IH]; cbn [replicate]; [by destruct (Bool.eqb _ _)|]. rewrite count_cons, IH.
  unfold is_note. rewrite Z.eqb_refl. destruct fc, fc'; cbn; lia.
Qed.

Lemma count_app f l1 l2 : count f (l1 ++ l2) = count f l1 + count f l2.
Proof. unfold count. by rewrite List.filter_app, zlen_app. Qed.

Lemma from_app fc l1 l2 : from fc (l1 ++ l2) = from fc l1 ++ from fc l2.
Proof. apply List.filter_app. Qed.

Lemma Forall_notes wsId fc n : Forall (fun c => exists fc, c = NoteFrame wsId fc) (replicate n (NoteFrame wsId fc)).
Proof. apply Forall_replicate. by exists fc. Qed.

Lemma relayStep_runs wsId r ev r' : relayStep wsId r ev = Some r' -> runs_to wsId r [ev] r'.
Proof.
  destruct ev as [b|b|sid fr up]; cbn [relayStep]; intros H.
  - destruct (onBytes true (rl_client r) b) as [[[es n] d]|] eqn:E; simplify_eq.
    destruct (from_all true es (onBytes_from _ _ _ _ _ _ E)) as [F1 F2].
    split; cbn; rewrite ?app_nil_r, ?from_app, ?count_app, ?count_replicate; [done|done| | |].
    + exists es, n. rewrite E, app_nil_r, F1, Nat.add_0_r. done.
    + exists [], 0%nat. simpl in F2. rewrite F2, app_nil_r. done.
    + eexists. split; [done|]. apply Forall_notes.
  - destruct (onBytes false (rl_upstream r) b) as [[[es n] d]|] eqn:E; simplify_eq.
    destruct (from_all false es (onBytes_from _ _ _ _ _ _ E)) as [F1 F2].
    split; cbn; rewrite ?app_nil_r, ?from_app, ?count_app, ?count_replicate; [done|done| | |].
    + exists [], 0%nat. simpl in F2. rewrite F2, app_nil_r. done.
    + exists es, n. rewrite E, app_nil_r, F1, Nat.add_0_r. done.
    + eexists. split; [done|]. apply Forall_notes.
  - assert (Hsame : forall r1 : Relay, rl_client r1 = rl_client r -> rl_upstream r1 = rl_upstream r ->
      rl_history r1 = rl_history r -> rl_calls r1 = rl_calls r ->
      rl_toUpstream r1 = rl_toUpstream r ++ toUpstreamOf wsId [FrameQueued sid fr up] ->
      rl_toClient r1 = rl_toClient r ++ toClientOf wsId [FrameQueued sid fr up] ->
      runs_to wsId r [FrameQueued sid fr up] r1).
    { intros r1 Hcl Hup Hh Hc Hu Hd. split; [done|done| | |exists []; by rewrite app_nil_r].
      - exists [], 0%nat. cbn. rewrite ?Hcl, ?Hup, Hh, Hc, app_nil_r, Z.add_0_r. done.
      - exists [], 0%nat. cbn. rewrite ?Hcl, ?Hup, Hh, Hc, app_nil_r, Z.add_0_r. done. }
    destruct (sid =? wsId) eqn:E, up; cbn [negb] in H; simplify_eq; apply Hsame; try done;
      cbn; rewrite ?E; by rewrite ?app_nil_r.
Qed.

Lemma onReads_app fc d cs1 cs2 :
  onReads fc d (cs1 ++ cs2) =
  match onReads fc d cs1 with
  | None => None
  | Some (es, n, d1) =>
      match onReads fc d1 cs2 with
      | None => None
      | Some (es', n', d2) => Some (es ++ es', (n + n')%nat, d2)
      end
  end.
Proof.
  revert d. induction cs1 as [|c cs1 IH]; intros d; cbn [app onReads].
  - by destruct (onReads fc d cs2) as [[[]]|].
  - destruct (onBytes fc d c) as [[[es n] d1]|]; [|done]. rewrite IH.
    destruct (onReads fc d1 cs1) as [[[es' n'] d2]|]; [|done].
    destruct (onReads fc d2 cs2) as [[[es'' n''] d3]|]; [|done].
    by rewrite <- app_assoc, Nat.add_assoc.
Qed.

Lemma runs_to_trans wsId r evs r1 evs' r2 :
  runs_to wsId r evs r1 -> runs_to wsId r1 evs' r2 -> runs_to wsId r (evs ++ evs') r2.
Proof.
  intros [U1 C1 (es1 & n1 & R1 & H1 & K1) (ed1 & m1 & S1 & J1 & L1) (l1 & N1 & A1)]
         [U2 C2 (es2 & n2 & R2 & H2 & K2) (ed2 & m2 & S2 & J2 & L2) (l2 & N2 & A2)].
  unfold clientReads, upstreamReads in *. split.
  - unfold toUpstreamOf in *. by rewrite flat_map_app, U2, U1, app_assoc.
  - unfold toClientOf in *. by rewrite flat_map_app, C2, C1, app_assoc.
  - exists (es1 ++ es2), (n1 + n2)%nat. unfold clientReads. rewrite omap_app, onReads_app, R1, R2, H2, H1, K2, K1.
    split; [done|]. rewrite app_assoc. split; [done|lia].
  - exists (ed1 ++ ed2), (m1 + m2)%nat. unfold upstreamReads. rewrite omap_app, onReads_app, S1, S2, J2, J1, L2, L1.
    split; [done|]. rewrite app_assoc. split; [done|lia].
  - exists (l1 ++ l2). rewrite N2, N1, app_assoc. split; [done|]. by apply Forall_app.
Qed.

Lemma runs_to_nil wsId r : runs_to wsId r [] r.
Proof.
  split; cbn; rewrite ?app_nil_r; [done|done| | |exists []; by rewrite app_nil_r].
  - exists [], 0%nat. rewrite app_nil_r, Z.add_0_r. done.
  - exists [], 0%nat. rewrite app_nil_r, Z.add_0_r. done.
Qed.

Lemma relayLoop_runs wsId r evs : exists r', relayLoop wsId r evs = Some r' /\ runs_to wsId r evs r'.
Proof.
  revert r. induction evs as [|ev evs IH]; intros r; cbn [relayLoop]; [eauto using runs_to_nil|].
  destruct (relayStep_total wsId r ev) as [r1 E]. rewrite E.
  destruct (IH r1) as (r2 & -> & H2). exists r2. split; [done|].
  apply (runs_to_trans _ _ [ev] r1); [by apply relayStep_runs|done].
Qed.
End RelaySpec.

(** ** Memory *)

Section Memory.
Context `{ZL : Zlib} `{!ZlibLaws ZL}.

Definition kMaxEventBytes : Z := kMaxWsMessageBytes + kMaxFramePayload.

Definition event_small (e : WsEvent) : Prop := zlen (ev_payload e) <= kMaxEventBytes.

Lemma accumulate_size st f st1 :
  zlen (ms_buf st) <= kMaxWsMessageBytes -> frame_small f -> accumulate st f = Some st1 ->
  zlen (ms_buf st1) <= kMaxEventBytes.
Proof.
  unfold accumulate, frame_small, kMaxEventBytes. intros Hs Hf H.
  pose proof (zlen_nonneg (ms_buf st)). assert (0 <= kMaxWsMessageBytes) by done.
  repeat case_match; simplify_eq; cbn [ms_buf]; rewrite ?zlen_app; lia.
Qed.

Lemma processFrame_bounded fc st inf f es st' inf' :
  zlen (ms_buf st) <= kMaxWsMessageBytes -> frame_small f ->
  processFrame fc st inf f = Some (es, st', inf') ->
  zlen (ms_buf st') <= kMaxWsMessageBytes /\ Forall event_small es.
Proof.
  unfold processFrame. intros Hs Hf H.
  assert (Hfe : zlen (payload f) <= kMaxEventBytes)
    by (unfold frame_small, kMaxEventBytes, kMaxWsMessageBytes in *; lia).
  destruct (is_control f); [simplify_eq; by repeat constructor|].
  destruct (accumulate st f) as [st1|] eqn:Ea; [|simplify_eq; by repeat constructor].
  pose proof (accumulate_size _ _ _ Hs Hf Ea) as Hb.
  destruct (kMaxWsMessageBytes <? zlen (ms_buf st1)) eqn:Ec; to_prop; [simplify_eq; by repeat constructor|].
  destruct (negb (fin f)); [simplify_eq; by repeat constructor|].
  destruct (finishMessage_total fc st1 inf) as (e & inf1 & Ee & Hl). rewrite Ee in H. simplify_eq.
  split; [done|]. repeat constructor. unfold event_small.
  etrans; [exact Hl|]. apply Z.max_lub; [done|]. done.
Qed.

Lemma processFrames_bounded fc st inf fs es st' inf' :
  zlen (ms_buf st) <= kMaxWsMessageBytes -> Forall frame_small fs ->
  processFrames fc st inf fs = Some (es, st', inf') ->
  zlen (ms_buf st') <= kMaxWsMessageBytes /\ Forall event_small es.
Proof.
  intros Hs Hf. revert st inf es Hs. induction Hf as [|f fs Hf _ IH]; intros st inf es Hs H;
    cbn [processFrames] in H; [by simplify_eq|].
  destruct (processFrame fc st inf f) as [[[es1 st1] inf1]|] eqn:E; [|done].
  destruct (processFrames fc st1 inf1 fs) as [[[es2 st2] inf2]|] eqn:E2; simplify_eq.
  destruct (processFrame_bounded _ _ _ _ _ _ _ Hs Hf E) as [H1 H2].
  destruct (IH _ _ _ H1 E2) as [H3 H4]. split; [done|]. by apply Forall_app.
Qed.
End Memory.

(** Memory against a hostile peer: whatever bytes a direction reads, in reads of
    any size, it returns, holds less than one maximal frame unparsed and at most
    64 MiB of an unfinished message, and no row it reports exceeds 80 MiB. *)
Theorem ws_relay_bounded `{ZL : Zlib} `{!ZlibLaws ZL} fc inf chunks :
  Forall wf_bytes chunks ->
  exists es n d, onReads fc (newDirection inf) chunks = Some (es, n, d) /\
    bufferedBytes (d_parser d) < kMaxFramePayload + 14 /\
    zlen (ms_buf (d_msg d)) <= kMaxWsMessageBytes /\
    Forall (fun e => zlen (ev_payload e) <= 80 * 1024 * 1024) es.
Proof.
  intros Hc. rewrite onReads_frames. cbn [newDirection d_msg d_inflater d_parser].
  set (r := feed_all initParser chunks).
  destruct (processFrames_total fc newMsg inf (fst r)) as [[[es st] inf'] E]. rewrite E.
  exists es, (length (fst r)), (mkDir (snd r) st inf'). split; [done|].
  split; [apply parser_inv_size, feed_all_inv; [apply parser_inv_init|done]|].
  apply (processFrames_bounded fc newMsg inf (fst r) es st inf'); [done| |done].
  apply feed_all_frames; [apply parser_inv_init|done].
Qed.

Lemma ws_relay_bounded_witness :
  exists es n d, onReads (ZL := storedZlib) true (newDirection (newInflater (ZL := storedZlib)))
      [[129; 2; 97]; [98; 1; 0; 9; 0]] = Some (es, n, d) /\
    Forall (fun e => zlen (ev_payload e) <= 80 * 1024 * 1024) es.
Proof.
  destruct (ws_relay_bounded (ZL := storedZlib) true newInflater [[129; 2; 97]; [98; 1; 0; 9; 0]])
    as (es & n & d & H & _ & _ & Hl).
  - repeat constructor; discriminate || reflexivity.
  - exists es, n, d. exact (conj H Hl).
Defined.

(** The relay is transparent: it always returns, each socket receives exactly the
    bytes read from the other one with the frames queued for this session between
    them in dispatch order, whatever the parser, the inflater and the History make of
    those bytes; and the rows of each direction are those of its own reads, the two
    directions never disturbing each other. *)
Theorem ws_relay_transparent `{ZL : Zlib} `{!ZlibLaws ZL} wsId client upstream host port now evs exit :
  exists r up n_up down n_down,
    runWebSocketRelay wsId client upstream host port now true evs exit = Some r /\
    rl_toUpstream r = toUpstreamOf wsId evs /\ rl_toClient r = toClientOf wsId evs /\
    onReads true (newDirection newInflater) (clientReads evs) = Some (up, n_up, rl_client r) /\
    onReads false (newDirection newInflater) (upstreamReads evs) = Some (down, n_down, rl_upstream r) /\
    from true (rl_history r) = up /\ from false (rl_history r) = down.
Proof.
  destruct (relayLoop_runs wsId (startRelay client upstream host port now) evs) as (r & E & H).
  destruct H as [HU HC (es & n & Hr & Hh & _) (ed & m & Hs & Hj & _) _].
  unfold runWebSocketRelay. rewrite E. eexists _, es, n, ed, m. by repeat split.
Qed.

Lemma ws_relay_transparent_witness :
  let f := wsEncodeFrame [1; 2; 3; 4] 1 true false (lit "ab") true in
  exists r, runWebSocketRelay (ZL := storedZlib) 7 1 2 (lit "h") 443 0 true
      [ClientReadyRead (take 3 f); FrameQueued 8 (lit "x") true; ClientReadyRead (drop 3 f);
       UpstreamReadyRead (lit "y"); FrameQueued 7 (lit "z") false] ShuttingDown = Some r /\
    rl_toUpstream r = f /\ rl_toClient r = lit "yz".
Proof.
  intros f.
  destruct (ws_relay_transparent (ZL := storedZlib) 7 1 2 (lit "h") 443 0
      [ClientReadyRead (take 3 f); FrameQueued 8 (lit "x") true; ClientReadyRead (drop 3 f);
       UpstreamReadyRead (lit "y"); FrameQueued 7 (lit "z") false] ShuttingDown)
    as (r & up & nu & down & nd & H & HU & HC & _).
  exists r. split; [exact H|]. rewrite HU, HC. split; reflexivity.
Defined.

(** The session list tells the truth about a relay, whatever other tunnels do to
    the registry in between: while it runs its entry has its endpoint and counts the
    frames parsed so far in each direction, and once the function has returned, by
    any path, the entry is gone. *)
Theorem ws_relay_lifecycle `{ZL : Zlib} `{!ZlibLaws ZL} `{QtText} pre wsId client upstream host port now :
  m_nextId (run_calls pre) = wsId ->
  (forall evs r post, relayLoop wsId (startRelay client upstream host port now) evs = Some r ->
     List.filter (touches wsId) post = tail (rl_calls r) ->
     exists up n_up down n_down,
       onReads true (newDirection newInflater) (clientReads evs) = Some (up, n_up, rl_client r) /\
       onReads false (newDirection newInflater) (upstreamReads evs) = Some (down, n_down, rl_upstream r) /\
       qm_get wsId (m_sessions (run_calls (pre ++ Register client upstream host port now :: post)))
       = Some (mkEntry client upstream (mkInfo wsId host port now (Z.of_nat n_up) (Z.of_nat n_down)))) /\
  (forall enter evs exit r post, runWebSocketRelay wsId client upstream host port now enter evs exit = Some r ->
     List.filter (touches wsId) post = tail (rl_calls r) ->
     qm_get wsId (m_sessions (run_calls (pre ++ Register client upstream host port now :: post))) = None).
Proof.
  intros Hid. split.
  - intros evs r post Hr Hp. destruct (relayLoop_runs wsId (startRelay client upstream host port now) evs) as (r1 & E & H1).
    simplify_eq. destruct H1 as [_ _ (es & n & Hu & _ & Ku) (ed & m & Hd & _ & Kd) (notes & Hn & Hall)].
    exists es, n, ed, m. split; [done|]. split; [done|].
    rewrite session_in_log, Hp by done. rewrite Hn in *. cbn [startRelay rl_calls app tail] in *.
    rewrite !count_cons in Ku, Kd. cbn [is_note] in Ku, Kd.
    assert (existsb (is_dereg (m_nextId (run_calls pre))) notes = false) as ->.
    { apply not_true_is_false. rewrite existsb_exists. intros (c & Hc & Hd').
      rewrite List.Forall_forall in Hall. apply Hall in Hc as [fc ->]. done. }
    cbv zeta. change (count (is_note _ _) []) with 0 in *. do 3 f_equal; lia.
  - intros enter evs exit r post Hr Hp. rewrite session_in_log, Hp by done. cbv zeta.
    unfold runWebSocketRelay in Hr.
    destruct (if enter then _ else _) as [r1|] eqn:E; simplify_eq. cbn [rl_calls].
    assert (exists l, rl_calls r1 = Register client upstream host port now :: l) as [l ->].
    { destruct enter; [|simplify_eq; by eexists].
      destruct (relayLoop_runs (m_nextId (run_calls pre)) (startRelay client upstream host port now) evs)
        as (r2 & E2 & [_ _ _ _ (notes & Hn & _)]). simplify_eq. rewrite Hn. by eexists. }
    cbn [app tail]. rewrite !existsb_app. cbn [existsb is_dereg]. by rewrite Z.eqb_refl, !orb_true_r.
Qed.

Definition relay_example_message : bytes :=
  wsEncodeFrame [1; 2; 3; 4] 1 false false (lit "he") true ++
  wsEncodeFrame [9; 9; 9; 9] 9 true false [] true ++
  wsEncodeFrame [5; 6; 7; 8] 0 true false (lit "llo") true ++
  wsEncodeFrame [1; 1; 1; 1] 2 true true (lit "zip") true ++
  wsEncodeFrame [2; 2; 2; 2] 2 true true [255] true.

(** A message in two fragments with a ping between them, a compressed one and a corrupt one. *)
Lemma ws_history_complete_witness :
  exists inf', onReads (ZL := markedZlib) true (newDirection (newInflater (ZL := markedZlib)))
      (map (fun b => [b]) relay_example_message)
    = Some ([mkEvent true 9 true [] false; mkEvent true 1 true (lit "hello") false; mkEvent true 2 true (lit "zip") true;
             mkEvent true 2 true [255] false], 5%nat, mkDir initParser newMsg inf') /\ healthy inf' = false.
Proof.
  destruct (ws_history_complete (ZL := markedZlib) true newInflater (Some false)
      [Message 1 false (lit "he") [([mkFrame 9 true false []], lit "llo")]; Message 2 true (lit "zip") []; Message 2 true [255] []]
      [mkEvent true 9 true [] false; mkEvent true 1 true (lit "hello") false; mkEvent true 2 true (lit "zip") true; mkEvent true 2 true [255] false] None
      [([1; 2; 3; 4], true, mkFrame 1 false false (lit "he")); ([9; 9; 9; 9], true, mkFrame 9 true false []);
       ([5; 6; 7; 8], true, mkFrame 0 true false (lit "llo")); ([1; 1; 1; 1], true, mkFrame 2 true true (lit "zip"));
       ([2; 2; 2; 2], true, mkFrame 2 true true [255])]
      (map (fun b => [b]) relay_example_message)) as (inf' & Hst & Hr).
  - repeat constructor; vm_compute; discriminate || reflexivity.
  - reflexivity.
  - pose proof (shown_plain (ZL := markedZlib) true (Some false) 1 (lit "he") [([mkFrame 9 true false []], lit "llo")]) as H1.
    assert (H2 : shown (ZL := markedZlib) true (Some false) (Message 2 true (lit "zip") []) (message_events true 2 [] (lit "zip") true) (Some false)).
    { apply (shown_inflated (ZL := markedZlib) true false false 2 (lit "zip") [] (lit "zip")); [|vm_compute; discriminate]. split; [reflexivity|]. split; [reflexivity|]. right. reflexivity. }
    assert (H3 : shown (ZL := markedZlib) true (Some false) (Message 2 true [255] []) (message_events true 2 [] [255] false) None).
    { apply (shown_corrupt (ZL := markedZlib) true false 2 [255] []). split; reflexivity. }
    exact (shown_cons _ _ _ _ _ _ _ _ H1 (shown_cons _ _ _ _ _ _ _ _ H2 (shown_cons _ _ _ _ _ _ _ _ H3 (shown_nil _ _)))).
  - repeat constructor; vm_compute; discriminate || reflexivity.
  - reflexivity.
  - apply small_chunks_dec. vm_compute. reflexivity.
  - vm_compute. reflexivity.
  - exists inf'. split; [exact Hr|exact Hst].
Defined.

Definition example_relay (evs : list RelayEvent) (exit : ExitReason) : option (Relay (ZL := storedZlib)) :=
  runWebSocketRelay (ZL := storedZlib) 1 10 11 (lit "a") 443 5 true evs exit.

Lemma ws_relay_lifecycle_witness :
  let QT := asciiText in
  qm_get 1 (m_sessions (run_calls
    [Register 10 11 (lit "a") 443 5; Register 12 13 (lit "b") 80 6; NoteFrame 2 true; NoteFrame 1 true;
     Deregister 2; Deregister 1; Deregister 1])) = None.
Proof.
  intros QT.
  refine (proj2 (ws_relay_lifecycle (ZL := storedZlib) (H := asciiText) [] 1 10 11 (lit "a") 443 5 _)
    true [ClientReadyRead [129; 128; 0; 0; 0; 0]] SocketDisconnected _
    [Register 12 13 (lit "b") 80 6; NoteFrame 2 true; NoteFrame 1 true; Deregister 2; Deregister 1; Deregister 1]
    (some_or_else (startRelay 0 0 [] 0 0) _ _) _).
  - reflexivity.
  - vm_compute. reflexivity.
  - vm_compute. reflexivity.
Defined.

(** ** Where the relay departs from a message-wise view *)

(** A frame queued for the server is written as soon as the event loop dispatches
    it: between two reads of one client frame it lands inside that frame, and the
    server parses neither of them. *)
Theorem injection_splits_frame :
  let sent := wsEncodeFrame [1; 2; 3; 4] 1 true false (lit "hello") true in
  let injected := wsEncodeFrame [0; 0; 0; 0] 1 true false (lit "hi") true in
  let r := example_relay
      [ClientReadyRead (take 6 sent); FrameQueued 1 injected true; ClientReadyRead (drop 6 sent)]
      ShuttingDown in
  exists out, option_map rl_toUpstream r = Some out /\
    map payload (fst (feed initParser out)) <> [lit "hello"; lit "hi"] /\
    map payload (fst (feed initParser out)) <> [lit "hi"; lit "hello"] /\
    map payload (fst (feed initParser sent)) = [lit "hello"].
Proof.
  intros sent injected r. exists (take 6 sent ++ injected ++ drop 6 sent).
  split; [vm_compute; reflexivity|]. split; [vm_compute; discriminate|].
  split; [vm_compute; discriminate|vm_compute; reflexivity].
Qed.

(** The bytes that follow the 101 in the buffer are the response's body: the client
    receives them, the server-side parser never does.  When they end inside a frame
    the parser starts in its middle, and the message is not reported. *)
Theorem upgrade_leftover_not_parsed :
  let frame := wsEncodeFrame [] 1 true false (lit "hello") false in
  let head := lit "HTTP/1.1 101 Switching Protocols" ++ CRLF ++ lit "Upgrade: websocket" ++ CRLF ++ CRLF in
  option_map (fun r => rs_body (fst r)) (readResponse (H := asciiText) (ZL := storedZlib) 0 [head ++ take 3 frame; drop 3 frame])
    = Some (take 3 frame) /\
  option_map (fun r => fst (fst r))
    (onReads (ZL := storedZlib) false (newDirection (newInflater (ZL := storedZlib))) [drop 3 frame]) = Some [] /\
  option_map (fun r => map ev_payload (fst (fst r)))
    (onReads (ZL := storedZlib) false (newDirection (newInflater (ZL := storedZlib))) [frame]) = Some [lit "hello"].
Proof. intros frame head. split; [|split]; vm_compute; reflexivity. Qed.
