(* ===== verification/Blocklist.v ===== *)
(** * The persisted blocklist of Src/BackEnd/Proxy/proxy_server.cpp

    [ProxyServer] keeps the set of hosts it must not intercept, and a file that
    mirrors it.  Per-connection workers mark hosts while the operator clears
    them: [markMitmBlocked], [persistBlocklist], the two [clearMitmBlocked] and
    [setBlocklistPath] interleave under two mutexes.  A critical section of the
    set's mutex is one step; the file mutex is a lock a thread holds across
    several steps, one per file operation. *)

From stdpp Require Import sorting.
From S2P Require Import Prelude Qt QtSample QMap HttpFraming.

Local Open Scope Z_scope.

Definition str_le (a b : qstr) : Prop := str_ltb b a = false.
#[export] Instance str_le_dec : RelDecision str_le.
Proof. intros a b. unfold str_le. apply _. Defined.

(** Where a call is: the work it still has to do. *)
Inductive PC :=
| MarkPersist                                    (* host inserted, before the file lock *)
| PersistLocked                                  (* before the snapshot *)
| Snapped (path : qstr) (snap : list qstr)       (* before the file is opened *)
| Opened (path : qstr) (snap : list qstr)
| BodyWritten (path : qstr) (snap : list qstr)
| ClearAllWait | ClearAllLocked | ClearAllCleared (path : qstr)
| ClearOneWait (host : qstr) | ClearOneLocked (host : qstr)
| LoadWait (path : qstr) | LoadLocked (path : qstr)
| Releasing.

#[export] Instance PC_eq_dec : EqDecision PC.
Proof. solve_decision. Defined.

Record Blocklist := mkBlocklist {
  m_mitmBlocked : gset qstr;
  m_blocklistPath : qstr;
  bl_files : gmap qstr bytes;
  m_blocklistFileMutex : option nat;
  bl_calls : gmap nat PC
}.

Definition set_call (t : nat) (pc : PC) (s : Blocklist) : Blocklist :=
  mkBlocklist (m_mitmBlocked s) (m_blocklistPath s) (bl_files s) (m_blocklistFileMutex s) (<[t := pc]> (bl_calls s)).
Definition with_set (b : gset qstr) (s : Blocklist) : Blocklist :=
  mkBlocklist b (m_blocklistPath s) (bl_files s) (m_blocklistFileMutex s) (bl_calls s).
Definition with_files (fs : gmap qstr bytes) (s : Blocklist) : Blocklist :=
  mkBlocklist (m_mitmBlocked s) (m_blocklistPath s) fs (m_blocklistFileMutex s) (bl_calls s).

Section Blocklist.
Context `{QtText}.

(** [snapshot.sort()], and the bytes of the two writes. *)
Definition snapshot (b : gset qstr) : list qstr := merge_sort str_le (elements b).
Definition body (snap : list qstr) : bytes := u_toutf8 (join [LF] snap).

(** Reading back: [QIODevice::Text] drops carriage returns; lines are decoded,
    trimmed, and skipped when empty. *)
Definition text_mode (f : bytes) : bytes := List.filter (fun c => negb (c =? CR)) f.
Definition parse_blocklist (f : bytes) : gset qstr :=
  list_to_set (List.filter (fun l => negb (is_nil l))
                 (map (fun l => u_trimmed (u_fromutf8 l)) (split_on LF (text_mode f)))).

Definition isMitmBlocked (s : Blocklist) (host : qstr) : bool := bool_decide (host ∈ m_mitmBlocked s).
Definition blockedHosts (s : Blocklist) : list qstr := snapshot (m_mitmBlocked s).

(** ** Calls *)

Inductive Op := Mark (host : qstr) | ClearAll | ClearOne (host : qstr) | SetPath (path : qstr).

(** The entry of a call by an idle thread. *)
Definition call (s : Blocklist) (t : nat) (op : Op) : option Blocklist :=
  match bl_calls s !! t with
  | Some _ => None
  | None =>
      Some match op with
           | Mark host =>
               if isMitmBlocked s host then s
               else set_call t MarkPersist (with_set ({[host]} ∪ m_mitmBlocked s) s)
           | ClearAll => set_call t ClearAllWait s
           | ClearOne host => set_call t (ClearOneWait host) s
           | SetPath path => set_call t (LoadWait path) s
           end
  end.

Definition acquire (s : Blocklist) (t : nat) (pc : PC) : option Blocklist :=
  match m_blocklistFileMutex s with
  | Some _ => None
  | None =>
      Some (mkBlocklist (m_mitmBlocked s) (m_blocklistPath s) (bl_files s) (Some t) (<[t := pc]> (bl_calls s)))
  end.

(** [f.write] at the end of what the handle has written. *)
Definition append (path : qstr) (data : bytes) (s : Blocklist) : Blocklist :=
  with_files (<[path := default [] (bl_files s !! path) ++ data]> (bl_files s)) s.

(** One step of a thread inside a call; [None] when it is idle or blocked.
    [ok] is whether the file operation of the step, if any, succeeds. *)
Definition run (ok : bool) (s : Blocklist) (t : nat) : option Blocklist :=
  match bl_calls s !! t with
  | None => None
  | Some MarkPersist => acquire s t PersistLocked
  | Some PersistLocked =>
      Some (if is_nil (m_blocklistPath s) then set_call t Releasing s
            else set_call t (Snapped (m_blocklistPath s) (snapshot (m_mitmBlocked s))) s)
  | Some (Snapped path snap) =>
      Some (if ok then set_call t (Opened path snap) (with_files (<[path := []]> (bl_files s)) s)
            else set_call t Releasing s)
  | Some (Opened path snap) => Some (set_call t (BodyWritten path snap) (append path (body snap) s))
  | Some (BodyWritten path _) => Some (set_call t Releasing (append path [LF] s))
  | Some ClearAllWait => acquire s t ClearAllLocked
  | Some ClearAllLocked => Some (set_call t (ClearAllCleared (m_blocklistPath s)) (with_set ∅ s))
  | Some (ClearAllCleared path) =>
      Some (set_call t Releasing
              (if is_nil path || negb ok then s else with_files (delete path (bl_files s)) s))
  | Some (ClearOneWait host) => acquire s t (ClearOneLocked host)
  | Some (ClearOneLocked host) =>
      let s' := with_set (m_mitmBlocked s ∖ {[host]}) s in
      Some (if negb (isMitmBlocked s host) || is_nil (m_blocklistPath s) then set_call t Releasing s'
            else set_call t (Snapped (m_blocklistPath s) (snapshot (m_mitmBlocked s'))) s')
  | Some (LoadWait path) => acquire s t (LoadLocked path)
  | Some (LoadLocked path) =>
      Some (set_call t Releasing
              (mkBlocklist
                 (match bl_files s !! path with
                  | Some f => if ok then parse_blocklist f else ∅
                  | None => ∅
                  end)
                 path (bl_files s) (m_blocklistFileMutex s) (bl_calls s)))
  | Some Releasing =>
      Some (mkBlocklist (m_mitmBlocked s) (m_blocklistPath s) (bl_files s) None (delete t (bl_calls s)))
  end.

(** ** Executions *)

Inductive Label := Call (t : nat) (op : Op) | Run (t : nat) | IoFails (t : nat).

Definition exec (s : Blocklist) (l : Label) : option Blocklist :=
  match l with
  | Call t op => call s t op
  | Run t => run true s t
  | IoFails t => run false s t
  end.

Definition step (s : Blocklist) (l : Label) (s' : Blocklist) : Prop := exec s l = Some s'.

Definition start (files : gmap qstr bytes) : Blocklist := mkBlocklist ∅ [] files None ∅.

Fixpoint exec_all (s : Blocklist) (ls : list Label) : option Blocklist :=
  match ls with
  | [] => Some s
  | l :: ls' => match exec s l with None => None | Some s' => exec_all s' ls' end
  end.

(** What the file says: no file is the empty list. *)
Definition on_disk (s : Blocklist) : gset qstr :=
  match bl_files s !! m_blocklistPath s with Some f => parse_blocklist f | None => ∅ end.
End Blocklist.

(** ** The file format round-trips *)

(** A host as the proxy sees it: one line of text. *)
Record line_host (h : qstr) : Prop := mkLineHost {
  lh_nonempty : h <> [];
  lh_ascii : all_ascii h = true;
  lh_line : LF ∉ h /\ CR ∉ h;
  lh_trimmed : ends_clean b_space h
}.

Section Format.
Context `{QtText} `{!QtTextLaws _}.

Lemma text_mode_id f : CR ∉ f -> text_mode f = f.
Proof.
  intros Hf. unfold text_mode. induction f as [|c f IH]; [done|].
  apply not_elem_of_cons in Hf as [Hc Hf]. cbn [List.filter].
  rewrite (proj2 (Z.eqb_neq c CR)) by congruence. cbn [negb]. by rewrite IH.
Qed.

Lemma split_join_lines hs :
  hs <> [] -> Forall (fun h => LF ∉ h) hs -> split_on LF (join [LF] hs ++ [LF]) = hs ++ [[]].
Proof.
  intros Hne Hl. induction Hl as [|h hs Hh Hl IH]; [done|]. destruct hs as [|h' hs].
  - simpl. by apply (split_on_app LF h []).
  - change (join [LF] (h :: h' :: hs)) with (h ++ [LF] ++ join [LF] (h' :: hs)).
    rewrite <- !app_assoc. cbn [app]. rewrite split_on_app by done. by rewrite IH.
Qed.

Lemma elem_join_lines c hs : c ∈ join [LF] hs -> c = LF \/ exists h, h ∈ hs /\ c ∈ h.
Proof.
  induction hs as [|h hs IH]; [intros Hc; by apply not_elem_of_nil in Hc|].
  destruct hs as [|h' hs].
  - cbn [join]. right. exists h. split; [left|done].
  - change (join [LF] (h :: h' :: hs)) with (h ++ [LF] ++ join [LF] (h' :: hs)).
    rewrite !elem_of_app, list_elem_of_singleton. intros [Hc|[Hc|Hc]]; [right; exists h; split; [left|done]|by left|].
    apply IH in Hc as [?|(x & Hx & Hc)]; [by left|]. right. exists x. split; [by right|done].
Qed.

Lemma join_lines_ascii hs : Forall line_host hs -> all_ascii (join [LF] hs) = true /\ CR ∉ join [LF] hs.
Proof.
  intros Hl. rewrite Forall_forall in Hl. split.
  - apply forallb_forall. intros c Hc. apply list_elem_of_In, elem_join_lines in Hc as [->|(h & Hh & Hc)]; [done|].
    eapply all_ascii_elem; [apply lh_ascii, Hl, Hh|done].
  - intros Hc. apply elem_join_lines in Hc as [Hc|(h & Hh & Hc)]; [done|]. by apply Hl, lh_line in Hh as [_ ?].
Qed.

Lemma parse_body hs : Forall line_host hs -> parse_blocklist (body hs ++ [LF]) = list_to_set hs.
Proof.
  intros Hl. destruct (join_lines_ascii hs Hl) as [Ha Hcr].
  unfold parse_blocklist, body. rewrite law_toutf8_ascii by done.
  rewrite text_mode_id by (rewrite elem_of_app, list_elem_of_singleton; intros [?|?]; done || discriminate).
  destruct hs as [|h hs]; [simpl; by rewrite law_fromutf8_ascii|].
  rewrite split_join_lines by (done || (eapply Forall_impl; [exact Hl|by intros ? [_ _ [? _]]])).
  rewrite map_app, List.filter_app. assert (map (fun l => u_trimmed (u_fromutf8 l)) [[]] = [u_trimmed (u_fromutf8 [])]) as -> by done.
  rewrite (law_fromutf8_ascii []) by done. change (List.filter _ [u_trimmed []]) with (@nil qstr).
  rewrite app_nil_r. f_equal.
  assert (Hm : map (fun l => u_trimmed (u_fromutf8 l)) (h :: hs) = h :: hs).
  { rewrite <- (map_id (h :: hs)) at 2. apply map_ext_in. intros x Hx.
    apply list_elem_of_In in Hx. rewrite Forall_forall in Hl. destruct (Hl x Hx) as [_ Hxa _ Hxt].
    rewrite law_fromutf8_ascii by done. rewrite u_trimmed_ascii by done. by apply trim_by_clean. }
  rewrite Hm. clear -Hl. induction Hl as [|x l [Hx _ _ _] _ IH]; [done|]. cbn [List.filter].
  destruct x; [done|]. cbn [is_nil negb]. by rewrite IH.
Qed.

Lemma parse_snapshot b :
  set_Forall line_host b -> parse_blocklist (body (snapshot b) ++ [LF]) = b.
Proof.
  intros Hb. unfold snapshot. rewrite parse_body.
  - apply set_eq. intros x. rewrite elem_of_list_to_set.
    rewrite (merge_sort_Permutation str_le (elements b)). apply elem_of_elements.
  - rewrite (merge_sort_Permutation str_le (elements b)). apply set_Forall_elements, Hb.
Qed.

(** A file of ASCII text holds hosts. *)
Lemma parse_hosts f : all_ascii f = true -> set_Forall line_host (parse_blocklist f).
Proof.
  intros Ha h Hh. unfold parse_blocklist in Hh. rewrite elem_of_list_to_set in Hh.
  apply list_elem_of_In, filter_In in Hh as [Hh Hne]. apply in_map_iff in Hh as (l & <- & Hl).
  apply list_elem_of_In in Hl. pose proof (split_on_parts _ _ _ Hl) as Hlf.
  assert (Hin : forall c, c ∈ l -> is_ascii c = true /\ c <> CR).
  { intros c Hc. assert (Hc' : c ∈ text_mode f) by (by eapply split_on_elem).
    unfold text_mode in Hc'. apply list_elem_of_In, filter_In in Hc' as [Hc' Hn].
    split; [eapply all_ascii_elem; [exact Ha|by apply list_elem_of_In]|]. by split_bools; to_prop. }
  assert (Hal : all_ascii l = true) by (apply forallb_forall; intros c Hc; by apply Hin, list_elem_of_In).
  rewrite law_fromutf8_ascii, u_trimmed_ascii in * by done. split.
  - intros E. rewrite E in Hne. done.
  - apply forallb_forall. intros c Hc. apply list_elem_of_In, trim_by_incl in Hc. by apply Hin.
  - split; intros Hc; apply trim_by_incl in Hc; [done|]. by apply Hin in Hc as [_ ?].
  - apply ends_clean_trim.
Qed.
End Format.

(** ** The lock invariant *)

Section Invariant.
Context `{QtText} `{!QtTextLaws _}.

(** Before the file lock, or inside it. *)
Definition waiting (pc : PC) : bool :=
  match pc with MarkPersist | ClearAllWait | ClearOneWait _ | LoadWait _ => true | _ => false end.

(** Some call has changed the set and will still take a fresh snapshot. *)
Definition pending (s : Blocklist) : Prop :=
  exists t, bl_calls s !! t = Some MarkPersist \/ bl_calls s !! t = Some PersistLocked.

(** What the holder knows about the file it is writing. *)
Definition held (pc : PC) (s : Blocklist) : Prop :=
  match pc with
  | Snapped p snap => p = m_blocklistPath s /\ Forall line_host snap
  | Opened p snap => p = m_blocklistPath s /\ Forall line_host snap /\ bl_files s !! p = Some []
  | BodyWritten p snap => p = m_blocklistPath s /\ Forall line_host snap /\ bl_files s !! p = Some (body snap)
  | ClearAllCleared p => p = m_blocklistPath s
  | _ => True
  end.

(** How far the file is from the set, when no call is pending. *)
Definition synced (pc : PC) (s : Blocklist) : Prop :=
  m_blocklistPath s = [] \/
  match pc with
  | Snapped _ snap | Opened _ snap | BodyWritten _ snap => snap = snapshot (m_mitmBlocked s)
  | ClearAllCleared _ => m_mitmBlocked s = ∅
  | _ => on_disk s = m_mitmBlocked s
  end.

Definition others_wait (s : Blocklist) (t : nat) : Prop :=
  forall t' pc, t' <> t -> bl_calls s !! t' = Some pc -> waiting pc = true.

Definition lock_inv (s : Blocklist) : Prop :=
  match m_blocklistFileMutex s with
  | None => (forall t pc, bl_calls s !! t = Some pc -> waiting pc = true) /\ (pending s \/ synced Releasing s)
  | Some t => exists pc, bl_calls s !! t = Some pc /\ waiting pc = false /\ others_wait s t /\
      held pc s /\ (pending s \/ synced pc s)
  end.

Definition data_inv (s : Blocklist) : Prop :=
  set_Forall line_host (m_mitmBlocked s) /\ map_Forall (fun _ f => all_ascii f = true) (bl_files s).

Definition bl_inv (s : Blocklist) : Prop := data_inv s /\ lock_inv s.

(** Labels of the executions considered: marked hosts are lines, I/O succeeds. *)
Definition ok_label (l : Label) : Prop :=
  match l with Call _ (Mark h) => line_host h | IoFails _ => False | _ => True end.

Lemma bl_inv_start files : map_Forall (fun _ f => all_ascii f = true) files -> bl_inv (start files).
Proof.
  intros Hf. split; [split; [by intros ? ?%not_elem_of_empty|done]|]. split; [|by right; left].
  intros t pc Ht. simpl in Ht. by rewrite lookup_empty in Ht.
Qed.

(** A call past the wait is the holder's. *)
Lemma bl_inv_owner s t pc :
  lock_inv s -> bl_calls s !! t = Some pc -> waiting pc = false -> m_blocklistFileMutex s = Some t.
Proof.
  unfold lock_inv. intros Hl Ht Hw. destruct (m_blocklistFileMutex s) as [t0|].
  - destruct Hl as (pc0 & Ht0 & _ & Ho & _). destruct (decide (t = t0)) as [->|Hne]; [done|].
    rewrite (Ho t pc) in Hw; done.
  - destruct Hl as [Ha _]. by rewrite (Ha t pc) in Hw.
Qed.

Lemma pending_other s t pc s' pc' :
  bl_calls s !! t = Some pc -> pc <> MarkPersist -> pc <> PersistLocked ->
  bl_calls s' = <[t := pc']> (bl_calls s) -> pending s -> pending s'.
Proof.
  intros Ht H1 H2 Hc [t0 Hp]. exists t0. rewrite Hc.
  rewrite lookup_insert_ne; [done|]. intros ->. naive_solver.
Qed.

(** The holder moves on. *)
Lemma bl_inv_hold s t pc s' pc' :
  bl_inv s -> bl_calls s !! t = Some pc -> waiting pc = false ->
  bl_calls s' = <[t := pc']> (bl_calls s) -> m_blocklistFileMutex s' = m_blocklistFileMutex s ->
  waiting pc' = false -> data_inv s' -> held pc' s' ->
  (pc = PersistLocked \/ synced pc s -> synced pc' s') ->
  bl_inv s'.
Proof.
  intros [Hd Hl] Ht Hw Hc Hm Hw' Hd' Hh Hs. split; [done|].
  pose proof (bl_inv_owner _ _ _ Hl Ht Hw) as Ho. unfold lock_inv in *. rewrite Hm. rewrite Ho in *.
  destruct Hl as (pc0 & Ht0 & _ & Hoth & _ & Hsync). rewrite Ht0 in Ht. simplify_eq.
  exists pc'. rewrite Hc. split; [apply lookup_insert_eq|]. split; [done|]. split; [|split; [done|]].
  - intros t' p Hne Hp. rewrite Hc, lookup_insert_ne in Hp by done. eauto.
  - destruct (decide (pc = PersistLocked)) as [->|Hne]; [right; auto|].
    destruct Hsync as [Hp|Hp]; [left|right; auto].
    eapply pending_other; [exact Ht0| |done|exact Hc|done]. by intros ->.
Qed.

(** A waiting call gets the lock. *)
Lemma bl_inv_acquire s t pc s' pc' :
  bl_inv s -> bl_calls s !! t = Some pc -> waiting pc = true -> waiting pc' = false ->
  (forall x, held pc' x) -> (pc' = PersistLocked \/ pc <> MarkPersist /\ forall x, synced Releasing x -> synced pc' x) ->
  acquire s t pc' = Some s' -> bl_inv s'.
Proof.
  intros [Hd Hl] Ht Hw Hw' Hh Hs Ha. unfold acquire, lock_inv in *.
  destruct (m_blocklistFileMutex s) eqn:Em; simplify_eq. destruct Hl as [Hall Hp].
  split; [done|]. unfold lock_inv. cbn. exists pc'. split; [apply lookup_insert_eq|]. split; [done|].
  split; [|split; [done|]].
  - intros t' p Hne Hl'. cbn in Hl'. rewrite lookup_insert_ne in Hl' by done. eauto.
  - destruct Hs as [->|[Hne Hs]]; [left; exists t; right; apply lookup_insert_eq|].
    destruct Hp as [Hp|Hp]; [left|right; apply Hs; exact Hp].
    eapply (pending_other s t pc); [done|done| |done|done]. by intros ->.
Qed.

(** The lock is given back. *)
Lemma bl_inv_release s t s' :
  bl_inv s -> bl_calls s !! t = Some Releasing ->
  s' = mkBlocklist (m_mitmBlocked s) (m_blocklistPath s) (bl_files s) None (delete t (bl_calls s)) -> bl_inv s'.
Proof.
  intros [Hd Hl] Ht ->. split; [done|].
  pose proof (bl_inv_owner _ _ _ Hl Ht eq_refl) as Ho. unfold lock_inv in *. rewrite Ho in Hl.
  destruct Hl as (pc0 & Ht0 & _ & Hoth & _ & Hsync). rewrite Ht0 in Ht. simplify_eq. cbn. split.
  - intros t' pc Hp. destruct (decide (t = t')) as [->|Hne]; [by rewrite lookup_delete_eq in Hp|].
    rewrite lookup_delete_ne in Hp by done. eauto.
  - destruct Hsync as [[t0 Hp]|Hp]; [left|by right]. exists t0. cbn.
    rewrite lookup_delete_ne; [done|]. intros ->. naive_solver.
Qed.

(** An idle thread enters a call that changes nothing yet, or inserts a host. *)
Lemma bl_inv_enter s t pc b :
  bl_inv s -> bl_calls s !! t = None -> waiting pc = true ->
  (pc = MarkPersist \/ b = m_mitmBlocked s) -> set_Forall line_host b ->
  bl_inv (set_call t pc (with_set b s)).
Proof.
  intros [[Hh Hf] Hl] Ht Hw Hb Hlb. split; [done|]. unfold lock_inv in *. cbn.
  assert (Hk : forall pc0, (pending s \/ synced pc0 s) ->
    pending (set_call t pc (with_set b s)) \/ synced pc0 (set_call t pc (with_set b s))).
  { intros pc0 Hp. destruct Hb as [->| ->]; [left; exists t; left; apply lookup_insert_eq|].
    destruct Hp as [[t0 Hp]|Hp]; [left; exists t0|right; exact Hp].
    cbn. rewrite lookup_insert_ne; [done|]. intros ->. naive_solver. }
  destruct (m_blocklistFileMutex s) as [t0|].
  - destruct Hl as (pc0 & Ht0 & Hw0 & Ho & Hd & Hs).
    assert (t <> t0) by congruence. exists pc0. rewrite lookup_insert_ne by done.
    split; [done|]. split; [done|]. split; [|split; [|auto]].
    + intros t' p Hne Hp. cbn in Hp. destruct (decide (t = t')) as [<-|].
      * rewrite lookup_insert_eq in Hp. by simplify_eq.
      * rewrite lookup_insert_ne in Hp by done. eauto.
    + destruct pc0; exact Hd.
  - destruct Hl as [Ha Hs]. split; [|auto]. intros t' p Hp. cbn in Hp. destruct (decide (t = t')) as [<-|].
    + rewrite lookup_insert_eq in Hp. by simplify_eq.
    + rewrite lookup_insert_ne in Hp by done. eauto.
Qed.

Lemma snapshot_lines b : set_Forall line_host b -> Forall line_host (snapshot b).
Proof.
  intros Hb. unfold snapshot. rewrite (merge_sort_Permutation str_le (elements b)).
  by apply set_Forall_elements.
Qed.

Lemma body_ascii snap : Forall line_host snap -> all_ascii (body snap) = true.
Proof. intros Hl. unfold body. rewrite law_toutf8_ascii; by apply join_lines_ascii. Qed.

Lemma bl_inv_run s t s' : bl_inv s -> run true s t = Some s' -> bl_inv s'.
Proof.
  intros Hi Hr. pose proof Hi as [[Hh Hf] Hl]. unfold run in Hr.
  destruct (bl_calls s !! t) as [pc|] eqn:Ht; [|done].
  assert (Hheld : waiting pc = false -> held pc s).
  { intros Hw. pose proof (bl_inv_owner _ _ _ Hl Ht Hw) as Ho. unfold lock_inv in Hl. rewrite Ho in Hl.
    destruct Hl as (pc0 & Ht0 & _ & _ & Hd & _). congruence. }
  destruct pc as [| |p snap|p snap|p snap| | |p|h|h|p|p|]; simplify_eq/=.
  - apply (bl_inv_acquire s t MarkPersist s' PersistLocked); try done. by left.
  - case_if E; (eapply (bl_inv_hold s t PersistLocked); try done); cbn; try done.
    + intros _. left. by apply is_nil_true.
    + split; [done|]. by apply snapshot_lines.
    + intros _. by right.
  - destruct (Hheld eq_refl) as [-> Hsn]. eapply (bl_inv_hold s t (Snapped _ snap)); try done; cbn; try done.
    + split; [done|]. by apply map_Forall_insert_2.
    + split; [done|]. split; [done|]. apply lookup_insert_eq.
    + intros [?|[Hp|Hp]]; [done|by left|by right].
  - destruct (Hheld eq_refl) as (-> & Hsn & Hfile). eapply (bl_inv_hold s t (Opened _ snap)); try done; cbn; try done.
    + unfold data_inv. cbn. rewrite Hfile. split; [done|]. apply map_Forall_insert_2; [by apply body_ascii|done].
    + split; [done|]. split; [done|]. rewrite Hfile. apply lookup_insert_eq.
    + intros [?|[Hp|Hp]]; [done|by left|by right].
  - destruct (Hheld eq_refl) as (-> & Hsn & Hfile). eapply (bl_inv_hold s t (BodyWritten _ snap)); try done; cbn; try done.
    + unfold data_inv. cbn. rewrite Hfile. split; [done|]. apply map_Forall_insert_2; [|done].
      cbn. by rewrite all_ascii_app, body_ascii.
    + intros [?|[Hp|Hp]]; [done|by left|right]. unfold on_disk. cbn.
      rewrite lookup_insert_eq, Hfile. cbn. rewrite Hp. by apply parse_snapshot.
  - apply (bl_inv_acquire s t ClearAllWait s' ClearAllLocked); try done. right; by split.
  - eapply (bl_inv_hold s t ClearAllLocked); try done; cbn; try done.
    + intros _. by right.
  - pose proof (Hheld eq_refl) as ->. destruct (is_nil (m_blocklistPath s)) eqn:E; cbn [orb negb].
    + eapply (bl_inv_hold s t (ClearAllCleared _)); try done. intros _. left. by apply is_nil_true.
    + eapply (bl_inv_hold s t (ClearAllCleared _)); try done; cbn.
      * split; [done|]. by apply map_Forall_delete.
      * intros [?|[Hp|Hp]]; [done|by left|]. right. unfold on_disk. cbn. by rewrite lookup_delete_eq.
  - apply (bl_inv_acquire s t (ClearOneWait h) s' (ClearOneLocked h)); try done. right; by split.
  - assert (Hsub : set_Forall line_host (m_mitmBlocked s ∖ {[h]})) by (intros x Hx; apply Hh; set_solver).
    case_if E; (eapply (bl_inv_hold s t (ClearOneLocked h)); try done); cbn; try done.
    + intros [?|[Hp|Hp]]; [done|by left|]. unfold isMitmBlocked in E.
      apply orb_true_iff in E as [E|E]; [|left; by apply is_nil_true].
      split_bools. right. unfold on_disk in *. cbn. rewrite Hp. set_solver.
    + split; [done|]. by apply snapshot_lines.
    + intros _. by right.
  - apply (bl_inv_acquire s t (LoadWait p) s' (LoadLocked p)); try done. right; by split.
  - eapply (bl_inv_hold s t (LoadLocked p)); try done; cbn; try done.
    + split; [|done]. destruct (bl_files s !! p) as [f|] eqn:Ef; [|by intros ? ?%not_elem_of_empty].
      apply parse_hosts. exact (Hf _ _ Ef).
    + intros _. right. unfold on_disk. cbn. done.
  - by eapply bl_inv_release.
Qed.

Lemma bl_inv_step s l s' : bl_inv s -> ok_label l -> exec s l = Some s' -> bl_inv s'.
Proof.
  intros Hi Ho Hs. destruct l as [t op|t|t]; cbn [exec] in Hs; [|by eapply bl_inv_run|done].
  unfold call in Hs. destruct (bl_calls s !! t) eqn:Ht; simplify_eq.
  pose proof Hi as [[Hh _] _]. destruct op as [h| |h|p].
  - destruct (isMitmBlocked s h); [done|]. apply bl_inv_enter; try done; [by left|].
    intros x Hx. apply elem_of_union in Hx as [Hx|Hx]; [by apply elem_of_singleton in Hx as ->|by apply Hh].
  - apply (bl_inv_enter s t ClearAllWait (m_mitmBlocked s)); try done. by right.
  - apply (bl_inv_enter s t (ClearOneWait h) (m_mitmBlocked s)); try done. by right.
  - apply (bl_inv_enter s t (LoadWait p) (m_mitmBlocked s)); try done. by right.
Qed.

Lemma bl_inv_exec s ls s' : bl_inv s -> Forall ok_label ls -> exec_all s ls = Some s' -> bl_inv s'.
Proof.
  intros Hi Hl. revert s Hi. induction Hl as [|l ls Hl _ IH]; intros s Hi He; cbn [exec_all] in He.
  - by simplify_eq.
  - destruct (exec s l) as [s1|] eqn:E; [|done]. eapply IH; [|done]. by eapply bl_inv_step.
Qed.
End Invariant.

(** C29. The file mirrors the set: after any interleaving of marks, clears and loads by
    any number of workers, in every state in which no call is in progress, reading the
    file back gives exactly the set in memory; no host marked is lost and no host
    cleared comes back. *)
Theorem blocklist_persisted `{QtText} `{!QtTextLaws _} files ls s :
  map_Forall (fun _ f => all_ascii f = true) files -> Forall ok_label ls ->
  exec_all (start files) ls = Some s -> bl_calls s = ∅ -> m_blocklistPath s <> [] ->
  on_disk s = m_mitmBlocked s /\ m_blocklistFileMutex s = None.
Proof.
  intros Hf Hl He Hc Hp. destruct (bl_inv_exec _ _ _ (bl_inv_start files Hf) Hl He) as [_ Hi].
  unfold lock_inv in Hi. destruct (m_blocklistFileMutex s) as [t|].
  - destruct Hi as (pc & Ht & _). by rewrite Hc, lookup_empty in Ht.
  - split; [|done]. destruct Hi as [_ [[t Ht]|[?|?]]]; [|done|done].
    rewrite Hc, lookup_empty in Ht. naive_solver.
Qed.

(** ** Termination *)

Definition weight (pc : PC) : nat :=
  match pc with
  | MarkPersist | ClearOneWait _ => 6 | PersistLocked | ClearOneLocked _ => 5
  | Snapped _ _ | ClearAllWait => 4 | Opened _ _ | ClearAllLocked | LoadWait _ => 3
  | BodyWritten _ _ | ClearAllCleared _ | LoadLocked _ => 2 | Releasing => 1
  end.

Definition work (s : Blocklist) : nat := map_fold (fun _ pc n => (weight pc + n)%nat) 0%nat (bl_calls s).

Lemma work_delete (m : gmap nat PC) t pc :
  m !! t = Some pc ->
  map_fold (fun _ pc n => (weight pc + n)%nat) 0%nat m
  = (weight pc + map_fold (fun _ pc n => (weight pc + n)%nat) 0%nat (delete t m))%nat.
Proof.
  intros Hm. rewrite (map_fold_delete_L (fun _ pc n => (weight pc + n)%nat) 0%nat t pc m); [done| |done].
  intros; lia.
Qed.

Lemma run_decreases `{QtText} ok s t s' : run ok s t = Some s' -> (work s' < work s)%nat.
Proof.
  unfold run. destruct (bl_calls s !! t) as [pc|] eqn:Ht; [|done]. intros Hr.
  assert (Hk : (exists pc', bl_calls s' = <[t := pc']> (bl_calls s) /\ (weight pc' < weight pc)%nat)
               \/ bl_calls s' = delete t (bl_calls s)).
  { unfold acquire in Hr. destruct pc; repeat case_match; simplify_eq; try (by right);
      left; eexists; (split; [reflexivity|simpl; lia]). }
  unfold work. rewrite (work_delete _ _ _ Ht). destruct Hk as [(pc' & -> & Hw)| ->].
  - rewrite (work_delete _ t pc') by apply lookup_insert_eq. rewrite delete_insert_eq. lia.
  - destruct pc; simpl; lia.
Qed.

Definition is_run (l : Label) : Prop := match l with Call _ _ => False | _ => True end.

(** Every call ends: in any reachable state the calls in progress can take at
    most [work s] more steps whatever the scheduler does, and as long as one is in
    progress some thread can take a step, so the two mutexes never deadlock. *)
Theorem blocklist_terminates `{QtText} `{!QtTextLaws _} files ls s :
  map_Forall (fun _ f => all_ascii f = true) files -> Forall ok_label ls ->
  exec_all (start files) ls = Some s ->
  (forall rs s', Forall is_run rs -> exec_all s rs = Some s' -> (length rs <= work s)%nat) /\
  (bl_calls s <> ∅ -> exists t s', exec s (Run t) = Some s').
Proof.
  intros Hf Hl He. split.
  - clear. intros rs s' Hr. revert s. induction Hr as [|l rs Hlr _ IH]; intros s He; cbn [exec_all length] in *; [lia|].
    destruct (exec s l) as [s1|] eqn:E; [|done]. apply IH in He.
    assert (work s1 < work s)%nat; [|lia]. destruct l; [done| |]; by eapply run_decreases.
  - intros Hne. destruct (bl_inv_exec _ _ _ (bl_inv_start files Hf) Hl He) as [_ Hi].
    unfold lock_inv in Hi. cbn [exec]. destruct (m_blocklistFileMutex s) as [t|] eqn:Em.
    + destruct Hi as (pc & Ht & Hw & _). exists t. unfold run. rewrite Ht.
      destruct pc; try done; repeat case_match; eauto.
    + apply map_choose in Hne as (t & pc & Ht). destruct Hi as [Ha _]. specialize (Ha t pc Ht).
      exists t. unfold run. rewrite Ht. unfold acquire. rewrite Em. destruct pc; try done; eauto.
Qed.

(** Two workers mark hosts while the operator clears one of them. *)
Definition blocklist_example : list Label :=
  [Call 1 (SetPath (lit "f")); Run 1; Run 1; Run 1;
   Call 1 (Mark (lit "b.example")); Call 2 (Mark (lit "a.example")); Run 2; Run 2; Call 3 (ClearOne (lit "b.example"));
   Run 2; Run 2; Run 2; Run 2; Run 3; Run 3; Run 3; Run 3; Run 3; Run 3; Run 1; Run 1; Run 1; Run 1; Run 1; Run 1].

Lemma line_host_dec h :
  negb (is_nil h) && all_ascii h && negb (contains_chr LF h) && negb (contains_chr CR h)
    && negb (existsb b_space h) = true -> line_host h.
Proof.
  unfold contains_chr. intros Hb. split_bools.
  destruct (index_of LF h) eqn:E1; [done|]. destruct (index_of CR h) eqn:E2; [done|].
  apply index_of_None in E1, E2.
  assert (Hs : Forall (fun c => b_space c = false) h).
  { apply List.Forall_forall. intros c Hc. apply not_true_is_false. intros Hx.
    assert (existsb b_space h = true); [|congruence]. apply existsb_exists. eauto. }
  split; [by intros ->|done|done|]. rewrite Forall_forall in Hs. split.
  - destruct h; [done|]. apply Hs. left.
  - destruct (last h) as [y|] eqn:El; [|done]. apply Hs. by apply last_Some_elem_of.
Qed.

(** The state the example reaches after its first [n] labels. *)
Definition example_state `{QtText} (n : nat) : Blocklist :=
  or_else (start ∅) (exec_all (start ∅) (take n blocklist_example)).

Lemma blocklist_persisted_witness :
  let QT := asciiText in on_disk (example_state 25) = {[ lit "a.example" ]}.
Proof.
  intros QT.
  refine (eq_trans (proj1 (blocklist_persisted (H := asciiText) ∅ (take 25 blocklist_example) (example_state 25)
            _ _ (some_or_else _ _ _) _ _)) _).
  - apply map_Forall_empty.
  - repeat constructor; apply line_host_dec; vm_compute; reflexivity.
  - vm_compute. reflexivity.
  - refine (bool_decide_eq_true_1 _ _). vm_compute. reflexivity.
  - vm_compute. discriminate.
  - refine (bool_decide_eq_true_1 _ _). vm_compute. reflexivity.
Defined.

Lemma blocklist_terminates_witness :
  let QT := asciiText in exists t s', exec (example_state 9) (Run t) = Some s'.
Proof.
  intros QT.
  refine (proj2 (blocklist_terminates (H := asciiText) ∅ (take 9 blocklist_example) (example_state 9)
            _ _ (some_or_else _ _ _)) _).
  - apply map_Forall_empty.
  - repeat constructor; apply line_host_dec; vm_compute; reflexivity.
  - vm_compute. reflexivity.
  - intros Hc. apply (f_equal (fun m => m !! 2%nat)) in Hc. vm_compute in Hc. discriminate.
Defined.
