(* ===== verification/InterceptLogic.v ===== *)
(** * Pure interception logic: Src/BackEnd/Proxy/intercept_logic.{hpp,cpp}

    Which bytes a resolved message is forwarded as ([resolveForward],
    [fixTrailingNewline], [recomputeContentLength]), which messages are held
    ([interceptRulesHold] over the extracted fields), and the JSON form of the
    rules. *)

From S2P Require Import Prelude Qt QtSample QMap Json.

Local Open Scope Z_scope.

Section InterceptLogic.
Context `{QtText} `{QtRegex}.

Record ForwardResult := mkForward { fr_bytes : bytes; fr_edited : bool }.

Definition resolveForward (originalBytes : bytes) (currentText : qstr) : ForwardResult :=
  let edited := negb (seq_eqb currentText (u_fromutf8 originalBytes)) in
  mkForward (if edited then u_toutf8 currentText else originalBytes) edited.

Definition resolveForwardBytes (originalBytes : bytes) (currentText : qstr) : bytes :=
  fr_bytes (resolveForward originalBytes currentText).

Definition shouldRecomputeContentLength (dropped isRequest autoCL edited : bool) : bool :=
  negb dropped && isRequest && autoCL && edited.
Definition shouldFixTrailingNewline (dropped isRequest autoFix edited : bool) : bool :=
  negb dropped && isRequest && autoFix && edited.

(** [termLenAt(b, i)] on the bytes from [i]: CRLF, bare CR or bare LF. *)
Definition termLen (b : bytes) : nat :=
  match b with
  | c :: b' =>
      if (c =? 13)%Z then match b' with d :: _ => if (d =? 10)%Z then 2 else 1 | [] => 1 end
      else if (c =? 10)%Z then 1 else 0
  | [] => 0
  end%nat.
Definition termLenAt (b : bytes) (i : nat) : nat := termLen (drop i b).

(** The search for the earliest blank line: where the last header line's
    terminator starts, and the length of the two terminators. *)
Fixpoint find_blank (fuel : nat) (req : bytes) (i : nat) : option (nat * nat) :=
  match fuel with
  | O => None
  | S fuel' =>
      if (length req <=? i)%nat then None
      else
        let t1 := termLenAt req i in
        if (t1 =? 0)%nat then find_blank fuel' req (i + 1)
        else
          let t2 := termLenAt req (i + t1) in
          if (0 <? t2)%nat then Some (i, t1 + t2)%nat
          else find_blank fuel' req (i + t1)
  end.
Definition findBlank (req : bytes) : option (nat * nat) := find_blank (S (length req)) req 0.

(** [while (i < size && termLenAt(req, i) == 0) ++i]: the length of the run. *)
Fixpoint run_len (b : bytes) : nat :=
  match b with
  | [] => 0
  | _ :: b' => if (termLen b =? 0)%nat then S (run_len b') else 0
  end%nat.

(** One header line and its terminator. *)
Record Line := mkLine { content : bytes; term : bytes }.

(** The header lines up to the one whose terminator starts at or after [sep],
    and where they end. *)
Fixpoint head_lines (fuel : nat) (req : bytes) (sep i : nat) : list Line * nat :=
  match fuel with
  | O => ([], i)
  | S fuel' =>
      let termStart := (i + run_len (drop i req))%nat in
      let tl := termLenAt req termStart in
      let line := mkLine (mid req i (termStart - i)) (mid req termStart tl) in
      let i' := (termStart + tl)%nat in
      if (sep <=? termStart)%nat then ([line], i')
      else let '(ls, e) := head_lines fuel' req sep i' in (line :: ls, e)
  end.

(** What the classification of the head collects: the number of Content-Length
    lines, the index of the last one, chunked, and whether any line is not blank. *)
Record HeadClass := mkClass {
  clCount : nat; clLineIdx : option nat; teChunked : bool; hasRealHeader : bool
}.

Definition header_name (c : bytes) (colon : nat) : bytes := b_lower (b_trimmed (take colon c)).

Definition names_chunked (c : bytes) (colon : nat) : bool :=
  seq_eqb (header_name c colon) (lit "transfer-encoding")
  && contains_sub (lit "chunked") (b_lower (drop (colon + 1) c)).

Definition classify_line (k : nat) (c : bytes) (h : HeadClass) : HeadClass :=
  let h := mkClass (clCount h) (clLineIdx h) (teChunked h)
             (hasRealHeader h || negb (is_nil (b_trimmed c))) in
  match index_of 58 c with
  | None | Some O => h
  | Some colon =>
      if seq_eqb (header_name c colon) (lit "content-length")
      then mkClass (S (clCount h)) (Some k) (teChunked h) (hasRealHeader h)
      else if names_chunked c colon
      then mkClass (clCount h) (clLineIdx h) true (hasRealHeader h)
      else h
  end.

Fixpoint classify (k : nat) (lines : list Line) (h : HeadClass) : HeadClass :=
  match lines with
  | [] => h
  | l :: ls => classify (S k) ls (classify_line k (content l) h)
  end.

Definition line_bytes (l : Line) : bytes := content l ++ term l.

(** Line [k] on output: the value of the Content-Length line is replaced. *)
Definition out_line (bodyLen : Z) (target : option nat) (k : nat) (l : Line) : bytes :=
  if bool_decide (target = Some k) then
    let colon := default 0%nat (index_of 58 (content l)) in
    take colon (content l) ++ lit ": " ++ number 10 bodyLen ++ term l
  else line_bytes l.

Fixpoint out_lines (bodyLen : Z) (target : option nat) (k : nat) (lines : list Line) : bytes :=
  match lines with
  | [] => []
  | l :: ls => out_line bodyLen target k l ++ out_lines bodyLen target (S k) ls
  end.

Definition recomputeContentLength (req : bytes) : bytes :=
  match findBlank req with
  | None => req
  | Some (sep, _) =>
      let '(lines, i) := head_lines (S (length req)) req sep 0 in
      let tl := drop i req in
      let bodyLen := zlen tl - Z.of_nat (termLen tl) in
      let h := classify 0 lines (mkClass 0 None false false) in
      if teChunked h || (1 <? clCount h)%nat then req
      else
        let added :=
          match clLineIdx h with
          | None =>
              if (0 <? bodyLen) && hasRealHeader h then
                lit "Content-Length: " ++ number 10 bodyLen ++
                match last lines with Some l => term l | None => [13; 10] end
              else []
          | Some _ => []
          end in
        out_lines bodyLen (clLineIdx h) 0 lines ++ added ++ tl
  end.

(** The terminator of the first line feed of the message, CRLF without one. *)
Definition message_term (req : bytes) : bytes :=
  match index_of 10 req with
  | None => [13; 10]
  | Some O => [10]
  | Some (S i) => if at_ req i =? 13 then [13; 10] else [10]
  end.

(** Does a line of the head declare a body? *)
Definition declares_body_line (line : bytes) : bool :=
  match index_of 58 line with
  | None | Some O => false
  | Some colon =>
      seq_eqb (header_name line colon) (lit "content-length") || names_chunked line colon
  end.

Fixpoint declares_body (fuel : nat) (head : bytes) (i : nat) : bool :=
  match fuel with
  | O => false
  | S fuel' =>
      if (length head <=? i)%nat then false
      else
        let e := (i + run_len (drop i head))%nat in
        if declares_body_line (mid head i (e - i)) then true
        else declares_body fuel' head (e + termLenAt head e)
  end.

Definition fixTrailingNewline (req : bytes) : bytes :=
  match findBlank req with
  | None =>
      let t := message_term req in
      (if ends_with t req then req else req ++ t) ++ t
  | Some (sep, sepLen) =>
      let head := take (sep + sepLen) req in
      let tl := drop (sep + sepLen) req in
      if is_nil tl then req
      else if existsb (fun c => negb (c =? 13) && negb (c =? 10)) tl then req
      else if declares_body (S (length head)) head 0 then req
      else head
  end.

Definition kMaxPendingIntercepts : Z := 256.
Definition interceptQueueHasRoom (outstanding : Z) : bool :=
  if outstanding <? 0 then true else outstanding <? kMaxPendingIntercepts.

(** ** Match rules *)

Inductive BoolOp := Or | And.
Inductive Match := Any | FileExtension | Method | UrlRegex | HostGlob | ContentType | StatusCode | HasHeader.
Inductive Dir := DRequest | DResponse | DBoth.

Record InterceptRule := mkRule {
  ir_enabled : bool; ir_op : BoolOp; ir_match : Match; ir_negate : bool;
  ir_condition : qstr; ir_dir : Dir
}.

Record InterceptFields := mkFields {
  if_isResponse : bool; if_method : qstr; if_url : qstr; if_host : qstr;
  if_fileExtension : qstr; if_contentType : qstr; if_statusCode : Z;
  if_headerNames : list qstr
}.

Definition headOf (msg : bytes) : bytes :=
  match index_sub [13; 10; 13; 10] msg with
  | Some sep => take sep msg
  | None => match index_sub [10; 10] msg with Some sep => take sep msg | None => msg end
  end.

Definition csv_item (item : qstr) : qstr :=
  let item := u_trimmed item in
  if starts_with_chr 46 item then drop 1 item else item.

Definition csvHas (csv needle : qstr) (substring : bool) : bool :=
  existsb (fun item0 =>
    let item := csv_item item0 in
    if is_nil item then false
    else if substring then u_contains_ci needle item else u_cieq needle item)
    (split_skip 44 csv).

Definition field_matches (r : InterceptRule) (f : InterceptFields) : bool :=
  let c := ir_condition r in
  match ir_match r with
  | Any => true
  | FileExtension => negb (is_nil (if_fileExtension f)) && csvHas c (if_fileExtension f) false
  | Method => negb (is_nil (if_method f)) && csvHas c (if_method f) false
  | ContentType => negb (is_nil (if_contentType f)) && csvHas c (if_contentType f) true
  | StatusCode => (0 <? if_statusCode f) && csvHas c (number 10 (if_statusCode f)) false
  | UrlRegex => rx_valid false c && rx_match false c (if_url f)
  | HostGlob => let p := rx_wildcard c in rx_valid true p && rx_match true p (if_host f)
  | HasHeader => rx_valid true c && existsb (rx_match true c) (if_headerNames f)
  end.

Definition ruleMatches (r : InterceptRule) (f : InterceptFields) : bool :=
  if ir_negate r then negb (field_matches r f) else field_matches r f.

Definition rule_applies (r : InterceptRule) (f : InterceptFields) : bool :=
  match ir_dir r with
  | DBoth => true
  | DResponse => if_isResponse f
  | DRequest => negb (if_isResponse f)
  end.

(** The loop, with [result] and [any]. *)
Fixpoint rules_loop (rules : list InterceptRule) (f : InterceptFields) (result any : bool) : bool * bool :=
  match rules with
  | [] => (result, any)
  | r :: rs =>
      if negb (ir_enabled r) then rules_loop rs f result any
      else if negb (rule_applies r f) then rules_loop rs f result any
      else
        let m := ruleMatches r f in
        if negb any then rules_loop rs f m true
        else rules_loop rs f
               (match ir_op r with And => result && m | Or => result || m end) any
  end.

Definition interceptRulesHold (rules : list InterceptRule) (f : InterceptFields) : bool :=
  let '(result, any) := rules_loop rules f true false in
  if any then result else true.

(** The header lines of a head: name and value bytes. *)
Definition head_field (line0 : bytes) : option (qstr * bytes) :=
  let line := b_trimmed line0 in
  match index_of 58 line with
  | None | Some O => None
  | Some colon => Some (u_lower (u_trimmed (take colon line)), drop (colon + 1) line)
  end.

Definition add_header (isRequest : bool) (f : InterceptFields) (line : bytes) : InterceptFields :=
  match head_field line with
  | None => f
  | Some (name, v) =>
      let names := if_headerNames f ++ [name] in
      if seq_eqb name (lit "content-type") then
        mkFields (if_isResponse f) (if_method f) (if_url f) (if_host f) (if_fileExtension f)
          (u_lower (u_trimmed v)) (if_statusCode f) names
      else if isRequest && seq_eqb name (lit "host") && is_nil (if_host f) then
        mkFields (if_isResponse f) (if_method f) (if_url f) (u_trimmed v) (if_fileExtension f)
          (if_contentType f) (if_statusCode f) names
      else
        mkFields (if_isResponse f) (if_method f) (if_url f) (if_host f) (if_fileExtension f)
          (if_contentType f) (if_statusCode f) names
  end.

Definition url_extension (url : qstr) : qstr :=
  let path := match index_of 63 url with Some q => take q url | None => url end in
  let seg := match last_index_of 47 path with Some i => drop (i + 1) path | None => path end in
  match last_index_of 46 seg with
  | Some dot => if (dot <? length seg - 1)%nat then u_lower (drop (dot + 1) seg) else []
  | None => []
  end.

Definition extractRequestFields (requestBytes : bytes) (host : qstr) : InterceptFields :=
  let lines := split_on 10 (headOf requestBytes) in
  let '(method, url) :=
    match split_on 32 (b_trimmed (hd [] lines)) with
    | m :: u :: _ => (u_upper m, u)
    | _ => ([], [])
    end in
  fold_left (add_header true) (tail lines)
    (mkFields false method url host (url_extension url) [] 0 []).

Definition extractResponseFields (responseBytes : bytes) (host : qstr) : InterceptFields :=
  let lines := split_on 10 (headOf responseBytes) in
  let code :=
    match split_on 32 (b_trimmed (hd [] lines)) with
    | _ :: c :: _ => default 0 (u_toint 10 c)
    | _ => 0
    end in
  fold_left (add_header false) (tail lines) (mkFields true [] [] host [] [] code []).

(** ** JSON form of the rules *)

Definition op_name (o : BoolOp) : qstr := match o with Or => lit "or" | And => lit "and" end.
Definition dir_name (d : Dir) : qstr :=
  match d with DRequest => lit "request" | DResponse => lit "response" | DBoth => lit "both" end.
Definition match_name (m : Match) : qstr :=
  match m with
  | Any => lit "any" | FileExtension => lit "file-extension" | Method => lit "method"
  | UrlRegex => lit "url-regex" | HostGlob => lit "host-glob"
  | ContentType => lit "content-type" | StatusCode => lit "status-code"
  | HasHeader => lit "has-header"
  end.

Definition interceptRulesToJson (rules : list InterceptRule) : list json :=
  map (fun r => JObject (object [
    (lit "enabled", JBool (ir_enabled r));
    (lit "op", JString (op_name (ir_op r)));
    (lit "match", JString (match_name (ir_match r)));
    (lit "negate", JBool (ir_negate r));
    (lit "condition", JString (ir_condition r));
    (lit "dir", JString (dir_name (ir_dir r)))])) rules.

Definition opFrom (s : qstr) : BoolOp := if seq_eqb s (lit "and") then And else Or.
Definition dirFrom (s : qstr) : Dir :=
  if seq_eqb s (lit "request") then DRequest
  else if seq_eqb s (lit "response") then DResponse else DBoth.
Definition matchFrom (s : qstr) : Match :=
  if seq_eqb s (lit "any") then Any
  else if seq_eqb s (lit "file-extension") then FileExtension
  else if seq_eqb s (lit "method") then Method
  else if seq_eqb s (lit "host-glob") then HostGlob
  else if seq_eqb s (lit "content-type") then ContentType
  else if seq_eqb s (lit "status-code") then StatusCode
  else if seq_eqb s (lit "has-header") then HasHeader
  else UrlRegex.

Definition interceptRulesFromJson (arr : list json) : list InterceptRule :=
  map (fun v =>
    let o := toObject v in
    mkRule (toBool true (value o (lit "enabled")))
           (opFrom (toString (value o (lit "op"))))
           (matchFrom (toString (value o (lit "match"))))
           (toBool false (value o (lit "negate")))
           (toString (value o (lit "condition")))
           (dirFrom (toString (value o (lit "dir"))))) arr.
End InterceptLogic.

(** ** Heads of well-formed messages *)

Definition is_term (t : bytes) : Prop := t = [13; 10] \/ t = [10].
Definition no_eol (c : bytes) : Prop := Forall (fun x => x <> 13 /\ x <> 10) c.
Definition line_ok (l : Line) : Prop := content l <> [] /\ no_eol (content l) /\ is_term (term l).

Definition head_bytes (ls : list Line) : bytes := flat_map line_bytes ls.

Lemma termLen_term t rest : is_term t -> termLen (t ++ rest) = length t.
Proof. by intros [->| ->]. Qed.

Lemma is_term_length t : is_term t -> (0 < length t)%nat.
Proof. intros [->| ->]; simpl; lia. Qed.

Lemma termLen_char x rest : x <> 13 -> x <> 10 -> termLen (x :: rest) = 0%nat.
Proof. intros H1 H2. unfold termLen. by zdecides. Qed.

Lemma termLenAt_app pre rest : termLenAt (pre ++ rest) (length pre) = termLen rest.
Proof. unfold termLenAt. by rewrite drop_app_length. Qed.

Lemma run_len_content c rest : no_eol c -> (0 < termLen rest)%nat -> run_len (c ++ rest) = length c.
Proof.
  intros Hc Hr. induction Hc as [|x c [Hx1 Hx2] _ IH]; cbn [app length].
  - destruct rest as [|y rest]; [done|]. cbn [run_len]. by zdecide.
  - cbn [run_len]. rewrite termLen_char by done. cbn [Nat.eqb]. by rewrite IH.
Qed.

(** A term boundary: where the next line or the blank line begins. *)
Lemma find_blank_content fuel pre c rest :
  no_eol c ->
  find_blank (length c + fuel) (pre ++ c ++ rest) (length pre)
  = find_blank fuel (pre ++ c ++ rest) (length pre + length c).
Proof.
  intros Hc. revert pre. induction Hc as [|x c [Hx1 Hx2] _ IH]; intros pre; cbn [length Nat.add app].
  - by rewrite Nat.add_0_r.
  - cbn [find_blank]. rewrite length_app. cbn [length]. zdecide.
    rewrite termLenAt_app, termLen_char by done. cbn [Nat.eqb].
    specialize (IH (pre ++ [x])). rewrite length_app, <- app_assoc in IH. cbn [length app] in IH.
    rewrite IH. f_equal. lia.
Qed.

Lemma find_blank_step fuel pre t rest :
  is_term t ->
  find_blank (S fuel) (pre ++ t ++ rest) (length pre)
  = if (0 <? termLen rest)%nat then Some (length pre, length t + termLen rest)%nat
    else find_blank fuel (pre ++ t ++ rest) (length pre + length t).
Proof.
  intros Ht. pose proof (is_term_length t Ht). cbn [find_blank]. rewrite !length_app. zdecide.
  rewrite termLenAt_app, termLen_term by done. zdecide.
  rewrite app_assoc, <- length_app, termLenAt_app. by rewrite length_app.
Qed.

(** The head ends where its last line does. *)
Definition last_start (ls : list Line) : nat :=
  (length (head_bytes ls) - match last ls with Some l => length (term l) | None => 0 end)%nat.

Lemma head_bytes_cons l ls : head_bytes (l :: ls) = content l ++ term l ++ head_bytes ls.
Proof. unfold head_bytes. cbn [flat_map]. unfold line_bytes at 1. by rewrite <- app_assoc. Qed.

Lemma last_start_cons l l' ls :
  line_ok l' -> last_start (l :: l' :: ls) = (length (line_bytes l) + last_start (l' :: ls))%nat.
Proof.
  intros Hl. unfold last_start. rewrite last_cons_cons, head_bytes_cons, !length_app.
  unfold line_bytes. rewrite length_app.
  assert (Hb : forall l2, last (l' :: ls) = Some l2 -> (length (term l2) <= length (head_bytes (l' :: ls)))%nat).
  { intros l2 E. apply last_Some in E as [k ->]. unfold head_bytes. rewrite flat_map_app. cbn [flat_map].
    rewrite !length_app. unfold line_bytes. rewrite length_app. lia. }
  destruct (last (l' :: ls)) as [l2|]; [specialize (Hb l2 eq_refl)|]; lia.
Qed.

Lemma find_blank_head ls : forall l fuel pre tb body,
  Forall line_ok (l :: ls) -> is_term tb -> (length (head_bytes (l :: ls)) < fuel)%nat ->
  find_blank fuel (pre ++ head_bytes (l :: ls) ++ tb ++ body) (length pre)
  = Some (length pre + last_start (l :: ls),
          match last (l :: ls) with Some l => length (term l) | None => 0 end + length tb)%nat.
Proof.
  induction ls as [|l' ls IH]; intros l fuel pre tb body Hls Htb Hf;
    apply Forall_cons in Hls as [(Hne & Hc & Ht) Hls]; rewrite head_bytes_cons in *;
    rewrite !length_app in Hf; pose proof (is_term_length _ Ht).
  - rewrite <- app_assoc, <- app_assoc.
    replace fuel with (length (content l) + S (fuel - length (content l) - 1))%nat by lia.
    rewrite find_blank_content by done. rewrite (app_assoc pre), <- length_app, find_blank_step by done.
    cbn [head_bytes flat_map app]. rewrite termLen_term by done. pose proof (is_term_length tb Htb). zdecide.
    cbn [last]. unfold last_start. cbn [last]. rewrite head_bytes_cons, !length_app. cbn [head_bytes flat_map length].
    do 2 f_equal. lia.
  - rewrite <- app_assoc, <- app_assoc.
    replace fuel with (length (content l) + S (fuel - length (content l) - 1))%nat by lia.
    rewrite find_blank_content by done. rewrite (app_assoc pre), <- length_app, find_blank_step by done.
    rewrite head_bytes_cons at 1. pose proof Hls as Hls'. apply Forall_cons in Hls' as [(Hne' & Hc' & Ht') _].
    destruct (content l') as [|x c'] eqn:E; [done|]. cbn [app]. apply Forall_cons in Hc' as [[Hx1 Hx2] _].
    rewrite termLen_char by done. cbn [Nat.ltb Nat.leb].
    rewrite <- length_app, (app_assoc (pre ++ content l)). rewrite IH by (done || lia).
    rewrite last_cons_cons, last_start_cons by (by apply Forall_cons in Hls as [? _]).
    unfold line_bytes. rewrite !length_app. do 2 f_equal. lia.
Qed.

Lemma mid_at pre c rest : mid (pre ++ c ++ rest) (length pre) (length c) = c.
Proof. by rewrite mid_app, take_app_length. Qed.

Lemma head_lines_step fuel pre l rest sep :
  line_ok l ->
  head_lines (S fuel) (pre ++ content l ++ term l ++ rest) sep (length pre)
  = if (sep <=? length pre + length (content l))%nat
    then ([l], (length pre + length (content l) + length (term l))%nat)
    else let '(ls, e) := head_lines fuel (pre ++ content l ++ term l ++ rest) sep
                           (length pre + length (content l) + length (term l)) in (l :: ls, e).
Proof.
  intros (Hne & Hc & Ht). pose proof (is_term_length _ Ht). cbn [head_lines].
  rewrite drop_app_length, run_len_content by (try done; rewrite termLen_term; done).
  assert (E1 : termLenAt (pre ++ content l ++ term l ++ rest) (length pre + length (content l))
    = length (term l)) by (by rewrite (app_assoc pre), <- length_app, termLenAt_app, termLen_term).
  assert (E2 : mid (pre ++ content l ++ term l ++ rest) (length pre + length (content l)) (length (term l))
    = term l) by (by rewrite (app_assoc pre), <- length_app, mid_at).
  rewrite E1, E2. replace (length pre + length (content l) - length pre)%nat with (length (content l)) by lia.
  rewrite mid_at. by destruct l.
Qed.

Lemma head_lines_head ls : forall l fuel pre tl,
  Forall line_ok (l :: ls) -> (length ls < fuel)%nat ->
  head_lines fuel (pre ++ head_bytes (l :: ls) ++ tl) (length pre + last_start (l :: ls)) (length pre)
  = (l :: ls, length pre + length (head_bytes (l :: ls)))%nat.
Proof.
  induction ls as [|l' ls IH]; intros l [|fuel] pre tl Hls Hf; cbn [length] in Hf; try lia;
    apply Forall_cons in Hls as [Hl Hls]; rewrite !head_bytes_cons, <- !app_assoc.
  - rewrite head_lines_step by done. unfold last_start. cbn [last]. rewrite head_bytes_cons, !length_app.
    cbn [head_bytes flat_map length]. zdecide. f_equal. lia.
  - rewrite head_lines_step by done. pose proof Hls as Hls'. apply Forall_cons in Hls' as [Hl' _].
    rewrite last_start_cons by done. unfold line_bytes. rewrite length_app.
    pose proof (is_term_length _ (proj2 (proj2 Hl))). zdecide.
    specialize (IH l' fuel (pre ++ content l ++ term l) tl Hls ltac:(lia)).
    rewrite !length_app, <- !app_assoc, !Nat.add_assoc in IH. rewrite !head_bytes_cons, <- !app_assoc in IH.
    rewrite !Nat.add_assoc, IH. f_equal. rewrite !length_app. lia.
Qed.

(** ** What recomputing the length does, line by line *)

Definition is_cl (l : Line) : bool :=
  match index_of 58 (content l) with
  | None | Some O => false
  | Some colon => seq_eqb (header_name (content l) colon) (lit "content-length")
  end.
Definition is_te_chunked (l : Line) : bool :=
  match index_of 58 (content l) with
  | None | Some O => false
  | Some colon => names_chunked (content l) colon
  end.
Definition is_real (l : Line) : bool := negb (is_nil (b_trimmed (content l))).

Definition cl_count (ls : list Line) : nat := length (List.filter is_cl ls).

(** A Content-Length line with its value replaced; any other line as it is. *)
Definition set_length (n : Z) (l : Line) : Line :=
  if is_cl l then
    mkLine (take (default 0%nat (index_of 58 (content l))) (content l) ++ lit ": " ++ number 10 n) (term l)
  else l.

Lemma classify_line_spec k l h :
  clCount (classify_line k (content l) h) = (clCount h + if is_cl l then 1 else 0)%nat /\
  clLineIdx (classify_line k (content l) h) = (if is_cl l then Some k else clLineIdx h) /\
  teChunked (classify_line k (content l) h) = teChunked h || is_te_chunked l /\
  hasRealHeader (classify_line k (content l) h) = hasRealHeader h || is_real l.
Proof.
  unfold classify_line, is_cl, is_te_chunked, is_real.
  destruct (index_of 58 (content l)) as [[|c]|]; cbn [clCount clLineIdx teChunked hasRealHeader];
    rewrite ?orb_false_r, ?Nat.add_0_r; try done.
  destruct (seq_eqb _ (lit "content-length")) eqn:E; cbn [clCount clLineIdx teChunked hasRealHeader].
  - assert (names_chunked (content l) (S c) = false) as ->.
    { unfold names_chunked. apply seq_eqb_eq in E. by rewrite E. }
    rewrite orb_false_r. repeat split; lia.
  - destruct (names_chunked _ _) eqn:En; cbn [clCount clLineIdx teChunked hasRealHeader]; rewrite ?orb_true_r, ?orb_false_r; repeat split; lia.
Qed.

Lemma classify_spec ls : forall k h,
  let r := classify k ls h in
  clCount r = (clCount h + cl_count ls)%nat /\
  teChunked r = teChunked h || existsb is_te_chunked ls /\
  hasRealHeader r = hasRealHeader h || existsb is_real ls.
Proof.
  induction ls as [|l ls IH]; intros k h; cbn [classify existsb].
  - unfold cl_count. cbn. by rewrite Nat.add_0_r, !orb_false_r.
  - destruct (IH (S k) (classify_line k (content l) h)) as (-> & -> & ->).
    destruct (classify_line_spec k l h) as (-> & _ & -> & ->).
    unfold cl_count. cbn [List.filter]. rewrite !orb_assoc. split; [|done].
    destruct (is_cl l); cbn [length]; lia.
Qed.

Lemma classify_idx ls : forall k h,
  (cl_count ls = 0%nat -> clLineIdx (classify k ls h) = clLineIdx h) /\
  (cl_count ls <> 0%nat -> exists j, clLineIdx (classify k ls h) = Some j /\ (k <= j)%nat).
Proof.
  induction ls as [|l ls IH]; intros k h; cbn [classify]; [done|].
  destruct (IH (S k) (classify_line k (content l) h)) as [H0 H1].
  destruct (classify_line_spec k l h) as (_ & Hidx & _). unfold cl_count in *. cbn [List.filter].
  destruct (is_cl l); cbn [length].
  - split; [lia|]. intros _. destruct (decide (length (List.filter is_cl ls) = 0%nat)) as [E|E].
    + exists k. rewrite H0 by done. done.
    + destruct (H1 E) as (j & -> & ?). exists j. split; [done|lia].
  - split; [intros; by rewrite H0|]. intros E. destruct (H1 E) as (j & -> & ?). exists j. split; [done|lia].
Qed.

Lemma out_lines_past n ls : forall j k, (forall i, j = Some i -> (i < k)%nat) -> out_lines n j k ls = head_bytes ls.
Proof.
  induction ls as [|l ls IH]; intros j k Hj; cbn [out_lines]; [done|].
  unfold head_bytes. cbn [flat_map]. fold (head_bytes ls). rewrite IH by (intros i E; specialize (Hj i E); lia).
  unfold out_line. rewrite bool_decide_eq_false_2; [done|]. intros E. specialize (Hj k E). lia.
Qed.

Lemma set_length_none n ls : cl_count ls = 0%nat -> map (set_length n) ls = ls.
Proof.
  induction ls as [|l ls IH]; [done|]. unfold cl_count in *. cbn. unfold set_length at 1.
  destruct (is_cl l); cbn; intros E; [done|]. by rewrite IH.
Qed.

Lemma out_lines_set n ls : forall k h,
  (cl_count ls <= 1)%nat -> clLineIdx h = None ->
  out_lines n (clLineIdx (classify k ls h)) k ls = head_bytes (map (set_length n) ls).
Proof.
  induction ls as [|l ls IH]; intros k h Hn Hh; cbn [classify out_lines map]; [done|].
  destruct (classify_line_spec k l h) as (_ & Hidx & _).
  destruct (classify_idx ls (S k) (classify_line k (content l) h)) as [H0 H1].
  unfold cl_count in Hn. cbn [List.filter] in Hn. unfold head_bytes. cbn [flat_map]. fold (head_bytes (map (set_length n) ls)).
  unfold set_length at 1. destruct (is_cl l) eqn:E; cbn [length] in Hn.
  - rewrite H0 by (unfold cl_count; lia). rewrite Hidx. rewrite out_lines_past by (intros i [= <-]; lia).
    rewrite set_length_none by (unfold cl_count; lia). unfold out_line, line_bytes.
    rewrite bool_decide_eq_true_2 by done. cbn [content term]. by rewrite <- !app_assoc.
  - rewrite IH by (unfold cl_count; lia || congruence). unfold out_line.
    rewrite bool_decide_eq_false_2; [done|].
    destruct (decide (cl_count ls = 0%nat)) as [E0|E0]; [rewrite H0 by done; congruence|].
    destruct (H1 E0) as (j & -> & ?). intros [= ->]. lia.
Qed.

Lemma findBlank_head l ls tb body :
  Forall line_ok (l :: ls) -> is_term tb ->
  findBlank (head_bytes (l :: ls) ++ tb ++ body)
  = Some (last_start (l :: ls),
          match last (l :: ls) with Some l => length (term l) | None => 0 end + length tb)%nat.
Proof.
  intros Hls Htb. apply (find_blank_head ls l _ [] tb body); [done..|]. rewrite !length_app. lia.
Qed.

Lemma length_head_bytes ls : Forall line_ok ls -> (length ls <= length (head_bytes ls))%nat.
Proof.
  induction 1 as [|l ls (Hne & _ & _) _ IH]; [done|]. rewrite head_bytes_cons, !length_app. cbn [length].
  destruct (content l); [done|]. cbn [length]. lia.
Qed.

(** Updating Content-Length is surgical.  For any well-formed request (header
    lines ended by CRLF or LF in any mixture, blank line, body): a chunked
    message or one with several Content-Length fields is returned verbatim;
    otherwise only the value of the one Content-Length line becomes the length
    of the body, or, when there is none, a body is given one header in the
    last line's own terminator; every other byte is kept. *)
Theorem recomputeContentLength_surgical l ls tb body :
  Forall line_ok (l :: ls) -> is_term tb ->
  let lines := l :: ls in
  let req := head_bytes lines ++ tb ++ body in
  recomputeContentLength req =
    if existsb is_te_chunked lines || (1 <? cl_count lines)%nat then req
    else head_bytes (map (set_length (zlen body)) lines)
         ++ (if (cl_count lines =? 0)%nat && negb (is_nil body) && existsb is_real lines
             then lit "Content-Length: " ++ number 10 (zlen body) ++ term (List.last lines l)
             else [])
         ++ tb ++ body.
Proof.
  intros Hls Htb lines req. unfold recomputeContentLength, req, lines. rewrite findBlank_head by done.
  rewrite (head_lines_head ls l _ [] (tb ++ body) Hls) by
    (pose proof (length_head_bytes _ Hls) as Hh; cbn [length] in Hh; rewrite length_app; lia).
  cbn [app length Nat.add]. rewrite drop_app_length, termLen_term, zlen_app by done.
  replace (zlen tb + zlen body - Z.of_nat (length tb)) with (zlen body) by (unfold zlen; lia).
  set (h := classify _ _ _). destruct (classify_spec (l :: ls) 0 (mkClass 0 None false false)) as (E1 & E2 & E3).
  fold h in E1, E2, E3. cbn [clCount teChunked hasRealHeader orb Nat.add] in E1, E2, E3.
  rewrite E1, E2, E3. destruct (_ || _) eqn:Eb; [done|]. split_bools; to_prop.
  unfold h. rewrite out_lines_set by done. fold h. do 2 f_equal.
  destruct (classify_idx (l :: ls) 0 (mkClass 0 None false false)) as [I0 I1]. fold h in I0, I1.
  assert (Hbody : (0 <? zlen body) = negb (is_nil body))
    by (destruct body; [done|]; rewrite zlen_cons; pose proof (zlen_nonneg body); by zdecide).
  destruct (decide (cl_count (l :: ls) = 0%nat)) as [Ez|Ez].
  - rewrite I0, Ez, Hbody by done. cbn [clLineIdx Nat.eqb andb]. destruct (_ && _); [|done].
    do 2 f_equal. destruct (last (l :: ls)) as [l2|] eqn:El; [|by apply last_None in El].
    apply last_Some in El as [k El]. by rewrite El, List.last_last.
  - destruct (I1 Ez) as (j & -> & _). by zdecide.
Qed.

Lemma recomputeContentLength_surgical_witness :
  recomputeContentLength (lit "POST / HTTP/1.1" ++ [13; 10] ++ lit "content-length : 9" ++ [10]
    ++ [13; 10] ++ lit "hello")
  = lit "POST / HTTP/1.1" ++ [13; 10] ++ lit "content-length : 5" ++ [10] ++ [13; 10] ++ lit "hello".
Proof.
  refine (eq_trans (recomputeContentLength_surgical (mkLine (lit "POST / HTTP/1.1") [13; 10])
    [mkLine (lit "content-length : 9") [10]] [13; 10] (lit "hello") _ _) _).
  - constructor; [|constructor; [|constructor]];
      (split; [discriminate|split; [repeat constructor; discriminate|]]); [by left|by right].
  - by left.
  - reflexivity.
Defined.

(** ** The trailing-newline repair *)

Definition declares (l : Line) : bool := is_cl l || is_te_chunked l.

Lemma declares_line l : declares_body_line (content l) = declares l.
Proof.
  unfold declares_body_line, declares, is_cl, is_te_chunked. by destruct (index_of 58 (content l)) as [[|]|].
Qed.

Lemma declares_body_head ls : forall fuel pre tb,
  Forall line_ok ls -> is_term tb -> (S (length ls) < fuel)%nat ->
  declares_body fuel (pre ++ head_bytes ls ++ tb) (length pre) = existsb declares ls.
Proof.
  induction ls as [|l ls IH]; intros [|fuel] pre tb Hls Htb Hf; cbn [length] in Hf; try lia;
    pose proof (is_term_length _ Htb).
  - cbn [head_bytes flat_map app existsb declares_body]. rewrite length_app. zdecide.
    rewrite drop_app_length. assert (run_len tb = 0%nat) as -> by (by destruct Htb as [-> | ->]).
    rewrite Nat.add_0_r, Nat.sub_diag. cbn [mid take]. change (declares_body_line []) with false. cbv iota.
    rewrite <- (app_nil_r tb), termLenAt_app, termLen_term, app_nil_r by done.
    destruct fuel; [lia|]. cbn [declares_body]. rewrite length_app. by zdecide.
  - apply Forall_cons in Hls as [Hl Hls]. pose proof Hl as (Hne & Hc & Ht). pose proof (is_term_length _ Ht).
    rewrite head_bytes_cons, <- !app_assoc. cbn [declares_body existsb].
    assert (0 < length (content l))%nat by (destruct (content l); [done|cbn; lia]).
    rewrite !length_app. zdecide.
    rewrite drop_app_length, run_len_content by (try done; by rewrite termLen_term).
    replace (length pre + length (content l) - length pre)%nat with (length (content l)) by lia.
    rewrite mid_at, declares_line. destruct (declares l); [done|].
    rewrite (app_assoc pre (content l)), <- length_app, termLenAt_app, termLen_term by done.
    rewrite (app_assoc _ (term l)), <- length_app. apply IH; [done..|lia].
Qed.

Lemma termLenAt_skip pre s n : termLenAt (pre ++ s) (length pre + n) = termLenAt s n.
Proof. unfold termLenAt. by rewrite <- drop_drop, drop_app_length. Qed.

(** The search on the part of the message it found. *)
Lemma termLen_take k b : (termLen b <= k)%nat -> termLen (take k b) = termLen b.
Proof.
  destruct b as [|x [|y b]], k as [|[|k]]; cbn; try done; repeat case_match; try done; lia.
Qed.

Lemma termLenAt_take K b j : (j + termLenAt b j <= K)%nat -> termLenAt (take K b) j = termLenAt b j.
Proof. unfold termLenAt. intros Hj. rewrite skipn_firstn_comm. apply termLen_take. lia. Qed.

Lemma find_blank_take fuel req : forall i s n,
  find_blank fuel req i = Some (s, n) ->
  (i <= s)%nat /\ (0 < n)%nat /\ find_blank fuel (take (s + n) req) i = Some (s, n).
Proof.
  induction fuel as [|fuel IH]; intros i s n; cbn [find_blank]; [done|].
  destruct (length req <=? i)%nat eqn:El; [done|]. to_prop. rewrite length_take.
  destruct (termLenAt req i) as [|t1] eqn:E1; cbn [Nat.eqb].
  - intros Hf. destruct (IH _ _ _ Hf) as (Hi & Hn & Ht). rewrite termLenAt_take by lia.
    rewrite E1. cbn [Nat.eqb]. zdecide. rewrite Ht. split; [lia|done].
  - destruct (termLenAt req (i + S t1)) as [|t2] eqn:E2; cbn [Nat.ltb Nat.leb].
    + intros Hf. destruct (IH _ _ _ Hf) as (Hi & Hn & Ht). rewrite (termLenAt_take _ _ i) by (rewrite ?E1; lia).
      rewrite E1. cbn [Nat.eqb]. rewrite termLenAt_take by lia. rewrite E2. cbn [Nat.ltb Nat.leb].
      zdecide. rewrite Ht. split; [lia|done].
    + intros [= <- <-]. rewrite termLenAt_take by lia. rewrite E1. cbn [Nat.eqb].
      rewrite termLenAt_take by lia. rewrite E2. cbn [Nat.ltb Nat.leb]. zdecide. split; [lia|]. split; [lia|done].
Qed.

Lemma find_blank_fuel fuel req : forall fuel' i r,
  find_blank fuel req i = Some r -> (length req - i < fuel')%nat -> find_blank fuel' req i = Some r.
Proof.
  induction fuel as [|fuel IH]; intros [|fuel'] i r; cbn [find_blank]; try (done || lia).
  destruct (length req <=? i)%nat eqn:El; [done|]. to_prop.
  destruct (termLenAt req i =? 0)%nat eqn:E1; to_prop; [intros; apply IH; [done|lia]|].
  destruct (0 <? _)%nat; [done|]. intros; apply IH; [done|lia].
Qed.

(** Two adjacent equal terminators at the end are enough for a blank line. *)
Lemma find_blank_ends t : is_term t -> forall fuel u pre,
  (length (u ++ t ++ t) < fuel)%nat ->
  exists r, find_blank fuel (pre ++ u ++ t ++ t) (length pre) = Some r.
Proof.
  intros Ht. pose proof (is_term_length _ Ht). induction fuel as [|fuel IH]; intros u pre Hf; [lia|].
  cbn [find_blank]. rewrite length_app. rewrite !length_app in Hf |- *. zdecide.
  rewrite termLenAt_app. destruct (termLen (u ++ t ++ t)) as [|t1] eqn:E1; cbn [Nat.eqb].
  - destruct u as [|x u]; [cbn [app] in E1; rewrite termLen_term in E1 by done; lia|].
    cbn [length] in Hf. change (pre ++ (x :: u) ++ t ++ t) with (pre ++ [x] ++ u ++ t ++ t).
    rewrite (app_assoc pre). destruct (IH u (pre ++ [x])) as [r Hr]; [rewrite !length_app; lia|].
    exists r. rewrite <- Hr. rewrite length_app. done.
  - destruct (termLenAt _ _) eqn:E2; [|by eexists]. cbn [Nat.ltb Nat.leb].
    assert (Hu : exists v w, u = v ++ w /\ length v = S t1).
    { destruct u as [|x [|y u]].
      - exfalso. cbn [app] in E1, E2. rewrite termLen_term in E1 by done. revert E2.
        cbn [app]. rewrite <- E1, termLenAt_skip, termLenAt_app. by destruct Ht as [-> | ->].
      - destruct t1 as [|t1]; [by exists [x], []|]. exfalso.
        rewrite termLenAt_skip in E2.
        destruct Ht as [-> | ->]; revert E1 E2; cbn; repeat case_match; intros; simplify_eq/=; to_prop; simplify_eq.
      - assert (t1 <= 1)%nat by (revert E1; cbn; repeat case_match; lia).
        exists (take (S t1) (x :: y :: u)), (drop (S t1) (x :: y :: u)). rewrite take_drop, length_take. split; [done|]. cbn [length]. lia. }
    destruct Hu as (v & w & -> & Hv). rewrite <- Hv, <- (app_assoc v).
    destruct (IH w (pre ++ v)) as [r Hr]; [rewrite !length_app in *; lia|].
    exists r. rewrite <- Hr, length_app, <- app_assoc. done.
Qed.

Lemma message_term_ok req : is_term (message_term req).
Proof.
  unfold message_term. destruct (index_of 10 req) as [[|i]|]; [by right| |by left].
  destruct (_ =? _); [by left|by right].
Qed.

Lemma ends_with_split p s : ends_with p s = true -> exists u, s = u ++ p.
Proof. apply ends_with_spec. Qed.

(** The newline repair always yields a message whose head is closed by a blank
    line; on a well-formed request it removes exactly a tail of stray line
    ends, and nothing when there is a real body or the head declares one. *)
Theorem fixTrailingNewline_correct :
  (forall req, findBlank (fixTrailingNewline req) <> None) /\
  (forall l ls tb body, Forall line_ok (l :: ls) -> is_term tb ->
     let req := head_bytes (l :: ls) ++ tb ++ body in
     fixTrailingNewline req =
       if forallb (fun c => (c =? 13) || (c =? 10)) body && negb (existsb declares (l :: ls))
       then head_bytes (l :: ls) ++ tb else req).
Proof.
  split.
  - intros req. unfold fixTrailingNewline. destruct (findBlank req) as [[sep n]|] eqn:E.
    + assert (Hh : findBlank (take (sep + n) req) <> None).
      { destruct (find_blank_take _ _ _ _ _ E) as (_ & _ & Ht). unfold findBlank.
        rewrite (find_blank_fuel _ _ (S (length (take (sep + n) req))) _ _ Ht); [done|lia]. }
      repeat case_match; try done; by rewrite E.
    + pose proof (message_term_ok req) as Ht. set (t := message_term req) in *. clearbody t.
      assert (Hu : exists u, (if ends_with t req then req else req ++ t) ++ t = u ++ t ++ t).
      { destruct (ends_with t req) eqn:Ee; [|exists req; by rewrite app_assoc].
        apply ends_with_split in Ee as [u ->]. exists u. by rewrite app_assoc. }
      destruct Hu as [u ->]. unfold findBlank.
      destruct (find_blank_ends t Ht (S (length (u ++ t ++ t))) u [] ltac:(lia)) as [r Hr].
      cbn [app length] in Hr. by rewrite Hr.
  - intros l ls tb body Hls Htb req. unfold fixTrailingNewline, req. rewrite findBlank_head by done.
    set (n := (last_start (l :: ls) + _)%nat).
    assert (Hn : n = length (head_bytes (l :: ls) ++ tb)).
    { unfold n, last_start. rewrite length_app.
      destruct (last (l :: ls)) as [l2|] eqn:El; [|by apply last_None in El]. apply last_Some in El as [k El].
      rewrite El. unfold head_bytes. rewrite flat_map_app. cbn [flat_map]. rewrite !length_app.
      unfold line_bytes. rewrite length_app. lia. }
    rewrite app_assoc, Hn, take_app_length, drop_app_length.
    destruct body as [|b body]; [cbn; rewrite app_nil_r; by destruct (negb _)|]. cbn [is_nil].
    assert (Hex : existsb (fun c => negb (c =? 13) && negb (c =? 10)) (b :: body)
      = negb (forallb (fun c => (c =? 13) || (c =? 10)) (b :: body))).
    { generalize (b :: body). induction l0 as [|c l0 IH]; [done|]. cbn. rewrite IH.
      by destruct (c =? 13), (c =? 10). }
    rewrite Hex. destruct (forallb _ _); cbn [negb andb]; [|done].
    rewrite (declares_body_head (l :: ls) _ [] tb Hls Htb). { destruct (existsb declares (l :: ls)); reflexivity. }
    pose proof (length_head_bytes _ Hls). pose proof (is_term_length _ Htb). rewrite length_app. cbn [length] in *. lia.
Qed.

Lemma fixTrailingNewline_correct_witness :
  findBlank (fixTrailingNewline (lit "GET / HTTP/1.1" ++ [10] ++ lit "Host: a")) <> None /\
  fixTrailingNewline (lit "GET / HTTP/1.1" ++ [13; 10] ++ [13; 10] ++ [10; 13; 10])
  = lit "GET / HTTP/1.1" ++ [13; 10] ++ [13; 10].
Proof.
  split; [apply (proj1 fixTrailingNewline_correct)|].
  refine (eq_trans (proj2 fixTrailingNewline_correct (mkLine (lit "GET / HTTP/1.1") [13; 10]) []
    [13; 10] [10; 13; 10] _ _) _).
  - constructor; [|constructor]. split; [discriminate|]. split; [repeat constructor; discriminate|by left].
  - by left.
  - reflexivity.
Defined.

(** ** Rules *)

(** The JSON form is faithful: any list of match rules (any text in the
    conditions) written for the control API or the project file is read back
    as the same rules in the same order. *)
Theorem interceptRules_json_roundtrip rules :
  interceptRulesFromJson (interceptRulesToJson rules) = rules.
Proof.
  unfold interceptRulesFromJson, interceptRulesToJson. rewrite map_map. rewrite <- (map_id rules) at 2.
  apply map_ext. intros [en op m neg cond dir]. destruct op, m, dir; reflexivity.
Qed.

(** Rules that do not apply to the message are skipped; with none left, it is held. *)
Lemma rules_loop_filter `{QtText, QtRegex} rules f : forall result any,
  rules_loop rules f result any
  = rules_loop (List.filter (fun r => ir_enabled r && rule_applies r f) rules) f result any.
Proof.
  induction rules as [|r rs IH]; intros result any; cbn [rules_loop List.filter]; [done|].
  destruct (ir_enabled r) eqn:E; cbn [negb andb]; [|apply IH].
  destruct (rule_applies r f) eqn:E2; cbn [negb]; [|apply IH].
  cbn [rules_loop]. rewrite E, E2. cbn [negb]. destruct any; cbn [negb]; apply IH.
Qed.

Lemma interceptRulesHold_default `{QtText, QtRegex} rules f :
  Forall (fun r => ir_enabled r && rule_applies r f = false) rules -> interceptRulesHold rules f = true.
Proof.
  intros Hf. unfold interceptRulesHold. rewrite rules_loop_filter.
  replace (List.filter _ rules) with (@nil InterceptRule); [done|].
  induction Hf as [|r rs Hr _ IH]; cbn; [done|]. by rewrite Hr.
Qed.
