(* ===== verification/InterceptController.v ===== *)
(** * The intercept controller: Src/BackEnd/Proxy/intercept.{hpp,cpp}

    [InterceptController] is a state machine shared by the main thread and the
    per-connection workers.  Its state is the record of that name; a pending
    message is an entry of [m_heap], named by its id.  [exec] is one atomic
    action: a main-thread slot (each runs to its end on the main thread, which
    is the only one to touch [m_current] and [m_queue]), a worker posting a
    pending, or a worker resumed by the semaphore.  [m_mailbox] is the
    main thread's queue of [addPendingOnMain] invocations. *)

From S2P Require Import Prelude Qt QtSample QMap Json InterceptLogic.

Local Open Scope Z_scope.

Section InterceptController.
Context `{QtText} `{QtRegex}.

Inductive Kind := KRequest | KResponse.
#[export] Instance Kind_eq_dec : EqDecision Kind.
Proof. solve_decision. Defined.

Record PendingRequest := mkPending {
  m_id : Z; m_kind : Kind; m_text : qstr; m_host : qstr; m_port : Z; m_tls : bool;
  m_originalBytes : bytes;
  m_done : nat;             (* the semaphore's count *)
  m_decision : Z;           (* 0 = forward, 1 = drop *)
  m_holdResponse : bool; m_forceHold : bool
}.

Record InterceptResult := mkResult { ir_dropped : bool; ir_bytes : bytes; ir_holdResponse : bool }.

Record Controller := mkController {
  m_enabled : bool; m_enabledResponses : bool;
  m_autoContentLength : bool; m_autoFixNewlines : bool;
  m_current : option Z; m_queue : list Z; m_nextId : Z;
  m_interceptRules : list InterceptRule;
  m_heap : gmap Z PendingRequest; m_mailbox : list Z
}.

Definition initController : Controller :=
  mkController false false true true None [] 1 [] ∅ [].

(** Field updates. *)
Definition with_parked (s : Controller) (cur : option Z) (q : list Z) : Controller :=
  mkController (m_enabled s) (m_enabledResponses s) (m_autoContentLength s) (m_autoFixNewlines s)
    cur q (m_nextId s) (m_interceptRules s) (m_heap s) (m_mailbox s).
Definition with_heap (s : Controller) (h : gmap Z PendingRequest) : Controller :=
  mkController (m_enabled s) (m_enabledResponses s) (m_autoContentLength s) (m_autoFixNewlines s)
    (m_current s) (m_queue s) (m_nextId s) (m_interceptRules s) h (m_mailbox s).
Definition with_mailbox (s : Controller) (n : Z) (mb : list Z) : Controller :=
  mkController (m_enabled s) (m_enabledResponses s) (m_autoContentLength s) (m_autoFixNewlines s)
    (m_current s) (m_queue s) n (m_interceptRules s) (m_heap s) mb.
Definition with_toggles (s : Controller) (e er cl fx : bool) : Controller :=
  mkController e er cl fx
    (m_current s) (m_queue s) (m_nextId s) (m_interceptRules s) (m_heap s) (m_mailbox s).

Definition queueDepth (s : Controller) : Z :=
  zlen (m_queue s) + match m_current s with Some _ => 1 | None => 0 end.

(** [decision.storeRelease(d); done.release()], with the text and the hold flag
    the caller stored before. *)
Definition resolve (d : Z) (text : option qstr) (hold : bool) (p : PendingRequest) : PendingRequest :=
  mkPending (m_id p) (m_kind p) (default (m_text p) text) (m_host p) (m_port p) (m_tls p)
    (m_originalBytes p) (S (m_done p)) d (hold || m_holdResponse p) (m_forceHold p).

Definition release (d : Z) (text : option qstr) (hold : bool) (s : Controller) (p : Z) : Controller :=
  with_heap s (alter (resolve d text hold) p (m_heap s)).

Definition release_all (s : Controller) (ps : list Z) : Controller :=
  fold_left (release 0 None false) ps s.

Definition promoteNextLocked (s : Controller) : Controller :=
  match m_queue s with
  | [] => with_parked s None []
  | p :: q => with_parked s (Some p) q
  end.

Definition forward (s : Controller) (editedText : qstr) : Controller :=
  match m_current s with
  | None => s
  | Some p => promoteNextLocked (release 0 (Some editedText) false s p)
  end.

Definition forwardInterceptingResponse (s : Controller) (editedText : qstr) : Controller :=
  match m_current s with
  | None => s
  | Some p => promoteNextLocked (release 0 (Some editedText) true s p)
  end.

Definition drop_current (s : Controller) : Controller :=
  match m_current s with
  | None => s
  | Some p => promoteNextLocked (release 1 None false s p)
  end.

Definition releaseAllAsForward (s : Controller) : Controller :=
  release_all (with_parked s None []) (option_list (m_current s) ++ m_queue s).

Definition forwardAll (s : Controller) : Controller := releaseAllAsForward s.

Definition has_kind (s : Controller) (kind : Kind) (p : Z) : bool :=
  match m_heap s !! p with Some pd => bool_decide (m_kind pd = kind) | None => false end.

Definition releaseKindAsForward (s : Controller) (kind : Kind) : Controller :=
  let toRelease := List.filter (has_kind s kind) (m_queue s) in
  let keep := List.filter (fun p => negb (has_kind s kind p)) (m_queue s) in
  match m_current s with
  | Some c =>
      if has_kind s kind c then
        release_all (promoteNextLocked (with_parked s (Some c) keep)) (toRelease ++ [c])
      else release_all (with_parked s (Some c) keep) toRelease
  | None => release_all (with_parked s None keep) toRelease
  end.

Definition setEnabled (s : Controller) (e : bool) : Controller :=
  if Bool.eqb e (m_enabled s) then s
  else
    let s := with_toggles s e (m_enabledResponses s) (m_autoContentLength s) (m_autoFixNewlines s) in
    if e then s else releaseKindAsForward s KRequest.

Definition setResponsesEnabled (s : Controller) (e : bool) : Controller :=
  if Bool.eqb e (m_enabledResponses s) then s
  else
    let s := with_toggles s (m_enabled s) e (m_autoContentLength s) (m_autoFixNewlines s) in
    if e then s else releaseKindAsForward s KResponse.

Definition setAutoContentLength (s : Controller) (e : bool) : Controller :=
  with_toggles s (m_enabled s) (m_enabledResponses s) e (m_autoFixNewlines s).
Definition setAutoFixNewlines (s : Controller) (e : bool) : Controller :=
  with_toggles s (m_enabled s) (m_enabledResponses s) (m_autoContentLength s) e.

Definition setInterceptRules (s : Controller) (rules : list InterceptRule) : Controller :=
  mkController (m_enabled s) (m_enabledResponses s) (m_autoContentLength s) (m_autoFixNewlines s)
    (m_current s) (m_queue s) (m_nextId s) rules (m_heap s) (m_mailbox s).

Definition kindEnabled (s : Controller) (pd : PendingRequest) : bool :=
  m_forceHold pd || match m_kind pd with KResponse => m_enabledResponses s | KRequest => m_enabled s end.

Definition addPendingOnMain (s : Controller) (p : Z) : Controller :=
  match m_heap s !! p with
  | None => s
  | Some pd =>
      if negb (kindEnabled s pd) then release 0 None false s p
      else if negb (interceptQueueHasRoom (queueDepth s)) then release 0 None false s p
      else match m_current s with
           | None => with_parked s (Some p) (m_queue s)
           | Some c => with_parked s (Some c) (m_queue s ++ [p])
           end
  end.

(** [pend] and [pendResponse] up to the call of [pendImpl]: is the message held? *)
Definition pend_holds (s : Controller) (requestBytes : bytes) (host : qstr) : bool :=
  m_enabled s &&
  (is_nil (m_interceptRules s)
   || interceptRulesHold (m_interceptRules s) (extractRequestFields requestBytes host)).

Definition pendResponse_holds (s : Controller) (responseBytes : bytes) (host : qstr)
    (forceHold : bool) : bool :=
  forceHold ||
  (m_enabledResponses s &&
   (is_nil (m_interceptRules s)
    || interceptRulesHold (m_interceptRules s) (extractResponseFields responseBytes host))).

(** [pendImpl] up to [done.acquire()]: the pending is built and posted. *)
Definition pendImpl_post (s : Controller) (data : bytes) (host : qstr) (port : Z) (tls : bool)
    (kind : Kind) (forceHold : bool) : Controller :=
  let p := m_nextId s in
  let pd := mkPending p kind (u_fromutf8 data) host port tls data 0 0 false forceHold in
  with_mailbox (with_heap s (<[p := pd]> (m_heap s))) (p + 1) (m_mailbox s ++ [p]).

(** [pendImpl] after [done.acquire()]: the outgoing bytes. *)
Definition pendImpl_result (s : Controller) (pd : PendingRequest) : InterceptResult :=
  let dropped := m_decision pd =? 1 in
  let isRequest := bool_decide (m_kind pd = KRequest) in
  if dropped then mkResult true [] (m_holdResponse pd)
  else
    let fr := resolveForward (m_originalBytes pd) (m_text pd) in
    let b1 := if shouldFixTrailingNewline dropped isRequest (m_autoFixNewlines s) (fr_edited fr)
              then fixTrailingNewline (fr_bytes fr) else fr_bytes fr in
    let b2 := if shouldRecomputeContentLength dropped isRequest (m_autoContentLength s) (fr_edited fr)
              then recomputeContentLength b1 else b1 in
    mkResult false b2 (m_holdResponse pd).

(** ** Actions *)

Inductive Action :=
| ASetEnabled (e : bool) | ASetResponses (e : bool)
| ASetAutoCL (e : bool) | ASetAutoFix (e : bool)
| AForward (text : qstr) | AForwardHold (text : qstr) | ADrop | AForwardAll
| ASetRules (rules : list InterceptRule)
| ADeliver                                   (* the next queued addPendingOnMain *)
| APost (data : bytes) (host : qstr) (port : Z) (tls : bool) (kind : Kind) (forceHold : bool)
| AResume (p : Z) (r : InterceptResult).     (* the worker of [p] acquires and returns *)

(** [pend] never forces; a post may follow a check made in an earlier state, so
    it is allowed in any state. The resumed worker's pending is deleted. *)
Inductive step : Controller -> Action -> Controller -> Prop :=
| step_enabled s e : step s (ASetEnabled e) (setEnabled s e)
| step_responses s e : step s (ASetResponses e) (setResponsesEnabled s e)
| step_autocl s e : step s (ASetAutoCL e) (setAutoContentLength s e)
| step_autofix s e : step s (ASetAutoFix e) (setAutoFixNewlines s e)
| step_forward s t : step s (AForward t) (forward s t)
| step_forward_hold s t : step s (AForwardHold t) (forwardInterceptingResponse s t)
| step_drop s : step s ADrop (drop_current s)
| step_forward_all s : step s AForwardAll (forwardAll s)
| step_rules s rules : step s (ASetRules rules) (setInterceptRules s rules)
| step_deliver s p mb :
    m_mailbox s = p :: mb ->
    step s ADeliver (addPendingOnMain (with_mailbox s (m_nextId s) mb) p)
| step_post s data host port tls kind forceHold :
    (forceHold = true -> kind = KResponse) ->
    step s (APost data host port tls kind forceHold) (pendImpl_post s data host port tls kind forceHold)
| step_resume s p pd :
    m_heap s !! p = Some pd -> (0 < m_done pd)%nat ->
    step s (AResume p (pendImpl_result s pd)) (with_heap s (delete p (m_heap s))).
End InterceptController.

(** ** Invariant *)

Section Invariant.
Context `{QtText} `{QtRegex}.

Definition parked (s : Controller) : list Z := option_list (m_current s) ++ m_queue s.
Definition waiting (s : Controller) : list Z := parked s ++ m_mailbox s.

Definition untouched (pd : PendingRequest) : Prop :=
  m_done pd = 0%nat /\ m_text pd = u_fromutf8 (m_originalBytes pd) /\
  m_decision pd = 0 /\ m_holdResponse pd = false.

Record inv (s : Controller) : Prop := mkInv {
  inv_current : m_current s = None -> m_queue s = [];
  inv_nodup : NoDup (waiting s);
  inv_waiting p : p ∈ waiting s -> exists pd, m_heap s !! p = Some pd /\ untouched pd;
  inv_released p pd : m_heap s !! p = Some pd -> p ∉ waiting s -> m_done pd = 1%nat;
  inv_room : zlen (parked s) <= kMaxPendingIntercepts;
  inv_ids p pd : m_heap s !! p = Some pd -> p < m_nextId s /\ m_id pd = p /\
                 (m_forceHold pd = true -> m_kind pd = KResponse);
  inv_enabled p pd : p ∈ parked s -> m_heap s !! p = Some pd -> kindEnabled s pd = true
}.

Lemma inv_init : inv initController.
Proof.
  split; cbn; try done.
  - constructor.
  - intros p Hp. by apply not_elem_of_nil in Hp.
Qed.

Lemma queueDepth_parked s : queueDepth s = zlen (parked s).
Proof. unfold queueDepth, parked. rewrite zlen_app. destruct (m_current s); cbn; unfold zlen; cbn; lia. Qed.

(** A move of [ps] from waiting to released.  [f] is how each is resolved; only
    the parked lists and the toggles differ otherwise. *)
Record moved (f : PendingRequest -> PendingRequest) (ps : list Z) (s s' : Controller) : Prop := mkMoved {
  mv_perm : waiting s ≡ₚ ps ++ waiting s';
  mv_heap_in p : p ∈ ps -> m_heap s' !! p = f <$> m_heap s !! p;
  mv_heap_out p : p ∉ ps -> m_heap s' !! p = m_heap s !! p;
  mv_next : m_nextId s' = m_nextId s
}.

Definition resolves (f : PendingRequest -> PendingRequest) : Prop :=
  forall pd, m_done (f pd) = S (m_done pd) /\ m_id (f pd) = m_id pd /\
             m_kind (f pd) = m_kind pd /\ m_forceHold (f pd) = m_forceHold pd.

Lemma resolve_resolves d t h : resolves (resolve d t h).
Proof. done. Qed.

Lemma inv_moved f ps s s' :
  inv s -> resolves f -> moved f ps s s' ->
  (m_current s' = None -> m_queue s' = []) ->
  zlen (parked s') <= kMaxPendingIntercepts ->
  (forall p pd, p ∈ parked s' -> m_heap s !! p = Some pd -> kindEnabled s' pd = true) ->
  inv s'.
Proof.
  intros Hi Hr [Hp Hin Hout Hn] Hc Hroom Hen.
  pose proof (inv_nodup _ Hi) as Hnd. rewrite Hp in Hnd. apply NoDup_app in Hnd as (_ & Hdis & Hnd).
  assert (Hw : forall p, p ∈ waiting s' -> p ∉ ps) by (intros p Hw Hps; by eapply Hdis).
  assert (Hsub : forall p, p ∈ waiting s' -> p ∈ waiting s)
    by (intros p Hw'; rewrite Hp, elem_of_app; by right).
  split; try done.
  - intros p Hp'. rewrite Hout by auto. by apply (inv_waiting _ Hi), Hsub.
  - intros p pd. destruct (decide (p ∈ ps)) as [Hps|Hps].
    + rewrite Hin by done. intros Hg Hnw.
      destruct (inv_waiting _ Hi p) as (pd0 & E & (Hd & _)); [rewrite Hp, elem_of_app; by left|].
      rewrite E in Hg. injection Hg as <-. by rewrite (proj1 (Hr pd0)), Hd.
    + rewrite Hout by done. intros Hg Hnw. apply (inv_released _ Hi p pd Hg).
      rewrite Hp, elem_of_app. tauto.
  - intros p pd. rewrite Hn. destruct (decide (p ∈ ps)) as [Hps|Hps].
    + rewrite Hin by done. destruct (m_heap s !! p) as [pd0|] eqn:E; [|done]. intros [= <-].
      destruct (inv_ids _ Hi p pd0 E) as (? & ? & Hf). destruct (Hr pd0) as (_ & -> & -> & ->). done.
    + rewrite Hout by done. apply (inv_ids _ Hi).
  - intros p pd Hp' Hg. eapply Hen; [done|]. rewrite <- Hout; [done|].
    apply Hw. unfold waiting. rewrite elem_of_app. by left.
Qed.

(** How the operations move messages. *)
Lemma release_heap d t h s p q :
  m_heap (release d t h s p) !! q = if decide (q = p) then resolve d t h <$> m_heap s !! q else m_heap s !! q.
Proof.
  unfold release, with_heap. cbn [m_heap]. destruct (decide (q = p)) as [->|Hne].
  - apply lookup_alter_eq.
  - by apply lookup_alter_ne.
Qed.

Lemma release_all_fields ps : forall s,
  m_current (release_all s ps) = m_current s /\ m_queue (release_all s ps) = m_queue s /\
  m_mailbox (release_all s ps) = m_mailbox s /\ m_nextId (release_all s ps) = m_nextId s /\
  m_enabled (release_all s ps) = m_enabled s /\ m_enabledResponses (release_all s ps) = m_enabledResponses s.
Proof.
  unfold release_all. induction ps as [|p ps IH]; intros s; cbn [fold_left]; [done|].
  destruct (IH (release 0 None false s p)) as (-> & -> & -> & -> & -> & ->). done.
Qed.

Lemma release_all_heap ps : forall s q,
  NoDup ps ->
  m_heap (release_all s ps) !! q
  = if decide (q ∈ ps) then resolve 0 None false <$> m_heap s !! q else m_heap s !! q.
Proof.
  unfold release_all. induction ps as [|p ps IH]; intros s q Hnd; cbn [fold_left].
  - rewrite decide_False; [done|apply not_elem_of_nil].
  - apply NoDup_cons in Hnd as [Hp Hnd]. rewrite IH by done. rewrite release_heap.
    destruct (decide (q = p)) as [->|Hne].
    + rewrite decide_False by done. by rewrite decide_True by left.
    + destruct (decide (q ∈ ps)); [rewrite decide_True by by right|rewrite decide_False]; try done.
      rewrite elem_of_cons. tauto.
Qed.

Lemma moved_release_all s s1 ps :
  NoDup (waiting s) -> m_heap s1 = m_heap s -> m_nextId s1 = m_nextId s ->
  waiting s ≡ₚ ps ++ waiting s1 -> moved (resolve 0 None false) ps s (release_all s1 ps).
Proof.
  intros Hnd Hh Hn Hp. destruct (release_all_fields ps s1) as (E1 & E2 & E3 & E4 & _).
  rewrite Hp in Hnd. apply NoDup_app in Hnd as (Hnd & _).
  split.
  - unfold waiting, parked in *. rewrite E1, E2, E3. done.
  - intros p Hps. rewrite release_all_heap by done. by rewrite decide_True, Hh.
  - intros p Hps. rewrite release_all_heap by done. by rewrite decide_False, Hh.
  - by rewrite E4.
Qed.

Lemma promote_parked s : parked (promoteNextLocked s) = m_queue s.
Proof. unfold promoteNextLocked. by destruct (m_queue s) eqn:E. Qed.

Lemma promote_current s : m_current (promoteNextLocked s) = None -> m_queue (promoteNextLocked s) = [].
Proof. unfold promoteNextLocked. by destruct (m_queue s). Qed.

Lemma promote_fields s :
  m_heap (promoteNextLocked s) = m_heap s /\ m_mailbox (promoteNextLocked s) = m_mailbox s /\
  m_nextId (promoteNextLocked s) = m_nextId s /\
  forall pd, kindEnabled (promoteNextLocked s) pd = kindEnabled s pd.
Proof. unfold promoteNextLocked. by destruct (m_queue s). Qed.

(** Resolving the current message. *)
Lemma inv_resolve_current s c d t h :
  inv s -> m_current s = Some c -> inv (promoteNextLocked (release d t h s c)).
Proof.
  intros Hi Hc. set (s1 := release d t h s c).
  assert (Hpk : parked s = c :: m_queue s) by (unfold parked; by rewrite Hc).
  destruct (promote_fields s1) as (E1 & E2 & E3 & E4).
  apply (inv_moved (resolve d t h) [c] s); [done|apply resolve_resolves| | | |].
  - split.
    + unfold waiting. rewrite promote_parked, E2, Hpk. done.
    + intros p Hp. apply list_elem_of_singleton in Hp as ->. rewrite E1. unfold s1.
      by rewrite release_heap, decide_True.
    + intros p Hp. rewrite E1. unfold s1. rewrite release_heap, decide_False; [done|].
      intros ->. apply Hp. by left.
    + by rewrite E3.
  - apply promote_current.
  - rewrite promote_parked. pose proof (inv_room _ Hi) as Hr. rewrite Hpk, zlen_cons in Hr.
    change (m_queue s1) with (m_queue s). lia.
  - intros p pd Hp Hg. rewrite E4. change (kindEnabled s1 pd) with (kindEnabled s pd).
    apply (inv_enabled _ Hi p pd); [|done]. rewrite Hpk. right. by rewrite promote_parked in Hp.
Qed.

Lemma filter_split_perm {A} (f : A -> bool) (l : list A) :
  l ≡ₚ List.filter f l ++ List.filter (fun x => negb (f x)) l.
Proof.
  induction l as [|x l IH]; [done|]. cbn [List.filter]. destruct (f x); cbn [negb app].
  - by constructor.
  - rewrite <- Permutation_middle. by constructor.
Qed.

Lemma inv_release_set s s1 ps :
  inv s -> m_heap s1 = m_heap s -> m_nextId s1 = m_nextId s ->
  waiting s ≡ₚ ps ++ waiting s1 ->
  (m_current s1 = None -> m_queue s1 = []) ->
  zlen (parked s1) <= zlen (parked s) ->
  (forall p pd, p ∈ parked s1 -> m_heap s !! p = Some pd -> kindEnabled s1 pd = true) ->
  inv (release_all s1 ps).
Proof.
  intros Hi Hh Hn Hp Hc Hz Hen. destruct (release_all_fields ps s1) as (E1 & E2 & E3 & E4 & E5 & E6).
  apply (inv_moved (resolve 0 None false) ps s); [done|apply resolve_resolves| | | |].
  - by apply moved_release_all; [apply inv_nodup| | |].
  - by rewrite E1, E2.
  - unfold parked in *. rewrite E1, E2. pose proof (inv_room _ Hi). unfold parked in *. lia.
  - intros p pd Hpk Hg. unfold parked in Hpk. rewrite E1, E2 in Hpk.
    unfold kindEnabled. rewrite E5, E6. by apply (Hen p pd).
Qed.

Lemma inv_releaseAll s : inv s -> inv (releaseAllAsForward s).
Proof.
  intros Hi. apply (inv_release_set s); try done.
  - cbn. pose proof (zlen_nonneg (parked s)). unfold zlen in *. cbn. lia.
  - intros p pd Hp. by apply not_elem_of_nil in Hp.
Qed.

Lemma inv_releaseKind s kind e er cl fx :
  inv s ->
  (forall pd, m_kind pd <> kind -> kindEnabled s pd = true ->
     kindEnabled (with_toggles s e er cl fx) pd = true) ->
  inv (releaseKindAsForward (with_toggles s e er cl fx) kind).
Proof.
  intros Hi Hk. set (s1 := with_toggles s e er cl fx).
  set (f := has_kind s1 kind). set (keep := List.filter (fun p => negb (f p)) (m_queue s)).
  pose proof (filter_split_perm f (m_queue s)) as Hperm. fold keep in Hperm.
  assert (Hkeep : forall p pd, p ∈ keep -> m_heap s !! p = Some pd -> kindEnabled s1 pd = true).
  { intros p pd Hp Hg. unfold keep in Hp. apply list_elem_of_In, filter_In in Hp as [Hq Hf].
    apply Hk.
    - intros Heq. revert Hf. unfold f, has_kind. cbn [m_heap s1 with_toggles]. rewrite Hg.
      by rewrite bool_decide_eq_true_2.
    - apply (inv_enabled _ Hi p pd); [|done]. unfold parked. rewrite elem_of_app. right. by apply list_elem_of_In. }
  assert (Hlen : zlen keep <= zlen (m_queue s)).
  { unfold zlen. rewrite Hperm, length_app. lia. }
  unfold releaseKindAsForward. fold f. change (m_queue s1) with (m_queue s). fold keep.
  change (m_current s1) with (m_current s). destruct (m_current s) as [c|] eqn:Ec.
  - assert (Hpk : parked s = c :: m_queue s) by (unfold parked; by rewrite Ec).
    destruct (f c) eqn:Ef.
    + destruct (promote_fields (with_parked s1 (Some c) keep)) as (E1 & E2 & E3 & E4).
      apply (inv_release_set s); try done.
      * unfold waiting. rewrite promote_parked, E2, Hpk. cbn [m_queue m_mailbox with_parked s1 with_toggles].
        rewrite Hperm at 1. rewrite <- !app_assoc. cbn [app]. rewrite <- app_assoc. apply Permutation_middle.
      * apply promote_current.
      * rewrite promote_parked, Hpk, zlen_cons. cbn [m_queue with_parked]. lia.
      * intros p pd Hp Hg. rewrite promote_parked in Hp. rewrite E4. by apply (Hkeep p pd).
    + apply (inv_release_set s); try done.
      * unfold waiting. rewrite Hpk. unfold parked. cbn [m_current m_queue m_mailbox with_parked s1 with_toggles option_list app].
        rewrite Hperm at 1. cbn [app]. rewrite <- !app_assoc. apply Permutation_middle.
      * rewrite Hpk. change (parked (with_parked s1 (Some c) keep)) with (c :: keep). rewrite !zlen_cons. lia.
      * intros p pd Hp Hg. change (kindEnabled _ pd) with (kindEnabled s1 pd).
        change (parked (with_parked s1 (Some c) keep)) with (c :: keep) in Hp. apply elem_of_cons in Hp as [->|Hp].
        -- apply Hk; [|apply (inv_enabled _ Hi c pd); [|done]; rewrite Hpk; left].
           intros Heq. revert Ef. unfold f, has_kind. cbn [m_heap s1 with_toggles]. rewrite Hg.
           by rewrite bool_decide_eq_true_2.
        -- by apply (Hkeep p pd).
  - assert (Hq : m_queue s = []) by (by apply inv_current).
    assert (Hkn : keep = []) by (unfold keep; by rewrite Hq).
    apply (inv_release_set s); try done.
    + unfold waiting, parked. cbn [m_current m_queue m_mailbox with_parked s1 with_toggles].
      by rewrite Ec, Hkn, Hq.
    + unfold parked. cbn [m_current m_queue with_parked]. rewrite Ec, Hkn, Hq. done.
Qed.

Lemma inv_toggles s e er cl fx :
  inv s -> (m_enabled s = true -> e = true) -> (m_enabledResponses s = true -> er = true) ->
  inv (with_toggles s e er cl fx).
Proof.
  intros Hi He Her. destruct Hi as [I1 I2 I3 I4 I5 I6 I7]. split; try done.
  intros p pd Hp Hg. specialize (I7 p pd Hp Hg). revert I7. unfold kindEnabled. cbn.
  destruct (m_forceHold pd); [done|]. by destruct (m_kind pd).
Qed.
End Invariant.

(** ** Every action keeps the invariant *)

Section Steps.
Context `{QtText} `{QtRegex}.

Lemma inv_deliver s p mb :
  inv s -> m_mailbox s = p :: mb -> inv (addPendingOnMain (with_mailbox s (m_nextId s) mb) p).
Proof.
  intros Hi Hmb. set (s0 := with_mailbox s (m_nextId s) mb).
  assert (Hw : waiting s ≡ₚ p :: parked s ++ mb)
    by (unfold waiting; rewrite Hmb; by rewrite Permutation_middle).
  assert (Hpw : p ∈ waiting s) by (rewrite Hw; left).
  destruct (inv_waiting _ Hi p Hpw) as (pd & Hg & Hu).
  assert (Hrel : inv (release 0 None false s0 p)).
  { apply (inv_moved (resolve 0 None false) [p] s); [done|apply resolve_resolves| | | |].
    - split; [exact Hw| | |done].
      + intros q Hq. apply list_elem_of_singleton in Hq as ->. by rewrite release_heap, decide_True.
      + intros q Hq. rewrite release_heap, decide_False; [done|]. intros ->. apply Hq. by left.
    - apply (inv_current _ Hi).
    - apply (inv_room _ Hi).
    - intros q qd Hq Hgq. by apply (inv_enabled _ Hi q qd). }
  unfold addPendingOnMain. change (m_heap s0) with (m_heap s). rewrite Hg.
  destruct (kindEnabled s0 pd) eqn:Ek; cbn [negb]; [|done].
  destruct (interceptQueueHasRoom (queueDepth s0)) eqn:Er; cbn [negb]; [|done].
  assert (Hroom : zlen (parked s) + 1 <= kMaxPendingIntercepts).
  { rewrite queueDepth_parked in Er. change (parked s0) with (parked s) in Er.
    unfold interceptQueueHasRoom in Er. pose proof (zlen_nonneg (parked s)).
    destruct (_ <? 0) eqn:E0; to_prop; lia. }
  set (s' := match m_current s0 with None => _ | Some c => _ end).
  assert (Hpk : parked s' = parked s ++ [p] /\ m_heap s' = m_heap s /\ m_mailbox s' = mb /\
    m_nextId s' = m_nextId s /\ (m_current s' = None -> m_queue s' = []) /\
    forall qd, kindEnabled s' qd = kindEnabled s qd).
  { unfold s'. change (m_current s0) with (m_current s). pose proof (inv_current _ Hi) as Hcq.
    unfold parked. destruct (m_current s) as [c|]; [done|]. cbn. by rewrite (Hcq eq_refl). }
  destruct Hpk as (E1 & E2 & E3 & E4 & E5 & E6). clearbody s'.
  assert (Ew : waiting s' = waiting s) by (unfold waiting; by rewrite E1, E3, Hmb, <- app_assoc).
  destruct Hi as [I1 I2 I3 I4 I5 I6 I7]. split; rewrite ?Ew, ?E1, ?E2, ?E4; try done.
  - rewrite zlen_app. change (zlen [p]) with 1. done.
  - intros q qd Hq Hgq. rewrite E6. apply elem_of_app in Hq as [Hq|Hq]; [by apply (I7 q qd)|].
    apply list_elem_of_singleton in Hq as ->. rewrite Hg in Hgq. by injection Hgq as <-.
Qed.

Lemma inv_post s data host port tls kind fh :
  inv s -> (fh = true -> kind = KResponse) -> inv (pendImpl_post s data host port tls kind fh).
Proof.
  intros [I1 I2 I3 I4 I5 I6 I7] Hfh.
  assert (Hfresh : m_heap s !! m_nextId s = None).
  { destruct (m_heap s !! m_nextId s) as [pd|] eqn:E; [|done]. destruct (I6 _ _ E). lia. }
  assert (Hnw : m_nextId s ∉ waiting s).
  { intros Hin. destruct (I3 _ Hin) as (pd & E & _). congruence. }
  assert (Ew : waiting (pendImpl_post s data host port tls kind fh) = waiting s ++ [m_nextId s])
    by (unfold waiting; cbn; by rewrite app_assoc).
  split; rewrite ?Ew; cbn [m_heap m_nextId m_current m_queue pendImpl_post with_mailbox with_heap]; try done.
  - apply NoDup_app. split; [done|]. split; [|apply NoDup_singleton].
    intros p Hp Hq. apply list_elem_of_singleton in Hq as ->. done.
  - intros p Hp. apply elem_of_app in Hp as [Hp|Hp].
    + destruct (I3 p Hp) as (pd & E & Hu). exists pd. rewrite lookup_insert_ne by congruence. done.
    + apply list_elem_of_singleton in Hp as ->. rewrite lookup_insert_eq. eexists. done.
  - intros p pd Hg Hp. rewrite elem_of_app, list_elem_of_singleton in Hp.
    rewrite lookup_insert_ne in Hg by naive_solver. apply (I4 p pd Hg). tauto.
  - intros p pd Hg. destruct (decide (p = m_nextId s)) as [->|Hne].
    + rewrite lookup_insert_eq in Hg. injection Hg as <-. cbn. split; [lia|]. done.
    + rewrite lookup_insert_ne in Hg by done. destruct (I6 p pd Hg) as (? & ? & ?). split; [lia|done].
  - intros p pd Hp Hg. change (parked _) with (parked s) in Hp.
    rewrite lookup_insert_ne in Hg.
    + by apply (I7 p pd).
    + intros <-. apply Hnw. unfold waiting. rewrite elem_of_app. by left.
Qed.

Lemma inv_resume s p pd :
  inv s -> m_heap s !! p = Some pd -> (0 < m_done pd)%nat -> inv (with_heap s (delete p (m_heap s))).
Proof.
  intros [I1 I2 I3 I4 I5 I6 I7] Hg Hd.
  assert (Hnw : p ∉ waiting s).
  { intros Hin. destruct (I3 _ Hin) as (pd' & E & Hu & _). rewrite Hg in E. injection E as <-. lia. }
  assert (Hl : forall q qd, delete p (m_heap s) !! q = Some qd -> m_heap s !! q = Some qd)
    by (intros q qd Hq; by apply lookup_delete_Some in Hq as [_ ?]).
  split; cbn [m_heap m_nextId m_current m_queue with_heap]; try done.
  - intros q Hq. change (waiting _) with (waiting s) in Hq. destruct (I3 q Hq) as (qd & E & Hu). exists qd.
    rewrite lookup_delete_ne by (intros ->; done). done.
  - intros q qd Hq Hw. apply (I4 q qd); [by apply Hl|done].
  - intros q qd Hq. apply I6. by apply Hl.
  - intros q qd Hp Hq. change (kindEnabled _ qd) with (kindEnabled s qd). apply (I7 q qd); [done|by apply Hl].
Qed.

Lemma inv_step s a s' : inv s -> step s a s' -> inv s'.
Proof.
  intros Hi Hs. destruct Hs.
  - unfold setEnabled. destruct (Bool.eqb _ _); [done|]. destruct e.
    + by apply inv_toggles.
    + apply inv_releaseKind; [done|]. intros pd Hk. unfold kindEnabled. cbn.
      destruct (m_forceHold pd); [done|]. by destruct (m_kind pd).
  - unfold setResponsesEnabled. destruct (Bool.eqb _ _); [done|]. destruct e.
    + by apply inv_toggles.
    + apply inv_releaseKind; [done|]. intros pd Hk. unfold kindEnabled. cbn.
      destruct (m_forceHold pd); [done|]. by destruct (m_kind pd).
  - by apply inv_toggles.
  - by apply inv_toggles.
  - unfold forward. destruct (m_current s) eqn:E; [|done]. by apply inv_resolve_current.
  - unfold forwardInterceptingResponse. destruct (m_current s) eqn:E; [|done]. by apply inv_resolve_current.
  - unfold drop_current. destruct (m_current s) eqn:E; [|done]. by apply inv_resolve_current.
  - by apply inv_releaseAll.
  - by destruct Hi.
  - by apply inv_deliver.
  - by apply inv_post.
  - by eapply inv_resume.
Qed.

Lemma inv_reachable tr s : steps step initController tr s -> inv s.
Proof. intros Hs. by apply (steps_invariant step inv inv_step _ _ _ Hs), inv_init. Qed.
End Steps.

(** ** What the controller guarantees *)

Section Guarantees.
Context `{QtText} `{QtRegex}.

(** Delivering the whole mailbox. *)
Fixpoint deliver_all (mb : list Z) (s : Controller) : Controller :=
  match mb with
  | [] => s
  | p :: mb' => deliver_all mb' (addPendingOnMain (with_mailbox s (m_nextId s) mb') p)
  end.

Lemma addPending_mailbox s p : m_mailbox (addPendingOnMain s p) = m_mailbox s.
Proof. unfold addPendingOnMain. repeat case_match; done. Qed.

Lemma deliver_all_steps mb : forall s,
  m_mailbox s = mb ->
  steps step s (repeat ADeliver (length mb)) (deliver_all mb s) /\ m_mailbox (deliver_all mb s) = [].
Proof.
  induction mb as [|p mb IH]; intros s Hmb; cbn [deliver_all length repeat]; [split; [constructor|done]|].
  set (s1 := addPendingOnMain _ p).
  assert (Hs1 : m_mailbox s1 = mb) by (unfold s1; by rewrite addPending_mailbox).
  destruct (IH s1 Hs1) as [Hst Hm]. split; [|done]. econstructor; [by constructor|done].
Qed.

Lemma addPending_dom s p q : is_Some (m_heap (addPendingOnMain s p) !! q) <-> is_Some (m_heap s !! q).
Proof.
  unfold addPendingOnMain. repeat case_match; try done; rewrite release_heap; case_match; by rewrite ?fmap_is_Some.
Qed.

Lemma deliver_all_dom mb : forall s q, is_Some (m_heap (deliver_all mb s) !! q) <-> is_Some (m_heap s !! q).
Proof.
  induction mb as [|p mb IH]; intros s q; cbn [deliver_all]; [done|]. by rewrite IH, addPending_dom.
Qed.

Lemma releaseAll_waiting s : waiting (releaseAllAsForward s) = m_mailbox s.
Proof.
  unfold releaseAllAsForward, waiting, parked.
  destruct (release_all_fields (option_list (m_current s) ++ m_queue s) (with_parked s None []))
    as (-> & -> & -> & _). done.
Qed.

Lemma releaseAll_dom s q :
  inv s -> is_Some (m_heap (releaseAllAsForward s) !! q) <-> is_Some (m_heap s !! q).
Proof.
  intros Hi. unfold releaseAllAsForward. rewrite release_all_heap.
  - case_match; cbn [m_heap with_parked]; by rewrite ?fmap_is_Some.
  - pose proof (inv_nodup _ Hi) as Hn. unfold waiting in Hn. by apply NoDup_app in Hn as [Hn _].
Qed.

(** An unedited message that is not dropped. *)
Lemma result_unedited s pd :
  m_text pd = u_fromutf8 (m_originalBytes pd) -> m_decision pd = 0 ->
  pendImpl_result s pd = mkResult false (m_originalBytes pd) (m_holdResponse pd).
Proof.
  intros Ht Hd. unfold pendImpl_result. rewrite Hd, Ht. cbn [Z.eqb].
  unfold resolveForward. rewrite seq_eqb_refl. cbn [negb fr_edited fr_bytes].
  unfold shouldFixTrailingNewline, shouldRecomputeContentLength. by rewrite !andb_false_r.
Qed.

(** Actions other than the operator's edits and drops. *)
Definition passive (a : Action) : Prop :=
  match a with AForward _ | AForwardHold _ | ADrop => False | _ => True end.

(** The bytes the workers captured, in the order of the posts. *)
Definition posted (tr : list Action) : list bytes :=
  omap (fun a => match a with APost data _ _ _ _ _ => Some data | _ => None end) tr.

Definition pristine (tr : list Action) (p : Z) (pd : PendingRequest) : Prop :=
  m_text pd = u_fromutf8 (m_originalBytes pd) /\ m_decision pd = 0 /\ m_holdResponse pd = false /\
  1 <= p /\ posted tr !! Z.to_nat (p - 1) = Some (m_originalBytes pd).

Lemma pristine_resolve tr p pd : pristine tr p pd -> pristine tr p (resolve 0 None false pd).
Proof. intros (? & ? & ? & ? & ?). unfold pristine, resolve. cbn. done. Qed.

Definition all_pristine (tr : list Action) (s : Controller) : Prop :=
  m_nextId s = zlen (posted tr) + 1 /\ forall p pd, m_heap s !! p = Some pd -> pristine tr p pd.

Lemma pristine_release tr s p : all_pristine tr s -> all_pristine tr (release 0 None false s p).
Proof.
  intros [Hn Ha]. split; [done|]. intros q qd. rewrite release_heap. case_match; [|apply Ha].
  destruct (m_heap s !! q) as [pd|] eqn:E; [|done]. intros [= <-]. by apply pristine_resolve, Ha.
Qed.

Lemma pristine_release_all tr ps : forall s, all_pristine tr s -> all_pristine tr (release_all s ps).
Proof.
  unfold release_all. induction ps as [|p ps IH]; intros s Ha; cbn [fold_left]; [done|].
  by apply IH, pristine_release.
Qed.

Lemma pristine_releaseKind tr s kind : all_pristine tr s -> all_pristine tr (releaseKindAsForward s kind).
Proof.
  intros Ha. unfold releaseKindAsForward, promoteNextLocked.
  repeat case_match; apply pristine_release_all; done.
Qed.

Lemma pristine_snoc tr a s :
  (forall data h po t k f, a <> APost data h po t k f) -> all_pristine tr s -> all_pristine (tr ++ [a]) s.
Proof.
  intros Hne Ha. assert (E : posted (tr ++ [a]) = posted tr).
  { unfold posted. rewrite omap_app. destruct a; cbn; try apply app_nil_r. by edestruct Hne. }
  unfold all_pristine, pristine in *. by rewrite E.
Qed.

Lemma pristine_step tr a s s' :
  passive a -> step s a s' -> all_pristine tr s -> all_pristine (tr ++ [a]) s'.
Proof.
  intros Hp Hs Ha. destruct Hs; try done; try (apply pristine_snoc; [done|]); try done.
  - unfold setEnabled. destruct (Bool.eqb _ _); [done|]. destruct e; [done|by apply pristine_releaseKind].
  - unfold setResponsesEnabled. destruct (Bool.eqb _ _); [done|]. destruct e; [done|by apply pristine_releaseKind].
  - by apply pristine_release_all.
  - unfold addPendingOnMain. repeat case_match; try done; by apply pristine_release.
  - destruct Ha as [Hn Ha]. unfold all_pristine, posted in *. rewrite omap_app. cbn [omap list_omap].
    set (ps := omap _ tr) in *. split; [cbn; rewrite zlen_app; unfold zlen in *; cbn; lia|].
    intros p pd Hg. cbn in Hg. apply lookup_insert_Some in Hg as [[<- <-]|[_ Hg]].
    + repeat (split; [done|]). rewrite Hn. split; [pose proof (zlen_nonneg ps); lia|].
      unfold posted. rewrite omap_app. fold ps. cbn [m_originalBytes].
      rewrite lookup_app_r by (unfold zlen; lia).
      by replace (Z.to_nat (zlen ps + 1 - 1) - length ps)%nat with 0%nat by (unfold zlen; lia).
    + destruct (Ha p pd Hg) as (? & ? & ? & ? & Hl). repeat (split; [done|]).
      unfold posted. rewrite omap_app. by apply lookup_app_l_Some.
  - destruct Ha as [Hn Ha]. split; [done|].
    intros q qd Hg. cbn in Hg. apply lookup_delete_Some in Hg as [_ Hg]. by apply Ha.
Qed.

Lemma pristine_steps tr : forall tr0 s s',
  Forall passive tr -> steps step s tr s' -> all_pristine tr0 s -> all_pristine (tr0 ++ tr) s'.
Proof.
  induction tr as [|a tr IH]; intros tr0 s s' Hp Hs Ha; inversion Hs; subst.
  - by rewrite app_nil_r.
  - apply Forall_cons in Hp as [Hp1 Hp]. rewrite (cons_middle a), app_assoc.
    eapply IH; [done|done|]. by eapply pristine_step.
Qed.
End Guarantees.

(** C1. Safety of the hand-over between threads.  In every reachable state: each
    message in the queue, on screen or in the main thread's mailbox is a live
    pending whose worker is still blocked, and is there once; every live pending either waits there
    or has had its semaphore released exactly once (no lost and no double wake-up, no use
    of a deleted pending); at most 256 messages are parked; a direction whose
    toggle is off has no message parked, force-held responses apart. *)
Theorem intercept_safety `{QtText, QtRegex} tr s :
  steps step initController tr s ->
  NoDup (waiting s) /\
  (forall p, p ∈ waiting s -> is_Some (m_heap s !! p)) /\
  (forall p pd, m_heap s !! p = Some pd ->
     (p ∈ waiting s /\ m_done pd = 0%nat) \/ (p ∉ waiting s /\ m_done pd = 1%nat)) /\
  queueDepth s <= 256 /\
  (forall p pd, p ∈ parked s -> m_heap s !! p = Some pd -> m_forceHold pd = false ->
     match m_kind pd with KRequest => m_enabled s = true | KResponse => m_enabledResponses s = true end).
Proof.
  intros Hs. pose proof (inv_reachable _ _ Hs) as Hi. split; [apply (inv_nodup _ Hi)|]. split.
  { intros p Hp. destruct (inv_waiting _ Hi p Hp) as (pd & -> & _). done. }
  split.
  { intros p pd Hg. destruct (decide (p ∈ waiting s)) as [Hw|Hw]; [left|right].
    - destruct (inv_waiting _ Hi p Hw) as (pd' & E & (Hd & _)). rewrite Hg in E. by injection E as <-.
    - split; [done|]. by apply (inv_released _ Hi p). }
  split; [rewrite queueDepth_parked; apply (inv_room _ Hi)|].
  intros p pd Hp Hg Hf. pose proof (inv_enabled _ Hi p pd Hp Hg) as Hk. unfold kindEnabled in Hk.
  rewrite Hf in Hk. by destruct (m_kind pd).
Qed.

(** No worker is ever stuck: from every reachable state, once the main thread
    has run the slots already queued, forwardAll leaves every pending message
    with its worker's semaphore released. *)
Theorem intercept_drain `{QtText, QtRegex} tr s :
  steps step initController tr s ->
  exists s', steps step s (repeat ADeliver (length (m_mailbox s)) ++ [AForwardAll]) s' /\
    (forall p, is_Some (m_heap s !! p) <-> is_Some (m_heap s' !! p)) /\
    (forall p pd, m_heap s' !! p = Some pd -> m_done pd = 1%nat).
Proof.
  intros Hs. destruct (deliver_all_steps (m_mailbox s) s eq_refl) as [Hd Hm].
  set (s1 := deliver_all (m_mailbox s) s) in *.
  assert (Hf : steps step s (repeat ADeliver (length (m_mailbox s)) ++ [AForwardAll]) (forwardAll s1))
    by (eapply steps_app; [done|]; eapply steps_cons; [constructor|constructor]).
  assert (Hi1 : inv s1) by (eapply inv_reachable; by eapply steps_app).
  exists (forwardAll s1). split; [done|]. split.
  - intros p. unfold forwardAll. rewrite releaseAll_dom by done. unfold s1. by rewrite deliver_all_dom.
  - intros p pd Hg.
    assert (Hi2 : inv (forwardAll s1)) by (by apply inv_releaseAll).
    apply (inv_released _ Hi2 p pd Hg). unfold forwardAll. rewrite releaseAll_waiting, Hm.
    apply not_elem_of_nil.
Qed.

(** Faithful pass-through: in any execution without operator edits or drops
    (toggles flipped, queue overflowing, everything forwarded, in any
    interleaving with the workers), a worker that resumes forwards exactly the
    bytes it captured when it posted its message (message [p] is the [p]-th
    post), its response not held. *)
Theorem intercept_passthrough `{QtText, QtRegex} tr s p r s' :
  steps step initController tr s -> Forall passive tr -> step s (AResume p r) s' ->
  exists data, posted tr !! Z.to_nat (p - 1) = Some data /\ r = mkResult false data false.
Proof.
  intros Hs Hp Hr. inversion Hr as [| | | | | | | | | | |s0 p0 pd Hg Hd]; subst.
  assert (Ha : all_pristine tr s).
  { apply (pristine_steps tr [] initController s Hp Hs). split; [done|].
    intros q qd Hq. cbn in Hq. by rewrite lookup_empty in Hq. }
  destruct (proj2 Ha p pd Hg) as (Ht & Hdec & Hh & _ & Hpost). exists (m_originalBytes pd). split; [done|].
  by rewrite result_unedited, Hh.
Qed.

Section Order.
Context `{QtText} `{QtRegex}.

Lemma filter_sublist {A} (f : A -> bool) (l : list A) : sublist (List.filter f l) l.
Proof.
  induction l as [|x l IH]; cbn; [constructor|]. destruct (f x); by constructor.
Qed.

Lemma release_all_parked ps s : parked (release_all s ps) = parked s.
Proof. unfold parked. by destruct (release_all_fields ps s) as (-> & -> & _). Qed.

Lemma releaseKind_sublist s kind : sublist (parked (releaseKindAsForward s kind)) (parked s).
Proof.
  unfold releaseKindAsForward. destruct (m_current s) as [c|] eqn:Ec.
  - assert (Hpk : parked s = c :: m_queue s) by (unfold parked; by rewrite Ec). rewrite Hpk.
    destruct (has_kind s kind c); rewrite release_all_parked.
    + rewrite promote_parked. apply sublist_cons, filter_sublist.
    + apply sublist_skip, filter_sublist.
  - rewrite release_all_parked. unfold parked. rewrite Ec. apply filter_sublist.
Qed.

Lemma promote_sublist d t h s c :
  m_current s = Some c -> sublist (parked (promoteNextLocked (release d t h s c))) (parked s).
Proof. intros Hc. rewrite promote_parked. unfold parked. rewrite Hc. by apply sublist_cons. Qed.

Lemma addPending_parked s p :
  (m_current s = None -> m_queue s = []) ->
  parked (addPendingOnMain s p) = parked s \/ parked (addPendingOnMain s p) = parked s ++ [p].
Proof.
  intros Hq. unfold addPendingOnMain. destruct (m_heap s !! p) as [pd|]; [|by left].
  destruct (kindEnabled s pd); [|by left]. destruct (interceptQueueHasRoom _); [|by left].
  right. unfold parked. cbn [negb]. destruct (m_current s) as [c|]; [done|]. by rewrite (Hq eq_refl).
Qed.
End Order.

(** Order: whatever action is taken, the messages parked (current first) stay
    in their order of arrival; some may leave, a newcomer goes last, and nothing
    is inserted or reordered. *)
Theorem intercept_fifo `{QtText, QtRegex} tr s a s' :
  steps step initController tr s -> step s a s' ->
  sublist (parked s') (parked s) \/ exists p, parked s' = parked s ++ [p].
Proof.
  intros Hs Hst. pose proof (inv_reachable _ _ Hs) as Hi.
  destruct Hst; try (left; done).
  - left. unfold setEnabled. destruct (Bool.eqb _ _); [done|]. destruct e; [done|].
    exact (releaseKind_sublist (with_toggles s _ _ _ _) _).
  - left. unfold setResponsesEnabled. destruct (Bool.eqb _ _); [done|]. destruct e; [done|].
    exact (releaseKind_sublist (with_toggles s _ _ _ _) _).
  - left. unfold forward. case_match; [by apply promote_sublist|done].
  - left. unfold forwardInterceptingResponse. case_match; [by apply promote_sublist|done].
  - left. unfold drop_current. case_match; [by apply promote_sublist|done].
  - left. unfold forwardAll, releaseAllAsForward. rewrite release_all_parked. apply sublist_nil_l.
  - destruct (addPending_parked (with_mailbox s (m_nextId s) mb) p (inv_current _ Hi)) as [E|E];
      [left; by rewrite E|right; by exists p].
Qed.

(** ** A concrete execution *)

#[local] Existing Instances asciiText literalRegex.

Definition ex_post : Action := APost (lit "GET / HTTP/1.1") (lit "h") 80 false KRequest false.
Definition ex_trace : list Action := [ASetEnabled true; ex_post; ADeliver; ex_post; ADeliver; AForwardAll].

Definition ex_state : Controller :=
  forwardAll (addPendingOnMain (with_mailbox
    (pendImpl_post (addPendingOnMain (with_mailbox
      (pendImpl_post (setEnabled initController true) (lit "GET / HTTP/1.1") (lit "h") 80 false KRequest false)
      2 []) 1) (lit "GET / HTTP/1.1") (lit "h") 80 false KRequest false) 3 []) 2).

Lemma ex_reachable : steps step initController ex_trace ex_state.
Proof.
  unfold ex_trace, ex_state. econstructor; [constructor|]. econstructor; [by constructor|].
  econstructor; [by constructor|]. econstructor; [by constructor|]. econstructor; [by constructor|].
  econstructor; [constructor|]. constructor.
Qed.

Lemma intercept_safety_witness :
  queueDepth ex_state <= 256 /\ forall p pd, m_heap ex_state !! p = Some pd ->
     (p ∈ waiting ex_state /\ m_done pd = 0%nat) \/ (p ∉ waiting ex_state /\ m_done pd = 1%nat).
Proof.
  destruct (intercept_safety (H := asciiText) (H0 := literalRegex) ex_trace ex_state ex_reachable)
    as (_ & _ & Hh & Hq & _). split; [exact Hq|exact Hh].
Defined.

Lemma intercept_drain_witness :
  exists s', steps step ex_state [AForwardAll] s' /\
    forall p pd, m_heap s' !! p = Some pd -> m_done pd = 1%nat.
Proof.
  destruct (intercept_drain (H := asciiText) (H0 := literalRegex) ex_trace ex_state ex_reachable)
    as (s' & Hs & _ & Hd). exists s'. split; [exact Hs|exact Hd].
Defined.

Definition ex_pending : PendingRequest :=
  mkPending 2 KRequest (lit "GET / HTTP/1.1") (lit "h") 80 false (lit "GET / HTTP/1.1") 1 0 false false.

Lemma intercept_passthrough_witness :
  exists data, posted ex_trace !! Z.to_nat (2 - 1) = Some data /\
    pendImpl_result ex_state ex_pending = mkResult false data false.
Proof.
  apply (intercept_passthrough (H := asciiText) (H0 := literalRegex) ex_trace ex_state 2
    (pendImpl_result ex_state ex_pending) (with_heap ex_state (delete 2 (m_heap ex_state))) ex_reachable).
  - repeat constructor.
  - apply step_resume; [vm_compute; reflexivity|apply Nat.lt_0_1].
Defined.

Lemma intercept_fifo_witness :
  sublist (parked (forwardAll ex_state)) (parked ex_state) \/
  exists p, parked (forwardAll ex_state) = parked ex_state ++ [p].
Proof.
  apply (intercept_fifo (H := asciiText) (H0 := literalRegex) ex_trace ex_state AForwardAll);
    [apply ex_reachable|constructor].
Defined.
