(* ===== verification/ServerLifecycle.v ===== *)
(** * The life of the proxy's listener and workers: proxy_server.cpp, start to shutdownAndJoin

    The main thread accepts connections, starts a worker thread for each, and at
    shutdown closes the listener, disables the interceptor, wakes the relays and
    joins every worker while it keeps dispatching queued slots.  A worker is
    abstracted to what it blocks on: the interceptor's semaphore
    (InterceptController.v), a hook that must run on the main thread, a relay's
    loop, or nothing.  What it does in between is ProxyConnection.v; it may finish
    at any moment it is not blocked, may post a message at any such moment, also a
    force-held one, and may enter a relay.  [exec] is one step of either side; a
    call on the main thread is one step, except [shutdownAndJoin], whose statements
    are separate steps so that the workers run between them. *)

From S2P Require Import Prelude Qt QtSample InterceptLogic InterceptController.

Local Open Scope Z_scope.

Inductive Worker := Running | Parked (p : Z) | InHook | Relaying | Finished.

(** Where the main thread is: in its event loop, or in [shutdownAndJoin]. *)
Inductive MainPC := Loop | Closing | RequestsOff | ResponsesOff | Draining | Signalling | Swapping | Joining (mine : list nat).

Section Lifecycle.
Context `{QtText} `{QtRegex}.

Record ProxyServer := mkServer {
  m_listening : bool; m_bindAddress : qstr; m_bindPort : Z; m_serverPort : Z;
  m_shuttingDown : bool; m_signalled : bool;      (* shuttingDown() was emitted *)
  m_threads : list nat; m_workers : gmap nat Worker; m_nextThread : nat;
  m_intercept : Controller; m_pc : MainPC
}.

Definition initServer : ProxyServer :=
  mkServer false (lit "127.0.0.1") 8080 0 false false [] ∅ 0 initController Loop.

(** Field updates. *)
Definition with_listener (s : ProxyServer) (on : bool) (address : qstr) (port serverPort : Z) : ProxyServer :=
  mkServer on address port serverPort (m_shuttingDown s) (m_signalled s) (m_threads s) (m_workers s) (m_nextThread s) (m_intercept s) (m_pc s).
Definition with_workers (s : ProxyServer) (ts : list nat) (ws : gmap nat Worker) (n : nat) : ProxyServer :=
  mkServer (m_listening s) (m_bindAddress s) (m_bindPort s) (m_serverPort s) (m_shuttingDown s) (m_signalled s) ts ws n (m_intercept s) (m_pc s).
Definition with_intercept (s : ProxyServer) (c : Controller) : ProxyServer :=
  mkServer (m_listening s) (m_bindAddress s) (m_bindPort s) (m_serverPort s) (m_shuttingDown s) (m_signalled s) (m_threads s) (m_workers s) (m_nextThread s) c (m_pc s).
Definition with_pc (s : ProxyServer) (pc : MainPC) : ProxyServer :=
  mkServer (m_listening s) (m_bindAddress s) (m_bindPort s) (m_serverPort s) (m_shuttingDown s) (m_signalled s) (m_threads s) (m_workers s) (m_nextThread s) (m_intercept s) pc.
Definition with_flags (s : ProxyServer) (down signalled : bool) : ProxyServer :=
  mkServer (m_listening s) (m_bindAddress s) (m_bindPort s) (m_serverPort s) down signalled (m_threads s) (m_workers s) (m_nextThread s) (m_intercept s) (m_pc s).
Definition set_worker (s : ProxyServer) (t : nat) (w : Worker) : ProxyServer :=
  with_workers s (m_threads s) (<[t := w]> (m_workers s)) (m_nextThread s).

(** ** The listener *)

Definition tries (port : Z) : list Z := [port; (port + 1) mod 2 ^ 16; 8888; 8081; 8090; 9090].

(** [listen p] is the port bound when the attempt on [p] succeeds. *)
Fixpoint start_loop (listen : Z -> option Z) (address : qstr) (ps : list Z) (s : ProxyServer) : ProxyServer * bool :=
  match ps with
  | [] => (s, false)
  | p :: ps' =>
      match listen p with
      | Some bound => (with_listener s true address bound bound, true)
      | None => start_loop listen address ps' s
      end
  end.

Definition start (listen : Z -> option Z) (address : qstr) (port : Z) (s : ProxyServer) : ProxyServer * bool :=
  if m_shuttingDown s then (s, false)
  else if m_listening s then (s, true)
  else start_loop listen address (tries port) s.

Definition stop (s : ProxyServer) : ProxyServer :=
  if m_listening s then with_listener s false (m_bindAddress s) (m_bindPort s) 0 else s.

Definition restart (listen : Z -> option Z) (s : ProxyServer) : ProxyServer * bool :=
  start listen (m_bindAddress s) (m_bindPort s) s.

(** ** Workers *)

Definition is_finished (s : ProxyServer) (t : nat) : bool :=
  match m_workers s !! t with Some Finished => true | _ => false end.

Definition hasActiveConnections (s : ProxyServer) : bool := existsb (fun t => negb (is_finished s t)) (m_threads s).

(** Finished threads leave the list and are deleted. *)
Definition reap (s : ProxyServer) : ProxyServer :=
  with_workers s (List.filter (fun t => negb (is_finished s t)) (m_threads s))
    (foldr delete (m_workers s) (List.filter (is_finished s) (m_threads s))) (m_nextThread s).

(** One pending connection; [started]: the thread could be started. *)
Definition onNewConnection (started : bool) (s : ProxyServer) : ProxyServer :=
  if m_shuttingDown s then s
  else
    let s1 := reap s in
    let t := m_nextThread s1 in
    if started then with_workers s1 (m_threads s1 ++ [t]) (<[t := Running]> (m_workers s1)) (S t)
    else with_workers s1 (m_threads s1) (m_workers s1) (S t).

(** ** Steps *)

(** What the operator or the program's own slots do to the interceptor. *)
Definition operate (a : Action) (c : Controller) : option Controller :=
  match a with
  | ASetEnabled e => Some (setEnabled c e)
  | ASetResponses e => Some (setResponsesEnabled c e)
  | ASetAutoCL e => Some (setAutoContentLength c e)
  | ASetAutoFix e => Some (setAutoFixNewlines c e)
  | AForward t => Some (forward c t)
  | AForwardHold t => Some (forwardInterceptingResponse c t)
  | ADrop => Some (drop_current c)
  | AForwardAll => Some (forwardAll c)
  | ASetRules rules => Some (setInterceptRules c rules)
  | ADeliver | APost _ _ _ _ _ _ | AResume _ _ => None
  end.

(** The next queued [addPendingOnMain]. *)
Definition dispatch (c : Controller) : option Controller :=
  match m_mailbox c with
  | [] => None
  | p :: mb => Some (addPendingOnMain (with_mailbox c (m_nextId c) mb) p)
  end.

Inductive Label :=
| MStart (listen : Z -> option Z) (address : qstr) (port : Z) | MStop
| MAccept (started : bool)
| MOperate (a : Action)
| MShutdown                                        (* call it, or its next statement *)
| MDispatch | MHook (t : nat)                      (* a queued slot runs *)
| MJoined                                          (* wait() returned true *)
| WPost (t : nat) (data : bytes) (host : qstr) (port : Z) (tls : bool) (kind : Kind) (forceHold : bool)
| WResume (t : nat) | WHook (t : nat) | WRelay (t : nat) | WLeave (t : nat) (disconnected : bool) | WFinish (t : nat).

(** The statements of [shutdownAndJoin] up to the wait. *)
Definition shutdownStep (s : ProxyServer) : option ProxyServer :=
  match m_pc s with
  | Loop => Some (if m_shuttingDown s then with_pc s Swapping else with_pc (with_flags s true (m_signalled s)) Closing)
  | Closing => Some (with_pc (stop s) RequestsOff)
  | RequestsOff => Some (with_pc (with_intercept s (setEnabled (m_intercept s) false)) ResponsesOff)
  | ResponsesOff => Some (with_pc (with_intercept s (setResponsesEnabled (m_intercept s) false)) Draining)
  | Draining => Some (with_pc (with_intercept s (forwardAll (m_intercept s))) Signalling)
  | Signalling => Some (with_pc (with_flags s (m_shuttingDown s) true) Swapping)
  | Swapping => Some (with_pc (with_workers s [] (m_workers s) (m_nextThread s)) (Joining (m_threads s)))
  | Joining [] => Some (with_pc s Loop)
  | Joining (_ :: _) => None
  end.

(** Slots are dispatched by the event loop and by the join. *)
Definition dispatching (pc : MainPC) : bool := match pc with Loop | Joining (_ :: _) => true | _ => false end.
Definition in_loop (pc : MainPC) : bool := match pc with Loop => true | _ => false end.

Definition when {A} (b : bool) (a : A) : option A := if b then Some a else None.

Definition exec (s : ProxyServer) (l : Label) : option ProxyServer :=
  match l with
  | MStart listen address port => when (in_loop (m_pc s)) (fst (start listen address port s))
  | MStop => when (in_loop (m_pc s)) (stop s)
  | MAccept started => when (in_loop (m_pc s)) (onNewConnection started s)
  | MOperate a => if in_loop (m_pc s) then with_intercept s <$> operate a (m_intercept s) else None
  | MShutdown => shutdownStep s
  | MDispatch => if dispatching (m_pc s) then with_intercept s <$> dispatch (m_intercept s) else None
  | MHook t =>
      match m_workers s !! t with
      | Some InHook => when (dispatching (m_pc s)) (set_worker s t Running)
      | _ => None
      end
  | MJoined =>
      match m_pc s with
      | Joining (t :: ts) =>
          when (is_finished s t) (with_pc (with_workers s (m_threads s) (delete t (m_workers s)) (m_nextThread s)) (Joining ts))
      | _ => None
      end
  | WPost t data host port tls kind forceHold =>
      match m_workers s !! t with
      | Some Running =>
          when (implb forceHold (bool_decide (kind = KResponse)))
            (set_worker (with_intercept s (pendImpl_post (m_intercept s) data host port tls kind forceHold)) t
               (Parked (m_nextId (m_intercept s))))
      | _ => None
      end
  | WResume t =>
      match m_workers s !! t with
      | Some (Parked p) =>
          match m_heap (m_intercept s) !! p with
          | Some pd => when (bool_decide (0 < m_done pd)%nat)
                         (set_worker (with_intercept s (with_heap (m_intercept s) (delete p (m_heap (m_intercept s))))) t Running)
          | None => None
          end
      | _ => None
      end
  | WHook t => match m_workers s !! t with Some Running => Some (set_worker s t InHook) | _ => None end
  | WRelay t =>
      match m_workers s !! t with
      | Some Running => Some (if m_shuttingDown s then s else set_worker s t Relaying)
      | _ => None
      end
  | WLeave t disconnected =>
      match m_workers s !! t with
      | Some Relaying => when (disconnected || m_signalled s) (set_worker s t Running)
      | _ => None
      end
  | WFinish t => match m_workers s !! t with Some Running => Some (set_worker s t Finished) | _ => None end
  end.

Fixpoint exec_all (s : ProxyServer) (ls : list Label) : option ProxyServer :=
  match ls with
  | [] => Some s
  | l :: ls' => match exec s l with None => None | Some s' => exec_all s' ls' end
  end.
End Lifecycle.

(** ** Invariant *)

Section LifecycleInvariant.
Context `{QtText} `{QtRegex}.

Definition joining (pc : MainPC) : list nat := match pc with Joining ts => ts | _ => [] end.
Definition tracked (s : ProxyServer) : list nat := m_threads s ++ joining (m_pc s).

Definition requests_off (pc : MainPC) : bool :=
  match pc with Loop | Closing | RequestsOff => false | _ => true end.
Definition responses_off (pc : MainPC) : bool :=
  match pc with Loop | Closing | RequestsOff | ResponsesOff => false | _ => true end.
Definition signalled (pc : MainPC) : bool := match pc with Swapping | Joining _ => true | _ => false end.
Definition swapped (pc : MainPC) : bool := match pc with Joining _ => true | _ => false end.

Record srv_inv (s : ProxyServer) : Prop := mkSrvInv {
  si_ic : inv (m_intercept s);
  si_nodup : NoDup (tracked s);
  si_dom t : is_Some (m_workers s !! t) <-> t ∈ tracked s;
  si_fresh t : t ∈ tracked s -> (t < m_nextThread s)%nat;
  si_parked t p : m_workers s !! t = Some (Parked p) -> is_Some (m_heap (m_intercept s) !! p);
  si_inj t t' p : m_workers s !! t = Some (Parked p) -> m_workers s !! t' = Some (Parked p) -> t = t';
  si_flag : m_pc s <> Loop -> m_shuttingDown s = true;
  si_idle : m_pc s = Loop -> m_shuttingDown s = true -> m_workers s = ∅;
  si_requests : requests_off (m_pc s) = true -> m_workers s = ∅ \/ m_enabled (m_intercept s) = false;
  si_responses : responses_off (m_pc s) = true -> m_workers s = ∅ \/ m_enabledResponses (m_intercept s) = false;
  si_signal : signalled (m_pc s) = true -> m_workers s = ∅ \/ m_signalled s = true;
  si_swapped : swapped (m_pc s) = true -> m_threads s = [];
  si_closed : m_pc s <> Closing -> m_shuttingDown s = true -> m_listening s = false
}.

Lemma srv_inv_init : srv_inv initServer.
Proof.
  split; try done.
  - apply inv_init.
  - constructor.
  - intros t. cbn. rewrite lookup_empty. split; [by intros []|]. intros Ht. by apply not_elem_of_nil in Ht.
  - intros t Ht. by apply not_elem_of_nil in Ht.
Qed.

(** Steps of the interceptor change neither its toggles nor which pendings exist. *)
Lemma addPending_toggles c p :
  m_enabled (addPendingOnMain c p) = m_enabled c /\ m_enabledResponses (addPendingOnMain c p) = m_enabledResponses c.
Proof. unfold addPendingOnMain. repeat case_match; done. Qed.

Lemma dispatch_inv c c' : inv c -> dispatch c = Some c' ->
  inv c' /\ m_enabled c' = m_enabled c /\ m_enabledResponses c' = m_enabledResponses c /\
  forall p, is_Some (m_heap c' !! p) <-> is_Some (m_heap c !! p).
Proof.
  unfold dispatch. destruct (m_mailbox c) as [|p mb] eqn:E; [done|]. intros Hi [= <-].
  destruct (addPending_toggles (with_mailbox c (m_nextId c) mb) p) as [-> ->].
  split; [by apply inv_deliver|]. do 2 (split; [done|]). intros q. by rewrite addPending_dom.
Qed.

Lemma operate_step a c c' : operate a c = Some c' -> step c a c'.
Proof. destruct a; cbn; intros [= <-]; constructor. Qed.

Lemma release_all_dom ps : forall c p, is_Some (m_heap (release_all c ps) !! p) <-> is_Some (m_heap c !! p).
Proof.
  unfold release_all. induction ps as [|q ps IH]; intros c p; cbn [fold_left]; [done|].
  rewrite IH, release_heap. case_match; by rewrite ?fmap_is_Some.
Qed.

Lemma promote_heap c : m_heap (promoteNextLocked c) = m_heap c.
Proof. unfold promoteNextLocked. by destruct (m_queue c). Qed.

Lemma releaseKind_dom c k p : is_Some (m_heap (releaseKindAsForward c k) !! p) <-> is_Some (m_heap c !! p).
Proof.
  unfold releaseKindAsForward. repeat case_match; rewrite release_all_dom; rewrite ?promote_heap; try done.
Qed.

Lemma operate_dom a c c' p : operate a c = Some c' -> is_Some (m_heap c' !! p) <-> is_Some (m_heap c !! p).
Proof.
  destruct a; cbn; intros [= <-]; try done.
  - unfold setEnabled. repeat case_match; try done. by rewrite releaseKind_dom.
  - unfold setResponsesEnabled. repeat case_match; try done. by rewrite releaseKind_dom.
  - unfold forward. case_match; [|done]. rewrite promote_heap, release_heap. case_match; by rewrite ?fmap_is_Some.
  - unfold forwardInterceptingResponse. case_match; [|done]. rewrite promote_heap, release_heap. case_match; by rewrite ?fmap_is_Some.
  - unfold drop_current. case_match; [|done]. rewrite promote_heap, release_heap. case_match; by rewrite ?fmap_is_Some.
  - unfold forwardAll, releaseAllAsForward. by rewrite release_all_dom.
Qed.
End LifecycleInvariant.

Section LifecycleSteps.
Context `{QtText} `{QtRegex}.

Lemma promote_toggles c :
  m_enabled (promoteNextLocked c) = m_enabled c /\ m_enabledResponses (promoteNextLocked c) = m_enabledResponses c.
Proof. unfold promoteNextLocked. by destruct (m_queue c). Qed.

Lemma releaseKind_toggles c k :
  m_enabled (releaseKindAsForward c k) = m_enabled c /\ m_enabledResponses (releaseKindAsForward c k) = m_enabledResponses c.
Proof.
  unfold releaseKindAsForward. repeat case_match;
    match goal with |- context [release_all ?c' ?ps] => destruct (release_all_fields ps c') as (_ & _ & _ & _ & -> & ->) end; try done.
  match goal with |- context [promoteNextLocked ?c'] => by destruct (promote_toggles c') as [-> ->] end.
Qed.

Lemma setEnabled_off c : m_enabled (setEnabled c false) = false /\ m_enabledResponses (setEnabled c false) = m_enabledResponses c.
Proof.
  unfold setEnabled. destruct (Bool.eqb false (m_enabled c)) eqn:E; [apply eqb_prop in E; by rewrite <- E|].
  match goal with |- context [releaseKindAsForward ?c' ?k] => by destruct (releaseKind_toggles c' k) as [-> ->] end.
Qed.

Lemma setResponsesEnabled_off c :
  m_enabledResponses (setResponsesEnabled c false) = false /\ m_enabled (setResponsesEnabled c false) = m_enabled c.
Proof.
  unfold setResponsesEnabled. destruct (Bool.eqb false (m_enabledResponses c)) eqn:E; [apply eqb_prop in E; by rewrite <- E|].
  match goal with |- context [releaseKindAsForward ?c' ?k] => by destruct (releaseKind_toggles c' k) as [-> ->] end.
Qed.

Lemma forwardAll_toggles c : m_enabled (forwardAll c) = m_enabled c /\ m_enabledResponses (forwardAll c) = m_enabledResponses c.
Proof.
  unfold forwardAll, releaseAllAsForward.
  by destruct (release_all_fields (option_list (m_current c) ++ m_queue c) (with_parked c None [])) as (_ & _ & _ & _ & -> & ->).
Qed.

(** The interceptor alone changes. *)
Lemma srv_inv_ic s c' :
  srv_inv s -> inv c' -> (forall p, is_Some (m_heap c' !! p) <-> is_Some (m_heap (m_intercept s) !! p)) ->
  (requests_off (m_pc s) = true -> m_enabled (m_intercept s) = false -> m_enabled c' = false) ->
  (responses_off (m_pc s) = true -> m_enabledResponses (m_intercept s) = false -> m_enabledResponses c' = false) ->
  srv_inv (with_intercept s c').
Proof.
  intros [I1 I2 I3 I4 I5 I6 I7 I8 I9 I10 I11 I12 I13] Hc Hd Hr Hs. split; try done; cbn [m_workers m_intercept with_intercept m_pc].
  - intros t p Hp. apply Hd. by eapply I5.
  - intros Ho. destruct (I9 Ho); auto.
  - intros Ho. destruct (I10 Ho); auto.
Qed.

(** A worker that was not blocked on the interceptor changes its state. *)
Lemma srv_inv_worker s t w :
  srv_inv s -> is_Some (m_workers s !! t) -> (forall p, w <> Parked p) -> srv_inv (set_worker s t w).
Proof.
  intros [I1 I2 I3 I4 I5 I6 I7 I8 I9 I10 I11 I12 I13] Ht Hw.
  assert (Hne : m_workers s <> ∅) by (intros E; rewrite E, lookup_empty in Ht; by destruct Ht).
  assert (Hl : forall t' p, <[t:=w]> (m_workers s) !! t' = Some (Parked p) -> m_workers s !! t' = Some (Parked p)).
  { intros t' p Hp. apply lookup_insert_Some in Hp as [[_ Hp]|[_ Hp]]; [by apply Hw in Hp|done]. }
  split; try done; cbn [m_workers m_intercept m_pc m_signalled m_shuttingDown set_worker with_workers].
  - intros t'. rewrite <- (I3 t'). destruct (decide (t' = t)) as [->|Hn]; [by rewrite lookup_insert_eq|].
    by rewrite lookup_insert_ne.
  - intros t' p Hp. by eapply I5, Hl.
  - intros t1 t2 p H1 H2. by eapply I6; apply Hl.
  - intros Hp Hd. by destruct (Hne (I8 Hp Hd)).
  - intros Ho. by destruct (I9 Ho); auto.
  - intros Ho. by destruct (I10 Ho); auto.
  - intros Ho. by destruct (I11 Ho); auto.
Qed.

Lemma srv_inv_resume s t p pd :
  srv_inv s -> m_workers s !! t = Some (Parked p) -> m_heap (m_intercept s) !! p = Some pd -> (0 < m_done pd)%nat ->
  srv_inv (set_worker (with_intercept s (with_heap (m_intercept s) (delete p (m_heap (m_intercept s))))) t Running).
Proof.
  intros [I1 I2 I3 I4 I5 I6 I7 I8 I9 I10 I11 I12 I13] Ht Hp Hd.
  assert (Hne : m_workers s <> ∅) by (intros E; by rewrite E, lookup_empty in Ht).
  assert (Hl : forall t' q, <[t:=Running]> (m_workers s) !! t' = Some (Parked q) -> m_workers s !! t' = Some (Parked q) /\ t' <> t).
  { intros t' q Hq. apply lookup_insert_Some in Hq as [[_ Hq]|[Hq Hq']]; [done|by split]. }
  split; cbn [m_workers m_intercept m_pc m_signalled m_shuttingDown m_threads m_nextThread set_worker with_workers with_intercept]; try done.
  - by eapply inv_resume.
  - intros t'. rewrite <- (I3 t'). destruct (decide (t' = t)) as [->|Hn]; [rewrite lookup_insert_eq|by rewrite lookup_insert_ne].
    split; intros _; eauto.
  - intros t' q Hq. destruct (Hl _ _ Hq) as [Hq' Hn]. cbn [m_heap with_heap]. rewrite lookup_delete_ne; [by eapply I5|].
    intros ->. by apply Hn, (I6 t' t q).
  - intros t1 t2 q H1 H2. destruct (Hl _ _ H1), (Hl _ _ H2). by eapply I6.
  - intros Hpc Hf. by destruct (Hne (I8 Hpc Hf)).
  - intros Ho. by destruct (I9 Ho); auto.
  - intros Ho. by destruct (I10 Ho); auto.
  - intros Ho. by destruct (I11 Ho); auto.
Qed.

Lemma srv_inv_post s t data host port tls kind fh :
  srv_inv s -> m_workers s !! t = Some Running -> (fh = true -> kind = KResponse) ->
  srv_inv (set_worker (with_intercept s (pendImpl_post (m_intercept s) data host port tls kind fh)) t (Parked (m_nextId (m_intercept s)))).
Proof.
  intros [I1 I2 I3 I4 I5 I6 I7 I8 I9 I10 I11 I12 I13] Ht Hf.
  assert (Hne : m_workers s <> ∅) by (intros E; by rewrite E, lookup_empty in Ht).
  assert (Hfresh : forall t', m_workers s !! t' <> Some (Parked (m_nextId (m_intercept s)))).
  { intros t' E. destruct (I5 _ _ E) as [pd Hpd]. destruct (inv_ids _ I1 _ _ Hpd). lia. }
  split; cbn [m_workers m_intercept m_pc m_signalled m_shuttingDown m_threads m_nextThread set_worker with_workers with_intercept]; try done.
  - by apply inv_post.
  - intros t'. rewrite <- (I3 t'). destruct (decide (t' = t)) as [->|Hn]; [rewrite lookup_insert_eq|by rewrite lookup_insert_ne].
    split; intros _; eauto.
  - intros t' q Hq. apply lookup_insert_Some in Hq as [[<- [= <-]]|[Hn Hq]].
    + cbn [m_heap pendImpl_post with_mailbox with_heap]. by rewrite lookup_insert_eq.
    + cbn [m_heap pendImpl_post with_mailbox with_heap]. destruct (decide (q = m_nextId (m_intercept s))) as [->|Hq'].
      * by rewrite lookup_insert_eq.
      * rewrite lookup_insert_ne by done. by eapply I5.
  - intros t1 t2 q H1 H2. apply lookup_insert_Some in H1 as [[<- [= <-]]|[N1 H1]], H2 as [[<- E2]|[N2 H2]]; try done.
    + by apply Hfresh in H2.
    + injection E2 as <-. by apply Hfresh in H1.
    + by eapply I6.
  - intros Hpc Hd. by destruct (Hne (I8 Hpc Hd)).
  - intros Ho. by destruct (I9 Ho); auto.
  - intros Ho. by destruct (I10 Ho); auto.
  - intros Ho. by destruct (I11 Ho); auto.
Qed.

Lemma foldr_delete_lookup (ts : list nat) (m : gmap nat Worker) t :
  foldr delete m ts !! t = if bool_decide (t ∈ ts) then None else m !! t.
Proof.
  induction ts as [|x ts IH]; cbn [foldr]; [done|]. destruct (decide (x = t)) as [->|Hn].
  - rewrite lookup_delete_eq, bool_decide_true; [done|left].
  - rewrite lookup_delete_ne, IH by done. erewrite (bool_decide_ext (t ∈ x :: ts)); [done|].
    rewrite elem_of_cons. naive_solver.
Qed.

Lemma NoDup_filter_bool {A} (f : A -> bool) (l : list A) : NoDup l -> NoDup (List.filter f l).
Proof.
  induction 1 as [|x l Hx _ IH]; cbn; [constructor|]. destruct (f x); [|done]. constructor; [|done].
  rewrite elem_of_filter_bool. naive_solver.
Qed.

Lemma reap_spec s : srv_inv s -> m_pc s = Loop -> m_shuttingDown s = false ->
  srv_inv (reap s) /\ forall t, m_workers (reap s) !! t = if is_finished s t then None else m_workers s !! t.
Proof.
  intros [I1 I2 I3 I4 I5 I6 I7 I8 I9 I10 I11 I12 I13] Hpc Hdn. unfold tracked in *. rewrite Hpc in *. cbn [joining] in *.
  rewrite app_nil_r in *.
  assert (Hw : forall t, m_workers (reap s) !! t = if is_finished s t then None else m_workers s !! t).
  { intros t. cbn [reap m_workers with_workers]. rewrite foldr_delete_lookup. case_bool_decide as Ht.
    - apply elem_of_filter_bool in Ht as [_ Hf]. by rewrite Hf.
    - destruct (is_finished s t) eqn:Hf; [|done]. destruct (m_workers s !! t) as [w|] eqn:E; [|done].
      destruct Ht. apply elem_of_filter_bool. split; [|done]. apply I3. by eexists. }
  assert (Hp : forall t p, m_workers (reap s) !! t = Some (Parked p) -> m_workers s !! t = Some (Parked p))
    by (intros t p; rewrite Hw; by destruct (is_finished s t)).
  split; [|done]. split; unfold tracked; cbn [m_pc m_intercept m_threads m_nextThread m_signalled m_shuttingDown reap with_workers];
    rewrite ?Hpc; cbn [joining]; rewrite ?app_nil_r; try done.
  - by apply NoDup_filter_bool.
  - intros t. fold (reap s). change (m_workers _) with (m_workers (reap s)). rewrite Hw, elem_of_filter_bool, <- I3.
    destruct (is_finished s t) eqn:E; cbn; [|tauto]. split; [by intros []|]. by intros [_ ?].
  - intros t. rewrite elem_of_filter_bool. intros [Ht _]. by apply I4.
  - intros t p Hq. by eapply I5, Hp.
  - intros t1 t2 p H1 H2. by eapply I6; apply Hp.
  - congruence.
Qed.

Lemma srv_inv_accept s started : srv_inv s -> m_pc s = Loop -> srv_inv (onNewConnection started s).
Proof.
  intros Hi Hpc. unfold onNewConnection. destruct (m_shuttingDown s) eqn:Hd; [done|].
  destruct (reap_spec s Hi Hpc Hd) as [[I1 I2 I3 I4 I5 I6 I7 I8 I9 I10 I11 I12 I13] _].
  unfold tracked in *. change (m_pc (reap s)) with (m_pc s) in *. rewrite Hpc in *. cbn [joining] in *. rewrite app_nil_r in *.
  set (t := m_nextThread (reap s)) in *.
  assert (Hnt : t ∉ m_threads (reap s)) by (intros Hin; apply I4 in Hin; unfold t in Hin; lia).
  assert (Hnw : m_workers (reap s) !! t = None) by (apply eq_None_not_Some; by rewrite I3).
  assert (Hlt : forall t', t' ∈ m_threads (reap s) -> (t' < S t)%nat) by (intros t' Hin; apply I4 in Hin; unfold t; lia).
  destruct started; split; unfold tracked; cbn [m_workers m_pc m_intercept m_threads m_nextThread m_signalled m_shuttingDown with_workers];
    change (m_pc (reap s)) with (m_pc s); change (m_shuttingDown (reap s)) with (m_shuttingDown s);
    rewrite ?Hpc; cbn [joining]; rewrite ?app_nil_r; try done; try congruence; try (by apply Hlt).
  - apply NoDup_app. split; [done|]. split; [|apply NoDup_singleton]. intros x Hx Hx'. apply list_elem_of_singleton in Hx' as ->. done.
  - intros t'. rewrite elem_of_app, list_elem_of_singleton, <- I3. destruct (decide (t' = t)) as [->|Hn].
    + rewrite lookup_insert_eq. split; [auto|eauto].
    + rewrite lookup_insert_ne by done. tauto.
  - intros t' Ht'. apply elem_of_app in Ht' as [Ht'|Ht']; [by apply Hlt|]. apply list_elem_of_singleton in Ht' as ->. lia.
  - intros t' p Hp. apply lookup_insert_Some in Hp as [[_ Hp]|[_ Hp]]; [done|]. by eapply I5.
  - intros t1 t2 p H1 H2. apply lookup_insert_Some in H1 as [[_ H1]|[_ H1]], H2 as [[_ H2]|[_ H2]]; try done. by eapply I6.
Qed.
End LifecycleSteps.

Lemma when_Some {A} b (a a' : A) : when b a = Some a' -> b = true /\ a' = a.
Proof. destruct b; cbn; [by intros [= <-]|done]. Qed.

(** [exec s l = Some s'] gives [s'] once the worker's state and the guards are known. *)
Ltac exec_result He :=
  repeat (case_match; try done); subst;
  first [apply when_Some in He as [_ ->] | apply fmap_Some in He as (? & _ & ->) | injection He as <-].

Section LifecycleInduction.
Context `{QtText} `{QtRegex}.

Lemma srv_inv_listener s on address port sp :
  srv_inv s -> (m_shuttingDown s = true -> on = false) -> srv_inv (with_listener s on address port sp).
Proof. intros [I1 I2 I3 I4 I5 I6 I7 I8 I9 I10 I11 I12 I13] Hon. by split. Qed.

Lemma srv_inv_start listen address port s : srv_inv s -> srv_inv (fst (start listen address port s)).
Proof.
  intros Hi. unfold start. case_match eqn:Hd; [done|]. case_match; [done|]. generalize (tries port). intros ps.
  induction ps as [|p ps IH]; cbn [start_loop]; [done|]. case_match; [|done].
  apply srv_inv_listener; [done|]. by rewrite Hd.
Qed.

Lemma srv_inv_stop s : srv_inv s -> srv_inv (stop s).
Proof. intros Hi. unfold stop. case_match; [by apply srv_inv_listener|done]. Qed.

Lemma stop_fields s : m_listening (stop s) = false /\ m_pc (stop s) = m_pc s /\ m_shuttingDown (stop s) = m_shuttingDown s /\ m_workers (stop s) = m_workers s.
Proof. unfold stop. by destruct (m_listening s) eqn:E. Qed.

(** Moving the main thread on: what the new place promises is due. *)
Lemma srv_inv_pc s pc :
  srv_inv s -> joining pc = joining (m_pc s) -> (pc = Loop -> m_workers s = ∅) ->
  m_shuttingDown s = true -> m_listening s = false \/ pc = Closing ->
  (requests_off pc = true -> m_workers s = ∅ \/ m_enabled (m_intercept s) = false) ->
  (responses_off pc = true -> m_workers s = ∅ \/ m_enabledResponses (m_intercept s) = false) ->
  (signalled pc = true -> m_workers s = ∅ \/ m_signalled s = true) ->
  (swapped pc = true -> m_threads s = []) -> srv_inv (with_pc s pc).
Proof.
  intros [I1 I2 I3 I4 I5 I6 I7 I8 I9 I10 I11 I12 I13] Hj Hl Hd Hn Hr Hs Hg Hw.
  assert (Ht : tracked (with_pc s pc) = tracked s) by (unfold tracked; cbn [m_threads m_pc with_pc]; by rewrite Hj).
  split; rewrite ?Ht; try done; cbn [m_pc with_pc m_workers m_intercept m_signalled m_listening]; auto.
  intros Hc _. by destruct Hn.
Qed.

Lemma srv_inv_down s sg : srv_inv s -> m_shuttingDown s = true -> m_pc s <> Loop \/ m_workers s = ∅ ->
  (signalled (m_pc s) = true -> m_signalled s = true -> sg = true) -> srv_inv (with_flags s true sg).
Proof.
  intros [I1 I2 I3 I4 I5 I6 I7 I8 I9 I10 I11 I12 I13] Hd Hn Hg.
  split; try done; cbn [m_pc with_flags m_workers m_intercept m_signalled m_shuttingDown].
  - intros E _. by destruct Hn.
  - intros Ho. destruct (I11 Ho); auto.
  - intros Hc _. by apply I13.
Qed.

Lemma srv_inv_shutdown s s' : srv_inv s -> shutdownStep s = Some s' -> srv_inv s'.
Proof.
  intros Hi. pose proof Hi as [I1 I2 I3 I4 I5 I6 I7 I8 I9 I10 I11 I12 I13].
  unfold shutdownStep. destruct (m_pc s) as [| | | | | | |[|t ts]] eqn:Hpc; try done.
  - intros [= <-]. destruct (m_shuttingDown s) eqn:Hd.
    + apply srv_inv_pc; rewrite ?Hpc; try done; try (intros _; left; by apply I8). left. by apply I13.
    + unfold tracked in *. rewrite Hpc in *. split; unfold tracked; cbn [m_threads m_pc with_pc with_flags joining]; try done; try congruence.
  - intros [= <-]. destruct (stop_fields s) as (Hn & Hp & Hd & Hw).
    apply srv_inv_pc; rewrite ?Hp, ?Hd, ?Hw, ?Hpc; try done; [by apply srv_inv_stop|by apply I7|by left].
  - intros [= <-]. destruct (setEnabled_off (m_intercept s)) as [Hoff Hsame].
    apply srv_inv_pc; cbn [m_pc with_intercept m_workers m_intercept m_shuttingDown m_listening]; rewrite ?Hpc; try done; try auto; try (left; by auto).
    apply srv_inv_ic; rewrite ?Hpc; try done.
    + eapply (inv_step _ (ASetEnabled false)); [done|constructor].
    + intros p. by apply (operate_dom (ASetEnabled false)).
  - intros [= <-]. destruct (setResponsesEnabled_off (m_intercept s)) as [Hoff Hsame].
    apply srv_inv_pc; cbn [m_pc with_intercept m_workers m_intercept m_shuttingDown m_listening]; rewrite ?Hpc; try done; try auto; try (left; by auto).
    + apply srv_inv_ic; rewrite ?Hpc; try done.
      * eapply (inv_step _ (ASetResponses false)); [done|constructor].
      * intros p. by apply (operate_dom (ASetResponses false)).
      * intros _. by rewrite Hsame.
    + intros _. rewrite Hsame. by apply I9.
  - intros [= <-]. destruct (forwardAll_toggles (m_intercept s)) as [Hen Her].
    apply srv_inv_pc; cbn [m_pc with_intercept m_workers m_intercept m_shuttingDown m_listening]; rewrite ?Hpc, ?Hen, ?Her; try done; try auto; try (left; by auto).
    apply srv_inv_ic; rewrite ?Hpc, ?Hen, ?Her; try done.
    + eapply (inv_step _ AForwardAll); [done|constructor].
    + intros p. by apply (operate_dom AForwardAll).
  - intros [= <-]. apply srv_inv_pc; cbn [m_pc with_flags m_workers m_intercept m_shuttingDown m_signalled m_listening]; rewrite ?Hpc; try done; try auto; try (left; by auto).
    rewrite I7 by done. apply srv_inv_down; [done|by apply I7|left; by rewrite Hpc|done].
  - intros [= <-]. unfold tracked in *. cbn [joining] in *. rewrite Hpc in *. cbn [joining] in *. rewrite app_nil_r in *.
    split; cbn [m_pc with_pc with_workers m_workers m_intercept m_shuttingDown m_signalled m_nextThread m_threads]; unfold tracked;
      cbn [m_pc with_pc with_workers m_threads joining app]; try done; auto.
  - intros [= <-]. assert (Hw : m_workers s = ∅).
    { apply map_empty. intros t. apply eq_None_not_Some. rewrite I3. unfold tracked. rewrite Hpc, I12 by done. cbn.
      by intros ?%elem_of_nil. }
    apply srv_inv_pc; rewrite ?Hpc; try done; auto.
Qed.

Lemma srv_inv_joined s t ts :
  srv_inv s -> m_pc s = Joining (t :: ts) -> is_finished s t = true ->
  srv_inv (with_pc (with_workers s (m_threads s) (delete t (m_workers s)) (m_nextThread s)) (Joining ts)).
Proof.
  intros [I1 I2 I3 I4 I5 I6 I7 I8 I9 I10 I11 I12 I13] Hpc Hf.
  unfold tracked in *. rewrite Hpc in *. cbn [joining] in *. rewrite I12 in * by done. cbn [app] in *.
  apply NoDup_cons in I2 as [Hnt Hnd].
  assert (Hl : forall t' p, delete t (m_workers s) !! t' = Some p -> m_workers s !! t' = Some p).
  { intros t' p Hp. by apply lookup_delete_Some in Hp as [_ Hp]. }
  assert (Hs : m_workers s = ∅ -> delete t (m_workers s) = ∅) by (intros ->; apply delete_empty).
  split; unfold tracked; cbn [m_pc with_pc with_workers m_workers m_intercept m_shuttingDown m_signalled m_nextThread m_threads joining];
    rewrite ?I12 by done; cbn [app]; try done.
  - intros t'. destruct (decide (t' = t)) as [->|Hn].
    + rewrite lookup_delete_eq. split; [by intros []|done].
    + rewrite lookup_delete_ne, I3, elem_of_cons by done. naive_solver.
  - intros t' Ht'. apply I4. by right.
  - intros t' p Hp. by eapply I5, Hl.
  - intros t1 t2 p H1 H2. by eapply I6; apply Hl.
  - intros _. by apply I7.
  - intros Ho. destruct (I9 Ho); auto.
  - intros Ho. destruct (I10 Ho); auto.
  - intros Ho. destruct (I11 Ho); auto.
  - intros _. by apply I13.
Qed.

Lemma srv_inv_exec s l s' : srv_inv s -> exec s l = Some s' -> srv_inv s'.
Proof.
  intros Hi. destruct l; cbn [exec].
  - intros [Hp ->]%when_Some. by apply srv_inv_start.
  - intros [Hp ->]%when_Some. by apply srv_inv_stop.
  - intros [Hp ->]%when_Some. apply srv_inv_accept; [done|]. by destruct (m_pc s).
  - destruct (m_pc s) eqn:Hpc; cbn [in_loop]; try done. intros (c' & Ho & ->)%fmap_Some.
    apply srv_inv_ic; rewrite ?Hpc; try done.
    + eapply inv_step; [apply Hi|by apply operate_step].
    + intros p. by eapply operate_dom.
  - by apply srv_inv_shutdown.
  - case_match; [|done]. intros (c' & Ho & ->)%fmap_Some.
    destruct (dispatch_inv _ _ (si_ic _ Hi) Ho) as (Hc & He & Her & Hd).
    apply srv_inv_ic; rewrite ?He, ?Her; done.
  - case_match; [|done]. case_match; try done. intros [Hp ->]%when_Some. by apply srv_inv_worker.
  - destruct (m_pc s) as [| | | | | | |[|t ts]] eqn:Hpc; try done. intros [Hp ->]%when_Some. by apply srv_inv_joined.
  - case_match eqn:Ht; [|done]. case_match; try done. subst. intros [Hp ->]%when_Some. apply srv_inv_post; [done..|].
    intros ->. cbn in Hp. by apply bool_decide_eq_true in Hp.
  - case_match eqn:Ht; [|done]. case_match; try done. case_match eqn:Hpd; [|done]. subst. intros [Hp ->]%when_Some.
    eapply srv_inv_resume; [done..|]. by apply bool_decide_eq_true in Hp.
  - case_match eqn:Ht; [|done]. case_match; try done. intros [= <-]. by apply srv_inv_worker.
  - case_match eqn:Ht; [|done]. case_match; try done. intros [= <-]. case_match; [done|]. by apply srv_inv_worker.
  - case_match eqn:Ht; [|done]. case_match; try done. intros [Hp ->]%when_Some. by apply srv_inv_worker.
  - case_match eqn:Ht; [|done]. case_match; try done. intros [= <-]. by apply srv_inv_worker.
Qed.

Lemma srv_inv_exec_all ls : forall s s', srv_inv s -> exec_all s ls = Some s' -> srv_inv s'.
Proof.
  induction ls as [|l ls IH]; intros s s' Hi; cbn [exec_all]; [by intros [= <-]|].
  destruct (exec s l) as [s1|] eqn:E; [|done]. apply IH. by eapply srv_inv_exec.
Qed.
End LifecycleInduction.

(** ** Shutdown *)

Section Shutdown.
Context `{QtText} `{QtRegex}.

Lemma exec_all_app ls ls' s :
  exec_all s (ls ++ ls') = match exec_all s ls with Some s' => exec_all s' ls' | None => None end.
Proof. revert s. induction ls as [|l ls IH]; intros s; cbn [exec_all app]; [done|]. by destruct (exec s l). Qed.

(** No message that waits is force-held. *)
Definition no_force (c : Controller) : Prop :=
  forall p pd, p ∈ waiting c -> m_heap c !! p = Some pd -> m_forceHold pd = false.

(** [c'] has the pendings of [c], each still force-held or not as it was. *)
Definition same_force (c c' : Controller) : Prop :=
  forall p, m_forceHold <$> m_heap c' !! p = m_forceHold <$> m_heap c !! p.

Lemma same_force_release d t h c p : same_force c (release d t h c p).
Proof. intros q. rewrite release_heap. case_match; [|done]. by destruct (m_heap c !! q). Qed.

Lemma same_force_release_all ps : forall c, same_force c (release_all c ps).
Proof.
  unfold release_all. induction ps as [|p ps IH]; intros c q; cbn [fold_left]; [done|].
  rewrite (IH (release 0 None false c p) q). apply same_force_release.
Qed.

Lemma same_force_kind c k : same_force c (releaseKindAsForward c k).
Proof.
  intros q. unfold releaseKindAsForward. repeat case_match; rewrite same_force_release_all; by rewrite ?promote_heap.
Qed.

Lemma same_force_deliver c p : same_force c (addPendingOnMain c p).
Proof. intros q. unfold addPendingOnMain. repeat case_match; try done; apply same_force_release. Qed.

Lemma no_force_sub c c' :
  no_force c -> same_force c c' -> (forall p, p ∈ waiting c' -> p ∈ waiting c) -> no_force c'.
Proof.
  intros Hn Hs Hw p pd Hp Hg. specialize (Hs p). rewrite Hg in Hs. cbn in Hs.
  destruct (m_heap c !! p) as [pd'|] eqn:E; [|done]. injection Hs as ->. eapply Hn; [by apply Hw|done].
Qed.

(** With both toggles off only force-held messages are parked. *)
Lemma parked_forced c p : inv c -> m_enabled c = false -> m_enabledResponses c = false ->
  p ∈ parked c -> exists pd, m_heap c !! p = Some pd /\ m_forceHold pd = true.
Proof.
  intros Hi He Hr Hp. destruct (inv_waiting _ Hi p) as (pd & Hg & _).
  { unfold waiting. apply elem_of_app. by left. }
  exists pd. split; [done|]. pose proof (inv_enabled _ Hi p pd Hp Hg) as Hk. unfold kindEnabled in Hk.
  destruct (m_forceHold pd); [done|]. cbn in Hk. destruct (m_kind pd); congruence.
Qed.

Lemma no_force_parked c : inv c -> m_enabled c = false -> m_enabledResponses c = false -> no_force c -> parked c = [].
Proof.
  intros Hi He Hr Hn. destruct (parked c) as [|p ps] eqn:E; [done|].
  destruct (parked_forced c p) as (pd & Hg & Hf); try done; [rewrite E; by left|].
  rewrite (Hn p pd) in Hf; [done| |done]. unfold waiting. rewrite E. by left.
Qed.

(** The join dispatches everything that was queued. *)
Lemma join_delivers mb : forall s t ts, srv_inv s -> m_pc s = Joining (t :: ts) -> m_mailbox (m_intercept s) = mb ->
  no_force (m_intercept s) ->
  exists ls s', exec_all s ls = Some s' /\ m_pc s' = m_pc s /\ waiting (m_intercept s') = [].
Proof.
  induction mb as [|p mb IH]; intros s t ts Hi Hpc Hmb Hn.
  - exists [], s. split; [done|]. split; [done|]. unfold waiting. rewrite Hmb, app_nil_r.
    assert (Hne : m_workers s <> ∅).
    { intros E. destruct (si_dom _ Hi t) as [_ Ht]. rewrite E, lookup_empty in Ht.
      destruct Ht as [? ?]; [|done]. unfold tracked. rewrite Hpc. apply elem_of_app. right. by left. }
    apply no_force_parked; [apply Hi| | |done].
    + destruct (si_requests _ Hi); [by rewrite Hpc|done..].
    + destruct (si_responses _ Hi); [by rewrite Hpc|done..].
  - set (c1 := addPendingOnMain (with_mailbox (m_intercept s) (m_nextId (m_intercept s)) mb) p).
    set (s1 := with_intercept s c1).
    assert (He : exec s MDispatch = Some s1).
    { cbn [exec]. rewrite Hpc. cbn [dispatching]. unfold dispatch. by rewrite Hmb. }
    assert (Hm1 : m_mailbox c1 = mb) by (unfold c1; by rewrite addPending_mailbox).
    destruct (IH s1 t ts) as (ls & s' & Hls & Hpc' & Hw); try done.
    + by eapply srv_inv_exec.
    + eapply no_force_sub; [exact Hn| |].
      * intros q. exact (same_force_deliver (with_mailbox (m_intercept s) (m_nextId (m_intercept s)) mb) p q).
      * intros q. change (m_intercept s1) with c1. unfold waiting. rewrite Hm1, Hmb, !elem_of_app, elem_of_cons. unfold c1.
        destruct (addPending_parked (with_mailbox (m_intercept s) (m_nextId (m_intercept s)) mb) p) as [E|E];
          [apply (inv_current _ (si_ic _ Hi))|rewrite E|rewrite E, elem_of_app, list_elem_of_singleton];
          change (parked (with_mailbox _ _ _)) with (parked (m_intercept s)); tauto.
    + exists (MDispatch :: ls), s'. cbn [exec_all]. rewrite He. done.
Qed.

(** A worker that waits for nobody finishes and is joined. *)
Lemma join_worker s t ts : srv_inv s -> m_pc s = Joining (t :: ts) -> waiting (m_intercept s) = [] ->
  exists ls s', exec_all s ls = Some s' /\ m_pc s' = Joining ts /\ waiting (m_intercept s') = [].
Proof.
  intros Hi Hpc Hw.
  assert (Hfin : forall s, m_pc s = Joining (t :: ts) -> m_workers s !! t = Some Running -> waiting (m_intercept s) = [] ->
    exists s', exec_all s [WFinish t; MJoined] = Some s' /\ m_pc s' = Joining ts /\ waiting (m_intercept s') = []).
  { intros s1 Hp1 Hr1 Hw1. eexists. cbn [exec_all exec]. rewrite Hr1.
    cbn [m_pc set_worker with_workers]. rewrite Hp1. unfold is_finished. cbn [m_workers set_worker with_workers].
    rewrite lookup_insert_eq. split; [done|]. by split. }
  assert (Hthen : forall l s1, exec s l = Some s1 -> m_pc s1 = m_pc s -> m_workers s1 !! t = Some Running ->
    waiting (m_intercept s1) = [] ->
    exists ls s', exec_all s ls = Some s' /\ m_pc s' = Joining ts /\ waiting (m_intercept s') = []).
  { intros l s1 He Hp1 Hr1 Hw1. destruct (Hfin s1) as (s' & Hs & Hr); [by rewrite Hp1|done..|].
    exists (l :: [WFinish t; MJoined]), s'. split; [|done]. cbn [exec_all]. by rewrite He. }
  assert (Ht : t ∈ tracked s) by (unfold tracked; rewrite Hpc; apply elem_of_app; right; by left).
  pose proof (proj2 (si_dom _ Hi t) Ht) as [w Hwk]. destruct w as [|p| | |].
  - destruct (Hfin s) as (s' & Hs & Hr); try done. by exists [WFinish t; MJoined], s'.
  - destruct (si_parked _ Hi t p Hwk) as [pd Hpd].
    assert (Hd : m_done pd = 1%nat) by (eapply (inv_released _ (si_ic _ Hi)); [done|]; rewrite Hw; apply not_elem_of_nil).
    eapply (Hthen (WResume t)); cbn [exec]; [rewrite Hwk, Hpd, Hd; done|done| |done].
    cbn [m_workers set_worker with_workers]. apply lookup_insert_eq.
  - eapply (Hthen (MHook t)); cbn [exec]; [rewrite Hwk, Hpc; done|done| |done].
    cbn [m_workers set_worker with_workers]. apply lookup_insert_eq.
  - assert (Hsg : m_signalled s = true).
    { destruct (si_signal _ Hi) as [E|E]; [by rewrite Hpc|by rewrite E, lookup_empty in Hwk|done]. }
    eapply (Hthen (WLeave t false)); cbn [exec]; [rewrite Hwk, Hsg; done|done| |done].
    cbn [m_workers set_worker with_workers]. apply lookup_insert_eq.
  - exists [MJoined]. eexists. cbn [exec_all exec]. rewrite Hpc. unfold is_finished. rewrite Hwk. by split.
Qed.

Lemma join_workers ts : forall s, srv_inv s -> m_pc s = Joining ts -> waiting (m_intercept s) = [] ->
  exists ls s', exec_all s ls = Some s' /\ m_pc s' = Loop /\ m_shuttingDown s' = true.
Proof.
  induction ts as [|t ts IH]; intros s Hi Hpc Hw.
  - exists [MShutdown]. eexists. cbn [exec_all exec]. unfold shutdownStep. rewrite Hpc. split; [done|]. split; [done|].
    cbn [m_shuttingDown with_pc]. apply (si_flag _ Hi). by rewrite Hpc.
  - destruct (join_worker s t ts) as (ls & s1 & He & Hp1 & Hw1); try done.
    destruct (IH s1) as (ls' & s2 & He' & Hr); try done; [by eapply srv_inv_exec_all|].
    exists (ls ++ ls'), s2. by rewrite exec_all_app, He.
Qed.

(** The statements before the wait: seven steps, whatever the state. *)
Lemma shutdown_prefix s : m_pc s = Loop -> m_shuttingDown s = false ->
  exec_all s (repeat MShutdown 7) =
  let c := forwardAll (setResponsesEnabled (setEnabled (m_intercept s) false) false) in
  Some (with_pc (with_workers (with_flags (with_intercept (stop s) c) true true) [] (m_workers s) (m_nextThread s))
          (Joining (m_threads s))).
Proof.
  destruct s as [on addr port sp down sg ts ws n c pc]. cbn [m_pc m_shuttingDown]. intros -> ->.
  destruct on; cbn -[setEnabled setResponsesEnabled forwardAll]; reflexivity.
Qed.

Lemma releaseKind_mailbox c k : m_mailbox (releaseKindAsForward c k) = m_mailbox c.
Proof.
  unfold releaseKindAsForward. repeat case_match;
    match goal with |- context [release_all ?c' ?ps] => destruct (release_all_fields ps c') as (_ & _ & -> & _) end; try done.
  unfold promoteNextLocked. by case_match.
Qed.

Lemma drained c : let c' := forwardAll (setResponsesEnabled (setEnabled c false) false) in
  waiting c' = m_mailbox c /\ same_force c c'.
Proof.
  assert (H1 : forall c, m_mailbox (setEnabled c false) = m_mailbox c /\ same_force c (setEnabled c false)).
  { intros c1. unfold setEnabled. case_match; [by split|]. rewrite releaseKind_mailbox. split; [done|].
    intros p. exact (same_force_kind _ _ p). }
  assert (H2 : forall c, m_mailbox (setResponsesEnabled c false) = m_mailbox c /\ same_force c (setResponsesEnabled c false)).
  { intros c1. unfold setResponsesEnabled. case_match; [by split|]. rewrite releaseKind_mailbox. split; [done|].
    intros p. exact (same_force_kind _ _ p). }
  cbn zeta. destruct (H1 c) as [M1 F1], (H2 (setEnabled c false)) as [M2 F2]. unfold forwardAll.
  rewrite releaseAll_waiting, M2, M1. split; [done|]. intros p. unfold releaseAllAsForward.
  rewrite same_force_release_all. cbn [m_heap with_parked]. by rewrite F2, F1.
Qed.
End Shutdown.

Section Guarantees.
Context `{QtText} `{QtRegex}.

(** The step that forgets a worker thread is its reaping or its join. *)
Lemma exec_forgets s l s' t w : srv_inv s -> exec s l = Some s' -> m_workers s !! t = Some w -> m_workers s' !! t = None ->
  w = Finished.
Proof.
  intros Hi He Hw Hn.
  assert (Hset : forall s1 t' w', m_workers s1 = m_workers s -> m_workers (set_worker s1 t' w') !! t <> None).
  { intros s1 t' w' E. cbn [m_workers set_worker with_workers]. rewrite E.
    destruct (decide (t' = t)) as [->|Hne]; [by rewrite lookup_insert_eq|by rewrite lookup_insert_ne, Hw]. }
  assert (Hsame : m_workers s' = m_workers s -> w = Finished) by (intros E; by rewrite E, Hw in Hn).
  destruct l; cbn [exec] in He.
  - apply when_Some in He as [_ ->]. apply Hsame. unfold start. do 2 (case_match; [done|]). clear.
    generalize (tries port). intros ps. induction ps as [|p ps IH]; cbn [start_loop]; [done|]. by case_match.
  - apply when_Some in He as [_ ->]. apply Hsame. by destruct (stop_fields s) as (_ & _ & _ & ->).
  - apply when_Some in He as [Hp ->]. unfold onNewConnection in Hn. destruct (m_shuttingDown s) eqn:Hd; [by rewrite Hw in Hn|].
    destruct (reap_spec s Hi) as [_ Hr]; [by destruct (m_pc s)|done|].
    assert (Hrt : m_workers (reap s) !! t = None).
    { destruct started; [|done]. cbn [m_workers with_workers] in Hn. by apply lookup_insert_None in Hn as [? _]. }
    rewrite Hr in Hrt. unfold is_finished in Hrt. rewrite Hw in Hrt. by destruct w.
  - case_match; [|done]. apply fmap_Some in He as (c & _ & ->). by apply Hsame.
  - unfold shutdownStep in He. apply Hsame. destruct (m_pc s) as [| | | | | | |[|]]; try done; injection He as <-; try done.
    + by destruct (m_shuttingDown s).
    + cbn. by destruct (stop_fields s) as (_ & _ & _ & ->).
  - case_match; [|done]. apply fmap_Some in He as (c & _ & ->). by apply Hsame.
  - exec_result He. by apply Hset in Hn.
  - destruct (m_pc s) as [| | | | | | |[|t' ts]]; try done. apply when_Some in He as [Hf ->].
    cbn [m_workers with_pc with_workers] in Hn. destruct (decide (t' = t)) as [->|Hne].
    + unfold is_finished in Hf. rewrite Hw in Hf. by destruct w.
    + by rewrite lookup_delete_ne, Hw in Hn.
  - exec_result He. by apply Hset in Hn.
  - exec_result He. by apply Hset in Hn.
  - exec_result He. by apply Hset in Hn.
  - repeat (case_match; try done); injection He as <-; [by apply Hsame|by apply Hset in Hn].
  - exec_result He. by apply Hset in Hn.
  - exec_result He. by apply Hset in Hn.
Qed.

(** Nothing clears the flag. *)
Lemma exec_down s l s' : exec s l = Some s' -> m_shuttingDown s = true -> m_shuttingDown s' = true.
Proof.
  intros He Hd. destruct (stop_fields s) as (_ & _ & Hsd & _). destruct l; cbn [exec] in He;
    try (exec_result He; done).
  - apply when_Some in He as [_ ->]. unfold start. by rewrite Hd.
  - apply when_Some in He as [_ ->]. by rewrite Hsd.
  - apply when_Some in He as [_ ->]. unfold onNewConnection. by rewrite Hd.
  - unfold shutdownStep in He. rewrite Hd in He. destruct (m_pc s) as [| | | | | | |[|]]; try done; injection He as <-; try done.
    cbn [m_shuttingDown with_pc]. by rewrite Hsd.
Qed.

(** Once shut down, no step makes a worker or reopens the listener. *)
Definition retired (s : ProxyServer) : Prop := m_shuttingDown s = true /\ m_workers s = ∅ /\ m_pc s <> Closing.

Lemma retired_exec s l s' : retired s -> exec s l = Some s' -> retired s'.
Proof.
  intros (Hd & Hw & Hc) He. split; [by eapply exec_down|]. destruct (stop_fields s) as (_ & Hp & _ & Hsw).
  destruct l; cbn [exec] in He; rewrite ?Hw, ?lookup_empty in He; try done; try (exec_result He; done).
  - apply when_Some in He as [_ ->]. unfold start. by rewrite Hd.
  - apply when_Some in He as [_ ->]. by rewrite Hsw, Hp.
  - apply when_Some in He as [_ ->]. unfold onNewConnection. by rewrite Hd.
  - unfold shutdownStep in He. rewrite Hd in He. by destruct (m_pc s) as [| | | | | | |[|]]; try done; injection He as <-.
Qed.

Lemma retired_exec_all ls : forall s s', retired s -> exec_all s ls = Some s' -> retired s'.
Proof.
  induction ls as [|l ls IH]; intros s s' Hr; cbn [exec_all]; [by intros [= <-]|].
  destruct (exec s l) as [s1|] eqn:E; [|done]. apply IH. by eapply retired_exec.
Qed.

(** A worker whose message is parked while the main thread joins. *)
Definition hung (t : nat) (p : Z) (s : ProxyServer) : Prop :=
  t ∈ joining (m_pc s) /\ m_workers s !! t = Some (Parked p) /\ p ∈ parked (m_intercept s).

Lemma hung_exec t p s l s' : srv_inv s -> hung t p s -> exec s l = Some s' -> hung t p s'.
Proof.
  intros Hi (Ht & Hw & Hp) He.
  assert (Hj : exists t1 ts, m_pc s = Joining (t1 :: ts)).
  { destruct (m_pc s) as [| | | | | | |[|t1 ts]] eqn:E; cbn in Ht; try (by apply not_elem_of_nil in Ht). by exists t1, ts. }
  destruct Hj as (t1 & ts & Hpc).
  assert (Hset : forall s1 t' w', m_pc s1 = m_pc s -> m_workers s1 = m_workers s -> parked (m_intercept s1) = parked (m_intercept s) ->
    m_workers s !! t' <> Some (Parked p) -> hung t p (set_worker s1 t' w')).
  { intros s1 t' w' E1 E2 E3 Hn. unfold hung. cbn [m_pc m_workers m_intercept set_worker with_workers]. rewrite E1, E2, E3.
    split; [done|]. split; [|done]. rewrite lookup_insert_ne; [done|]. intros ->. by apply Hn. }
  destruct l; cbn [exec] in He; rewrite ?Hpc in He; cbn [in_loop when dispatching] in He; try done.
  - unfold shutdownStep in He. by rewrite Hpc in He.
  - apply fmap_Some in He as (c & Hc & ->). unfold hung. cbn [m_pc m_workers m_intercept with_intercept].
    split; [done|]. split; [done|]. unfold dispatch in Hc. destruct (m_mailbox (m_intercept s)) as [|q mb]; [done|]. injection Hc as <-.
    destruct (addPending_parked (with_mailbox (m_intercept s) (m_nextId (m_intercept s)) mb) q (inv_current _ (si_ic _ Hi))) as [-> | ->];
      [done|]. apply elem_of_app. by left.
  - exec_result He. apply Hset; try done; congruence.
  - apply when_Some in He as [Hf ->]. assert (Hne : t1 <> t) by (intros ->; unfold is_finished in Hf; by rewrite Hw in Hf).
    rewrite Hpc in Ht. cbn in Ht. apply elem_of_cons in Ht as [->|Ht]; [done|].
    unfold hung. cbn [m_pc m_workers m_intercept with_pc with_workers joining]. by rewrite lookup_delete_ne.
  - exec_result He. apply Hset; try done; congruence.
  - repeat (case_match; try done). subst. apply when_Some in He as [Hd%bool_decide_eq_true ->]. apply Hset; try done.
    intros E. match goal with E1 : m_workers s !! _ = Some (Parked ?q), E2 : m_heap _ !! ?q = Some ?pd |- _ =>
      rewrite E in E1; injection E1 as <-;
      destruct (inv_waiting _ (si_ic _ Hi) p) as (pd' & Eg & (Hz & _)); [unfold waiting; apply elem_of_app; by left|];
      rewrite Eg in E2; injection E2 as <- end. lia.
  - exec_result He. apply Hset; try done; congruence.
  - repeat (case_match; try done); injection He as <-; [done|apply Hset; try done; congruence].
  - exec_result He. apply Hset; try done; congruence.
  - exec_result He. apply Hset; try done; congruence.
Qed.

Lemma hung_exec_all t p ls : forall s s', srv_inv s -> hung t p s -> exec_all s ls = Some s' -> hung t p s'.
Proof.
  induction ls as [|l ls IH]; intros s s' Hi Hh; cbn [exec_all]; [by intros [= <-]|].
  destruct (exec s l) as [s1|] eqn:E; [|done]. apply IH; [by eapply srv_inv_exec|by eapply hung_exec].
Qed.

Lemma start_loop_bound listen address ps s :
  start_loop listen address ps s =
  match omap listen ps with [] => (s, false) | b :: _ => (with_listener s true address b b, true) end.
Proof. induction ps as [|p ps IH]; cbn [start_loop]; [done|]. cbn. destruct (listen p); [done|exact IH]. Qed.
End Guarantees.

(** ** Properties *)

(** Worker threads are never lost: in every reachable state the threads that
    exist are exactly those in m_threads or in the list being joined, each once; a
    worker parked in the interceptor waits on a pending that exists and that no
    other worker waits on; and the step after which a thread is gone found it
    Finished, so reaping and joining delete no running thread. *)
Theorem worker_tracking `{QtText, QtRegex} ls s :
  exec_all initServer ls = Some s ->
  NoDup (tracked s) /\ (forall t, is_Some (m_workers s !! t) <-> t ∈ tracked s) /\
  (forall t p, m_workers s !! t = Some (Parked p) -> is_Some (m_heap (m_intercept s) !! p)) /\
  (forall t t' p, m_workers s !! t = Some (Parked p) -> m_workers s !! t' = Some (Parked p) -> t = t') /\
  (forall l s' t w, exec s l = Some s' -> m_workers s !! t = Some w -> m_workers s' !! t = None -> w = Finished).
Proof.
  intros Hr. pose proof (srv_inv_exec_all _ _ _ srv_inv_init Hr) as Hi.
  do 4 (split; [apply Hi|]). intros l s' t w. by apply exec_forgets.
Qed.

(** Once shutdownAndJoin() has returned, no worker exists and the port is
    closed, and this stays so whatever is called afterwards: start() refuses,
    late connections are dropped, a second shutdown changes nothing. *)
Theorem shutdown_is_final `{QtText, QtRegex} ls s ls' s' :
  exec_all initServer ls = Some s -> m_shuttingDown s = true -> m_pc s = Loop ->
  exec_all s ls' = Some s' ->
  m_workers s = ∅ /\ m_listening s = false /\
  m_shuttingDown s' = true /\ m_workers s' = ∅ /\ m_listening s' = false /\
  forall listen address port, start listen address port s' = (s', false).
Proof.
  intros Hr Hd Hpc Hr'. pose proof (srv_inv_exec_all _ _ _ srv_inv_init Hr) as Hi.
  pose proof (srv_inv_exec_all _ _ _ Hi Hr') as Hi'.
  assert (Hw : m_workers s = ∅) by by apply Hi.
  destruct (retired_exec_all ls' s s') as (Hd' & Hw' & Hc'); [unfold retired; by rewrite Hpc|done|].
  split; [done|]. split; [apply Hi; [by rewrite Hpc|done]|]. do 2 (split; [done|]).
  split; [by apply Hi'|]. intros listen address port. unfold start. by rewrite Hd'.
Qed.

(** C32. From every reachable state of the event loop in which no force-held
    response is still on its way to the main thread, shutdownAndJoin() can run to
    its end: the parked workers were released, those blocked on a main-thread hook
    are served, the relays were told to leave, and every worker is joined. *)
Theorem shutdown_completes `{QtText, QtRegex} ls s :
  exec_all initServer ls = Some s -> m_pc s = Loop -> m_shuttingDown s = false ->
  (forall p pd, p ∈ m_mailbox (m_intercept s) -> m_heap (m_intercept s) !! p = Some pd -> m_forceHold pd = false) ->
  exists ls' s', exec_all s (repeat MShutdown 7 ++ ls') = Some s' /\
    m_pc s' = Loop /\ m_shuttingDown s' = true /\ m_workers s' = ∅ /\ m_listening s' = false.
Proof.
  intros Hr Hpc Hd Hf. pose proof (srv_inv_exec_all _ _ _ srv_inv_init Hr) as Hi.
  pose proof (shutdown_prefix s Hpc Hd) as Hp. cbn zeta in Hp.
  match type of Hp with _ = Some ?x => set (s1 := x) in Hp end.
  pose proof (srv_inv_exec_all _ _ _ Hi Hp) as Hi1.
  destruct (drained (m_intercept s)) as [Hw Hs].
  assert (Hn : no_force (m_intercept s1)).
  { intros p pd. change (m_intercept s1) with (forwardAll (setResponsesEnabled (setEnabled (m_intercept s) false) false)).
    rewrite Hw. intros Hin Hg. specialize (Hs p). rewrite Hg in Hs. cbn in Hs.
    destruct (m_heap (m_intercept s) !! p) as [pd'|] eqn:E; [|done]. injection Hs as ->. by eapply Hf. }
  assert (Hdone : exists ls' s', exec_all s1 ls' = Some s' /\ m_pc s' = Loop /\ m_shuttingDown s' = true).
  { destruct (m_threads s) as [|t ts] eqn:Et.
    - exists [MShutdown], (with_pc s1 Loop). split; [|done]. cbn [exec_all exec]. unfold shutdownStep.
      replace (m_pc s1) with (Joining []); [done|]. unfold s1. cbn [m_pc with_pc]. by rewrite ?Et.
    - assert (Hp1 : m_pc s1 = Joining (t :: ts)) by (unfold s1; cbn [m_pc with_pc]; by rewrite ?Et).
      destruct (join_delivers _ s1 t ts Hi1 Hp1 eq_refl Hn) as (l1 & s2 & E2 & Hp2 & Hw2).
      destruct (join_workers (t :: ts) s2) as (l2 & s3 & E3 & Hr3); try done.
      + by eapply srv_inv_exec_all.
      + exists (l1 ++ l2), s3. split; [|done]. by rewrite exec_all_app, E2. }
  destruct Hdone as (ls' & s' & E & Hp' & Hd'). pose proof (srv_inv_exec_all _ _ _ Hi1 E) as Hi'.
  exists ls', s'. rewrite exec_all_app, Hp. split; [done|]. split; [done|]. split; [done|].
  split; [by apply Hi'|]. apply Hi'; [by rewrite Hp'|done].
Qed.

(** A worker whose message is parked while the main thread joins is never
    released: no step of either side can end the join.  The message is then one
    the operator asked for (force-held), the only kind that is still parked after
    the toggles are off. *)
Theorem force_hold_hangs_shutdown `{QtText, QtRegex} ls s t p :
  exec_all initServer ls = Some s -> hung t p s ->
  (exists pd, m_heap (m_intercept s) !! p = Some pd /\ m_forceHold pd = true) /\
  forall ls' s', exec_all s ls' = Some s' -> m_pc s' <> Loop /\ hung t p s'.
Proof.
  intros Hr Hh. pose proof (srv_inv_exec_all _ _ _ srv_inv_init Hr) as Hi. split.
  - destruct Hh as (Ht & Hw & Hp). assert (Hne : m_workers s <> ∅) by (intros E; by rewrite E, lookup_empty in Hw).
    assert (Hj : swapped (m_pc s) = true) by (destruct (m_pc s); try done; by apply not_elem_of_nil in Ht).
    apply parked_forced; [apply Hi| | |done].
    + destruct (si_requests _ Hi); [by destruct (m_pc s)|done..].
    + destruct (si_responses _ Hi); [by destruct (m_pc s)|done..].
  - intros ls' s' E. pose proof (hung_exec_all _ _ _ _ _ Hi Hh E) as Hh'. split; [|done].
    destruct Hh' as (Ht & _). intros E'. rewrite E' in Ht. by apply not_elem_of_nil in Ht.
Qed.

(** start() refuses after shutdown, does nothing while listening, and
    otherwise binds the first of the six ports that can be bound, in order.  After
    65535 the second attempt is port 0, any free port, since quint16(port + 1)
    wraps. *)
Theorem start_binds_first `{QtText, QtRegex} listen address port s :
  0 <= port < 2 ^ 16 ->
  start listen address port s =
  if m_shuttingDown s then (s, false)
  else if m_listening s then (s, true)
  else match omap listen [port; if port =? 65535 then 0 else port + 1; 8888; 8081; 8090; 9090] with
       | [] => (s, false)
       | b :: _ => (with_listener s true address b b, true)
       end.
Proof.
  intros Hp. unfold start. rewrite start_loop_bound. unfold tries.
  replace ((port + 1) mod 2 ^ 16) with (if port =? 65535 then 0 else port + 1); [done|].
  destruct (port =? 65535) eqn:E; to_prop; [subst; done|]. symmetry. apply Z.mod_small. lia.
Qed.

(** stop() and then restart() listens again on the address and the port that
    start() had actually bound, fallback included, and gives back the same state. *)
Theorem stop_restart_same_port `{QtText, QtRegex} ls s listen listen' address port s1 :
  exec_all initServer ls = Some s -> m_listening s = false ->
  start listen address port s = (s1, true) -> listen' (m_serverPort s1) = Some (m_serverPort s1) ->
  restart listen' (stop s1) = (s1, true) /\ m_listening s1 = true /\ m_bindAddress s1 = address.
Proof.
  intros Hr Hl. pose proof (srv_inv_exec_all _ _ _ srv_inv_init Hr) as Hi. unfold start. rewrite Hl.
  destruct (m_shuttingDown s) eqn:Hd; [done|]. rewrite start_loop_bound. destruct (omap listen (tries port)) as [|b bs]; [done|].
  intros [= <-] Hb. cbn [m_serverPort with_listener] in Hb. split; [|done].
  unfold restart, stop, start, tries. cbn [m_listening with_listener m_shuttingDown m_bindPort m_bindAddress start_loop]. rewrite Hd, Hb. done.
Qed.

(** ** Concrete executions *)

#[local] Existing Instances asciiText literalRegex.

Definition ex_request : bytes := lit "GET / HTTP/1.1".
Definition ex_response : bytes := lit "HTTP/1.1 200 OK".

(** The operator holds a request, forwards it asking for its response, and the
    program is closed while that response is on its way to the main thread. *)
Definition ex_before : list Label :=
  [MStart (fun p => Some p) (lit "127.0.0.1") 8080; MOperate (ASetEnabled true); MAccept true;
   WPost 0 ex_request (lit "h") 80 false KRequest false; MDispatch; MOperate (AForwardHold ex_request); WResume 0;
   WPost 0 ex_response (lit "h") 80 false KResponse true].
Definition ex_hang : list Label := ex_before ++ repeat MShutdown 7 ++ [MDispatch].

(** The same, with the response dispatched before the program is closed. *)
Definition ex_clean : list Label := ex_before ++ [MDispatch].

Definition ex_after (ls : list Label) : ProxyServer := default initServer (exec_all initServer ls).

Lemma ex_after_reached ls : bool_decide (is_Some (exec_all initServer ls)) = true -> exec_all initServer ls = Some (ex_after ls).
Proof. intros [s E]%bool_decide_eq_true. unfold ex_after. by rewrite E. Qed.

Lemma ex_is_some {A} (o : option A) : match o with Some _ => true | None => false end = true -> bool_decide (is_Some o) = true.
Proof. destruct o; [|done]. intros _. apply bool_decide_eq_true. by eexists. Qed.

Definition ex_closed : list Label := [MStart (fun p => Some p) (lit "127.0.0.1") 8080] ++ repeat MShutdown 8.

Lemma worker_tracking_witness : m_threads (ex_after ex_clean) = [0%nat] /\ NoDup (tracked (ex_after ex_clean)).
Proof.
  split; [vm_compute; reflexivity|].
  apply (worker_tracking ex_clean (ex_after ex_clean)), ex_after_reached, ex_is_some. vm_compute. reflexivity.
Defined.

Lemma shutdown_is_final_witness :
  forall listen address port, start listen address port (ex_after ex_closed) = (ex_after ex_closed, false).
Proof.
  apply (shutdown_is_final ex_closed (ex_after ex_closed) [] (ex_after ex_closed)).
  - apply ex_after_reached, ex_is_some. vm_compute. reflexivity.
  - vm_compute. reflexivity.
  - vm_compute. reflexivity.
  - reflexivity.
Defined.

Lemma shutdown_completes_witness :
  exists ls' s', exec_all (ex_after ex_clean) (repeat MShutdown 7 ++ ls') = Some s' /\
    m_pc s' = Loop /\ m_shuttingDown s' = true /\ m_workers s' = ∅ /\ m_listening s' = false.
Proof.
  apply (shutdown_completes ex_clean (ex_after ex_clean)).
  - apply ex_after_reached, ex_is_some. vm_compute. reflexivity.
  - vm_compute. reflexivity.
  - vm_compute. reflexivity.
  - intros p pd Hp. exfalso. revert Hp. change (m_mailbox (m_intercept (ex_after ex_clean))) with (@nil Z).
    apply not_elem_of_nil.
Defined.

Lemma force_hold_hangs_shutdown_witness :
  exec_all initServer ex_hang = Some (ex_after ex_hang) /\
  forall ls' s', exec_all (ex_after ex_hang) ls' = Some s' -> m_pc s' <> Loop /\ hung 0 2 s'.
Proof.
  assert (E : exec_all initServer ex_hang = Some (ex_after ex_hang)).
  { apply ex_after_reached, ex_is_some. vm_compute. reflexivity. }
  split; [exact E|]. apply (force_hold_hangs_shutdown ex_hang (ex_after ex_hang) 0 2 E).
  split; [|split; [vm_compute; reflexivity|]].
  - change (joining (m_pc (ex_after ex_hang))) with [0%nat]. left.
  - change (parked (m_intercept (ex_after ex_hang))) with [2]. left.
Defined.

Lemma start_binds_first_witness :
  start (fun p => if p =? 0 then Some 49152 else None) (lit "127.0.0.1") 65535 initServer
  = (with_listener initServer true (lit "127.0.0.1") 49152 49152, true).
Proof. rewrite (start_binds_first _ _ 65535); [vm_compute; reflexivity|lia]. Defined.

Lemma stop_restart_same_port_witness :
  let s1 := fst (start (fun p => Some p) (lit "127.0.0.1") 8080 initServer) in
  restart (fun p => Some p) (stop s1) = (s1, true).
Proof.
  apply (stop_restart_same_port [] initServer (fun p => Some p) (fun p => Some p) (lit "127.0.0.1") 8080); reflexivity.
Defined.
