(* ===== verification/ScopeLogic.v ===== *)
(** * Advanced scope control: Src/BackEnd/Proxy/scope_logic.{hpp,cpp}

    Raw rules, their validation, compilation to a policy, the four decisions
    ([urlInScope], [hostInScope], [mayTargetHost], [transportInScope]) and the
    JSON form.  Regular expressions are a parameter ([QtRegex]): a compiled
    expression is its anchored pattern text. *)

From S2P Require Import Prelude Qt QtSample QMap Json.

Local Open Scope Z_scope.

Section ScopeLogic.
Context `{QtRegex}.

Definition ProtoAny : Z := 0.
Definition ProtoHttp : Z := 1.
Definition ProtoHttps : Z := 2.

Record AdvancedScopeRule := mkScopeRule {
  sr_enabled : bool; sr_include : bool; sr_protocol : Z; sr_hostRegex : qstr;
  sr_portFrom : Z; sr_portTo : Z; sr_fileRegex : qstr
}.

Record CompiledRule := mkCompiled {
  cr_enabled : bool; cr_include : bool; cr_protocol : Z;
  cr_hostAny : bool; cr_hostRx : qstr; cr_portFrom : Z; cr_portTo : Z;
  cr_fileAny : bool; cr_fileRx : qstr; cr_constrainsBeyondHost : bool
}.

Definition defaultRule : AdvancedScopeRule := mkScopeRule true true ProtoAny [] 0 0 [].
Definition defaultCompiled : CompiledRule := mkCompiled false true ProtoAny true [] 0 0 true [] false.

Definition kMaxPatternBytes : Z := 4096.
Definition kMaxRules : Z := 256.

(** Anchored and case-insensitive. *)
Definition anchored (pat : qstr) : qstr := lit "\A(?:" ++ pat ++ lit ")\z".
Definition isValid (rx : qstr) : bool := rx_valid true rx.
Definition hasMatch (rx s : qstr) : bool := rx_match true rx s.

(** The reason a rule is refused, empty when it is fine. *)
Definition rule_reason (r : AdvancedScopeRule) : qstr :=
  if (kMaxPatternBytes <? zlen (sr_hostRegex r)) || (kMaxPatternBytes <? zlen (sr_fileRegex r))
  then lit "pattern exceeds the 4096-character limit"
  else if (negb (is_nil (sr_hostRegex r)) && negb (isValid (anchored (sr_hostRegex r))))
          || (negb (is_nil (sr_fileRegex r)) && negb (isValid (anchored (sr_fileRegex r))))
  then lit "invalid regular expression"
  else if (sr_protocol r <? ProtoAny) || (ProtoHttps <? sr_protocol r)
  then lit "invalid protocol"
  else if (sr_portFrom r <? 0) || (65535 <? sr_portFrom r) || (sr_portTo r <? 0)
          || (65535 <? sr_portTo r)
          || ((0 <? sr_portTo r) && ((sr_portFrom r =? 0) || (sr_portTo r <? sr_portFrom r)))
  then lit "invalid port range"
  else if negb (sr_include r) && is_nil (sr_hostRegex r) && is_nil (sr_fileRegex r)
          && (sr_portFrom r =? 0) && (sr_protocol r =? ProtoAny)
  then lit "empty exclusion; use an explicit host pattern to exclude all targets"
  else [].

Fixpoint validation_loop (i : Z) (rules : list AdvancedScopeRule) : qstr :=
  match rules with
  | [] => []
  | r :: rs =>
      if negb (sr_enabled r) then validation_loop (i + 1) rs
      else
        let reason := rule_reason r in
        if is_nil reason then validation_loop (i + 1) rs
        else lit "Advanced scope rule " ++ number 10 (i + 1) ++ lit ": " ++ reason
  end.

Definition validationError (rules : list AdvancedScopeRule) : qstr :=
  if kMaxRules <? zlen rules then lit "Advanced scope exceeds the 256-rule limit"
  else validation_loop 0 rules.

(** One round of the compile loop: [None] is [continue]. *)
Definition compile_rule (r : AdvancedScopeRule) : option CompiledRule :=
  if kMaxPatternBytes <? zlen (sr_hostRegex r) then None
  else if kMaxPatternBytes <? zlen (sr_fileRegex r) then None
  else
    let protocol := if (sr_protocol r =? ProtoHttp) || (sr_protocol r =? ProtoHttps)
                    then sr_protocol r else ProtoAny in
    let hostAny := is_nil (sr_hostRegex r) in
    let fileAny := is_nil (sr_fileRegex r) in
    let portFrom := if 0 <? sr_portFrom r then sr_portFrom r else 0 in
    let portTo := if 0 <? sr_portTo r then sr_portTo r else 0 in
    let hostRx := if hostAny then [] else anchored (sr_hostRegex r) in
    let fileRx := if fileAny then [] else anchored (sr_fileRegex r) in
    if negb hostAny && negb (isValid hostRx) then None
    else if negb fileAny && negb (isValid fileRx) then None
    else
      let constrains := negb (protocol =? ProtoAny) || (0 <? portFrom) || negb fileAny in
      if negb (sr_include r) && hostAny && fileAny && (portFrom =? 0) && (protocol =? ProtoAny)
      then None
      else Some (mkCompiled (sr_enabled r) (sr_include r) protocol hostAny hostRx portFrom portTo
                   fileAny fileRx constrains).

Fixpoint compile_loop (rules : list AdvancedScopeRule) (out : list CompiledRule) : list CompiledRule :=
  match rules with
  | [] => out
  | r :: rs =>
      if kMaxRules <=? zlen out then out
      else compile_loop rs (match compile_rule r with Some c => out ++ [c] | None => out end)
  end.

Definition deny : CompiledRule := mkCompiled true false ProtoAny true [] 0 0 true [] false.

Definition compile (rules : list AdvancedScopeRule) : list CompiledRule :=
  if negb (is_nil (validationError rules)) then [deny] else compile_loop rules [].

Definition hasEnabledInclude (rules : list CompiledRule) : bool :=
  existsb (fun r => cr_enabled r && cr_include r) rules.
Definition hasEnabledExclude (rules : list CompiledRule) : bool :=
  existsb (fun r => cr_enabled r && negb (cr_include r)) rules.
Definition configured (rules : list CompiledRule) : bool :=
  hasEnabledInclude rules || hasEnabledExclude rules.

Definition portInRange (portFrom portTo port : Z) : bool :=
  if portFrom <=? 0 then true
  else if portTo <=? 0 then port =? portFrom
  else (portFrom <=? port) && (port <=? portTo).

Definition host_matches (r : CompiledRule) (host : qstr) : bool :=
  cr_hostAny r || hasMatch (cr_hostRx r) host.

Definition ruleMatchesUrl (r : CompiledRule) (tls : bool) (host : qstr) (port : Z) (path : qstr) : bool :=
  if negb (cr_enabled r) then false
  else if negb (cr_protocol r =? ProtoAny)
          && negb (cr_protocol r =? (if tls then ProtoHttps else ProtoHttp)) then false
  else if negb (host_matches r host) then false
  else if negb (portInRange (cr_portFrom r) (cr_portTo r) port) then false
  else if negb (cr_fileAny r) && negb (hasMatch (cr_fileRx r) path) then false
  else true.

Definition urlInScope (rules : list CompiledRule) (globOut globIn tls : bool)
    (host : qstr) (port : Z) (path : qstr) : bool :=
  if globOut then false
  else if existsb (fun r => cr_enabled r && negb (cr_include r)
                            && ruleMatchesUrl r tls host port path) rules then false
  else if hasEnabledInclude rules then
    existsb (fun r => cr_enabled r && cr_include r && ruleMatchesUrl r tls host port path) rules
  else globIn.

Definition hostInScope (rules : list CompiledRule) (globOut globIn : bool) (host : qstr) : bool :=
  if globOut then false
  else if existsb (fun r => cr_enabled r && negb (cr_include r) && host_matches r host) rules then false
  else if hasEnabledInclude rules then
    existsb (fun r => cr_enabled r && cr_include r && host_matches r host) rules
  else globIn.

Definition mayTargetHost (rules : list CompiledRule) (globOut globIn : bool) (host : qstr) : bool :=
  if globOut then false
  else if existsb (fun r => cr_enabled r && negb (cr_include r) && negb (cr_constrainsBeyondHost r)
                            && host_matches r host) rules then false
  else if negb (hasEnabledInclude rules) then globIn
  else existsb (fun r => cr_enabled r && cr_include r && host_matches r host) rules.

(** The loop over the rules: [None] is [return false], the value is [included]. *)
Fixpoint transport_loop (rules : list CompiledRule) (host : qstr) (port protocol : Z)
    (included : bool) : option bool :=
  match rules with
  | [] => Some included
  | r :: rs =>
      if negb (cr_enabled r) || negb (host_matches r host)
         || negb (portInRange (cr_portFrom r) (cr_portTo r) port)
      then transport_loop rs host port protocol included
      else if negb (cr_include r) then
        if (protocol =? ProtoAny) || (cr_protocol r =? ProtoAny) || (protocol =? cr_protocol r)
        then None
        else transport_loop rs host port protocol included
      else if cr_fileAny r && ((cr_protocol r =? ProtoAny) || (protocol =? cr_protocol r))
      then transport_loop rs host port protocol true
      else transport_loop rs host port protocol included
  end.

Definition transportInScope (rules : list CompiledRule) (globOut globIn : bool)
    (host : qstr) (port protocol : Z) : bool :=
  if globOut then false
  else match transport_loop rules host port protocol false with
       | None => false
       | Some included => if hasEnabledInclude rules then included else globIn
       end.

(** ** JSON *)

Definition isBool (v : json) : bool := match v with JBool _ => true | _ => false end.
Definition isString (v : json) : bool := match v with JString _ => true | _ => false end.
Definition isObject (v : json) : bool := match v with JObject _ => true | _ => false end.
Definition isDouble (v : json) : bool := match v with JInt _ | JDouble _ => true | _ => false end.

(** [isDouble() && toDouble() == toInt(-1)]: integers that fit an [int]; a value
    stored as [JDouble] is no integer. *)
Definition exact_int (v : json) : bool :=
  match v with JInt n => (INT_MIN <=? n) && (n <=? INT_MAX) | _ => false end.

Definition bad_field (o : list (qstr * json)) (key : qstr) (ok : json -> bool) : bool :=
  contains o key && negb (ok (value o key)).

Definition rule_from_json (v : json) : AdvancedScopeRule :=
  let o := toObject v in
  if negb (isObject v)
     || bad_field o (lit "enabled") isBool || bad_field o (lit "include") isBool
     || bad_field o (lit "host") isString || bad_field o (lit "file") isString
     || bad_field o (lit "protocol") exact_int || bad_field o (lit "portFrom") exact_int
     || bad_field o (lit "portTo") exact_int
  then mkScopeRule true true (-1) [] 0 0 []
  else
    mkScopeRule (toBool true (value o (lit "enabled"))) (toBool true (value o (lit "include")))
      (toInt ProtoAny (value o (lit "protocol"))) (toString (value o (lit "host")))
      (toInt 0 (value o (lit "portFrom"))) (toInt 0 (value o (lit "portTo")))
      (toString (value o (lit "file"))).

Definition rulesFromJson (arr : list json) : list AdvancedScopeRule := map rule_from_json arr.

Definition rulesToJson (rules : list AdvancedScopeRule) : list json :=
  map (fun r => JObject (object [
    (lit "enabled", JBool (sr_enabled r)); (lit "include", JBool (sr_include r));
    (lit "protocol", JInt (sr_protocol r)); (lit "host", JString (sr_hostRegex r));
    (lit "portFrom", JInt (sr_portFrom r)); (lit "portTo", JInt (sr_portTo r));
    (lit "file", JString (sr_fileRegex r))])) rules.
End ScopeLogic.

(** ** The decision on the raw rules *)

Section ScopeSpec.
Context `{QtRegex}.

Definition pattern_matches (pat s : qstr) : bool := is_nil pat || hasMatch (anchored pat) s.

Definition raw_matches (r : AdvancedScopeRule) (tls : bool) (host : qstr) (port : Z) (path : qstr) : bool :=
  ((sr_protocol r =? ProtoAny) || (sr_protocol r =? (if tls then ProtoHttps else ProtoHttp)))
  && pattern_matches (sr_hostRegex r) host
  && portInRange (sr_portFrom r) (sr_portTo r) port
  && pattern_matches (sr_fileRegex r) path.

Definition spec_in_scope (rules : list AdvancedScopeRule) (globOut globIn tls : bool)
    (host : qstr) (port : Z) (path : qstr) : bool :=
  negb globOut
  && negb (existsb (fun r => sr_enabled r && negb (sr_include r) && raw_matches r tls host port path) rules)
  && (if existsb (fun r => sr_enabled r && sr_include r) rules
      then existsb (fun r => sr_enabled r && sr_include r && raw_matches r tls host port path) rules
      else globIn).

Lemma validation_loop_ok rules : forall i,
  validation_loop i rules = [] -> Forall (fun r => sr_enabled r = true -> rule_reason r = []) rules.
Proof.
  induction rules as [|r rs IH]; intros i; cbn [validation_loop]; [by constructor|].
  destruct (sr_enabled r) eqn:E; cbn [negb].
  - destruct (is_nil (rule_reason r)) eqn:En; [|by destruct (number 10 (i + 1))].
    intros Hv. constructor; [|by eapply IH]. intros _. by apply is_nil_true.
  - intros Hv. constructor; [by rewrite E|by eapply IH].
Qed.

Lemma compile_loop_omap rules : forall out,
  zlen out + zlen rules <= kMaxRules -> compile_loop rules out = out ++ omap compile_rule rules.
Proof.
  induction rules as [|r rs IH]; intros out Hz; cbn [compile_loop omap list_omap].
  - by rewrite app_nil_r.
  - rewrite zlen_cons in Hz. pose proof (zlen_nonneg rs). zdecide.
    destruct (compile_rule r) as [c|]; rewrite IH; rewrite ?zlen_app, ?zlen_cons, ?zlen_nil; try lia; [|done].
    by rewrite <- app_assoc.
Qed.

(** What a rule without a reason satisfies. *)
Lemma rule_reason_ok r :
  rule_reason r = [] ->
  (kMaxPatternBytes <? zlen (sr_hostRegex r)) = false /\ (kMaxPatternBytes <? zlen (sr_fileRegex r)) = false /\
  (is_nil (sr_hostRegex r) = false -> isValid (anchored (sr_hostRegex r)) = true) /\
  (is_nil (sr_fileRegex r) = false -> isValid (anchored (sr_fileRegex r)) = true) /\
  (sr_protocol r = 0 \/ sr_protocol r = 1 \/ sr_protocol r = 2) /\
  0 <= sr_portFrom r /\ 0 <= sr_portTo r /\
  (is_nil (sr_hostRegex r) = true -> is_nil (sr_fileRegex r) = true ->
   negb (sr_include r) && (sr_portFrom r =? 0) && (sr_protocol r =? ProtoAny) = false).
Proof.
  unfold rule_reason, ProtoAny, ProtoHttps. intros Hr.
  case_if_in Hr E1; [done|]. case_if_in Hr E2; [done|]. case_if_in Hr E3; [done|].
  case_if_in Hr E4; [done|]. case_if_in Hr E5; [done|]. clear Hr. split_bools; to_prop.
  repeat (split; [try done; try lia|]); try done.
  - intros Hn. rewrite Hn in *. by destruct (isValid _).
  - intros Hn. rewrite Hn in *. by destruct (isValid (anchored (sr_fileRegex r))).
  - intros Hh Hf. rewrite Hh, Hf, !andb_true_r in E5. done.
Qed.

(** An enabled rule that passed validation is compiled, and faithfully. *)
Lemma compile_rule_valid r :
  rule_reason r = [] ->
  exists c, compile_rule r = Some c /\ cr_enabled c = sr_enabled r /\ cr_include c = sr_include r /\
    forall tls host port path, sr_enabled r = true ->
      ruleMatchesUrl c tls host port path = raw_matches r tls host port path.
Proof.
  intros Hr. destruct (rule_reason_ok r Hr) as (Eh & Ef & Vh & Vf & Hp & Hpf & Hpt & Hx).
  unfold compile_rule. rewrite Eh, Ef.
  assert ((if (sr_protocol r =? ProtoHttp) || (sr_protocol r =? ProtoHttps)
    then sr_protocol r else ProtoAny) = sr_protocol r) as -> by (by destruct Hp as [->|[->| ->]]).
  assert ((if 0 <? sr_portFrom r then sr_portFrom r else 0) = sr_portFrom r) as -> by (case_match; to_prop; lia).
  assert ((if 0 <? sr_portTo r then sr_portTo r else 0) = sr_portTo r) as -> by (case_match; to_prop; lia).
  cbv zeta. destruct (is_nil (sr_hostRegex r)) eqn:Nh, (is_nil (sr_fileRegex r)) eqn:Nf; cbn [negb andb] in *;
    rewrite ?Vh, ?Vf by done; cbn [negb andb];
    rewrite ?andb_true_r, ?andb_false_r; rewrite ?Hx by done;
    (eexists; split; [reflexivity|]; split; [done|]; split; [done|]);
    intros tls host port path He; unfold ruleMatchesUrl, raw_matches, host_matches, pattern_matches;
    cbn [cr_enabled cr_protocol cr_hostAny cr_hostRx cr_portFrom cr_portTo cr_fileAny cr_fileRx];
    rewrite He, Nh, Nf; cbn [negb orb andb];
    destruct (sr_protocol r =? ProtoAny), (sr_protocol r =? _), (portInRange _ _ _); cbn [negb orb andb];
    rewrite ?andb_false_r, ?andb_true_r; try done;
    repeat match goal with |- context [hasMatch ?a ?b] => destruct (hasMatch a b) end; done.
Qed.

Lemma compile_rule_enabled r c : compile_rule r = Some c -> cr_enabled c = sr_enabled r.
Proof. unfold compile_rule. cbv zeta. intros Hc. repeat case_match; by simplify_eq. Qed.

(** A test on enabled rules gives the same before and after compilation. *)
Lemma existsb_compiled rules p q :
  Forall (fun r => sr_enabled r = true -> rule_reason r = []) rules ->
  (forall r, sr_enabled r = false -> p r = false) ->
  (forall c, cr_enabled c = false -> q c = false) ->
  (forall r c, sr_enabled r = true -> rule_reason r = [] -> compile_rule r = Some c -> q c = p r) ->
  existsb p rules = existsb q (omap compile_rule rules).
Proof.
  intros Hv Hp Hq Hpq. induction Hv as [|r rs Hr _ IH]; [done|]. cbn [existsb omap list_omap]. rewrite IH.
  destruct (sr_enabled r) eqn:E.
  - destruct (compile_rule_valid r (Hr eq_refl)) as (c & Hc & _). rewrite Hc. cbn [existsb].
    by rewrite (Hpq r c E (Hr eq_refl) Hc).
  - rewrite (Hp r E). destruct (compile_rule r) as [c|] eqn:Ec; [|done]. cbn [existsb].
    by rewrite (Hq c) by (by rewrite (compile_rule_enabled r c Ec)).
Qed.

(** C8. The policy is what the rules say: when the rules validate, the compiled
    decision on a URL is the documented composition over the raw rules: denied
    by the out-of-scope globs or by any enabled exclusion that matches, else
    allowed by a matching enabled inclusion when there are inclusions, else by
    the in-scope globs. No enabled rule is lost or widened by compilation. *)
Theorem scope_decision rules globOut globIn tls host port path :
  validationError rules = [] ->
  urlInScope (compile rules) globOut globIn tls host port path
  = spec_in_scope rules globOut globIn tls host port path.
Proof.
  intros Hv. unfold compile. rewrite Hv. cbn [is_nil negb]. unfold validationError in Hv.
  destruct (_ <? _) eqn:En; [done|]. to_prop. apply validation_loop_ok in Hv.
  rewrite compile_loop_omap by (rewrite zlen_nil; lia). cbn [app].
  unfold urlInScope, spec_in_scope, hasEnabledInclude. destruct globOut; [done|]. cbn [negb andb].
  assert (Hc : forall r c, sr_enabled r = true -> rule_reason r = [] -> compile_rule r = Some c ->
    cr_enabled c = true /\ cr_include c = sr_include r /\
    ruleMatchesUrl c tls host port path = raw_matches r tls host port path).
  { intros r c He Hr Hc. destruct (compile_rule_valid r Hr) as (c' & Hc' & E1 & E2 & E3).
    rewrite Hc in Hc'. injection Hc' as <-. rewrite E1, E3 by done. done. }
  rewrite <- (existsb_compiled rules (fun r => sr_enabled r && negb (sr_include r) && raw_matches r tls host port path)
      (fun c => cr_enabled c && negb (cr_include c) && ruleMatchesUrl c tls host port path) Hv),
    <- (existsb_compiled rules (fun r => sr_enabled r && sr_include r) (fun c => cr_enabled c && cr_include c) Hv),
    <- (existsb_compiled rules (fun r => sr_enabled r && sr_include r && raw_matches r tls host port path)
      (fun c => cr_enabled c && cr_include c && ruleMatchesUrl c tls host port path) Hv);
    try (intros r Hd; by rewrite Hd);
    try (intros r c He Hr Hcr; destruct (Hc r c He Hr Hcr) as (-> & -> & Hm); by rewrite ?Hm, He).
  by destruct (existsb _ _).
Qed.

(** Broken settings fail closed: when any enabled rule is invalid (or there are
    too many), no gate admits anything, whatever the glob layers say. *)
Theorem scope_fails_closed rules globOut globIn tls host port path protocol :
  validationError rules <> [] ->
  let c := compile rules in
  urlInScope c globOut globIn tls host port path = false /\
  hostInScope c globOut globIn host = false /\
  mayTargetHost c globOut globIn host = false /\
  transportInScope c globOut globIn host port protocol = false.
Proof.
  intros Hv c. assert (c = [deny]) as ->.
  { unfold c, compile. by destruct (validationError rules). }
  destruct globOut; [done|]. split; [by destruct tls|]. split; [done|]. split; [done|].
  unfold transportInScope. 
  change (transport_loop [deny] host port protocol false)
    with (if (protocol =? ProtoAny) || true || (protocol =? ProtoAny) then @None bool else Some false).
  by destruct (protocol =? ProtoAny).
Qed.

(** The flag a compiled rule carries for the host-only gates. *)
Definition compiled_ok (c : CompiledRule) : Prop :=
  cr_constrainsBeyondHost c
  = negb (cr_protocol c =? ProtoAny) || (0 <? cr_portFrom c) || negb (cr_fileAny c).

Lemma compile_rule_ok r c : compile_rule r = Some c -> compiled_ok c.
Proof. unfold compile_rule, compiled_ok. cbv zeta. intros Hc. repeat case_match; by simplify_eq. Qed.

Lemma compile_loop_ok rules : forall out, Forall compiled_ok out -> Forall compiled_ok (compile_loop rules out).
Proof.
  induction rules as [|r rs IH]; intros out Ho; cbn [compile_loop]; [done|].
  destruct (_ <=? _); [done|]. apply IH. destruct (compile_rule r) as [c|] eqn:E; [|done].
  apply Forall_app. split; [done|]. constructor; [by eapply compile_rule_ok|done].
Qed.

Lemma compile_ok rules : Forall compiled_ok (compile rules).
Proof.
  unfold compile. case_match; [by repeat constructor|]. apply compile_loop_ok. constructor.
Qed.

Lemma existsb_mono (p q : CompiledRule -> bool) rules :
  (forall c, In c rules -> p c = true -> q c = true) -> existsb p rules = true -> existsb q rules = true.
Proof. intros Hpq. rewrite !existsb_exists. intros (c & Hin & Hp). exists c. auto. Qed.

Lemma existsb_mono_false (p q : CompiledRule -> bool) rules :
  (forall c, In c rules -> p c = true -> q c = true) -> existsb q rules = false -> existsb p rules = false.
Proof.
  intros Hpq Hq. apply not_true_iff_false. intros Hp. apply (existsb_mono p q) in Hp; [congruence|done].
Qed.

Lemma ruleMatchesUrl_host c tls host port path :
  ruleMatchesUrl c tls host port path = true -> cr_enabled c = true /\ host_matches c host = true.
Proof.
  unfold ruleMatchesUrl. destruct (cr_enabled c); cbn [negb]; [|done].
  case_match; [done|]. by destruct (host_matches c host).
Qed.

(** A rule that constrains nothing beyond the host matches every URL on it. *)
Lemma host_rule_matches c tls host port path :
  compiled_ok c -> cr_enabled c = true -> cr_constrainsBeyondHost c = false ->
  host_matches c host = true -> ruleMatchesUrl c tls host port path = true.
Proof.
  unfold compiled_ok. intros Hok He Hc Hh. rewrite Hc in Hok. symmetry in Hok.
  unfold ruleMatchesUrl. rewrite He, Hh. cbn [negb].
  destruct (cr_protocol c =? ProtoAny); [|done]. destruct (cr_fileAny c); [|by rewrite orb_true_r in Hok].
  cbn [negb andb orb] in *. rewrite orb_false_r in Hok. to_prop. unfold portInRange. by zdecide.
Qed.

Lemma transport_loop_spec (host : qstr) (port protocol : Z) (path : qstr) (tls : bool) rules : forall included inc,
  protocol = (if tls then ProtoHttps else ProtoHttp) ->
  transport_loop rules host port protocol included = Some inc ->
  existsb (fun r => cr_enabled r && negb (cr_include r) && ruleMatchesUrl r tls host port path) rules = false /\
  (inc = true -> included = true \/
     existsb (fun r => cr_enabled r && cr_include r && ruleMatchesUrl r tls host port path) rules = true).
Proof.
  intros included inc Hproto. revert included. induction rules as [|r rs IH]; intros included; cbn [transport_loop existsb].
  - intros [= ->]. auto.
  - set (m := ruleMatchesUrl r tls host port path).
    assert (Hm : m = true -> cr_enabled r = true /\ host_matches r host = true /\
      portInRange (cr_portFrom r) (cr_portTo r) port = true /\
      ((cr_protocol r =? ProtoAny) || (protocol =? cr_protocol r)) = true).
    { unfold m, ruleMatchesUrl. rewrite Hproto, (Z.eqb_sym _ (cr_protocol r)).
      destruct (cr_enabled r), (cr_protocol r =? ProtoAny), (cr_protocol r =? _), (host_matches r host),
        (portInRange _ _ _); cbn [negb andb orb]; done. }
    assert (Hm' : cr_enabled r = true -> host_matches r host = true ->
      portInRange (cr_portFrom r) (cr_portTo r) port = true -> cr_fileAny r = true ->
      (cr_protocol r =? ProtoAny) || (protocol =? cr_protocol r) = true -> m = true).
    { intros E1 E2 E3 E4 E5. unfold m, ruleMatchesUrl. rewrite E1, E2, E3, E4.
      rewrite Hproto, (Z.eqb_sym _ (cr_protocol r)) in E5. cbn [negb andb].
      destruct (cr_protocol r =? ProtoAny); [done|]. cbn [orb] in E5. by rewrite E5. }
    destruct (negb (cr_enabled r) || negb (host_matches r host) || negb (portInRange _ _ _)) eqn:Es.
    { intros Ht. destruct (IH _ Ht) as [H1 H2]. assert (m = false) as ->.
      { apply not_true_iff_false. intros Hc. destruct (Hm Hc) as (E1 & E2 & E3 & _).
        by rewrite E1, E2, E3 in Es. }
      rewrite !andb_false_r. cbn [orb]. done. }
    split_bools. destruct (cr_include r) eqn:Ei; cbn [negb].
    + assert (He : existsb (fun r => cr_enabled r && negb (cr_include r) && ruleMatchesUrl r tls host port path) rs = false /\
        (inc = true -> (included || (cr_fileAny r && ((cr_protocol r =? ProtoAny) || (protocol =? cr_protocol r)))) = true \/
           existsb (fun r => cr_enabled r && cr_include r && ruleMatchesUrl r tls host port path) rs = true) ->
        cr_enabled r && false && m || existsb (fun r => cr_enabled r && negb (cr_include r) && ruleMatchesUrl r tls host port path) rs = false /\
        (inc = true -> included = true \/ cr_enabled r && true && m
           || existsb (fun r => cr_enabled r && cr_include r && ruleMatchesUrl r tls host port path) rs = true)).
      { intros [-> Hinc]. rewrite andb_false_r. cbn [andb orb]. split; [done|]. intros Hi.
        destruct (Hinc Hi) as [Ht| ->]; [|right; by rewrite orb_true_r].
        destruct included; [by left|right]. cbn [orb] in Ht. split_bools. rewrite Hm' by done.
        by rewrite H0. }
      destruct (cr_fileAny r && _) eqn:Ef; intros Ht; apply He; destruct (IH _ Ht) as [H1' H2']; split; try done;
        rewrite ?orb_true_r, ?orb_false_r; auto.
    + destruct (_ || _ || _) eqn:Ep; [done|]. intros Ht. destruct (IH _ Ht) as [H1' H2'].
      assert (m = false) as ->.
      { apply not_true_iff_false. intros Hc. destruct (Hm Hc) as (_ & _ & _ & E4).
        rewrite orb_true_iff in E4. rewrite !orb_false_iff in Ep. destruct Ep as [[_ E5] E6].
        destruct E4; congruence. }
      rewrite !andb_false_r. done.
Qed.

(** The gates agree with the full decision, for any rules: a URL in scope always
    passes the preliminary host gate; a host that passes the fail-closed host
    gate has every URL in scope unless an inclusion restricts more than the
    host; a raw connection admitted for HTTP or HTTPS has every path in scope. *)
Theorem scope_gates_consistent rules globOut globIn tls host port path :
  let c := compile rules in
  (urlInScope c globOut globIn tls host port path = true -> mayTargetHost c globOut globIn host = true) /\
  (hostInScope c globOut globIn host = true ->
   Forall (fun r => cr_enabled r && cr_include r = true -> cr_constrainsBeyondHost r = false) c ->
   urlInScope c globOut globIn tls host port path = true) /\
  (transportInScope c globOut globIn host port (if tls then ProtoHttps else ProtoHttp) = true ->
   urlInScope c globOut globIn tls host port path = true).
Proof.
  intros c. pose proof (compile_ok rules) as Hok. fold c in Hok. rewrite List.Forall_forall in Hok.
  unfold urlInScope, mayTargetHost, hostInScope, transportInScope. destruct globOut; [done|].
  set (ex := existsb (fun r => cr_enabled r && negb (cr_include r) && ruleMatchesUrl r tls host port path) c).
  set (inc := existsb (fun r => cr_enabled r && cr_include r && ruleMatchesUrl r tls host port path) c).
  split; [|split].
  - destruct ex eqn:Ex; [done|]. intros Hu.
    assert (existsb (fun r => cr_enabled r && negb (cr_include r) && negb (cr_constrainsBeyondHost r)
                            && host_matches r host) c = false) as ->.
    { revert Ex. apply existsb_mono_false. intros r Hin Hr. split_bools. join_bools; try done.
      apply host_rule_matches; try done. by apply Hok. }
    destruct (hasEnabledInclude c); cbn [negb]; [|done]. revert Hu. apply existsb_mono.
    intros r Hin Hr. split_bools. join_bools; try done. by eapply ruleMatchesUrl_host.
  - destruct (existsb (fun r => cr_enabled r && negb (cr_include r) && host_matches r host) c) eqn:Eh; [done|].
    intros Hh Hincl. rewrite List.Forall_forall in Hincl.
    assert (ex = false) as ->.
    { unfold ex. revert Eh. apply existsb_mono_false. intros r Hin Hr. split_bools.
      join_bools; try done. by eapply ruleMatchesUrl_host. }
    destruct (hasEnabledInclude c); [|done]. revert Hh. apply existsb_mono. intros r Hin Hr. split_bools.
    join_bools; try done. apply host_rule_matches; try done; [by apply Hok|].
    apply Hincl; [done|by join_bools].
  - destruct (transport_loop _ _ _ _ _) as [i|] eqn:Et; [|done].
    apply (transport_loop_spec host port _ path tls) in Et as [E1 E2]; [|done]. fold ex in E1. rewrite E1.
    destruct (hasEnabledInclude c); [|done]. intros ->. by destruct (E2 eq_refl).
Qed.
End ScopeSpec.

(** Rules survive their JSON form: any rules whose integers fit an [int] are read
    back unchanged, whatever text their patterns hold. *)
Theorem scope_rules_json_roundtrip rules :
  Forall (fun r => Forall (fun n => INT_MIN <= n <= INT_MAX) [sr_protocol r; sr_portFrom r; sr_portTo r]) rules ->
  rulesFromJson (rulesToJson rules) = rules.
Proof.
  intros Hr. unfold rulesFromJson, rulesToJson. rewrite map_map.
  induction Hr as [|r rs Hn _ IH]; [done|]. cbn [map]. rewrite IH. f_equal. clear IH.
  apply Forall_cons in Hn as [Hp Hn]. apply Forall_cons in Hn as [Hf Hn]. apply Forall_cons in Hn as [Ht _].
  destruct r as [en inc proto host pf pt file]. cbn [sr_protocol sr_portFrom sr_portTo] in *.
  assert (E : forall n, INT_MIN <= n <= INT_MAX -> exact_int (JInt n) = true) by (intros n Hn; cbn; by zdecides).
  assert (E' : forall d n, INT_MIN <= n <= INT_MAX -> toInt d (JInt n) = n) by (intros d n Hn; cbn; by zdecides).
  unfold rule_from_json, bad_field. cbn [sr_enabled sr_include sr_protocol sr_hostRegex sr_portFrom sr_portTo sr_fileRegex].
  set (o := object _). change (toObject (JObject o)) with o.
  change (value o (lit "enabled")) with (JBool en). change (value o (lit "include")) with (JBool inc).
  change (value o (lit "host")) with (JString host). change (value o (lit "file")) with (JString file).
  change (value o (lit "protocol")) with (JInt proto). change (value o (lit "portFrom")) with (JInt pf).
  change (value o (lit "portTo")) with (JInt pt). rewrite !E by done. rewrite !E' by done.
  cbn [isObject isBool isString toBool toString negb andb orb]. by rewrite !andb_false_r.
Qed.

(** ** Witnesses *)

#[local] Existing Instance literalRegex.

Definition ex_rules : list AdvancedScopeRule :=
  [mkScopeRule true true ProtoAny (lit "example") 0 0 []; mkScopeRule true false ProtoHttps [] 8443 0 []].

Lemma scope_decision_witness :
  validationError ex_rules = [] /\
  urlInScope (compile ex_rules) false true true (lit "h") 443 (lit "/a")
  = spec_in_scope ex_rules false true true (lit "h") 443 (lit "/a").
Proof.
  split; [reflexivity|]. apply (scope_decision ex_rules). reflexivity.
Defined.

Lemma scope_fails_closed_witness :
  urlInScope (compile [mkScopeRule true true 7 [] 0 0 []]) false true true (lit "h") 443 (lit "/a") = false.
Proof.
  apply (scope_fails_closed [mkScopeRule true true 7 [] 0 0 []] false true true (lit "h") 443 (lit "/a") 0).
  vm_compute. discriminate.
Defined.

Lemma scope_gates_consistent_witness :
  mayTargetHost (compile [mkScopeRule true true ProtoAny [] 443 0 []]) false false (lit "h") = true.
Proof.
  apply (scope_gates_consistent [mkScopeRule true true ProtoAny [] 443 0 []] false false true (lit "h") 443 (lit "/")).
  reflexivity.
Defined.

Lemma scope_rules_json_roundtrip_witness : rulesFromJson (rulesToJson ex_rules) = ex_rules.
Proof.
  apply (scope_rules_json_roundtrip ex_rules).
  repeat constructor; discriminate.
Defined.
