(* ===== verification/ProxyPolicy.v ===== *)
(** * The proxy's scope and match-and-replace rules:
      Src/BackEnd/Proxy/proxy_server.cpp

    The part of [ProxyServer]'s state that decides what the proxy may rewrite:
    the glob lists with the advanced scope on top of them ([ScopeLogic.v]), the
    accepted-certificate hosts, and the match-and-replace rules with their
    application to requests and responses ([HttpFraming.v]'s records).  Each
    method runs under its mutex, so it is one step.  A [QRegularExpression] is
    its pattern and its case option; escaping, validity and replacement are
    parameters. *)

From S2P Require Import Prelude Qt QtSample Json HttpFraming ScopeLogic.

Local Open Scope Z_scope.

(** [QRegularExpression::escape], validity and [QString::replace] of a pattern
    compiled with [DontCaptureOption]. *)
Class QtReplace := {
  rr_escape : qstr -> qstr;
  rr_valid : bool -> qstr -> bool;
  rr_replace : bool -> qstr -> qstr -> qstr -> qstr;
}.

Inductive Section_ := ReqUrl | ReqHeader | ReqBody | RespHeader | RespBody | RespStatus.

Record MatchReplaceRule := mkRule {
  mr_enabled : bool; mr_name : qstr; mr_hostGlob : qstr; mr_section : Section_;
  mr_find : qstr; mr_replace : qstr; mr_caseInsensitive : bool; mr_literal : bool; mr_comment : qstr
}.

(** [find] as its case option and pattern; [None] for [hostAll]. *)
Record CompiledMatch := mkMatch { cm_ci : bool; cm_find : qstr; cm_host : option qstr }.

(** The fields of [ProxyServer] the policy keeps. *)
Record Policy := mkPolicy {
  m_inScope : list qstr; m_outOfScope : list qstr; m_advancedScope : list CompiledRule;
  m_rules : list MatchReplaceRule; m_compiledRules : list CompiledMatch;
  m_rulesHit : Z;
  m_acceptInvalid : gset qstr; m_acceptedCerts : gmap qstr (qstr * qstr * qstr)
}.

Section Policy.
Context `{QtText, QtRegex, QtReplace}.

(** ** Scope *)

Definition glob_pattern (g : qstr) : qstr :=
  lit "^" ++ replace_all (lit "\*") (lit ".*") (rr_escape g) ++ lit "$".

Definition setScope (inScope outOfScope : list qstr) (s : Policy) : Policy :=
  mkPolicy (map glob_pattern inScope) (map glob_pattern outOfScope) (m_advancedScope s)
    (m_rules s) (m_compiledRules s) (m_rulesHit s) (m_acceptInvalid s) (m_acceptedCerts s).

Definition setAdvancedScope (rulesJson : list json) (s : Policy) : Policy :=
  mkPolicy (m_inScope s) (m_outOfScope s) (compile (rulesFromJson rulesJson))
    (m_rules s) (m_compiledRules s) (m_rulesHit s) (m_acceptInvalid s) (m_acceptedCerts s).

(** [(globOut, globIn)]. *)
Definition globVerdict (inScope outOfScope : list qstr) (host : qstr) : bool * bool :=
  (existsb (fun rx => rx_match true rx host) outOfScope,
   if is_nil inScope then true else existsb (fun rx => rx_match true rx host) inScope).

Definition isInScope (s : Policy) (host : qstr) : bool :=
  let '(globOut, globIn) := globVerdict (m_inScope s) (m_outOfScope s) host in
  let adv := m_advancedScope s in
  if negb (configured adv) then negb globOut && globIn else hostInScope adv globOut globIn host.

Definition isUrlInScope (s : Policy) (tls : bool) (host : qstr) (port : Z) (path : qstr) : bool :=
  let '(globOut, globIn) := globVerdict (m_inScope s) (m_outOfScope s) host in
  let adv := m_advancedScope s in
  if negb (configured adv) then negb globOut && globIn else urlInScope adv globOut globIn tls host port path.

Definition proxyMayTargetHost (s : Policy) (host : qstr) : bool :=
  let '(globOut, globIn) := globVerdict (m_inScope s) (m_outOfScope s) host in
  mayTargetHost (m_advancedScope s) globOut globIn host.

Definition isTransportInScope (s : Policy) (host : qstr) (port protocol : Z) : bool :=
  let '(globOut, globIn) := globVerdict (m_inScope s) (m_outOfScope s) host in
  transportInScope (m_advancedScope s) globOut globIn host port protocol.

(** ** Hosts whose upstream certificate errors are accepted *)

Definition with_accept (s : Policy) (hosts : gset qstr) (certs : gmap qstr (qstr * qstr * qstr)) : Policy :=
  mkPolicy (m_inScope s) (m_outOfScope s) (m_advancedScope s) (m_rules s) (m_compiledRules s) (m_rulesHit s)
    hosts certs.

Definition isAcceptInvalidHost (s : Policy) (hostPort : qstr) : bool := bool_decide (hostPort ∈ m_acceptInvalid s).
Definition setAcceptInvalidUpstreamHosts (hosts : list qstr) (s : Policy) : Policy :=
  with_accept s (list_to_set hosts) (m_acceptedCerts s).
(** The flag is [emit acceptInvalidStateChanged()]. *)
Definition addAcceptInvalidHost (hostPort : qstr) (s : Policy) : Policy * bool :=
  if isAcceptInvalidHost s hostPort then (s, false)
  else (with_accept s ({[hostPort]} ∪ m_acceptInvalid s) (m_acceptedCerts s), true).
Definition removeAcceptInvalidHost (hostPort : qstr) (s : Policy) : Policy * bool :=
  (with_accept s (m_acceptInvalid s ∖ {[hostPort]}) (delete hostPort (m_acceptedCerts s)),
   isAcceptInvalidHost s hostPort).
Definition recordAcceptedInvalidCert (hostPort : qstr) (cert : qstr * qstr * qstr) (s : Policy) : Policy :=
  with_accept s (m_acceptInvalid s) (<[hostPort := cert]> (m_acceptedCerts s)).

(** ** Setting the rules *)

Definition kMaxRuleBytes : Z := 4096.

(** One round of the loop of [setRules]; [None] is [continue]. *)
Definition compile_match (r : MatchReplaceRule) : option CompiledMatch :=
  if kMaxRuleBytes <? zlen (mr_find r) then None
  else if kMaxRuleBytes <? zlen (mr_replace r) then None
  else if 256 <? zlen (mr_hostGlob r) then None
  else
    let findPat := if mr_literal r then rr_escape (mr_find r) else mr_find r in
    if negb (rr_valid (mr_caseInsensitive r) findPat) then None
    else if is_nil (mr_hostGlob r) then Some (mkMatch (mr_caseInsensitive r) findPat None)
    else
      let host := glob_pattern (mr_hostGlob r) in
      if negb (rx_valid true host) then None
      else Some (mkMatch (mr_caseInsensitive r) findPat (Some host)).

Fixpoint setRules_loop (rules : list MatchReplaceRule) (accepted : list MatchReplaceRule) (compiled : list CompiledMatch)
    : list MatchReplaceRule * list CompiledMatch :=
  match rules with
  | [] => (accepted, compiled)
  | r :: rs =>
      match compile_match r with
      | None => setRules_loop rs accepted compiled
      | Some c => setRules_loop rs (accepted ++ [r]) (compiled ++ [c])
      end
  end.

Definition setRules (rules : list MatchReplaceRule) (s : Policy) : Policy :=
  let '(accepted, compiled) := setRules_loop rules [] [] in
  mkPolicy (m_inScope s) (m_outOfScope s) (m_advancedScope s) accepted compiled (m_rulesHit s)
    (m_acceptInvalid s) (m_acceptedCerts s).

(** ** Applying them *)

(** The string after and whether it changed. *)
Definition applyOne (s : qstr) (r : MatchReplaceRule) (c : CompiledMatch) : qstr * bool :=
  if negb (rr_valid (cm_ci c) (cm_find c)) then (s, false)
  else let after := rr_replace (cm_ci c) (cm_find c) (mr_replace r) s in (after, negb (seq_eqb after s)).

(** [newSize] is an [int], so a size is narrowed before it is written. *)
Fixpoint fixContentLength (headers : list (qstr * qstr)) (newSize : Z) : list (qstr * qstr) :=
  match headers with
  | [] => []
  | h :: hs =>
      if u_cieq (fst h) (lit "Content-Length") then (fst h, number 10 (s32 newSize)) :: hs
      else h :: fixContentLength hs newSize
  end.

(** A header through a rule: the header and the hits. *)
Definition rewrite_header (r : MatchReplaceRule) (c : CompiledMatch) (h : qstr * qstr) : (qstr * qstr) * Z :=
  let '(combined, changed) := applyOne (fst h ++ lit ": " ++ snd h) r c in
  if changed then
    (match index_sub (lit ": ") combined with
     | Some (S k) => (take (S k) combined, drop (S k + 2) combined)
     | _ => (combined, [])
     end, 1)
  else (h, 0).

Fixpoint rewrite_headers (r : MatchReplaceRule) (c : CompiledMatch) (hs : list (qstr * qstr)) : list (qstr * qstr) * Z :=
  match hs with
  | [] => ([], 0)
  | h :: hs' =>
      let '(h', n) := rewrite_header r c h in
      let '(rest, m) := rewrite_headers r c hs' in
      (h' :: rest, n + m)
  end.

(** The body through a rule: [None] when unchanged. *)
Definition rewrite_body (r : MatchReplaceRule) (c : CompiledMatch) (body : bytes) : option bytes :=
  let '(text, changed) := applyOne (u_fromutf8 body) r c in
  if changed then Some (u_toutf8 text) else None.

(** Does the rule apply to [host]? *)
Definition rule_active (r : MatchReplaceRule) (c : CompiledMatch) (host : qstr) : bool :=
  mr_enabled r && match cm_host c with None => true | Some h => rx_match true h host end.

(** The request part of one rule: request, body changed, hits. *)
Definition request_rule (r : MatchReplaceRule) (c : CompiledMatch) (req : HttpRequest) : HttpRequest * bool * Z :=
  match mr_section r with
  | ReqUrl =>
      let '(p, pc) := applyOne (rq_path req) r c in
      let '(t, tc) := applyOne (rq_target req) r c in
      (with_target (if tc then t else rq_target req) (with_path (if pc then p else rq_path req) req),
       false, (if pc then 1 else 0) + (if tc then 1 else 0))
  | ReqHeader =>
      let '(hs, n) := rewrite_headers r c (rq_headers req) in
      (with_headers hs req, false, n)
  | ReqBody =>
      match rewrite_body r c (rq_body req) with
      | Some b => (with_body b req, true, 1)
      | None => (req, false, 0)
      end
  | _ => (req, false, 0)
  end.

Fixpoint request_rules (rs : list MatchReplaceRule) (cs : list CompiledMatch) (host : qstr)
    (req : HttpRequest) (bodyChanged : bool) (hits : Z) : HttpRequest * bool * Z :=
  match rs, cs with
  | r :: rs', c :: cs' =>
      if negb (rule_active r c host) then request_rules rs' cs' host req bodyChanged hits
      else let '(req', b, n) := request_rule r c req in
           request_rules rs' cs' host req' (bodyChanged || b) (hits + n)
  | _, _ => (req, bodyChanged, hits)
  end.

(** The match-and-replace part of [applyRequestRules]; session injection follows
    it in the code ([ProxyConnection.v]). *)
Definition matchReplaceRequest (s : Policy) (req : HttpRequest) : HttpRequest * Z :=
  if negb (isUrlInScope s (rq_tls req) (rq_host req) (rq_port req) (rq_path req)) then (req, 0)
  else
    let '(req', bodyChanged, hits) := request_rules (m_rules s) (m_compiledRules s) (rq_host req) req false 0 in
    (if (bodyChanged : bool)
     then with_headers (fixContentLength (rq_headers req') (zlen (rq_body req'))) req'
     else req', hits).

Definition response_rule (r : MatchReplaceRule) (c : CompiledMatch) (resp : HttpResponse) : HttpResponse * bool * Z :=
  match mr_section r with
  | RespStatus =>
      let line := rs_httpVersion resp ++ lit " " ++ number 10 (rs_statusCode resp) ++ lit " " ++ rs_reasonPhrase resp in
      let '(line', changed) := applyOne line r c in
      if changed then
        (match split_on 32 line' with
         | v :: code :: rest =>
             mkResponse v (default 0 (u_toint 10 code)) (join [32] rest) (rs_headers resp) (rs_body resp) (rs_decodedBody resp) (rs_contentDecoded resp)
         | _ => resp
         end, false, 1)
      else (resp, false, 0)
  | RespHeader =>
      let '(hs, n) := rewrite_headers r c (rs_headers resp) in
      (mkResponse (rs_httpVersion resp) (rs_statusCode resp) (rs_reasonPhrase resp) hs (rs_body resp) (rs_decodedBody resp) (rs_contentDecoded resp), false, n)
  | RespBody =>
      match rewrite_body r c (rs_body resp) with
      | Some b => (mkResponse (rs_httpVersion resp) (rs_statusCode resp) (rs_reasonPhrase resp) (rs_headers resp) b (rs_decodedBody resp) (rs_contentDecoded resp), true, 1)
      | None => (resp, false, 0)
      end
  | _ => (resp, false, 0)
  end.

Fixpoint response_rules (rs : list MatchReplaceRule) (cs : list CompiledMatch) (host : qstr)
    (resp : HttpResponse) (bodyChanged : bool) (hits : Z) : HttpResponse * bool * Z :=
  match rs, cs with
  | r :: rs', c :: cs' =>
      if negb (rule_active r c host) then response_rules rs' cs' host resp bodyChanged hits
      else let '(resp', b, n) := response_rule r c resp in
           response_rules rs' cs' host resp' (bodyChanged || b) (hits + n)
  | _, _ => (resp, bodyChanged, hits)
  end.

Definition applyResponseRules (s : Policy) (req : HttpRequest) (resp : HttpResponse) : HttpResponse * Z :=
  if is_nil (m_rules s) then (resp, 0)
  else if negb (isUrlInScope s (rq_tls req) (rq_host req) (rq_port req) (rq_path req)) then (resp, 0)
  else
    let '(resp', bodyChanged, hits) := response_rules (m_rules s) (m_compiledRules s) (rq_host req) resp false 0 in
    (if (bodyChanged : bool)
     then mkResponse (rs_httpVersion resp') (rs_statusCode resp') (rs_reasonPhrase resp')
            (fixContentLength (rs_headers resp') (zlen (rs_body resp'))) (rs_body resp') (rs_decodedBody resp') (rs_contentDecoded resp')
     else resp', hits).
End Policy.

(** ** Correctness *)

Section PolicySpec.
Context `{QtText, QtRegex, QtReplace}.

(** An explicit out-of-scope glob always wins, whatever the advanced rules say. *)
Lemma out_of_scope_wins s tls host port path protocol :
  existsb (fun rx => rx_match true rx host) (m_outOfScope s) = true ->
  isInScope s host = false /\ isUrlInScope s tls host port path = false /\
  proxyMayTargetHost s host = false /\ isTransportInScope s host port protocol = false.
Proof.
  intros Ho. unfold isInScope, isUrlInScope, proxyMayTargetHost, isTransportInScope, globVerdict. rewrite Ho.
  unfold hostInScope, urlInScope, mayTargetHost, transportInScope. cbn [negb andb].
  repeat split; repeat case_match; done.
Qed.

(** Removing an accepted host forgets its certificate too; other hosts keep theirs. *)
Lemma removeAcceptInvalidHost_spec hostPort s :
  let '(s', changed) := removeAcceptInvalidHost hostPort s in
  changed = isAcceptInvalidHost s hostPort /\ isAcceptInvalidHost s' hostPort = false /\
  m_acceptedCerts s' !! hostPort = None /\
  forall h, h <> hostPort -> isAcceptInvalidHost s' h = isAcceptInvalidHost s h /\
    m_acceptedCerts s' !! h = m_acceptedCerts s !! h.
Proof.
  unfold removeAcceptInvalidHost, isAcceptInvalidHost. cbn. split; [done|]. split.
  { apply bool_decide_eq_false. set_solver. }
  split; [apply lookup_delete_eq|]. intros h Hh. split; [|by apply lookup_delete_ne].
  apply bool_decide_ext. set_solver.
Qed.

Lemma addAcceptInvalidHost_spec hostPort s :
  let '(s', changed) := addAcceptInvalidHost hostPort s in
  changed = negb (isAcceptInvalidHost s hostPort) /\
  forall h, isAcceptInvalidHost s' h = bool_decide (h = hostPort) || isAcceptInvalidHost s h.
Proof.
  unfold addAcceptInvalidHost. destruct (isAcceptInvalidHost s hostPort) eqn:E; (split; [done|]); intros h.
  - destruct (decide (h = hostPort)) as [->|Hne]; [by rewrite E, orb_true_r|].
    by rewrite bool_decide_eq_false_2.
  - unfold isAcceptInvalidHost, with_accept. cbn. rewrite <- bool_decide_or. apply bool_decide_ext. set_solver.
Qed.

(** The rules kept are the compilable ones, in order, each with its own compilation. *)
Lemma setRules_loop_spec rules : forall accepted compiled,
  Forall2 (fun r c => compile_match r = Some c) accepted compiled ->
  let '(a, c) := setRules_loop rules accepted compiled in
  a = accepted ++ List.filter (fun r => match compile_match r with Some _ => true | None => false end) rules /\
  Forall2 (fun r c => compile_match r = Some c) a c.
Proof.
  induction rules as [|r rs IH]; intros accepted compiled Hf; cbn [setRules_loop List.filter].
  - by rewrite app_nil_r.
  - destruct (compile_match r) as [c|] eqn:E; [|by apply IH].
    specialize (IH (accepted ++ [r]) (compiled ++ [c])). destruct (setRules_loop _ _ _) as [a k].
    rewrite <- app_assoc in IH. apply IH. apply Forall2_app; [done|]. by repeat constructor.
Qed.

Lemma setRules_spec rules s :
  let s' := setRules rules s in
  m_rules s' = List.filter (fun r => match compile_match r with Some _ => true | None => false end) rules /\
  Forall2 (fun r c => compile_match r = Some c) (m_rules s') (m_compiledRules s').
Proof.
  unfold setRules. pose proof (setRules_loop_spec rules [] []) as Hs.
  destruct (setRules_loop _ _ _). cbn. by apply Hs.
Qed.

(** ** Rewriting *)

Lemma fixContentLength_find headers n :
  existsb (fun h => u_cieq (fst h) (lit "Content-Length")) headers = true ->
  findHeader (fixContentLength headers n) (lit "Content-Length") = number 10 (s32 n).
Proof.
  induction headers as [|h hs IH]; [done|]. cbn [existsb fixContentLength].
  destruct (u_cieq (fst h) _) eqn:E; cbn [orb findHeader fst snd]; rewrite E; [done|]. by apply IH.
Qed.

Lemma fixContentLength_names headers n : map fst (fixContentLength headers n) = map fst headers.
Proof.
  induction headers as [|h hs IH]; [done|]. cbn [fixContentLength].
  destruct (u_cieq _ _); [done|]. cbn. by rewrite IH.
Qed.

Lemma existsb_map_fst (f : qstr -> bool) (hs : list (qstr * qstr)) :
  existsb (fun h => f (fst h)) hs = existsb f (map fst hs).
Proof. induction hs as [|h hs IH]; [done|]. cbn. by rewrite IH. Qed.

Lemma rewrite_headers_hits r c hs :
  0 <= snd (rewrite_headers r c hs) /\ (snd (rewrite_headers r c hs) = 0 -> fst (rewrite_headers r c hs) = hs).
Proof.
  induction hs as [|h hs IH]; [done|]. cbn [rewrite_headers]. unfold rewrite_header.
  destruct (applyOne _ _ _) as [combined changed]. destruct (rewrite_headers r c hs) as [rest m].
  cbn [fst snd] in *. destruct changed; cbn [fst snd]; [lia|].
  destruct IH as [IH1 IH2]. split; [lia|]. intros Hz. rewrite IH2 by lia. done.
Qed.

(** One rule: hits count changes, and only a body rule touches the body. *)
Lemma request_rule_spec r c req :
  let '(req', b, n) := request_rule r c req in
  0 <= n /\ (n = 0 -> req' = req) /\ (b = false -> rq_body req' = rq_body req) /\ (b = true -> 0 < n) /\
  rq_method req' = rq_method req /\ rq_httpVersion req' = rq_httpVersion req.
Proof.
  destruct req as [me ta ve ho po tl pa hd bo]. unfold request_rule.
  destruct (mr_section r); cbn [rq_method rq_target rq_httpVersion rq_path rq_headers rq_body]; try by repeat split.
  - destruct (applyOne pa r c) as [p pc]. destruct (applyOne ta r c) as [t tc].
    destruct pc, tc; cbn; repeat split; try done; lia.
  - pose proof (rewrite_headers_hits r c hd) as Hh. destruct (rewrite_headers r c hd) as [hs n]. cbn [fst snd] in Hh.
    destruct Hh as [Hh1 Hh2]. repeat split; try done. intros Hn. by rewrite Hh2.
  - unfold rewrite_body. destruct (applyOne _ r c) as [t ch]. destruct ch; repeat split; try done; lia.
Qed.

Lemma response_rule_spec r c resp :
  let '(resp', b, n) := response_rule r c resp in
  0 <= n /\ (n = 0 -> resp' = resp) /\ (b = false -> rs_body resp' = rs_body resp) /\ (b = true -> 0 < n).
Proof.
  destruct resp as [ve co re hd bo de cd]. unfold response_rule.
  destruct (mr_section r); cbn [rs_httpVersion rs_statusCode rs_reasonPhrase rs_headers rs_body rs_decodedBody rs_contentDecoded]; try by repeat split.
  - pose proof (rewrite_headers_hits r c hd) as Hh. destruct (rewrite_headers r c hd) as [hs n]. cbn [fst snd] in Hh.
    destruct Hh as [Hh1 Hh2]. repeat split; try done. intros Hn. by rewrite Hh2.
  - unfold rewrite_body. destruct (applyOne _ r c) as [t ch]. destruct ch; repeat split; try done; lia.
  - destruct (applyOne _ r c) as [l ch]. destruct ch; repeat split; try done; try lia.
    intros _. by destruct (split_on 32 l) as [|? [|? ?]].
Qed.

Lemma request_rules_spec rs host : forall cs req b n,
  let '(req', b', n') := request_rules rs cs host req b n in
  n <= n' /\ (n' = n -> req' = req /\ b' = b) /\ (b' = false -> b = false /\ rq_body req' = rq_body req) /\
  rq_method req' = rq_method req /\ rq_httpVersion req' = rq_httpVersion req.
Proof.
  induction rs as [|r rs IH]; intros [|c cs] req b n; try (repeat split; lia || done). cbn [request_rules].
  destruct (negb _); [apply IH|]. pose proof (request_rule_spec r c req) as Hr.
  destruct (request_rule r c req) as [[req1 b1] n1]. destruct Hr as (H2 & H3 & H4 & H5 & H6 & H7).
  specialize (IH cs req1 (b || b1) (n + n1)). destruct (request_rules _ _ _ _ _ _) as [[req' b'] n'].
  destruct IH as (I1 & I2 & I3 & I4 & I5). split; [lia|]. split.
  - intros Hn. assert (n1 = 0) by lia. destruct I2 as [-> ->]; [lia|]. rewrite H3 by done.
    destruct b1; [specialize (H5 eq_refl); lia|]. by rewrite orb_false_r.
  - rewrite I4, I5. split; [|done]. intros Hb. destruct (I3 Hb) as [Hbb ->]. split_bools.
    split; [done|]. by apply H4.
Qed.

Lemma response_rules_spec rs host : forall cs resp b n,
  let '(resp', b', n') := response_rules rs cs host resp b n in
  n <= n' /\ (n' = n -> resp' = resp /\ b' = b) /\ (b' = false -> b = false /\ rs_body resp' = rs_body resp).
Proof.
  induction rs as [|r rs IH]; intros [|c cs] resp b n; try (repeat split; lia || done). cbn [response_rules].
  destruct (negb _); [apply IH|]. pose proof (response_rule_spec r c resp) as Hr.
  destruct (response_rule r c resp) as [[resp1 b1] n1]. destruct Hr as (H2 & H3 & H4 & H5).
  specialize (IH cs resp1 (b || b1) (n + n1)). destruct (response_rules _ _ _ _ _ _) as [[resp' b'] n'].
  destruct IH as (I1 & I2 & I3). split; [lia|]. split.
  - intros Hn. assert (n1 = 0) by lia. destruct I2 as [-> ->]; [lia|]. rewrite H3 by done.
    destruct b1; [specialize (H5 eq_refl); lia|]. by rewrite orb_false_r.
  - intros Hb. destruct (I3 Hb) as [Hbb ->]. split_bools. split; [done|]. by apply H4.
Qed.
Definition has_length (hs : list (qstr * qstr)) : bool :=
  existsb (fun h => u_cieq (fst h) (lit "Content-Length")) hs.

Lemma has_length_fix hs n : has_length (fixContentLength hs n) = has_length hs.
Proof.
  unfold has_length. rewrite !(existsb_map_fst (fun k => u_cieq k (lit "Content-Length"))).
  by rewrite fixContentLength_names.
Qed.

Definition req_in_scope (s : Policy) (req : HttpRequest) : bool :=
  isUrlInScope s (rq_tls req) (rq_host req) (rq_port req) (rq_path req).

Lemma matchReplaceRequest_spec s req :
  let '(req', hits) := matchReplaceRequest s req in
  (req_in_scope s req = false -> req' = req /\ hits = 0) /\
  (hits = 0 -> req' = req) /\
  (rq_method req' = rq_method req /\ rq_httpVersion req' = rq_httpVersion req) /\
  (rq_body req' <> rq_body req -> has_length (rq_headers req') = true ->
    findHeader (rq_headers req') (lit "Content-Length") = number 10 (s32 (zlen (rq_body req')))).
Proof.
  unfold matchReplaceRequest, req_in_scope. destruct (isUrlInScope _ _ _ _ _); cbn [negb]; [|by repeat split].
  pose proof (request_rules_spec (m_rules s) (rq_host req) (m_compiledRules s) req false 0) as Hq.
  destruct (request_rules _ _ _ _ _ _) as [[req1 b1] n1]. destruct Hq as (_ & Q2 & Q3 & Q4 & Q5).
  split; [done|]. destruct b1; cbn [with_headers rq_method rq_httpVersion rq_headers rq_body].
  - split; [intros Hn; by destruct (Q2 Hn)|]. split; [done|]. intros _ Hl. rewrite has_length_fix in Hl.
    by apply fixContentLength_find.
  - split; [intros Hn; by destruct (Q2 Hn)|]. split; [done|]. intros Hne. by destruct (Q3 eq_refl).
Qed.

Lemma applyResponseRules_spec s req resp :
  let '(resp', hits) := applyResponseRules s req resp in
  (req_in_scope s req = false -> resp' = resp /\ hits = 0) /\
  (hits = 0 -> resp' = resp) /\
  (rs_body resp' <> rs_body resp -> has_length (rs_headers resp') = true ->
    findHeader (rs_headers resp') (lit "Content-Length") = number 10 (s32 (zlen (rs_body resp')))).
Proof.
  unfold applyResponseRules, req_in_scope. destruct (is_nil (m_rules s)); [by repeat split|].
  destruct (isUrlInScope _ _ _ _ _); cbn [negb]; [|by repeat split].
  pose proof (response_rules_spec (m_rules s) (rq_host req) (m_compiledRules s) resp false 0) as Hp.
  destruct (response_rules _ _ _ _ _ _) as [[resp1 b1] n1]. destruct Hp as (_ & P2 & P3).
  split; [done|]. destruct b1; cbn [rs_headers rs_body].
  - split; [intros Hn; by destruct (P2 Hn)|]. intros _ Hl. rewrite has_length_fix in Hl.
    by apply fixContentLength_find.
  - split; [intros Hn; by destruct (P2 Hn)|]. intros Hne. by destruct (P3 eq_refl).
Qed.
End PolicySpec.

(** C26. Match and replace is confined and keeps messages framed.  Out of scope a
    request or response is untouched and nothing is counted; without a hit it
    is untouched; a rule never changes the method or the version of a request;
    and when a body was rewritten to less than 2 GiB, the Content-Length field the
    peer will read (if the message has one) is the size of the new body.  A larger
    body is announced with a wrapped length ([grown_body_length]). *)
Theorem match_replace_safe `{QtText, QtRegex, QtReplace} s req sent resp :
  let '(req', qhits) := matchReplaceRequest s req in
  let '(resp', phits) := applyResponseRules s sent resp in
  (req_in_scope s req = false -> req' = req /\ qhits = 0) /\
  (req_in_scope s sent = false -> resp' = resp /\ phits = 0) /\
  (qhits = 0 -> req' = req) /\ (phits = 0 -> resp' = resp) /\
  (rq_method req' = rq_method req /\ rq_httpVersion req' = rq_httpVersion req) /\
  (rq_body req' <> rq_body req -> zlen (rq_body req') < 2 ^ 31 -> has_length (rq_headers req') = true ->
    findHeader (rq_headers req') (lit "Content-Length") = number 10 (zlen (rq_body req'))) /\
  (rs_body resp' <> rs_body resp -> zlen (rs_body resp') < 2 ^ 31 -> has_length (rs_headers resp') = true ->
    findHeader (rs_headers resp') (lit "Content-Length") = number 10 (zlen (rs_body resp'))).
Proof.
  pose proof (matchReplaceRequest_spec s req) as Hq.
  pose proof (applyResponseRules_spec s sent resp) as Hp.
  destruct (matchReplaceRequest _ _) as [req' qhits]. destruct (applyResponseRules _ _ _) as [resp' phits].
  assert (Hw : forall b : bytes, zlen b < 2 ^ 31 -> s32 (zlen b) = zlen b) by (intros b Hb; apply s32_small; pose proof (zlen_nonneg b); lia).
  destruct Hq as (Q1 & Q2 & Q3 & Q4), Hp as (P1 & P2 & P3). split_and!; try tauto.
  - intros Hne Hlt Hl. rewrite <- (Hw _ Hlt). by apply Q4.
  - intros Hne Hlt Hl. rewrite <- (Hw _ Hlt). by apply P3.
Qed.

(** Patterns as literal text. *)
Definition literalReplace : QtReplace := {|
  rr_escape p := p;
  rr_valid _ _ := true;
  rr_replace _ p after s := replace_all p after s
|}.

Definition ex_policy : Policy :=
  mkPolicy [] [] []
    [mkRule true [] [] ReqBody (lit "cat") (lit "horse") true true []]
    [mkMatch true (lit "cat") None] 0 ∅ ∅.

Definition ex_request : HttpRequest :=
  mkRequest (lit "POST") (lit "/") (lit "HTTP/1.1") (lit "h") 80 false (lit "/") [(lit "content-length", lit "5")] (lit "a cat").

Lemma match_replace_safe_witness :
  let QT := asciiText in let RX := literalRegex in let RR := literalReplace in
  let '(req', hits) := matchReplaceRequest ex_policy ex_request in
  rq_body req' = lit "a horse" /\ hits = 1 /\ findHeader (rq_headers req') (lit "Content-Length") = lit "7".
Proof.
  intros QT RX RR.
  pose proof (match_replace_safe (H := asciiText) (H0 := literalRegex) (H1 := literalReplace)
    ex_policy ex_request ex_request (mkResponse [] 0 [] [] [] [] false)) as Hs.
  destruct (matchReplaceRequest ex_policy ex_request) as [req' hits] eqn:E.
  vm_compute in E. injection E as <- <-.
  destruct (applyResponseRules _ _ _) as [resp' phits]. destruct Hs as (_ & _ & _ & _ & _ & Hs & _).
  split; [reflexivity|]. split; [reflexivity|]. apply Hs; [discriminate|vm_compute; reflexivity|reflexivity].
Defined.

(** Defect: the size is passed as an [int], so a body that rules let grow to 2 GiB is
    announced with a negative length. *)
Example grown_body_length :
  let QT := asciiText in
  findHeader (fixContentLength [(lit "Content-Length", lit "9")] (2 ^ 31)) (lit "Content-Length") = lit "-2147483648" /\
  findHeader (fixContentLength [(lit "Content-Length", lit "9")] (2 ^ 32 + 5)) (lit "Content-Length") = lit "5".
Proof. split; vm_compute; reflexivity. Qed.

(** Three stars as a host glob are the pattern of every host. *)
Lemma three_stars_pattern `{QtReplace} : rr_escape (lit "***") = lit "\*\*\*" -> glob_pattern (lit "***") = lit "^.*.*.*$".
Proof. intros E. unfold glob_pattern. rewrite E. vm_compute. reflexivity. Qed.

(** ** Upstream certificate errors: tls_accept_logic.cpp and its caller *)

(** [QSslError::SslError], the values the code names. *)
Inductive SslError :=
| SelfSignedCertificate | SelfSignedCertificateInChain | UnableToGetLocalIssuerCertificate
| UnableToVerifyFirstCertificate | CertificateUntrusted | CertificateExpired
| CertificateNotYetValid | HostNameMismatch
| CertificateBlacklisted | CertificateRevoked | NoPeerCertificate | OtherSslError (code : Z).

Definition isBenignCertError (e : SslError) : bool :=
  match e with
  | SelfSignedCertificate | SelfSignedCertificateInChain | UnableToGetLocalIssuerCertificate
  | UnableToVerifyFirstCertificate | CertificateUntrusted | CertificateExpired
  | CertificateNotYetValid | HostNameMismatch => true
  | _ => false
  end.

Fixpoint filter_ignorable (errs out : list SslError) : list SslError :=
  match errs with
  | [] => out
  | e :: errs' => filter_ignorable errs' (if isBenignCertError e then out ++ [e] else out)
  end.

Definition filterIgnorableErrors (errs : list SslError) : list SslError := filter_ignorable errs [].

(** What the [sslErrors] handler passes to [ignoreSslErrors]; Qt aborts the
    handshake unless every presented error was passed. *)
Definition sslErrors_handler (acceptInvalid : bool) (errs : list SslError) : list SslError :=
  if negb acceptInvalid then []
  else
    let ignorable := filterIgnorableErrors errs in
    if (zlen ignorable =? zlen errs) && negb (is_nil ignorable) then ignorable else [].

Lemma filter_ignorable_spec errs : forall out, filter_ignorable errs out = out ++ List.filter isBenignCertError errs.
Proof.
  induction errs as [|e errs IH]; intros out; cbn [filter_ignorable List.filter]; [by rewrite app_nil_r|].
  rewrite IH. destruct (isBenignCertError e); [by rewrite <- app_assoc|done].
Qed.

Lemma filter_length_full {A} (f : A -> bool) l :
  (length (List.filter f l) <= length l)%nat /\
  (length (List.filter f l) = length l -> List.filter f l = l /\ forallb f l = true).
Proof.
  induction l as [|x l [IH1 IH2]]; [done|]. cbn [List.filter forallb]. destruct (f x); cbn [length]; split; try lia.
  intros Hl. destruct IH2 as [IH2 IH3]; [lia|]. by rewrite IH2, IH3.
Qed.

(** An upstream certificate is never silently accepted: the handler ignores
    all presented errors exactly when the operator listed this host and port
    and every error is one of the eight benign validation errors, and ignores
    none otherwise; removing the host restores the refusal. *)
Theorem upstream_cert_fails_closed s hostPort errs :
  let ignored s := sslErrors_handler (isAcceptInvalidHost s hostPort) errs in
  (isAcceptInvalidHost s hostPort = true /\ forallb isBenignCertError errs = true -> ignored s = errs) /\
  (isAcceptInvalidHost s hostPort = false \/ forallb isBenignCertError errs = false -> ignored s = []) /\
  ignored (fst (removeAcceptInvalidHost hostPort s)) = [].
Proof.
  unfold sslErrors_handler, filterIgnorableErrors. rewrite !filter_ignorable_spec. cbn [app].
  destruct (filter_length_full isBenignCertError errs) as [Hle Hfull]. split; [|split].
  - intros [-> Hall]. cbn [negb]. assert (Hf : List.filter isBenignCertError errs = errs).
    { clear Hle Hfull. induction errs as [|e l IH]; [done|]. cbn in *. split_bools.
      destruct (isBenignCertError e); [|done]. by rewrite IH. }
    rewrite Hf, Z.eqb_refl. by destruct errs.
  - intros [->|Hall]; [done|]. destruct (isAcceptInvalidHost s hostPort); [|done]. cbn [negb].
    destruct (zlen _ =? zlen errs) eqn:E; [|done]. to_prop. unfold zlen in E.
    destruct Hfull as [_ Hb]; [lia|]. congruence.
  - pose proof (removeAcceptInvalidHost_spec hostPort s) as Hr.
    destruct (removeAcceptInvalidHost hostPort s) as [s' c]. destruct Hr as (_ & Hr & _). cbn [fst]. by rewrite Hr.
Qed.

Lemma upstream_cert_fails_closed_witness :
  let s := fst (addAcceptInvalidHost (lit "h:443") ex_policy) in
  sslErrors_handler (isAcceptInvalidHost s (lit "h:443")) [CertificateExpired] = [CertificateExpired] /\
  sslErrors_handler (isAcceptInvalidHost s (lit "h:443")) [CertificateExpired; CertificateRevoked] = [].
Proof.
  intros s. split.
  - destruct (upstream_cert_fails_closed s (lit "h:443") [CertificateExpired]) as (Hs & _). apply Hs. split; reflexivity.
  - destruct (upstream_cert_fails_closed s (lit "h:443") [CertificateExpired; CertificateRevoked]) as (_ & Hs & _).
    apply Hs. right. reflexivity.
Defined.
