(* ===== verification/SessionManager.v ===== *)
(** * The cookie jar: Src/Core/Networking/session_manager{,_logic}.{hpp,cpp}

    One bag of captured cookies per host.  [onResponseReceived] captures the
    Set-Cookie fields of a response, with their lifetime resolved at capture;
    [injectInto] rewrites the Cookie field of a request to a host whose
    [autoInject] is on; the other methods edit, copy, export and import the jar.
    Every method runs under the manager's mutex, so it is one step; the clock
    readings are arguments.  Date parsing is Qt's and is a parameter. *)

From S2P Require Import Prelude Qt QtSample QMap Json HttpFraming.

Local Open Scope Z_scope.

(** [QDateTime::fromString(s, Qt::RFC2822Date)] and [QLocale::c().toDateTime]
    read as UTC, in seconds since the epoch. *)
Class QtDate := {
  date_rfc2822 : qstr -> option Z;
  date_c_locale : qstr -> qstr -> option Z
}.

Definition kNoMaxAge : Z := I64_MIN.

Record CapturedCookie := mkCookie {
  ck_name : qstr; ck_value : qstr; ck_raw : qstr; ck_path : qstr; ck_expires : qstr;
  ck_maxAge : Z; ck_httpOnly : bool; ck_secure : bool; ck_sameSite : qstr; ck_domain : qstr;
  ck_persistent : bool; ck_expiresEpoch : Z
}.

Definition newCookie : CapturedCookie :=
  mkCookie [] [] [] [] [] kNoMaxAge false false [] [] false 0.

(** ** session_manager_logic.cpp *)

Definition stripCtrl (s : qstr) : qstr := List.filter (fun u => negb (u <? 32)) s.

(** SP and HTAB only. *)
Definition asciiTrimmed (s : qstr) : qstr := trim_by is_ows s.

Section SessionLogic.
Context `{QtText, QtDate}.

(** One attribute of a Set-Cookie field. *)
Definition cookie_attr (c : CapturedCookie) (part : qstr) : CapturedCookie :=
  let seg := asciiTrimmed part in
  if is_nil seg then c
  else
    let eq2 := index_of 61 seg in
    let key := u_lower (asciiTrimmed (match eq2 with None => seg | Some i => take i seg end)) in
    let val := match eq2 with None => [] | Some i => asciiTrimmed (drop (i + 1) seg) end in
    let '(mkCookie n v r p e m ho se ss d pe ep) := c in
    if seq_eqb key (lit "path") then mkCookie n v r val e m ho se ss d pe ep
    else if seq_eqb key (lit "expires") then mkCookie n v r p val m ho se ss d pe ep
    else if seq_eqb key (lit "max-age") then
      match u_tolonglong 10 val with
      | Some ma => mkCookie n v r p e ma ho se ss d pe ep
      | None => c
      end
    else if seq_eqb key (lit "httponly") then mkCookie n v r p e m true se ss d pe ep
    else if seq_eqb key (lit "secure") then mkCookie n v r p e m ho true ss d pe ep
    else if seq_eqb key (lit "samesite") then mkCookie n v r p e m ho se val d pe ep
    else if seq_eqb key (lit "domain") then
      let d0 := u_lower (u_trimmed val) in
      mkCookie n v r p e m ho se ss (if starts_with_chr 46 d0 then drop 1 d0 else d0) pe ep
    else c.

(** Does the name in the text as received hold a control unit? *)
Definition raw_name_has_ctrl (raw : qstr) : bool :=
  let rawFirst := hd [] (split_on 59 raw) in
  match index_of 61 rawFirst with
  | Some (S i) => existsb (fun u => u <? 32) (asciiTrimmed (take (S i) rawFirst))
  | _ => false
  end.

Definition parseSetCookie (raw : qstr) : CapturedCookie :=
  let craw := stripCtrl raw in
  let c0 := mkCookie [] [] craw [] [] kNoMaxAge false false [] [] false 0 in
  match split_on 59 craw with
  | [] => c0
  | part0 :: attrs =>
      let first := asciiTrimmed part0 in
      match index_of 61 first with
      | None | Some O => c0
      | Some eq =>
          let name := stripCtrl (asciiTrimmed (take eq first)) in
          let value := stripCtrl (asciiTrimmed (drop (eq + 1) first)) in
          let name := if contains_chr 61 name || contains_chr 32 name then [] else name in
          let name := if raw_name_has_ctrl raw then [] else name in
          fold_left cookie_attr attrs
            (mkCookie name value craw [] [] kNoMaxAge false false [] [] false 0)
      end
  end.

(** RFC 3986 dot segments, keeping a trailing '/'. *)
Fixpoint resolve_segments (segs : list qstr) (out : list qstr) : list qstr :=
  match segs with
  | [] => out
  | s :: segs' =>
      if is_nil s || seq_eqb s (lit ".") then resolve_segments segs' out
      else if seq_eqb s (lit "..") then resolve_segments segs' (removelast out)
      else resolve_segments segs' (out ++ [s])
  end.

Definition removeDotSegments (p : qstr) : qstr :=
  let r := 47 :: join [47] (resolve_segments (split_on 47 p) []) in
  if ends_with_chr 47 p && negb (ends_with_chr 47 r) then r ++ [47] else r.

Definition cut_at (c : Z) (s : qstr) : qstr :=
  match index_of c s with Some i => take i s | None => s end.

(** The cookie path and the request path as [pathMatches] compares them. *)
Definition cookie_scope (cookiePath : qstr) : qstr :=
  if is_nil cookiePath || negb (starts_with_chr 47 cookiePath) then [47] else cookiePath.
Definition request_scope (reqPath : qstr) : qstr :=
  let rp := if is_nil reqPath then [47] else reqPath in
  let rp := cut_at 35 (cut_at 63 rp) in
  removeDotSegments (if is_nil rp then [47] else rp).

Definition pathMatches (cookiePath reqPath : qstr) : bool :=
  let cp := cookie_scope cookiePath in
  let rp := request_scope reqPath in
  if seq_eqb cp rp then true
  else if starts_with cp rp then
    ends_with_chr 47 cp || ((length cp <? length rp)%nat && (at_ rp (length cp) =? 47))
  else false.

(** [^(\d{1,3}\.){3}\d{1,3}$] on a trimmed host. *)
Definition is_ipv4_text (h : qstr) : bool :=
  let parts := split_on 46 h in
  (length parts =? 4)%nat
  && forallb (fun p => forallb is_digit p && (1 <=? length p)%nat && (length p <=? 3)%nat) parts.

Definition domainMatches (cookieDomain reqHost : qstr) : bool :=
  if is_nil cookieDomain then false
  else
    let cd := u_lower cookieDomain in
    let rh := u_lower (u_trimmed reqHost) in
    if is_nil rh then false
    else if is_ipv4_text rh || contains_chr 58 rh then seq_eqb rh cd
    else if seq_eqb rh cd then true
    else ends_with (46 :: cd) rh.

Definition injectableOverTransport (c : CapturedCookie) (tls : bool) : bool :=
  if negb (ck_secure c) then true else tls.

Definition cookie_date_formats : list qstr :=
  [lit "ddd, dd MMM yyyy hh:mm:ss 'GMT'"; lit "ddd, dd-MMM-yyyy hh:mm:ss 'GMT'"; lit "ddd MMM d hh:mm:ss yyyy"].

Fixpoint first_format (s : qstr) (fmts : list qstr) : Z :=
  match fmts with
  | [] => -1
  | f :: fmts' => match date_c_locale f s with Some t => t | None => first_format s fmts' end
  end.

Definition parseCookieExpires (httpDate : qstr) : Z :=
  let s := u_trimmed httpDate in
  if is_nil s then -1
  else match date_rfc2822 s with
       | Some t => t
       | None => first_format s cookie_date_formats
       end.

Definition with_lifetime (c : CapturedCookie) (persistent : bool) (epoch : Z) : CapturedCookie :=
  mkCookie (ck_name c) (ck_value c) (ck_raw c) (ck_path c) (ck_expires c) (ck_maxAge c) (ck_httpOnly c)
    (ck_secure c) (ck_sameSite c) (ck_domain c) persistent epoch.

Definition resolveCookieExpiry (c : CapturedCookie) (capturedAtEpoch : Z) : CapturedCookie :=
  if negb (ck_maxAge c =? kNoMaxAge) then
    with_lifetime c true
      (if (0 <? ck_maxAge c) && (I64_MAX - ck_maxAge c <? capturedAtEpoch) then I64_MAX
       else s64 (capturedAtEpoch + ck_maxAge c))
  else if negb (is_nil (ck_expires c)) then
    let e := parseCookieExpires (ck_expires c) in
    if 0 <=? e then with_lifetime c true e else with_lifetime c false 0
  else with_lifetime c false 0.

Definition cookieExpired (c : CapturedCookie) (nowEpoch : Z) : bool :=
  ck_persistent c && (ck_expiresEpoch c <=? nowEpoch).

Definition cookieToJson (c : CapturedCookie) : list (qstr * json) :=
  object [(lit "name", JString (ck_name c)); (lit "value", JString (ck_value c)); (lit "raw", JString (ck_raw c));
    (lit "path", JString (ck_path c)); (lit "expires", JString (ck_expires c));
    (lit "httpOnly", JBool (ck_httpOnly c)); (lit "secure", JBool (ck_secure c));
    (lit "sameSite", JString (ck_sameSite c)); (lit "domain", JString (ck_domain c));
    (lit "persistent", JBool (ck_persistent c));
    (lit "expiresEpoch", JString (number 10 (ck_expiresEpoch c)))].

Definition cookieFromJson (o : list (qstr * json)) : CapturedCookie :=
  mkCookie (toString (value o (lit "name"))) (toString (value o (lit "value"))) (toString (value o (lit "raw")))
    (toString (value o (lit "path"))) (toString (value o (lit "expires"))) kNoMaxAge
    (toBool false (value o (lit "httpOnly"))) (toBool false (value o (lit "secure")))
    (toString (value o (lit "sameSite"))) (toString (value o (lit "domain")))
    (toBool false (value o (lit "persistent")))
    (default 0 (u_tolonglong 10 (toString (value o (lit "expiresEpoch"))))).

Definition isValidCookieName (name : qstr) : bool :=
  if is_nil name || contains_chr 61 name || contains_chr 32 name then false
  else forallb (fun u => negb (u <? 32)) name.

Fixpoint replaceCookie (cookies : list CapturedCookie) (c : CapturedCookie) : option (list CapturedCookie) :=
  match cookies with
  | [] => None
  | e :: es => if seq_eqb (ck_name e) (ck_name c) then Some (c :: es) else cons e <$> replaceCookie es c
  end.

Definition upsertCookie (cookies : list CapturedCookie) (c : CapturedCookie) : list CapturedCookie :=
  match replaceCookie cookies c with Some cs => cs | None => cookies ++ [c] end.

Fixpoint removeCookieByName (cookies : list CapturedCookie) (name : qstr) : list CapturedCookie * bool :=
  match cookies with
  | [] => ([], false)
  | e :: es =>
      if seq_eqb (ck_name e) name then (es, true)
      else let '(es', b) := removeCookieByName es name in (e :: es', b)
  end.

(** ** session_manager.cpp *)

Record HostSession := mkHostSession {
  hs_host : qstr; hs_cookies : list CapturedCookie; hs_autoInject : bool; hs_lastSeen : Z
}.

(** [m_byHost]. *)
Definition Jar : Type := gmap qstr HostSession.

Definition lowercaseHost (host : qstr) : qstr := u_lower host.

Definition kMaxHosts : Z := 4096.
Definition kMaxCookiesPerHost : Z := 256.

(** The scan for the least recently seen host; [entries] in the hash's order. *)
Fixpoint oldest_host (entries : list (qstr * HostSession)) (oldest : Z) (oldestKey : qstr) : qstr :=
  match entries with
  | [] => oldestKey
  | (k, s) :: es =>
      if hs_lastSeen s <? oldest then oldest_host es (hs_lastSeen s) k else oldest_host es oldest oldestKey
  end.

Definition evict (jar : Jar) (hostKey : qstr) (nowMs : Z) : Jar :=
  if bool_decide (is_Some (jar !! hostKey)) || (Z.of_nat (size jar) <? kMaxHosts) then jar
  else
    let k := oldest_host (map_to_list jar) (nowMs + 1) [] in
    if is_nil k then jar else delete k jar.

(** One fresh cookie merged into a bag. *)
Definition mergeCookie (nowSec : Z) (cookies : list CapturedCookie) (c : CapturedCookie) : list CapturedCookie :=
  if cookieExpired c nowSec then fst (removeCookieByName cookies (ck_name c))
  else match replaceCookie cookies c with
       | Some cs => cs
       | None => (if kMaxCookiesPerHost <=? zlen cookies then tail cookies else cookies) ++ [c]
       end.

Definition emptySession : HostSession := mkHostSession [] [] false 0.

(** The cookies a response sets, in order. *)
Definition freshCookies (nowSec : Z) (headers : list (qstr * qstr)) : list CapturedCookie :=
  omap (fun h =>
          if negb (u_cieq (fst h) (lit "Set-Cookie")) then None
          else
            let c := parseSetCookie (snd h) in
            if is_nil (ck_name c) then None else Some (resolveCookieExpiry c nowSec)) headers.

(** [nowSec], [nowMs1] and [nowMs2] are the clock readings, in order. *)
Definition onResponseReceived (jar : Jar) (nowSec nowMs1 nowMs2 : Z) (req : HttpRequest) (resp : HttpResponse) : Jar :=
  if starts_with (lit "WS") (rq_method req) then jar
  else if is_nil (rq_host req) then jar
  else
    let fresh := freshCookies nowSec (rs_headers resp) in
    if is_nil fresh then jar
    else
      let hostKey := lowercaseHost (rq_host req) in
      let jar := evict jar hostKey nowMs1 in
      let s := default emptySession (jar !! hostKey) in
      <[hostKey := mkHostSession (rq_host req) (fold_left (mergeCookie nowSec) fresh (hs_cookies s))
                     (hs_autoInject s) nowMs2]> jar.

(** ** Injection *)

(** [pos] of the code: the last index of a name in [ordered]. *)
Fixpoint find_pos (ordered : list (qstr * qstr)) (name : qstr) : option nat :=
  match ordered with
  | [] => None
  | (n, _) :: rest =>
      match find_pos rest name with
      | Some i => Some (S i)
      | None => if seq_eqb n name then Some O else None
      end
  end.

(** The pairs of the client's Cookie field. *)
Definition clientPairs (v : qstr) : list (qstr * qstr) :=
  omap (fun p =>
          let s := u_trimmed p in
          match index_of 61 s with
          | None | Some O => None
          | Some eq => Some (u_trimmed (take eq s), u_trimmed (drop (eq + 1) s))
          end) (split_on 59 v).

Definition injectable (nowSec : Z) (req : HttpRequest) (c : CapturedCookie) : bool :=
  negb (cookieExpired c nowSec) && injectableOverTransport c (rq_tls req) && pathMatches (ck_path c) (rq_path req).

Definition overlay (ordered : list (qstr * qstr)) (c : CapturedCookie) : list (qstr * qstr) :=
  match find_pos ordered (ck_name c) with
  | Some i => alter (fun kv => (fst kv, ck_value c)) i ordered
  | None => ordered ++ [(ck_name c, ck_value c)]
  end.

Definition cookieHeader (ordered : list (qstr * qstr)) : qstr :=
  join (lit "; ") (map (fun kv => fst kv ++ lit "=" ++ snd kv) ordered).

(** The first Cookie field's index. *)
Fixpoint cookieIndex (headers : list (qstr * qstr)) : option nat :=
  match headers with
  | [] => None
  | h :: hs => if u_cieq (fst h) (lit "Cookie") then Some O else S <$> cookieIndex hs
  end.

Definition injectInto (jar : Jar) (nowSec : Z) (req : HttpRequest) : HttpRequest :=
  if is_nil (rq_host req) then req
  else match jar !! lowercaseHost (rq_host req) with
  | None => req
  | Some s =>
      if negb (hs_autoInject s) then req
      else if is_nil (hs_cookies s) then req
      else
        let existingIdx := cookieIndex (rq_headers req) in
        let client := match existingIdx with
                      | Some i => clientPairs (snd (nth i (rq_headers req) ([], [])))
                      | None => []
                      end in
        let ordered := fold_left overlay (List.filter (injectable nowSec req) (hs_cookies s)) client in
        match existingIdx with
        | None =>
            if is_nil ordered then req
            else with_headers (rq_headers req ++ [(lit "Cookie", cookieHeader ordered)]) req
        | Some i => with_headers (alter (fun h => (fst h, cookieHeader ordered)) i (rq_headers req)) req
        end
  end.

(** ** Editing the jar *)

Definition setAutoInject (jar : Jar) (host : qstr) (on : bool) : Jar * bool :=
  let key := lowercaseHost host in
  match jar !! key with
  | None => (jar, false)
  | Some s => (<[key := mkHostSession (hs_host s) (hs_cookies s) on (hs_lastSeen s)]> jar, true)
  end.

Definition clearHost (jar : Jar) (host : qstr) : Jar * bool :=
  (delete (lowercaseHost host) jar, bool_decide (is_Some (jar !! lowercaseHost host))).

Definition setCookie (jar : Jar) (nowMs : Z) (host name val path : qstr) (httpOnly secure : bool) (sameSite : qstr)
    : Jar * bool :=
  if is_nil host || negb (isValidCookieName name) then (jar, false)
  else
    let value2 := stripCtrl val in
    let c := mkCookie name value2 (name ++ lit "=" ++ value2) (if is_nil path then [47] else path) []
               kNoMaxAge httpOnly secure sameSite [] false 0 in
    let key := lowercaseHost host in
    let s := default emptySession (jar !! key) in
    (<[key := mkHostSession host (upsertCookie (hs_cookies s) c) (hs_autoInject s) nowMs]> jar, true).

Definition removeCookie (jar : Jar) (host name : qstr) : Jar * bool :=
  let key := lowercaseHost host in
  match jar !! key with
  | None => (jar, false)
  | Some s =>
      let '(cs, removed) := removeCookieByName (hs_cookies s) name in
      (<[key := mkHostSession (hs_host s) cs (hs_autoInject s) (hs_lastSeen s)]> jar, removed)
  end.

Definition copyTo (jar : Jar) (nowMs : Z) (fromHost toHost : qstr) : Jar * bool :=
  match jar !! lowercaseHost fromHost with
  | None => (jar, false)
  | Some s =>
      (<[lowercaseHost toHost := mkHostSession toHost (hs_cookies s) (hs_autoInject s) nowMs]> jar, true)
  end.

(** ** Persistence *)

Definition sessionToJson (hs : HostSession) : json :=
  JObject (object [(lit "host", JString (hs_host hs)); (lit "autoInject", JBool (hs_autoInject hs));
    (lit "lastSeen", JString (number 10 (hs_lastSeen hs)));
    (lit "cookies", JArray (map (fun c => JObject (cookieToJson c)) (hs_cookies hs)))]).

Definition exportJson (jar : Jar) : list json := map (fun e => sessionToJson (snd e)) (map_to_list jar).

Definition sessionFromJson (nowEpoch : Z) (v : json) : HostSession :=
  let o := toObject v in
  mkHostSession (toString (value o (lit "host")))
    (List.filter (fun c => negb (cookieExpired c nowEpoch))
       (map (fun cv => cookieFromJson (toObject cv)) (toArray (value o (lit "cookies")))))
    (toBool false (value o (lit "autoInject")))
    (default 0 (u_tolonglong 10 (toString (value o (lit "lastSeen"))))).

Definition importJson (arr : list json) (nowEpoch : Z) : Jar :=
  fold_left (fun jar v =>
    let hs := sessionFromJson nowEpoch v in
    if is_nil (hs_host hs) then jar else <[hs_host hs := hs]> jar) arr ∅.
End SessionLogic.

(** ** Executions *)

Inductive JarOp :=
| Captured (nowSec nowMs1 nowMs2 : Z) (req : HttpRequest) (resp : HttpResponse)
| SetAutoInject (host : qstr) (on : bool)
| ClearHost (host : qstr)
| ClearAllHosts
| SetCookie (nowMs : Z) (host name val path : qstr) (httpOnly secure : bool) (sameSite : qstr)
| RemoveCookie (host name : qstr)
| CopyTo (nowMs : Z) (fromHost toHost : qstr).

Definition run_jar_op `{QtText, QtDate} (jar : Jar) (op : JarOp) : Jar :=
  match op with
  | Captured s m1 m2 req resp => onResponseReceived jar s m1 m2 req resp
  | SetAutoInject h on => fst (setAutoInject jar h on)
  | ClearHost h => fst (clearHost jar h)
  | ClearAllHosts => ∅
  | SetCookie m h n v p ho se ss => fst (setCookie jar m h n v p ho se ss)
  | RemoveCookie h n => fst (removeCookie jar h n)
  | CopyTo m f t => fst (copyTo jar m f t)
  end.

Definition run_jar `{QtText, QtDate} (ops : list JarOp) : Jar := fold_left run_jar_op ops ∅.

(** ** The jar's invariant: distinct names, nothing that splits a header line *)

Definition no_ctrl (s : qstr) : Prop := Forall (fun u => 32 <= u) s.

Definition cookie_clean (c : CapturedCookie) : Prop := ck_name c <> [] /\ no_ctrl (ck_name c) /\ no_ctrl (ck_value c).

Definition bag_ok (cs : list CapturedCookie) : Prop := Forall cookie_clean cs /\ NoDup (map ck_name cs).

Definition jar_ok (jar : Jar) : Prop := map_Forall (fun _ s => bag_ok (hs_cookies s)) jar.

Section JarInvariant.
Context `{QtText, QtDate}.

Lemma stripCtrl_clean s : no_ctrl (stripCtrl s).
Proof.
  apply List.Forall_forall. intros u Hu. apply filter_In in Hu as [_ Hu]. split_bools. by to_prop.
Qed.

Lemma cookie_attr_pair c p : ck_name (cookie_attr c p) = ck_name c /\ ck_value (cookie_attr c p) = ck_value c.
Proof. unfold cookie_attr. destruct c. repeat case_match; done. Qed.

Lemma cookie_attrs_pair ps c :
  ck_name (fold_left cookie_attr ps c) = ck_name c /\ ck_value (fold_left cookie_attr ps c) = ck_value c.
Proof.
  revert c. induction ps as [|p ps IH]; intros c; [done|]. cbn [fold_left].
  destruct (IH (cookie_attr c p)) as [-> ->]. apply cookie_attr_pair.
Qed.

Lemma parseSetCookie_clean raw : no_ctrl (ck_name (parseSetCookie raw)) /\ no_ctrl (ck_value (parseSetCookie raw)).
Proof.
  unfold parseSetCookie. destruct (split_on 59 (stripCtrl raw)) as [|p ps]; [by split; constructor|].
  destruct (index_of 61 (asciiTrimmed p)) as [[|eq]|]; try by (split; constructor).
  destruct (cookie_attrs_pair ps (mkCookie
    (if raw_name_has_ctrl raw then [] else
       (if contains_chr 61 (stripCtrl (asciiTrimmed (take (S eq) (asciiTrimmed p))))
           || contains_chr 32 (stripCtrl (asciiTrimmed (take (S eq) (asciiTrimmed p)))) then []
        else stripCtrl (asciiTrimmed (take (S eq) (asciiTrimmed p)))))
    (stripCtrl (asciiTrimmed (drop (S eq + 1) (asciiTrimmed p)))) (stripCtrl raw) [] [] kNoMaxAge false false [] [] false 0))
    as [-> ->].
  cbn [ck_name ck_value]. split; [|apply stripCtrl_clean].
  repeat case_match; try constructor; apply stripCtrl_clean.
Qed.

Lemma freshCookies_clean nowSec headers : Forall cookie_clean (freshCookies nowSec headers).
Proof.
  apply Forall_forall. intros c Hc. apply list_elem_of_omap in Hc as (h & _ & Hh).
  destruct (negb _); [done|]. cbv zeta in Hh. destruct (is_nil _) eqn:En; simplify_eq.
  destruct (parseSetCookie_clean (snd h)) as [Hn Hv].
  assert (Hr : ck_name (resolveCookieExpiry (parseSetCookie (snd h)) nowSec) = ck_name (parseSetCookie (snd h)) /\
    ck_value (resolveCookieExpiry (parseSetCookie (snd h)) nowSec) = ck_value (parseSetCookie (snd h)))
    by (unfold resolveCookieExpiry; repeat case_match; done).
  destruct Hr as [Hr1 Hr2]. unfold cookie_clean. rewrite Hr1, Hr2. split; [|done].
  intros E. by rewrite E in En.
Qed.

Lemma replaceCookie_names cs c cs' :
  replaceCookie cs c = Some cs' -> map ck_name cs' = map ck_name cs /\ (forall x, x ∈ cs' -> x = c \/ x ∈ cs).
Proof.
  revert cs'. induction cs as [|e cs IH]; intros cs' Hr; [done|]. cbn [replaceCookie] in Hr.
  destruct (seq_eqb (ck_name e) (ck_name c)) eqn:E; simplify_eq.
  - apply seq_eqb_eq in E. cbn [map]. rewrite E. split; [done|]. intros x. rewrite !elem_of_cons. tauto.
  - destruct (replaceCookie cs c) as [es|]; simplify_eq/=. destruct (IH es eq_refl) as [-> Hi].
    split; [done|]. intros x. rewrite !elem_of_cons. intros [->|Hx]; [tauto|]. apply Hi in Hx. tauto.
Qed.

Lemma replaceCookie_none cs c : replaceCookie cs c = None -> ck_name c ∉ map ck_name cs.
Proof.
  induction cs as [|e cs IH]; intros Hr; [apply not_elem_of_nil|]. cbn [replaceCookie] in Hr.
  destruct (seq_eqb (ck_name e) (ck_name c)) eqn:E; [done|].
  destruct (replaceCookie cs c); [done|]. cbn [map]. apply not_elem_of_cons. split; [|by apply IH].
  intros Heq. rewrite Heq, seq_eqb_refl in E. done.
Qed.

Lemma removeCookieByName_sub cs name :
  sublist (fst (removeCookieByName cs name)) cs.
Proof.
  induction cs as [|e cs IH]; [constructor|]. cbn [removeCookieByName].
  destruct (seq_eqb _ _); [by constructor|]. destruct (removeCookieByName cs name) as [es b].
  by constructor.
Qed.

Lemma bag_ok_sublist cs cs' : sublist cs' cs -> bag_ok cs -> bag_ok cs'.
Proof.
  intros Hs [Hc Hn]. split.
  - apply Forall_forall. intros x Hx. rewrite Forall_forall in Hc. by eapply Hc, elem_of_sublist.
  - eapply sublist_NoDup; [exact Hn|]. by apply fmap_sublist.
Qed.

Lemma bag_ok_snoc cs c : bag_ok cs -> cookie_clean c -> ck_name c ∉ map ck_name cs -> bag_ok (cs ++ [c]).
Proof.
  intros [Hf Hn] Hc Hni. split; [apply Forall_app; split; [done|by constructor]|].
  rewrite map_app. cbn [map]. apply NoDup_app. split; [done|]. split; [|apply NoDup_singleton].
  intros x Hx ->%list_elem_of_singleton. done.
Qed.

Lemma bag_ok_replace cs c cs' : bag_ok cs -> cookie_clean c -> replaceCookie cs c = Some cs' -> bag_ok cs'.
Proof.
  intros [Hf Hn] Hc Hr. destruct (replaceCookie_names _ _ _ Hr) as [Hm Hi]. split; [|by rewrite Hm].
  apply Forall_forall. intros x Hx. apply Hi in Hx as [->|Hx]; [done|]. by eapply Forall_forall in Hf.
Qed.

Lemma mergeCookie_ok nowSec cs c : bag_ok cs -> cookie_clean c -> bag_ok (mergeCookie nowSec cs c).
Proof.
  intros Hb Hc. unfold mergeCookie. destruct (cookieExpired c nowSec).
  { eapply bag_ok_sublist; [apply removeCookieByName_sub|done]. }
  destruct (replaceCookie cs c) as [cs'|] eqn:Er; [by eapply bag_ok_replace|].
  apply replaceCookie_none in Er.
  assert (Ht : bag_ok (if kMaxCookiesPerHost <=? zlen cs then tail cs else cs) /\
    ck_name c ∉ map ck_name (if kMaxCookiesPerHost <=? zlen cs then tail cs else cs)).
  { destruct (_ <=? _); [|done]. destruct cs as [|e cs]; [done|]. cbn [tail]. split.
    - eapply bag_ok_sublist; [|exact Hb]. by constructor.
    - cbn [map] in Er. apply not_elem_of_cons in Er. tauto. }
  destruct Ht as [Ht1 Ht2]. by apply bag_ok_snoc.
Qed.

Lemma upsertCookie_ok cs c : bag_ok cs -> cookie_clean c -> bag_ok (upsertCookie cs c).
Proof.
  intros Hb Hc. unfold upsertCookie. destruct (replaceCookie cs c) as [cs'|] eqn:Er.
  - by eapply bag_ok_replace.
  - apply bag_ok_snoc; [done..|by apply replaceCookie_none].
Qed.

Lemma jar_lookup_ok jar k : jar_ok jar -> bag_ok (hs_cookies (default emptySession (jar !! k))).
Proof.
  intros Hj. destruct (jar !! k) as [s|] eqn:E; cbn [default]; [exact (Hj _ _ E)|].
  split; [constructor|apply NoDup_nil_2].
Qed.

Lemma jar_ok_insert jar k s : jar_ok jar -> bag_ok (hs_cookies s) -> jar_ok (<[k := s]> jar).
Proof. intros Hj Hb. by apply map_Forall_insert_2. Qed.

Lemma run_jar_op_ok jar op : jar_ok jar -> jar_ok (run_jar_op jar op).
Proof.
  intros Hj. destruct op as [s m1 m2 req resp|h on|h| |m h n v p ho se ss|h n|m f t]; cbn [run_jar_op].
  - unfold onResponseReceived.
    destruct (starts_with _ _); [done|]. destruct (is_nil (rq_host req)); [done|].
    cbv zeta. destruct (is_nil (freshCookies _ _)); [done|].
    assert (He : jar_ok (evict jar (lowercaseHost (rq_host req)) m1)).
    { unfold evict. repeat case_match; try done. by apply map_Forall_delete. }
    apply jar_ok_insert; [done|]. cbn [hs_cookies].
    pose proof (jar_lookup_ok _ (lowercaseHost (rq_host req)) He) as Hb.
    pose proof (freshCookies_clean s (rs_headers resp)) as Hf. revert Hb.
    generalize (hs_cookies (default emptySession (evict jar (lowercaseHost (rq_host req)) m1 !! lowercaseHost (rq_host req)))).
    induction Hf as [|c cs Hc _ IH]; intros bag Hb; [done|]. cbn [fold_left]. by apply IH, mergeCookie_ok.
  - unfold setAutoInject. destruct (jar !! _) as [s|] eqn:E; [|done]. apply jar_ok_insert; [done|]. exact (Hj _ _ E).
  - by apply map_Forall_delete.
  - apply map_Forall_empty.
  - unfold setCookie. case_if E; [done|]. apply orb_false_iff in E as [_ E]. apply negb_false_iff in E.
    unfold isValidCookieName in E. case_if_in E E2; [done|]. apply jar_ok_insert; [done|]. cbn [hs_cookies].
    apply upsertCookie_ok; [by apply jar_lookup_ok|]. split; [|split; [|apply stripCtrl_clean]]; cbn.
    + intros ->. done.
    + apply List.Forall_forall. intros u Hu. rewrite forallb_forall in E. apply E in Hu. split_bools. by to_prop.
  - unfold removeCookie. destruct (jar !! _) as [s|] eqn:E; [|done].
    pose proof (removeCookieByName_sub (hs_cookies s) n) as Hs. destruct (removeCookieByName _ _) as [cs b].
    apply jar_ok_insert; [done|]. eapply bag_ok_sublist; [exact Hs|exact (Hj _ _ E)].
  - unfold copyTo. destruct (jar !! _) as [s|] eqn:E; [|done]. apply jar_ok_insert; [done|]. exact (Hj _ _ E).
Qed.

Lemma run_jar_ok ops : jar_ok (run_jar ops).
Proof.
  unfold run_jar. assert (G : forall jar, jar_ok jar -> jar_ok (fold_left run_jar_op ops jar)).
  { induction ops as [|op ops IH]; intros jar Hj; [done|]. by apply IH, run_jar_op_ok. }
  apply G, map_Forall_empty.
Qed.
End JarInvariant.

(** ** Injection against its reference *)

Section Injection.
Context `{QtText, QtDate}.

Definition value_of (captured : list CapturedCookie) (name : qstr) : option qstr :=
  ck_value <$> List.find (fun c => seq_eqb (ck_name c) name) captured.

(** The client's cookies in their order, captured values winning, then the captured
    cookies the client did not send. *)
Definition merged (client : list (qstr * qstr)) (captured : list CapturedCookie) : list (qstr * qstr) :=
  map (fun kv => (fst kv, default (snd kv) (value_of captured (fst kv)))) client
  ++ map (fun c => (ck_name c, ck_value c))
       (List.filter (fun c => negb (existsb (fun kv => seq_eqb (fst kv) (ck_name c)) client)) captured).

Lemma find_pos_some ordered name i :
  find_pos ordered name = Some i -> exists v, ordered !! i = Some (name, v).
Proof.
  revert i. induction ordered as [|[n v] rest IH]; intros i Hf; [done|]. cbn [find_pos] in Hf.
  destruct (find_pos rest name) as [j|]; simplify_eq.
  - destruct (IH j eq_refl) as [w Hw]. by exists w.
  - destruct (seq_eqb n name) eqn:E; simplify_eq. apply seq_eqb_eq in E as ->. by exists v.
Qed.

Lemma find_pos_none ordered name :
  find_pos ordered name = None <-> existsb (fun kv => seq_eqb (fst kv) name) ordered = false.
Proof.
  induction ordered as [|[n v] rest IH]; [done|]. cbn [find_pos existsb fst].
  destruct (find_pos rest name) as [j|].
  - split; [done|]. intros Hb. apply orb_false_iff in Hb as [_ Hb]. by apply IH in Hb.
  - destruct (seq_eqb n name); [done|]. cbn [orb]. by rewrite <- IH.
Qed.

(** The assignment of the code, by index, is an update by name when names differ. *)
Lemma alter_by_name (ordered : list (qstr * qstr)) i (name v w : qstr) :
  NoDup (map fst ordered) -> ordered !! i = Some (name, w) ->
  alter (fun kv => (fst kv, v)) i ordered
  = map (fun kv => (fst kv, if seq_eqb name (fst kv) then v else snd kv)) ordered.
Proof.
  intros Hn Hi. apply list_eq. intros j. change (map ?f ordered) with (f <$> ordered).
  rewrite list_lookup_fmap. destruct (decide (i = j)) as [->|Hne].
  - rewrite list_lookup_alter_eq, Hi. cbn. by rewrite seq_eqb_refl.
  - rewrite list_lookup_alter_ne by done. destruct (ordered !! j) as [[n u]|] eqn:Ej; cbn; [|done].
    destruct (seq_eqb name n) eqn:E; [|done]. apply seq_eqb_eq in E as <-. destruct Hne.
    eapply NoDup_lookup; [exact Hn| |]; change (map fst ordered) with (fst <$> ordered);
      rewrite list_lookup_fmap; [by rewrite Hi|by rewrite Ej].
Qed.

Lemma overlay_names client c :
  map fst (overlay client c) =
  map fst client ++ (if existsb (fun kv => seq_eqb (fst kv) (ck_name c)) client then [] else [ck_name c]).
Proof.
  unfold overlay. destruct (find_pos client (ck_name c)) as [i|] eqn:E.
  - assert (existsb (fun kv => seq_eqb (fst kv) (ck_name c)) client = true) as ->.
    { apply not_false_is_true. intros Hx. apply find_pos_none in Hx. congruence. }
    rewrite app_nil_r. apply list_eq. intros j.
    change (map fst ?l) with (fst <$> l). rewrite !list_lookup_fmap.
    destruct (decide (i = j)) as [->|Hne]; [|by rewrite list_lookup_alter_ne].
    rewrite list_lookup_alter_eq. by destruct (client !! j).
  - apply find_pos_none in E. rewrite E, map_app. done.
Qed.

Lemma existsb_name (client : list (qstr * qstr)) (name : qstr) :
  existsb (fun kv => seq_eqb (fst kv) name) client = true <-> name ∈ map fst client.
Proof.
  rewrite existsb_exists, list_elem_of_In, in_map_iff. split; intros (kv & H1 & H2); exists kv.
  - by apply seq_eqb_eq in H2.
  - split; [done|by apply seq_eqb_eq].
Qed.

Lemma overlay_nodup client c : NoDup (map fst client) -> NoDup (map fst (overlay client c)).
Proof.
  intros Hn. rewrite overlay_names. destruct (existsb _ client) eqn:E; [by rewrite app_nil_r|].
  apply NoDup_app. split; [done|]. split; [|apply NoDup_singleton].
  intros x Hx ->%list_elem_of_singleton. apply existsb_name in Hx. congruence.
Qed.

Lemma value_of_absent captured name : name ∉ map ck_name captured -> value_of captured name = None.
Proof.
  unfold value_of. induction captured as [|c cs IH]; intros Hn; [done|]. cbn [map List.find] in *.
  apply not_elem_of_cons in Hn as [Hne Hn]. destruct (seq_eqb (ck_name c) name) eqn:E; [|by apply IH].
  apply seq_eqb_eq in E. congruence.
Qed.

Lemma fold_overlay captured client :
  NoDup (map fst client) -> NoDup (map ck_name captured) ->
  fold_left overlay captured client = merged client captured.
Proof.
  revert client. induction captured as [|c cs IH]; intros client Hc Hn.
  - unfold merged. cbn. rewrite app_nil_r. rewrite <- (map_id client) at 1. apply map_ext. by intros [].
  - cbn [fold_left map] in *. apply NoDup_cons in Hn as [Hni Hn].
    rewrite IH by (done || by apply overlay_nodup). unfold merged.
    assert (Hv : forall k, value_of (c :: cs) k = if seq_eqb (ck_name c) k then Some (ck_value c) else value_of cs k).
    { intros k. unfold value_of. cbn [List.find]. by destruct (seq_eqb (ck_name c) k). }
    assert (Hname : forall x, existsb (fun kv => seq_eqb (fst kv) (ck_name x)) (overlay client c)
      = existsb (fun kv => seq_eqb (fst kv) (ck_name x)) client || seq_eqb (ck_name c) (ck_name x)).
    { intros x. apply Bool.eq_iff_eq_true. rewrite orb_true_iff, !existsb_name, overlay_names, elem_of_app, seq_eqb_eq.
      destruct (existsb _ client) eqn:E; [apply existsb_name in E|]; rewrite ?list_elem_of_singleton;
        [|by split; intros [?|?]; auto]. split; [intros [?|Hx%not_elem_of_nil]; tauto|].
      intros [?|Hx]; [by left|left; by rewrite <- Hx]. }
    assert (Hfil : List.filter (fun x => negb (existsb (fun kv => seq_eqb (fst kv) (ck_name x)) (overlay client c))) cs
      = List.filter (fun x => negb (existsb (fun kv => seq_eqb (fst kv) (ck_name x)) client)) cs).
    { apply filter_ext_in. intros x Hx. rewrite Hname.
      destruct (seq_eqb (ck_name c) (ck_name x)) eqn:E; [|by rewrite orb_false_r].
      apply seq_eqb_eq in E. destruct Hni. rewrite E. apply list_elem_of_In, in_map_iff. eauto. }
    rewrite Hfil. cbn [List.filter]. clear Hfil Hname. unfold overlay.
    destruct (find_pos client (ck_name c)) as [i|] eqn:E.
    + destruct (find_pos_some _ _ _ E) as [w Hw].
      assert (existsb (fun kv => seq_eqb (fst kv) (ck_name c)) client = true) as ->.
      { apply not_false_is_true. intros Hx. apply find_pos_none in Hx. congruence. }
      cbn [negb]. f_equal. rewrite (alter_by_name _ _ _ _ _ Hc Hw), map_map. apply map_ext. intros [k v]. cbn [fst snd].
      rewrite Hv. destruct (seq_eqb (ck_name c) k) eqn:Ek; [|done].
      apply seq_eqb_eq in Ek as <-. by rewrite value_of_absent.
    + apply find_pos_none in E. rewrite E. cbn [negb map]. rewrite map_app, <- app_assoc. f_equal.
      * apply map_ext_in. intros [k v] Hk. cbn [fst snd]. rewrite Hv.
        destruct (seq_eqb (ck_name c) k) eqn:Ek; [|done]. apply seq_eqb_eq in Ek.
        assert (existsb (fun kv => seq_eqb (fst kv) (ck_name c)) client = true); [|congruence].
        apply existsb_exists. exists (k, v). split; [done|]. cbn. rewrite Ek. apply seq_eqb_refl.
      * cbn [map app fst snd]. by rewrite value_of_absent.
Qed.

(** The cookies a request to a host may carry. *)
Definition injectable_cookies (jar : Jar) (nowSec : Z) (req : HttpRequest) : list CapturedCookie :=
  match jar !! lowercaseHost (rq_host req) with
  | Some s => if hs_autoInject s then List.filter (injectable nowSec req) (hs_cookies s) else []
  | None => []
  end.

Definition client_cookies (req : HttpRequest) : list (qstr * qstr) :=
  match cookieIndex (rq_headers req) with
  | Some i => clientPairs (snd (nth i (rq_headers req) ([], [])))
  | None => []
  end.

Lemma filter_names_nodup (f : CapturedCookie -> bool) cs :
  NoDup (map ck_name cs) -> NoDup (map ck_name (List.filter f cs)).
Proof.
  induction cs as [|c cs IH]; [done|]. cbn [map List.filter]. intros Hn. apply NoDup_cons in Hn as [Hni Hn].
  destruct (f c); [|by apply IH]. cbn [map]. apply NoDup_cons. split; [|by apply IH].
  intros Hx. apply Hni. apply list_elem_of_In, in_map_iff in Hx as (x & <- & Hx).
  apply filter_In in Hx as [Hx _]. apply list_elem_of_In, in_map_iff. eauto.
Qed.
End Injection.

(** ** What an injected field holds *)

Section Clean.
Context `{QtText}.

Definition pair_clean (kv : qstr * qstr) : Prop := no_ctrl (fst kv) /\ no_ctrl (snd kv).

Lemma no_ctrl_sub s t : no_ctrl s -> (forall c, c ∈ t -> c ∈ s) -> no_ctrl t.
Proof. intros Hs Hi. apply Forall_forall. intros c Hc. unfold no_ctrl in Hs. rewrite Forall_forall in Hs. auto. Qed.

Lemma clientPairs_clean v : no_ctrl v -> Forall pair_clean (clientPairs v).
Proof.
  intros Hv. apply Forall_forall. intros kv Hkv. apply list_elem_of_omap in Hkv as (p & Hp & Hs).
  assert (Hp' : no_ctrl (u_trimmed p)).
  { apply (no_ctrl_sub _ _ Hv). intros c Hc. eapply split_on_elem; [exact Hp|]. by eapply trim_by_incl. }
  cbv zeta in Hs. destruct (index_of 61 (u_trimmed p)) as [[|i]|]; simplify_eq.
  split; apply (no_ctrl_sub _ _ Hp'); cbn [fst snd]; intros c Hc; apply trim_by_incl in Hc.
  - apply elem_of_take in Hc as (j & Hj & _). by eapply list_elem_of_lookup_2.
  - by eapply elem_of_submseteq; [exact Hc|apply sublist_submseteq, sublist_drop].
Qed.

Lemma overlay_clean ordered c : Forall pair_clean ordered -> cookie_clean c -> Forall pair_clean (overlay ordered c).
Proof.
  intros Ho (_ & Hn & Hv). unfold overlay. destruct (find_pos _ _) as [i|].
  - apply Forall_alter; [done|]. by intros kv _ [Hk _].
  - apply Forall_app. split; [done|]. by repeat constructor.
Qed.

Lemma cookieHeader_clean ordered : Forall pair_clean ordered -> no_ctrl (cookieHeader ordered).
Proof.
  unfold cookieHeader, no_ctrl. induction 1 as [|kv kvs [Hk Hv] Hf IH]; [constructor|].
  assert (Hkv : Forall (fun u => 32 <= u) (fst kv ++ lit "=" ++ snd kv)).
  { change (lit "=") with [61]. apply Forall_app. split; [done|]. constructor; [lia|done]. }
  destruct kvs as [|kv' kvs]; [done|]. cbn [map] in *. change (lit "; ") with [59; 32] in *.
  change (join ?s (?x :: ?y :: ?l)) with (x ++ s ++ join s (y :: l)).
  apply Forall_app. split; [done|]. apply Forall_app. split; [|done]. repeat constructor; lia.
Qed.

Lemma cookieIndex_lookup hs i : cookieIndex hs = Some i -> exists h, hs !! i = Some h.
Proof.
  revert i. induction hs as [|h hs IH]; intros i Hi; [done|]. cbn [cookieIndex] in Hi.
  destruct (u_cieq _ _); simplify_eq; [by exists h|].
  destruct (cookieIndex hs) as [j|]; simplify_eq/=. by apply IH.
Qed.
End Clean.

(** ** Paths *)

Definition dot_free (seg : qstr) : Prop := seg <> [] /\ seg <> lit "." /\ seg <> lit ".." /\ 47 ∉ seg.

Lemma resolve_segments_dot_free segs out :
  Forall (fun s => 47 ∉ s) segs -> Forall dot_free out -> Forall dot_free (resolve_segments segs out).
Proof.
  revert out. induction segs as [|s segs IH]; intros out Hs Ho; [done|]. cbn [resolve_segments].
  apply Forall_cons in Hs as [Hs Hss]. destruct (is_nil s) eqn:E0; [by apply IH|]. cbn [orb].
  destruct (seq_eqb s (lit ".")) eqn:E1; [by apply IH|].
  destruct (seq_eqb s (lit "..")) eqn:E2; apply IH; try done.
  - destruct out as [|x out _] using rev_ind; [done|]. rewrite removelast_last. by apply Forall_app in Ho as [Ho _].
  - apply Forall_app. split; [done|]. apply Forall_singleton. unfold dot_free.
    split_and!; [by intros ->|intros ->..|done]; by rewrite seq_eqb_refl in *.
Qed.

(** The resolved path has no dot segment left. *)
Lemma removeDotSegments_clean p seg :
  seg ∈ split_on 47 (removeDotSegments p) -> seg <> lit "." /\ seg <> lit "..".
Proof.
  unfold removeDotSegments. set (segs := resolve_segments _ _).
  assert (Hd : Forall dot_free segs).
  { apply resolve_segments_dot_free; [|constructor]. apply Forall_forall. intros s. apply split_on_parts. }
  assert (Hall : forall seg, seg ∈ split_on 47 (47 :: join [47] segs) \/ seg ∈ split_on 47 (47 :: join [47] segs ++ [47]) ->
            seg = [] \/ dot_free seg).
  { clear seg. intros seg Hseg. destruct segs as [|s segs'] eqn:Es.
    { left. cbn in Hseg. destruct Hseg as [Hx|Hx]; repeat (apply elem_of_cons in Hx as [->|Hx]; [done|]);
        by apply not_elem_of_nil in Hx. }
    rewrite <- Es in *. assert (Hno : Forall (fun s => 47 ∉ s) segs) by (eapply Forall_impl; [exact Hd|]; by intros ? (_ & _ & _ & ?)).
    assert (Hsp : split_on 47 (join [47] segs) = segs) by (apply split_join; [by rewrite Es|done]).
    assert (Hsp2 : split_on 47 (join [47] segs ++ [47]) = segs ++ [[]]).
    { replace (join [47] segs ++ [47]) with (join [47] (segs ++ [[]])).
      - apply split_join; [by destruct segs|]. apply Forall_app. split; [done|]. repeat constructor. apply not_elem_of_nil.
      - assert (Hne : segs <> []) by (by rewrite Es). clear -Hne.
        induction segs as [|s [|s' segs] IH]; [done|done|].
        change (join [47] ((s :: s' :: segs) ++ [[]])) with (s ++ [47] ++ join [47] ((s' :: segs) ++ [[]])).
        change (join [47] (s :: s' :: segs)) with (s ++ [47] ++ join [47] (s' :: segs)).
        rewrite IH by done. by rewrite <- !app_assoc. }
    rewrite Forall_forall in Hd.
    change (47 :: ?l) with ([] ++ 47 :: l) in Hseg. rewrite !split_on_app, Hsp, Hsp2 in Hseg by apply not_elem_of_nil.
    destruct Hseg as [Hx|Hx]; apply elem_of_cons in Hx as [->|Hx]; [by left|right; by apply Hd|by left|].
    apply elem_of_app in Hx as [Hx|Hx]; [right; by apply Hd|left; by apply list_elem_of_singleton in Hx]. }
  intros Hseg. assert (Hc : seg = [] \/ dot_free seg).
  { apply Hall. destruct (_ && _) in Hseg; [right|left]; exact Hseg. }
  destruct Hc as [->|(_ & ? & ? & _)]; done.
Qed.

(** What a request to a host carries.  For any history of captures and edits, the
    request leaves with its first Cookie field replaced (or one appended) by exactly
    the reference merge: the client's cookies in their order with the captured values
    winning, then the remaining captured cookies in capture order, where only the
    cookies of this host's bag count, and of those only the unexpired ones whose path
    matches and whose Secure flag the transport honours.  Nothing else changes. *)
Theorem cookie_injection_reference `{QtText, QtDate} ops nowSec req :
  NoDup (map fst (client_cookies req)) ->
  let jar := run_jar ops in
  let captured := injectable_cookies jar nowSec req in
  let cookies := cookieHeader (merged (client_cookies req) captured) in
  let req' := injectInto jar nowSec req in
  (captured <> [] -> rq_host req <> [] ->
     req' = match cookieIndex (rq_headers req) with
            | Some i => with_headers (alter (fun h => (fst h, cookies)) i (rq_headers req)) req
            | None => with_headers (rq_headers req ++ [(lit "Cookie", cookies)]) req
            end) /\
  ((forall s, jar !! lowercaseHost (rq_host req) = Some s -> hs_autoInject s = false) -> req' = req).
Proof.
  intros Hn. cbv zeta. pose proof (run_jar_ok ops) as Hj.
  unfold injectInto, injectable_cookies, client_cookies in *.
  destruct (run_jar ops !! lowercaseHost (rq_host req)) as [s|] eqn:Es.
  - split.
    + intros Hc Hh. destruct (hs_autoInject s); [|done]. cbn [negb].
      destruct (rq_host req) as [|x h] eqn:Eh; [done|]. cbn [is_nil].
      destruct (hs_cookies s) as [|c0 cs] eqn:Ec; [done|]. cbn [is_nil]. rewrite <- Ec in *.
      assert (Hnd : NoDup (map ck_name (List.filter (injectable nowSec req) (hs_cookies s)))).
      { apply filter_names_nodup. exact (proj2 (Hj _ _ Es)). }
      destruct (cookieIndex (rq_headers req)) as [i|]; (rewrite fold_overlay; [|exact Hn|exact Hnd]); [done|].
      unfold merged at 1. destruct (List.filter (injectable nowSec req) (hs_cookies s)) as [|c1 l]; [done|]. done.
    + intros Ha. rewrite (Ha s eq_refl). by destruct (is_nil (rq_host req)).
  - split; [done|]. by destruct (is_nil (rq_host req)).
Qed.

(** Captured cookies never split a request.  Whatever was captured, set, copied or
    removed before, if the request's own header values hold no control unit then
    neither do those of the request with the jar's cookies: no CR, LF or NUL of a
    server's Set-Cookie field can open a new header line. *)
Theorem cookie_injection_no_split `{QtText, QtDate} ops nowSec req :
  Forall (fun h => no_ctrl (snd h)) (rq_headers req) ->
  Forall (fun h => no_ctrl (snd h)) (rq_headers (injectInto (run_jar ops) nowSec req)).
Proof.
  intros Hr. pose proof (run_jar_ok ops) as Hj. unfold injectInto.
  destruct (is_nil (rq_host req)); [done|]. destruct (run_jar ops !! _) as [s|] eqn:Es; [|done].
  destruct (negb _); [done|]. destruct (is_nil (hs_cookies s)); [done|]. cbv zeta.
  assert (Hs : Forall cookie_clean (List.filter (injectable nowSec req) (hs_cookies s))).
  { apply List.Forall_forall. intros c Hc. apply filter_In in Hc as [Hc _].
    eapply List.Forall_forall; [exact (proj1 (Hj _ _ Es))|done]. }
  assert (Hfold : forall cs client, Forall cookie_clean cs -> Forall pair_clean client ->
            no_ctrl (cookieHeader (fold_left overlay cs client))).
  { induction cs as [|c cs IH]; intros client Hcs Hc; [by apply cookieHeader_clean|].
    apply Forall_cons in Hcs as [Hc1 Hcs]. cbn [fold_left]. by apply IH, overlay_clean. }
  destruct (cookieIndex (rq_headers req)) as [i|] eqn:Ei.
  - destruct (cookieIndex_lookup _ _ Ei) as [h Hh]. cbn [with_headers rq_headers].
    apply Forall_alter; [done|]. intros h' Hh' _. cbn [snd]. apply Hfold; [done|].
    apply clientPairs_clean. rewrite (nth_lookup_Some _ _ _ _ Hh). by eapply Forall_lookup_1 in Hr.
  - destruct (is_nil _); [done|]. cbn [with_headers rq_headers]. apply Forall_app. split; [done|].
    apply Forall_singleton. cbn [snd]. by apply Hfold.
Qed.

(** Path scope of a cookie.  A cookie path matches a request path exactly when it
    is the resolved request path or a prefix of it that ends at a '/' boundary, where
    the resolved path holds no query, no fragment and no dot segment: /admin never
    matches /administrator, and no ".." leaves the scope. *)
Theorem path_match_boundary cookiePath reqPath :
  let c := cookie_scope cookiePath in
  let r := request_scope reqPath in
  (pathMatches cookiePath reqPath = true <->
     c = r \/ exists rest, r = c ++ rest /\ (ends_with_chr 47 c = true \/ exists rest', rest = 47 :: rest')) /\
  (forall seg, seg ∈ split_on 47 r -> seg <> lit "." /\ seg <> lit "..").
Proof.
  cbv zeta. split; [|intros seg; apply removeDotSegments_clean].
  unfold pathMatches. generalize (cookie_scope cookiePath) as c, (request_scope reqPath) as r. intros c r.
  destruct (seq_eqb c r) eqn:E.
  { apply seq_eqb_eq in E as ->. by split; [left|]. }
  assert (Hne : c <> r) by (intros ->; by rewrite seq_eqb_refl in E).
  destruct (starts_with c r) eqn:Es.
  - apply starts_with_spec in Es as [rest ->]. rewrite orb_true_iff, andb_true_iff, Nat.ltb_lt, Z.eqb_eq, length_app.
    rewrite <- (Nat.add_0_r (length c)) at 3. rewrite at_app_r. split.
    + intros [Hc|[Hl Ha]]; right; exists rest; (split; [done|]); [by left|right].
      destruct rest as [|x rest]; [cbn in Hl; lia|]. cbn in Ha. subst x. by exists rest.
    + intros [?|(rest2 & Hr & Hor)]; [done|]. apply app_inv_head in Hr as <-.
      destruct Hor as [?|[rest' ->]]; [by left|right]. split; [cbn; lia|done].
  - split; [done|]. intros [?|(rest & -> & _)]; [done|]. by rewrite starts_with_app in Es.
Qed.

(** What survives a project file: the unexpired cookies, their raw Max-Age gone. *)
Definition restoredCookie (c : CapturedCookie) : CapturedCookie :=
  mkCookie (ck_name c) (ck_value c) (ck_raw c) (ck_path c) (ck_expires c) kNoMaxAge (ck_httpOnly c)
    (ck_secure c) (ck_sameSite c) (ck_domain c) (ck_persistent c) (ck_expiresEpoch c).

Definition restored (nowEpoch : Z) (s : HostSession) : HostSession :=
  mkHostSession (hs_host s)
    (map restoredCookie (List.filter (fun c => negb (cookieExpired c nowEpoch)) (hs_cookies s)))
    (hs_autoInject s) (hs_lastSeen s).

Definition epoch_ok (n : Z) : Prop := 0 <= n <= I64_MAX.

Section Persistence.
Context `{QtTextLaws, QtDate}.

Lemma cookieFromJson_toJson c :
  epoch_ok (ck_expiresEpoch c) -> cookieFromJson (cookieToJson c) = restoredCookie c.
Proof.
  intros He. destruct c as [n v r p e m ho se ss d pe ep]. cbn [ck_expiresEpoch] in He.
  change (cookieFromJson _) with
    (mkCookie n v r p e kNoMaxAge ho se ss d pe (default 0 (u_tolonglong 10 (number 10 ep)))).
  by rewrite tolonglong_number by (tauto || done).
Qed.

Lemma sessionFromJson_toJson nowEpoch s :
  epoch_ok (hs_lastSeen s) -> Forall (fun c => epoch_ok (ck_expiresEpoch c)) (hs_cookies s) ->
  sessionFromJson nowEpoch (sessionToJson s) = restored nowEpoch s.
Proof.
  intros Hl Hc. destruct s as [h cs a ls]. cbn [hs_lastSeen hs_cookies] in *.
  unfold restored, sessionFromJson. cbn [hs_host hs_cookies hs_autoInject hs_lastSeen].
  set (o := toObject _). change (value o (lit "host")) with (JString h).
  change (value o (lit "autoInject")) with (JBool a). change (value o (lit "lastSeen")) with (JString (number 10 ls)).
  change (value o (lit "cookies")) with (JArray (map (fun c => JObject (cookieToJson c)) cs)).
  cbn [toString toBool toArray]. rewrite tolonglong_number by (tauto || done). cbn [default]. f_equal. clear o.
  induction Hc as [|c cs Hc _ IH]; [done|]. cbn [map List.filter toObject].
  rewrite cookieFromJson_toJson by done. change (cookieExpired (restoredCookie c) nowEpoch) with (cookieExpired c nowEpoch).
  rewrite IH. by destruct (negb _).
Qed.

Lemma import_entries (nowEpoch : Z) (l : list (qstr * HostSession)) (jar : gmap qstr HostSession) :
  NoDup (map fst l) ->
  Forall (fun e => fst e = hs_host (snd e) /\ fst e <> [] /\ jar !! fst e = None) l ->
  fold_left (fun jar hs => if is_nil (hs_host hs) then jar else <[hs_host hs := hs]> jar)
    (map (fun e => restored nowEpoch (snd e)) l) jar
  = (list_to_map (map (fun e => (fst e, restored nowEpoch (snd e))) l) : gmap qstr HostSession) ∪ jar.
Proof.
  revert jar. induction l as [|[k s] l IH]; intros jar Hn Hf; [exact (eq_sym (map_empty_union jar))|].
  cbn [map fold_left fst snd] in *. apply Forall_cons in Hf as [(Hk & Hne & Hj) Hf]. cbn [fst snd] in *.
  apply NoDup_cons in Hn as [Hni Hn]. cbn [restored hs_host]. rewrite <- Hk.
  destruct k as [|x k]; [done|]. cbn [is_nil]. rewrite IH; [|done|].
  - rewrite list_to_map_cons, <- insert_union_l. symmetry. apply insert_union_r, not_elem_of_list_to_map_1.
    by rewrite <- list_fmap_compose.
  - apply Forall_forall. intros [k' s'] Hin. rewrite Forall_forall in Hf. destruct (Hf _ Hin) as (? & ? & ?).
    split_and!; [done..|]. cbn [fst] in *. rewrite lookup_insert_ne; [done|]. intros <-. apply Hni.
    apply list_elem_of_In, in_map_iff. exists (x :: k, s'). split; [done|by apply list_elem_of_In].
Qed.

Lemma importJson_sessions arr nowEpoch :
  importJson arr nowEpoch
  = fold_left (fun jar hs => if is_nil (hs_host hs) then jar else <[hs_host hs := hs]> jar)
      (map (sessionFromJson nowEpoch) arr) (∅ : gmap qstr HostSession).
Proof.
  unfold importJson, Jar. generalize (∅ : gmap qstr HostSession) as jar.
  induction arr as [|v arr IH]; intros jar; [done|]. cbn [fold_left map]. apply IH.
Qed.
End Persistence.

(** The jar survives a project file.  When every bag is filed under its own host
    and the stored times are not negative, exporting the jar and importing the result
    at time [nowEpoch] gives back every bag with exactly its unexpired cookies, and
    nothing else. *)
Theorem jar_export_import `{QtTextLaws, QtDate} jar nowEpoch :
  map_Forall (fun k s => k <> [] /\ hs_host s = k /\ epoch_ok (hs_lastSeen s) /\
    Forall (fun c => epoch_ok (ck_expiresEpoch c)) (hs_cookies s)) jar ->
  importJson (exportJson jar) nowEpoch = fmap (restored nowEpoch) jar.
Proof.
  intros Hj. rewrite importJson_sessions. unfold exportJson. rewrite map_map.
  assert (Hl : Forall (fun e => jar !! fst e = Some (snd e)) (map_to_list jar)).
  { apply Forall_forall. intros [k s] Hks. by apply elem_of_map_to_list in Hks. }
  rewrite (map_ext_in _ (fun e => restored nowEpoch (snd e))).
  - rewrite import_entries; [|apply NoDup_fst_map_to_list|].
    + rewrite (right_id_L ∅ (∪)). rewrite <- (list_to_map_to_list jar) at 2. by rewrite <- list_to_map_fmap.
    + eapply Forall_impl; [exact Hl|]. intros [k s] Hks. destruct (Hj _ _ Hks) as (? & ? & _).
      cbn [fst snd]. split_and!; [done..|]. apply lookup_empty.
  - intros [k s] Hin. rewrite Forall_forall in Hl. apply list_elem_of_In, Hl in Hin.
    destruct (Hj _ _ Hin) as (_ & _ & ? & ?). by apply sessionFromJson_toJson.
Qed.

(** ** Divergences *)

(** Dates that never parse, for concrete runs. *)
Definition noDates : QtDate := {| date_rfc2822 _ := None; date_c_locale _ _ := None |}.

Section Examples.
#[local] Existing Instance asciiText.
#[local] Existing Instance noDates.

Definition ex_get (host : qstr) (headers : list (qstr * qstr)) : HttpRequest :=
  mkRequest (lit "GET") (lit "/app/x") (lit "HTTP/1.1") host 80 false (lit "/app/x") headers [].
Definition ex_login : HttpResponse :=
  mkResponse (lit "HTTP/1.1") 200 (lit "OK")
    [(lit "Set-Cookie", lit "sid=42; Path=/app; HttpOnly"); (lit "Set-Cookie", lit "adm=1; Path=/admin")] [] [] false.
Definition ex_ops (host : qstr) : list JarOp :=
  [Captured 100 100000 100001 (ex_get host []) ex_login; SetAutoInject host true].

(** [importJson] files a bag under the host as captured, while every other method
    lower-cases: a jar captured for "Example.com" injects until the project is
    reopened and never after. *)
Theorem imported_host_unreachable :
  let jar := run_jar (ex_ops (lit "Example.com")) in
  let jar' := importJson (exportJson jar) 100 in
  let req := ex_get (lit "example.com") [] in
  rq_headers (injectInto jar 100 req) = [(lit "Cookie", lit "sid=42")] /\
  injectInto jar' 100 req = req /\ size jar' = 1%nat.
Proof. split_and!; vm_compute; reflexivity. Qed.

(** A hand-typed name with a ';' is accepted and comes out as two cookies. *)
Theorem cookie_name_smuggles :
  let jar := run_jar [SetCookie 0 (lit "h") (lit "a;admin") (lit "1") [] false false []; SetAutoInject (lit "h") true] in
  isValidCookieName (lit "a;admin") = true /\
  clientPairs (snd (nth 0 (rq_headers (injectInto jar 0 (ex_get (lit "h") [(lit "Cookie", lit "b=2")]))) ([], [])))
  = [(lit "b", lit "2"); (lit "admin", lit "1")].
Proof. split; vm_compute; reflexivity. Qed.

(** The largest negative Max-Age, a deletion, is the "absent" marker: the cookie
    stays for good. *)
Theorem max_age_sentinel nowSec :
  ck_persistent (resolveCookieExpiry (parseSetCookie (lit "a=b; Max-Age=-9223372036854775808")) nowSec) = false /\
  (exists e, resolveCookieExpiry (parseSetCookie (lit "a=b; Max-Age=-1")) nowSec
             = with_lifetime (parseSetCookie (lit "a=b; Max-Age=-1")) true e).
Proof. split; [reflexivity|eexists; reflexivity]. Qed.

(** ** Witnesses *)

Definition ex_req : HttpRequest := ex_get (lit "h") [(lit "Cookie", lit "a=1; sid=old")].

Lemma cookie_injection_reference_witness :
  NoDup (map fst (client_cookies ex_req)) /\
  let captured := injectable_cookies (run_jar (ex_ops (lit "h"))) 100 ex_req in
  map ck_name captured = [lit "sid"] /\
  injectInto (run_jar (ex_ops (lit "h"))) 100 ex_req
  = with_headers (alter (fun h => (fst h, cookieHeader (merged (client_cookies ex_req) captured))) 0%nat (rq_headers ex_req)) ex_req /\
  cookieHeader (merged (client_cookies ex_req) captured) = lit "a=1; sid=42".
Proof.
  assert (Hn : NoDup (map fst (client_cookies ex_req))).
  { refine (bool_decide_eq_true_1 _ _). vm_compute. reflexivity. }
  split; [exact Hn|]. cbv zeta. split; [vm_compute; reflexivity|]. split; [|vm_compute; reflexivity].
  refine (proj1 (cookie_injection_reference (ex_ops (lit "h")) 100 ex_req Hn) _ _).
  - intros E. apply (f_equal length) in E. vm_compute in E. discriminate.
  - intros E. discriminate.
Defined.

Lemma cookie_injection_no_split_witness :
  Forall (fun h => no_ctrl (snd h)) (rq_headers (injectInto (run_jar (ex_ops (lit "h"))) 100 ex_req)) /\
  rq_headers (injectInto (run_jar (ex_ops (lit "h"))) 100 ex_req) = [(lit "Cookie", lit "a=1; sid=42")].
Proof.
  split; [|vm_compute; reflexivity]. apply (cookie_injection_no_split (ex_ops (lit "h")) 100 ex_req).
  apply Forall_singleton. unfold no_ctrl. refine (bool_decide_eq_true_1 _ _). vm_compute. reflexivity.
Defined.

Lemma jar_export_import_witness :
  importJson (exportJson (run_jar (ex_ops (lit "h")))) 100 = fmap (restored 100) (run_jar (ex_ops (lit "h"))).
Proof.
  apply (jar_export_import (run_jar (ex_ops (lit "h"))) 100).
  refine (bool_decide_eq_true_1 _ _). vm_compute. reflexivity.
Defined.
End Examples.
