(* ===== verification/Placeholders.v ===== *)
(** * [{{name}}] placeholders: the substitution loops of session_rules_logic.cpp
    and chain_runner_logic.cpp

    The code's pattern, an identifier of ASCII letters, digits and underscores in
    double braces, is modelled as a leftmost matcher; the loops replace in place and carry an offset, with fuel for the
    length of the text.  [expand] is the reference: one pass over the template in
    which inserted values are never read again. *)

From S2P Require Import Prelude Qt.

Local Open Scope Z_scope.

Definition is_letter (c : Z) : bool := ((65 <=? c) && (c <=? 90)) || ((97 <=? c) && (c <=? 122)).
Definition ident_start (c : Z) : bool := is_letter c || (c =? 95).
Definition ident_char (c : Z) : bool := ident_start c || is_digit c.

Fixpoint take_while (f : Z -> bool) (s : list Z) : list Z :=
  match s with c :: s' => if f c then c :: take_while f s' else [] | [] => [] end.

(** The name of the placeholder that starts [s], if one does. *)
Definition placeholder_at (s : list Z) : option (list Z) :=
  if negb (starts_with (lit "{{") s) then None
  else
    let name := take_while ident_char (drop 2 s) in
    match name with
    | c :: _ => if ident_start c && starts_with (lit "}}") (drop (2 + length name) s) then Some name else None
    | [] => None
    end.

(** [{{name}}] has four characters more than its name. *)
Definition placeholder_len (name : list Z) : nat := (length name + 4)%nat.
Definition placeholder (name : list Z) : list Z := lit "{{" ++ name ++ lit "}}".

(** The leftmost placeholder: its start and its name. *)
Fixpoint find_placeholder (s : list Z) : option (nat * list Z) :=
  match placeholder_at s with
  | Some name => Some (O, name)
  | None => match s with
            | [] => None
            | _ :: s' => (fun m => (S (fst m), snd m)) <$> find_placeholder s'
            end
  end.

(** [rx.match(s, offset)]. *)
Definition rx_placeholder (s : list Z) (offset : nat) : option (nat * list Z) :=
  (fun m => ((offset + fst m)%nat, snd m)) <$> find_placeholder (drop offset s).

(** [hasUnresolvedPlaceholder]. *)
Definition hasUnresolvedPlaceholder (s : qstr) : bool :=
  match rx_placeholder s 0 with Some _ => true | None => false end.

(** [out.replace(pos, len, after)]. *)
Definition replace_at (pos len : nat) (after s : list Z) : list Z := take pos s ++ after ++ drop (pos + len) s.

Fixpoint substitute_loop (fuel : nat) (vars : gmap qstr qstr) (out : qstr) (offset : nat) : option qstr :=
  match fuel with
  | O => None
  | S fuel' =>
      match rx_placeholder out offset with
      | None => Some out
      | Some (start, name) =>
          match vars !! name with
          | None => substitute_loop fuel' vars out (start + placeholder_len name)
          | Some v =>
              substitute_loop fuel' vars (replace_at start (placeholder_len name) v out) (start + length v)
          end
      end
  end.

(** [SessionRulesLogic::substitute] and [ChainRunner::substituteStr]: the same loop,
    written out in both files. *)
Definition substitute_opt (templ : qstr) (vars : gmap qstr qstr) : option qstr :=
  substitute_loop (S (length templ)) vars templ 0.
Definition substitute (templ : qstr) (vars : gmap qstr qstr) : qstr := default templ (substitute_opt templ vars).
Definition substituteStr (templ : qstr) (vars : gmap qstr qstr) : qstr := substitute templ vars.

Section Bytes.
Context `{QtText}.

(** [view] is the bytes read as Latin-1, unit for unit. *)
Fixpoint substituteBytes_loop (fuel : nat) (vars : gmap qstr qstr) (input : bytes) (last offset : nat) (out : bytes)
    : option bytes :=
  match fuel with
  | O => None
  | S fuel' =>
      match rx_placeholder input offset with
      | None => Some (out ++ drop last input)
      | Some (start, name) =>
          let capturedEnd := (start + placeholder_len name)%nat in
          match vars !! name with
          | None => substituteBytes_loop fuel' vars input last capturedEnd out
          | Some v =>
              substituteBytes_loop fuel' vars input capturedEnd capturedEnd
                (out ++ mid input last (start - last) ++ u_toutf8 v)
          end
      end
  end.

Definition substituteBytes_opt (input : bytes) (vars : gmap qstr qstr) : option bytes :=
  substituteBytes_loop (S (length input)) vars input 0 0 [].
Definition substituteBytes (input : bytes) (vars : gmap qstr qstr) : bytes :=
  default input (substituteBytes_opt input vars).
End Bytes.

(** ** The reference: one pass over the template *)

(** [skip] units of a placeholder already expanded remain to be passed over. *)
Fixpoint expand (vars : gmap qstr (list Z)) (skip : nat) (s : list Z) : list Z :=
  match s with
  | [] => []
  | c :: s' =>
      match skip with
      | S skip' => expand vars skip' s'
      | O => match placeholder_at s with
             | Some name => default (placeholder name) (vars !! name) ++ expand vars (length name + 3) s'
             | None => c :: expand vars 0 s'
             end
      end
  end.

(** ** Facts on the matcher *)

Lemma take_while_split f s : exists t, s = take_while f s ++ t.
Proof.
  induction s as [|c s [t IH]]; [by exists []|]. cbn [take_while]. destruct (f c); [|by exists (c :: s)].
  exists t. cbn [app]. by rewrite <- IH.
Qed.

Lemma take_while_all f s : Forall (fun c => f c = true) (take_while f s).
Proof. induction s as [|c s IH]; cbn [take_while]; [constructor|]. destruct (f c) eqn:E; by constructor. Qed.

(** A placeholder is its name between braces, followed by the rest. *)
Lemma placeholder_at_some s name :
  placeholder_at s = Some name ->
  s = placeholder name ++ drop (placeholder_len name) s /\ Forall (fun c => ident_char c = true) name.
Proof.
  unfold placeholder_at. intros Hp. destruct (starts_with (lit "{{") s) eqn:E1; [|done]. cbn [negb] in Hp.
  apply starts_with_spec in E1 as [t ->].
  change (drop 2 (lit "{{" ++ t)) with t in Hp.
  destruct (take_while_split ident_char t) as [u Hu]. pose proof (take_while_all ident_char t) as Ha.
  set (n := take_while ident_char t) in *. clearbody n. destruct n as [|c n]; [done|].
  destruct (ident_start c && _) eqn:E2; [|done]. apply andb_true_iff in E2 as [_ E2]. simplify_eq.
  assert (Hd : drop (2 + length (c :: n)) (lit "{{" ++ (c :: n) ++ u) = u).
  { change (drop (2 + ?k) (lit "{{" ++ ?l)) with (drop k l). by rewrite drop_app_length. }
  rewrite Hd in E2. apply starts_with_spec in E2 as [v ->]. split; [|done].
  unfold placeholder, placeholder_len. rewrite <- !app_assoc. do 2 f_equal.
  replace (length (c :: n) + 4)%nat with (length (lit "{{") + (length (c :: n) + length (lit "}}")))%nat by (cbn; lia).
  by rewrite drop_app_add, drop_app_add, drop_app_length.
Qed.

Lemma length_placeholder name : length (placeholder name) = placeholder_len name.
Proof. unfold placeholder, placeholder_len. rewrite !length_app. cbn. lia. Qed.

Lemma expand_skip vars n s : expand vars n s = expand vars 0 (drop n s).
Proof. revert s. induction n as [|n IH]; intros [|c s]; [done..|]. cbn [expand drop]. by rewrite IH. Qed.

Lemma expand_at vars s name :
  placeholder_at s = Some name ->
  expand vars 0 s = default (placeholder name) (vars !! name) ++ expand vars 0 (drop (placeholder_len name) s).
Proof.
  intros Hp. destruct s as [|c s]; [done|]. cbn [expand]. rewrite Hp, expand_skip. unfold placeholder_len.
  by replace (length name + 4)%nat with (S (length name + 3)) by lia.
Qed.

Lemma expand_none vars s : find_placeholder s = None -> expand vars 0 s = s.
Proof.
  induction s as [|c s IH]; [done|]. cbn [find_placeholder]. destruct (placeholder_at (c :: s)) eqn:E; [done|].
  intros Hf. cbn [expand]. rewrite E. f_equal. apply IH. by destruct (find_placeholder s).
Qed.

Lemma expand_some vars s i name :
  find_placeholder s = Some (i, name) ->
  expand vars 0 s
  = take i s ++ default (placeholder name) (vars !! name) ++ expand vars 0 (drop (i + placeholder_len name) s).
Proof.
  revert i. induction s as [|c s IH]; intros i Hf; [done|]. cbn [find_placeholder] in Hf.
  destruct (placeholder_at (c :: s)) as [n|] eqn:E; simplify_eq.
  - cbn [take app Nat.add]. by apply expand_at.
  - destruct (find_placeholder s) as [[j n]|] eqn:Ef; simplify_eq/=. rewrite E. f_equal. by apply IH.
Qed.

(** Where the match is found the text spells it. *)
Lemma find_placeholder_text s i name :
  find_placeholder s = Some (i, name) ->
  s = take i s ++ placeholder name ++ drop (i + placeholder_len name) s /\ (i + placeholder_len name <= length s)%nat.
Proof.
  revert i. induction s as [|c s IH]; intros i Hf; [done|]. cbn [find_placeholder] in Hf.
  destruct (placeholder_at (c :: s)) as [n|] eqn:E; simplify_eq.
  - destruct (placeholder_at_some _ _ E) as [Hs _]. split; [exact Hs|].
    apply (f_equal length) in Hs. rewrite length_app, length_placeholder in Hs. lia.
  - destruct (find_placeholder s) as [[j n]|] eqn:Ef; simplify_eq/=.
    destruct (IH j eq_refl) as [H1 H2]. split; [by f_equal|lia].
Qed.

Lemma rx_placeholder_app pre rest :
  rx_placeholder (pre ++ rest) (length pre)
  = (fun m => ((length pre + fst m)%nat, snd m)) <$> find_placeholder rest.
Proof. unfold rx_placeholder. by rewrite drop_app_length. Qed.

(** ** The loops are the reference *)

Lemma replace_at_mid (p x v tl : list Z) : replace_at (length p) (length x) v (p ++ x ++ tl) = p ++ v ++ tl.
Proof.
  unfold replace_at. by rewrite take_app_length, drop_app_add, drop_app_length.
Qed.

(** A match in the unread part of the text, with the parts named. *)
Lemma find_parts rest i name :
  find_placeholder rest = Some (i, name) ->
  exists a tl, rest = a ++ placeholder name ++ tl /\ length a = i /\
    forall vars, expand vars 0 rest = a ++ default (placeholder name) (vars !! name) ++ expand vars 0 tl.
Proof.
  intros E. destruct (find_placeholder_text _ _ _ E) as [Ht Hl].
  exists (take i rest), (drop (i + placeholder_len name) rest). split; [done|]. split; [rewrite length_take; lia|].
  intros vars. by apply expand_some.
Qed.

Lemma substitute_loop_expand vars pre fuel rest :
  (length rest < fuel)%nat ->
  substitute_loop fuel vars (pre ++ rest) (length pre) = Some (pre ++ expand vars 0 rest).
Proof.
  revert pre rest. induction fuel as [|fuel IH]; intros pre rest Hf; [lia|]. cbn [substitute_loop].
  rewrite rx_placeholder_app. destruct (find_placeholder rest) as [[i name]|] eqn:E; [|by rewrite expand_none].
  destruct (find_parts _ _ _ E) as (a & tl & -> & <- & ->). cbn [fmap option_fmap option_map fst snd].
  rewrite !length_app, length_placeholder in Hf. unfold placeholder_len in Hf.
  rewrite <- length_app, <- length_placeholder, app_assoc. destruct (vars !! name) as [v|]; cbn [default].
  - rewrite replace_at_mid, app_assoc, <- length_app, IH by lia. by rewrite <- !app_assoc.
  - rewrite app_assoc, <- length_app, IH by lia. by rewrite <- !app_assoc.
Qed.

Lemma substitute_loop_total templ vars : substitute_opt templ vars = Some (expand vars 0 templ).
Proof. exact (substitute_loop_expand vars [] (S (length templ)) templ ltac:(lia)). Qed.

Lemma substitute_expand templ vars : substitute templ vars = expand vars 0 templ.
Proof. unfold substitute. by rewrite substitute_loop_total. Qed.

Section BytesLemmas.
Context `{QtText}.

Lemma substituteBytes_loop_expand vars fuel input last a rest out :
  (length rest < fuel)%nat -> drop last input = a ++ rest -> (last <= length input)%nat ->
  substituteBytes_loop fuel vars input last (last + length a) out
  = Some (out ++ a ++ expand (u_toutf8 <$> vars) 0 rest).
Proof.
  revert last a rest out. induction fuel as [|fuel IH]; intros last a rest out Hf Hd Hl; [lia|].
  cbn [substituteBytes_loop]. unfold rx_placeholder. rewrite <- drop_drop, Hd, drop_app_length.
  destruct (find_placeholder rest) as [[i name]|] eqn:E.
  2:{ cbn. by rewrite expand_none. }
  destruct (find_parts _ _ _ E) as (b & tl & -> & <- & ->). cbn [fmap option_fmap option_map fst snd].
  rewrite !length_app, length_placeholder in Hf. unfold placeholder_len in Hf. rewrite lookup_fmap.
  assert (Hlen : (length input = last + length a + length b + placeholder_len name + length tl)%nat).
  { apply (f_equal length) in Hd. rewrite !length_app, length_drop, length_placeholder in Hd. lia. }
  destruct (vars !! name) as [v|]; cbn [fmap option_fmap option_map default].
  - assert (Hdt : drop (last + length a + length b + placeholder_len name) input = tl).
    { rewrite <- !drop_drop, Hd, drop_app_length, drop_app_length, <- length_placeholder. apply drop_app_length. }
    pose proof (IH (last + length a + length b + placeholder_len name)%nat [] tl
                  (out ++ (a ++ b) ++ u_toutf8 v) ltac:(lia) Hdt ltac:(lia)) as IH'.
    rewrite Nat.add_0_r in IH'.
    assert (mid input last (last + length a + length b - last) = a ++ b) as ->.
    { unfold mid. rewrite Hd, app_assoc. apply take_app_length'. rewrite length_app. lia. }
    rewrite IH'. by rewrite <- !app_assoc.
  - pose proof (IH last (a ++ b ++ placeholder name) tl out ltac:(lia)) as IH'.
    rewrite !length_app, length_placeholder, !Nat.add_assoc in IH'.
    rewrite IH'; [by rewrite <- !app_assoc| |lia]. by rewrite Hd, <- !app_assoc.
Qed.

Lemma substituteBytes_loop_total input vars :
  substituteBytes_opt input vars = Some (expand (u_toutf8 <$> vars) 0 input).
Proof. exact (substituteBytes_loop_expand vars (S (length input)) input 0 [] input [] ltac:(lia) eq_refl ltac:(lia)). Qed.

Lemma substituteBytes_expand input vars : substituteBytes input vars = expand (u_toutf8 <$> vars) 0 input.
Proof. unfold substituteBytes. by rewrite substituteBytes_loop_total. Qed.
End BytesLemmas.

(** A property of single units holds of an expansion when it holds of the template
    and of every value. *)
Lemma expand_forall (P : Z -> Prop) vars n s :
  Forall P s -> map_Forall (fun _ v => Forall P v) vars -> Forall P (expand vars n s).
Proof.
  intros Hs Hv. revert n. induction Hs as [|c s Hc Hs IH]; intros n; [destruct n; constructor|].
  cbn [expand]. destruct n as [|n]; [|apply IH]. destruct (placeholder_at (c :: s)) as [name|] eqn:E; [|by constructor].
  apply Forall_app. split; [|apply IH]. destruct (vars !! name) as [v|] eqn:Ev; cbn [default]; [exact (Hv _ _ Ev)|].
  destruct (placeholder_at_some _ _ E) as [Ht _].
  assert (Ha : Forall P (c :: s)) by by constructor. rewrite Ht in Ha. by apply Forall_app in Ha as [Ha _].
Qed.

(** Substitution is single-pass.  Both loops end, and produce the reference
    expansion of the template: every placeholder of the template whose variable is
    known is replaced, unknown ones stay as they are, and no inserted value is read
    again, however many braces a captured value holds.  On bytes every byte outside a
    replaced placeholder is kept and values are inserted as UTF-8. *)
Theorem substitution_single_pass `{QtText} templ vars :
  substitute_opt templ vars = Some (expand vars 0 templ) /\
  substituteBytes_opt templ vars = Some (expand (u_toutf8 <$> vars) 0 templ).
Proof. split; [apply substitute_loop_total|apply substituteBytes_loop_total]. Qed.
