(* ===== verification/ChainRunner.v ===== *)
(** * Request chains: Src/Core/Networking/chain_runner{,_logic}.cpp

    [run] sends an ordered list of requests, threading values extracted from the
    responses into later ones as [{{name}}] placeholders ([Placeholders.v]), and
    recomputes Content-Length before each send ([normalizeContentLength]).  The
    network is an argument: the outcome of the i-th exchange.  JSON text and the
    capture groups of PCRE are parameters. *)

From Stdlib Require Import SpecFloat.
From S2P Require Import Prelude Qt QtSample QMap Json HttpFraming InterceptLogic Placeholders.

Local Open Scope Z_scope.

(** A pattern compiled with [DotMatchesEverythingOption]: validity and the captured
    texts 0 .. [lastCapturedIndex] of the first match, a null capture being empty. *)
Class QtCapture := {
  rc_valid : qstr -> bool;
  rc_match : qstr -> qstr -> option (list qstr)
}.

(** ** Reading a response *)

Section Reading.
Context `{QtText}.

(** One segment of a cookie field, when it names the cookie. *)
Definition cookie_segment (name seg : qstr) : option qstr :=
  let s := u_trimmed seg in
  match index_of 61 s with
  | None | Some O => None
  | Some eq => if u_cieq (u_trimmed (take eq s)) name then Some (u_trimmed (drop (eq + 1) s)) else None
  end.

(** [ChainRunner::findCookieValue]: every segment is looked at. *)
Fixpoint findCookieValue_loop (segs : list qstr) (name : qstr) : qstr :=
  match segs with
  | [] => []
  | seg :: segs' =>
      match cookie_segment name seg with Some v => v | None => findCookieValue_loop segs' name end
  end.
Definition findCookieValue (raw name : qstr) : qstr := findCookieValue_loop (split_on 59 raw) name.

(** The descent of [jsonPathGet]; [None] is an early return. *)
Fixpoint json_walk (segs : list qstr) (cur : json) : option json :=
  match segs with
  | [] => Some cur
  | seg :: segs' =>
      match cur with
      | JObject o => json_walk segs' (value o seg)
      | JArray l =>
          match u_toint 10 seg with
          | Some idx => if (idx <? 0) || (zlen l <=? idx) then None else json_walk segs' (nth (Z.to_nat idx) l JUndefined)
          | None => None
          end
      | _ => None
      end
  end.

Context `{QtJson}.

(** The text of a leaf.  An integer is stored apart from other doubles, so a stored
    double equals [toInteger()], which is 0, only when it is a zero. *)
Definition json_leaf (v : json) : qstr :=
  match v with
  | JString s => s
  | JInt n => number 10 n
  | JDouble d => if SFeqb (S754_zero false) d then number 10 0 else number_g17 d
  | JBool b => if b then lit "true" else lit "false"
  | _ => []
  end.

Definition json_root (doc : json) : json := match doc with JArray l => JArray l | v => JObject (toObject v) end.

Definition jsonPathGet (body : bytes) (path : qstr) : qstr :=
  match json_parse body with
  | None => []
  | Some doc =>
      let p := if starts_with (lit "$.") path then drop 2 path
               else if starts_with (lit "$") path then drop 1 path else path in
      match json_walk (split_skip 46 p) (json_root doc) with Some v => json_leaf v | None => [] end
  end.
End Reading.

Definition sanitizeExtractedValue (v : qstr) : qstr := List.filter (fun c => (32 <=? c) || (c =? 9)) v.

(** ** Content-Length *)

(** The head cut at every line terminator. *)
Fixpoint chain_lines (cur : bytes) (head : bytes) : list bytes :=
  match head with
  | [] => if is_nil cur then [] else [cur]
  | c :: head' =>
      if c =? 13 then
        match head' with
        | d :: head'' => if d =? 10 then cur :: chain_lines [] head'' else cur :: chain_lines [] head'
        | [] => cur :: chain_lines [] head'
        end
      else if c =? 10 then cur :: chain_lines [] head'
      else chain_lines (cur ++ [c]) head'
  end.

Definition named (name : bytes) (line : bytes) : bool :=
  match index_of 58 line with
  | None | Some O => false
  | Some colon => seq_eqb (header_name line colon) name
  end.
Definition is_chunked_line (line : bytes) : bool :=
  match index_of 58 line with
  | None | Some O => false
  | Some colon => names_chunked line colon
  end.

Definition cl_line (bodyLen : Z) : bytes := lit "Content-Length: " ++ number 10 bodyLen.

(** The lines written out, and whether a Content-Length was. *)
Fixpoint rebuild (teChunked : bool) (bodyLen : Z) (lines : list bytes) (emittedCl : bool) : list bytes * bool :=
  match lines with
  | [] => ([], emittedCl)
  | line :: lines' =>
      if named (lit "content-length") line then
        if teChunked || emittedCl then rebuild teChunked bodyLen lines' emittedCl
        else let '(out, e) := rebuild teChunked bodyLen lines' true in (cl_line bodyLen :: out, e)
      else let '(out, e) := rebuild teChunked bodyLen lines' emittedCl in (line :: out, e)
  end.

Definition normalized_lines (lines : list bytes) (bodyLen : Z) : list bytes :=
  let teChunked := existsb is_chunked_line lines in
  let '(out, emittedCl) := rebuild teChunked bodyLen lines false in
  out ++ (if negb teChunked && negb emittedCl && (0 <? bodyLen) then [cl_line bodyLen] else []).

Definition write_lines (lines : list bytes) : bytes := flat_map (fun l => l ++ [13; 10]) lines.

(** The blank line is found by the scan of [InterceptLogic.findBlank], repeated in
    chain_runner_logic.cpp.  The size of the body is kept in an [int]; the scans index
    with one, so that they are what is written here for heads of less than 2 GiB. *)
Definition normalizeContentLength (req : bytes) : bytes :=
  match findBlank req with
  | None => req
  | Some (sep, sepLen) =>
      let bodyAndTail := drop (sep + sepLen) req in
      let bodyLen := s32 (zlen bodyAndTail) in
      write_lines (normalized_lines (chain_lines [] (take sep req)) bodyLen)
      ++ [13; 10] ++ bodyAndTail
  end.

(** ** The chain *)

Inductive From := Header | Cookie | Json | Regex | Status.
Record Extract := mkExtract { ex_var : qstr; ex_from : From; ex_key : qstr }.
Record Step := mkStep {
  st_name : qstr; st_host : qstr; st_port : Z; st_tls : bool; st_request : bytes; st_extracts : list Extract
}.

(** What [HttpClient::send] returns, and the time it took. *)
Record SendResult := mkSend {
  sd_ok : bool; sd_errorMessage : qstr; sd_parsed : HttpResponse; sd_rawResponse : bytes; sd_elapsed : Z
}.
Record Sent := mkSent { sn_host : qstr; sn_port : Z; sn_tls : bool; sn_request : bytes }.

Record StepResult := mkStepResult {
  sr_name : qstr; sr_ok : bool; sr_status : Z; sr_ms : Z; sr_requestSize : Z; sr_responseSize : Z;
  sr_error : qstr; sr_extracted : gmap qstr qstr; sr_responsePreview : bytes
}.

Section Run.
Context `{QtText, QtJson, QtCapture}.

Fixpoint first_cookie (headers : list (qstr * qstr)) (key : qstr) : qstr :=
  match headers with
  | [] => []
  | h :: hs =>
      if negb (u_cieq (fst h) (lit "Set-Cookie")) then first_cookie hs key
      else let v := findCookieValue (snd h) key in if is_nil v then first_cookie hs key else v
  end.

Definition extractOne (e : Extract) (resp : HttpResponse) : qstr :=
  match ex_from e with
  | Header => findHeader (rs_headers resp) (ex_key e)
  | Cookie => first_cookie (rs_headers resp) (ex_key e)
  | Json => jsonPathGet (bodyForInspection resp) (ex_key e)
  | Regex =>
      if negb (rc_valid (ex_key e)) then []
      else match rc_match (ex_key e) (u_fromutf8 (take (Z.to_nat (1 * 1024 * 1024)) (bodyForInspection resp))) with
           | None => []
           | Some caps => if (2 <=? length caps)%nat then nth 1 caps [] else nth 0 caps []
           end
  | Status => number 10 (rs_statusCode resp)
  end.

(** The extraction loop of one step, on the step's own values and on the bag. *)
Definition extract_vars (resp : HttpResponse) (extracts : list Extract) (bag : gmap qstr qstr)
    : gmap qstr qstr * gmap qstr qstr :=
  fold_left (fun acc e =>
    if is_nil (ex_var e) then acc
    else
      let val := sanitizeExtractedValue (extractOne e resp) in
      (<[ex_var e := val]> (fst acc), if is_nil val then snd acc else <[ex_var e := val]> (snd acc)))
    extracts (∅, bag).

(** What step [i] puts on the wire. *)
Definition prepare (step : Step) (vars : gmap qstr qstr) : Sent :=
  mkSent (substituteStr (st_host step) vars) (st_port step mod 2 ^ 16) (st_tls step)
    (normalizeContentLength (substituteBytes (st_request step) vars)).

(** [run(steps, continueOnError)]: the step results, the final bag and what was sent. *)
Fixpoint run_steps (continueOnError : bool) (net : nat -> SendResult) (i : nat) (steps : list Step)
    (vars : gmap qstr qstr) : list StepResult * gmap qstr qstr * list Sent :=
  match steps with
  | [] => ([], vars, [])
  | step :: steps' =>
      let sent := prepare step vars in
      let res := net i in
      let size := zlen (sn_request sent) in
      if negb (sd_ok res) then
        let sr := mkStepResult (st_name step) false 0 (sd_elapsed res) size 0
                    (if is_nil (sd_errorMessage res) then lit "send failed" else sd_errorMessage res) ∅ [] in
        if continueOnError then
          let '(rs, v, out) := run_steps continueOnError net (S i) steps' vars in (sr :: rs, v, sent :: out)
        else ([sr], vars, [sent])
      else
        let '(extracted, vars') := extract_vars (sd_parsed res) (st_extracts step) vars in
        let sr := mkStepResult (st_name step) true (rs_statusCode (sd_parsed res)) (sd_elapsed res) size
                    (zlen (rs_body (sd_parsed res))) [] extracted (sd_rawResponse res) in
        let '(rs, v, out) := run_steps continueOnError net (S i) steps' vars' in (sr :: rs, v, sent :: out)
  end.

Definition run (steps : list Step) (continueOnError : bool) (net : nat -> SendResult)
    : list StepResult * gmap qstr qstr * list Sent := run_steps continueOnError net 0 steps ∅.

(** ** Recording a step *)

Definition step_name (rawRequest : bytes) : qstr :=
  let nl := default (length rawRequest) (index_of 10 rawRequest) in
  match split_on 32 (b_trimmed (take nl rawRequest)) with
  | (c :: m) :: target :: _ =>
      (c :: m) ++ lit " " ++ match index_of 63 target with Some q => take q target | None => target end
  | _ => lit "step"
  end.

Definition buildChainStep (rawRequest : bytes) (host : qstr) (port : Z) (tls : bool) : list (qstr * json) :=
  object [(lit "name", JString (step_name rawRequest)); (lit "host", JString host); (lit "port", JInt port);
          (lit "tls", JBool tls); (lit "request", JString (u_fromutf8 rawRequest)); (lit "extract", JArray [])].
End Run.

(** ** Content-Length: the rewritten request frames the same body *)

Lemma chain_lines_no_eol cur b : no_eol cur -> Forall no_eol (chain_lines cur b).
Proof.
  assert (G : forall n b cur, (length b <= n)%nat -> no_eol cur -> Forall no_eol (chain_lines cur b)).
  { clear. induction n as [|n IH]; intros b cur Hn Hc.
    - destruct b; [|cbn in Hn; lia]. cbn [chain_lines]. destruct (is_nil cur); by repeat constructor.
    - destruct b as [|c b]; cbn [chain_lines]; [destruct (is_nil cur); by repeat constructor|].
      cbn [length] in Hn. destruct (c =? 13) eqn:E1; [|destruct (c =? 10) eqn:E2].
      + destruct b as [|d b]; [|destruct (d =? 10)]; (constructor; [done|]); apply IH; try constructor; cbn [length] in *; lia.
      + constructor; [done|]. apply IH; [lia|constructor].
      + to_prop. apply IH; [lia|]. apply Forall_app. split; [done|]. by repeat constructor. }
  by apply (G (length b)).
Qed.

Lemma chain_lines_term cur t r :
  is_term t \/ t = [13] -> termLen r = 0%nat -> chain_lines cur (t ++ r) = cur :: chain_lines [] r.
Proof.
  intros Ht Hr. destruct Ht as [[->| ->]| ->]; cbn [app chain_lines]; [done..|]. cbn [Z.eqb Pos.eqb].
  destruct r as [|d r]; [done|]. destruct (d =? 10) eqn:E; [|done]. to_prop. subst d. done.
Qed.

Lemma termLen_split s : termLen s <> 0%nat ->
  exists t r, s = t ++ r /\ length t = termLen s /\ (is_term t \/ (t = [13] /\ starts_with_chr 10 r = false)).
Proof.
  intros Hs. destruct s as [|c s]; [done|]. cbn [termLen] in *. destruct (c =? 13) eqn:E1.
  - to_prop. subst c. destruct s as [|d s]; [exists [13], []; split_and!; auto|]. destruct (d =? 10) eqn:E2.
    + to_prop. subst d. exists [13; 10], s. split_and!; [done..|]. left. by left.
    + exists [13], (d :: s). split_and!; [done..|]. right. by split.
  - destruct (c =? 10) eqn:E2; [|done]. to_prop. subst c. exists [10], s. split_and!; [done..|]. left. by right.
Qed.

Definition nonempty (l : bytes) : Prop := l <> [].

Lemma chain_lines_nil cur b : chain_lines cur b = [] -> b = [].
Proof.
  revert cur. induction b as [|c b IH]; intros cur; [done|]. cbn [chain_lines].
  destruct (c =? 13); [by destruct b as [|d b]; [|destruct (d =? 10)]|].
  destruct (c =? 10); [done|]. intros H. pose proof (IH _ H) as ->. cbn [chain_lines] in H. by destruct cur.
Qed.

(** Before the earliest blank line only the first line can be empty. *)
Lemma find_blank_lines fuel : forall req i sep n cur,
  find_blank fuel req i = Some (sep, n) ->
  let L := chain_lines cur (mid req i (sep - i)) in
  (i <= sep)%nat /\ termLenAt req sep <> 0%nat /\ Forall nonempty (tail L) /\
  (cur <> [] \/ termLenAt req i = 0%nat -> Forall nonempty L) /\ L <> [[]].
Proof.
  induction fuel as [|fuel IH]; intros req i sep n cur Hb; [done|]. cbn [find_blank] in Hb. cbv zeta.
  destruct (length req <=? i)%nat eqn:El; [done|]. to_prop.
  destruct (termLenAt req i =? 0)%nat eqn:E1.
  - to_prop. destruct (drop i req) as [|c s] eqn:Es.
    { apply (f_equal length) in Es. rewrite length_drop in Es. cbn in Es. lia. }
    assert (Hs : drop (i + 1) req = s) by (rewrite <- drop_drop, Es; done).
    assert (Hc : c <> 13 /\ c <> 10).
    { unfold termLenAt in E1. rewrite Es in E1. cbn [termLen] in E1. destruct (c =? 13) eqn:?; [|destruct (c =? 10) eqn:?].
      - destruct s as [|d s]; [done|]. by destruct (d =? 10).
      - done.
      - to_prop. done. }
    destruct (IH _ _ _ _ (cur ++ [c]) Hb) as (Hle & Ht & _ & Hall & Hne). unfold mid in *. rewrite Hs in *.
    rewrite Es. replace (sep - i)%nat with (S (sep - (i + 1))) by lia. cbn [take chain_lines].
    destruct Hc as [Hc1 Hc2]. zdecide. zdecide.
    assert (Hf : Forall nonempty (chain_lines (cur ++ [c]) (take (sep - (i + 1)) s))) by (apply Hall; left; by destruct cur).
    split_and!; [lia|done| |done|done]. destruct (chain_lines _ _); [done|]. by apply Forall_cons in Hf as [_ Hf].
  - to_prop. destruct (0 <? termLenAt req (i + termLenAt req i))%nat eqn:E2; to_prop.
    + injection Hb as <- <-. rewrite Nat.sub_diag. unfold mid. rewrite take_0. cbn [chain_lines].
      split_and!; [lia|done|by destruct cur; constructor| |by destruct cur].
      intros _. destruct cur; by repeat constructor.
    + destruct (IH _ _ _ _ [] Hb) as (Hle & Ht & _ & Hall & _). assert (E3 : termLenAt req (i + termLenAt req i) = 0%nat) by lia. specialize (Hall (or_intror E3)). clear E2.
      destruct (termLen_split (drop i req) E1) as (t & r & Hs & Hlt & Hterm).
      change (termLen (drop i req)) with (termLenAt req i) in Hlt. remember (termLenAt req i) as k eqn:Hk.
      assert (Hd : drop (i + k) req = r) by (rewrite <- drop_drop, Hs, <- Hlt; apply drop_app_length).
      set (r' := mid req (i + k) (sep - (i + k))) in *.
      assert (Hm : mid req i (sep - i) = t ++ r').
      { unfold r', mid. rewrite Hs, Hd, take_app, take_ge by lia. do 2 f_equal. lia. }
      assert (Hr0 : termLen r' = 0%nat).
      { unfold r', mid. unfold termLenAt in E3. rewrite Hd in *. destruct (sep - _)%nat as [|j]; [done|].
        destruct r as [|d r]; [done|]. cbn [take]. cbn [termLen] in *. destruct (d =? 13).
        - destruct r as [|e r]; [lia|]. destruct (e =? 10); lia.
        - destruct (d =? 10); lia. }
      rewrite Hm, chain_lines_term; [|destruct Hterm as [?|[? _]]; auto|done].
      split_and!; [lia|done|exact Hall| |].
      * intros [Hc|?]; [by constructor|lia].
      * intros [= -> Hnil]. apply chain_lines_nil in Hnil. apply (f_equal length) in Hnil. unfold r' in Hnil.
        rewrite length_mid in Hnil. cbn [length] in Hnil.
        assert (sep <> (i + k)%nat) by (intros ->; lia).
        assert (termLenAt req sep = 0%nat); [|done]. unfold termLenAt. rewrite drop_ge by lia. done.
Qed.

Notation is_cl_line := (named (lit "content-length")).

Lemma cl_line_is_cl n : is_cl_line (cl_line n) = true.
Proof. reflexivity. Qed.
Lemma cl_line_not_chunked n : is_chunked_line (cl_line n) = false.
Proof. reflexivity. Qed.
Lemma chunked_not_cl l : is_chunked_line l = true -> is_cl_line l = false.
Proof.
  unfold is_chunked_line, named, names_chunked. destruct (index_of 58 l) as [[|i]|]; [done| |done].
  intros Hc. apply andb_true_iff in Hc as [Hc _]. apply seq_eqb_eq in Hc. rewrite Hc. reflexivity.
Qed.

Lemma cl_line_no_eol n : 0 <= n -> no_eol (cl_line n).
Proof.
  intros Hn. unfold cl_line. apply Forall_app. split.
  - refine (bool_decide_eq_true_1 _ _). vm_compute. reflexivity.
  - eapply Forall_impl; [exact (number_alnum 10 n ltac:(lia) Hn)|]. intros c Hc. unfold is_alnum in Hc.
    apply orb_true_iff in Hc as [Hc|Hc]; split_bools; to_prop; lia.
Qed.

(** What the rewriting loop keeps. *)
Lemma rebuild_spec te n ls e :
  let '(out, e') := rebuild te n ls e in
  List.filter (fun l => negb (is_cl_line l)) out = List.filter (fun l => negb (is_cl_line l)) ls /\
  List.filter is_cl_line out = (if te || e || negb (existsb is_cl_line ls) then [] else [cl_line n]) /\
  e' = e || (negb te && existsb is_cl_line ls).
Proof.
  revert e. induction ls as [|l ls IH]; intros e; cbn [rebuild].
  { cbn [existsb negb]. rewrite orb_true_r, andb_false_r, orb_false_r. done. }
  cbn [List.filter existsb]. destruct (is_cl_line l) eqn:El; cbn [negb orb].
  - destruct te; cbn [orb]; [|destruct e; cbn [orb]].
    + specialize (IH e). destruct (rebuild true n ls e). cbn [orb negb andb] in *. done.
    + specialize (IH true). destruct (rebuild false n ls true). cbn [orb negb andb] in *. done.
    + specialize (IH true). destruct (rebuild false n ls true) as [out e']. destruct IH as (H1 & H2 & H3).
      cbn [List.filter]. rewrite cl_line_is_cl. cbn [negb orb andb] in *. rewrite H2. done.
  - specialize (IH e). destruct (rebuild te n ls e) as [out e']. cbn [List.filter]. rewrite El. cbn [negb].
    destruct IH as (-> & -> & ->). done.
Qed.

Lemma existsb_chunked_filter ls :
  existsb is_chunked_line (List.filter (fun l => negb (is_cl_line l)) ls) = existsb is_chunked_line ls.
Proof.
  induction ls as [|l ls IH]; [done|]. cbn [List.filter existsb]. destruct (is_cl_line l) eqn:El; cbn [negb existsb].
  - rewrite IH. destruct (is_chunked_line l) eqn:Ec; [|done]. apply chunked_not_cl in Ec. congruence.
  - by rewrite IH.
Qed.

Definition has_chunked (ls : list bytes) : bool := existsb is_chunked_line ls.

(** The lines written: the other lines as they were, and at most one Content-Length. *)
Lemma normalized_lines_spec ls n :
  let out := normalized_lines ls n in
  List.filter (fun l => negb (is_cl_line l)) out = List.filter (fun l => negb (is_cl_line l)) ls /\
  List.filter is_cl_line out
  = (if negb (has_chunked ls) && (existsb is_cl_line ls || (0 <? n)) then [cl_line n] else []).
Proof.
  unfold normalized_lines. fold (has_chunked ls). pose proof (rebuild_spec (has_chunked ls) n ls false) as Hr.
  destruct (rebuild _ n ls false) as [out e]. destruct Hr as (H1 & H2 & ->). cbv zeta.
  rewrite !List.filter_app, H1, H2. cbn [orb]. rewrite orb_false_r.
  destruct (has_chunked ls), (existsb is_cl_line ls), (0 <? n); cbn [negb andb orb];
    cbn [List.filter]; rewrite ?cl_line_is_cl; cbn [negb List.filter]; by rewrite ?app_nil_r.
Qed.

Lemma rebuild_self te n ls e :
  Forall (fun l => is_cl_line l = true -> l = cl_line n) ls ->
  (length (List.filter is_cl_line ls) <= (if te || e then 0 else 1))%nat ->
  rebuild te n ls e = (ls, e || (negb te && existsb is_cl_line ls)).
Proof.
  intros Hf. revert e. induction Hf as [|l ls Hl Hf IH]; intros e Hn; cbn [rebuild].
  { cbn [existsb]. by rewrite andb_false_r, orb_false_r. }
  cbn [List.filter existsb] in *. destruct (is_cl_line l) eqn:El; cbn [orb].
  - destruct (te || e) eqn:Ete; cbn [length] in Hn; [lia|]. apply orb_false_iff in Ete as [-> ->].
    rewrite IH by (cbn [orb]; lia). by rewrite <- (Hl eq_refl).
  - by rewrite IH.
Qed.

Lemma normalized_lines_idem ls n : normalized_lines (normalized_lines ls n) n = normalized_lines ls n.
Proof.
  destruct (normalized_lines_spec ls n) as [H1 H2]. set (out := normalized_lines ls n) in *. cbv zeta in *.
  assert (Hte : has_chunked out = has_chunked ls).
  { unfold has_chunked. by rewrite <- (existsb_chunked_filter out), H1, existsb_chunked_filter. }
  assert (Hex : existsb is_cl_line out = negb (is_nil (List.filter is_cl_line out))).
  { clearbody out. clear. induction out as [|l out IH]; [done|]. cbn [existsb List.filter]. by destruct (is_cl_line l). }
  unfold normalized_lines at 1. fold (has_chunked out). rewrite Hte, rebuild_self.
  - rewrite Hex, H2. destruct (has_chunked ls), (existsb is_cl_line ls), (0 <? n); cbn; by rewrite app_nil_r.
  - apply List.Forall_forall. intros l Hl Hcl. assert (Hin : In l (List.filter is_cl_line out)) by (by apply filter_In).
    rewrite H2 in Hin. destruct (_ && _) in Hin; [by destruct Hin as [<-|[]]|done].
  - rewrite H2. destruct (has_chunked ls); cbn; [lia|]. destruct (_ || _); cbn; lia.
Qed.

(** ** Reading the rewritten head back *)

Definition crlf_line (l : bytes) : Line := mkLine l [13; 10].

Lemma write_lines_cons l ls : write_lines (l :: ls) = l ++ [13; 10] ++ write_lines ls.
Proof. unfold write_lines. cbn [flat_map]. by rewrite <- app_assoc. Qed.

Lemma write_lines_head ls : write_lines ls = head_bytes (map crlf_line ls).
Proof. induction ls as [|l ls IH]; [done|]. cbn [map]. by rewrite head_bytes_cons, write_lines_cons, IH. Qed.

Lemma last_start_crlf l ls :
  (last_start (map crlf_line (l :: ls)) + 2 = length (write_lines (l :: ls)))%nat.
Proof.
  unfold last_start. rewrite <- write_lines_head. change (map ?f ?l) with (f <$> l). rewrite fmap_last.
  assert (Hl : (2 <= length (write_lines (l :: ls)))%nat) by (rewrite write_lines_cons, !length_app; cbn; lia).
  destruct (last (l :: ls)) as [x|] eqn:E; [cbn [fmap option_fmap option_map crlf_line term length]; lia|]. by apply last_None in E.
Qed.

Lemma crlf_lines_ok ls : Forall no_eol ls -> Forall nonempty ls -> Forall line_ok (map crlf_line ls).
Proof.
  intros He Hn. induction He as [|l ls Hl He IH]; [constructor|]. apply Forall_cons in Hn as [Hl' Hn].
  cbn [map]. constructor; [|by apply IH]. split_and!; [done|done|by left].
Qed.

(** A written head is found again whole; only its first line may be empty. *)
Lemma findBlank_write ls body :
  Forall no_eol ls -> Forall nonempty (tail ls) -> ls <> [] -> ls <> [[]] ->
  exists sep, findBlank (write_lines ls ++ [13; 10] ++ body) = Some (sep, 4%nat) /\
    (sep + 2 = length (write_lines ls))%nat.
Proof.
  intros He Hn H0 H1. assert (Hcrlf : is_term [13; 10]) by by left.
  destruct ls as [|l ls]; [done|]. cbn [tail] in Hn. apply Forall_cons in He as [Hl He].
  assert (Hlast : forall l ls, match last (map crlf_line (l :: ls)) with Some x => length (term x) | None => 0%nat end = 2%nat).
  { intros x xs. change (map ?f ?k) with (f <$> k). rewrite fmap_last. destruct (last (x :: xs)) eqn:E; [done|].
    by apply last_None in E. }
  assert (Hblank : forall l ls fuel pre, Forall no_eol (l :: ls) -> Forall nonempty (l :: ls) ->
            (length (write_lines (l :: ls)) < fuel)%nat ->
            find_blank fuel (pre ++ write_lines (l :: ls) ++ [13; 10] ++ body) (length pre)
            = Some (length pre + (length (write_lines (l :: ls)) - 2), 4)%nat).
  { intros x xs fuel pre Hx1 Hx2 Hf. rewrite write_lines_head in Hf |- *. cbn [map] in Hf |- *.
    rewrite find_blank_head by (done || exact (crlf_lines_ok (x :: xs) Hx1 Hx2)).
    change (crlf_line x :: map crlf_line xs) with (map crlf_line (x :: xs)). rewrite Hlast.
    rewrite <- write_lines_head, <- last_start_crlf. do 2 f_equal. lia. }
  destruct l as [|c l].
  - destruct ls as [|l' ls]; [done|]. exists (2 + (length (write_lines (l' :: ls)) - 2))%nat. rewrite write_lines_cons.
    split; [|rewrite !length_app; pose proof (last_start_crlf l' ls); cbn [length]; lia].
    specialize (Hblank l' ls (S (S (length (write_lines (l' :: ls) ++ [13; 10] ++ body)))) [13; 10] He Hn).
    etransitivity; [|apply Hblank; rewrite !length_app; lia]. clear Hblank. unfold findBlank. cbn [app length].
    pose proof (find_blank_step (S (S (length (write_lines (l' :: ls) ++ 13 :: 10 :: body)))) []
                  [13; 10] (write_lines (l' :: ls) ++ 13 :: 10 :: body) Hcrlf) as Hs.
    cbn [app length Nat.add] in Hs. etransitivity; [exact Hs|].
    apply Forall_cons in He as [Hl' _]. apply Forall_cons in Hn as [Hne' _]. destruct l' as [|x l']; [done|].
    apply Forall_cons in Hl' as [[Hx1 Hx2] _]. rewrite write_lines_cons. cbn [app].
    by rewrite termLen_char.
  - exists (length (write_lines ((c :: l) :: ls)) - 2)%nat.
    split; [|pose proof (last_start_crlf (c :: l) ls); lia].
    apply (Hblank (c :: l) ls _ []); [by constructor|by constructor|]. rewrite !length_app. lia.
Qed.

Lemma chain_lines_content cur l r : no_eol l -> chain_lines cur (l ++ r) = chain_lines (cur ++ l) r.
Proof.
  intros Hl. revert cur. induction Hl as [|c l [H1 H2] _ IH]; intros cur; [by rewrite app_nil_r|].
  cbn [app chain_lines]. zdecide. zdecide. rewrite IH. by rewrite <- app_assoc.
Qed.

Lemma chain_lines_write ls :
  Forall no_eol ls -> Forall nonempty (tail ls) -> ls <> [[]] ->
  chain_lines [] (take (length (write_lines ls) - 2) (write_lines ls)) = ls.
Proof.
  intros He Hn H1. destruct ls as [|l ls]; [done|]. cbn [tail] in Hn.
  assert (G : forall ls l, Forall no_eol (l :: ls) -> Forall nonempty ls -> (ls = [] -> l <> []) ->
            chain_lines [] (take (length (write_lines (l :: ls)) - 2) (write_lines (l :: ls))) = l :: ls).
  { clear. induction ls as [|l' ls IH]; intros l He Hn Hl; apply Forall_cons in He as [He1 He].
    - rewrite write_lines_cons. cbn [write_lines flat_map]. rewrite app_nil_r, length_app. cbn [length].
      rewrite Nat.add_sub, take_app_length, <- (app_nil_r l) at 1. rewrite chain_lines_content by done. cbn [app chain_lines].
      specialize (Hl eq_refl). by destruct l.
    - apply Forall_cons in Hn as [Hn1 Hn]. rewrite (write_lines_cons l). rewrite !length_app. cbn [length].
      assert (Hlen : (2 <= length (write_lines (l' :: ls)))%nat) by (pose proof (last_start_crlf l' ls); lia).
      replace (length l + (2 + length (write_lines (l' :: ls))) - 2)%nat
        with (length l + (length [13%Z; 10%Z] + (length (write_lines (l' :: ls)) - 2)))%nat by (cbn [length]; lia).
      rewrite take_app_add, take_app_add, chain_lines_content by done.
      cbn [app]. cbn [chain_lines Z.eqb Pos.eqb]. f_equal. apply IH; [done|done|]. by intros ->. }
  apply G; [done|done|]. by intros -> ->.
Qed.

Lemma normalized_lines_in ls n l : In l (normalized_lines ls n) -> In l ls \/ l = cl_line n.
Proof.
  intros Hl. destruct (normalized_lines_spec ls n) as [H1 H2]. destruct (is_cl_line l) eqn:El.
  - right. assert (Hin : In l (List.filter is_cl_line (normalized_lines ls n))) by (by apply filter_In).
    rewrite H2 in Hin. destruct (_ && _) in Hin; [by destruct Hin as [<-|[]]|done].
  - left. assert (Hin : In l (List.filter (fun l => negb (is_cl_line l)) (normalized_lines ls n))).
    { apply filter_In. by rewrite El. }
    rewrite H1 in Hin. by apply filter_In in Hin as [Hin _].
Qed.

Lemma normalized_lines_forall (P : bytes -> Prop) ls n :
  Forall P ls -> P (cl_line n) -> Forall P (normalized_lines ls n).
Proof.
  intros Hf Hc. apply List.Forall_forall. intros l Hl. apply normalized_lines_in in Hl as [Hl| ->]; [|done].
  by eapply List.Forall_forall in Hf.
Qed.

Lemma normalized_lines_blank_first ls n : normalized_lines ([] :: ls) n = [] :: normalized_lines ls n.
Proof.
  unfold normalized_lines. cbn [existsb rebuild]. change (is_chunked_line []) with false. change (is_cl_line []) with false.
  cbn [orb]. by destruct (rebuild _ n ls false) as [out e].
Qed.

Lemma normalized_lines_not_nil ls n : ls <> [] -> normalized_lines ls n <> [].
Proof.
  intros Hl Hn. destruct (normalized_lines_spec ls n) as [H1 H2]. rewrite Hn in H1, H2. cbn [List.filter] in *.
  destruct ls as [|l ls]; [done|]. cbn [List.filter existsb] in *. destruct (is_cl_line l) eqn:El; cbn [negb] in *; [|done].
  cbn [orb] in H2. destruct (has_chunked (l :: ls)) eqn:Ec; [|done]. unfold has_chunked in Ec.
  rewrite <- existsb_chunked_filter in Ec. cbn [List.filter] in Ec. rewrite El in Ec. cbn [negb] in Ec.
  by rewrite <- H1 in Ec.
Qed.

(** The lines of a rewritten head are in a form the scan finds again. *)
Lemma normalized_head_ok req sep n k :
  findBlank req = Some (sep, n) -> 0 <= k ->
  let out := normalized_lines (chain_lines [] (take sep req)) k in
  Forall no_eol out /\ Forall nonempty (tail out) /\ out <> [[]].
Proof.
  intros Hb Hk. destruct (find_blank_lines _ _ _ _ _ [] Hb) as (_ & _ & Ht & _ & Hne).
  rewrite Nat.sub_0_r in *. change (mid req 0 sep) with (take sep req) in *. cbv zeta.
  set (L := chain_lines [] (take sep req)) in *.
  assert (He : Forall no_eol L) by (apply chain_lines_no_eol; constructor). clearbody L.
  assert (Hc : nonempty (cl_line k)) by done.
  split; [apply normalized_lines_forall; [done|by apply cl_line_no_eol]|].
  destruct L as [|l L]; [|destruct l as [|c l]]; cbn [tail] in Ht.
  - assert (Hf : Forall nonempty (normalized_lines [] k)) by by apply normalized_lines_forall.
    destruct (normalized_lines [] k) as [|x xs]; [split; [apply Forall_nil_2|done]|]. apply Forall_cons in Hf as [Hx Hf].
    split; [done|]. by intros [= ->].
  - rewrite normalized_lines_blank_first. cbn [tail]. split; [by apply normalized_lines_forall|].
    intros [= E]. revert E. apply normalized_lines_not_nil. by intros ->.
  - assert (Hf : Forall nonempty (normalized_lines ((c :: l) :: L) k)) by (apply normalized_lines_forall; [apply Forall_cons; split; [discriminate|done]|done]).
    destruct (normalized_lines _ _) as [|x xs]; [split; [apply Forall_nil_2|done]|]. apply Forall_cons in Hf as [Hx Hf].
    split; [done|]. by intros [= ->].
Qed.

(** C28. What a chain step puts on the wire is framed once.  For any request of less than
    2 GiB with a head and a body, however its lines end, the rewritten request is a head of CRLF lines, a
    blank line and the same body bytes; every line that is not a Content-Length is
    kept in order; Content-Length is absent when a Transfer-Encoding names chunked and
    otherwise occurs at most once, with the exact size of the body; the blank line is
    found again where it was written, and rewriting a result of less than 2 GiB again
    changes nothing.  From 2 GiB on the size is kept in an [int] that it does not fit
    ([huge_body_length]). *)
Theorem normalizeContentLength_framing req sep n :
  findBlank req = Some (sep, n) -> zlen req < 2 ^ 31 ->
  let body := drop (sep + n) req in
  let lines := chain_lines [] (take sep req) in
  (exists out,
    normalizeContentLength req = write_lines out ++ [13; 10] ++ body /\
    List.filter (fun l => negb (is_cl_line l)) out = List.filter (fun l => negb (is_cl_line l)) lines /\
    List.filter is_cl_line out
    = (if negb (has_chunked lines) && (existsb is_cl_line lines || (0 <? zlen body)) then [cl_line (zlen body)] else []) /\
    (out <> [] -> exists sep', findBlank (normalizeContentLength req) = Some (sep', 4%nat) /\
                   (sep' + 2 = length (write_lines out))%nat)) /\
  (zlen (normalizeContentLength req) < 2 ^ 31 -> normalizeContentLength (normalizeContentLength req) = normalizeContentLength req).
Proof.
  intros Hb Hlt. cbv zeta. set (body := drop (sep + n) req). set (lines := chain_lines [] (take sep req)).
  assert (Hw : s32 (zlen body) = zlen body).
  { apply s32_small. pose proof (zlen_nonneg body). unfold body, zlen in *. rewrite length_drop in *. lia. }
  assert (Heq : normalizeContentLength req = write_lines (normalized_lines lines (zlen body)) ++ [13; 10] ++ body).
  { unfold normalizeContentLength. rewrite Hb. cbv zeta. fold body lines. by rewrite Hw. }
  destruct (normalized_head_ok req sep n (zlen body) Hb (zlen_nonneg _)) as (He & Hn & H1). fold lines in He, Hn, H1.
  destruct (normalized_lines_spec lines (zlen body)) as [S1 S2].
  pose proof (normalized_lines_idem lines (zlen body)) as Hid.
  set (out := normalized_lines lines (zlen body)) in *. rewrite Heq. split.
  - exists out. split_and!; [done..|]. intros H0. by apply findBlank_write.
  - intros _. destruct (decide (out = [])) as [H0|H0].
    + rewrite H0. unfold out in H0. assert (Hl : lines = []).
      { destruct lines; [done|]. by apply normalized_lines_not_nil in H0. }
      rewrite Hl in H0. destruct body as [|x body]; [reflexivity|]. exfalso. revert H0. unfold normalized_lines.
      cbn [rebuild existsb negb andb app]. rewrite zlen_cons. pose proof (zlen_nonneg body). zdecide. done.
    + destruct (findBlank_write out body He Hn H0 H1) as (sep' & Hb' & Hs).
      unfold normalizeContentLength. rewrite Hb'.
      assert (Hd : drop (sep' + 4) (write_lines out ++ [13; 10] ++ body) = body).
      { replace (sep' + 4)%nat with (length (write_lines out) + length [13%Z; 10%Z])%nat by (cbn [length]; lia).
        by rewrite drop_app_add, drop_app_length. }
      cbv zeta. rewrite Hd, Hw. rewrite take_app_le by lia.
      replace sep' with (length (write_lines out) - 2)%nat by lia. rewrite chain_lines_write by done.
      by rewrite Hid.
Qed.

(** ** Extracted values cannot add a line *)

(** A byte or unit that ends or hides a line: the C0 controls but HTAB. *)
Definition is_ctrl (c : Z) : bool := (c <? 32) && negb (c =? 9).
Definition clean (s : list Z) : Prop := Forall (fun c => is_ctrl c = false) s.
Definition clean_bag (vars : gmap qstr (list Z)) : Prop := map_Forall (fun _ v => clean v) vars.

(** UTF-8 is a sequence of bytes, and uses bytes below 128 for ASCII only; a lone
    surrogate is written '?'. *)
Class QtUtf8 (Q : QtText) : Prop := {
  law_toutf8_bytes s : wf_bytes (u_toutf8 s);
  law_toutf8_low s b : b ∈ u_toutf8 s -> b < 128 -> b ∈ s \/ b = 63
}.
#[export] Instance asciiText_utf8 : QtUtf8 asciiText.
Proof.
  split.
  - intros s. apply List.Forall_forall. intros b Hb. apply in_map_iff in Hb as (c & <- & _). unfold is_byte.
    destruct (_ && _) eqn:E; [|lia]. split_bools. to_prop. lia.
  - intros s b Hb _. apply list_elem_of_In, in_map_iff in Hb as (c & <- & Hc).
    destruct (_ && _); [left; by apply list_elem_of_In|by right].
Qed.

Lemma filter_clean s : clean s -> List.filter is_ctrl s = [].
Proof. induction 1 as [|c s Hc _ IH]; [done|]. cbn [List.filter]. by rewrite Hc. Qed.

Lemma sanitize_clean v : clean (sanitizeExtractedValue v).
Proof.
  apply List.Forall_forall. intros c Hc. apply filter_In in Hc as [_ Hc]. unfold is_ctrl.
  apply orb_true_iff in Hc as [Hc|Hc]; to_prop; [by zdecide|]. subst c. done.
Qed.

Lemma clean_utf8 `{QtUtf8} s : clean s -> clean (u_toutf8 s).
Proof.
  intros Hs. apply Forall_forall. intros b Hb. unfold is_ctrl. destruct (b <? 32) eqn:E; [|done]. to_prop.
  destruct (law_toutf8_low s b Hb) as [Hin| ->]; [lia| |lia]. unfold clean in Hs. rewrite Forall_forall in Hs.
  specialize (Hs b Hin). unfold is_ctrl in Hs. revert Hs. by zdecide.
Qed.

Lemma ident_not_ctrl c : ident_char c = true -> is_ctrl c = false.
Proof.
  unfold ident_char, ident_start, is_letter, is_digit, is_ctrl. intros Hc.
  apply andb_false_iff. left. apply Z.ltb_ge. repeat (apply orb_true_iff in Hc as [Hc|Hc]); split_bools; to_prop; lia.
Qed.

Lemma placeholder_clean name : Forall (fun c => ident_char c = true) name -> clean (placeholder name).
Proof.
  intros Hn. unfold placeholder, clean. rewrite !Forall_app. split_and!; [by repeat constructor| |by repeat constructor].
  eapply Forall_impl; [exact Hn|]. apply ident_not_ctrl.
Qed.

(** Expansion keeps the sequence of control bytes of the template. *)
Lemma expand_ctrl vars : clean_bag vars -> forall s n,
  List.filter is_ctrl (expand vars n s) = List.filter is_ctrl (drop n s).
Proof.
  intros Hv. induction s as [|c s IH]; intros n; [by destruct n|]. destruct n as [|n]; cbn [expand drop]; [|apply IH].
  destruct (placeholder_at (c :: s)) as [name|] eqn:E; [|cbn [List.filter]; by rewrite IH, drop_0].
  destruct (placeholder_at_some _ _ E) as [Ht Hn]. pose proof (placeholder_clean _ Hn) as Hp.
  rewrite List.filter_app, IH, filter_clean.
  - rewrite Ht, List.filter_app, (filter_clean _ Hp). unfold placeholder_len.
    by replace (length name + 4)%nat with (S (length name + 3)) by lia.
  - destruct (vars !! name) as [v|] eqn:Ev; [exact (Hv _ _ Ev)|exact Hp].
Qed.

Section RunSafety.
Context `{QtUtf8, QtJson, QtCapture}.

Lemma extract_vars_clean resp es bag : clean_bag bag -> clean_bag (snd (extract_vars resp es bag)).
Proof.
  unfold extract_vars. generalize (∅ : gmap qstr qstr) as ex. revert bag.
  induction es as [|e es IH]; intros bag ex Hb; [done|]. cbn [fold_left].
  destruct (is_nil (ex_var e)); [by apply IH|]. cbn [fst snd]. apply IH.
  destruct (is_nil _); [done|]. apply map_Forall_insert_2; [apply sanitize_clean|done].
Qed.

(** The control bytes of what is sent are those of the step's template, in order, up to
    the rewriting of Content-Length. *)
Definition adds_no_line (step : Step) (snt : Sent) : Prop :=
  (exists raw, sn_request snt = normalizeContentLength raw /\
     List.filter is_ctrl raw = List.filter is_ctrl (st_request step)) /\
  List.filter is_ctrl (sn_host snt) = List.filter is_ctrl (st_host step).

Lemma prepare_safe step vars : clean_bag vars -> adds_no_line step (prepare step vars).
Proof.
  intros Hv. split.
  - exists (substituteBytes (st_request step) vars). split; [done|]. rewrite substituteBytes_expand, expand_ctrl; [by rewrite drop_0|].
    apply map_Forall_fmap. intros k v Hk. apply clean_utf8. exact (Hv _ _ Hk).
  - cbn [prepare sn_host]. unfold substituteStr. by rewrite substitute_expand, expand_ctrl, drop_0.
Qed.

(** What a run from exchange [i] on guarantees. *)
Definition run_ok (cont : bool) (net : nat -> SendResult) (i : nat) (steps : list Step)
    (r : list StepResult * gmap qstr qstr * list Sent) : Prop :=
  let '(rs, vars, sent) := r in
  clean_bag vars /\ length rs = length sent /\
  Forall2 adds_no_line (take (length sent) steps) sent /\
  (forall j, (S j < length sent)%nat -> cont = true \/ sd_ok (net (i + j)%nat) = true) /\
  ((length sent < length steps)%nat ->
     sent <> [] /\ cont = false /\ sd_ok (net (i + length sent - 1)%nat) = false).

Lemma run_ok_cons cont net i step steps sr snt rs vars sent :
  run_ok cont net (S i) steps (rs, vars, sent) -> adds_no_line step snt -> cont = true \/ sd_ok (net i) = true ->
  run_ok cont net i (step :: steps) (sr :: rs, vars, snt :: sent).
Proof.
  intros (I1 & I2 & I3 & I4 & I5) Hs Hok. cbn [run_ok length take].
  split_and!; [done|by rewrite I2|by constructor| |].
  - intros [|j] Hj; [by rewrite Nat.add_0_r|]. specialize (I4 j ltac:(lia)). by rewrite Nat.add_succ_comm in I4.
  - intros Hl. destruct (I5 ltac:(lia)) as (Hne & Hc & Hf). split_and!; [done|done|].
    destruct sent as [|x sent]; [done|]. cbn [length] in *.
    by replace (i + S (S (length sent)) - 1)%nat with (S i + S (length sent) - 1)%nat by lia.
Qed.

Lemma run_steps_ok cont net steps : forall i vars, clean_bag vars -> run_ok cont net i steps (run_steps cont net i steps vars).
Proof.
  induction steps as [|step steps IH]; intros i vars Hv; cbn [run_steps].
  { cbn [run_ok length take]. split_and!; [done|done|constructor|lia|lia]. }
  pose proof (prepare_safe step vars Hv) as Hp. destruct (sd_ok (net i)) eqn:Eok; cbn [negb].
  - pose proof (extract_vars_clean (sd_parsed (net i)) (st_extracts step) vars Hv) as Hev.
    destruct (extract_vars _ _ vars) as [exd v1]. cbn [snd] in Hev. specialize (IH (S i) v1 Hev).
    destruct (run_steps cont net (S i) steps v1) as [[rs v2] out]. apply run_ok_cons; auto.
  - destruct cont.
    + specialize (IH (S i) vars Hv). destruct (run_steps true net (S i) steps vars) as [[rs v2] out].
      apply run_ok_cons; auto.
    + cbn [run_ok length take]. rewrite take_0. split_and!; [done|done|apply Forall2_cons; split; [exact Hp|constructor]|lia|].
      intros _. split_and!; [done|done|]. by replace (i + 1 - 1)%nat with i by lia.
Qed.
End RunSafety.

(** A target cannot split the next request.  Whatever the responses are, each
    request a chain puts on the wire is the Content-Length rewriting of bytes whose
    control characters (HTAB apart) are exactly those of the step's own template, and
    the same holds of its host: no extracted value adds a CR, LF or NUL.  Steps are
    tried in order, one result each; without [continueOnError] the chain stops
    exactly at the first failed exchange. *)
Theorem chain_requests_no_split `{QtUtf8, QtJson, QtCapture} steps cont net :
  run_ok cont net 0 steps (run steps cont net).
Proof. apply run_steps_ok, map_Forall_empty. Qed.

(** ** Witnesses *)

Definition noJson : QtJson := {| json_parse _ := None; json_compact _ := []; number_g17 _ := [] |}.
Definition noCapture : QtCapture := {| rc_valid _ := true; rc_match _ _ := None |}.

Section Examples.
#[local] Existing Instance asciiText.
#[local] Existing Instance noJson.
#[local] Existing Instance noCapture.

(** Every segment of Set-Cookie is looked at, so an attribute is returned as a cookie. *)
Theorem chain_cookie_attribute :
  findCookieValue (lit "sid=1; Path=/admin") (lit "path") = lit "/admin".
Proof. vm_compute. reflexivity. Qed.

Definition ex_post : bytes :=
  lit "POST /a HTTP/1.1" ++ [13; 10] ++ lit "Content-Length: 9" ++ [10] ++ lit "content-length: 8" ++ [10; 10] ++ lit "x=1".

(** Defect: the size of the body is kept in an [int], so a body of 2 GiB is announced with
    a negative length. *)
Lemma huge_body_length body : zlen body = 2 ^ 31 ->
  let head n := write_lines [lit "POST / HTTP/1.1"; lit "Content-Length: " ++ lit n] in
  normalizeContentLength (head "5"%string ++ [13; 10] ++ body) = head "-2147483648"%string ++ [13; 10] ++ body.
Proof.
  intros Hz. cbv beta zeta. set (out := [lit "POST / HTTP/1.1"; lit "Content-Length: " ++ lit "5"]).
  assert (He : Forall no_eol out) by (vm_compute; repeat first [apply List.Forall_nil | apply List.Forall_cons | split]; discriminate).
  assert (Hn : Forall nonempty (tail out)) by (apply Forall_cons; split; [done|constructor]).
  destruct (findBlank_write out body He Hn ltac:(done) ltac:(done)) as (sep & Hb & Hs).
  unfold normalizeContentLength. rewrite Hb. cbv zeta.
  assert (Hd : drop (sep + 4) (write_lines out ++ [13; 10] ++ body) = body).
  { replace (sep + 4)%nat with (length (write_lines out) + length [13%Z; 10%Z])%nat by (cbn [length]; lia).
    by rewrite drop_app_add, drop_app_length. }
  rewrite Hd, Hz, take_app_le by lia. replace sep with (length (write_lines out) - 2)%nat by lia. by rewrite chain_lines_write.
Qed.

Lemma normalizeContentLength_framing_witness :
  findBlank ex_post = Some (53%nat, 2%nat) /\
  normalizeContentLength ex_post
  = lit "POST /a HTTP/1.1" ++ [13; 10] ++ lit "Content-Length: 3" ++ [13; 10; 13; 10] ++ lit "x=1" /\
  normalizeContentLength (normalizeContentLength ex_post) = normalizeContentLength ex_post.
Proof.
  assert (Hb : findBlank ex_post = Some (53%nat, 2%nat)) by (vm_compute; reflexivity).
  split; [exact Hb|]. split; [vm_compute; reflexivity|].
  apply (proj2 (normalizeContentLength_framing ex_post 53 2 Hb ltac:(vm_compute; reflexivity))). vm_compute. reflexivity.
Defined.

Definition ex_steps : list Step :=
  [mkStep (lit "login") (lit "h") 443 true (lit "GET / HTTP/1.1" ++ [13; 10; 13; 10]) [mkExtract (lit "tok") Header (lit "X-T")];
   mkStep (lit "use") (lit "h") 443 true (lit "GET /{{tok}} HTTP/1.1" ++ [13; 10; 13; 10]) []].
Definition ex_net (i : nat) : SendResult :=
  mkSend true [] (mkResponse (lit "HTTP/1.1") 200 (lit "OK") [(lit "X-T", lit "a" ++ [13; 10] ++ lit "Evil:1")] [] [] false) [] 0.

Lemma chain_requests_no_split_witness :
  run_ok false ex_net 0 ex_steps (run ex_steps false ex_net) /\
  map sn_request (snd (run ex_steps false ex_net))
  = [lit "GET / HTTP/1.1" ++ [13; 10; 13; 10]; lit "GET /aEvil:1 HTTP/1.1" ++ [13; 10; 13; 10]].
Proof. split; [apply (chain_requests_no_split ex_steps false ex_net)|vm_compute; reflexivity]. Defined.
End Examples.
