(* ===== verification/Utf8.v ===== *)
(** * UTF-16 text and its UTF-8 form

    [wf_utf16] says which strings of units are text (every surrogate in a pair);
    [QtUtf8Text] is the law that such text survives [toUtf8] and [fromUtf8].  The
    instance [utf8Text] is the UTF-8 codec itself on top of the ASCII functions of
    [asciiText]; the witnesses that need text beyond ASCII are evaluated on it. *)

From S2P Require Import Prelude Qt QtSample ChainRunner.

Local Open Scope Z_scope.

Definition is_high (u : Z) : bool := (55296 <=? u) && (u <? 56320).
Definition is_low (u : Z) : bool := (56320 <=? u) && (u <? 57344).

(** Units in range, surrogates in pairs only. *)
Fixpoint wf_utf16 (s : qstr) : bool :=
  match s with
  | [] => true
  | u :: s' =>
      if is_high u then match s' with v :: s'' => is_low v && wf_utf16 s'' | [] => false end
      else negb (is_low u) && (0 <=? u) && (u <? 65536) && wf_utf16 s'
  end.

Class QtUtf8Text (Q : QtText) : Prop := {
  law_utf8_text s : wf_utf16 s = true -> u_fromutf8 (u_toutf8 s) = s
}.

(** ** The codec *)

Definition utf8_2 (c : Z) : bytes := [192 + c / 64; 128 + c mod 64].
Definition utf8_3 (c : Z) : bytes := [224 + c / 4096; 128 + c / 64 mod 64; 128 + c mod 64].
Definition utf8_4 (c : Z) : bytes :=
  [240 + c / 262144; 128 + c / 4096 mod 64; 128 + c / 64 mod 64; 128 + c mod 64].
Definition pair_value (u v : Z) : Z := 65536 + (u - 55296) * 1024 + (v - 56320).

Fixpoint utf8_encode (s : qstr) : bytes :=
  match s with
  | [] => []
  | u :: s' =>
      if is_high u then
        match s' with
        | v :: s'' => if is_low v then utf8_4 (pair_value u v) ++ utf8_encode s'' else 63 :: utf8_encode s'
        | [] => [63]
        end
      else if is_low u || negb ((0 <=? u) && (u <? 65536)) then 63 :: utf8_encode s'
      else if u <? 128 then u :: utf8_encode s'
      else if u <? 2048 then utf8_2 u ++ utf8_encode s'
      else utf8_3 u ++ utf8_encode s'
  end.

Definition pair_units (c : Z) : qstr := [55296 + (c - 65536) / 1024; 56320 + (c - 65536) mod 1024].

(** An octet that starts no sequence reads as U+FFFD. *)
Fixpoint utf8_decode (b : bytes) : qstr :=
  match b with
  | [] => []
  | x :: r =>
      if x <? 128 then x :: utf8_decode r
      else if (192 <=? x) && (x <? 224) then
        match r with y :: r' => ((x - 192) * 64 + (y - 128)) :: utf8_decode r' | [] => [65533] end
      else if (224 <=? x) && (x <? 240) then
        match r with
        | y :: z :: r' => ((x - 224) * 4096 + (y - 128) * 64 + (z - 128)) :: utf8_decode r'
        | _ => [65533]
        end
      else if (240 <=? x) && (x <? 248) then
        match r with
        | y :: z :: w :: r' =>
            pair_units ((x - 240) * 262144 + (y - 128) * 4096 + (z - 128) * 64 + (w - 128)) ++ utf8_decode r'
        | _ => [65533]
        end
      else 65533 :: utf8_decode r
  end.

Ltac unfold_units :=
  unfold is_high, is_low, is_byte in *; split_bools; to_prop.

Lemma utf8_decode_2 c r : 128 <= c < 2048 -> utf8_decode (utf8_2 c ++ r) = c :: utf8_decode r.
Proof.
  intros Hc. unfold utf8_2. cbn [app utf8_decode].
  pose proof (Z.div_mod c 64 ltac:(lia)). pose proof (Z.mod_pos_bound c 64 ltac:(lia)).
  zdecides. f_equal. lia.
Qed.

Lemma utf8_decode_3 c r : 2048 <= c < 65536 -> utf8_decode (utf8_3 c ++ r) = c :: utf8_decode r.
Proof.
  intros Hc. unfold utf8_3. cbn [app utf8_decode].
  pose proof (Z.div_mod c 64 ltac:(lia)). pose proof (Z.mod_pos_bound c 64 ltac:(lia)).
  pose proof (Z.div_mod (c / 64) 64 ltac:(lia)). pose proof (Z.mod_pos_bound (c / 64) 64 ltac:(lia)).
  replace (c / 4096) with (c / 64 / 64) by (rewrite Z.div_div by lia; done).
  zdecides. f_equal. lia.
Qed.

Lemma utf8_decode_4 u v r :
  is_high u = true -> is_low v = true -> utf8_decode (utf8_4 (pair_value u v) ++ r) = u :: v :: utf8_decode r.
Proof.
  intros Hu Hv. unfold_units. unfold utf8_4. set (c := pair_value u v).
  assert (Hc : 65536 <= c < 1114112) by (unfold c, pair_value; lia).
  pose proof (Z.div_mod c 64 ltac:(lia)). pose proof (Z.mod_pos_bound c 64 ltac:(lia)).
  pose proof (Z.div_mod (c / 64) 64 ltac:(lia)). pose proof (Z.mod_pos_bound (c / 64) 64 ltac:(lia)).
  pose proof (Z.div_mod (c / 64 / 64) 64 ltac:(lia)). pose proof (Z.mod_pos_bound (c / 64 / 64) 64 ltac:(lia)).
  replace (c / 262144) with (c / 64 / 64 / 64) by (rewrite !Z.div_div by lia; done).
  replace (c / 4096) with (c / 64 / 64) by (rewrite Z.div_div by lia; done).
  cbn [app utf8_decode]. zdecides.
  replace (_ * 262144 + _ + _ + _) with c by lia.
  unfold pair_units. cbn [app]. unfold c, pair_value.
  replace (65536 + (u - 55296) * 1024 + (v - 56320) - 65536) with ((v - 56320) + (u - 55296) * 1024) by lia.
  rewrite Z.div_add, Z.mod_add, Z.div_small, Z.mod_small by lia. repeat f_equal; lia.
Qed.

Lemma utf8_roundtrip_len n s : (length s <= n)%nat -> wf_utf16 s = true -> utf8_decode (utf8_encode s) = s.
Proof.
  revert s. induction n as [|n IH]; intros [|u s] Hn Hw; cbn [length] in Hn; try lia; try done.
  cbn [wf_utf16] in Hw. cbn [utf8_encode]. destruct (is_high u) eqn:Eh.
  - destruct s as [|v s]; [done|]. apply andb_true_iff in Hw as [Hv Hw]. rewrite Hv. cbn [length] in Hn.
    rewrite utf8_decode_4, IH by (done || lia). done.
  - split_bools. to_prop. replace (is_low u) with false by (symmetry; assumption). zdecides.
    assert (Hs : utf8_decode (utf8_encode s) = s) by (apply IH; [lia|done]).
    destruct (u <? 128) eqn:E1; [|destruct (u <? 2048) eqn:E2]; to_prop.
    + cbn [utf8_decode]. zdecides. by rewrite Hs.
    + rewrite utf8_decode_2, Hs by lia. done.
    + rewrite utf8_decode_3, Hs by lia. done.
Qed.

(** ** The instance *)

Lemma utf8_encode_ascii s : all_ascii s = true -> utf8_encode s = s.
Proof.
  induction s as [|c s IH]; intros H; [done|]. cbn [all_ascii forallb] in H.
  apply andb_true_iff in H as [Hc H]. unfold is_ascii in Hc. split_bools. to_prop.
  cbn [utf8_encode]. unfold is_high, is_low. zdecides. by rewrite IH.
Qed.

Lemma utf8_decode_ascii s : all_ascii s = true -> utf8_decode s = s.
Proof.
  induction s as [|c s IH]; intros H; [done|]. cbn [all_ascii forallb] in H.
  apply andb_true_iff in H as [Hc H]. unfold is_ascii in Hc. split_bools. to_prop.
  cbn [utf8_decode]. zdecide. by rewrite IH.
Qed.

(** Every octet of the encoding is one, and below 128 only for itself. *)
Definition octet_of (s : qstr) (b : Z) : Prop := is_byte b /\ (b < 128 -> b ∈ s \/ b = 63).

Lemma utf8_encode_octets_len n s : (length s <= n)%nat -> Forall (octet_of s) (utf8_encode s).
Proof.
  revert s. induction n as [|n IH]; intros [|u s] Hn; cbn [length] in Hn; try lia; try by constructor.
  assert (Hw : forall t, (length t <= n)%nat -> (forall x, x ∈ t -> x ∈ u :: s) -> Forall (octet_of (u :: s)) (utf8_encode t)).
  { intros t Ht Hin. eapply Forall_impl; [by apply IH|]. intros b [Hb Hl]. split; [done|]. intros Hlt.
    destruct (Hl Hlt); [left; by apply Hin|by right]. }
  assert (Hq : octet_of (u :: s) 63) by (split; [unfold is_byte; lia|by right]).
  assert (Hbig : forall b, 128 <= b < 256 -> octet_of (u :: s) b) by (intros b ?; split; [unfold is_byte; lia|lia]).
  cbn [utf8_encode]. destruct (is_high u) eqn:Eh.
  - destruct s as [|v s]; [by constructor|]. cbn [length] in Hn. destruct (is_low v) eqn:Ev.
    + apply Forall_app. split; [|apply Hw; [lia|intros x Hx; by do 2 right]].
      unfold_units. set (c := pair_value u v). assert (65536 <= c < 1114112) by (unfold c, pair_value; lia).
      pose proof (Z.mod_pos_bound (c / 4096) 64 ltac:(lia)). pose proof (Z.mod_pos_bound (c / 64) 64 ltac:(lia)).
      pose proof (Z.mod_pos_bound c 64 ltac:(lia)).
      pose proof (Z.div_le_mono c 1114111 262144 ltac:(lia) ltac:(lia)).
      pose proof (Z.div_pos c 262144 ltac:(lia) ltac:(lia)). change (1114111 / 262144) with 4 in *.
      unfold utf8_4, utf8_3, utf8_2; repeat (apply List.Forall_cons; [apply Hbig; lia|]); by constructor.
    + constructor; [done|]. apply Hw; [simpl; lia|intros x Hx; by right].
  - assert (Hs : Forall (octet_of (u :: s)) (utf8_encode s)) by (apply Hw; [lia|intros x Hx; by right]).
    destruct (is_low u || _) eqn:El; [by constructor|]. apply orb_false_iff in El as [_ El].
    rewrite negb_false_iff in El. split_bools. to_prop.
    destruct (u <? 128) eqn:E1; [|destruct (u <? 2048) eqn:E2]; to_prop.
    + constructor; [|done]. split; [unfold is_byte; lia|]. intros _. left. left.
    + apply Forall_app. split; [|done]. pose proof (Z.mod_pos_bound u 64 ltac:(lia)).
      pose proof (Z.div_le_mono u 2047 64 ltac:(lia) ltac:(lia)). pose proof (Z.div_pos u 64 ltac:(lia) ltac:(lia)).
      change (2047 / 64) with 31 in *. unfold utf8_4, utf8_3, utf8_2; repeat (apply List.Forall_cons; [apply Hbig; lia|]); by constructor.
    + apply Forall_app. split; [|done]. pose proof (Z.mod_pos_bound u 64 ltac:(lia)).
      pose proof (Z.mod_pos_bound (u / 64) 64 ltac:(lia)).
      pose proof (Z.div_le_mono u 65535 4096 ltac:(lia) ltac:(lia)). pose proof (Z.div_pos u 4096 ltac:(lia) ltac:(lia)).
      change (65535 / 4096) with 15 in *. unfold utf8_4, utf8_3, utf8_2; repeat (apply List.Forall_cons; [apply Hbig; lia|]); by constructor.
Qed.

Lemma utf8_encode_octets s : Forall (octet_of s) (utf8_encode s).
Proof. by eapply utf8_encode_octets_len. Qed.

Definition utf8Text : QtText := {|
  u_space := b_space;
  u_lower := map ascii_lower1;
  u_upper := map ascii_upper1;
  u_cieq := lower_eq;
  u_contains_ci hay p := contains_sub (map ascii_lower1 p) (map ascii_lower1 hay);
  u_starts_ci s p := starts_with (map ascii_lower1 p) (map ascii_lower1 s);
  u_toutf8 := utf8_encode;
  u_fromutf8 := utf8_decode;
  u_tolatin1 := map (fun c => if c <? 256 then c else 63);
  u_tolonglong := sample_tolonglong
|}.

#[export] Instance utf8Text_laws : QtTextLaws utf8Text.
Proof.
  destruct asciiText_laws. split; try done; [apply utf8_encode_ascii|apply utf8_decode_ascii].
Qed.

#[export] Instance utf8Text_utf8 : QtUtf8 utf8Text.
Proof.
  split.
  - intros s. eapply Forall_impl; [apply utf8_encode_octets|]. by intros b [].
  - intros s b Hb. pose proof (utf8_encode_octets s) as Ho. rewrite Forall_forall in Ho. by apply Ho.
Qed.

#[export] Instance utf8Text_text : QtUtf8Text utf8Text.
Proof. split. intros s. by eapply utf8_roundtrip_len. Qed.

(** ** Code points *)

Class QtUcs4 := {
  u_toucs4 : qstr -> list Z;          (* QString::toUcs4 *)
  u_fromucs4 : Z -> qstr;             (* QString::fromUcs4 of one code point *)
}.

(** A code point that text can hold. *)
Definition valid_cp (cp : Z) : Prop := 0 <= cp < 55296 \/ 57344 <= cp < 1114112.

(** Text is the concatenation of its code points, and so is its UTF-8 form. *)
Class QtUcs4Laws (Q : QtText) (U : QtUcs4) : Prop := {
  law_ucs4_text s : wf_utf16 s = true -> flat_map u_fromucs4 (u_toucs4 s) = s /\ Forall valid_cp (u_toucs4 s);
  law_ucs4_points cps : Forall valid_cp cps -> u_toucs4 (flat_map u_fromucs4 cps) = cps /\ wf_utf16 (flat_map u_fromucs4 cps) = true;
  law_ucs4_units cp : valid_cp cp -> u_fromucs4 cp = if cp <? 65536 then [cp] else pair_units cp;
  law_ucs4_utf8 cps : Forall valid_cp cps -> u_toutf8 (flat_map u_fromucs4 cps) = flat_map (fun cp => u_toutf8 (u_fromucs4 cp)) cps
}.

Fixpoint to_points (s : qstr) : list Z :=
  match s with
  | [] => []
  | u :: s' =>
      if is_high u then match s' with v :: s'' => pair_value u v :: to_points s'' | [] => [65533] end
      else u :: to_points s'
  end.
Definition sampleUcs4 : QtUcs4 := {| u_toucs4 := to_points; u_fromucs4 cp := if cp <? 65536 then [cp] else pair_units cp |}.

Lemma pair_units_value u v : is_high u = true -> is_low v = true -> 65536 <= pair_value u v < 1114112 /\ pair_units (pair_value u v) = [u; v].
Proof.
  intros Hu Hv. unfold_units. unfold pair_units, pair_value. split; [lia|].
  replace (65536 + (u - 55296) * 1024 + (v - 56320) - 65536) with ((v - 56320) + (u - 55296) * 1024) by lia.
  rewrite Z.div_add, Z.mod_add, Z.div_small, Z.mod_small by lia. repeat f_equal; lia.
Qed.

Lemma pair_value_units cp : 65536 <= cp < 1114112 ->
  exists u v, pair_units cp = [u; v] /\ is_high u = true /\ is_low v = true /\ pair_value u v = cp.
Proof.
  intros Hc. exists (55296 + (cp - 65536) / 1024), (56320 + (cp - 65536) mod 1024). split; [done|].
  pose proof (Z.div_mod (cp - 65536) 1024 ltac:(lia)). pose proof (Z.mod_pos_bound (cp - 65536) 1024 ltac:(lia)).
  unfold is_high, is_low, pair_value. zdecides. split_and!; [done..|lia].
Qed.

Lemma to_points_len n s : (length s <= n)%nat -> wf_utf16 s = true ->
  flat_map (u_fromucs4 (QtUcs4 := sampleUcs4)) (to_points s) = s /\ Forall valid_cp (to_points s).
Proof.
  revert s. induction n as [|n IH]; intros [|u s] Hn Hw; cbn [length] in Hn; try lia; try (split; [done|by constructor]).
  cbn [wf_utf16 to_points] in *. destruct (is_high u) eqn:Eh.
  - destruct s as [|v s]; [done|]. apply andb_true_iff in Hw as [Hv Hw]. cbn [length] in Hn.
    destruct (IH s ltac:(lia) Hw) as [IH1 IH2]. destruct (pair_units_value u v Eh Hv) as [Hr Hp]. cbn [flat_map]. split.
    + cbn [u_fromucs4 sampleUcs4]. zdecide. rewrite Hp. cbn [app]. do 2 f_equal. exact IH1.
    + constructor; [right; lia|done].
  - split_bools. to_prop. destruct (IH s ltac:(lia) ltac:(assumption)) as [IH1 IH2].
    unfold is_low in *. assert (valid_cp u). { unfold valid_cp. unfold is_high in Eh. destruct (56320 <=? u) eqn:E1, (u <? 57344) eqn:E2, (55296 <=? u) eqn:E3, (u <? 56320) eqn:E4; to_prop; try lia; done. }
    split; [|by constructor]. cbn [flat_map u_fromucs4 sampleUcs4]. zdecide. cbn [app]. f_equal. exact IH1.
Qed.

Lemma valid_cp_form cp : valid_cp cp ->
  (u_fromucs4 (QtUcs4 := sampleUcs4) cp = [cp] /\ is_high cp = false /\ is_low cp = false /\ 0 <= cp < 65536) \/
  (exists u v, u_fromucs4 (QtUcs4 := sampleUcs4) cp = [u; v] /\ is_high u = true /\ is_low v = true /\ pair_value u v = cp).
Proof.
  intros Hc. cbn [u_fromucs4 sampleUcs4]. destruct (cp <? 65536) eqn:E; to_prop.
  - left. unfold is_high, is_low, valid_cp in *. split; [done|].
    destruct Hc; (split; [|split; [|lia]]); apply andb_false_iff; rewrite Z.leb_gt, Z.ltb_ge; lia.
  - right. apply pair_value_units. unfold valid_cp in Hc. lia.
Qed.

#[export] Instance sampleUcs4_laws : QtUcs4Laws utf8Text sampleUcs4.
Proof.
  split.
  - intros s Hw. by eapply to_points_len.
  - intros cps H. induction H as [|cp cps Hc _ [IH1 IH2]]; [done|]. cbn [flat_map].
    destruct (valid_cp_form cp Hc) as [(-> & Hh & Hl & Hr)|(u & v & -> & Hu & Hv & Hp)]; cbn [app wf_utf16 u_toucs4 sampleUcs4 to_points].
    + rewrite Hh, Hl, IH2. cbn [u_toucs4 sampleUcs4] in IH1. rewrite IH1. zdecides. done.
    + rewrite Hu, Hv, IH2, Hp. cbn [u_toucs4 sampleUcs4] in IH1. by rewrite IH1.
  - done.
  - intros cps H. induction H as [|cp cps Hc _ IH]; [done|]. cbn [flat_map]. rewrite <- IH. cbn [u_toutf8 utf8Text].
    destruct (valid_cp_form cp Hc) as [(-> & Hh & Hl & Hr)|(u & v & -> & Hu & Hv & Hp)]; cbn [app utf8_encode].
    + rewrite Hh, Hl. cbn [orb]. zdecides. cbn [negb]. repeat case_match; by rewrite ?app_nil_r.
    + rewrite Hu, Hv. by rewrite app_nil_r.
Qed.
