(* ===== verification/Redirect.v ===== *)
(** * Following redirects: Src/Core/Networking/redirect_logic.cpp and the send loops

    The decision whether, where and how to follow a 3xx, and the loop that the
    repeater and the intruder run around [HttpClient::send].  URLs ([QUrl]) and cookie
    jars ([QNetworkCookieJar]) are Qt's; the network answers a request in the light of
    all requests sent so far. *)

From S2P Require Import Prelude Qt QtSample QMap Json HttpFraming ChainRunner.

Local Open Scope Z_scope.

(** [QUrl]: parsing, resolution, the components the code reads and sets; the port is -1
    when there is none. *)
Class QtQUrl := {
  Url : Type;
  qu_parse : qstr -> Url;
  qu_isValid : Url -> bool;
  qu_isEmpty : Url -> bool;
  qu_resolved : Url -> Url -> Url;
  qu_scheme : Url -> qstr;
  qu_host : Url -> qstr;
  qu_port : Url -> Z;
  qu_path : Url -> qstr;        (* path(FullyEncoded) *)
  qu_query : Url -> qstr;       (* query(FullyEncoded) *)
  qu_empty : Url;
  qu_setScheme : qstr -> Url -> Url;
  qu_setHost : qstr -> Url -> Url;
  qu_setPort : Z -> Url -> Url;
  qu_setPath : qstr -> Url -> Url;
  qu_setQuery : qstr -> Url -> Url
}.
(** [url.port(d)]. *)
Definition qu_port_or {K : QtQUrl} (d : Z) (u : Url) : Z := if qu_port u =? -1 then d else qu_port u.

(** [QNetworkCookie] and [QNetworkCookieJar]. *)
Class QtCookieJar (K : QtQUrl) := {
  NetCookie : Type;
  Jar : Type;
  jar_empty : Jar;
  nc_make : bytes -> bytes -> bool -> NetCookie;          (* name, value, path "/", secure *)
  nc_parse : bytes -> list NetCookie;                     (* parseCookies *)
  nc_raw : NetCookie -> bytes;                            (* toRawForm(NameAndValueOnly) *)
  jar_set : list NetCookie -> Url -> Jar -> Jar;          (* setCookiesFromUrl *)
  jar_for : Jar -> Url -> list NetCookie                  (* cookiesForUrl *)
}.

(** ** Policies and statuses *)

Definition FollowNever : Z := 0.
Definition FollowOnSite : Z := 1.
Definition FollowInScope : Z := 2.
Definition FollowAlways : Z := 3.

Section Decisions.
Context {Q : QtText}.

Definition parseFollowPolicy (s : qstr) : Z :=
  let t := u_lower (u_trimmed s) in
  if seq_eqb t (lit "on-site") || seq_eqb t (lit "onsite") then FollowOnSite
  else if seq_eqb t (lit "in-scope") || seq_eqb t (lit "inscope") then FollowInScope
  else if seq_eqb t (lit "always") then FollowAlways
  else FollowNever.

Definition followPolicyName (p : Z) : qstr :=
  if p =? FollowOnSite then lit "on-site"
  else if p =? FollowInScope then lit "in-scope"
  else if p =? FollowAlways then lit "always"
  else lit "never".

Definition isRedirectStatus (status : Z) : bool :=
  (status =? 301) || (status =? 302) || (status =? 303) || (status =? 307) || (status =? 308).

Definition methodAfterRedirect (status : Z) (currentMethod : qstr) : qstr :=
  let m := u_upper (u_trimmed currentMethod) in
  if (status =? 307) || (status =? 308) then m
  else if status =? 303 then if seq_eqb m (lit "HEAD") then m else lit "GET"
  else if (status =? 301) || (status =? 302) then if seq_eqb m (lit "POST") then lit "GET" else m
  else m.

Definition redirectPreservesBody (status : Z) (method : qstr) : bool :=
  negb (status =? 303) && seq_eqb (methodAfterRedirect status method) (u_upper (u_trimmed method)).

Definition followAllowed (policy : Z) (originHost nextHost : qstr) (nextInScope : bool) : bool :=
  if is_nil (u_trimmed nextHost) then false
  else if policy =? FollowNever then false
  else if policy =? FollowAlways then true
  else if policy =? FollowOnSite then u_cieq nextHost originHost
  else if policy =? FollowInScope then nextInScope
  else false.

(** ** Raw requests *)

Definition firstLine (raw : bytes) : bytes :=
  let line := match index_of 10 raw with Some e => take e raw | None => raw end in
  if ends_with_chr 13 line then chop1 line else line.

Definition requestMethod (rawRequest : bytes) : qstr :=
  let line := firstLine rawRequest in
  match index_of 32 line with
  | Some (S k) => u_upper (u_fromutf8 (take (S k) line))
  | _ => []
  end.

Definition requestTarget (rawRequest : bytes) : qstr :=
  let line := firstLine rawRequest in
  match index_of 32 line with
  | None => []
  | Some sp1 =>
      let rest := drop (S sp1) line in
      u_fromutf8 (match index_of 32 rest with None => rest | Some n => take n rest end)
  end.
End Decisions.

(** ** URLs, cookies and the next request *)

Section Requests.
Context {Q : QtText} {K : QtQUrl} {JJ : QtCookieJar K}.

(** [None] for the empty URL. *)
Definition resolveRedirect (current : Url) (location : qstr) : option Url :=
  let loc := u_trimmed location in
  if is_nil loc then None
  else
    let rel := qu_parse loc in
    if negb (qu_isValid rel) then None
    else
      let resolved := qu_resolved current rel in
      if negb (qu_isValid resolved) || is_nil (qu_host resolved) then None
      else if qu_isEmpty resolved then None else Some resolved.

Definition requestUrl (tls : bool) (host : qstr) (port : Z) (rawRequest : bytes) : Url :=
  let u := qu_setHost host (qu_setScheme (if tls then lit "https" else lit "http") qu_empty) in
  let u := if (0 <? port) && negb (port =? (if tls then 443 else 80)) then qu_setPort port u else u in
  let tgt := requestTarget rawRequest in
  if starts_with (lit "http://") tgt || starts_with (lit "https://") tgt then qu_parse tgt
  else match index_of 63 tgt with
       | Some q => qu_setQuery (drop (S q) tgt) (qu_setPath (take q tgt) u)
       | None => qu_setPath (if is_nil tgt then lit "/" else tgt) u
       end.

(** [raw.indexOf("\r\n\r\n")] and what is before it. *)
Definition headers_end (raw : bytes) : option nat := index_sub [13; 10; 13; 10] raw.
Definition head_of (raw : bytes) : bytes := match headers_end raw with Some e => take e raw | None => raw end.
Definition body_of (raw : bytes) : bytes := match headers_end raw with Some e => drop (e + 4) raw | None => [] end.

(** The name of a header line, [None] without a colon. *)
Definition line_name (line : bytes) : option bytes :=
  match index_of 58 line with Some c => Some (b_lower (b_trimmed (take c line))) | None => None end.
Definition line_value (line : bytes) : bytes := match index_of 58 line with Some c => drop (S c) line | None => [] end.

Definition seed_pair (origin : Url) (jar : Jar) (pair : bytes) : Jar :=
  match index_of 61 pair with
  | Some (S e) =>
      jar_set [nc_make (b_trimmed (take (S e) pair)) (b_trimmed (drop (S (S e)) pair)) (seq_eqb (qu_scheme origin) (lit "https"))] origin jar
  | _ => jar
  end.
Definition seed_line (origin : Url) (jar : Jar) (line : bytes) : Jar :=
  match line_name line with
  | Some name => if seq_eqb name (lit "cookie") then fold_left (seed_pair origin) (split_on 59 (b_trimmed (line_value line))) jar else jar
  | None => jar
  end.
Definition seedRequestCookies (jar : Jar) (origin : Url) (request : bytes) : Jar :=
  fold_left (seed_line origin) (split_on 10 (head_of request)) jar.

Definition mergeSetCookies (jar : Jar) (origin : Url) (headers : list (qstr * qstr)) : Jar :=
  fold_left (fun jar h => if u_cieq (fst h) (lit "Set-Cookie") then jar_set (nc_parse (u_tolatin1 (snd h))) origin jar else jar) headers jar.

Definition renderCookieHeader (jar : Jar) (destination : Url) : qstr := join (lit "; ") (map nc_raw (jar_for jar destination)).

(** *** [buildFollowRequest] *)

Definition hop_headers : list bytes :=
  map lit ["host"; "cookie"; "content-length"; "transfer-encoding"; "connection"; "proxy-connection"; "keep-alive"; "te";
    "trailer"; "upgrade"; "proxy-authorization"]%string.
Definition crossOriginSafe : list bytes :=
  map lit ["accept"; "accept-language"; "accept-encoding"; "user-agent"; "content-type"; "content-encoding"; "content-language";
    "content-location"]%string.

(** Names listed by the Connection lines. *)
Definition connection_tokens (lines : list bytes) : list bytes :=
  flat_map (fun line => match line_name line with
    | Some name => if seq_eqb name (lit "connection") then map (fun t => b_lower (b_trimmed t)) (split_on 44 (line_value line)) else []
    | None => [] end) lines.

Definition default_port (tls : bool) : Z := if tls then 443 else 80.
Definition is_https (u : Url) : bool := seq_eqb (qu_scheme u) (lit "https").
Definition same_origin (previousUrl url : Url) : bool :=
  seq_eqb (qu_scheme previousUrl) (qu_scheme url) && u_cieq (qu_host previousUrl) (qu_host url)
  && (qu_port_or (default_port (is_https previousUrl)) previousUrl =? qu_port_or (default_port (is_https url)) url).

Definition unchopped (line : bytes) : bytes := if ends_with_chr 13 line then chop1 line else line.

(** The line goes into the next request. *)
Definition keeps_line (skip : list bytes) (sameOrigin preserveBody : bool) (line : bytes) : bool :=
  match line_name line with
  | None => false
  | Some name =>
      if bool_decide (name ∈ skip) || (negb sameOrigin && negb (bool_decide (name ∈ crossOriginSafe))) then false
      else negb (negb preserveBody && starts_with (lit "content-") name)
  end.
Definition kept_lines (previousRequest : bytes) (sameOrigin preserveBody : bool) : list bytes :=
  let lines := split_on 10 (head_of previousRequest) in
  let skip := hop_headers ++ connection_tokens lines in
  List.filter (keeps_line skip sameOrigin preserveBody) (map unchopped lines).

Definition follow_target (url : Url) : qstr :=
  let target := if is_nil (qu_path url) then lit "/" else qu_path url in
  if negb (is_nil (qu_query url)) then target ++ lit "?" ++ qu_query url else target.
Definition follow_authority (url : Url) : qstr :=
  let a := qu_host url in
  let a := if contains_chr 58 a then lit "[" ++ a ++ lit "]" else a in
  if (0 <? qu_port url) && negb (qu_port url =? default_port (is_https url)) then a ++ lit ":" ++ number 10 (qu_port url) else a.

Definition needs_length (method : qstr) (body : bytes) : bool :=
  negb (is_nil body) || seq_eqb method (lit "POST") || seq_eqb method (lit "PUT") || seq_eqb method (lit "PATCH").

Definition buildFollowRequest (url : Url) (method cookieHeader : qstr) (body previousRequest : bytes) (previousUrl : Url) (preserveBody : bool) : bytes :=
  let kept := kept_lines previousRequest (same_origin previousUrl url) preserveBody in
  u_toutf8 method ++ lit " " ++ u_toutf8 (follow_target url) ++ lit " HTTP/1.1" ++ CRLF
  ++ lit "Host: " ++ u_toutf8 (follow_authority url) ++ CRLF
  ++ flat_map (fun line => line ++ CRLF) kept
  ++ (if existsb (fun line => bool_decide (line_name line = Some (lit "accept"))) kept then [] else lit "Accept: */*" ++ CRLF)
  ++ (if is_nil cookieHeader then [] else lit "Cookie: " ++ u_tolatin1 cookieHeader ++ CRLF)
  ++ (if needs_length method body then lit "Content-Length: " ++ number 10 (zlen body) ++ CRLF else [])
  ++ lit "Connection: close" ++ CRLF ++ CRLF ++ body.

(** ** The loop around [client.send] *)

(** The answer to the last of the requests sent. *)
Definition Net := list Sent -> SendResult.
Definition client_send (net : Net) (log : list Sent) (s : Sent) : SendResult * list Sent := (net (log ++ [s]), log ++ [s]).

Record Chain := mkChain {
  ch_result : SendResult; ch_current : Url; ch_method : qstr; ch_body : bytes; ch_jar : Jar; ch_previous : bytes; ch_log : list Sent
}.

Fixpoint location_of (headers : list (qstr * qstr)) : qstr :=
  match headers with
  | [] => []
  | h :: hs => if u_cieq (fst h) (lit "Location") then snd h else location_of hs
  end.

(** What the loop sends to a URL. *)
Definition hop_sent (next : Url) (request : bytes) : Sent :=
  let tls := u_cieq (qu_scheme next) (lit "https") in
  mkSent (qu_host next) (qu_port_or (default_port tls) next mod 2 ^ 16) tls request.

(** One round behind a redirect; [None] leaves the loop. *)
Definition hop (net : Net) (inScope : Url -> bool) (policy : Z) (cookies : bool) (c : Chain) : option Chain :=
  match resolveRedirect (ch_current c) (location_of (rs_headers (sd_parsed (ch_result c)))) with
  | None => None
  | Some next =>
      if negb (followAllowed policy (qu_host (ch_current c)) (qu_host next) (inScope next)) then None
      else
        let jar := if cookies then mergeSetCookies (ch_jar c) (ch_current c) (rs_headers (sd_parsed (ch_result c))) else ch_jar c in
        let status := rs_statusCode (sd_parsed (ch_result c)) in
        let nextMethod := methodAfterRedirect status (ch_method c) in
        let keep := redirectPreservesBody status (ch_method c) in
        let nextBody := if keep then ch_body c else [] in
        let cookieHdr := if cookies then renderCookieHeader jar next else [] in
        let nextReq := buildFollowRequest next nextMethod cookieHdr nextBody (ch_previous c) (ch_current c) keep in
        let '(result, log) := client_send net (ch_log c) (hop_sent next nextReq) in
        Some (mkChain result next nextMethod nextBody jar nextReq log)
  end.

Definition kMaxRedirectHops : nat := 10.

(** [stop] is the cancellation flag as read before each round. *)
Fixpoint follow_loop (fuel : nat) (net : Net) (inScope : Url -> bool) (policy : Z) (cookies : bool) (stop : nat -> bool) (hops : nat) (c : Chain)
    : Chain * nat :=
  match fuel with
  | O => (c, hops)
  | S fuel' =>
      if sd_ok (ch_result c) && negb (stop hops) && isRedirectStatus (rs_statusCode (sd_parsed (ch_result c))) then
        match hop net inScope policy cookies c with
        | None => (c, hops)
        | Some c' => follow_loop fuel' net inScope policy cookies stop (S hops) c'
        end
      else (c, hops)
  end.

(** The block behind the first send: the final result, the hops and everything sent. *)
Definition followRedirects (net : Net) (inScope : Url -> bool) (policy : Z) (cookies : bool) (stop : nat -> bool)
    (tls : bool) (host : qstr) (port : Z) (request : bytes) (result : SendResult) (log : list Sent) : SendResult * nat * list Sent :=
  if (policy =? FollowNever) || negb (sd_ok result) then (result, O, log)
  else
    let current := requestUrl tls host port request in
    let jar := if cookies then seedRequestCookies jar_empty current request else jar_empty in
    let '(c, hops) := follow_loop kMaxRedirectHops net inScope policy cookies stop 0
      (mkChain result current (requestMethod request) (body_of request) jar request log) in
    (ch_result c, hops, ch_log c).

(** ** What a chain may do *)

(** Every URL passes the policy against the one before it. *)
Fixpoint allowed_chain (inScope : Url -> bool) (policy : Z) (current : Url) (urls : list Url) : Prop :=
  match urls with
  | [] => True
  | next :: urls' =>
      followAllowed policy (qu_host current) (qu_host next) (inScope next) = true /\ allowed_chain inScope policy next urls'
  end.

(** The request went to the host, port and transport of the URL. *)
Definition goes_to (u : Url) (s : Sent) : Prop := exists request, s = hop_sent u request.

(** What ends the loop before its bound. *)
Definition chain_done (net : Net) (inScope : Url -> bool) (policy : Z) (cookies : bool) (stop : nat -> bool) (hops : nat) (c : Chain) : Prop :=
  sd_ok (ch_result c) = false \/ stop hops = true \/ isRedirectStatus (rs_statusCode (sd_parsed (ch_result c))) = false
  \/ hop net inScope policy cookies c = None.

Lemma follow_loop_spec net inScope policy cookies stop : forall fuel hops c,
  exists urls sents,
    let '(c', hops') := follow_loop fuel net inScope policy cookies stop hops c in
    hops' = (hops + length urls)%nat /\ (length urls <= fuel)%nat /\ allowed_chain inScope policy (ch_current c) urls /\
    Forall2 goes_to urls sents /\ ch_log c' = ch_log c ++ sents /\
    ch_result c' = (if is_nil sents then ch_result c else net (ch_log c')) /\
    ((length urls < fuel)%nat -> chain_done net inScope policy cookies stop hops' c').
Proof.
  induction fuel as [|fuel IH]; intros hops c; cbn [follow_loop].
  { exists [], []. rewrite app_nil_r. split_and!; try done; cbn [length]; lia. }
  assert (Hstop : chain_done net inScope policy cookies stop hops c ->
    exists urls sents, hops = (hops + length urls)%nat /\ (length urls <= S fuel)%nat /\ allowed_chain inScope policy (ch_current c) urls /\
      Forall2 goes_to urls sents /\ ch_log c = ch_log c ++ sents /\ ch_result c = (if is_nil sents then ch_result c else net (ch_log c)) /\
      ((length urls < S fuel)%nat -> chain_done net inScope policy cookies stop hops c)).
  { intros Hd. exists [], []. rewrite app_nil_r. split_and!; try done; cbn [length]; lia. }
  destruct (sd_ok (ch_result c) && _ && _) eqn:E.
  2:{ apply Hstop. rewrite !andb_false_iff, negb_false_iff in E. unfold chain_done. tauto. }
  destruct (hop net inScope policy cookies c) as [c1|] eqn:Eh; [|apply Hstop; unfold chain_done; tauto].
  unfold hop in Eh. destruct (resolveRedirect _ _) as [next|]; [|done].
  destruct (negb (followAllowed _ _ _ _)) eqn:Ea; [done|]. apply negb_false_iff in Ea.
  cbn [client_send] in Eh. injection Eh as <-.
  match goal with |- context [follow_loop _ _ _ _ _ _ _ ?x] => set (c1 := x) end.
  destruct (IH (S hops) c1) as (urls & sents & H). destruct (follow_loop fuel _ _ _ _ _ (S hops) c1) as [c' hops'].
  destruct H as (Hh & Hl & Hc & Hf & Hg & Hr & Hd). cbn [ch_current ch_log ch_result] in *.
  exists (next :: urls), (hop_sent next (ch_previous c1) :: sents). split_and!.
  - cbn [length]. lia.
  - cbn [length]. lia.
  - split; [exact Ea|exact Hc].
  - constructor; [by eexists|done].
  - rewrite Hg. unfold c1. cbn [ch_log ch_previous]. by rewrite <- app_assoc.
  - rewrite Hr. cbn [is_nil]. destruct sents as [|s sents]; [|done]. cbn [is_nil]. rewrite Hg, app_nil_r. done.
  - cbn [length]. intros Hlt. apply Hd. lia.
Qed.

Lemma follow_redirects_spec net inScope policy cookies stop tls host port request result log :
  let '(final, hops, log') := followRedirects net inScope policy cookies stop tls host port request result log in
  exists urls sents,
    log' = log ++ sents /\ hops = length urls /\ (hops <= kMaxRedirectHops)%nat /\ Forall2 goes_to urls sents /\
    allowed_chain inScope policy (requestUrl tls host port request) urls /\
    (policy = FollowInScope -> Forall (fun u => inScope u = true) urls) /\
    (policy = FollowNever \/ sd_ok result = false -> sents = []) /\
    final = (if is_nil sents then result else net log').
Proof.
  unfold followRedirects. destruct ((policy =? FollowNever) || negb (sd_ok result)) eqn:E.
  { exists [], []. rewrite app_nil_r. split_and!; try done. unfold kMaxRedirectHops. lia. }
  apply orb_false_iff in E as [En Eo]. rewrite negb_false_iff in Eo. to_prop.
  set (c0 := mkChain _ _ _ _ _ _ _). destruct (follow_loop_spec net inScope policy cookies stop kMaxRedirectHops 0 c0) as (urls & sents & H).
  destruct (follow_loop _ _ _ _ _ _ 0 c0) as [c hops]. destruct H as (Hh & Hl & Hc & Hf & Hg & Hr & _).
  exists urls, sents. split_and!; try done; [lia| |].
  - intros ->. clear - Hc. revert Hc. generalize (ch_current c0). induction urls as [|u urls IH]; intros cur H; [by constructor|].
    destruct H as [Ha H]. constructor; [|by apply (IH u)]. unfold followAllowed in Ha. by destruct (is_nil _).
  - intros [?|?]; congruence.
Qed.

(** Following redirects sends at most ten further requests, one per hop.  Each goes
    to the host, port and transport of a URL whose host the policy allows after the
    one before it: under the in-scope policy the URL is in scope, under the on-site
    policy its host is the host it came from, under the never policy, or behind a
    failed request, nothing is sent.  The result is the answer to the last request;
    with hops to spare the chain ends at a response that is no redirect, a failure,
    a refused target or the cancellation. *)
Theorem follow_redirects_safe net inScope policy cookies stop tls host port request result log :
  let '(final, hops, log') := followRedirects net inScope policy cookies stop tls host port request result log in
  exists urls sents,
    log' = log ++ sents /\ hops = length urls /\ (hops <= kMaxRedirectHops)%nat /\ Forall2 goes_to urls sents /\
    allowed_chain inScope policy (requestUrl tls host port request) urls /\
    (policy = FollowInScope -> Forall (fun u => inScope u = true) urls) /\
    (policy = FollowNever \/ sd_ok result = false -> sents = []) /\
    final = (if is_nil sents then result else net log').
Proof. apply follow_redirects_spec. Qed.

(** ** Headers *)

Lemma kept_line_spec previousRequest sameOrigin preserveBody line :
  line ∈ kept_lines previousRequest sameOrigin preserveBody <->
  exists raw name, raw ∈ split_on 10 (head_of previousRequest) /\ line = unchopped raw /\ line_name line = Some name /\
    name ∉ hop_headers /\ name ∉ connection_tokens (split_on 10 (head_of previousRequest)) /\
    (sameOrigin = false -> name ∈ crossOriginSafe) /\ (preserveBody = false -> starts_with (lit "content-") name = false).
Proof.
  unfold kept_lines. rewrite elem_of_filter_bool, list_elem_of_In, in_map_iff. set (ls := split_on 10 _). split.
  - intros [(raw & <- & Hr) Hk]. unfold keeps_line in Hk. destruct (line_name (unchopped raw)) as [name|] eqn:En; [|done].
    destruct (_ || _) eqn:E; [done|]. apply orb_false_iff in E as [E1 E2]. apply bool_decide_eq_false in E1. rewrite not_elem_of_app in E1.
    exists raw, name. split_and!; try done; [by apply list_elem_of_In|tauto|tauto| |].
    + intros ->. cbn [negb andb] in E2. rewrite negb_false_iff in E2. by apply bool_decide_eq_true in E2.
    + intros ->. cbn [negb andb] in Hk. by apply negb_true_iff in Hk.
  - intros (raw & name & Hr & -> & Hn & H1 & H2 & H3 & H4). split; [exists raw; split; [done|by apply list_elem_of_In]|].
    unfold keeps_line. rewrite Hn. rewrite bool_decide_false by (rewrite not_elem_of_app; tauto). cbn [orb].
    destruct sameOrigin; cbn [negb andb].
    + destruct preserveBody; [done|]. cbn [negb andb]. by rewrite H4.
    + rewrite bool_decide_true by auto. cbn [negb]. destruct preserveBody; [done|]. cbn [negb andb]. by rewrite H4.
Qed.

Lemma split_no_lf raw s : raw ∈ split_on 10 s -> 10 ∉ unchopped raw.
Proof.
  intros H. apply split_on_parts in H. unfold unchopped, chop1. destruct (ends_with_chr 13 raw); [|done].
  intros Hin. apply H. rewrite <- (take_drop (length raw - 1) raw). apply elem_of_app. by left.
Qed.

(** The next request carries over single lines of the previous one only: never a
    header of the connection or of the framing, nor one its Connection lines name,
    nor the old Cookie; to another origin only the eight content negotiation
    headers, so no credentials; without the body no content header. *)
Theorem follow_headers previousRequest sameOrigin preserveBody line :
  line ∈ kept_lines previousRequest sameOrigin preserveBody ->
  10 ∉ line /\ exists name, line_name line = Some name /\
    name ∉ map lit ["host"; "cookie"; "content-length"; "transfer-encoding"; "connection"]%string /\
    name ∉ connection_tokens (split_on 10 (head_of previousRequest)) /\
    (sameOrigin = false -> name ∈ crossOriginSafe /\ name <> lit "authorization") /\
    (preserveBody = false -> starts_with (lit "content-") name = false).
Proof.
  intros H. apply kept_line_spec in H as (raw & name & Hr & -> & Hn & H1 & H2 & H3 & H4).
  split; [by eapply split_no_lf|]. exists name. split_and!; try done.
  - intros Hin. apply H1. revert Hin. cbn [map]. unfold hop_headers. cbn [map]. rewrite !elem_of_cons, !elem_of_nil. tauto.
  - intros Hs. split; [by apply H3|]. intros ->. specialize (H3 Hs). revert H3. refine (bool_decide_eq_false_1 _ _). vm_compute. reflexivity.
Qed.

(** A request line that holds a colon, as in a URL in the query, is taken for a
    header line: unless its text up to the colon happens to be a listed name, a
    redirect within the origin that keeps the body repeats the request line among
    the header lines of the next request. *)
Theorem follow_repeats_request_line previousRequest name line :
  head (split_on 10 (head_of previousRequest)) = Some line ->
  line_name (unchopped line) = Some name -> name ∉ hop_headers ->
  name ∉ connection_tokens (split_on 10 (head_of previousRequest)) ->
  unchopped line ∈ kept_lines previousRequest true true.
Proof.
  intros Hh Hn H1 H2. apply kept_line_spec. exists line, name. split_and!; try done.
  destruct (split_on 10 _); [done|]. injection Hh as ->. left.
Qed.

(** ** Methods and policies *)

Context {L : QtTextLaws Q}.

Lemma seq_eqb_neq a b : a <> b -> seq_eqb a b = false.
Proof. intros H. destruct (seq_eqb a b) eqn:E; [by apply seq_eqb_eq in E|done]. Qed.

(** The method and the body across a redirect: 307 and 308 keep both, 303 turns
    everything but HEAD into GET without a body, 301 and 302 turn a POST into a GET
    without a body and keep every other method with its body.  Whenever the method
    changes the body is dropped. *)
Theorem redirect_method status method :
  let m := u_upper (u_trimmed method) in
  let m' := methodAfterRedirect status method in
  let keep := redirectPreservesBody status method in
  (keep = true -> m' = m) /\ (m' <> m -> keep = false) /\
  (status = 307 \/ status = 308 -> m' = m /\ keep = true) /\
  (status = 303 -> m' = (if seq_eqb m (lit "HEAD") then m else lit "GET") /\ keep = false) /\
  (status = 301 \/ status = 302 -> (m = lit "POST" -> m' = lit "GET" /\ keep = false) /\ (m <> lit "POST" -> m' = m /\ keep = true)).
Proof.
  cbv zeta. unfold redirectPreservesBody. set (m := u_upper (u_trimmed method)). set (m' := methodAfterRedirect status method).
  split_and!.
  - intros [_ H]%andb_true_iff. by apply seq_eqb_eq.
  - intros H. rewrite (seq_eqb_neq m' m) by done. apply andb_false_r.
  - intros [-> | ->]; subst m'; unfold methodAfterRedirect; cbn; fold m; by rewrite seq_eqb_refl.
  - intros ->. subst m'. unfold methodAfterRedirect. cbn [Z.eqb Pos.eqb orb negb andb]. done.
  - intros Hs. subst m'. unfold methodAfterRedirect. fold m.
    assert (E : (status =? 307) || (status =? 308) = false /\ (status =? 303) = false /\ (status =? 301) || (status =? 302) = true)
      by (destruct Hs as [-> | ->]; done).
    destruct E as (-> & -> & ->). cbn [negb andb]. split.
    + intros E. rewrite E, seq_eqb_refl. split; [done|]. by vm_compute.
    + intros E. rewrite (seq_eqb_neq m) by done. split; [done|]. apply seq_eqb_refl.
Qed.

(** The four policies are read back from the names they are written as, and every
    other text means never. *)
Theorem policy_roundtrip p : FollowNever <= p <= FollowAlways -> parseFollowPolicy (followPolicyName p) = p.
Proof.
  unfold FollowNever, FollowAlways. intros H.
  assert (Hc : forall s, all_ascii s = true -> u_lower (u_trimmed s) = map ascii_lower1 (b_trimmed s)).
  { intros s Ha. rewrite u_trimmed_ascii by done. apply law_lower_ascii. eapply all_ascii_incl; [exact Ha|]. intros c. apply trim_by_incl. }
  assert (p = 0 \/ p = 1 \/ p = 2 \/ p = 3) as [-> |[-> |[-> | ->]]] by lia;
    unfold parseFollowPolicy; rewrite Hc by done; by vm_compute.
Qed.
End Requests.

(** ** A concrete instance and witnesses *)

Record SUrl := mkUrl { su_scheme : qstr; su_host : qstr; su_port : Z; su_path : qstr; su_query : qstr }.

Definition split_query (s : qstr) : qstr * qstr :=
  match index_of 63 s with Some q => (take q s, drop (S q) s) | None => (s, []) end.
Definition split_port (a : qstr) : qstr * Z :=
  match index_of 58 a with Some c => (take c a, digits_val 10 (drop (S c) a)) | None => (a, -1) end.
(** Scheme and authority, or a relative reference. *)
Definition sample_parse (s : qstr) : SUrl :=
  match index_sub (lit "://") s with
  | Some i =>
      let rest := drop (i + 3) s in
      let n := default (length rest) (index_of 47 rest) in
      let '(h, p) := split_port (take n rest) in
      let '(path, q) := split_query (drop n rest) in
      mkUrl (map ascii_lower1 (take i s)) (map ascii_lower1 h) p path q
  | None => let '(path, q) := split_query s in mkUrl [] [] (-1) path q
  end.
Definition sample_resolved (b r : SUrl) : SUrl :=
  if is_nil (su_scheme r) then mkUrl (su_scheme b) (su_host b) (su_port b) (su_path r) (su_query r) else r.

Definition sampleQUrl : QtQUrl := {|
  Url := SUrl;
  qu_parse := sample_parse;
  qu_isValid _ := true;
  qu_isEmpty u := is_nil (su_scheme u) && is_nil (su_host u) && is_nil (su_path u);
  qu_resolved := sample_resolved;
  qu_scheme := su_scheme; qu_host := su_host; qu_port := su_port; qu_path := su_path; qu_query := su_query;
  qu_empty := mkUrl [] [] (-1) [] [];
  qu_setScheme s u := mkUrl s (su_host u) (su_port u) (su_path u) (su_query u);
  qu_setHost h u := mkUrl (su_scheme u) h (su_port u) (su_path u) (su_query u);
  qu_setPort p u := mkUrl (su_scheme u) (su_host u) p (su_path u) (su_query u);
  qu_setPath p u := mkUrl (su_scheme u) (su_host u) (su_port u) p (su_query u);
  qu_setQuery q u := mkUrl (su_scheme u) (su_host u) (su_port u) (su_path u) q
|}.

(** Cookies are name-value pairs that every URL gets. *)
Definition sampleJar : QtCookieJar sampleQUrl := {|
  NetCookie := bytes * bytes;
  Jar := list (bytes * bytes);
  jar_empty := [];
  nc_make n v _ := (n, v);
  nc_parse b := match index_of 61 b with Some e => [(take e b, drop (S e) b)] | None => [] end;
  nc_raw c := fst c ++ lit "=" ++ snd c;
  jar_set cs _ j := j ++ cs;
  jar_for j _ := j
|}.

Section Examples.
#[local] Existing Instance asciiText.
#[local] Existing Instance sampleQUrl.
#[local] Existing Instance sampleJar.

Definition ex_lines (ls : list bytes) (body : bytes) : bytes := flat_map (fun l => l ++ CRLF) ls ++ CRLF ++ body.
Definition ex_get : bytes :=
  ex_lines [lit "GET /go?u=https://b/ HTTP/1.1"; lit "Host: a"; lit "Authorization: Basic x"; lit "Accept: text/html"] [].
Definition ex_answer (status : Z) (headers : list (qstr * qstr)) : SendResult :=
  mkSend true [] (mkResponse (lit "HTTP/1.1") status [] headers [] [] false) [] 0.
(** A first answer that redirects to [location], then 200. *)
Definition ex_net (location : qstr) : Net :=
  fun log => if (length log <=? 1)%nat then ex_answer 302 [(lit "Location", location)] else ex_answer 200 [].
Definition ex_follow (policy : Z) (location : qstr) : SendResult * nat * list Sent :=
  followRedirects (ex_net location) (fun _ => false) policy true (fun _ => false) true (lit "a") 443 ex_get
    (ex_net location [mkSent (lit "a") 443 true ex_get]) [mkSent (lit "a") 443 true ex_get].

(** Within the origin the request line is repeated as a header line; to another origin
    it is not, and neither are the credentials; policies refuse. *)
Example follow_runs :
  ex_follow FollowAlways (lit "/next") =
    (ex_answer 200 [], 1%nat, [mkSent (lit "a") 443 true ex_get;
      mkSent (lit "a") 443 true (ex_lines [lit "GET /next HTTP/1.1"; lit "Host: a"; lit "GET /go?u=https://b/ HTTP/1.1";
        lit "Authorization: Basic x"; lit "Accept: text/html"; lit "Connection: close"] [])]) /\
  snd (ex_follow FollowAlways (lit "http://b:8080/n?q")) =
    [mkSent (lit "a") 443 true ex_get;
     mkSent (lit "b") 8080 false (ex_lines [lit "GET /n?q HTTP/1.1"; lit "Host: b:8080"; lit "Accept: text/html"; lit "Connection: close"] [])] /\
  snd (fst (ex_follow FollowOnSite (lit "http://b:8080/n?q"))) = 0%nat /\ snd (fst (ex_follow FollowInScope (lit "/next"))) = 0%nat.
Proof. split_and!; vm_compute; reflexivity. Qed.

Lemma follow_headers_witness :
  lit "Accept: text/html" ∈ kept_lines ex_get false true /\ 10 ∉ lit "Accept: text/html".
Proof.
  assert (H : lit "Accept: text/html" ∈ kept_lines ex_get false true) by (refine (bool_decide_eq_true_1 _ _); vm_compute; reflexivity).
  split; [exact H|]. exact (proj1 (follow_headers ex_get false true _ H)).
Defined.

Lemma follow_repeats_request_line_witness : lit "GET /go?u=https://b/ HTTP/1.1" ∈ kept_lines ex_get true true.
Proof.
  apply (follow_repeats_request_line ex_get (lit "get /go?u=https") (lit "GET /go?u=https://b/ HTTP/1.1" ++ [13])).
  - vm_compute. reflexivity.
  - vm_compute. reflexivity.
  - refine (bool_decide_eq_false_1 _ _). vm_compute. reflexivity.
  - refine (bool_decide_eq_false_1 _ _). vm_compute. reflexivity.
Defined.

Lemma policy_roundtrip_witness : FollowNever <= 2 <= FollowAlways /\ parseFollowPolicy (followPolicyName 2) = 2.
Proof. assert (H : FollowNever <= 2 <= FollowAlways) by (unfold FollowNever, FollowAlways; lia). split; [exact H|]. exact (policy_roundtrip 2 H). Defined.
End Examples.
