(* ===== verification/SessionRules.v ===== *)
(** * Session handling rules: Src/Core/Networking/session_rules{,_logic}.{hpp,cpp}

    A rule extracts a value from matching responses into the variable bag of the
    response's host, and injects it into matching requests to that host.  A macro is a
    recorded request chain ([ChainRunner.v]) that logs in again when a response says
    the session ended.  [applyToRequest] and the helpers are functions; the object's
    critical sections interleave through the step function [exec] on a [World]: the
    guarded state and the calls and background tasks that are under way.  Percent
    decoding, PCRE and JSON text are parameters.  The memo of compiled globs in
    [matches] has no effect on results. *)

From S2P Require Import Prelude Qt QtSample QMap Json HttpFraming ProxyPolicy Placeholders ChainRunner.

Local Open Scope Z_scope.

(** ** Qt: percent encoding and [QString::arg] *)

(** [QUrl::fromPercentEncoding]. *)
Class QtUrl := { url_decode : bytes -> qstr }.

Definition unreserved (c : Z) : bool :=
  is_letter c || is_digit c || (c =? 45) || (c =? 46) || (c =? 95) || (c =? 126).
Definition hex_upper (d : Z) : Z := if d <? 10 then 48 + d else 55 + d.
Definition pct_byte (b : Z) : bytes := if unreserved b then [b] else [37; hex_upper (b / 16); hex_upper (b mod 16)].
Definition percent_encode (b : bytes) : bytes := flat_map pct_byte b.
(** [QUrl::toPercentEncoding]. *)
Definition toPercentEncoding `{QtText} (s : qstr) : bytes := percent_encode (u_toutf8 s).

Class QtUrlLaws (Q : QtText) (U : QtUrl) : Prop := {
  law_url_decode b : wf_bytes b -> url_decode (percent_encode b) = u_fromutf8 b
}.

(** A place marker: '%' and one or two digits, with its number and length.  (The
    localized form, "%L", does not occur in the texts the code formats.) *)
Definition marker_at (s : qstr) : option (Z * nat) :=
  match s with
  | c :: d1 :: rest =>
      if (c =? 37) && is_digit d1 then
        match rest with
        | d2 :: _ => if is_digit d2 then Some (10 * (d1 - 48) + (d2 - 48), 3%nat) else Some (d1 - 48, 2%nat)
        | [] => Some (d1 - 48, 2%nat)
        end
      else None
  | _ => None
  end.

Fixpoint lowest_marker (s : qstr) : option Z :=
  match s with
  | [] => None
  | _ :: s' =>
      match marker_at s, lowest_marker s' with
      | Some (n, _), Some m => Some (Z.min n m)
      | Some (n, _), None => Some n
      | None, r => r
      end
  end.

Fixpoint arg_replace (n : Z) (a : qstr) (skip : nat) (s : qstr) : qstr :=
  match s with
  | [] => []
  | c :: s' =>
      match skip with
      | S k => arg_replace n a k s'
      | O => match marker_at s with
             | Some (m, len) => if m =? n then a ++ arg_replace n a (len - 1) s' else c :: arg_replace n a 0 s'
             | None => c :: arg_replace n a 0 s'
             end
      end
  end.

(** [s.arg(a)]: every occurrence of the lowest-numbered marker is replaced. *)
Definition arg (s a : qstr) : qstr :=
  match lowest_marker s with Some n => arg_replace n a 0 s | None => s end.

(** ** session_rules_logic.cpp *)

Section SessionRulesLogic.
Context `{QtText, QtRegex, QtReplace, QtJson, QtCapture, QtUrl}.

Definition glob_char (c : Z) : qstr :=
  if c =? 42 then lit ".*" else if c =? 63 then lit "." else rr_escape [c].
(** The pattern, compiled case-insensitive. *)
Definition globToRx (glob : qstr) : qstr := lit "\A" ++ flat_map glob_char glob ++ lit "\z".
Definition glob_matches (glob s : qstr) : bool := rx_match true (globToRx glob) s.

(** [SessionRulesLogic::findCookieValue]: the first segment only. *)
Definition findCookieValue (raw name : qstr) : qstr :=
  match split_on 59 raw with
  | [] => []
  | seg :: _ => default [] (cookie_segment name seg)
  end.

Definition jsonPathGet (body : bytes) (path : qstr) : qstr :=
  match json_parse body with
  | None => []
  | Some doc => match json_walk (split_skip 46 path) (json_root doc) with Some v => json_leaf v | None => [] end
  end.

(** On the captured texts, the whole match first. *)
Definition firstCapture (caps : list qstr) : qstr :=
  match List.find (fun c => negb (is_nil c)) (tail caps) with Some c => c | None => nth 0 caps [] end.

Definition sanitizeHeaderValue (v : qstr) : qstr :=
  List.filter (fun c => (32 <=? c) || (c =? 9))
    (List.filter (fun c => negb (c =? 10)) (List.filter (fun c => negb (c =? 13)) v)).

Definition sanitizeCookieValue (v : qstr) : qstr :=
  List.filter (fun c => negb (c =? 59)) (sanitizeHeaderValue v).

Definition jsonEscapeInner (v : qstr) : qstr :=
  let s := u_trimmed (u_fromutf8 (json_compact (JArray [JString v]))) in
  match index_of 34 s, last_index_of 34 s with
  | Some a, Some b => if (a <? b)%nat then mid s (a + 1) (b - a - 1) else v
  | _, _ => v
  end.

Definition stripQuery (path : qstr) : qstr :=
  match index_of 63 path with Some q => take q path | None => path end.

Definition ruleAppliesToTool (toolsMask tool : Z) : bool :=
  if toolsMask =? 0 then true else negb (Z.land toolsMask tool =? 0).

Definition responseIsLoggedOut (status : Z) (bodyText statusList bodyRegex : qstr) : bool :=
  if negb (status =? 0)
     && existsb (fun c => match u_toint 10 (u_trimmed c) with Some n => n =? status | None => false end)
          (split_skip 44 statusList)
  then true
  else negb (is_nil bodyRegex) && (rx_valid false bodyRegex && rx_match false bodyRegex bodyText).

(** The decoded name of a form part. *)
Definition part_name (part : bytes) : qstr :=
  url_decode (map (fun c => if c =? 43 then 32 else c)
                (match index_of 61 part with Some i => take i part | None => part end)).

Fixpoint upsert_loop (key : qstr) (replacement : bytes) (parts : list bytes) (replaced : bool) : list bytes * bool :=
  match parts with
  | [] => ([], replaced)
  | part :: parts' =>
      if is_nil part then upsert_loop key replacement parts' replaced
      else if seq_eqb (part_name part) key then
        let '(out, r) := upsert_loop key replacement parts' true in
        (if replaced then out else replacement :: out, r)
      else let '(out, r) := upsert_loop key replacement parts' replaced in (part :: out, r)
  end.

Definition form_replacement (key v : qstr) : bytes := toPercentEncoding key ++ [61] ++ toPercentEncoding v.

Definition upsertFormParameter (body : bytes) (key v : qstr) : bytes :=
  let replacement := form_replacement key v in
  let '(parts, replaced) := upsert_loop key replacement (split_on 38 body) false in
  join [38] (if replaced then parts else parts ++ [replacement]).

Definition injectIntoNonFormBody (body : bytes) (injectKey variable v : qstr) (isJson : bool) : bytes :=
  let sub := if isJson then jsonEscapeInner v else v in
  let b := replace_all (u_toutf8 (arg (lit "{{%1}}") injectKey)) (u_toutf8 sub) body in
  if is_nil variable then b else replace_all (u_toutf8 (arg (lit "{{%1}}") variable)) (u_toutf8 sub) b.

Definition urlScopeMatches (host path : qstr) (includeGlobs excludeGlobs : list qstr) : bool :=
  if is_nil includeGlobs && is_nil excludeGlobs then true
  else
    let target := host ++ stripQuery path in
    let hit g := negb (is_nil g) && glob_matches g target in
    if existsb hit excludeGlobs then false
    else if is_nil includeGlobs then true
    else existsb hit includeGlobs.

(** ** session_rules.cpp: rules *)

(** [extractFrom]: 0 header, 1 cookie, 2 JSON path, 3 regex; [injectInto]: 0 header,
    1 cookie, 2 body, 3 URL.  Both are plain integers in the code. *)
Record SessionRule := mkSessionRule {
  ss_name : qstr; ss_enabled : bool; ss_hostGlob : qstr; ss_pathGlob : qstr;
  ss_extractFrom : Z; ss_extractKey : qstr; ss_variable : qstr;
  ss_injectInto : Z; ss_injectKey : qstr; ss_injectTemplate : qstr;
  ss_tools : Z; ss_includeUrls : list qstr; ss_excludeUrls : list qstr
}.

Record SessionMacro := mkMacro {
  sm_name : qstr; sm_sessionHost : qstr; sm_steps : list Step;
  sm_loggedOutStatus : qstr; sm_loggedOutBodyRegex : qstr
}.

Definition matches (r : SessionRule) (host path : qstr) : bool :=
  glob_matches (ss_hostGlob r) host && glob_matches (ss_pathGlob r) (stripQuery path)
  && urlScopeMatches host path (ss_includeUrls r) (ss_excludeUrls r).

(** The last non-empty value of the cookie over the Set-Cookie fields. *)
Definition last_cookie (headers : list (qstr * qstr)) (key : qstr) : qstr :=
  fold_left (fun val h =>
    if negb (u_cieq (fst h) (lit "Set-Cookie")) then val
    else let v := findCookieValue (snd h) key in if is_nil v then val else v) headers [].

Definition extractValue (r : SessionRule) (resp : HttpResponse) : qstr :=
  if ss_extractFrom r =? 0 then findHeader (rs_headers resp) (ss_extractKey r)
  else if ss_extractFrom r =? 1 then last_cookie (rs_headers resp) (ss_extractKey r)
  else if ss_extractFrom r =? 2 then jsonPathGet (bodyForInspection resp) (ss_extractKey r)
  else if ss_extractFrom r =? 3 then
    if negb (rc_valid (ss_extractKey r)) then []
    else match rc_match (ss_extractKey r) (u_fromutf8 (take (Z.to_nat (1 * 1024 * 1024)) (bodyForInspection resp))) with
         | Some caps => firstCapture caps
         | None => []
         end
  else [].

(** The extraction loop of [applyToResponse]: one rule, and all of them. *)
Definition extractInto (req : HttpRequest) (resp : HttpResponse) (vars : gmap qstr qstr) (r : SessionRule)
    : gmap qstr qstr :=
  if negb (ss_enabled r) then vars
  else if negb (matches r (rq_host req) (rq_path req)) then vars
  else if is_nil (ss_variable r) || is_nil (ss_extractKey r) then vars
  else let val := extractValue r resp in
       if is_nil val then vars else <[ss_variable r := val]> vars.
Definition extractVars (rules : list SessionRule) (req : HttpRequest) (resp : HttpResponse) : gmap qstr qstr :=
  fold_left (extractInto req resp) rules ∅.

(** ** Injection *)

Fixpoint headerIndex (headers : list (qstr * qstr)) (name : qstr) : option nat :=
  match headers with
  | [] => None
  | h :: hs => if u_cieq (fst h) name then Some O else S <$> headerIndex hs name
  end.

(** The first such field takes the value, or one is appended. *)
Definition setHeader (headers : list (qstr * qstr)) (name key v : qstr) : list (qstr * qstr) :=
  match headerIndex headers name with
  | Some i => alter (fun h => (fst h, v)) i headers
  | None => headers ++ [(key, v)]
  end.

Definition cookie_part (key cv seg : qstr) : qstr * bool :=
  let s := u_trimmed seg in
  let name := match index_of 61 s with Some (S i) => u_trimmed (take (S i) s) | _ => s end in
  if u_cieq name key then (key ++ lit "=" ++ cv, true) else (s, false).

Definition injectCookie (headers : list (qstr * qstr)) (key v : qstr) : list (qstr * qstr) :=
  let cv := sanitizeCookieValue v in
  let val := match headerIndex headers (lit "Cookie") with
             | Some i => snd (nth i headers ([], []))
             | None => []
             end in
  let parts := map (cookie_part key cv) (split_skip 59 val) in
  let out := map fst parts ++ (if existsb snd parts then [] else [key ++ lit "=" ++ cv]) in
  setHeader headers (lit "Cookie") (lit "Cookie") (join (lit "; ") out).

Definition injectBody (r : SessionRule) (v : qstr) (req : HttpRequest) : bytes :=
  let contentType := findHeader (rq_headers req) (lit "Content-Type") in
  if u_starts_ci contentType (lit "application/x-www-form-urlencoded")
  then upsertFormParameter (rq_body req) (ss_injectKey r) v
  else injectIntoNonFormBody (rq_body req) (ss_injectKey r) (ss_variable r) v (u_contains_ci contentType (lit "json")).

Definition injectUrl (key v path : qstr) : qstr :=
  let sep := if contains_chr 63 path then lit "&" else lit "?" in
  path ++ arg (arg (arg (lit "%1%2=%3") sep) (u_fromutf8 (toPercentEncoding key))) (u_fromutf8 (toPercentEncoding v)).

Definition with_url (p : qstr) (r : HttpRequest) : HttpRequest :=
  mkRequest (rq_method r) p (rq_httpVersion r) (rq_host r) (rq_port r) (rq_tls r) p (rq_headers r) (rq_body r).

(** The template of a rule, and its value when the rule injects. *)
Definition rule_template (r : SessionRule) : qstr :=
  if is_nil (ss_injectTemplate r)
  then arg (lit "{{%1}}") (if is_nil (ss_variable r) then ss_injectKey r else ss_variable r)
  else ss_injectTemplate r.

Definition rule_value (r : SessionRule) (vars : gmap qstr qstr) (host path : qstr) (tool : Z) : option qstr :=
  if negb (ss_enabled r) then None
  else if negb (ruleAppliesToTool (ss_tools r) tool) then None
  else if negb (matches r host path) then None
  else if is_nil (ss_injectKey r) then None
  else
    let v := substitute (rule_template r) vars in
    if is_nil v || hasUnresolvedPlaceholder v then None else Some v.

Definition inject (r : SessionRule) (v : qstr) (req : HttpRequest) : HttpRequest * bool :=
  if ss_injectInto r =? 0 then
    (with_headers (setHeader (rq_headers req) (ss_injectKey r) (ss_injectKey r) (sanitizeHeaderValue v)) req, true)
  else if ss_injectInto r =? 1 then (with_headers (injectCookie (rq_headers req) (ss_injectKey r) v) req, true)
  else if ss_injectInto r =? 2 then
    let body := injectBody r v req in
    if seq_eqb body (rq_body req) then (req, false) else (with_body body req, true)
  else if ss_injectInto r =? 3 then (with_url (injectUrl (ss_injectKey r) v (rq_path req)) req, true)
  else (req, false).

Fixpoint apply_rules (rules : list SessionRule) (vars : gmap qstr qstr) (tool : Z) (req : HttpRequest) (modified : bool)
    : HttpRequest * bool :=
  match rules with
  | [] => (req, modified)
  | r :: rules' =>
      match rule_value r vars (rq_host req) (rq_path req) tool with
      | None => apply_rules rules' vars tool req modified
      | Some v => let '(req', m) := inject r v req in apply_rules rules' vars tool req' (modified || m)
      end
  end.

(** ** The object *)

Record State := mkState {
  m_rules : list SessionRule; m_macros : list SessionMacro;
  m_reauthInFlight : gset qstr; m_lastReauthMs : gmap qstr Z;
  m_varsByHost : gmap qstr (gmap qstr qstr)
}.
Definition emptyState : State := mkState [] [] ∅ ∅ ∅.

Definition bag (s : State) (host : qstr) : gmap qstr qstr := default ∅ (m_varsByHost s !! host).

Definition setRules (rules : list SessionRule) (s : State) : State :=
  mkState rules (m_macros s) (m_reauthInFlight s) (m_lastReauthMs s) (m_varsByHost s).
Definition setMacros (macros : list SessionMacro) (s : State) : State :=
  mkState (m_rules s) macros (m_reauthInFlight s) (m_lastReauthMs s) (m_varsByHost s).
Definition clearAll (s : State) : State :=
  mkState (m_rules s) (m_macros s) (m_reauthInFlight s) (m_lastReauthMs s) ∅.

(** The values of one bag are overwritten or added. *)
Definition store (host : qstr) (vars : gmap qstr qstr) (s : State) : State :=
  mkState (m_rules s) (m_macros s) (m_reauthInFlight s) (m_lastReauthMs s)
    (<[host := vars ∪ bag s host]> (m_varsByHost s)).

Definition ingestVariables (host : qstr) (vars : gmap qstr qstr) (s : State) : State :=
  if is_nil host || bool_decide (vars = ∅) then s else store host vars s.

Definition applyToRequest (s : State) (req : HttpRequest) (tool : Z) : HttpRequest * bool :=
  if is_nil (m_rules s) then (req, false) else apply_rules (m_rules s) (bag s (rq_host req)) tool req false.

(** ** Raw requests *)

(** Head and body at the first blank line. *)
Definition split_head (raw : bytes) : bytes * bytes :=
  match index_sub [13; 10; 13; 10] raw with
  | Some i => (take i raw, drop (i + 4) raw)
  | None => match index_sub [10; 10] raw with
            | Some i => (take i raw, drop (i + 2) raw)
            | None => (raw, [])
            end
  end.

Definition raw_header (l0 : bytes) : option (qstr * qstr) :=
  let l := if ends_with_chr 13 l0 then chop1 l0 else l0 in
  match index_of 58 l with
  | None | Some O => None
  | Some c => Some (u_trimmed (take c l), b_trimmed (drop (c + 1) l))
  end.

Definition parseRequestBytes (raw : bytes) (host : qstr) (port : Z) (tls : bool) : HttpRequest :=
  let '(head, body) := split_head raw in
  match split_on 10 head with
  | [] => mkRequest [] [] [] host (port mod 2 ^ 16) tls [] [] body
  | first :: rest =>
      let p := split_on 32 (b_trimmed first) in
      let method := if (2 <=? length p)%nat then nth 0 p [] else [] in
      let path := if (2 <=? length p)%nat then nth 1 p [] else [] in
      let version := if (3 <=? length p)%nat then nth 2 p [] else [] in
      mkRequest method path version host (port mod 2 ^ 16) tls path (omap raw_header rest) body
  end.

Definition applyToRequestBytes (s : State) (rawRequest : bytes) (host : qstr) (tool : Z) : bytes * bool :=
  let '(req, changed) := applyToRequest s (parseRequestBytes rawRequest host 80 false) tool in
  if changed then (serializeRequestForOrigin req, true) else (rawRequest, false).

(** ** Re-authentication *)

Definition kCooldownMs : Z := 5000.

Definition bodyTextOf (resp : HttpResponse) : qstr := u_fromutf8 (take (Z.to_nat (64 * 1024)) (bodyForInspection resp)).

Definition logged_out (m : SessionMacro) (resp : HttpResponse) : bool :=
  responseIsLoggedOut (rs_statusCode resp) (bodyTextOf resp) (sm_loggedOutStatus m) (sm_loggedOutBodyRegex m).

(** The test before extraction. *)
Definition expired_response (macros : list SessionMacro) (host : qstr) (resp : HttpResponse) : bool :=
  existsb (fun m => seq_eqb (sm_sessionHost m) host && logged_out m resp) macros.

Definition triggers (host : qstr) (resp : HttpResponse) (m : SessionMacro) : bool :=
  negb (is_nil (sm_sessionHost m)) && seq_eqb (sm_sessionHost m) host
  && negb (is_nil (sm_loggedOutStatus m) && is_nil (sm_loggedOutBodyRegex m)) && logged_out m resp.

(** The locked section of [maybeReauth]: the new state and the macro it selected. *)
Definition reauthGate (host : qstr) (resp : HttpResponse) (now : Z) (s : State) : State * option qstr :=
  match List.find (triggers host resp) (m_macros s) with
  | None => (s, None)
  | Some m =>
      if bool_decide (host ∈ m_reauthInFlight s) then (s, None)
      else if now - default 0 (m_lastReauthMs s !! host) <? kCooldownMs then (s, None)
      else (mkState (m_rules s) (m_macros s) ({[host]} ∪ m_reauthInFlight s)
              (<[host := now]> (m_lastReauthMs s)) (m_varsByHost s), Some (sm_name m))
  end.

Definition releaseReauth (host : qstr) (s : State) : State :=
  mkState (m_rules s) (m_macros s) (m_reauthInFlight s ∖ {[host]}) (m_lastReauthMs s) (m_varsByHost s).

(** Where a call or a background task stands between its critical sections.  The host
    of [PLoad] and [PNet] is the one whose refresh it is ([None] for a manual run). *)
Inductive Phase :=
| PExtract (req : HttpRequest) (resp : HttpResponse)
| PStore (req : HttpRequest) (resp : HttpResponse) (vars : gmap qstr qstr)
| PReauth (host : qstr) (resp : HttpResponse)
| PLoad (name : qstr) (refresh : option qstr)
| PNet (m : SessionMacro) (refresh : option qstr)
| PRelease (host : qstr).

(** The state, what is under way, and (ghost) the refreshes started, latest first. *)
Record World := mkWorld { w_state : State; w_tasks : list Phase; w_started : list (qstr * Z) }.
Definition start : World := mkWorld emptyState [] [].

(** After [runMacro] the refresh releases its host; a manual run is over. *)
Definition after_macro (refresh : option qstr) : list Phase :=
  match refresh with Some h => [PRelease h] | None => [] end.

(** One critical section of a task: the new state, what the task becomes, and the
    refresh it started.  [now] is the clock and [net] the network of that moment. *)
Definition runPhase (now : Z) (net : nat -> SendResult) (p : Phase) (s : State) : State * list Phase * list (qstr * Z) :=
  match p with
  | PExtract req resp =>
      let next := PReauth (rq_host req) resp in
      if expired_response (m_macros s) (rq_host req) resp then (s, [next], [])
      else let vars := extractVars (m_rules s) req resp in
           (s, [if bool_decide (vars = ∅) then next else PStore req resp vars], [])
  | PStore req resp vars => (store (rq_host req) vars s, [PReauth (rq_host req) resp], [])
  | PReauth host resp =>
      let '(s', started) := reauthGate host resp now s in
      match started with
      | None => (s', [], [])
      | Some name => (s', if is_nil name then [] else [PLoad name (Some host)], [(host, now)])
      end
  | PLoad name refresh =>
      match List.find (fun m => seq_eqb (sm_name m) name) (m_macros s) with
      | None => (s, after_macro refresh, [])
      | Some m => (s, if is_nil (sm_steps m) then after_macro refresh else [PNet m refresh], [])
      end
  | PNet m refresh =>
      let vars := snd (fst (run (sm_steps m) false net)) in
      (if bool_decide (vars = ∅) then s else ingestVariables (sm_sessionHost m) vars s, after_macro refresh, [])
  | PRelease host => (releaseReauth host s, [], [])
  end.

Inductive Label :=
| LSetRules (rules : list SessionRule)
| LSetMacros (macros : list SessionMacro)
| LClearAll
| LIngest (host : qstr) (vars : gmap qstr qstr)
| LRunMacro (name : qstr)
| LResponse (req : HttpRequest) (resp : HttpResponse)
| LTask (i : nat) (now : Z) (net : nat -> SendResult).

Definition with_state (w : World) (s : State) : World := mkWorld s (w_tasks w) (w_started w).
Definition spawn (w : World) (p : Phase) : World := mkWorld (w_state w) (w_tasks w ++ [p]) (w_started w).

Definition exec (w : World) (a : Label) : option World :=
  match a with
  | LSetRules rules => Some (with_state w (setRules rules (w_state w)))
  | LSetMacros macros => Some (with_state w (setMacros macros (w_state w)))
  | LClearAll => Some (with_state w (clearAll (w_state w)))
  | LIngest host vars => Some (with_state w (ingestVariables host vars (w_state w)))
  | LRunMacro name => Some (spawn w (PLoad name None))
  | LResponse req resp => Some (spawn w (PExtract req resp))
  | LTask i now net =>
      match w_tasks w !! i with
      | None => None
      | Some p =>
          let '(s', next, started) := runPhase now net p (w_state w) in
          Some (mkWorld s' (take i (w_tasks w) ++ next ++ drop (S i) (w_tasks w)) (started ++ w_started w))
      end
  end.

Definition sstep (w : World) (a : Label) (w' : World) : Prop := exec w a = Some w'.

(** ** JSON *)

Definition toStringOr (d : qstr) (v : json) : qstr := match v with JString s => s | _ => d end.

Definition from_name (f : From) : qstr :=
  match f with Header => lit "header" | Cookie => lit "cookie" | Json => lit "json" | Regex => lit "regex" | Status => lit "status" end.
Definition from_of (s : qstr) : From :=
  if seq_eqb s (lit "cookie") then Cookie else if seq_eqb s (lit "json") then Json
  else if seq_eqb s (lit "regex") then Regex else if seq_eqb s (lit "status") then Status else Header.

Definition extractToJson (e : Extract) : json :=
  JObject (object [(lit "var", JString (ex_var e)); (lit "key", JString (ex_key e)); (lit "from", JString (from_name (ex_from e)))]).
Definition stepToJson (st : Step) : json :=
  JObject (object [(lit "name", JString (st_name st)); (lit "host", JString (st_host st)); (lit "port", JInt (st_port st));
    (lit "tls", JBool (st_tls st)); (lit "request", JString (u_fromutf8 (st_request st)));
    (lit "extract", JArray (map extractToJson (st_extracts st)))]).
Definition sessionMacrosToJson (macros : list SessionMacro) : list json :=
  map (fun m => JObject (object [(lit "name", JString (sm_name m)); (lit "sessionHost", JString (sm_sessionHost m));
    (lit "loggedOutStatus", JString (sm_loggedOutStatus m)); (lit "loggedOutBodyRegex", JString (sm_loggedOutBodyRegex m));
    (lit "steps", JArray (map stepToJson (sm_steps m)))])) macros.

Definition extractFromJson (v : json) : Extract :=
  let eo := toObject v in
  mkExtract (toString (value eo (lit "var"))) (from_of (u_lower (toStringOr (lit "header") (value eo (lit "from")))))
    (toString (value eo (lit "key"))).
Definition stepFromJson (v : json) : Step :=
  let so := toObject v in
  let tls := toBool true (value so (lit "tls")) in
  mkStep (toString (value so (lit "name"))) (toString (value so (lit "host")))
    (toInt (if tls then 443 else 80) (value so (lit "port"))) tls (u_toutf8 (toString (value so (lit "request"))))
    (map extractFromJson (toArray (value so (lit "extract")))).
Definition sessionMacrosFromJson (arr : list json) : list SessionMacro :=
  map (fun v =>
    let mo := toObject v in
    mkMacro (toString (value mo (lit "name"))) (toString (value mo (lit "sessionHost")))
      (map stepFromJson (toArray (value mo (lit "steps")))) (toString (value mo (lit "loggedOutStatus")))
      (toString (value mo (lit "loggedOutBodyRegex")))) arr.

Definition sessionRulesToJson (rules : list SessionRule) : list json :=
  map (fun r => JObject (object [(lit "name", JString (ss_name r)); (lit "enabled", JBool (ss_enabled r));
    (lit "hostGlob", JString (ss_hostGlob r)); (lit "pathGlob", JString (ss_pathGlob r));
    (lit "extractFrom", JInt (ss_extractFrom r)); (lit "extractKey", JString (ss_extractKey r));
    (lit "variable", JString (ss_variable r)); (lit "injectInto", JInt (ss_injectInto r));
    (lit "injectKey", JString (ss_injectKey r)); (lit "injectTemplate", JString (ss_injectTemplate r));
    (lit "tools", JInt (ss_tools r)); (lit "includeUrls", JArray (map JString (ss_includeUrls r)));
    (lit "excludeUrls", JArray (map JString (ss_excludeUrls r)))])) rules.

Definition url_list (v : json) : list qstr := List.filter (fun u => negb (is_nil u)) (map toString (toArray v)).
Definition ruleFromJson (v : json) : SessionRule :=
  let o := toObject v in
  mkSessionRule (toString (value o (lit "name"))) (toBool true (value o (lit "enabled")))
    (toStringOr (lit "*") (value o (lit "hostGlob"))) (toStringOr (lit "*") (value o (lit "pathGlob")))
    (toInt 0 (value o (lit "extractFrom"))) (toString (value o (lit "extractKey"))) (toString (value o (lit "variable")))
    (toInt 0 (value o (lit "injectInto"))) (toString (value o (lit "injectKey")))
    (toString (value o (lit "injectTemplate"))) (toInt 0 (value o (lit "tools")))
    (url_list (value o (lit "includeUrls"))) (url_list (value o (lit "excludeUrls"))).
Definition sessionRulesFromJson (arr : list json) : list SessionRule := map ruleFromJson arr.
End SessionRulesLogic.

(** ** Re-authentication: one refresh per host at a time, five seconds apart *)

Section Reauth.
Context `{QtText, QtRegex, QtReplace, QtJson, QtCapture, QtUrl}.

(** The host a task will release. *)
Definition refresh_host (p : Phase) : option qstr :=
  match p with PLoad _ r => r | PNet _ r => r | PRelease h => Some h | _ => None end.
Definition refreshing (w : World) : list qstr := omap refresh_host (w_tasks w).

(** Earlier starts for a host are at least the cooldown before later ones. *)
Fixpoint spaced (log : list (qstr * Z)) : Prop :=
  match log with
  | [] => True
  | (h, t) :: log' => (forall t', (h, t') ∈ log' -> t' + kCooldownMs <= t) /\ spaced log'
  end.

(** The last start of a host bounds the earlier ones. *)
Definition last_known (w : World) : Prop :=
  forall h t, (h, t) ∈ w_started w -> exists t', m_lastReauthMs (w_state w) !! h = Some t' /\ t <= t'.

Definition guard (w : World) : Prop :=
  NoDup (refreshing w) /\ (forall h, h ∈ refreshing w -> h ∈ m_reauthInFlight (w_state w)) /\
  spaced (w_started w) /\ last_known w.

Lemma refresh_after_macro r : omap refresh_host (after_macro r) = option_list r.
Proof. by destruct r. Qed.

(** What a critical section does to the refreshes. *)
Inductive phase_effect (now : Z) (p : Phase) (s : State) : State * list Phase * list (qstr * Z) -> Prop :=
| pe_same s' next :
    omap refresh_host next = option_list (refresh_host p) ->
    m_reauthInFlight s' = m_reauthInFlight s -> m_lastReauthMs s' = m_lastReauthMs s ->
    m_macros s' = m_macros s -> m_rules s' = m_rules s ->
    phase_effect now p s (s', next, [])
| pe_start host resp m s' next :
    p = PReauth host resp -> host ∉ m_reauthInFlight s ->
    kCooldownMs <= now - default 0 (m_lastReauthMs s !! host) ->
    m_reauthInFlight s' = {[host]} ∪ m_reauthInFlight s -> m_lastReauthMs s' = <[host := now]> (m_lastReauthMs s) ->
    m_macros s' = m_macros s -> m_rules s' = m_rules s -> m ∈ m_macros s ->
    next = (if is_nil (sm_name m) then [] else [PLoad (sm_name m) (Some host)]) ->
    phase_effect now p s (s', next, [(host, now)])
| pe_release host s' :
    p = PRelease host -> m_reauthInFlight s' = m_reauthInFlight s ∖ {[host]} ->
    m_lastReauthMs s' = m_lastReauthMs s -> m_macros s' = m_macros s -> m_rules s' = m_rules s ->
    phase_effect now p s (s', [], []).

Lemma ingest_fields host vars s :
  m_reauthInFlight (ingestVariables host vars s) = m_reauthInFlight s /\
  m_lastReauthMs (ingestVariables host vars s) = m_lastReauthMs s /\
  m_macros (ingestVariables host vars s) = m_macros s /\ m_rules (ingestVariables host vars s) = m_rules s.
Proof. unfold ingestVariables. by destruct (_ || _). Qed.

Lemma runPhase_effect now net p s : phase_effect now p s (runPhase now net p s).
Proof.
  destruct p as [req resp|req resp vars|host resp|name r|m r|host]; cbn [runPhase].
  - destruct (expired_response _ _ _); [by apply pe_same|]. apply pe_same; try done.
    by destruct (bool_decide _).
  - by apply pe_same.
  - unfold reauthGate. destruct (List.find _ _) as [m|] eqn:Ef; [|by apply pe_same].
    case_bool_decide as Hin; [by apply pe_same|]. destruct (_ <? kCooldownMs) eqn:Ec; [by apply pe_same|].
    to_prop. apply find_some in Ef as [Hm _]. eapply pe_start; try done. by apply list_elem_of_In.
  - destruct (List.find _ _) as [m|]; [|apply pe_same; try done; apply refresh_after_macro].
    apply pe_same; try done. destruct (is_nil _); [apply refresh_after_macro|by destruct r].
  - case_bool_decide; [apply pe_same; try done; apply refresh_after_macro|].
    destruct (ingest_fields (sm_sessionHost m) (snd (fst (run (sm_steps m) false net))) s) as (? & ? & ? & ?).
    apply pe_same; try done. apply refresh_after_macro.
  - by eapply pe_release.
Qed.

(** The state labels leave the refresh bookkeeping alone. *)
Lemma exec_quiet w a w' : exec w a = Some w' -> (forall i now net, a <> LTask i now net) ->
  refreshing w' = refreshing w /\ w_started w' = w_started w /\
  m_reauthInFlight (w_state w') = m_reauthInFlight (w_state w) /\
  m_lastReauthMs (w_state w') = m_lastReauthMs (w_state w).
Proof.
  intros He Hn. unfold refreshing.
  destruct a as [rs|ms| |h v|nm|req resp|i now net]; [..|by destruct (Hn i now net)]; injection He as <-;
    cbn [with_state spawn w_tasks w_started w_state]; rewrite ?omap_app; cbn [omap list_omap refresh_host]; rewrite ?app_nil_r;
    split_and!; try done; by destruct (ingest_fields h v (w_state w)) as (? & ? & ? & ?).
Qed.

Lemma omap_task p l : omap refresh_host (p :: l) = option_list (refresh_host p) ++ omap refresh_host l.
Proof. cbn. by destruct (refresh_host p). Qed.

(** A task step, with the other tasks named. *)
Lemma exec_task w i now net w' : exec w (LTask i now net) = Some w' ->
  exists l1 p l2 s' next started, w_tasks w = l1 ++ p :: l2 /\ phase_effect now p (w_state w) (s', next, started) /\
    runPhase now net p (w_state w) = (s', next, started) /\ w' = mkWorld s' (l1 ++ next ++ l2) (started ++ w_started w).
Proof.
  cbn [exec]. destruct (w_tasks w !! i) as [p|] eqn:Ei; [|done]. intros He.
  pose proof (runPhase_effect now net p (w_state w)) as Hp.
  destruct (runPhase now net p (w_state w)) as [[s' next] started] eqn:Er. injection He as <-.
  exists (take i (w_tasks w)), p, (drop (S i) (w_tasks w)), s', next, started.
  split; [symmetry; by apply take_drop_middle|]. by split_and!.
Qed.

Lemma guard_step w a w' : guard w -> sstep w a w' -> guard w'.
Proof.
  intros (Hn & Hin & Hsp & Hl) He. unfold sstep in He.
  destruct a as [rs|ms| |h v|nm|req resp|i now net];
    try (destruct (exec_quiet _ _ _ He ltac:(done)) as (E1 & E2 & E3 & E4); unfold guard, last_known; by rewrite E1, E2, E3, E4).
  destruct (exec_task _ _ _ _ _ He) as (l1 & p & l2 & s' & next & started & Ht & Hp & _ & ->).
  unfold guard, last_known, refreshing in *. rewrite Ht, omap_app, omap_task in Hn, Hin. cbn [w_tasks w_state w_started].
  rewrite !omap_app. set (r1 := omap refresh_host l1) in *. set (r2 := omap refresh_host l2) in *. clearbody r1 r2.
  inversion Hp as [? ? Hr Hf Hms|host resp m ? ? -> Hni Hc Hf Hms _ _ _ ->|host ? -> Hf Hms]; subst; rewrite Hf, Hms.
  - by rewrite Hr.
  - cbn [refresh_host option_list app] in Hn, Hin. assert (Hx : host ∉ r1 ++ r2) by (intros Hx; by apply Hni, Hin).
    split_and!.
    + destruct (is_nil (sm_name m)); [done|]. cbn [omap list_omap refresh_host app].
      apply NoDup_app in Hn as (? & ? & ?). rewrite not_elem_of_app in Hx. apply NoDup_app. split_and!; [done| |].
      * intros y Hy. rewrite not_elem_of_cons. split; [intros ->; tauto|auto].
      * apply NoDup_cons. tauto.
    + intros h Hh. assert (Hh' : h = host \/ h ∈ r1 ++ r2).
      { destruct (is_nil (sm_name m)); cbn in Hh; rewrite ?elem_of_app, ?elem_of_cons in *; tauto. }
      destruct Hh' as [->|Hh']; [set_solver|]. apply Hin in Hh'. set_solver.
    + cbn [app spaced]. split; [|done]. intros t' Ht'. destruct (Hl _ _ Ht') as (t2 & Hl1 & Hl2). rewrite Hl1 in Hc.
      unfold kCooldownMs in *. cbn in Hc. lia.
    + intros h t. cbn [app]. rewrite elem_of_cons. intros [[= -> ->]|Hh]; [exists now; by rewrite lookup_insert_eq|].
      destruct (Hl _ _ Hh) as (t2 & Hl1 & Hl2). destruct (decide (h = host)) as [->|Hne].
      * exists now. rewrite lookup_insert_eq. split; [done|]. rewrite Hl1 in Hc. unfold kCooldownMs in Hc. cbn in Hc. lia.
      * exists t2. by rewrite lookup_insert_ne.
  - cbn [refresh_host option_list app omap list_omap] in *. split_and!; [| |done|done].
    + apply NoDup_app in Hn as (H1n & H2n & H3n). apply NoDup_cons in H3n as [_ H3n]. apply NoDup_app.
      split_and!; [done| |done]. intros y Hy Hy2. apply (H2n y Hy). by right.
    + intros h Hh. apply elem_of_difference. split; [apply Hin; set_solver|]. intros ->%elem_of_singleton.
      apply NoDup_app in Hn as (_ & H2n & H3n). apply NoDup_cons in H3n as [H3n _].
      apply elem_of_app in Hh as [Hh|Hh]; [|done]. apply (H2n host Hh). left.
Qed.

(** With named macros a host marked as refreshing has a refresh under way. *)
Definition macros_named (macros : list SessionMacro) : Prop := Forall (fun m => sm_name m <> []) macros.
Definition label_named (a : Label) : Prop := match a with LSetMacros ms => macros_named ms | _ => True end.

Definition no_leak (w : World) : Prop :=
  macros_named (m_macros (w_state w)) /\ forall h, h ∈ m_reauthInFlight (w_state w) -> h ∈ refreshing w.

Lemma no_leak_step w a w' : no_leak w -> sstep w a w' /\ label_named a -> no_leak w'.
Proof.
  intros [Hm Hin] [He Ha]. unfold sstep in He.
  destruct a as [rs|ms| |h v|nm|req resp|i now net];
    try (destruct (exec_quiet _ _ _ He ltac:(done)) as (E1 & E2 & E3 & E4); unfold no_leak; rewrite E1, E3;
         split; [|done]; injection He as <-; try done).
  { cbn. by destruct (ingest_fields h v (w_state w)) as (_ & _ & -> & _). }
  destruct (exec_task _ _ _ _ _ He) as (l1 & p & l2 & s' & next & started & Ht & Hp & _ & ->).
  unfold no_leak, refreshing in *. rewrite Ht, omap_app, omap_task in Hin. cbn [w_tasks w_state].
  rewrite !omap_app. set (r1 := omap refresh_host l1) in *. set (r2 := omap refresh_host l2) in *. clearbody r1 r2.
  inversion Hp as [? ? Hr Hf _ Hmm|host resp m ? ? -> Hni Hc Hf Hms Hmm _ Hmin ->|host ? -> Hf Hms Hmm]; subst; rewrite Hf, Hmm.
  - by rewrite Hr.
  - split; [done|]. unfold macros_named in Hm. rewrite Forall_forall in Hm. specialize (Hm _ Hmin).
    destruct (sm_name m) as [|c n] eqn:En; [done|]. cbn [is_nil omap list_omap refresh_host].
    intros h [->%elem_of_singleton|Hh]%elem_of_union; [set_solver|]. apply Hin in Hh.
    cbn [refresh_host option_list] in Hh. set_solver.
  - split; [done|]. intros h [Hh Hne]%elem_of_difference. apply Hin in Hh. cbn [refresh_host option_list omap list_omap] in *.
    set_solver.
Qed.

(** A host left marked without a refresh stays marked, and is never refreshed again. *)
Definition stuck (host : qstr) (w : World) : Prop := host ∈ m_reauthInFlight (w_state w) /\ host ∉ refreshing w.
Definition starts_of (host : qstr) (w : World) : list (qstr * Z) :=
  List.filter (fun e => seq_eqb (fst e) host) (w_started w).

Lemma stuck_step host w a w' : stuck host w -> sstep w a w' -> stuck host w' /\ starts_of host w' = starts_of host w.
Proof.
  intros [Hin Hni] He. unfold sstep in He. unfold stuck, starts_of.
  destruct a as [rs|ms| |h v|nm|req resp|i now net];
    try (destruct (exec_quiet _ _ _ He ltac:(done)) as (E1 & E2 & E3 & E4); by rewrite E1, E2, E3).
  destruct (exec_task _ _ _ _ _ He) as (l1 & p & l2 & s' & next & started & Ht & Hp & _ & ->).
  unfold refreshing in *. rewrite Ht, omap_app, omap_task in Hni. cbn [w_tasks w_state w_started].
  rewrite !omap_app. set (r1 := omap refresh_host l1) in *. set (r2 := omap refresh_host l2) in *. clearbody r1 r2.
  inversion Hp as [? ? Hr Hf|host' resp m ? ? -> Hni' _ Hf _ _ _ _ ->|host' ? -> Hf]; subst; rewrite Hf.
  - by rewrite Hr.
  - assert (Hne : host' <> host) by (by intros ->). cbn [refresh_host option_list app] in Hni. split.
    + split; [set_solver|]. destruct (is_nil (sm_name m)); cbn [omap list_omap refresh_host]; set_solver.
    + cbn [app List.filter fst]. destruct (seq_eqb host' host) eqn:E; [by apply seq_eqb_eq in E|done].
  - cbn [refresh_host option_list omap list_omap] in *. split; [|done]. set_solver.
Qed.
End Reauth.

(** C33. Re-authentication is guarded.  Over every interleaving of responses, manual
    runs, edits and background refreshes: each host has at most one refresh under
    way, two refreshes of one host start at least five seconds apart, and a host that
    is marked stays marked while its refresh runs; when every macro has a name, a host
    is marked exactly while its refresh is under way, so no host is locked out. *)
Theorem reauth_guarded `{QtText, QtRegex, QtReplace, QtJson, QtCapture, QtUrl} tr w :
  steps sstep start tr w ->
  NoDup (refreshing w) /\ spaced (w_started w) /\
  (forall h, h ∈ refreshing w -> h ∈ m_reauthInFlight (w_state w)) /\
  (Forall label_named tr -> forall h, h ∈ m_reauthInFlight (w_state w) <-> h ∈ refreshing w).
Proof.
  intros Hs. assert (Hg : guard w).
  { apply (steps_invariant _ guard guard_step _ _ _ Hs). split_and!; [apply NoDup_nil_2| |done|].
    - intros h Hh. by apply not_elem_of_nil in Hh.
    - intros h t Ht. by apply not_elem_of_nil in Ht. }
  destruct Hg as (Hn & Hin & Hsp & _). split_and!; [done..|]. intros Hl h. split; [|apply Hin].
  apply (steps_invariant _ no_leak no_leak_step _ _ _ (steps_restrict _ _ _ _ _ Hs Hl)).
  split; [constructor|]. intros h' Hh'. by apply not_elem_of_empty in Hh'.
Qed.

(** ** Where the values of a host's bag come from *)

Section Provenance.
Context `{QtText, QtRegex, QtReplace, QtJson, QtCapture, QtUrl}.

(** A rule that was set extracts [x] as [name] from a response to a request to [host]. *)
Definition extracted (tr : list Label) (host name x : qstr) : Prop :=
  exists req resp rules r, LResponse req resp ∈ tr /\ LSetRules rules ∈ tr /\ r ∈ rules /\ rq_host req = host /\
    matches r host (rq_path req) = true /\ ss_variable r = name /\ extractValue r resp = x.

(** A macro that was set for [host] obtains [x] as [name] when it is run. *)
Definition acquired (tr : list Label) (host name x : qstr) : Prop :=
  exists macros m i now net, LSetMacros macros ∈ tr /\ m ∈ macros /\ LTask i now net ∈ tr /\ sm_sessionHost m = host /\
    snd (fst (run (sm_steps m) false net)) !! name = Some x.

Definition ingested (tr : list Label) (host name x : qstr) : Prop :=
  exists vars, LIngest host vars ∈ tr /\ vars !! name = Some x.

Definition source (tr : list Label) (host name x : qstr) : Prop :=
  extracted tr host name x \/ acquired tr host name x \/ ingested tr host name x.

(** What a task may carry. *)
Definition task_ok (tr : list Label) (p : Phase) : Prop :=
  match p with
  | PExtract req resp => LResponse req resp ∈ tr
  | PStore req _ vars => forall name x, vars !! name = Some x -> extracted tr (rq_host req) name x
  | PNet m _ => exists macros, LSetMacros macros ∈ tr /\ m ∈ macros
  | _ => True
  end.

Definition config_ok (tr : list Label) (s : State) : Prop :=
  (forall r, r ∈ m_rules s -> exists rules, LSetRules rules ∈ tr /\ r ∈ rules) /\
  (forall m, m ∈ m_macros s -> exists macros, LSetMacros macros ∈ tr /\ m ∈ macros).
Definition bags_ok (tr : list Label) (s : State) : Prop :=
  forall host name x, bag s host !! name = Some x -> source tr host name x.
Definition provenance (tr : list Label) (w : World) : Prop :=
  config_ok tr (w_state w) /\ bags_ok tr (w_state w) /\ Forall (task_ok tr) (w_tasks w).

(** Longer traces have more sources. *)
Lemma source_app tr a host name x : source tr host name x -> source (tr ++ [a]) host name x.
Proof.
  intros [(q & p & rs & r & ? & ? & ?)|[(ms & m & i & n & net & ? & ? & ? & ?)|(v & ? & ?)]]; [left|right; left|right; right].
  - exists q, p, rs, r. rewrite !elem_of_app. tauto.
  - exists ms, m, i, n, net. rewrite !elem_of_app. tauto.
  - exists v. rewrite elem_of_app. tauto.
Qed.

Lemma extracted_app tr a host name x : extracted tr host name x -> extracted (tr ++ [a]) host name x.
Proof. intros (q & p & rs & r & ? & ? & ?). exists q, p, rs, r. rewrite !elem_of_app. tauto. Qed.

Lemma task_ok_app tr a p : task_ok tr p -> task_ok (tr ++ [a]) p.
Proof.
  destruct p as [q r|q r v|h r|n r|m r|h]; cbn [task_ok]; try done.
  - rewrite elem_of_app. tauto.
  - intros Hv name x Hx. by apply extracted_app, Hv.
  - intros (ms & ? & ?). exists ms. rewrite elem_of_app. tauto.
Qed.

Lemma config_ok_app tr a s : config_ok tr s -> config_ok (tr ++ [a]) s.
Proof.
  intros [Hr Hm]. split; [intros r Hin; destruct (Hr r Hin) as (l & ? & ?)|intros m Hin; destruct (Hm m Hin) as (l & ? & ?)];
    exists l; rewrite elem_of_app; tauto.
Qed.

Lemma bags_ok_app tr a s : bags_ok tr s -> bags_ok (tr ++ [a]) s.
Proof. intros Hb h n x Hx. by apply source_app, Hb. Qed.

Lemma provenance_app tr a w : provenance tr w -> provenance (tr ++ [a]) w.
Proof.
  intros (Hc & Hb & Ht). split_and!; [by apply config_ok_app|by apply bags_ok_app|].
  eapply Forall_impl; [exact Ht|]. apply task_ok_app.
Qed.

Lemma store_bags tr host vars s :
  bags_ok tr s -> (forall name x, vars !! name = Some x -> source tr host name x) -> bags_ok tr (store host vars s).
Proof.
  intros Hb Hv h name x Hx. unfold bag in Hx at 1. cbn [store m_varsByHost] in Hx. destruct (decide (h = host)) as [->|Hne].
  - rewrite lookup_insert_eq in Hx. cbn [default] in Hx. apply lookup_union_Some_raw in Hx as [Hx|[_ Hx]]; [by apply Hv|by apply Hb].
  - rewrite lookup_insert_ne in Hx by done. by apply Hb.
Qed.

Lemma ingest_bags tr host vars s :
  bags_ok tr s -> (forall name x, vars !! name = Some x -> source tr host name x) ->
  bags_ok tr (ingestVariables host vars s).
Proof. intros Hb Hv. unfold ingestVariables. destruct (_ || _); [done|by apply store_bags]. Qed.

(** What the extraction loop collects. *)
Lemma extractVars_source tr s req resp name x :
  config_ok tr s -> LResponse req resp ∈ tr -> extractVars (m_rules s) req resp !! name = Some x ->
  extracted tr (rq_host req) name x.
Proof.
  intros [Hr _] Hin. unfold extractVars.
  assert (G : forall rules vars, (forall r, r ∈ rules -> r ∈ m_rules s) ->
            (forall n y, vars !! n = Some y -> extracted tr (rq_host req) n y) ->
            forall n y, fold_left (extractInto req resp) rules vars !! n = Some y -> extracted tr (rq_host req) n y).
  { induction rules as [|r rules IH]; intros vars Hs Hv; [exact Hv|]. cbn [fold_left]. unfold extractInto at 2.
    assert (Hs' : forall r0, r0 ∈ rules -> r0 ∈ m_rules s) by (intros r0 Hr0; apply Hs; by right).
    destruct (negb (ss_enabled r)); [by apply IH|].
    destruct (matches r (rq_host req) (rq_path req)) eqn:Em; [|by apply IH]. cbn [negb].
    destruct (_ || _); [by apply IH|]. cbv zeta. destruct (is_nil _); [by apply IH|]. apply IH; [done|].
    intros n y Hy. destruct (decide (n = ss_variable r)) as [->|Hne].
    - rewrite lookup_insert_eq in Hy. injection Hy as <-. destruct (Hr r (Hs r ltac:(left))) as (rs & ? & ?).
      exists req, resp, rs, r. by split_and!.
    - rewrite lookup_insert_ne in Hy by done. by apply Hv. }
  apply G; [done|]. intros n y Hy. by rewrite lookup_empty in Hy.
Qed.

Lemma provenance_phase tr now net p s s' next started i :
  config_ok tr s -> bags_ok tr s -> task_ok tr p -> LTask i now net ∈ tr -> runPhase now net p s = (s', next, started) ->
  bags_ok tr s' /\ Forall (task_ok tr) next.
Proof.
  intros Hc Hb Hp Hi Hr. assert (Ham : forall r, Forall (task_ok tr) (after_macro r)) by (intros [h|]; by repeat constructor).
  destruct p as [req resp|req resp vars|host resp|name r|m r|host]; cbn [runPhase] in Hr.
  - destruct (expired_response _ _ _); simplify_eq; (split; [done|]); apply Forall_singleton; [done|].
    case_bool_decide; [done|]. cbn [task_ok]. intros n x Hx. by eapply extractVars_source.
  - simplify_eq. split; [|by apply Forall_singleton]. apply store_bags; [done|]. intros n x Hx. left. by apply Hp.
  - unfold reauthGate in Hr. repeat case_match; simplify_eq; (split; [done|]); try apply Forall_nil_2; by apply Forall_singleton.
  - destruct (List.find _ _) as [m|] eqn:Ef; simplify_eq; (split; [done|]); [|apply Ham].
    destruct (is_nil _); [apply Ham|]. apply Forall_singleton. cbn [task_ok]. apply find_some in Ef as [Hm _].
    apply (proj2 Hc). by apply list_elem_of_In.
  - simplify_eq. split; [|apply Ham]. case_bool_decide; [done|]. apply ingest_bags; [done|]. intros n x Hx.
    right. left. destruct Hp as (ms & ? & ?). exists ms, m, i, now, net. by split_and!.
  - simplify_eq. by split.
Qed.

Lemma provenance_step tr w a w' : provenance tr w -> sstep w a w' -> provenance (tr ++ [a]) w'.
Proof.
  intros Hp He. unfold sstep in He. assert (Ha : a ∈ tr ++ [a]) by set_solver.
  pose proof (provenance_app tr a w Hp) as (Hc & Hb & Ht). clear Hp.
  destruct a as [rs|ms| |h v|nm|req resp|i now net].
  - injection He as <-. split_and!; [|done|done]. split; [|apply Hc]. intros r Hr. by exists rs.
  - injection He as <-. split_and!; [|done|done]. split; [apply Hc|]. intros m Hm. by exists ms.
  - injection He as <-. split_and!; [done| |done]. intros h n x Hx. unfold bag in Hx.
    cbn [with_state w_state clearAll m_varsByHost] in Hx. rewrite lookup_empty in Hx. cbn [default] in Hx.
    by rewrite lookup_empty in Hx.
  - injection He as <-. destruct (ingest_fields h v (w_state w)) as (_ & _ & Em & Er).
    split_and!; [|apply ingest_bags; [done|]|done].
    + unfold config_ok. cbn [with_state w_state]. by rewrite Em, Er.
    + intros n x Hx. right. right. by exists v.
  - injection He as <-. split_and!; [done..|]. apply Forall_app. by repeat constructor.
  - injection He as <-. split_and!; [done..|]. apply Forall_app. split; [done|]. by apply Forall_singleton.
  - destruct (exec_task _ _ _ _ _ He) as (l1 & p & l2 & s' & next & started & Hw & Hpe & Hr & ->).
    rewrite Hw in Ht. apply Forall_app in Ht as [Ht1 Ht]. apply Forall_cons in Ht as [Htp Ht2].
    destruct (provenance_phase _ _ _ _ _ _ _ _ i Hc Hb Htp Ha Hr) as [Hb' Hn].
    split_and!; [|done|cbn [w_tasks]; by rewrite !Forall_app]. unfold config_ok. cbn [w_state].
    inversion Hpe as [? ? _ _ _ Em Er|? ? ? ? ? _ _ _ _ _ Em Er|? ? _ _ _ Em Er]; subst; by rewrite Em, Er.
Qed.
End Provenance.

(** C9. A secret never crosses hosts.  Over every interleaving, each value in the bag
    that [applyToRequest] reads for a request's host was extracted by a rule that was
    set and matched from a response of that same host, obtained by running a macro
    that was set for that host, or handed in for that host: no value of another host
    is ever there. *)
Theorem session_values_provenance `{QtText, QtRegex, QtReplace, QtJson, QtCapture, QtUrl} tr w req tool :
  steps sstep start tr w ->
  (forall name x, bag (w_state w) (rq_host req) !! name = Some x -> source tr (rq_host req) name x) /\
  applyToRequest (w_state w) req tool
  = apply_rules (m_rules (w_state w)) (bag (w_state w) (rq_host req)) tool req false.
Proof.
  intros Hs. split.
  - intros name x Hx.
    assert (Hp : provenance ([] ++ tr) w).
    { apply (steps_invariant_trace _ provenance provenance_step _ _ _ _ Hs). split_and!; [split| |constructor].
      - intros r Hr. by apply not_elem_of_nil in Hr.
      - intros m Hm. by apply not_elem_of_nil in Hm.
      - intros h n y Hy. unfold bag in Hy.
        unfold start, emptyState in Hy. cbn [w_state m_varsByHost] in Hy. rewrite lookup_empty in Hy. cbn [default] in Hy.
        by rewrite lookup_empty in Hy. }
    by apply Hp.
  - unfold applyToRequest. by destruct (m_rules (w_state w)).
Qed.

(** ** Injection adds no line, no space in the URL and nothing else *)

Section InjectionSafety.
Context `{QtTextLaws, !QtUtf8 Q, QtRegex, QtReplace, QtJson, QtCapture, QtUrl}.

Definition url_safe (c : Z) : Prop := 33 <= c <= 126.
Definition header_clean (h : qstr * qstr) : Prop := clean (fst h) /\ clean (snd h).
Definition request_clean (req : HttpRequest) : Prop :=
  Forall header_clean (rq_headers req) /\ Forall url_safe (rq_path req).

Lemma clean_sub s t : clean s -> (forall c, c ∈ t -> c ∈ s) -> clean t.
Proof. intros Hs Hi. apply Forall_forall. intros c Hc. unfold clean in Hs. rewrite Forall_forall in Hs. auto. Qed.

Lemma clean_filter f s : clean s -> clean (List.filter f s).
Proof. intros Hs. apply (clean_sub _ _ Hs). intros c Hc. apply list_elem_of_In, filter_In in Hc as [Hc _]. by apply list_elem_of_In. Qed.

Lemma sanitizeHeaderValue_clean v : clean (sanitizeHeaderValue v).
Proof. apply sanitize_clean. Qed.
Lemma sanitizeCookieValue_clean v : clean (sanitizeCookieValue v).
Proof. apply clean_filter, sanitizeHeaderValue_clean. Qed.

Lemma setHeader_clean hs name key v : Forall header_clean hs -> clean key -> clean v -> Forall header_clean (setHeader hs name key v).
Proof.
  intros Hh Hk Hv. unfold setHeader. destruct (headerIndex hs name) as [i|].
  - apply Forall_alter; [done|]. by intros h _ [Hn _].
  - apply Forall_app. split; [done|]. by apply Forall_singleton.
Qed.

Lemma headerIndex_lookup hs name i : headerIndex hs name = Some i -> exists h, hs !! i = Some h.
Proof.
  revert i. induction hs as [|h hs IH]; intros i Hi; [done|]. cbn [headerIndex] in Hi.
  destruct (u_cieq _ _); simplify_eq; [by exists h|]. destruct (headerIndex hs name) as [j|]; simplify_eq/=. by apply IH.
Qed.

Lemma join_clean sep ps : clean sep -> Forall clean ps -> clean (join sep ps).
Proof.
  intros Hs. induction 1 as [|p ps Hp Hps IH]; [constructor|]. destruct ps as [|q ps]; [done|].
  change (join sep (p :: q :: ps)) with (p ++ sep ++ join sep (q :: ps)). unfold clean in *. by rewrite !Forall_app.
Qed.

Lemma cookie_pair_clean key cv : clean key -> clean cv -> clean (key ++ lit "=" ++ cv).
Proof. intros Hk Hc. unfold clean. rewrite !Forall_app. split_and!; [done|by repeat constructor|done]. Qed.

Lemma injectCookie_clean hs key v : Forall header_clean hs -> clean key -> Forall header_clean (injectCookie hs key v).
Proof.
  intros Hh Hk. pose proof (sanitizeCookieValue_clean v) as Hv. unfold injectCookie. cbv zeta.
  set (val := match headerIndex hs (lit "Cookie") with Some i => _ | None => _ end).
  assert (Hval : clean val).
  { unfold val. destruct (headerIndex hs (lit "Cookie")) as [i|] eqn:Ei; [|constructor].
    destruct (headerIndex_lookup _ _ _ Ei) as [h Hl]. rewrite (nth_lookup_Some _ _ _ _ Hl).
    by apply (Forall_lookup_1 _ _ _ _ Hh Hl). }
  apply setHeader_clean; [done|by repeat constructor|]. apply join_clean; [by repeat constructor|].
  apply Forall_app. split.
  - apply List.Forall_forall. intros p Hp. apply in_map_iff in Hp as (q & <- & Hq). apply in_map_iff in Hq as (seg & <- & Hseg).
    apply filter_In in Hseg as [Hseg _]. unfold cookie_part. cbv zeta.
    destruct (u_cieq _ key); [by apply cookie_pair_clean|]. cbn [fst]. apply (clean_sub _ _ Hval).
    intros c Hc. apply trim_by_incl in Hc. eapply split_on_elem; [by apply list_elem_of_In|done].
  - destruct (existsb _ _); [constructor|]. apply Forall_singleton. by apply cookie_pair_clean.
Qed.

(** What percent encoding writes. *)
Definition encoded (c : Z) : Prop := unreserved c = true \/ c = 37.

Lemma hex_upper_unreserved d : 0 <= d < 16 -> unreserved (hex_upper d) = true.
Proof.
  intros Hd. unfold unreserved, is_letter, is_digit, hex_upper.
  destruct (d <? 10) eqn:E; to_prop; zdecides; by rewrite ?orb_true_r.
Qed.

Lemma percent_encode_chars b : wf_bytes b -> Forall encoded (percent_encode b).
Proof.
  induction 1 as [|c b Hc _ IH]; [constructor|]. unfold percent_encode. cbn [flat_map]. apply Forall_app. split; [|exact IH].
  unfold is_byte in Hc. unfold pct_byte. destruct (unreserved c) eqn:E; [apply Forall_singleton; by left|].
  assert (0 <= c / 16 < 16) by (split; [apply Z.div_pos; lia|apply Z.div_lt_upper_bound; lia]).
  assert (0 <= c mod 16 < 16) by (apply Z.mod_pos_bound; lia).
  rewrite !Forall_cons. split_and!; [by right|left; by apply hex_upper_unreserved..|constructor].
Qed.

Lemma encoded_range c : encoded c -> url_safe c /\ c <> 38 /\ c <> 43 /\ c <> 61.
Proof.
  unfold encoded, url_safe, unreserved, is_letter, is_digit. intros [Hc| ->]; [|lia].
  repeat (apply orb_true_iff in Hc as [Hc|Hc]); split_bools; to_prop; lia.
Qed.

Lemma percent_encode_safe b : wf_bytes b -> Forall url_safe (percent_encode b).
Proof. intros Hb. eapply Forall_impl; [by apply percent_encode_chars|]. intros c Hc. by apply encoded_range. Qed.

Lemma url_safe_ascii s : Forall url_safe s -> all_ascii s = true.
Proof.
  intros Hs. apply forallb_forall. intros c Hc. rewrite List.Forall_forall in Hs. specialize (Hs c Hc). unfold url_safe in Hs.
  unfold is_ascii. by zdecides.
Qed.

Lemma arg_forall (P : Z -> Prop) s a : Forall P s -> Forall P a -> Forall P (arg s a).
Proof.
  intros Hs Ha. unfold arg. destruct (lowest_marker s) as [n|]; [|done].
  assert (G : forall s, Forall P s -> forall k, Forall P (arg_replace n a k s)); [|by apply G].
  clear s Hs. induction 1 as [|c s Hc Hs IH]; intros k; [by destruct k|]. cbn [arg_replace]. destruct k as [|k]; [|apply IH].
  destruct (marker_at (c :: s)) as [[m len]|]; [|by constructor]. destruct (m =? n); [|by constructor].
  apply Forall_app. by split.
Qed.

Lemma injectUrl_safe key v path : Forall url_safe path -> Forall url_safe (injectUrl key v path).
Proof.
  intros Hp. unfold injectUrl. apply Forall_app. split; [done|].
  assert (He : forall s, Forall url_safe (u_fromutf8 (toPercentEncoding s))).
  { intros s. pose proof (percent_encode_safe _ (law_toutf8_bytes s)) as Hs. unfold toPercentEncoding.
    rewrite law_fromutf8_ascii; [done|by apply url_safe_ascii]. }
  apply arg_forall; [|done]. apply arg_forall; [|done]. apply arg_forall.
  - refine (bool_decide_eq_true_1 _ _). vm_compute. reflexivity.
  - destruct (contains_chr 63 path); refine (bool_decide_eq_true_1 _ _); vm_compute; reflexivity.
Qed.

(** The parts of a request no rule touches. *)
Definition same_origin (r r' : HttpRequest) : Prop :=
  rq_method r' = rq_method r /\ rq_httpVersion r' = rq_httpVersion r /\ rq_host r' = rq_host r /\
  rq_port r' = rq_port r /\ rq_tls r' = rq_tls r.

Lemma inject_safe r v req : clean (ss_injectKey r) -> request_clean req ->
  let '(req', m) := inject r v req in request_clean req' /\ same_origin req req' /\ (m = false -> req' = req).
Proof.
  intros Hk [Hh Hp]. unfold inject. destruct (ss_injectInto r =? 0); [|destruct (ss_injectInto r =? 1)];
    [..|destruct (ss_injectInto r =? 2); [|destruct (ss_injectInto r =? 3)]].
  - split_and!; try done. split; [|done]. apply setHeader_clean; [done|done|apply sanitizeHeaderValue_clean].
  - split_and!; try done. split; [|done]. by apply injectCookie_clean.
  - cbv zeta. by destruct (seq_eqb _ _).
  - split_and!; try done. split; [done|]. by apply injectUrl_safe.
  - done.
Qed.

Lemma apply_rules_safe rules vars tool : Forall (fun r => clean (ss_injectKey r)) rules -> forall req m0,
  request_clean req ->
  let '(req', m) := apply_rules rules vars tool req m0 in
  request_clean req' /\ same_origin req req' /\ (m = false -> m0 = false /\ req' = req).
Proof.
  induction 1 as [|r rules Hr Hrs IH]; intros req m0 Hc; [done|]. cbn [apply_rules].
  destruct (rule_value r vars _ _ tool) as [v|]; [|by apply IH].
  pose proof (inject_safe r v req Hr Hc) as Hi. destruct (inject r v req) as [req1 m1]. destruct Hi as (Hc1 & Hs1 & Hm1).
  specialize (IH req1 (m0 || m1) Hc1). destruct (apply_rules rules vars tool req1 (m0 || m1)) as [req2 m2].
  destruct IH as (Hc2 & Hs2 & Hm2). split_and!; [done| |].
  - unfold same_origin in *. naive_solver congruence.
  - intros Hm. destruct (Hm2 Hm) as [Ho ->]. apply orb_false_iff in Ho as [Ho1 Ho2]. split; [done|by apply Hm1].
Qed.
End InjectionSafety.

(** Injected values stay inside their field.  Whatever was captured from a target,
    rules whose own keys hold no control character leave every header name and value
    of a request free of CR, LF, NUL and the like, keep the URL printable ASCII without
    spaces, never touch the method, version, host, port or transport, and report
    "unmodified" only for the request they were given. *)
Theorem session_injection_safe `{QtTextLaws, !QtUtf8 Q, QtRegex, QtReplace, QtJson, QtCapture, QtUrl} s req tool :
  Forall (fun r => clean (ss_injectKey r)) (m_rules s) -> request_clean req ->
  let '(req', modified) := applyToRequest s req tool in
  request_clean req' /\ same_origin req req' /\ (modified = false -> req' = req).
Proof.
  intros Hr Hc. unfold applyToRequest. destruct (is_nil (m_rules s)); [done|].
  pose proof (apply_rules_safe _ (bag s (rq_host req)) tool Hr req false Hc) as Ha.
  destruct (apply_rules _ _ _ _ _) as [req' m]. naive_solver.
Qed.

(** ** Form bodies *)

(** Text that survives UTF-8. *)
Definition utf8_ok `{QtText} (s : qstr) : Prop := u_fromutf8 (u_toutf8 s) = s.

Section Forms.
Context `{Q : QtText, !QtUtf8 Q, U : QtUrl, !QtUrlLaws Q U}.

Definition is_field (key : qstr) (part : bytes) : bool := seq_eqb (part_name part) key.
Definition other_field (key : qstr) (part : bytes) : bool := negb (is_field key part).
Definition nonempty_part (part : bytes) : bool := negb (is_nil part).

Lemma encoding_has_no s c : c = 38 \/ c = 43 \/ c = 61 -> c ∉ toPercentEncoding s.
Proof.
  intros Hc Hin. pose proof (percent_encode_chars _ (law_toutf8_bytes s)) as Hf. rewrite Forall_forall in Hf.
  apply Hf, encoded_range in Hin. lia.
Qed.

Lemma replacement_name key v : part_name (form_replacement key v) = u_fromutf8 (u_toutf8 key).
Proof.
  unfold part_name, form_replacement. change (?a ++ [61] ++ ?b) with (a ++ 61 :: b).
  assert (Hi : index_of 61 (toPercentEncoding key ++ 61 :: toPercentEncoding v) = Some (length (toPercentEncoding key))).
  { apply index_of_app, encoding_has_no. auto. }
  rewrite Hi, take_app_length.
  rewrite <- law_url_decode by apply law_toutf8_bytes. f_equal.
  rewrite <- (map_id (percent_encode (u_toutf8 key))). apply map_ext_in. intros c Hc. destruct (c =? 43) eqn:E; [|done].
  to_prop. subst c. apply list_elem_of_In in Hc. by apply encoding_has_no in Hc; [|tauto].
Qed.

Lemma replacement_value key v : url_decode (drop (S (length (toPercentEncoding key))) (form_replacement key v)) = u_fromutf8 (u_toutf8 v).
Proof.
  unfold form_replacement. replace (S (length (toPercentEncoding key))) with (length (toPercentEncoding key) + 1)%nat by lia.
  rewrite drop_app_add. apply law_url_decode, law_toutf8_bytes.
Qed.

Lemma replacement_part key v : form_replacement key v <> [] /\ 38 ∉ form_replacement key v.
Proof.
  unfold form_replacement. split; [by destruct (toPercentEncoding key)|].
  rewrite !elem_of_app. intros [Hx|[Hx|Hx]].
  - by apply encoding_has_no in Hx; [|auto].
  - by apply list_elem_of_singleton in Hx.
  - by apply encoding_has_no in Hx; [|auto].
Qed.

Lemma upsert_loop_spec key rep parts : is_field key rep = true -> forall replaced,
  let '(out, r) := upsert_loop key rep parts replaced in
  let fs := List.filter nonempty_part parts in
  List.filter (other_field key) out = List.filter (other_field key) fs /\
  List.filter (is_field key) out = (if existsb (is_field key) fs && negb replaced then [rep] else []) /\
  r = replaced || existsb (is_field key) fs /\
  (forall p, In p out -> p = rep \/ In p fs).
Proof.
  intros Hrep. induction parts as [|p parts IH]; intros replaced; cbn [upsert_loop List.filter].
  { cbn. by rewrite orb_false_r. }
  change (nonempty_part p) with (negb (is_nil p)). destruct (is_nil p) eqn:Ep; cbn [negb]; [apply IH|].
  change (seq_eqb (part_name p) key) with (is_field key p).
  cbn [List.filter existsb]. unfold other_field at 2. destruct (is_field key p) eqn:Ef; cbn [negb orb].
  - specialize (IH true). destruct (upsert_loop key rep parts true) as [out r]. destruct IH as (I1 & I2 & I3 & I4).
    cbn [negb] in I2. rewrite andb_false_r in I2. destruct replaced; cbn [negb andb orb].
    + split_and!; [done|done|done|]. intros q Hq. destruct (I4 q Hq); [by left|right; by right].
    + cbn [List.filter]. unfold other_field at 1. rewrite Hrep. cbn [negb]. rewrite I2. split_and!; [done|done|done|].
      intros q [<-|Hq]; [by left|]. destruct (I4 q Hq); [by left|right; by right].
  - specialize (IH replaced). destruct (upsert_loop key rep parts replaced) as [out r]. destruct IH as (I1 & I2 & I3 & I4).
    cbn [List.filter]. unfold other_field at 1. rewrite Ef. cbn [negb]. rewrite I1, I2. split_and!; [done|done|done|].
    intros q [<-|Hq]; [right; by left|]. destruct (I4 q Hq); [by left|right; by right].
Qed.

Lemma upsert_loop_id key rep (out : list bytes) : Forall (fun p => p <> []) out -> forall replaced : bool,
  List.filter (is_field key) out = (if replaced then [] else if existsb (is_field key) out then [rep] else []) ->
  upsert_loop key rep out replaced = (out, replaced || existsb (is_field key) out).
Proof.
  induction 1 as [|p out Hp Hout IH]; intros replaced Hf; cbn [upsert_loop existsb]; [by rewrite orb_false_r|].
  destruct (is_nil p) eqn:Ep; [by apply is_nil_true in Ep|]. change (seq_eqb (part_name p) key) with (is_field key p).
  cbn [List.filter existsb] in Hf. destruct (is_field key p) eqn:Ef; cbn [orb].
  - destruct replaced; [done|]. injection Hf as -> Hf. rewrite IH by (by rewrite Hf). done.
  - by rewrite IH.
Qed.
End Forms.

(** A form field is upserted exactly.  In the new body the decoded name occurs once,
    in an encoding that decodes to the given value; every other field keeps its bytes
    and its order (stale duplicates of the field and empty parts go); and doing it
    again changes nothing. *)
Theorem upsertFormParameter_correct `{Q : QtText, !QtUtf8 Q, U : QtUrl, !QtUrlLaws Q U} body key v :
  utf8_ok key -> utf8_ok v ->
  let body' := upsertFormParameter body key v in
  List.filter (is_field key) (split_skip 38 body') = [form_replacement key v] /\
  List.filter (other_field key) (split_skip 38 body') = List.filter (other_field key) (split_skip 38 body) /\
  part_name (form_replacement key v) = key /\
  url_decode (drop (S (length (toPercentEncoding key))) (form_replacement key v)) = v /\
  upsertFormParameter body' key v = body'.
Proof.
  intros Hk Hv. cbv zeta. set (rep := form_replacement key v).
  assert (Hn : part_name rep = key) by (unfold rep; rewrite replacement_name; exact Hk).
  assert (Hrep : is_field key rep = true) by (unfold is_field; rewrite Hn; apply seq_eqb_refl).
  destruct (replacement_part key v) as [Hne Hamp]. fold rep in Hne, Hamp.
  pose proof (upsert_loop_spec key rep (split_on 38 body) Hrep false) as Hs.
  assert (Hup : upsertFormParameter body key v =
            join [38] (let '(parts, replaced) := upsert_loop key rep (split_on 38 body) false in
                       if replaced then parts else parts ++ [rep])).
  { unfold upsertFormParameter. fold rep. by destruct (upsert_loop _ _ _ _). }
  destruct (upsert_loop key rep (split_on 38 body) false) as [parts r]. destruct Hs as (S1 & S2 & S3 & S4).
  cbn [negb orb] in S2, S3. rewrite andb_true_r in S2. change (List.filter nonempty_part (split_on 38 body)) with (split_skip 38 body) in *.
  set (out := if r then parts else parts ++ [rep]) in Hup.
  assert (O1 : List.filter (is_field key) out = [rep]).
  { unfold out. subst r. destruct (existsb _ _); [done|]. rewrite List.filter_app, S2. cbn. by rewrite Hrep. }
  assert (O2 : List.filter (other_field key) out = List.filter (other_field key) (split_skip 38 body)).
  { unfold out. destruct r; [done|]. rewrite List.filter_app, S1. cbn. unfold other_field at 2. rewrite Hrep. by rewrite app_nil_r. }
  assert (O3 : forall p, In p out -> p <> [] /\ 38 ∉ p).
  { intros p Hp. assert (Hp' : p = rep \/ In p (split_skip 38 body)).
    { unfold out in Hp. destruct r; [by apply S4|]. apply in_app_iff in Hp as [Hp|[<-|[]]]; [by apply S4|by left]. }
    destruct Hp' as [->|Hp']; [done|]. apply filter_In in Hp' as [Hp1 Hp2]. split; [by intros ->|].
    eapply split_on_parts. by apply list_elem_of_In. }
  assert (Hout : out <> []) by (intros E; by rewrite E in O1).
  assert (Hsp : split_on 38 (join [38] out) = out).
  { apply split_join; [done|]. apply List.Forall_forall. intros p Hp. by apply O3. }
  assert (Hsk : split_skip 38 (join [38] out) = out).
  { unfold split_skip. rewrite Hsp. apply forallb_filter_id, forallb_forall. intros p Hp. by destruct p; [destruct (O3 _ Hp)|]. }
  rewrite Hup, Hsk. split_and!; [done|done|done|unfold rep; rewrite replacement_value; exact Hv|].
  unfold upsertFormParameter. fold rep. rewrite Hsp, (upsert_loop_id key rep out).
  - assert (Hex : existsb (is_field key) out = true); [|by rewrite Hex].
    apply existsb_exists. exists rep. split; [|done]. assert (Hin : In rep (List.filter (is_field key) out)) by (rewrite O1; by left).
    by apply filter_In in Hin as [Hin _].
  - apply List.Forall_forall. intros p Hp. by apply O3.
  - rewrite O1. destruct (existsb (is_field key) out) eqn:E; [done|].
    assert (Hin : In rep (List.filter (is_field key) out)) by (rewrite O1; by left). apply filter_In in Hin as [Hin _].
    assert (existsb (is_field key) out = true); [|congruence]. apply existsb_exists. by exists rep.
Qed.

(** ** Configuration files *)

Section Config.
Context `{QtTextLaws}.

Definition rule_json_ok (r : SessionRule) : Prop :=
  int_ok (ss_extractFrom r) /\ int_ok (ss_injectInto r) /\ int_ok (ss_tools r) /\
  Forall (fun u => u <> []) (ss_includeUrls r) /\ Forall (fun u => u <> []) (ss_excludeUrls r).
Definition step_json_ok (st : Step) : Prop := int_ok (st_port st) /\ u_toutf8 (u_fromutf8 (st_request st)) = st_request st.


Lemma url_list_ok us : Forall (fun u => u <> []) us -> url_list (JArray (map JString us)) = us.
Proof.
  intros Hu. unfold url_list. cbn [toArray]. rewrite map_map, map_id. apply forallb_filter_id, forallb_forall.
  intros u Hin. rewrite List.Forall_forall in Hu. specialize (Hu u Hin). by destruct u.
Qed.

Lemma ruleFromJson_toJson r : rule_json_ok r -> map ruleFromJson (sessionRulesToJson [r]) = [r].
Proof.
  intros (H1 & H2 & H3 & H4 & H5). destruct r as [n e hg pg ef ek v ii ik it t iu eu].
  cbn [ss_extractFrom ss_injectInto ss_tools ss_includeUrls ss_excludeUrls] in *.
  transitivity [mkSessionRule n e hg pg (toInt 0 (JInt ef)) ek v (toInt 0 (JInt ii)) ik it (toInt 0 (JInt t))
                  (url_list (JArray (map JString iu))) (url_list (JArray (map JString eu)))]; [reflexivity|].
  by rewrite !toInt_ok, !url_list_ok.
Qed.

Lemma extractFromJson_toJson e : extractFromJson (extractToJson e) = e.
Proof.
  destruct e as [v f k].
  transitivity (mkExtract v (from_of (u_lower (from_name f))) k); [by destruct f|].
  destruct f; (rewrite law_lower_ascii; [reflexivity|reflexivity]).
Qed.

Lemma map_roundtrip {A B} (f : A -> B) (g : B -> A) (P : A -> Prop) l :
  (forall x, P x -> g (f x) = x) -> Forall P l -> map g (map f l) = l.
Proof. intros Hgf Hl. rewrite map_map. induction Hl as [|x l Hx _ IH]; [done|]. cbn [map]. by rewrite Hgf, IH. Qed.

Lemma stepFromJson_toJson st : step_json_ok st -> stepFromJson (stepToJson st) = st.
Proof.
  intros [Hp Hr]. destruct st as [n h p tls r es]. cbn [st_port st_request] in *.
  transitivity (mkStep n h (toInt (if tls then 443 else 80) (JInt p)) tls (u_toutf8 (u_fromutf8 r))
                  (map extractFromJson (map extractToJson es))); [reflexivity|].
  rewrite toInt_ok, Hr by done. f_equal. apply (map_roundtrip _ _ (fun _ => True)); [|by apply Forall_true].
  intros e _. apply extractFromJson_toJson.
Qed.
End Config.

(** Session configuration survives a project file.  Rules whose integers fit the
    JSON reader and whose URL lists hold no empty glob, and macros whose recorded
    requests are UTF-8, are read back exactly as written. *)
Theorem session_config_roundtrip `{QtTextLaws} rules macros :
  Forall rule_json_ok rules -> Forall (fun m => Forall step_json_ok (sm_steps m)) macros ->
  sessionRulesFromJson (sessionRulesToJson rules) = rules /\
  sessionMacrosFromJson (sessionMacrosToJson macros) = macros.
Proof.
  intros Hr Hm. split.
  - unfold sessionRulesFromJson, sessionRulesToJson. apply (map_roundtrip _ _ rule_json_ok); [|done].
    intros r Hok. pose proof (ruleFromJson_toJson r Hok) as E. by injection E.
  - apply (map_roundtrip _ _ (fun m => Forall step_json_ok (sm_steps m))); [|done].
    intros [n h steps st rx] Hs. cbn [sm_steps] in Hs.
    transitivity (mkMacro n h (map stepFromJson (map stepToJson steps)) st rx); [reflexivity|].
    f_equal. apply (map_roundtrip _ _ step_json_ok); [|done]. apply stepFromJson_toJson.
Qed.

(** ** Concrete instances, divergences and witnesses *)

Fixpoint pct_decode (s : bytes) : bytes :=
  match s with
  | c :: ((h :: (l :: rest)) as s') => if c =? 37 then (16 * digit_val h + digit_val l) :: pct_decode rest else c :: pct_decode s'
  | c :: s' => c :: pct_decode s'
  | [] => []
  end.
Definition sampleUrl : QtUrl := {| url_decode := pct_decode |}.

Lemma digit_val_hex d : 0 <= d < 16 -> digit_val (hex_upper d) = d.
Proof.
  intros Hd. unfold hex_upper. destruct (d <? 10) eqn:E; to_prop; unfold digit_val, is_digit; zdecides; lia.
Qed.

Lemma pct_decode_plain c s : c <> 37 -> pct_decode (c :: s) = c :: pct_decode s.
Proof. intros Hc. destruct s as [|h [|l s]]; [done..|]. cbn [pct_decode]. by zdecide. Qed.

#[export] Instance sampleUrl_laws : QtUrlLaws asciiText sampleUrl.
Proof.
  split. intros b Hb. cbn. induction Hb as [|c b Hc _ IH]; [done|]. unfold percent_encode. cbn [flat_map].
  fold (percent_encode b). unfold is_byte in Hc. unfold pct_byte at 1. destruct (unreserved c) eqn:E; cbn [app].
  - rewrite pct_decode_plain, IH; [done|]. intros ->. done.
  - cbn [pct_decode]. rewrite Z.eqb_refl, IH, !digit_val_hex.
    + f_equal. pose proof (Z.div_mod c 16 ltac:(lia)). lia.
    + apply Z.mod_pos_bound. lia.
    + split; [apply Z.div_pos; lia|apply Z.div_lt_upper_bound; lia].
Qed.

(** A regex layer in which every pattern matches, for rules without scope. *)
Definition anyRegex : QtRegex := {| rx_valid _ _ := true; rx_match _ _ _ := true; rx_wildcard p := p |}.

Section Examples.
#[local] Existing Instance asciiText.
#[local] Existing Instance anyRegex.
#[local] Existing Instance literalReplace.
#[local] Existing Instance noJson.
#[local] Existing Instance noCapture.
#[local] Existing Instance sampleUrl.

(** The value replaces the lowest marker of the text so far, which a percent-encoded
    '/' in the key provides: the URL gets a broken name and a literal "%3". *)
Theorem url_key_corrupted :
  injectUrl (lit "a/b") (lit "tok") (lit "/p") = lit "/p?atokFb=%3" /\
  injectUrl (lit "ab") (lit "tok") (lit "/p") = lit "/p?ab=tok".
Proof. split; vm_compute; reflexivity. Qed.

Definition ex_rule (into : Z) (key templ : qstr) : SessionRule :=
  mkSessionRule (lit "r") true (lit "*") (lit "*") 0 (lit "X-Tok") (lit "tok") into key templ 0 [] [].
Definition ex_form (body : bytes) : HttpRequest :=
  mkRequest (lit "POST") (lit "/p") (lit "HTTP/1.1") (lit "h") 80 false (lit "/p")
    [(lit "Host", lit "h"); (lit "Content-Type", lit "application/x-www-form-urlencoded"); (lit "Content-Length", number 10 (zlen body))] body.
Definition ex_state (rules : list SessionRule) : State := store (lit "h") {[lit "tok" := lit "secret"]} (setRules rules emptyState).

(** A body injection changes the size of the body and leaves Content-Length as it was:
    the framing guard still accepts the message, whose reader takes the first three
    bytes for the body and leaves the rest as the start of the next request. *)
Theorem body_injection_desync :
  let req := ex_form (lit "a=1") in
  let req' := fst (applyToRequest (ex_state [ex_rule 2 (lit "csrf") []]) req 1) in
  rq_body req' = lit "a=1&csrf=secret" /\ findHeader (rq_headers req') (lit "Content-Length") = lit "3" /\
  isFramingSafe (rq_headers req') true = true /\
  option_map fst (readLengthBody (lit "3") (rq_body req') []) = Some (lit "a=1").
Proof. cbv zeta. split_and!; vm_compute; reflexivity. Qed.

(** A captured value that holds a placeholder shape is taken for a variable that was
    never captured, and the rule is skipped. *)
Theorem captured_braces_block_rule :
  let s := store (lit "h") {[lit "tok" := lit "x{{y}}z"]} (setRules [ex_rule 0 (lit "X-T") []] emptyState) in
  bag s (lit "h") !! lit "tok" = Some (lit "x{{y}}z") /\ applyToRequest s (ex_form (lit "a=1")) 1 = (ex_form (lit "a=1"), false).
Proof. split; vm_compute; reflexivity. Qed.

Definition ex_401 : HttpResponse := mkResponse (lit "HTTP/1.1") 401 [] [] [] [] false.
Definition ex_net (i : nat) : SendResult := mkSend false [] ex_401 [] 0.
Definition ex_get : HttpRequest := mkRequest (lit "GET") (lit "/") (lit "HTTP/1.1") (lit "h") 80 false (lit "/") [] [].
Definition ex_macro (name : qstr) : SessionMacro := mkMacro name (lit "h") [] (lit "401") [].
Definition ex_trace (name : qstr) : list Label :=
  [LSetMacros [ex_macro name]; LResponse ex_get ex_401; LTask 0 9000 ex_net; LTask 0 9000 ex_net].

(** The run of a list of labels. *)
Fixpoint exec_all (w : World) (tr : list Label) : option World :=
  match tr with [] => Some w | a :: tr' => match exec w a with Some w' => exec_all w' tr' | None => None end end.

Lemma exec_all_steps tr : forall w w', exec_all w tr = Some w' -> steps sstep w tr w'.
Proof.
  induction tr as [|a tr IH]; intros w w' He; cbn [exec_all] in He; [simplify_eq; constructor|].
  destruct (exec w a) as [w1|] eqn:E; [|done]. econstructor; [exact E|by apply IH].
Qed.

(** A macro without a name marks its host as refreshing and starts nothing: no refresh
    of that host ever starts again, whatever is configured later. *)
Theorem unnamed_macro_locks_host :
  let w0 := or_else start (exec_all start (ex_trace [])) in
  steps sstep start (ex_trace []) w0 /\ w_tasks w0 = [] /\ lit "h" ∈ m_reauthInFlight (w_state w0) /\
  forall tr w, steps sstep w0 tr w -> starts_of (lit "h") w = starts_of (lit "h") w0 /\ lit "h" ∈ m_reauthInFlight (w_state w).
Proof.
  cbv zeta. set (w0 := or_else start (exec_all start (ex_trace []))).
  assert (Hs : steps sstep start (ex_trace []) w0).
  { apply exec_all_steps. unfold w0. apply some_or_else. vm_compute. reflexivity. }
  assert (Ht : w_tasks w0 = []) by (vm_compute; reflexivity).
  assert (Hin : lit "h" ∈ m_reauthInFlight (w_state w0)) by (refine (bool_decide_eq_true_1 _ _); vm_compute; reflexivity).
  split_and!; [done..|]. intros tr w Hw.
  apply (steps_invariant _ (fun w => stuck (lit "h") w /\ starts_of (lit "h") w = starts_of (lit "h") w0)) in Hw.
  - destruct Hw as [[Hi _] Hst]. by split.
  - intros x a y [Hst Heq] Hxy. destruct (stuck_step _ _ _ _ Hst Hxy) as [Hst' Heq']. split; [done|]. by rewrite Heq'.
  - split; [|done]. split; [done|]. unfold refreshing. rewrite Ht. apply not_elem_of_nil.
Qed.

Lemma reauth_guarded_witness :
  let w := or_else start (exec_all start (ex_trace (lit "m"))) in
  steps sstep start (ex_trace (lit "m")) w /\
  refreshing w = [lit "h"] /\ (lit "h" ∈ m_reauthInFlight (w_state w) <-> lit "h" ∈ refreshing w).
Proof.
  cbv zeta. assert (Hs : steps sstep start (ex_trace (lit "m")) (or_else start (exec_all start (ex_trace (lit "m"))))).
  { apply exec_all_steps, some_or_else. vm_compute. reflexivity. }
  split; [exact Hs|]. split; [vm_compute; reflexivity|].
  destruct (reauth_guarded _ _ Hs) as (_ & _ & _ & Hn). apply Hn.
  unfold ex_trace. rewrite !Forall_cons. split_and!; try exact I; [|by apply Forall_nil].
  apply Forall_singleton. discriminate.
Defined.

Definition ex_store_trace : list Label :=
  [LSetRules [ex_rule 0 (lit "X-Tok") []];
   LResponse ex_get (mkResponse (lit "HTTP/1.1") 200 [] [(lit "X-Tok", lit "s3")] [] [] false); LTask 0 0 ex_net; LTask 0 0 ex_net].

Lemma session_values_provenance_witness :
  let w := or_else start (exec_all start ex_store_trace) in
  steps sstep start ex_store_trace w /\ bag (w_state w) (lit "h") !! lit "tok" = Some (lit "s3") /\
  source ex_store_trace (lit "h") (lit "tok") (lit "s3").
Proof.
  cbv zeta. assert (Hs : steps sstep start ex_store_trace (or_else start (exec_all start ex_store_trace))).
  { apply exec_all_steps, some_or_else. vm_compute. reflexivity. }
  assert (Hb : bag (w_state (or_else start (exec_all start ex_store_trace))) (lit "h") !! lit "tok" = Some (lit "s3"))
    by (vm_compute; reflexivity).
  split; [exact Hs|]. split; [exact Hb|].
  exact (proj1 (session_values_provenance ex_store_trace _ ex_get 1 Hs) _ _ Hb).
Defined.

Lemma session_injection_safe_witness :
  let s := store (lit "h") {[lit "tok" := lit "a" ++ [13; 10] ++ lit "b"]} (setRules [ex_rule 0 (lit "X-T") []] emptyState) in
  request_clean (fst (applyToRequest s ex_get 1)) /\
  rq_headers (fst (applyToRequest s ex_get 1)) = [(lit "X-T", lit "ab")].
Proof.
  cbv zeta. split; [|vm_compute; reflexivity].
  set (s := store (lit "h") {[lit "tok" := lit "a" ++ [13; 10] ++ lit "b"]} (setRules [ex_rule 0 (lit "X-T") []] emptyState)).
  assert (Hk : Forall (fun r => clean (ss_injectKey r)) (m_rules s)).
  { apply Forall_singleton. unfold clean. refine (bool_decide_eq_true_1 _ _). vm_compute. reflexivity. }
  assert (Hc : request_clean ex_get).
  { split; [constructor|]. unfold url_safe. refine (bool_decide_eq_true_1 _ _). vm_compute. reflexivity. }
  pose proof (session_injection_safe s ex_get 1 Hk Hc) as Hs. destruct (applyToRequest s ex_get 1) as [req' m]. exact (proj1 Hs).
Defined.

Lemma upsertFormParameter_correct_witness :
  upsertFormParameter (lit "a=1&&tok=old&b=2&tok=older") (lit "tok") (lit "n w") = lit "a=1&tok=n%20w&b=2" /\
  List.filter (is_field (lit "tok")) (split_skip 38 (upsertFormParameter (lit "a=1&&tok=old&b=2&tok=older") (lit "tok") (lit "n w")))
  = [form_replacement (lit "tok") (lit "n w")].
Proof.
  split; [vm_compute; reflexivity|].
  exact (proj1 (upsertFormParameter_correct (lit "a=1&&tok=old&b=2&tok=older") (lit "tok") (lit "n w") eq_refl eq_refl)).
Defined.

Definition ex_config : SessionMacro :=
  mkMacro (lit "m") (lit "h") [mkStep (lit "s") (lit "h") 443 true (lit "GET /") [mkExtract (lit "v") Regex (lit "k")]] (lit "401") [].

Lemma session_config_roundtrip_witness :
  sessionRulesFromJson (sessionRulesToJson [ex_rule 2 (lit "k") (lit "t")]) = [ex_rule 2 (lit "k") (lit "t")] /\
  sessionMacrosFromJson (sessionMacrosToJson [ex_config]) = [ex_config].
Proof.
  apply (session_config_roundtrip [ex_rule 2 (lit "k") (lit "t")] [ex_config]).
  - apply Forall_singleton. unfold rule_json_ok, int_ok. split_and!; by (done || constructor).
  - apply Forall_singleton, Forall_singleton. split; [done|reflexivity].
Defined.
End Examples.
