(* ===== verification/HttpClient.v ===== *)
(** * The HTTP client of the tools: Src/Core/Networking/networking.cpp

    [HttpClient::send] with the outbound scope check of outbound_scope.cpp, the session
    objects of scanner clients, the read loops under their budgets, interim responses
    and the four ways a body is framed; networking_outcome.cpp classifies failures.
    A socket is the script of what it will do: see [Wire]. *)

From S2P Require Import Prelude Qt QtSample QMap Json Zlib HttpFraming NetFraming ProxyPolicy SessionManager ChainRunner SessionRules.

Local Open Scope Z_scope.

(** [QUrl] as outbound_scope.cpp uses it: a strict parse giving scheme, host and encoded
    path, and the decoded path with its dot segments removed. *)
Class QtWireUrl := {
  wu_strict : qstr -> option (qstr * qstr * qstr);
  wu_normal_path : qstr -> qstr
}.

(** ** The outbound scope *)

(** [path]: [None] is the null path of a connection without an HTTP resource. *)
Record Target := mkTarget { tg_host : qstr; tg_port : Z; tg_protocol : Z; tg_path : option qstr }.
Definition Checker : Type := option (Target -> bool).

Section Scope.
Context {Q : QtText} {UD : QtUrl} {WU : QtWireUrl}.

Definition allows (checker : Checker) (t : Target) : bool :=
  match checker with
  | None => true
  | Some f => (0 <? tg_port t) && (tg_port t <=? 65535) && negb (is_nil (u_trimmed (tg_host t))) && f t
  end.

(** [s.section(c, 0, 0)]. *)
Definition before_chr (c : Z) (s : qstr) : qstr := match index_of c s with Some i => take i s | None => s end.

(** The path a request target names, if it names one. *)
Definition target_path (target : qstr) : option qstr :=
  if starts_with_chr 47 target then Some (before_chr 35 (before_chr 63 target))
  else
    match wu_strict target with
    | Some (scheme, host, path) =>
        if (seq_eqb scheme (lit "http") || seq_eqb scheme (lit "https")) && negb (is_nil host)
        then Some (if is_nil path then lit "/" else path) else None
    | None => None
    end.

Definition normalized_path (path : qstr) : qstr :=
  let p := wu_normal_path (url_decode (u_toutf8 path)) in if is_nil p then lit "/" else p.

(** The checker is read anew for each of the two questions. *)
Definition allowsUrl (c1 c2 : Checker) (host : qstr) (port : Z) (tls : bool) (target : qstr) : bool :=
  let t := mkTarget host port (if tls then 2 else 1) (target_path target) in
  if negb (allows c1 t) then false
  else
    match tg_path t with
    | None => true
    | Some path => allows c2 (mkTarget host port (tg_protocol t) (Some (normalized_path path)))
    end.

(** The text between the first and the last blank of the request line. *)
Definition wire_target (request : bytes) : qstr :=
  let line := b_trimmed (before_chr 10 request) in
  match index_of 32 line, last_index_of 32 line with
  | Some first, Some lst => if (first <? lst)%nat then mid line (first + 1) (lst - first - 1) else []
  | _, _ => []
  end.

Definition allowsRequest (c1 c2 : Checker) (host : qstr) (port : Z) (tls : bool) (request : bytes) : bool :=
  allowsUrl c1 c2 host port tls (wire_target request).

Definition blockedError : qstr := lit "Target is outside project scope; request was not sent".
End Scope.

(** ** Outcomes *)

Inductive SocketOutcome := OOk | OTimeout | OReset | OConnectError.

(** [QAbstractSocket::SocketError], as far as it is told apart. *)
Inductive SocketError :=
| RemoteHostClosedError | ConnectionRefusedError | HostNotFoundError | SocketAccessError | ProxyConnectionRefusedError
| ProxyNotFoundError | SslHandshakeFailedError | SocketTimeoutError | OtherSocketError.

Definition classifySocketOutcome (err : SocketError) (connected : bool) : SocketOutcome :=
  match err with
  | RemoteHostClosedError => OReset
  | ConnectionRefusedError | HostNotFoundError | SocketAccessError | ProxyConnectionRefusedError | ProxyNotFoundError
  | SslHandshakeFailedError => OConnectError
  | SocketTimeoutError => if connected then OTimeout else OReset
  | OtherSocketError => if connected then OTimeout else OReset
  end.

(** ** Reading *)

(** One round of a read loop: whether bytes are there without waiting, the clock as read
    before the wait, what [readAll] then gives and whether the peer is still connected
    behind it.  When the rounds run out a wait fails. *)
Record Round := mkRound { rd_avail : bool; rd_clock : Z; rd_data : bytes; rd_connected : bool }.

Definition kTimeoutMs : Z := 15000.
Definition kMaxHead : Z := 64 * 1024.

(** The wait of a round is refused when the budget of the call is spent. *)
Definition round_refused (r : Round) : bool :=
  negb (rd_avail r) && (nextReadTimeoutMs (rd_clock r) kTimeoutMs kMaxTotalReadMs <=? 0).

(** A read loop: what was read, whether the peer is still connected, the rounds left,
    and whether it succeeded. *)
Record ReadState := mkRead { r_out : bytes; r_conn : bool; r_rounds : list Round }.

Fixpoint readHead (out : bytes) (conn : bool) (rounds : list Round) : bool * ReadState :=
  if contains_sub CRLFCRLF out then (true, mkRead out conn rounds)
  else if kMaxHead <? zlen out then (false, mkRead out conn rounds)
  else
    match rounds with
    | [] => (false, mkRead out conn [])
    | r :: rs =>
        if round_refused r then (false, mkRead out conn rs)
        else
          let out := out ++ rd_data r in
          if negb (rd_connected r) && negb (contains_sub CRLFCRLF out) then (false, mkRead out false rs)
          else readHead out (rd_connected r) rs
    end.

Fixpoint readBytes (n : Z) (out : bytes) (conn : bool) (rounds : list Round) : bool * ReadState :=
  if n <=? zlen out then (true, mkRead out conn rounds)
  else
    match rounds with
    | [] => (false, mkRead out conn [])
    | r :: rs =>
        if round_refused r then (false, mkRead out conn rs)
        else
          let out := out ++ take (Z.to_nat (n - zlen out)) (rd_data r) in
          if negb (rd_connected r) && (zlen out <? n) then (false, mkRead out false rs)
          else readBytes n out (rd_connected r) rs
    end.
Definition readExactly (n : Z) (conn : bool) (rounds : list Round) : bool * ReadState :=
  if (n <? 0) || (kMaxBodyBytes <? n) then (false, mkRead [] conn rounds) else readBytes n [] conn rounds.

(** [last]: what the final [readAll] finds. *)
Fixpoint readToClose (out : bytes) (conn : bool) (rounds : list Round) : bytes :=
  if negb conn then out
  else if kMaxBodyBytes <=? zlen out then out
  else
    match rounds with
    | [] => out
    | r :: rs => if round_refused r then out else readToClose (out ++ rd_data r) (rd_connected r) rs
    end.
Definition readUntilClosed (conn : bool) (rounds : list Round) (last : bytes) : bytes :=
  take (Z.to_nat kMaxBodyBytes) (readToClose [] conn rounds ++ last).

Section Client.
Context {Q : QtText} {ZL : Zlib} {DD : QtDate} {R : QtRegex} {RR : QtReplace} {J : QtJson} {CC : QtCapture} {UD : QtUrl} {WU : QtWireUrl}.

(** The chunk loop always waits; the raw bytes grow whether it succeeds or not. *)
Fixpoint readChunks (buffer decoded allBytes : bytes) (conn : bool) (rounds : list Round) : option bytes * bytes * bool :=
  match feedChunked buffer decoded with
  | Some (CDone, _, decoded') => (Some decoded', allBytes, conn)
  | Some (CError, _, _) | None => (None, allBytes, conn)
  | Some (CNeedMore, buffer', decoded') =>
      match rounds with
      | [] => (None, allBytes, conn)
      | r :: rs =>
          if nextReadTimeoutMs (rd_clock r) kTimeoutMs kMaxTotalReadMs <=? 0 then (None, allBytes, conn)
          else
            let allBytes := allBytes ++ rd_data r in
            if kMaxBodyBytes <? zlen allBytes then (None, allBytes, rd_connected r)
            else readChunks (buffer' ++ rd_data r) decoded' allBytes (rd_connected r) rs
      end
  end.

(** ** One call *)

(** What the socket will do: connect (or fail with a text), take the bytes written,
    deliver the rounds and, once the last loop has stopped, [w_last]; [w_error],
    [w_alive] and [w_text] are what it reports at the failure, if there is one. *)
Record Wire := mkWire {
  w_refused : option qstr; w_written : bool; w_rounds : list Round; w_last : bytes;
  w_error : SocketError; w_alive : bool; w_text : qstr
}.

Inductive Purpose := Scanner | Engagement | ApplicationService.

(** What [ScannerSessionRegistration] has installed. *)
Record Sessions := mkSessions { se_rules : option State; se_jar : option Jar }.
Definition noSessions : Sessions := mkSessions None None.

(** [SendResult], with what went on the wire and what the session objects were shown. *)
Record Sending := mkSending {
  hs_ok : bool; hs_outcome : SocketOutcome; hs_error : qstr; hs_request : bytes; hs_raw : bytes; hs_parsed : HttpResponse;
  hs_wire : option bytes; hs_shown : option (HttpRequest * HttpResponse)
}.
Definition emptyResponse : HttpResponse := mkResponse [] 0 [] [] [] [] false.

Definition isScanner (p : Purpose) : bool := match p with Scanner => true | _ => false end.
Definition isService (p : Purpose) : bool := match p with ApplicationService => true | _ => false end.
Definition active_sessions (p : Purpose) (se : Sessions) : Sessions := if isScanner p then se else noSessions.
Definition has_sessions (se : Sessions) : bool := bool_decide (is_Some (se_rules se)) || bool_decide (is_Some (se_jar se)).

(** [SessionRulesLogic::ToolScanner]. *)
Definition ToolScanner : Z := 8.

(** The cookies of the jar, then the rules; the original bytes unless something changed. *)
Definition sessionBytes (se : Sessions) (nowSec : Z) (host : qstr) (port : Z) (tls : bool) (input : bytes) : bytes :=
  let request := parseRequestBytes input host port tls in
  let injected := match se_jar se with Some jar => injectInto jar nowSec request | None => request end in
  let '(final, changed) := match se_rules se with Some s => applyToRequest s injected ToolScanner | None => (injected, false) end in
  if changed || negb (bool_decide (rq_headers final = rq_headers request)) then
    let out := serializeRequestForOrigin final in
    if negb (bool_decide (rq_body final = rq_body request)) then normalizeContentLength out else out
  else input.

(** The 1xx responses are skipped to the final head: its block, the bytes behind it, its
    status, the buffer it came in. *)
Inductive Headed :=
| HeadLost
| Head (block rest : bytes) (status : StatusLine) (tooMany : bool) (buf : bytes) (conn : bool) (rounds : list Round).

Definition first_line_of (block : bytes) : bytes := match index_sub CRLF block with Some i => take i block | None => block end.

Fixpoint skipInterim (fuel : nat) (seen : Z) (buf : bytes) (conn : bool) (rounds : list Round) : Headed :=
  match fuel with
  | O => HeadLost
  | S fuel' =>
      let sep := default 0%nat (index_sub CRLFCRLF buf) in
      let block := take sep buf in
      let rest := drop (sep + 4) buf in
      let status := parseStatusLine (first_line_of block) in
      match classifyInterimResponse status seen kMaxInterimResponses with
      | SkipToNext =>
          if contains_sub CRLFCRLF rest then skipInterim fuel' (seen + 1) rest conn rounds
          else
            match readHead rest conn rounds with
            | (false, _) => HeadLost
            | (true, st) => skipInterim fuel' (seen + 1) (r_out st) (r_conn st) (r_rounds st)
            end
      | TooManyInterim => Head block rest status true buf conn rounds
      | Final => Head block rest status false buf conn rounds
      end
  end.

(** How the body is framed. *)
Inductive Framing := NoBody | ByChunks | BadLength (values : list qstr) | ByLength (n : Z) | ToClose.
Definition framing (request : bytes) (status : Z) (headers : list (qstr * qstr)) : Framing :=
  let method := match index_of 32 request with Some i => take i request | None => [] end in
  let clAll := parseContentLengthHeaders headers in
  if seq_eqb (b_lower method) (lit "head") || (status =? 204) || (status =? 304) then NoBody
  else if isChunkedTransfer (findHeader headers (lit "Transfer-Encoding")) then ByChunks
  else if ca_present clAll then (if ca_ok clAll then ByLength (ca_value clAll) else BadLength (ca_values clAll))
  else ToClose.

(** The body and all bytes read, or the error and whether the socket is asked why. *)
Definition readBody (f : Framing) (rest raw : bytes) (conn : bool) (rounds : list Round) (last : bytes) : (bytes * bytes) + (qstr * bool * bytes) :=
  match f with
  | NoBody => inl ([], raw)
  | ByChunks =>
      match readChunks rest [] raw conn rounds with
      | (Some body, raw', _) => inl (body, raw')
      | (None, raw', _) => inr (lit "chunked body read failed", true, raw')
      end
  | BadLength values => inr (lit "invalid or conflicting Content-Length: " ++ join (lit ", ") values, false, raw)
  | ByLength n =>
      if zlen rest <? n then
        match readExactly (n - zlen rest) conn rounds with
        | (true, st) => inl (rest ++ r_out st, raw ++ r_out st)
        | (false, _) => inr (lit "content-length body read truncated", true, raw)
        end
      else inl (take (Z.to_nat n) rest, raw)
  | ToClose => let tail := readUntilClosed conn rounds last in inl (rest ++ tail, raw ++ tail)
  end.

Definition inspected (headers : list (qstr * qstr)) (body : bytes) : bytes * bool :=
  default ([], false) (decodeContentEncoding (findHeader headers (lit "Content-Encoding")) body (128 * 1024 * 1024)).

(** The answer to [request], which is on the wire. *)
Definition receive (request : bytes) (w : Wire) : Sending :=
  let why := classifySocketOutcome (w_error w) (w_alive w) in
  let lost e raw := mkSending false why e request raw emptyResponse (Some request) None in
  let bad e raw parsed := mkSending false OOk e request raw parsed (Some request) None in
  match readHead [] true (w_rounds w) with
  | (false, _) => lost (lit "no response headers received") []
  | (true, st) =>
      match skipInterim 9 0 (r_out st) (r_conn st) (r_rounds st) with
      | HeadLost => lost (lit "no final response after 1xx") []
      | Head block rest status tooMany buf conn rounds =>
          if tooMany then bad (lit "too many 1xx interim responses") buf emptyResponse
          else if negb (sl_ok status) then
            bad (lit "malformed status line: " ++ match index_sub CRLF block with Some i => take i block | None => [] end) buf emptyResponse
          else
            let headers := parseHeaders block in
            let parsed body decoded isDecoded := mkResponse (sl_httpVersion status) (sl_statusCode status) (sl_reasonPhrase status) headers body decoded isDecoded in
            match readBody (framing request (sl_statusCode status) headers) rest buf conn rounds (w_last w) with
            | inr (e, asked, raw) => if asked then mkSending false why e request raw (parsed [] [] false) (Some request) None
                                     else bad e raw (parsed [] [] false)
            | inl (body, raw) =>
                let '(decoded, isDecoded) := inspected headers body in
                mkSending true OOk [] request raw (parsed body decoded isDecoded) (Some request) None
            end
      end
  end.

(** [s1] and [s2]: the checkers that the two scope questions find. *)
Definition send (purpose : Purpose) (se : Sessions) (s1 s2 : Checker * Checker) (nowSec : Z) (w : Wire)
    (host : qstr) (port : Z) (tls : bool) (input : bytes) : Sending :=
  let refuse e := mkSending false OOk e [] [] emptyResponse None None in
  if negb (isService purpose) && negb (allowsRequest (fst s1) (snd s1) host port tls input) then refuse blockedError
  else
    let se := active_sessions purpose se in
    let request := if has_sessions se then sessionBytes se nowSec host port tls input else input in
    if has_sessions se && negb (allowsRequest (fst s2) (snd s2) host port tls request) then refuse blockedError
    else
      match w_refused w with
      | Some reason =>
          mkSending false OConnectError ((if tls then lit "TLS handshake failed: " else lit "connect failed: ") ++ reason) request [] emptyResponse None None
      | None =>
          if negb (w_written w) then
            mkSending false (classifySocketOutcome (w_error w) (w_alive w)) (lit "write failed: " ++ w_text w) request [] emptyResponse (Some request) None
          else
            let r := receive request w in
            if hs_ok r && has_sessions se then
              mkSending true OOk [] request (hs_raw r) (hs_parsed r) (hs_wire r) (Some (parseRequestBytes request host port tls, hs_parsed r))
            else r
      end.

(** What the answer does to the cookie jar of the session manager. *)
Definition jar_after (jar : Jar) (nowSec nowMs1 nowMs2 : Z) (r : Sending) : Jar :=
  match hs_shown r with Some (req, resp) => onResponseReceived jar nowSec nowMs1 nowMs2 req resp | None => jar end.

(** The result as the other tools read it. *)
Definition sendResult (elapsed : Z) (r : Sending) : SendResult := mkSend (hs_ok r) (hs_error r) (hs_parsed r) (hs_raw r) elapsed.

(** ** The scope gate *)

(** With a checker installed, a request goes out only to a valid port of a named host
    whose path the checker grants as it is written and as a server will decode it. *)
Lemma allowsUrl_iff f host port tls target :
  allowsUrl (Some f) (Some f) host port tls target = true <->
  1 <= port <= 65535 /\ u_trimmed host <> [] /\
  f (mkTarget host port (if tls then 2 else 1) (target_path target)) = true /\
  match target_path target with
  | Some path => f (mkTarget host port (if tls then 2 else 1) (Some (normalized_path path))) = true
  | None => True
  end.
Proof.
  assert (E : forall pth, allows (Some f) (mkTarget host port (if tls then 2 else 1) pth) = true <->
    1 <= port <= 65535 /\ u_trimmed host <> [] /\ f (mkTarget host port (if tls then 2 else 1) pth) = true).
  { intros pth. unfold allows. cbn [tg_port tg_host]. rewrite !andb_true_iff, negb_true_iff, Z.ltb_lt, Z.leb_le.
    assert (En : is_nil (u_trimmed host) = false <-> u_trimmed host <> []) by (by destruct (u_trimmed host)).
    rewrite En. split; [intros [[[? ?] ?] ?]; split_and!; auto; lia|intros ([? ?] & ? & ?); split_and!; auto; lia]. }
  unfold allowsUrl. cbn [tg_path tg_protocol]. destruct (allows (Some f) _) eqn:E1; cbn [negb].
  - apply E in E1 as (H1 & H2 & H3). destruct (target_path target) as [p|]; [rewrite E; tauto|tauto].
  - split; [done|]. intros (H1 & H2 & H3 & _). assert (X : allows (Some f) (mkTarget host port (if tls then 2 else 1) (target_path target)) = true) by (by apply E).
    congruence.
Qed.

(** C11. Nothing reaches the wire around the outbound scope: what is written was allowed
    as the caller gave it and, when a scanner's session changed it, again in its final
    form; without session objects the bytes are the caller's; a refused request opens
    no connection; only complete answers of scanner requests are shown to the session
    objects.  Only the application's own services are exempt. *)
Theorem send_scope_gated purpose se s1 s2 now w host port tls input :
  let r := send purpose se s1 s2 now w host port tls input in
  let live := active_sessions purpose se in
  (forall b, hs_wire r = Some b ->
     hs_request r = b /\
     (purpose <> ApplicationService -> allowsRequest (fst s1) (snd s1) host port tls input = true) /\
     (if has_sessions live then b = sessionBytes live now host port tls input /\ allowsRequest (fst s2) (snd s2) host port tls b = true
      else b = input)) /\
  (purpose <> ApplicationService -> allowsRequest (fst s1) (snd s1) host port tls input = false ->
     hs_wire r = None /\ hs_ok r = false /\ hs_error r = blockedError) /\
  (hs_ok r = true -> is_Some (hs_wire r)) /\
  (forall req resp, hs_shown r = Some (req, resp) ->
     purpose = Scanner /\ hs_ok r = true /\ resp = hs_parsed r /\ req = parseRequestBytes (hs_request r) host port tls).
Proof.
  cbv zeta. unfold send. set (live := active_sessions purpose se).
  assert (Hlive : has_sessions live = true -> purpose = Scanner) by (by destruct purpose).
  assert (Hsv : purpose <> ApplicationService -> isService purpose = false) by (by destruct purpose).
  destruct (negb (isService purpose) && _) eqn:E1.
  { apply andb_true_iff in E1 as [_ E1]. cbn. split_and!; done. }
  assert (Hok : purpose <> ApplicationService -> allowsRequest (fst s1) (snd s1) host port tls input = true).
  { intros H%Hsv. rewrite H in E1. cbn [negb andb] in E1. by apply negb_false_iff in E1. }
  set (request := if has_sessions live then _ else input). cbv zeta.
  destruct (has_sessions live && _) eqn:E2.
  { by cbn; split_and!. }
  assert (Hreq : if has_sessions live then request = sessionBytes live now host port tls input /\ allowsRequest (fst s2) (snd s2) host port tls request = true
                 else request = input).
  { unfold request in *. destruct (has_sessions live); [|done]. cbn [andb] in E2. apply negb_false_iff in E2. done. }
  assert (Hno : purpose <> ApplicationService -> allowsRequest (fst s1) (snd s1) host port tls input = false -> False).
  { intros H H'. rewrite Hok in H'; done. }
  destruct (w_refused w); [cbn; split_and!; try done; intros; exfalso; eauto|].
  destruct (negb (w_written w)); [cbn; split_and!; try done; [intros b [= <-]; split_and!; auto|intros; exfalso; eauto]|].
  assert (Hrec : hs_wire (receive request w) = Some request /\ hs_request (receive request w) = request /\ hs_shown (receive request w) = None).
  { unfold receive. destruct (readHead _ _ _) as [[|] st]; [|done]. destruct (skipInterim _ _ _ _ _) as [|blk rest status tm buf conn rounds]; [done|].
    destruct tm; [done|]. destruct (negb (sl_ok status)); [done|]. destruct (readBody _ _ _ _ _ _) as [[b raw]|[[e a] raw]]; [|by destruct a].
    by destruct (inspected _ _). }
  destruct Hrec as (Hw & Hq & Hs). destruct (hs_ok (receive request w) && has_sessions live) eqn:E3.
  - apply andb_true_iff in E3 as [E3 E4]. cbn. rewrite Hw. split_and!.
    + intros b [= <-]. split_and!; auto.
    + intros; exfalso; eauto.
    + by eexists.
    + intros req resp [= <- <-]. split_and!; auto.
  - rewrite Hw, Hq, Hs. split_and!.
    + intros b [= <-]. split_and!; auto.
    + intros; exfalso; eauto.
    + by eexists.
    + done.
Qed.


(** ** The read loops *)

Definition data_of (rounds : list Round) : bytes := flat_map rd_data rounds.

Lemma data_of_app a b : data_of (a ++ b) = data_of a ++ data_of b.
Proof. apply flat_map_app. Qed.

Lemma readHead_spec rounds : forall out conn st, readHead out conn rounds = (true, st) ->
  contains_sub CRLFCRLF (r_out st) = true /\ exists used, rounds = used ++ r_rounds st /\ r_out st = out ++ data_of used.
Proof.
  induction rounds as [|r rs IH]; intros out conn st H; cbn [readHead] in H.
  - destruct (contains_sub _ _) eqn:E; [|by destruct (_ <? _)]. injection H as <-. split; [done|]. exists []. cbn. by rewrite app_nil_r.
  - destruct (contains_sub CRLFCRLF out) eqn:E; [injection H as <-; split; [done|]; exists []; by rewrite app_nil_r|].
    destruct (_ <? _); [done|]. destruct (round_refused r); [done|]. destruct (_ && _); [done|].
    apply IH in H as (Hc & used & E1 & E2). split; [done|]. exists (r :: used). split; [by rewrite E1|].
    unfold data_of in *. cbn [flat_map]. by rewrite E2, <- app_assoc.
Qed.

Lemma readBytes_spec n rounds : forall out conn st, zlen out <= n -> readBytes n out conn rounds = (true, st) ->
  zlen (r_out st) = n /\ exists used rest, rounds = used ++ r_rounds st /\ r_out st ++ rest = out ++ data_of used.
Proof.
  induction rounds as [|r rs IH]; intros out conn st Hn H; cbn [readBytes] in H; destruct (n <=? zlen out) eqn:E; to_prop; try done.
  1,2: injection H as <-; split; [cbn [r_out]; lia|]; exists [], []; cbn; by rewrite !app_nil_r.
  destruct (round_refused r); [done|]. destruct (_ && _); [done|].
  apply IH in H as (Hl & used & rest & E1 & Hd).
  - split; [done|]. exists (r :: used). change (data_of (r :: used)) with (rd_data r ++ data_of used).
    set (w := Z.to_nat (n - zlen out)) in *. destruct (decide (length (rd_data r) <= w)%nat) as [Hw|Hw].
    + exists rest. split; [by rewrite E1|]. rewrite Hd, take_ge by done. by rewrite <- app_assoc.
    + (* a round that brings more than is wanted is the last *)
      assert (Hfull : zlen (out ++ take w (rd_data r)) = n).
      { rewrite zlen_app. unfold zlen at 2. rewrite length_take. unfold w in *. lia. }
      assert (Hro : zlen (r_out st) = zlen (out ++ take w (rd_data r))) by lia.
      exists (drop (length (r_out st)) (out ++ rd_data r ++ data_of used)). split; [by rewrite E1|].
      assert (Hp : r_out st = out ++ take w (rd_data r)).
      { apply (f_equal (take (length (r_out st)))) in Hd. rewrite take_app_length in Hd. rewrite Hd.
        rewrite take_app_le by (unfold zlen in Hro; lia). apply take_ge. unfold zlen in Hro. lia. }
      assert (Hx : take (length (r_out st)) (out ++ rd_data r ++ data_of used) = r_out st).
      { rewrite <- (take_drop w (rd_data r)), <- app_assoc, app_assoc, <- Hp. apply take_app_length. }
      rewrite <- Hx at 1. apply take_drop.
  - rewrite zlen_app. unfold zlen at 2. rewrite length_take. lia.
Qed.

Lemma readChunks_spec rounds : forall buffer decoded all conn body raw c,
  readChunks buffer decoded all conn rounds = (Some body, raw, c) ->
  exists used unread body' enc left, rounds = used ++ unread /\ raw = all ++ data_of used /\
    buffer ++ data_of used = enc ++ left /\ body = decoded ++ body' /\ chunked enc body' /\
    (zlen decoded <= kMaxBodyBytes -> zlen body <= kMaxBodyBytes).
Proof.
  induction rounds as [|r rs IH]; intros buffer decoded all conn body raw c H; cbn [readChunks] in H;
    destruct (feedChunked_ok buffer decoded) as ([[v b'] d'] & Ef & Hb & Hv); rewrite Ef in H; destruct v; try done.
  1,3: injection H as <- <- <-; destruct Hv as (enc & body & E1 & E2 & Hc).
  1: exists [], [], body, enc, b'. 2: exists [], (r :: rs), body, enc, b'.
  1,2: change (data_of []) with (@nil Z); rewrite !app_nil_r; by split_and!.
  destruct (_ <=? 0); [done|]. destruct (_ <? zlen _); [done|].
  apply feed_loop_more in Ef as (pre & data & -> & -> & Hm).
  apply IH in H as (used & unread & body' & enc & left & E1 & E2 & E3 & E4 & E5 & E6).
  exists (r :: used), unread, (data ++ body'), (pre ++ enc), left. change (data_of (r :: used)) with (rd_data r ++ data_of used). split_and!.
  - by rewrite E1.
  - by rewrite E2, <- app_assoc.
  - rewrite <- !app_assoc in *. by rewrite E3.
  - by rewrite E4, <- app_assoc.
  - by apply Hm.
  - intros Hd. apply E6. by apply Hb.
Qed.

(** A 1xx head, and a head with its blank line. *)
Definition interim_block (b : bytes) : Prop :=
  let st := parseStatusLine (first_line_of b) in sl_ok st = true /\ 100 <= sl_statusCode st < 200.
Definition head_bytes (b : bytes) : bytes := b ++ CRLFCRLF.

Lemma head_split buf : contains_sub CRLFCRLF buf = true ->
  let sep := default 0%nat (index_sub CRLFCRLF buf) in
  index_sub CRLFCRLF buf = Some sep /\ buf = head_bytes (take sep buf) ++ drop (sep + 4) buf.
Proof.
  unfold contains_sub. destruct (index_sub CRLFCRLF buf) as [k|] eqn:E; [|done]. intros _. cbn [default from_option id].
  split; [done|]. destruct (index_sub_Some _ _ _ E) as (Hl & Hs & _). apply starts_with_spec in Hs as [t Ht].
  unfold head_bytes. rewrite <- app_assoc. rewrite <- (take_drop k buf) at 1. f_equal. rewrite Ht. f_equal.
  rewrite <- drop_drop, Ht. done.
Qed.

Lemma skipInterim_spec fuel : forall seen buf conn rounds block rest status tm buf' conn' rounds',
  contains_sub CRLFCRLF buf = true -> 0 <= seen ->
  skipInterim fuel seen buf conn rounds = Head block rest status tm buf' conn' rounds' ->
  exists skipped used, rounds = used ++ rounds' /\ flat_map head_bytes skipped ++ buf' = buf ++ data_of used /\
    Forall interim_block skipped /\ (skipped = [] \/ seen + zlen skipped <= kMaxInterimResponses) /\
    contains_sub CRLFCRLF buf' = true /\ buf' = head_bytes block ++ rest /\ index_sub CRLFCRLF buf' = Some (length block) /\
    status = parseStatusLine (first_line_of block) /\
    (if tm then interim_block block /\ kMaxInterimResponses <= seen + zlen skipped else sl_ok status = true -> sl_statusCode status < 100 \/ 200 <= sl_statusCode status).
Proof.
  induction fuel as [|fuel IH]; intros seen buf conn rounds block rest status tm buf' conn' rounds' Hc Hseen H; cbn [skipInterim] in H; [done|].
  destruct (head_split buf Hc) as [Hi Hb]. set (sep := default 0%nat (index_sub CRLFCRLF buf)) in *.
  assert (Hlen : length (take sep buf) = sep).
  { destruct (index_sub_Some _ _ _ Hi) as (Hl & _). rewrite length_take. lia. }
  set (st := parseStatusLine (first_line_of (take sep buf))) in *.
  assert (Hcls : (classifyInterimResponse st seen kMaxInterimResponses = Final /\ (sl_ok st = true -> sl_statusCode st < 100 \/ 200 <= sl_statusCode st)) \/
    (interim_block (take sep buf) /\ (classifyInterimResponse st seen kMaxInterimResponses = TooManyInterim /\ kMaxInterimResponses <= seen \/
       classifyInterimResponse st seen kMaxInterimResponses = SkipToNext /\ seen < kMaxInterimResponses))).
  { unfold interim_block. fold st. unfold classifyInterimResponse. destruct (sl_ok st); cbn [negb]; [|by left].
    destruct ((_ <? 100) || _) eqn:E; to_prop.
    - left. split; [done|]. intros _. apply orb_true_iff in E as [E|E]; to_prop; lia.
    - apply orb_false_iff in E as [? ?]. to_prop. right. split; [split; [done|lia]|].
      destruct (_ <=? seen) eqn:E'; to_prop; [left; split; [done|lia]|right; split; [done|lia]]. }
  destruct Hcls as [[E Hf]|[Hint [[E Hge]|[E Hlt]]]]; rewrite E in H.
  - injection H as <- <- <- <- <- <- <-. exists [], []. cbn. rewrite app_nil_r. split_and!; try done; [by left|by rewrite Hlen].
  - injection H as <- <- <- <- <- <- <-. exists [], []. cbn. rewrite app_nil_r. split_and!; try done; [by left|by rewrite Hlen|rewrite ?zlen_nil; cbn; lia].
  - assert (Hcont : forall used0 buf0 conn0 rounds0, rounds = used0 ++ rounds0 -> buf0 = drop (sep + 4) buf ++ data_of used0 ->
      contains_sub CRLFCRLF buf0 = true -> skipInterim fuel (seen + 1) buf0 conn0 rounds0 = Head block rest status tm buf' conn' rounds' ->
      exists skipped used, rounds = used ++ rounds' /\ flat_map head_bytes skipped ++ buf' = buf ++ data_of used /\
        Forall interim_block skipped /\ (skipped = [] \/ seen + zlen skipped <= kMaxInterimResponses) /\
        contains_sub CRLFCRLF buf' = true /\ buf' = head_bytes block ++ rest /\ index_sub CRLFCRLF buf' = Some (length block) /\
        status = parseStatusLine (first_line_of block) /\
        (if tm then interim_block block /\ kMaxInterimResponses <= seen + zlen skipped else sl_ok status = true -> sl_statusCode status < 100 \/ 200 <= sl_statusCode status)).
    { intros used0 buf0 conn0 rounds0 E1 E2 E3 E4. apply IH in E4 as (sk & used & F1 & F2 & F3 & F4 & F5 & F6 & F7 & F8 & F9); [|done|lia].
      exists (take sep buf :: sk), (used0 ++ used). rewrite zlen_cons. split_and!; try done.
      - by rewrite E1, F1, app_assoc.
      - cbn [flat_map]. rewrite <- app_assoc, F2, E2, data_of_app, <- app_assoc. rewrite Hb at 3. by rewrite <- app_assoc.
      - by constructor.
      - right. destruct F4 as [->|F4]; [rewrite zlen_nil|]; lia.
      - destruct tm; [|done]. destruct F9 as [? ?]. split; [done|lia]. }
    destruct (contains_sub CRLFCRLF (drop (sep + 4) buf)) eqn:Ec.
    + apply (Hcont [] (drop (sep + 4) buf) conn rounds); [done|cbn; by rewrite app_nil_r|done|done].
    + destruct (readHead _ _ _) as [[|] st'] eqn:Er; [|done]. apply readHead_spec in Er as (G1 & used0 & G2 & G3).
      by apply (Hcont used0 (r_out st') (r_conn st') (r_rounds st')).
Qed.

Lemma cl_range headers : ca_present (parseContentLengthHeaders headers) = true -> ca_ok (parseContentLengthHeaders headers) = true ->
  0 <= ca_value (parseContentLengthHeaders headers) <= kMaxBodyBytes /\
  Forall (means (ca_value (parseContentLengthHeaders headers))) (all_elements headers) /\ all_elements headers <> [].
Proof.
  intros _ Hok. destruct (cl_fields_spec headers false (mkCLAll false false 0 [])) as [H1 H2].
  fold (parseContentLengthHeaders headers) in H1, H2. destruct (H2 Hok) as [_ Hf]. apply H1 in Hok as ([?|Hne] & _); [done|].
  split_and!; try done; destruct (all_elements headers) as [|x xs]; try done; apply Forall_cons in Hf as [Hx _]; unfold means in Hx;
    destruct (parseContentLength_cases x) as [(n & En & Hn)|En]; rewrite En in Hx; try done; injection Hx as <-; lia.
Qed.

Lemma readToClose_spec rounds : forall out conn, exists used unread,
  rounds = used ++ unread /\ readToClose out conn rounds = out ++ data_of used.
Proof.
  induction rounds as [|r rs IH]; intros out conn; cbn [readToClose].
  - exists [], []. change (data_of []) with (@nil Z). rewrite !app_nil_r. by destruct (negb conn), (kMaxBodyBytes <=? zlen out).
  - assert (Hstop : exists used unread, r :: rs = used ++ unread /\ out = out ++ data_of used).
    { exists [], (r :: rs). change (data_of []) with (@nil Z). by rewrite app_nil_r. }
    destruct (negb conn); [done|]. destruct (_ <=? zlen out); [done|]. destruct (round_refused r); [done|].
    destruct (IH (out ++ rd_data r) (rd_connected r)) as (used & unread & E1 & E2). exists (r :: used), unread.
    split; [by rewrite E1|]. rewrite E2. change (data_of (r :: used)) with (rd_data r ++ data_of used). by rewrite <- app_assoc.
Qed.

(** What a framing says of a body and of the bytes [framed] behind the head. *)
Definition framed_ok (f : Framing) (headers : list (qstr * qstr)) (framed body : bytes) : Prop :=
  match f with
  | NoBody => body = []
  | ByChunks => exists enc left, framed = enc ++ left /\ chunked enc body /\ zlen body <= kMaxBodyBytes
  | BadLength _ => False
  | ByLength n => zlen body = n /\ n <= kMaxBodyBytes /\ all_elements headers <> [] /\ Forall (means n) (all_elements headers) /\
      exists left, framed = body ++ left
  | ToClose => framed = body
  end.

Lemma readBody_spec request status headers rest raw conn rounds lst body raw' :
  readBody (framing request status headers) rest raw conn rounds lst = inl (body, raw') ->
  exists more used unread tail lst', raw' = raw ++ more /\ rounds = used ++ unread /\ more ++ tail = data_of used ++ lst' /\
    (lst' = [] \/ lst' = lst) /\ framed_ok (framing request status headers) headers (rest ++ more) body /\
    (framing request status headers = ToClose -> tail = [] \/ kMaxBodyBytes <= zlen body).
Proof.
  intros H. destruct (framing request status headers) as [| |vs|n|] eqn:Ef; cbn [readBody] in H.
  - injection H as <- <-. exists [], [], rounds, [], []. rewrite app_nil_r. split_and!; auto; try done.
  - destruct (readChunks _ _ _ _ _) as [[[b|] rw] c] eqn:Er; [|done]. injection H as <- <-.
    apply readChunks_spec in Er as (used & unread & body' & enc & left & E1 & E2 & E3 & E4 & E5 & E6).
    exists (data_of used), used, unread, [], []. rewrite !app_nil_r. split_and!; auto; try done. cbn [framed_ok app] in *. subst b.
    exists enc, left. split_and!; auto; try done. apply E6. by vm_compute.
  - done.
  - assert (Hcl : ca_present (parseContentLengthHeaders headers) = true /\ ca_ok (parseContentLengthHeaders headers) = true /\ n = ca_value (parseContentLengthHeaders headers)).
    { unfold framing in Ef. destruct (_ || _ || _); [done|]. destruct (isChunkedTransfer _); [done|].
      destruct (ca_present _); [|done]. destruct (ca_ok _); [|done]. by injection Ef. }
    destruct Hcl as (Hp & Hok & ->). destruct (cl_range headers Hp Hok) as (Hr & Hm & Hne). set (n := ca_value _) in *.
    destruct (zlen rest <? n) eqn:El; to_prop.
    + unfold readExactly in H. destruct (_ || _); [done|]. destruct (readBytes _ _ _ _) as [[|] st] eqn:Er; [|done].
      injection H as <- <-. apply readBytes_spec in Er as (Hl & used & left & E1 & E2); [|rewrite zlen_nil; lia].
      exists (r_out st), used, (r_rounds st), left, []. rewrite !app_nil_r. split_and!; auto; try done. cbn [framed_ok].
      split_and!; auto; [rewrite zlen_app; lia|lia|exists []; by rewrite app_nil_r].
    + injection H as <- <-. exists [], [], rounds, [], []. rewrite !app_nil_r. split_and!; auto; try done. cbn [framed_ok].
      split_and!; auto; [unfold zlen in *; rewrite length_take; lia|lia|]. exists (drop (Z.to_nat n) rest). by rewrite take_drop.
  - injection H as <- <-. destruct (readToClose_spec rounds [] conn) as (used & unread & E1 & E2). unfold readUntilClosed. rewrite E2.
    cbn [app]. exists (take (Z.to_nat kMaxBodyBytes) (data_of used ++ lst)), used, unread, (drop (Z.to_nat kMaxBodyBytes) (data_of used ++ lst)), lst.
    rewrite take_drop. split_and!; auto; try done. intros _.
    set (all := data_of used ++ lst). destruct (decide (length all <= Z.to_nat kMaxBodyBytes)%nat) as [Hle|Hgt]; [left; by apply drop_ge|right].
    rewrite zlen_app. pose proof (zlen_nonneg rest). unfold zlen at 2. rewrite length_take. lia.
Qed.

(** C12. A successful answer is what the peer sent, cut where its framing cuts it, whatever
    the segmentation: behind at most eight skipped 1xx heads, its raw bytes are exactly
    the bytes delivered, its head is the first one that is not interim and its fields are
    that head's.  Where the fields frame the body it is complete: none, the data of one
    whole chunked message, or exactly the length on which all Content-Length values agree.
    A body without either is all that was delivered behind the head before the read ended,
    up to the cap of 128 MiB, and nothing tells whether the peer had finished: a read that a
    timeout or the cap ended is a success as well ([truncated_read_succeeds]). *)
Theorem receive_sound request w :
  hs_ok (receive request w) = true ->
  let r := receive request w in
  exists skipped used unread tail lst block framed,
    w_rounds w = used ++ unread /\ (lst = [] \/ lst = w_last w) /\
    flat_map head_bytes skipped ++ hs_raw r ++ tail = data_of used ++ lst /\
    Forall interim_block skipped /\ zlen skipped <= kMaxInterimResponses /\
    hs_raw r = head_bytes block ++ framed /\ index_sub CRLFCRLF (hs_raw r) = Some (length block) /\ ~ interim_block block /\
    let st := parseStatusLine (first_line_of block) in
    sl_ok st = true /\ rs_statusCode (hs_parsed r) = sl_statusCode st /\ rs_headers (hs_parsed r) = parseHeaders block /\
    framed_ok (framing request (sl_statusCode st) (parseHeaders block)) (parseHeaders block) framed (rs_body (hs_parsed r)) /\
    (framing request (sl_statusCode st) (parseHeaders block) = ToClose -> tail = [] \/ kMaxBodyBytes <= zlen (rs_body (hs_parsed r))).
Proof.
  unfold receive. destruct (readHead _ _ _) as [[|] st] eqn:Eh; [|done]. apply readHead_spec in Eh as (Hc & used1 & E1 & E2). cbn [app] in E2.
  destruct (skipInterim _ _ _ _ _) as [|block rest status tm buf conn rounds] eqn:Es; [done|].
  apply skipInterim_spec in Es as (skipped & used2 & F1 & F2 & F3 & F4 & F5 & F6 & F7 & F8 & F9); [|done|lia].
  destruct tm; [done|]. destruct (sl_ok status) eqn:Eok; cbn [negb]; [|done].
  destruct (readBody _ _ _ _ _ _) as [[body raw]|[[e a] raw]] eqn:Eb; [|by destruct a].
  apply readBody_spec in Eb as (more & used3 & unread & tail & lst & G1 & G2 & G3 & G4 & G5 & G6).
  destruct (inspected _ _) as [dec isd]. intros _. cbv zeta. cbn [hs_raw hs_parsed rs_statusCode rs_headers rs_body].
  exists skipped, (used1 ++ used2 ++ used3), unread, tail, lst, block, (rest ++ more). split_and!; try done.
  - by rewrite E1, F1, G2, <- !app_assoc.
  - rewrite G1, !data_of_app. rewrite <- !app_assoc. rewrite G3. rewrite !app_assoc. rewrite F2, E2. by rewrite <- !app_assoc.
  - destruct F4 as [->|F4]; [rewrite zlen_nil; vm_compute; discriminate|lia].
  - rewrite G1, F6. by rewrite <- app_assoc.
  - rewrite G1. apply index_sub_prefix; [done|]. done.
  - intros [Hi1 Hi2]. rewrite <- F8 in Hi1, Hi2. destruct (F9 eq_refl); lia.
  - by rewrite <- F8.
  - by rewrite F8.
  - rewrite <- F8. exact G5.
  - rewrite <- F8. exact G6.
Qed.

(** ** Failures *)

(** A loop that gave up after the rounds [used]: its bound is passed ([full]), the peer
    closed with the last of them, no round is left, or the budget refuses the next. *)
Definition stopped (full : Prop) (used unread : list Round) : Prop :=
  full \/ (exists r, last used = Some r /\ rd_connected r = false) \/ match unread with [] => True | r :: _ => round_refused r = true end.

Lemma stopped_app full a b unread : stopped full b unread -> stopped full (a ++ b) unread.
Proof.
  intros [H|[(r & H & Hr)|H]]; [by left|right; left|by right; right]. exists r. split; [|done]. by rewrite last_app, H.
Qed.

Lemma readHead_fail rounds : forall out conn st, readHead out conn rounds = (false, st) ->
  exists used unread, rounds = used ++ unread /\ contains_sub CRLFCRLF (out ++ data_of used) = false /\
    stopped (kMaxHead < zlen (out ++ data_of used)) used unread.
Proof.
  induction rounds as [|r rs IH]; intros out conn st H; cbn [readHead] in H; destruct (contains_sub CRLFCRLF out) eqn:Ec; try done.
  - exists [], []. cbn. rewrite app_nil_r. split_and!; try done. destruct (_ <? _); by right; right.
  - assert (Hstop : stopped (kMaxHead < zlen out) [] (r :: rs) -> exists used unread, r :: rs = used ++ unread /\
      contains_sub CRLFCRLF (out ++ data_of used) = false /\ stopped (kMaxHead < zlen (out ++ data_of used)) used unread).
    { intros Hs. exists [], (r :: rs). change (data_of []) with (@nil Z). by rewrite app_nil_r. }
    destruct (kMaxHead <? zlen out) eqn:Ek; to_prop; [apply Hstop; by left|].
    destruct (round_refused r) eqn:Er; [apply Hstop; by right; right|].
    destruct (negb (rd_connected r) && _) eqn:Ed.
    + apply andb_true_iff in Ed as [Ed1 Ed2]. apply negb_true_iff in Ed1, Ed2. exists [r], rs.
      change (data_of [r]) with (rd_data r ++ []). rewrite app_nil_r. split_and!; try done. right; left. by exists r.
    + apply IH in H as (used & unread & -> & H1 & H2). exists (r :: used), unread. change (data_of (r :: used)) with (rd_data r ++ data_of used).
      rewrite <- app_assoc in H1, H2. split_and!; try done. by apply (stopped_app _ [r]).
Qed.

Lemma readBytes_fail n rounds : forall out conn st, readBytes n out conn rounds = (false, st) ->
  exists used unread, rounds = used ++ unread /\ zlen (out ++ data_of used) < n /\ stopped False used unread.
Proof.
  induction rounds as [|r rs IH]; intros out conn st H; cbn [readBytes] in H; destruct (n <=? zlen out) eqn:En; to_prop; try done.
  - exists [], []. cbn. rewrite app_nil_r. split_and!; try done. by right; right.
  - destruct (round_refused r) eqn:Er.
    { exists [], (r :: rs). change (data_of []) with (@nil Z). rewrite app_nil_r. split_and!; try done. by right; right. }
    set (got := take (Z.to_nat (n - zlen out)) (rd_data r)) in *.
    assert (Hall : zlen (out ++ got) < n -> got = rd_data r).
    { unfold got. rewrite zlen_app. unfold zlen at 2. rewrite length_take. intros Hlt. apply take_ge. unfold zlen in *. lia. }
    destruct (negb (rd_connected r) && _) eqn:Ed.
    + apply andb_true_iff in Ed as [Ed1 Ed2]. apply negb_true_iff in Ed1. to_prop. rewrite (Hall Ed2) in Ed2. exists [r], rs.
      change (data_of [r]) with (rd_data r ++ []). rewrite app_nil_r. split_and!; try done. right; left. by exists r.
    + apply IH in H as (used & unread & -> & H1 & H2). exists (r :: used), unread. change (data_of (r :: used)) with (rd_data r ++ data_of used).
      assert (Hg : got = rd_data r) by (apply Hall; rewrite zlen_app in H1; pose proof (zlen_nonneg (data_of used)); lia).
      rewrite Hg, <- app_assoc in H1. split_and!; try done. by apply (stopped_app _ [r]).
Qed.

(** What a failed chunk loop took from the peer is over the cap or starts with no whole
    chunked message within the limits. *)
Lemma readChunks_fail rounds : forall buffer decoded all conn raw c, readChunks buffer decoded all conn rounds = (None, raw, c) ->
  exists used unread, rounds = used ++ unread /\ raw = all ++ data_of used /\
    (kMaxBodyBytes < zlen raw \/ forall enc body left, chunked_within enc body -> zlen decoded + zlen body <= kMaxBodyBytes ->
       buffer ++ data_of used <> enc ++ left).
Proof.
  assert (Hstop : forall buffer decoded, (forall b d, feedChunked buffer decoded <> Some (CDone, b, d)) ->
    forall enc body left, chunked_within enc body -> zlen decoded + zlen body <= kMaxBodyBytes -> buffer ++ [] <> enc ++ left).
  { intros buffer decoded Hn enc body left Hc Hm Hb.
    destruct (feed_prefix enc body Hc (S (length buffer)) buffer decoded [] left) as [(b' & E & _)|(b' & b1 & b2 & e2 & _ & _ & _ & _ & Hne)]; try done; [lia|].
    by apply (Hn b' (decoded ++ body)). }
  assert (Hnow : forall rounds buffer decoded (all raw : bytes), all = raw -> (forall b d, feedChunked buffer decoded <> Some (CDone, b, d)) ->
    exists used unread, rounds = used ++ unread /\ raw = all ++ data_of used /\
      (kMaxBodyBytes < zlen raw \/ forall enc body left, chunked_within enc body -> zlen decoded + zlen body <= kMaxBodyBytes ->
         buffer ++ data_of used <> enc ++ left)).
  { intros rounds' buffer decoded all raw <- Hn. exists [], rounds'. change (data_of []) with (@nil Z). rewrite app_nil_r.
    split_and!; try done. right. by apply Hstop. }
  induction rounds as [|r rs IH]; intros buffer decoded all conn raw c H; cbn [readChunks] in H;
    destruct (feedChunked buffer decoded) as [[[[] b'] d']|] eqn:Ef; try done;
    try (injection H as H _; apply Hnow; [done|by rewrite Ef]).
  destruct (_ <=? 0); [injection H as H _; apply Hnow; [done|by rewrite Ef]|].
  destruct (_ <? zlen _) eqn:Ecap; to_prop.
  { injection H as <- <-. exists [r], rs. change (data_of [r]) with (rd_data r ++ []). rewrite app_nil_r. split_and!; try done. by left. }
  apply IH in H as (used & unread & -> & -> & Hd). exists (r :: used), unread. change (data_of (r :: used)) with (rd_data r ++ data_of used).
  rewrite <- app_assoc in *. split_and!; try done. destruct Hd as [?|Hd]; [by left|right]. intros enc body left Hc Hm Hb.
  destruct (feed_prefix enc body Hc (S (length buffer)) buffer decoded (rd_data r ++ data_of used) left)
    as [(b1 & E & _)|(b1 & body1 & body2 & enc2 & E & E1 & E2 & E3 & _)]; try done; [lia|unfold feedChunked in Ef; by rewrite Ef in E|].
  unfold feedChunked in Ef. rewrite Ef in E. injection E as -> ->. rewrite <- app_assoc in Hd.
  apply (Hd enc2 body2 left E2); [|done]. rewrite E1 in Hm. rewrite zlen_app in *. lia.
Qed.

Lemma skipInterim_lost fuel : forall seen buf conn rounds, contains_sub CRLFCRLF buf = true -> 0 <= seen ->
  kMaxInterimResponses < seen + Z.of_nat fuel -> seen <= kMaxInterimResponses -> skipInterim fuel seen buf conn rounds = HeadLost ->
  exists skipped used unread partial, rounds = used ++ unread /\ buf ++ data_of used = flat_map head_bytes skipped ++ partial /\
    skipped <> [] /\ Forall interim_block skipped /\ seen + zlen skipped <= kMaxInterimResponses /\
    contains_sub CRLFCRLF partial = false /\ stopped (kMaxHead < zlen partial) used unread.
Proof.
  induction fuel as [|fuel IH]; intros seen buf conn rounds Hc Hseen Hf Hle H; cbn [skipInterim] in H; [lia|].
  destruct (head_split buf Hc) as [Hi Hb]. set (sep := default 0%nat (index_sub CRLFCRLF buf)) in *.
  assert (Hint : classifyInterimResponse (parseStatusLine (first_line_of (take sep buf))) seen kMaxInterimResponses = SkipToNext ->
    interim_block (take sep buf) /\ seen < kMaxInterimResponses).
  { unfold interim_block, classifyInterimResponse. destruct (sl_ok _); [|done]. cbn [negb]. destruct (_ || _) eqn:E; [done|].
    apply orb_false_iff in E as [? ?]. to_prop. destruct (_ <=? seen) eqn:E'; to_prop; [done|]. intros _. split_and!; [done|lia..]. }
  destruct (classifyInterimResponse _ _ _); try done. destruct (Hint eq_refl) as [Hib Hlt].
  assert (Hnext : forall used0 buf0 conn0 rounds0, rounds = used0 ++ rounds0 -> buf0 = drop (sep + 4) buf ++ data_of used0 ->
    contains_sub CRLFCRLF buf0 = true -> skipInterim fuel (seen + 1) buf0 conn0 rounds0 = HeadLost ->
    exists skipped used unread partial, rounds = used ++ unread /\ buf ++ data_of used = flat_map head_bytes skipped ++ partial /\
      skipped <> [] /\ Forall interim_block skipped /\ seen + zlen skipped <= kMaxInterimResponses /\
      contains_sub CRLFCRLF partial = false /\ stopped (kMaxHead < zlen partial) used unread).
  { intros used0 buf0 conn0 rounds0 -> E Hc0 Hl. apply IH in Hl as (sk & used & unread & partial & -> & F2 & F3 & F4 & F5 & F6 & F7); [|done|lia|lia|lia].
    exists (take sep buf :: sk), (used0 ++ used), unread, partial. rewrite zlen_cons. split_and!; try done.
    - by rewrite app_assoc.
    - cbn [flat_map]. rewrite <- app_assoc, <- F2, E, data_of_app. rewrite Hb at 1. by rewrite <- !app_assoc.
    - by constructor.
    - lia.
    - by apply stopped_app. }
  destruct (contains_sub CRLFCRLF (drop (sep + 4) buf)) eqn:Ec.
  { apply (Hnext [] (drop (sep + 4) buf) conn rounds); [done|cbn; by rewrite app_nil_r|done|done]. }
  destruct (readHead _ _ _) as [[|] st'] eqn:Er.
  { apply readHead_spec in Er as (G1 & used0 & G2 & G3). by apply (Hnext used0 (r_out st') (r_conn st') (r_rounds st')). }
  apply readHead_fail in Er as (used & unread & -> & G2 & G3).
  exists [take sep buf], used, unread, (drop (sep + 4) buf ++ data_of used). change (zlen [take sep buf]) with 1. split_and!; try done.
  - cbn [flat_map]. rewrite app_nil_r, app_assoc. by rewrite <- Hb.
  - by constructor.
  - lia.
Qed.

(** The state of a socket that is asked why a call failed: what is reported of it. *)
Inductive transport : SocketError -> bool -> SocketOutcome -> Prop :=
| peer_closed alive : transport RemoteHostClosedError alive OReset
| never_up e alive :
    e = ConnectionRefusedError \/ e = HostNotFoundError \/ e = SocketAccessError \/ e = ProxyConnectionRefusedError \/
    e = ProxyNotFoundError \/ e = SslHandshakeFailedError -> transport e alive OConnectError
| silent_peer e : e = SocketTimeoutError \/ e = OtherSocketError -> transport e true OTimeout
| vanished_peer e : e = SocketTimeoutError \/ e = OtherSocketError -> transport e false OReset.

Lemma classify_transport e alive : transport e alive (classifySocketOutcome e alive).
Proof. destruct e, alive; cbn; try (apply peer_closed || (apply silent_peer; auto) || (apply vanished_peer; auto)); apply never_up; auto 10. Qed.

(** The rounds [used] brought [skipped] interim heads, the head [block] and [rest]. *)
Definition head_found (used : list Round) (skipped : list bytes) (block rest : bytes) : Prop :=
  data_of used = flat_map head_bytes skipped ++ head_bytes block ++ rest /\ Forall interim_block skipped /\
  zlen skipped <= kMaxInterimResponses /\ index_sub CRLFCRLF (head_bytes block ++ rest) = Some (length block).

(** The head [block] is final and frames its body by [f]. *)
Definition final_head (request block : bytes) (f : Framing) : Prop :=
  let st := parseStatusLine (first_line_of block) in
  sl_ok st = true /\ ~ interim_block block /\ framing request (sl_statusCode st) (parseHeaders block) = f.

(** Why a request on the wire got no answer, with the error text, the bytes handed back
    and whether the socket is to blame. *)
Inductive unanswered (request : bytes) (w : Wire) : qstr -> bytes -> bool -> Prop :=
| no_head used unread :
    w_rounds w = used ++ unread -> contains_sub CRLFCRLF (data_of used) = false -> stopped (kMaxHead < zlen (data_of used)) used unread ->
    unanswered request w (lit "no response headers received") [] true
| no_final_head used unread skipped partial :
    w_rounds w = used ++ unread -> data_of used = flat_map head_bytes skipped ++ partial -> skipped <> [] -> Forall interim_block skipped ->
    zlen skipped <= kMaxInterimResponses -> contains_sub CRLFCRLF partial = false -> stopped (kMaxHead < zlen partial) used unread ->
    unanswered request w (lit "no final response after 1xx") [] true
| too_many_heads used unread skipped block rest :
    w_rounds w = used ++ unread -> head_found used skipped block rest -> zlen skipped = kMaxInterimResponses -> interim_block block ->
    unanswered request w (lit "too many 1xx interim responses") (head_bytes block ++ rest) false
| bad_status_line used unread skipped block rest :
    w_rounds w = used ++ unread -> head_found used skipped block rest -> sl_ok (parseStatusLine (first_line_of block)) = false ->
    unanswered request w (lit "malformed status line: " ++ (if contains_sub CRLF block then first_line_of block else [])) (head_bytes block ++ rest) false
| bad_lengths used unread skipped block rest values :
    w_rounds w = used ++ unread -> head_found used skipped block rest -> final_head request block (BadLength values) ->
    unanswered request w (lit "invalid or conflicting Content-Length: " ++ join (lit ", ") values) (head_bytes block ++ rest) false
| broken_chunks used more unread skipped block rest :
    w_rounds w = used ++ more ++ unread -> head_found used skipped block rest -> final_head request block ByChunks ->
    kMaxBodyBytes < zlen (head_bytes block ++ rest ++ data_of more) \/
      (forall enc body left, chunked_within enc body -> zlen body <= kMaxBodyBytes -> rest ++ data_of more <> enc ++ left) ->
    unanswered request w (lit "chunked body read failed") (head_bytes block ++ rest ++ data_of more) true
| cut_body used more unread skipped block rest n :
    w_rounds w = used ++ more ++ unread -> head_found used skipped block rest -> final_head request block (ByLength n) ->
    zlen (rest ++ data_of more) < n -> stopped False more unread ->
    unanswered request w (lit "content-length body read truncated") (head_bytes block ++ rest) true.

Lemma receive_unanswered request w : hs_ok (receive request w) = false ->
  exists blame, unanswered request w (hs_error (receive request w)) (hs_raw (receive request w)) blame /\
    hs_wire (receive request w) = Some request /\
    hs_outcome (receive request w) = if blame then classifySocketOutcome (w_error w) (w_alive w) else OOk.
Proof.
  unfold receive. destruct (readHead _ _ _) as [[|] st] eqn:Eh.
  2:{ intros _. apply readHead_fail in Eh as (used & unread & E & H1 & H2). exists true. split_and!; try done. by eapply no_head. }
  apply readHead_spec in Eh as (Hc & used1 & E1 & E2). cbn [app] in E2.
  destruct (skipInterim _ _ _ _ _) as [|block rest status tm buf conn rounds] eqn:Es.
  { intros _. apply skipInterim_lost in Es as (skipped & used & unread & partial & F1 & F2 & F3 & F4 & F5 & F6 & F7); [|done|done|done|done].
    exists true. split_and!; try done. apply (no_final_head _ _ (used1 ++ used) unread skipped partial); try done; [by rewrite E1, F1, app_assoc| |by apply stopped_app].
    by rewrite data_of_app, <- E2, F2. }
  apply skipInterim_spec in Es as (skipped & used2 & F1 & F2 & F3 & F4 & F5 & F6 & F7 & F8 & F9); [|done|done].
  assert (Hrounds : w_rounds w = (used1 ++ used2) ++ rounds) by (by rewrite E1, F1, app_assoc).
  assert (Hfound : head_found (used1 ++ used2) skipped block rest).
  { split_and!; [by rewrite data_of_app, <- E2, <- F6, F2|done| |by rewrite <- F6]. destruct F4 as [->|F4]; [rewrite zlen_nil; vm_compute; discriminate|lia]. }
  destruct tm.
  { intros _. exists false. split_and!; try done. cbn [hs_error hs_raw]. rewrite F6. destruct F9 as [? ?]. destruct Hfound as (? & ? & ? & ?).
    eapply too_many_heads; try done. cbn [Z.add] in *. lia. }
  destruct (sl_ok status) eqn:Eok; cbn [negb].
  2:{ intros _. exists false. split_and!; try done. cbn [hs_error hs_raw]. rewrite F6. subst status.
      replace (match index_sub CRLF block with Some i => take i block | None => [] end) with (if contains_sub CRLF block then first_line_of block else []).
      - by eapply bad_status_line.
      - unfold contains_sub, first_line_of. by destruct (index_sub CRLF block). }
  assert (Hfinal : final_head request block (framing request (sl_statusCode status) (parseHeaders block))).
  { unfold final_head. rewrite <- F8. split_and!; try done. intros [_ Hi]. rewrite <- F8 in Hi. destruct (F9 eq_refl); lia. }
  destruct (readBody _ _ _ _ _ _) as [[body raw]|[[e a] raw]] eqn:Eb; [by destruct (inspected _ _)|]. intros _. exists a.
  assert (Hun : unanswered request w e raw a).
  { destruct (framing _ _ _) as [| |vs|n|]; cbn [readBody] in Eb; try done.
    - destruct (readChunks _ _ _ _ _) as [[[b|] raw'] c] eqn:Ec; [done|]. injection Eb as <- <- <-.
      apply readChunks_fail in Ec as (more & unread & G1 & -> & G2). rewrite F6, <- app_assoc in G2 |- *. subst rounds.
      eapply broken_chunks; try done.
    - injection Eb as <- <- <-. rewrite F6. by eapply bad_lengths.
    - destruct (zlen rest <? n) eqn:El; to_prop; [|done]. unfold readExactly in Eb.
      assert (Hn : n <= kMaxBodyBytes).
      { destruct Hfinal as (_ & _ & Hf). unfold framing in Hf. destruct (_ || _ || _); [done|]. destruct (isChunkedTransfer _); [done|].
        destruct (ca_present _) eqn:Ep; [|done]. destruct (ca_ok _) eqn:Eo; [|done]. injection Hf as <-. by destruct (cl_range _ Ep Eo) as [[_ ?] _]. }
      pose proof (zlen_nonneg rest). destruct (_ || _) eqn:Er; [apply orb_true_iff in Er as [Er|Er]; to_prop; lia|].
      destruct (readBytes _ _ _ _) as [[|] st'] eqn:Ec; [done|]. injection Eb as <- <- <-. rewrite F6.
      apply readBytes_fail in Ec as (more & unread & -> & G1 & G2). eapply cut_body; try done. rewrite zlen_app. cbn [app] in G1. lia. }
  by destruct a; split_and!.
Qed.

(** What a failed call reports: the text, the outcome, what was put on the wire and the
    bytes handed back, by what went wrong. *)
Inductive failure purpose se (s1 s2 : Checker * Checker) now w host port tls input : qstr -> SocketOutcome -> option bytes -> bytes -> Prop :=
| out_of_scope :
    purpose <> ApplicationService -> allowsRequest (fst s1) (snd s1) host port tls input = false ->
    failure purpose se s1 s2 now w host port tls input (lit "Target is outside project scope; request was not sent") OOk None []
| changed_out_of_scope :
    purpose = Scanner -> has_sessions se = true ->
    allowsRequest (fst s2) (snd s2) host port tls (sessionBytes se now host port tls input) = false ->
    failure purpose se s1 s2 now w host port tls input (lit "Target is outside project scope; request was not sent") OOk None []
| unreachable reason :
    w_refused w = Some reason ->
    failure purpose se s1 s2 now w host port tls input ((if tls then lit "TLS handshake failed: " else lit "connect failed: ") ++ reason) OConnectError None []
| not_written request o :
    request = (if has_sessions (active_sessions purpose se) then sessionBytes (active_sessions purpose se) now host port tls input else input) ->
    w_refused w = None -> w_written w = false -> transport (w_error w) (w_alive w) o ->
    failure purpose se s1 s2 now w host port tls input (lit "write failed: " ++ w_text w) o (Some request) []
| not_answered request e raw blame o :
    request = (if has_sessions (active_sessions purpose se) then sessionBytes (active_sessions purpose se) now host port tls input else input) ->
    w_refused w = None -> w_written w = true -> unanswered request w e raw blame ->
    (if blame then transport (w_error w) (w_alive w) o else o = OOk) ->
    failure purpose se s1 s2 now w host port tls input e o (Some request) raw.

(** C23. How a failed call is reported.  Every failure has its own cause, text and outcome:
    a request outside the scope is not sent and has no transport outcome; a peer that
    cannot be reached is a connect error with nothing on the wire; a failed write, a
    head that never completes, a final head that never follows the interim ones, chunks
    that are no whole message within the limits and a body shorter than its length
    are blamed on the socket; a ninth interim head, a malformed status line and
    contradictory lengths arrived in full and carry none.  A socket to blame is a connect
    error, a reset or a timeout by its last error, and a timeout is always a peer that
    was still connected. *)
Theorem send_failures purpose se s1 s2 now w host port tls input :
  let r := send purpose se s1 s2 now w host port tls input in
  hs_ok r = false ->
  failure purpose se s1 s2 now w host port tls input (hs_error r) (hs_outcome r) (hs_wire r) (hs_raw r) /\
  (hs_outcome r = OTimeout -> w_alive w = true).
Proof.
  cbv zeta. set (r := send _ _ _ _ _ _ _ _ _ _). intros Hno.
  assert (Hf : failure purpose se s1 s2 now w host port tls input (hs_error r) (hs_outcome r) (hs_wire r) (hs_raw r)).
  { revert Hno. unfold r, send. destruct (negb (isService purpose) && _) eqn:E1.
    { intros _. apply andb_true_iff in E1 as [Ep Ea]. apply negb_true_iff in Ep, Ea. apply out_of_scope; [by intros ->|done]. }
    destruct (has_sessions (active_sessions purpose se) && _) eqn:E2.
    { intros _. apply andb_true_iff in E2 as [Ep Ea]. apply negb_true_iff in Ea. rewrite Ep in Ea. destruct purpose; try done. by apply changed_out_of_scope. }
    destruct (w_refused w) as [reason|] eqn:Er; [intros _; by apply unreachable|].
    destruct (w_written w) eqn:Ew; cbn [negb]; [|intros _; apply not_written; try done; apply classify_transport].
    set (request := if has_sessions _ then _ else input) in *. destruct (hs_ok (receive request w)) eqn:Eo; cbn [andb]; [by destruct (has_sessions _); rewrite ?Eo|].
    intros _. destruct (receive_unanswered request w Eo) as (blame & Hu & -> & ->). eapply not_answered; try done.
    destruct blame; [apply classify_transport|done]. }
  split; [exact Hf|]. destruct Hf; try done; intros ->.
  - by inversion H2.
  - destruct blame; [by inversion H3|done].
Qed.

(** ** Every segmentation delivers the message *)

(** Rounds that bring data in time from a peer that stays. *)
Definition live (r : Round) : Prop := rd_connected r = true /\ 0 <= rd_clock r < kMaxTotalReadMs.

Lemma live_wait r : live r -> (nextReadTimeoutMs (rd_clock r) kTimeoutMs kMaxTotalReadMs <=? 0) = false.
Proof.
  intros [_ H]. unfold nextReadTimeoutMs, kTimeoutMs, kMaxTotalReadMs in *. cbn [orb]. apply Z.leb_gt.
  change ((15000 <=? 0) || (300000 <=? 0)) with false. cbv iota. repeat case_match; to_prop; lia.
Qed.
Lemma live_taken r : live r -> round_refused r = false.
Proof. intros H. unfold round_refused. rewrite (live_wait r H). by rewrite andb_false_r. Qed.

(** A head within the cap. *)
Definition head_fits (b : bytes) : Prop := index_sub CRLFCRLF (head_bytes b) = Some (length b) /\ zlen b + 3 <= kMaxHead.

Lemma head_in_prefix buffer t b more : head_fits b -> buffer ++ t = head_bytes b ++ more ->
  (contains_sub CRLFCRLF buffer = false /\ (length buffer < length b + 4)%nat) \/
  (contains_sub CRLFCRLF buffer = true /\ index_sub CRLFCRLF buffer = Some (length b) /\ take (length b) buffer = b /\
   drop (length b + 4) buffer ++ t = more).
Proof.
  intros [Hb _] Ht. assert (Hfull : index_sub CRLFCRLF (buffer ++ t) = Some (length b)).
  { rewrite Ht. by apply index_sub_prefix. }
  unfold contains_sub. destruct (index_sub CRLFCRLF buffer) as [k|] eqn:E.
  - right. assert (k = length b) as -> by (apply (index_sub_prefix CRLFCRLF buffer t) in E; [congruence|done]).
    destruct (index_sub_Some _ _ _ E) as (Hl & Hs & _). apply starts_with_spec in Hs as [u Hu].
    assert (Hlen : (length b + 4 <= length buffer)%nat).
    { apply (f_equal length) in Hu. rewrite length_drop, length_app in Hu. cbn in Hu. lia. }
    unfold head_bytes in Ht. rewrite <- app_assoc in Ht. split_and!; [done|done| |].
    + apply (f_equal (take (length b))) in Ht. rewrite take_app_le in Ht by lia. by rewrite take_app_length in Ht.
    + apply (f_equal (drop (length b + 4))) in Ht. rewrite drop_app_le in Ht by lia. rewrite Ht.
      rewrite <- drop_drop, drop_app_length. done.
  - left. split; [done|]. destruct (decide (length buffer < length b + 4)%nat) as [?|Hge]; [done|exfalso].
    assert (Hp : buffer = head_bytes b ++ drop (length b + 4) buffer).
    { apply (f_equal (take (length b + 4))) in Ht. rewrite take_app_le in Ht by lia.
      rewrite take_app_le in Ht by (unfold head_bytes; rewrite length_app; cbn; lia).
      rewrite (take_ge (head_bytes b)) in Ht by (unfold head_bytes; rewrite length_app; cbn; lia). rewrite <- Ht. by rewrite take_drop. }
    rewrite Hp, (index_sub_prefix CRLFCRLF (head_bytes b) _ (length b) ltac:(done) Hb) in E. done.
Qed.

(** A read state that has the bytes [s] in hand or to come. *)
Definition holds (s : bytes) (conn : bool) (buf : bytes) (rounds : list Round) : Prop :=
  buf ++ data_of rounds = s /\ Forall live rounds /\ conn = true.

Lemma readHead_live b more rounds : forall out conn, head_fits b -> holds (head_bytes b ++ more) conn out rounds ->
  exists st, readHead out conn rounds = (true, st) /\ contains_sub CRLFCRLF (r_out st) = true /\
    holds (head_bytes b ++ more) (r_conn st) (r_out st) (r_rounds st).
Proof.
  induction rounds as [|r rs IH]; intros out conn Hf (Hb & Hl & ->); cbn [readHead];
    destruct (head_in_prefix _ _ _ _ Hf Hb) as [[Hc Hlen]|(Hc & _)]; rewrite Hc; try (by eexists; split_and!).
  - exfalso. change (data_of []) with (@nil Z) in Hb. rewrite app_nil_r in Hb. apply (f_equal length) in Hb. unfold head_bytes in Hb.
    rewrite !length_app in Hb. cbn in Hb. lia.
  - destruct Hf as [Hf1 Hf2]. destruct (_ <? zlen out) eqn:E; to_prop; [unfold zlen in *; lia|].
    apply Forall_cons in Hl as [Hr Hl]. rewrite (live_taken r Hr). rewrite (proj1 Hr). cbn [negb andb]. apply IH; [by split|].
    split_and!; [|done|done]. rewrite <- app_assoc. exact Hb.
Qed.

Lemma skipInterim_live skipped : forall fuel seen buf conn rounds block more,
  (length skipped < fuel)%nat -> 0 <= seen -> seen + zlen skipped <= kMaxInterimResponses ->
  Forall interim_block skipped -> Forall head_fits skipped -> head_fits block -> ~ interim_block block ->
  contains_sub CRLFCRLF buf = true -> holds (flat_map head_bytes skipped ++ head_bytes block ++ more) conn buf rounds ->
  exists rest rounds', skipInterim fuel seen buf conn rounds = Head block rest (parseStatusLine (first_line_of block)) false (head_bytes block ++ rest) true rounds' /\
    holds more true rest rounds'.
Proof.
  induction skipped as [|b bs IH]; intros fuel seen buf conn rounds block more Hf Hs Hmax Hi Hfits Hfit Hni Hc (Hb & Hl & ->);
    (destruct fuel as [|fuel]; [cbn in Hf; lia|]); cbn [skipInterim flat_map app] in *.
  - destruct (head_in_prefix _ _ _ _ Hfit Hb) as [[? _]|(_ & Hidx & Ht & Hd)]; [congruence|]. rewrite Hidx. cbn [default from_option id].
    rewrite Ht. destruct (head_split buf Hc) as [_ Hsp]. rewrite Hidx in Hsp. cbn [default from_option id] in Hsp. rewrite Ht in Hsp.
    assert (E : classifyInterimResponse (parseStatusLine (first_line_of block)) seen kMaxInterimResponses = Final).
    { unfold classifyInterimResponse. destruct (sl_ok _) eqn:Eok; cbn [negb]; [|done]. destruct (_ || _) eqn:E'; [done|].
      destruct Hni. apply orb_false_iff in E' as [? ?]. to_prop. split; [done|lia]. }
    rewrite E. exists (drop (length block + 4) buf), rounds. split; [by rewrite <- Hsp|]. by split_and!.
  - apply Forall_cons in Hi as [Hib Hi], Hfits as [Hfb Hfits]. rewrite <- app_assoc in Hb. rewrite zlen_cons in Hmax. pose proof (zlen_nonneg bs).
    destruct (head_in_prefix _ _ _ _ Hfb Hb) as [[? _]|(_ & Hidx & Ht & Hd)]; [congruence|]. rewrite Hidx. cbn [default from_option id]. rewrite Ht.
    assert (E : classifyInterimResponse (parseStatusLine (first_line_of b)) seen kMaxInterimResponses = SkipToNext).
    { destruct Hib as [H1 H2]. unfold classifyInterimResponse. rewrite H1. cbn [negb]. destruct (_ || _) eqn:E'.
      - apply orb_true_iff in E' as [?|?]; to_prop; lia.
      - destruct (_ <=? seen) eqn:E2; to_prop; [lia|done]. }
    rewrite E. assert (Hh : holds (flat_map head_bytes bs ++ head_bytes block ++ more) true (drop (length b + 4) buf) rounds) by (by split_and!).
    destruct (contains_sub CRLFCRLF (drop (length b + 4) buf)) eqn:Ec.
    + apply IH; try done; [cbn in Hf; lia|lia|lia].
    + assert (Hnext : exists b' more', head_fits b' /\ flat_map head_bytes bs ++ head_bytes block ++ more = head_bytes b' ++ more').
      { destruct bs as [|b' bs]; [by exists block, more|]. apply Forall_cons in Hfits as [? _]. cbn [flat_map].
        exists b', (flat_map head_bytes bs ++ head_bytes block ++ more). split; [done|]. by rewrite <- app_assoc. }
      destruct Hnext as (b' & more' & Hfit' & Hn). rewrite Hn in Hh.
      destruct (readHead_live _ _ _ _ _ Hfit' Hh) as (st & Er & Hc' & Hh'). rewrite Er. rewrite <- Hn in Hh'.
      apply IH; try done; [cbn in Hf; lia|lia|lia].
Qed.

Lemma readBytes_live n rounds : forall out, zlen out <= n -> n <= zlen out + zlen (data_of rounds) -> Forall live rounds ->
  exists st, readBytes n out true rounds = (true, st) /\ r_out st = take (Z.to_nat n) (out ++ data_of rounds).
Proof.
  induction rounds as [|r rs IH]; intros out Hn Hm Hl; cbn [readBytes].
  - change (data_of []) with (@nil Z) in *. rewrite zlen_nil in Hm. destruct (n <=? zlen out) eqn:E; to_prop; [|lia].
    eexists. split; [done|]. cbn [r_out]. rewrite app_nil_r, take_ge; [done|]. unfold zlen in *. lia.
  - change (data_of (r :: rs)) with (rd_data r ++ data_of rs) in *. rewrite zlen_app in Hm. destruct (n <=? zlen out) eqn:E; to_prop.
    { eexists. split; [done|]. cbn [r_out]. rewrite take_app_le by (unfold zlen in *; lia). rewrite take_ge; [done|unfold zlen in *; lia]. }
    apply Forall_cons in Hl as [Hr Hl]. rewrite (live_taken r Hr), (proj1 Hr). cbn [negb andb].
    set (w := Z.to_nat (n - zlen out)). assert (Hw : zlen (out ++ take w (rd_data r)) = Z.min n (zlen out + zlen (rd_data r))).
    { rewrite zlen_app. unfold zlen, w. rewrite length_take. unfold zlen in *. lia. }
    destruct (IH (out ++ take w (rd_data r))) as (st & Es & Eo); [lia|rewrite Hw; pose proof (zlen_nonneg (data_of rs)); lia|done|].
    exists st. split; [done|]. rewrite Eo. destruct (decide (length (rd_data r) <= w)%nat) as [Hw1|Hw1].
    + rewrite (take_ge (rd_data r)) by done. by rewrite <- app_assoc.
    + assert (Hfull : length (out ++ take w (rd_data r)) = Z.to_nat n).
      { rewrite length_app, length_take, Nat.min_l by lia. subst w. clear - Hn E Hw1. unfold zlen in *. lia. }
      assert (E2 : out ++ rd_data r ++ data_of rs = (out ++ take w (rd_data r)) ++ drop w (rd_data r) ++ data_of rs).
      { rewrite <- app_assoc. f_equal. by rewrite app_assoc, take_drop. }
      by rewrite E2, <- Hfull, !take_app_length.
Qed.

Lemma readChunks_live rounds : forall enc body buffer decoded all extra, chunked_within enc body ->
  buffer ++ data_of rounds = enc ++ extra -> zlen decoded + zlen body <= kMaxBodyBytes -> zlen all + zlen (data_of rounds) <= kMaxBodyBytes ->
  Forall live rounds -> exists raw c, readChunks buffer decoded all true rounds = (Some (decoded ++ body), raw, c).
Proof.
  induction rounds as [|r rs IH]; intros enc body buffer decoded all extra Hc Hb Hd Ha Hl; cbn [readChunks].
  - destruct (feed_prefix enc body Hc (S (length buffer)) buffer decoded [] extra) as [(b' & E & _)|(b' & b1 & b2 & e2 & _ & _ & _ & _ & Hne)]; [lia|done|done| |done].
    unfold feedChunked. rewrite E. by do 2 eexists.
  - change (data_of (r :: rs)) with (rd_data r ++ data_of rs) in *. rewrite zlen_app in Ha. pose proof (zlen_nonneg (data_of rs)).
    destruct (feed_prefix enc body Hc (S (length buffer)) buffer decoded (rd_data r ++ data_of rs) extra) as [(b' & E & _)|(b' & b1 & b2 & e2 & E & E1 & E2 & E3 & _)];
      [lia|done|done|unfold feedChunked; rewrite E; by do 2 eexists|].
    unfold feedChunked. rewrite E. apply Forall_cons in Hl as [Hr Hl]. rewrite (live_wait r Hr).
    destruct (_ <? zlen _) eqn:Ecap; to_prop; [rewrite zlen_app in Ecap; lia|]. rewrite (proj1 Hr).
    destruct (IH e2 b2 (b' ++ rd_data r) (decoded ++ b1) (all ++ rd_data r) extra) as (raw & c & Er); try done.
    + by rewrite <- app_assoc.
    + rewrite E1 in Hd. rewrite zlen_app in *. lia.
    + rewrite zlen_app. lia.
    + exists raw, c. by rewrite Er, E1, <- app_assoc.
Qed.

(** A body as it is put behind a head. *)
Definition sent_as (f : Framing) (total : Z) (payload body : bytes) : Prop :=
  match f with
  | NoBody => payload = [] /\ body = []
  | ByLength n => payload = body /\ zlen body = n
  | ByChunks => chunked_within payload body /\ zlen body <= kMaxBodyBytes /\ total <= kMaxBodyBytes
  | BadLength _ | ToClose => False
  end.

(** C13. A whole message gets through: whatever pieces a peer that stays connected delivers
    it in, within the read budget, behind up to eight 1xx responses, and whatever follows
    it, the call succeeds with exactly its status, fields and body. *)
Theorem receive_delivers request w skipped block payload body extra :
  Forall live (w_rounds w) ->
  data_of (w_rounds w) = flat_map head_bytes skipped ++ head_bytes block ++ payload ++ extra ->
  Forall interim_block skipped -> Forall head_fits skipped -> zlen skipped <= kMaxInterimResponses ->
  head_fits block -> ~ interim_block block ->
  let st := parseStatusLine (first_line_of block) in
  sl_ok st = true ->
  sent_as (framing request (sl_statusCode st) (parseHeaders block)) (zlen (data_of (w_rounds w))) payload body ->
  let r := receive request w in
  hs_ok r = true /\ rs_statusCode (hs_parsed r) = sl_statusCode st /\ rs_headers (hs_parsed r) = parseHeaders block /\ rs_body (hs_parsed r) = body.
Proof.
  intros Hl Hd Hi Hf Hn Hfb Hnb st Hst Hs. cbv zeta. unfold receive.
  assert (Hfirst : exists b more, head_fits b /\ data_of (w_rounds w) = head_bytes b ++ more).
  { rewrite Hd. destruct skipped as [|b bs]; [by exists block, (payload ++ extra)|]. apply Forall_cons in Hf as [? _]. cbn [flat_map].
    exists b, (flat_map head_bytes bs ++ head_bytes block ++ payload ++ extra). split; [done|]. by rewrite <- app_assoc. }
  destruct Hfirst as (b & more & Hfit & Hb).
  destruct (readHead_live b more (w_rounds w) [] true Hfit) as (rd & Er & Hc & Hh); [by split_and!|]. rewrite Er. rewrite <- Hb, Hd in Hh.
  destruct (skipInterim_live skipped 9 0 (r_out rd) (r_conn rd) (r_rounds rd) block (payload ++ extra)) as (rest & rounds & Es & Hrest & Hlive & _);
    try done; [unfold zlen, kMaxInterimResponses in Hn; lia|].
  rewrite Es. cbn [negb]. fold st. rewrite Hst. cbn [negb]. set (headers := parseHeaders block) in *.
  assert (Hlen : zlen (head_bytes block ++ rest) + zlen (data_of rounds) <= zlen (data_of (w_rounds w))).
  { rewrite Hd, <- Hrest. rewrite !zlen_app. pose proof (zlen_nonneg (flat_map head_bytes skipped)). lia. }
  assert (Hbody : exists raw, readBody (framing request (sl_statusCode st) headers) rest (head_bytes block ++ rest) true rounds (w_last w) = inl (body, raw)).
  { destruct (framing _ _ _) as [| |vs|n|] eqn:Ef; cbn [sent_as readBody] in *; try done.
    - destruct Hs as [_ ->]. by eexists.
    - destruct Hs as (Hw & Hmax & Htot). destruct (readChunks_live rounds payload body rest [] (head_bytes block ++ rest) extra) as (raw & c & E); try done.
      + lia.
      + rewrite E. by eexists.
    - destruct Hs as [-> Hn']. destruct (zlen rest <? n) eqn:E; to_prop.
      + assert (Hcap : n <= kMaxBodyBytes).
        { unfold framing in Ef. destruct (_ || _ || _); [done|]. destruct (isChunkedTransfer _); [done|]. destruct (ca_present _) eqn:Ep; [|done].
          destruct (ca_ok _) eqn:Eo; [|done]. injection Ef as <-. by destruct (cl_range headers Ep Eo) as [[_ ?] _]. }
        unfold readExactly. pose proof (zlen_nonneg rest). destruct (_ || _) eqn:E'; to_prop; [apply orb_true_iff in E' as [?|?]; to_prop; lia|].
        destruct (readBytes_live (n - zlen rest) rounds []) as (rs & Eb & Eo); [rewrite zlen_nil; lia| |done|].
        { rewrite zlen_nil. apply (f_equal zlen) in Hrest. rewrite !zlen_app in Hrest. pose proof (zlen_nonneg extra). lia. }
        rewrite Eb. eexists. f_equal. f_equal. rewrite Eo. cbn [app].
        apply (f_equal (take (Z.to_nat n))) in Hrest. replace (Z.to_nat n) with (length body) in Hrest at 2 by (unfold zlen in *; lia).
        rewrite take_app_length in Hrest. rewrite <- Hrest. rewrite take_app_ge by (unfold zlen in *; lia). f_equal. f_equal. unfold zlen in *. lia.
      + eexists. f_equal. f_equal. apply (f_equal (take (Z.to_nat n))) in Hrest. rewrite take_app_le in Hrest by (unfold zlen in *; lia).
        replace (Z.to_nat n) with (length body) in Hrest at 2 by (unfold zlen in *; lia). by rewrite take_app_length in Hrest. }
  destruct Hbody as [raw Eb]. rewrite Eb. by destruct (inspected headers body).
Qed.

(** ** What the scope sees *)

Definition no_space (s : bytes) : Prop := Forall (fun c => b_space c = false) s.

Lemma trim_cr line : ends_clean b_space line -> line <> [] -> b_trimmed (line ++ [13]) = line.
Proof.
  intros [H1 H2] Hne. unfold b_trimmed, trim_by. destruct line as [|x line]; [done|]. cbn [app]. rewrite drop_while_head by done.
  change (x :: line ++ [13]) with ((x :: line) ++ [13]). rewrite rev_app_distr. cbn [rev app]. cbn [drop_while]. change (b_space 13) with true. cbv iota.
  pose proof (trim_by_clean b_space (x :: line) (conj H1 H2)) as Ht. unfold trim_by in Ht. rewrite drop_while_head in Ht by done. exact Ht.
Qed.

Lemma no_space_chr c s : b_space c = true -> no_space s -> c ∉ s.
Proof. intros Hc Hs Hin. unfold no_space in Hs. rewrite Forall_forall in Hs. apply Hs in Hin. congruence. Qed.

(** The target of a request line of three words, whatever is in it, is what the scope is
    asked about. *)
Lemma wire_target_reads m t v rest : m <> [] -> v <> [] -> no_space m -> no_space v -> 10 ∉ t ->
  wire_target (m ++ [32] ++ t ++ [32] ++ v ++ CRLF ++ rest) = t.
Proof.
  intros Hm Hv Hms Hvs Ht. unfold wire_target. set (line := m ++ [32] ++ t ++ [32] ++ v).
  assert (Hl : before_chr 10 (m ++ [32] ++ t ++ [32] ++ v ++ CRLF ++ rest) = line ++ [13]).
  { unfold before_chr. assert (E : m ++ [32] ++ t ++ [32] ++ v ++ CRLF ++ rest = (line ++ [13]) ++ 10 :: rest) by (unfold line; rewrite <- !app_assoc; done).
    rewrite E, index_of_app; [by rewrite take_app_length|]. unfold line. rewrite !not_elem_of_app. split_and!.
    - by apply no_space_chr.
    - by intros ?%list_elem_of_singleton.
    - done.
    - by intros ?%list_elem_of_singleton.
    - by apply no_space_chr.
    - by intros ?%list_elem_of_singleton. }
  rewrite Hl. assert (Hc : ends_clean b_space line).
  { unfold line. split.
    - destruct m as [|x m]; [done|]. by apply Forall_cons in Hms as [? _].
    - rewrite !app_assoc. destruct (exists_last Hv) as (v' & y & ->). rewrite app_assoc, last_snoc. apply Forall_app in Hvs as [_ Hy].
      by apply Forall_cons in Hy as [? _]. }
  rewrite trim_cr; [|done|unfold line; by destruct m].
  assert (H1 : index_of 32 line = Some (length m)) by (unfold line; cbn [app]; apply index_of_app; by apply no_space_chr).
  assert (H2 : last_index_of 32 line = Some (length m + 1 + length t)%nat).
  { unfold last_index_of. assert (E : rev line = rev v ++ 32 :: rev (m ++ [32] ++ t)).
    { unfold line. rewrite !app_assoc, rev_app_distr. f_equal. rewrite rev_app_distr. done. }
    rewrite E, index_of_app.
    - cbn [fmap option_fmap option_map]. f_equal. unfold line. rewrite !length_app, length_rev. cbn [length]. assert (length v <> 0)%nat by (by destruct v). lia.
    - rewrite list_elem_of_In, <- in_rev, <- list_elem_of_In. by apply no_space_chr. }
  rewrite H1, H2. destruct (_ <? _)%nat eqn:E; [|apply Nat.ltb_ge in E; lia].
  unfold mid, line. rewrite <- drop_drop, drop_app_length. cbn [app drop].
  replace (length m + 1 + length t - length m - 1)%nat with (length t) by lia. apply take_app_length.
Qed.

(** The outbound scope decides on what a server will see: for a request line of three
    words the checker is asked about the connected host and port and the path of that very
    target, once as written and once percent-decoded with its dot segments removed, and
    both answers must be yes; the authority a request claims plays no part. *)
Theorem scope_decides_target f host port tls m target v rest :
  m <> [] -> v <> [] -> no_space m -> no_space v -> 10 ∉ target ->
  (allowsRequest (Some f) (Some f) host port tls (m ++ [32] ++ target ++ [32] ++ v ++ CRLF ++ rest) = true <->
   1 <= port <= 65535 /\ u_trimmed host <> [] /\
   let ask path := f (mkTarget host port (if tls then 2 else 1) path) = true in
   ask (target_path target) /\ match target_path target with Some path => ask (Some (normalized_path path)) | None => True end).
Proof.
  intros Hm Hv Hms Hvs Ht. unfold allowsRequest. rewrite wire_target_reads by done. apply allowsUrl_iff.
Qed.

End Client.

Definition sampleWireUrl : QtWireUrl := {|
  wu_strict s := match index_sub (lit "://") s with
                 | Some i => let rest := drop (i + 3) s in
                             let k := default (length rest) (index_of 47 rest) in Some (take i s, take k rest, before_chr 63 (drop k rest))
                 | None => None
                 end;
  wu_normal_path p := p |}.

Section Examples.
#[local] Existing Instances asciiText literalRegex literalReplace noJson noCapture sampleUrl noDates storedZlib sampleWireUrl.

Definition ex_head : bytes := lit "HTTP/1.1 200 OK" ++ CRLF ++ lit "Content-Length: 2".
Definition ex_early : bytes := lit "HTTP/1.1 100 Continue".
Definition ex_sent : bytes := lit "GET /a HTTP/1.1" ++ CRLFCRLF.
Definition ex_round (b : bytes) : Round := mkRound false 1 b true.
Definition ex_wire (rounds : list Round) : Wire := mkWire None true rounds [] OtherSocketError true [].
(* A head behind an interim one, the second cut in two. *)
Definition ex_rounds : list Round :=
  [ex_round (head_bytes ex_early ++ lit "HTTP/1.1 200 OK" ++ CRLF); ex_round (lit "Content-Length: 2" ++ CRLFCRLF); ex_round (lit "okX")].

Lemma receive_delivers_witness :
  let r := receive ex_sent (ex_wire ex_rounds) in
  hs_ok r = true /\ rs_statusCode (hs_parsed r) = 200 /\ rs_headers (hs_parsed r) = [(lit "Content-Length", lit "2")] /\ rs_body (hs_parsed r) = lit "ok".
Proof.
  assert (E1 : sl_statusCode (parseStatusLine (first_line_of ex_head)) = 200) by (vm_compute; reflexivity).
  assert (E2 : parseHeaders ex_head = [(lit "Content-Length", lit "2")]) by (vm_compute; reflexivity).
  rewrite <- E1, <- E2. apply (receive_delivers ex_sent (ex_wire ex_rounds) [ex_early] ex_head (lit "ok") (lit "ok") (lit "X")).
  - unfold ex_wire, ex_rounds, ex_round, live. cbn [w_rounds]. repeat (apply Forall_cons; split; [split; [reflexivity|cbn; split; reflexivity || (intros ?; discriminate)]|]). constructor.
  - vm_compute. reflexivity.
  - apply Forall_singleton. unfold interim_block. split; [vm_compute; reflexivity|]. split; vm_compute; [intros ?; discriminate|reflexivity].
  - apply Forall_singleton. split; vm_compute; [reflexivity|intros ?; discriminate].
  - vm_compute. intros ?; discriminate.
  - split; vm_compute; [reflexivity|intros ?; discriminate].
  - intros [_ [_ H]]. vm_compute in H. discriminate H.
  - vm_compute. reflexivity.
  - vm_compute. split; reflexivity.
Defined.

Lemma receive_sound_witness :
  let r := receive ex_sent (ex_wire ex_rounds) in
  hs_ok r = true /\ exists block framed, hs_raw r = head_bytes block ++ framed /\ ~ interim_block block.
Proof.
  cbv zeta. assert (H : hs_ok (receive ex_sent (ex_wire ex_rounds)) = true) by (vm_compute; reflexivity).
  split; [exact H|]. destruct (receive_sound ex_sent (ex_wire ex_rounds) H) as (skipped & used & unread & tail & lst & block & framed & _ & _ & _ & _ & _ & H1 & _ & H2 & _).
  exists block, framed. by split.
Defined.

Lemma send_failures_witness :
  let w := mkWire None true [ex_round (lit "HTTP/1.1 200 OK")] [] RemoteHostClosedError false [] in
  let r := send Engagement noSessions (None, None) (None, None) 0 w (lit "h") 443 true ex_sent in
  hs_outcome r = OReset /\ hs_error r = lit "no response headers received" /\
  failure Engagement noSessions (None, None) (None, None) 0 w (lit "h") 443 true ex_sent (hs_error r) (hs_outcome r) (hs_wire r) (hs_raw r).
Proof.
  cbv zeta. set (w := mkWire _ _ _ _ _ _ _).
  split; [vm_compute; reflexivity|]. split; [vm_compute; reflexivity|].
  exact (proj1 (send_failures Engagement noSessions (None, None) (None, None) 0 w (lit "h") 443 true ex_sent eq_refl)).
Defined.

Definition only_a (t : Target) : bool := bool_decide (tg_path t = Some (lit "/a")) && bool_decide (tg_host t = lit "h").

Lemma scope_decides_target_witness :
  allowsRequest (Some only_a) (Some only_a) (lit "h") 80 false (lit "GET" ++ [32] ++ lit "/%61" ++ [32] ++ lit "HTTP/1.1" ++ CRLF ++ lit "Host: other") = false /\
  allowsRequest (Some only_a) (Some only_a) (lit "h") 80 false (lit "GET" ++ [32] ++ lit "/a?q" ++ [32] ++ lit "HTTP/1.1" ++ CRLF ++ lit "Host: other") = true.
Proof.
  split; [vm_compute; reflexivity|].
  refine (proj2 (scope_decides_target only_a (lit "h") 80 false (lit "GET") (lit "/a?q") (lit "HTTP/1.1") (lit "Host: other") _ _ _ _ _) _).
  - discriminate.
  - discriminate.
  - unfold no_space. repeat (apply Forall_cons; split; [reflexivity|]). constructor.
  - unfold no_space. repeat (apply Forall_cons; split; [reflexivity|]). constructor.
  - refine (bool_decide_eq_false_1 _ _). vm_compute. reflexivity.
  - split; [split; intros ?; discriminate|]. split; [intros H; vm_compute in H; discriminate H|].
    split; vm_compute; reflexivity.
Defined.

(** A checker refuses a port that is none before it is asked. *)
Example closed_port_refused : hs_error (send Engagement noSessions (Some only_a, Some only_a) (None, None) 0 (ex_wire ex_rounds) (lit "h") 0 true ex_sent) = blockedError.
Proof. vm_compute. reflexivity. Qed.

(** An answer read to the close that a timeout cuts short is reported as a success, as is
    one cut at the body cap. *)
Example truncated_read_succeeds :
  let r := receive ex_sent (ex_wire [ex_round (head_bytes (lit "HTTP/1.1 200 OK") ++ lit "par")]) in
  hs_ok r = true /\ hs_outcome r = OOk /\ rs_body (hs_parsed r) = lit "par".
Proof. vm_compute. split_and!; reflexivity. Qed.

(** 101 is a final response, but it is skipped as an interim one and the call fails. *)
Example upgrade_answer_lost :
  let r := receive ex_sent (ex_wire [ex_round (head_bytes (lit "HTTP/1.1 101 Switching Protocols"))]) in
  hs_ok r = false /\ hs_error r = lit "no final response after 1xx".
Proof. vm_compute. split_and!; reflexivity. Qed.
End Examples.
