(* ===== verification/Transcode.v ===== *)
(** * The decoder workbench: Src/Core/Networking/transcode.cpp

    [apply] runs one named transformation, [smartDecode] detects and undoes layers of
    encoding, [identifyHash] guesses the algorithm of a digest.  Base64, the digests,
    percent decoding of byte arrays, unsigned number parsing and indented JSON text
    are Qt's ([QtCodecs], with their documented laws in [QtCodecsLaws]); everything
    else is written out.  The fixed regular expressions are predicates. *)

From Stdlib Require Import SpecFloat.
From S2P Require Import Prelude Qt QtSample QMap Json JsonSample ChainRunner SessionRules Utf8.

Local Open Scope Z_scope.

Inductive Algorithm := Md4 | Md5 | Sha1 | Sha224 | Sha256 | Sha384 | Sha512 | Sha3_256.

Class QtCodecs := {
  b64_encode : bool -> bytes -> bytes;              (* toBase64; true: base64url, no padding *)
  b64_decode : bool -> bytes -> option bytes;       (* fromBase64Encoding, aborting on errors *)
  b_pct_decode : bytes -> bytes;                    (* QByteArray::fromPercentEncoding *)
  b_hash : Algorithm -> bytes -> bytes;             (* QCryptographicHash::hash *)
  u_toulonglong : Z -> list Z -> option Z;          (* toULongLong(&ok, base) *)
  json_indented : json -> bytes                     (* QJsonDocument::toJson(Indented) *)
}.

(** The octets of a digest. *)
Definition digest_len (a : Algorithm) : Z :=
  match a with Md4 | Md5 => 16 | Sha1 => 20 | Sha224 => 28 | Sha256 | Sha3_256 => 32 | Sha384 => 48 | Sha512 => 64 end.

Definition U64_MAX : Z := 18446744073709551615.

(** Percent-encoded octets: escaped (true) or as they are. *)
Definition pct_text (l : list (bool * Z)) : bytes :=
  flat_map (fun e : bool * Z => if fst e then [37; hex_upper (snd e / 16); hex_upper (snd e mod 16)] else [snd e]) l.

Class QtCodecsLaws (C : QtCodecs) : Prop := {
  law_b64 url b : wf_bytes b -> b64_decode url (b64_encode url b) = Some b;
  law_b64_chars url b c : wf_bytes b -> c ∈ b64_encode url b -> is_ascii c = true /\ b_space c = false;
  law_pct_decode (l : list (bool * Z)) :
    Forall (fun e => is_byte (snd e) /\ (snd e = 37 -> fst e = true)) l -> b_pct_decode (pct_text l) = map snd l;
  law_digest a b : zlen (b_hash a b) = digest_len a /\ wf_bytes (b_hash a b);
  law_toulonglong_digits base s :
    2 <= base <= 16 -> s <> [] -> forallb (fun c => digit_val c <? base) s = true ->
    u_toulonglong base s = if digits_val base s <=? U64_MAX then Some (digits_val base s) else None;
  law_toulonglong_range base s v : u_toulonglong base s = Some v -> 0 <= v
}.

(** [QByteArray::fromBase64], which skips what it cannot read, and
    [toVariant().toLongLong()]. *)
Class QtLenient := { b64_lenient : bytes -> bytes; variant_longlong : json -> Z }.
Class QtLenientLaws (C : QtCodecs) (L : QtLenient) : Prop := {
  law_lenient b : wf_bytes b -> b64_lenient (b64_encode false b) = b;
  law_variant_int n : variant_longlong (JInt n) = n
}.

(** Indented text reads back like compact text. *)
Class QtIndentedLaws (J : QtJson) (C : QtCodecs) : Prop := {
  law_indented v : json_plain 512 v = true -> match v with JArray _ | JObject _ => True | _ => False end ->
    json_parse (json_indented v) = Some v
}.

(** ** Qt functions *)

(** [toUInt(&ok, base)] and [toUShort(&ok, base)]. *)
Definition u_touint {C : QtCodecs} (base : Z) (s : list Z) : option Z :=
  match u_toulonglong base s with Some v => if v <=? 4294967295 then Some v else None | None => None end.
Definition u_toushort {C : QtCodecs} (base : Z) (s : list Z) : option Z :=
  match u_toulonglong base s with Some v => if v <=? 65535 then Some v else None | None => None end.

(** [s.remove(c)]. *)
Definition remove_chr (c : Z) (s : list Z) : list Z := List.filter (fun x => negb (x =? c)) s.

(** [QByteArray::fromHex] of a text of hexadecimal digits of even length. *)
Fixpoint from_hex (s : list Z) : bytes :=
  match s with
  | h :: l :: s' => (16 * digit_val h + digit_val l) :: from_hex s'
  | _ => []
  end.

(** [QString::simplified]: runs of white space become one space, none at the ends. *)
Fixpoint squeeze {Q : QtText} (gap : bool) (s : qstr) : qstr :=
  match s with
  | [] => []
  | c :: s' => if u_space c then squeeze true s' else if gap then 32 :: c :: squeeze false s' else c :: squeeze false s'
  end.
Definition simplified {Q : QtText} (s : qstr) : qstr := squeeze false (u_trimmed s).

(** [arg(v, 4, 16, QChar('0'))] of a unit: four digits. *)
Definition hex4 (u : Z) : qstr :=
  [digit_chr (u / 4096 mod 16); digit_chr (u / 256 mod 16); digit_chr (u / 16 mod 16); digit_chr (u mod 16)].

(** [QString::fromUcs4] of one code point above U+FFFF. *)
Definition from_ucs4 (cp : Z) : qstr := [55296 + (cp - 65536) / 1024; 56320 + (cp - 65536) mod 1024].

(** ** Results *)

Record Result := mkResult { r_output : qstr; r_ok : bool; r_error : qstr; r_outputBytes : bytes }.

Definition ok (out : qstr) : Result := mkResult out true [] [].
Definition err (e : qstr) : Result := mkResult [] false e [].

Section Transcode.
Context {Q : QtText} {C : QtCodecs} {J : QtJson}.

Definition okBytes (raw : bytes) : Result := mkResult (u_fromutf8 raw) true [] raw.

(** ** The operations *)

Definition base64Encode (input : qstr) (url : bool) : Result := ok (b64_encode url (u_toutf8 input)).
Definition base64Decode (input : qstr) (url : bool) : Result :=
  match b64_decode url (u_tolatin1 (u_trimmed input)) with
  | None => err (lit "not valid base64")
  | Some decoded => okBytes decoded
  end.

Definition urlEncode (input : qstr) : Result := ok (percent_encode (u_toutf8 input)).
Definition urlDecode (input : qstr) : Result := ok (u_fromutf8 (b_pct_decode (u_toutf8 input))).

Definition html_char (c : Z) : qstr :=
  if c =? 38 then lit "&amp;"
  else if c =? 60 then lit "&lt;"
  else if c =? 62 then lit "&gt;"
  else if c =? 34 then lit "&quot;"
  else if c =? 39 then lit "&#39;"
  else [c].
Definition htmlEncode (input : qstr) : qstr := flat_map html_char input.

(** A named entity, [None] when there is none of that name. *)
Definition named_entity (body : qstr) : option qstr :=
  if seq_eqb body (lit "lt") then Some [60]
  else if seq_eqb body (lit "gt") then Some [62]
  else if seq_eqb body (lit "quot") then Some [34]
  else if seq_eqb body (lit "apos") then Some [39]
  else if seq_eqb body (lit "amp") then Some [38]
  else None.

(** The number of a numeric entity, [None] when it does not parse. *)
Definition numeric_entity (body : qstr) : option Z :=
  if (1 <? zlen body) && ((at_ body 1 =? 120) || (at_ body 1 =? 88))
  then u_touint 16 (drop 2 body) else u_touint 10 (drop 1 body).

Definition entity (body : qstr) : option qstr :=
  if starts_with_chr 35 body then
    match numeric_entity body with
    | Some cp =>
        if cp <=? 1114111 then Some (if cp <=? 65535 then [cp] else from_ucs4 cp) else None
    | None => None
    end
  else named_entity body.

(** The entity that starts at the ampersand: its text and where the scan resumes.  [s]
    is what follows the ampersand; [semi - i] of the source is the index here plus one. *)
Definition entity_here (s : qstr) : option (qstr * qstr) :=
  match index_of 59 s with
  | Some k =>
      if (0 <? k)%nat && (Z.of_nat k + 1 <=? 32) then
        match entity (take k s) with
        | Some rep => Some (rep, drop (S k) s)
        | None => None
        end
      else None
  | None => None
  end.

(** One pass; each round consumes a unit at least, so [length] rounds are enough. *)
Fixpoint html_loop (fuel : nat) (s : qstr) : qstr :=
  match fuel with
  | O => []
  | S fuel' =>
      match s with
      | [] => []
      | c :: s' =>
          if negb (c =? 38) then c :: html_loop fuel' s'
          else match entity_here s' with
               | Some (rep, rest) => rep ++ html_loop fuel' rest
               | None => c :: html_loop fuel' s'
               end
      end
  end.
Definition htmlDecode (input : qstr) : Result := ok (html_loop (length input) input).

Definition hexEncode (input : qstr) : Result := ok (to_hex (u_toutf8 input)).

(** The four blanks the byte decoders ignore. *)
Definition strip_blanks (s : qstr) : qstr := remove_chr 13 (remove_chr 9 (remove_chr 10 (remove_chr 32 s))).
Definition hexDecode (input : qstr) : Result :=
  let s := strip_blanks (u_trimmed input) in
  if is_nil s then err (lit "empty")
  else if negb (zlen s mod 2 =? 0) then err (lit "hex length must be even")
  else if negb (forallb is_hexdigit s) then err (lit "contains non-hex characters")
  else okBytes (from_hex (u_tolatin1 s)).

Definition unicode_char (u : Z) : qstr := if (32 <=? u) && (u <? 127) then [u] else 92 :: 117 :: hex4 u.
Definition unicodeEscape (input : qstr) : Result := ok (flat_map unicode_char input).

(** The bounds tests of the source together say that six units are left. *)
Definition unicode_here (s : qstr) : option Z :=
  if starts_with (lit "\u") s && (6 <=? zlen s) then u_toushort 16 (mid s 2 4) else None.
Fixpoint unicode_loop (fuel : nat) (s : qstr) : qstr :=
  match fuel with
  | O => []
  | S fuel' =>
      match s with
      | [] => []
      | c :: s' =>
          match unicode_here s with
          | Some cp => cp :: unicode_loop fuel' (drop 6 s)
          | None => c :: unicode_loop fuel' s'
          end
      end
  end.
Definition unicodeUnescape (input : qstr) : Result := ok (unicode_loop (length input) input).

Definition rot13_char (c : Z) : Z :=
  if (97 <=? c) && (c <=? 122) then 97 + (c - 97 + 13) mod 26
  else if (65 <=? c) && (c <=? 90) then 65 + (c - 65 + 13) mod 26
  else c.
Definition rot13 (input : qstr) : Result := ok (map rot13_char input).

(** The decoded part and [*good]. *)
Definition b64urlDecodeStr (p : qstr) : option qstr := u_fromutf8 <$> b64_decode true (u_tolatin1 p).

Definition pretty (text : qstr) : qstr :=
  match json_parse (u_toutf8 text) with Some d => u_fromutf8 (json_indented d) | None => text end.
Definition jwtAlg (hdr : qstr) : qstr :=
  match json_parse (u_toutf8 hdr) with Some d => toString (value (toObject d) (lit "alg")) | None => [] end.
Definition newline : qstr := [10].
Definition jwtDecode (input : qstr) : Result :=
  match split_on 46 (u_trimmed input) with
  | p0 :: p1 :: _ =>
      match b64urlDecodeStr p0, b64urlDecodeStr p1 with
      | Some hdr, Some pl =>
          let out := lit "=== HEADER ===" ++ newline ++ pretty hdr
                  ++ newline ++ lit "=== PAYLOAD ===" ++ newline ++ pretty pl in
          let alg := jwtAlg hdr in
          let out :=
            if u_cieq alg (lit "none")
            then out ++ newline ++ newline ++ lit "[!] alg=none -- signature not verified; forgeable."
            else if starts_with (lit "HS") alg
            then out ++ newline ++ newline ++ lit "[i] HMAC (" ++ alg ++ lit ") -- brute-forceable if the secret is weak."
            else out in
          ok (out ++ newline ++ newline ++ lit "[i] Signature is NOT verified here (no key).")
      | _, _ => err (lit "JWT header/payload is not valid base64url")
      end
  | _ => err (lit "not a JWT (need header.payload[.signature])")
  end.

Definition hashOp (input : qstr) (alg : Algorithm) : Result := ok (to_hex (b_hash alg (u_toutf8 input))).

Definition octal_byte (c : Z) : qstr := [48 + c / 64; 48 + c / 8 mod 8; 48 + c mod 8].
Definition octalEncode (input : qstr) : Result := ok (join [32] (map octal_byte (u_toutf8 input))).
Fixpoint octal_loop (parts : list qstr) (out : bytes) : qstr + bytes :=
  match parts with
  | [] => inr out
  | p :: parts' =>
      match u_touint 8 p with
      | Some v => if 255 <? v then inl p else octal_loop parts' (out ++ [v])
      | None => inl p
      end
  end.
Definition octalDecode (input : qstr) : Result :=
  let parts := split_skip 32 (simplified input) in
  if is_nil parts then err (lit "empty")
  else match octal_loop parts [] with
       | inl p => err (lit "invalid octal byte: " ++ p)
       | inr out => okBytes out
       end.

Definition binary_byte (c : Z) : qstr :=
  map (fun i => if Z.land (Z.shiftr c i) 1 =? 1 then 49 else 48) [7; 6; 5; 4; 3; 2; 1; 0].
Definition binaryEncode (input : qstr) : Result := ok (join [32] (map binary_byte (u_toutf8 input))).
Definition bits_value (bits : list Z) : Z :=
  fold_left (fun v b => Z.lor (Z.shiftl v 1) (if b =? 49 then 1 else 0)) bits 0.
Fixpoint binary_loop (fuel : nat) (s : qstr) : bytes :=
  match fuel with
  | O => []
  | S fuel' => if is_nil s then [] else u8 (bits_value (take 8 s)) :: binary_loop fuel' (drop 8 s)
  end.
Definition binaryDecode (input : qstr) : Result :=
  let s := strip_blanks input in
  if is_nil s then err (lit "empty")
  else if negb (zlen s mod 8 =? 0) then err (lit "binary length must be a multiple of 8")
  else if negb (forallb (fun c => (c =? 48) || (c =? 49)) s) then err (lit "invalid binary digit")
  else okBytes (binary_loop (length s) s).

(** ** The detectors *)

Definition looksLikeJwt (s : qstr) : bool :=
  match split_on 46 (u_trimmed s) with
  | [p0; _; _] =>
      match b64urlDecodeStr p0 with
      | Some hdr => match json_parse (u_toutf8 hdr) with Some (JObject o) => contains o (lit "alg") | _ => false end
      | None => false
      end
  | _ => false
  end.

(** [%[0-9a-fA-F]{2}] somewhere. *)
Fixpoint looksLikeUrlEncoded (s : qstr) : bool :=
  match s with
  | c :: s' =>
      ((c =? 37) && match s' with h :: l :: _ => is_hexdigit h && is_hexdigit l | _ => false end)
      || looksLikeUrlEncoded s'
  | [] => false
  end.

Definition looksLikeHtml (s : qstr) : bool :=
  contains_sub (lit "&lt;") s || contains_sub (lit "&gt;") s || contains_sub (lit "&amp;") s || contains_sub (lit "&#") s.

Definition b64_char (c : Z) : bool :=
  ((65 <=? c) && (c <=? 90)) || ((97 <=? c) && (c <=? 122)) || is_digit c || (c =? 43) || (c =? 47).
(** [^[A-Za-z0-9+/]+={0,2}$] on a text without a line break at its end. *)
Definition b64_shape (t : qstr) : bool :=
  let body := drop_while b64_char t in
  negb (length body =? length t)%nat && (seq_eqb body [] || seq_eqb body [61] || seq_eqb body [61; 61]).
Definition printable (c : Z) : bool := ((32 <=? c) && (c <? 127)) || (c =? 10) || (c =? 9) || (c =? 13).
Definition looksLikeBase64 (s : qstr) : bool :=
  let t := u_trimmed s in
  if (zlen t <? 8) || negb (zlen t mod 4 =? 0) then false
  else if negb (b64_shape t) then false
  else match b64_decode false (u_tolatin1 t) with
       | None => false
       | Some d => if is_nil d then false else zlen d * 8 <=? zlen (List.filter printable d) * 10
       end.

Definition looksLikeHex (s : qstr) : bool :=
  let t := remove_chr 32 (u_trimmed s) in
  if (zlen t <? 4) || negb (zlen t mod 2 =? 0) then false else forallb is_hexdigit t.

(** ** The interface *)

Definition operations : list qstr :=
  map lit ["base64-encode"; "base64-decode"; "base64url-encode"; "base64url-decode"; "url-encode"; "url-decode";
    "html-encode"; "html-decode"; "hex-encode"; "hex-decode"; "unicode-escape"; "unicode-unescape"; "rot13";
    "jwt-decode"; "octal-encode"; "octal-decode"; "binary-encode"; "binary-decode"; "md4"; "md5"; "sha1";
    "sha224"; "sha256"; "sha384"; "sha512"; "sha3-256"]%string.

Definition apply (op input : qstr) : Result :=
  let o := u_lower (u_trimmed op) in
  if seq_eqb o (lit "base64-encode") then base64Encode input false
  else if seq_eqb o (lit "base64-decode") then base64Decode input false
  else if seq_eqb o (lit "base64url-encode") then base64Encode input true
  else if seq_eqb o (lit "base64url-decode") then base64Decode input true
  else if seq_eqb o (lit "url-encode") then urlEncode input
  else if seq_eqb o (lit "url-decode") then urlDecode input
  else if seq_eqb o (lit "html-encode") then ok (htmlEncode input)
  else if seq_eqb o (lit "html-decode") then htmlDecode input
  else if seq_eqb o (lit "hex-encode") then hexEncode input
  else if seq_eqb o (lit "hex-decode") then hexDecode input
  else if seq_eqb o (lit "unicode-escape") then unicodeEscape input
  else if seq_eqb o (lit "unicode-unescape") then unicodeUnescape input
  else if seq_eqb o (lit "rot13") then rot13 input
  else if seq_eqb o (lit "jwt-decode") then jwtDecode input
  else if seq_eqb o (lit "octal-encode") then octalEncode input
  else if seq_eqb o (lit "octal-decode") then octalDecode input
  else if seq_eqb o (lit "binary-encode") then binaryEncode input
  else if seq_eqb o (lit "binary-decode") then binaryDecode input
  else if seq_eqb o (lit "md4") then hashOp input Md4
  else if seq_eqb o (lit "md5") then hashOp input Md5
  else if seq_eqb o (lit "sha1") then hashOp input Sha1
  else if seq_eqb o (lit "sha224") then hashOp input Sha224
  else if seq_eqb o (lit "sha256") then hashOp input Sha256
  else if seq_eqb o (lit "sha384") then hashOp input Sha384
  else if seq_eqb o (lit "sha512") then hashOp input Sha512
  else if seq_eqb o (lit "sha3-256") then hashOp input Sha3_256
  else err (lit "unknown operation: " ++ op).

(** The operation of the first detector that fires. *)
Definition detect (cur : qstr) : option qstr :=
  if looksLikeJwt cur then Some (lit "jwt-decode")
  else if looksLikeUrlEncoded cur then Some (lit "url-decode")
  else if looksLikeHtml cur then Some (lit "html-decode")
  else if looksLikeBase64 cur then Some (lit "base64-decode")
  else if looksLikeHex cur then Some (lit "hex-decode")
  else None.

Fixpoint smart_loop (iter : nat) (cur : qstr) (steps : list qstr) : qstr * list qstr :=
  match iter with
  | O => (cur, steps)
  | S iter' =>
      match detect cur with
      | None => (cur, steps)
      | Some op =>
          let r := apply op cur in
          if negb (r_ok r) || seq_eqb (r_output r) cur then (cur, steps)
          else
            let steps := steps ++ [op] in
            if seq_eqb op (lit "jwt-decode") then (r_output r, steps)
            else smart_loop iter' (r_output r) steps
      end
  end.

(** The result and what is left in [*chain]. *)
Definition smartDecode (input : qstr) : Result * list qstr :=
  let '(cur, steps) := smart_loop 12 input [] in
  (if is_nil steps then mkResult input false (lit "no encoding detected") [] else mkResult cur true [] [], steps).

Definition identifyHash (input : qstr) : list qstr :=
  let s := u_trimmed input in
  if starts_with (lit "$2a$") s || starts_with (lit "$2b$") s || starts_with (lit "$2y$") s then [lit "bcrypt"]
  else if starts_with (lit "$1$") s then [lit "md5crypt"]
  else if starts_with (lit "$5$") s then [lit "sha256crypt"]
  else if starts_with (lit "$6$") s then [lit "sha512crypt"]
  else if starts_with (lit "$argon2") s then [lit "argon2"]
  else if is_nil s || negb (forallb is_hexdigit s) then []
  else
    let n := zlen s in
    if n =? 32 then [lit "MD5"; lit "NTLM"; lit "MD4"]
    else if n =? 40 then [lit "SHA-1"; lit "RIPEMD-160"]
    else if n =? 56 then [lit "SHA-224"]
    else if n =? 64 then [lit "SHA-256"; lit "SHA3-256"; lit "BLAKE2s"]
    else if n =? 96 then [lit "SHA-384"]
    else if n =? 128 then [lit "SHA-512"; lit "SHA3-512"; lit "BLAKE2b"]
    else [].
End Transcode.

(** ** Byte codecs *)

(** A property of every octet, checked on each of them. *)
Lemma all_octets (f : Z -> bool) b :
  forallb f (map Z.of_nat (seq 0 256)) = true -> is_byte b -> f b = true.
Proof.
  intros H Hb. rewrite forallb_forall in H. apply H, in_map_iff. exists (Z.to_nat b). unfold is_byte in Hb.
  split; [lia|]. apply in_seq. lia.
Qed.

(** A text whose characters are all of one kind. *)
Definition made_of (f : Z -> bool) (s : list Z) : Prop := Forall (fun c => f c = true) s.

Lemma made_of_mono (f g : Z -> bool) s : (forall c, f c = true -> g c = true) -> made_of f s -> made_of g s.
Proof. intros H Hs. eapply Forall_impl; [done|]. intros c. apply H. Qed.

Lemma made_of_flat f (enc : Z -> list Z) b :
  wf_bytes b -> forallb (fun c => forallb f (enc c)) (map Z.of_nat (seq 0 256)) = true -> made_of f (flat_map enc b).
Proof.
  intros Hb H. induction Hb as [|c b Hc _ IH]; cbn [flat_map]; [by constructor|]. apply Forall_app. split; [|done].
  pose proof (all_octets _ c H Hc) as E. cbn beta in E. rewrite forallb_forall in E.
  apply List.Forall_forall. intros x Hx. by apply E.
Qed.

(** ASCII without white space: what the encoders write. *)
Definition graphic (c : Z) : bool := (33 <=? c) && (c <? 127).

Lemma graphic_spec c : graphic c = true -> is_ascii c = true /\ b_space c = false /\ is_byte c.
Proof.
  unfold graphic, is_ascii, b_space, is_byte. intros H. split_bools. to_prop. split; [by zdecides|]. split; [by zdecides|lia].
Qed.

Lemma graphic_ascii s : made_of graphic s -> all_ascii s = true.
Proof.
  intros H. apply forallb_forall. intros c Hc. unfold made_of in H. rewrite Forall_forall in H.
  apply graphic_spec, H. by apply list_elem_of_In.
Qed.

Lemma graphic_trimmed `{QtTextLaws} s : made_of graphic s -> u_trimmed s = s.
Proof.
  intros Hs. rewrite u_trimmed_ascii by (by apply graphic_ascii). apply trim_by_id.
  eapply Forall_impl; [exact Hs|]. intros c Hc. by apply graphic_spec.
Qed.

Lemma graphic_latin1 `{QtTextLaws} s : made_of graphic s -> u_tolatin1 s = s.
Proof. intros Hs. apply law_tolatin1. eapply Forall_impl; [exact Hs|]. intros c Hc. by apply graphic_spec. Qed.

Lemma remove_chr_id c s : Forall (fun x => x <> c) s -> remove_chr c s = s.
Proof.
  intros H. apply filter_keep_all. intros x Hx. rewrite Forall_forall in H. apply H in Hx. by zdecide.
Qed.

Lemma graphic_remove c s : graphic c = false -> made_of graphic s -> remove_chr c s = s.
Proof. intros Hc Hs. apply remove_chr_id. eapply Forall_impl; [exact Hs|]. intros x Hx ->. congruence. Qed.

Lemma graphic_strip s : made_of graphic s -> strip_blanks s = s.
Proof. intros Hs. unfold strip_blanks.
  by rewrite (graphic_remove 32 s), (graphic_remove 10 s), (graphic_remove 9 s), (graphic_remove 13 s). Qed.

(** Hexadecimal. *)
Lemma from_hex_to_hex b : wf_bytes b -> from_hex (to_hex b) = b.
Proof.
  induction 1 as [|c b Hc _ IH]; [done|]. unfold to_hex. cbn [flat_map]. fold (to_hex b). unfold hex_byte.
  cbn [app from_hex]. rewrite IH. unfold is_byte in Hc. f_equal. rewrite !digit_val_chr.
  - pose proof (Z.div_mod c 16 ltac:(lia)). lia.
  - apply Z.mod_pos_bound. lia.
  - split; [apply Z.div_pos; lia|apply Z.div_lt_upper_bound; lia].
Qed.

Lemma to_hex_digits b : wf_bytes b -> made_of is_hexdigit (to_hex b).
Proof. intros Hb. apply made_of_flat; [done|]. by vm_compute. Qed.

Lemma hexdigit_graphic c : is_hexdigit c = true -> graphic c = true.
Proof. unfold is_hexdigit, is_digit, graphic. intros H. repeat (apply orb_true_iff in H as [H|H]); split_bools; to_prop; by zdecides. Qed.

Lemma to_hex_length b : zlen (to_hex b) = 2 * zlen b.
Proof. induction b as [|c b IH]; [done|]. unfold to_hex in *. cbn [flat_map]. rewrite zlen_app, IH, zlen_cons. unfold hex_byte. change (zlen [_; _]) with 2. lia. Qed.

Lemma is_nil_app_false {A} (l k : list A) : l <> [] -> is_nil (l ++ k) = false.
Proof. by destruct l. Qed.

Lemma hexdigits_decode `{QtTextLaws} s :
  made_of is_hexdigit s -> s <> [] -> zlen s mod 2 = 0 -> hexDecode s = okBytes (from_hex s).
Proof.
  intros Hs Hn Hl. assert (Hg : made_of graphic s) by (eapply made_of_mono, Hs; apply hexdigit_graphic).
  unfold hexDecode. rewrite graphic_trimmed, graphic_strip, graphic_latin1 by done. rewrite Hl.
  destruct s as [|c s]; [done|]. cbn [is_nil negb]. change (0 =? 0) with true. cbn [negb].
  rewrite (proj2 (forallb_forall _ _)); [done|]. intros x Hx. unfold made_of in Hs. rewrite Forall_forall in Hs.
  apply Hs. by apply list_elem_of_In.
Qed.

(** Words of graphic characters with one space between. *)
Definition word_ok (w : qstr) : Prop := w <> [] /\ made_of graphic w.

Section Words.
Context `{QtTextLaws}.

Lemma graphic_not_space c : graphic c = true -> u_space c = false.
Proof. intros Hc. destruct (graphic_spec c Hc) as (Ha & Hs & _). by rewrite law_space_ascii. Qed.

Lemma squeeze_word w rest : made_of graphic w -> squeeze false (w ++ rest) = w ++ squeeze false rest.
Proof.
  induction 1 as [|c w Hc _ IH]; [done|]. cbn [app squeeze]. by rewrite graphic_not_space, IH.
Qed.

Lemma squeeze_words ws : Forall word_ok ws -> squeeze false (join [32] ws) = join [32] ws.
Proof.
  induction 1 as [|w ws [Hn Hw] Hws IH]; [done|]. destruct ws as [|w' ws].
  - cbn [join]. rewrite <- (app_nil_r w) at 1. rewrite squeeze_word by done. by rewrite app_nil_r.
  - change (join [32] (w :: w' :: ws)) with (w ++ 32 :: join [32] (w' :: ws)). rewrite squeeze_word by done.
    f_equal. cbn [squeeze]. rewrite law_space_ascii by done. change (b_space 32) with true. cbn match.
    apply Forall_cons in Hws as [[Hn' Hw'] Hws]. destruct w' as [|c w']; [done|].
    replace (join [32] ((c :: w') :: ws)) with (c :: (w' ++ match ws with [] => [] | _ => 32 :: join [32] ws end)) in *
      by (destruct ws; [by rewrite app_nil_r|done]).
    apply Forall_cons in Hw' as [Hc _]. cbn [squeeze] in *. rewrite graphic_not_space in * by done. by rewrite IH.
Qed.

Lemma word_last ws : Forall word_ok ws -> ws <> [] -> exists c, last (join [32] ws) = Some c /\ graphic c = true.
Proof.
  induction 1 as [|w ws [Hn Hw] Hws IH]; [done|]. intros _. destruct ws as [|w' ws].
  - cbn [join]. destruct (last w) as [c|] eqn:E; [|by apply last_None in E].
    exists c. split; [done|]. unfold made_of in Hw. rewrite Forall_forall in Hw. apply Hw. by apply last_Some_elem_of.
  - change (join [32] (w :: w' :: ws)) with (w ++ 32 :: join [32] (w' :: ws)).
    destruct IH as (c & Hc & Hg); [done|]. exists c. split; [|done]. by rewrite last_app, last_cons, Hc.
Qed.

Lemma simplified_words ws : Forall word_ok ws -> simplified (join [32] ws) = join [32] ws.
Proof.
  intros Hws. unfold simplified. replace (u_trimmed (join [32] ws)) with (join [32] ws); [by apply squeeze_words|].
  symmetry. destruct ws as [|w ws]; [done|]. apply trim_by_clean. split.
  - apply Forall_cons in Hws as [[Hn Hw] _]. destruct w as [|c w]; [done|]. apply Forall_cons in Hw as [Hc _].
    destruct ws; cbn [join app]; by apply graphic_not_space.
  - destruct (word_last _ Hws ltac:(done)) as (c & -> & Hc). by apply graphic_not_space.
Qed.

Lemma split_words ws : Forall word_ok ws -> split_skip 32 (join [32] ws) = ws.
Proof.
  intros Hws. unfold split_skip. destruct ws as [|w ws]; [done|]. rewrite split_join; [|done|].
  - apply filter_keep_all. intros x Hx. rewrite Forall_forall in Hws. destruct (Hws x Hx) as [Hn _]. by destruct x.
  - eapply Forall_impl; [exact Hws|]. intros x [_ Hx] Hin. unfold made_of in Hx. rewrite Forall_forall in Hx.
    by specialize (Hx 32 Hin).
Qed.

Lemma strip_words ws : Forall word_ok ws -> strip_blanks (join [32] ws) = concat ws.
Proof.
  intros Hws. unfold strip_blanks.
  assert (E : remove_chr 32 (join [32] ws) = concat ws).
  { induction Hws as [|w ws [_ Hw] Hws IH]; [done|]. cbn [concat]. rewrite <- IH.
    destruct ws as [|w' ws]; [cbn [join]; rewrite graphic_remove by done; by rewrite app_nil_r|].
    change (join [32] (w :: w' :: ws)) with (w ++ 32 :: join [32] (w' :: ws)).
    unfold remove_chr at 1. rewrite List.filter_app. fold (remove_chr 32 w). rewrite graphic_remove by (try assumption; reflexivity). done. }
  rewrite E. assert (Hg : made_of graphic (concat ws)).
  { clear E. induction Hws as [|w ws [_ Hw] Hws IH]; [by constructor|]. cbn [concat]. by apply Forall_app. }
  by rewrite (graphic_remove 10 (concat ws)), (graphic_remove 9 (concat ws)), (graphic_remove 13 (concat ws)).
Qed.
End Words.

(** ** Numbers in the byte decoders *)

Lemma touint_digits `{QtCodecsLaws} base s :
  2 <= base <= 16 -> s <> [] -> forallb (fun c => digit_val c <? base) s = true ->
  digits_val base s <= 65535 -> u_touint base s = Some (digits_val base s) /\ u_toushort base s = Some (digits_val base s).
Proof.
  intros Hb Hs Hd Hv. unfold u_touint, u_toushort. rewrite law_toulonglong_digits by done. unfold U64_MAX.
  by zdecides.
Qed.

Definition octal_ok (c : Z) : bool :=
  forallb graphic (octal_byte c) && forallb (fun d => digit_val d <? 8) (octal_byte c) && (digits_val 8 (octal_byte c) =? c).
Definition binary_ok (c : Z) : bool :=
  forallb graphic (binary_byte c) && forallb (fun d => (d =? 48) || (d =? 49)) (binary_byte c) && (bits_value (binary_byte c) =? c).

Lemma octal_octets c : is_byte c -> octal_ok c = true.
Proof. apply (all_octets octal_ok). by vm_compute. Qed.
Lemma binary_octets c : is_byte c -> binary_ok c = true.
Proof. apply (all_octets binary_ok). by vm_compute. Qed.

Lemma forallb_made_of f s : forallb f s = true -> made_of f s.
Proof. intros H. rewrite forallb_forall in H. apply List.Forall_forall. exact H. Qed.

Lemma octal_words b : wf_bytes b -> Forall word_ok (map octal_byte b).
Proof.
  intros Hb. apply Forall_map. eapply Forall_impl; [exact Hb|]. intros c Hc. apply octal_octets in Hc.
  unfold octal_ok in Hc. split_bools. split; [done|]. by apply forallb_made_of.
Qed.
Lemma binary_words b : wf_bytes b -> Forall word_ok (map binary_byte b).
Proof.
  intros Hb. apply Forall_map. eapply Forall_impl; [exact Hb|]. intros c Hc. apply binary_octets in Hc.
  unfold binary_ok in Hc. split_bools. split; [done|]. by apply forallb_made_of.
Qed.

Lemma octal_loop_bytes `{QtCodecsLaws} b out : wf_bytes b -> octal_loop (map octal_byte b) out = inr (out ++ b).
Proof.
  intros Hb. revert out. induction Hb as [|c b Hc _ IH]; intros out; cbn [map octal_loop]; [by rewrite app_nil_r|].
  pose proof (octal_octets c Hc) as Ho. unfold octal_ok in Ho. split_bools. to_prop. unfold is_byte in Hc.
  destruct (touint_digits 8 (octal_byte c)) as [-> _]; [lia|done|done|lia|].
  replace (digits_val 8 (octal_byte c)) with c by congruence. zdecide. by rewrite IH, <- app_assoc.
Qed.

Lemma binary_loop_bytes b n : wf_bytes b -> (length b <= n)%nat -> binary_loop n (concat (map binary_byte b)) = b.
Proof.
  intros Hb. revert n. induction Hb as [|c b Hc _ IH]; intros [|n] Hn; cbn [length] in Hn; try lia; try done.
  cbn [map concat binary_loop]. pose proof (binary_octets c Hc) as Ho. unfold binary_ok in Ho. split_bools. to_prop.
  rewrite is_nil_app_false by done. rewrite take_app_length', drop_app_length' by done.
  rewrite IH by lia. replace (bits_value (binary_byte c)) with c by congruence. unfold is_byte in Hc. by rewrite u8_small.
Qed.

Lemma concat_binary b :
  wf_bytes b -> forallb (fun c => (c =? 48) || (c =? 49)) (concat (map binary_byte b)) = true /\
  length (concat (map binary_byte b)) = (8 * length b)%nat.
Proof.
  induction 1 as [|c b Hc _ [IH1 IH2]]; [done|]. cbn [map concat]. rewrite forallb_app, IH1, length_app, IH2.
  pose proof (binary_octets c Hc) as Ho. unfold binary_ok in Ho. split_bools.
  split; [by apply andb_true_iff|].
  change (length (binary_byte c)) with 8%nat. cbn [length]. lia.
Qed.

(** ** HTML *)

Lemma html_loop_entity {C : QtCodecs} n body rep rest :
  entity body = Some rep -> body <> [] -> (length body <= 31)%nat -> 59 ∉ body ->
  html_loop (S n) (38 :: body ++ 59 :: rest) = rep ++ html_loop n rest.
Proof.
  intros He Hn Hl Hs. cbn [html_loop]. change (negb (38 =? 38)) with false. cbn match.
  unfold entity_here. rewrite index_of_app by done. destruct body as [|c body]; [done|].
  cbn [length Nat.ltb Nat.leb] in *. zdecide. cbn [andb].
  rewrite (take_app_length' (c :: body)), He by done.
  rewrite (cons_middle 59 (c :: body) rest), (app_assoc (c :: body)), drop_app_length' by (rewrite length_app; cbn; lia).
  done.
Qed.

Lemma html_char_encoded `{QtCodecsLaws} c :
  html_char c = [c] /\ c <> 38 \/
  exists body, html_char c = 38 :: body ++ [59] /\ entity body = Some [c] /\ body <> [] /\ (length body <= 31)%nat /\ 59 ∉ body.
Proof.
  unfold html_char.
  assert (E39 : u_touint 10 (lit "39") = Some 39) by (by apply touint_digits).
  repeat match goal with |- context [if c =? ?k then _ else _] =>
    let E := fresh "E" in destruct (c =? k) eqn:E; [apply Z.eqb_eq in E; subst c|] end.
  - right. exists (lit "amp"). split_and!; [done|done|done|vm_compute; lia|by apply index_of_None].
  - right. exists (lit "lt"). split_and!; [done|done|done|vm_compute; lia|by apply index_of_None].
  - right. exists (lit "gt"). split_and!; [done|done|done|vm_compute; lia|by apply index_of_None].
  - right. exists (lit "quot"). split_and!; [done|done|done|vm_compute; lia|by apply index_of_None].
  - right. exists (lit "#39"). split; [done|]. split; [|split_and!; [done|vm_compute; lia|by apply index_of_None]].
    unfold entity, numeric_entity. change (starts_with_chr 35 (lit "#39")) with true. cbn match.
    change (drop 1 (lit "#39")) with (lit "39"). change (_ && _) with false. cbn match. by rewrite E39.
  - left. split; [done|]. by apply Z.eqb_neq.
Qed.

Lemma html_roundtrip `{QtCodecsLaws} s n : (length s <= n)%nat -> html_loop n (htmlEncode s) = s.
Proof.
  revert n. induction s as [|c s IH]; intros [|n] Hn; cbn [length] in Hn; try lia; try done.
  unfold htmlEncode. cbn [flat_map]. fold (htmlEncode s). specialize (IH n ltac:(lia)).
  destruct (html_char_encoded c) as [[-> Hc]|(body & -> & He & Hb & Hl & Hs)].
  - cbn [app html_loop]. rewrite (proj2 (Z.eqb_neq c 38) Hc). cbn [negb]. by rewrite IH.
  - cbn [app]. rewrite <- app_assoc. cbn [app]. erewrite html_loop_entity by eassumption. by rewrite IH.
Qed.

(** ** Unicode escapes *)

Lemma hex4_value u : 0 <= u < 65536 ->
  forallb (fun c => digit_val c <? 16) (hex4 u) = true /\ digits_val 16 (hex4 u) = u.
Proof.
  intros Hu. unfold hex4.
  pose proof (Z.mod_pos_bound u 16 ltac:(lia)). pose proof (Z.mod_pos_bound (u / 16) 16 ltac:(lia)).
  pose proof (Z.mod_pos_bound (u / 256) 16 ltac:(lia)). pose proof (Z.mod_pos_bound (u / 4096) 16 ltac:(lia)).
  unfold digits_val. cbn [forallb fold_left]. rewrite !digit_val_chr by lia. zdecides. split; [done|].
  pose proof (Z.div_mod u 16 ltac:(lia)). pose proof (Z.div_mod (u / 16) 16 ltac:(lia)).
  pose proof (Z.div_mod (u / 16 / 16) 16 ltac:(lia)). pose proof (Z.div_mod (u / 16 / 16 / 16) 16 ltac:(lia)).
  replace (u / 256) with (u / 16 / 16) in * by (rewrite Z.div_div by lia; done).
  replace (u / 4096) with (u / 16 / 16 / 16) in * by (rewrite !Z.div_div by lia; done).
  pose proof (Z.div_small (u / 16 / 16 / 16) 16). 
  assert (u / 16 / 16 / 16 < 16) by (rewrite !Z.div_div by lia; apply Z.div_lt_upper_bound; lia).
  assert (0 <= u / 16 / 16 / 16) by (rewrite !Z.div_div by lia; apply Z.div_pos; lia). lia.
Qed.

Lemma unicode_roundtrip `{QtCodecsLaws} s n :
  (length (flat_map unicode_char s) <= n)%nat -> Forall (fun c => 0 <= c < 65536) s -> 92 ∉ s ->
  unicode_loop n (flat_map unicode_char s) = s.
Proof.
  intros Hn Hs. revert n Hn. induction Hs as [|c s Hc _ IH]; intros n Hn Hb; [by destruct n|].
  apply not_elem_of_cons in Hb as [Hbc Hb]. cbn [flat_map] in *. rewrite length_app in Hn.
  unfold unicode_char at 1. unfold unicode_char at 1 in Hn. destruct ((32 <=? c) && (c <? 127)) eqn:E.
  - destruct n as [|n]; [cbn in Hn; lia|]. cbn [app unicode_loop length] in *.
    unfold unicode_here. change (lit "\u") with [92; 117]. cbn [starts_with].
    rewrite (proj2 (Z.eqb_neq 92 c)) by congruence. cbn [andb]. by rewrite IH by (done || lia).
  - destruct n as [|n]; [cbn in Hn; lia|]. cbn [app unicode_loop] in *.
    destruct (hex4_value c Hc) as [Hd Hv]. unfold unicode_here.
    change (mid (92 :: 117 :: hex4 c ++ flat_map unicode_char s) 2 4) with (hex4 c).
    destruct (touint_digits 16 (hex4 c)) as [_ ->]; [lia|done|done|lia|]. rewrite Hv.
    change (drop 6 (92 :: 117 :: hex4 c ++ flat_map unicode_char s)) with (flat_map unicode_char s).
    replace (6 <=? zlen _) with true.
    + cbn. rewrite IH; [done| |done]. cbn in Hn. lia.
    + symmetry. apply Z.leb_le. rewrite !zlen_cons, zlen_app. change (zlen (hex4 c)) with 4.
      pose proof (zlen_nonneg (flat_map unicode_char s)). lia.
Qed.

Lemma rot13_char_involutive c : rot13_char (rot13_char c) = c.
Proof.
  unfold rot13_char. destruct ((97 <=? c) && (c <=? 122)) eqn:E1; [|destruct ((65 <=? c) && (c <=? 90)) eqn:E2].
  - split_bools. to_prop. pose proof (Z.mod_pos_bound (c - 97 + 13) 26 ltac:(lia)). zdecides.
    pose proof (Z.div_mod (c - 97 + 13) 26 ltac:(lia)).
    assert (Hq : (c - 97 + 13) / 26 = 0 \/ (c - 97 + 13) / 26 = 1) by lia.
    set (m := (c - 97 + 13) mod 26) in *. replace (97 + m - 97 + 13) with (m + 13) by lia.
    destruct Hq as [Hq|Hq]; rewrite Hq in *.
    + replace (m + 13) with (c - 97 + 1 * 26) by lia. rewrite Z.mod_add, Z.mod_small by lia. lia.
    + rewrite Z.mod_small by lia. lia.
  - split_bools. to_prop. pose proof (Z.mod_pos_bound (c - 65 + 13) 26 ltac:(lia)).
    set (m := (c - 65 + 13) mod 26) in *. zdecides.
    pose proof (Z.div_mod (c - 65 + 13) 26 ltac:(lia)). fold m in H0.
    assert (Hq : (c - 65 + 13) / 26 = 0 \/ (c - 65 + 13) / 26 = 1) by lia.
    replace (65 + m - 65 + 13) with (m + 13) by lia. destruct Hq as [Hq|Hq]; rewrite Hq in *.
    + replace (m + 13) with (c - 65 + 1 * 26) by lia. rewrite Z.mod_add, Z.mod_small by lia. lia.
    + rewrite Z.mod_small by lia. lia.
  - by rewrite E1, E2.
Qed.

(** ** Dispatch *)

Section Dispatch.
Context {Q : QtText} {C : QtCodecs} {J : QtJson}.

(** The advertised operations with what they run. *)
Definition op_table : list (String.string * (qstr -> Result)) :=
  [("base64-encode", fun s => base64Encode s false); ("base64-decode", fun s => base64Decode s false);
   ("base64url-encode", fun s => base64Encode s true); ("base64url-decode", fun s => base64Decode s true);
   ("url-encode", urlEncode); ("url-decode", urlDecode);
   ("html-encode", fun s => ok (htmlEncode s)); ("html-decode", htmlDecode);
   ("hex-encode", hexEncode); ("hex-decode", hexDecode);
   ("unicode-escape", unicodeEscape); ("unicode-unescape", unicodeUnescape); ("rot13", rot13);
   ("jwt-decode", jwtDecode); ("octal-encode", octalEncode); ("octal-decode", octalDecode);
   ("binary-encode", binaryEncode); ("binary-decode", binaryDecode);
   ("md4", fun s => hashOp s Md4); ("md5", fun s => hashOp s Md5); ("sha1", fun s => hashOp s Sha1);
   ("sha224", fun s => hashOp s Sha224); ("sha256", fun s => hashOp s Sha256); ("sha384", fun s => hashOp s Sha384);
   ("sha512", fun s => hashOp s Sha512); ("sha3-256", fun s => hashOp s Sha3_256)]%string.

Lemma apply_table op input :
  apply op input =
  match List.find (fun e => seq_eqb (u_lower (u_trimmed op)) (lit (fst e))) op_table with
  | Some e => snd e input
  | None => err (lit "unknown operation: " ++ op)
  end.
Proof.
  unfold apply. cbv zeta. set (o := u_lower (u_trimmed op)). unfold op_table. cbn [List.find fst snd].
  repeat (match goal with |- (if ?b then _ else _) = _ => destruct b; [reflexivity|] end). done.
Qed.

(** The names are in the display order of [operations]. *)
Lemma table_operations : operations = map (fun e => lit (fst e)) op_table.
Proof. done. Qed.

Lemma find_name {A} (f : A -> qstr) o (l : list A) :
  match List.find (fun e => seq_eqb o (f e)) l with
  | Some e => e ∈ l /\ o = f e
  | None => o ∉ map f l
  end.
Proof.
  induction l as [|e l IH]; cbn [List.find map]; [by apply not_elem_of_nil|].
  destruct (seq_eqb o (f e)) eqn:E.
  - apply seq_eqb_eq in E. split; [left|done].
  - destruct (List.find _ l).
    + destruct IH. split; [by right|done].
    + apply not_elem_of_cons. split; [|done]. intros ->. by rewrite seq_eqb_refl in E.
Qed.

(** A name in its advertised spelling runs its entry. *)
Lemma apply_named {L : QtTextLaws Q} name f input :
  (name, f) ∈ op_table -> apply (lit name) input = f input.
Proof.
  intros H. rewrite apply_table.
  assert (Hall : Forall (fun e : String.string * (qstr -> Result) => all_ascii (lit (fst e)) = true /\
             List.find (fun e' => seq_eqb (map ascii_lower1 (b_trimmed (lit (fst e)))) (lit (fst e'))) op_table = Some e) op_table).
  { unfold op_table. repeat (apply List.Forall_cons; [by split|]). by constructor. }
  rewrite Forall_forall in Hall. specialize (Hall _ H) as [Ha Hf]. cbn [fst] in *.
  rewrite u_trimmed_ascii, law_lower_ascii, Hf; [done| |done].
  eapply all_ascii_incl; [exact Ha|]. intros c. apply trim_by_incl.
Qed.

(** *** Well-typed results *)

(** A result is a success without an error text, or a failure with one and nothing else. *)
Definition result_wf (r : Result) : Prop :=
  if r_ok r then r_error r = [] else r_output r = [] /\ r_outputBytes r = [] /\ r_error r <> [].

Lemma err_wf e : e <> [] -> result_wf (err e).
Proof. done. Qed.

Lemma lit_app_nonempty (x : String.string) e : lit x <> [] -> lit x ++ e <> [].
Proof. intros H E. by apply app_eq_nil in E as []. Qed.

Lemma entry_wf e input : e ∈ op_table -> result_wf (snd e input).
Proof.
  unfold op_table. rewrite !elem_of_cons, elem_of_nil. intros H.
  repeat (destruct H as [->|H]; [cbn [snd]|]); [..|done];
    unfold base64Decode, hexDecode, jwtDecode, octalDecode, binaryDecode; cbv zeta; repeat case_match;
    first [done | by apply err_wf, lit_app_nonempty].
Qed.

(** Operations that cannot fail: every encoder, the digests, and the decoders that copy
    what they do not understand. *)
Definition total_operations : list qstr :=
  map lit ["base64-encode"; "base64url-encode"; "url-encode"; "url-decode"; "html-encode"; "html-decode"; "hex-encode";
    "unicode-escape"; "unicode-unescape"; "rot13"; "octal-encode"; "binary-encode"; "md4"; "md5"; "sha1"; "sha224";
    "sha256"; "sha384"; "sha512"; "sha3-256"]%string.

Lemma total_are_operations o : o ∈ total_operations -> o ∈ operations.
Proof.
  assert (H : Forall (fun o => o ∈ operations) total_operations)
    by (refine (bool_decide_eq_true_1 _ _); vm_compute; reflexivity).
  rewrite Forall_forall in H. apply H.
Qed.

(** Every run of the workbench ends in a well-typed result: a success carries no
    error, a failure carries an error text and no output.  The operation name is
    read without regard to case and surrounding space; exactly the advertised names
    are operations, and the encoders, the digests and the lenient decoders always
    succeed. *)
Theorem apply_well_typed op input :
  result_wf (apply op input) /\
  (u_lower (u_trimmed op) ∉ operations -> apply op input = err (lit "unknown operation: " ++ op)) /\
  (u_lower (u_trimmed op) ∈ operations -> exists e, e ∈ op_table /\ u_lower (u_trimmed op) = lit (fst e) /\ apply op input = snd e input) /\
  (u_lower (u_trimmed op) ∈ total_operations -> r_ok (apply op input) = true).
Proof.
  rewrite apply_table, table_operations. set (o := u_lower (u_trimmed op)).
  pose proof (find_name (fun e : String.string * (qstr -> Result) => lit (fst e)) o op_table) as Hf.
  destruct (List.find _ op_table) as [e|].
  - destruct Hf as [He Ho]. split; [by apply entry_wf|].
    split; [intros Hn; destruct Hn; apply list_elem_of_In, in_map_iff; exists e; split; [done|by apply list_elem_of_In]|].
    split; [by eauto|]. rewrite Ho. revert He. unfold op_table. rewrite !elem_of_cons, elem_of_nil. intros He Ht.
    repeat (destruct He as [->|He];
      [cbn [snd fst] in *; first [reflexivity | exfalso; revert Ht; refine (bool_decide_eq_false_1 _ _); vm_compute; reflexivity]|]). done.
  - split; [apply err_wf, lit_app_nonempty; vm_compute; discriminate|]. split; [done|]. split; [done|].
    intros Ht. destruct Hf. by apply total_are_operations.
Qed.

End Dispatch.

(** ** Round trips *)

Section RoundTrips.
Context {Q : QtText} {C : QtCodecs} {J : QtJson}.
Context {L : QtTextLaws Q} {LC : QtCodecsLaws C} {LU : QtUtf8 Q} {LT : QtUtf8Text Q}.

Lemma utf8_nonempty s : wf_utf16 s = true -> s <> [] -> u_toutf8 s <> [].
Proof. intros Hw Hs E. apply Hs. rewrite <- (law_utf8_text s Hw), E. by apply law_fromutf8_ascii. Qed.

Lemma okBytes_utf8 s : wf_utf16 s = true -> okBytes (u_toutf8 s) = mkResult s true [] (u_toutf8 s).
Proof. intros Hw. unfold okBytes. by rewrite law_utf8_text. Qed.

Lemma base64_roundtrip s url :
  wf_utf16 s = true -> base64Decode (r_output (base64Encode s url)) url = mkResult s true [] (u_toutf8 s).
Proof.
  intros Hw. unfold base64Encode, base64Decode, ok. cbn [r_output]. set (e := b64_encode url (u_toutf8 s)).
  assert (Hc : Forall (fun c => is_ascii c = true /\ b_space c = false) e).
  { apply Forall_forall. intros c Hc. apply (law_b64_chars url (u_toutf8 s)); [apply law_toutf8_bytes|done]. }
  rewrite u_trimmed_ascii; [|apply forallb_forall; intros c Hx; rewrite Forall_forall in Hc; by apply Hc, list_elem_of_In].
  unfold b_trimmed. rewrite trim_by_id by (eapply Forall_impl; [exact Hc|]; by intros c []).
  rewrite law_tolatin1.
  - unfold e. rewrite law_b64 by apply law_toutf8_bytes. by apply okBytes_utf8.
  - eapply Forall_impl; [exact Hc|]. intros c [Ha _]. unfold is_ascii in Ha. unfold is_byte. split_bools. to_prop. lia.
Qed.

Lemma pct_decode_encoded b : wf_bytes b -> b_pct_decode (percent_encode b) = b.
Proof.
  intros Hb. set (l := map (fun c => (negb (unreserved c), c)) b).
  assert (E : percent_encode b = pct_text l /\ map snd l = b).
  { unfold l, pct_text, percent_encode. clear. induction b as [|c b [IH1 IH2]]; [done|]. cbn [flat_map map fst snd].
    rewrite IH1, IH2. split; [|done]. f_equal. unfold pct_byte. by destruct (unreserved c). }
  destruct E as [-> E]. rewrite law_pct_decode; [done|]. unfold l. apply Forall_map. eapply Forall_impl; [exact Hb|].
  intros c Hc. cbn. split; [done|]. by intros ->.
Qed.

Lemma url_roundtrip s : wf_utf16 s = true -> urlDecode (r_output (urlEncode s)) = ok s.
Proof.
  intros Hw. unfold urlEncode, urlDecode. cbn [ok r_output]. f_equal.
  rewrite law_toutf8_ascii.
  - rewrite pct_decode_encoded by apply law_toutf8_bytes. by apply law_utf8_text.
  - assert (Hg : made_of is_ascii (percent_encode (u_toutf8 s))); [|by apply forallb_forall, List.Forall_forall].
    apply made_of_flat; [apply law_toutf8_bytes|]. by vm_compute.
Qed.

Lemma hex_roundtrip s : wf_utf16 s = true -> s <> [] -> hexDecode (r_output (hexEncode s)) = mkResult s true [] (u_toutf8 s).
Proof.
  intros Hw Hs. unfold hexEncode. cbn [ok r_output]. pose proof (law_toutf8_bytes s) as Hb.
  pose proof (utf8_nonempty s Hw Hs). rewrite hexdigits_decode.
  - rewrite from_hex_to_hex by done. by apply okBytes_utf8.
  - by apply to_hex_digits.
  - destruct (u_toutf8 s); [done|]. by unfold to_hex.
  - rewrite to_hex_length, Z.mul_comm. by apply Z.mod_mul.
Qed.

Lemma octal_roundtrip s : wf_utf16 s = true -> s <> [] -> octalDecode (r_output (octalEncode s)) = mkResult s true [] (u_toutf8 s).
Proof.
  intros Hw Hs. unfold octalEncode, octalDecode. cbn [ok r_output]. pose proof (law_toutf8_bytes s) as Hb.
  pose proof (octal_words _ Hb) as Ho. rewrite simplified_words, split_words by done.
  pose proof (utf8_nonempty s Hw Hs). rewrite octal_loop_bytes by done.
  destruct (u_toutf8 s) eqn:E; [done|]. cbn [map is_nil app]. rewrite <- E. by apply okBytes_utf8.
Qed.

Lemma binary_roundtrip s : wf_utf16 s = true -> s <> [] -> binaryDecode (r_output (binaryEncode s)) = mkResult s true [] (u_toutf8 s).
Proof.
  intros Hw Hs. unfold binaryEncode, binaryDecode. cbn [ok r_output]. pose proof (law_toutf8_bytes s) as Hb.
  pose proof (binary_words _ Hb) as Ho. rewrite strip_words by done.
  pose proof (utf8_nonempty s Hw Hs) as Hn. destruct (concat_binary _ Hb) as [Hd Hl]. rewrite Hd.
  unfold zlen. rewrite Hl, Nat2Z.inj_mul, Z.mul_comm, Z.mod_mul by done. cbn [negb].
  rewrite binary_loop_bytes; [|done|lia]. change (0 =? 0) with true. cbn [negb].
  replace (is_nil _) with false; [by apply okBytes_utf8|]. destruct (u_toutf8 s); [done|]. done.
Qed.

Lemma html_encode_length s : (length s <= length (htmlEncode s))%nat.
Proof.
  induction s as [|c s IH]; [done|]. unfold htmlEncode in *. cbn [flat_map length]. rewrite length_app.
  assert (1 <= length (html_char c))%nat; [|lia]. unfold html_char. repeat case_match; vm_compute; lia.
Qed.

(** The encodings, and the ones whose decoder refuses the empty text. *)
Definition codec_names : list String.string := ["base64"; "base64url"; "url"; "html"; "hex"; "octal"; "binary"]%string.
Definition nonempty_codecs : list String.string := ["hex"; "octal"; "binary"]%string.
Definition text_codecs : list String.string := ["url"; "html"]%string.
Definition encode_with (name : String.string) (s : qstr) : Result := apply (lit (String.append name "-encode")) s.
Definition decode_with (name : String.string) (s : qstr) : Result := apply (lit (String.append name "-decode")) s.

Lemma nonempty_codecs_empty name : name ∈ nonempty_codecs -> decode_with name [] = err (lit "empty").
Proof.
  unfold nonempty_codecs, decode_with. rewrite !elem_of_cons, elem_of_nil. intros H.
  assert (Ht : u_trimmed [] = []) by done.
  repeat (destruct H as [->|H]; [erewrite apply_named by (unfold op_table; repeat (left || right)); reflexivity|]). done.
Qed.

(** Decoding what the workbench encoded gives the text back, for every well-formed
    text and each of base64, base64url, percent, HTML, hexadecimal, octal and binary,
    and the byte decoders report the exact octets.  The empty text is the exception
    for hexadecimal, octal and binary: its encoding is empty and is refused. *)
Theorem transcode_roundtrip name s :
  name ∈ codec_names -> wf_utf16 s = true ->
  let e := encode_with name s in
  let d := decode_with name (r_output e) in
  r_ok e = true /\
  (if decide (s = [] /\ name ∈ nonempty_codecs) then d = err (lit "empty")
   else r_ok d = true /\ r_output d = s /\ (name ∉ text_codecs -> r_outputBytes d = u_toutf8 s)).
Proof.
  intros Hn Hw. cbv zeta.
  destruct (decide (s = [] /\ name ∈ nonempty_codecs)) as [[-> Hne]|Hne].
  { assert (E : u_toutf8 [] = []) by (by apply law_toutf8_ascii).
    revert Hne. unfold nonempty_codecs, encode_with. rewrite !elem_of_cons, elem_of_nil. intros H.
    repeat (destruct H as [->|H]; [erewrite apply_named by (unfold op_table; repeat (left || right));
      unfold hexEncode, octalEncode, binaryEncode, ok; cbn [r_ok r_output]; rewrite E; split; [done|];
      apply nonempty_codecs_empty; repeat (left || right)|]). done. }
  assert (Hs : name ∈ nonempty_codecs -> s <> []) by (intros ? ->; by apply Hne).
  revert Hn. unfold codec_names, encode_with, decode_with. rewrite !elem_of_cons, elem_of_nil. intros Hn.
  repeat (destruct Hn as [->|Hn]; [
    erewrite apply_named by (unfold op_table; repeat (left || right));
    erewrite apply_named by (unfold op_table; repeat (left || right)); split; [done|];
    first [ rewrite base64_roundtrip by done
          | rewrite url_roundtrip by done
          | rewrite hex_roundtrip by (try done; apply Hs; repeat (left || right))
          | rewrite octal_roundtrip by (try done; apply Hs; repeat (left || right))
          | rewrite binary_roundtrip by (try done; apply Hs; repeat (left || right))
          | unfold htmlDecode; cbn [ok r_output]; rewrite html_roundtrip ]|]); try done.
  - split_and!; [done..|]. intros Hx. destruct Hx. repeat (left || right).
  - split_and!; [done..|]. intros Hx. destruct Hx. repeat (left || right).
  - apply html_encode_length.
Qed.
End RoundTrips.

(** ** Escapes and rotation *)

Section Escapes.
Context {Q : QtText} {C : QtCodecs} {J : QtJson} {L : QtTextLaws Q} {LC : QtCodecsLaws C}.

(** Un-escaping what unicode-escape wrote gives the text back when it has no
    backslash; a backslash is copied without an escape, so a text that already holds
    an escape comes back as another text.  rot13 is its own inverse on every text. *)
Theorem escape_roundtrip s :
  Forall (fun c => 0 <= c < 65536) s ->
  (92 ∉ s -> apply (lit "unicode-unescape") (r_output (apply (lit "unicode-escape") s)) = ok s) /\
  apply (lit "unicode-unescape") (r_output (apply (lit "unicode-escape") (lit "\u0041"))) = ok (lit "A") /\
  apply (lit "rot13") (r_output (apply (lit "rot13") s)) = ok s.
Proof.
  intros Hs.
  assert (T : forall name f input, (name, f) ∈ op_table -> apply (lit name) input = f input) by (intros; by apply apply_named).
  rewrite !(T "unicode-unescape"%string unicodeUnescape), !(T "unicode-escape"%string unicodeEscape), !(T "rot13"%string rot13)
    by (unfold op_table; repeat (left || right)).
  unfold unicodeUnescape, unicodeEscape, rot13. cbn [ok r_output]. split; [|split].
  - intros Hb. by rewrite unicode_roundtrip.
  - change (flat_map unicode_char (lit "\u0041")) with (lit "\u0041"). cbn [length]. f_equal.
    change (length (lit "\u0041")) with 6%nat. cbn [unicode_loop]. change (lit "\u0041") with [92; 117; 48; 48; 52; 49].
    cbn match. unfold unicode_here.
    change (mid [92; 117; 48; 48; 52; 49] 2 4) with [48; 48; 52; 49].
    destruct (touint_digits 16 [48; 48; 52; 49]) as [_ ->]; [lia|done|done|done|]. done.
  - f_equal. rewrite map_map. rewrite <- (map_id s) at 2. apply map_ext. apply rot13_char_involutive.
Qed.

(** Each digest operation with the name of its algorithm. *)
Definition hash_names : list (String.string * String.string) :=
  [("md4", "MD4"); ("md5", "MD5"); ("sha1", "SHA-1"); ("sha224", "SHA-224"); ("sha256", "SHA-256");
   ("sha384", "SHA-384"); ("sha512", "SHA-512"); ("sha3-256", "SHA3-256")]%string.

Lemma identify_digest alg b :
  identifyHash (to_hex (b_hash alg b)) =
  map lit (match alg with
    | Md4 | Md5 => ["MD5"; "NTLM"; "MD4"]
    | Sha1 => ["SHA-1"; "RIPEMD-160"]
    | Sha224 => ["SHA-224"]
    | Sha256 | Sha3_256 => ["SHA-256"; "SHA3-256"; "BLAKE2s"]
    | Sha384 => ["SHA-384"]
    | Sha512 => ["SHA-512"; "SHA3-512"; "BLAKE2b"] end)%string.
Proof.
  destruct (law_digest alg b) as [Hl Hb]. pose proof (to_hex_digits _ Hb) as Hh.
  set (h := to_hex (b_hash alg b)) in *.
  assert (Hn : zlen h = 2 * digest_len alg) by (unfold h; by rewrite to_hex_length, Hl).
  unfold identifyHash. cbv zeta. rewrite graphic_trimmed by (eapply made_of_mono, Hh; apply hexdigit_graphic).
  rewrite Hn. destruct h as [|c h]; [by destruct alg|]. pose proof Hh as [Hc _]%Forall_cons.
  assert (Hd : (36 =? c) = false) by (apply Z.eqb_neq; by intros <-).
  assert (S : forall p, starts_with (36 :: p) (c :: h) = false) by (intros p; cbn [starts_with]; by rewrite Hd).
  change (lit "$2a$") with (36 :: lit "2a$"). change (lit "$2b$") with (36 :: lit "2b$").
  change (lit "$2y$") with (36 :: lit "2y$"). change (lit "$1$") with (36 :: lit "1$").
  change (lit "$5$") with (36 :: lit "5$"). change (lit "$6$") with (36 :: lit "6$").
  change (lit "$argon2") with (36 :: lit "argon2"). rewrite !S. cbn [orb is_nil].
  rewrite (proj2 (forallb_forall _ _)); [by destruct alg|].
  intros x Hx. unfold made_of in Hh. rewrite Forall_forall in Hh. by apply Hh, list_elem_of_In.
Qed.

(** A digest the workbench computes is recognised by [identifyHash]: the guess for
    the hexadecimal text of each algorithm contains that algorithm. *)
Theorem own_digests_identified op name s :
  (op, name) ∈ hash_names -> lit name ∈ identifyHash (r_output (apply (lit op) s)).
Proof.
  unfold hash_names. rewrite !elem_of_cons, elem_of_nil. intros H.
  repeat (destruct H as [H|H]; [injection H as -> ->;
    erewrite apply_named by (unfold op_table; repeat (left || right));
    unfold hashOp, ok; cbn [r_output]; rewrite identify_digest; apply list_elem_of_In; cbn; tauto|]). done.
Qed.
End Escapes.

(** What is saved as Base64 text is read back by the lenient reader. *)
Lemma saved_base64_roundtrip {Q : QtText} {C : QtCodecs} {LL : QtLenient} {QL : QtTextLaws Q} {CL : QtCodecsLaws C} {VL : QtLenientLaws C LL} b : wf_bytes b -> b64_lenient (u_tolatin1 (b64_encode false b)) = b.
Proof.
  intros Hb. rewrite law_tolatin1; [by apply law_lenient|]. apply Forall_forall. intros c Hc.
  destruct (law_b64_chars false b c Hb Hc) as [Ha _]. unfold is_ascii in Ha. unfold is_byte. split_bools. to_prop. lia.
Qed.

(** ** Smart decoding *)

Section Smart.
Context {Q : QtText} {C : QtCodecs} {J : QtJson}.

Definition smart_operations : list qstr := map lit ["jwt-decode"; "url-decode"; "html-decode"; "base64-decode"; "hex-decode"]%string.

Lemma detect_operation cur op : detect cur = Some op -> op ∈ smart_operations.
Proof.
  unfold detect, smart_operations. intros H.
  repeat case_match; simplify_eq; cbn [map]; rewrite !elem_of_cons; tauto.
Qed.

(** Running a chain: every operation must succeed and change the text. *)
Fixpoint replay (steps : list qstr) (cur : qstr) : option qstr :=
  match steps with
  | [] => Some cur
  | op :: steps' =>
      let r := apply op cur in
      if r_ok r && negb (seq_eqb (r_output r) cur) then replay steps' (r_output r) else None
  end.

(** Nothing further decodes. *)
Definition settled (cur : qstr) : Prop :=
  match detect cur with
  | None => True
  | Some op => r_ok (apply op cur) = false \/ r_output (apply op cur) = cur
  end.

Lemma smart_loop_spec n : forall cur steps,
  exists added, snd (smart_loop n cur steps) = steps ++ added /\ (length added <= n)%nat /\
  replay added cur = Some (fst (smart_loop n cur steps)) /\ Forall (fun op => op ∈ smart_operations) added /\
  ((length added < n)%nat -> settled (fst (smart_loop n cur steps)) \/ last added = Some (lit "jwt-decode")).
Proof.
  induction n as [|n IH]; intros cur steps; cbn [smart_loop].
  { exists []. rewrite app_nil_r. repeat split; try done. cbn. lia. }
  destruct (detect cur) as [op|] eqn:Ed.
  2:{ exists []. rewrite app_nil_r. repeat split; try done; [cbn; lia|]. left. unfold settled. cbn [fst]. by rewrite Ed. }
  destruct (negb _ || _) eqn:Es.
  { exists []. rewrite app_nil_r. repeat split; try done; [cbn; lia|]. left. unfold settled. cbn [fst]. rewrite Ed.
    apply orb_true_iff in Es as [Es|Es]; [left; by apply negb_true_iff|right; by apply seq_eqb_eq]. }
  apply orb_false_iff in Es as [E1 E2]. rewrite negb_false_iff in E1.
  pose proof (detect_operation _ _ Ed) as Ho. set (next := r_output (apply op cur)) in *.
  assert (Hr : forall added, replay (op :: added) cur = replay added next).
  { intros added. cbn [replay]. fold next. by rewrite E1, E2. }
  destruct (seq_eqb op _) eqn:Ej.
  { apply seq_eqb_eq in Ej. subst op. exists [lit "jwt-decode"]. cbn [fst snd]. rewrite Hr.
    repeat split; try done; [cbn; lia|by constructor|by right]. }
  destruct (IH next (steps ++ [op])) as (added & E & Hl & Hre & Hf & Hs). exists (op :: added).
  rewrite E, <- app_assoc, Hr. repeat split; try done; [cbn; lia|by constructor|]. cbn [length]. intros Hlt.
  destruct (Hs ltac:(lia)) as [?|Hj]; [by left|right]. by rewrite last_cons, Hj.
Qed.

(** Smart decoding ends after at most twelve layers.  The chain it reports is the
    one that leads from the input to the output: replaying it succeeds, every step
    changes the text, and each is one of the five detected decoders; when fewer than
    twelve were applied, nothing further decodes or the last one was the JWT
    decoder.  Without a step the input is returned with an error. *)
Theorem smartDecode_replay input :
  let '(r, chain) := smartDecode input in
  (length chain <= 12)%nat /\ replay chain input = Some (r_output r) /\
  (r_ok r = true <-> chain <> []) /\ (r_ok r = true <-> r_error r = []) /\
  Forall (fun op => op ∈ smart_operations) chain /\
  ((length chain < 12)%nat -> settled (r_output r) \/ last chain = Some (lit "jwt-decode")).
Proof.
  unfold smartDecode. destruct (smart_loop_spec 12 input []) as (added & E & Hl & Hr & Hf & Hs).
  destruct (smart_loop 12 input []) as [cur steps]. cbn [fst snd app] in *. subst steps.
  destruct added as [|op added]; cbn [is_nil r_ok r_output r_error].
  - cbn [replay] in Hr. injection Hr as ->. repeat split; try done; by apply Hs.
  - repeat split; try done; by apply Hs.
Qed.
End Smart.

(** ** A concrete instance and witnesses *)

Definition sample_toulonglong (base : Z) (s : list Z) : option Z :=
  if (base <? 2) || is_nil s || negb (forallb (fun c => digit_val c <? base) s) then None
  else if digits_val base s <=? U64_MAX then Some (digits_val base s) else None.

(** Base64 replaced by hexadecimal, digests by zeros. *)
Definition sampleCodecs : QtCodecs := {|
  b64_encode _ b := to_hex b;
  b64_decode _ t := if forallb is_hexdigit t && (zlen t mod 2 =? 0) then Some (from_hex t) else None;
  b_pct_decode := SessionRules.pct_decode;
  b_hash a _ := replicate (Z.to_nat (digest_len a)) 0;
  u_toulonglong := sample_toulonglong;
  json_indented := enc
|}.

#[export] Instance sampleCodecs_laws : QtCodecsLaws sampleCodecs.
Proof.
  split.
  - intros url b Hb. cbn. pose proof (to_hex_digits b Hb) as Hh. rewrite (proj2 (forallb_forall _ _)).
    + rewrite to_hex_length, Z.mul_comm, Z.mod_mul by done. by rewrite from_hex_to_hex.
    + intros x Hx. unfold made_of in Hh. rewrite Forall_forall in Hh. by apply Hh, list_elem_of_In.
  - intros url b c Hb Hc. cbn in Hc. pose proof (to_hex_digits b Hb) as Hh. unfold made_of in Hh. rewrite Forall_forall in Hh.
    apply Hh, hexdigit_graphic, graphic_spec in Hc as (? & ? & _). done.
  - intros l Hl. cbn. induction Hl as [|[e c] l [Hc He] _ IH]; [done|]. cbn [fst snd map] in *. unfold pct_text.
    cbn [flat_map fst snd]. fold (pct_text l). unfold is_byte in Hc. destruct e; cbn [app].
    + cbn [SessionRules.pct_decode]. rewrite Z.eqb_refl, IH, !digit_val_hex.
      * f_equal. pose proof (Z.div_mod c 16 ltac:(lia)). lia.
      * apply Z.mod_pos_bound. lia.
      * split; [apply Z.div_pos; lia|apply Z.div_lt_upper_bound; lia].
    + rewrite pct_decode_plain, IH; [done|]. intros ->. by specialize (He eq_refl).
  - intros a b. cbn. split; [by destruct a|]. apply Forall_replicate. done.
  - intros base s Hb Hs Hd. cbn. unfold sample_toulonglong. rewrite Hd. zdecide. by destruct s.
  - intros base s v. cbn. unfold sample_toulonglong. intros H. destruct (base <? 2) eqn:Eb; [done|]. to_prop.
    repeat case_match; simplify_eq. apply digits_val_nonneg. lia.
Qed.

#[export] Instance sampleCodecs_indented : QtIndentedLaws treeJson sampleCodecs.
Proof. split. exact (law_json_text (QtJsonLaws := treeJson_laws)). Qed.

Definition sampleLenient : @QtLenient := {|
  b64_lenient t := default [] (b64_decode (QtCodecs := sampleCodecs) false t);
  variant_longlong v := match v with JInt n => n | _ => 0 end |}.
#[export] Instance sampleLenient_laws : QtLenientLaws sampleCodecs sampleLenient.
Proof. split; [|done]. intros b Hb. cbn [b64_lenient sampleLenient]. by rewrite (law_b64 (QtCodecsLaws := sampleCodecs_laws)). Qed.

Section Examples.
#[local] Existing Instance utf8Text.
#[local] Existing Instance sampleCodecs.
#[local] Existing Instance treeJson.

(** "é <&>", a line break and U+1F600. *)
Definition sample_text : qstr := [233; 32; 60; 38; 62; 10; 55357; 56832].

Lemma transcode_roundtrip_witness :
  wf_utf16 sample_text = true /\
  let e := encode_with "octal" sample_text in
  let d := decode_with "octal" (r_output e) in
  r_ok d = true /\ r_output d = sample_text /\ r_outputBytes d = u_toutf8 sample_text.
Proof.
  split; [vm_compute; reflexivity|]. cbv zeta.
  assert (Hn : "octal"%string ∈ codec_names) by (unfold codec_names; repeat (left || right)).
  assert (Hw : wf_utf16 sample_text = true) by (vm_compute; reflexivity).
  pose proof (transcode_roundtrip "octal" sample_text Hn Hw) as [_ Hd].
  destruct (decide _) as [[E _]|_] in Hd; [discriminate E|].
  destruct Hd as (H1 & H2 & H3). split; [exact H1|]. split; [exact H2|]. apply H3.
  refine (bool_decide_eq_true_1 _ _). vm_compute. reflexivity.
Defined.

Lemma escape_roundtrip_witness :
  Forall (fun c => 0 <= c < 65536) sample_text /\
  apply (lit "unicode-unescape") (r_output (apply (lit "unicode-escape") sample_text)) = ok sample_text.
Proof.
  assert (Hs : Forall (fun c => 0 <= c < 65536) sample_text) by (unfold sample_text; repeat constructor; lia).
  split; [exact Hs|]. apply (proj1 (escape_roundtrip sample_text Hs)).
  refine (bool_decide_eq_true_1 _ _). vm_compute. reflexivity.
Defined.

Lemma own_digests_identified_witness :
  lit "SHA-256" ∈ identifyHash (r_output (apply (lit "sha256") sample_text)).
Proof. apply (own_digests_identified "sha256" "SHA-256" sample_text). unfold hash_names. repeat (left || right). Defined.

(** Two layers, hexadecimal in percent escapes, undone in order. *)
Example smart_decode_layers :
  smartDecode (lit "%37%30%36%63%61%79%7a%7a") = (ok (lit "706cayzz"), [lit "url-decode"]) /\
  smartDecode (lit "%37%30%36%63%36%31%36%39%36%65") = (ok (lit "plain"), map lit ["url-decode"; "hex-decode"]%string) /\
  smartDecode (lit "plain text") = (mkResult (lit "plain text") false (lit "no encoding detected") [], []).
Proof. split; [|split]; by vm_compute. Qed.
End Examples.
