(* ===== verification/H2Telemetry.v ===== *)
(** * HTTP/2 telemetry: Src/BackEnd/Proxy/h2_logic.{hpp,cpp} and h2_events.{hpp,cpp}

    [H2EventLog] is the log's state: the ring of frame events and the per-stream
    summaries, a [QMap] keyed by "connection|stream".  The clock is an argument.
    Everything recorded comes from proxied traffic, so both parts are bounded. *)

From S2P Require Import Prelude Qt QMap.

Local Open Scope Z_scope.

Record H2Event := mkEvent {
  ev_ts : Z; ev_conn : qstr; ev_frameType : Z; ev_flags : Z; ev_streamId : Z;
  ev_bytes : Z; ev_errorCode : Z; ev_summary : qstr
}.

Record H2StreamSummary := mkSummary {
  ss_streamId : Z; ss_conn : qstr; ss_method : qstr; ss_path : qstr; ss_status : Z;
  ss_bytesIn : Z; ss_bytesOut : Z; ss_framesIn : Z; ss_framesOut : Z;
  ss_lastError : Z; ss_openedAtMs : Z; ss_closed : bool
}.

Definition defaultSummary : H2StreamSummary := mkSummary 0 [] [] [] 0 0 0 0 0 0 0 false.

Definition Streams : Type := list (qstr * H2StreamSummary).

Definition kMaxStreams : Z := 4096.
Definition kMaxTelemetryFieldLen : Z := 4096.
Definition kMaxEvents : Z := 5000.

(** ** h2_logic.cpp *)

(** One round of the victim search: the entry so far against the next one. *)
Definition prefer (victim e : qstr * H2StreamSummary) : qstr * H2StreamSummary :=
  let vc := ss_closed (snd victim) in
  let c := ss_closed (snd e) in
  if c && negb vc then e
  else if Bool.eqb c vc && (ss_openedAtMs (snd e) <? ss_openedAtMs (snd victim)) then e
  else victim.

Definition select_victim (streams : Streams) : option (qstr * H2StreamSummary) :=
  match streams with
  | [] => None
  | e :: es => Some (fold_left prefer es e)
  end.

(** The eviction loop; each round removes an entry, so the size bounds it. *)
Fixpoint cap_loop (fuel : nat) (streams : Streams) (maxStreams : Z) (evicted : Z) : Streams * Z :=
  match fuel with
  | O => (streams, evicted)
  | S fuel' =>
      if zlen streams <=? maxStreams then (streams, evicted)
      else match select_victim streams with
           | None => (streams, evicted)
           | Some v => cap_loop fuel' (qm_remove (fst v) streams) maxStreams (evicted + 1)
           end
  end.

Definition capStreamSummaries (streams : Streams) (maxStreams : Z) : Streams * Z :=
  if maxStreams <=? 0 then (streams, 0) else cap_loop (length streams) streams maxStreams 0.

Definition clampTelemetryField (s : qstr) (maxLen : Z) : qstr :=
  if (maxLen <? 0) || (zlen s <=? maxLen) then s else take (Z.to_nat maxLen) s.

(** ** h2_events.cpp *)

Record H2EventLog := mkLog { m_events : list H2Event; m_streams : Streams }.

Definition emptyLog : H2EventLog := mkLog [] [].

Definition streamKey (conn : qstr) (streamId : Z) : qstr := conn ++ lit "|" ++ number 10 streamId.

Definition capped (streams : Streams) : Streams := fst (capStreamSummaries streams kMaxStreams).

(** [m_streams\[k\]] inserts a default summary when the key is new. *)
Definition summary_at (k : qstr) (streams : Streams) : H2StreamSummary :=
  default defaultSummary (qm_get k streams).

Fixpoint drop_oldest (fuel : nat) (events : list H2Event) : list H2Event :=
  match fuel with
  | O => events
  | S fuel' => if kMaxEvents <? zlen events then drop_oldest fuel' (tail events) else events
  end.

Definition count_bytes (s : H2StreamSummary) (n : Z) (sent : bool) : H2StreamSummary :=
  if sent then
    mkSummary (ss_streamId s) (ss_conn s) (ss_method s) (ss_path s) (ss_status s) (ss_bytesIn s)
      (ss_bytesOut s + n) (ss_framesIn s) (ss_framesOut s + 1) (ss_lastError s) (ss_openedAtMs s) (ss_closed s)
  else
    mkSummary (ss_streamId s) (ss_conn s) (ss_method s) (ss_path s) (ss_status s) (ss_bytesIn s + n)
      (ss_bytesOut s) (ss_framesIn s + 1) (ss_framesOut s) (ss_lastError s) (ss_openedAtMs s) (ss_closed s).

Definition noteFrame (l : H2EventLog) (now : Z) (conn : qstr) (frameType flags streamId n : Z)
    (sent : bool) : H2EventLog :=
  let e := mkEvent now conn (u8 frameType) (u8 flags) streamId n 0 [] in
  let events := m_events l ++ [e] in
  let events := drop_oldest (length events) events in
  let streams :=
    if 0 <? streamId then
      let k := streamKey conn streamId in
      let s := default (mkSummary streamId conn [] [] 0 0 0 0 0 0 now false) (qm_get k (m_streams l)) in
      qm_insert k (count_bytes s n sent) (m_streams l)
    else m_streams l in
  mkLog events (capped streams).

Definition noteRequestHeader (l : H2EventLog) (now : Z) (conn : qstr) (streamId : Z)
    (method path : qstr) : H2EventLog :=
  let k := streamKey conn streamId in
  let s := summary_at k (m_streams l) in
  let s' := mkSummary streamId conn
    (clampTelemetryField method kMaxTelemetryFieldLen) (clampTelemetryField path kMaxTelemetryFieldLen)
    (ss_status s) (ss_bytesIn s) (ss_bytesOut s) (ss_framesIn s) (ss_framesOut s) (ss_lastError s)
    (if ss_openedAtMs s =? 0 then now else ss_openedAtMs s) (ss_closed s) in
  mkLog (m_events l) (capped (qm_insert k s' (m_streams l))).

Definition noteResponseStatus (l : H2EventLog) (conn : qstr) (streamId status : Z) : H2EventLog :=
  let k := streamKey conn streamId in
  let s := summary_at k (m_streams l) in
  let s' := mkSummary (ss_streamId s) (ss_conn s) (ss_method s) (ss_path s) status
    (ss_bytesIn s) (ss_bytesOut s) (ss_framesIn s) (ss_framesOut s) (ss_lastError s)
    (ss_openedAtMs s) (ss_closed s) in
  mkLog (m_events l) (capped (qm_insert k s' (m_streams l))).

Definition set_closed (s : H2StreamSummary) (err : option Z) : H2StreamSummary :=
  mkSummary (ss_streamId s) (ss_conn s) (ss_method s) (ss_path s) (ss_status s) (ss_bytesIn s)
    (ss_bytesOut s) (ss_framesIn s) (ss_framesOut s) (default (ss_lastError s) err)
    (ss_openedAtMs s) true.

Definition is_rst (conn : qstr) (streamId : Z) (e : H2Event) : bool :=
  (ev_frameType e =? 3) && (ev_streamId e =? streamId) && seq_eqb (ev_conn e) conn.

Definition stamp_error (errCode : Z) (e : H2Event) : H2Event :=
  mkEvent (ev_ts e) (ev_conn e) (ev_frameType e) (ev_flags e) (ev_streamId e) (ev_bytes e) errCode (ev_summary e).

(** The backward scan, on the reversed list. *)
Fixpoint stamp_first (f : H2Event -> bool) (errCode : Z) (events : list H2Event) : list H2Event :=
  match events with
  | [] => []
  | e :: es => if f e then stamp_error errCode e :: es else e :: stamp_first f errCode es
  end.

Definition noteRstStream (l : H2EventLog) (conn : qstr) (streamId errCode : Z) : H2EventLog :=
  let k := streamKey conn streamId in
  let streams := qm_insert k (set_closed (summary_at k (m_streams l)) (Some errCode)) (m_streams l) in
  mkLog (rev (stamp_first (is_rst conn streamId) errCode (rev (m_events l)))) (capped streams).

Definition noteStreamClosed (l : H2EventLog) (conn : qstr) (streamId : Z) : H2EventLog :=
  let k := streamKey conn streamId in
  mkLog (m_events l) (capped (qm_insert k (set_closed (summary_at k (m_streams l)) None) (m_streams l))).

Definition eventsSince (l : H2EventLog) (sinceTs : Z) : list H2Event :=
  List.filter (fun e => sinceTs <? ev_ts e) (m_events l).

Definition streams (l : H2EventLog) : list H2StreamSummary := map snd (m_streams l).

(** ** Executions *)

Inductive H2Call :=
| Frame (now : Z) (conn : qstr) (frameType flags streamId n : Z) (sent : bool)
| RequestHeader (now : Z) (conn : qstr) (streamId : Z) (method path : qstr)
| ResponseStatus (conn : qstr) (streamId status : Z)
| RstStream (conn : qstr) (streamId errCode : Z)
| StreamClosed (conn : qstr) (streamId : Z).

Definition note (l : H2EventLog) (c : H2Call) : H2EventLog :=
  match c with
  | Frame now conn ft fl sid n sent => noteFrame l now conn ft fl sid n sent
  | RequestHeader now conn sid m p => noteRequestHeader l now conn sid m p
  | ResponseStatus conn sid st => noteResponseStatus l conn sid st
  | RstStream conn sid err => noteRstStream l conn sid err
  | StreamClosed conn sid => noteStreamClosed l conn sid
  end.

Definition run_notes (cs : list H2Call) : H2EventLog := fold_left note cs emptyLog.

(** ** Eviction order *)

(** [evict_before a b]: [a] goes no later than [b]: a closed stream before an open
    one, and the older first among streams that are alike. *)
Definition evict_before (a b : H2StreamSummary) : Prop :=
  (ss_closed b = true -> ss_closed a = true) /\
  (ss_closed a = ss_closed b -> ss_openedAtMs a <= ss_openedAtMs b).

Lemma evict_before_refl a : evict_before a a.
Proof. split; [done|lia]. Qed.

Lemma evict_before_trans a b c : evict_before a b -> evict_before b c -> evict_before a c.
Proof.
  intros [H1 H2] [H3 H4]. split; [auto|]. intros E.
  destruct (ss_closed a), (ss_closed b), (ss_closed c); try done;
    try (specialize (H2 eq_refl); specialize (H4 eq_refl); lia); by (specialize (H1 eq_refl) || specialize (H3 eq_refl)).
Qed.

Lemma prefer_spec a b :
  (prefer a b = a \/ prefer a b = b) /\
  evict_before (snd (prefer a b)) (snd a) /\ evict_before (snd (prefer a b)) (snd b).
Proof.
  unfold prefer, evict_before.
  destruct (ss_closed (snd a)) eqn:Ea, (ss_closed (snd b)) eqn:Eb; cbn [andb negb Bool.eqb];
    try (case_if E; to_prop); rewrite ?Ea, ?Eb; repeat split; auto; intros; try done; lia.
Qed.

Lemma fold_prefer_spec es : forall e,
  In (fold_left prefer es e) (e :: es) /\
  forall x, In x (e :: es) -> evict_before (snd (fold_left prefer es e)) (snd x).
Proof.
  induction es as [|y es IH]; intros e; cbn [fold_left].
  - split; [by left|]. intros x [<-|[]]. apply evict_before_refl.
  - destruct (IH (prefer e y)) as [Hin Hmin]. destruct (prefer_spec e y) as (Hor & He & Hy). split.
    + destruct Hin as [Hin|Hin]; [|by right; right]. rewrite <- Hin. destruct Hor as [-> | ->]; [by left|by right; left].
    + intros x [<-|[<-|Hx]].
      * eapply evict_before_trans; [apply Hmin; by left|done].
      * eapply evict_before_trans; [apply Hmin; by left|done].
      * apply Hmin. by right.
Qed.

Lemma In_qm_remove k (m : Streams) e : qm_sorted m -> In e (qm_remove k m) <-> In e m /\ fst e <> k.
Proof.
  intros Hs. destruct e as [k' v]. rewrite <- (qm_get_In k' v) by by apply qm_remove_sorted.
  rewrite <- (qm_get_In k' v m) by done. cbn [fst]. destruct (decide (k' = k)) as [->|Hne].
  - rewrite qm_get_remove by done. naive_solver.
  - rewrite qm_get_remove_ne by done. naive_solver.
Qed.

Definition evicts (m m' : Streams) : Prop :=
  forall e x, In e m -> ~ In e m' -> In x m' -> evict_before (snd e) (snd x).

Lemma cap_loop_spec fuel : forall m max n,
  qm_sorted m -> 0 <= max -> zlen m <= Z.of_nat fuel + max ->
  let '(m', n') := cap_loop fuel m max n in
  qm_sorted m' /\ zlen m' = Z.min (zlen m) max /\ n' = n + (zlen m - zlen m') /\
  (forall e, In e m' -> In e m) /\ evicts m m'.
Proof.
  induction fuel as [|fuel IH]; intros m max n Hs Hm Hf; cbn [cap_loop].
  - split; [done|]. split; [lia|]. split; [lia|]. split; [done|]. by intros e x H1 H2.
  - destruct (zlen m <=? max) eqn:E; to_prop.
    { split; [done|]. split; [lia|]. split; [lia|]. split; [done|]. by intros e x H1 H2. }
    destruct m as [|e0 m0]; [rewrite zlen_nil in E; lia|]. cbn [select_victim].
    set (v := fold_left prefer m0 e0). set (m := e0 :: m0) in *.
    destruct (fold_prefer_spec m0 e0) as [Hin Hmin]. fold v m in Hin, Hmin.
    assert (Hg : qm_get (fst v) m = Some (snd v)) by (apply qm_get_In; [done|]; by rewrite <- surjective_pairing).
    pose proof (qm_remove_length _ _ _ Hg) as Hlen.
    assert (Hz : zlen (qm_remove (fst v) m) = zlen m - 1) by (unfold zlen; lia).
    specialize (IH (qm_remove (fst v) m) max (n + 1) ltac:(by apply qm_remove_sorted) Hm ltac:(lia)).
    destruct (cap_loop fuel _ max (n + 1)) as [m' n']. destruct IH as (H1 & H2 & H3 & H4 & H5).
    split; [done|]. split; [lia|]. split; [lia|]. split.
    + intros e He. apply H4, In_qm_remove in He; tauto.
    + intros e x He Hne Hx. destruct (decide (fst e = fst v)) as [Ek|Ek].
      * assert (e = v) as ->.
        { assert (Hge : qm_get (fst e) m = Some (snd e)) by (apply qm_get_In; [done|]; by rewrite <- surjective_pairing).
          rewrite Ek, Hg in Hge. injection Hge as Hge.
          by rewrite (surjective_pairing e), (surjective_pairing v), Ek, Hge. }
        apply Hmin. apply H4, In_qm_remove in Hx; tauto.
      * apply (H5 e x); [|done|done]. by apply In_qm_remove.
Qed.

Lemma capped_spec m :
  qm_sorted m -> zlen m <= kMaxStreams + 1 ->
  qm_sorted (capped m) /\ zlen (capped m) <= kMaxStreams /\ (forall e, In e (capped m) -> In e m).
Proof.
  intros Hs Hz. unfold capped, capStreamSummaries. change (kMaxStreams <=? 0) with false. cbv iota.
  pose proof (cap_loop_spec (length m) m kMaxStreams 0 Hs ltac:(unfold kMaxStreams; lia)
    ltac:(unfold zlen, kMaxStreams; lia)) as Hc.
  destruct (cap_loop _ _ _ _) as [m' n']. destruct Hc as (H1 & H2 & _ & H4 & _). cbn [fst].
  split; [done|]. split; [lia|done].
Qed.

(** ** Bounds *)

Definition short (s : H2StreamSummary) : Prop :=
  zlen (ss_method s) <= kMaxTelemetryFieldLen /\ zlen (ss_path s) <= kMaxTelemetryFieldLen.

Record log_ok (l : H2EventLog) : Prop := mkOk {
  ok_events : zlen (m_events l) <= kMaxEvents;
  ok_sorted : qm_sorted (m_streams l);
  ok_streams : zlen (m_streams l) <= kMaxStreams;
  ok_short : Forall (fun e => short (snd e)) (m_streams l)
}.

Lemma clamp_short s : zlen (clampTelemetryField s kMaxTelemetryFieldLen) <= kMaxTelemetryFieldLen.
Proof.
  unfold clampTelemetryField. change (kMaxTelemetryFieldLen <? 0) with false. cbn [orb].
  case_if E; to_prop; [done|]. unfold zlen. rewrite length_take. unfold kMaxTelemetryFieldLen. lia.
Qed.

Lemma drop_oldest_bound fuel : forall events,
  (length events <= fuel)%nat -> zlen (drop_oldest fuel events) <= kMaxEvents.
Proof.
  induction fuel as [|fuel IH]; intros events Hf; cbn [drop_oldest].
  - unfold zlen, kMaxEvents. lia.
  - case_if E; to_prop; [|done]. apply IH. destruct events; cbn in *; lia.
Qed.

Lemma short_get k l : Forall (fun e => short (snd e)) l -> short (summary_at k l).
Proof.
  unfold summary_at. intros Hf. destruct (qm_get k l) as [s|] eqn:E; [|by split].
  cbn. induction Hf as [|[k1 s1] l Hs _ IH]; cbn in *; [done|].
  destruct (str_ltb k1 k); [auto|]. destruct (str_ltb k k1); [done|]. by injection E as <-.
Qed.

Lemma short_insert k s (l : Streams) :
  short s -> Forall (fun e => short (snd e)) l -> Forall (fun e => short (snd e)) (qm_insert k s l).
Proof.
  intros Hs. induction 1 as [|[k1 s1] l H1 Hl IH]; cbn; [by constructor|].
  destruct (str_ltb k1 k); [by constructor|]. destruct (str_ltb k k1); [|by constructor].
  constructor; [done|by constructor].
Qed.

Lemma update_ok l ev k s :
  log_ok l -> zlen ev <= kMaxEvents -> short s -> log_ok (mkLog ev (capped (qm_insert k s (m_streams l)))).
Proof.
  intros [O1 O2 O3 O4] He Hs.
  destruct (capped_spec (qm_insert k s (m_streams l))) as (H1 & H2 & H3).
  - by apply qm_insert_sorted.
  - destruct (qm_insert_length k s (m_streams l)) as [Hl _]. unfold zlen in *. lia.
  - split; try done. cbn [m_streams]. apply List.Forall_forall. intros e He'. apply H3 in He'.
    pose proof (short_insert k s _ Hs O4) as Hf. rewrite List.Forall_forall in Hf. by apply Hf.
Qed.

Lemma stamp_first_length f err l : length (stamp_first f err l) = length l.
Proof. induction l as [|e l IH]; cbn; [done|]. destruct (f e); cbn; by rewrite ?IH. Qed.

Lemma note_ok l c : log_ok l -> log_ok (note l c).
Proof.
  intros Hl. pose proof Hl as [O1 O2 O3 O4].
  destruct c; cbn [note]; unfold noteRequestHeader, noteResponseStatus, noteRstStream, noteStreamClosed;
    try (apply update_ok; [done|done|]).
  - unfold noteFrame. cbv zeta. set (ev := drop_oldest _ _).
    assert (He : zlen ev <= kMaxEvents) by (unfold ev; by apply drop_oldest_bound). clearbody ev.
    destruct (0 <? streamId).
    + apply update_ok; [done..|]. set (k := streamKey conn streamId).
      pose proof (short_get k _ O4) as Hg. unfold summary_at in Hg.
      destruct (qm_get k (m_streams l)); cbn in Hg |- *; by destruct sent.
    + destruct (capped_spec (m_streams l) O2 ltac:(lia)) as (H1 & H2 & H3). split; try done.
      cbn [m_streams]. apply List.Forall_forall. intros e He'. rewrite List.Forall_forall in O4. by apply O4, H3.
  - split; apply clamp_short.
  - apply (short_get _ _ O4).
  - apply update_ok; [done| |apply (short_get _ _ O4)].
    unfold zlen. rewrite length_rev, stamp_first_length, length_rev. apply O1.
  - apply (short_get _ _ O4).
Qed.

(** Untrusted HTTP/2 traffic cannot pin memory: after any sequence of callbacks
    the log holds at most 5000 events and 4096 stream summaries, and no stored
    :method or :path is longer than 4096 units. *)
Theorem h2_telemetry_bounded cs :
  let l := run_notes cs in
  zlen (m_events l) <= kMaxEvents /\ zlen (m_streams l) <= kMaxStreams /\
  Forall (fun e => zlen (ss_method (snd e)) <= kMaxTelemetryFieldLen /\
                   zlen (ss_path (snd e)) <= kMaxTelemetryFieldLen) (m_streams l).
Proof.
  intros l. assert (Hl : log_ok l).
  { unfold l, run_notes. assert (H0 : log_ok emptyLog) by (by split). revert H0. generalize emptyLog.
    induction cs as [|c cs IH]; intros l0 H0; cbn [fold_left]; [done|]. by apply IH, note_ok. }
  by destruct Hl as [O1 _ O3 O4].
Qed.

(** Eviction sheds the right streams: it removes exactly the excess over the
    cap, keeps entries unchanged, reports the count, and every summary removed
    goes no later than every summary kept (closed streams first, then the
    oldest); a cap that is not positive removes nothing. *)
Theorem capStreamSummaries_correct m max :
  qm_sorted m ->
  let '(m', n) := capStreamSummaries m max in
  (max <= 0 -> m' = m /\ n = 0) /\
  (0 < max -> qm_sorted m' /\ zlen m' = Z.min (zlen m) max /\ n = zlen m - zlen m' /\
     (forall e, In e m' -> In e m) /\
     (forall e x, In e m -> ~ In e m' -> In x m' -> evict_before (snd e) (snd x))).
Proof.
  intros Hs. unfold capStreamSummaries. case_if E; to_prop; [split; [done|lia]|].
  pose proof (cap_loop_spec (length m) m max 0 Hs ltac:(lia) ltac:(unfold zlen; lia)) as Hc.
  destruct (cap_loop _ _ _ _) as [m' n]. split; [lia|]. intros _.
  destruct Hc as (H1 & H2 & H3 & H4 & H5). split; [done|]. split; [done|]. split; [lia|]. split; [done|exact H5].
Qed.

Definition ex_stream (age : Z) (closed : bool) : H2StreamSummary :=
  mkSummary 1 [] [] [] 0 0 0 0 0 0 age closed.

Lemma capStreamSummaries_correct_witness :
  let m := [(lit "a", ex_stream 1 false); (lit "b", ex_stream 9 true); (lit "c", ex_stream 5 false)] in
  capStreamSummaries m 2 = ([(lit "a", ex_stream 1 false); (lit "c", ex_stream 5 false)], 1) /\
  evict_before (ex_stream 9 true) (ex_stream 1 false).
Proof.
  intros m. split; [reflexivity|].
  refine (proj2 (proj2 (proj2 (proj2 (proj2 (capStreamSummaries_correct m 2 _) _))))
    (lit "b", ex_stream 9 true) (lit "a", ex_stream 1 false) _ _ _).
  - repeat constructor.
  - lia.
  - right. by left.
  - intros [Hc|[Hc|[]]]; discriminate.
  - by left.
Defined.
