(* ===== verification/H2Headers.v ===== *)
(** * HTTP/2 header translation: Src/BackEnd/Proxy/h2_client_logic.{hpp,cpp} and
    h2_server_logic.{hpp,cpp}

    [buildRequestHeaders] turns an HTTP/1 request into HTTP/2 header fields for
    the origin, [parseRequestHeaders] takes the fields of a browser's HTTP/2
    request apart, [responseHeaders] builds the fields of the response; the
    rest are the small decisions of the client's pump. *)

From S2P Require Import Prelude Qt QtSample.

Local Open Scope Z_scope.

Section H2Headers.
Context `{QtText}.

(** ** h2_client_logic.cpp *)

Definition isHopByHopHeader (lowerName : qstr) : bool :=
  seq_eqb lowerName (lit "host") || seq_eqb lowerName (lit "connection")
  || seq_eqb lowerName (lit "proxy-connection") || seq_eqb lowerName (lit "transfer-encoding")
  || seq_eqb lowerName (lit "upgrade") || seq_eqb lowerName (lit "keep-alive")
  || seq_eqb lowerName (lit "te").

(** The set, as the list of its insertions. *)
Definition connection_tokens (v : qstr) : list qstr :=
  List.filter (fun t => negb (is_nil t)) (map (fun tok => u_lower (u_trimmed tok)) (split_skip 44 v)).

Definition connectionNamedHeaders (headers : list (qstr * qstr)) : list qstr :=
  flat_map (fun kv => if u_cieq (fst kv) (lit "connection") then connection_tokens (snd kv) else []) headers.

Definition set_contains (named : list qstr) (n : qstr) : bool := existsb (seq_eqb n) named.

Record HeaderNV := mkNV { nv_name : bytes; nv_value : bytes }.

Definition request_field (connNamed : list qstr) (kv : qstr * qstr) : list HeaderNV :=
  if is_nil (fst kv) then []
  else
    let lower := u_lower (fst kv) in
    if isHopByHopHeader lower then []
    else if set_contains connNamed lower then []
    else [mkNV (u_toutf8 lower) (u_toutf8 (snd kv))].

Definition buildRequestHeaders (method authority path : qstr) (headers : list (qstr * qstr))
    : list HeaderNV :=
  let m := u_toutf8 (if is_nil method then lit "GET" else method) in
  let p := u_toutf8 (if is_nil path then lit "/" else path) in
  [mkNV (lit ":method") m; mkNV (lit ":scheme") (lit "https");
   mkNV (lit ":authority") (u_toutf8 authority); mkNV (lit ":path") p]
  ++ flat_map (request_field (connectionNamedHeaders headers)) headers.

Definition reasonFor (status : Z) : qstr :=
  if status =? 200 then lit "OK" else if status =? 201 then lit "Created"
  else if status =? 204 then lit "No Content" else if status =? 301 then lit "Moved Permanently"
  else if status =? 302 then lit "Found" else if status =? 304 then lit "Not Modified"
  else if status =? 307 then lit "Temporary Redirect" else if status =? 308 then lit "Permanent Redirect"
  else if status =? 400 then lit "Bad Request" else if status =? 401 then lit "Unauthorized"
  else if status =? 403 then lit "Forbidden" else if status =? 404 then lit "Not Found"
  else if status =? 408 then lit "Request Timeout" else if status =? 429 then lit "Too Many Requests"
  else if status =? 500 then lit "Internal Server Error" else if status =? 502 then lit "Bad Gateway"
  else if status =? 503 then lit "Service Unavailable" else if status =? 504 then lit "Gateway Timeout"
  else if (200 <=? status) && (status <? 300) then lit "OK"
  else if (300 <=? status) && (status <? 400) then lit "Redirect"
  else if (400 <=? status) && (status <? 500) then lit "Client Error"
  else if (500 <=? status) && (status <? 600) then lit "Server Error"
  else lit "Unknown".

Definition shouldRejectSubmit (currentOpen cap : Z) : bool := cap <=? currentOpen.
Definition bodyOverBudget (accumulated cap : Z) : bool := cap <? accumulated.

Inductive PumpAction := WriteThenRead | ReadOnly | Done | PumpFatal.
Definition nextPumpAction (openStreams : Z) (wrotePending fatal : bool) : PumpAction :=
  if fatal then PumpFatal else if openStreams <=? 0 then Done
  else if wrotePending then WriteThenRead else ReadOnly.

Inductive AssembleOutcome := Success | Fatal | StreamError | NoStatus.
Definition assembleOutcome (done : bool) (statusCode : Z) (hadError fatal : bool) : AssembleOutcome :=
  if done && negb (statusCode =? 0) && negb hadError then Success
  else if fatal then Fatal else if hadError then StreamError
  else if statusCode =? 0 then NoStatus else Success.

(** ** h2_server_logic.cpp *)

Record H2ReqFields := mkReqFields {
  f_method : qstr; f_scheme : qstr; f_authority : qstr; f_path : qstr;
  f_headers : list (qstr * qstr); f_valid : bool
}.

Definition take_field (f : H2ReqFields) (kv : qstr * qstr) : H2ReqFields :=
  let '(n, v) := kv in
  if seq_eqb n (lit ":method") then mkReqFields v (f_scheme f) (f_authority f) (f_path f) (f_headers f) (f_valid f)
  else if seq_eqb n (lit ":scheme") then mkReqFields (f_method f) v (f_authority f) (f_path f) (f_headers f) (f_valid f)
  else if seq_eqb n (lit ":authority") then mkReqFields (f_method f) (f_scheme f) v (f_path f) (f_headers f) (f_valid f)
  else if seq_eqb n (lit ":path") then mkReqFields (f_method f) (f_scheme f) (f_authority f) v (f_headers f) (f_valid f)
  else if negb (starts_with_chr 58 n)
  then mkReqFields (f_method f) (f_scheme f) (f_authority f) (f_path f) (f_headers f ++ [kv]) (f_valid f)
  else f.

Definition parseRequestHeaders (h2headers : list (qstr * qstr)) : H2ReqFields :=
  let f := fold_left take_field h2headers (mkReqFields [] [] [] [] [] false) in
  mkReqFields (f_method f) (f_scheme f) (f_authority f) (f_path f) (f_headers f)
    (negb (is_nil (f_method f)) && negb (is_nil (f_path f))).

Definition response_field (connNamed : list qstr) (kv : qstr * qstr) : list HeaderNV :=
  if is_nil (fst kv) then []
  else
    let lower := u_lower (fst kv) in
    if isHopByHopHeader lower then []
    else if set_contains connNamed lower then []
    else if seq_eqb lower (lit "content-length") then []
    else [mkNV (u_toutf8 lower) (u_toutf8 (snd kv))].

Definition responseHeaders (status : Z) (headers : list (qstr * qstr)) : list HeaderNV :=
  mkNV (lit ":status") (number 10 status)
  :: flat_map (response_field (connectionNamedHeaders headers)) headers.
End H2Headers.

(** ** Translating there and back *)

Section H2Spec.
Context `{QtTextLaws}.

Definition ascii_header (kv : qstr * qstr) : Prop :=
  all_ascii (fst kv) = true /\ all_ascii (snd kv) = true /\ starts_with_chr 58 (fst kv) = false.

(** The fields a request keeps, with their lower-case names. *)
Definition kept_field (headers : list (qstr * qstr)) (kv : qstr * qstr) : bool :=
  negb (is_nil (fst kv)) && negb (isHopByHopHeader (b_lower (fst kv)))
  && negb (set_contains (connectionNamedHeaders headers) (b_lower (fst kv))).

Definition lowered (kv : qstr * qstr) : qstr * qstr := (b_lower (fst kv), snd kv).

Definition received (nv : HeaderNV) : qstr * qstr := (u_fromutf8 (nv_name nv), u_fromutf8 (nv_value nv)).

Lemma utf8_ascii s : all_ascii s = true -> u_fromutf8 (u_toutf8 s) = s.
Proof. intros Hs. by rewrite law_toutf8_ascii, law_fromutf8_ascii. Qed.

Lemma ascii_lower s : all_ascii s = true -> all_ascii (b_lower s) = true.
Proof.
  unfold all_ascii, b_lower. rewrite !forallb_forall. intros Hs x Hx. apply in_map_iff in Hx as (y & <- & Hy).
  specialize (Hs y Hy). unfold is_ascii, ascii_lower1 in *. split_bools; to_prop.
  case_if E; split_bools; to_prop; join_bools; apply Z.leb_le || apply Z.ltb_lt; lia.
Qed.

Lemma lower_colon s : starts_with_chr 58 (b_lower s) = starts_with_chr 58 s.
Proof.
  destruct s as [|x s]; [done|]. cbn [b_lower map starts_with_chr]. unfold ascii_lower1.
  case_if E; [|done]. split_bools; to_prop. by zdecides.
Qed.

Lemma fields_received named hs :
  Forall ascii_header hs ->
  map received (flat_map (request_field named) hs)
  = map lowered (List.filter (fun kv => negb (is_nil (fst kv)) && negb (isHopByHopHeader (b_lower (fst kv)))
                                         && negb (set_contains named (b_lower (fst kv)))) hs).
Proof.
  induction 1 as [|kv hs (Hn & Hv & _) _ IH]; [done|]. cbn [flat_map List.filter].
  rewrite map_app, IH. unfold request_field. rewrite law_lower_ascii by done. fold (b_lower (fst kv)).
  destruct (is_nil (fst kv)); [done|]. destruct (isHopByHopHeader _); [done|].
  destruct (set_contains _ _); [done|]. cbn [map app negb andb]. unfold received. cbn [nv_name nv_value].
  by rewrite !utf8_ascii by (try apply ascii_lower; done).
Qed.

Lemma take_regular hs : forall f,
  Forall (fun kv => starts_with_chr 58 (fst kv) = false) hs ->
  fold_left take_field hs f
  = mkReqFields (f_method f) (f_scheme f) (f_authority f) (f_path f) (f_headers f ++ hs) (f_valid f).
Proof.
  induction hs as [|[n v] hs IH]; intros f Hf; cbn [fold_left].
  - rewrite app_nil_r. by destruct f.
  - apply Forall_cons in Hf as [Hn Hf]. cbn [fst] in Hn. rewrite IH by done. clear IH.
    assert (Hne : forall c p, seq_eqb n (58 :: c :: p) = false).
    { intros c p. destruct (seq_eqb n (58 :: c :: p)) eqn:E; [|done]. apply seq_eqb_eq in E. by rewrite E in Hn. }
    unfold take_field. change (lit ":method") with (58 :: 109 :: tail (tail (lit ":method"))).
    change (lit ":scheme") with (58 :: 115 :: tail (tail (lit ":scheme"))).
    change (lit ":authority") with (58 :: 97 :: tail (tail (lit ":authority"))).
    change (lit ":path") with (58 :: 112 :: tail (tail (lit ":path"))).
    rewrite !Hne, Hn. cbn [negb f_method f_scheme f_authority f_path f_headers f_valid].
    by rewrite <- app_assoc.
Qed.

Lemma take_pseudo m a p :
  take_field (take_field (take_field (take_field (mkReqFields [] [] [] [] [] false)
    (lit ":method", m)) (lit ":scheme", lit "https")) (lit ":authority", a)) (lit ":path", p)
  = mkReqFields m (lit "https") a p [] false.
Proof. reflexivity. Qed.

Lemma lowered_no_colon hs (p : qstr * qstr -> bool) :
  Forall ascii_header hs -> Forall (fun kv => starts_with_chr 58 (fst kv) = false) (map lowered (List.filter p hs)).
Proof.
  intros Hf. apply List.Forall_forall. intros kv Hin. apply in_map_iff in Hin as (kv0 & <- & Hin).
  apply filter_In in Hin as [Hin _]. rewrite List.Forall_forall in Hf. destruct (Hf _ Hin) as (_ & _ & Hc).
  cbn [lowered fst]. by rewrite lower_colon.
Qed.
End H2Spec.

(** From HTTP/1 to HTTP/2 and back: for any ASCII request, what the server side
    parses out of the fields the client side built is the same method,
    authority and path, marked valid, and exactly the request's fields in order
    with lower-case names, minus the hop-by-hop ones and those a Connection
    field names; none of those is left for the next hop. *)
Theorem h2_request_roundtrip `{QtTextLaws} method authority path headers :
  all_ascii method = true -> all_ascii authority = true -> all_ascii path = true ->
  method <> [] -> path <> [] -> Forall ascii_header headers ->
  let f := parseRequestHeaders (map received (buildRequestHeaders method authority path headers)) in
  f = mkReqFields method (lit "https") authority path
        (map lowered (List.filter (kept_field headers) headers)) true /\
  (forall n v, In (n, v) (f_headers f) ->
     isHopByHopHeader n = false /\ set_contains (connectionNamedHeaders headers) n = false).
Proof.
  intros Hm Ha Hp Hmn Hpn Hh f.
  assert (Ef : f = mkReqFields method (lit "https") authority path
        (map lowered (List.filter (kept_field headers) headers)) true).
  { unfold f, parseRequestHeaders, buildRequestHeaders. rewrite map_app, fold_left_app.
    rewrite fields_received by done. fold (kept_field headers).
    assert (is_nil method = false /\ is_nil path = false) as [-> ->] by (by destruct method, path).
    cbn [map fold_left]. unfold received. cbn [nv_name nv_value]. rewrite !utf8_ascii by done.
    rewrite !law_fromutf8_ascii by done. rewrite take_pseudo.
    rewrite take_regular by (by apply lowered_no_colon). cbn [f_method f_path f_headers f_scheme f_authority f_valid app].
    by destruct method, path. }
  split; [done|]. rewrite Ef. cbn [f_headers]. intros n v Hin.
  apply in_map_iff in Hin as (kv & E & Hin). apply filter_In in Hin as [_ Hk]. unfold kept_field in Hk.
  injection E as <- <-. by split_bools.
Qed.

Lemma h2_request_roundtrip_witness :
  let QT := asciiText in
  parseRequestHeaders (map received (buildRequestHeaders (lit "POST") (lit "h:8443") (lit "/a?b")
    [(lit "Connection", lit "X-Hop, close"); (lit "X-Hop", lit "1"); (lit "TE", lit "trailers"); (lit "X-Keep", lit "2")]))
  = mkReqFields (lit "POST") (lit "https") (lit "h:8443") (lit "/a?b") [(lit "x-keep", lit "2")] true.
Proof.
  intros QT.
  refine (eq_trans (proj1 (h2_request_roundtrip (Q := asciiText) (lit "POST") (lit "h:8443") (lit "/a?b")
    [(lit "Connection", lit "X-Hop, close"); (lit "X-Hop", lit "1"); (lit "TE", lit "trailers"); (lit "X-Keep", lit "2")]
    eq_refl eq_refl eq_refl _ _ _)) _); [discriminate..| |reflexivity].
  repeat constructor.
Defined.
