(* ===== verification/ProxyConnection.v ===== *)
(** * A proxied connection: the class Connection of Src/BackEnd/Proxy/proxy_server.cpp

    [run] reads a request, forwards it, and tunnels CONNECTs; inside an
    intercepted tunnel one of three loops carries the exchanges (HTTP/1.1 both
    ways, HTTP/1.1 to HTTP/2, and a terminated HTTP/2 browser).  The model is
    the trace of what the worker does: signals, bytes written, closes.  The
    program is a writer with early exit ([M]); what the worker meets (segments
    that arrive, outcomes of waits, settings read, the operator's verdicts,
    extensions, results of H2Client) is the argument [Exchange], one per
    iteration, so that a run is a function of it.  The parsers, serializers,
    rules, sessions, and the interception logic are those of the other files;
    a WebSocket relay continues in WsRelay.v, and ConnectionSpec.v proves what
    a connection guarantees. *)

From S2P Require Import Prelude Qt QtSample Json Zlib HttpFraming InterceptLogic InterceptController.
From S2P Require Import ScopeLogic ProxyPolicy SessionManager Placeholders ChainRunner SessionRules H2Headers.

Local Open Scope Z_scope.

(** [QUrl::fromUserInput]: [None] when invalid; components are fully encoded. *)
Record UserUrl := mkUserUrl { uu_host : qstr; uu_port : option Z; uu_path : qstr; uu_query : option qstr }.
Class QtUserInput := { url_fromUserInput : qstr -> option UserUrl }.

(** ** Effects *)

Inductive FailReason :=
| MalformedRequest | ConnectFailed | WriteFailed | MalformedResponse
| MalformedConnectTarget | TunnelConnectFailed | TunnelAckFailed
| MitmAckFailed | LeafUnparsable | ClientHandshakeFailed | UpstreamHandshakeFailed
| UnexpectedAlpn | ResponseWriteFailed | H2Failed.

Inductive Event :=
| Received (req : HttpRequest)                        (* requestReceived *)
| Responded (req : HttpRequest) (resp : HttpResponse) (* responseReceived *)
| Filtered                                            (* noteFiltered *)
| ToUpstream (b : bytes)
| ToUpstreamH2 (req : HttpRequest)                    (* H2Client::send *)
| ToClient (b : bytes)
| StreamAnswered (resp : HttpResponse) | StreamReset  (* what the terminator is told *)
| Acked                                               (* 200 Connection Established *)
| BadGateway
| Blocked (host : qstr)                               (* markMitmBlocked *)
| CertAccepted (hostPort : qstr)                      (* recordAcceptedInvalidCert *)
| H2Upstream                                          (* noteH2Upstream *)
| RelayToUpstream (b : bytes) | RelayToClient (b : bytes)
| EnterRelay | EnterWebSocket (host : qstr) (port : Z)
| Failed (why : FailReason) | CloseClient | CloseUpstream.

(** What the function did, and its result unless it returned from [run]. *)
Definition M (A : Type) : Type := list Event * option A.
Definition ret {A} (a : A) : M A := ([], Some a).
Definition bind {A B} (m : M A) (f : A -> M B) : M B :=
  match snd m with
  | None => (fst m, None)
  | Some a => (fst m ++ fst (f a), snd (f a))
  end.
Definition emit (e : Event) : M unit := ([e], Some tt).
Definition halt {A} : M A := ([], None).

Declare Scope conn_scope.
Delimit Scope conn_scope with conn.
Notation "'let*' x := m 'in' k" := (bind m (fun x => k)) (at level 200, x name, m at level 100, right associativity) : conn_scope.
Notation "m ;; k" := (bind m (fun _ => k)) (at level 100, right associativity) : conn_scope.
Local Open Scope conn_scope.

Definition fail {A} (why : FailReason) : M A := emit (Failed why);; emit CloseClient;; halt.
Definition closeClient {A} : M A := emit CloseClient;; halt.

(** ** What a worker meets *)

Section Connection.
Context `{Q : QtText, RX : QtRegex, RR : QtReplace, J : QtJson, CP : QtCapture, U : QtUrl, D : QtDate, ZL : Zlib, UI : QtUserInput}.
Variable maxOut : Z.                                  (* the decoder's output cap *)

Record Extensions := mkExt {
  ext_request : HttpRequest -> HttpRequest;
  ext_response : HttpRequest -> HttpResponse -> HttpResponse
}.

(** The server as one half of an exchange reads it. *)
Record Server := mkServer {
  sv_policy : Policy;
  sv_jar : option (Jar * Z);                          (* session manager, its clock *)
  sv_session : option State;                          (* session rules *)
  sv_extensions : option Extensions;
  sv_intercept : option Controller;
  sv_logOutOfScope : bool
}.

(** How a held message is released: the toggles when the worker resumes, the
    decision, the text the operator left and the hold flag. *)
Record Verdict := mkVerdict {
  vd_controller : Controller; vd_decision : Z; vd_text : option qstr; vd_hold : bool
}.

(** H2Client::Result. *)
Record H2Result := mkH2Result { h2_ok : bool; h2_connectionFailed : bool; h2_response : HttpResponse }.

(** A raw relay: what is buffered at its start, whether its loop is entered,
    and the reads it dispatches ([true]: from the client). *)
Record RelayInput := mkRelayInput {
  ri_client : bytes; ri_upstream : bytes; ri_enter : bool; ri_reads : list (bool * bytes)
}.

(** One exchange: the segments that arrive during it (a wait fails when they
    run out), the server before and after the origin's answer, and the
    outcomes of its waits. *)
Record Exchange := mkExchange {
  x_client : list bytes; x_upstream : list bytes;
  x_request : Server; x_response : Server;
  x_verdict : Verdict; x_respVerdict : Verdict;
  x_upstreamWritten : bool; x_clientWritten : bool;
  x_h2 : H2Result; x_relay : RelayInput
}.

(** ** Requests *)

Definition toUShort (s : qstr) : Z :=
  match u_tolonglong 10 s with
  | Some v => if (0 <=? v) && (v <=? 65535) then v else 0
  | None => 0
  end.

Definition rewriteHostPort (req : HttpRequest) : HttpRequest :=
  let byHost :=
    let hostHeader := findHeader (rq_headers req) (lit "Host") in
    let '(host, port) :=
      match index_of 58 hostHeader with
      | Some colon => (take colon hostHeader, toUShort (drop (colon + 1) hostHeader))
      | None => (hostHeader, 80)
      end in
    with_path (rq_target req) (with_origin host port (rq_tls req) req) in
  match url_fromUserInput (rq_target req) with
  | Some url =>
      if is_nil (uu_host url) then byHost
      else
        let path := uu_path url ++ match uu_query url with Some q => lit "?" ++ q | None => [] end in
        with_path (if is_nil path then lit "/" else path)
          (with_origin (uu_host url) (default 80 (uu_port url) mod 2 ^ 16) (rq_tls req) req)
  | None => byHost
  end.

Definition extRequest (sv : Server) (req : HttpRequest) : HttpRequest :=
  match sv_extensions sv with Some e => ext_request e req | None => req end.
Definition extResponse (sv : Server) (req : HttpRequest) (resp : HttpResponse) : HttpResponse :=
  match sv_extensions sv with Some e => ext_response e req resp | None => resp end.

Definition urlInScope_ (sv : Server) (req : HttpRequest) : bool :=
  isUrlInScope (sv_policy sv) (rq_tls req) (rq_host req) (rq_port req) (rq_path req).

(** The scope gate covers the rules, the cookie jar and the session rules. *)
Definition applyRequestRules (sv : Server) (req : HttpRequest) : HttpRequest :=
  if negb (urlInScope_ sv req) then req
  else
    let req1 := fst (matchReplaceRequest (sv_policy sv) req) in
    let req2 := match sv_jar sv with Some (jar, now) => injectInto jar now req1 | None => req1 end in
    match sv_session sv with Some s => fst (applyToRequest s req2 1) | None => req2 end.

Definition responseRules (sv : Server) (req : HttpRequest) (resp : HttpResponse) : HttpResponse :=
  fst (applyResponseRules (sv_policy sv) req resp).

(** ** Interception *)

Definition passed (b : bytes) : InterceptResult := mkResult false b false.

(** [pendImpl] from the post to its return. *)
Definition pendImpl (ic : Controller) (v : Verdict) (data : bytes) (host : qstr) (port : Z) (tls : bool)
    (kind : Kind) (forceHold : bool) : InterceptResult :=
  pendImpl_result (vd_controller v)
    (resolve (vd_decision v) (vd_text v) (vd_hold v)
       (mkPending (m_nextId ic) kind (u_fromutf8 data) host port tls data 0 0 false forceHold)).

Definition pend (ic : Controller) (v : Verdict) (data : bytes) (host : qstr) (port : Z) (tls : bool) : InterceptResult :=
  if pend_holds ic data host then pendImpl ic v data host port tls KRequest false else passed data.

Definition pendResponse (ic : Controller) (v : Verdict) (data : bytes) (host : qstr) (port : Z) (tls forceHold : bool)
    : InterceptResult :=
  if pendResponse_holds ic data host forceHold then pendImpl ic v data host port tls KResponse forceHold else passed data.

(** [if (ic && inScope) ic->pend(...)]. *)
Definition gateRequest (sv : Server) (v : Verdict) (inScope : bool) (data : bytes) (host : qstr) (port : Z) (tls : bool)
    : InterceptResult :=
  match sv_intercept sv with
  | Some ic => if inScope then pend ic v data host port tls else passed data
  | None => passed data
  end.

Definition resolveResponseForClient (sv : Server) (v : Verdict) (resp : HttpResponse) (host : qstr) (port : Z)
    (tls inScope forceHold : bool) : InterceptResult :=
  let data := serializeResponse resp in
  match sv_intercept sv with
  | Some ic =>
      if inScope && (m_enabledResponses ic || forceHold) then pendResponse ic v data host port tls forceHold
      else passed data
  | None => passed data
  end.

(** ** Relays *)

Definition nonempty_event (f : bytes -> Event) (b : bytes) : list Event := if is_nil b then [] else [f b].

Definition relay_events (r : RelayInput) : list Event :=
  nonempty_event RelayToUpstream (ri_client r) ++ nonempty_event RelayToClient (ri_upstream r)
  ++ (if ri_enter r
      then map (fun d : bool * bytes => if fst d then RelayToUpstream (snd d) else RelayToClient (snd d)) (ri_reads r)
      else []).

Definition runRawRelay {A} (c u : list bytes) (r : RelayInput) : M A :=
  emit EnterRelay;;
  (relay_events (mkRelayInput (concat c ++ ri_client r) (concat u ++ ri_upstream r) (ri_enter r) (ri_reads r)), None).

Definition isWebSocketUpgrade (req : HttpRequest) : bool :=
  u_cieq (findHeader (rq_headers req) (lit "Upgrade")) (lit "websocket").

(** ** The HTTP/1.1 keep-alive loop of an intercepted tunnel *)

Inductive Step_ := Again (c u : list bytes) | Break.

(** The origin of a request read inside a tunnel. *)
Definition tunnelled (host : qstr) (port : Z) (req : HttpRequest) : HttpRequest :=
  let path := rq_path req in
  with_path (if is_nil path || negb (starts_with_chr 47 path) then 47 :: path else path)
    (with_origin host port true req).

Definition wants (name : qstr) (headers : list (qstr * qstr)) (v : qstr) : bool := u_cieq (findHeader headers name) v.

(** Does the loop stop after this exchange? *)
Definition wantsClose (req : HttpRequest) (resp : HttpResponse) : bool :=
  let conn := lit "Connection" in
  let http10 := u_cieq (rq_httpVersion req) (lit "HTTP/1.0") || u_cieq (rs_httpVersion resp) (lit "HTTP/1.0") in
  let http10KeepAlive := wants conn (rq_headers req) (lit "keep-alive") && wants conn (rs_headers resp) (lit "keep-alive") in
  wants conn (rq_headers req) (lit "close") || wants conn (rs_headers resp) (lit "close") || (http10 && negb http10KeepAlive).

(** The request as it is sent, and the verdict on its bytes. *)
Definition outgoing (sv : Server) (req : HttpRequest) : HttpRequest := applyRequestRules sv (extRequest sv req).
Definition sending (x : Exchange) (inScope : bool) (req : HttpRequest) (host : qstr) (port : Z) (tls : bool) : InterceptResult :=
  gateRequest (x_request x) (x_verdict x) inScope (serializeRequestForOrigin req) host port tls.

(** The response as it is recorded, and the verdict on its bytes. *)
Definition incoming (sv : Server) (req : HttpRequest) (resp : HttpResponse) : HttpResponse :=
  responseRules sv req (extResponse sv req resp).
Definition delivering (x : Exchange) (inScope : bool) (resp : HttpResponse) (host : qstr) (port : Z) (tls hold : bool) : InterceptResult :=
  resolveResponseForClient (x_response x) (x_respVerdict x) resp host port tls inScope hold.

Definition h1Exchange (host : qstr) (port : Z) (c u : list bytes) (x : Exchange) : M Step_ :=
  match readRequestFrom (c ++ x_client x) with
  | None => ret Break
  | Some (read, c1) =>
      let req0 := tunnelled host port read in
      emit (Received req0);;
      let req := outgoing (x_request x) req0 in
      let ir := sending x true req host port true in
      if ir_dropped ir then closeClient
      else
        emit (ToUpstream (ir_bytes ir));;
        if negb (x_upstreamWritten x) then fail WriteFailed
        else match readResponse maxOut (u ++ x_upstream x) with
             | None => fail MalformedResponse
             | Some (resp0, u1) =>
                 let resp := incoming (x_response x) req resp0 in
                 emit (Responded req resp);;
                 if rs_statusCode resp =? 101 then
                   emit (ToClient (serializeUpgradeResponse resp));;
                   if isWebSocketUpgrade req then emit (EnterWebSocket host port);; halt
                   else runRawRelay c1 u1 (x_relay x)
                 else
                   let out := delivering x true resp host port true (ir_holdResponse ir) in
                   if ir_dropped out then closeClient
                   else
                     emit (ToClient (ir_bytes out));;
                     if negb (x_clientWritten x) then fail ResponseWriteFailed
                     else ret (if wantsClose req resp then Break else Again c1 u1)
             end
  end.

(** The loop's condition holds for as many iterations as there are exchanges. *)
Fixpoint h1Loop (host : qstr) (port : Z) (c u : list bytes) (xs : list Exchange) : M unit :=
  match xs with
  | [] => ret tt
  | x :: xs' =>
      let* st := h1Exchange host port c u x in
      match st with
      | Break => ret tt
      | Again c1 u1 => h1Loop host port c1 u1 xs'
      end
  end.

(** ** The HTTP/2 origin behind an HTTP/1.1 browser *)

Definition h2Exchange (host : qstr) (port : Z) (served : bool) (c : list bytes) (x : Exchange) : M (option (list bytes)) :=
  match readRequestFrom (c ++ x_client x) with
  | None => ret None
  | Some (read, c1) =>
      let req0 := tunnelled host port read in
      emit (Received req0);;
      let req := outgoing (x_request x) req0 in
      let ir := sending x true req host port true in
      if ir_dropped ir then closeClient
      else
        emit (ToUpstreamH2 req);;
        if negb (h2_ok (x_h2 x)) then
          if negb served && h2_connectionFailed (x_h2 x) then emit (Blocked host);; fail H2Failed
          else ret None
        else
          let resp := incoming (x_response x) req (h2_response (x_h2 x)) in
          emit (Responded req resp);;
          let out := delivering x true resp host port true (ir_holdResponse ir) in
          if ir_dropped out then closeClient
          else
            emit (ToClient (ir_bytes out));;
            if negb (x_clientWritten x) then fail ResponseWriteFailed
            else ret (if wants (lit "Connection") (rq_headers req) (lit "close") then None else Some c1)
  end.

Fixpoint h2Loop (host : qstr) (port : Z) (served : bool) (c : list bytes) (xs : list Exchange) : M unit :=
  match xs with
  | [] => ret tt
  | x :: xs' =>
      let* next := h2Exchange host port served c x in
      match next with
      | None => ret tt
      | Some c1 => h2Loop host port true c1 xs'
      end
  end.

(** ** The terminated HTTP/2 browser *)

(** A stream the terminator completed, and what its callback meets. *)
Record Stream := mkStream {
  s_headers : list (qstr * qstr); s_body : bytes; s_upstreamConnected : bool; s_exchange : Exchange
}.

Inductive UpstreamOutcome := UOk (resp : HttpResponse) | RejectStream | TunnelDead.

Definition streamRequest (host : qstr) (port : Z) (f : H2ReqFields) (body : bytes) : HttpRequest :=
  mkRequest (f_method f) [] [] host port true
    (if starts_with_chr 47 (f_path f) then f_path f else 47 :: f_path f) (f_headers f) body.

(** The callback: its outcome, the new [served] flag and the unread segments. *)
Definition onStream (host : qstr) (port : Z) (upstreamIsH2 served : bool) (u : list bytes) (s : Stream)
    : M (UpstreamOutcome * bool * list bytes) :=
  let x := s_exchange s in
  let f := parseRequestHeaders (s_headers s) in
  if negb (f_valid f) then ret (RejectStream, served, u)
  else
    let req0 := streamRequest host port f (s_body s) in
    emit (Received req0);;
    let req := outgoing (x_request x) req0 in
    if ir_dropped (sending x true req host port true) then ret (RejectStream, served, u)
    else
      let answer resp0 u1 :=
        let resp := incoming (x_response x) req resp0 in
        emit (Responded req resp);; ret (UOk resp, true, u1) in
      if upstreamIsH2 : bool then
        emit (ToUpstreamH2 req);;
        if negb (h2_ok (x_h2 x)) then
          if h2_connectionFailed (x_h2 x) then
            if negb served then emit (Blocked host);; ret (TunnelDead, served, u) else ret (TunnelDead, served, u)
          else ret (RejectStream, served, u)
        else answer (h2_response (x_h2 x)) u
      else if negb (s_upstreamConnected s) then ret (TunnelDead, served, u)
      else
        emit (ToUpstream (serializeRequestForOrigin req));;
        if negb (x_upstreamWritten x) then ret (TunnelDead, served, u)
        else match readResponse maxOut (u ++ x_upstream x) with
             | None => ret (TunnelDead, served, u)
             | Some (resp0, u1) => answer resp0 u1
             end.

(** The terminator calls back for one stream after the other and stops on
    [TunnelDead]. *)
Fixpoint terminatorLoop (host : qstr) (port : Z) (upstreamIsH2 served : bool) (u : list bytes) (ss : list Stream) : M unit :=
  match ss with
  | [] => ret tt
  | s :: ss' =>
      let* st := onStream host port upstreamIsH2 served u s in
      let '(outcome, served1, u1) := st in
      match outcome with
      | TunnelDead => ret tt
      | RejectStream => emit StreamReset;; terminatorLoop host port upstreamIsH2 served1 u1 ss'
      | UOk resp => emit (StreamAnswered resp);; terminatorLoop host port upstreamIsH2 served1 u1 ss'
      end
  end.

(** ** Tunnels *)

(** What [runTunnel] meets: its settings, the leaf certificate (whether it
    parses; [None]: no valid leaf), and the outcomes of the two handshakes. *)
Record Tunnel := mkTunnel {
  t_server : Server; t_blocked : gset qstr; t_caReady : bool; t_leaf : qstr -> option bool;
  t_ackWritten : bool; t_connected : bool; t_relay : RelayInput;
  t_clientEncrypted : bool; t_h2Termination : bool; t_browserAlpn : bytes;
  t_reached : bool; t_certErrors : list SslError; t_alpn : bytes;
  t_exchanges : list Exchange; t_streams : list Stream; t_upstreamOpen : bool
}.

Definition ignoredErrors (t : Tunnel) (hostPort : qstr) : list SslError :=
  sslErrors_handler (isAcceptInvalidHost (sv_policy (t_server t)) hostPort) (t_certErrors t).

#[export] Instance SslError_eq_dec : EqDecision SslError.
Proof. solve_decision. Defined.

(** Qt completes the handshake when every reported error was ignored. *)
Definition upstreamEncrypted (t : Tunnel) (hostPort : qstr) : bool :=
  t_reached t && forallb (fun e => bool_decide (e ∈ ignoredErrors t hostPort)) (t_certErrors t).

Definition hostPortOf (host : qstr) (port : Z) : qstr := host ++ lit ":" ++ number 10 port.

Definition closeBoth (t : Tunnel) : M unit :=
  emit CloseClient;; if t_upstreamOpen t then emit CloseUpstream else ret tt.

Definition runMitmTunnel (c : list bytes) (host : qstr) (port : Z) (leafParses : bool) (t : Tunnel) : M unit :=
  emit Acked;;
  if negb (t_ackWritten t) then fail MitmAckFailed
  else if negb leafParses then fail LeafUnparsable
  else if negb (t_clientEncrypted t) then emit (Blocked host);; fail ClientHandshakeFailed
  else
    let browserIsH2 := t_h2Termination t && seq_eqb (t_browserAlpn t) (lit "h2") in
    let hostPort := hostPortOf host port in
    if negb (upstreamEncrypted t hostPort) then
      (if is_nil (t_certErrors t) then emit (Blocked host) else ret tt);; fail UpstreamHandshakeFailed
    else
      (if is_nil (ignoredErrors t hostPort) then ret tt else emit (CertAccepted hostPort));;
      let upstreamIsH2 := seq_eqb (t_alpn t) (lit "h2") in
      if negb (is_nil (t_alpn t)) && negb (seq_eqb (t_alpn t) (lit "http/1.1")) && negb upstreamIsH2 then
        emit (Blocked host);; fail UnexpectedAlpn
      else
        (if browserIsH2 then terminatorLoop host port upstreamIsH2 false [] (t_streams t)
         else if upstreamIsH2 then emit H2Upstream;; h2Loop host port false c (t_exchanges t)
         else h1Loop host port c [] (t_exchanges t));;
        closeBoth t.

Definition runBlindTunnel (c : list bytes) (req : HttpRequest) (host : qstr) (port : Z) (emitSignals : bool) (t : Tunnel) : M unit :=
  if negb (t_connected t) then emit BadGateway;; fail TunnelConnectFailed
  else
    let req' := with_path (lit "(tunnel)") (with_origin host port (rq_tls req) req) in
    let resp := mkResponse (lit "HTTP/1.1") 200 (lit "Connection Established") [] [] [] false in
    (if emitSignals then emit (Received req');; emit (Responded req' resp) else ret tt);;
    emit Acked;;
    if negb (t_ackWritten t) then fail TunnelAckFailed
    else runRawRelay c [] (t_relay t).

Definition runTunnel (c : list bytes) (req : HttpRequest) (t : Tunnel) : M unit :=
  match index_of 58 (rq_target req) with
  | None | Some O => fail MalformedConnectTarget
  | Some colon =>
      let host := take colon (rq_target req) in
      let port := toUShort (drop (colon + 1) (rq_target req)) in
      let inScope := isInScope (sv_policy (t_server t)) host in
      (if inScope then ret tt else emit Filtered);;
      let blocked := bool_decide (host ∈ t_blocked t) in
      match (if inScope && t_caReady t && negb blocked then t_leaf t host else None) with
      | Some leafParses => runMitmTunnel c host port leafParses t
      | None => runBlindTunnel c req host port inScope t
      end
  end.

(** ** A plain connection *)

Definition runPlain (c : list bytes) (read : HttpRequest) (connected : bool) (x : Exchange) : M unit :=
  let sv := x_request x in
  let req0 := rewriteHostPort read in
  let inScope := urlInScope_ sv req0 in
  let logIt := inScope || sv_logOutOfScope sv in
  emit (if logIt then Received req0 else Filtered);;
  let req := outgoing sv req0 in
  if negb connected then fail ConnectFailed
  else
    let ir := sending x inScope req (rq_host req) (rq_port req) false in
    if ir_dropped ir then closeClient
    else
      emit (ToUpstream (ir_bytes ir));;
      if negb (x_upstreamWritten x) then fail WriteFailed
      else match readResponse maxOut (x_upstream x) with
           | None => fail MalformedResponse
           | Some (resp0, _) =>
               let resp := incoming (x_response x) req resp0 in
               (if logIt then emit (Responded req resp) else ret tt);;
               if (rs_statusCode resp =? 101) && isWebSocketUpgrade req then
                 emit (ToClient (serializeUpgradeResponse resp));;
                 if x_clientWritten x then emit (EnterWebSocket (rq_host req) (rq_port req));; halt else halt
               else
                 let out := delivering x inScope resp (rq_host req) (rq_port req) false (ir_holdResponse ir) in
                 if ir_dropped out then closeClient
                 else emit (ToClient (ir_bytes out));; emit CloseClient
           end.

Definition run (segs : list bytes) (connected : bool) (x : Exchange) (t : Tunnel) : M unit :=
  match readRequestFrom segs with
  | None => fail MalformedRequest
  | Some (req, c) =>
      if u_cieq (rq_method req) (lit "CONNECT") then runTunnel c req t
      else runPlain c req connected x
  end.
End Connection.

Lemma bind_ret {A B} (a : A) (f : A -> M B) : bind (ret a) f = f a.
Proof. unfold bind. cbn. by destruct (f a). Qed.
Lemma fst_bind_emit {B} e (f : unit -> M B) : fst (bind (emit e) f) = e :: fst (f tt).
Proof. done. Qed.
