(* ===== verification/ConnectionSpec.v ===== *)
(** * What a proxied connection guarantees

    Theorems about the runs of ProxyConnection.v: the contract every trace keeps
    (a path of the phases of an exchange), what reaches an origin, which
    tunnels are decrypted, which hosts are blocked, what happens out of scope and
    when nothing is configured; then the defects the model shows.  The
    proofs go through [keeps], a small program logic for the writer monad. *)

From S2P Require Import Prelude Qt QtSample Json Zlib HttpFraming InterceptLogic InterceptController.
From S2P Require Import ScopeLogic ProxyPolicy SessionManager Placeholders ChainRunner SessionRules H2Headers ProxyConnection.

Local Open Scope Z_scope.
Local Open Scope conn_scope.

(** ** A program logic for traces

    [keeps step fin s m R]: from [s] the trace of [m] is a path of [step]; it
    ends in [R] with [m]'s result, or in [fin] when [m] returned from [run]. *)

Section Triple.
Context {St : Type} (step : St -> Event -> St -> Prop) (fin : St -> Prop).

Definition keeps {A} (s : St) (m : M A) (R : A -> St -> Prop) : Prop :=
  exists s', steps step s (fst m) s' /\ match snd m with Some a => R a s' | None => fin s' end.

Lemma keeps_ret {A} s (a : A) (R : A -> St -> Prop) : R a s -> keeps s (ret a) R.
Proof. intros Hr. exists s. split; [constructor|done]. Qed.

Lemma keeps_halt {A} s (R : A -> St -> Prop) : fin s -> keeps s halt R.
Proof. intros Hf. exists s. split; [constructor|done]. Qed.

Lemma keeps_bind {A B} s (m : M A) (f : A -> M B) (R : A -> St -> Prop) (R' : B -> St -> Prop) :
  keeps s m R -> (forall a s', R a s' -> keeps s' (f a) R') -> keeps s (bind m f) R'.
Proof.
  intros (s1 & Hs & Hr) Hf. unfold bind. destruct (snd m) as [a|]; [|by exists s1].
  destruct (Hf a s1 Hr) as (s2 & Hs2 & Hr2). exists s2. split; [by eapply steps_app|done].
Qed.

Lemma keeps_emit1 s s1 e (R : unit -> St -> Prop) : step s e s1 -> R tt s1 -> keeps s (emit e) R.
Proof. intros Hs Hr. exists s1. split; [|done]. eapply steps_cons; [done|constructor]. Qed.

Lemma keeps_emit {B} s s1 e (f : unit -> M B) R :
  step s e s1 -> keeps s1 (f tt) R -> keeps s (bind (emit e) f) R.
Proof.
  intros Hs Hf. eapply (keeps_bind _ _ _ (fun _ p => p = s1)); [by eapply keeps_emit1|]. by intros [] ? ->.
Qed.

(** An event the code emits under a condition. *)
Lemma keeps_optional {A} s e (m : M unit) (f : unit -> M A) R :
  m = emit e \/ m = ret tt -> step s e s -> keeps s (f tt) R -> keeps s (bind m f) R.
Proof.
  intros [->| ->] Hs Hf; [by apply (keeps_emit s s)|].
  apply (keeps_bind s (ret tt) f (fun _ p => p = s)); [by apply keeps_ret|]. by intros [] ? ->.
Qed.

Lemma keeps_weaken {A} s (m : M A) (R R' : A -> St -> Prop) :
  keeps s m R -> (forall a p, R a p -> R' a p) -> keeps s m R'.
Proof. intros (s' & Hs & Hr) Hw. exists s'. split; [done|]. destruct (snd m); [by apply Hw|done]. Qed.
End Triple.

(** ** The contract of a connection *)

Section Contract.
Context `{Q : QtText, RX : QtRegex, RR : QtReplace, J : QtJson, CP : QtCapture, U : QtUrl, D : QtDate, ZL : Zlib, UI : QtUserInput}.
Variable maxOut : Z.

(** *** What the interceptor lets through

    Stated apart from the code's gate: which messages are held, and what becomes
    of a message that is held and of one that is not. *)

Definition selected (ic : Controller) (fields : InterceptFields) : Prop :=
  m_interceptRules ic = [] \/ interceptRulesHold (m_interceptRules ic) fields = true.

Definition request_held (sv : Server) (inScope : bool) (data : bytes) (host : qstr) : Prop :=
  inScope = true /\ exists ic, sv_intercept sv = Some ic /\ m_enabled ic = true /\ selected ic (extractRequestFields data host).
Definition response_held (sv : Server) (inScope forced : bool) (data : bytes) (host : qstr) : Prop :=
  inScope = true /\ exists ic, sv_intercept sv = Some ic /\
    (forced = true \/ m_enabledResponses ic = true /\ selected ic (extractResponseFields data host)).

(** A text the operator left alone keeps the bytes; an edited one is coded again,
    a request with the repairs that are switched on. *)
Definition operator_bytes (request : bool) (v : Verdict) (data : bytes) : bytes :=
  let text := default (u_fromutf8 data) (vd_text v) in
  if seq_eqb text (u_fromutf8 data) then data
  else if request then
    let b := if m_autoFixNewlines (vd_controller v) then fixTrailingNewline (u_toutf8 text) else u_toutf8 text in
    if m_autoContentLength (vd_controller v) then recomputeContentLength b else b
  else u_toutf8 text.

(** The bytes that leave the gate, and whether the answer is to be held. *)
Inductive gate (held : Prop) (request : bool) (v : Verdict) (data : bytes) : bytes -> bool -> Prop :=
| gate_pass : ~ held -> gate held request v data data false
| gate_released : held -> vd_decision v <> 1 -> gate held request v data (operator_bytes request v data) (vd_hold v).

Lemma selected_iff ic fields : (is_nil (m_interceptRules ic) || interceptRulesHold (m_interceptRules ic) fields) = true <-> selected ic fields.
Proof.
  unfold selected. rewrite orb_true_iff. assert (E : is_nil (m_interceptRules ic) = true <-> m_interceptRules ic = []) by (by destruct (m_interceptRules ic)).
  by rewrite E.
Qed.

Lemma pendImpl_gate ic v data host port tls kind forced (held : Prop) :
  held -> let ir := pendImpl ic v data host port tls kind forced in
  ir_dropped ir = false -> gate held (bool_decide (kind = KRequest)) v data (ir_bytes ir) (ir_holdResponse ir).
Proof.
  intros Hh ir. subst ir. unfold pendImpl, pendImpl_result, resolve. cbn [m_decision m_kind m_originalBytes m_text m_holdResponse].
  destruct (vd_decision v =? 1) eqn:Ed; [done|]. apply Z.eqb_neq in Ed. intros _. rewrite orb_false_r.
  match goal with |- gate _ _ _ _ ?b _ => assert (E : b = operator_bytes (bool_decide (kind = KRequest)) v data) end; [|rewrite E; by apply gate_released].
  unfold operator_bytes, resolveForward, shouldFixTrailingNewline, shouldRecomputeContentLength. cbn [ir_bytes fr_edited fr_bytes negb andb].
  destruct (seq_eqb _ _); cbn [negb]; rewrite ?andb_false_r, ?andb_true_r; [done|]. destruct (bool_decide _); cbn [andb]; [|done].
  by destruct (m_autoFixNewlines _), (m_autoContentLength _).
Qed.

Lemma sending_gate x sc req host port tls :
  let data := serializeRequestForOrigin req in let ir := sending x sc req host port tls in
  ir_dropped ir = false ->
  gate (request_held (x_request x) sc data host) true (x_verdict x) data (ir_bytes ir) (ir_holdResponse ir).
Proof.
  intros data ir. subst ir. unfold sending, gateRequest, pend. fold data.
  destruct (sv_intercept (x_request x)) as [ic|] eqn:Ei; [|intros _; apply gate_pass; intros (_ & ic & ? & _); congruence].
  destruct sc; [|intros _; apply gate_pass; by intros (? & _)].
  destruct (pend_holds ic data host) eqn:Hh.
  - intros Hd. apply (pendImpl_gate ic (x_verdict x) data host port tls KRequest false); [|done].
    unfold pend_holds in Hh. apply andb_true_iff in Hh as [H1 H2]. split; [done|]. exists ic. by rewrite <- selected_iff.
  - intros _. apply gate_pass. intros (_ & ic' & Hi & He & Hs). rewrite Ei in Hi. injection Hi as <-.
    apply selected_iff in Hs. unfold pend_holds in Hh. by rewrite He, Hs in Hh.
Qed.

Lemma delivering_gate x sc resp host port tls hold :
  let data := serializeResponse resp in let ir := delivering x sc resp host port tls hold in
  ir_dropped ir = false ->
  exists h, gate (response_held (x_response x) sc hold data host) false (x_respVerdict x) data (ir_bytes ir) h.
Proof.
  intros data ir. subst ir. unfold delivering, resolveResponseForClient, pendResponse. fold data.
  destruct (sv_intercept (x_response x)) as [ic|] eqn:Ei; [|intros _; exists false; apply gate_pass; intros (_ & ic & ? & _); congruence].
  assert (Hsome : forall P : Prop, (exists ic', Some ic = Some ic' /\ (hold = true \/ m_enabledResponses ic' = true /\ selected ic' (extractResponseFields data host))) ->
    ((hold = true \/ m_enabledResponses ic = true /\ selected ic (extractResponseFields data host)) -> P) -> P) by naive_solver.
  destruct sc; cbn [andb]; [|intros _; exists false; apply gate_pass; by intros (? & _)].
  assert (E : (m_enabledResponses ic || hold) && pendResponse_holds ic data host hold = true <->
    (hold = true \/ m_enabledResponses ic = true /\ selected ic (extractResponseFields data host))).
  { rewrite <- selected_iff. unfold pendResponse_holds. destruct hold, (m_enabledResponses ic); cbn [orb andb]; naive_solver. }
  destruct (m_enabledResponses ic || hold) eqn:E1; cbn [andb] in E.
  - destruct (pendResponse_holds ic data host hold) eqn:E2.
    + intros Hd. eexists. apply (pendImpl_gate ic (x_respVerdict x) data host port tls KResponse hold); [|done].
      split; [done|]. exists ic. split; [done|]. by apply E.
    + intros _. exists false. apply gate_pass. intros (_ & Hs). rewrite Ei in Hs. by apply (Hsome _ Hs); intros H%E.
  - intros _. exists false. apply gate_pass. intros (_ & Hs). rewrite Ei in Hs. by apply (Hsome _ Hs); intros H%E.
Qed.

(** *** Where a request comes from *)

(** A connection: the segments it opens with, its plain exchange, its tunnel. *)
Record Conn := mkConn { k_segs : list bytes; k_exchange : Exchange; k_tunnel : Tunnel }.

(** The host and port of the CONNECT that opened it. *)
Definition connect_target (k : Conn) (host : qstr) (port : Z) : Prop :=
  exists req c n, readRequestFrom (k_segs k) = Some (req, c) /\ u_cieq (rq_method req) (lit "CONNECT") = true /\
    index_of 58 (rq_target req) = Some (S n) /\ host = take (S n) (rq_target req) /\ port = toUShort (drop (S n + 1) (rq_target req)).

(** The tunnel is one to look into. *)
Definition intercepted (k : Conn) (host : qstr) : Prop :=
  isInScope (sv_policy (t_server (k_tunnel k))) host = true /\ t_caReady (k_tunnel k) = true /\
  host ∉ t_blocked (k_tunnel k) /\ is_Some (t_leaf (k_tunnel k) host).

(** How a request travels: alone, through an intercepted tunnel, or as a stream of a
    terminated HTTP/2 browser. *)
Inductive Leg := Direct | Tunnelled (host : qstr) (port : Z) | Terminated (host : qstr) (port : Z).

(** A request comes from bytes the framing guard let through, or from the fields of a
    completed stream; [x] is the exchange that serves it. *)
Inductive announced (k : Conn) : Leg -> Exchange -> HttpRequest -> Prop :=
| an_direct read rest :
    readRequestFrom (k_segs k) = Some (read, rest) -> u_cieq (rq_method read) (lit "CONNECT") = false ->
    announced k Direct (k_exchange k) (rewriteHostPort read)
| an_tunnelled x c read rest host port :
    connect_target k host port -> intercepted k host -> x ∈ t_exchanges (k_tunnel k) -> readRequestFrom (c ++ x_client x) = Some (read, rest) ->
    announced k (Tunnelled host port) x (tunnelled host port read)
| an_stream s host port :
    connect_target k host port -> intercepted k host -> s ∈ t_streams (k_tunnel k) -> f_valid (parseRequestHeaders (s_headers s)) = true ->
    announced k (Terminated host port) (s_exchange s) (streamRequest host port (parseRequestHeaders (s_headers s)) (s_body s)).

(** The scope the interceptor goes by, and the host it is shown. *)
Definition leg_scope (leg : Leg) (x : Exchange) (req0 : HttpRequest) : bool :=
  match leg with Direct => urlInScope_ (x_request x) req0 | _ => true end.
Definition leg_host (leg : Leg) (req : HttpRequest) : qstr :=
  match leg with Direct => rq_host req | Tunnelled host _ | Terminated host _ => host end.
Definition leg_terminated (leg : Leg) : bool := match leg with Terminated _ _ => true | _ => false end.

(** What the gate makes of the request as the extension and the rules left it. *)
Definition request_gate (leg : Leg) (x : Exchange) (req0 : HttpRequest) (b : bytes) (hold : bool) : Prop :=
  let req := outgoing (x_request x) req0 in let data := serializeRequestForOrigin req in
  gate (request_held (x_request x) (leg_scope leg x req0) data (leg_host leg req)) true (x_verdict x) data b hold.

(** A request on its way: as it was sent, over HTTP/2 or not. *)
Record Flight := mkFlight { fl_leg : Leg; fl_x : Exchange; fl_scope : bool; fl_req : HttpRequest; fl_hold : bool; fl_h2 : bool }.
Definition flight (leg : Leg) (x : Exchange) (req0 : HttpRequest) (hold h2 : bool) : Flight :=
  mkFlight leg x (leg_scope leg x req0) (outgoing (x_request x) req0) hold h2.

(** The answer that arrived, as the extension and the rules left it. *)
Definition recorded (fl : Flight) (resp : HttpResponse) : Prop :=
  exists resp0, resp = incoming (x_response (fl_x fl)) (fl_req fl) resp0 /\
    if fl_h2 fl then h2_ok (x_h2 (fl_x fl)) = true /\ resp0 = h2_response (x_h2 (fl_x fl))
    else exists u u1, readResponse maxOut (u ++ x_upstream (fl_x fl)) = Some (resp0, u1).

(** An answer that ends the exchanges. *)
Definition upgrades (fl : Flight) (resp : HttpResponse) : bool :=
  match fl_leg fl with
  | Direct => (rs_statusCode resp =? 101) && isWebSocketUpgrade (fl_req fl)
  | Tunnelled _ _ => (rs_statusCode resp =? 101) && negb (fl_h2 fl)
  | Terminated _ _ => false
  end.

(** What the client receives for a recorded answer. *)
Definition delivered (fl : Flight) (resp : HttpResponse) (b : bytes) : Prop :=
  leg_terminated (fl_leg fl) = false /\
  if upgrades fl resp then b = serializeUpgradeResponse resp
  else exists h, let data := serializeResponse resp in
    gate (response_held (x_response (fl_x fl)) (fl_scope fl) (fl_hold fl) data (leg_host (fl_leg fl) (fl_req fl)))
      false (x_respVerdict (fl_x fl)) data b h.

(** *** The phases *)

(** Where a connection stands.  [logged]: the exchange is announced to the History. *)
Inductive Phase :=
| Idle
| Pending (logged : bool) (leg : Leg) (x : Exchange) (req0 : HttpRequest)
| Sent (logged : bool) (fl : Flight)
| Answered (fl : Flight) (resp : HttpResponse)
| Upgraded (fl : Flight)
| Noted (req : HttpRequest) | Blind
| Failing | Relaying | InWebSocket | Closed.

Definition is_open (ph : Phase) : Prop := ph <> Failing /\ ph <> Relaying /\ ph <> InWebSocket /\ ph <> Closed.

(** The entry a tunnel that is not intercepted makes in the History. *)
Definition tunnel_entry (k : Conn) (req : HttpRequest) : Prop :=
  exists read c host port, readRequestFrom (k_segs k) = Some (read, c) /\ connect_target k host port /\
    req = with_path (lit "(tunnel)") (with_origin host port (rq_tls read) read).

Definition after_answer (fl : Flight) (resp : HttpResponse) : Phase := if upgrades fl resp then Upgraded fl else Idle.

Inductive conn_step (k : Conn) : Phase -> Event -> Phase -> Prop :=
| cs_received leg x req0 : announced k leg x req0 -> conn_step k Idle (Received req0) (Pending true leg x req0)
| cs_unlogged x req0 : announced k Direct x req0 -> conn_step k Idle Filtered (Pending false Direct x req0)
| cs_send lg leg x req0 b hold :
    leg_terminated leg = false -> request_gate leg x req0 b hold ->
    conn_step k (Pending lg leg x req0) (ToUpstream b) (Sent lg (flight leg x req0 hold false))
| cs_send_struct lg leg x req0 b hold :               (* an operator's edits do not reach these legs *)
    leg_terminated leg = true -> request_gate leg x req0 b hold ->
    conn_step k (Pending lg leg x req0) (ToUpstream (serializeRequestForOrigin (outgoing (x_request x) req0))) (Sent lg (flight leg x req0 hold false))
| cs_send_h2 lg leg x req0 b hold :
    leg <> Direct -> request_gate leg x req0 b hold ->
    conn_step k (Pending lg leg x req0) (ToUpstreamH2 (outgoing (x_request x) req0)) (Sent lg (flight leg x req0 hold true))
| cs_answer fl resp :
    recorded fl resp -> conn_step k (Sent true fl) (Responded (fl_req fl) resp) (Answered fl resp)
| cs_deliver fl resp b :
    delivered fl resp b -> conn_step k (Answered fl resp) (ToClient b) (after_answer fl resp)
| cs_deliver_unlogged fl resp b :
    recorded fl resp -> delivered fl resp b -> conn_step k (Sent false fl) (ToClient b) (after_answer fl resp)
| cs_stream_answered fl resp :
    leg_terminated (fl_leg fl) = true -> conn_step k (Answered fl resp) (StreamAnswered resp) Idle
| cs_stream_reset ph : is_open ph -> conn_step k ph StreamReset Idle
| cs_filtered host port :
    connect_target k host port -> isInScope (sv_policy (t_server (k_tunnel k))) host = false -> conn_step k Idle Filtered Idle
| cs_noted req : tunnel_entry k req -> conn_step k Idle (Received req) (Noted req)
| cs_noted_answer req resp : conn_step k (Noted req) (Responded req resp) Idle
| cs_ack host port : connect_target k host port -> intercepted k host -> conn_step k Idle Acked Idle
| cs_ack_blind host port : connect_target k host port -> ~ intercepted k host -> conn_step k Idle Acked Blind
| cs_bad_gateway : conn_step k Idle BadGateway Idle
| cs_blocked host : conn_step k Idle (Blocked host) Idle
| cs_blocked_sent lg fl host : conn_step k (Sent lg fl) (Blocked host) (Sent lg fl)
| cs_cert hostPort : conn_step k Idle (CertAccepted hostPort) Idle
| cs_h2_upstream : conn_step k Idle H2Upstream Idle
| cs_relay_blind : conn_step k Blind EnterRelay Relaying
| cs_relay_upgraded fl : isWebSocketUpgrade (fl_req fl) = false -> conn_step k (Upgraded fl) EnterRelay Relaying
| cs_websocket fl host port : isWebSocketUpgrade (fl_req fl) = true -> conn_step k (Upgraded fl) (EnterWebSocket host port) InWebSocket
| cs_relay_up b : conn_step k Relaying (RelayToUpstream b) Relaying
| cs_relay_down b : conn_step k Relaying (RelayToClient b) Relaying
| cs_fail ph why : is_open ph -> conn_step k ph (Failed why) Failing
| cs_fail_close : conn_step k Failing CloseClient Closed
| cs_close ph : is_open ph -> conn_step k ph CloseClient Closed
| cs_close_upstream : conn_step k Closed CloseUpstream Closed.

(** Where a function that returned from [run] may leave the connection. *)
Definition final (ph : Phase) : Prop :=
  ph = Closed \/ ph = Relaying \/ ph = InWebSocket \/ exists fl, ph = Upgraded fl /\ x_clientWritten (fl_x fl) = false.
Notation accepted k := (keeps (conn_step k) final).

Lemma keeps_fail {A} k ph why (R : A -> Phase -> Prop) : is_open ph -> accepted k ph (fail why) R.
Proof.
  intros Ho. exists Closed. split; [|by left].
  eapply steps_cons; [by apply cs_fail|]. eapply steps_cons; [apply cs_fail_close|constructor].
Qed.

Lemma keeps_close {A} k ph (R : A -> Phase -> Prop) : is_open ph -> accepted k ph closeClient R.
Proof. intros Ho. exists Closed. split; [|by left]. eapply steps_cons; [by apply cs_close|constructor]. Qed.

Lemma relay_steps k r : steps (conn_step k) Relaying (relay_events r) Relaying.
Proof.
  unfold relay_events, nonempty_event.
  apply (steps_app _ _ _ Relaying); [|apply (steps_app _ _ _ Relaying)]; repeat case_match;
    try first [by constructor|eapply steps_cons; [apply cs_relay_up|constructor]|eapply steps_cons; [apply cs_relay_down|constructor]].
  induction (ri_reads r) as [|[up b] l IH]; [constructor|]. cbn [map fst snd].
  econstructor; [destruct up; constructor|done].
Qed.

Lemma keeps_relay {A} k ph c u r (R : A -> Phase -> Prop) : conn_step k ph EnterRelay Relaying -> accepted k ph (runRawRelay c u r) R.
Proof.
  intros Hs. unfold runRawRelay. eapply keeps_emit; [exact Hs|]. exists Relaying. split; [apply relay_steps|]. right. by left.
Qed.

Ltac is_open_tac := first [assumption|by repeat split].
Ltac kstep :=
  match goal with
  | |- keeps _ _ _ (ret _) _ => apply keeps_ret
  | |- keeps _ _ _ (fail _) _ => apply keeps_fail; is_open_tac
  | |- keeps _ _ _ closeClient _ => apply keeps_close; is_open_tac
  | |- keeps _ _ _ (if ?b then _ else _) _ => destruct b eqn:?
  | |- keeps _ _ _ (bind (emit _) _) _ => eapply keeps_emit; [solve [econstructor; eauto; is_open_tac]|]
  end.

Lemma keeps_send {A} k x req0 leg port tls lg (f : unit -> M A) R :
  leg_terminated leg = false ->
  let req := outgoing (x_request x) req0 in let ir := sending x (leg_scope leg x req0) req (leg_host leg req) port tls in
  ir_dropped ir = false -> accepted k (Sent lg (flight leg x req0 (ir_holdResponse ir) false)) (f tt) R ->
  accepted k (Pending lg leg x req0) (bind (emit (ToUpstream (ir_bytes ir))) f) R.
Proof. intros Ht req ir Hd. apply keeps_emit. apply cs_send; [done|]. by apply sending_gate. Qed.

Lemma keeps_send_h2 {A} k x req0 leg port tls lg (f : unit -> M A) R :
  leg <> Direct ->
  let req := outgoing (x_request x) req0 in let ir := sending x (leg_scope leg x req0) req (leg_host leg req) port tls in
  ir_dropped ir = false -> accepted k (Sent lg (flight leg x req0 (ir_holdResponse ir) true)) (f tt) R ->
  accepted k (Pending lg leg x req0) (bind (emit (ToUpstreamH2 req)) f) R.
Proof. intros Ht req ir Hd. apply keeps_emit. eapply cs_send_h2; [done|]. by apply sending_gate. Qed.

Lemma recorded_h1 leg x req0 hold u resp0 u1 :
  readResponse maxOut (u ++ x_upstream x) = Some (resp0, u1) ->
  recorded (flight leg x req0 hold false) (incoming (x_response x) (outgoing (x_request x) req0) resp0).
Proof. intros Hr. exists resp0. split; [done|]. by exists u, u1. Qed.
Lemma recorded_h2 leg x req0 hold :
  h2_ok (x_h2 x) = true -> recorded (flight leg x req0 hold true) (incoming (x_response x) (outgoing (x_request x) req0) (h2_response (x_h2 x))).
Proof. intros Hr. by exists (h2_response (x_h2 x)). Qed.

Lemma keeps_answer {A} k fl resp (f : unit -> M A) R :
  recorded fl resp -> accepted k (Answered fl resp) (f tt) R -> accepted k (Sent true fl) (bind (emit (Responded (fl_req fl) resp)) f) R.
Proof. intros Hr. by apply keeps_emit, cs_answer. Qed.

Lemma delivered_gate fl resp port tls :
  leg_terminated (fl_leg fl) = false -> upgrades fl resp = false ->
  let out := delivering (fl_x fl) (fl_scope fl) resp (leg_host (fl_leg fl) (fl_req fl)) port tls (fl_hold fl) in
  ir_dropped out = false -> delivered fl resp (ir_bytes out).
Proof. intros Ht Hu out Hd. split; [done|]. rewrite Hu. by apply delivering_gate. Qed.
Lemma delivered_upgrade fl resp :
  leg_terminated (fl_leg fl) = false -> upgrades fl resp = true -> delivered fl resp (serializeUpgradeResponse resp).
Proof. intros Ht Hu. split; [done|]. by rewrite Hu. Qed.

Lemma keeps_deliver {A} k fl resp b ph (f : unit -> M A) R :
  delivered fl resp b -> ph = after_answer fl resp -> accepted k ph (f tt) R ->
  accepted k (Answered fl resp) (bind (emit (ToClient b)) f) R.
Proof. intros Hd ->. by apply keeps_emit, cs_deliver. Qed.

Lemma keeps_websocket {A} k fl host port (R : A -> Phase -> Prop) :
  isWebSocketUpgrade (fl_req fl) = true -> accepted k (Upgraded fl) (emit (EnterWebSocket host port);; halt) R.
Proof. intros Hw. apply (keeps_emit _ _ _ InWebSocket); [by apply cs_websocket|]. exists InWebSocket. split; [constructor|right; right; by left]. Qed.

Lemma h1Exchange_accepted k host port c u x :
  connect_target k host port -> intercepted k host -> x ∈ t_exchanges (k_tunnel k) ->
  accepted k Idle (h1Exchange maxOut host port c u x) (fun _ ph => ph = Idle).
Proof.
  intros Ht Hi Hx. unfold h1Exchange. destruct (readRequestFrom _) as [[read c1]|] eqn:Hr; [|by kstep].
  pose proof (an_tunnelled k x c read c1 host port Ht Hi Hx Hr) as Ha. kstep. cbv zeta. kstep; [kstep|].
  apply (keeps_send k x _ (Tunnelled host port) port true); [done..|].
  set (fl := flight _ _ _ _ _). kstep; [kstep|]. destruct (readResponse _ _) as [[resp0 u1]|] eqn:Hp; [|kstep].
  apply (keeps_answer _ fl); [by eapply recorded_h1|].
  assert (Hup : forall resp, upgrades fl resp = (rs_statusCode resp =? 101)) by (intros; unfold upgrades; cbn; by rewrite andb_true_r).
  kstep.
  - eapply keeps_deliver; [by apply delivered_upgrade; rewrite ?Hup|by unfold after_answer; rewrite Hup, Heqb1|].
    kstep; [by apply keeps_websocket|by apply keeps_relay, cs_relay_upgraded].
  - kstep; [kstep|]. eapply keeps_deliver; [by apply (delivered_gate fl); rewrite ?Hup|by unfold after_answer; rewrite Hup, Heqb1|].
    by repeat kstep.
Qed.

Lemma h1Loop_accepted k host port xs : connect_target k host port -> intercepted k host -> forall c u,
  xs ⊆ t_exchanges (k_tunnel k) -> accepted k Idle (h1Loop maxOut host port c u xs) (fun _ ph => ph = Idle).
Proof.
  intros Ht Hi. induction xs as [|x xs IH]; intros c u Hx; cbn [h1Loop]; [by kstep|].
  eapply keeps_bind; [apply h1Exchange_accepted; [done|done|apply Hx; left]|]. intros [c1 u1|] ph ->; [|by kstep].
  apply IH. intros y Hy. apply Hx. by right.
Qed.

(** The next iteration starts idle; a stopped loop leaves the client to close. *)
Definition resumes {A} (next : option A) (ph : Phase) : Prop := is_open ph /\ (next <> None -> ph = Idle).

Lemma resumes_stop {A} ph : is_open ph -> resumes (@None A) ph.
Proof. by split. Qed.
Lemma resumes_idle {A} (next : option A) : resumes next Idle.
Proof. by repeat split. Qed.

Lemma h2Exchange_accepted k host port served c x :
  connect_target k host port -> intercepted k host -> x ∈ t_exchanges (k_tunnel k) -> accepted k Idle (h2Exchange host port served c x) resumes.
Proof.
  intros Ht Hi Hx. unfold h2Exchange. destruct (readRequestFrom _) as [[read c1]|] eqn:Hr; [|kstep; apply resumes_idle].
  pose proof (an_tunnelled k x c read c1 host port Ht Hi Hx Hr) as Ha. kstep. cbv zeta. kstep; [kstep|].
  apply (keeps_send_h2 k x _ (Tunnelled host port) port true); [done..|]. set (fl := flight _ _ _ _ _).
  assert (Hup : forall resp, upgrades fl resp = false) by (intros; unfold upgrades; cbn; by rewrite andb_false_r).
  destruct (h2_ok (x_h2 x)) eqn:Hok; cbn [negb].
  - apply (keeps_answer _ fl); [by apply recorded_h2|]. kstep; [kstep|].
    eapply keeps_deliver; [by apply (delivered_gate fl); rewrite ?Hup|by unfold after_answer; rewrite Hup|]. kstep; [kstep|]. kstep. apply resumes_idle.
  - kstep; [by repeat kstep|]. kstep. apply resumes_stop. is_open_tac.
Qed.

Lemma h2Loop_accepted k host port xs : connect_target k host port -> intercepted k host -> forall served c,
  xs ⊆ t_exchanges (k_tunnel k) -> accepted k Idle (h2Loop host port served c xs) (fun _ ph => is_open ph).
Proof.
  intros Ht Hi. induction xs as [|x xs IH]; intros served c Hx; cbn [h2Loop]; [by kstep|].
  eapply keeps_bind; [apply h2Exchange_accepted; [done|done|apply Hx; left]|]. intros [c1|] ph [Ho Hn]; [|by kstep].
  rewrite Hn by done. apply IH. intros y Hy. apply Hx. by right.
Qed.

(** What the terminator may be told in a phase. *)
Definition tells (outcome : UpstreamOutcome) (ph : Phase) : Prop :=
  match outcome with
  | UOk resp => exists fl, ph = Answered fl resp /\ leg_terminated (fl_leg fl) = true
  | RejectStream | TunnelDead => is_open ph
  end.

Lemma onStream_accepted k host port h2 served u s :
  connect_target k host port -> intercepted k host -> s ∈ t_streams (k_tunnel k) ->
  accepted k Idle (onStream maxOut host port h2 served u s) (fun r ph => tells (fst (fst r)) ph).
Proof.
  intros Ht Hi Hx. unfold onStream. cbv zeta. destruct (f_valid _) eqn:Hv; cbn [negb]; [|by kstep].
  pose proof (an_stream k s host port Ht Hi Hx Hv) as Ha. set (leg := Terminated host port) in *. set (req0 := streamRequest _ _ _ _) in *.
  set (x := s_exchange s) in *. kstep. cbv zeta. kstep; [by kstep|]. kstep.
  - apply (keeps_send_h2 k x _ leg port true); [done..|]. set (fl := flight _ _ _ _ _). destruct (h2_ok (x_h2 x)) eqn:Hok; cbn [negb].
    + apply (keeps_answer _ fl); [by apply recorded_h2|]. kstep. by exists fl.
    + kstep; [kstep; [kstep|]|]; by kstep.
  - kstep; [by kstep|]. eapply keeps_emit; [by eapply (cs_send_struct k true leg); [|apply sending_gate]|].
    set (fl := flight _ _ _ _ _). kstep; [by kstep|]. destruct (readResponse _ _) as [[resp0 u1]|] eqn:Hp; [|by kstep].
    apply (keeps_answer _ fl); [by eapply recorded_h1|]. kstep. by exists fl.
Qed.

Lemma terminatorLoop_accepted k host port h2 ss : connect_target k host port -> intercepted k host -> forall served u,
  ss ⊆ t_streams (k_tunnel k) -> accepted k Idle (terminatorLoop maxOut host port h2 served u ss) (fun _ ph => is_open ph).
Proof.
  intros Ht Hi. induction ss as [|s ss IH]; intros served u Hx; cbn [terminatorLoop]; [by kstep|].
  assert (Hs : ss ⊆ t_streams (k_tunnel k)) by (intros y Hy; apply Hx; by right).
  eapply keeps_bind; [apply onStream_accepted; [done|done|apply Hx; left]|]. intros [[[resp| |] served1] u1] ph Htl; cbn [tells fst] in Htl.
  - destruct Htl as (fl & -> & Hl). eapply keeps_emit; [by apply cs_stream_answered|]. by apply IH.
  - eapply keeps_emit; [by apply cs_stream_reset|]. by apply IH.
  - by kstep.
Qed.

Lemma closeBoth_accepted k ph t : is_open ph -> accepted k ph (closeBoth t) (fun _ ph' => ph' = Closed).
Proof.
  intros Ho. unfold closeBoth. apply (keeps_emit _ _ _ Closed); [by apply cs_close|].
  destruct (t_upstreamOpen t); [|by kstep]. exists Closed. split; [|done]. eapply steps_cons; [constructor|constructor].
Qed.

Lemma runMitmTunnel_accepted k c host port leafParses :
  connect_target k host port -> intercepted k host ->
  accepted k Idle (runMitmTunnel maxOut c host port leafParses (k_tunnel k)) (fun _ ph => ph = Closed).
Proof.
  intros Ht Hi. unfold runMitmTunnel. eapply keeps_emit; [by eapply cs_ack|]. kstep; [kstep|]. kstep; [kstep|].
  kstep; [by repeat kstep|]. cbv zeta. kstep.
  { eapply (keeps_optional _ _ _ (Blocked host)); [case_match; auto|apply cs_blocked|]. kstep. }
  eapply (keeps_optional _ _ _ (CertAccepted _)); [case_match; auto|apply cs_cert|]. kstep; [by repeat kstep|].
  eapply (keeps_bind _ _ _ _ _ (fun _ ph => is_open ph)).
  - kstep; [by apply terminatorLoop_accepted|]. kstep; [kstep; by apply h2Loop_accepted|].
    eapply keeps_weaken; [by apply h1Loop_accepted|]. by intros [] p ->.
  - intros [] ph Ho. by apply closeBoth_accepted.
Qed.

Lemma runBlindTunnel_accepted k req rest c host port signals (R : unit -> Phase -> Prop) :
  readRequestFrom (k_segs k) = Some (req, rest) -> connect_target k host port -> ~ intercepted k host ->
  accepted k Idle (runBlindTunnel c req host port signals (k_tunnel k)) R.
Proof.
  intros Hr Ht Hi. unfold runBlindTunnel. kstep; [by repeat kstep|]. cbv zeta. eapply (keeps_bind _ _ _ _ _ (fun _ p => p = Idle)).
  - kstep; [|by kstep]. eapply keeps_emit; [apply cs_noted; by exists req, rest, host, port|].
    eapply keeps_emit1; [apply cs_noted_answer|done].
  - intros [] ? ->. eapply keeps_emit; [by eapply cs_ack_blind|]. kstep; [kstep|apply keeps_relay, cs_relay_blind].
Qed.

Lemma runTunnel_accepted k rest c req :
  readRequestFrom (k_segs k) = Some (req, rest) -> u_cieq (rq_method req) (lit "CONNECT") = true ->
  accepted k Idle (runTunnel maxOut c req (k_tunnel k)) (fun _ ph => ph = Closed).
Proof.
  intros Hr Hm. unfold runTunnel. destruct (index_of 58 (rq_target req)) as [[|n]|] eqn:Ei; [kstep| |kstep]. cbv zeta.
  set (host := take (S n) _). set (port := toUShort _). set (sc := isInScope _ host).
  assert (Ht : connect_target k host port) by (by exists req, rest, n).
  eapply (keeps_bind _ _ _ _ _ (fun _ p => p = Idle)).
  { destruct sc eqn:Es; [by kstep|]. eapply keeps_emit1; [by eapply cs_filtered|done]. }
  intros [] ? ->. assert (Hin : intercepted k host <-> sc && t_caReady (k_tunnel k) && negb (bool_decide (host ∈ t_blocked (k_tunnel k))) = true /\ is_Some (t_leaf (k_tunnel k) host)).
  { unfold intercepted. fold sc. rewrite !andb_true_iff, negb_true_iff, bool_decide_eq_false. tauto. }
  destruct (sc && _ && _) eqn:Ec.
  - destruct (t_leaf (k_tunnel k) host) as [lp|] eqn:El.
    + apply runMitmTunnel_accepted; [done|]. apply Hin. split; [done|]. by eexists.
    + eapply runBlindTunnel_accepted; [done..|]. intros H%Hin. destruct H as [_ [? ?]]. congruence.
  - eapply runBlindTunnel_accepted; [done..|]. intros H%Hin. by destruct H.
Qed.

Lemma runPlain_accepted k rest c read connected :
  readRequestFrom (k_segs k) = Some (read, rest) -> u_cieq (rq_method read) (lit "CONNECT") = false ->
  accepted k Idle (runPlain maxOut c read connected (k_exchange k)) (fun _ ph => ph = Closed).
Proof.
  intros Hr Hm. pose proof (an_direct k read rest Hr Hm) as Ha. unfold runPlain. cbv zeta.
  set (x := k_exchange k) in *. set (req0 := rewriteHostPort read) in *. set (inScope := urlInScope_ _ req0).
  set (lg := inScope || sv_logOutOfScope (x_request x)).
  apply (keeps_emit _ _ _ (Pending lg Direct x req0)); [by destruct lg; constructor|]. kstep; [kstep|]. kstep; [kstep|].
  apply (keeps_send k x _ Direct (rq_port (outgoing (x_request x) req0)) false); [done..|]. set (fl := flight _ _ _ _ _). kstep; [kstep|].
  destruct (readResponse _ _) as [[resp0 u1]|] eqn:Hp; [|kstep].
  set (resp := incoming _ _ resp0). set (req := outgoing _ _). assert (Hrec : recorded fl resp) by (by eapply (recorded_h1 _ _ _ _ [])).
  set (P := fun ph => ph = Answered fl resp \/ ph = Sent false fl).
  eapply (keeps_bind _ _ _ _ _ (fun _ ph => P ph)).
  { destruct lg; [|kstep; by right]. exists (Answered fl resp). split; [|by left].
    eapply steps_cons; [by apply (cs_answer k fl)|constructor]. }
  intros [] ph HP. assert (Ho : is_open ph) by (destruct HP as [->| ->]; is_open_tac).
  assert (Hd : forall b ph', delivered fl resp b -> ph' = after_answer fl resp -> conn_step k ph (ToClient b) ph').
  { intros b ph' Hb ->. destruct HP as [->| ->]; [by apply cs_deliver|by apply cs_deliver_unlogged]. }
  assert (Hup : upgrades fl resp = (rs_statusCode resp =? 101) && isWebSocketUpgrade req) by done. unfold after_answer in Hd.
  destruct ((_ =? 101) && _) eqn:Hs; rewrite Hup in Hd.
  - eapply keeps_emit; [by apply Hd; [apply delivered_upgrade|]|]. apply andb_true_iff in Hs as [_ Hw].
    destruct (x_clientWritten x) eqn:Ew; [by apply keeps_websocket|].
    exists (Upgraded fl). split; [constructor|]. do 3 right. by exists fl.
  - kstep; [by kstep|]. eapply keeps_emit; [by apply Hd; [by apply (delivered_gate fl)|]|].
    exists Closed. split; [|done]. eapply steps_cons; [apply cs_close; is_open_tac|constructor].
Qed.

Lemma run_accepted segs connected x t :
  accepted (mkConn segs x t) Idle (run maxOut segs connected x t) (fun _ ph => ph = Closed).
Proof.
  unfold run. destruct (readRequestFrom segs) as [[req c]|] eqn:Hr; [|kstep]. kstep.
  - by eapply (runTunnel_accepted (mkConn segs x t)).
  - by eapply (runPlain_accepted (mkConn segs x t)).
Qed.

(** C3. Every connection, whatever arrives and whatever the waits, the operator,
    the extensions and the settings do, keeps the proxy's contract.  A request is
    announced (or counted as filtered) before anything of it is sent, and is sent at
    most once, as the extension and the rules left it: if an enabled interceptor
    selects a request in scope, what the operator released and only unless dropped,
    and unchanged otherwise.  Its answer is recorded at most once and only then
    delivered, by the same rule -- except a switch of protocols, which is passed on as
    recorded.  CONNECTs that are not intercepted are acknowledged and relayed; nothing
    is written after the client was closed, and nothing but raw bytes is written in a
    relay.  Every run ends closed, in a relay or the WebSocket relay, or where the answer that switches
    the protocol could not be written. *)
Theorem connection_contract segs connected x t :
  let tr := run maxOut segs connected x t in
  exists ph, steps (conn_step (mkConn segs x t)) Idle (fst tr) ph /\ final ph /\ (snd tr <> None -> ph = Closed).
Proof.
  intros tr. destruct (run_accepted segs connected x t) as (ph & Hs & Hr). fold tr in Hs, Hr.
  exists ph. split; [done|]. destruct (snd tr); [by subst ph; split; [left|]|by split].
Qed.

(** *** What reaches the origin *)

(** The request announced just before, and what the gate let through of it. *)
Definition gated (k : Conn) (pre : list Event) (leg : Leg) (req : HttpRequest) (b : bytes) : Prop :=
  exists x req0 pre' hold, announced k leg x req0 /\ (pre = pre' ++ [Received req0] \/ leg = Direct /\ pre = pre' ++ [Filtered]) /\
    req = outgoing (x_request x) req0 /\ request_gate leg x req0 b hold.

(** A relay was entered, for a CONNECT that is not intercepted or behind an answer that
    switched the protocol, and nothing but raw bytes since. *)
Definition relayed_after (k : Conn) (pre : list Event) : Prop :=
  exists before e since, pre = before ++ e :: EnterRelay :: since /\
    Forall (fun e => exists b, e = RelayToUpstream b \/ e = RelayToClient b) since /\
    ((e = Acked /\ exists host port, connect_target k host port /\ ~ intercepted k host) \/
     exists fl resp, e = ToClient (serializeUpgradeResponse resp) /\ upgrades fl resp = true /\ recorded fl resp).

(** What is written to an origin. *)
Definition upstream_allowed (k : Conn) (pre : list Event) (e : Event) : Prop :=
  match e with
  | ToUpstream b => exists leg req b', gated k pre leg req b' /\ b = if leg_terminated leg then serializeRequestForOrigin req else b'
  | ToUpstreamH2 req => exists leg b', leg <> Direct /\ gated k pre leg req b'
  | RelayToUpstream b => relayed_after k pre
  | _ => True
  end.

Lemma snoc_cases {A} (pre : list A) a pre1 e post :
  pre ++ [a] = pre1 ++ e :: post -> (pre = pre1 /\ a = e) \/ exists post', pre = pre1 ++ e :: post'.
Proof.
  destruct post as [|z post _] using rev_ind; intros E.
  - apply app_inj_tail in E as [-> ->]. by left.
  - right. exists post. change (pre1 ++ e :: post ++ [z]) with (pre1 ++ (e :: post) ++ [z]) in E.
    rewrite app_assoc in E. by apply app_inj_tail in E as [-> _].
Qed.

(** What the phase tells of the trace before it. *)
Definition phase_trace (k : Conn) (pre : list Event) (ph : Phase) : Prop :=
  match ph with
  | Pending lg leg x req0 => announced k leg x req0 /\ exists pre', pre = pre' ++ [Received req0] \/ leg = Direct /\ pre = pre' ++ [Filtered]
  | Answered fl resp => recorded fl resp
  | Upgraded fl => exists pre' resp, pre = pre' ++ [ToClient (serializeUpgradeResponse resp)] /\ upgrades fl resp = true /\ recorded fl resp
  | Blind => exists pre' host port, pre = pre' ++ [Acked] /\ connect_target k host port /\ ~ intercepted k host
  | Relaying => relayed_after k pre
  | _ => True
  end.

Definition gate_inv (k : Conn) (pre : list Event) (ph : Phase) : Prop :=
  phase_trace k pre ph /\ forall pre1 e post, pre = pre1 ++ e :: post -> upstream_allowed k pre1 e.

Lemma relayed_after_snoc k pre e : relayed_after k pre -> (exists b, e = RelayToUpstream b \/ e = RelayToClient b) -> relayed_after k (pre ++ [e]).
Proof.
  intros (before & e0 & since & -> & Hs & Hc) He. exists before, e0, (since ++ [e]). split_and!; [by rewrite <- app_assoc|by apply Forall_app; rewrite Forall_singleton|done].
Qed.

Lemma phase_trace_step k pre ph e ph' : phase_trace k pre ph -> conn_step k ph e ph' -> phase_trace k (pre ++ [e]) ph'.
Proof.
  intros Hp Hs. destruct Hs; cbn [phase_trace] in *; unfold after_answer; try done.
  - split; [done|]. exists pre. auto.
  - split; [done|]. exists pre. auto.
  - destruct (upgrades fl resp) eqn:Hu; [|done]. destruct H as [_ Hb]. rewrite Hu in Hb. subst b. by exists pre, resp.
  - destruct (upgrades fl resp) eqn:Hu; [|done]. destruct H0 as [_ Hb]. rewrite Hu in Hb. subst b. by exists pre, resp.
  - exists pre, host, port. done.
  - destruct Hp as (pre' & host & port & -> & ? & ?). exists pre', Acked, []. split_and!; [by rewrite <- app_assoc|constructor|]. left. split; [done|]. by exists host, port.
  - destruct Hp as (pre' & resp & -> & ? & ?). eexists pre', _, []. split_and!; [by rewrite <- app_assoc|constructor|]. right. by exists fl, resp.
  - apply relayed_after_snoc; eauto.
  - apply relayed_after_snoc; eauto.
Qed.

Lemma upstream_step k pre ph e ph' : phase_trace k pre ph -> conn_step k ph e ph' -> upstream_allowed k pre e.
Proof.
  intros Hp Hs. destruct Hs; cbn [phase_trace upstream_allowed] in *; try done.
  - destruct Hp as [Ha [pre' Hl]]. exists leg, (outgoing (x_request x) req0), b. rewrite H. split; [|done]. by exists x, req0, pre', hold.
  - destruct Hp as [Ha [pre' Hl]]. exists leg, (outgoing (x_request x) req0), b. rewrite H. split; [|done]. by exists x, req0, pre', hold.
  - destruct Hp as [Ha [pre' Hl]]. exists leg, b. split; [done|]. by exists x, req0, pre', hold.
Qed.

Lemma gate_inv_step k pre ph e ph' : gate_inv k pre ph -> conn_step k ph e ph' -> gate_inv k (pre ++ [e]) ph'.
Proof.
  intros [Hp Hi] Hs. split; [by eapply phase_trace_step|].
  intros pre1 e1 post E. apply snoc_cases in E as [[<- <-]|(post' & ->)]; [by eapply upstream_step|by eapply Hi].
Qed.

(** C2. Nothing reaches an origin around the gate.  Whatever is written to one, over
    HTTP/1.1 or HTTP/2, is a request announced to the History (or counted as filtered)
    in the event before, as the extension and the rules left it: unchanged unless it is
    in scope and an enabled interceptor selects it, and then what the operator released
    -- never a dropped one; the two legs that send the fields instead of the bytes
    send them only when released, without the operator's edits.  Raw bytes are written
    only in a relay, behind the acknowledgement of a CONNECT that is not intercepted or
    behind an answer that switched the protocol.  (The frames of a WebSocket relay are
    WsRelay.v's.) *)
Theorem upstream_bytes_gated segs connected x t pre e post :
  fst (run maxOut segs connected x t) = pre ++ e :: post -> upstream_allowed (mkConn segs x t) pre e.
Proof.
  intros E. set (k := mkConn segs x t). destruct (run_accepted segs connected x t) as (ph & Hs & _). fold k in Hs.
  assert (Hi : gate_inv k [] Idle) by (split; [done|]; intros ? ? ? Hn; by destruct pre1).
  pose proof (steps_invariant_trace _ (gate_inv k) (gate_inv_step k) [] Idle _ ph Hs Hi) as [_ Hg].
  by eapply Hg.
Qed.

(** *** Tunnels: who is decrypted *)

(** Decrypted content is exchanged. *)
Definition decrypted (e : Event) : bool :=
  match e with ToUpstream _ | ToUpstreamH2 _ | ToClient _ | StreamAnswered _ | StreamReset => true | _ => false end.
Definition announces (e : Event) : bool := match e with Received _ | Responded _ _ => true | _ => false end.

Definition none (P : Event -> bool) (tr : list Event) : bool := forallb (fun e => negb (P e)) tr.

Lemma none_app P l1 l2 : none P (l1 ++ l2) = none P l1 && none P l2.
Proof. apply forallb_app. Qed.

Lemma none_elem P tr e : none P tr = true -> e ∈ tr -> P e = false.
Proof. unfold none. rewrite forallb_forall. intros Hn He. apply list_elem_of_In, Hn in He. by destruct (P e). Qed.

Lemma relay_events_none P r :
  (forall b, P (RelayToUpstream b) = false /\ P (RelayToClient b) = false) -> none P (relay_events r) = true.
Proof.
  intros HP. assert (HU : forall b, P (RelayToUpstream b) = false) by apply HP.
  assert (HC : forall b, P (RelayToClient b) = false) by apply HP.
  unfold relay_events, nonempty_event. rewrite !none_app.
  repeat (apply andb_true_intro; split); repeat case_match; cbn; rewrite ?HU, ?HC; try done.
  induction (ri_reads r) as [|[[] b] l IH]; cbn; rewrite ?HU, ?HC; done.
Qed.

Lemma handler_verified errs accept :
  forallb (fun e => bool_decide (e ∈ sslErrors_handler accept errs)) errs = true ->
  errs = [] \/ accept = true /\ forallb isBenignCertError errs = true.
Proof.
  unfold sslErrors_handler. destruct errs as [|e errs]; [by left|]. intros Hf. right.
  destruct accept; cbn [negb] in Hf; [|done]. split; [done|].
  assert (Hn : forall l : list SslError, forallb (fun x => bool_decide (x ∈ (@nil SslError))) l = true -> l = []) by by intros [].
  destruct ((zlen _ =? zlen _) && _) eqn:E; [|by apply Hn in Hf]. split_bools.
  unfold filterIgnorableErrors in *. rewrite filter_ignorable_spec in *. cbn [app] in *.
  to_prop. destruct (filter_length_full isBenignCertError (e :: errs)) as [_ Hl]. unfold zlen in *.
  destruct Hl as [_ Hl]; [lia|]. done.
Qed.

(** The origin proved who it is, or the operator waived exactly what failed. *)
Definition origin_trusted (t : Tunnel) (hostPort : qstr) : Prop :=
  t_certErrors t = [] \/
  isAcceptInvalidHost (sv_policy (t_server t)) hostPort = true /\ forallb isBenignCertError (t_certErrors t) = true.

Lemma blind_none P c req host port signals t :
  (forall b, P (RelayToUpstream b) = false /\ P (RelayToClient b) = false) ->
  none P [BadGateway; Failed TunnelConnectFailed; Failed TunnelAckFailed; CloseClient; Acked; EnterRelay] = true ->
  (signals = true -> forall r1 r2 s, P (Received r1) = false /\ P (Responded r2 s) = false) ->
  none P (fst (runBlindTunnel c req host port signals t)) = true.
Proof.
  intros Hr Hc Hs. unfold none in Hc. cbn [forallb] in Hc. split_bools.
  assert (Ht : forall e l, P e = false -> none P l = true -> none P (e :: l) = true)
    by (intros e l He Hl; unfold none; cbn [forallb]; rewrite He; exact Hl).
  pose proof (relay_events_none P (mkRelayInput (concat c ++ ri_client (t_relay t)) (ri_upstream (t_relay t))
                           (ri_enter (t_relay t)) (ri_reads (t_relay t))) Hr) as Hre.
  unfold runBlindTunnel. destruct (t_connected t); cbn [negb]; [|by repeat (apply Ht; [done|])].
  assert (Ha : forall m : M unit, none P (fst m) = true ->
    none P (fst (bind (emit Acked) (fun _ => if negb (t_ackWritten t) then fail TunnelAckFailed else m))) = true).
  { intros m Hm. apply Ht; [done|]. destruct (t_ackWritten t); cbn [negb app]; [done|by repeat (apply Ht; [done|])]. }
  assert (Hrelay : none P (fst (runRawRelay (A := unit) c [] (t_relay t))) = true) by by apply Ht.
  destruct signals; [|by apply Ha]. destruct (Hs eq_refl (with_path (lit "(tunnel)") (with_origin host port (rq_tls req) req))
    (with_path (lit "(tunnel)") (with_origin host port (rq_tls req) req))
    (mkResponse (lit "HTTP/1.1") 200 (lit "Connection Established") [] [] [] false)) as [Hs1 Hs2].
  apply Ht; [done|]. apply Ht; [done|]. by apply Ha.
Qed.

Lemma mitm_decrypts c host port leafParses t :
  none decrypted (fst (runMitmTunnel maxOut c host port leafParses t)) = true \/
  leafParses = true /\ t_clientEncrypted t = true /\ upstreamEncrypted t (hostPortOf host port) = true.
Proof.
  unfold runMitmTunnel. destruct (t_ackWritten t); [|by left]. destruct leafParses; [|by left].
  destruct (t_clientEncrypted t); [|by left]. cbv zeta. destruct (upstreamEncrypted t _); [by right|].
  left. by destruct (is_nil (t_certErrors t)).
Qed.

(** The raw bytes written each way. *)
Definition raw_up (tr : list Event) : bytes := flat_map (fun e => match e with RelayToUpstream b => b | _ => [] end) tr.
Definition raw_down (tr : list Event) : bytes := flat_map (fun e => match e with RelayToClient b => b | _ => [] end) tr.
(** The bytes the relay's loop reads from the client ([true]) or the origin. *)
Definition read_from (client : bool) (r : RelayInput) : bytes :=
  if ri_enter r then flat_map (fun d => if Bool.eqb (fst d) client then snd d else []) (ri_reads r) else [].

Lemma relay_raw r : raw_up (relay_events r) = ri_client r ++ read_from true r /\ raw_down (relay_events r) = ri_upstream r ++ read_from false r.
Proof.
  unfold relay_events, raw_up, raw_down, read_from, nonempty_event. rewrite !flat_map_app. split.
  - f_equal; [destruct (ri_client r); cbn; by rewrite ?app_nil_r|]. destruct (is_nil (ri_upstream r)); cbn [flat_map app];
      (destruct (ri_enter r); [|done]; induction (ri_reads r) as [|[[] b] l IH]; [done|..]; cbn [map flat_map fst snd Bool.eqb app] in *; by rewrite IH).
  - replace (flat_map _ (if is_nil (ri_client r) then _ else _)) with (@nil Z) by (by destruct (is_nil (ri_client r))). cbn [app].
    f_equal; [destruct (ri_upstream r); cbn; by rewrite ?app_nil_r|].
    destruct (ri_enter r); [|done]; induction (ri_reads r) as [|[[] b] l IH]; [done|..]; cbn [map flat_map fst snd Bool.eqb app] in *; by rewrite IH.
Qed.

(** What a CONNECT that is not intercepted does before the relay. *)
Definition blind_prefix (inScope : bool) (host : qstr) (port : Z) (req : HttpRequest) : list Event :=
  if inScope then
    let entry := with_path (lit "(tunnel)") (with_origin host port (rq_tls req) req) in
    [Received entry; Responded entry (mkResponse (lit "HTTP/1.1") 200 (lit "Connection Established") [] [] [] false)]
  else [].

Lemma blind_run c req host port sc t :
  let tr := fst (runBlindTunnel c req host port sc t) in
  if negb (t_connected t) then tr = [BadGateway; Failed TunnelConnectFailed; CloseClient]
  else if negb (t_ackWritten t) then tr = blind_prefix sc host port req ++ [Acked; Failed TunnelAckFailed; CloseClient]
  else exists relay, tr = blind_prefix sc host port req ++ [Acked; EnterRelay] ++ relay /\
    raw_up relay = concat c ++ ri_client (t_relay t) ++ read_from true (t_relay t) /\
    raw_down relay = ri_upstream (t_relay t) ++ read_from false (t_relay t).
Proof.
  cbv zeta. unfold runBlindTunnel. destruct (t_connected t), (t_ackWritten t), sc; cbn [negb]; try done.
  all: eexists; split; [reflexivity|]; pose proof (relay_raw (mkRelayInput (concat c ++ ri_client (t_relay t)) (ri_upstream (t_relay t)) (ri_enter (t_relay t)) (ri_reads (t_relay t)))) as [H1 H2];
    cbn [ri_client ri_upstream] in H1, H2; rewrite <- app_assoc in H1; split; [exact H1|exact H2].
Qed.

(** C4. Which CONNECTs are intercepted, and what becomes of the others.  Decrypted
    traffic flows only if the host is in scope, is not on the block list and has a
    valid leaf, the client accepted that leaf, and the origin proved its identity (no
    certificate error, or only benign ones for a host and port the operator listed).
    Every other CONNECT -- out of scope, blocked, without a certificate authority or
    a leaf -- is told when its origin cannot be reached, and is otherwise acknowledged
    and relayed: every byte read behind the segment that ended the CONNECT's head goes
    to the origin and every byte of the origin to the client, in order and
    unchanged; in scope it makes one entry without content in the History, out of
    scope none.  (Bytes in the same segment as the head are lost:
    [connect_early_bytes_lost].) *)
Theorem connect_decrypts_only c req t n :
  index_of 58 (rq_target req) = Some (S n) ->
  let host := take (S n) (rq_target req) in
  let port := toUShort (drop (S n + 1) (rq_target req)) in
  let inScope := isInScope (sv_policy (t_server t)) host in
  let tr := fst (runTunnel maxOut c req t) in
  (forall e, e ∈ tr -> decrypted e = true ->
    inScope = true /\ host ∉ t_blocked t /\ t_caReady t = true /\
    t_leaf t host = Some true /\ t_clientEncrypted t = true /\ t_reached t = true /\ origin_trusted t (hostPortOf host port)) /\
  (inScope = false \/ host ∈ t_blocked t \/ t_caReady t = false \/ t_leaf t host = None ->
    let counted := if inScope then [] else [Filtered] in
    if negb (t_connected t) then tr = counted ++ [BadGateway; Failed TunnelConnectFailed; CloseClient]
    else if negb (t_ackWritten t) then tr = counted ++ blind_prefix inScope host port req ++ [Acked; Failed TunnelAckFailed; CloseClient]
    else exists relay, tr = counted ++ blind_prefix inScope host port req ++ [Acked; EnterRelay] ++ relay /\
      raw_up relay = concat c ++ ri_client (t_relay t) ++ read_from true (t_relay t) /\
      raw_down relay = ri_upstream (t_relay t) ++ read_from false (t_relay t)).
Proof.
  intros Hc host port inScope tr. subst tr. unfold runTunnel. rewrite Hc. cbv zeta. fold host port inScope.
  set (m := match _ with Some _ => _ | None => _ end). set (counted := if inScope then [] else [Filtered]).
  assert (Htr : fst (bind (if inScope then ret tt else emit Filtered) (fun _ => m)) = counted ++ fst m) by (unfold counted; destruct inScope; [by rewrite bind_ret|done]).
  rewrite Htr. clear Htr. split.
  - intros e He Hd. apply elem_of_app in He as [He|He].
    { unfold counted in He. destruct inScope; [by apply not_elem_of_nil in He|]. apply list_elem_of_singleton in He as ->. done. }
    assert (Hblind : forall s, e ∉ fst (runBlindTunnel c req host port s t)).
    { intros s Hin. eapply none_elem in Hin; [by rewrite Hd in Hin|]. by apply blind_none. }
    unfold m in He. destruct inScope; cbn [andb] in He; [|by apply Hblind in He].
    destruct (t_caReady t); cbn [andb] in He; [|by apply Hblind in He].
    case_bool_decide as Hb; cbn [negb] in He; [by apply Hblind in He|].
    destruct (t_leaf t host) as [leafParses|]; [|by apply Hblind in He].
    destruct (mitm_decrypts c host port leafParses t) as [Hn|(-> & Hcl & Hu)].
    { eapply none_elem in He; [|done]. by rewrite Hd in He. }
    unfold upstreamEncrypted in Hu. split_bools. repeat (split; [done|]). by apply handler_verified.
  - intros Hno. assert (Hm : m = runBlindTunnel c req host port inScope t).
    { unfold m. destruct inScope, (t_caReady t), (bool_decide_reflect (host ∈ t_blocked t)); cbn [andb negb]; try done.
      destruct (t_leaf t host); [|done]. by destruct Hno as [?|[?|[?|?]]]. }
    rewrite Hm. pose proof (blind_run c req host port inScope t) as Hb. cbv zeta in *.
    destruct (negb (t_connected t)); [by rewrite Hb|]. destruct (negb (t_ackWritten t)); [by rewrite Hb|].
    destruct Hb as (relay & -> & H1 & H2). by exists relay.
Qed.

(** *** Which hosts are put on the block list *)

Definition is_blocked (e : Event) : bool := match e with Blocked _ => true | _ => false end.
Definition is_responded (e : Event) : bool := match e with Responded _ _ => true | _ => false end.

(** The state tells whether an answer was recorded. *)
Inductive learn_step (host : qstr) (cause : Prop) : bool -> Event -> bool -> Prop :=
| ls_other b e : is_blocked e = false -> is_responded e = false -> learn_step host cause b e b
| ls_responded b req resp : learn_step host cause b (Responded req resp) true
| ls_blocked : cause -> learn_step host cause false (Blocked host) false.

Notation learns host cause := (keeps (learn_step host cause) (fun _ => True)).

(** The HTTP/2 session with the origin could not be held. *)
Definition session_failed (x : Exchange) : Prop := h2_ok (x_h2 x) = false /\ h2_connectionFailed (x_h2 x) = true.

Lemma learns_fail {A} host cause b why (R : A -> bool -> Prop) : learns host cause b (fail why) R.
Proof. exists b. split; [|done]. do 2 (eapply steps_cons; [by apply ls_other|]). constructor. Qed.
Lemma learns_close {A} host cause b (R : A -> bool -> Prop) : learns host cause b closeClient R.
Proof. exists b. split; [|done]. eapply steps_cons; [by apply ls_other|constructor]. Qed.
Lemma learns_relay {A} host cause b c u r (R : A -> bool -> Prop) : learns host cause b (runRawRelay c u r) R.
Proof.
  unfold runRawRelay. eapply keeps_emit; [by apply ls_other|]. exists b. split; [|done]. cbn [fst].
  match goal with |- steps _ _ (relay_events ?r') _ =>
    assert (Hn : forall P, (forall d, P (RelayToUpstream d) = false /\ P (RelayToClient d) = false) -> none P (relay_events r') = true)
      by (intros P; apply relay_events_none); revert Hn; generalize (relay_events r') end.
  intros tr Hn. assert (H1 : none is_blocked tr = true) by by apply Hn.
  assert (H2 : none is_responded tr = true) by by apply Hn.
  clear Hn. induction tr as [|e tr IH]; [constructor|]. unfold none in H1, H2. cbn [forallb] in H1, H2. split_bools.
  eapply steps_cons; [by apply ls_other|]. by apply IH.
Qed.

Ltac lstep :=
  match goal with
  | |- keeps _ _ _ (ret _) _ => apply keeps_ret
  | |- keeps _ _ _ halt _ => apply keeps_halt
  | |- keeps _ _ _ (fail _) _ => apply learns_fail
  | |- keeps _ _ _ closeClient _ => apply learns_close
  | |- keeps _ _ _ (runRawRelay _ _ _) _ => apply learns_relay
  | |- keeps _ _ _ (if ?b then _ else _) _ => destruct b eqn:?
  | |- keeps _ _ _ (match ?o with Some _ => _ | None => _ end) _ => destruct o as [[? ?]|]
  | |- keeps _ _ _ (bind (emit (Responded _ _)) _) _ => eapply keeps_emit; [apply ls_responded|]
  | |- keeps _ _ _ (bind (emit (Blocked _)) _) _ => fail 1
  | |- keeps _ _ _ (bind (emit _) _) _ => eapply keeps_emit; [by apply ls_other|]
  | |- keeps _ _ _ (emit _) _ => eapply keeps_emit1; [by apply ls_other|]
  end.

Lemma h1Loop_learns host cause h port xs : forall b c u, learns host cause b (h1Loop maxOut h port c u xs) (fun _ _ => True).
Proof.
  induction xs as [|x xs IH]; intros b c u; cbn [h1Loop]; [by lstep|].
  eapply (keeps_bind _ _ _ _ _ (fun _ _ => True)).
  - unfold h1Exchange. cbv zeta. by repeat lstep.
  - intros [c1 u1|] b' _; [apply IH|by lstep].
Qed.

Lemma h2Loop_learns host (cause : Prop) port xs : (forall x, x ∈ xs -> session_failed x -> cause) ->
  forall served b c, (b = true -> served = true) ->
  learns host cause b (h2Loop host port served c xs) (fun _ _ => True).
Proof.
  induction xs as [|x xs IH]; intros Hc served b c Hb; cbn [h2Loop]; [by lstep|].
  eapply (keeps_bind _ _ _ _ _ (fun _ _ => True)).
  - unfold h2Exchange. cbv zeta. repeat lstep; try done.
    split_bools. destruct b; [by rewrite Hb in *|]. eapply keeps_emit; [apply ls_blocked|by lstep].
    eapply Hc; [left|]. by split.
  - intros [c1|] b' _; [|by lstep]. apply IH; [|done]. intros y Hy. apply Hc. by right.
Qed.

Lemma terminatorLoop_learns host (cause : Prop) port h2 ss :
  (forall x, x ∈ map s_exchange ss -> session_failed x -> cause) ->
  forall served b u, (b = true -> served = true) ->
  learns host cause b (terminatorLoop maxOut host port h2 served u ss) (fun _ _ => True).
Proof.
  induction ss as [|s ss IH]; intros Hc served b u Hb; cbn [terminatorLoop]; [by lstep|].
  assert (Hcs : forall x, x ∈ map s_exchange ss -> session_failed x -> cause) by (intros y Hy; apply Hc; by right).
  eapply (keeps_bind _ _ _ _ _ (fun r (b' : bool) => b' = true -> snd (fst r) = true)).
  - unfold onStream. cbv zeta. repeat lstep; try done.
    split_bools. destruct b; [by rewrite Hb in *|]. eapply keeps_emit; [apply ls_blocked|by lstep].
    eapply Hc; [left|]. by split.
  - intros [[[resp| |] served1] u1] b' Hb'; cbn [fst snd] in Hb'; repeat lstep; try done; by apply IH.
Qed.

Definition env_of (t : Tunnel) : list Exchange := t_exchanges t ++ map s_exchange (t_streams t).

(** Why a host is blocked. *)
Definition block_cause (t : Tunnel) (hostPort : qstr) : Prop :=
  t_clientEncrypted t = false \/
  upstreamEncrypted t hostPort = false /\ t_certErrors t = [] \/
  upstreamEncrypted t hostPort = true /\
    ((t_alpn t <> [] /\ t_alpn t <> lit "http/1.1" /\ t_alpn t <> lit "h2") \/
     exists x, x ∈ env_of t /\ session_failed x).

Lemma runMitmTunnel_learns c host port leafParses t :
  learns host (block_cause t (hostPortOf host port)) false (runMitmTunnel maxOut c host port leafParses t) (fun _ _ => True).
Proof.
  unfold runMitmTunnel. cbv zeta. lstep. lstep; [lstep|]. lstep; [lstep|]. lstep.
  { split_bools. eapply keeps_emit; [apply ls_blocked; by left|lstep]. }
  lstep.
  { split_bools. destruct (is_nil (t_certErrors t)) eqn:E; [|eapply keeps_bind; [by apply (keeps_ret _ _ _ _ (fun _ _ => True))|intros; lstep]].
    apply is_nil_true in E. eapply keeps_emit; [apply ls_blocked; right; left; by split|lstep]. }
  split_bools. eapply (keeps_optional _ _ _ (CertAccepted _)); [case_match; auto|by apply ls_other|]. lstep.
  { split_bools. eapply keeps_emit; [apply ls_blocked; right; right|lstep]. split; [done|]. left.
    unfold seq_eqb in *. split_bools. split; [|done]. intros Hn. by rewrite Hn in *. }
  assert (Hx : forall x, x ∈ env_of t -> session_failed x -> block_cause t (hostPortOf host port)).
  { intros x Hx Hf. right. right. split; [done|]. right. by exists x. }
  eapply (keeps_bind _ _ _ _ _ (fun _ _ => True)).
  - lstep; [|lstep; [lstep|]].
    + apply terminatorLoop_learns; [|done]. intros x Hin. apply Hx, elem_of_app. by right.
    + apply h2Loop_learns; [|done]. intros x Hin. apply Hx, elem_of_app. by left.
    + apply h1Loop_learns.
  - intros [] b _. unfold closeBoth. repeat lstep; done.
Qed.

Lemma learns_blocked {A} host cause (m : M A) R pre h post :
  learns host cause false m R -> fst m = pre ++ Blocked h :: post -> h = host /\ cause /\ none is_responded pre = true.
Proof.
  intros (b & Hs & _) E. rewrite E in Hs. clear E R.
  assert (G : forall b0, steps (learn_step host cause) b0 (pre ++ Blocked h :: post) b ->
    h = host /\ cause /\ b0 = false /\ none is_responded pre = true); [|apply G in Hs; naive_solver].
  clear Hs. induction pre as [|e pre IH]; intros b0 Hs; inversion_clear Hs as [|? ? b1 ? ? H1 H2].
  - inversion H1; subst; [done|]. by repeat split.
  - apply IH in H2 as (-> & Hc & -> & Hn). inversion H1 as [? ? Hb Hr| |]; subst; repeat (split; [done|]); [|done].
    unfold none in *. cbn [forallb]. by rewrite Hr.
Qed.

(** A host is put on the persistent block list only for a lasting reason:
    the client refused the forged leaf, the origin could not be reached without
    showing a certificate error, it negotiated a protocol that was not offered,
    or it could not hold an HTTP/2 session; and never once an answer was
    recorded on the tunnel.  A failed certificate check alone does not block the
    host, so listing it as accepted and retrying works. *)
Theorem blocklist_learning c req t n pre h post :
  index_of 58 (rq_target req) = Some (S n) ->
  fst (runTunnel maxOut c req t) = pre ++ Blocked h :: post ->
  let host := take (S n) (rq_target req) in
  let hostPort := hostPortOf host (toUShort (drop (S n + 1) (rq_target req))) in
  h = host /\ isInScope (sv_policy (t_server t)) host = true /\ none is_responded pre = true /\ block_cause t hostPort /\
  (t_clientEncrypted t = true -> upstreamEncrypted t hostPort = false -> t_certErrors t = []).
Proof.
  intros Hc E host hostPort. unfold runTunnel in E. rewrite Hc in E. cbv zeta in E. fold host in E.
  assert (Hb : forall s pre', fst (runBlindTunnel c req host (toUShort (drop (S n + 1) (rq_target req))) s t) <> pre' ++ Blocked h :: post).
  { intros s pre' E'. assert (Hn : none is_blocked (fst (runBlindTunnel c req host (toUShort (drop (S n + 1) (rq_target req))) s t)) = true)
      by by apply blind_none.
    eapply none_elem in Hn; [|rewrite E'; apply elem_of_app; right; left]. done. }
  destruct (isInScope _ host) eqn:Hi; cbn [andb] in E.
  - rewrite bind_ret in E. case_match; [|by apply Hb in E].
    destruct (learns_blocked _ _ _ _ _ _ _ (runMitmTunnel_learns _ _ _ _ _) E) as (-> & Hcause & Hn).
    do 4 (split; [done|]). intros Hcl Hu. destruct Hcause as [Hf|[[_ Hf]|[Hf _]]]; [|done|];
      fold hostPort in Hf; congruence.
  - rewrite fst_bind_emit in E. destruct pre as [|e pre]; [done|]. injection E as <- E. by apply Hb in E.
Qed.

(** *** Out of scope *)

(** What an untouched plain exchange does: announced (or counted), forwarded,
    recorded if announced, delivered. *)
Definition direct (announce : Event) (logIt connected : bool) (x : Exchange) (req : HttpRequest) : list Event :=
  announce ::
  if negb connected then [Failed ConnectFailed; CloseClient]
  else ToUpstream (serializeRequestForOrigin req) ::
       if negb (x_upstreamWritten x) then [Failed WriteFailed; CloseClient]
       else match readResponse maxOut (x_upstream x) with
            | None => [Failed MalformedResponse; CloseClient]
            | Some (resp0, _) =>
                let resp := extResponse (x_response x) req resp0 in
                (if logIt : bool then [Responded req resp] else []) ++
                if (rs_statusCode resp =? 101) && isWebSocketUpgrade req
                then ToClient (serializeUpgradeResponse resp) ::
                     (if x_clientWritten x then [EnterWebSocket (rq_host req) (rq_port req)] else [])
                else [ToClient (serializeResponse resp); CloseClient]
            end.

Lemma responseRules_out sv req resp : urlInScope_ sv req = false -> responseRules sv req resp = resp.
Proof.
  intros Ho. unfold responseRules. pose proof (applyResponseRules_spec (sv_policy sv) req resp) as Hs.
  destruct (applyResponseRules _ _ _) as [resp' n]. destruct Hs as (Hs & _). by apply Hs.
Qed.

(** Traffic out of scope is proxied and nothing else: no match-and-replace
    rule, captured cookie, session value or operator touches a plain request or
    its response, whatever the settings; only extensions apply.  It reaches
    the History exactly when the operator opted in, and is counted as filtered
    otherwise. *)
Theorem plain_out_of_scope segs connected x t read c :
  readRequestFrom segs = Some (read, c) -> u_cieq (rq_method read) (lit "CONNECT") = false ->
  let req0 := rewriteHostPort read in let req := extRequest (x_request x) req0 in
  urlInScope_ (x_request x) req0 = false -> urlInScope_ (x_request x) req = false -> urlInScope_ (x_response x) req = false ->
  let logIt := sv_logOutOfScope (x_request x) in
  fst (run maxOut segs connected x t) = direct (if logIt then Received req0 else Filtered) logIt connected x req.
Proof.
  intros Hr Hm req0 req H1 H2 H3 logIt. unfold run. rewrite Hr, Hm. unfold runPlain. cbv zeta. fold req0. rewrite H1. cbn [orb].
  fold logIt. rewrite fst_bind_emit. unfold direct. f_equal.
  assert (Hout : outgoing (x_request x) req0 = req) by (unfold outgoing, applyRequestRules; fold req; by rewrite H2).
  rewrite Hout. destruct connected; [|done]. cbn [negb].
  assert (Hs : forall host port tls, sending x false req host port tls = passed (serializeRequestForOrigin req)).
  { intros. unfold sending, gateRequest. by destruct (sv_intercept _). }
  rewrite !Hs. cbn [passed ir_dropped ir_bytes ir_holdResponse]. rewrite fst_bind_emit. f_equal.
  destruct (x_upstreamWritten x); [|done]. cbn [negb]. destruct (readResponse maxOut (x_upstream x)) as [[resp0 u]|]; [|done].
  assert (Hi : incoming (x_response x) req resp0 = extResponse (x_response x) req resp0) by (unfold incoming; by apply responseRules_out).
  rewrite Hi. set (resp := extResponse _ _ _).
  assert (Hl : forall m : M unit, fst (bind (if logIt then emit (Responded req resp) else ret tt) (fun _ => m))
    = (if logIt then [Responded req resp] else []) ++ fst m) by (intros m; destruct logIt; [done|by rewrite bind_ret]).
  rewrite Hl. f_equal. destruct (_ && isWebSocketUpgrade req); [by destruct (x_clientWritten x)|].
  assert (Hd : forall host port, delivering x false resp host port false false = passed (serializeResponse resp)).
  { intros. unfold delivering, resolveResponseForClient. by destruct (sv_intercept _). }
  by rewrite Hd.
Qed.

(** *** A proxy with nothing configured *)

Record inert (sv : Server) : Prop := mkInert {
  in_rules : ProxyPolicy.m_rules (sv_policy sv) = [];
  in_jar : sv_jar sv = None;
  in_session : sv_session sv = None;
  in_extensions : sv_extensions sv = None;
  in_intercept : forall ic, sv_intercept sv = Some ic -> m_enabled ic = false /\ m_enabledResponses ic = false
}.

Lemma inert_rules sv req : inert sv -> applyRequestRules sv req = req.
Proof.
  intros [Hr Hj Hs _ _]. unfold applyRequestRules. rewrite Hj, Hs. destruct (negb _); [done|].
  pose proof (matchReplaceRequest_spec (sv_policy sv) req) as Hm. unfold matchReplaceRequest in *. rewrite Hr in *.
  cbn [request_rules] in *. by destruct (negb _).
Qed.

Lemma inert_outgoing sv req : inert sv -> outgoing sv req = req.
Proof. intros Hi. unfold outgoing, extRequest. rewrite (in_extensions _ Hi). by apply inert_rules. Qed.

Lemma inert_incoming sv req resp : inert sv -> incoming sv req resp = resp.
Proof.
  intros Hi. unfold incoming, extResponse, responseRules, applyResponseRules. by rewrite (in_extensions _ Hi), (in_rules _ Hi).
Qed.

Lemma inert_sending x sc req host port tls :
  inert (x_request x) -> sending x sc req host port tls = passed (serializeRequestForOrigin req).
Proof.
  intros Hi. unfold sending, gateRequest, pend, pend_holds. destruct (sv_intercept _) as [ic|] eqn:E; [|done].
  destruct (in_intercept _ Hi ic E) as [-> _]. by destruct sc.
Qed.

Lemma inert_delivering x sc resp host port tls :
  inert (x_response x) -> delivering x sc resp host port tls false = passed (serializeResponse resp).
Proof.
  intros Hi. unfold delivering, resolveResponseForClient. destruct (sv_intercept _) as [ic|] eqn:E; [|done].
  destruct (in_intercept _ Hi ic E) as [_ ->]. cbn. by rewrite andb_false_r.
Qed.

Lemma inert_exchange host port c u x read c1 resp u1 :
  inert (x_request x) -> inert (x_response x) -> x_upstreamWritten x = true -> x_clientWritten x = true ->
  readRequestFrom (c ++ x_client x) = Some (read, c1) ->
  readResponse maxOut (u ++ x_upstream x) = Some (resp, u1) -> rs_statusCode resp <> 101 ->
  let req := tunnelled host port read in
  h1Exchange maxOut host port c u x =
    ([Received req; ToUpstream (serializeRequestForOrigin req); Responded req resp; ToClient (serializeResponse resp)],
     Some (if wantsClose req resp then Break else Again c1 u1)).
Proof.
  intros Hi1 Hi2 Hu Hc Hr Hp Hs req. unfold h1Exchange. rewrite Hr. cbv zeta. fold req.
  rewrite inert_outgoing, inert_sending by done. cbn [passed ir_dropped ir_bytes ir_holdResponse].
  rewrite Hu, Hp, inert_incoming by done. rewrite (proj2 (Z.eqb_neq _ _) Hs).
  rewrite inert_delivering by done. cbn [passed ir_dropped ir_bytes]. rewrite Hc. done.
Qed.
End Contract.

(** C10. With nothing configured the intercepted HTTP/1.1 tunnel is transparent: an
    exchange whose request is read, whose answer is read and does not switch the
    protocol, and whose two writes succeed announces the request, forwards it, records
    the response and delivers it, and does nothing else.  If moreover the request is no
    CONNECT, its target starts with a slash, its first line has no LF of its own and its
    field names are ASCII, an origin that reads with the same rules gets the method,
    the target, the version, the body and, in their order, the header fields the
    client sent, minus those of the proxy hop and those without a name.  (With an LF
    it gets more: [bare_lf_repeats_field]; a CONNECT skips the framing guard:
    [tunnelled_connect_unguarded].) *)
Theorem inert_exchange_transparent `{QtTextLaws, RX : QtRegex, RR : QtReplace, J : QtJson, CP : QtCapture, U : QtUrl, D : QtDate, ZL : Zlib}
    maxOut host port c u x read c1 resp u1 :
  inert (x_request x) -> inert (x_response x) -> x_upstreamWritten x = true -> x_clientWritten x = true ->
  readRequestFrom (c ++ x_client x) = Some (read, c1) ->
  readResponse maxOut (u ++ x_upstream x) = Some (resp, u1) -> rs_statusCode resp <> 101 ->
  exists out,
    fst (h1Exchange maxOut host port c u x) =
      [Received (tunnelled host port read); ToUpstream out; Responded (tunnelled host port read) resp;
       ToClient (serializeResponse resp)] /\
    (Forall wf_bytes (c ++ x_client x) -> u_cieq (rq_method read) (lit "CONNECT") = false -> starts_with_chr 47 (rq_target read) = true ->
     10 ∉ request_line read -> Forall (fun h => all_ascii (fst h) = true) (rq_headers read) ->
     readRequestFrom [out] = Some (with_headers (List.filter forwarded (rq_headers read)) read, [])).
Proof.
  intros Hi1 Hi2 Hu Hc Hr Hp Hs.
  exists (serializeRequestForOrigin (tunnelled host port read)).
  rewrite (inert_exchange maxOut host port c u x read c1 resp u1) by done. split; [done|]. intros Hw Hm Hsl Hlf Ha.
  destruct (readRequestFrom_shape _ _ _ Hw Hr) as (Hpw & Hp32 & Hpt & Hho).
  assert (Hpath : rq_path (tunnelled host port read) = rq_target read).
  { cbn. rewrite Hpt, Hsl. by destruct (rq_target read). }
  erewrite reread_forwarded; [|exact Hw|exact Hr|done..| | | |done].
  - rewrite Hpath. rewrite Hho. done.
  - by rewrite Hpath.
  - by rewrite Hpath.
  - unfold request_line in *. rewrite Hpath. by rewrite <- Hpt.
Qed.

(** ** Defects and witnesses *)

(** Absolute http URLs without user, port or fragment. *)
Definition sampleUserInput : QtUserInput := {|
  url_fromUserInput s :=
    if starts_with (lit "http://") s then
      let r := drop 7 s in
      let authority := take_while (fun c => negb ((c =? 47) || (c =? 63))) r in
      let tl := drop (length authority) r in
      let path := take_while (fun c => negb (c =? 63)) tl in
      let q := drop (length path) tl in
      Some (mkUserUrl authority None path (match q with _ :: q' => Some q' | [] => None end))
    else None
|}.

(** A pattern matches the text it is the anchored form of. *)
Definition exactRegex : QtRegex := {| rx_valid _ _ := true; rx_match _ p s := seq_eqb p (anchored s); rx_wildcard p := p |}.

Section Examples.
#[local] Existing Instances asciiText exactRegex literalReplace noJson noCapture sampleUrl noDates storedZlib sampleUserInput.

Definition ex_server : Server := mkServer (mkPolicy [] [] [] [] [] 0 ∅ ∅) None None None None false.
Definition ex_verdict : Verdict := mkVerdict initController 0 None false.
Definition ex_noRelay : RelayInput := mkRelayInput [] [] false [].
Definition ex_h2 : H2Result := mkH2Result false true (mkResponse [] 0 [] [] [] [] false).
Definition ex_exchange (client upstream : list bytes) : Exchange :=
  mkExchange client upstream ex_server ex_server ex_verdict ex_verdict true true ex_h2 ex_noRelay.
Definition ex_tunnel (xs : list Exchange) (ss : list Stream) : Tunnel :=
  mkTunnel ex_server ∅ true (fun _ => Some true) true true ex_noRelay true true (if is_nil ss then [] else lit "h2") true [] [] xs ss true.
Definition ex_blind (r : RelayInput) : Tunnel :=
  mkTunnel ex_server ∅ true (fun _ => None) true true r true false [] true [] [] [] [] true.

(** Header lines and their blank line. *)
Definition crlf_lines (ls : list bytes) : bytes := flat_map (fun l => l ++ CRLF) ls ++ CRLF.
Definition ex_get (method path : qstr) : bytes := crlf_lines [method ++ lit " " ++ path ++ lit " HTTP/1.1"; lit "Host: h"].
Definition ex_response (n : Z) (reason : qstr) (fields : list bytes) : bytes :=
  crlf_lines ((lit "HTTP/1.1 " ++ number 10 n ++ lit " " ++ reason) :: fields).

(** What each side was sent. *)
Definition client_bytes (tr : list Event) : list bytes := omap (fun e => match e with ToClient b => Some b | _ => None end) tr.
Definition upstream_bytes (tr : list Event) : list bytes := omap (fun e => match e with ToUpstream b => Some b | _ => None end) tr.
Definition reasons (tr : list Event) : list FailReason := omap (fun e => match e with Failed w => Some w | _ => None end) tr.
Definition dialled (tr : list Event) : list (qstr * Z) := omap (fun e => match e with Received r => Some (rq_host r, rq_port r) | _ => None end) tr.
Definition relayed (tr : list Event) : bytes := flat_map (fun e => match e with RelayToUpstream b => b | _ => [] end) tr.

(** Defect: the response reader does not know the request's method.  The answer to
    a HEAD carries the Content-Length of the body it omits; the proxy waits for
    that body until its timeout and fails the connection.  The same answer to
    another method fails rightly. *)
Theorem head_response_starves :
  let run method := fst (h1Loop 1000 (lit "h") 443 [] []
    [ex_exchange [ex_get method (lit "/")] [ex_response 200 (lit "OK") [lit "Content-Length: 5"]]]) in
  reasons (run (lit "HEAD")) = [MalformedResponse] /\ client_bytes (run (lit "HEAD")) = [].
Proof. split; vm_compute; reflexivity. Qed.

(** Defect: an interim response is taken for the final one.  The client gets
    "103 Early Hints" with a Content-Length as the answer to its first
    request, and the answer to the first request as that to the second. *)
Theorem interim_response_desync :
  let early := ex_response 103 (lit "Early Hints") [lit "Link: x"] in
  let final1 := ex_response 200 (lit "First") [lit "Content-Length: 0"] in
  let final2 := ex_response 200 (lit "Second") [lit "Content-Length: 0"] in
  client_bytes (fst (h1Loop 1000 (lit "h") 443 [] []
    [ex_exchange [ex_get (lit "GET") (lit "/1")] [early; final1]; ex_exchange [ex_get (lit "GET") (lit "/2")] [final2]]))
  = [ex_response 103 (lit "Early Hints") [lit "Link: x"; lit "Content-Length: 0"]; final1].
Proof. vm_compute. reflexivity. Qed.

(** Defect: a CONNECT to an IPv6 literal is split at the first colon. *)
Theorem connect_ipv6_split :
  dialled (fst (run 1000 [crlf_lines [lit "CONNECT [2001:db8::1]:443 HTTP/1.1"]] true (ex_exchange [] []) (ex_blind ex_noRelay)))
  = [(lit "[2001", 0)].
Proof. vm_compute. reflexivity. Qed.

(** Defect: bytes the client sent behind the CONNECT head, in the same segment, never
    reach the tunnel; in a segment of their own they do. *)
Theorem connect_early_bytes_lost :
  let head := crlf_lines [lit "CONNECT h:443 HTTP/1.1"] in
  let t := ex_blind (mkRelayInput [] [] true []) in
  relayed (fst (run 1000 [head ++ lit "hello"] true (ex_exchange [] []) t)) = [] /\
  relayed (fst (run 1000 [head; lit "hello"] true (ex_exchange [] []) t)) = lit "hello".
Proof. split; vm_compute; reflexivity. Qed.

(** Defect: an absolute target with an empty path and a query is forwarded without
    the slash the request line needs. *)
Theorem empty_path_query :
  rq_path (rewriteHostPort (mkRequest (lit "GET") (lit "http://h?q=1") (lit "HTTP/1.1") [] 80 false (lit "http://h?q=1") [] []))
  = lit "?q=1".
Proof. vm_compute. reflexivity. Qed.

(** Defect: for an HTTP/2 browser and an HTTP/1.1 origin the request line has no
    version and the request no Host field. *)
Theorem h2_browser_h1_origin_malformed :
  let s := mkStream [(lit ":method", lit "GET"); (lit ":scheme", lit "https"); (lit ":authority", lit "h"); (lit ":path", lit "/")]
             [] true (ex_exchange [] [ex_response 200 (lit "OK") [lit "Content-Length: 0"]]) in
  upstream_bytes (fst (runMitmTunnel 1000 [] (lit "h") 443 true (ex_tunnel [] [s]))) = [lit "GET / " ++ CRLF ++ CRLF].
Proof. vm_compute. reflexivity. Qed.

(** Defect: inside a tunnel a request whose method is CONNECT skips the framing
    guard: conflicting lengths, refused for any other method, are forwarded. *)
Theorem tunnelled_connect_unguarded :
  let ask method := crlf_lines [method ++ lit " /x HTTP/1.1"; lit "Content-Length: 5"; lit "Transfer-Encoding: chunked"] in
  let run method := fst (h1Loop 1000 (lit "h") 443 [] [] [ex_exchange [ask method] [ex_response 200 (lit "OK") [lit "Content-Length: 0"]]]) in
  upstream_bytes (run (lit "CONNECT")) = [ask (lit "CONNECT")] /\ upstream_bytes (run (lit "POST")) = [].
Proof. split; vm_compute; reflexivity. Qed.

(** Only [/app] of the host is in scope. *)
Definition ex_scoped : Server :=
  mkServer (mkPolicy [] [] (compile [mkScopeRule true true ProtoAny (lit "h") 0 0 (lit "/app")]) [] [] 0 ∅ ∅) None None None None false.
Definition ex_scoped_exchange : Exchange :=
  mkExchange [] [] ex_scoped ex_scoped ex_verdict ex_verdict true true ex_h2 ex_noRelay.

(** Divergence: in a tunnel the scope is decided for the host only.  A URL outside
    the advanced scope is filtered as plain HTTP and announced (and held) as HTTPS. *)
Theorem tunnel_ignores_url_scope :
  let x := ex_scoped_exchange in
  let plain := fst (run 1000 [crlf_lines [lit "GET http://h/private HTTP/1.1"]] false x (ex_tunnel [] [])) in
  let tunnel := fst (h1Loop 1000 (lit "h") 443 [ex_get (lit "GET") (lit "/private")] [] [x]) in
  isInScope (sv_policy ex_scoped) (lit "h") = true /\
  isUrlInScope (sv_policy ex_scoped) true (lit "h") 443 (lit "/private") = false /\
  none announces plain = true /\ none announces tunnel = false.
Proof. repeat split; vm_compute; reflexivity. Qed.

(** *** Witnesses *)

Definition ex_trace : list Event :=
  fst (run 1000 [crlf_lines [lit "GET http://h/a HTTP/1.1"]] true (ex_exchange [] [ex_response 200 (lit "OK") [lit "Content-Length: 0"]])
         (ex_tunnel [] [])).

Lemma upstream_bytes_gated_witness :
  exists pre b post, ex_trace = pre ++ ToUpstream b :: post /\ b = crlf_lines [lit "GET /a HTTP/1.1"] /\
    exists x req0 hold, request_gate Direct x req0 b hold.
Proof.
  exists (take 1 ex_trace), (crlf_lines [lit "GET /a HTTP/1.1"]), (drop 2 ex_trace).
  assert (E : ex_trace = take 1 ex_trace ++ ToUpstream (crlf_lines [lit "GET /a HTTP/1.1"]) :: drop 2 ex_trace)
    by (vm_compute; reflexivity).
  split; [exact E|]. split; [reflexivity|].
  destruct (upstream_bytes_gated 1000 _ _ _ _ _ _ _ E) as (leg & req & b' & (x & req0 & pre' & hold & Ha & Hp & Hr & Hg) & Hb).
  destruct Ha as [read rest|x c read rest host port (read1 & c1 & n & Hs & Hm & _)|s host port (read1 & c1 & n & Hs & Hm & _)].
  - cbn [leg_terminated] in Hb. rewrite Hb. eexists _, _, hold. exact Hg.
  - vm_compute in Hs. injection Hs as <- <-. vm_compute in Hm. discriminate Hm.
  - vm_compute in Hs. injection Hs as <- <-. vm_compute in Hm. discriminate Hm.
Defined.

Definition ex_connect (target : qstr) : HttpRequest :=
  mkRequest (lit "CONNECT") target (lit "HTTP/1.1") [] 80 false target [] [].

(** Only the host "other" is in scope. *)
Definition ex_other (r : RelayInput) : Tunnel :=
  mkTunnel (mkServer (mkPolicy [glob_pattern (lit "other")] [] [] [] [] 0 ∅ ∅) None None None None false) ∅ true
    (fun _ => Some true) true true r true false [] true [] [] [] [] true.

Lemma connect_decrypts_only_witness :
  let tr := fst (runTunnel 1000 [lit "ab"] (ex_connect (lit "h:443")) (ex_other (mkRelayInput (lit "c") (lit "x") true [(true, lit "d")]))) in
  exists relay, tr = [Filtered; Acked; EnterRelay] ++ relay /\ raw_up relay = lit "abcd" /\ raw_down relay = lit "x".
Proof.
  destruct (connect_decrypts_only 1000 [lit "ab"] (ex_connect (lit "h:443")) (ex_other (mkRelayInput (lit "c") (lit "x") true [(true, lit "d")])) 0)
    as [_ Hout]; [reflexivity|]. apply Hout. left. reflexivity.
Defined.

(** The client refuses the forged leaf. *)
Definition ex_refused : Tunnel :=
  mkTunnel ex_server ∅ true (fun _ => Some true) true true ex_noRelay false false [] true [] [] [] [] true.

Lemma blocklist_learning_witness :
  fst (runTunnel 1000 [] (ex_connect (lit "h:443")) ex_refused)
    = [Acked] ++ Blocked (lit "h") :: [Failed ClientHandshakeFailed; CloseClient] /\
  block_cause ex_refused (lit "h:443").
Proof.
  assert (E : fst (runTunnel 1000 [] (ex_connect (lit "h:443")) ex_refused)
    = [Acked] ++ Blocked (lit "h") :: [Failed ClientHandshakeFailed; CloseClient]) by (vm_compute; reflexivity).
  split; [exact E|].
  destruct (blocklist_learning 1000 [] (ex_connect (lit "h:443")) ex_refused 0 [Acked] (lit "h")
    [Failed ClientHandshakeFailed; CloseClient] eq_refl E) as (_ & _ & _ & Hc & _). exact Hc.
Defined.

(** A rule that would rewrite every body, and a scope that excludes the host. *)
Definition ex_rewriting : Server :=
  mkServer (mkPolicy [glob_pattern (lit "other")] [] [] (ProxyPolicy.m_rules ex_policy) (m_compiledRules ex_policy) 0 ∅ ∅)
    None None None None false.
Definition ex_rewriting_exchange : Exchange :=
  mkExchange [] [ex_response 200 (lit "OK") [lit "Content-Length: 3"] ++ lit "cat"] ex_rewriting ex_rewriting ex_verdict ex_verdict
    true true ex_h2 ex_noRelay.
Definition ex_post : bytes := crlf_lines [lit "POST http://h/a HTTP/1.1"; lit "Content-Length: 3"] ++ lit "cat".

Lemma plain_out_of_scope_witness :
  fst (run 1000 [ex_post] true ex_rewriting_exchange (ex_tunnel [] []))
  = [Filtered; ToUpstream (crlf_lines [lit "POST /a HTTP/1.1"; lit "Content-Length: 3"] ++ lit "cat");
     ToClient (ex_response 200 (lit "OK") [lit "Content-Length: 3"] ++ lit "cat"); CloseClient].
Proof.
  assert (E : exists read c, readRequestFrom [ex_post] = Some (read, c) /\ u_cieq (rq_method read) (lit "CONNECT") = false /\
    rewriteHostPort read = mkRequest (lit "POST") (lit "http://h/a") (lit "HTTP/1.1") (lit "h") 80 false (lit "/a")
      [(lit "Content-Length", lit "3")] (lit "cat")).
  { eexists _, _. repeat split; vm_compute; reflexivity. }
  destruct E as (read & c & Hr & Hm & Hw).
  rewrite (plain_out_of_scope 1000 [ex_post] true ex_rewriting_exchange (ex_tunnel [] []) read c Hr Hm);
    rewrite ?Hw; vm_compute; reflexivity.
Defined.

Definition ex_inert : Exchange :=
  ex_exchange [crlf_lines [lit "PUT /a HTTP/1.1"; lit "Host: h"; lit "Proxy-Connection: x"; lit "Content-Length: 2"] ++ lit "hi"]
    [ex_response 200 (lit "OK") [lit "Content-Length: 0"]].

Lemma inert_exchange_transparent_witness :
  exists out read, upstream_bytes (fst (h1Exchange 1000 (lit "h") 443 [] [] ex_inert)) = [out] /\
    readRequestFrom [out] = Some (read, []) /\ rq_body read = lit "hi" /\
    rq_headers read = [(lit "Host", lit "h"); (lit "Content-Length", lit "2")].
Proof.
  set (read := mkRequest (lit "PUT") (lit "/a") (lit "HTTP/1.1") [] 80 false (lit "/a")
    [(lit "Host", lit "h"); (lit "Proxy-Connection", lit "x"); (lit "Content-Length", lit "2")] (lit "hi")).
  assert (Hi : inert ex_server) by (split; [reflexivity..|discriminate]).
  destruct (inert_exchange_transparent 1000 (lit "h") 443 [] [] ex_inert read []
    (mkResponse (lit "HTTP/1.1") 200 (lit "OK") [(lit "Content-Length", lit "0")] [] [] false) [])
    as (out & Ht & Hr).
  - exact Hi.
  - exact Hi.
  - reflexivity.
  - reflexivity.
  - vm_compute. reflexivity.
  - vm_compute. reflexivity.
  - discriminate.
  - exists out, (with_headers (List.filter forwarded (rq_headers read)) read).
    rewrite Ht. split; [reflexivity|]. split; [|split; reflexivity]. apply Hr.
    + apply (bool_decide_unpack _). vm_compute. exact I.
    + reflexivity.
    + reflexivity.
    + apply index_of_None. reflexivity.
    + repeat constructor.
Defined.
End Examples.
