(* ===== verification/CertLogic.v ===== *)
(** * Host validation for the MITM CA: Src/BackEnd/Proxy/cert_logic.{hpp,cpp}

    The host comes from the CONNECT target or the TLS server name, so it is
    attacker-influenced; it flows into the openssl subject, the SAN extension
    file and the leaf's file name.  [QChar::isLetterOrNumber] is a parameter. *)

From S2P Require Import Prelude Qt QtSample.

Local Open Scope Z_scope.

Class QtChar := { u_alnum : Z -> bool (* QChar::isLetterOrNumber *) }.

Definition ascii_alnum (c : Z) : bool :=
  is_digit c || ((65 <=? c) && (c <=? 90)) || ((97 <=? c) && (c <=? 122)).

Class QtCharLaws (C : QtChar) : Prop := {
  law_alnum_ascii c : is_ascii c = true -> u_alnum c = ascii_alnum c
}.

Section CertLogic.
Context `{QtText} `{QtChar}.

(** One of the two marks or the dot. *)
Definition host_mark (c : Z) : bool := (c =? 45) || (c =? 46) || (c =? 95).

Definition sanitize (host : qstr) : qstr :=
  map (fun c => if u_alnum c || host_mark c then c else 95) host.

(** One octet: one to three ASCII digits, at most 255. *)
Definition ipv4_octet (p : qstr) : bool :=
  if is_nil p || (3 <? zlen p) then false
  else if negb (forallb is_digit p) then false
  else match u_toint 10 p with
       | None => false
       | Some v => negb ((v <? 0) || (255 <? v))
       end.

Definition isIpv4Literal (host : qstr) : bool :=
  let parts := split_on 46 host in
  if negb (length parts =? 4)%nat then false else forallb ipv4_octet parts.

Definition is_hex (u : Z) : bool :=
  ((48 <=? u) && (u <=? 57)) || ((97 <=? u) && (u <=? 102)) || ((65 <=? u) && (u <=? 70)).

Definition ipv6_group (g : qstr) : bool :=
  if is_nil g || (4 <? zlen g) then false else forallb is_hex g.

(** The groups of the text with any embedded IPv4 tail already replaced. *)
Definition ipv6_groups (host : qstr) : option (list qstr) :=
  let dc := index_sub (lit "::") host in
  let twice :=
    match dc with
    | Some d => match index_sub_from (lit "::") host (d + 2) with Some _ => true | None => false end
    | None => false
    end in
  if twice then None
  else if (starts_with_chr 58 host && negb (starts_with (lit "::") host))
          || (ends_with_chr 58 host && negb (ends_with (lit "::") host)) then None
  else match dc with
       | Some d =>
           let before := take d host in
           let after := drop (d + 2) host in
           let b := if is_nil before then [] else split_on 58 before in
           let a := if is_nil after then [] else split_on 58 after in
           if (8 <=? length b + length a)%nat then None else Some (b ++ a)
       | None =>
           let groups := split_on 58 host in
           if negb (length groups =? 8)%nat then None else Some groups
       end.

Definition isIpv6Literal (hostIn : qstr) : bool :=
  if is_nil hostIn || (45 <? zlen hostIn) then false
  else if contains_chr 37 hostIn then false
  else
    let host :=
      if contains_chr 46 hostIn then
        match last_index_of 58 hostIn with
        | None => None
        | Some lc =>
            if negb (isIpv4Literal (drop (lc + 1) hostIn)) then None
            else Some (take (lc + 1) hostIn ++ lit "0:0")
        end
      else Some hostIn in
    match host with
    | None => false
    | Some h => match ipv6_groups h with None => false | Some gs => forallb ipv6_group gs end
    end.

Definition isValidHostForCert (host : qstr) : bool :=
  if is_nil host then false
  else if isIpv6Literal host then true
  else if 253 <? zlen (u_toutf8 host) then false
  else if starts_with_chr 45 host || starts_with_chr 95 host then false
  else if negb (forallb (fun c => u_alnum c || host_mark c) host) then false
  else if starts_with_chr 46 host || ends_with_chr 46 host then false
  else if contains_sub (lit "..") host then false
  else true.

Definition sanEntryForHost (host : qstr) : qstr :=
  if isIpv4Literal host || isIpv6Literal host then lit "IP:" ++ host else lit "DNS:" ++ host.
End CertLogic.

(** ** What reaches openssl *)

Section CertSpec.
Context `{QtText} `{QtCharLaws}.

(** The characters of an IPv6 literal. *)
Definition ipv6_char (c : Z) : bool := is_hex c || (c =? 58) || (c =? 46).

Lemma in_split_part sep s p x : p ∈ split_on sep s -> x ∈ p -> x ∈ s.
Proof.
  intros Hp Hx. rewrite <- (join_split sep s). revert Hp. generalize (split_on sep s). intros ps Hp.
  induction ps as [|q ps IH]; [by apply not_elem_of_nil in Hp|].
  apply elem_of_cons in Hp as [->|Hp].
  - destruct ps; cbn [join]; [done|]. rewrite elem_of_app. by left.
  - destruct ps as [|q' ps]; [by apply not_elem_of_nil in Hp|].
    cbn [join]. rewrite !elem_of_app. right. right. by apply IH.
Qed.

(** Every character of the text is the separator or in a part. *)
Lemma in_split sep s x : x ∈ s -> x = sep \/ exists p, p ∈ split_on sep s /\ x ∈ p.
Proof.
  induction s as [|y s IH]; intros Hx; [by apply not_elem_of_nil in Hx|].
  cbn [split_on]. destruct (y =? sep) eqn:E; to_prop.
  - apply elem_of_cons in Hx as [->|Hx]; [by left|].
    destruct (IH Hx) as [->|(p & Hp & Hxp)]; [by left|right]. exists p. split; [by right|done].
  - assert (Hs : exists p ps, split_on sep s = p :: ps)
      by (destruct (split_on sep s) eqn:Es; [by apply split_on_not_nil in Es|eauto]).
    destruct Hs as (p & ps & Es). rewrite Es in *.
    apply elem_of_cons in Hx as [->|Hx]; [right; exists (y :: p); split; by left|].
    destruct (IH Hx) as [->|(q & Hq & Hxq)]; [by left|right].
    apply elem_of_cons in Hq as [->|Hq]; [exists (y :: p); split; [left|by right]|exists q; split; [by right|done]].
Qed.

Lemma ipv6_group_chars g x : ipv6_group g = true -> x ∈ g -> is_hex x = true.
Proof.
  unfold ipv6_group. destruct (_ || _); [done|]. rewrite forallb_forall. intros Hf Hx.
  apply Hf. by apply list_elem_of_In.
Qed.

Lemma split_group_chars s x : forallb ipv6_group (split_on 58 s) = true -> x ∈ s -> ipv6_char x = true.
Proof.
  intros Hg Hx. destruct (in_split 58 s x Hx) as [->|(p & Hp & Hxp)]; [done|].
  rewrite forallb_forall in Hg. apply list_elem_of_In in Hp. unfold ipv6_char.
  by rewrite (ipv6_group_chars p x (Hg p Hp) Hxp).
Qed.

Lemma ipv6_groups_chars h gs x :
  ipv6_groups h = Some gs -> forallb ipv6_group gs = true -> x ∈ h -> ipv6_char x = true.
Proof.
  unfold ipv6_groups. destruct (match index_sub _ _ with Some _ => _ | None => _ end); [done|].
  destruct (_ || _); [done|]. destruct (index_sub (lit "::") h) as [d|] eqn:Ed.
  - destruct (8 <=? _)%nat; [done|]. intros [= <-] Hg Hx. rewrite forallb_app in Hg. split_bools.
    destruct (index_sub_Some _ _ _ Ed) as (_ & Hs & _). apply starts_with_spec in Hs as [t Ht].
    rewrite <- (take_drop d h), Ht in Hx.
    assert (Ha : drop (d + 2) h = t) by (by rewrite <- drop_drop, Ht). rewrite Ha in *.
    apply elem_of_app in Hx as [Hx|Hx].
    + destruct (take d h) as [|y ys] eqn:Et; [by apply not_elem_of_nil in Hx|].
      apply (split_group_chars (y :: ys)); [|exact Hx]; assumption.
    + change (lit "::" ++ t) with (58 :: 58 :: t) in Hx. rewrite !elem_of_cons in Hx. destruct Hx as [->|[->|Hx]]; [done..|].
      destruct t as [|y ys]; [by apply not_elem_of_nil in Hx|].
      apply (split_group_chars (y :: ys)); [|exact Hx]; assumption.
  - destruct (negb _); [done|]. intros [= <-] Hg Hx. by eapply split_group_chars.
Qed.

Lemma ipv4_chars s x : isIpv4Literal s = true -> x ∈ s -> is_digit x = true \/ x = 46.
Proof.
  unfold isIpv4Literal. destruct (negb _); [done|]. intros Hf Hx.
  destruct (in_split 46 s x Hx) as [->|(p & Hp & Hxp)]; [by right|left].
  rewrite forallb_forall in Hf. apply list_elem_of_In, Hf in Hp. unfold ipv4_octet in Hp.
  destruct (_ || _); [done|]. destruct (forallb is_digit p) eqn:E; [|done].
  rewrite forallb_forall in E. apply E. by apply list_elem_of_In.
Qed.

Lemma digit_ipv6_char x : is_digit x = true -> ipv6_char x = true.
Proof. unfold is_digit, ipv6_char, is_hex. intros Hd. by rewrite Hd. Qed.

Lemma isIpv6Literal_chars h x : isIpv6Literal h = true -> x ∈ h -> ipv6_char x = true.
Proof.
  unfold isIpv6Literal. destruct (_ || _); [done|]. destruct (contains_chr 37 h); [done|].
  destruct (contains_chr 46 h).
  - destruct (last_index_of 58 h) as [lc|]; [|done].
    destruct (isIpv4Literal (drop (lc + 1) h)) eqn:E4; [|done]. cbn [negb].
    destruct (ipv6_groups _) as [gs|] eqn:Eg; [|done]. intros Hg Hx.
    rewrite <- (take_drop (lc + 1) h) in Hx. apply elem_of_app in Hx as [Hx|Hx].
    + eapply ipv6_groups_chars; [done|done|]. rewrite elem_of_app. by left.
    + destruct (ipv4_chars _ _ E4 Hx) as [Hd| ->]; [by apply digit_ipv6_char|done].
  - destruct (ipv6_groups h) as [gs|] eqn:Eg; [|done]. intros Hg Hx. by eapply ipv6_groups_chars.
Qed.

(** What a valid host may contain: letters and digits (of any script), '-', '.', '_' and ':'. *)
Lemma valid_host_chars host x :
  isValidHostForCert host = true -> x ∈ host ->
  u_alnum x = true \/ host_mark x = true \/ (x = 58 /\ isIpv6Literal host = true).
Proof.
  unfold isValidHostForCert. destruct (is_nil host); [done|]. destruct (isIpv6Literal host) eqn:E6.
  - intros _ Hx. pose proof (isIpv6Literal_chars _ _ E6 Hx) as Hc. unfold ipv6_char in Hc.
    apply orb_true_iff in Hc as [Hc|Hc]; [apply orb_true_iff in Hc as [Hc|Hc]|].
    + left. rewrite law_alnum_ascii; unfold is_hex, ascii_alnum, is_digit, is_ascii in *;
        apply orb_true_iff in Hc as [Hc|Hc]; [apply orb_true_iff in Hc as [Hc|Hc]| |apply orb_true_iff in Hc as [Hc|Hc]|];
        split_bools; to_prop; zdecides; try done; rewrite ?orb_true_r; try done.
      all: rewrite ?andb_true_iff, ?orb_true_iff, ?andb_true_iff, ?Z.leb_le; auto; try lia.
    + right. right. by to_prop.
    + right. left. unfold host_mark. by rewrite Hc, orb_true_r.
  - destruct (253 <? _); [done|]. destruct (_ || _); [done|].
    destruct (forallb _ host) eqn:Ef; [|done]. intros _ Hx. rewrite forallb_forall in Ef.
    apply list_elem_of_In, Ef, orb_true_iff in Hx. tauto.
Qed.
End CertSpec.

(** No injection through the intercepted host name: the SAN entry of a host that
    passes validation holds no line end, NUL, blank, quote, comma, slash,
    backslash, semicolon, '#' or '=', so it cannot add a line or a field to what openssl reads,
    and the host never starts with '-', so it is never taken for an option. *)
Theorem cert_host_no_injection `{QtText} `{QtCharLaws} host :
  isValidHostForCert host = true ->
  (forall x, x ∈ sanEntryForHost host -> x ∉ [0; 10; 13; 32; 34; 35; 39; 44; 47; 59; 61; 92]) /\
  starts_with_chr 45 host = false.
Proof.
  intros Hv. split.
  - intros x Hx.
    assert (Hok : is_ascii x = true -> ascii_alnum x = true \/ host_mark x = true \/ x = 58).
    { intros Ha. assert (Hin : x ∈ lit "IP:" \/ x ∈ lit "DNS:" \/ x ∈ host)
        by (unfold sanEntryForHost in Hx; destruct (_ || _) in Hx; apply elem_of_app in Hx; tauto).
      destruct Hin as [Hin|[Hin|Hin]];
        [apply list_elem_of_In in Hin; cbn in Hin;
         repeat (destruct Hin as [<-|Hin]; [by (left + (right; right))|]); done..|].
      destruct (valid_host_chars _ _ Hv Hin) as [Hc|[Hc|[-> _]]]; [|by auto|by auto].
      rewrite law_alnum_ascii in Hc by done. by left. }
    intros Hbad. apply list_elem_of_In in Hbad. cbn in Hbad.
    repeat (destruct Hbad as [<-|Hbad]; [by destruct (Hok eq_refl) as [?|[?|?]]|]). done.
  - destruct host as [|y host]; [done|]. cbn [starts_with_chr].
    apply not_true_iff_false. intros Hy. apply Z.eqb_eq in Hy. subst y.
    assert (Hc : isIpv6Literal (45 :: host) = false).
    { apply not_true_iff_false. intros Hc. by pose proof (isIpv6Literal_chars _ 45 Hc ltac:(left)). }
    unfold isValidHostForCert in Hv. rewrite Hc in Hv. cbn [is_nil] in Hv. by destruct (253 <? _).
Qed.

#[export] Instance asciiChar : QtChar := {| u_alnum := ascii_alnum |}.
#[export] Instance asciiChar_laws : QtCharLaws asciiChar.
Proof. by split. Qed.

Lemma cert_host_no_injection_witness :
  let QT := asciiText in
  starts_with_chr 45 (lit "api.example.com") = false.
Proof.
  intros QT. apply (cert_host_no_injection (H := asciiText) (lit "api.example.com")). reflexivity.
Defined.

(** Leaf files: [sanitize] is the identity on every valid host name that is not an
    IPv6 literal, as its comment promises for all valid hosts; for IPv6 literals, which
    validation was relaxed to accept, it is not, and two distinct valid hosts
    ("1::2" and "1__2") get the same leaf-file name. *)
Theorem sanitize_identity_except_ipv6 `{QtTextLaws} `{QtCharLaws} :
  (forall host, isValidHostForCert host = true -> isIpv6Literal host = false -> sanitize host = host) /\
  (isValidHostForCert (lit "1::2") = true /\ isValidHostForCert (lit "1__2") = true /\
   sanitize (lit "1::2") = sanitize (lit "1__2")).
Proof.
  split.
  - intros host Hv H6. unfold sanitize. rewrite <- (map_id host) at 2. apply map_ext_in. intros x Hx.
    apply list_elem_of_In in Hx. destruct (valid_host_chars _ _ Hv Hx) as [Hc|[Hc|[_ Hc]]];
      [by rewrite Hc|by rewrite Hc, orb_true_r|congruence].
  - split; [reflexivity|].
    assert (A1 : u_alnum 49 = true) by by rewrite law_alnum_ascii.
    assert (A2 : u_alnum 50 = true) by by rewrite law_alnum_ascii.
    assert (A3 : u_alnum 95 = false) by by rewrite law_alnum_ascii.
    assert (A4 : u_alnum 58 = false) by by rewrite law_alnum_ascii.
    split.
    + unfold isValidHostForCert. change (isIpv6Literal (lit "1__2")) with false.
      rewrite law_toutf8_ascii by done.
      assert (forallb (fun c => u_alnum c || host_mark c) (lit "1__2") = true) as ->; [|reflexivity].
      change (lit "1__2") with [49; 95; 95; 50]. cbn [forallb]. by rewrite A1, A2, A3.
    + change (lit "1__2") with [49; 95; 95; 50]. change (lit "1::2") with [49; 58; 58; 50].
      unfold sanitize. cbn [map]. by rewrite A1, A2, A3, A4.
Qed.

Lemma sanitize_identity_except_ipv6_witness :
  let QT := asciiText in
  lit "1::2" <> lit "1__2" /\ sanitize (lit "1::2") = sanitize (lit "1__2").
Proof.
  intros QT. split; [discriminate|].
  apply (proj2 (proj2 (proj2 (sanitize_identity_except_ipv6 (Q := asciiText) (C := asciiChar))))).
Defined.
