(* ===== verification/ControlLogic.v ===== *)
(** * The control server's pure decisions: Src/BackEnd/Control/control_logic.cpp

    The security gate (Host, method, Origin, bearer token), path confinement, the
    escaping of attacker-controlled text in reports, report filters, the pre-screen of
    search patterns, presets and the configuration envelope. *)

From S2P Require Import Prelude Qt QtSample QMap Json Utf8 CertLogic SessionRules Transcode.

Local Open Scope Z_scope.

(** [QUrlQuery]: [hasQueryItem] and [queryItemValue]; [toDouble() > 0.0] and
    [QString::number(toDouble(), 'f', 1)] of a JSON value. *)
Class QtReport (Query : Type) := {
  qq_has : Query -> qstr -> bool;
  qq_value : Query -> qstr -> qstr;
  js_positive : json -> bool;
  js_fixed1 : json -> qstr
}.

Section ControlLogic.
Context {Q : QtText} {CH : QtChar} {C : QtCodecs} {Query : Type} {QR : QtReport Query}.

(** ** The gate *)

Definition isHostAllowed (hostHdr : qstr) (port : Z) : bool :=
  if is_nil hostHdr then true
  else
    let p := number 10 port in
    bool_decide (u_lower hostHdr ∈ [lit "127.0.0.1:" ++ p; lit "localhost:" ++ p; lit "[::1]:" ++ p; lit "127.0.0.1"; lit "localhost"; lit "[::1]"]).

Definition isMethodAllowed (method : qstr) : bool :=
  bool_decide (method ∈ [lit "GET"; lit "POST"; lit "PUT"; lit "PATCH"; lit "DELETE"; lit "HEAD"; lit "OPTIONS"]).

Definition isReadMethod (method : qstr) : bool :=
  seq_eqb method (lit "GET") || seq_eqb method (lit "HEAD") || seq_eqb method (lit "OPTIONS").

Definition isRequestAuthorized (method origin nullockHdr : qstr) (port : Z) : bool :=
  if isReadMethod method then true
  else
    let p := number 10 port in
    let originOk := seq_eqb origin (lit "http://127.0.0.1:" ++ p) || seq_eqb origin (lit "http://localhost:" ++ p) in
    let tokenOk := seq_eqb nullockHdr (lit "1") || seq_eqb (u_lower nullockHdr) (lit "true") in
    originOk || tokenOk.

Definition bearerToken (authHeaderValue : qstr) : qstr :=
  let v := u_trimmed authHeaderValue in
  let scheme := lit "bearer" in
  if zlen v <=? zlen scheme then []
  else if negb (seq_eqb (u_lower (take (length scheme) v)) scheme) then []
  else if negb (u_space (nth (length scheme) v 0)) then []
  else u_trimmed (drop (length scheme) v).

(** The fold over the longer of the two byte strings, each indexed modulo its length. *)
Fixpoint diff_loop (n : nat) (i : nat) (ab bb : bytes) (diff : Z) : Z :=
  match n with
  | O => diff
  | S n' => diff_loop n' (S i) ab bb (Z.lor diff (Z.lxor (nth (i mod length ab) ab 0) (nth (i mod length bb) bb 0)))
  end.
Definition constantTimeEquals (a b : qstr) : bool :=
  let ab := u_toutf8 a in
  let bb := u_toutf8 b in
  if is_nil ab || is_nil bb then is_nil ab && is_nil bb
  else diff_loop (Nat.max (length ab) (length bb)) 0 ab bb (Z.lxor (Word.u32 (zlen ab)) (Word.u32 (zlen bb))) =? 0.

Definition isTokenAuthorized (authHeaderValue configuredToken : qstr) : bool :=
  if is_nil configuredToken then false
  else
    let presented := bearerToken authHeaderValue in
    if is_nil presented then false else constantTimeEquals presented configuredToken.

(** ** Escaping *)

Definition control (u : Z) : bool := u <? 32.
Definition md_code_char (u : Z) : qstr := if u =? 96 then [] else if control u || (u =? 127) then [32] else [u].
Definition mdCodeSpanSafe (s : qstr) : qstr := flat_map md_code_char s.

Definition kMeta : qstr := lit "\`*_[]()<>|!#".
Definition md_text_char (u : Z) : qstr :=
  if control u || (u =? 127) then [32] else (if bool_decide (u ∈ kMeta) then [92] else []) ++ [u].
Definition mdTextSafe (s : qstr) : qstr := flat_map md_text_char s.

Definition xml_char (u : Z) : qstr :=
  if control u then [32]
  else if u =? 38 then lit "&amp;" else if u =? 60 then lit "&lt;" else if u =? 62 then lit "&gt;"
  else if u =? 34 then lit "&quot;" else if u =? 39 then lit "&apos;" else [u].
Definition xmlAttrEscape (s : qstr) : qstr := flat_map xml_char s.

(** ** The XML report *)

Definition str (f : list (qstr * json)) (k : qstr) : qstr := toString (value f k).
Definition attr (name val : qstr) : qstr := if is_nil val then [] else [32] ++ name ++ lit "=" ++ [34] ++ xmlAttrEscape val ++ [34].
Definition el (tag val : qstr) : qstr :=
  if is_nil val then [] else lit "    <" ++ tag ++ lit ">" ++ xmlAttrEscape val ++ lit "</" ++ tag ++ lit ">" ++ [10].

Definition issueXml (v : json) : qstr :=
  let f := toObject v in
  let cvss := value f (lit "cvssScore") in
  lit "  <issue" ++ attr (lit "severity") (str f (lit "severity")) ++ attr (lit "confidence") (str f (lit "confidence"))
  ++ (if js_positive cvss then lit " cvss=" ++ [34] ++ xmlAttrEscape (js_fixed1 cvss) ++ [34] else [])
  ++ (if toBool false (value f (lit "fixed")) then lit " fixed=" ++ [34] ++ lit "true" ++ [34] else [])
  ++ lit ">" ++ [10]
  ++ el (lit "name") (str f (lit "kind")) ++ el (lit "host") (str f (lit "host")) ++ el (lit "url") (str f (lit "url"))
  ++ el (lit "cwe") (str f (lit "cwe")) ++ el (lit "owasp") (str f (lit "owasp")) ++ el (lit "detail") (str f (lit "summary"))
  ++ el (lit "remediation") (str f (lit "fixSummary")) ++ lit "  </issue>" ++ [10].

Definition findingsJsonToXml (findings : list json) (project generatedIso : qstr) : qstr :=
  lit "<?xml version=" ++ [34] ++ lit "1.0" ++ [34] ++ lit " encoding=" ++ [34] ++ lit "UTF-8" ++ [34] ++ lit "?>" ++ [10]
  ++ lit "<nullockReport project=" ++ [34] ++ xmlAttrEscape project ++ [34] ++ lit " generated=" ++ [34] ++ xmlAttrEscape generatedIso ++ [34]
  ++ lit " issueCount=" ++ [34] ++ number 10 (zlen findings) ++ [34] ++ lit ">" ++ [10]
  ++ flat_map issueXml findings ++ lit "</nullockReport>" ++ [10].

(** ** Guards *)

Definition hasRequestSmugglingChars (s : qstr) : bool := existsb (fun u => (u =? 13) || (u =? 10) || (u =? 0)) s.

Definition slash (c : Z) : bool := (c =? 47) || (c =? 92).
Fixpoint strip_slashes (r : qstr) : qstr := match r with c :: r' => if slash c then strip_slashes r' else r | [] => [] end.
Definition safeJoin (dir rel : qstr) : qstr :=
  let r := strip_slashes rel in
  if contains_sub (lit "..") r then [] else dir ++ lit "/" ++ r.

(** The two fixed patterns, at an opening parenthesis: [s] is the text behind it.  No
    part of them crosses the first closing one. *)
Definition unbounded (c : Z) : bool := (c =? 42) || (c =? 43).
Definition behind (k : nat) (s : qstr) : bool := match drop (S k) s with c :: _ => unbounded c | [] => false end.
(** Reversed, [body] starts with [},d...d{]. *)
Definition open_repeat (rbody : qstr) : bool :=
  match rbody with
  | 125 :: 44 :: r =>
      match drop_while is_digit r with
      | 123 :: _ => match r with d :: _ => is_digit d | [] => false end
      | _ => false
      end
  | _ => false
  end.
Definition nested_quantifier (s : qstr) : bool :=
  match index_of 41 s with
  | Some k =>
      let rbody := rev (take k s) in
      behind k s && (match rbody with c :: _ => unbounded c | [] => false end || open_repeat rbody)
  | None => false
  end.
Definition bar_or_close (c : Z) : bool := (c =? 124) || (c =? 41).
Fixpoint branch_end (s : qstr) : nat := match s with c :: s' => if bar_or_close c then O else S (branch_end s') | [] => O end.
Definition duplicate_branch (s : qstr) : bool :=
  let m := branch_end s in
  match m, drop m s with
  | S _, 124 :: t =>
      starts_with (take m s) t && match index_of 41 (drop m t) with Some k => behind k (drop m t) | None => false end
  | _, _ => false
  end.
Fixpoint at_group (p : qstr -> bool) (s : qstr) : bool :=
  match s with c :: s' => ((c =? 40) && p s') || at_group p s' | [] => false end.
Definition looksLikeCatastrophicRegex (pattern : qstr) : bool := at_group nested_quantifier pattern || at_group duplicate_branch pattern.

Definition searchRowForIteration (n i : Z) : Z :=
  if n <=? 0 then 0
  else
    let i := if i <? 0 then 0 else i in
    let i := if n <=? i then n - 1 else i in
    n - 1 - i.
Definition searchTruncated (scanned total : Z) : bool := scanned <? total.

(** ** Severities, certificates, presets *)

Definition severityRank (sev : qstr) : Z :=
  let s := u_lower sev in
  if seq_eqb s (lit "critical") then 5 else if seq_eqb s (lit "high") then 4 else if seq_eqb s (lit "medium") then 3
  else if seq_eqb s (lit "low") then 2 else if seq_eqb s (lit "info") then 1 else 0.

Definition sarifLevelForSeverity (sev : qstr) : qstr :=
  let s := u_lower sev in
  if seq_eqb s (lit "critical") || seq_eqb s (lit "high") then lit "error"
  else if seq_eqb s (lit "low") || seq_eqb s (lit "info") then lit "note" else lit "warning".

Definition kBegin : qstr := lit "-----BEGIN CERTIFICATE-----".
Definition kEnd : qstr := lit "-----END CERTIFICATE-----".
Definition pemCertToDer (pem : bytes) : bytes :=
  match index_sub kBegin pem with
  | None => []
  | Some b =>
      let rest := drop (b + length kBegin) pem in
      match index_sub kEnd rest with
      | None => []
      | Some e =>
          let b64 := List.filter (fun c => negb (b_space c)) (take e rest) in
          if is_nil b64 then [] else default [] (b64_decode false (u_tolatin1 b64))
      end
  end.

Definition presetNameValid (name : qstr) : bool :=
  if is_nil name || (64 <? zlen name) then false
  else if negb (forallb (fun c => u_alnum c || (c =? 32) || (c =? 45) || (c =? 95) || (c =? 46)) name) then false
  else existsb (fun c => negb (c =? 46)) name.

(** [QStringList::sort]. *)
Fixpoint insert_sorted (x : qstr) (xs : list qstr) : list qstr :=
  match xs with [] => [x] | y :: ys => if str_ltb y x then y :: insert_sorted x ys else x :: xs end.
Definition sort_names (xs : list qstr) : list qstr := foldr insert_sorted [] xs.
Definition presetNames (library : list (qstr * json)) : list qstr := sort_names (map fst library).

(** ** Report filters *)

Definition confidenceRank (conf : qstr) : Z :=
  let c := u_lower (u_trimmed conf) in
  if seq_eqb c (lit "confirmed") || seq_eqb c (lit "certain") then 4
  else if seq_eqb c (lit "firm") || seq_eqb c (lit "high") then 3
  else if seq_eqb c (lit "medium") then 2
  else if seq_eqb c (lit "tentative") || seq_eqb c (lit "possible") || seq_eqb c (lit "low") then 1 else 0.

Record ReportFilterCriteria := mkCriteria {
  fc_minSeverityRank : Z; fc_minConfidenceRank : Z; fc_includeKinds : gset qstr; fc_excludeKinds : gset qstr; fc_includeFixed : bool
}.

Definition findingPasses (severity confidence kind : qstr) (fixed : bool) (c : ReportFilterCriteria) : bool :=
  if severityRank severity <? fc_minSeverityRank c then false
  else if (0 <? fc_minConfidenceRank c) && (confidenceRank confidence <? fc_minConfidenceRank c) then false
  else if negb (bool_decide (fc_includeKinds c = ∅)) && negb (bool_decide (kind ∈ fc_includeKinds c)) then false
  else if bool_decide (kind ∈ fc_excludeKinds c) then false
  else if negb (fc_includeFixed c) && fixed then false
  else true.

Definition passes (c : ReportFilterCriteria) (f : list (qstr * json)) : bool :=
  findingPasses (str f (lit "severity")) (str f (lit "confidence")) (str f (lit "kind")) (toBool false (value f (lit "fixed"))) c.
Definition filterFindings (findings : list json) (c : ReportFilterCriteria) : list json :=
  map JObject (List.filter (passes c) (map toObject findings)).

Definition keys_of (parts : list qstr) : gset qstr := list_to_set (List.filter (fun k => negb (is_nil k)) (map u_trimmed parts)).
Definition csvToSet (csv : qstr) : gset qstr := keys_of (split_skip 44 csv).
Definition jsonArrOrCsvToSet (v : json) : gset qstr :=
  match v with JArray l => keys_of (map toString l) | JString s => csvToSet s | _ => ∅ end.

Definition reportFilterFromQuery (q : Query) : ReportFilterCriteria :=
  mkCriteria (if qq_has q (lit "minSeverity") then severityRank (qq_value q (lit "minSeverity")) else 0)
    (if qq_has q (lit "minConfidence") then confidenceRank (qq_value q (lit "minConfidence")) else 0)
    (csvToSet (qq_value q (lit "includeKinds"))) (csvToSet (qq_value q (lit "excludeKinds")))
    (negb (u_cieq (qq_value q (lit "includeFixed")) (lit "false"))).

Definition reportFilterFromJson (body : list (qstr * json)) : ReportFilterCriteria :=
  mkCriteria (if contains body (lit "minSeverity") then severityRank (str body (lit "minSeverity")) else 0)
    (if contains body (lit "minConfidence") then confidenceRank (str body (lit "minConfidence")) else 0)
    (jsonArrOrCsvToSet (value body (lit "includeKinds"))) (jsonArrOrCsvToSet (value body (lit "excludeKinds")))
    (if contains body (lit "includeFixed") then
       match value body (lit "includeFixed") with JBool b => b | v => negb (u_cieq (toString v) (lit "false")) end
     else true).

Definition applyReportFilter (findings : list json) (q : Query) : list json := filterFindings findings (reportFilterFromQuery q).

(** ** The configuration envelope *)

Definition kConfigVersion : Z := 1.
Definition buildConfigDocument (sections : list (qstr * json)) : list (qstr * json) :=
  object [(lit "format", JString (lit "nullock-config")); (lit "version", JInt kConfigVersion); (lit "sections", JObject sections)].

Definition isDouble (v : json) : bool := match v with JInt _ | JDouble _ => true | _ => false end.
Definition isObject (v : json) : bool := match v with JObject _ => true | _ => false end.

(** The error; none accepts the document. *)
Definition validateConfigDocument (doc : list (qstr * json)) : option qstr :=
  if negb (seq_eqb (str doc (lit "format")) (lit "nullock-config")) then Some (lit "not a Nullock configuration file (missing/!= format tag)")
  else
    let ver := value doc (lit "version") in
    if negb (isDouble ver) then Some (lit "configuration file has no numeric version")
    else if kConfigVersion <? toInt 0 ver then
      Some (lit "configuration is from a newer version of Nullock (v" ++ number 10 (toInt 0 ver) ++ lit " > v" ++ number 10 kConfigVersion ++ lit "); upgrade to import it")
    else if negb (isObject (value doc (lit "sections"))) then Some (lit "configuration file has no sections object")
    else None.

Definition configSection (doc : list (qstr * json)) (name : qstr) : list (qstr * json) := toObject (value (toObject (value doc (lit "sections"))) name).
Definition configSectionNames (doc : list (qstr * json)) : list qstr := map fst (toObject (value doc (lit "sections"))).
End ControlLogic.

(** ** The token comparison *)

Section Gate.
Context {Q : QtText} {QL : QtTextLaws Q}.

Lemma diff_loop_zero n : forall i ab bb d,
  diff_loop n i ab bb d = 0 <->
  d = 0 /\ forall j, (i <= j < i + n)%nat -> nth (j mod length ab) ab 0 = nth (j mod length bb) bb 0.
Proof.
  induction n as [|n IH]; intros i ab bb d; cbn [diff_loop].
  - split; [intros ->; split; [done|lia]|by intros [-> _]].
  - rewrite IH, Z.lor_eq_0_iff, Z.lxor_eq_0_iff. split.
    + intros [[-> He] Hj]. split; [done|]. intros j Hij. destruct (decide (j = i)) as [->|Hne]; [done|apply Hj; lia].
    + intros [-> Hj]. split; [split; [done|apply Hj; lia]|]. intros j Hij. apply Hj. lia.
Qed.

Lemma constantTimeEquals_iff a b : zlen (u_toutf8 a) <= INT_MAX -> zlen (u_toutf8 b) <= INT_MAX ->
  (constantTimeEquals a b = true <-> u_toutf8 a = u_toutf8 b).
Proof.
  intros Ha Hb. unfold constantTimeEquals. set (x := u_toutf8 a) in *. set (y := u_toutf8 b) in *.
  destruct x as [|c x]; [by destruct y|]. destruct y as [|e y]; [done|]. cbn [is_nil orb andb].
  set (l1 := c :: x) in *. set (l2 := e :: y) in *. rewrite Z.eqb_eq, diff_loop_zero, Z.lxor_eq_0_iff.
  assert (Hu : forall l : bytes, zlen l <= INT_MAX -> Word.u32 (zlen l) = zlen l).
  { intros l Hl. unfold Word.u32. apply Z.mod_small. pose proof (zlen_nonneg l). unfold INT_MAX in Hl. lia. }
  rewrite !Hu by done. split.
  - intros [Hlen Hj]. assert (Hl : length l1 = length l2) by (unfold zlen in Hlen; lia).
    apply (nth_ext _ _ 0 0); [done|]. intros n Hn. rewrite <- Hl in Hj. specialize (Hj n ltac:(lia)). rewrite Nat.mod_small in Hj by done. exact Hj.
  - intros ->. split; [done|]. done.
Qed.

Lemma trimmed_clean s : ends_clean u_space s -> u_trimmed s = s.
Proof. apply trim_by_clean. Qed.

(** The header a client builds for a token. *)
Lemma bearerToken_built scheme t : u_lower scheme = lit "bearer" -> length scheme = 6%nat -> ends_clean u_space t -> t <> [] ->
  (forall c s', scheme = c :: s' -> u_space c = false) -> u_space 32 = true ->
  bearerToken (scheme ++ [32] ++ t) = t.
Proof.
  intros Hs Hl Ht Hne Hc Hsp. unfold bearerToken.
  assert (Hclean : ends_clean u_space (scheme ++ [32] ++ t)).
  { destruct scheme as [|c s']; [done|]. split; [by apply (Hc c s')|]. destruct (exists_last Hne) as (t' & y & ->). rewrite !app_assoc, last_snoc.
    destruct Ht as [_ Ht]. by rewrite last_snoc in Ht. }
  rewrite (trimmed_clean _ Hclean). set (v := scheme ++ [32] ++ t). change (length (lit "bearer")) with 6%nat. change (zlen (lit "bearer")) with 6.
  assert (Hv : zlen v <=? 6 = false).
  { apply Z.leb_gt. unfold v, zlen. rewrite !length_app, Hl. cbn [length]. lia. }
  rewrite Hv. assert (Htk : take 6 v = scheme) by (unfold v; rewrite <- Hl; apply take_app_length).
  assert (Hdr : drop 6 v = 32 :: t) by (unfold v; rewrite <- Hl; by rewrite drop_app_length).
  rewrite Htk, Hs. assert (Hn : nth 6 v 0 = 32).
  { rewrite <- (take_drop 6 v), Htk, Hdr. rewrite app_nth2 by lia. by rewrite Hl. }
  rewrite Hn, Hsp, Hdr. cbn [negb]. rewrite (proj2 (seq_eqb_eq _ _) eq_refl). cbn [negb].
  unfold u_trimmed, trim_by. cbn [drop_while]. rewrite Hsp. exact (trim_by_clean u_space t Ht).
Qed.

(** The bearer token decides by equality, in constant time: whatever is presented
    and configured, the answer is yes exactly when a token is configured, one is
    presented, and their bytes are the same, although the loop never stops early and
    folds both lengths into one word; and the usual header of the configured token is
    accepted. *)
Theorem token_gate_exact hdr token :
  zlen (u_toutf8 token) <= INT_MAX -> zlen (u_toutf8 (bearerToken hdr)) <= INT_MAX ->
  (isTokenAuthorized hdr token = true <-> token <> [] /\ bearerToken hdr <> [] /\ u_toutf8 (bearerToken hdr) = u_toutf8 token) /\
  (token <> [] -> ends_clean u_space token -> isTokenAuthorized (lit "Bearer " ++ token) token = true).
Proof.
  intros H1 H2. assert (Hn : forall s : qstr, is_nil s = false <-> s <> []) by (by intros []). split.
  - unfold isTokenAuthorized. destruct (is_nil token) eqn:E1; [destruct token; [|done]; split; [done|by intros (? & _)]|].
    destruct (is_nil (bearerToken hdr)) eqn:E2.
    + split; [done|]. intros (_ & Hb & _). apply Hn in Hb. congruence.
    + rewrite constantTimeEquals_iff by done. apply Hn in E1. apply Hn in E2. tauto.
  - intros Hne Hc. assert (Hb : bearerToken (lit "Bearer " ++ token) = token).
    { apply (bearerToken_built (lit "Bearer") token); try done.
      - by rewrite law_lower_ascii.
      - intros c s' [= <- _]. by rewrite law_space_ascii.
      - by rewrite law_space_ascii. }
    unfold isTokenAuthorized. rewrite Hb. apply Hn in Hne. rewrite Hne. by apply constantTimeEquals_iff.
Qed.
End Gate.

(** ** What reports embed *)

(** Text as it comes out: controls are blanks. *)
Definition blanked (u : Z) : Z := if control u then 32 else u.

(** The five entities read back. *)
Definition entity (s : qstr) : option (Z * nat) :=
  if starts_with (lit "&amp;") s then Some (38, 5%nat) else if starts_with (lit "&lt;") s then Some (60, 4%nat)
  else if starts_with (lit "&gt;") s then Some (62, 4%nat) else if starts_with (lit "&quot;") s then Some (34, 6%nat)
  else if starts_with (lit "&apos;") s then Some (39, 6%nat) else None.
Fixpoint xml_unescape (skip : nat) (s : qstr) : qstr :=
  match s with
  | [] => []
  | c :: s' =>
      match skip with
      | S k => xml_unescape k s'
      | O => match entity s with Some (v, len) => v :: xml_unescape (len - 1) s' | None => c :: xml_unescape 0 s' end
      end
  end.

(** The characters that make up the structure of a document. *)
Definition structural (c : Z) : bool := (c =? 60) || (c =? 62) || (c =? 34) || (c =? 39).

Lemma xml_char_plain u : forallb (fun c => negb (structural c) && (32 <=? c)) (xml_char u) = true.
Proof.
  unfold xml_char, control. destruct (u <? 32) eqn:E; [done|]. to_prop.
  destruct (u =? 38) eqn:E1; [done|]. destruct (u =? 60) eqn:E2; [done|]. destruct (u =? 62) eqn:E3; [done|].
  destruct (u =? 34) eqn:E4; [done|]. destruct (u =? 39) eqn:E5; [done|]. cbn [forallb]. unfold structural. rewrite E2, E3, E4, E5. cbn [orb negb andb].
  rewrite andb_true_r. by apply Z.leb_le.
Qed.

Lemma xml_escape_plain s : Forall (fun c => structural c = false /\ 32 <= c) (xmlAttrEscape s).
Proof.
  unfold xmlAttrEscape. induction s as [|u s IH]; [constructor|]. cbn [flat_map]. apply Forall_app_2; [|done].
  pose proof (xml_char_plain u) as H. rewrite forallb_forall in H. apply Forall_forall. intros c Hc%list_elem_of_In. specialize (H c Hc).
  apply andb_true_iff in H as [H1 H2]. to_prop. split; [by apply negb_true_iff|done].
Qed.

Lemma xml_unescape_skip k : forall s t, length s = k -> xml_unescape k (s ++ t) = xml_unescape 0 t.
Proof. induction k as [|k IH]; intros [|c s] t H; try done. cbn [app xml_unescape]. apply IH. by injection H. Qed.

Lemma xml_unescape_char u t : xml_unescape 0 (xml_char u ++ t) = blanked u :: xml_unescape 0 t.
Proof.
  unfold xml_char, blanked. destruct (control u) eqn:E; [done|].
  destruct (u =? 38) eqn:E1; [to_prop; subst; done|]. destruct (u =? 60) eqn:E2; [to_prop; subst; done|]. destruct (u =? 62) eqn:E3; [to_prop; subst; done|].
  destruct (u =? 34) eqn:E4; [to_prop; subst; done|]. destruct (u =? 39) eqn:E5; [to_prop; subst; done|].
  cbn [app xml_unescape]. assert (He : entity (u :: t) = None).
  { assert (Hp : forall p, starts_with (38 :: p) (u :: t) = false).
    { intros p. destruct (starts_with (38 :: p) (u :: t)) eqn:Hs; [|done]. apply starts_with_spec in Hs as [t' [= -> _]]. done. }
    unfold entity. change (lit "&amp;") with (38 :: lit "amp;"). change (lit "&lt;") with (38 :: lit "lt;"). change (lit "&gt;") with (38 :: lit "gt;").
    change (lit "&quot;") with (38 :: lit "quot;"). change (lit "&apos;") with (38 :: lit "apos;"). by rewrite !Hp. }
  by rewrite He.
Qed.

Lemma xml_escape_roundtrip s : xml_unescape 0 (xmlAttrEscape s) = map blanked s.
Proof. unfold xmlAttrEscape. induction s as [|u s IH]; [done|]. cbn [flat_map map]. by rewrite xml_unescape_char, IH. Qed.

(** The structural characters of a text, in order. *)
Definition skeleton (s : qstr) : qstr := List.filter structural s.

Lemma skeleton_app s t : skeleton (s ++ t) = skeleton s ++ skeleton t.
Proof. apply List.filter_app. Qed.
Lemma skeleton_escape s : skeleton (xmlAttrEscape s) = [].
Proof.
  pose proof (xml_escape_plain s) as H. unfold skeleton. induction H as [|c l [Hc _] _ IH]; [done|]. cbn [List.filter]. by rewrite Hc.
Qed.
Lemma skeleton_flat_map {A} (f : A -> qstr) xs : skeleton (flat_map f xs) = flat_map (fun x => skeleton (f x)) xs.
Proof. induction xs as [|x xs IH]; [done|]. cbn [flat_map]. by rewrite skeleton_app, IH. Qed.

Section Report.
Context {Query : Type} {QR : QtReport Query}.

(** What of a finding shows in the structure: which texts are there, whether a score is,
    and whether it is fixed. *)
Definition presence (v : json) : list bool :=
  let f := toObject v in
  map (fun k => is_nil (str f k)) [lit "severity"; lit "confidence"; lit "kind"; lit "host"; lit "url"; lit "cwe"; lit "owasp"; lit "summary"; lit "fixSummary"]
  ++ [js_positive (value f (lit "cvssScore")); toBool false (value f (lit "fixed"))].

Lemma skeleton_attr name val : skeleton (attr name val) = if is_nil val then [] else skeleton name ++ [34; 34].
Proof. unfold attr. destruct (is_nil val); [done|]. rewrite !skeleton_app, skeleton_escape. by rewrite app_nil_l. Qed.
Lemma skeleton_el tag val : skeleton (el tag val) = if is_nil val then [] else [60] ++ skeleton tag ++ [62; 60] ++ skeleton tag ++ [62].
Proof. unfold el. destruct (is_nil val); [done|]. rewrite !skeleton_app, skeleton_escape. reflexivity. Qed.

Lemma skeleton_issue v w : presence v = presence w -> skeleton (issueXml v) = skeleton (issueXml w).
Proof.
  unfold presence. cbn [map app]. intros H. injection H as H1 H2 H3 H4 H5 H6 H7 H8 H9 H10 H11.
  unfold issueXml. cbv zeta. rewrite H10, H11. rewrite !skeleton_app, !skeleton_attr, !skeleton_el. rewrite H1, H2, H3, H4, H5, H6, H7, H8, H9.
  assert (Hc : forall x y, skeleton (if js_positive (value (toObject w) (lit "cvssScore")) then lit " cvss=" ++ [34] ++ xmlAttrEscape x ++ [34] else [])
    = skeleton (if js_positive (value (toObject w) (lit "cvssScore")) then lit " cvss=" ++ [34] ++ xmlAttrEscape y ++ [34] else [])).
  { intros x y. destruct (js_positive (value (toObject w) (lit "cvssScore"))); [by rewrite !skeleton_app, !skeleton_escape|reflexivity]. }
  by rewrite (Hc _ (js_fixed1 (value (toObject w) (lit "cvssScore")))).
Qed.

(** *** Reading a report back

    A scanner for documents without comments and sections: a tag is what stands between
    angle brackets, its attributes are cut at the double quotes, everything else is
    text.  [read_report] takes the elements of a report apart and refuses any other
    element, nesting, attribute or text. *)
Inductive Token := TText (s : qstr) | TOpen (name : qstr) (attrs : list (qstr * qstr)) | TClose (name : qstr).
Fixpoint attrs_of (parts : list qstr) : list (qstr * qstr) :=
  match parts with n :: v :: rest => (mid n 1 (length n - 2), xml_unescape 0 v) :: attrs_of rest | _ => [] end.
Definition tag_of (raw : qstr) : Token :=
  if starts_with_chr 47 raw then TClose (drop 1 raw)
  else
    let name := match index_of 32 raw with Some i => take i raw | None => raw end in
    TOpen name (attrs_of (split_on 34 (drop (length name) raw))).
Fixpoint tokens (tag : bool) (cur s : qstr) : list Token :=
  match s with
  | [] => [TText cur]
  | c :: s' =>
      if negb tag && (c =? 60) then TText cur :: tokens true [] s'
      else if tag && (c =? 62) then tag_of cur :: tokens false [] s'
      else tokens tag (cur ++ [c]) s'
  end.

Definition layout (s : qstr) : bool := forallb (fun c => (c =? 32) || (c =? 10)) s.
Definition ReadIssue : Type := list (qstr * qstr) * list (qstr * qstr).   (* attributes and elements *)
Fixpoint read_body (cur : option ReadIssue) (ts : list Token) : option (list ReadIssue) :=
  match cur, ts with
  | None, TText w :: TOpen n a :: ts' => if layout w && seq_eqb n (lit "issue") then read_body (Some (a, [])) ts' else None
  | None, [TText w; TClose n; TText w'] => if layout w && seq_eqb n (lit "nullockReport") && layout w' then Some [] else None
  | Some (a, es), TText w :: TOpen n [] :: TText t :: TClose n' :: ts' =>
      if layout w && seq_eqb n n' then read_body (Some (a, es ++ [(n, xml_unescape 0 t)])) ts' else None
  | Some (a, es), TText w :: TClose n :: ts' =>
      if layout w && seq_eqb n (lit "issue") then (fun l => (a, es) :: l) <$> read_body None ts' else None
  | _, _ => None
  end.
Definition read_report (s : qstr) : option (list (qstr * qstr) * list ReadIssue) :=
  match tokens false [] s with
  | TText [] :: TOpen x _ :: TText w :: TOpen n a :: ts =>
      if seq_eqb x (lit "?xml") && layout w && seq_eqb n (lit "nullockReport") then (fun l => (a, l)) <$> read_body None ts else None
  | _ => None
  end.

Lemma tokens_text cur s t : 60 ∉ s -> tokens false cur (s ++ t) = tokens false (cur ++ s) t.
Proof.
  revert cur. induction s as [|c s IH]; intros cur Hs; [by rewrite app_nil_r|]. apply not_elem_of_cons in Hs as [Hc Hs]. cbn [app tokens negb andb].
  rewrite (proj2 (Z.eqb_neq c 60)) by done. rewrite IH by done. by rewrite <- app_assoc.
Qed.
Lemma tokens_tag cur s t : 62 ∉ s -> tokens true cur (s ++ 62 :: t) = tag_of (cur ++ s) :: tokens false [] t.
Proof.
  revert cur. induction s as [|c s IH]; intros cur Hs; [by rewrite app_nil_r|]. apply not_elem_of_cons in Hs as [Hc Hs]. cbn [app tokens negb andb].
  rewrite (proj2 (Z.eqb_neq c 62)) by done. rewrite IH by done. by rewrite <- app_assoc.
Qed.
Lemma tokens_element cur w raw t : 60 ∉ w -> 62 ∉ raw -> tokens false cur (w ++ [60] ++ raw ++ [62] ++ t) = TText (cur ++ w) :: tag_of raw :: tokens false [] t.
Proof. intros Hw Hr. rewrite tokens_text by done. cbn [app tokens negb andb Z.eqb Pos.eqb]. by rewrite tokens_tag. Qed.

(** A name the reader keeps: no blank, quote or bracket, no slash in front. *)
Definition plain_name (n : qstr) : bool := forallb (fun c => bool_decide (c ∉ [32; 34; 60; 62])) n && negb (starts_with_chr 47 n) && negb (is_nil n).
Lemma plain_name_no n c : plain_name n = true -> c ∈ [32; 34; 60; 62] -> c ∉ n.
Proof.
  unfold plain_name. rewrite !andb_true_iff, forallb_forall. intros [[H _] _] Hc Hin. apply list_elem_of_In, H, bool_decide_eq_true in Hin. done.
Qed.

(** The attributes and elements a report writes. *)
Definition wattr (e : qstr * qstr) : qstr := [32] ++ fst e ++ lit "=" ++ [34] ++ xmlAttrEscape (snd e) ++ [34].
Definition wel (e : qstr * qstr) : qstr := lit "    <" ++ fst e ++ lit ">" ++ xmlAttrEscape (snd e) ++ lit "</" ++ fst e ++ lit ">" ++ [10].
Definition present (name val : qstr) : list (qstr * qstr) := if is_nil val then [] else [(name, val)].
Definition back (e : qstr * qstr) : qstr * qstr := (fst e, map blanked (snd e)).

Lemma escape_no s c : structural c = true -> c ∉ xmlAttrEscape s.
Proof. intros Hc Hin. pose proof (xml_escape_plain s) as H. rewrite Forall_forall in H. destruct (H c Hin). congruence. Qed.

Lemma attr_wattr n v : attr n v = flat_map wattr (present n v).
Proof. unfold attr, present. destruct (is_nil v); [done|]. cbn [flat_map]. by rewrite app_nil_r. Qed.
Lemma el_wel n v : el n v = flat_map wel (present n v).
Proof. unfold el, present. destruct (is_nil v); [done|]. cbn [flat_map]. by rewrite app_nil_r. Qed.

Lemma split_attrs l : Forall (fun e => plain_name (fst e) = true) l -> attrs_of (split_on 34 (flat_map wattr l)) = map back l.
Proof.
  induction 1 as [|[n v] l Hn _ IH]; [done|]. cbn [fst] in Hn. cbn [flat_map map]. unfold wattr at 1. cbn [fst snd].
  set (p := [32] ++ n ++ lit "="). assert (Hp : 34 ∉ p).
  { unfold p. rewrite !not_elem_of_app. split_and!; [set_solver|by apply (plain_name_no n 34 Hn); set_solver|refine (bool_decide_eq_false_1 _ _); reflexivity]. }
  replace (([32] ++ n ++ lit "=" ++ [34] ++ xmlAttrEscape v ++ [34]) ++ flat_map wattr l) with (p ++ 34 :: (xmlAttrEscape v ++ 34 :: flat_map wattr l)) by (unfold p; rewrite <- !app_assoc; reflexivity).
  rewrite split_on_app by done. rewrite split_on_app by (by apply escape_no). cbn [attrs_of]. rewrite IH, xml_escape_roundtrip. unfold back at 2. cbn [fst snd]. f_equal. f_equal.
  unfold mid. change p with (32 :: (n ++ [61])). cbn [drop length]. rewrite drop_0, length_app. cbn [length].
  replace (S (length n + 1) - 2)%nat with (length n) by lia. apply take_app_length.
Qed.

Lemma tag_of_open n l : plain_name n = true -> Forall (fun e => plain_name (fst e) = true) l -> tag_of (n ++ flat_map wattr l) = TOpen n (map back l).
Proof.
  intros Hn Hl. unfold tag_of. assert (Hs : starts_with_chr 47 (n ++ flat_map wattr l) = false).
  { unfold plain_name in Hn. rewrite !andb_true_iff, !negb_true_iff in Hn. destruct Hn as [[_ Hn] Hne]. by destruct n. }
  rewrite Hs. assert (H32 : 32 ∉ n) by (apply (plain_name_no n 32 Hn); set_solver).
  assert (E : match index_of 32 (n ++ flat_map wattr l) with Some i => take i (n ++ flat_map wattr l) | None => n ++ flat_map wattr l end = n).
  { destruct l as [|e l]; cbn [flat_map].
    - rewrite app_nil_r. by rewrite (proj2 (index_of_None 32 n) H32).
    - change (wattr e ++ flat_map wattr l) with (32 :: (fst e ++ lit "=" ++ [34] ++ xmlAttrEscape (snd e) ++ [34]) ++ flat_map wattr l).
      rewrite index_of_app by done. apply take_app_length. }
  rewrite E, drop_app_length. by rewrite split_attrs.
Qed.
Lemma wattrs_no l : Forall (fun e => plain_name (fst e) = true) l -> 62 ∉ flat_map wattr l.
Proof.
  induction 1 as [|[n v] l Hn _ IH]; [apply not_elem_of_nil|]. cbn [flat_map]. unfold wattr at 1. cbn [fst snd] in *. rewrite !not_elem_of_app.
  split_and!; try done; try (refine (bool_decide_eq_false_1 _ _); reflexivity); [by apply (plain_name_no n 62 Hn); set_solver|by apply escape_no].
Qed.
Lemma tag_of_close n : tag_of (47 :: n) = TClose n.
Proof. done. Qed.
Lemma layout_app a b : layout (a ++ b) = layout a && layout b.
Proof. apply forallb_app. Qed.

(** The elements of an issue are read one by one. *)
Lemma read_elements l : Forall (fun e => plain_name (fst e) = true) l -> forall a es w t, layout w = true ->
  exists w', layout w' = true /\ read_body (Some (a, es)) (tokens false w (flat_map wel l ++ t)) = read_body (Some (a, es ++ map back l)) (tokens false w' t).
Proof.
  induction 1 as [|[n v] l Hn _ IH]; intros a es w t Hw; [exists w; by rewrite app_nil_r|]. cbn [fst] in Hn. cbn [flat_map map]. unfold wel at 1. cbn [fst snd].
  assert (H62 : 62 ∉ n) by (apply (plain_name_no n 62 Hn); set_solver).
  replace ((lit "    <" ++ n ++ lit ">" ++ xmlAttrEscape v ++ lit "</" ++ n ++ lit ">" ++ [10]) ++ flat_map wel l) with
    (lit "    " ++ [60] ++ n ++ [62] ++ (xmlAttrEscape v ++ [60] ++ (47 :: n) ++ [62] ++ ([10] ++ flat_map wel l))) by (rewrite <- !app_assoc; reflexivity).
  rewrite <- !app_assoc. rewrite tokens_element; [|refine (bool_decide_eq_false_1 _ _); reflexivity|done].
  rewrite tokens_element; [|by apply escape_no|apply not_elem_of_cons; split; [done|done]].
  rewrite tag_of_close. pose proof (tag_of_open n [] Hn (Forall_nil_2 _)) as Ho. cbn [flat_map map] in Ho. rewrite app_nil_r in Ho. rewrite Ho.
  cbn [read_body app]. rewrite layout_app, Hw, seq_eqb_refl. change (layout (lit "    ")) with true. cbn [andb]. rewrite xml_escape_roundtrip.
  change (tokens false [] (10 :: flat_map wel l ++ t)) with (tokens false [10] (flat_map wel l ++ t)).
  destruct (IH a (es ++ [(n, map blanked v)]) [10] t eq_refl) as (w' & Hw' & ->). exists w'. split; [done|]. by rewrite <- app_assoc.
Qed.

(** What is to be read of a finding: its severity, confidence, score and mark, and its
    texts, those it has, with blanks for control characters. *)
Definition issue_attrs (f : list (qstr * json)) : list (qstr * qstr) :=
  present (lit "severity") (str f (lit "severity")) ++ present (lit "confidence") (str f (lit "confidence"))
  ++ (if js_positive (value f (lit "cvssScore")) then [(lit "cvss", js_fixed1 (value f (lit "cvssScore")))] else [])
  ++ (if toBool false (value f (lit "fixed")) then [(lit "fixed", lit "true")] else []).
Definition issue_elements (f : list (qstr * json)) : list (qstr * qstr) :=
  present (lit "name") (str f (lit "kind")) ++ present (lit "host") (str f (lit "host")) ++ present (lit "url") (str f (lit "url"))
  ++ present (lit "cwe") (str f (lit "cwe")) ++ present (lit "owasp") (str f (lit "owasp")) ++ present (lit "detail") (str f (lit "summary"))
  ++ present (lit "remediation") (str f (lit "fixSummary")).
Definition issue_read (v : json) : ReadIssue := (map back (issue_attrs (toObject v)), map back (issue_elements (toObject v))).

Lemma present_plain n v : plain_name n = true -> Forall (fun e => plain_name (fst e) = true) (present n v).
Proof. intros Hn. unfold present. destruct (is_nil v); [constructor|by repeat constructor]. Qed.
Lemma issue_attrs_plain f : Forall (fun e => plain_name (fst e) = true) (issue_attrs f).
Proof.
  unfold issue_attrs. repeat (apply Forall_app; split); try by apply present_plain; vm_compute.
  - destruct (js_positive _); [by repeat constructor|constructor].
  - destruct (toBool _ _); [by repeat constructor|constructor].
Qed.
Lemma issue_elements_plain f : Forall (fun e => plain_name (fst e) = true) (issue_elements f).
Proof. unfold issue_elements. repeat (apply Forall_app; split); by apply present_plain; vm_compute. Qed.

Lemma issueXml_parts v : issueXml v =
  lit "  " ++ [60] ++ (lit "issue" ++ flat_map wattr (issue_attrs (toObject v))) ++ [62] ++ ([10] ++ (flat_map wel (issue_elements (toObject v)) ++ (lit "  </issue>" ++ [10]))).
Proof.
  unfold issueXml, issue_attrs, issue_elements. cbv zeta. rewrite !attr_wattr, !el_wel, !flat_map_app.
  assert (E1 : forall (c : bool) x, (if c then lit " cvss=" ++ [34] ++ xmlAttrEscape x ++ [34] else []) = flat_map wattr (if c then [(lit "cvss", x)] else [])).
  { intros [] x; [cbn [flat_map]; by rewrite app_nil_r|done]. }
  assert (E2 : forall c : bool, (if c then lit " fixed=" ++ [34] ++ lit "true" ++ [34] else []) = flat_map wattr (if c then [(lit "fixed", lit "true")] else [])) by (by intros []).
  rewrite E1, E2, <- !app_assoc. reflexivity.
Qed.

Lemma read_issues fs t : forall w, layout w = true -> exists w', layout w' = true /\
  read_body None (tokens false w (flat_map issueXml fs ++ t)) = (fun l => map issue_read fs ++ l) <$> read_body None (tokens false w' t).
Proof.
  induction fs as [|v fs IH]; intros w Hw; [exists w; split; [done|]; cbn; by destruct (read_body _ _)|].
  cbn [flat_map map]. rewrite issueXml_parts. set (as_ := flat_map wattr (issue_attrs (toObject v))). set (es := flat_map wel (issue_elements (toObject v))).
  replace ((lit "  " ++ [60] ++ (lit "issue" ++ as_) ++ [62] ++ [10] ++ es ++ lit "  </issue>" ++ [10]) ++ flat_map issueXml fs) with
    (lit "  " ++ [60] ++ (lit "issue" ++ as_) ++ [62] ++ ([10] ++ es ++ (lit "  </issue>" ++ [10]) ++ flat_map issueXml fs)) by (rewrite <- !app_assoc; reflexivity).
  replace ((lit "  " ++ [60] ++ (lit "issue" ++ as_) ++ [62] ++ ([10] ++ es ++ (lit "  </issue>" ++ [10]) ++ flat_map issueXml fs)) ++ t) with
    (lit "  " ++ [60] ++ (lit "issue" ++ as_) ++ [62] ++ ([10] ++ es ++ (lit "  </issue>" ++ [10]) ++ flat_map issueXml fs ++ t)) by (rewrite <- !app_assoc; reflexivity).
  rewrite (tokens_element w (lit "  ") (lit "issue" ++ as_)).
  2:{ refine (bool_decide_eq_false_1 _ _). reflexivity. }
  2:{ unfold as_. rewrite not_elem_of_app. split; [refine (bool_decide_eq_false_1 _ _); reflexivity|apply wattrs_no, issue_attrs_plain]. }
  unfold as_. rewrite tag_of_open; [|reflexivity|apply issue_attrs_plain]. cbn [read_body]. rewrite layout_app, Hw. change (layout (lit "  ")) with true. rewrite seq_eqb_refl. cbn [andb].
  change (tokens false [] ([10] ++ ?x)) with (tokens false [10] x).
  destruct (read_elements _ (issue_elements_plain (toObject v)) (map back (issue_attrs (toObject v))) [] [10] ((lit "  </issue>" ++ [10]) ++ flat_map issueXml fs ++ t) eq_refl) as (w1 & Hw1 & E).
  fold es in E. rewrite E. cbn [map]. rewrite app_nil_l.
  change ((lit "  </issue>" ++ [10]) ++ ?x) with (lit "  </issue>" ++ [10] ++ x). change (lit "  </issue>" ++ ?x) with (lit "  " ++ [60] ++ (47 :: lit "issue") ++ [62] ++ x).
  rewrite tokens_element; [|refine (bool_decide_eq_false_1 _ _); reflexivity|refine (bool_decide_eq_false_1 _ _); reflexivity].
  rewrite tag_of_close. cbn [read_body]. rewrite layout_app, Hw1, seq_eqb_refl. change (layout (lit "  ")) with true. cbn [andb].
  change (tokens false [] ([10] ++ ?x)) with (tokens false [10] x). destruct (IH [10] eq_refl) as (w2 & Hw2 & ->). exists w2. split; [done|].
  destruct (read_body None (tokens false w2 t)) as [l|]; [|done]. done.
Qed.

Lemma escape_number n : 0 <= n -> xmlAttrEscape (number 10 n) = number 10 n /\ map blanked (number 10 n) = number 10 n.
Proof.
  intros Hn. pose proof (number_alnum 10 n ltac:(lia) Hn) as H. unfold xmlAttrEscape. induction H as [|c l Hc _ [IH1 IH2]]; [done|]. cbn [flat_map map]. rewrite IH1, IH2.
  assert (Hr : 48 <= c <= 102) by (unfold is_alnum in Hc; apply orb_true_iff in Hc as [Hc|Hc]; split_bools; to_prop; lia).
  assert (Hx : c <> 60 /\ c <> 62) by (split; intros ->; by vm_compute in Hc).
  unfold xml_char, blanked, control. by zdecides.
Qed.

(** C40. The XML report is read back as the findings it was made of.  Scanned for tags, quoted
    attributes and text, it is one nullockReport with the project, the date and the number
    of findings, and one issue per finding, in order, with exactly the attributes and
    elements of the fields the finding has and their texts, control characters blanked;
    so its structural characters depend only on which fields are there, never on a text.
    (Every other character comes through, also U+FFFE and U+FFFF, which a conforming XML
    parser refuses: [xml_noncharacter_kept].) *)
Theorem xml_report_structure fs fs' project project' iso iso' :
  read_report (findingsJsonToXml fs project iso) =
    Some ([(lit "project", map blanked project); (lit "generated", map blanked iso); (lit "issueCount", number 10 (zlen fs))], map issue_read fs) /\
  (map presence fs = map presence fs' ->
   skeleton (findingsJsonToXml fs project iso) = skeleton (findingsJsonToXml fs' project' iso')).
Proof.
  split.
  - destruct (escape_number (zlen fs) (zlen_nonneg _)) as [N1 N2]. set (attrs := [(lit "project", project); (lit "generated", iso); (lit "issueCount", number 10 (zlen fs))]).
    assert (Hp : Forall (fun e => plain_name (fst e) = true) attrs) by (by repeat constructor).
    assert (E : findingsJsonToXml fs project iso =
      [] ++ [60] ++ (lit "?xml version=" ++ [34] ++ lit "1.0" ++ [34] ++ lit " encoding=" ++ [34] ++ lit "UTF-8" ++ [34] ++ lit "?") ++ [62] ++
      ([10] ++ [60] ++ (lit "nullockReport" ++ flat_map wattr attrs) ++ [62] ++ ([10] ++ (flat_map issueXml fs ++ (lit "</nullockReport>" ++ [10]))))).
    { unfold findingsJsonToXml, attrs. cbn [flat_map]. unfold wattr. cbn [fst snd]. rewrite N1, app_nil_r, <- !app_assoc. reflexivity. }
    unfold read_report. rewrite E, tokens_element; [|apply not_elem_of_nil|refine (bool_decide_eq_false_1 _ _); reflexivity].
    rewrite tokens_element; [|refine (bool_decide_eq_false_1 _ _); reflexivity|].
    2:{ rewrite not_elem_of_app. split; [refine (bool_decide_eq_false_1 _ _); reflexivity|by apply wattrs_no]. }
    rewrite tag_of_open by (reflexivity || done). cbn [app]. set (x := tag_of (lit "?xml version=" ++ _)). vm_compute in x. subst x. cbv iota.
    change (layout [10]) with true. rewrite !seq_eqb_refl. cbn [andb].
    change (tokens false [] (10 :: ?y)) with (tokens false [10] y). destruct (read_issues fs (lit "</nullockReport>" ++ [10]) [10] eq_refl) as (w & Hw & ->).
    change (lit "</nullockReport>" ++ [10]) with ([] ++ [60] ++ (47 :: lit "nullockReport") ++ [62] ++ [10]).
    rewrite tokens_element; [|apply not_elem_of_nil|refine (bool_decide_eq_false_1 _ _); reflexivity]. rewrite tag_of_close, app_nil_r.
    change (tokens false [] [10]) with [TText [10]]. cbn [read_body]. rewrite Hw, seq_eqb_refl. change (layout [10]) with true. cbn [andb fmap option_fmap option_map].
    rewrite app_nil_r. unfold attrs, back. cbn [map fst snd]. by rewrite N2.
  - intros H. assert (Hlen : zlen fs = zlen fs').
    { apply (f_equal length) in H. rewrite !length_map in H. unfold zlen. by rewrite H. }
    unfold findingsJsonToXml. rewrite Hlen, !skeleton_app, !skeleton_escape, !skeleton_flat_map.
    assert (Hi : flat_map (fun v => skeleton (issueXml v)) fs = flat_map (fun v => skeleton (issueXml v)) fs'); [|by rewrite Hi].
    clear Hlen. revert fs' H. induction fs as [|f fs IH]; intros [|f' fs'] H; try done. pose proof (f_equal (fun l => nth 0 l []) H) as Hp. apply (f_equal (@tl _)) in H. cbn [map nth tl] in Hp, H. cbn [flat_map].
    f_equal; [by apply skeleton_issue|by apply IH].
Qed.
End Report.

(** Backslashes taken off. *)
Fixpoint md_unescape (esc : bool) (s : qstr) : qstr :=
  match s with
  | [] => []
  | c :: s' => if negb esc && (c =? 92) then md_unescape true s' else c :: md_unescape false s'
  end.
Definition md_blanked (u : Z) : Z := if control u || (u =? 127) then 32 else u.
(** Metacharacters that no backslash precedes. *)
Fixpoint bare (esc : bool) (s : qstr) : list Z :=
  match s with
  | [] => []
  | c :: s' => if esc then bare false s' else if c =? 92 then bare true s' else if bool_decide (c ∈ kMeta) then c :: bare false s' else bare false s'
  end.

Lemma md_text_char_spec u t : md_unescape false (md_text_char u ++ t) = md_blanked u :: md_unescape false t /\ bare false (md_text_char u ++ t) = bare false t.
Proof.
  unfold md_text_char, md_blanked. destruct (control u || _) eqn:E; [done|].
  destruct (bool_decide (u ∈ kMeta)) eqn:Em; cbn [app md_unescape bare negb andb]; [done|].
  assert (Hu : u =? 92 = false).
  { apply Z.eqb_neq. intros ->. apply bool_decide_eq_false in Em. apply Em. refine (bool_decide_eq_true_1 _ _). vm_compute. reflexivity. }
  by rewrite Hu, Em.
Qed.

(** Markdown reports: text for a code span has no backtick and no control character;
    text for a paragraph has no control character and every metacharacter behind a
    backslash, so that it reads back as the text with its controls blanked. *)
Theorem markdown_text_safe s :
  (96 ∉ mdCodeSpanSafe s /\ Forall (fun c => 32 <= c /\ c <> 127) (mdCodeSpanSafe s)) /\
  (Forall (fun c => 32 <= c /\ c <> 127) (mdTextSafe s) /\ bare false (mdTextSafe s) = [] /\ md_unescape false (mdTextSafe s) = map md_blanked s).
Proof.
  split; [split|split_and!].
  - unfold mdCodeSpanSafe. rewrite list_elem_of_In, in_flat_map. intros (u & _ & Hu). unfold md_code_char in Hu.
    destruct (u =? 96) eqn:E; [done|]. destruct (_ || _); destruct Hu as [Hu|[]]; [done|]. subst u. done.
  - unfold mdCodeSpanSafe. apply Forall_forall. intros c Hc%list_elem_of_In. apply in_flat_map in Hc as (u & _ & Hu). unfold md_code_char in Hu.
    destruct (u =? 96); [done|]. destruct (control u || _) eqn:E; destruct Hu as [<-|[]]; [lia|].
    apply orb_false_iff in E as [E1 E2]. unfold control in E1. to_prop. lia.
  - unfold mdTextSafe. apply Forall_forall. intros c Hc%list_elem_of_In. apply in_flat_map in Hc as (u & _ & Hu). unfold md_text_char in Hu.
    destruct (control u || _) eqn:E; [destruct Hu as [<-|[]]; lia|]. apply orb_false_iff in E as [E1 E2]. unfold control in E1. to_prop.
    destruct (bool_decide _); cbn [app] in Hu; [destruct Hu as [<-|[<-|[]]]|destruct Hu as [<-|[]]]; lia.
  - unfold mdTextSafe. induction s as [|u s IH]; [done|]. cbn [flat_map]. by rewrite (proj2 (md_text_char_spec u _)).
  - unfold mdTextSafe. induction s as [|u s IH]; [done|]. cbn [flat_map map]. by rewrite (proj1 (md_text_char_spec u _)), IH.
Qed.

(** ** Path confinement *)

Lemma strip_slashes_spec r : exists pre, r = pre ++ strip_slashes r /\ Forall (fun c => slash c = true) pre /\
  match strip_slashes r with c :: _ => slash c = false | [] => True end.
Proof.
  induction r as [|c r IH]; [by exists []|]. cbn [strip_slashes]. destruct (slash c) eqn:E.
  - destruct IH as (pre & H1 & H2 & H3). exists (c :: pre). split; [by rewrite H1 at 1|]. split; [by constructor|done].
  - exists []. by split_and!.
Qed.

(** A path handed to the file system stays under its base: it is the base, one slash, and
    the requested text without its leading slashes and backslashes, in which no two
    dots are adjacent, so that no component of it leads upwards; text with two dots is
    refused. *)
Theorem safe_join_confined dir rel :
  (safeJoin dir rel = [] <-> exists a b, strip_slashes rel = a ++ lit ".." ++ b) /\
  (safeJoin dir rel <> [] ->
     exists slashes r, rel = slashes ++ r /\ Forall (fun c => slash c = true) slashes /\ safeJoin dir rel = dir ++ lit "/" ++ r /\
       match r with c :: _ => slash c = false | [] => True end /\ forall c, lit ".." ∉ split_on c r).
Proof.
  destruct (strip_slashes_spec rel) as (pre & H1 & H2 & H3). unfold safeJoin. set (r := strip_slashes rel) in *.
  assert (Hc : contains_sub (lit "..") r = true <-> exists a b, r = a ++ lit ".." ++ b) by apply contains_sub_spec.
  destruct (contains_sub (lit "..") r) eqn:E; (split; [rewrite <- Hc; split|]); try done.
  - intros Hj. by destruct dir.
  - intros _. exists pre, r. split_and!; try done. intros c Hin. apply split_on_infix in Hin as (a & b & Hr).
    assert (false = true) by (apply Hc; by exists a, b). done.
Qed.

(** ** Search patterns *)

Definition group_repeat (body : qstr) : Prop :=
  (exists b q, body = b ++ [q] /\ unbounded q = true) \/
  (exists b ds, body = b ++ [123] ++ ds ++ [44; 125] /\ ds <> [] /\ Forall (fun c => is_digit c = true) ds).

Lemma open_repeat_iff body : open_repeat (rev body) = true <->
  exists b ds, body = b ++ [123] ++ ds ++ [44; 125] /\ ds <> [] /\ Forall (fun c => is_digit c = true) ds.
Proof.
  split.
  - intros H. destruct (rev body) as [|c1 [|c2 r]] eqn:E; cbn [open_repeat] in H; [done| |].
    { by repeat case_match. }
    destruct (decide (c1 = 125 /\ c2 = 44)) as [[-> ->]|Hne]; [|exfalso; repeat case_match; simplify_eq; tauto].
    destruct (drop_while_suffix is_digit r) as (ds & Hr & Hds). destruct (drop_while is_digit r) as [|x t] eqn:Ed; [done|].
    destruct (decide (x = 123)) as [->|Hx]; [|exfalso; repeat case_match; simplify_eq; done].
    exists (rev t), (rev ds). split_and!.
    + rewrite <- (rev_involutive body), E, Hr. cbn [rev]. rewrite rev_app_distr. cbn [rev]. by rewrite <- !app_assoc.
    + intros Hd. apply (f_equal (@rev Z)) in Hd. rewrite rev_involutive in Hd. cbn in Hd. subst ds. cbn [app] in Hr. rewrite Hr in H. by vm_compute in H.
    + apply Forall_forall. intros c Hc%list_elem_of_In%in_rev%list_elem_of_In. rewrite Forall_forall in Hds. by apply Hds.
  - intros (b & ds & -> & Hne & Hds). rewrite !rev_app_distr. cbn [rev app open_repeat].
    assert (Hr : exists d dt, rev ds = d :: dt /\ Forall (fun c => is_digit c = true) (d :: dt)).
    { destruct (rev ds) as [|d dt] eqn:Er; [exfalso; apply Hne; by rewrite <- (rev_involutive ds), Er|]. exists d, dt. split; [done|]. rewrite <- Er.
      apply Forall_forall. intros c Hc%list_elem_of_In%in_rev%list_elem_of_In. rewrite Forall_forall in Hds. by apply Hds. }
    destruct Hr as (d & dt & -> & Hd). rewrite <- app_assoc, (drop_while_app_all is_digit (d :: dt)) by done. cbn [app drop_while]. change (is_digit 123) with false. cbv iota.
    apply Forall_cons in Hd as [Hd _]. exact Hd.
Qed.

Lemma behind_iff k s : behind k s = true <-> exists q post, drop (S k) s = q :: post /\ unbounded q = true.
Proof.
  unfold behind. destruct (drop (S k) s) as [|q post]; [split; [done|by intros (? & ? & ? & _)]|].
  split; [intros H; by exists q, post|by intros (? & ? & [= <- <-] & H)].
Qed.

Lemma nested_iff s : nested_quantifier s = true <->
  exists body q post, s = body ++ [41; q] ++ post /\ 41 ∉ body /\ unbounded q = true /\ group_repeat body.
Proof.
  unfold nested_quantifier. assert (Hg : forall body, (match rev body with c :: _ => unbounded c | [] => false end || open_repeat (rev body)) = true <-> group_repeat body).
  { intros body. rewrite orb_true_iff, open_repeat_iff. unfold group_repeat. apply or_iff_compat_r. destruct (rev body) as [|c r] eqn:E.
    - split; [done|]. intros (b & q & -> & _). rewrite rev_app_distr in E. done.
    - apply (f_equal (@rev Z)) in E. rewrite rev_involutive in E. cbn [rev] in E. split; [intros H; by exists (rev r), c|].
      intros (b & q & Eb & Hq). rewrite E in Eb. apply app_inj_tail in Eb as [_ ->]. done. }
  split.
  - destruct (index_of 41 s) as [k|] eqn:Ek; [|done]. intros [H1 H2]%andb_true_iff. apply behind_iff in H1 as (q & post & Hd & Hq).
    destruct (index_of_split _ _ _ Ek) as [Es Hn]. exists (take k s), q, post. rewrite Hd in Es. split_and!; try done. by apply Hg.
  - intros (body & q & post & -> & Hn & Hq & Hb). cbn [app]. rewrite index_of_app by done. rewrite take_app_length.
    apply andb_true_iff. split; [|by apply Hg]. apply behind_iff. exists q, post. split; [|done].
    rewrite drop_app_ge by lia. by replace (S (length body) - length body)%nat with 1%nat by lia.
Qed.

Lemma branch_end_spec s : forall b t, s = b ++ t -> Forall (fun c => bar_or_close c = false) b ->
  match t with c :: _ => bar_or_close c = true | [] => True end -> branch_end s = length b.
Proof.
  induction s as [|c s IH]; intros b t E Hb Ht; [by destruct b|]. cbn [branch_end]. destruct b as [|x b].
  - cbn [app] in E. subst t. by rewrite Ht.
  - injection E as <- E. apply Forall_cons in Hb as [-> Hb]. cbn [length]. f_equal. by apply (IH b t).
Qed.
Lemma branch_end_prefix s : Forall (fun c => bar_or_close c = false) (take (branch_end s) s).
Proof. induction s as [|c s IH]; [constructor|]. cbn [branch_end]. destruct (bar_or_close c) eqn:E; [constructor|]. cbn [take]. by constructor. Qed.

Lemma duplicate_iff s : duplicate_branch s = true <->
  exists b body q post, s = b ++ [124] ++ b ++ body ++ [41; q] ++ post /\ b <> [] /\ Forall (fun c => bar_or_close c = false) b /\ 41 ∉ body /\ unbounded q = true.
Proof.
  split.
  - unfold duplicate_branch. pose proof (branch_end_prefix s) as Hp. destruct (branch_end s) as [|m'] eqn:Em; [done|]. set (m := S m') in *.
    destruct (drop m s) as [|c t] eqn:Ed; [done|]. destruct (decide (c = 124)) as [->|Hc]; [|intros H; exfalso; repeat case_match; simplify_eq; done].
    intros [H1 H2]%andb_true_iff. apply starts_with_spec in H1 as [u Hu].
    assert (Hlen : length (take m s) = m).
    { rewrite length_take. apply Nat.min_l. destruct (Nat.le_gt_cases m (length s)); [done|]. rewrite drop_ge in Ed by lia. done. }
    assert (Hdu : drop m t = u) by (rewrite Hu; rewrite <- Hlen at 1; apply drop_app_length).
    rewrite Hdu in H2. destruct (index_of 41 u) as [k|] eqn:Ek; [|done]. apply behind_iff in H2 as (q & post & Hd & Hq).
    destruct (index_of_split _ _ _ Ek) as [Es Hn]. rewrite Hd in Es.
    exists (take m s), (take k u), q, post. split_and!; try done; [|by rewrite <- length_zero_iff_nil, Hlen].
    rewrite <- (take_drop m s) at 1. rewrite Ed, Hu, Es. cbn [app]. by rewrite Es at 1.
  - intros (b & body & q & post & -> & Hne & Hb & Hn & Hq). unfold duplicate_branch.
    rewrite (branch_end_spec _ b ([124] ++ b ++ body ++ [41; q] ++ post) eq_refl Hb eq_refl).
    destruct (length b) as [|n] eqn:Eb; [by destruct b|]. rewrite <- Eb, drop_app_length, take_app_length. cbn [app].
    rewrite starts_with_app, drop_app_length, index_of_app by done. cbn [andb].
    apply behind_iff. exists q, post. split; [|done]. rewrite drop_app_ge by lia. by replace (S (length body) - length body)%nat with 1%nat by lia.
Qed.

Lemma at_group_iff p s : at_group p s = true <-> exists pre rest, s = pre ++ 40 :: rest /\ p rest = true.
Proof.
  induction s as [|c s IH]; cbn [at_group]; [split; [done|intros ([|? ?] & ? & ? & _); done]|]. rewrite orb_true_iff, andb_true_iff, Z.eqb_eq, IH. split.
  - intros [[-> H]|(pre & rest & -> & H)]; [by exists [], s|by exists (c :: pre), rest].
  - intros ([|x pre] & rest & E & H); cbn [app] in E; injection E as -> ->; [by left|right; by exists pre, rest].
Qed.

(** The pre-screen of search patterns flags exactly its two shapes: a group under an
    unbounded quantifier that ends in one, and a group under an unbounded quantifier
    with two identical neighbouring branches. *)
Theorem catastrophic_regex_iff p :
  looksLikeCatastrophicRegex p = true <->
  (exists pre body q post, p = pre ++ [40] ++ body ++ [41; q] ++ post /\ 41 ∉ body /\ unbounded q = true /\ group_repeat body) \/
  (exists pre b body q post, p = pre ++ [40] ++ b ++ [124] ++ b ++ body ++ [41; q] ++ post /\ b <> [] /\
     Forall (fun c => bar_or_close c = false) b /\ 41 ∉ body /\ unbounded q = true).
Proof.
  unfold looksLikeCatastrophicRegex. rewrite orb_true_iff, !at_group_iff. split.
  - intros [(pre & rest & -> & (body & q & post & -> & H)%nested_iff)|(pre & rest & -> & (b & body & q & post & -> & H)%duplicate_iff)].
    + left. by exists pre, body, q, post.
    + right. by exists pre, b, body, q, post.
  - intros [(pre & body & q & post & -> & H)|(pre & b & body & q & post & -> & H)].
    + left. eexists pre, _. split; [done|]. apply nested_iff. by exists body, q, post.
    + right. eexists pre, _. split; [done|]. apply duplicate_iff. by exists b, body, q, post.
Qed.

(** ** Filters, rows, envelopes *)

Section Filters.
Context {Q : QtText} {CH : QtChar} {C : QtCodecs} {Query : Type} {QR : QtReport Query}.

(** A report selects the same findings whether its criteria come with the query or in a
    JSON body, and keeps exactly the findings that meet every criterion, in order. *)
Theorem report_filters_agree q body fs :
  (forall k, contains body k = qq_has q k /\ value body k = if qq_has q k then JString (qq_value q k) else JUndefined) ->
  (forall k, qq_has q k = false -> qq_value q k = []) -> u_cieq [] (lit "false") = false ->
  reportFilterFromJson body = reportFilterFromQuery q /\
  applyReportFilter fs q = map JObject (List.filter (passes (reportFilterFromJson body)) (map toObject fs)) /\
  (forall f, passes (reportFilterFromQuery q) f = true <->
     let c := reportFilterFromQuery q in
     fc_minSeverityRank c <= severityRank (str f (lit "severity")) /\
     (fc_minConfidenceRank c <= 0 \/ fc_minConfidenceRank c <= confidenceRank (str f (lit "confidence"))) /\
     (fc_includeKinds c = ∅ \/ str f (lit "kind") ∈ fc_includeKinds c) /\ str f (lit "kind") ∉ fc_excludeKinds c /\
     (fc_includeFixed c = true \/ toBool false (value f (lit "fixed")) = false)).
Proof.
  intros Hb Hq He. assert (E : reportFilterFromJson body = reportFilterFromQuery q).
  { unfold reportFilterFromJson, reportFilterFromQuery, str.
    rewrite !(proj1 (Hb _)), !(proj2 (Hb _)). f_equal.
    - by destruct (qq_has q (lit "minSeverity")).
    - by destruct (qq_has q (lit "minConfidence")).
    - destruct (qq_has q (lit "includeKinds")) eqn:E; [done|]. by rewrite (Hq _ E).
    - destruct (qq_has q (lit "excludeKinds")) eqn:E; [done|]. by rewrite (Hq _ E).
    - destruct (qq_has q (lit "includeFixed")) eqn:E; [done|]. by rewrite (Hq _ E), He. }
  split; [done|]. split; [by rewrite E|]. intros f. cbv zeta. set (c := reportFilterFromQuery q). unfold passes, findingPasses.
  destruct (_ <? fc_minSeverityRank c) eqn:E1; to_prop; [split; [done|intros (? & _); lia]|].
  destruct ((0 <? fc_minConfidenceRank c) && _) eqn:E2.
  { apply andb_true_iff in E2 as [? ?]. to_prop. split; [done|intros (_ & ? & _); lia]. }
  assert (H2 : fc_minConfidenceRank c <= 0 \/ fc_minConfidenceRank c <= confidenceRank (str f (lit "confidence"))).
  { apply andb_false_iff in E2 as [?|?]; to_prop; lia. }
  destruct (decide (fc_includeKinds c = ∅)) as [E3|E3]; [rewrite (bool_decide_true _ E3)|rewrite (bool_decide_false _ E3)]; cbn [negb andb].
  - destruct (decide (str f (lit "kind") ∈ fc_excludeKinds c)) as [E4|E4]; [rewrite (bool_decide_true _ E4)|rewrite (bool_decide_false _ E4)]; [split; [done|tauto]|].
    destruct (fc_includeFixed c), (toBool false _); cbn [negb andb]; split; try done; try (intros _; split_and!; auto; lia); intros (_ & _ & _ & _ & [?|?]); done.
  - destruct (decide (str f (lit "kind") ∈ fc_includeKinds c)) as [E5|E5]; [rewrite (bool_decide_true _ E5)|rewrite (bool_decide_false _ E5)]; cbn [negb]; [|split; [done|tauto]].
    destruct (decide (str f (lit "kind") ∈ fc_excludeKinds c)) as [E4|E4]; [rewrite (bool_decide_true _ E4)|rewrite (bool_decide_false _ E4)]; [split; [done|tauto]|].
    destruct (fc_includeFixed c), (toBool false _); cbn [negb andb]; split; try done; try (intros _; split_and!; auto; lia); intros (_ & _ & _ & _ & [?|?]); done.
Qed.

(** A body scan that is not cut short visits every row once, the newest first. *)
Lemma search_rows n : map (searchRowForIteration (Z.of_nat n)) (map Z.of_nat (seq 0 n)) = rev (map Z.of_nat (seq 0 n)).
Proof.
  apply (nth_ext _ _ 0 0); [by rewrite length_rev, !length_map|]. intros k Hk. rewrite !length_map, length_seq in Hk.
  rewrite rev_nth by (by rewrite length_map, length_seq). rewrite !length_map, length_seq.
  rewrite map_map. rewrite (nth_indep _ 0 (searchRowForIteration (Z.of_nat n) (Z.of_nat 0))) by (by rewrite length_map, length_seq).
  rewrite (map_nth (fun x => searchRowForIteration (Z.of_nat n) (Z.of_nat x))), seq_nth by done.
  rewrite (nth_indep _ 0 (Z.of_nat 0)) by (rewrite length_map, length_seq; lia). rewrite (map_nth Z.of_nat), seq_nth by lia.
  unfold searchRowForIteration. destruct (_ <=? 0) eqn:E1; to_prop; [lia|]. destruct (_ <? 0) eqn:E2; to_prop; [lia|].
  destruct (Z.of_nat n <=? _) eqn:E3; to_prop; lia.
Qed.
Lemma search_row_range n i : 0 < n -> 0 <= searchRowForIteration n i < n.
Proof.
  intros Hn. unfold searchRowForIteration. destruct (n <=? 0) eqn:E1; to_prop; [lia|]. cbv zeta. destruct (i <? 0) eqn:E2; to_prop.
  - destruct (n <=? 0) eqn:E3; to_prop; lia.
  - destruct (n <=? i) eqn:E3; to_prop; lia.
Qed.

(** A document that was built is accepted, with its sections. *)
Lemma config_document_accepted sections name :
  validateConfigDocument (buildConfigDocument sections) = None /\
  configSection (buildConfigDocument sections) name = toObject (value sections name) /\
  configSectionNames (buildConfigDocument sections) = map fst sections.
Proof. split_and!; reflexivity. Qed.

(** What is accepted has the format tag, a number that does not read as a newer version and
    its sections. *)
Lemma config_accepted_iff doc :
  validateConfigDocument doc = None <->
  str doc (lit "format") = lit "nullock-config" /\ isDouble (value doc (lit "version")) = true /\ toInt 0 (value doc (lit "version")) <= 1 /\
  isObject (value doc (lit "sections")) = true.
Proof.
  unfold validateConfigDocument. destruct (seq_eqb (str doc (lit "format")) _) eqn:E1; cbn [negb]; cycle 1.
  { split; [done|]. intros (H & _). rewrite H in E1. by vm_compute in E1. }
  apply seq_eqb_eq in E1. destruct (isDouble _) eqn:E2; cbn [negb]; [|split; [done|by intros (_ & ? & _)]].
  unfold kConfigVersion. destruct (1 <? _) eqn:E3; to_prop; [split; [done|intros (_ & _ & ? & _); lia]|].
  destruct (isObject _) eqn:E4; cbn [negb]; [|split; [done|by intros (_ & _ & _ & ?)]]. by split_and!.
Qed.
End Filters.

(** ** Certificates *)

Section Pem.
Context {Q : QtText} {QL : QtTextLaws Q} {C : QtCodecs} {CL : QtCodecsLaws C}.

(** However the base64 text is wrapped, the certificate comes back. *)
Lemma pem_roundtrip der body post :
  wf_bytes der -> b64_encode false der <> [] -> Forall (fun c => c <> 45) body -> List.filter (fun c => negb (b_space c)) body = b64_encode false der ->
  pemCertToDer (kBegin ++ body ++ kEnd ++ post) = der.
Proof.
  intros Hd Hne Hb Hf. unfold pemCertToDer.
  assert (H1 : index_sub kBegin (kBegin ++ body ++ kEnd ++ post) = Some 0%nat).
  { apply index_sub_intro; [lia|apply starts_with_app|lia]. }
  rewrite H1. change (0 + length kBegin)%nat with (length kBegin). rewrite drop_app_length.
  assert (H2 : index_sub kEnd (body ++ kEnd ++ post) = Some (length body)).
  { apply index_sub_intro; [rewrite length_app; lia|rewrite drop_app_length; apply starts_with_app|].
    intros j Hj. rewrite drop_app_le by lia. destruct (drop j body) as [|c r] eqn:Ed; [apply (f_equal length) in Ed; rewrite length_drop in Ed; cbn in Ed; lia|].
    destruct (starts_with kEnd _) eqn:Es; [|done]. apply starts_with_spec in Es as [t Et]. injection Et as Hc _.
    rewrite Forall_forall in Hb. exfalso. apply (Hb c); [|done]. rewrite <- (take_drop j body), Ed. apply elem_of_app. right. by left. }
  rewrite H2, take_app_length, Hf. assert (Hnil : is_nil (b64_encode false der) = false) by (by destruct (b64_encode false der)).
  rewrite Hnil, law_tolatin1; [by rewrite law_b64|]. apply Forall_forall. intros c Hc.
  destruct (law_b64_chars false der c Hd Hc) as [Ha _]. unfold is_ascii in Ha. unfold is_byte. split_bools. to_prop. lia.
Qed.
End Pem.

Definition sampleReport : QtReport (list (qstr * qstr)) := {|
  qq_has q k := existsb (fun e => seq_eqb (fst e) k) q;
  qq_value q k := match List.find (fun e => seq_eqb (fst e) k) q with Some e => snd e | None => [] end;
  js_positive v := match v with JInt n => 0 <? n | _ => false end;
  js_fixed1 v := match v with JInt n => number 10 n ++ lit ".0" | _ => [] end |}.

Section Examples.
#[local] Existing Instances utf8Text sampleCodecs sampleReport.

Lemma token_gate_exact_witness :
  isTokenAuthorized (lit "Bearer s3cret") (lit "s3cret") = true /\ isTokenAuthorized (lit "Bearer s3cre") (lit "s3cret") = false.
Proof.
  destruct (token_gate_exact (lit "Bearer s3cre") (lit "s3cret")) as [H1 H2]; [vm_compute; intros ?; discriminate..|].
  split; [apply H2; [discriminate|split; reflexivity]|].
  destruct (isTokenAuthorized (lit "Bearer s3cre") (lit "s3cret")); [|reflexivity]. destruct (proj1 H1 eq_refl) as (_ & _ & H). vm_compute in H. discriminate H.
Defined.

Definition ex_finding (kind sev : qstr) : json := JObject (object [(lit "kind", JString kind); (lit "severity", JString sev)]).

Lemma xml_report_structure_witness :
  skeleton (findingsJsonToXml [ex_finding (lit "</name><x a='" ++ [34]) (lit "high")] (lit "p") []) =
  skeleton (findingsJsonToXml [ex_finding (lit "xss") (lit "low")] (lit "</nullockReport>") []).
Proof. refine (proj2 (xml_report_structure _ _ _ _ _ _) _). reflexivity. Defined.

Definition ex_query : list (qstr * qstr) := [(lit "minSeverity", lit "HIGH"); (lit "includeKinds", lit "xss, ,sqli")].
Definition ex_body : list (qstr * json) := object (map (fun e => (fst e, JString (snd e))) ex_query).

Lemma report_filters_agree_witness :
  reportFilterFromJson ex_body = reportFilterFromQuery ex_query /\
  applyReportFilter [ex_finding (lit "xss") (lit "critical"); ex_finding (lit "xss") (lit "low"); ex_finding (lit "idor") (lit "high")] ex_query
  = [ex_finding (lit "xss") (lit "critical")].
Proof.
  split; [|vm_compute; reflexivity]. refine (proj1 (report_filters_agree ex_query ex_body [] _ _ eq_refl)).
  - intros k. unfold ex_body, ex_query, contains, value. cbn [map fst snd]. unfold object. cbn [fold_left insert fst snd qm_insert klt].
    cbn [qq_has qq_value sampleReport existsb List.find fst snd].
    destruct (decide (k = lit "minSeverity")) as [->|H1]; [split; reflexivity|]. destruct (decide (k = lit "includeKinds")) as [->|H2]; [split; reflexivity|].
    assert (E1 : seq_eqb (lit "minSeverity") k = false) by (destruct (seq_eqb (lit "minSeverity") k) eqn:E; [apply seq_eqb_eq in E; congruence|reflexivity]).
    assert (E2 : seq_eqb (lit "includeKinds") k = false) by (destruct (seq_eqb (lit "includeKinds") k) eqn:E; [apply seq_eqb_eq in E; congruence|reflexivity]).
    rewrite E1, E2. cbn [orb]. unfold qm_has.
    assert (Hg : qm_get k (qm_insert (lit "includeKinds") (JString (lit "xss, ,sqli")) (qm_insert (lit "minSeverity") (JString (lit "HIGH")) [])) = None).
    { rewrite !qm_get_insert_ne by done. reflexivity. }
    split; [exact (f_equal (fun o => match o with Some _ => true | None => false end) Hg)|exact (f_equal (default JUndefined) Hg)].
  - intros k. cbn [ex_query qq_has qq_value sampleReport existsb List.find fst snd]. destruct (seq_eqb (lit "minSeverity") k); [intros H; discriminate H|].
    destruct (seq_eqb (lit "includeKinds") k); [intros H; discriminate H|]. reflexivity.
Defined.

Example catastrophic_samples :
  map looksLikeCatastrophicRegex [lit "(a+)+"; lit "x(a{2,})*y"; lit "(a|a)+"; lit "([ab]|[ab]|c)*"; lit "(foo|bar)+"; lit "(a|a)"; lit "(a+b)+"]
  = [true; true; true; true; false; false; false].
Proof. vm_compute. reflexivity. Qed.

(** A version beyond the range of [int], or with a fraction, reads as zero and is not
    refused as newer. *)
Example newer_version_accepted :
  let doc n := object [(lit "format", JString (lit "nullock-config")); (lit "version", JInt n); (lit "sections", JObject [])] in
  validateConfigDocument (doc 2) <> None /\ validateConfigDocument (doc 2147483648) = None.
Proof. split; [vm_compute; discriminate|vm_compute; reflexivity]. Qed.

(** The two noncharacters that XML forbids pass the escaping. *)
Example xml_noncharacter_kept : xmlAttrEscape [65534; 65535] = [65534; 65535].
Proof. reflexivity. Qed.
End Examples.
