(* ===== verification/ControlServer.v ===== *)
(** * The control server's front door: Src/BackEnd/Control/control_server.cpp

    [start], the intake of connections, the check of a request's head and the state
    machine that reads it, under its deadlines and budgets, up to the dispatch; the
    handlers behind the dispatch are not modelled.  A socket's data, the clock and
    the timers come as labels. *)

From S2P Require Import Prelude Qt QtSample Json HttpFraming NetFraming Utf8 CertLogic Transcode ControlLogic.

Local Open Scope Z_scope.

Definition kReadTimeoutMs : Z := 5000.
Definition kHeaderDeadlineMs : Z := 3000.
Definition kBodyDeadlineMs : Z := 30000.
Definition kMaxBodyBytes : Z := 64 * 1024 * 1024.
Definition kMaxHeader : Z := 64 * 1024.
Definition kBodyBudget : Z := 128 * 1024 * 1024.
Definition kMaxConnections : nat := 32.

(** What [start] fixes: the token, whether every request needs it, and the port. *)
Record Config := mkConfig { cf_token : qstr; cf_mandatory : bool; cf_port : Z }.

(** [can p]: the port the server listens on when [listen] succeeds for [p], which is another
    one for port 0; the checks of a head ask for the listening port. *)
Definition start (loopback : bool) (port : Z) (token : qstr) (can : Z -> option Z) : option Config :=
  if negb loopback && is_nil token then None
  else
    match head (omap can [port; 17777; 27777; 37777; 47777; 57777]) with
    | Some p => Some (mkConfig token (negb loopback) p)
    | None => None
    end.

Section Server.
Context {Q : QtText}.

Definition httpResponse (status : Z) (mime body : bytes) : bytes :=
  lit "HTTP/1.1 " ++ number 10 status ++ lit " OK" ++ CRLF ++ lit "Content-Type: " ++ mime ++ CRLF
  ++ lit "Content-Length: " ++ number 10 (zlen body) ++ CRLF ++ lit "X-Content-Type-Options: nosniff" ++ CRLF
  ++ lit "Cache-Control: no-store" ++ CRLF ++ lit "Connection: close" ++ CRLF ++ CRLF ++ body.
Definition refusal (status : Z) (text : bytes) : bytes := httpResponse status (lit "text/plain") text.

(** ** The head *)

Definition name_char (c : Z) : bool :=
  ((97 <=? c) && (c <=? 122)) || ((48 <=? c) && (c <=? 57)) || bool_decide (c ∈ lit "!#$%&'*+-.^_`|~").
Definition unique : list bytes := [lit "host"; lit "content-length"; lit "origin"; lit "authorization"; lit "x-nullock-ui"].

Fixpoint header_fields (lines : list bytes) (headers : gmap bytes bytes) : bytes + gmap bytes bytes :=
  match lines with
  | [] => inr headers
  | line :: rest =>
      let line := if ends_with_chr 13 line then chop1 line else line in
      match index_of 58 line with
      | None | Some O => inl (refusal 400 (lit "Invalid header"))
      | Some colon =>
          if starts_with_chr 32 line || starts_with_chr 9 line then inl (refusal 400 (lit "Invalid header"))
          else
            let key := b_lower (take colon line) in
            let val := b_trimmed (drop (colon + 1) line) in
            if negb (forallb name_char key) then inl (refusal 400 (lit "Invalid header name"))
            else if bool_decide (13 ∈ val) || bool_decide (0 ∈ val) then inl (refusal 400 (lit "Invalid header value"))
            else if seq_eqb key (lit "transfer-encoding") then inl (refusal 400 (lit "Transfer-Encoding is not supported by the control API"))
            else if bool_decide (key ∈ unique) && bool_decide (is_Some (headers !! key)) then inl (refusal 400 (lit "Duplicate control header"))
            else header_fields rest (<[key := val]> headers)
      end
  end.

Definition field (headers : gmap bytes bytes) (key : bytes) : bytes := default [] (headers !! key).

Definition content_length (headers : gmap bytes bytes) : option Z :=
  match headers !! lit "content-length" with
  | None => Some 0
  | Some v =>
      match u_tolonglong 10 v with
      | Some n => if negb (is_nil v) && forallb is_digit v && (0 <=? n) && (n <=? kMaxBodyBytes) then Some n else None
      | None => None
      end
  end.

Inductive Checked := Refused (response : bytes) | Accepted (method target : qstr) (length : Z).

Definition validateHeaders (cf : Config) (header : bytes) : Checked :=
  let lines := split_on 10 header in
  match split_on 32 (b_trimmed (hd [] lines)) with
  | [method; target; version] =>
      if negb (seq_eqb version (lit "HTTP/1.1") || seq_eqb version (lit "HTTP/1.0")) || negb (starts_with_chr 47 target) || bool_decide (35 ∈ target)
      then Refused (refusal 400 (lit "Bad request line"))
      else
        match header_fields (tl lines) ∅ with
        | inl e => Refused e
        | inr h =>
            match content_length h with
            | None => Refused (refusal 413 (lit "Content-Length invalid or too large"))
            | Some n =>
                let tokenValid := isTokenAuthorized (field h (lit "authorization")) (cf_token cf) in
                if cf_mandatory cf && negb tokenValid then Refused (refusal 401 (lit "Unauthorized (bearer token required)"))
                else if negb tokenValid && negb (isHostAllowed (field h (lit "host")) (cf_port cf)) then
                  Refused (refusal 421 (lit "Misdirected Host (DNS rebinding defence)"))
                else if negb (isMethodAllowed method) then Refused (refusal 405 (lit "Method not allowed"))
                else if negb tokenValid && negb (isRequestAuthorized method (field h (lit "origin")) (field h (lit "x-nullock-ui")) (cf_port cf)) then
                  Refused (refusal 403 (lit "Cross-origin write rejected (need same-origin Origin or X-Nullock-UI: 1)"))
                else if bool_decide (is_Some (h !! lit "expect")) then Refused (refusal 417 (lit "Expect is not supported by the control API"))
                else Accepted method target n
            end
        end
  | _ => Refused (refusal 400 (lit "Bad request line"))
  end.

(** ** A connection *)

(** [Pending] with what waits in the socket and the interval of the running timer. *)
Record Conn := mkConn {
  c_avail : bytes; c_buffer : bytes; c_method : qstr; c_target : qstr; c_length : Z;
  c_headers : bool; c_finished : bool; c_reserved : bool; c_timer : option Z
}.
Definition freshConn (avail : bytes) : Conn := mkConn avail [] [] [] 0 false false false (Some kHeaderDeadlineMs).

Inductive Effect :=
| Wrote (id : nat) (response : bytes)
| Dispatched (id : nat) (method target : qstr) (body : bytes)
| Aborted (id : nat).

(** The bytes a connection holds of the budget. *)
Definition held (c : Conn) : Z := if c_reserved c then c_length c else 0.

(** [reject]: the budget, the connection and what is written. *)
Definition reject (id : nat) (response : bytes) (pending : Z) (c : Conn) : Z * Conn * list Effect :=
  (pending - held c, mkConn (c_avail c) [] (c_method c) (c_target c) (c_length c) (c_headers c) true false (Some kReadTimeoutMs), [Wrote id response]).

Definition with_io (avail buffer : bytes) (timer : option Z) (c : Conn) : Conn :=
  mkConn avail buffer (c_method c) (c_target c) (c_length c) (c_headers c) (c_finished c) (c_reserved c) timer.

(** The head of [read]: whether it goes on. *)
Definition readHead (cf : Config) (id : nat) (pending : Z) (c : Conn) : Z * Conn * list Effect * bool :=
  if c_headers c then (pending, c, [], true)
  else
    let room := Z.to_nat (kMaxHeader + 1 - zlen (c_buffer c)) in
    let buffer := c_buffer c ++ take room (c_avail c) in
    let c := with_io (drop room (c_avail c)) buffer (c_timer c) c in
    let sep := index_sub CRLFCRLF buffer in
    if kMaxHeader <? match sep with None => zlen buffer | Some k => Z.of_nat k + 4 end then (reject id (refusal 431 (lit "Headers too large")) pending c, false)
    else
      match sep with
      | None => (pending, c, [], false)
      | Some k =>
          match validateHeaders cf (take k buffer) with
          | Refused response => (reject id response pending c, false)
          | Accepted method target n =>
              let c := mkConn (c_avail c) (drop (k + 4) buffer) method target n false false false (c_timer c) in
              if kBodyBudget <? pending + n then (reject id (refusal 503 (lit "Control request body budget exhausted; retry later")) pending c, false)
              else (pending + n, mkConn (c_avail c) (c_buffer c) method target n true false true (Some kReadTimeoutMs), [], true)
          end
      end.

(** The rest: [elapsed] is the body clock; [closed] says that the socket is gone right
    behind the dispatch. *)
Definition readBody (id : nat) (elapsed : Z) (closed : bool) (pending : Z) (c : Conn) : Z * Conn * list Effect :=
  let missing := c_length c - zlen (c_buffer c) in
  let chunk := take (Z.to_nat missing) (c_avail c) in
  let c' := if 0 <? missing then with_io (drop (length chunk) (c_avail c)) (c_buffer c ++ chunk) (c_timer c) c else c in
  let remaining := kBodyDeadlineMs - elapsed in
  if (0 <? missing) && (remaining <=? 0) then reject id (refusal 408 (lit "Incomplete request body")) pending c'
  else
    let c' := if (0 <? missing) && negb (is_nil chunk) then with_io (c_avail c') (c_buffer c') (Some (Z.min remaining kReadTimeoutMs)) c' else c' in
    if zlen (c_buffer c') <? c_length c' then (pending, c', [])
    else if c_length c' <? zlen (c_buffer c') then reject id (refusal 400 (lit "Unexpected request body")) pending c'
    else
      (pending - held c',
       mkConn (c_avail c') [] (c_method c') (c_target c') (c_length c') true true false (if closed then None else Some kReadTimeoutMs),
       [Dispatched id (c_method c') (c_target c') (c_buffer c')]).

Definition readConn (cf : Config) (id : nat) (elapsed : Z) (closed : bool) (pending : Z) (c : Conn) : Z * Conn * list Effect :=
  if c_finished c then (pending, c, [])
  else
    let '(pending, c, effects, go) := readHead cf id pending c in
    if go then readBody id elapsed closed pending c else (pending, c, effects).

(** ** The server *)

Record Server := mkServer { sv_config : Config; sv_pending : Z; sv_conns : gmap nat Conn; sv_log : list Effect }.

Definition emptyServer (cf : Config) : Server := mkServer cf 0 ∅ [].

Definition disconnected (id : nat) (s : Server) : Server :=
  match sv_conns s !! id with
  | None => s
  | Some c => mkServer (sv_config s) (sv_pending s - held c) (delete id (sv_conns s)) (sv_log s)
  end.

Definition is_dispatch (e : Effect) : bool := match e with Dispatched _ _ _ _ => true | _ => false end.

(** [read], with the disconnection that may follow a dispatch. *)
Definition read (id : nat) (data : bytes) (elapsed : Z) (closed : bool) (s : Server) : Server :=
  match sv_conns s !! id with
  | None => s
  | Some c =>
      let c := with_io (c_avail c ++ data) (c_buffer c) (c_timer c) c in
      let '(pending, c', effects) := readConn (sv_config s) id elapsed closed (sv_pending s) c in
      let s' := mkServer (sv_config s) pending (<[id := c']> (sv_conns s)) (sv_log s ++ effects) in
      if closed && existsb is_dispatch effects then disconnected id s' else s'
  end.

(** One pending connection; its first read follows at once. *)
Definition onNewConnection (id : nat) (data : bytes) (elapsed : Z) (closed : bool) (s : Server) : Server :=
  if (kMaxConnections <=? size (sv_conns s))%nat then mkServer (sv_config s) (sv_pending s) (sv_conns s) (sv_log s ++ [Aborted id])
  else read id data elapsed closed (mkServer (sv_config s) (sv_pending s) (<[id := freshConn []]> (sv_conns s)) (sv_log s)).

Definition timeout (id : nat) (s : Server) : option Server :=
  match sv_conns s !! id with
  | Some c =>
      match c_timer c with
      | None => None
      | Some _ =>
          let c := with_io (c_avail c) (c_buffer c) None c in
          if c_finished c then
            let s := disconnected id s in Some (mkServer (sv_config s) (sv_pending s) (sv_conns s) (sv_log s ++ [Aborted id]))
          else
            let '(pending, c', effects) :=
              reject id (refusal 408 (if c_headers c then lit "Incomplete request body" else lit "Header read timeout")) (sv_pending s) c in
            Some (mkServer (sv_config s) pending (<[id := c']> (sv_conns s)) (sv_log s ++ effects))
      end
  | None => None
  end.

(** [stop]: every socket is aborted. *)
Definition stop (s : Server) : Server := foldr disconnected s (map fst (map_to_list (sv_conns s))).

Inductive Label :=
| LConnect (id : nat) (data : bytes) (elapsed : Z) (closed : bool)
| LData (id : nat) (data : bytes) (elapsed : Z) (closed : bool)
| LTimeout (id : nat) | LDisconnected (id : nat) | LStop.

(** A new socket is none of the live ones. *)
Definition exec (s : Server) (l : Label) : option Server :=
  match l with
  | LConnect id data e closed => if bool_decide (is_Some (sv_conns s !! id)) then None else Some (onNewConnection id data e closed s)
  | LData id data e closed => Some (read id data e closed s)
  | LTimeout id => timeout id s
  | LDisconnected id => Some (disconnected id s)
  | LStop => Some (stop s)
  end.
Definition cstep (s : Server) (l : Label) (s' : Server) : Prop := exec s l = Some s'.

(** ** What the head's check demands *)

(** A request that may be dispatched. *)
Definition authorized (cf : Config) (header : bytes) (method target : qstr) (n : Z) : Prop :=
  starts_with_chr 47 target = true /\ 35 ∉ target /\ isMethodAllowed method = true /\ 0 <= n <= kMaxBodyBytes /\
  exists h, header_fields (tl (split_on 10 header)) ∅ = inr h /\ h !! lit "transfer-encoding" = None /\ h !! lit "expect" = None /\ content_length h = Some n /\
    (isTokenAuthorized (field h (lit "authorization")) (cf_token cf) = true \/
     (cf_mandatory cf = false /\ isHostAllowed (field h (lit "host")) (cf_port cf) = true /\
      isRequestAuthorized method (field h (lit "origin")) (field h (lit "x-nullock-ui")) (cf_port cf) = true)).

Lemma header_fields_no_te lines : forall h h', h !! lit "transfer-encoding" = None -> header_fields lines h = inr h' -> h' !! lit "transfer-encoding" = None.
Proof.
  induction lines as [|line lines IH]; intros h h' Hn H; cbn [header_fields] in H; [by injection H as <-|]. cbv zeta in H.
  set (l := if ends_with_chr 13 line then chop1 line else line) in *. destruct (index_of 58 l) as [[|k]|]; try done.
  destruct (_ || _); [done|]. destruct (negb _); [done|]. destruct (_ || _); [done|]. destruct (seq_eqb _ _) eqn:E; [done|].
  destruct (_ && _); [done|]. apply IH in H; [done|]. rewrite lookup_insert_ne; [done|]. intros Hk. rewrite Hk in E. by vm_compute in E.
Qed.

Lemma validate_accepts cf header method target n : validateHeaders cf header = Accepted method target n -> authorized cf header method target n.
Proof.
  unfold validateHeaders. destruct (split_on 32 _) as [|m [|t [|v [|? ?]]]]; try done.
  destruct (_ || _ || _) eqn:E1; [done|]. destruct (header_fields _ _) as [e|h] eqn:Eh; [done|].
  destruct (content_length h) as [k|] eqn:Ec; [|done]. cbv zeta.
  set (tok := isTokenAuthorized _ _). set (host := isHostAllowed _ _). set (req := isRequestAuthorized _ _ _ _).
  destruct (cf_mandatory cf && negb tok) eqn:E2; [done|]. destruct (negb tok && negb host) eqn:E3; [done|].
  destruct (isMethodAllowed m) eqn:E4; cbn [negb]; [|done]. destruct (negb tok && negb req) eqn:E5; [done|].
  destruct (decide (is_Some (h !! lit "expect"))) as [E6|E6]; [rewrite (bool_decide_true _ E6); done|rewrite (bool_decide_false _ E6)].
  intros [= <- <- <-]. apply orb_false_iff in E1 as [[_ E1]%orb_false_iff E7]. apply bool_decide_eq_false in E7.
  assert (Hk : 0 <= k <= kMaxBodyBytes).
  { unfold content_length in Ec. destruct (h !! lit "content-length") as [v'|]; [|injection Ec as <-; by vm_compute].
    destruct (u_tolonglong 10 v'); [|done]. destruct (_ && _ && _ && _) eqn:E; [|done]. injection Ec as <-. split_bools. to_prop. lia. }
  split_and!; try done; try lia.
  - by apply negb_false_iff in E1.
  - exists h. split_and!; try done.
    + exact (header_fields_no_te _ _ _ (lookup_empty _) Eh).
    + by apply eq_None_not_Some.
    + destruct tok eqn:Et; [by left|right]. cbn [negb andb] in *. rewrite andb_true_r in E2. by apply negb_false_iff in E3, E5.
Qed.

(** ** Reading *)

(** A connection that still reads: what it has of the bytes received. *)
Definition conn_ok (cf : Config) (received : bytes) (c : Conn) : Prop :=
  zlen (c_buffer c) <= Z.max (kMaxHeader + 1) (c_length c) /\ 0 <= c_length c <= kMaxBodyBytes /\
  (c_finished c = true -> c_reserved c = false) /\
  (c_finished c = false -> c_reserved c = c_headers c /\
     if c_headers c then exists header, received = header ++ CRLFCRLF ++ c_buffer c ++ c_avail c /\ zlen header + 4 <= kMaxHeader /\
                           authorized cf header (c_method c) (c_target c) (c_length c)
     else received = c_buffer c ++ c_avail c /\ zlen (c_buffer c) <= kMaxHeader + 1).

(** What a read of a connection can give. *)
Definition dispatch_ok (cf : Config) (id : nat) (received : bytes) (e : Effect) : Prop :=
  match e with
  | Dispatched id' m t b => id' = id /\ exists header rest, received = header ++ CRLFCRLF ++ b ++ rest /\ zlen header + 4 <= kMaxHeader /\ authorized cf header m t (zlen b)
  | Wrote id' _ => id' = id
  | Aborted _ => False
  end.

Lemma reject_ok cf id received response pending c :
  0 <= c_length c <= kMaxBodyBytes ->
  let '(p, c', es) := reject id response pending c in
  p = pending - held c /\ held c' = 0 /\ conn_ok cf received c' /\ c_finished c' = true /\ is_Some (c_timer c') /\ Forall (dispatch_ok cf id received) es /\ existsb is_dispatch es = false.
Proof.
  intros Hl. unfold reject. split_and!; try done; try lia; [|by apply Forall_singleton].
  unfold conn_ok. cbn [c_buffer c_length c_finished c_reserved]. rewrite zlen_nil. refine (conj _ (conj Hl (conj _ _))); [unfold kMaxHeader; lia|done|done].
Qed.

Lemma conn_ok_data cf received data c : conn_ok cf received c -> conn_ok cf (received ++ data) (with_io (c_avail c ++ data) (c_buffer c) (c_timer c) c).
Proof.
  intros (H1 & H2 & H3 & H4). unfold conn_ok. cbn [with_io c_buffer c_avail c_length c_finished c_reserved c_headers c_method c_target].
  refine (conj H1 (conj H2 (conj H3 _))). intros Hf. destruct (H4 Hf) as [Hr Hh]. split; [done|]. destruct (c_headers c).
  - destruct Hh as (header & -> & Hl & Ha). exists header. by rewrite <- !app_assoc.
  - destruct Hh as [Hh Hb]. split; [by rewrite Hh, <- app_assoc|done].
Qed.

Lemma held_nonneg c : 0 <= c_length c -> 0 <= held c.
Proof. unfold held. by destruct (c_reserved c). Qed.

(** What a step on one connection may do. *)
Definition read_ok (cf : Config) (id : nat) (closed : bool) (received : bytes) (pending : Z) (c : Conn) (r : Z * Conn * list Effect) : Prop :=
  let '(p, c', es) := r in
  p - held c' = pending - held c /\ (pending <= kBodyBudget -> p <= kBodyBudget) /\ conn_ok cf received c' /\
  (is_Some (c_timer c') \/ (closed = true /\ existsb is_dispatch es = true)) /\ Forall (dispatch_ok cf id received) es.

Lemma reject_read_ok cf id closed received response pending c : 0 <= c_length c <= kMaxBodyBytes -> read_ok cf id closed received pending c (reject id response pending c).
Proof.
  intros Hl. pose proof (reject_ok cf id received response pending c Hl) as H. unfold read_ok. destruct (reject _ _ _ _) as [[p c'] es].
  destruct H as (-> & Hh & Hc & _ & Ht & He & _). pose proof (held_nonneg c ltac:(lia)). split_and!; try done; try lia. by left.
Qed.

Lemma readHead_ok cf id closed received pending c : conn_ok cf received c -> c_finished c = false -> is_Some (c_timer c) ->
  let '(p, c', es, go) := readHead cf id pending c in
  read_ok cf id closed received pending c (p, c', es) /\ (go = true -> es = [] /\ c_finished c' = false /\ c_headers c' = true /\ is_Some (c_timer c')).
Proof.
  intros Hc Hf Ht. destruct Hc as (H1 & H2 & H3 & H4) eqn:EHc. clear EHc. destruct (H4 Hf) as [Hr Hh]. unfold readHead. destruct (c_headers c) eqn:Ehd.
  { split; [|done]. unfold read_ok. split_and!; try done. by left. }
  destruct Hh as [Hh Hbz]. cbv zeta. set (room := Z.to_nat (kMaxHeader + 1 - zlen (c_buffer c))). set (buffer := c_buffer c ++ take room (c_avail c)).
  set (c1 := with_io (drop room (c_avail c)) buffer (c_timer c) c).
  assert (Hheld1 : held c1 = held c) by done. assert (Hheld0 : held c = 0) by (unfold held; by rewrite Hr).
  assert (Hrec : received = buffer ++ c_avail c1) by (rewrite Hh; unfold buffer, c1; cbn [with_io c_avail]; by rewrite <- app_assoc, take_drop).
  assert (Hrej : forall resp c0, 0 <= c_length c0 <= kMaxBodyBytes -> held c0 = 0 -> read_ok cf id closed received pending c (reject id resp pending c0)).
  { intros resp c0 Hl Hz. pose proof (reject_read_ok cf id closed received resp pending c0 Hl) as H. unfold read_ok in *. destruct (reject _ _ _ _) as [[? ?] ?].
    by rewrite Hheld0, <- Hz. }
  destruct (_ <? _) eqn:E1; [pose proof (Hrej (refusal 431 (lit "Headers too large")) c1 H2 (eq_trans Hheld1 Hheld0)) as H; by destruct (reject _ _ _ _) as [[? ?] ?]|].
  to_prop. destruct (index_sub CRLFCRLF buffer) as [k|] eqn:Ek.
  - destruct (validateHeaders cf (take k buffer)) as [resp|m t n] eqn:Ev.
    { pose proof (Hrej resp c1 H2 (eq_trans Hheld1 Hheld0)) as H. by destruct (reject _ _ _ _) as [[? ?] ?]. }
    apply validate_accepts in Ev as Ha. assert (Hn : 0 <= n <= kMaxBodyBytes) by apply Ha. set (c2 := mkConn (c_avail c1) (drop (k + 4) buffer) m t n false false false (c_timer c1)).
    destruct (kBodyBudget <? pending + n) eqn:E2.
    { pose proof (Hrej (refusal 503 (lit "Control request body budget exhausted; retry later")) c2 Hn eq_refl) as H. by destruct (reject _ _ _ _) as [[? ?] ?]. }
    to_prop. split; [|intros _; split_and!; try done; by eexists]. unfold read_ok.
    refine (conj _ (conj _ (conj _ (conj _ _)))); [unfold held at 1; cbn [c_reserved c_length]; lia|done| |left; by eexists|done].
    destruct (index_sub_Some _ _ _ Ek) as (Hlk & Hs & _). apply starts_with_spec in Hs as [u Hu].
    assert (Hbuf : buffer = take k buffer ++ CRLFCRLF ++ drop (k + 4) buffer).
    { rewrite <- (take_drop k buffer) at 1. f_equal. rewrite Hu. f_equal. rewrite <- drop_drop, Hu. done. }
    assert (Hlen : zlen (take k buffer) = Z.of_nat k) by (unfold zlen; rewrite length_take; lia).
    assert (Hzb : zlen buffer <= kMaxHeader + 1).
    { unfold buffer. rewrite zlen_app. unfold zlen at 2. rewrite length_take. unfold room, zlen in *. lia. }
    unfold conn_ok. cbn [c_buffer c_length c_finished c_reserved c_headers c_avail c_method c_target c2]. refine (conj _ (conj Hn (conj _ _))).
    + apply (f_equal zlen) in Hbuf. rewrite !zlen_app in Hbuf. change (zlen CRLFCRLF) with 4 in Hbuf. lia.
    + done.
    + intros _. split; [done|]. exists (take k buffer). split_and!; [|lia|done]. rewrite Hrec. rewrite Hbuf at 1. by rewrite <- !app_assoc.
  - split; [|done]. unfold read_ok. refine (conj _ (conj _ (conj _ (conj _ _)))); [done|done| |by left|done].
    unfold conn_ok. cbn [with_io c1 c_buffer c_length c_finished c_reserved c_headers c_avail]. refine (conj _ (conj H2 (conj H3 _))); [lia|].
    intros _. rewrite Ehd. split; [done|]. split; [done|lia].
Qed.

Lemma readBody_ok cf id e closed received pending c : conn_ok cf received c -> c_finished c = false -> c_headers c = true -> is_Some (c_timer c) ->
  read_ok cf id closed received pending c (readBody id e closed pending c).
Proof.
  intros (H1 & H2 & H3 & H4) Hf Hhd Ht. destruct (H4 Hf) as [Hr Hh]. rewrite Hhd in Hr, Hh. destruct Hh as (header & Hrec & Hlh & Ha).
  unfold readBody. cbv zeta. set (missing := c_length c - zlen (c_buffer c)). set (chunk := take (Z.to_nat missing) (c_avail c)).
  set (c1 := if 0 <? missing then _ else c). set (c2 := if (0 <? missing) && negb (is_nil chunk) then _ else c1).
  assert (Hc1 : c_length c1 = c_length c /\ held c1 = held c /\ c_buffer c1 ++ c_avail c1 = c_buffer c ++ c_avail c /\
    (0 < missing -> zlen (c_buffer c1) <= c_length c) /\ (missing <= 0 -> c_buffer c1 = c_buffer c)).
  { unfold c1. destruct (0 <? missing) eqn:E; to_prop; [|by split_and!; try lia]. cbn [with_io c_length c_buffer c_avail]. split_and!; try done; try lia.
    - rewrite <- app_assoc. f_equal. unfold chunk. rewrite length_take. destruct (Nat.le_gt_cases (length (c_avail c)) (Z.to_nat missing)) as [Hle|Hgt].
      + rewrite Nat.min_r, take_ge, drop_all by done. by rewrite app_nil_r.
      + rewrite Nat.min_l by lia. apply take_drop.
    - intros _. rewrite zlen_app. unfold chunk, zlen at 2. rewrite length_take. unfold missing in *. lia. }
  assert (Hc2 : c_length c2 = c_length c1 /\ held c2 = held c1 /\ c_buffer c2 = c_buffer c1 /\ c_avail c2 = c_avail c1 /\
    c_finished c2 = false /\ c_headers c2 = true /\ c_reserved c2 = true /\ c_method c2 = c_method c /\ c_target c2 = c_target c /\ is_Some (c_timer c2)).
  { unfold c2, c1. destruct (0 <? missing); [destruct (is_nil chunk)|]; cbn [negb andb with_io c_length c_buffer c_avail c_finished c_headers c_reserved c_method c_target c_timer];
      split_and!; done. }
  clearbody c1 c2. destruct Hc1 as (L1 & L2 & L3 & L4 & L5). destruct Hc2 as (M1 & M2 & M3 & M4 & M5 & M6 & M7 & M8 & M9 & M10).
  assert (Hrej : forall resp c0, c_length c0 = c_length c -> held c0 = held c -> read_ok cf id closed received pending c (reject id resp pending c0)).
  { intros resp c0 Hl Hz. pose proof (reject_read_ok cf id closed received resp pending c0 ltac:(lia)) as H. unfold read_ok in *. destruct (reject _ _ _ _) as [[? ?] ?].
    by rewrite <- Hz. }
  destruct ((0 <? missing) && _) eqn:E1; [by apply Hrej|]. rewrite M1, L1.
  assert (Hbuf : zlen (c_buffer c2) <= Z.max (kMaxHeader + 1) (c_length c)).
  { rewrite M3. destruct (Z.lt_ge_cases 0 missing) as [Hm|Hm]; [specialize (L4 Hm); lia|rewrite (L5 Hm); lia]. }
  assert (Hrec2 : received = header ++ CRLFCRLF ++ c_buffer c2 ++ c_avail c2) by (rewrite M3, M4, L3; done).
  destruct (zlen (c_buffer c2) <? c_length c) eqn:E2; to_prop.
  { unfold read_ok. split_and!; try done; [congruence| |by left]. unfold conn_ok. rewrite M5, M6, M7, M8, M9, M1, L1. split_and!; try done; try lia.
    intros _. split; [done|]. by exists header. }
  destruct (c_length c <? zlen (c_buffer c2)) eqn:E3; to_prop; [apply Hrej; congruence|].
  assert (Hheld : held c2 = c_length c) by (unfold held; rewrite M7; congruence).
  unfold read_ok. rewrite M8, M9. split_and!.
  - unfold held at 2. cbn [c_reserved]. lia.
  - pose proof (held_nonneg c2 ltac:(lia)). lia.
  - unfold conn_ok. cbn [c_buffer c_length c_finished c_reserved c_headers]. rewrite zlen_nil. split_and!; try done; unfold kMaxHeader; lia.
  - cbn [c_timer c_reserved existsb is_dispatch]. destruct closed; [by right|left; by eexists].
  - apply Forall_singleton. split; [done|]. exists header, (c_avail c2). split_and!; [done|lia|]. by replace (zlen (c_buffer c2)) with (c_length c) by lia.
Qed.

Lemma readConn_ok cf id e closed received pending c : conn_ok cf received c -> is_Some (c_timer c) ->
  read_ok cf id closed received pending c (readConn cf id e closed pending c).
Proof.
  intros Hc Ht. unfold readConn. destruct (c_finished c) eqn:Hf; [unfold read_ok; split_and!; try done; by left|].
  pose proof (readHead_ok cf id closed received pending c Hc Hf Ht) as H. destruct (readHead _ _ _ _) as [[[p c1] es] go]. destruct H as [H1 H2].
  destruct go; [|done]. destruct (H2 eq_refl) as (-> & Hf1 & Hh1 & Ht1). destruct H1 as (G1 & G2 & G3 & _ & _).
  pose proof (readBody_ok cf id e closed received p c1 G3 Hf1 Hh1 Ht1) as H. unfold read_ok in *. destruct (readBody _ _ _ _ _) as [[p' c'] es'].
  destruct H as (K1 & K2 & K3 & K4 & K5). split_and!; try done; [lia|auto].
Qed.

(** ** The server's invariant *)

(** What the peer behind [id] has sent since its connection was accepted. *)
Definition take_in (id : nat) (acc : bytes) (l : Label) : bytes :=
  match l with
  | LConnect i d _ _ => if (i =? id)%nat then d else acc
  | LData i d _ _ => if (i =? id)%nat then acc ++ d else acc
  | _ => acc
  end.
Definition received (tr : list Label) (id : nat) : bytes := fold_left (take_in id) tr [].

Lemma received_snoc tr l id : received (tr ++ [l]) id = take_in id (received tr id) l.
Proof. unfold received. by rewrite fold_left_app. Qed.

Definition total_held (m : gmap nat Conn) : Z := map_fold (fun _ c acc => held c + acc) 0 m.

Lemma total_delete (m : gmap nat Conn) id c : m !! id = Some c -> total_held m = held c + total_held (delete id m).
Proof.
  intros Hm. unfold total_held. rewrite (map_fold_delete_L (fun _ c acc => held c + acc) 0 id c m); [done| |done]. intros; lia.
Qed.
Lemma total_insert (m : gmap nat Conn) id c : total_held (<[id := c]> m) = held c + total_held (delete id m).
Proof. rewrite (total_delete _ id c) by apply lookup_insert_eq. by rewrite delete_insert_eq. Qed.
Lemma total_replace (m : gmap nat Conn) id c c' : m !! id = Some c -> total_held (<[id := c']> m) = total_held m - held c + held c'.
Proof. intros H. rewrite total_insert, (total_delete m id c H). lia. Qed.

Definition live_ok (cf : Config) (tr : list Label) (id : nat) (c : Conn) : Prop := conn_ok cf (received tr id) c /\ is_Some (c_timer c).

Definition log_ok (cf : Config) (tr : list Label) (e : Effect) : Prop :=
  match e with
  | Dispatched id m t b =>
      exists pre post header rest, tr = pre ++ post /\ received pre id = header ++ CRLFCRLF ++ b ++ rest /\ zlen header + 4 <= kMaxHeader /\ authorized cf header m t (zlen b)
  | _ => True
  end.

Definition server_ok (cf : Config) (tr : list Label) (s : Server) : Prop :=
  sv_config s = cf /\ sv_pending s = total_held (sv_conns s) /\ sv_pending s <= kBodyBudget /\ (size (sv_conns s) <= kMaxConnections)%nat /\
  map_Forall (live_ok cf tr) (sv_conns s) /\ Forall (log_ok cf tr) (sv_log s).

Lemma log_ok_more cf tr l e : log_ok cf tr e -> log_ok cf (tr ++ [l]) e.
Proof.
  destruct e as [| |]; try done. intros (pre & post & header & rest & -> & H). exists pre, (post ++ [l]), header, rest. by rewrite <- app_assoc.
Qed.
Lemma dispatch_log cf tr id e : dispatch_ok cf id (received tr id) e -> log_ok cf tr e.
Proof. destruct e as [| |]; try done. intros [-> (header & rest & H)]. exists tr, [], header, rest. by rewrite app_nil_r. Qed.

(** Connections the label does not touch. *)
Definition touches (l : Label) (id : nat) : bool := match l with LConnect i _ _ _ | LData i _ _ _ => (i =? id)%nat | _ => false end.
Lemma received_other tr l id : touches l id = false -> received (tr ++ [l]) id = received tr id.
Proof. intros H. rewrite received_snoc. destruct l; cbn [take_in touches] in *; try done; by rewrite H. Qed.

Lemma disconnected_ok cf tr id s : server_ok cf tr s -> server_ok cf tr (disconnected id s).
Proof.
  intros (H1 & H2 & H3 & H4 & H5 & H6). unfold disconnected. destruct (sv_conns s !! id) as [c|] eqn:E; [|by split_and!].
  assert (Hh : 0 <= held c) by (apply held_nonneg; apply (H5 _ _ E)). unfold server_ok. cbn [sv_config sv_pending sv_conns sv_log]. split_and!; try done; try lia.
  - rewrite H2, (total_delete _ _ _ E). lia.
  - rewrite map_size_delete_Some by (by eexists). lia.
  - by apply map_Forall_delete.
Qed.

Lemma stop_ok cf tr ids : forall s, server_ok cf tr s -> server_ok cf tr (foldr disconnected s ids).
Proof. induction ids as [|id ids IH]; intros s H; [done|]. cbn [foldr]. by apply disconnected_ok, IH. Qed.

(** A read on a connection that is there, with its bytes and the log up to date. *)
Lemma read_server_ok cf tr id data e closed s :
  sv_config s = cf -> sv_pending s = total_held (sv_conns s) -> sv_pending s <= kBodyBudget -> (size (sv_conns s) <= kMaxConnections)%nat ->
  (forall i c, sv_conns s !! i = Some c -> i <> id -> live_ok cf tr i c) ->
  (forall c, sv_conns s !! id = Some c -> exists old, received tr id = old ++ data /\ conn_ok cf old c /\ is_Some (c_timer c)) ->
  Forall (log_ok cf tr) (sv_log s) -> server_ok cf tr (read id data e closed s).
Proof.
  intros H1 H2 H3 H4 H5 H6 H7. unfold read. destruct (sv_conns s !! id) as [c|] eqn:E.
  2: { split_and!; try done. intros i c Hi. apply (H5 i c Hi). congruence. }
  destruct (H6 c eq_refl) as (old & Hr & Hc & Ht). apply (conn_ok_data cf old data) in Hc. rewrite <- Hr in Hc.
  set (c0 := with_io _ _ _ c) in *. assert (Hh0 : held c0 = held c) by done. assert (Ht0 : is_Some (c_timer c0)) by done.
  pose proof (readConn_ok cf id e closed (received tr id) (sv_pending s) c0 Hc Ht0) as H. rewrite H1. unfold read_ok in H.
  destruct (readConn _ _ _ _ _ _) as [[p c'] es]. destruct H as (G1 & G2 & G3 & G4 & G5).
  set (s' := mkServer cf p (<[id := c']> (sv_conns s)) (sv_log s ++ es)).
  assert (Hlog : Forall (log_ok cf tr) (sv_log s ++ es)).
  { apply Forall_app_2; [done|]. eapply Forall_impl; [exact G5|]. intros x. apply dispatch_log. }
  assert (Hsize : size (<[id := c']> (sv_conns s)) = size (sv_conns s)) by (by apply map_size_insert_Some).
  assert (Hp : p = total_held (<[id := c']> (sv_conns s))) by (rewrite (total_replace _ _ _ _ E); lia).
  assert (Hbudget : p <= kBodyBudget) by auto.
  destruct (closed && existsb is_dispatch es) eqn:Ed.
  - unfold disconnected, s'. cbn [sv_conns sv_pending sv_config sv_log]. rewrite lookup_insert_eq, delete_insert_eq.
    assert (Hh : 0 <= held c') by (apply held_nonneg; apply G3). unfold server_ok. cbn [sv_config sv_pending sv_conns sv_log]. split_and!; try done; try lia.
    + rewrite Hp, total_insert. lia.
    + rewrite map_size_delete_Some by (by eexists). lia.
    + intros i ci Hi. apply lookup_delete_Some in Hi as [Hne Hi]. apply (H5 i ci Hi). congruence.
  - split_and!; try done; [cbn [s' sv_conns]; lia|]. intros i ci Hi. cbn [s' sv_conns] in Hi. destruct (decide (i = id)) as [->|Hne].
    + rewrite lookup_insert_eq in Hi. injection Hi as <-. split; [done|]. destruct G4 as [?|[Hcl Hx]]; [done|]. by rewrite Hcl, Hx in Ed.
    + rewrite lookup_insert_ne in Hi by done. by apply (H5 i ci Hi).
Qed.

Lemma live_ok_more cf tr l id c : touches l id = false -> live_ok cf tr id c -> live_ok cf (tr ++ [l]) id c.
Proof. intros Ht [H1 H2]. split; [by rewrite received_other|done]. Qed.

Lemma untouched_ok cf tr l s : (forall id, touches l id = false) -> server_ok cf tr s -> server_ok cf (tr ++ [l]) s.
Proof.
  intros Hl (H1 & H2 & H3 & H4 & H5 & H6). split_and!; try done.
  - intros i c Hi. apply live_ok_more; [done|]. by apply (H5 i c Hi).
  - eapply Forall_impl; [exact H6|]. intros e. apply log_ok_more.
Qed.

Lemma server_step_ok cf tr s l s' : server_ok cf tr s -> cstep s l s' -> server_ok cf (tr ++ [l]) s'.
Proof.
  intros Hs H. pose proof Hs as (H1 & H2 & H3 & H4 & H5 & H6). unfold cstep in H.
  assert (H6' : Forall (log_ok cf (tr ++ [l])) (sv_log s)) by (eapply Forall_impl; [exact H6|]; intros e; apply log_ok_more).
  assert (Hother : forall i c, sv_conns s !! i = Some c -> touches l i = false -> live_ok cf (tr ++ [l]) i c).
  { intros i c Hi Ht. apply live_ok_more; [done|]. by apply (H5 i c Hi). }
  destruct l as [id d e closed|id d e closed|id|id|]; cbn [exec] in H.
  - case_bool_decide as Hn; [done|]. apply eq_None_not_Some in Hn. injection H as <-. unfold onNewConnection. destruct (_ <=? _)%nat eqn:Es.
    + split_and!; try done; cbn [sv_conns sv_log].
      * intros i c Hi. apply Hother; [done|]. cbn [touches]. apply Nat.eqb_neq. intros ->. congruence.
      * apply Forall_app_2; [done|by apply Forall_singleton].
    + apply Nat.leb_gt in Es. apply read_server_ok; cbn [sv_config sv_pending sv_conns sv_log]; try done.
      * rewrite total_insert, delete_id by done. cbn. lia.
      * rewrite map_size_insert_None by done. lia.
      * intros i c Hi Hne. rewrite lookup_insert_ne in Hi by done. apply Hother; [done|]. cbn [touches]. apply Nat.eqb_neq. congruence.
      * intros c Hc. rewrite lookup_insert_eq in Hc. injection Hc as <-. exists []. rewrite received_snoc. cbn [take_in]. rewrite Nat.eqb_refl. split; [done|].
        split; [|by eexists]. unfold conn_ok. cbn [freshConn c_buffer c_length c_finished c_reserved c_headers c_avail].
        rewrite zlen_nil. unfold kMaxHeader, kMaxBodyBytes. by split_and!.
  - injection H as <-. apply read_server_ok; try done.
    + intros i c Hi Hne. apply Hother; [done|]. cbn [touches]. apply Nat.eqb_neq. congruence.
    + intros c Hc. exists (received tr id). rewrite received_snoc. cbn [take_in]. rewrite Nat.eqb_refl. split; [done|]. by apply (H5 id c Hc).
  - unfold timeout in H. destruct (sv_conns s !! id) as [c|] eqn:Ec; [|done]. destruct (c_timer c) eqn:Et; [|done]. cbv zeta in H.
    destruct (H5 _ _ Ec) as [Hc Ht]. destruct (c_finished (with_io _ _ _ c)) eqn:Ef.
    + injection H as <-. apply (untouched_ok cf tr (LTimeout id)) in Hs; [|done]. apply (disconnected_ok _ _ id) in Hs as (G1 & G2 & G3 & G4 & G5 & G6).
      split_and!; try done. cbn [sv_log]. apply Forall_app_2; [done|by apply Forall_singleton].
    + set (resp := refusal _ _) in H. pose proof (reject_ok cf id (received tr id) resp (sv_pending s) (with_io (c_avail c) (c_buffer c) None c) ltac:(apply Hc)) as Hr.
      destruct (reject _ _ _ _) as [[p c'] es]. injection H as <-. destruct Hr as (-> & R2 & R3 & R4 & R5 & R6 & R7).
      assert (Hh : held (with_io (c_avail c) (c_buffer c) None c) = held c) by done. assert (Hz : 0 <= held c) by (apply held_nonneg; apply Hc).
      unfold server_ok. cbn [sv_config sv_pending sv_conns sv_log]. split_and!; try done; try lia.
      * rewrite (total_replace _ _ _ _ Ec). lia.
      * by rewrite map_size_insert_Some.
      * intros i ci Hi. destruct (decide (i = id)) as [->|Hne].
        -- rewrite lookup_insert_eq in Hi. injection Hi as <-. split; [by rewrite received_other|done].
        -- rewrite lookup_insert_ne in Hi by done. by apply Hother.
      * apply Forall_app_2; [done|]. eapply Forall_impl; [exact R6|]. intros x Hx. apply log_ok_more, (dispatch_log _ _ _ _ Hx).
  - injection H as <-. by apply disconnected_ok, untouched_ok.
  - injection H as <-. by apply stop_ok, untouched_ok.
Qed.

Lemma server_reachable cf tr s : steps cstep (emptyServer cf) tr s -> server_ok cf tr s.
Proof.
  intros H. refine (steps_invariant_trace cstep (server_ok cf) _ [] _ _ _ H _).
  - intros pre s1 l s2. apply server_step_ok.
  - unfold server_ok. cbn. split_and!; try done. rewrite map_size_empty. unfold kMaxConnections. lia.
Qed.

(** C36. Nothing is dispatched around the gate.  Whatever peers send, in whatever pieces and
    with whatever timers, disconnections and restarts between, every dispatched request
    was received as a head of at most 64 KB and exactly the body the head announces, and
    the head is authorized: a known method, a path of its own, no transfer coding, and
    either the bearer token or, where the token is not mandatory, a loopback Host and a
    read method, own origin or the UI header.  A server bound beyond the loopback has a
    token and dispatches nothing without it. *)
Theorem dispatch_authorized loopback port token can cf tr s id m t b :
  start loopback port token can = Some cf -> steps cstep (emptyServer cf) tr s -> Dispatched id m t b ∈ sv_log s ->
  exists pre post header rest, tr = pre ++ post /\ received pre id = header ++ CRLFCRLF ++ b ++ rest /\ zlen header + 4 <= kMaxHeader /\
    authorized cf header m t (zlen b) /\
    (loopback = false -> token <> [] /\
       exists h, header_fields (tl (split_on 10 header)) ∅ = inr h /\ isTokenAuthorized (field h (lit "authorization")) token = true).
Proof.
  intros Hst Hs Hin. apply server_reachable in Hs as (_ & _ & _ & _ & _ & Hl). rewrite Forall_forall in Hl.
  destruct (Hl _ Hin) as (pre & post & header & rest & E1 & E2 & E3 & E4). exists pre, post, header, rest. split_and!; try done.
  intros ->. unfold start in Hst. destruct token as [|c token]; [done|]. cbn [is_nil negb andb] in Hst. split; [done|].
  destruct (head _); [|done]. injection Hst as <-. destruct E4 as (_ & _ & _ & _ & h & Hh & _ & _ & _ & [Ht|(Hm & _)]); [|done]. by exists h.
Qed.

Lemma disconnect_all s0 ids i : sv_conns (foldr disconnected s0 ids) !! i = if decide (i ∈ ids) then None else sv_conns s0 !! i.
Proof.
  induction ids as [|j ids IH]; [by rewrite decide_False by apply not_elem_of_nil|]. cbn [foldr]. unfold disconnected at 1.
  set (s1 := foldr disconnected s0 ids) in *. destruct (decide (i = j)) as [->|Hne].
  - rewrite decide_True by (apply elem_of_cons; by left). destruct (sv_conns s1 !! j) eqn:E; [cbn [sv_conns]; apply lookup_delete_eq|done].
  - assert (Hd : sv_conns (match sv_conns s1 !! j with
                           | Some c => mkServer (sv_config s1) (sv_pending s1 - held c) (delete j (sv_conns s1)) (sv_log s1) | None => s1 end) !! i
                 = sv_conns s1 !! i) by (destruct (sv_conns s1 !! j); [cbn [sv_conns]; by rewrite lookup_delete_ne|done]).
    rewrite Hd, IH. destruct (decide (i ∈ ids)) as [Hi|Hi]; [by rewrite decide_True by (apply elem_of_cons; by right)|].
    rewrite decide_False; [done|]. intros [?|?]%elem_of_cons; done.
Qed.
Lemma stop_empties s : sv_conns (stop s) = ∅.
Proof.
  apply map_eq. intros i. rewrite lookup_empty. unfold stop. rewrite disconnect_all. destruct (decide _) as [Hi|Hi]; [done|].
  destruct (sv_conns s !! i) as [c|] eqn:E; [|done]. exfalso. apply Hi, list_elem_of_In, in_map_iff. exists (i, c). split; [done|].
  by apply list_elem_of_In, elem_of_map_to_list.
Qed.

(** C37. The server's memory is bounded whatever peers do: at most 32 connections, each with
    a head of at most 64 KB and one byte or a body of its announced length, at most
    64 MB; the reserved body bytes are exactly those of the connections that are still
    reading a body, never more than 128 MB, and none are left when they are gone. *)
Theorem intake_bounded cf tr s :
  steps cstep (emptyServer cf) tr s ->
  (size (sv_conns s) <= kMaxConnections)%nat /\ sv_pending s = total_held (sv_conns s) /\ 0 <= sv_pending s <= kBodyBudget /\
  map_Forall (fun _ c => zlen (c_buffer c) <= Z.max (kMaxHeader + 1) (c_length c) /\ 0 <= c_length c <= kMaxBodyBytes /\
                         (c_reserved c = true <-> c_finished c = false /\ c_headers c = true)) (sv_conns s) /\
  sv_conns (stop s) = ∅ /\ sv_pending (stop s) = 0.
Proof.
  intros Hs. apply server_reachable in Hs as Hok. pose proof Hok as (H1 & H2 & H3 & H4 & H5 & H6).
  assert (Hnn : forall m : gmap nat Conn, map_Forall (fun _ c => 0 <= held c) m -> 0 <= total_held m).
  { intros m. induction m as [|i c m Hi IH] using map_ind; intros Hm; [done|]. rewrite total_insert, delete_id by done.
    apply map_Forall_insert in Hm as [? ?]; [|done]. specialize (IH ltac:(done)). lia. }
  assert (Hh : map_Forall (fun _ c => 0 <= held c) (sv_conns s)) by (intros i c Hi; apply held_nonneg; apply (H5 i c Hi)).
  pose proof (stop_empties s) as Hempty.
  split_and!; try done.
  - rewrite H2. by apply Hnn.
  - intros i c Hi. destruct (H5 i c Hi) as [(G1 & G2 & G3 & G4) _]. split_and!; try done; try lia. split.
    + intros Hr. destruct (c_finished c) eqn:Ef; [by rewrite (G3 eq_refl) in Hr|]. destruct (G4 eq_refl) as [Hrh _]. split; congruence.
    + intros [Hf Hhd]. destruct (G4 Hf) as [-> _]. done.
  - apply (stop_ok cf tr (map fst (map_to_list (sv_conns s)))) in Hok as (_ & E & _). fold (stop s) in E. by rewrite E, Hempty.
Qed.

(** ** Requests get through and connections end *)

(** C35. No connection lives for ever: in every reachable state each live connection has its
    timer running, and two expirations end it, the first with a refusal unless it had
    been answered; what it reserved is given back. *)
Theorem every_connection_ends cf tr s id c :
  steps cstep (emptyServer cf) tr s -> sv_conns s !! id = Some c ->
  exists s1, timeout id s = Some s1 /\
    (c_finished c = true -> sv_conns s1 = delete id (sv_conns s)) /\
    (c_finished c = false -> exists s2 resp, sv_log s1 = sv_log s ++ [Wrote id resp] /\ sv_pending s1 = sv_pending s - held c /\
                               timeout id s1 = Some s2 /\ sv_conns s2 = delete id (sv_conns s)).
Proof.
  intros Hs Hc. apply server_reachable in Hs as (_ & _ & _ & _ & H5 & _). destruct (H5 _ _ Hc) as [_ [tm Ht]].
  unfold timeout at 1. rewrite Hc, Ht. cbv zeta. cbn [with_io c_finished c_headers]. destruct (c_finished c) eqn:Ef.
  - eexists. split; [reflexivity|]. split; [|done]. intros _. unfold disconnected. by rewrite Hc.
  - unfold reject. cbn [with_io c_avail c_method c_target c_length c_headers c_reserved]. eexists. split; [reflexivity|]. split; [done|]. intros _.
    unfold timeout. cbn [sv_conns sv_log sv_pending]. rewrite lookup_insert_eq. cbn [c_timer c_finished with_io]. unfold disconnected. cbn [sv_conns].
    rewrite lookup_insert_eq. cbn [sv_conns sv_log sv_pending]. do 2 eexists. split; [reflexivity|]. split; [done|]. split; [reflexivity|]. cbn [sv_conns]. by rewrite delete_insert_eq.
Qed.

Definition feed (id : nat) (s : Server) (segs : list (bytes * Z)) : Server := fold_left (fun s seg => read id (fst seg) (snd seg) false s) segs s.
Definition bytes_of (segs : list (bytes * Z)) : bytes := flat_map fst segs.

(** A connection that has read part of the request, and the budget without it. *)
Definition reading (header body : bytes) (m t : qstr) (base : Z) (rest : bytes) (pending : Z) (c : Conn) : Prop :=
  c_finished c = false /\ c_avail c = [] /\ is_Some (c_timer c) /\
  if c_headers c then c_reserved c = true /\ c_length c = zlen body /\ c_method c = m /\ c_target c = t /\ c_buffer c ++ rest = body /\ rest <> [] /\ pending = base + zlen body
  else c_reserved c = false /\ c_buffer c ++ rest = header ++ CRLFCRLF ++ body /\ contains_sub CRLFCRLF (c_buffer c) = false /\ pending = base.

Section Delivery.
Variables (cf : Config) (id : nat) (header body : bytes) (m t : qstr) (base : Z).
Hypothesis Hhead : index_sub CRLFCRLF (header ++ CRLFCRLF) = Some (length header).
Hypothesis Hsize : zlen header + 4 <= kMaxHeader.
Hypothesis Hvalid : validateHeaders cf header = Accepted m t (zlen body).
Hypothesis Hbudget : base + zlen body <= kBodyBudget.

Lemma sep_in_prefix buffer rest : buffer ++ rest = header ++ CRLFCRLF ++ body ->
  (contains_sub CRLFCRLF buffer = false /\ (length buffer < length header + 4)%nat) \/
  (index_sub CRLFCRLF buffer = Some (length header) /\ take (length header) buffer = header /\ drop (length header + 4) buffer ++ rest = body).
Proof.
  intros E. assert (Hf : index_sub CRLFCRLF (header ++ CRLFCRLF ++ body) = Some (length header)) by (rewrite app_assoc; by apply index_sub_prefix).
  rewrite <- E in Hf. unfold contains_sub. destruct (index_sub CRLFCRLF buffer) as [k|] eqn:Ek.
  - right. pose proof (index_sub_prefix CRLFCRLF buffer rest k ltac:(done) Ek) as Hk. rewrite Hf in Hk. injection Hk as <-. split; [done|].
    destruct (index_sub_Some _ _ _ Ek) as (Hl & Hst & _). apply starts_with_spec in Hst as [u Hu].
    assert (Hlen : (length header + 4 <= length buffer)%nat).
    { apply (f_equal length) in Hu. rewrite length_drop, length_app in Hu. cbn in Hu. lia. }
    split.
    + apply (f_equal (take (length header))) in E. rewrite take_app_le in E by lia. by rewrite take_app_length in E.
    + apply (f_equal (drop (length header + 4))) in E. rewrite drop_app_le in E by lia. rewrite E. rewrite <- drop_drop, drop_app_length. done.
  - left. split; [done|]. destruct (Nat.lt_ge_cases (length buffer) (length header + 4)) as [?|Hge]; [done|]. exfalso.
    apply (index_sub_None _ _ ) with (j := length header) in Ek; [|lia].
    assert (Hb : buffer = header ++ CRLFCRLF ++ drop (length header + 4) buffer).
    { apply (f_equal (take (length header + 4))) in E. rewrite take_app_le in E by lia. rewrite app_assoc in E.
      replace (length header + 4)%nat with (length (header ++ CRLFCRLF)) in E at 2 by (rewrite length_app; done). rewrite take_app_length in E.
      rewrite <- (take_drop (length header + 4) buffer) at 1. rewrite E. by rewrite <- app_assoc. }
    rewrite Hb, drop_app_length in Ek. by rewrite starts_with_app in Ek.
Qed.

(** The body's part of a piece in time. *)
Lemma body_piece c e rest : c_finished c = false -> c_headers c = true -> c_reserved c = true -> is_Some (c_timer c) -> c_length c = zlen body ->
  c_method c = m -> c_target c = t -> c_buffer c ++ c_avail c ++ rest = body -> e < kBodyDeadlineMs ->
  let '(p, c', es) := readBody id e false (base + zlen body) c in
  (rest = [] -> es = [Dispatched id m t body] /\ c_finished c' = true) /\ (rest <> [] -> es = [] /\ reading header body m t base rest p c').
Proof.
  intros Hf Hh Hr Ht Hl Hm Htg Hb He. unfold readBody. cbv zeta. rewrite Hl. set (missing := zlen body - zlen (c_buffer c)).
  assert (Hmiss : missing = zlen (c_avail c) + zlen rest) by (unfold missing; rewrite <- Hb, !zlen_app; lia).
  pose proof (zlen_nonneg (c_avail c)) as Ha0. pose proof (zlen_nonneg rest) as Hr0.
  assert (Hchunk : take (Z.to_nat missing) (c_avail c) = c_avail c) by (apply take_ge; unfold zlen in *; lia).
  rewrite Hchunk, drop_all. assert (Hrem : (kBodyDeadlineMs - e <=? 0) = false) by (apply Z.leb_gt; lia). rewrite Hrem, andb_false_r.
  set (c1 := if 0 <? missing then _ else c). set (c2 := if (0 <? missing) && _ then _ else c1).
  assert (H1 : c_buffer c1 = c_buffer c ++ c_avail c /\ c_avail c1 = []).
  { unfold c1. destruct (0 <? missing) eqn:E; [done|]. to_prop. assert (Hav : c_avail c = []) by (destruct (c_avail c); [done|unfold zlen in *; cbn in *; lia]).
    by rewrite Hav, app_nil_r. }
  assert (H2 : c_buffer c2 = c_buffer c1 /\ c_avail c2 = c_avail c1 /\ c_length c2 = zlen body /\ c_finished c2 = false /\ c_headers c2 = true /\ c_reserved c2 = true /\
    c_method c2 = m /\ c_target c2 = t /\ is_Some (c_timer c2)).
  { unfold c2, c1. destruct (0 <? missing); [destruct (negb (is_nil _))|]; cbn [negb andb with_io c_length c_buffer c_avail c_finished c_headers c_reserved c_method c_target c_timer];
      split_and!; try done; by eexists. }
  clearbody c1 c2. destruct H1 as [B1 B2]. destruct H2 as (D1 & D2 & D3 & D4 & D5 & D6 & D7 & D8 & D9).
  rewrite D3, D1, B1. assert (Hlen : zlen (c_buffer c ++ c_avail c) = zlen body - zlen rest) by (rewrite <- Hb, !zlen_app; lia). rewrite Hlen.
  destruct rest as [|x rest'].
  - rewrite zlen_nil, Z.sub_0_r, Z.ltb_irrefl. split; [|done]. intros _. rewrite D7, D8. rewrite app_nil_r in Hb. by rewrite Hb.
  - assert (Hx : 0 < zlen (x :: rest')) by (unfold zlen; cbn; lia). destruct (_ <? zlen body) eqn:E; to_prop; [|lia].
    split; [done|]. intros _. split; [done|]. unfold reading. rewrite D5. rewrite D4, D2, D1, B1, B2, <- app_assoc. split_and!; try done; exact Hb.
Qed.

(** One piece in time: the request is dispatched, or the reading goes on. *)
Lemma read_piece pending c data e rest : reading header body m t base (data ++ rest) pending c -> e < kBodyDeadlineMs ->
  let '(p, c', es) := readConn cf id e false pending (with_io (c_avail c ++ data) (c_buffer c) (c_timer c) c) in
  (rest = [] -> es = [Dispatched id m t body] /\ c_finished c' = true) /\ (rest <> [] -> es = [] /\ reading header body m t base rest p c').
Proof.
  intros (Hf & Ha & Ht & Hrd) He. rewrite Ha. cbn [app]. unfold readConn. cbn [with_io c_finished]. rewrite Hf. unfold readHead. cbn [with_io c_headers].
  destruct (c_headers c) eqn:Ehd.
  { destruct Hrd as (R1 & R2 & R3 & R4 & R5 & R6 & ->).
    pose proof (body_piece (with_io data (c_buffer c) (c_timer c) c) e rest) as H. cbn [with_io c_finished c_headers c_reserved c_timer c_length c_method c_target c_buffer c_avail] in H.
    specialize (H Hf Ehd R1 Ht R2 R3 R4 R5 He). by destruct (readBody _ _ _ _ _) as [[p c'] es]. }
  destruct Hrd as (R1 & R2 & R3 & ->). cbv zeta. cbn [with_io c_buffer c_avail c_timer].
  set (room := Z.to_nat (kMaxHeader + 1 - zlen (c_buffer c))). set (buffer := c_buffer c ++ take room data). set (left_ := drop room data).
  assert (Hsplit : buffer ++ left_ ++ rest = header ++ CRLFCRLF ++ body).
  { unfold buffer, left_. rewrite <- R2, <- !app_assoc. f_equal. rewrite (app_assoc (take room data)), take_drop. done. }
  destruct (sep_in_prefix buffer (left_ ++ rest) Hsplit) as [[Hno Hlt]|(Hyes & Htake & Hdrop)].
  - assert (Hk : index_sub CRLFCRLF buffer = None) by (unfold contains_sub in Hno; by destruct (index_sub CRLFCRLF buffer)). rewrite Hk.
    assert (Hz : (kMaxHeader <? zlen buffer) = false) by (apply Z.ltb_ge; unfold zlen in *; lia). rewrite Hz.
    assert (Hl : left_ = []).
    { unfold left_. apply drop_ge. destruct (Nat.le_gt_cases (length data) room) as [?|Hgt]; [done|]. exfalso.
      unfold buffer, zlen in *. rewrite length_app, length_take in Hlt. unfold room in *. lia. }
    rewrite Hl in *. cbn [app] in Hsplit. split.
    + intros ->. exfalso. rewrite app_nil_r in Hsplit. apply (f_equal length) in Hsplit. rewrite !length_app in Hsplit. cbn in Hsplit. lia.
    + intros Hne. split; [done|]. unfold reading. cbn [with_io c_finished c_avail c_timer c_headers c_reserved c_buffer]. rewrite Ehd. by split_and!.
  - rewrite Hyes. assert (Hz : (kMaxHeader <? Z.of_nat (length header) + 4) = false) by (apply Z.ltb_ge; unfold zlen in *; lia). rewrite Hz, Htake, Hvalid.
    cbn [c_avail c_timer c_buffer]. destruct (kBodyBudget <? base + zlen body) eqn:Eb; to_prop; [lia|].
    set (c3 := mkConn _ _ _ _ _ _ _ _ _). pose proof (body_piece c3 e rest eq_refl eq_refl eq_refl ltac:(by eexists) eq_refl eq_refl eq_refl Hdrop He) as H.
    by destruct (readBody _ _ _ _ _) as [[p c'] es].
Qed.

Lemma feed_finished segs : forall s c, sv_conns s !! id = Some c -> c_finished c = true -> sv_log (feed id s segs) = sv_log s.
Proof.
  induction segs as [|[d e] segs IH]; intros s c Hc Hf; [done|]. unfold feed. cbn [fold_left fst snd]. fold (feed id (read id d e false s) segs).
  unfold read. rewrite Hc. cbv zeta. unfold readConn. cbn [with_io c_finished]. rewrite Hf. cbn [andb].
  erewrite IH; [|cbn [sv_conns]; by rewrite lookup_insert_eq|done]. cbn [sv_log]. apply app_nil_r.
Qed.

Lemma feed_reading segs : forall s c, sv_config s = cf -> sv_conns s !! id = Some c -> bytes_of segs <> [] ->
  reading header body m t base (bytes_of segs) (sv_pending s) c -> Forall (fun seg => snd seg < kBodyDeadlineMs) segs ->
  sv_log (feed id s segs) = sv_log s ++ [Dispatched id m t body].
Proof.
  induction segs as [|[d e] segs IH]; intros s c Hcf Hc Hne Hr He; [done|]. apply Forall_cons in He as [He Hes]. cbn [snd] in He.
  unfold feed. cbn [fold_left fst snd]. fold (feed id (read id d e false s) segs). unfold bytes_of in Hr. cbn [flat_map fst] in Hr. fold (bytes_of segs) in Hr.
  pose proof (read_piece _ _ _ _ _ Hr He) as H. unfold read. rewrite Hc, Hcf. cbv zeta.
  destruct (readConn _ _ _ _ _ _) as [[p c'] es]. destruct H as [Hd Hgo]. cbn [andb].
  destruct (decide (bytes_of segs = [])) as [E|E].
  - destruct (Hd E) as [-> Hf]. erewrite feed_finished; [done|cbn [sv_conns]; by rewrite lookup_insert_eq|done].
  - destruct (Hgo E) as [-> Hr']. rewrite app_nil_r. by erewrite IH; [|..]; [|done|cbn [sv_conns]; by rewrite lookup_insert_eq|done|done|done].
Qed.
End Delivery.

(** C39. A well-formed request gets through however the network cuts it: with a free slot
    and room in the body budget, a head that validates and the body it announces, sent in
    any pieces before the deadline, are dispatched exactly once, with that method, target
    and body. *)
Theorem any_segmentation_dispatches s id header body m t segs :
  index_sub CRLFCRLF (header ++ CRLFCRLF) = Some (length header) -> zlen header + 4 <= kMaxHeader ->
  validateHeaders (sv_config s) header = Accepted m t (zlen body) -> sv_pending s + zlen body <= kBodyBudget ->
  sv_conns s !! id = None -> (size (sv_conns s) < kMaxConnections)%nat ->
  bytes_of segs = header ++ CRLFCRLF ++ body -> Forall (fun seg => snd seg < kBodyDeadlineMs) segs ->
  sv_log (feed id (onNewConnection id [] 0 false s) segs) = sv_log s ++ [Dispatched id m t body].
Proof.
  intros Hh Hz Hv Hb Hn Hs Hsegs He. unfold onNewConnection. destruct (_ <=? _)%nat eqn:E; [apply Nat.leb_le in E; lia|].
  unfold read at 1. cbn [sv_conns]. rewrite lookup_insert_eq. cbv zeta. cbn [sv_config sv_pending sv_log].
  unfold readConn, readHead. cbn [freshConn with_io c_finished c_headers c_buffer c_avail c_timer app]. rewrite drop_nil, take_nil.
  cbn [with_io app]. replace (index_sub CRLFCRLF []) with (@None nat) by done. rewrite zlen_nil. change (kMaxHeader <? 0) with false.
  cbv iota zeta. cbn [andb]. rewrite app_nil_r.
  erewrite (feed_reading (sv_config s) id header body m t (sv_pending s) Hh Hz Hv Hb segs); [done|done|cbn [sv_conns]; by rewrite lookup_insert_eq| | |done].
  - rewrite Hsegs. by destruct header.
  - rewrite Hsegs. unfold reading. cbn. split_and!; try done; by eexists.
Qed.


Fixpoint exec_all (s : Server) (tr : list Label) : option Server :=
  match tr with
  | [] => Some s
  | l :: tr' => match exec s l with Some s' => exec_all s' tr' | None => None end
  end.
Lemma server_exec_steps tr : forall s s', exec_all s tr = Some s' -> steps cstep s tr s'.
Proof.
  induction tr as [|l tr IH]; intros s s' H; cbn [exec_all] in H; [injection H as <-; constructor|].
  destruct (exec s l) as [s1|] eqn:E; [|done]. econstructor; [exact E|by apply IH].
Qed.
End Server.

Section Examples.
#[local] Existing Instance utf8Text.

Definition ex_local : Config := mkConfig (lit "tok") false 9000.
Definition ex_remote : Config := mkConfig (lit "tok") true 9000.
Definition ex_head : bytes := lit "POST /api/run HTTP/1.1" ++ CRLF ++ lit "Host: 127.0.0.1:9000" ++ CRLF ++ lit "X-Nullock-UI: 1" ++ CRLF ++ lit "Content-Length: 4".
Definition ex_bearer : bytes := lit "GET /api/state HTTP/1.1" ++ CRLF ++ lit "Authorization: Bearer tok".
Definition ex_end : bytes := CRLFCRLF.
Definition ex_cut : list (bytes * Z) := [(take 30 ex_head, 0); (drop 30 ex_head ++ take 3 ex_end, 0); (drop 3 ex_end ++ lit "bo", 10); (lit "dy", 2000)].
Definition ex_trace : list Label := [LConnect 1 (ex_bearer ++ ex_end) 0 false; LConnect 2 (ex_head ++ ex_end ++ lit "bo") 0 false].
Definition ex_state (cf : Config) (tr : list Label) : Server := default (emptyServer cf) (exec_all (emptyServer cf) tr).

Lemma ex_server_reached cf tr : is_Some (exec_all (emptyServer cf) tr) -> steps cstep (emptyServer cf) tr (ex_state cf tr).
Proof. intros [s Hs]. apply server_exec_steps. unfold ex_state. by rewrite Hs. Qed.

Lemma dispatch_authorized_witness :
  sv_log (ex_state ex_remote ex_trace) = [Dispatched 1 (lit "GET") (lit "/api/state") []; Wrote 2 (refusal 401 (lit "Unauthorized (bearer token required)"))] /\
  lit "tok" <> [] /\ exists header h, header_fields (tl (split_on 10 header)) ∅ = inr h /\ isTokenAuthorized (field h (lit "authorization")) (lit "tok") = true.
Proof.
  assert (E : sv_log (ex_state ex_remote ex_trace) = [Dispatched 1 (lit "GET") (lit "/api/state") []; Wrote 2 (refusal 401 (lit "Unauthorized (bearer token required)"))]) by (vm_compute; reflexivity).
  split; [exact E|].
  assert (H : steps cstep (emptyServer ex_remote) ex_trace (ex_state ex_remote ex_trace)) by (apply ex_server_reached; vm_compute; eexists; reflexivity).
  destruct (dispatch_authorized false 9000 (lit "tok") (fun p => if p =? 9000 then Some p else None) ex_remote ex_trace _ 1%nat (lit "GET") (lit "/api/state") [] eq_refl H
              ltac:(rewrite E; apply list_elem_of_here)) as (pre & post & header & rest & _ & _ & _ & _ & Hl).
  destruct (Hl eq_refl) as [Ht (h & Hh & Ha)]. split; [exact Ht|]. exists header, h. split; [exact Hh|exact Ha].
Defined.

Lemma intake_bounded_witness :
  let s := ex_state ex_local ex_trace in sv_pending s = 4 /\ size (sv_conns s) = 2%nat /\ sv_pending s = total_held (sv_conns s) /\ sv_pending (stop s) = 0.
Proof.
  cbv zeta. split; [vm_compute; reflexivity|]. split; [vm_compute; reflexivity|].
  assert (H : steps cstep (emptyServer ex_local) ex_trace (ex_state ex_local ex_trace)) by (apply ex_server_reached; vm_compute; eexists; reflexivity).
  destruct (intake_bounded _ _ _ H) as (_ & Hp & _ & _ & _ & Hz). split; [exact Hp|exact Hz].
Defined.

Lemma every_connection_ends_witness :
  let s := ex_state ex_local ex_trace in
  exists c s1 s2, sv_conns s !! 2%nat = Some c /\ c_finished c = false /\ timeout 2 s = Some s1 /\ sv_pending s1 = sv_pending s - held c /\
    timeout 2 s1 = Some s2 /\ sv_conns s2 = delete 2%nat (sv_conns s).
Proof.
  cbv zeta. assert (H : steps cstep (emptyServer ex_local) ex_trace (ex_state ex_local ex_trace)) by (apply ex_server_reached; vm_compute; eexists; reflexivity).
  destruct (sv_conns (ex_state ex_local ex_trace) !! 2%nat) as [c|] eqn:E; [|exfalso; revert E; vm_compute; discriminate].
  assert (Hf : c_finished c = false) by (revert E; vm_compute; intros [= <-]; reflexivity).
  destruct (every_connection_ends _ _ _ _ _ H E) as (s1 & H1 & _ & H2). destruct (H2 Hf) as (s2 & resp & _ & H3 & H4 & H5).
  exists c, s1, s2. split; [reflexivity|]. split; [exact Hf|]. split; [exact H1|]. split; [exact H3|]. split; [exact H4|exact H5].
Defined.

Lemma any_segmentation_dispatches_witness :
  sv_log (feed 3 (onNewConnection 3 [] 0 false (emptyServer ex_local)) ex_cut) = [Dispatched 3 (lit "POST") (lit "/api/run") (lit "body")].
Proof.
  apply (any_segmentation_dispatches (emptyServer ex_local) 3 ex_head (lit "body") (lit "POST") (lit "/api/run") ex_cut);
    [vm_compute; reflexivity|vm_compute; discriminate|vm_compute; reflexivity|vm_compute; discriminate|reflexivity|vm_compute; lia|vm_compute; reflexivity|].
  repeat (apply Forall_cons; split; [reflexivity|]). constructor.
Defined.

(** Bytes behind the announced body in the head's own piece are refused; the same bytes
    in a later piece stay in the socket and the request is dispatched. *)
Example surplus_with_the_head :
  sv_log (ex_state ex_local [LConnect 1 (ex_head ++ ex_end ++ lit "bodyX") 0 false]) = [Wrote 1 (refusal 400 (lit "Unexpected request body"))].
Proof. vm_compute. reflexivity. Qed.
Example surplus_in_a_later_piece :
  sv_log (ex_state ex_local [LConnect 1 (ex_head ++ ex_end) 0 false; LData 1 (lit "bodyX") 0 false]) = [Dispatched 1 (lit "POST") (lit "/api/run") (lit "body")].
Proof. vm_compute. reflexivity. Qed.

(** A write without the UI header needs an own origin. *)
Example cross_origin_write_refused :
  validateHeaders ex_local (lit "POST /api/run HTTP/1.1" ++ CRLF ++ lit "Host: 127.0.0.1:9000" ++ CRLF ++ lit "Origin: https://evil.example")
  = Refused (refusal 403 (lit "Cross-origin write rejected (need same-origin Origin or X-Nullock-UI: 1)")).
Proof. vm_compute. reflexivity. Qed.
End Examples.
