(* ===== verification/Intruder.v ===== *)
(** * The intruder engine: Src/Core/Networking/intruder_engine.cpp

    Attack types, template markers and their substitution, and the generation
    of the payload combinations.  A payload is an [option]: the null [QString]
    is [None]. *)

From S2P Require Import Prelude Qt QtSample.

Local Open Scope Z_scope.

Abbreviation payload := (option qstr).

(** ** Markers *)

Definition kMarker : Z := 167.

Record Marker := mkMarker { mk_start : nat; mk_len : nat; mk_def : qstr }.

Fixpoint findMarkers_loop (fuel : nat) (templ : qstr) (i : nat) : option (list Marker) :=
  match fuel with
  | O => None
  | S fuel' =>
      if (i <? length templ)%nat then
        if at_ templ i =? kMarker then
          match index_of_from kMarker templ (i + 1) with
          | Some j =>
              cons (mkMarker i (j - i + 1) (mid templ (i + 1) (j - i - 1)))
              <$> findMarkers_loop fuel' templ (j + 1)
          | None => Some []
          end
        else findMarkers_loop fuel' templ (i + 1)
      else Some []
  end.

Definition findMarkers (templ : qstr) : option (list Marker) :=
  findMarkers_loop (S (length templ)) templ 0.

Definition countMarkers (templ : qstr) : option Z := zlen <$> findMarkers templ.

Fixpoint apply_loop (templ : qstr) (combo : list payload) (ms : list Marker) (k cursor : nat) (out : qstr) : qstr :=
  match ms with
  | [] => out ++ drop cursor templ
  | m :: ms' =>
      let out1 := out ++ mid templ cursor (mk_start m - cursor) in
      let p := nth k combo None in
      apply_loop templ combo ms' (S k) (mk_start m + mk_len m) (out1 ++ default (mk_def m) p)
  end.

Definition applyPayloads (templ : qstr) (combo : list payload) : option qstr :=
  (fun ms => apply_loop templ combo ms 0 0 []) <$> findMarkers templ.

(** ** Attack types *)

Inductive AttackType := Sniper | BatteringRam | Pitchfork | ClusterBomb.

Definition attackTypeName (t : AttackType) : qstr :=
  match t with
  | BatteringRam => lit "battering-ram"
  | Pitchfork => lit "pitchfork"
  | ClusterBomb => lit "cluster-bomb"
  | Sniper => lit "sniper"
  end.

Definition parseAttackType `{QtText} (s : qstr) : AttackType :=
  let k := map (fun c => if (c =? 32) || (c =? 95) then 45 else c) (u_lower s) in
  if seq_eqb k (lit "battering-ram") || seq_eqb k (lit "ram") || seq_eqb k (lit "batteringram") then BatteringRam
  else if seq_eqb k (lit "pitchfork") then Pitchfork
  else if seq_eqb k (lit "cluster-bomb") || seq_eqb k (lit "clusterbomb") || seq_eqb k (lit "cluster") then ClusterBomb
  else Sniper.

(** [sets.value(p)]. *)
Definition value_ (sets : list (list payload)) (p : nat) : list payload := nth p sets [].

Section Generate.
Context (positions : nat) (maxResults : Z).

Fixpoint ram_loop (s : list payload) (out : list (list payload)) : list (list payload) :=
  match s with
  | [] => out
  | p :: s' =>
      let out := out ++ [replicate positions p] in
      if maxResults <=? zlen out then out else ram_loop s' out
  end.

Fixpoint sniper_inner (pos : nat) (s : list payload) (out : list (list payload)) : list (list payload) :=
  match s with
  | [] => out
  | p :: s' =>
      let out := out ++ [<[pos := p]> (replicate positions None)] in
      if maxResults <=? zlen out then out else sniper_inner pos s' out
  end.

Fixpoint sniper_loop (poss : list nat) (s : list payload) (out : list (list payload)) : list (list payload) :=
  match poss with
  | [] => out
  | pos :: poss' => if zlen out <? maxResults then sniper_loop poss' s (sniper_inner pos s out) else out
  end.

(** A combination filled position by position from all defaults. *)
Definition fill (f : nat -> option payload) : list payload :=
  fold_left (fun combo p => match f p with Some v => <[p := v]> combo | None => combo end)
    (seq 0 positions) (replicate positions None).

(** [minLen], [None] for -1. *)
Definition min_len (sets : list (list payload)) : option nat :=
  fold_left (fun minLen p =>
    let n := length (value_ sets p) in
    if (n =? 0)%nat then minLen
    else match minLen with
         | None => Some n
         | Some m => if (n <? m)%nat then Some n else Some m
         end) (seq 0 positions) None.

Fixpoint pitchfork_loop (ks : list nat) (sets : list (list payload)) (out : list (list payload)) : list (list payload) :=
  match ks with
  | [] => out
  | k :: ks' =>
      if zlen out <? maxResults
      then pitchfork_loop ks' sets (out ++ [fill (fun p => value_ sets p !! k)])
      else out
  end.

(** The odometer over digits [idx], the one of position [p] below [dim p]
    (positions with [dim p = 0] are skipped); [p] positions are left to look
    at, from the right.  [None]: it rolled over. *)
Fixpoint odometer (dim : nat -> nat) (idx : list nat) (p : nat) : option (list nat) :=
  match p with
  | O => None
  | S q =>
      if (dim q =? 0)%nat then odometer dim idx q
      else
        let i := nth q idx 0%nat in
        if (i + 1 <? dim q)%nat then Some (<[q := S i]> idx)
        else odometer dim (<[q := 0%nat]> idx) q
  end.

Definition cluster_combo (sets : list (list payload)) (idx : list nat) : list payload :=
  fill (fun p => let s := value_ sets p in
                 if is_nil s then None else Some (nth (nth p idx 0%nat) s None)).

Fixpoint cluster_loop (fuel : nat) (sets : list (list payload)) (idx : list nat) (out : list (list payload))
    : option (list (list payload)) :=
  match fuel with
  | O => None
  | S fuel' =>
      if zlen out <? maxResults then
        let out := out ++ [cluster_combo sets idx] in
        match odometer (fun p => length (value_ sets p)) idx positions with
        | None => Some out
        | Some idx' => cluster_loop fuel' sets idx' out
        end
      else Some out
  end.
End Generate.

Definition generateCombinations (type : AttackType) (positions : Z) (sets : list (list payload)) (maxResults : Z)
    : option (list (list payload)) :=
  if (positions <=? 0) || (maxResults <=? 0) then Some []
  else
    let n := Z.to_nat positions in
    match type with
    | BatteringRam => Some (ram_loop n maxResults (value_ sets 0) [])
    | Sniper => Some (sniper_loop n maxResults (seq 0 n) (value_ sets 0) [])
    | Pitchfork =>
        match min_len n sets with
        | None => Some []
        | Some m => Some (pitchfork_loop n maxResults (seq 0 m) sets [])
        end
    | ClusterBomb =>
        if forallb (fun p => is_nil (value_ sets p)) (seq 0 n) then Some []
        else cluster_loop n maxResults (S (Z.to_nat maxResults)) sets (replicate n 0%nat) []
    end.

(** ** Substitution *)

(** The template cut at its markers: text, default, text, default, ..., text;
    a marker that is never closed is text. *)
Fixpoint substitute (pieces : list qstr) (combo : list payload) : qstr :=
  match pieces with
  | [] => []
  | [t] => t
  | [t; u] => t ++ [kMarker] ++ u
  | t :: d :: rest => t ++ default d (hd None combo) ++ substitute rest (tl combo)
  end.

Lemma substitute_step t d p ps combo :
  substitute (t :: d :: p :: ps) combo = t ++ default d (hd None combo) ++ substitute (p :: ps) (tl combo).
Proof. done. Qed.

Lemma substitute_cons x p ps combo : substitute ((x :: p) :: ps) combo = x :: substitute (p :: ps) combo.
Proof. destruct ps as [|d [|q qs]]; reflexivity. Qed.

Lemma hd_drop_nth (combo : list payload) k : hd None (drop k combo) = nth k combo None.
Proof. revert k. induction combo as [|c combo IH]; intros [|k]; try done. cbn [drop nth]. apply IH. Qed.

Lemma tl_drop (combo : list payload) k : tl (drop k combo) = drop (S k) combo.
Proof. revert k. induction combo as [|c combo IH]; intros [|k]; try done. cbn [drop]. rewrite IH. done. Qed.

Lemma mid_drop (s : list Z) a b : (a <= b)%nat -> mid s a (b - a) ++ drop b s = drop a s.
Proof.
  intros Hab. unfold mid. replace (drop b s) with (drop (b - a) (drop a s)) by (rewrite drop_drop; f_equal; lia).
  apply take_drop.
Qed.

Lemma mid_snoc s a b x r : (a <= b)%nat -> drop b s = x :: r -> mid s a (S b - a) = mid s a (b - a) ++ [x].
Proof.
  intros Hab Hd. unfold mid. replace (S b - a)%nat with ((b - a) + 1)%nat by lia.
  rewrite <- take_take_drop, drop_drop. replace (a + (b - a))%nat with b by lia. by rewrite Hd.
Qed.

Lemma drop_cons_S (s : list Z) i x r : drop i s = x :: r -> drop (i + 1) s = r /\ at_ s i = x /\ (i < length s)%nat.
Proof.
  intros Hd. split; [by rewrite <- drop_drop, Hd|]. split.
  - replace i with (i + 0)%nat by lia. by rewrite <- at_drop, Hd.
  - apply (f_equal length) in Hd. rewrite length_drop in Hd. cbn in Hd. lia.
Qed.

Lemma apply_find_markers templ combo fuel : forall i cursor k out,
  (length templ < fuel + i)%nat -> (i <= length templ)%nat -> (cursor <= i)%nat ->
  exists ms, findMarkers_loop fuel templ i = Some ms /\
    apply_loop templ combo ms k cursor out =
      out ++ mid templ cursor (i - cursor) ++ substitute (split_on kMarker (drop i templ)) (drop k combo).
Proof.
  induction fuel as [|fuel IH]; intros i cursor k out Hf Hi Hc; [lia|]. cbn [findMarkers_loop].
  assert (Hlast : forall s, substitute [s] (drop k combo) = s) by done.
  destruct (drop i templ) as [|x r] eqn:Hd.
  { apply (f_equal length) in Hd as Hl. rewrite length_drop in Hl. cbn in Hl. zdecide. exists []. split; [done|].
    cbn [apply_loop split_on substitute]. rewrite app_nil_r. f_equal.
    rewrite <- (mid_drop templ cursor i) by done. by rewrite Hd, app_nil_r. }
  destruct (drop_cons_S _ _ _ _ Hd) as (Hr & Hat & Hlt). zdecide. rewrite Hat.
  destruct (x =? kMarker) eqn:Ex.
  - apply Z.eqb_eq in Ex. clear Hat. subst x. unfold index_of_from. rewrite Hr. cbn [split_on]. rewrite Z.eqb_refl.
    destruct (index_of kMarker r) as [b|] eqn:Eb; cbn [fmap option_fmap option_map].
    + destruct (index_of_split _ _ _ Eb) as [Hsplit Hnot]. destruct (index_of_Some _ _ _ Eb) as (Hb & _).
      assert (Hlr : (length r + i + 1 = length templ)%nat) by (rewrite <- Hr, length_drop; lia).
      destruct (IH (i + 1 + b + 1)%nat (i + 1 + b + 1)%nat (S k)
        (out ++ mid templ cursor (i - cursor) ++ default (take b r) (nth k combo None))) as (ms & Hms & Ha); [lia|lia|lia|].
      rewrite Hms. eexists. split; [done|]. cbn [apply_loop mk_start mk_len mk_def].
      replace (i + (i + 1 + b - i + 1))%nat with (i + 1 + b + 1)%nat by lia.
      replace (i + 1 + b - i - 1)%nat with b by lia.
      replace (mid templ (i + 1) b) with (take b r) by (unfold mid; by rewrite Hr).
      rewrite <- app_assoc, Ha. replace (i + 1 + b + 1 - (i + 1 + b + 1))%nat with 0%nat by lia.
      change (mid templ (i + 1 + b + 1) 0) with (@nil Z). rewrite <- !app_assoc. do 2 f_equal.
      replace (drop (i + 1 + b + 1) templ) with (drop (S b) r) by (rewrite <- Hr, drop_drop; f_equal; lia).
      rewrite Hsplit at 3. rewrite split_on_app by done.
      destruct (split_on kMarker (drop (S b) r)) as [|p ps] eqn:Ep; [by apply split_on_not_nil in Ep|].
      rewrite substitute_step, hd_drop_nth, tl_drop. done.
    + exists []. split; [done|]. cbn [apply_loop]. apply index_of_None in Eb. rewrite split_on_no by done.
      cbn [substitute app]. rewrite <- Hd. f_equal. symmetry. by apply mid_drop.
  - destruct (IH (i + 1)%nat cursor k out) as (ms & Hms & Ha); [lia|lia|lia|].
    exists ms. split; [done|]. rewrite Ha, Hr. f_equal.
    replace (i + 1 - cursor)%nat with (S i - cursor)%nat by lia. rewrite (mid_snoc _ _ _ _ _ Hc Hd).
    apply Z.eqb_neq in Ex. destruct (split_on_cons_ne _ _ r Ex) as (p & ps & E1 & E2).
    rewrite E1, E2, substitute_cons, <- app_assoc. done.
Qed.

(** Substitution replaces exactly the closed markers, in order: the request
    is the template's text with the k-th marked default replaced by the k-th
    payload, by the default itself when that payload is null or missing, and a
    marker that is never closed stays literal text. *)
Theorem applyPayloads_correct templ combo :
  applyPayloads templ combo = Some (substitute (split_on kMarker templ) combo).
Proof.
  unfold applyPayloads, findMarkers.
  destruct (apply_find_markers templ combo (S (length templ)) 0 0 0 []) as (ms & Hms & Ha); [lia|lia|lia|].
  rewrite Hms. cbn [fmap option_fmap option_map]. by rewrite Ha.
Qed.

(** ** Enumeration *)

(** What each attack type means, without its cap. *)
Definition choices (s : list payload) : list payload := if is_nil s then [None] else s.

Fixpoint product {A} (ss : list (list A)) : list (list A) :=
  match ss with
  | [] => [[]]
  | s :: ss' => flat_map (fun x => map (cons x) (product ss')) s
  end.

Definition shortest (ls : list nat) : option nat :=
  fold_right (fun n acc => if (n =? 0)%nat then acc else Some (match acc with None => n | Some m => Nat.min n m end)) None ls.

Definition attack (type : AttackType) (n : nat) (sets : list (list payload)) : list (list payload) :=
  let s0 := value_ sets 0 in
  let ss := map (value_ sets) (seq 0 n) in
  match type with
  | BatteringRam => map (replicate n) s0
  | Sniper => flat_map (fun pos => map (fun p => <[pos := p]> (replicate n None)) s0) (seq 0 n)
  | Pitchfork => map (fun k => map (fun s => default None (s !! k)) ss) (seq 0 (default 0%nat (shortest (map length ss))))
  | ClusterBomb => if forallb is_nil ss then [] else product (map choices ss)
  end.

Section Capped.
Context {A : Type} (max : Z).
Implicit Types out l : list A.

Definition ztake (l : list A) : list A := take (Z.to_nat max) l.

Lemma ztake_full out l : max <= zlen out -> ztake (out ++ l) = ztake out.
Proof. intros Hm. unfold ztake. rewrite take_app_le; [done|]. unfold zlen in Hm. lia. Qed.

Lemma ztake_short out : zlen out <= max -> ztake out = out.
Proof. intros Hm. unfold ztake. apply take_ge. unfold zlen in Hm. lia. Qed.
End Capped.

Section Loops.
Context (n : nat) (max : Z).

(** The loops that append and stop at the cap. *)
Lemma append_loop_spec (f : payload -> list payload) loop :
  (forall out, loop [] out = out) ->
  (forall p s out, loop (p :: s) out = let out := out ++ [f p] in if max <=? zlen out then out else loop s out) ->
  forall s out, zlen out < max -> loop s out = ztake max (out ++ map f s).
Proof.
  intros H0 H1. induction s as [|p s IH]; intros out Ho.
  - rewrite H0. cbn [map]. rewrite app_nil_r. symmetry. apply ztake_short. lia.
  - rewrite H1. cbv zeta. cbn [map]. change (f p :: map f s) with ([f p] ++ map f s). rewrite app_assoc.
    destruct (max <=? _) eqn:E; to_prop; [|by apply IH].
    rewrite ztake_full by done. symmetry. apply ztake_short. autorewrite with nlsize. lia.
Qed.

Lemma ram_loop_spec s out : zlen out < max -> ram_loop n max s out = ztake max (out ++ map (replicate n) s).
Proof. by apply append_loop_spec. Qed.

Lemma sniper_inner_spec pos s out :
  zlen out < max ->
  sniper_inner n max pos s out = ztake max (out ++ map (fun p => <[pos := p]> (replicate n None)) s).
Proof. by apply append_loop_spec. Qed.

Lemma sniper_loop_spec poss s : forall out, zlen out <= max ->
  sniper_loop n max poss s out
  = ztake max (out ++ flat_map (fun pos => map (fun p => <[pos := p]> (replicate n None)) s) poss).
Proof.
  induction poss as [|pos poss IH]; intros out Ho; cbn [sniper_loop flat_map].
  - rewrite app_nil_r. symmetry. by apply ztake_short.
  - destruct (zlen out <? max) eqn:E; to_prop.
    + rewrite sniper_inner_spec by done. rewrite app_assoc.
      set (l := map _ s). rewrite IH by (unfold ztake, zlen in *; rewrite length_take; lia).
      destruct (decide (zlen (out ++ l) <= max)) as [Hl|Hl].
      * by rewrite (ztake_short max (out ++ l)).
      * rewrite (ztake_full max (out ++ l)) by lia.
        rewrite ztake_full by (unfold ztake, zlen in *; rewrite length_take; lia).
        unfold ztake. by rewrite take_take, Nat.min_id.
    + rewrite ztake_full by done. symmetry. by apply ztake_short.
Qed.

(** Filling a combination. *)
Lemma fill_spec (f : nat -> option payload) : fill n f = map (fun p => default None (f p)) (seq 0 n).
Proof.
  unfold fill.
  assert (Hg : forall k a m, (length a = k)%nat ->
    fold_left (fun combo p => match f p with Some v => <[p:=v]> combo | None => combo end) (seq k m) (a ++ replicate m None)
    = a ++ map (fun p => default None (f p)) (seq k m)).
  { intros k a m. revert k a. induction m as [|m IH]; intros k a Hk; [done|]. cbn [seq fold_left replicate map].
    assert (Hs : match f k with Some v => <[k:=v]> (a ++ None :: replicate m None) | None => a ++ None :: replicate m None end
                 = (a ++ [default None (f k)]) ++ replicate m None).
    { rewrite <- app_assoc. destruct (f k) as [v|]; [|done]. rewrite <- Hk at 1. by rewrite insert_app_r_alt, Nat.sub_diag by lia. }
    rewrite Hs, IH by (rewrite length_app; cbn; lia). by rewrite <- app_assoc. }
  apply (Hg 0%nat []). done.
Qed.

Lemma shortest_snoc ls m :
  shortest (ls ++ [m]) =
    if (m =? 0)%nat then shortest ls
    else Some (match shortest ls with None => m | Some k => Nat.min k m end).
Proof.
  induction ls as [|l ls IH]; cbn [app shortest fold_right]; [done|].
  fold (shortest ls). fold (shortest (ls ++ [m])). rewrite IH.
  destruct (l =? 0)%nat; [done|]. destruct (m =? 0)%nat; [done|].
  destruct (shortest ls); f_equal; lia.
Qed.

Lemma min_len_spec sets k :
  min_len k sets = shortest (map length (map (value_ sets) (seq 0 k))).
Proof.
  unfold min_len. induction k as [|k IH]; [done|].
  rewrite seq_S, fold_left_app, !map_app. cbn [fold_left map Nat.add]. rewrite IH, shortest_snoc.
  destruct (_ =? 0)%nat; [done|]. destruct (shortest _); [|done]. case_if E; to_prop; f_equal; lia.
Qed.

Lemma pitchfork_loop_spec ks sets : forall out, zlen out <= max ->
  pitchfork_loop n max ks sets out
  = ztake max (out ++ map (fun k => map (fun s => default None (s !! k)) (map (value_ sets) (seq 0 n))) ks).
Proof.
  induction ks as [|k ks IH]; intros out Ho; cbn [pitchfork_loop map].
  - rewrite app_nil_r. symmetry. by apply ztake_short.
  - destruct (zlen out <? max) eqn:E; to_prop.
    + rewrite IH by (autorewrite with nlsize; lia). rewrite fill_spec, map_map, <- app_assoc. done.
    + rewrite ztake_full by done. symmetry. by apply ztake_short.
Qed.
End Loops.

(** ** The odometer *)

Section Odometer.

(** Structurally: digits and their dimensions, left to right; [true] is a carry. *)
Fixpoint tick (ds ix : list nat) : bool * list nat :=
  match ds, ix with
  | d :: ds', i :: ix' =>
      let '(c, r) := tick ds' ix' in
      if negb c then (false, i :: r)
      else if (d =? 0)%nat then (true, i :: r)
      else if (i + 1 <? d)%nat then (false, S i :: r)
      else (true, 0%nat :: r)
  | _, _ => (true, [])
  end.

Definition carried (p : bool * list nat) (i : nat) : bool * list nat := (fst p, snd p ++ [i]).

Lemma tick_snoc ds ix d i :
  length ds = length ix ->
  tick (ds ++ [d]) (ix ++ [i]) =
    if (d =? 0)%nat then carried (tick ds ix) i
    else if (i + 1 <? d)%nat then (false, ix ++ [S i])
    else carried (tick ds ix) 0.
Proof.
  revert ix. induction ds as [|d' ds IH]; intros [|i' ix] Hl; try done; cbn [app tick].
  injection Hl as Hl. rewrite IH by done. unfold carried.
  destruct (d =? 0)%nat; [|destruct (i + 1 <? d)%nat; [done|]];
    destruct (tick ds ix) as [[] r]; cbn [fst snd negb]; destruct (d' =? 0)%nat, (i' + 1 <? d')%nat; done.
Qed.

Lemma odometer_tick dim p : forall a b, length a = p ->
  odometer dim (a ++ b) p =
    let '(c, r) := tick (map dim (seq 0 p)) a in if c then None else Some (r ++ b).
Proof.
  induction p as [|p IH]; intros a b Hl; [by destruct a|].
  destruct (exists_last (l := a)) as (a' & i & ->); [by destruct a|].
  rewrite length_app, Nat.add_1_r in Hl. injection Hl as Hl.
  rewrite seq_S, map_app. cbn [Nat.add map]. rewrite tick_snoc by (by rewrite length_map, length_seq).
  cbn [odometer]. rewrite <- app_assoc. rewrite app_nth2, Hl, Nat.sub_diag by lia. cbn [nth app].
  assert (Hins : forall x, <[p := x]> (a' ++ i :: b) = a' ++ x :: b).
  { intros x. rewrite <- Hl at 1. rewrite insert_app_r_alt, Nat.sub_diag by lia. done. }
  rewrite !Hins, !IH by done. unfold carried.
  destruct (dim p =? 0)%nat; [|destruct (i + 1 <? dim p)%nat];
    try (destruct (tick _ a') as [[] r]; cbn [fst snd]); rewrite <- ?app_assoc; done.
Qed.

(** Mixed radix; a skipped position has the one digit 0. *)
Definition weight (d : nat) : nat := Nat.max 1 d.

Fixpoint size (ds : list nat) : nat :=
  match ds with [] => 1 | d :: ds' => weight d * size ds' end.

Fixpoint rank (ds ix : list nat) : nat :=
  match ds, ix with
  | _ :: ds', i :: ix' => i * size ds' + rank ds' ix'
  | _, _ => 0
  end.

Definition digits (ds ix : list nat) : Prop := Forall2 (fun d i => (i < weight d)%nat) ds ix.

Lemma rank_lt ds ix : digits ds ix -> (rank ds ix < size ds)%nat.
Proof. unfold digits. induction 1 as [|d i ds ix Hi _ IH]; cbn [rank size]; [lia|nia]. Qed.

Lemma tick_spec ds ix : digits ds ix ->
  let '(c, r) := tick ds ix in
  digits ds r /\ (if c then S (rank ds ix) = size ds /\ rank ds r = 0%nat else rank ds r = S (rank ds ix)).
Proof.
  unfold digits. induction 1 as [|d i ds ix Hi Hds IH]; cbn [tick rank size]; [by repeat split|].
  destruct (tick ds ix) as [[] r]; cbn [negb]; destruct IH as (Hr & IH).
  - destruct IH as [IH1 IH2]. unfold weight in *. destruct (d =? 0)%nat eqn:Ed; to_prop.
    + subst d. replace i with 0%nat in * by lia. split; [by constructor|]. cbn [rank]. lia.
    + destruct (i + 1 <? d)%nat eqn:Ei; to_prop; (split; [constructor; [unfold weight; lia|done]|]); cbn [rank]; [lia|].
      assert (i = d - 1)%nat as -> by lia. split; [nia|lia].
  - split; [by constructor|]. cbn [rank]. lia.
Qed.

Lemma digits_zero ds : digits ds (replicate (length ds) 0%nat).
Proof. unfold digits. induction ds; cbn; constructor; [unfold weight; lia|done]. Qed.

Lemma rank_zero ds : rank ds (replicate (length ds) 0%nat) = 0%nat.
Proof. induction ds; cbn; [done|lia]. Qed.
End Odometer.

(** ** Products *)

Section Product.
Context {A : Type} (d : A).

Lemma flat_map_cons_lookup (P : list (list A)) (s : list A) i r :
  (i < length s)%nat -> (r < length P)%nat ->
  flat_map (fun x => map (cons x) P) s !! (i * length P + r)%nat = cons (nth i s d) <$> P !! r.
Proof.
  revert i. induction s as [|x s IH]; intros i Hi Hr; cbn [length] in Hi; [lia|]. cbn [flat_map].
  destruct i as [|i].
  - rewrite lookup_app_l by (rewrite length_map; lia). cbn [nth Nat.mul Nat.add].
    apply (list_lookup_fmap (cons x)).
  - rewrite lookup_app_r by (rewrite length_map; lia). rewrite length_map.
    replace (S i * length P + r - length P)%nat with (i * length P + r)%nat by lia. by apply IH; lia.
Qed.

Lemma length_product (ss : list (list A)) :
  Forall (fun s => s <> []) ss -> length (product ss) = size (map length ss).
Proof.
  induction 1 as [|s ss Hs _ IH]; [done|]. cbn [product map size]. rewrite <- IH.
  assert (weight (length s) = length s) as -> by (unfold weight; destruct s; [done|cbn; lia]). clear Hs.
  induction s as [|x s IHs]; [done|]. cbn [flat_map length]. rewrite length_app, length_map, IHs. lia.
Qed.

Lemma product_lookup (ss : list (list A)) ix :
  Forall (fun s => s <> []) ss -> digits (map length ss) ix ->
  product ss !! rank (map length ss) ix = Some (zip_with (fun s i => nth i s d) ss ix).
Proof.
  intros Hne. revert ix. induction Hne as [|s ss Hs Hss IH]; intros ix Hd; inversion Hd as [|? i ? ix' Hi His]; [done|].
  cbn [map rank product zip_with]. rewrite <- length_product by done.
  rewrite flat_map_cons_lookup.
  - by rewrite (IH ix' His).
  - unfold weight in Hi. destruct s; [done|]. cbn in *. lia.
  - rewrite length_product by done. by apply rank_lt.
Qed.
End Product.

(** ** The attacks *)

Section Cluster.
Context (n : nat) (max : Z) (sets : list (list payload)).

Let ss := map (value_ sets) (seq 0 n).
Let ds := map length (map choices ss).

Lemma choices_ne : Forall (fun s => s <> []) (map choices ss).
Proof. apply Forall_fmap, Forall_forall. intros s _. unfold choices. by destruct s. Qed.

(** Positions the loop skips have one choice. *)
Lemma weight_ds : Forall2 (fun d d' => weight d = weight d' /\ (d = d' \/ d = 0%nat /\ d' = 1%nat)) (map length ss) ds.
Proof.
  unfold ds. rewrite map_map. clear ds. induction ss as [|s l IH]; cbn [map]; constructor; [|done].
  destruct s; cbn; auto.
Qed.

Lemma rank_weight ds1 ds2 ix :
  Forall2 (fun d d' => weight d = weight d' /\ (d = d' \/ d = 0%nat /\ d' = 1%nat)) ds1 ds2 ->
  size ds1 = size ds2 /\ rank ds1 ix = rank ds2 ix /\ (digits ds1 ix <-> digits ds2 ix).
Proof.
  intros Hf. revert ix. induction Hf as [|d d' ds1 ds2 [Hw _] _ IH]; intros ix; [done|].
  cbn [size]. destruct (IH []) as (Hs & _). rewrite Hw, Hs. split; [done|].
  destruct ix as [|i ix]; cbn [rank]; [split; [done|]; split; intros Hd; inversion Hd|].
  destruct (IH ix) as (_ & Hr & Hd). rewrite Hs, Hr. split; [done|].
  unfold digits. rewrite !Forall2_cons, Hw. unfold digits in Hd. tauto.
Qed.

Lemma cluster_combo_spec ix :
  digits (map length ss) ix ->
  cluster_combo n sets ix = zip_with (fun s i => nth i s None) (map choices ss) ix.
Proof.
  intros Hd. assert (Hl : length ix = n).
  { apply Forall2_length in Hd. unfold ss in Hd. by rewrite !length_map, length_seq in Hd. }
  unfold cluster_combo. rewrite fill_spec. apply list_eq. intros k.
  rewrite lookup_zip_with. unfold ss. rewrite map_map.
  destruct (decide (k < n)%nat) as [Hk|Hk].
  - rewrite !(list_lookup_fmap _ (seq 0 n)), !lookup_seq_lt by done. cbn [fmap option_fmap option_map mbind option_bind].
    destruct (lookup_lt_is_Some_2 ix k) as [i Hi]; [lia|]. rewrite Hi. cbn. f_equal.
    rewrite (nth_lookup_Some _ _ _ _ Hi).
    pose proof (Forall2_lookup_lr _ _ _ k (length (value_ sets k)) i Hd) as Hdk. cbn beta in Hdk.
    assert (Hk' : map length ss !! k = Some (length (value_ sets k))).
    { unfold ss. rewrite map_map. rewrite (list_lookup_fmap _ (seq 0 n)), lookup_seq_lt by done. done. }
    specialize (Hdk Hk' Hi). unfold choices. destruct (value_ sets k); cbn [is_nil default] in *; [|done].
    unfold weight in Hdk. cbn in Hdk. assert (i = 0%nat) as -> by lia. done.
  - rewrite !(list_lookup_fmap _ (seq 0 n)), !lookup_seq_ge by lia. done.
Qed.

Lemma cluster_loop_spec fuel : forall ix,
  let P := product (map choices ss) in
  let r := rank (map length ss) ix in
  digits (map length ss) ix -> Z.of_nat r <= max -> max < Z.of_nat (fuel + r) ->
  cluster_loop n max fuel sets ix (take r P) = Some (ztake max P).
Proof.
  induction fuel as [|fuel IH]; intros ix P r Hd Hr Hf; [lia|]. cbn [cluster_loop].
  destruct (rank_weight _ _ ix weight_ds) as (Hsz & Hrk & Hdg).
  assert (HP : length P = size (map length ss)) by (unfold P; rewrite length_product by apply choices_ne; by rewrite Hsz).
  pose proof (rank_lt _ _ Hd) as Hlt. fold r in Hlt.
  assert (Hlen : length (take r P) = r) by (rewrite length_take; lia).
  assert (Hz : zlen (take r P) = Z.of_nat r) by (unfold zlen; by rewrite Hlen). rewrite Hz.
  destruct (Z.of_nat r <? max) eqn:E; to_prop.
  2: { unfold ztake. do 2 f_equal. lia. }
  assert (Hlook : P !! r = Some (cluster_combo n sets ix)).
  { rewrite cluster_combo_spec by done. unfold P, r. rewrite Hrk. apply product_lookup; [apply choices_ne|by apply Hdg]. }
  assert (Hnext : take r P ++ [cluster_combo n sets ix] = take (S r) P) by (symmetry; by apply take_S_r).
  rewrite Hnext. assert (Hix : length ix = n).
  { apply Forall2_length in Hd. unfold ss in Hd. by rewrite !length_map, length_seq in Hd. }
  pose proof (odometer_tick (fun p => length (value_ sets p)) n ix [] Hix) as Ho.
  rewrite app_nil_r, <- (map_map (value_ sets) length) in Ho. fold ss in Ho. rewrite Ho.
  pose proof (tick_spec _ _ Hd) as Ht. destruct (tick (map length ss) ix) as [[] ix'].
  - destruct Ht as (_ & Hs & _). fold r in Hs. unfold ztake. rewrite !take_ge by lia. done.
  - destruct Ht as (Hd' & Hs). fold r in Hs. rewrite app_nil_r.
    specialize (IH ix'). cbv zeta in IH. rewrite Hs in IH. apply IH; [done|lia|lia].
Qed.
End Cluster.

Lemma generateCombinations_eq type positions sets maxResults :
  generateCombinations type positions sets maxResults =
    Some (if (positions <=? 0) || (maxResults <=? 0) then []
          else take (Z.to_nat maxResults) (attack type (Z.to_nat positions) sets)).
Proof.
  unfold generateCombinations. destruct (_ || _) eqn:E; [done|]. split_bools; to_prop.
  set (n := Z.to_nat positions). unfold attack. destruct type.
  - f_equal. rewrite sniper_loop_spec by (autorewrite with nlsize; lia). done.
  - f_equal. rewrite ram_loop_spec by (autorewrite with nlsize; lia). done.
  - rewrite min_len_spec. destruct (shortest _) as [m|]; cbn [default]; [|by destruct (Z.to_nat maxResults)].
    f_equal. rewrite pitchfork_loop_spec by (autorewrite with nlsize; lia). done.
  - assert (Hall : forall l, forallb is_nil (map (value_ sets) l) = forallb (fun p => is_nil (value_ sets p)) l).
    { induction l as [|p l IH]; [done|]. cbn. by rewrite IH. }
    rewrite Hall. destruct (forallb _ _); [by destruct (Z.to_nat maxResults)|].
    set (ss := map (value_ sets) (seq 0 n)).
    assert (Hn : length (map length ss) = n) by (unfold ss; by rewrite !length_map, length_seq).
    pose proof (cluster_loop_spec n maxResults sets (S (Z.to_nat maxResults)) (replicate n 0%nat)) as Hc.
    cbv zeta in Hc. fold ss in Hc.
    assert (Hrep : replicate n 0%nat = replicate (length (map length ss)) 0%nat) by by rewrite Hn.
    rewrite Hrep, rank_zero in Hc. rewrite Hrep.
    cbn [take] in Hc. apply Hc; [apply digits_zero|lia|lia].
Qed.

(** Every attack generates exactly its requests, in order, up to the cap:
    battering ram puts each payload at all positions, sniper each payload at
    one position at a time, pitchfork the k-th payloads of all sets up to the
    shortest non-empty one, cluster bomb the whole Cartesian product with the
    last position fastest; positions without payload keep their default.  The
    generation always ends. *)
Theorem generateCombinations_spec type positions sets maxResults :
  generateCombinations type positions sets maxResults =
    Some (if (positions <=? 0) || (maxResults <=? 0) then []
          else take (Z.to_nat maxResults) (attack type (Z.to_nat positions) sets)).
Proof. apply generateCombinations_eq. Qed.
