(* ===== verification/IntruderGenerators.v ===== *)
(** * Payload generators and the resource pool:
      Src/Core/Networking/intruder_generators.cpp and intruder_pool_logic.cpp

    The enumerating generators (numbers, brute force, bit flips, character
    blocks, null payloads, the custom iterator) and the clamps of the pool.
    [int] and [qint64] arguments are [Z]; an [int] that the code lets overflow
    makes the model have no result.  The UCS-4 codec of [QString] is a
    parameter. *)

From S2P Require Import Prelude Qt QtSample Intruder Utf8.

Local Open Scope Z_scope.

(** ** The resource pool *)

Definition kMaxConcurrency : Z := 64.
Definition kMaxThrottleMs : Z := 60000.
Definition kMaxRetries : Z := 5.
Definition kSleepSliceMs : Z := 50.

Definition clampConcurrency (n : Z) : Z :=
  if n <? 1 then 1 else if kMaxConcurrency <? n then kMaxConcurrency else n.
Definition clampThrottleMs (ms : Z) : Z :=
  if ms <? 0 then 0 else if kMaxThrottleMs <? ms then kMaxThrottleMs else ms.
Definition clampRetries (n : Z) : Z :=
  if n <? 0 then 0 else if kMaxRetries <? n then kMaxRetries else n.
Definition sleepSliceMs (remainingMs sliceMs : Z) : Z :=
  if (remainingMs <=? 0) || (sliceMs <=? 0) then 0
  else if remainingMs <? sliceMs then remainingMs else sliceMs.
Definition rpsToDelayMs (rps : Z) : Z := if rps <=? 0 then 0 else Z.quot 1000 rps.

Lemma clamps_in_range n :
  1 <= clampConcurrency n <= kMaxConcurrency /\ 0 <= clampThrottleMs n <= kMaxThrottleMs /\
  0 <= clampRetries n <= kMaxRetries /\ 0 <= rpsToDelayMs n <= 1000.
Proof.
  unfold clampConcurrency, clampThrottleMs, clampRetries, rpsToDelayMs, kMaxConcurrency, kMaxThrottleMs, kMaxRetries.
  repeat split; repeat case_match; to_prop; try lia.
  - apply Z.quot_pos; lia.
  - rewrite Z.quot_div_nonneg by lia. apply Z.div_le_upper_bound; nia.
Qed.

(** A wait cut into slices sleeps exactly what remains and ends. *)
Fixpoint slices (fuel : nat) (remaining slice : Z) : option (list Z) :=
  match fuel with
  | O => None
  | S fuel' =>
      let s := sleepSliceMs remaining slice in
      if s =? 0 then Some [] else cons s <$> slices fuel' (remaining - s) slice
  end.

Lemma slices_total fuel : forall remaining slice,
  0 < slice -> remaining < Z.of_nat fuel -> (0 < fuel)%nat ->
  exists l, slices fuel remaining slice = Some l /\
    fold_right Z.add 0 l = Z.max 0 remaining /\ Forall (fun s => 0 < s <= slice) l.
Proof.
  induction fuel as [|fuel IH]; intros remaining slice Hs Hf Hp; [lia|]. cbn [slices].
  unfold sleepSliceMs. destruct (remaining <=? 0) eqn:Er; to_prop; cbn [orb].
  { exists []. cbn. repeat split; [lia|constructor]. }
  rewrite (proj2 (Z.leb_gt slice 0)) by lia. set (s := if remaining <? slice then remaining else slice).
  assert (Hsr : 0 < s <= slice /\ s <= remaining) by (unfold s; case_if E; to_prop; lia). zdecide.
  destruct (IH (remaining - s) slice) as (l & Hl & Hsum & Hall); [lia|lia|lia|]. rewrite Hl.
  exists (s :: l). cbn. repeat split; [rewrite Hsum; lia|]. constructor; [lia|done].
Qed.

(** ** Numbers *)

Definition kMaxCount : Z := 100000.

Section Numbers.
(** [QString::number(n, 16)] for a negative [n]. *)
Context (hex_negative : Z -> qstr).

Definition fmtNumber (n width : Z) (hex : bool) : qstr :=
  let s := if hex then if n <? 0 then hex_negative n else number 16 n else number 10 n in
  if 0 <? width then
    let neg := starts_with_chr 45 s in
    let digits := if neg then drop 1 s else s in
    let digits := replicate (Z.to_nat (width - zlen digits)) 48 ++ digits in
    if neg then 45 :: digits else digits
  else s.

Fixpoint numbers_loop (fuel : nat) (n to step width : Z) (hex : bool) : list qstr :=
  match fuel with
  | O => []
  | S fuel' =>
      if (if 0 <? step then to <? n else n <? to) then []
      else
        fmtNumber n width hex ::
          (if (0 <? step) && (I64_MAX - step <? n) then []
           else if (step <? 0) && (n <? I64_MIN - step) then []
           else numbers_loop fuel' (s64 (n + step)) to step width hex)
  end.

Definition numbers (from to step width : Z) (hex : bool) : list qstr :=
  if step =? 0 then []
  else if (0 <? step) && (to <? from) then []
  else if (step <? 0) && (from <? to) then []
  else numbers_loop (Z.to_nat kMaxCount) from to step width hex.
End Numbers.

(** ** Enumerations of strings *)

Definition kMaxChars : Z := kMaxCount * 64.

Section Brute.
Context `{QtUcs4}.

Definition brute_word (cps : list Z) (idx : list nat) : qstr :=
  flat_map (fun i => u_fromucs4 (nth i cps 0)) idx.

(** One length: [idx] is the odometer; strings and the units counted so far.
    [None] of [brute_loop]: [++len] overflows [int]. *)
Fixpoint brute_len (fuel : nat) (cps : list Z) (len : nat) (idx : list nat) (out : list qstr) (emitted : Z)
    : option (list qstr * Z) :=
  match fuel with
  | O => None
  | S fuel' =>
      if (zlen out <? kMaxCount) && (emitted <? kMaxChars) then
        let out := out ++ [brute_word cps idx] in
        let emitted := emitted + Z.of_nat len in
        match odometer (fun _ => length cps) idx len with
        | None => Some (out, emitted)
        | Some idx' => brute_len fuel' cps len idx' out emitted
        end
      else Some (out, emitted)
  end.

Fixpoint brute_loop (fuel : nat) (cps : list Z) (len maxLen : Z) (out : list qstr) (emitted : Z) : option (list qstr) :=
  match fuel with
  | O => None
  | S fuel' =>
      if (len <=? maxLen) && (zlen out <? kMaxCount) && (emitted <? kMaxChars) then
        match brute_len (S (Z.to_nat kMaxCount)) cps (Z.to_nat len) (replicate (Z.to_nat len) 0%nat) out emitted with
        | None => None
        | Some (out, emitted) =>
            if INT_MAX <? len + 1 then None else brute_loop fuel' cps (len + 1) maxLen out emitted
        end
      else Some out
  end.

Definition brute (charset : qstr) (minLen maxLen : Z) : option (list qstr) :=
  if is_nil charset then Some []
  else
    let minLen := if minLen <? 1 then 1 else minLen in
    if maxLen <? minLen then Some []
    else brute_loop (S (Z.to_nat kMaxCount)) (u_toucs4 charset) minLen maxLen [] 0.
End Brute.

Section BitFlip.
Context `{QtText}.

Definition flip_bit (bytes : list Z) (i : nat) (b : Z) : list Z :=
  <[i := Z.lxor (at_ bytes i) (Z.shiftl 1 b)]> bytes.

Fixpoint bitFlip_bits (bytes : list Z) (i : nat) (bs : list Z) (out : list qstr) : list qstr :=
  match bs with
  | [] => out
  | b :: bs' => if zlen out <? kMaxCount then bitFlip_bits bytes i bs' (out ++ [flip_bit bytes i b]) else out
  end.

Fixpoint bitFlip_loop (bytes : list Z) (ixs : list nat) (out : list qstr) : list qstr :=
  match ixs with
  | [] => out
  | i :: ixs' =>
      if zlen out <? kMaxCount
      then bitFlip_loop bytes ixs' (bitFlip_bits bytes i [0; 1; 2; 3; 4; 5; 6; 7] out)
      else out
  end.

Definition bitFlip (base : qstr) : list qstr :=
  let bytes := u_toutf8 base in
  bitFlip_loop bytes (seq 0 (length bytes)) [].
End BitFlip.

(** [base.repeated(k)]. *)
Definition repeated (base : qstr) (k : Z) : qstr := concat (replicate (Z.to_nat k) base).

(** [None]: [k += step] overflows [int]. *)
Fixpoint charBlocks_loop (fuel : nat) (base : qstr) (k maxMult step : Z) (out : list qstr) (emitted : Z)
    : option (list qstr) :=
  match fuel with
  | O => None
  | S fuel' =>
      if (k <=? maxMult) && (zlen out <? kMaxCount) then
        let blockLen := zlen base * k in
        if kMaxChars <? emitted + blockLen then Some out
        else
          let out := out ++ [repeated base k] in
          if INT_MAX <? k + step then None
          else charBlocks_loop fuel' base (k + step) maxMult step out (emitted + blockLen)
      else Some out
  end.

Definition charBlocks (base : qstr) (minMult maxMult step : Z) : option (list qstr) :=
  if is_nil base || (step <? 1) then Some []
  else
    let minMult := if minMult <? 1 then 1 else minMult in
    if maxMult <? minMult then Some []
    else charBlocks_loop (S (Z.to_nat kMaxCount)) base minMult maxMult step [] 0.

Definition nullPayloads (count : Z) : list payload :=
  if count <? 1 then [] else replicate (Z.to_nat (Z.min count kMaxCount)) None.

(** ** The custom iterator *)

Section Iterator.
Context (separator : qstr).

Definition extend (first : bool) (prefix item : qstr) : qstr :=
  if first then item else prefix ++ separator ++ item.

Fixpoint iterator_items (first : bool) (prefix : qstr) (items : list qstr) (next : list qstr) : list qstr * bool :=
  match items with
  | [] => (next, false)
  | item :: items' =>
      let next := next ++ [extend first prefix item] in
      if kMaxCount <=? zlen next then (next, true) else iterator_items first prefix items' next
  end.

Fixpoint iterator_prefixes (first : bool) (out items next : list qstr) : list qstr :=
  match out with
  | [] => next
  | prefix :: out' =>
      let '(next, capped) := iterator_items first prefix items next in
      if (capped : bool) then next else iterator_prefixes first out' items next
  end.

Fixpoint iterator_positions (first : bool) (positions : list (list qstr)) (out : list qstr) : list qstr :=
  match positions with
  | [] => out
  | items :: positions' => iterator_positions false positions' (iterator_prefixes first out items [])
  end.
End Iterator.

Definition customIterator (positions : list (list qstr)) (separator : qstr) : list qstr :=
  if is_nil positions then []
  else if existsb is_nil positions then []
  else iterator_positions separator true positions [[]].

(** ** Correctness *)

(** How many terms of the progression lie within the bounds. *)
Definition terms (from to step : Z) : Z :=
  if (step =? 0) || ((0 <? step) && (to <? from)) || ((step <? 0) && (from <? to)) then 0
  else (to - from) / step + 1.

Section NumbersSpec.
Context (hex_negative : Z -> qstr).

Definition in_i64 (z : Z) : Prop := I64_MIN <= z <= I64_MAX.

Lemma numbers_loop_up fuel : forall n to step width hex,
  in_i64 n -> in_i64 to -> in_i64 step -> 0 < step ->
  numbers_loop hex_negative fuel n to step width hex =
    map (fun i => fmtNumber hex_negative (n + Z.of_nat i * step) width hex)
      (seq 0 (Nat.min fuel (Z.to_nat ((to - n) / step + 1)))).
Proof.
  unfold in_i64, I64_MIN, I64_MAX. induction fuel as [|fuel IH]; intros n to step width hex Hn Ht Hst Hs; [done|].
  cbn [numbers_loop]. zdecide. destruct (to <? n) eqn:E; to_prop.
  - assert (Hq : (to - n) / step < 0) by (apply Z.div_lt_upper_bound; lia).
    rewrite (Z2Nat.nonpos ((to - n) / step + 1)) by lia. by rewrite Nat.min_0_r.
  - assert (Hq : 0 <= (to - n) / step) by (apply Z.div_pos; lia).
    replace (Z.to_nat ((to - n) / step + 1)) with (S (Z.to_nat ((to - n) / step))) by lia.
    cbn [Nat.min seq map Z.of_nat Z.mul]. rewrite Z.add_0_r. f_equal. cbn [andb].
    rewrite (proj2 (Z.ltb_ge step 0)) by lia. cbn [andb]. unfold I64_MAX in *.
    destruct (9223372036854775807 - step <? n) eqn:Ew; to_prop.
    + rewrite Z.div_small by lia. by rewrite Nat.min_0_r.
    + rewrite s64_small by lia. rewrite IH by lia.
      replace (to - (n + step)) with (to - n + (-1) * step) by lia. rewrite Z.div_add by lia.
      replace ((to - n) / step + -1 + 1) with ((to - n) / step) by lia.
      rewrite <- seq_shift, map_map. apply map_ext. intros i. f_equal. lia.
Qed.

Lemma numbers_loop_down fuel : forall n to step width hex,
  in_i64 n -> in_i64 to -> in_i64 step -> step < 0 ->
  numbers_loop hex_negative fuel n to step width hex =
    map (fun i => fmtNumber hex_negative (n + Z.of_nat i * step) width hex)
      (seq 0 (Nat.min fuel (Z.to_nat ((to - n) / step + 1)))).
Proof.
  unfold in_i64, I64_MIN, I64_MAX. induction fuel as [|fuel IH]; intros n to step width hex Hn Ht Hst Hs; [done|].
  cbn [numbers_loop]. rewrite (proj2 (Z.ltb_ge 0 step)) by lia. destruct (n <? to) eqn:E; to_prop.
  - assert (Hq : (to - n) / step < 0) by (rewrite <- Z.div_opp_opp by lia; apply Z.div_lt_upper_bound; lia).
    rewrite (Z2Nat.nonpos ((to - n) / step + 1)) by lia. by rewrite Nat.min_0_r.
  - assert (Hq : 0 <= (to - n) / step) by (rewrite <- Z.div_opp_opp by lia; apply Z.div_pos; lia).
    replace (Z.to_nat ((to - n) / step + 1)) with (S (Z.to_nat ((to - n) / step))) by lia.
    cbn [Nat.min seq map Z.of_nat Z.mul]. rewrite Z.add_0_r. f_equal. cbn [andb].
    rewrite (proj2 (Z.ltb_lt step 0)) by lia. cbn [andb]. unfold I64_MIN in *.
    destruct (n <? -9223372036854775808 - step) eqn:Ew; to_prop.
    + rewrite <- Z.div_opp_opp by lia. rewrite Z.div_small by lia. by rewrite Nat.min_0_r.
    + rewrite s64_small by lia. rewrite IH by lia.
      replace (to - (n + step)) with (to - n + (-1) * step) by lia. rewrite Z.div_add by lia.
      replace ((to - n) / step + -1 + 1) with ((to - n) / step) by lia.
      rewrite <- seq_shift, map_map. apply map_ext. intros i. f_equal. lia.
Qed.
End NumbersSpec.

(** A number range yields exactly the terms of the progression that lie within
    its bounds, the first 100000 of them, each formatted; in either direction
    and up to the ends of the 64-bit range nothing wraps, repeats or is lost. *)
Theorem numbers_correct hex_negative from to step width hex :
  in_i64 from -> in_i64 to -> in_i64 step ->
  numbers hex_negative from to step width hex =
    map (fun i => fmtNumber hex_negative (from + Z.of_nat i * step) width hex)
      (seq 0 (Z.to_nat (Z.min kMaxCount (terms from to step)))).
Proof.
  intros Hf Ht Hs. unfold numbers, terms. destruct (step =? 0) eqn:E0; [done|]. to_prop. cbn [orb].
  destruct ((0 <? step) && (to <? from)) eqn:E1; [done|]. cbn [orb].
  destruct ((step <? 0) && (from <? to)) eqn:E2; [done|].
  rewrite Z2Nat.inj_min. destruct (decide (0 < step)).
  - by apply numbers_loop_up.
  - apply numbers_loop_down; try done. lia.
Qed.

Lemma numbers_correct_witness :
  in_i64 9223372036854775800 /\ in_i64 9223372036854775807 /\ in_i64 5 /\
  numbers (fun _ => []) 9223372036854775800 9223372036854775807 5 0 false
  = [lit "9223372036854775800"; lit "9223372036854775805"].
Proof.
  unfold in_i64, I64_MIN, I64_MAX. split; [lia|]. split; [lia|]. split; [lia|].
  rewrite (numbers_correct (fun _ => []) 9223372036854775800 9223372036854775807 5 0 false);
    [reflexivity|unfold in_i64, I64_MIN, I64_MAX; lia..].
Defined.

(** ** Capped nested loops *)

Section CappedFlat.
Context {A B : Type}.

Lemma take_flat_map (f : A -> list B) k (l : list A) :
  Forall (fun x => f x <> []) l -> take k (flat_map f (take k l)) = take k (flat_map f l).
Proof.
  intros Hf. rewrite <- (take_drop k l) at 2. rewrite flat_map_app.
  destruct (decide (length l <= k)%nat) as [Hl|Hl].
  - rewrite (drop_ge l) by done. by rewrite app_nil_r.
  - rewrite take_app_le; [done|].
    assert (Hk : length (take k l) = k) by (rewrite length_take; lia). rewrite <- Hk at 1. clear Hk Hl.
    assert (Ht : Forall (fun x => f x <> []) (take k l)) by by apply Forall_take.
    induction Ht as [|x l' Hx _ IH]; [done|]. cbn [flat_map length]. rewrite length_app.
    destruct (f x); [done|]. cbn. lia.
Qed.
End CappedFlat.

Lemma flat_map_singletons {A B} (f : A -> B) (l : list A) : flat_map (fun x => [f x]) l = map f l.
Proof. induction l as [|x l IH]; [done|]. cbn. by rewrite IH. Qed.

Lemma product_snoc {A} (ss : list (list A)) s :
  product (ss ++ [s]) = flat_map (fun l => map (fun x => l ++ [x]) s) (product ss).
Proof.
  induction ss as [|s0 ss IH]; cbn [app product].
  - cbn. rewrite app_nil_r. induction s as [|x s IHs]; [done|]. cbn. by rewrite IHs.
  - rewrite IH. clear IH. induction s0 as [|x s0 IHs]; [done|]. cbn [flat_map]. rewrite flat_map_app, <- IHs. f_equal.
    generalize (product ss) as P. intros P. induction P as [|l P IHp]; [done|]. cbn [flat_map map].
    rewrite map_app, IHp, map_map. done.
Qed.

Lemma product_length {A} (ss : list (list A)) l : l ∈ product ss -> length l = length ss.
Proof.
  revert l. induction ss as [|s ss IH]; intros l Hl; cbn [product] in Hl.
  - by apply list_elem_of_singleton in Hl as ->.
  - apply list_elem_of_In, in_flat_map in Hl as (x & _ & Hx). apply in_map_iff in Hx as (l' & <- & Hl').
    cbn. f_equal. apply IH. by apply list_elem_of_In.
Qed.

Lemma join_snoc sep l x : l <> [] -> join sep (l ++ [x]) = join sep l ++ sep ++ x.
Proof.
  intros Hl. induction l as [|p l IH]; [done|]. destruct l as [|q l]; [done|].
  change (join sep ((p :: q :: l) ++ [x])) with (p ++ sep ++ join sep ((q :: l) ++ [x])).
  rewrite IH by done. change (join sep (p :: q :: l)) with (p ++ sep ++ join sep (q :: l)).
  by rewrite <- !app_assoc.
Qed.

Section IteratorSpec.
Context (sep : qstr).

Lemma iterator_items_spec first prefix items : forall next, zlen next < kMaxCount ->
  let all := next ++ map (extend sep first prefix) items in
  iterator_items sep first prefix items next = (ztake kMaxCount all, kMaxCount <=? zlen all).
Proof.
  induction items as [|item items IH]; intros next Hn all; cbn [iterator_items]; subst all; cbn [map].
  - rewrite app_nil_r, ztake_short by lia. by zdecide.
  - rewrite (cons_middle _ _ (map (extend sep first prefix) items)), app_assoc. set (next' := next ++ [_]).
    assert (Hz : zlen next' = zlen next + 1) by (unfold next'; autorewrite with nlsize; lia).
    destruct (kMaxCount <=? zlen next') eqn:E; to_prop.
    + rewrite ztake_full by done. rewrite ztake_short by lia. f_equal. autorewrite with nlsize.
      pose proof (zlen_nonneg (map (extend sep first prefix) items)). by zdecide.
    + by apply IH.
Qed.

Lemma iterator_prefixes_spec first items out : forall next, zlen next < kMaxCount ->
  iterator_prefixes sep first out items next =
    ztake kMaxCount (next ++ flat_map (fun prefix => map (extend sep first prefix) items) out).
Proof.
  induction out as [|prefix out IH]; intros next Hn; cbn [iterator_prefixes flat_map].
  - rewrite app_nil_r. symmetry. apply ztake_short. lia.
  - rewrite iterator_items_spec by done. rewrite app_assoc. set (all := next ++ map _ items).
    destruct (kMaxCount <=? zlen all) eqn:E; to_prop.
    + by rewrite ztake_full.
    + rewrite (ztake_short _ all) by lia. by apply IH.
Qed.

(** After the positions [done_] the list holds their combinations. *)
Lemma iterator_positions_spec positions : forall done_,
  Forall (fun s => s <> []) positions -> done_ <> [] ->
  iterator_positions sep false positions (ztake kMaxCount (map (join sep) (product done_)))
  = ztake kMaxCount (map (join sep) (product (done_ ++ positions))).
Proof.
  induction positions as [|items positions IH]; intros done_ Hne Hd; cbn [iterator_positions].
  - by rewrite app_nil_r.
  - apply Forall_cons in Hne as [Hi Hne]. rewrite iterator_prefixes_spec by (cbv; done). cbn [app].
    assert (Hstep : ztake kMaxCount (flat_map (fun prefix => map (extend sep false prefix) items)
        (ztake kMaxCount (map (join sep) (product done_)))) = ztake kMaxCount (map (join sep) (product (done_ ++ [items])))).
    { unfold ztake. rewrite take_flat_map by (apply Forall_forall; intros p _; by destruct items). f_equal.
      rewrite product_snoc. pose proof (product_length done_) as Hlen. revert Hlen.
      generalize (product done_) as P. intros P Hlen. induction P as [|l P IHp]; [done|]. cbn [map flat_map].
      rewrite map_app, map_map, IHp by (intros l' Hl'; apply Hlen; by right). f_equal. apply map_ext. intros x.
      unfold extend. symmetry. apply join_snoc. specialize (Hlen l (list_elem_of_here _ _)).
      intros ->. by destruct done_. }
    rewrite Hstep. rewrite IH by (done || by destruct done_). by rewrite <- app_assoc.
Qed.
End IteratorSpec.

(** The custom iterator yields exactly the Cartesian product of its positions
    in odometer order, each combination joined by the separator, cut to the
    first 100000; no payload is ever a partial combination, and an empty
    position empties the product. *)
Theorem customIterator_correct positions separator :
  customIterator positions separator =
    if is_nil positions then []
    else take (Z.to_nat kMaxCount) (map (join separator) (product positions)).
Proof.
  unfold customIterator. destruct positions as [|items positions]; [done|]. cbn [is_nil].
  destruct (existsb is_nil (items :: positions)) eqn:E.
  - apply existsb_exists in E as (s & Hs & Hnil). apply is_nil_true in Hnil as ->.
    assert (product (items :: positions) = []) as ->; [|by destruct (Z.to_nat kMaxCount)].
    apply list_elem_of_In, list_elem_of_split in Hs as (l1 & l2 & ->). clear.
    induction l1 as [|s l1 IH]; [done|]. cbn [app product]. rewrite IH. induction s; [done|]. cbn. done.
  - assert (Hne : Forall (fun s : list qstr => s <> []) (items :: positions)).
    { apply Forall_forall. intros s Hs ->. apply list_elem_of_In in Hs.
      assert (existsb is_nil (items :: positions) = true) by (apply existsb_exists; by exists []). congruence. }
    apply Forall_cons in Hne as [Hi Hne]. cbn [iterator_positions].
    rewrite iterator_prefixes_spec by (cbv; done). cbn [flat_map app]. rewrite app_nil_r.
    assert (Hone : map (extend separator true []) items = map (join separator) (product [items])).
    { cbn [product map]. rewrite (flat_map_singletons (fun x => [x])), map_map. by apply map_ext. }
    rewrite Hone, iterator_positions_spec by done. done.
Qed.

(** ** Bit flips *)

Section BitFlipSpec.
Context `{QtText}.

Lemma bitFlip_bits_spec bytes i bs : forall out, zlen out <= kMaxCount ->
  bitFlip_bits bytes i bs out = ztake kMaxCount (out ++ map (flip_bit bytes i) bs).
Proof.
  induction bs as [|b bs IH]; intros out Ho; cbn [bitFlip_bits map].
  - rewrite app_nil_r. symmetry. by apply ztake_short.
  - destruct (zlen out <? kMaxCount) eqn:E; to_prop.
    + rewrite IH by (autorewrite with nlsize; lia). by rewrite <- app_assoc.
    + rewrite ztake_full by done. symmetry. by apply ztake_short.
Qed.

Lemma ztake_zlen {A} max (l : list A) : 0 <= max -> zlen (ztake max l) <= max.
Proof. intros Hm. unfold ztake, zlen. rewrite length_take. lia. Qed.

Lemma ztake_app {A} max (l k : list A) : 0 <= max -> ztake max (ztake max l ++ k) = ztake max (l ++ k).
Proof.
  intros Hm. destruct (decide (zlen l <= max)) as [Hl|Hl]; [by rewrite (ztake_short max l)|].
  rewrite (ztake_full max l k) by lia. rewrite ztake_full by (unfold ztake, zlen in *; rewrite length_take; lia).
  unfold ztake. by rewrite take_take, Nat.min_id.
Qed.

Lemma bitFlip_loop_spec bytes ixs : forall out, zlen out <= kMaxCount ->
  bitFlip_loop bytes ixs out
  = ztake kMaxCount (out ++ flat_map (fun i => map (flip_bit bytes i) [0; 1; 2; 3; 4; 5; 6; 7]) ixs).
Proof.
  induction ixs as [|i ixs IH]; intros out Ho; cbn [bitFlip_loop flat_map].
  - rewrite app_nil_r. symmetry. by apply ztake_short.
  - destruct (zlen out <? kMaxCount) eqn:E; to_prop.
    + rewrite bitFlip_bits_spec by done. rewrite IH by by apply ztake_zlen. by rewrite ztake_app, <- app_assoc.
    + rewrite ztake_full by done. symmetry. by apply ztake_short.
Qed.

(** One payload per bit of the UTF-8 form, lowest bit first, up to the cap. *)
Lemma bitFlip_correct base :
  bitFlip base = take (Z.to_nat kMaxCount)
    (flat_map (fun i => map (flip_bit (u_toutf8 base) i) [0; 1; 2; 3; 4; 5; 6; 7]) (seq 0 (length (u_toutf8 base)))).
Proof. unfold bitFlip. by rewrite bitFlip_loop_spec. Qed.
End BitFlipSpec.

(** A flip is undone by the same flip, and leaves the other bytes alone. *)
Lemma flip_bit_involutive bytes i b : (i < length bytes)%nat -> flip_bit (flip_bit bytes i b) i b = bytes.
Proof.
  intros Hi. unfold flip_bit. rewrite list_insert_insert_eq. unfold at_ at 1.
  rewrite (nth_lookup_Some _ _ _ (Z.lxor (at_ bytes i) (Z.shiftl 1 b))) by by apply list_lookup_insert_eq.
  rewrite Z.lxor_assoc, Z.lxor_nilpotent, Z.lxor_0_r. apply list_insert_id. unfold at_.
  destruct (nth_lookup_or_length bytes i 0) as [Hs|Hs]; [done|lia].
Qed.

(** ** Character blocks *)

Lemma zlen_repeated base k : 0 <= k -> zlen (repeated base k) = zlen base * k.
Proof.
  intros Hk. unfold repeated. rewrite <- (Z2Nat.id k) at 2 by done. generalize (Z.to_nat k) as m.
  induction m as [|m IH]; [cbn [replicate concat Z.of_nat]; rewrite zlen_nil; lia|]. cbn [replicate concat]. rewrite zlen_app, IH. lia.
Qed.

Definition volume (l : list qstr) : Z := fold_right (fun s acc => zlen s + acc) 0 l.

Lemma volume_snoc l s : volume (l ++ [s]) = volume l + zlen s.
Proof. unfold volume. induction l as [|x l IH]; cbn in *; lia. Qed.

Lemma charBlocks_loop_bounded fuel base maxMult step : forall k out emitted,
  base <> [] -> 1 <= step -> 1 <= k -> maxMult + step <= INT_MAX ->
  emitted = volume out -> emitted <= kMaxChars -> zlen out <= kMaxCount -> kMaxCount < Z.of_nat fuel + zlen out ->
  exists r, charBlocks_loop fuel base k maxMult step out emitted = Some r /\ volume r <= kMaxChars /\ zlen r <= kMaxCount.
Proof.
  induction fuel as [|fuel IH]; intros k out emitted Hb Hs Hk Hm He Hv Hz Hf; [lia|]. cbn [charBlocks_loop].
  destruct (k <=? maxMult) eqn:Ek; to_prop; cbn [andb]; [|exists out; repeat split; lia].
  destruct (zlen out <? kMaxCount) eqn:Ez; to_prop; [|exists out; repeat split; lia].
  destruct (kMaxChars <? _) eqn:Ev; to_prop; [exists out; repeat split; lia|]. zdecide.
  apply IH; try done; rewrite ?volume_snoc, ?zlen_repeated; autorewrite with nlsize; lia.
Qed.

(** When the last step cannot overflow, the generator ends within both caps. *)
Lemma charBlocks_bounded base minMult maxMult step :
  maxMult + step <= INT_MAX ->
  exists r, charBlocks base minMult maxMult step = Some r /\ volume r <= kMaxChars /\ zlen r <= kMaxCount.
Proof.
  intros Hm. unfold charBlocks. destruct (is_nil base) eqn:Eb; [by exists []|].
  destruct (step <? 1) eqn:Es; to_prop; cbn [orb]; [by exists []|]. destruct (maxMult <? _); [by exists []|].
  apply charBlocks_loop_bounded; try done.
  - by destruct base.
  - case_if E; to_prop; lia.
Qed.

(** Without that bound the loop counter overflows, which the JSON interface
    allows: [{"base":"A","minMult":1,"maxMult":2147483647,"step":2147483647}]. *)
Theorem charBlocks_overflow : charBlocks (lit "A") 1 INT_MAX INT_MAX = None.
Proof. vm_compute. reflexivity. Qed.

(** ** Brute force *)

Lemma tick_ones n : tick (replicate n 1%nat) (replicate n 0%nat) = (true, replicate n 0%nat).
Proof. induction n as [|n IH]; [done|]. cbn [replicate tick]. by rewrite IH. Qed.

Lemma odometer_ones n : odometer (fun _ => 1%nat) (replicate n 0%nat) n = None.
Proof.
  pose proof (odometer_tick (fun _ => 1%nat) n (replicate n 0%nat) [] (length_replicate n 0%nat)) as Ho.
  rewrite app_nil_r in Ho. rewrite Ho.
  assert (Hm : forall k, map (fun _ : nat => 1%nat) (seq k n) = replicate n 1%nat).
  { clear Ho. induction n as [|n IH]; intros k; [done|]. cbn. by rewrite IH. }
  by rewrite Hm, tick_ones.
Qed.

(** The caps of [brute] are tested before a string is built and not against its
    length: a single string is as long as the caller asks. *)
Theorem brute_unbounded `{QtUcs4} charset cp len :
  charset <> [] -> u_toucs4 charset = [cp] -> 1 <= len < INT_MAX ->
  brute charset len len = Some [concat (replicate (Z.to_nat len) (u_fromucs4 cp))].
Proof.
  intros Hc Hu Hl. unfold brute. destruct (is_nil charset) eqn:E; [by apply is_nil_true in E|].
  rewrite (proj2 (Z.ltb_ge len 1)), (proj2 (Z.ltb_ge len len)) by lia. rewrite Hu.
  assert (Hword : brute_word [cp] (replicate (Z.to_nat len) 0%nat) = concat (replicate (Z.to_nat len) (u_fromucs4 cp))).
  { unfold brute_word. induction (Z.to_nat len) as [|m IH]; [done|]. cbn [replicate flat_map concat nth]. by f_equal. }
  assert (Hlen : brute_len (S (Z.to_nat kMaxCount)) [cp] (Z.to_nat len) (replicate (Z.to_nat len) 0%nat) [] 0
                 = Some ([concat (replicate (Z.to_nat len) (u_fromucs4 cp))], len)).
  { cbn [brute_len]. rewrite zlen_nil. change ((0 <? kMaxCount) && (0 <? kMaxChars)) with true.
    cbn [length]. rewrite odometer_ones, Hword, Z2Nat.id by lia. done. }
  assert (Hfuel : exists f, Z.to_nat kMaxCount = S f) by (by exists (Z.to_nat 99999)).
  destruct Hfuel as [f Hf]. rewrite Hf at 1. cbn [brute_loop]. rewrite zlen_nil, Z.leb_refl, Hlen.
  change (true && (0 <? kMaxCount) && (0 <? kMaxChars)) with true. cbn iota.
  rewrite (proj2 (Z.ltb_ge INT_MAX (len + 1))), (proj2 (Z.leb_gt (len + 1) len)) by lia. done.
Qed.
