(* ===== verification/IntruderRules.v ===== *)
(** * Payload-processing rules: Src/Core/Networking/intruder_rules.cpp

    A generated payload runs through a chain of rules before it is substituted into
    the request.  The local rules are written out; every other operation is the
    decoder workbench's ([Transcode]).  The global matches of a regular expression and
    [QChar]'s decimal digits are parameters ([QtGlobal]). *)

From S2P Require Import Prelude Qt QtSample QMap Json JsonSample ChainRunner Utf8 SessionRules Transcode.

Local Open Scope Z_scope.

(** One match: [capturedStart], [capturedEnd] and the captured texts 0, 1, ... up to
    [lastCapturedIndex]. *)
Record RxMatch := mkRx { rm_start : nat; rm_end : nat; rm_caps : list qstr }.

(** [QRegularExpression(pattern)] without options: validity and all the matches of
    [globalMatch], of which the first is the match of [match]; [isDigit] with
    [digitValue]. *)
Class QtGlobal := {
  rg_valid : qstr -> bool;
  rg_global : qstr -> qstr -> list RxMatch;
  u_digit : Z -> option Z
}.

(** The matches of a subject from offset [from]: in order, disjoint, within the
    subject, and text 0 is what was matched. *)
Fixpoint matches_from (s : qstr) (from : nat) (ms : list RxMatch) : Prop :=
  match ms with
  | [] => True
  | m :: ms' =>
      (from <= rm_start m <= rm_end m)%nat /\ (rm_end m <= length s)%nat /\
      head (rm_caps m) = Some (mid s (rm_start m) (rm_end m - rm_start m)) /\ matches_from s (rm_end m) ms'
  end.

Class QtGlobalLaws (G : QtGlobal) : Prop := {
  law_global p s : rg_valid p = true -> matches_from s 0 (rg_global p s);
  law_digit_ascii c : is_ascii c = true -> u_digit c = if is_digit c then Some (c - 48) else None
}.

Record Rule := mkRule { ru_op : qstr; ru_arg : qstr }.

Section Rules.
Context {Q : QtText} {U : QtUcs4} {C : QtCodecs} {J : QtJson} {G : QtGlobal}.

Definition properCaseRule (s : qstr) (lowerRest : bool) : qstr :=
  match u_toucs4 s with
  | [] => s
  | first :: others =>
      let rest := flat_map u_fromucs4 others in
      u_upper (u_fromucs4 first) ++ if lowerRest then u_lower rest else rest
  end.

(** [arg.left(sep)] and [arg.mid(sep + 1)] around the unit separator. *)
Definition split_us (arg : qstr) : option (qstr * qstr) :=
  match index_of 31 arg with Some sep => Some (take sep arg, drop (S sep) arg) | None => None end.

Definition matchReplace (value arg : qstr) : qstr :=
  match split_us arg with
  | None => value
  | Some (find, repl) => if is_nil find then value else replace_all find repl value
  end.

(** The replacement with its references to captured texts. *)
Fixpoint expand (repl : qstr) (caps : list qstr) : qstr :=
  match repl with
  | [] => []
  | x :: r =>
      if x =? 36 then
        match r with
        | [] => [x]
        | c :: r' =>
            if c =? 36 then 36 :: expand r' caps
            else match u_digit c with
                 | Some d => nth (Z.to_nat d) caps [] ++ expand r' caps
                 | None => x :: expand r caps
                 end
        end
      else x :: expand r caps
  end.

(** The loop over the matches, [guard] of them at most, then the text behind the last. *)
Fixpoint regex_loop (ms : list RxMatch) (guard : Z) (value repl : qstr) (lastEnd : nat) (out : qstr) : qstr :=
  match ms with
  | [] => out ++ drop lastEnd value
  | m :: ms' =>
      if guard <? 200000 then
        regex_loop ms' (guard + 1) value repl (rm_end m)
          (out ++ mid value lastEnd (rm_start m - lastEnd) ++ expand repl (rm_caps m))
      else out ++ drop lastEnd value
  end.

Definition regexReplace (value arg : qstr) : qstr :=
  match split_us arg with
  | None => value
  | Some (pat, repl) =>
      if is_nil pat then value
      else if negb (rg_valid pat) then value
      else regex_loop (rg_global pat value) 0 value repl 0 []
  end.

(** [QStringLiteral("%1").arg(b, 2, 16, QLatin1Char('0')).toUpper()] after a '%'. *)
Definition pct_upper (b : Z) : qstr := 37 :: u_upper (hex_byte b).
Definition urlEncodeChars (value arg : qstr) : qstr :=
  if is_nil arg then value
  else
    let targets := u_toucs4 arg in
    flat_map (fun cp => if bool_decide (cp ∈ targets) then flat_map pct_upper (u_toutf8 (u_fromucs4 cp)) else u_fromucs4 cp)
      (u_toucs4 value).

(** Offset and optional length of the two slice rules, [None] when malformed. *)
Definition slice_args (arg : qstr) : option (Z * option Z) :=
  let a := split_on 44 arg in
  match u_toint 10 (u_trimmed (nth 0 a [])) with
  | None => None
  | Some off =>
      if off <? 0 then None
      else if 1 <? zlen a then
        match u_toint 10 (u_trimmed (nth 1 a [])) with
        | None => None
        | Some len => if len <? 0 then None else Some (off, Some len)
        end
      else Some (off, None)
  end.

(** Start and number of code points, of [n]. *)
Definition slice_window (fromEnd : bool) (off : Z) (len : option Z) (n : Z) : Z * Z :=
  if negb fromEnd then
    let start := Z.min off n in
    (start, match len with Some l => Z.min l (n - start) | None => n - start end)
  else
    let end_ := Z.max 0 (Z.min (n - off) n) in
    let count := match len with Some l => Z.min l end_ | None => end_ end in
    (end_ - count, count).

Definition substringRule (value arg : qstr) (fromEnd : bool) : qstr :=
  match slice_args arg with
  | None => value
  | Some (off, len) =>
      let cps := u_toucs4 value in
      let '(start, count) := slice_window fromEnd off len (zlen cps) in
      if count <=? 0 then value
      else flat_map u_fromucs4 (take (Z.to_nat count) (drop (Z.to_nat start) cps))
  end.

(** [applyRule(value, rule, original)]. *)
Definition applyRule (value : qstr) (rule : Rule) (original : qstr) : qstr :=
  let op := u_lower (u_trimmed (ru_op rule)) in
  if is_nil op then value
  else if seq_eqb op (lit "add-raw-payload") then value ++ original
  else if seq_eqb op (lit "prefix") then ru_arg rule ++ value
  else if seq_eqb op (lit "suffix") then value ++ ru_arg rule
  else if seq_eqb op (lit "uppercase") then u_upper value
  else if seq_eqb op (lit "lowercase") then u_lower value
  else if seq_eqb op (lit "propername") then properCaseRule value true
  else if seq_eqb op (lit "propername-keep") then properCaseRule value false
  else if seq_eqb op (lit "reverse") then flat_map u_fromucs4 (rev (u_toucs4 value))
  else if seq_eqb op (lit "match-replace") then matchReplace value (ru_arg rule)
  else if seq_eqb op (lit "regex-replace") then regexReplace value (ru_arg rule)
  else if seq_eqb op (lit "url-encode-chars") then urlEncodeChars value (ru_arg rule)
  else if seq_eqb op (lit "substring") then substringRule value (ru_arg rule) false
  else if seq_eqb op (lit "reverse-substring") then substringRule value (ru_arg rule) true
  else let r := Transcode.apply op value in if r_ok r then r_output r else value.

Definition is_skip_rule (r : Rule) : bool := seq_eqb (u_lower (u_trimmed (ru_op r))) (lit "skip-if-matches").
(** The rule drops the running value. *)
Definition skip_hit (r : Rule) (out : qstr) : bool :=
  negb (is_nil (ru_arg r)) && rg_valid (ru_arg r) && negb (is_nil (rg_global (ru_arg r) out)).

(** [applyRules(value, rules, &skipped)] with the flag it leaves; [aware] says whether a
    pointer was passed. *)
Fixpoint chain_loop (aware : bool) (rules : list Rule) (original out : qstr) : qstr * bool :=
  match rules with
  | [] => (out, false)
  | r :: rules' =>
      if is_skip_rule r then
        if aware && skip_hit r out then (out, true) else chain_loop aware rules' original out
      else chain_loop aware rules' original (applyRule out r original)
  end.
Definition applyRulesSkip (value : qstr) (rules : list Rule) : qstr * bool := chain_loop true rules value value.
Definition applyRules (value : qstr) (rules : list Rule) : qstr := fst (chain_loop false rules value value).

Definition operations : list qstr :=
  map lit ["prefix"; "suffix"; "uppercase"; "lowercase"; "propername"; "propername-keep"; "reverse"; "match-replace";
    "regex-replace"; "add-raw-payload"; "substring"; "reverse-substring"; "url-encode-chars"; "skip-if-matches";
    "base64-encode"; "base64url-encode"; "url-encode"; "hex-encode"; "html-encode"; "unicode-escape"; "rot13";
    "base64-decode"; "base64url-decode"; "url-decode"; "hex-decode"; "html-decode"; "md5"; "sha1"; "sha256"; "sha512"]%string.

(** ** Chains *)

(** One rule of a chain as a transformation of the running value. *)
Definition rule_step (original : qstr) (out : qstr) (r : Rule) : qstr :=
  if is_skip_rule r then out else applyRule out r original.
Definition running (original : qstr) (rules : list Rule) (out : qstr) : qstr := fold_left (rule_step original) rules out.
Definition drops (r : Rule) (out : qstr) : bool := is_skip_rule r && skip_hit r out.

Lemma chain_loop_cons aware r rules original out :
  chain_loop aware (r :: rules) original out =
  if aware && drops r out then (out, true) else chain_loop aware rules original (rule_step original out r).
Proof. cbn [chain_loop]. unfold drops, rule_step. destruct (is_skip_rule r), aware; done. Qed.

Lemma chain_loop_plain rules original out : chain_loop false rules original out = (running original rules out, false).
Proof.
  revert out. induction rules as [|r rules IH]; intros out; [done|]. rewrite chain_loop_cons. cbn [andb]. by rewrite IH.
Qed.

(** No skip rule fires on the value the rules before it produced. *)
Definition survives (original : qstr) (rules : list Rule) (out : qstr) : Prop :=
  forall pre r post, rules = pre ++ r :: post -> drops r (running original pre out) = false.

Lemma survives_cons original r rules out :
  survives original (r :: rules) out <-> drops r out = false /\ survives original rules (rule_step original out r).
Proof.
  split.
  - intros H. split; [by apply (H [] r rules)|]. intros pre r' post ->. by apply (H (r :: pre) r' post).
  - intros [H1 H2] [|r0 pre] r' post E; simplify_eq/=; [done|]. by apply (H2 pre r' post).
Qed.

Lemma chain_loop_aware rules original out :
  (survives original rules out /\ chain_loop true rules original out = (running original rules out, false)) \/
  (exists pre r post, rules = pre ++ r :: post /\ drops r (running original pre out) = true /\
     survives original pre out /\ chain_loop true rules original out = (running original pre out, true)).
Proof.
  revert out. induction rules as [|r rules IH]; intros out.
  { left. split; [|done]. intros pre r post E. by destruct pre. }
  rewrite chain_loop_cons. cbn [andb]. destruct (drops r out) eqn:Ed.
  - right. exists [], r, rules. split_and!; [done..| |done]. intros pre r' post E. by destruct pre.
  - destruct (IH (rule_step original out r)) as [[Hs E]|(pre & r' & post & -> & Hd & Hs & E)].
    + left. rewrite survives_cons. by rewrite E.
    + right. exists (r :: pre), r', post. rewrite survives_cons. by rewrite E.
Qed.

(** A chain threads each rule's output into the next with the untouched payload as
    the second input of every rule.  The skip-aware form drops the payload exactly
    when a skip rule fires on the value the rules before it produced, at the first
    such rule and with the value it saw; otherwise, and for callers that cannot
    drop, the result is the whole chain's and skip rules change nothing. *)
Theorem rules_chain value rules :
  applyRules value rules = running value rules value /\
  (survives value rules value -> applyRulesSkip value rules = (applyRules value rules, false)) /\
  (~ survives value rules value ->
   exists pre r post, rules = pre ++ r :: post /\ drops r (applyRules value pre) = true /\
     survives value pre value /\ applyRulesSkip value rules = (applyRules value pre, true)).
Proof.
  assert (E : forall rs, applyRules value rs = running value rs value) by (intros; unfold applyRules; by rewrite chain_loop_plain).
  split; [done|]. unfold applyRulesSkip. destruct (chain_loop_aware rules value value) as [[Hs Hr]|(pre & r & post & -> & Hd & Hs & Hr)].
  - rewrite Hr, E. by split.
  - rewrite Hr. split.
    + intros Hsv. exfalso. specialize (Hsv pre r post eq_refl). congruence.
    + intros _. exists pre, r, post. by rewrite E.
Qed.

(** ** Dispatch *)

(** The local operations with what they run on value, argument and original payload. *)
Definition local_table : list (String.string * (qstr -> qstr -> qstr -> qstr)) :=
  [("add-raw-payload"%string, fun v _ o => v ++ o); ("prefix"%string, fun v a _ => a ++ v); ("suffix"%string, fun v a _ => v ++ a);
   ("uppercase"%string, fun v _ _ => u_upper v); ("lowercase"%string, fun v _ _ => u_lower v);
   ("propername"%string, fun v _ _ => properCaseRule v true); ("propername-keep"%string, fun v _ _ => properCaseRule v false);
   ("reverse"%string, fun v _ _ => flat_map u_fromucs4 (rev (u_toucs4 v)));
   ("match-replace"%string, fun v a _ => matchReplace v a); ("regex-replace"%string, fun v a _ => regexReplace v a);
   ("url-encode-chars"%string, fun v a _ => urlEncodeChars v a);
   ("substring"%string, fun v a _ => substringRule v a false); ("reverse-substring"%string, fun v a _ => substringRule v a true)].

Lemma applyRule_table value rule original :
  applyRule value rule original =
  let op := u_lower (u_trimmed (ru_op rule)) in
  if is_nil op then value
  else match List.find (fun e => seq_eqb op (lit (fst e))) local_table with
       | Some e => snd e value (ru_arg rule) original
       | None => let r := Transcode.apply op value in if r_ok r then r_output r else value
       end.
Proof.
  unfold applyRule. cbv zeta. set (o := u_lower (u_trimmed (ru_op rule))). destruct (is_nil o); [done|].
  unfold local_table. cbn [List.find fst snd].
  repeat (match goal with |- (if ?b then _ else _) = _ => destruct b; [reflexivity|] end). done.
Qed.

(** ** Slices, reversal *)

Section Points.
Context {L : QtTextLaws Q} {LU : QtUcs4Laws Q U}.

(** An operation in its advertised spelling. *)
Lemma op_canonical s : all_ascii s = true -> map ascii_lower1 (b_trimmed s) = s -> u_lower (u_trimmed s) = s.
Proof.
  intros Ha E. assert (Hb : all_ascii (b_trimmed s) = true) by (eapply all_ascii_incl; [exact Ha|]; intros c; apply trim_by_incl).
  by rewrite u_trimmed_ascii, law_lower_ascii.
Qed.

Lemma applyRule_named name f value arg original :
  (name, f) ∈ local_table -> applyRule value (mkRule (lit name) arg) original = f value arg original.
Proof.
  intros H. rewrite applyRule_table. cbn [ru_op ru_arg].
  assert (Hall : Forall (fun e : String.string * (qstr -> qstr -> qstr -> qstr) => all_ascii (lit (fst e)) = true /\
             map ascii_lower1 (b_trimmed (lit (fst e))) = lit (fst e) /\ is_nil (lit (fst e)) = false /\
             List.find (fun e' => seq_eqb (lit (fst e)) (lit (fst e'))) local_table = Some e) local_table).
  { unfold local_table. repeat (apply List.Forall_cons; [by repeat split|]). by constructor. }
  rewrite Forall_forall in Hall. destruct (Hall _ H) as (Ha & Hl & Hn & Hf). cbn [fst] in *.
  rewrite op_canonical, Hn, Hf by done. done.
Qed.

Lemma text_of_points cps : Forall valid_cp cps -> u_toucs4 (flat_map u_fromucs4 cps) = cps.
Proof. intros H. by apply law_ucs4_points. Qed.

Lemma points_valid s : wf_utf16 s = true -> Forall valid_cp (u_toucs4 s).
Proof. intros H. by apply law_ucs4_text. Qed.

Lemma points_text s : wf_utf16 s = true -> flat_map u_fromucs4 (u_toucs4 s) = s.
Proof. intros H. by apply law_ucs4_text. Qed.

Lemma points_nonempty s : wf_utf16 s = true -> s <> [] -> u_toucs4 s <> [].
Proof. intros H Hs E. apply Hs. by rewrite <- (points_text s H), E. Qed.

(** The slice rules cut a window of whole code points out of the payload: the
    substring rule skips [off] of them, the reverse rule leaves [off] behind, at most
    [len] are kept, and never none of them.  Malformed arguments and empty windows
    leave the payload as it was. *)
Theorem slice_rules value arg fromEnd :
  wf_utf16 value = true ->
  let out := substringRule value arg fromEnd in
  let cps := u_toucs4 value in
  wf_utf16 out = true /\ (value <> [] -> out <> []) /\
  match slice_args arg with
  | None => out = value
  | Some (off, len) =>
      0 <= off /\
      let kept := (if fromEnd then Z.max 0 (zlen cps - off) else zlen cps - Z.min off (zlen cps)) in
      let count := match len with Some l => Z.min l kept | None => kept end in
      if count <=? 0 then out = value
      else exists pre post, cps = pre ++ u_toucs4 out ++ post /\ zlen (u_toucs4 out) = count /\
             (if fromEnd then zlen post = off else zlen pre = off)
  end.
Proof.
  intros Hw. cbv zeta. unfold substringRule. destruct (slice_args arg) as [[off len]|] eqn:Ea; [|done].
  assert (Ho : 0 <= off /\ match len with Some l => 0 <= l | None => True end).
  { revert Ea. unfold slice_args. repeat case_match; intros; simplify_eq; to_prop; lia. }
  set (cps := u_toucs4 value). set (n := zlen cps). pose proof (zlen_nonneg cps) as Hn. fold n in Hn.
  set (kept := if fromEnd then _ else _). set (count := match len with Some l => _ | None => _ end).
  assert (Ew : slice_window fromEnd off len n = (if fromEnd then Z.max 0 (n - off) - count else Z.min off n, count)).
  { unfold slice_window, count, kept. destruct fromEnd; cbn [negb]; destruct len; f_equal; lia. }
  rewrite Ew. assert (Hcv : Forall valid_cp cps) by (by apply points_valid).
  destruct (count <=? 0) eqn:Ec; [split_and!; [done..|lia|done]|]. to_prop.
  set (start := if fromEnd then _ else _).
  assert (Hs : 0 <= start /\ start + count <= n).
  { unfold start, count, kept in *. destruct fromEnd, len; lia. }
  set (w := take (Z.to_nat count) (drop (Z.to_nat start) cps)).
  assert (Hwv : Forall valid_cp w) by (by apply Forall_take, Forall_drop).
  assert (Hwl : zlen w = count).
  { unfold w, zlen. rewrite length_take, length_drop. unfold n, zlen in Hs. lia. }
  destruct (law_ucs4_points w Hwv) as [Ew1 Ew2]. split_and!; [done| |lia|].
  - intros _ Hnil. rewrite Hnil in Ew1. assert (E0 : u_toucs4 [] = []).
    { change (@nil Z) with (flat_map u_fromucs4 []). apply text_of_points. by constructor. }
    rewrite E0 in Ew1. rewrite <- Ew1 in Hwl. unfold zlen in Hwl. cbn in Hwl. lia.
  - exists (take (Z.to_nat start) cps), (drop (Z.to_nat count) (drop (Z.to_nat start) cps)). rewrite Ew1.
    split_and!; [unfold w; by rewrite take_drop, take_drop|done|].
    unfold start, count, kept, n, zlen in *. destruct fromEnd; rewrite ?length_take, ?length_drop; destruct len; lia.
Qed.

(** Reversal works on code points: it is its own inverse on well-formed text and
    keeps the text well formed. *)
Theorem reverse_rule value original arg :
  wf_utf16 value = true ->
  let rv v := applyRule v (mkRule (lit "reverse") arg) original in
  rv (rv value) = value /\ wf_utf16 (rv value) = true /\ u_toucs4 (rv value) = rev (u_toucs4 value).
Proof.
  intros Hw. cbv beta zeta. rewrite !(applyRule_named "reverse"%string (fun v _ _ => flat_map u_fromucs4 (rev (u_toucs4 v)))) by (unfold local_table; repeat (left || right)).
  assert (Hv : Forall valid_cp (rev (u_toucs4 value))) by (by apply List.Forall_rev, points_valid).
  destruct (law_ucs4_points _ Hv) as [E1 E2]. rewrite E1, rev_involutive. split_and!; [by apply points_text|done|done].
Qed.
End Points.

(** ** Selective percent encoding *)

Section Encode.
Context {L : QtTextLaws Q} {LU : QtUcs4Laws Q U} {LC : QtCodecsLaws C} {L8 : QtUtf8 Q} {LT : QtUtf8Text Q}.

(** The escape of an octet: capital digits, as the percent encoder of Qt writes it. *)
Definition pct_octet (b : Z) : bytes := [37; hex_upper (b / 16); hex_upper (b mod 16)].

Definition octet_escape_ok (b : Z) : bool :=
  seq_eqb (37 :: map ascii_upper1 (hex_byte b)) (pct_octet b) && all_ascii (hex_byte b) && forallb graphic (pct_octet b)
  && forallb (fun c => (c =? 37) || is_digit c || ((65 <=? c) && (c <=? 70))) (pct_octet b).
Lemma octet_escape b : is_byte b -> octet_escape_ok b = true.
Proof. apply (all_octets octet_escape_ok). by vm_compute. Qed.

Lemma pct_upper_octet b : is_byte b -> pct_upper b = pct_octet b.
Proof.
  intros Hb. apply octet_escape in Hb. unfold octet_escape_ok in Hb. split_bools. unfold pct_upper.
  rewrite law_upper_ascii by done. by apply seq_eqb_eq.
Qed.

Lemma ascii_point c : is_ascii c = true -> valid_cp c /\ u_fromucs4 c = [c] /\ u_toutf8 [c] = [c].
Proof.
  intros Hc. pose proof Hc as Ha. unfold is_ascii in Ha. split_bools. to_prop. assert (Hv : valid_cp c) by (unfold valid_cp; lia).
  split; [done|]. rewrite law_ucs4_units by done. zdecide. split; [done|]. apply law_toutf8_ascii. unfold all_ascii. cbn [forallb]. by rewrite Hc.
Qed.

Lemma pct_octet_ascii b : is_byte b -> Forall (fun c => is_ascii c = true) (pct_octet b).
Proof.
  intros Hb. apply octet_escape in Hb. unfold octet_escape_ok in Hb. split_bools.
  apply List.Forall_forall. intros c Hc. match goal with H : forallb graphic _ = true |- _ => rewrite forallb_forall in H; by apply H, graphic_spec in Hc as [] end.
Qed.

(** The code points the rule writes for one of the payload. *)
Definition encoded_points (targets : list Z) (cp : Z) : list Z :=
  if bool_decide (cp ∈ targets) then flat_map pct_octet (u_toutf8 (u_fromucs4 cp)) else [cp].

Lemma ascii_points_text l : Forall (fun c => is_ascii c = true) l -> flat_map u_fromucs4 l = l /\ Forall valid_cp l /\
  flat_map (fun c => u_toutf8 (u_fromucs4 c)) l = l.
Proof.
  induction 1 as [|c l Hc _ (I1 & I2 & I3)]; [done|]. destruct (ascii_point c Hc) as (Hv & Hu & H8).
  cbn [flat_map]. rewrite I1, I3, Hu, H8. split_and!; [done|by constructor|done].
Qed.

Lemma escapes_ascii b : wf_bytes b -> Forall (fun c => is_ascii c = true) (flat_map pct_octet b).
Proof.
  induction 1 as [|c b Hc _ IH]; [by constructor|]. cbn [flat_map]. apply Forall_app. split; [by apply pct_octet_ascii|done].
Qed.

Lemma urlEncodeChars_points value arg :
  wf_utf16 value = true -> arg <> [] ->
  urlEncodeChars value arg = flat_map u_fromucs4 (flat_map (encoded_points (u_toucs4 arg)) (u_toucs4 value)) /\
  Forall valid_cp (flat_map (encoded_points (u_toucs4 arg)) (u_toucs4 value)).
Proof.
  intros Hw Ha. unfold urlEncodeChars. destruct (is_nil arg) eqn:En; [by apply is_nil_true in En|].
  pose proof (points_valid value Hw) as Hv. set (cps := u_toucs4 value) in *. clearbody cps.
  induction Hv as [|cp cps Hc _ [I1 I2]]; [split; [done|by constructor]|]. cbn [flat_map]. rewrite flat_map_app, I1.
  set (tl := flat_map (encoded_points (u_toucs4 arg)) cps) in *. unfold encoded_points. destruct (bool_decide (cp ∈ u_toucs4 arg)); cbn [flat_map].
  - pose proof (law_toutf8_bytes (u_fromucs4 cp)) as Hb. pose proof (escapes_ascii _ Hb) as He.
    destruct (ascii_points_text _ He) as (E1 & E2 & _). rewrite E1. split; [|by apply Forall_app].
    f_equal. clear - Hb L. induction Hb as [|b l Hb _ IH]; [done|]. cbn [flat_map]. by rewrite pct_upper_octet, IH.
  - rewrite app_nil_r. split; [done|]. by constructor.
Qed.

(** The octets of the result, each with whether it is escaped. *)
Definition tagged_octets (targets : list Z) (cps : list Z) : list (bool * Z) :=
  flat_map (fun cp => map (fun b => (bool_decide (cp ∈ targets), b)) (u_toutf8 (u_fromucs4 cp))) cps.

Lemma encoded_octets targets cps :
  Forall valid_cp cps ->
  flat_map (fun cp => u_toutf8 (u_fromucs4 cp)) (flat_map (encoded_points targets) cps) = pct_text (tagged_octets targets cps) /\
  map snd (tagged_octets targets cps) = flat_map (fun cp => u_toutf8 (u_fromucs4 cp)) cps.
Proof.
  induction 1 as [|cp cps Hc _ [I1 I2]]; [done|]. unfold tagged_octets. cbn [flat_map]. fold (tagged_octets targets cps).
  rewrite flat_map_app, map_app, I1, I2. unfold pct_text. rewrite flat_map_app. fold (pct_text (tagged_octets targets cps)).
  split; f_equal; [|rewrite map_map; cbn [snd]; apply map_id].
  unfold encoded_points. destruct (bool_decide _).
  - pose proof (law_toutf8_bytes (u_fromucs4 cp)) as Hb.
    destruct (ascii_points_text _ (escapes_ascii _ Hb)) as (_ & _ & ->). induction (u_toutf8 (u_fromucs4 cp)) as [|b l IH]; [done|].
    cbn [flat_map map fst snd]. apply Forall_cons in Hb as [_ Hb]. by rewrite IH.
  - cbn [flat_map]. rewrite app_nil_r. induction (u_toutf8 (u_fromucs4 cp)) as [|b l IH]; [done|]. cbn [map flat_map fst snd app]. by rewrite <- IH.
Qed.

Lemma tagged_safe targets cps :
  37 ∈ targets -> Forall valid_cp cps -> Forall (fun e => is_byte (snd e) /\ (snd e = 37 -> fst e = true)) (tagged_octets targets cps).
Proof.
  intros Ht Hv. unfold tagged_octets. apply List.Forall_forall. intros [e b] Hin. apply in_flat_map in Hin as (cp & Hcp & Hin).
  apply in_map_iff in Hin as (b' & E & Hb). injection E as <- <-. cbn [fst snd].
  rewrite List.Forall_forall in Hv. specialize (Hv cp Hcp). pose proof (law_toutf8_bytes (u_fromucs4 cp)) as Hw.
  unfold wf_bytes in Hw. rewrite List.Forall_forall in Hw. split; [by apply Hw|]. intros ->. apply bool_decide_eq_true_2.
  destruct (law_toutf8_low (u_fromucs4 cp) 37) as [Hi|]; [by apply list_elem_of_In|lia| |done].
  rewrite law_ucs4_units in Hi by done. destruct (cp <? 65536) eqn:E.
  - apply list_elem_of_singleton in Hi as <-. done.
  - to_prop. unfold valid_cp in Hv. assert (Hr : 65536 <= cp < 1114112) by lia. unfold pair_units in Hi.
    pose proof (Z.div_pos (cp - 65536) 1024 ltac:(lia) ltac:(lia)). pose proof (Z.mod_pos_bound (cp - 65536) 1024 ltac:(lia)).
    rewrite !elem_of_cons, elem_of_nil in Hi. destruct Hi as [Hi|[Hi|[]]]; lia.
Qed.

(** Escaping a set of characters that includes the percent sign loses nothing: percent
    decoding the result gives the payload back.  Whatever the set, no listed
    character is left in the result but the percent sign and the digits the escapes
    are made of. *)
Theorem url_encode_chars_roundtrip value arg original :
  wf_utf16 value = true -> arg <> [] ->
  let out := applyRule value (mkRule (lit "url-encode-chars") arg) original in
  wf_utf16 out = true /\
  (37 ∈ u_toucs4 arg -> Transcode.apply (lit "url-decode") out = Transcode.ok value) /\
  (forall cp, cp ∈ u_toucs4 arg -> cp ∈ u_toucs4 out -> cp = 37 \/ is_digit cp = true \/ 65 <= cp <= 70).
Proof.
  intros Hw Ha. cbv zeta.
  rewrite (applyRule_named "url-encode-chars"%string (fun v a _ => urlEncodeChars v a)) by (unfold local_table; repeat (left || right)).
  destruct (urlEncodeChars_points value arg Hw Ha) as [E Hv]. rewrite E. destruct (law_ucs4_points _ Hv) as [E1 E2].
  split; [done|]. split.
  - intros Ht. erewrite apply_named by (unfold op_table; repeat (left || right)). unfold urlDecode. f_equal.
    pose proof (points_valid value Hw) as Hpv.
    rewrite law_ucs4_utf8 by done. destruct (encoded_octets (u_toucs4 arg) _ Hpv) as [-> Es].
    rewrite law_pct_decode by (by apply tagged_safe). rewrite Es, <- law_ucs4_utf8, points_text by done. by apply law_utf8_text.
  - intros cp Hcp. rewrite E1. intros Hin. apply list_elem_of_In, in_flat_map in Hin as (c & Hc & Hin).
    unfold encoded_points in Hin. destruct (bool_decide (c ∈ u_toucs4 arg)) eqn:Eb.
    + apply in_flat_map in Hin as (b & Hb & Hin). pose proof (law_toutf8_bytes (u_fromucs4 c)) as Hby. unfold wf_bytes in Hby.
      rewrite List.Forall_forall in Hby. pose proof (octet_escape b (Hby b Hb)) as Ho. unfold octet_escape_ok in Ho. split_bools.
      match goal with H : forallb (fun _ => _ || _) _ = true |- _ => rewrite forallb_forall in H; specialize (H cp Hin) end.
      repeat match goal with H : _ || _ = true |- _ => apply orb_true_iff in H as [H|H] end; split_bools; to_prop; tauto.
    + destruct Hin as [->|[]]. apply bool_decide_eq_false in Eb. by destruct Eb.
Qed.
End Encode.

(** ** Regular expressions, failures *)

Section Regex.
Context {L : QtTextLaws Q} {LU : QtUcs4Laws Q U} {LG : QtGlobalLaws G} {LT : QtUtf8Text Q}.

Lemma expand_literal repl caps : 36 ∉ repl -> expand repl caps = repl.
Proof.
  induction repl as [|c repl IH]; [done|]. intros H. apply not_elem_of_cons in H as [Hc H]. cbn [expand].
  rewrite (proj2 (Z.eqb_neq c 36)) by congruence. by rewrite IH.
Qed.

Lemma expand_whole caps : expand (lit "$0") caps = nth 0 caps [].
Proof. change (lit "$0") with [36; 48]. cbn [expand]. change (36 =? 36) with true. change (48 =? 36) with false. cbn match.
  rewrite law_digit_ascii by done. change (is_digit 48) with true. cbn match. by rewrite app_nil_r. Qed.

Lemma mid_mid_drop (s : qstr) a b c : (a <= b <= c)%nat -> (c <= length s)%nat -> mid s a (b - a) ++ mid s b (c - b) ++ drop c s = drop a s.
Proof.
  intros H Hc. unfold mid. rewrite <- (take_drop (b - a) (drop a s)) at 2. f_equal.
  rewrite drop_drop. replace (a + (b - a))%nat with b by lia. rewrite <- (take_drop (c - b) (drop b s)) at 2. f_equal.
  rewrite drop_drop. f_equal. lia.
Qed.

Lemma regex_loop_whole ms : forall guard value from out,
  matches_from value from ms -> (from <= length value)%nat -> regex_loop ms guard value (lit "$0") from out = out ++ drop from value.
Proof.
  induction ms as [|m ms IH]; intros guard value from out Hm Hf; [done|]. cbn [matches_from] in Hm.
  destruct Hm as (Hr & He & Hh & Hm). cbn [regex_loop]. destruct (guard <? 200000); [|done].
  rewrite IH by (done || lia). rewrite expand_whole. destruct (rm_caps m) as [|c cs]; [done|]. injection Hh as ->. cbn [nth].
  rewrite <- !app_assoc. f_equal. apply mid_mid_drop; lia.
Qed.

Lemma split_us_app p r : 31 ∉ p -> split_us (p ++ 31 :: r) = Some (p, r).
Proof.
  intros H. unfold split_us. rewrite index_of_app by done. rewrite take_app_length.
  by rewrite (cons_middle 31 p r), app_assoc, drop_app_length' by (rewrite length_app; cbn; lia).
Qed.

(** Replacing every match of a valid pattern by the whole match is the identity,
    whatever the pattern matches; an argument without a separator, an empty or an
    invalid pattern leave the payload unchanged. *)
Theorem regex_replace_whole value original pat :
  31 ∉ pat ->
  applyRule value (mkRule (lit "regex-replace") (pat ++ 31 :: lit "$0")) original = value /\
  applyRule value (mkRule (lit "regex-replace") pat) original = value /\
  applyRule value (mkRule (lit "match-replace") pat) original = value /\
  (forall repl, pat = [] \/ rg_valid pat = false -> applyRule value (mkRule (lit "regex-replace") (pat ++ 31 :: repl)) original = value).
Proof.
  intros Hp.
  assert (T : forall name f arg, (name, f) ∈ local_table -> applyRule value (mkRule (lit name) arg) original = f value arg original)
    by (intros; by apply applyRule_named).
  rewrite (T "match-replace"%string (fun v a _ => matchReplace v a)), !(T "regex-replace"%string (fun v a _ => regexReplace v a))
    by (unfold local_table; repeat (left || right)).
  assert (Hn : split_us pat = None) by (unfold split_us; by rewrite (proj2 (index_of_None 31 pat))).
  unfold regexReplace, matchReplace. rewrite Hn, split_us_app by done. split_and!; [|done|done|].
  - destruct (is_nil pat); [done|]. destruct (rg_valid pat) eqn:Ev; [|done]. cbn [negb].
    rewrite regex_loop_whole; [done|by apply law_global|lia].
  - intros repl H. rewrite (T "regex-replace"%string (fun v a _ => regexReplace v a)) by (unfold local_table; repeat (left || right)).
    unfold regexReplace. rewrite split_us_app by done.
    destruct H as [-> | ->]; [done|]. cbn [negb]. by destruct (is_nil pat).
Qed.

(** Rules that never empty a payload. *)
Definition keeping_rules : list String.string :=
  ["prefix"; "suffix"; "add-raw-payload"; "reverse"; "substring"; "reverse-substring"; "url-encode-chars"]%string.

(** No advertised operation is unknown to the engine; a rule whose operation is
    unknown, or fails on the value, leaves it unchanged; and the local rules that
    only add, reorder, cut or escape never empty a payload. *)
Theorem rules_fail_safe value original op arg :
  (forall o, o ∈ operations -> o = lit "skip-if-matches" \/ (exists e, e ∈ local_table /\ o = lit (fst e)) \/ o ∈ Transcode.operations) /\
  (u_lower (u_trimmed op) ∉ map (fun e => lit (fst e)) local_table -> r_ok (Transcode.apply (u_lower (u_trimmed op)) value) = false ->
   applyRule value (mkRule op arg) original = value) /\
  (forall name, name ∈ keeping_rules -> wf_utf16 value = true -> value <> [] -> applyRule value (mkRule (lit name) arg) original <> []).
Proof.
  split_and!.
  - intros o Ho.
    assert (H : forall o, o ∈ operations -> o = lit "skip-if-matches" \/ o ∈ map (fun e : String.string * (qstr -> qstr -> qstr -> qstr) => lit (fst e)) local_table \/ o ∈ Transcode.operations).
    { apply Forall_forall. unfold operations. cbn [map].
      repeat (apply List.Forall_cons; [first [by left | right; left; by (cbn [map local_table fst]; repeat (left || right)) | right; right; by (unfold Transcode.operations; cbn [map]; repeat (left || right))]|]).
      by constructor. }
    destruct (H o Ho) as [?|[Hl|?]]; [by left| |by do 2 right]. right. left. apply list_elem_of_In, in_map_iff in Hl as (e & <- & He).
    exists e. split; [by apply list_elem_of_In|done].
  - intros Hl Hf. rewrite applyRule_table. cbn [ru_op ru_arg]. cbv zeta. set (o := u_lower (u_trimmed op)) in *.
    destruct (is_nil o); [done|].
    pose proof (find_name (fun e : String.string * (qstr -> qstr -> qstr -> qstr) => lit (fst e)) o local_table) as Hx.
    destruct (List.find _ local_table) as [e|]; [|by rewrite Hf].
    destruct Hx as [He Ho]. destruct Hl. apply list_elem_of_In, in_map_iff. exists e. split; [done|by apply list_elem_of_In].
  - intros name Hn Hw Hv.
    assert (Hc : flat_map u_fromucs4 (rev (u_toucs4 value)) <> []).
    { pose proof (points_nonempty value Hw Hv) as Hp. pose proof (points_valid value Hw) as Hvd.
      assert (Hr : Forall valid_cp (rev (u_toucs4 value))) by (by apply List.Forall_rev).
      destruct (rev (u_toucs4 value)) as [|c r] eqn:E; [apply (f_equal (@rev Z)) in E; rewrite rev_involutive in E; done|].
      apply Forall_cons in Hr as [Hc _]. cbn [flat_map]. rewrite law_ucs4_units by done. by destruct (c <? 65536). }
    unfold keeping_rules in Hn. rewrite !elem_of_cons, elem_of_nil in Hn.
    repeat (destruct Hn as [->|Hn]; [erewrite applyRule_named by (unfold local_table; repeat (left || right)); cbn beta|]); try done.
    1: by destruct arg. 1-2: by destruct value.
    1: pose proof (slice_rules value arg false Hw) as (_ & Hs & _); by apply Hs.
    1: pose proof (slice_rules value arg true Hw) as (_ & Hs & _); by apply Hs.
    unfold urlEncodeChars. destruct (is_nil arg); [done|]. destruct (u_toucs4 value) as [|c cps] eqn:E; [by apply (points_nonempty value) in E|].
    pose proof (points_valid value Hw) as Hvd. rewrite E in Hvd. apply Forall_cons in Hvd as [Hvc _].
    destruct (law_ucs4_points [c]) as [_ Hwc]; [by constructor|]. cbn [flat_map] in *. rewrite app_nil_r in Hwc.
    assert (Hcn : u_fromucs4 c <> []) by (rewrite law_ucs4_units by done; by destruct (c <? 65536)).
    pose proof (utf8_nonempty _ Hwc Hcn) as H8. destruct (bool_decide _); [|by destruct (u_fromucs4 c)].
    by destruct (u_toutf8 (u_fromucs4 c)).
Qed.
End Regex.
End Rules.

(** ** A concrete instance and witnesses *)

(** Patterns are literal texts; the first occurrence is the only match. *)
Definition sampleGlobal : QtGlobal := {|
  rg_valid p := negb (is_nil p);
  rg_global p s := match index_sub p s with Some i => [mkRx i (i + length p) [p]] | None => [] end;
  u_digit c := if is_digit c then Some (c - 48) else None
|}.

#[export] Instance sampleGlobal_laws : QtGlobalLaws sampleGlobal.
Proof.
  split; [|done]. intros p s _. cbn. destruct (index_sub p s) as [i|] eqn:E; [|done].
  destruct (index_sub_Some _ _ _ E) as (Hi & Hs & _). apply starts_with_spec in Hs as [t Ht].
  assert (Hl : (length p + length t = length s - i)%nat) by (rewrite <- length_app, <- Ht; apply length_drop).
  cbn [matches_from rm_start rm_end rm_caps head]. split_and!; [lia|lia|lia| |done].
  replace (i + length p - i)%nat with (length p) by lia. unfold mid. by rewrite Ht, take_app_length.
Qed.

Section Examples.
#[local] Existing Instance utf8Text.
#[local] Existing Instance sampleUcs4.
#[local] Existing Instance sampleCodecs.
#[local] Existing Instance treeJson.
#[local] Existing Instance sampleGlobal.

Lemma slice_rules_witness :
  wf_utf16 sample_text = true /\
  wf_utf16 (substringRule sample_text (lit "1,2") true) = true /\ substringRule sample_text (lit "1,2") true = [62; 10].
Proof.
  assert (Hw : wf_utf16 sample_text = true) by (vm_compute; reflexivity).
  split; [exact Hw|]. split; [exact (proj1 (slice_rules sample_text (lit "1,2") true Hw))|]. vm_compute. reflexivity.
Defined.

Lemma reverse_rule_witness :
  wf_utf16 sample_text = true /\
  applyRule (applyRule sample_text (mkRule (lit "reverse") []) []) (mkRule (lit "reverse") []) [] = sample_text.
Proof.
  assert (Hw : wf_utf16 sample_text = true) by (vm_compute; reflexivity).
  split; [exact Hw|]. exact (proj1 (reverse_rule sample_text [] [] Hw)).
Defined.

(** Escaping '%', '&' and U+1F600. *)
Lemma url_encode_chars_roundtrip_witness :
  let out := applyRule sample_text (mkRule (lit "url-encode-chars") (lit "%&" ++ [55357; 56832])) [] in
  out = [233; 32; 60] ++ lit "%26>" ++ [10] ++ lit "%F0%9F%98%80" /\
  Transcode.apply (lit "url-decode") out = Transcode.ok sample_text.
Proof.
  assert (Hw : wf_utf16 sample_text = true) by (vm_compute; reflexivity).
  assert (Ha : lit "%&" ++ [55357; 56832] <> []) by discriminate.
  cbv zeta. split; [vm_compute; reflexivity|].
  refine (proj1 (proj2 (url_encode_chars_roundtrip sample_text (lit "%&" ++ [55357; 56832]) [] Hw Ha)) _).
  refine (bool_decide_eq_true_1 _ _). vm_compute. reflexivity.
Defined.

Lemma regex_replace_whole_witness :
  31 ∉ lit "abc" /\ applyRule (lit "xabcx") (mkRule (lit "regex-replace") (lit "abc" ++ 31 :: lit "$0")) [] = lit "xabcx".
Proof.
  assert (H : 31 ∉ lit "abc") by (refine (bool_decide_eq_true_1 _ _); vm_compute; reflexivity).
  split; [exact H|]. exact (proj1 (regex_replace_whole (lit "xabcx") [] (lit "abc") H)).
Defined.

(** Sign-then-send and a skip rule that fires behind a transformation. *)
Example rule_chain_runs :
  applyRules (lit "ab") [mkRule (lit "hex-encode") []; mkRule (lit "Add-Raw-Payload ") []] = lit "6162ab" /\
  applyRulesSkip (lit "ab") [mkRule (lit "hex-encode") []; mkRule (lit "skip-if-matches") (lit "61"); mkRule (lit "prefix") (lit "x")]
    = (lit "6162", true) /\
  applyRule (lit "a-b") (mkRule (lit "match-replace") (lit "-" ++ [31])) [] = lit "ab".
Proof. split_and!; by vm_compute. Qed.
End Examples.
