(* ===== verification/IntruderRuns.v ===== *)
(** * Result grep and saved runs: Src/Core/Networking/intruder_grep.cpp and
      intruder_persist_logic.cpp

    What is looked for in a response ([grepMatch], [payloadReflected], [grepExtract]),
    how an attack is written to JSON and read back, and the plan of a resumption.  A
    combination is a list of options, the null string being [None]; regular
    expressions are [QtGlobal]'s, JSON text is [QtJson]'s. *)

From S2P Require Import Prelude Qt QtSample QMap Json JsonSample Intruder Utf8 SessionRules Transcode IntruderRules.

Local Open Scope Z_scope.

(** ** intruder_grep.cpp *)

Definition kMaxScan : Z := 256 * 1024.

Record ExtractSpec := mkSpec { es_regex : qstr; es_start : qstr; es_end : qstr }.

Definition bounded (text : qstr) : qstr := if kMaxScan <? zlen text then take (Z.to_nat kMaxScan) text else text.

Section Grep.
Context {Q : QtText} {G : QtGlobal}.

Definition needle_hit (hay needle : qstr) : bool :=
  if is_nil needle then false
  else if rg_valid needle then negb (is_nil (rg_global needle hay)) else contains_sub needle hay.
Definition grepMatch (text : qstr) (needles : list qstr) : bool :=
  if is_nil needles then false else existsb (needle_hit (bounded text)) needles.

Definition payloadReflected (text payload : qstr) (caseSensitive : bool) : bool :=
  if is_nil payload then false
  else if caseSensitive then contains_sub payload (bounded text) else u_contains_ci (bounded text) payload.

(** [m.captured(1)] when a group captured, the whole match otherwise. *)
Definition capture_of (m : RxMatch) : qstr :=
  if 1 <=? zlen (rm_caps m) - 1 then nth 1 (rm_caps m) [] else nth 0 (rm_caps m) [].

(** The text between the delimiters. *)
Definition between (hay start end_ : qstr) : qstr :=
  match (if is_nil start then Some 0%nat else (fun s => (s + length start)%nat) <$> index_sub start hay) with
  | None => []
  | Some from =>
      match (if is_nil end_ then Some (length hay) else index_sub_from end_ hay from) with
      | None => []
      | Some to => if (to <? from)%nat then [] else mid hay from (to - from)
      end
  end.

Definition grepExtract (text : qstr) (spec : ExtractSpec) : qstr :=
  let hay := bounded text in
  if negb (is_nil (es_regex spec)) then
    if negb (rg_valid (es_regex spec)) then []
    else match rg_global (es_regex spec) hay with [] => [] | m :: _ => capture_of m end
  else if is_nil (es_start spec) && is_nil (es_end spec) then []
  else between hay (es_start spec) (es_end spec).
End Grep.

(** ** intruder_persist_logic.cpp *)

Definition kFormatVersion : Z := 1.

Record ResultRow := mkRow {
  rr_id : Z; rr_payloadValues : list qstr; rr_combo : list payload; rr_statusCode : Z; rr_responseSize : Z; rr_elapsedMs : Z;
  rr_errorMessage : qstr; rr_complete : bool; rr_matched : bool; rr_reflected : bool; rr_extracted : qstr
}.

Record RunConfig := mkConfig {
  rc_host : qstr; rc_port : Z; rc_tls : bool; rc_template : qstr; rc_latin1 : bool; rc_attackType : Z;
  rc_payloadSets : list qstr; rc_rules : list Rule; rc_grepMatch : list qstr; rc_reflection : bool; rc_grepExtract : ExtractSpec;
  rc_concurrency : Z; rc_throttleMs : Z; rc_retries : Z; rc_globalEncodeChars : qstr;
  rc_recursive : bool; rc_seed : qstr; rc_count : Z; rc_followPolicy : Z; rc_followCookies : bool
}.

Record SavedRun := mkRun { sr_version : Z; sr_config : RunConfig; sr_rows : list ResultRow }.

Definition defaultConfig : RunConfig :=
  mkConfig [] 443 true [] false 0 [] [] [] false (mkSpec [] [] []) 10 0 0 [] false [] 10 0 true.
Definition emptyRun : SavedRun := mkRun kFormatVersion defaultConfig [].

Definition comboToJson (combo : list payload) : list json :=
  map (fun v => match v with None => JNull | Some s => JString s end) combo.
(** A value that is neither null nor a string reads as the null string too. *)
Definition comboFromJson (a : list json) : list payload :=
  map (fun v => match v with JString s => Some s | _ => None end) a.
Definition stringsToJson (xs : list qstr) : list json := map JString xs.
Definition stringsFromJson (a : list json) : list qstr := map toString a.
Definition rulesToJson (rules : list Rule) : list json :=
  map (fun r => JObject (object [(lit "op", JString (ru_op r)); (lit "arg", JString (ru_arg r))])) rules.
Definition rulesFromJson (a : list json) : list Rule :=
  map (fun v => let o := toObject v in mkRule (toString (value o (lit "op"))) (toString (value o (lit "arg")))) a.

Definition rowToJson (r : ResultRow) : json :=
  JObject (object [(lit "id", JInt (rr_id r)); (lit "payloads", JArray (stringsToJson (rr_payloadValues r)));
    (lit "combo", JArray (comboToJson (rr_combo r))); (lit "status", JInt (rr_statusCode r)); (lit "size", JInt (rr_responseSize r));
    (lit "ms", JInt (rr_elapsedMs r)); (lit "err", JString (rr_errorMessage r)); (lit "complete", JBool (rr_complete r));
    (lit "matched", JBool (rr_matched r)); (lit "reflected", JBool (rr_reflected r)); (lit "extracted", JString (rr_extracted r))]).
Definition rowFromJson (v : json) : ResultRow :=
  let o := toObject v in
  mkRow (toInt 0 (value o (lit "id"))) (stringsFromJson (toArray (value o (lit "payloads")))) (comboFromJson (toArray (value o (lit "combo"))))
    (toInt 0 (value o (lit "status"))) (toInt 0 (value o (lit "size"))) (toInt 0 (value o (lit "ms"))) (toString (value o (lit "err")))
    (toBool false (value o (lit "complete"))) (toBool false (value o (lit "matched"))) (toBool false (value o (lit "reflected")))
    (toString (value o (lit "extracted"))).

Definition configToJson (c : RunConfig) : json :=
  JObject (object [(lit "host", JString (rc_host c)); (lit "port", JInt (rc_port c)); (lit "tls", JBool (rc_tls c));
    (lit "template", JString (rc_template c)); (lit "requestLatin1", JBool (rc_latin1 c)); (lit "attackType", JInt (rc_attackType c));
    (lit "payloadSets", JArray (stringsToJson (rc_payloadSets c))); (lit "rules", JArray (rulesToJson (rc_rules c)));
    (lit "grepMatch", JArray (stringsToJson (rc_grepMatch c))); (lit "grepPayloadReflection", JBool (rc_reflection c));
    (lit "grepExtract", JObject (object [(lit "regex", JString (es_regex (rc_grepExtract c)));
       (lit "start", JString (es_start (rc_grepExtract c))); (lit "end", JString (es_end (rc_grepExtract c)))]));
    (lit "concurrency", JInt (rc_concurrency c)); (lit "throttleMs", JInt (rc_throttleMs c)); (lit "retries", JInt (rc_retries c));
    (lit "globalEncodeChars", JString (rc_globalEncodeChars c)); (lit "recursiveGrep", JBool (rc_recursive c));
    (lit "recursiveGrepSeed", JString (rc_seed c)); (lit "recursiveGrepCount", JInt (rc_count c));
    (lit "followPolicy", JInt (rc_followPolicy c)); (lit "followCookies", JBool (rc_followCookies c))]).

Definition toJson (run : SavedRun) : list (qstr * json) :=
  object [(lit "kind", JString (lit "nullock.intruder.run")); (lit "version", JInt (sr_version run));
    (lit "config", configToJson (sr_config run)); (lit "rows", JArray (map rowToJson (sr_rows run)))].

Definition configFromJson (config : list (qstr * json)) : RunConfig :=
  let ge := toObject (value config (lit "grepExtract")) in
  mkConfig (toString (value config (lit "host"))) (toInt 443 (value config (lit "port"))) (toBool true (value config (lit "tls")))
    (toString (value config (lit "template"))) (toBool false (value config (lit "requestLatin1"))) (toInt 0 (value config (lit "attackType")))
    (stringsFromJson (toArray (value config (lit "payloadSets")))) (rulesFromJson (toArray (value config (lit "rules"))))
    (stringsFromJson (toArray (value config (lit "grepMatch")))) (toBool false (value config (lit "grepPayloadReflection")))
    (mkSpec (toString (value ge (lit "regex"))) (toString (value ge (lit "start"))) (toString (value ge (lit "end"))))
    (toInt 10 (value config (lit "concurrency"))) (toInt 0 (value config (lit "throttleMs"))) (toInt 0 (value config (lit "retries")))
    (toString (value config (lit "globalEncodeChars"))) (toBool false (value config (lit "recursiveGrep")))
    (toString (value config (lit "recursiveGrepSeed"))) (toInt 10 (value config (lit "recursiveGrepCount")))
    (toInt 0 (value config (lit "followPolicy"))) (toBool true (value config (lit "followCookies"))).

Definition fromJson (obj : list (qstr * json)) : SavedRun :=
  mkRun (if contains obj (lit "version") then toInt kFormatVersion (value obj (lit "version")) else kFormatVersion)
    (configFromJson (toObject (value obj (lit "config")))) (map rowFromJson (toArray (value obj (lit "rows")))).

Section Text.
Context {J : QtJson}.
Definition toBytes (run : SavedRun) : bytes := json_compact (JObject (toJson run)).
Definition fromBytes (data : bytes) : SavedRun :=
  match json_parse data with Some (JObject obj) => fromJson obj | _ => emptyRun end.
End Text.

Record ResumePlan := mkPlan { pl_canResume : bool; pl_skipRows : list nat; pl_toFireCount : Z; pl_reason : qstr }.

(** The loop over the flags from index [i]: rows to skip and the count to fire. *)
Fixpoint plan_rows (i : nat) (rowComplete : list bool) (skip : list nat) (fire : Z) : list nat * Z :=
  match rowComplete with
  | [] => (skip, fire)
  | c :: rest => if c then plan_rows (S i) rest (skip ++ [i]) fire else plan_rows (S i) rest skip (fire + 1)
  end.

Definition planResume (recursiveGrep : bool) (rowComplete : list bool) : ResumePlan :=
  if is_nil rowComplete then mkPlan false [] 0 (lit "no saved attack rows to resume")
  else if recursiveGrep then mkPlan false [] 0 (lit "recursive-grep attacks can't be resumed")
  else
    let '(skip, fire) := plan_rows 0 rowComplete [] 0 in
    if fire =? 0 then mkPlan false [] 0 (lit "attack already complete -- nothing to resume")
    else mkPlan true skip fire [].

(** ** The scan is bounded *)

Lemma bounded_len text : zlen (bounded text) <= kMaxScan.
Proof.
  unfold bounded. destruct (kMaxScan <? zlen text) eqn:E; to_prop; [|lia].
  unfold zlen in *. rewrite length_take. unfold kMaxScan in *. lia.
Qed.

Lemma bounded_prefix text : bounded text `prefix_of` text.
Proof. unfold bounded. destruct (_ <? _); [apply prefix_take|done]. Qed.

Section GrepSpec.
Context {Q : QtText} {G : QtGlobal}.

Lemma between_spec hay start end_ r :
  between hay start end_ = r -> r <> [] ->
  exists pre post, hay = pre ++ start ++ r ++ end_ ++ post /\
    (start = [] -> pre = []) /\ (end_ = [] -> post = []) /\
    (forall j, (j < length pre)%nat -> start <> [] -> starts_with start (drop j hay) = false) /\
    (end_ <> [] -> forall j, (j < length r)%nat -> starts_with end_ (drop j (r ++ end_ ++ post)) = false).
Proof.
  unfold between. intros H Hr.
  assert (Hf : exists pre, match (if is_nil start then Some 0%nat else (fun s => (s + length start)%nat) <$> index_sub start hay) with
      | Some from => from = length (pre ++ start) /\ hay = pre ++ start ++ drop from hay /\ (start = [] -> pre = []) /\
                     (forall j, (j < length pre)%nat -> start <> [] -> starts_with start (drop j hay) = false)
      | None => True end).
  { destruct start as [|c start]; cbn [is_nil].
    - exists []. split_and!; [done|done|done|]. cbn. lia.
    - destruct (index_sub (c :: start) hay) as [s|] eqn:E; cbn [fmap option_fmap option_map]; [|by exists []].
      destruct (index_sub_Some _ _ _ E) as (Hs & Hw & Hn). exists (take s hay). apply starts_with_spec in Hw as [t Ht].
      assert (Hlen : length (take s hay) = s) by (rewrite length_take; lia).
      split_and!; [by rewrite length_app, Hlen| |done|].
      + rewrite <- drop_drop, Ht, drop_app_length, <- Ht. by rewrite take_drop.
      + rewrite Hlen. intros j Hj _. by apply Hn. }
  destruct Hf as [pre Hf]. destruct (if is_nil start then _ else _) as [from|]; [|by subst r].
  destruct Hf as (Hfrom & Hhay & Hpre & Hfirst).
  destruct end_ as [|e end_]; cbn [is_nil] in H.
  - destruct (length hay <? from)%nat; [by subst r|].
    assert (Er : r = drop from hay) by (rewrite <- H; unfold mid; rewrite <- length_drop; apply take_ge; lia).
    exists pre, []. rewrite app_nil_r, Er. split_and!; [done|done|done|done|done].
  - unfold index_sub_from in H. destruct (index_sub (e :: end_) (drop from hay)) as [k|] eqn:E; cbn [fmap option_fmap option_map] in H; [|by subst r].
    destruct (from + k <? from)%nat eqn:Ek; [apply Nat.ltb_lt in Ek; lia|].
    replace (from + k - from)%nat with k in H by lia. unfold mid in H.
    destruct (index_sub_Some _ _ _ E) as (Hk & Hw & Hn). apply starts_with_spec in Hw as [t Ht].
    assert (Ed : drop from hay = r ++ (e :: end_) ++ t) by (rewrite <- H, <- Ht; by rewrite take_drop).
    exists pre, t. split_and!; [by rewrite <- Ed|done|done|done|].
    intros _ j Hj. rewrite <- Ed. apply Hn. rewrite <- H, length_take in Hj. lia.
Qed.

(** Grep looks at the first [kMaxScan] characters of a response only.  A payload is
    reflected exactly when it occurs there literally; the delimiter mode of the
    extraction returns the text between the first start delimiter and the first end
    delimiter behind it, so never more than the bound; an invalid pattern is a
    literal needle for the match and extracts nothing. *)
Theorem grep_bounded text payload spec needles :
  grepMatch text needles = grepMatch (bounded text) needles /\
  grepExtract text spec = grepExtract (bounded text) spec /\
  (payloadReflected text payload true = true <-> payload <> [] /\ exists a b, bounded text = a ++ payload ++ b) /\
  (es_regex spec = [] -> grepExtract text spec <> [] ->
   zlen (grepExtract text spec) <= kMaxScan /\
   exists pre post, bounded text = pre ++ es_start spec ++ grepExtract text spec ++ es_end spec ++ post /\
     (forall j, (j < length pre)%nat -> es_start spec <> [] -> starts_with (es_start spec) (drop j (bounded text)) = false) /\
     (es_end spec <> [] -> forall j, (j < length (grepExtract text spec))%nat ->
        starts_with (es_end spec) (drop j (grepExtract text spec ++ es_end spec ++ post)) = false)) /\
  (es_regex spec <> [] -> rg_valid (es_regex spec) = false -> grepExtract text spec = []) /\
  (forall needle, needle <> [] -> rg_valid needle = false -> grepMatch text [needle] = contains_sub needle (bounded text)).
Proof.
  assert (Hb : bounded (bounded text) = bounded text).
  { unfold bounded at 1. pose proof (bounded_len text). by zdecide. }
  split_and!.
  - unfold grepMatch. by rewrite Hb.
  - unfold grepExtract. by rewrite Hb.
  - unfold payloadReflected. destruct payload as [|c p]; cbn [is_nil]; [split; [done|by intros []]|].
    rewrite contains_sub_spec. split; [by split|by intros []].
  - intros He Hne. set (r := grepExtract text spec) in *. assert (Er : between (bounded text) (es_start spec) (es_end spec) = r).
    { revert Hne. unfold r, grepExtract. rewrite He. cbn [is_nil negb]. by destruct (_ && _). }
    destruct (between_spec _ _ _ _ Er Hne) as (pre & post & E & _ & _ & H1 & H2). split.
    + pose proof (bounded_len text) as Hl. rewrite E, !zlen_app in Hl.
      pose proof (zlen_nonneg pre). pose proof (zlen_nonneg (es_start spec)). pose proof (zlen_nonneg (es_end spec)). pose proof (zlen_nonneg post). lia.
    + by exists pre, post.
  - intros He Hv. unfold grepExtract. destruct (es_regex spec); [done|]. cbn [is_nil negb]. by rewrite Hv.
  - intros needle Hn Hv. unfold grepMatch, needle_hit. cbn [is_nil existsb]. destruct needle; [done|]. cbn [is_nil]. by rewrite Hv, orb_false_r.
Qed.
End GrepSpec.

(** ** Saved runs *)

Definition row_ok (r : ResultRow) : Prop :=
  int_ok (rr_id r) /\ int_ok (rr_statusCode r) /\ int_ok (rr_responseSize r) /\ int_ok (rr_elapsedMs r).
Definition config_ok (c : RunConfig) : Prop :=
  int_ok (rc_port c) /\ int_ok (rc_attackType c) /\ int_ok (rc_concurrency c) /\ int_ok (rc_throttleMs c) /\ int_ok (rc_retries c) /\
  int_ok (rc_count c) /\ int_ok (rc_followPolicy c).
(** The numbers are of type [int]. *)
Definition run_ok (run : SavedRun) : Prop := int_ok (sr_version run) /\ config_ok (sr_config run) /\ Forall row_ok (sr_rows run).

Lemma strings_roundtrip xs : stringsFromJson (stringsToJson xs) = xs.
Proof. unfold stringsFromJson, stringsToJson. rewrite map_map. apply map_id. Qed.
Lemma combo_roundtrip c : comboFromJson (comboToJson c) = c.
Proof. unfold comboFromJson, comboToJson. rewrite map_map. rewrite <- (map_id c) at 2. apply map_ext. by intros [s|]. Qed.
Lemma rules_roundtrip rs : rulesFromJson (rulesToJson rs) = rs.
Proof. unfold rulesFromJson, rulesToJson. rewrite map_map. rewrite <- (map_id rs) at 2. apply map_ext. by intros [op arg]. Qed.

Lemma row_roundtrip r : row_ok r -> rowFromJson (rowToJson r) = r.
Proof.
  intros (H1 & H2 & H3 & H4). destruct r as [i pv co st sz ms er cp mt rf ex]. cbn [rr_id rr_statusCode rr_responseSize rr_elapsedMs] in *.
  transitivity (mkRow (toInt 0 (JInt i)) (stringsFromJson (stringsToJson pv)) (comboFromJson (comboToJson co))
    (toInt 0 (JInt st)) (toInt 0 (JInt sz)) (toInt 0 (JInt ms)) er cp mt rf ex); [reflexivity|].
  by rewrite !toInt_ok, strings_roundtrip, combo_roundtrip.
Qed.

Lemma config_roundtrip c : config_ok c -> configFromJson (toObject (configToJson c)) = c.
Proof.
  intros (H1 & H2 & H3 & H4 & H5 & H6 & H7). destruct c as [h p t te l a ps ru gm gr [rx st en] co th re ge rec se cn fp fc].
  cbn [rc_port rc_attackType rc_concurrency rc_throttleMs rc_retries rc_count rc_followPolicy] in *.
  transitivity (mkConfig h (toInt 443 (JInt p)) t te l (toInt 0 (JInt a)) (stringsFromJson (stringsToJson ps)) (rulesFromJson (rulesToJson ru))
    (stringsFromJson (stringsToJson gm)) gr (mkSpec rx st en) (toInt 10 (JInt co)) (toInt 0 (JInt th)) (toInt 0 (JInt re)) ge rec se (toInt 10 (JInt cn))
    (toInt 0 (JInt fp)) fc); [reflexivity|].
  by rewrite !toInt_ok, !strings_roundtrip, rules_roundtrip.
Qed.

Lemma run_roundtrip run : run_ok run -> fromJson (toJson run) = run.
Proof.
  intros (H1 & H2 & H3). destruct run as [v c rows]. cbn [sr_version sr_config sr_rows] in *.
  transitivity (mkRun (toInt kFormatVersion (JInt v)) (configFromJson (toObject (configToJson c))) (map rowFromJson (map rowToJson rows))); [reflexivity|].
  rewrite toInt_ok, config_roundtrip by done. f_equal. apply (map_roundtrip _ _ row_ok); [apply row_roundtrip|done].
Qed.

(** Texts that survive JSON text. *)
Definition plain_strs (xs : list qstr) : Prop := Forall (fun s => plain_str s = true) xs.
Definition row_plain (r : ResultRow) : Prop :=
  plain_strs (rr_payloadValues r) /\ Forall (fun v => match v with Some s => plain_str s = true | None => True end) (rr_combo r) /\
  plain_str (rr_errorMessage r) = true /\ plain_str (rr_extracted r) = true.
Definition config_plain (c : RunConfig) : Prop :=
  plain_strs [rc_host c; rc_template c; rc_globalEncodeChars c; rc_seed c; es_regex (rc_grepExtract c); es_start (rc_grepExtract c); es_end (rc_grepExtract c)] /\
  plain_strs (rc_payloadSets c) /\ plain_strs (rc_grepMatch c) /\ Forall (fun r => plain_str (ru_op r) = true /\ plain_str (ru_arg r) = true) (rc_rules c).
Definition run_plain (run : SavedRun) : Prop := config_plain (sr_config run) /\ Forall row_plain (sr_rows run).

Lemma plain_strings xs depth : plain_strs xs -> json_plain (S (S depth)) (JArray (stringsToJson xs)) = true.
Proof.
  intros H. apply plain_array. unfold stringsToJson. apply Forall_map. eapply Forall_impl; [exact H|]. by intros s.
Qed.

Lemma plain_combo co depth :
  Forall (fun v => match v with Some s => plain_str s = true | None => True end) co -> json_plain (S (S depth)) (JArray (comboToJson co)) = true.
Proof.
  intros H. apply plain_array. unfold comboToJson. apply Forall_map. eapply Forall_impl; [exact H|]. by intros [s|].
Qed.

(** Members of a literal object, one by one. *)
Ltac plain_object :=
  apply plain_members; [refine (bool_decide_eq_true_1 _ _); vm_compute; reflexivity|];
  repeat (apply List.Forall_cons; [split; [reflexivity|cbn [snd];
    try first [by apply plain_int | apply plain_string; assumption | by apply plain_strings | by apply plain_combo | reflexivity]]|]); try by constructor.

Lemma plain_rules rs depth :
  Forall (fun r => plain_str (ru_op r) = true /\ plain_str (ru_arg r) = true) rs -> json_plain (S (S (S depth))) (JArray (rulesToJson rs)) = true.
Proof.
  intros H. apply plain_array. unfold rulesToJson. apply Forall_map. eapply Forall_impl; [exact H|]. intros [op arg] [Ho Ha].
  change (JObject _) with (JObject [(lit "arg", JString arg); (lit "op", JString op)]).
  by plain_object.
Qed.

Lemma plain_row r depth : row_ok r -> row_plain r -> json_plain (S (S (S depth))) (rowToJson r) = true.
Proof.
  intros (H1 & H2 & H3 & H4) (P1 & P2 & P3 & P4). destruct r as [i pv co st sz ms er cp mt rf ex]. cbn [rr_id rr_payloadValues rr_combo rr_statusCode rr_responseSize rr_elapsedMs rr_errorMessage rr_complete rr_matched rr_reflected rr_extracted] in *.
  change (rowToJson _) with (JObject [(lit "combo", JArray (comboToJson co)); (lit "complete", JBool cp); (lit "err", JString er); (lit "extracted", JString ex);
    (lit "id", JInt i); (lit "matched", JBool mt); (lit "ms", JInt ms); (lit "payloads", JArray (stringsToJson pv)); (lit "reflected", JBool rf);
    (lit "size", JInt sz); (lit "status", JInt st)]).
  plain_object.
Qed.

Lemma plain_config c depth : config_ok c -> config_plain c -> json_plain (S (S (S (S depth)))) (configToJson c) = true.
Proof.
  intros (H1 & H2 & H3 & H4 & H5 & H6 & H7) (P1 & P2 & P3 & P4).
  destruct c as [h p t te l a ps ru gm gr [rx st en] co th re ge rec se cn fp fc]. cbn [rc_host rc_port rc_template rc_attackType rc_payloadSets rc_rules rc_grepMatch rc_grepExtract rc_concurrency rc_throttleMs rc_retries rc_globalEncodeChars rc_seed rc_count rc_followPolicy es_regex es_start es_end] in *.
  unfold plain_strs in P1. rewrite !Forall_cons in P1. destruct P1 as (Q1 & Q2 & Q3 & Q4 & Q5 & Q6 & Q7 & _).
  change (configToJson _) with (JObject [(lit "attackType", JInt a); (lit "concurrency", JInt co); (lit "followCookies", JBool fc); (lit "followPolicy", JInt fp);
    (lit "globalEncodeChars", JString ge);
    (lit "grepExtract", JObject [(lit "end", JString en); (lit "regex", JString rx); (lit "start", JString st)]);
    (lit "grepMatch", JArray (stringsToJson gm)); (lit "grepPayloadReflection", JBool gr);
    (lit "host", JString h); (lit "payloadSets", JArray (stringsToJson ps)); (lit "port", JInt p);
    (lit "recursiveGrep", JBool rec); (lit "recursiveGrepCount", JInt cn); (lit "recursiveGrepSeed", JString se);
    (lit "requestLatin1", JBool l); (lit "retries", JInt re); (lit "rules", JArray (rulesToJson ru)); (lit "template", JString te);
    (lit "throttleMs", JInt th); (lit "tls", JBool t)]).
  plain_object; [plain_object|by apply plain_rules].
Qed.

Section Persist.
Context {J : QtJson} {LJ : QtJsonLaws J}.

Lemma plain_run run depth : run_ok run -> run_plain run -> json_plain (S (S (S (S (S depth))))) (JObject (toJson run)) = true.
Proof.
  intros (H1 & H2 & H3) (P1 & P2). destruct run as [v c rows]. cbn [sr_version sr_config sr_rows] in *.
  change (toJson _) with [(lit "config", configToJson c); (lit "kind", JString (lit "nullock.intruder.run")); (lit "rows", JArray (map rowToJson rows)); (lit "version", JInt v)].
  plain_object; [by apply plain_config|].
  apply plain_array, Forall_map, Forall_forall. intros r Hr. rewrite Forall_forall in H3, P2. apply plain_row; [by apply H3|by apply P2].
Qed.

(** A saved attack survives its file: reading what was written gives the same run,
    null payloads told apart from empty ones, for every run whose numbers are
    machine integers and whose texts JSON can hold; the object form needs only the
    former.  Bytes that are not a JSON object give the empty run. *)
Theorem saved_run_roundtrip run :
  run_ok run ->
  fromJson (toJson run) = run /\
  (run_plain run -> fromBytes (toBytes run) = run) /\
  (forall data, match json_parse data with Some (JObject _) => False | _ => True end -> fromBytes data = emptyRun).
Proof.
  intros Hr. split_and!.
  - by apply run_roundtrip.
  - intros Hp. unfold fromBytes, toBytes. rewrite law_json_text; [by apply run_roundtrip| |done].
    change 512%nat with (S (S (S (S (S 507))))). by apply plain_run.
  - intros data H. unfold fromBytes. destruct (json_parse data) as [[]|]; done.
Qed.
End Persist.

(** ** Resumption *)

Definition indices_from (i : nat) (want : bool) (flags : list bool) : list nat :=
  map fst (List.filter (fun e => Bool.eqb (snd e) want) (zip (seq i (length flags)) flags)).

Lemma plan_rows_spec flags : forall i skip fire,
  plan_rows i flags skip fire = (skip ++ indices_from i true flags, fire + zlen (indices_from i false flags)).
Proof.
  induction flags as [|c flags IH]; intros i skip fire; cbn [plan_rows].
  - unfold indices_from. cbn. by rewrite app_nil_r, Z.add_0_r.
  - unfold indices_from in *. cbn [length seq zip zip_with List.filter map snd fst] in *. destruct c; rewrite IH; cbn [Bool.eqb map fst].
    + by rewrite <- app_assoc.
    + rewrite zlen_cons. f_equal. lia.
Qed.

Lemma indices_from_elem flags want : forall i k, k ∈ indices_from i want flags <-> (i <= k)%nat /\ flags !! (k - i)%nat = Some want.
Proof.
  induction flags as [|c flags IH]; intros i k; unfold indices_from in *; cbn [length seq zip zip_with List.filter map snd].
  - split; [intros []%not_elem_of_nil|intros [_ H]; by destruct (k - i)%nat].
  - assert (Hs : (i <= k)%nat /\ (c :: flags) !! (k - i)%nat = Some want <-> k = i /\ c = want \/ (S i <= k)%nat /\ flags !! (k - S i)%nat = Some want).
    { destruct (decide (k = i)) as [->|Hk].
      - rewrite Nat.sub_diag. cbn [lookup list_lookup]. split; [intros [_ [= ->]]; by left|]. intros [[_ ->]|[? _]]; [done|lia].
      - destruct (decide (i < k)%nat) as [Hlt|]; [|split; [lia|intros [[]|[]]; lia]].
        replace (k - i)%nat with (S (k - S i)) by lia. cbn [lookup list_lookup]. split.
        + intros [_ H]. right. split; [lia|done]. + intros [[]|[_ H]]; [lia|split; [lia|done]]. }
    rewrite Hs. destruct (Bool.eqb c want) eqn:E; cbn [map fst].
    + apply eqb_prop in E as ->. rewrite elem_of_cons, IH. tauto.
    + rewrite IH. assert (c <> want) by (intros ->; by rewrite eqb_reflx in E). tauto.
Qed.

(** An attack can be resumed exactly when it is not recursive and some row has not
    completed; then exactly the completed rows are skipped, in order, and the count is
    the number of the others.  Otherwise nothing is skipped and a reason is given. *)
Theorem resume_plan recursiveGrep rowComplete :
  let plan := planResume recursiveGrep rowComplete in
  (pl_canResume plan = true <-> recursiveGrep = false /\ false ∈ rowComplete) /\
  (pl_canResume plan = true ->
     (forall i, i ∈ pl_skipRows plan <-> rowComplete !! i = Some true) /\ NoDup (pl_skipRows plan) /\
     pl_toFireCount plan = zlen (indices_from 0 false rowComplete)) /\
  (pl_canResume plan = false -> pl_skipRows plan = [] /\ pl_toFireCount plan = 0 /\ pl_reason plan <> []).
Proof.
  cbv zeta. unfold planResume. destruct rowComplete as [|c rest]; cbn [is_nil].
  { cbn [pl_canResume pl_skipRows pl_toFireCount pl_reason]. split_and!; [|done|done]. split; [done|]. intros [_ []%not_elem_of_nil]. }
  set (flags := c :: rest). destruct recursiveGrep; [cbn [pl_canResume pl_skipRows pl_toFireCount pl_reason]; split_and!; try done; split; [done|by intros [? _]]|].
  rewrite plan_rows_spec. cbn [app]. rewrite Z.add_0_l.
  assert (Hin : false ∈ flags <-> zlen (indices_from 0 false flags) <> 0).
  { rewrite list_elem_of_lookup. split.
    - intros [i Hi] Hz. assert (Hx : i ∈ indices_from 0 false flags) by (apply indices_from_elem; rewrite Nat.sub_0_r; split; [lia|done]).
      destruct (indices_from 0 false flags); [by apply not_elem_of_nil in Hx|]. rewrite zlen_cons in Hz. pose proof (zlen_nonneg l). lia.
    - intros Hz. destruct (indices_from 0 false flags) as [|i l] eqn:E; [done|]. exists i.
      assert (Hx : i ∈ indices_from 0 false flags) by (rewrite E; left). apply indices_from_elem in Hx as [_ Hx]. by rewrite Nat.sub_0_r in Hx. }
  destruct (zlen _ =? 0) eqn:E; to_prop; cbn [pl_canResume pl_skipRows pl_toFireCount pl_reason].
  - split_and!; [|done|done]. split; [done|]. intros [_ H]. by apply Hin in H.
  - split_and!; [split; [intros _; split; [done|by apply Hin]|done]| |done]. intros _. split_and!; [|..|done].
    + intros i. rewrite indices_from_elem, Nat.sub_0_r. split; [by intros []|intros; split; [lia|done]].
    + unfold indices_from. clear. generalize flags, 0%nat. induction flags0 as [|c' fl IH]; intros i; cbn [length seq zip zip_with List.filter map snd]; [constructor|].
      destruct (Bool.eqb c' true); cbn [map fst]; [|apply IH]. constructor; [|apply IH].
      intros Hin. assert (Hx : i ∈ indices_from (S i) true fl) by exact Hin. apply indices_from_elem in Hx. lia.
Qed.

(** ** Witnesses *)

Section Examples.
#[local] Existing Instance treeJson.
#[local] Existing Instance sampleGlobal.
#[local] Existing Instance utf8Text.

Definition ex_row : ResultRow := mkRow 1 [lit "(default)"; lit "x"] [None; Some (lit "x")] 200 17 3 [] true false true [].
Definition ex_run : SavedRun :=
  mkRun 1 (mkConfig (lit "host") 8443 true (lit "GET /") false 2 [lit "a"] [mkRule (lit "prefix") (lit "p")] [lit "token"] true
    (mkSpec [] (lit "<") (lit ">")) 4 10 2 (lit "%&") false [] 10 1 true) [ex_row; ex_row].

Lemma saved_run_roundtrip_witness : run_ok ex_run /\ fromBytes (toBytes ex_run) = ex_run.
Proof.
  assert (Hr : run_ok ex_run).
  { unfold run_ok, config_ok, row_ok, int_ok, INT_MIN, INT_MAX, ex_run, ex_row. cbn. split_and!; try lia.
    repeat (apply List.Forall_cons; [cbn; lia|]). by constructor. }
  split; [exact Hr|]. apply (proj1 (proj2 (saved_run_roundtrip ex_run Hr))).
  unfold run_plain, config_plain, plain_strs, row_plain, ex_run, ex_row. cbn [sr_config sr_rows].
  split; [split_and!; repeat constructor|]. repeat (apply List.Forall_cons; [split_and!; repeat constructor|]). by constructor.
Defined.

Example grep_runs :
  grepExtract (lit "a <tok> b") (mkSpec [] (lit "<") (lit ">")) = lit "tok" /\
  grepMatch (lit "a <tok> b") [[]; lit "tok"] = true /\ payloadReflected (lit "axb") (lit "a.b") true = false.
Proof. split_and!; by vm_compute. Qed.
End Examples.
