(* ===== verification/IntruderRunner.v ===== *)
(** * The intruder's firing loop: Src/Core/Networking/intruder.cpp

    The configuration and its setters, the request of one row ([fireOne], [resend]) and
    the run itself: the GUI thread that starts, stops, resumes and resends, the
    attack worker that dispatches under a semaphore, the pool tasks, and the calls
    they queue for the GUI thread.  The network, the cancellation flag as each
    retry reads it and the state of the session rules are arguments of a request. *)

From S2P Require Import Prelude Qt QtSample QMap Json JsonSample HttpFraming NetFraming ProxyPolicy ChainRunner Utf8 Redirect SessionRules Transcode Intruder IntruderGenerators IntruderRules IntruderRuns.

Local Open Scope Z_scope.

(** ** The configuration *)

(** [setPort], [setHost], ... on the fields of [configuration()]. *)
Definition setHost (h : qstr) (c : RunConfig) : RunConfig :=
  mkConfig h (rc_port c) (rc_tls c) (rc_template c) (rc_latin1 c) (rc_attackType c) (rc_payloadSets c) (rc_rules c) (rc_grepMatch c)
    (rc_reflection c) (rc_grepExtract c) (rc_concurrency c) (rc_throttleMs c) (rc_retries c) (rc_globalEncodeChars c) (rc_recursive c)
    (rc_seed c) (rc_count c) (rc_followPolicy c) (rc_followCookies c).
Definition with_port (p : Z) (tls : bool) (c : RunConfig) : RunConfig :=
  mkConfig (rc_host c) p tls (rc_template c) (rc_latin1 c) (rc_attackType c) (rc_payloadSets c) (rc_rules c) (rc_grepMatch c)
    (rc_reflection c) (rc_grepExtract c) (rc_concurrency c) (rc_throttleMs c) (rc_retries c) (rc_globalEncodeChars c) (rc_recursive c)
    (rc_seed c) (rc_count c) (rc_followPolicy c) (rc_followCookies c).
Definition setPort (p : Z) (c : RunConfig) : RunConfig := with_port p (rc_tls c) c.
Definition setUseTls (tls : bool) (c : RunConfig) : RunConfig :=
  if Bool.eqb tls (rc_tls c) then c
  else
    let p := if (rc_port c =? 80) && tls then 443 else if (rc_port c =? 443) && negb tls then 80 else rc_port c in
    with_port p tls c.
Definition with_template (t : qstr) (latin1 : bool) (c : RunConfig) : RunConfig :=
  mkConfig (rc_host c) (rc_port c) (rc_tls c) t latin1 (rc_attackType c) (rc_payloadSets c) (rc_rules c) (rc_grepMatch c)
    (rc_reflection c) (rc_grepExtract c) (rc_concurrency c) (rc_throttleMs c) (rc_retries c) (rc_globalEncodeChars c) (rc_recursive c)
    (rc_seed c) (rc_count c) (rc_followPolicy c) (rc_followCookies c).
Definition setRequestTemplate (t : qstr) (c : RunConfig) : RunConfig := with_template t (rc_latin1 c) c.
Definition setRequestLatin1 (enabled : bool) (c : RunConfig) : RunConfig := with_template (rc_template c) enabled c.
Definition with_sets (s : list qstr) (c : RunConfig) : RunConfig :=
  mkConfig (rc_host c) (rc_port c) (rc_tls c) (rc_template c) (rc_latin1 c) (rc_attackType c) s (rc_rules c) (rc_grepMatch c)
    (rc_reflection c) (rc_grepExtract c) (rc_concurrency c) (rc_throttleMs c) (rc_retries c) (rc_globalEncodeChars c) (rc_recursive c)
    (rc_seed c) (rc_count c) (rc_followPolicy c) (rc_followCookies c).
Definition setPayloads (p : qstr) (c : RunConfig) : RunConfig :=
  with_sets (match rc_payloadSets c with [] => [p] | _ :: rest => p :: rest end) c.
Definition setPayloadSets (s : list qstr) (c : RunConfig) : RunConfig := with_sets s c.
Definition setPayloadSetAt (i : Z) (v : qstr) (c : RunConfig) : RunConfig :=
  if i <? 0 then c
  else
    let n := Z.to_nat i in
    let sets := rc_payloadSets c in
    let sets := sets ++ replicate (S n - length sets) [] in
    with_sets (<[n := v]> sets) c.
Definition payloadSetAt (i : Z) (c : RunConfig) : qstr :=
  if (0 <=? i) && (i <? zlen (rc_payloadSets c)) then nth (Z.to_nat i) (rc_payloadSets c) [] else [].
Definition positionCount (c : RunConfig) : Z := or_else 0 (countMarkers (rc_template c)).
Definition syncSetsToPositions (c : RunConfig) : RunConfig :=
  let want := Z.to_nat (Z.max 1 (positionCount c)) in
  with_sets (take want (rc_payloadSets c ++ replicate (want - length (rc_payloadSets c)) [])) c.

(** The integer settings with the bounds of their setters. *)
Definition with_ints (attackType concurrency throttle retries count follow : Z) (c : RunConfig) : RunConfig :=
  mkConfig (rc_host c) (rc_port c) (rc_tls c) (rc_template c) (rc_latin1 c) attackType (rc_payloadSets c) (rc_rules c) (rc_grepMatch c)
    (rc_reflection c) (rc_grepExtract c) concurrency throttle retries (rc_globalEncodeChars c) (rc_recursive c)
    (rc_seed c) count follow (rc_followCookies c).
Definition setAttackType (t : Z) (c : RunConfig) : RunConfig :=
  if (t <? 0) || (3 <? t) then c
  else with_ints t (rc_concurrency c) (rc_throttleMs c) (rc_retries c) (rc_count c) (rc_followPolicy c) c.
Definition setMaxConcurrency (n : Z) (c : RunConfig) : RunConfig :=
  with_ints (rc_attackType c) (clampConcurrency n) (rc_throttleMs c) (rc_retries c) (rc_count c) (rc_followPolicy c) c.
Definition setThrottleMs (ms : Z) (c : RunConfig) : RunConfig :=
  with_ints (rc_attackType c) (rc_concurrency c) (clampThrottleMs ms) (rc_retries c) (rc_count c) (rc_followPolicy c) c.
Definition setMaxRetries (n : Z) (c : RunConfig) : RunConfig :=
  with_ints (rc_attackType c) (rc_concurrency c) (rc_throttleMs c) (clampRetries n) (rc_count c) (rc_followPolicy c) c.
Definition setRecursiveGrepCount (count : Z) (c : RunConfig) : RunConfig :=
  with_ints (rc_attackType c) (rc_concurrency c) (rc_throttleMs c) (rc_retries c) (Z.max 1 (Z.min count 10000)) (rc_followPolicy c) c.
Definition setFollowRedirects (policy : Z) (c : RunConfig) : RunConfig :=
  with_ints (rc_attackType c) (rc_concurrency c) (rc_throttleMs c) (rc_retries c) (rc_count c)
    (if (policy <? FollowNever) || (FollowAlways <? policy) then FollowNever else policy) c.

(** The other options. *)
Definition setOptions (rules : list Rule) (encodeChars : qstr) (needles : list qstr) (reflection : bool) (spec : ExtractSpec)
    (recursive : bool) (seed : qstr) (cookies : bool) (c : RunConfig) : RunConfig :=
  mkConfig (rc_host c) (rc_port c) (rc_tls c) (rc_template c) (rc_latin1 c) (rc_attackType c) (rc_payloadSets c) rules needles
    reflection spec (rc_concurrency c) (rc_throttleMs c) (rc_retries c) encodeChars recursive seed (rc_count c) (rc_followPolicy c) cookies.

(** What [loadRun] makes of the configuration it read. *)
Definition loadedConfig (c : RunConfig) : RunConfig :=
  setMaxRetries (rc_retries c) (setThrottleMs (rc_throttleMs c) (setMaxConcurrency (rc_concurrency c)
    (with_ints (Z.max 0 (Z.min (rc_attackType c) 3)) (rc_concurrency c) (rc_throttleMs c) (rc_retries c) (rc_count c) (rc_followPolicy c) c))).

(** ** Payloads and rows *)

Section Rows.
Context {Q : QtText} {U : QtUcs4} {C : QtCodecs} {J : QtJson} {G : QtGlobal}.

Definition parseSet (block : qstr) : list payload :=
  flat_map (fun line => let t := u_trimmed line in if is_nil t then [] else [Some t]) (split_on 10 block).

Definition displayValues (combo : list payload) : list qstr :=
  map (fun v => match v with None => lit "(default)" | Some s => s end) combo.

Definition applyRulesToCombo (combo : list payload) (rules : list Rule) : list payload :=
  if is_nil rules then combo else map (fun v => match v with None => None | Some s => Some (applyRules s rules) end) combo.

Definition attack_type (t : Z) : AttackType :=
  if t =? 0 then Sniper else if t =? 1 then BatteringRam else if t =? 2 then Pitchfork else ClusterBomb.

Definition kMaxCombos : Z := 10000.

Definition haveExtract (e : ExtractSpec) : bool := negb (is_nil (es_regex e)) || negb (is_nil (es_start e)) || negb (is_nil (es_end e)).

(** A skip rule drops the combination. *)
Definition combo_skipped (rules : list Rule) (combo : list payload) : bool :=
  existsb (fun v => match v with None => false | Some s => snd (applyRulesSkip s rules) end) combo.

(** The combinations [start] fires; none: it returns without starting. *)
Definition startCombos (c : RunConfig) : list (list payload) :=
  if is_nil (rc_host c) || is_nil (rc_template c) then []
  else
    let positions := positionCount c in
    if positions =? 0 then []
    else
      let combos :=
        if rc_recursive c then
          if haveExtract (rc_grepExtract c) then replicate (Z.to_nat (rc_count c)) (replicate (Z.to_nat positions) None) else []
        else or_else [] (generateCombinations (attack_type (rc_attackType c)) positions (map parseSet (rc_payloadSets c)) kMaxCombos) in
      if is_nil (rc_rules c) then combos else List.filter (fun combo => negb (combo_skipped (rc_rules c) combo)) combos.

Definition freshRow (i : nat) (combo : list payload) : ResultRow :=
  mkRow (Z.of_nat i + 1) (displayValues combo) combo 0 0 0 [] false false false [].
Definition startRows (combos : list (list payload)) : list ResultRow := imap freshRow combos.

(** The chain of a run: the rules, then the global escape set. *)
Definition effectiveRules (c : RunConfig) : list Rule :=
  if is_nil (rc_globalEncodeChars c) then rc_rules c else rc_rules c ++ [mkRule (lit "url-encode-chars") (rc_globalEncodeChars c)].
End Rows.

(** ** One request *)

Section Fire.
Context {Q : QtText} {U : QtUcs4} {C : QtCodecs} {J : QtJson} {G : QtGlobal} {R : QtRegex} {RR : QtReplace} {UD : QtUrl} {K : QtQUrl} {JJ : QtCookieJar K}.

Definition grepScanText (resp : HttpResponse) : qstr :=
  flat_map (fun h => fst h ++ lit ": " ++ snd h ++ [10]) (rs_headers resp) ++ [10] ++ u_fromutf8 (bodyForInspection resp).

(** [computeGrep]: matched, reflected and extracted. *)
Definition computeGrep (resp : HttpResponse) (needles : list qstr) (combo : list payload) (reflectionOn : bool) (spec : ExtractSpec)
    : bool * bool * qstr :=
  let scan := grepScanText resp in
  ((if is_nil needles then false else grepMatch scan needles),
   (if reflectionOn && negb (is_nil combo)
    then existsb (fun p => match p with None => false | Some s => payloadReflected scan s true end) combo else false),
   (if haveExtract spec then grepExtract scan spec else [])).

(** What a worker copies when it is started. *)
Record FireCfg := mkFire {
  f_template : qstr; f_latin1 : bool; f_host : qstr; f_port : Z; f_tls : bool; f_rules : list Rule; f_needles : list qstr;
  f_reflection : bool; f_extract : ExtractSpec; f_retries : Z; f_policy : Z; f_cookies : bool; f_inScope : option (Url -> bool)
}.
Definition fireCfg (c : RunConfig) (inScope : option (Url -> bool)) : FireCfg :=
  mkFire (rc_template c) (rc_latin1 c) (rc_host c) (rc_port c) (rc_tls c) (effectiveRules c) (rc_grepMatch c) (rc_reflection c)
    (rc_grepExtract c) (rc_retries c) (rc_followPolicy c) (rc_followCookies c) inScope.

(** [SessionRulesLogic::ToolIntruder]. *)
Definition ToolIntruder : Z := 4.

Definition encodingError : qstr := lit "Request contains characters outside Latin-1. Select UTF-8 encoding.".
Definition failedSend (e : qstr) : SendResult := mkSend false e (mkResponse [] 0 [] [] [] [] false) [] 0.

(** The bytes of a combination, [None] when the text cannot be encoded; [sr] is the
    state of the session rules, when there are any. *)
Definition requestBytes (cfg : FireCfg) (sr : option State) (values : list payload) : option bytes :=
  let req := or_else [] (applyPayloads (f_template cfg) values) in
  let raw := encodeRequestText req (f_latin1 cfg) in
  if is_nil raw then None
  else
    let raw := normalizeContentLength raw in
    Some (match sr with Some s => fst (applyToRequestBytes s raw (f_host cfg) ToolIntruder) | None => raw end).

Definition origin_sent (cfg : FireCfg) (request : bytes) : Sent := mkSent (f_host cfg) (f_port cfg mod 2 ^ 16) (f_tls cfg) request.

(** The retries behind a failed send; [stop] is the flag as read before each. *)
Fixpoint retry_loop (fuel : nat) (net : Net) (stop : nat -> bool) (attempt : nat) (s : Sent) (r : SendResult) (log : list Sent)
    : SendResult * list Sent :=
  match fuel with
  | O => (r, log)
  | S fuel' =>
      if negb (sd_ok r) && negb (stop attempt) then
        let '(r', log') := client_send net log s in retry_loop fuel' net stop (S attempt) s r' log'
      else (r, log)
  end.

Definition in_scope_of (f : option (Url -> bool)) (u : Url) : bool := match f with Some g => g u | None => false end.

(** Sending a request, its retries and its redirects; [scopeOf] is the scope test the
    loop makes of a target. *)
Definition exchange (cfg : FireCfg) (retries : Z) (scopeOf : Url -> bool) (net : Net) (stop : nat -> bool) (request : option bytes)
    : SendResult * list Sent :=
  match request with
  | None => (failedSend encodingError, [])
  | Some bytes =>
      let '(r, log) := client_send net [] (origin_sent cfg bytes) in
      let '(r, log) := retry_loop (Z.to_nat retries) net stop 0 (origin_sent cfg bytes) r log in
      let '(r, _, log) := followRedirects net scopeOf (f_policy cfg) (f_cookies cfg) (fun _ => false) (f_tls cfg) (f_host cfg) (f_port cfg) bytes r log in
      (r, log)
  end.

(** The pause behind a 429, in milliseconds. *)
Fixpoint retry_after (headers : list (qstr * qstr)) : Z :=
  match headers with
  | [] => 1000
  | h :: hs =>
      if u_cieq (fst h) (lit "Retry-After") then
        match u_toint 10 (snd h) with
        | Some secs => if (0 <? secs) && (secs <? 60) then secs * 1000 else 1000
        | None => 1000
        end
      else retry_after hs
  end.
Definition backoff (r : SendResult) : Z :=
  if sd_ok r && (rs_statusCode (sd_parsed r) =? 429) then retry_after (rs_headers (sd_parsed r)) else 0.

(** The values a finished request queues for its row. *)
Record Outcome := mkOutcome {
  o_payloads : option (list qstr);     (* None: left as they are *)
  o_status : Z; o_size : Z; o_elapsed : Z; o_error : qstr; o_matched : bool; o_reflected : bool; o_extracted : qstr
}.
Definition outcome_of (payloads : option (list qstr)) (cfg : FireCfg) (combo : list payload) (elapsed : Z) (r : SendResult) : Outcome :=
  let '(m, rf, ex) := if sd_ok r then computeGrep (sd_parsed r) (f_needles cfg) combo (f_reflection cfg) (f_extract cfg) else (false, false, []) in
  mkOutcome payloads (if sd_ok r then rs_statusCode (sd_parsed r) else 0) (zlen (rs_body (sd_parsed r))) elapsed
    (if sd_ok r then [] else sd_errorMessage r) m rf ex.

(** [fireOne(row, combo)]: what it queues and what it sent. *)
Definition fireOne (cfg : FireCfg) (sr : option State) (net : Net) (stop : nat -> bool) (elapsed : Z) (combo : list payload) : Outcome * list Sent :=
  let '(r, log) := exchange cfg (f_retries cfg) (in_scope_of (f_inScope cfg)) net stop (requestBytes cfg sr (applyRulesToCombo combo (f_rules cfg))) in
  (outcome_of (Some (displayValues combo)) cfg combo elapsed r, log).

(** The body of the resend worker: no retries, the scope test is made of the bare host
    turned into a URL, and the grep sees the processed combination. *)
Definition resendOne (cfg : FireCfg) (sr : option State) (net : Net) (elapsed : Z) (processed : list payload) : Outcome * list Sent :=
  let scopeOf u := in_scope_of (f_inScope cfg) (qu_parse (qu_host u)) in
  let '(r, log) := exchange cfg 0 scopeOf net (fun _ => false) (requestBytes cfg sr processed) in
  (outcome_of None cfg processed elapsed r, log).
End Fire.

(** ** The run *)

(** What is queued for the GUI thread. *)
Inductive Callback :=
| Deliver (row : nat) (o : Outcome)          (* of [fireOne] *)
| DeliverResend (row : nat) (o : Outcome)    (* of the resend worker *)
| Finished.                                  (* the last act of the attack worker *)

(** The attack worker: its combinations, what it copied, the next index, the permits of
    the semaphore that are free, the rows to skip; [w_rec] is the recursive value and
    [w_out] says that the dispatch loop has ended. *)
Record Worker := mkWorker {
  w_combos : list (list payload); w_permits : Z; w_next : nat; w_skip : list nat; w_rec : option qstr; w_out : bool
}.

(** A submitted pool task; a resend in flight with its processed combination. *)
Record Task := mkTask { t_row : nat; t_combo : list payload }.

Section Machine.
Context {Q : QtText} {U : QtUcs4} {C : QtCodecs} {J : QtJson} {G : QtGlobal} {R : QtRegex} {RR : QtReplace} {UD : QtUrl} {K : QtQUrl} {JJ : QtCookieJar K}.

Record St := mkSt {
  i_config : RunConfig; i_inScope : option (Url -> bool); i_attacks : list ResultRow;
  i_running : bool; i_stop : bool; i_completed : Z;
  i_cfg : FireCfg; i_worker : option Worker; i_tasks : list Task;
  i_resends : list (Task * FireCfg);       (* newest last: the one [m_resendWorker] holds *)
  i_queue : list Callback
}.

Definition with_config (c : RunConfig) (s : St) : St :=
  mkSt c (i_inScope s) (i_attacks s) (i_running s) (i_stop s) (i_completed s) (i_cfg s) (i_worker s) (i_tasks s) (i_resends s) (i_queue s).
Definition with_attacks (rows : list ResultRow) (completed : Z) (s : St) : St :=
  mkSt (i_config s) (i_inScope s) rows (i_running s) (i_stop s) completed (i_cfg s) (i_worker s) (i_tasks s) (i_resends s) (i_queue s).
Definition with_flags (running stop : bool) (s : St) : St :=
  mkSt (i_config s) (i_inScope s) (i_attacks s) running stop (i_completed s) (i_cfg s) (i_worker s) (i_tasks s) (i_resends s) (i_queue s).
Definition with_worker (w : option Worker) (tasks : list Task) (queue : list Callback) (s : St) : St :=
  mkSt (i_config s) (i_inScope s) (i_attacks s) (i_running s) (i_stop s) (i_completed s) (i_cfg s) w tasks (i_resends s) queue.
Definition with_resends (rs : list (Task * FireCfg)) (queue : list Callback) (s : St) : St :=
  mkSt (i_config s) (i_inScope s) (i_attacks s) (i_running s) (i_stop s) (i_completed s) (i_cfg s) (i_worker s) (i_tasks s) rs queue.
Definition launch (w : Worker) (s : St) : St :=
  mkSt (i_config s) (i_inScope s) (i_attacks s) true false (i_completed s) (fireCfg (i_config s) (i_inScope s)) (Some w) (i_tasks s)
    (i_resends s) (i_queue s).

(** *** The GUI thread *)

Definition newWorker (combos : list (list payload)) (concurrency : Z) (skip : list nat) (rec : option qstr) : Worker :=
  mkWorker combos (clampConcurrency concurrency) 0 skip rec false.

Definition start (s : St) : St :=
  if i_running s then s
  else
    let combos := startCombos (i_config s) in
    if is_nil combos then s
    else
      let s := with_attacks (startRows combos) 0 s in
      launch (newWorker combos (if rc_recursive (i_config s) then 1 else rc_concurrency (i_config s)) []
                (if rc_recursive (i_config s) then Some (rc_seed (i_config s)) else None)) s.

Definition resume (s : St) : St * bool :=
  if i_running s then (s, false)
  else if is_nil (rc_host (i_config s)) || is_nil (rc_template (i_config s)) then (s, false)
  else if is_nil (i_attacks s) then (s, false)
  else
    let plan := planResume (rc_recursive (i_config s)) (map rr_complete (i_attacks s)) in
    if negb (pl_canResume plan) then (s, false)
    else (launch (newWorker (map rr_combo (i_attacks s)) (rc_concurrency (i_config s)) (pl_skipRows plan) None) s, true).

Definition stop_ (s : St) : St := if i_running s then with_flags true true s else s.

Definition clear (s : St) : St :=
  let s := stop_ s in
  if is_nil (i_attacks s) then s else with_attacks [] 0 s.

Definition loadRun (data : bytes) (s : St) : St * bool :=
  if i_running s then (s, false)
  else
    let run := fromBytes data in
    (with_attacks (sr_rows run) (zlen (List.filter rr_complete (sr_rows run))) (with_config (loadedConfig (sr_config run)) s), true).

Definition saveRun (s : St) : bytes := toBytes (mkRun kFormatVersion (i_config s) (i_attacks s)).

(** [setRequestBytes] is the one setter that heeds a run. *)
Definition setRequestBytes (data : bytes) (s : St) : St :=
  if i_running s then s
  else let '(t, latin1) := decodeRequestText data in with_config (with_template t latin1 (i_config s)) s.

(** [clearAll]: the empty document read as an attack. *)
Definition clearAll (s : St) : St := fst (loadRun (lit "{}") s).

(** [loadFromHistory]: the target and the request of a history row. *)
Definition loadFromHistory (host : qstr) (port : Z) (tls : bool) (request : HttpRequest) (c : RunConfig) : RunConfig :=
  if is_nil host then c
  else let '(t, latin1) := decodeRequestText (serializeRequestForOrigin request) in with_template t latin1 (with_port port tls (setHost host c)).

(** The row as a resend leaves it: everything but [m_reflected] is reset. *)
Definition pendingRow (r : ResultRow) : ResultRow :=
  mkRow (rr_id r) (rr_payloadValues r) (rr_combo r) 0 0 0 [] false false (rr_reflected r) [].
Definition resend (row : Z) (s : St) : St * bool :=
  if i_running s then (s, false)
  else if (row <? 0) || (zlen (i_attacks s) <=? row) then (s, false)
  else if is_nil (rc_host (i_config s)) || is_nil (rc_template (i_config s)) then (s, false)
  else
    let n := Z.to_nat row in
    match i_attacks s !! n with
    | None => (s, false)
    | Some r =>
        let combo := applyRulesToCombo (rr_combo r) (effectiveRules (i_config s)) in
        let s := with_attacks (alter pendingRow n (i_attacks s)) (i_completed s) s in
        (with_resends (i_resends s ++ [(mkTask n combo, fireCfg (i_config s) (i_inScope s))]) (i_queue s) s, true)
    end.

(** The results of a request put into its row. *)
Definition fillRow (o : Outcome) (r : ResultRow) : ResultRow :=
  mkRow (rr_id r) (or_else (rr_payloadValues r) (o_payloads o)) (rr_combo r) (o_status o) (o_size o) (o_elapsed o) (o_error o)
    true (o_matched o) (o_reflected o) (o_extracted o).

(** A queued call runs; a row that is gone is left alone. *)
Definition deliver (c : Callback) (s : St) : St :=
  match c with
  | Deliver row o =>
      if (row <? length (i_attacks s))%nat then with_attacks (alter (fillRow o) row (i_attacks s)) (i_completed s + 1) s else s
  | DeliverResend row o =>
      if (row <? length (i_attacks s))%nat then with_attacks (alter (fillRow o) row (i_attacks s)) (i_completed s) s else s
  | Finished => with_flags false false s
  end.
Definition runQueued (s : St) : option St :=
  match i_queue s with
  | [] => None
  | c :: q => Some (deliver c (with_worker (i_worker s) (i_tasks s) q s))
  end.

(** *** The attack worker and its tasks *)

(** One round of the dispatch loop; [None] while it waits for a permit. *)
Definition dispatch (s : St) : option St :=
  match i_worker s with
  | Some w =>
      if w_out w || bool_decide (is_Some (w_rec w)) then None
      else
        let quit := Some (with_worker (Some (mkWorker (w_combos w) (w_permits w) (w_next w) (w_skip w) (w_rec w) true)) (i_tasks s) (i_queue s) s) in
        match w_combos w !! w_next w with
        | None => quit
        | Some combo =>
            if i_stop s then quit
            else if bool_decide (w_next w ∈ w_skip w) then
              Some (with_worker (Some (mkWorker (w_combos w) (w_permits w) (S (w_next w)) (w_skip w) (w_rec w) false)) (i_tasks s) (i_queue s) s)
            else if w_permits w <=? 0 then None
            else
              Some (with_worker (Some (mkWorker (w_combos w) (w_permits w - 1) (S (w_next w)) (w_skip w) (w_rec w) false))
                     (i_tasks s ++ [mkTask (w_next w) combo]) (i_queue s) s)
        end
  | None => None
  end.

(** Task [k] ends: its results are queued, its permit is free again. *)
Definition taskDone (k : nat) (o : Outcome) (s : St) : option St :=
  match i_tasks s !! k, i_worker s with
  | Some t, Some w =>
      Some (with_worker (Some (mkWorker (w_combos w) (w_permits w + 1) (w_next w) (w_skip w) (w_rec w) (w_out w)))
              (delete k (i_tasks s)) (i_queue s ++ [Deliver (t_row t) o]) s)
  | _, _ => None
  end.
Definition task_outcome (s : St) (t : Task) (sr : option State) (net : Net) (stop : nat -> bool) (elapsed : Z) : Outcome * list Sent :=
  fireOne (i_cfg s) sr net stop elapsed (t_combo t).

(** The combination of a recursive row: the value goes to position 0. *)
Definition recursiveCombo (combo : list payload) (cur : qstr) : list payload :=
  match combo with [] => [Some cur] | _ :: rest => Some cur :: rest end.

(** One round of the recursive loop: the request is made by the worker itself. *)
Definition recurse (sr : option State) (net : Net) (stop : nat -> bool) (elapsed : Z) (s : St) : option St :=
  match i_worker s with
  | Some w =>
      match w_rec w with
      | None => None
      | Some cur =>
          if w_out w then None
          else
            let quit queue cur' := Some (with_worker (Some (mkWorker (w_combos w) (w_permits w) (w_next w) (w_skip w) (Some cur') true)) (i_tasks s) queue s) in
            match w_combos w !! w_next w with
            | None => quit (i_queue s) cur
            | Some combo =>
                if i_stop s then quit (i_queue s) cur
                else
                  let '(o, _) := fireOne (i_cfg s) sr net stop elapsed (recursiveCombo combo cur) in
                  let queue := i_queue s ++ [Deliver (w_next w) o] in
                  if is_nil (o_extracted o) then quit queue cur
                  else Some (with_worker (Some (mkWorker (w_combos w) (w_permits w) (S (w_next w)) (w_skip w) (Some (o_extracted o)) false)) (i_tasks s) queue s)
            end
      end
  | None => None
  end.

(** [waitForDone] has returned: the worker queues its last call and is gone. *)
Definition finish (s : St) : option St :=
  match i_worker s with
  | Some w => if w_out w && is_nil (i_tasks s) then Some (with_worker None [] (i_queue s ++ [Finished]) s) else None
  | None => None
  end.

(** Resend [k] ends. *)
Definition resendDone (k : nat) (o : Outcome) (s : St) : option St :=
  match i_resends s !! k with
  | Some (t, _) => Some (with_resends (delete k (i_resends s)) (i_queue s ++ [DeliverResend (t_row t) o]) s)
  | None => None
  end.

(** *** Steps *)

Inductive Label :=
| LConfig (f : RunConfig -> RunConfig) | LRequestBytes (data : bytes)
| LStart | LResume | LStop | LClear | LLoad (data : bytes) | LResend (row : Z) | LQueued
| LDispatch | LTask (k : nat) (sr : option State) (net : Net) (stop : nat -> bool) (elapsed : Z)
| LRecurse (sr : option State) (net : Net) (stop : nat -> bool) (elapsed : Z) | LFinish
| LResent (k : nat) (sr : option State) (net : Net) (elapsed : Z).

Inductive step : St -> Label -> St -> Prop :=
| step_config f s : step s (LConfig f) (with_config (f (i_config s)) s)
| step_request data s : step s (LRequestBytes data) (setRequestBytes data s)
| step_start s : step s LStart (start s)
| step_resume s : step s LResume (fst (resume s))
| step_stop s : step s LStop (stop_ s)
| step_clear s : step s LClear (clear s)
| step_load data s : step s (LLoad data) (fst (loadRun data s))
| step_resend row s : step s (LResend row) (fst (resend row s))
| step_queued s s' : runQueued s = Some s' -> step s LQueued s'
| step_dispatch s s' : dispatch s = Some s' -> step s LDispatch s'
| step_task k sr net stop elapsed s s' t :
    i_tasks s !! k = Some t -> taskDone k (fst (task_outcome s t sr net stop elapsed)) s = Some s' -> step s (LTask k sr net stop elapsed) s'
| step_recurse sr net stop elapsed s s' : recurse sr net stop elapsed s = Some s' -> step s (LRecurse sr net stop elapsed) s'
| step_finish s s' : finish s = Some s' -> step s LFinish s'
| step_resent k sr net elapsed s s' t cfg :
    i_resends s !! k = Some (t, cfg) -> resendDone k (fst (resendOne cfg sr net elapsed (t_combo t))) s = Some s' -> step s (LResent k sr net elapsed) s'.

(** A freshly built intruder. *)
Definition fresh (inScope : option (Url -> bool)) : St :=
  mkSt defaultConfig inScope [] false false 0 (fireCfg defaultConfig inScope) None [] [] [].

(** ** One request: what is sent *)

Lemma retry_loop_spec fuel net stop s : forall attempt log r log',
  retry_loop fuel net stop attempt s (net log) log = (r, log') ->
  exists k, (k <= fuel)%nat /\ log' = log ++ replicate k s /\ r = net log' /\
    (forall j, (j < k)%nat -> sd_ok (net (log ++ replicate j s)) = false /\ stop (attempt + j)%nat = false) /\
    (sd_ok r = false -> k = fuel \/ stop (attempt + k)%nat = true).
Proof.
  induction fuel as [|fuel IH]; intros attempt log r log' H; cbn [retry_loop] in H.
  { injection H as <- <-. exists 0%nat. cbn. rewrite app_nil_r. split_and!; try done; [lia|by left]. }
  destruct (negb (sd_ok (net log)) && negb (stop attempt)) eqn:E.
  - apply andb_true_iff in E as [E1 E2]. rewrite !negb_true_iff in *. cbn [client_send] in H.
    destruct (IH (S attempt) (log ++ [s]) r log' H) as (k & Hk & Hl & Hr & Hj & Hf). exists (S k). split_and!.
    + lia.
    + cbn [replicate]. rewrite Hl, <- app_assoc. done.
    + done.
    + intros [|j] Hlt; [by rewrite app_nil_r, Nat.add_0_r|]. cbn [replicate]. destruct (Hj j) as [H1 H2]; [lia|].
      rewrite <- app_assoc in H1. replace (attempt + S j)%nat with (S attempt + j)%nat by lia. done.
    + intros Hx. destruct (Hf Hx) as [->|Hs]; [by left|right]. by replace (attempt + S k)%nat with (S attempt + k)%nat by lia.
  - injection H as <- <-. exists 0%nat. cbn. rewrite app_nil_r. split_and!; try done; [lia|lia|].
    intros Hx. right. rewrite Hx in E. cbn [negb andb] in E. rewrite Nat.add_0_r. by apply negb_false_iff.
Qed.

(** One request of the attack: text that its encoding cannot hold is not sent and is
    reported; otherwise the same bytes go to the configured target once, and again
    only behind a transport failure, at most [retries] times and not after a stop; a
    response, whatever its status, ends the retries.  Redirects follow under the
    policy, at most ten, and with no scope predicate the in-scope policy follows none. *)
Theorem fire_one_requests cfg sr net stop elapsed combo :
  0 <= f_retries cfg ->
  let values := applyRulesToCombo combo (f_rules cfg) in
  match requestBytes cfg sr values with
  | None => fireOne cfg sr net stop elapsed combo =
      (mkOutcome (Some (displayValues combo)) 0 0 elapsed encodingError false false [], [])
  | Some request =>
      let origin := origin_sent cfg request in
      exists k urls hops,
        snd (fireOne cfg sr net stop elapsed combo) = replicate (S k) origin ++ hops /\
        Z.of_nat k <= f_retries cfg /\
        (forall j, (j < k)%nat -> sd_ok (net (replicate (S j) origin)) = false /\ stop j = false) /\
        (hops <> [] -> sd_ok (net (replicate (S k) origin)) = true /\ f_policy cfg <> FollowNever) /\
        (length hops <= kMaxRedirectHops)%nat /\ Forall2 goes_to urls hops /\
        allowed_chain (in_scope_of (f_inScope cfg)) (f_policy cfg) (requestUrl (f_tls cfg) (f_host cfg) (f_port cfg) request) urls /\
        (f_policy cfg = FollowInScope -> f_inScope cfg = None -> hops = [])
  end.
Proof.
  intros Hr. cbv zeta. unfold fireOne. destruct (requestBytes cfg sr _) as [request|]; [|done].
  set (origin := origin_sent cfg request). unfold exchange. cbn [client_send app]. fold origin.
  destruct (retry_loop _ _ _ _ _ _ _) as [r log] eqn:E.
  change (net [origin]) with (net ([] ++ [origin])) in E. change [origin] with ([] ++ [origin]) in E.
  apply retry_loop_spec in E as (k & Hk & Hl & Hres & Hj & _). cbn [app] in *.
  set (scopeOf := in_scope_of (f_inScope cfg)).
  pose proof (follow_redirects_spec net scopeOf (f_policy cfg) (f_cookies cfg) (fun _ => false) (f_tls cfg) (f_host cfg) (f_port cfg) request r log) as Hf.
  destruct (followRedirects _ _ _ _ _ _ _ _ _ _ _) as [[final hops] log'].
  destruct Hf as (urls & sents & Hlog & Hh & Hb & Hg & Hc & Hs & Hn & _). cbn [snd].
  assert (Hlogk : log = replicate (S k) origin) by (by rewrite Hl).
  exists k, urls, sents. split_and!.
  - rewrite Hlog, Hlogk. done.
  - lia.
  - intros j Hlt. apply Hj in Hlt. exact Hlt.
  - intros Hne. rewrite <- Hlogk, <- Hres. split.
    + destruct (sd_ok r) eqn:Eo; [done|]. destruct Hne. apply Hn. by right.
    + intros Hp. destruct Hne. apply Hn. by left.
  - apply Forall2_length in Hg. lia.
  - done.
  - done.
  - intros Hp Hnone. specialize (Hs Hp). destruct urls as [|u urls]; [by apply Forall2_nil_inv_l in Hg|].
    apply Forall_cons in Hs as [Hu _]. unfold scopeOf in Hu. rewrite Hnone in Hu. done.
Qed.

(** What a resend shares with the first request: without rules, with a policy other than
    in-scope, and when no retry is due, the row gets the same result, payload column
    apart. *)
Definition same_result (a b : Outcome) : Prop :=
  o_status a = o_status b /\ o_size a = o_size b /\ o_elapsed a = o_elapsed b /\ o_error a = o_error b /\
  o_matched a = o_matched b /\ o_reflected a = o_reflected b /\ o_extracted a = o_extracted b.

Lemma follow_scope_irrelevant net s1 s2 policy cookies stop tls host port request r log :
  policy <> FollowInScope ->
  followRedirects net s1 policy cookies stop tls host port request r log = followRedirects net s2 policy cookies stop tls host port request r log.
Proof.
  intros Hp. unfold followRedirects. destruct (_ || _); [done|]. set (c0 := mkChain _ _ _ _ _ _ _).
  assert (E : forall fuel hops c, follow_loop fuel net s1 policy cookies stop hops c = follow_loop fuel net s2 policy cookies stop hops c).
  { induction fuel as [|fuel IH]; intros hops c; cbn [follow_loop]; [done|]. destruct (_ && _ && _); [|done].
    assert (Eh : hop net s1 policy cookies c = hop net s2 policy cookies c).
    { unfold hop. destruct (resolveRedirect _ _); [|done].
      assert (Ea : forall b1 b2 h h', followAllowed policy h h' b1 = followAllowed policy h h' b2).
      { intros b1 b2 h h'. unfold followAllowed. unfold FollowInScope in *. by rewrite (proj2 (Z.eqb_neq policy 2) Hp). }
      by rewrite (Ea (s1 _) (s2 u)). }
    rewrite Eh. destruct (hop net s2 policy cookies c); [by rewrite IH|done]. }
  by rewrite E.
Qed.

(** A resent row is graded as in the first run when no processing rules are set, the
    redirect policy is not in-scope and the first send of the run did not fail. *)
Theorem resend_grades_alike cfg sr net stop elapsed combo :
  f_rules cfg = [] -> f_policy cfg <> FollowInScope -> 0 <= f_retries cfg ->
  (forall request, requestBytes cfg sr combo = Some request -> sd_ok (net [origin_sent cfg request]) = true) ->
  same_result (fst (resendOne cfg sr net elapsed combo)) (fst (fireOne cfg sr net stop elapsed combo)).
Proof.
  intros Hru Hp Hr Hok. unfold resendOne, fireOne. rewrite Hru. change (applyRulesToCombo combo []) with combo.
  assert (E : forall sc, exchange cfg 0 sc net (fun _ => false) (requestBytes cfg sr combo) =
              exchange cfg (f_retries cfg) (in_scope_of (f_inScope cfg)) net stop (requestBytes cfg sr combo)).
  { intros sc. unfold exchange. destruct (requestBytes cfg sr combo) as [b|]; [|done]. specialize (Hok b eq_refl). cbn [client_send app].
    assert (Hrl : forall f st, retry_loop f net st 0 (origin_sent cfg b) (net [origin_sent cfg b]) [origin_sent cfg b] = (net [origin_sent cfg b], [origin_sent cfg b])).
    { intros [|f] st; cbn [retry_loop]; [done|]. by rewrite Hok. }
    rewrite !Hrl. by rewrite (follow_scope_irrelevant net sc (in_scope_of (f_inScope cfg))). }
  rewrite E. destruct (exchange _ _ _ _ _ _) as [r log]. unfold outcome_of. cbn [fst].
  destruct (if sd_ok r then _ else _) as [[m rf] ex]. by repeat split.
Qed.

(** ** The invariant of a run *)

(** The rows whose results are still to come: queued, in flight, not yet dispatched. *)
Definition queued_row (c : Callback) : list nat := match c with Deliver row _ => [row] | _ => [] end.
Definition todo_of (w : Worker) : list nat :=
  if w_out w then [] else List.filter (fun k => negb (bool_decide (k ∈ w_skip w))) (seq (w_next w) (length (w_combos w) - w_next w)).
Definition todo_rows (ow : option Worker) : list nat := match ow with Some w => todo_of w | None => [] end.
Definition pending (s : St) : list nat := flat_map queued_row (i_queue s) ++ map t_row (i_tasks s) ++ todo_rows (i_worker s).

Definition plain_call (c : Callback) : Prop := match c with Deliver _ _ => True | _ => False end.
Definition completed_rows (rows : list ResultRow) : Z := zlen (List.filter rr_complete rows).
Definition open_rows (rows : list ResultRow) (ks : list nat) : Prop := forall k r, k ∈ ks -> rows !! k = Some r -> rr_complete r = false.

(** The worker is alive only in a run; permits and tasks make up a clamped pool size. *)
Definition worker_inv (s : St) : Prop :=
  match i_worker s with
  | Some w => i_running s = true /\ Forall plain_call (i_queue s) /\ (is_Some (w_rec w) -> w_skip w = []) /\
      0 <= w_permits w /\ 1 <= w_permits w + zlen (i_tasks s) <= kMaxConcurrency
  | None => i_tasks s = [] /\
      (if i_running s then exists q, i_queue s = q ++ [Finished] /\ Forall plain_call q else i_queue s = [])
  end.

Record Inv (s : St) : Prop := {
  inv_resends : i_resends s = [];
  inv_count : i_completed s = completed_rows (i_attacks s);
  inv_nodup : NoDup (pending s);
  inv_open : open_rows (i_attacks s) (pending s);
  inv_worker : worker_inv s
}.

Lemma open_rows_mono rows ks ks' : (forall k, k ∈ ks' -> k ∈ ks) -> open_rows rows ks -> open_rows rows ks'.
Proof. intros H Ho k r Hk. apply Ho. by apply H. Qed.

(** A step that only moves pending rows around. *)
Lemma pending_perm s s' rows :
  pending s' ≡ₚ pending s -> NoDup (pending s) -> open_rows rows (pending s) -> NoDup (pending s') /\ open_rows rows (pending s').
Proof.
  intros Hp Hn Ho. split; [by rewrite Hp|]. eapply open_rows_mono; [|exact Ho]. intros k Hk. by rewrite <- Hp.
Qed.

Lemma idle_pending s : Inv s -> i_running s = false -> i_worker s = None /\ i_tasks s = [] /\ i_queue s = [] /\ pending s = [].
Proof.
  intros HI Hr. pose proof (inv_worker s HI) as Hw. unfold worker_inv in Hw. destruct (i_worker s) as [w|] eqn:E.
  - destruct Hw as [Hw _]. congruence.
  - rewrite Hr in Hw. destruct Hw as [Ht Hq]. unfold pending. by rewrite E, Ht, Hq.
Qed.

Lemma clamp_range n : 1 <= clampConcurrency n <= kMaxConcurrency.
Proof. unfold clampConcurrency, kMaxConcurrency. repeat case_match; to_prop; lia. Qed.

Lemma todo_nodup w : NoDup (todo_of w).
Proof.
  unfold todo_of. destruct (w_out w); [by constructor|]. rewrite NoDup_ListNoDup. apply List.NoDup_filter, seq_NoDup.
Qed.

Lemma todo_elem w k : k ∈ todo_of w -> w_out w = false /\ (w_next w <= k < length (w_combos w))%nat /\ k ∉ w_skip w.
Proof.
  unfold todo_of. destruct (w_out w); [by intros H%not_elem_of_nil|]. rewrite elem_of_filter_bool, negb_true_iff, bool_decide_eq_false.
  rewrite list_elem_of_In, in_seq. intros [H1 H2]. split_and!; [done|lia|lia|done].
Qed.

(** Launching a worker whose rows to fire are open. *)
Lemma inv_launch combos conc skip rec rows s :
  Inv s -> i_running s = false -> (is_Some rec -> skip = []) ->
  open_rows rows (todo_of (newWorker combos conc skip rec)) ->
  Inv (launch (newWorker combos conc skip rec) (with_attacks rows (completed_rows rows) s)).
Proof.
  intros HI Hr Hrec Ho. destruct (idle_pending s HI Hr) as (Hw & Ht & Hq & _). pose proof (inv_resends s HI) as Hre.
  pose proof (clamp_range conc). split.
  - exact Hre.
  - done.
  - unfold pending, launch, with_attacks. cbn [i_queue i_tasks i_worker todo_rows]. rewrite Hq, Ht. cbn [flat_map map app].
    apply todo_nodup.
  - unfold pending, launch, with_attacks. cbn [i_queue i_tasks i_worker i_attacks todo_rows]. rewrite Hq, Ht. exact Ho.
  - unfold worker_inv, launch, with_attacks. cbn [i_queue i_tasks i_worker i_running]. rewrite Hq, Ht. cbn [w_permits newWorker].
    split_and!; [done|by constructor|exact Hrec|lia|rewrite zlen_nil; lia|rewrite zlen_nil; lia].
Qed.

(** *** The steps of the GUI thread *)

Lemma count_rows_app a b : completed_rows (a ++ b) = completed_rows a + completed_rows b.
Proof. unfold completed_rows. by rewrite List.filter_app, zlen_app. Qed.

(** A row filled in counts once more when it was open. *)
Lemma count_fill o rows : forall k r, rows !! k = Some r -> rr_complete r = false ->
  completed_rows (alter (fillRow o) k rows) = completed_rows rows + 1.
Proof.
  induction rows as [|r0 rows IH]; intros [|k] r H Hr; [done..| |]; cbn [lookup list_lookup] in H.
  - injection H as ->. change (alter (fillRow o) 0%nat (r :: rows)) with (fillRow o r :: rows).
    unfold completed_rows. cbn [List.filter fillRow rr_complete]. rewrite Hr, zlen_cons. lia.
  - change (alter (fillRow o) (S k) (r0 :: rows)) with (r0 :: alter (fillRow o) k rows).
    specialize (IH k r H Hr). unfold completed_rows in *. cbn [List.filter]. destruct (rr_complete r0); rewrite ?zlen_cons; lia.
Qed.

Lemma fresh_rows_open combos ks : open_rows (startRows combos) ks.
Proof.
  intros k r _ H. unfold startRows in H. rewrite list_lookup_imap in H. destruct (combos !! k); [|done]. by injection H as <-.
Qed.

Lemma completed_fresh combos : completed_rows (startRows combos) = 0.
Proof.
  unfold completed_rows. rewrite filter_drop_all; [done|]. intros r (k & Hk)%list_elem_of_lookup.
  by apply (fresh_rows_open combos [k] k r); [left|].
Qed.

Lemma inv_start s : Inv s -> Inv (start s).
Proof.
  intros HI. unfold start. destruct (i_running s) eqn:Er; [done|]. destruct (is_nil _); [done|].
  set (combos := startCombos (i_config s)). rewrite <- (completed_fresh combos).
  apply inv_launch; [done|done| |apply fresh_rows_open]. by destruct (rc_recursive _).
Qed.

Lemma run_inv_resume s : Inv s -> Inv (fst (resume s)).
Proof.
  intros HI. unfold resume. destruct (i_running s) eqn:Er; [done|]. destruct (_ || _); [done|]. destruct (is_nil _); [done|].
  destruct (negb _) eqn:Ep; [done|]. apply negb_false_iff in Ep. cbn [fst].
  set (flags := map rr_complete (i_attacks s)) in *.
  destruct (resume_plan (rc_recursive (i_config s)) flags) as (_ & Hp & _). destruct (Hp Ep) as (Hs & _ & _).
  assert (Ho : open_rows (i_attacks s) (todo_of (newWorker (map rr_combo (i_attacks s)) (rc_concurrency (i_config s))
                 (pl_skipRows (planResume (rc_recursive (i_config s)) flags)) None))).
  { intros k r Hk Hr. apply todo_elem in Hk as (_ & _ & Hk). cbn [newWorker w_skip] in Hk.
    rewrite Hs in Hk. unfold flags in Hk. rewrite list_lookup_fmap, Hr in Hk. cbn in Hk. destruct (rr_complete r); [by destruct Hk|done]. }
  apply (inv_launch _ _ _ None (i_attacks s) s HI Er) in Ho; [|by intros []].
  rewrite <- (inv_count s HI) in Ho. by destruct s.
Qed.

Lemma inv_flags ru st s : (ru = i_running s) -> Inv s -> Inv (with_flags ru st s).
Proof. intros -> HI. destruct HI as [H1 H2 H3 H4 H5]. by split. Qed.

Lemma inv_stop s : Inv s -> Inv (stop_ s).
Proof. intros HI. unfold stop_. destruct (i_running s) eqn:E; [|done]. by apply inv_flags. Qed.

Lemma inv_clear s : Inv s -> Inv (clear s).
Proof.
  intros HI%inv_stop. unfold clear. destruct (is_nil _); [done|]. destruct HI as [H1 H2 H3 H4 H5]. split; try done.
Qed.

Lemma inv_load data s : Inv s -> Inv (fst (loadRun data s)).
Proof.
  intros HI. unfold loadRun. destruct (i_running s) eqn:Er; [done|]. cbn [fst].
  destruct (idle_pending s HI Er) as (Hw & Ht & Hq & Hp). destruct HI as [H1 H2 H3 H4 H5]. split; try done.
  change (open_rows (sr_rows (fromBytes data)) (pending s)). rewrite Hp. by intros k r Hk%not_elem_of_nil.
Qed.

Lemma inv_queued s s' : Inv s -> runQueued s = Some s' -> Inv s'.
Proof.
  intros HI H. unfold runQueued in H. destruct (i_queue s) as [|c q] eqn:Eq; [done|]. injection H as <-.
  destruct HI as [H1 H2 H3 H4 H5]. unfold worker_inv in H5. unfold pending in H3, H4. rewrite Eq in *. cbn [flat_map] in *.
  assert (Hc : plain_call c \/ c = Finished /\ q = [] /\ i_worker s = None /\ i_tasks s = []).
  { destruct (i_worker s); [left; by destruct H5 as (_ & [? _]%Forall_cons & _)|].
    destruct (i_running s); [|by destruct H5]. destruct H5 as (Ht & q' & E & Hf). destruct q' as [|c' q']; injection E as -> ->.
    - right. by split_and!. - left. by apply Forall_cons in Hf as []. }
  destruct Hc as [Hc|(-> & -> & Hw & Ht)].
  - destruct c as [row o| |]; try done. cbn [deliver queued_row app] in *. apply NoDup_cons in H3 as [Hn H3].
    assert (HW : forall rows n, worker_inv (with_attacks rows n (with_worker (i_worker s) (i_tasks s) q s))).
    { intros rows n. unfold worker_inv, with_attacks, with_worker. cbn [i_worker i_running i_queue i_tasks]. destruct (i_worker s).
      - destruct H5 as (? & [_ ?]%Forall_cons & ?). done.
      - destruct (i_running s); [|by destruct H5]. destruct H5 as (? & q' & E & Hf). split; [done|]. destruct q' as [|c' q']; [done|].
        injection E as <- ->. exists q'. split; [done|]. by apply Forall_cons in Hf as []. }
    destruct (row <? length _)%nat eqn:El; cbn [with_worker i_attacks] in El.
    + apply Nat.ltb_lt in El. destruct (lookup_lt_is_Some_2 _ _ El) as [r Hr]. split.
      * exact H1.
      * change (i_completed s + 1 = completed_rows (alter (fillRow o) row (i_attacks s))). rewrite H2. symmetry.
        apply (count_fill o _ _ r Hr). apply (H4 row r); [left|done].
      * exact H3.
      * change (open_rows (alter (fillRow o) row (i_attacks s)) (flat_map queued_row q ++ map t_row (i_tasks s) ++ todo_rows (i_worker s))).
        intros k r' Hk Hr'. destruct (decide (k = row)) as [->|Hne]; [done|]. rewrite list_lookup_alter_ne in Hr' by done.
        apply (H4 k r'); [by right|done].
      * apply HW.
    + split; [exact H1|exact H2|exact H3| |apply (HW (i_attacks s) (i_completed s))].
      eapply open_rows_mono; [|exact H4]. intros k Hk. by right.
  - cbn [deliver]. split; [exact H1|exact H2| | |].
    + unfold pending. cbn. rewrite Hw, Ht. by constructor.
    + unfold pending. cbn. rewrite Hw, Ht. by intros k r Hk%not_elem_of_nil.
    + unfold worker_inv. cbn. by rewrite Hw.
Qed.

(** *** The steps of the worker and its tasks *)

Lemma todo_next w : w_out w = false -> (w_next w < length (w_combos w))%nat ->
  todo_of w = (if bool_decide (w_next w ∈ w_skip w) then [] else [w_next w]) ++
    todo_of (mkWorker (w_combos w) (w_permits w) (S (w_next w)) (w_skip w) (w_rec w) false).
Proof.
  intros Ho Hl. unfold todo_of. rewrite Ho. cbn [w_out w_skip w_next w_combos].
  destruct (length (w_combos w) - w_next w)%nat as [|n] eqn:E; [lia|]. replace (length (w_combos w) - S (w_next w))%nat with n by lia.
  cbn [seq List.filter]. by destruct (bool_decide _).
Qed.

Lemma todo_out w : w_out w = true -> todo_of w = [].
Proof. intros H. unfold todo_of. by rewrite H. Qed.

(** The dispatch loop ends: what was still to do is given up. *)
Lemma inv_quit w w' s : Inv s -> i_worker s = Some w -> w_permits w' = w_permits w -> w_out w' = true -> w_skip w' = w_skip w ->
  (is_Some (w_rec w') -> is_Some (w_rec w)) -> Inv (with_worker (Some w') (i_tasks s) (i_queue s) s).
Proof.
  intros [H1 H2 H3 H4 H5] Hw Hp Ho Hs Hr. unfold worker_inv, pending in *. rewrite Hw in *. cbn [todo_rows] in *.
  assert (E : forall k, k ∈ flat_map queued_row (i_queue s) ++ map t_row (i_tasks s) ++ todo_of w' ->
                        k ∈ flat_map queued_row (i_queue s) ++ map t_row (i_tasks s) ++ todo_of w).
  { intros k. rewrite (todo_out w' Ho), app_nil_r, !elem_of_app. tauto. }
  split; [exact H1|exact H2| | |].
  - unfold pending. cbn [with_worker i_queue i_tasks i_worker todo_rows]. rewrite (todo_out w' Ho), app_nil_r. rewrite app_assoc in H3.
    by apply NoDup_app in H3 as (? & _).
  - eapply open_rows_mono; [|exact H4]. intros k Hk. apply E. exact Hk.
  - unfold worker_inv. cbn. rewrite Hp, Hs. destruct H5 as (? & ? & Hsk & ? & ?). split_and!; try done; [auto|lia|lia].
Qed.

Lemma inv_dispatch s s' : Inv s -> dispatch s = Some s' -> Inv s'.
Proof.
  intros HI H. unfold dispatch in H. destruct (i_worker s) as [w|] eqn:Ew; [|done].
  destruct (_ || _) eqn:Eo; [done|]. apply orb_false_iff in Eo as [Eo Erec].
  destruct (w_combos w !! w_next w) as [combo|] eqn:Ec; [|injection H as <-; by eapply inv_quit].
  destruct (i_stop s); [injection H as <-; by eapply inv_quit|].
  pose proof (todo_next w Eo (lookup_lt_Some _ _ _ Ec)) as Et.
  destruct HI as [H1 H2 H3 H4 H5]. unfold worker_inv, pending in *. rewrite Ew in *. cbn [todo_rows] in *.
  destruct H5 as (Hr & Hq & Hs & Hp & Hc).
  destruct (bool_decide (w_next w ∈ w_skip w)) eqn:Eb.
  - injection H as <-. rewrite Et in H3, H4. by split.
  - destruct (w_permits w <=? 0) eqn:E0; [done|]. to_prop. injection H as <-.
    assert (E : flat_map queued_row (i_queue s) ++ map t_row (i_tasks s ++ [mkTask (w_next w) combo]) ++
                todo_of (mkWorker (w_combos w) (w_permits w - 1) (S (w_next w)) (w_skip w) (w_rec w) false)
                = flat_map queued_row (i_queue s) ++ map t_row (i_tasks s) ++ todo_of w).
    { rewrite Et, map_app. cbn [map t_row]. by rewrite <- !app_assoc. }
    split; [exact H1|exact H2| | |].
    + unfold pending. cbn [with_worker i_queue i_tasks i_worker todo_rows]. by rewrite E.
    + unfold pending. cbn [with_worker i_queue i_tasks i_worker todo_rows i_attacks]. by rewrite E.
    + unfold worker_inv. cbn [with_worker i_worker i_running i_queue i_tasks w_rec w_skip w_permits]. rewrite zlen_app. change (zlen [_]) with 1.
      split_and!; try done; lia.
Qed.

(** A task that ends hands its row to the queue. *)
Lemma task_pending k o s t w p : i_tasks s !! k = Some t -> i_worker s = Some w ->
  pending (with_worker (Some (mkWorker (w_combos w) p (w_next w) (w_skip w) (w_rec w) (w_out w))) (delete k (i_tasks s))
             (i_queue s ++ [Deliver (t_row t) o]) s) ≡ₚ pending s.
Proof.
  intros Ht Ew. set (w' := mkWorker _ _ _ _ _ _). unfold pending. cbn [with_worker i_queue i_tasks i_worker todo_rows]. rewrite Ew.
  cbn [todo_rows]. change (todo_of w') with (todo_of w).
  rewrite flat_map_app. cbn [flat_map queued_row app]. rewrite <- !app_assoc. apply Permutation_app_head. cbn [app].
  change (t_row t :: map t_row (delete k (i_tasks s)) ++ todo_of w) with (map t_row (t :: delete k (i_tasks s)) ++ todo_of w).
  apply Permutation_app_tail, Permutation_map. symmetry. by apply delete_Permutation.
Qed.

Lemma inv_task k o s s' : Inv s -> taskDone k o s = Some s' -> Inv s'.
Proof.
  intros [H1 H2 H3 H4 H5] H. unfold taskDone in H. destruct (i_tasks s !! k) as [t|] eqn:Et; [|done].
  destruct (i_worker s) as [w|] eqn:Ew; [|done]. injection H as <-.
  set (w' := mkWorker _ _ _ _ _ _). unfold worker_inv in H5. rewrite Ew in H5.
  pose proof (delete_Permutation _ _ _ Et) as Hp.
  destruct (pending_perm s (with_worker (Some w') (delete k (i_tasks s)) (i_queue s ++ [Deliver (t_row t) o]) s) (i_attacks s)) as [N O]; [|done|done|].
  { by apply task_pending. }
  split; [exact H1|exact H2|exact N|exact O|]. unfold worker_inv. cbn [with_worker i_worker i_running i_queue i_tasks w' w_rec w_skip w_permits].
  destruct H5 as (? & ? & ? & ? & ?). assert (Hl : zlen (i_tasks s) = zlen (delete k (i_tasks s)) + 1).
  { unfold zlen. rewrite (Permutation_length Hp). cbn [length]. lia. }
  split_and!; try done; [apply Forall_app; split; [done|by repeat constructor]|lia|lia|lia].
Qed.

(** A direct request of the recursive loop. *)
Lemma inv_recurse sr net stop elapsed s s' : Inv s -> recurse sr net stop elapsed s = Some s' -> Inv s'.
Proof.
  intros HI H. unfold recurse in H. destruct (i_worker s) as [w|] eqn:Ew; [|done].
  destruct (w_rec w) as [cur|] eqn:Er; [|done]. destruct (w_out w) eqn:Eo; [done|].
  destruct (w_combos w !! w_next w) as [combo|] eqn:Ec; [|injection H as <-; by eapply inv_quit].
  destruct (i_stop s); [injection H as <-; by eapply inv_quit|].
  destruct (fireOne _ _ _ _ _ _) as [o log].
  destruct HI as [H1 H2 H3 H4 H5]. unfold worker_inv in H5. rewrite Ew in H5. destruct H5 as (Hr & Hq & Hs & Hp & Hc).
  (* the next state when the loop goes on *)
  set (w1 := mkWorker (w_combos w) (w_permits w) (S (w_next w)) (w_skip w) (Some (o_extracted o)) false).
  assert (Et : todo_of w = w_next w :: todo_of w1).
  { rewrite (todo_next w Eo (lookup_lt_Some _ _ _ Ec)), bool_decide_false; [done|]. rewrite Hs by (rewrite Er; by eexists). apply not_elem_of_nil. }
  set (s1 := with_worker (Some w1) (i_tasks s)
               (i_queue s ++ [Deliver (w_next w) o]) s).
  assert (HI1 : Inv s1).
  { destruct (pending_perm s s1 (i_attacks s)) as [N O]; [|done|done|].
    - unfold pending. cbn [s1 with_worker i_queue i_tasks i_worker todo_rows]. rewrite Ew. cbn [todo_rows]. rewrite Et, flat_map_app.
      cbn [flat_map queued_row app]. rewrite <- !app_assoc. apply Permutation_app_head.
      cbn [app]. by rewrite Permutation_middle.
    - split; [exact H1|exact H2|exact N|exact O|]. unfold worker_inv. cbn [s1 with_worker i_worker i_running i_queue i_tasks w_rec w_skip w_permits].
      assert (w_skip w = []) by (apply Hs; rewrite Er; by eexists). 
      assert (Forall plain_call (i_queue s ++ [Deliver (w_next w) o])) by (apply Forall_app; split; [done|by repeat constructor]).
      split_and!; try done; cbn [w1 w_permits]; lia. }
  destruct (is_nil (o_extracted o)); injection H as <-; [|exact HI1].
  apply (inv_quit w1 (mkWorker (w_combos w) (w_permits w) (w_next w) (w_skip w) (Some cur) true) s1 HI1); done.
Qed.

Lemma inv_finish s s' : Inv s -> finish s = Some s' -> Inv s'.
Proof.
  intros [H1 H2 H3 H4 H5] H. unfold finish in H. destruct (i_worker s) as [w|] eqn:Ew; [|done].
  destruct (w_out w && is_nil (i_tasks s)) eqn:E; [|done]. apply andb_true_iff in E as [Eo Et]. apply is_nil_true in Et. injection H as <-.
  unfold worker_inv, pending in *. rewrite Ew, Et in *. cbn [todo_rows map app] in *. destruct H5 as (Hr & Hq & _).
  assert (Ep : pending (with_worker None [] (i_queue s ++ [Finished]) s) = flat_map queued_row (i_queue s)).
  { unfold pending. cbn [with_worker i_queue i_tasks i_worker todo_rows map app]. rewrite flat_map_app. cbn. by rewrite !app_nil_r. }
  split; [exact H1|exact H2| | |].
  - rewrite Ep. by apply NoDup_app in H3 as (? & _).
  - rewrite Ep. eapply open_rows_mono; [|exact H4]. intros k Hk. apply elem_of_app. by left.
  - unfold worker_inv. cbn [with_worker i_worker i_running i_queue i_tasks]. rewrite Hr. split; [done|]. by exists (i_queue s).
Qed.

(** *** Reachable states *)

Definition no_resend (l : Label) : Prop := match l with LResend _ => False | _ => True end.

Lemma run_inv_step s l s' : Inv s -> step s l s' /\ no_resend l -> Inv s'.
Proof.
  intros HI [H Hn]. destruct H; try done.
  - by destruct HI.
  - unfold setRequestBytes. destruct (i_running s); [done|]. destruct (decodeRequestText data) as [t latin1]. by destruct HI.
  - by apply inv_start.
  - by apply run_inv_resume.
  - by apply inv_stop.
  - by apply inv_clear.
  - by apply inv_load.
  - by eapply inv_queued.
  - by eapply inv_dispatch.
  - by eapply inv_task.
  - by eapply inv_recurse.
  - by eapply inv_finish.
  - rewrite (inv_resends s HI) in *. done.
Qed.

Lemma inv_fresh scope : Inv (fresh scope).
Proof. split; try done. constructor. Qed.

Definition reached (scope : option (Url -> bool)) (s : St) : Prop := exists tr, steps step (fresh scope) tr s /\ Forall no_resend tr.

Lemma reached_inv scope s : reached scope s -> Inv s.
Proof.
  intros (tr & H & Ho). apply (steps_restrict step no_resend) in H; [|done].
  exact (steps_invariant _ Inv (fun s a s' HI Hs => run_inv_step s a s' HI Hs) _ _ _ H (inv_fresh scope)).
Qed.

(** What the worker, its tasks and the event loop do by themselves. *)
Definition work (l : Label) : Prop :=
  match l with LQueued | LDispatch | LTask _ _ _ _ _ | LRecurse _ _ _ _ | LFinish => True | _ => False end.

Lemma work_no_resend l : work l -> no_resend l.
Proof. by destruct l. Qed.

(** A queued call leaves the rows that are complete alone. *)
Lemma work_keeps_complete s l s' k r :
  Inv s -> step s l s' -> work l -> i_attacks s !! k = Some r -> rr_complete r = true -> i_attacks s' !! k = Some r.
Proof.
  intros HI H Hw Hk Hr. destruct H as [| | | | | | | |s s' H|s s' H|k' sr net stop elapsed s s' t Ht H|sr net stop elapsed s s' H|s s' H|]; try done.
  - unfold runQueued in H. destruct (i_queue s) as [|c q] eqn:Eq; [done|]. injection H as <-.
    pose proof (inv_open s HI) as Ho. unfold pending in Ho. rewrite Eq in Ho.
    destruct c as [row o|row o|]; cbn [deliver]; [| |done].
    + destruct (_ <? _)%nat; [|done]. cbn [with_attacks with_worker i_attacks].
      destruct (decide (k = row)) as [->|Hne]; [|by rewrite list_lookup_alter_ne].
      rewrite (Ho row r) in Hr; [done|by left|done].
    + pose proof (inv_worker s HI) as H5. unfold worker_inv in H5. rewrite Eq in H5. destruct (i_worker s).
      * by destruct H5 as (_ & [? _]%Forall_cons & _).
      * destruct (i_running s); [|by destruct H5]. destruct H5 as (_ & [|c q'] & E & Hf); [done|]. injection E as <- _.
        by apply Forall_cons in Hf as [].
  - unfold dispatch in H. repeat case_match; simplify_eq; done.
  - unfold taskDone in H. repeat case_match; simplify_eq; done.
  - unfold recurse in H. repeat case_match; simplify_eq; done.
  - unfold finish in H. repeat case_match; simplify_eq; done.
Qed.

(** A running attack keeps what it was launched with. *)
Lemma run_keeps_config s : i_running s = true -> forall l s', step s l s' ->
  i_cfg s' = i_cfg s /\ (forall w w', i_worker s = Some w -> i_worker s' = Some w' -> w_combos w' = w_combos w /\ w_skip w' = w_skip w).
Proof.
  intros Hr l s' H. assert (D : forall x : St, i_cfg x = i_cfg s -> i_worker x = i_worker s ->
    i_cfg x = i_cfg s /\ (forall w w', i_worker s = Some w -> i_worker x = Some w' -> w_combos w' = w_combos w /\ w_skip w' = w_skip w)).
  { intros x E1 E2. split; [done|]. rewrite E2. intros w w' H1 H2. rewrite H1 in H2. by injection H2 as <-. }
  destruct H as [| | | | | | | |s s' H|s s' H|k sr net stop elapsed s s' t Ht H|sr net stop elapsed s s' H|s s' H|k sr net elapsed s s' t cfg Ht H].
  - by apply D.
  - apply D; unfold setRequestBytes; by rewrite Hr.
  - apply D; unfold start; by rewrite Hr.
  - apply D; unfold resume; by rewrite Hr.
  - apply D; unfold stop_; by rewrite Hr.
  - apply D; unfold clear, stop_; rewrite Hr; by destruct (is_nil _).
  - apply D; unfold loadRun; by rewrite Hr.
  - apply D; unfold resend; by rewrite Hr.
  - unfold runQueued in H. destruct (i_queue s) as [|c q]; [done|]. injection H as <-.
    apply D; destruct c as [row o|row o|]; cbn [deliver]; try done; by destruct (_ <? _)%nat.
  - unfold dispatch in H. destruct (i_worker s) as [w|] eqn:Ew; [|done]. repeat case_match; simplify_eq.
    all: split; [done|]; intros w1 w2 [= <-] [= <-]; by split.
  - unfold taskDone in H. rewrite Ht in H. destruct (i_worker s) as [w|] eqn:Ew; [|done]. injection H as <-.
    split; [done|]. intros w1 w2 [= <-] [= <-]. by split.
  - unfold recurse in H. destruct (i_worker s) as [w|] eqn:Ew; [|done]. repeat case_match; simplify_eq.
    all: split; [done|]; intros w1 w2 [= <-] [= <-]; by split.
  - unfold finish in H. repeat case_match; simplify_eq. by split.
  - apply D; unfold resendDone in H; repeat case_match; by simplify_eq.
Qed.

(** In every state an intruder reaches without resends: the progress count is the number
    of complete rows, each row still to be filled has one request pending and is not
    complete, at most 64 requests are in flight, an idle intruder has nothing in
    flight and nothing queued, the run itself never touches a complete row, and what a
    running attack sends is fixed when it is launched, whatever is set meanwhile. *)
Theorem attack_run_safe scope s :
  reached scope s ->
  i_completed s = completed_rows (i_attacks s) /\
  (NoDup (pending s) /\ open_rows (i_attacks s) (pending s)) /\
  zlen (i_tasks s) <= kMaxConcurrency /\
  (i_running s = false -> i_worker s = None /\ i_tasks s = [] /\ i_queue s = []) /\
  (forall l s' k r, step s l s' -> work l -> i_attacks s !! k = Some r -> rr_complete r = true -> i_attacks s' !! k = Some r) /\
  (i_running s = true -> forall l s', step s l s' ->
     i_cfg s' = i_cfg s /\ (forall w w', i_worker s = Some w -> i_worker s' = Some w' -> w_combos w' = w_combos w /\ w_skip w' = w_skip w)).
Proof.
  intros HI%reached_inv. split_and!.
  - apply (inv_count s HI).
  - apply (inv_nodup s HI).
  - apply (inv_open s HI).
  - pose proof (inv_worker s HI) as H5. unfold worker_inv in H5. destruct (i_worker s) as [w|].
    + destruct H5 as (_ & _ & _ & ? & ?). lia.
    + destruct H5 as [-> _]. rewrite zlen_nil. unfold kMaxConcurrency. lia.
  - intros Hr. by destruct (idle_pending s HI Hr) as (? & ? & ? & _).
  - intros. by eapply work_keeps_complete.
  - apply run_keeps_config.
Qed.

(** ** Every run ends *)

Definition worker_work (ow : option Worker) : nat :=
  match ow with
  | None => 0
  | Some w => if w_out w then 2 else 3 + 3 * (length (w_combos w) - w_next w)
  end.
Definition run_work (s : St) : nat := length (i_queue s) + 2 * length (i_tasks s) + worker_work (i_worker s).

Lemma work_decreases s l s' : step s l s' -> work l -> (run_work s' < run_work s)%nat.
Proof.
  intros H Hw. destruct H as [| | | | | | | |s s' H|s s' H|k sr net stop elapsed s s' t Ht H|sr net stop elapsed s s' H|s s' H|]; try done; unfold run_work.
  - unfold runQueued in H. destruct (i_queue s) as [|c q] eqn:Eq; [done|]. injection H as <-. cbn [length].
    destruct c as [row o|row o|]; cbn [deliver]; [| |cbn; lia]; by destruct (_ <? _)%nat; cbn; lia.
  - unfold dispatch in H. destruct (i_worker s) as [w|] eqn:Ew; [|done]. destruct (w_out w) eqn:Eo; [done|].
    destruct (orb _ _); [done|]. destruct (w_combos w !! w_next w) eqn:Ec; [apply lookup_lt_Some in Ec|].
    + cbn [worker_work]. rewrite Eo. repeat case_match; simplify_eq; cbn [with_worker i_queue i_tasks i_worker worker_work w_out w_combos w_next]; rewrite ?length_app; cbn [length]; lia.
    + injection H as <-. cbn [with_worker i_queue i_tasks i_worker worker_work w_out]. rewrite Eo. lia.
  - unfold taskDone in H. rewrite Ht in H. destruct (i_worker s) as [w|] eqn:Ew; [|done]. injection H as <-.
    pose proof (Permutation_length (delete_Permutation _ _ _ Ht)) as Hl. cbn [length] in Hl.
    cbn [with_worker i_queue i_tasks i_worker worker_work w_out w_combos w_next]. rewrite length_app. cbn [length]. lia.
  - unfold recurse in H. destruct (i_worker s) as [w|] eqn:Ew; [|done]. destruct (w_rec w); [|done]. destruct (w_out w) eqn:Eo; [done|].
    cbn [worker_work]. rewrite Eo. destruct (w_combos w !! w_next w) eqn:Ec; [apply lookup_lt_Some in Ec|].
    + destruct (i_stop s); [by injection H as <-; cbn; lia|]. destruct (fireOne _ _ _ _ _ _) as [o log].
      destruct (is_nil _); injection H as <-; cbn [with_worker i_queue i_tasks i_worker worker_work w_out w_combos w_next]; rewrite length_app; cbn [length]; lia.
    + injection H as <-. cbn. lia.
  - unfold finish in H. destruct (i_worker s) as [w|] eqn:Ew; [|done]. destruct (w_out w && is_nil (i_tasks s)) eqn:E; [|done].
    apply andb_true_iff in E as [Eo _]. injection H as <-. cbn [with_worker i_queue i_tasks i_worker worker_work length]. rewrite length_app, Eo. cbn [length]. lia.
Qed.

Lemma work_bounded s tr s' : steps step s tr s' -> Forall work tr -> (length tr + run_work s' <= run_work s)%nat.
Proof.
  induction 1 as [s|s l s1 tr s2 H1 H2 IH]; intros Hw; cbn [length]; [lia|]. apply Forall_cons in Hw as [Hl Hw].
  specialize (IH Hw). pose proof (work_decreases _ _ _ H1 Hl). lia.
Qed.

(** A network that answers nothing, to have a step to point at. *)
Definition deadNet : Net := fun _ => failedSend [].

Lemma run_not_stuck s : Inv s -> i_running s = true -> exists l s', step s l s' /\ work l.
Proof.
  intros HI Hr. destruct (i_queue s) as [|c q] eqn:Eq.
  2:{ exists LQueued, (deliver c (with_worker (i_worker s) (i_tasks s) q s)). split; [|done]. constructor. unfold runQueued. by rewrite Eq. }
  pose proof (inv_worker s HI) as H5. unfold worker_inv in H5. destruct (i_worker s) as [w|] eqn:Ew.
  2:{ rewrite Hr in H5. destruct H5 as (_ & q & E & _). rewrite Eq in E. by destruct q. }
  destruct H5 as (_ & _ & _ & _ & Hp). destruct (i_tasks s) as [|t ts] eqn:Et.
  2:{ eexists (LTask 0 None deadNet (fun _ => false) 0), _. split; [|done]. apply (step_task 0 _ _ _ _ s _ t); [by rewrite Et|].
      unfold taskDone. rewrite Et, Ew. reflexivity. }
  rewrite zlen_nil in Hp. destruct (w_out w) eqn:Eo.
  { eexists LFinish, _. split; [|done]. constructor. unfold finish. rewrite Ew, Eo, Et. reflexivity. }
  destruct (w_rec w) as [cur|] eqn:Er.
  - assert (E : is_Some (recurse None deadNet (fun _ => false) 0 s)).
    { unfold recurse. rewrite Ew, Er, Eo. repeat case_match; by eexists. }
    destruct E as [s' E]. exists (LRecurse None deadNet (fun _ => false) 0), s'. split; [by constructor|done].
  - assert (E : is_Some (dispatch s)).
    { unfold dispatch. rewrite Ew, Eo, Er. rewrite bool_decide_false by (by intros [? ?]). cbn [orb].
      destruct (w_permits w <=? 0) eqn:E0; [to_prop; lia|]. repeat case_match; by eexists. }
    destruct E as [s' E]. exists LDispatch, s'. split; [by constructor|done].
Qed.

(** Nothing is given up: each row is complete or pending, unless the run was stopped. *)
Definition covered (s : St) : Prop :=
  i_stop s = false /\ (forall w, i_worker s = Some w -> w_rec w = None /\ (length (i_attacks s) <= length (w_combos w))%nat) /\
  (forall k r, i_attacks s !! k = Some r -> rr_complete r = true \/ k ∈ pending s).

Lemma pending_same s s' : pending s' ≡ₚ pending s -> i_attacks s' = i_attacks s ->
  (forall k r, i_attacks s !! k = Some r -> rr_complete r = true \/ k ∈ pending s) ->
  forall k r, i_attacks s' !! k = Some r -> rr_complete r = true \/ k ∈ pending s'.
Proof. intros Hp Ha H k r Hk. rewrite Ha in Hk. rewrite Hp. eauto. Qed.

Lemma length_deliver c s : length (i_attacks (deliver c s)) = length (i_attacks s).
Proof. destruct c as [row o|row o|]; cbn [deliver]; [| |done]; destruct (_ <? _)%nat; cbn [with_attacks i_attacks]; by rewrite ?length_alter. Qed.

Lemma covered_step s l s' : Inv s -> covered s -> step s l s' -> work l -> covered s' /\ length (i_attacks s') = length (i_attacks s).
Proof.
  intros HI (Hst & Hwk & Hc) H Hw.
  destruct H as [| | | | | | | |s s' H|s s' H|k sr net stop elapsed s s' t Ht H|sr net stop elapsed s s' H|s s' H|]; try done.
  - unfold runQueued in H. destruct (i_queue s) as [|c q] eqn:Eq; [done|]. injection H as <-.
    split; [|by rewrite length_deliver]. unfold pending in Hc. rewrite Eq in Hc. cbn [flat_map] in Hc.
    split_and!.
    + destruct c as [row o|row o|]; cbn [deliver]; [| |done]; by destruct (_ <? _)%nat.
    + intros w Ew. rewrite length_deliver. apply Hwk. destruct c as [row o|row o|]; cbn [deliver] in Ew; [| |done]; by destruct (_ <? _)%nat.
    + assert (Hrest : forall c', pending (deliver c' (with_worker (i_worker s) (i_tasks s) q s)) = flat_map queued_row q ++ map t_row (i_tasks s) ++ todo_rows (i_worker s)).
      { intros [row o|row o|]; cbn [deliver]; [| |done]; by destruct (_ <? _)%nat. }
      intros k r. rewrite Hrest. destruct c as [row o|row o|]; cbn [deliver queued_row app] in *.
      * destruct (row <? _)%nat eqn:El; cbn [with_attacks with_worker i_attacks].
        -- destruct (decide (k = row)) as [->|Hne].
           ++ rewrite list_lookup_alter. rewrite decide_True by done. destruct (i_attacks s !! row); [|done]. intros [= <-]. by left.
           ++ rewrite list_lookup_alter_ne by done. intros Hk. destruct (Hc k r Hk) as [?|?%elem_of_cons]; [by left|]. right. by destruct H.
        -- intros Hk. destruct (Hc k r Hk) as [?|?%elem_of_cons]; [by left|]. right. destruct H as [->|?]; [|done].
           apply Nat.ltb_ge in El. apply lookup_lt_Some in Hk. cbn [with_worker i_attacks] in El. lia.
      * destruct (row <? _)%nat eqn:El; cbn [with_attacks with_worker i_attacks]; [|by apply Hc].
        destruct (decide (k = row)) as [->|Hne].
        -- rewrite list_lookup_alter. rewrite decide_True by done. destruct (i_attacks s !! row); [|done]. intros [= <-]. by left.
        -- rewrite list_lookup_alter_ne by done. apply Hc.
      * apply Hc.
  - unfold dispatch in H. destruct (i_worker s) as [w|] eqn:Ew; [|done]. destruct (Hwk w eq_refl) as [Er Hlen].
    destruct (w_out w) eqn:Eo; [done|]. rewrite Er, Hst in H. rewrite bool_decide_false in H by (by intros [? ?]). cbn [orb] in H.
    destruct (w_combos w !! w_next w) as [combo|] eqn:Ec.
    + pose proof (todo_next w Eo (lookup_lt_Some _ _ _ Ec)) as Et. rewrite Er in Et.
      destruct (bool_decide (w_next w ∈ w_skip w)) eqn:Eb; [|destruct (w_permits w <=? 0); [done|]]; injection H as <-.
      all: split; [|done]; split_and!; [done|intros w' [= <-]; by split|]; apply (pending_same s); [|done|exact Hc].
      * unfold pending. cbn [with_worker i_queue i_tasks i_worker todo_rows]. rewrite Ew. cbn [todo_rows]. by rewrite Et.
      * unfold pending. cbn [with_worker i_queue i_tasks i_worker todo_rows]. rewrite Ew. cbn [todo_rows]. rewrite Et, map_app. by rewrite <- !app_assoc.
    + injection H as <-. split; [|done]. split_and!; [done|intros w' [= <-]; by split|]. apply (pending_same s); [|done|exact Hc].
      unfold pending. cbn [with_worker i_queue i_tasks i_worker todo_rows]. rewrite Ew. cbn [todo_rows]. rewrite todo_out by done.
      unfold todo_of. rewrite Eo. apply lookup_ge_None in Ec. by replace (length (w_combos w) - w_next w)%nat with 0%nat by lia.
  - unfold taskDone in H. rewrite Ht in H. destruct (i_worker s) as [w|] eqn:Ew; [|done]. injection H as <-. destruct (Hwk w eq_refl) as [Er Hlen].
    split; [|done]. split_and!; [done|intros w' [= <-]; by split|]. apply (pending_same s); [|done|exact Hc].
    by apply task_pending.
  - unfold recurse in H. destruct (i_worker s) as [w|] eqn:Ew; [|done]. destruct (Hwk w eq_refl) as [Er _]. by rewrite Er in H.
  - unfold finish in H. destruct (i_worker s) as [w|] eqn:Ew; [|done]. destruct (w_out w && is_nil (i_tasks s)) eqn:E; [|done].
    apply andb_true_iff in E as [Eo Et]. apply is_nil_true in Et. injection H as <-. split; [|done]. split_and!; [done|done|].
    apply (pending_same s); [|done|exact Hc]. unfold pending. cbn [with_worker i_queue i_tasks i_worker todo_rows]. rewrite Ew, Et. cbn [todo_rows].
    rewrite todo_out by done. rewrite flat_map_app. cbn. by rewrite !app_nil_r.
Qed.

Lemma covered_run tr : forall s s', steps step s tr s' -> Forall work tr -> Inv s -> covered s ->
  Inv s' /\ covered s' /\ length (i_attacks s') = length (i_attacks s).
Proof.
  induction tr as [|l tr IH]; intros s s' H Hw HI Hc; inversion H as [|? ? s1 ? ? Hs Ht]; subst; [done|].
  apply Forall_cons in Hw as [Hl Hw]. destruct (covered_step _ _ _ HI Hc Hs Hl) as [Hc1 Hl1].
  assert (HI1 : Inv s1) by (eapply run_inv_step; [exact HI|split; [exact Hs|by apply work_no_resend]]).
  destruct (IH s1 s' Ht Hw HI1 Hc1) as (? & ? & E). split_and!; [done|done|by rewrite E].
Qed.

Lemma elem_todo w k : w_out w = false -> (w_next w <= k < length (w_combos w))%nat -> k ∉ w_skip w -> k ∈ todo_of w.
Proof.
  intros Ho Hk Hs. unfold todo_of. rewrite Ho, elem_of_filter_bool, negb_true_iff, bool_decide_eq_false.
  rewrite list_elem_of_In, in_seq. split; [lia|done].
Qed.

Lemma length_startRows combos : length (startRows combos) = length combos.
Proof. apply length_imap. Qed.

(** Launching a worker that will fire every row that is not complete. *)
Lemma covered_launch w rows n s : Inv s -> i_running s = false -> w_rec w = None -> w_out w = false -> w_next w = 0%nat ->
  length rows = length (w_combos w) ->
  (forall k r, rows !! k = Some r -> rr_complete r = true \/ k ∉ w_skip w) ->
  covered (launch w (with_attacks rows n s)).
Proof.
  intros HI Hr Hrec Ho Hn Hl Hk. destruct (idle_pending s HI Hr) as (_ & Ht & Hq & _).
  split_and!; [done|intros w' [= <-]; split; [done|cbn [launch with_attacks i_attacks]; lia]|].
  intros k r H. cbn [launch with_attacks i_attacks] in H. destruct (Hk k r H) as [?|Hs]; [by left|right].
  unfold pending. cbn [launch with_attacks i_queue i_tasks i_worker todo_rows]. rewrite Hq, Ht. apply elem_todo; [done| |done].
  apply lookup_lt_Some in H. lia.
Qed.

Lemma covered_start s : Inv s -> i_running s = false -> rc_recursive (i_config s) = false -> i_running (start s) = true -> covered (start s).
Proof.
  intros HI Hr Hrec. unfold start. rewrite Hr. cbv zeta. cbn [with_attacks i_config]. rewrite Hrec. destruct (is_nil _); [by rewrite Hr|]. intros _.
  apply covered_launch; try done; [apply length_startRows|]. intros k r _. right. apply not_elem_of_nil.
Qed.

Lemma covered_resume s : Inv s -> snd (resume s) = true -> covered (fst (resume s)).
Proof.
  intros HI. unfold resume. destruct (i_running s) eqn:Er; [done|]. destruct (_ || _); [done|]. destruct (is_nil _); [done|].
  destruct (negb _) eqn:Ep; [done|]. apply negb_false_iff in Ep. intros _. cbn [fst].
  destruct (resume_plan (rc_recursive (i_config s)) (map rr_complete (i_attacks s))) as (_ & Hp & _). destruct (Hp Ep) as (Hs & _ & _).
  match goal with |- covered (launch ?w s) => pose proof (covered_launch w (i_attacks s) (i_completed s) s HI Er) as G0 end.
  replace (with_attacks (i_attacks s) (i_completed s) s) with s in G0 by (by destruct s).
  apply G0; try done; [cbn [newWorker w_combos]; by rewrite length_map|].
  intros k r Hk. destruct (rr_complete r) eqn:E; [by left|right]. cbn [newWorker w_skip]. rewrite Hs, list_lookup_fmap, Hk. cbn. by rewrite E.
Qed.

Lemma all_complete_count rows : (forall k r, rows !! k = Some r -> rr_complete r = true) -> completed_rows rows = zlen rows.
Proof.
  intros H. unfold completed_rows. f_equal. induction rows as [|r rows IH]; cbn [List.filter]; [done|].
  rewrite (H 0%nat r eq_refl), IH; [done|]. intros k. apply (H (S k)).
Qed.

(** C38. As long as no row is resent, a run ends by itself.  From any state in it -- recursive
    or not, stopped or not -- the worker, its tasks and the event loop can take only a
    bounded number of steps, and while the attack is running one of them can be taken.
    A fresh attack that is not recursive, or a resumed one, which is left to them, without
    a stop, ends with every row complete and the progress at the number of rows.  (A
    recursive run ends where a response yields no value; a stopped one where it is; a
    resend is outside, for it overtakes runs: [resend_overtakes].) *)
Theorem attack_run_completes scope s0 :
  reached scope s0 ->
  (forall tr s', steps step s0 tr s' -> Forall work tr ->
    (length tr <= run_work s0)%nat /\ (i_running s' = true -> exists l s'', step s' l s'' /\ work l)) /\
  (i_running s0 = false -> rc_recursive (i_config s0) = false ->
   forall s, (s = start s0 \/ snd (resume s0) = true /\ s = fst (resume s0)) -> i_running s = true ->
   forall tr s', steps step s tr s' -> Forall work tr -> i_running s' = false ->
     length (i_attacks s') = length (i_attacks s) /\
     (forall k r, i_attacks s' !! k = Some r -> rr_complete r = true) /\ i_completed s' = zlen (i_attacks s)).
Proof.
  intros HI%reached_inv.
  assert (Hkeep : forall s tr s', Inv s -> steps step s tr s' -> Forall work tr -> Inv s').
  { intros s tr s' HIs H Hw. pose proof (steps_restrict step no_resend _ _ _ H (Forall_impl _ _ _ Hw work_no_resend)) as H'.
    exact (steps_invariant _ Inv (fun s a s' HI Hs => run_inv_step s a s' HI Hs) _ _ _ H' HIs). }
  split.
  - intros tr s' H Hw. pose proof (work_bounded _ _ _ H Hw). split; [lia|]. by apply run_not_stuck, (Hkeep s0 tr).
  - intros Hr Hrec s Hs Hru tr s' H Hw Hr'.
    assert (HIs : Inv s) by (destruct Hs as [->|[_ ->]]; [by apply inv_start|by apply run_inv_resume]).
    pose proof (Hkeep s tr s' HIs H Hw) as HI'.
    assert (Hc : covered s) by (destruct Hs as [->|[Hok ->]]; [by apply covered_start|by apply covered_resume]).
    destruct (covered_run tr s s' H Hw HIs Hc) as (_ & (_ & _ & Hcov) & Hl).
    assert (Hall : forall k r, i_attacks s' !! k = Some r -> rr_complete r = true).
    { intros k r Hk. destruct (Hcov k r Hk) as [?|Hp]; [done|]. destruct (idle_pending s' HI' Hr') as (_ & _ & _ & E).
      rewrite E in Hp. by apply not_elem_of_nil in Hp. }
    split_and!; [done|done|]. rewrite (inv_count s' HI'), (all_complete_count _ Hall). unfold zlen. by rewrite Hl.
Qed.

(** ** The bounds of the settings *)

Definition settings_bounded (c : RunConfig) : Prop :=
  0 <= rc_attackType c <= 3 /\ 1 <= rc_concurrency c <= kMaxConcurrency /\ 0 <= rc_throttleMs c <= kMaxThrottleMs /\
  0 <= rc_retries c <= kMaxRetries /\ 1 <= rc_count c <= 10000 /\ FollowNever <= rc_followPolicy c <= FollowAlways.

(** A call of a setter, with any argument. *)
Inductive Setting :=
| SHost (h : qstr) | SPort (p : Z) | STls (tls : bool) | STemplate (t : qstr) | SLatin1 (b : bool) | SPayloads (p : qstr)
| SPayloadSets (s : list qstr) | SPayloadSetAt (i : Z) (v : qstr) | SSync | SAttackType (t : Z) | SConcurrency (n : Z)
| SThrottle (ms : Z) | SRetries (n : Z) | SCount (n : Z) | SFollow (p : Z)
| SOptions (rules : list Rule) (encodeChars : qstr) (needles : list qstr) (reflection : bool) (spec : ExtractSpec) (recursive : bool) (seed : qstr) (cookies : bool).
Definition setting (x : Setting) : RunConfig -> RunConfig :=
  match x with
  | SHost h => setHost h | SPort p => setPort p | STls b => setUseTls b | STemplate t => setRequestTemplate t | SLatin1 b => setRequestLatin1 b
  | SPayloads p => setPayloads p | SPayloadSets s => setPayloadSets s | SPayloadSetAt i v => setPayloadSetAt i v | SSync => syncSetsToPositions
  | SAttackType t => setAttackType t | SConcurrency n => setMaxConcurrency n | SThrottle ms => setThrottleMs ms | SRetries n => setMaxRetries n
  | SCount n => setRecursiveGrepCount n | SFollow p => setFollowRedirects p
  | SOptions r e n rf sp rec seed ck => setOptions r e n rf sp rec seed ck
  end.

Lemma set_bounded x c : settings_bounded c -> settings_bounded (setting x c).
Proof.
  unfold settings_bounded, FollowNever, FollowAlways. destruct x; cbn [setting]; try done.
  - unfold setUseTls. by destruct (Bool.eqb _ _).
  - unfold setPayloadSetAt. by destruct (_ <? _).
  - unfold setAttackType. destruct ((_ <? _) || _) eqn:E; [done|]. apply orb_false_iff in E as [? ?]. to_prop.
    cbn [with_ints rc_attackType rc_concurrency rc_throttleMs rc_retries rc_count rc_followPolicy]. lia.
  - pose proof (clamps_in_range n). cbn [setMaxConcurrency with_ints rc_attackType rc_concurrency rc_throttleMs rc_retries rc_count rc_followPolicy]. lia.
  - pose proof (clamps_in_range ms). cbn [setThrottleMs with_ints rc_attackType rc_concurrency rc_throttleMs rc_retries rc_count rc_followPolicy]. lia.
  - pose proof (clamps_in_range n). cbn [setMaxRetries with_ints rc_attackType rc_concurrency rc_throttleMs rc_retries rc_count rc_followPolicy]. lia.
  - cbn [setRecursiveGrepCount with_ints rc_attackType rc_concurrency rc_throttleMs rc_retries rc_count rc_followPolicy]. lia.
  - cbn [setFollowRedirects with_ints rc_attackType rc_concurrency rc_throttleMs rc_retries rc_count rc_followPolicy].
    unfold FollowNever, FollowAlways. destruct ((_ <? _) || _) eqn:E; [lia|]. apply orb_false_iff in E as [? ?]. to_prop. lia.
Qed.

Lemma startCombos_bound c : rc_count c <= 10000 -> zlen (startCombos c) <= kMaxCombos.
Proof.
  intros Hc. assert (Hf : forall (f : list payload -> bool) l, zlen l <= kMaxCombos -> zlen (List.filter f l) <= kMaxCombos).
  { intros f l H. unfold zlen in *. pose proof (List.filter_length_le f l). lia. }
  unfold startCombos. destruct (_ || _); [done|]. destruct (_ =? 0); [done|]. cbv zeta.
  set (combos := if rc_recursive c then _ else _).
  assert (Hl : zlen combos <= kMaxCombos).
  { unfold combos. destruct (rc_recursive c).
    - destruct (haveExtract _); [|done]. unfold zlen, kMaxCombos. rewrite length_replicate. lia.
    - rewrite generateCombinations_eq. cbn [or_else]. destruct (_ || _); [done|]. unfold zlen. rewrite length_take. unfold kMaxCombos. lia. }
  destruct (is_nil _); [done|by apply Hf].
Qed.

Lemma synced_sets c : zlen (rc_payloadSets (syncSetsToPositions c)) = Z.max 1 (positionCount c).
Proof.
  unfold syncSetsToPositions, zlen. cbn [with_sets rc_payloadSets]. rewrite length_take, length_app, length_replicate. lia.
Qed.

(** Every setting keeps its documented range through any sequence of setter calls, the
    rows of an attack are at most 10000, and the payload sets follow the markers; loading an attack restores the range of
    every setting but the recursive count and the redirect policy, and those two exactly
    when the file has them in range. *)
Theorem settings_stay_bounded c calls :
  settings_bounded c ->
  let c' := fold_left (fun c x => setting x c) calls c in
  settings_bounded c' /\
  zlen (startCombos c') <= kMaxCombos /\
  zlen (rc_payloadSets (syncSetsToPositions c')) = Z.max 1 (positionCount c') /\
  (forall loaded, settings_bounded (loadedConfig loaded) <-> 1 <= rc_count loaded <= 10000 /\ FollowNever <= rc_followPolicy loaded <= FollowAlways).
Proof.
  intros H. cbv zeta.
  assert (Hc : settings_bounded (fold_left (fun c x => setting x c) calls c)).
  { revert c H. induction calls as [|x calls IH]; intros c H; [done|]. by apply IH, set_bounded. }
  split_and!.
  - done.
  - apply startCombos_bound. destruct Hc as (_ & _ & _ & _ & ? & _). lia.
  - apply synced_sets.
  - intros l. pose proof (clamps_in_range (rc_concurrency l)). pose proof (clamps_in_range (rc_throttleMs l)).
    pose proof (clamps_in_range (rc_retries l)). unfold settings_bounded, loadedConfig.
    cbn [setMaxConcurrency setThrottleMs setMaxRetries with_ints rc_attackType rc_concurrency rc_throttleMs rc_retries rc_count rc_followPolicy]. lia.
Qed.

(** ** Runs as functions *)

Definition exec (s : St) (l : Label) : option St :=
  match l with
  | LConfig f => Some (with_config (f (i_config s)) s)
  | LRequestBytes data => Some (setRequestBytes data s)
  | LStart => Some (start s)
  | LResume => Some (fst (resume s))
  | LStop => Some (stop_ s)
  | LClear => Some (clear s)
  | LLoad data => Some (fst (loadRun data s))
  | LResend row => Some (fst (resend row s))
  | LQueued => runQueued s
  | LDispatch => dispatch s
  | LTask k sr net stop elapsed =>
      match i_tasks s !! k with Some t => taskDone k (fst (task_outcome s t sr net stop elapsed)) s | None => None end
  | LRecurse sr net stop elapsed => recurse sr net stop elapsed s
  | LFinish => finish s
  | LResent k sr net elapsed =>
      match i_resends s !! k with Some (t, cfg) => resendDone k (fst (resendOne cfg sr net elapsed (t_combo t))) s | None => None end
  end.
Fixpoint exec_all (s : St) (ls : list Label) : option St :=
  match ls with [] => Some s | l :: ls' => match exec s l with Some s' => exec_all s' ls' | None => None end end.

Lemma exec_step s l s' : exec s l = Some s' <-> step s l s'.
Proof.
  split.
  - destruct l; cbn [exec]; intros H; try (injection H as <-); try (by constructor).
    + destruct (i_tasks s !! k) eqn:E; [|done]. by econstructor.
    + destruct (i_resends s !! k) as [[t cfg]|] eqn:E; [|done]. by econstructor.
  - intros []; cbn [exec]; try done; by rewrite H.
Qed.

Lemma exec_steps ls : forall s s', exec_all s ls = Some s' -> steps step s ls s'.
Proof.
  induction ls as [|l ls IH]; intros s s' H; cbn [exec_all] in H; [injection H as <-; constructor|].
  destruct (exec s l) as [s1|] eqn:E; [|done]. econstructor; [by apply exec_step|by apply IH].
Qed.
End Machine.

(** ** Samples *)

Section Examples.
#[local] Existing Instances utf8Text sampleUcs4 sampleCodecs treeJson sampleGlobal anyRegex literalReplace sampleUrl sampleQUrl sampleJar.

Definition ex_cfg (rules : list Rule) : RunConfig :=
  setOptions rules [] [lit "ok"] true (mkSpec [] (lit "<") (lit ">")) false [] true
    (setPayloads (lit "x" ++ [10] ++ lit "y") (setRequestTemplate (lit "GET /?q=" ++ [167] ++ lit "d" ++ [167] ++ lit " HTTP/1.1" ++ CRLF ++ lit "Host: a" ++ CRLF ++ CRLF)
      (setHost (lit "a") defaultConfig))).
Definition ex_page (body : bytes) : SendResult := mkSend true [] (mkResponse (lit "HTTP/1.1") 200 [] [] body [] false) [] 0.
Definition ex_net (body : bytes) : Net := fun _ => ex_page body.
Definition ex_task (k : nat) : Label := LTask k None (ex_net (lit "ok <x>")) (fun _ => false) 5.
Definition ex_started (rules : list Rule) : option St := exec_all (fresh None) [LConfig (fun _ => ex_cfg rules); LStart].
(** Both requests out of order. *)
Definition ex_run : list Label := [LDispatch; LDispatch; ex_task 1; LDispatch; LQueued; ex_task 0; LFinish; LQueued; LQueued].
Definition ex_rows (s : option St) : option (bool * Z * list (Z * bool * bool * bool * qstr)) :=
  (fun s => (i_running s, i_completed s, map (fun r => (rr_statusCode r, rr_complete r, rr_matched r, rr_reflected r, rr_extracted r)) (i_attacks s))) <$> s.

Example attack_runs :
  ex_rows (ex_started []) = Some (true, 0, [(0, false, false, false, []); (0, false, false, false, [])]) /\
  ex_rows (exec_all (fresh None) ([LConfig (fun _ => ex_cfg []); LStart] ++ ex_run)) =
    Some (false, 2, [(200, true, true, true, lit "x"); (200, true, true, false, lit "x")]).
Proof. split; vm_compute; reflexivity. Qed.

Lemma ex_exec s ls s' : exec_all s ls = Some s' -> Forall no_resend ls -> exists tr, steps step s tr s' /\ Forall no_resend tr.
Proof. intros H Ho. exists ls. split; [by apply exec_steps|done]. Qed.

Definition ex_ready : St := with_config (ex_cfg []) (fresh None).
Lemma ex_ready_reached : reached None ex_ready.
Proof. apply (ex_exec _ [LConfig (fun _ => ex_cfg [])]); [reflexivity|by repeat constructor]. Qed.

Lemma attack_run_safe_witness : exists s, reached None s /\ i_running s = true /\ i_completed s = completed_rows (i_attacks s).
Proof.
  exists (start ex_ready). assert (H : reached None (start ex_ready)).
  { apply (ex_exec _ [LConfig (fun _ => ex_cfg []); LStart]); [reflexivity|by repeat constructor]. }
  split; [exact H|]. split; [vm_compute; reflexivity|]. exact (proj1 (attack_run_safe None _ H)).
Defined.

Lemma attack_run_completes_witness : exists s', exec_all (start ex_ready) ex_run = Some s' /\
  i_completed s' = zlen (i_attacks (start ex_ready)) /\ zlen (i_attacks (start ex_ready)) = 2.
Proof.
  assert (Hs : is_Some (exec_all (start ex_ready) ex_run)) by (vm_compute; by eexists).
  destruct (exec_all (start ex_ready) ex_run) as [s'|] eqn:E; [|by destruct (is_Some_None Hs)].
  exists s'. split; [reflexivity|].
  assert (Hr : i_running s' = false).
  { assert (X : option_map i_running (exec_all (start ex_ready) ex_run) = Some false) by (vm_compute; reflexivity). rewrite E in X. by injection X. }
  destruct (proj2 (attack_run_completes None ex_ready ex_ready_reached) (eq_refl _) (eq_refl _) (start ex_ready) (or_introl eq_refl) ltac:(vm_compute; reflexivity)
    ex_run s' (exec_steps _ _ _ E) ltac:(by repeat constructor) Hr) as (_ & _ & H).
  split; [exact H|vm_compute; reflexivity].
Defined.

Lemma settings_stay_bounded_witness : settings_bounded defaultConfig /\
  settings_bounded (fold_left (fun c x => setting x c) [SConcurrency 1000; SRetries (-3); SFollow 9; SCount 0] defaultConfig).
Proof.
  assert (H : settings_bounded defaultConfig) by (unfold settings_bounded, FollowNever, FollowAlways, kMaxConcurrency, kMaxThrottleMs, kMaxRetries; cbn; lia).
  split; [exact H|]. exact (proj1 (settings_stay_bounded defaultConfig [SConcurrency 1000; SRetries (-3); SFollow 9; SCount 0] H)).
Defined.

(** A network that fails twice. *)
Definition ex_flaky : Net := fun log => if (length log <=? 2)%nat then failedSend (lit "timed out") else ex_page (lit "ok").
Definition ex_fire (retries : Z) : FireCfg := fireCfg (setMaxRetries retries (ex_cfg [])) None.

Example retries_run :
  length (snd (fireOne (ex_fire 5) None ex_flaky (fun _ => false) 0 [Some (lit "x")])) = 3%nat /\
  o_status (fst (fireOne (ex_fire 5) None ex_flaky (fun _ => false) 0 [Some (lit "x")])) = 200 /\
  length (snd (fireOne (ex_fire 5) None ex_flaky (fun k => (k =? 1)%nat) 0 [Some (lit "x")])) = 2%nat /\
  o_error (fst (fireOne (ex_fire 1) None ex_flaky (fun _ => false) 0 [Some (lit "x")])) = lit "timed out".
Proof. split_and!; vm_compute; reflexivity. Qed.

Lemma fire_one_requests_witness : 0 <= f_retries (ex_fire 5) /\
  exists k urls hops, snd (fireOne (ex_fire 5) None ex_flaky (fun _ => false) 0 [Some (lit "x")])
    = replicate (S k) (origin_sent (ex_fire 5) (lit "GET /?q=x HTTP/1.1" ++ CRLF ++ lit "Host: a" ++ CRLF ++ CRLF)) ++ hops /\ Forall2 goes_to urls hops.
Proof.
  assert (H : 0 <= f_retries (ex_fire 5)) by (vm_compute; discriminate). split; [exact H|].
  pose proof (fire_one_requests (ex_fire 5) None ex_flaky (fun _ => false) 0 [Some (lit "x")] H) as G.
  assert (E : requestBytes (ex_fire 5) None (applyRulesToCombo [Some (lit "x")] (f_rules (ex_fire 5))) =
              Some (lit "GET /?q=x HTTP/1.1" ++ CRLF ++ lit "Host: a" ++ CRLF ++ CRLF)) by (vm_compute; reflexivity).
  cbv zeta in G. rewrite E in G. destruct G as (k & urls & hops & G1 & _ & _ & _ & _ & G2 & _). exists k, urls, hops. split; [exact G1|exact G2].
Defined.

Lemma resend_grades_alike_witness :
  same_result (fst (resendOne (ex_fire 0) None (ex_net (lit "ok")) 3 [Some (lit "x")])) (fst (fireOne (ex_fire 0) None (ex_net (lit "ok")) (fun _ => false) 3 [Some (lit "x")])).
Proof.
  apply (resend_grades_alike (ex_fire 0) None (ex_net (lit "ok")) (fun _ => false) 3 [Some (lit "x")]).
  - reflexivity.
  - vm_compute. discriminate.
  - vm_compute. discriminate.
  - intros request _. reflexivity.
Defined.

(** ** Where a resend differs from the run *)

Definition ex_upper : list Rule := [mkRule (lit "uppercase") []].
Definition ex_upperCfg : FireCfg := fireCfg (ex_cfg ex_upper) None.

(** The run looks for the payload as it was entered, the resend for the processed one. *)
Example resend_reflects_processed :
  let net := ex_net (lit "ok X") in
  let first := fst (fireOne ex_upperCfg None net (fun _ => false) 0 [Some (lit "x")]) in
  let again := fst (resendOne ex_upperCfg None net 0 (applyRulesToCombo [Some (lit "x")] (f_rules ex_upperCfg))) in
  snd (fireOne ex_upperCfg None net (fun _ => false) 0 [Some (lit "x")])
    = snd (resendOne ex_upperCfg None net 0 (applyRulesToCombo [Some (lit "x")] (f_rules ex_upperCfg))) /\
  o_reflected first = false /\ o_reflected again = true.
Proof. split_and!; vm_compute; reflexivity. Qed.

(** The resend asks the scope about the bare host name, which has no host part. *)
Definition ex_moved : Net := fun log =>
  if (length log <=? 1)%nat then mkSend true [] (mkResponse (lit "HTTP/1.1") 302 [] [(lit "Location", lit "/next")] [] [] false) [] 0 else ex_page (lit "ok").
Definition ex_scoped : FireCfg := fireCfg (setFollowRedirects FollowInScope (ex_cfg [])) (Some (fun u => seq_eqb (qu_host u) (lit "a"))).
Example resend_ignores_scope :
  o_status (fst (fireOne ex_scoped None ex_moved (fun _ => false) 0 [Some (lit "x")])) = 200 /\
  o_status (fst (resendOne ex_scoped None ex_moved 0 [Some (lit "x")])) = 302.
Proof. split; vm_compute; reflexivity. Qed.

(** A resend in flight does not hold up a resumed or a new attack: the row is fired
    again and counted twice; a late answer completes a row of the next attack
    before its request was made. *)
Definition ex_resent : Label := LResent 0 None (ex_net (lit "old")) 1.
Example resend_overtakes :
  let after ls := ex_rows (exec_all (fresh None) ([LConfig (fun _ => ex_cfg []); LStart] ++ ex_run ++ ls)) in
  (fun r => snd (fst r)) <$> after [LResend 0; LResume; LDispatch; LDispatch; LDispatch; ex_task 0; LFinish; LQueued; LQueued] = Some 3 /\
  after [LResend 0; LStart; ex_resent; LQueued] = Some (true, 0, [(200, true, false, false, []); (0, false, false, false, [])]).
Proof. split; vm_compute; reflexivity. Qed.

(** The pending row keeps the reflected flag of its last answer. *)
Example resend_keeps_reflected :
  (fun s => map (fun r => (rr_complete r, rr_reflected r)) (i_attacks s)) <$>
    exec_all (fresh None) ([LConfig (fun _ => ex_cfg []); LStart] ++ ex_run ++ [LResend 0]) = Some [(false, true); (true, false)].
Proof. vm_compute. reflexivity. Qed.
End Examples.
