(* ===== verification/Extensions.v ===== *)
(** * Extensions: Src/Core/APIs/ExtensionsAPI

    extension_perms_logic.cpp, the capability gate, and extensions_api.cpp, the host
    that loads scripts, dispatches traffic to them and reads their mutations back.  The
    JavaScript engine is a parameter: a run of a script is a tree of its calls to the
    bridge, interpreted by the host. *)

From S2P Require Import Prelude Qt QtSample QMap Json JsonSample HttpFraming Placeholders ChainRunner SessionRules Utf8 CertLogic IntruderRules.

Local Open Scope Z_scope.

(** [QChar::isLetter]. *)
Class QtLetter := { u_letter : Z -> bool }.
Class QtLetterLaws (L : QtLetter) : Prop := { law_letter_ascii c : is_ascii c = true -> u_letter c = is_letter c }.

(** ** Permissions *)

Definition kModifyRequests : qstr := lit "modify-requests".
Definition kModifyResponses : qstr := lit "modify-responses".
Definition kMaxScan : Z := 64 * 1024.
(** The directive; its group 1 is the rest of the line. *)
Definition kDirective : qstr := lit "(?im)^[ \t]*//[ \t]*@?nullock[:-]permissions[ \t:]*([^\r\n]+)".

Section Permissions.
Context {Q : QtText} {CH : QtChar} {LT : QtLetter} {G : QtGlobal}.

Definition requestAliases : list qstr := map lit ["onrequest"; "modify-request"; "modify-requests"; "mutate-request"; "mutate-requests"]%string.
Definition responseAliases : list qstr := map lit ["onresponse-mutate"; "modify-response"; "modify-responses"; "mutate-response"; "mutate-responses"]%string.
Definition canonical (tokenIn : qstr) : qstr :=
  let t := u_lower (u_trimmed tokenIn) in
  if is_nil t then []
  else if bool_decide (t ∈ requestAliases) then kModifyRequests
  else if bool_decide (t ∈ responseAliases) then kModifyResponses
  else t.

Definition token_char (c : Z) : bool := u_alnum c || (c =? 45) || (c =? 95) || (c =? 46).
Definition isDeclarationToken (t : qstr) : bool := match t with [] => false | c :: _ => u_letter c && forallb token_char t end.

(** [split] at the runs of the pattern's characters: a comma or white space. *)
Definition separator (c : Z) : bool := (c =? 44) || b_space c.
Fixpoint split_tokens (s cur : qstr) : list qstr :=
  match s with
  | [] => if is_nil cur then [] else [cur]
  | c :: s' => if separator c then (if is_nil cur then split_tokens s' [] else cur :: split_tokens s' []) else split_tokens s' (cur ++ [c])
  end.

Fixpoint declared (toks : list qstr) : list qstr :=
  match toks with
  | [] => []
  | t :: toks' => if negb (isDeclarationToken t) then [] else (if is_nil (canonical t) then [] else [canonical t]) ++ declared toks'
  end.

Definition parsePermissions (jsSource : qstr) : gset qstr :=
  list_to_set (flat_map (fun m => declared (split_tokens (nth 1 (rm_caps m) []) [])) (rg_global kDirective (take (Z.to_nat kMaxScan) jsSource))).

Definition requiresGrant (capability : qstr) : bool := seq_eqb capability kModifyRequests || seq_eqb capability kModifyResponses.
Definition isAllowed (granted : gset qstr) (capability : qstr) : bool :=
  if negb (requiresGrant capability) then true else bool_decide (capability ∈ granted).
End Permissions.

(** ** The engine *)

(** An exchange as an extension sees it: the properties of a fresh object. *)
Inductive EV := EStr (s : qstr) | EInt (n : Z) | EPairs (l : list (qstr * qstr)).
Definition Entry : Type := list (qstr * EV).

Record HistoryEntry := mkHistory {
  he_method : qstr; he_host : qstr; he_port : Z; he_path : qstr; he_url : qstr; he_tls : bool; he_status : Z; he_responseSize : Z
}.
(** An out-of-band interaction as [OastHit] has it. *)
Record Hit := mkHit { hit_id : Z; hit_token : qstr; hit_source : qstr; hit_host : qstr; hit_method : qstr; hit_path : qstr }.

(** A script's calls to the bridge objects and what they return. *)
Inductive Query (Js : Type) :=
| QLog (message : qstr)
| QOnResponse (callback : Js) | QOnRequest (callback : Js) | QOnUnload (callback : Js)
| QHistory (max : Z)
| QReport (severity kind summary evidence url : qstr)
| QRepeater (host : qstr) (port : Z) (tls : bool) (text : qstr)
| QIntruder (host : qstr) (port : Z) (tls : bool) (text : qstr)
| QGenerate | QInteractions
| QSet (key : qstr) (v : json) | QGet (key : qstr) (d : json) | QRemove (key : qstr) | QClear.
Arguments QLog {Js}. Arguments QOnResponse {Js}. Arguments QOnRequest {Js}. Arguments QOnUnload {Js}. Arguments QHistory {Js}.
Arguments QReport {Js}. Arguments QRepeater {Js}. Arguments QIntruder {Js}. Arguments QGenerate {Js}. Arguments QInteractions {Js}.
Arguments QSet {Js}. Arguments QGet {Js}. Arguments QRemove {Js}. Arguments QClear {Js}.

Inductive Reply := RNone | RHistory (l : list HistoryEntry) | RHits (l : list (Hit * qstr)) | RValue (v : json).

(** A run: it ends with the engine's new state and a value, or asks the bridge. *)
Inductive Run (Heap Js : Type) :=
| Done (h : Heap) (v : Js)
| Ask (q : Query Js) (k : Reply -> Run Heap Js).
Arguments Done {Heap Js}. Arguments Ask {Heap Js}.

(** [QJSEngine] and [QJSValue].  Values are references into the engine's state, so
    reading a property depends on it. *)
Class QtJs := {
  Js : Type;
  Heap : Type;
  js_fresh : Heap;
  js_callable : Js -> bool;
  js_isError : Js -> bool;
  js_isObject : Js -> bool;
  js_isArray : Js -> bool;
  js_property : Heap -> Js -> qstr -> Js;
  js_index : Heap -> Js -> Z -> Js;
  js_toString : Heap -> Js -> qstr;
  js_toInt : Heap -> Js -> Z;
  js_object : Entry -> Heap -> Heap * Js;
  js_eval : Heap -> qstr -> qstr -> Run Heap Js;       (* source, file name *)
  js_call : Heap -> Js -> list Js -> Run Heap Js
}.

(** ** The host *)

Record ResponseHandler {J : QtJs} := mkHandler { h_fn : Js; h_mayMutate : bool }.
Arguments ResponseHandler : clear implicits.

(** What the calls of scripts reach outside, and the crash reporter. *)
Inductive Outside :=
| OFinding (severity kind summary evidence url : qstr)
| OToRepeater (host : qstr) (port : Z) (tls : bool) (text : qstr)
| OToIntruder (host : qstr) (port : Z) (tls : bool) (text : qstr)
| OCrash (kind message : qstr).

(** What the host is wired to: a finding sink, the tools, the minted payloads of the
    OAST sink to come and the hits it and the DNS sink show. *)
Record Wiring := mkWiring {
  w_scanner : bool; w_repeater : bool; w_intruder : bool; w_oast : option (list (list (qstr * json)));
  w_httpHits : list Hit; w_dnsHits : option (list Hit)
}.

(** The disk: the scripts of the extensions directory by name with their bytes ([None]
    when unreadable), the file of disabled scripts and the storage file.  [d_writable]
    says whether writes reach it. *)
Record Disk := mkDisk { d_scripts : list (qstr * option bytes); d_disabled : option bytes; d_storage : option bytes; d_writable : bool }.

(** The extension host; log lines are kept without the time in front of them.
    [x_loadedDir] is the directory as the last load found it. *)
Record Api {J : QtJs} := mkApi {
  x_heap : Heap;
  x_onResponse : list (ResponseHandler J); x_onRequest : list Js; x_onUnload : list Js;
  x_hasRequest : bool; x_hasResponse : bool;
  x_history : list HistoryEntry; x_log : list qstr;
  x_grants : gset qstr; x_scriptGrants : list (qstr * list qstr);
  x_loaded : list qstr; x_all : list qstr; x_disabled : gset qstr;
  x_tokens : gset qstr;
  x_storeLoaded : bool; x_store : list (qstr * json);
  x_autoReload : bool;
  x_wiring : Wiring; x_disk : Disk; x_out : list Outside; x_loadedDir : list (qstr * option bytes)
}.
Arguments Api : clear implicits.

Definition kMaxLogLines : Z := 500.
Definition kMaxHistory : Z := 500.

Section Host.
Context {Q : QtText} {CH : QtChar} {LT : QtLetter} {G : QtGlobal} {JT : QtJson} {J : QtJs}.
Implicit Type s : Api J.

(** Assignments to groups of fields. *)
Definition with_heap (h : Heap) s : Api J :=
  mkApi _ h (x_onResponse s) (x_onRequest s) (x_onUnload s) (x_hasRequest s) (x_hasResponse s) (x_history s) (x_log s) (x_grants s) (x_scriptGrants s)
    (x_loaded s) (x_all s) (x_disabled s) (x_tokens s) (x_storeLoaded s) (x_store s) (x_autoReload s) (x_wiring s) (x_disk s) (x_out s) (x_loadedDir s).
Definition with_handlers (resp : list (ResponseHandler J)) (req unload : list Js) (fq fr : bool) s : Api J :=
  mkApi _ (x_heap s) resp req unload fq fr (x_history s) (x_log s) (x_grants s) (x_scriptGrants s)
    (x_loaded s) (x_all s) (x_disabled s) (x_tokens s) (x_storeLoaded s) (x_store s) (x_autoReload s) (x_wiring s) (x_disk s) (x_out s) (x_loadedDir s).
Definition with_records (hist : list HistoryEntry) (log : list qstr) (out : list Outside) s : Api J :=
  mkApi _ (x_heap s) (x_onResponse s) (x_onRequest s) (x_onUnload s) (x_hasRequest s) (x_hasResponse s) hist log (x_grants s) (x_scriptGrants s)
    (x_loaded s) (x_all s) (x_disabled s) (x_tokens s) (x_storeLoaded s) (x_store s) (x_autoReload s) (x_wiring s) (x_disk s) out (x_loadedDir s).
Definition with_scripts (grants : gset qstr) (sg : list (qstr * list qstr)) (loaded all : list qstr) (disabled : gset qstr) s : Api J :=
  mkApi _ (x_heap s) (x_onResponse s) (x_onRequest s) (x_onUnload s) (x_hasRequest s) (x_hasResponse s) (x_history s) (x_log s) grants sg
    loaded all disabled (x_tokens s) (x_storeLoaded s) (x_store s) (x_autoReload s) (x_wiring s) (x_disk s) (x_out s) (x_loadedDir s).
Definition with_store (tokens : gset qstr) (w : Wiring) (ld : bool) (st : list (qstr * json)) (d : Disk) s : Api J :=
  mkApi _ (x_heap s) (x_onResponse s) (x_onRequest s) (x_onUnload s) (x_hasRequest s) (x_hasResponse s) (x_history s) (x_log s) (x_grants s) (x_scriptGrants s)
    (x_loaded s) (x_all s) (x_disabled s) tokens ld st (x_autoReload s) w d (x_out s) (x_loadedDir s).
Definition with_dir (dir : list (qstr * option bytes)) s : Api J :=
  mkApi _ (x_heap s) (x_onResponse s) (x_onRequest s) (x_onUnload s) (x_hasRequest s) (x_hasResponse s) (x_history s) (x_log s) (x_grants s) (x_scriptGrants s)
    (x_loaded s) (x_all s) (x_disabled s) (x_tokens s) (x_storeLoaded s) (x_store s) (x_autoReload s) (x_wiring s) (x_disk s) (x_out s) dir.
Definition with_auto (b : bool) s : Api J :=
  mkApi _ (x_heap s) (x_onResponse s) (x_onRequest s) (x_onUnload s) (x_hasRequest s) (x_hasResponse s) (x_history s) (x_log s) (x_grants s) (x_scriptGrants s)
    (x_loaded s) (x_all s) (x_disabled s) (x_tokens s) (x_storeLoaded s) (x_store s) b (x_wiring s) (x_disk s) (x_out s) (x_loadedDir s).

(** The last [n] elements. *)
Definition last_n {A} (n : Z) (l : list A) : list A := drop (Z.to_nat (zlen l - n)) l.

Definition appendLog (message : qstr) s : Api J := with_records (x_history s) (last_n kMaxLogLines (x_log s ++ [message])) (x_out s) s.
Definition recentLog (max : Z) s : list qstr := if (max <=? 0) || (zlen (x_log s) <=? max) then x_log s else last_n max (x_log s).
Definition tell (o : Outside) s : Api J := with_records (x_history s) (x_log s) (x_out s ++ [o]) s.
Definition refreshHandlerFlags s : Api J :=
  with_handlers (x_onResponse s) (x_onRequest s) (x_onUnload s) (negb (is_nil (x_onRequest s))) (negb (is_nil (x_onResponse s))) s.

(** ** Storage *)

Definition disk_with_storage (b : bytes) (d : Disk) : Disk := if d_writable d then mkDisk (d_scripts d) (d_disabled d) (Some b) (d_writable d) else d.
Definition store_of (b : option bytes) (old : list (qstr * json)) : list (qstr * json) :=
  match b with None => old | Some t => match json_parse t with Some (JObject m) => m | _ => [] end end.
Definition store_load s : Api J := with_store (x_tokens s) (x_wiring s) true (store_of (d_storage (x_disk s)) (x_store s)) (x_disk s) s.
Definition store_ready s : Api J := if x_storeLoaded s then s else store_load s.
Definition store_write (st : list (qstr * json)) s : Api J :=
  with_store (x_tokens s) (x_wiring s) (x_storeLoaded s) st (disk_with_storage (json_compact (JObject st)) (x_disk s)) s.
Definition store_set (key : qstr) (v : json) s : Api J :=
  if is_nil key then s else let s := store_ready s in store_write (qm_insert key v (x_store s)) s.
Definition store_get (key : qstr) (d : json) s : Api J * json := let s := store_ready s in (s, default d (qm_get key (x_store s))).
Definition store_remove (key : qstr) s : Api J := let s := store_ready s in if qm_has key (x_store s) then store_write (qm_remove key (x_store s)) s else s.
Definition store_clear s : Api J := let s := store_ready s in if is_nil (x_store s) then s else store_write [] s.

(** ** The bridge *)

Definition port_text (port : Z) : qstr := if (port =? 80) || (port =? 443) then [] else lit ":" ++ number 10 port.

Definition history (max : Z) s : list HistoryEntry := if max <=? 0 then x_history s else last_n (Z.min max (zlen (x_history s))) (x_history s).

Definition onResponse (callback : Js) s : Api J :=
  if negb (js_callable callback) then appendLog (lit "[ext] onResponse: argument is not a function") s
  else
    let mayMutate := isAllowed (x_grants s) kModifyResponses in
    refreshHandlerFlags (with_handlers (x_onResponse s ++ [mkHandler _ callback mayMutate]) (x_onRequest s) (x_onUnload s) (x_hasRequest s) (x_hasResponse s) s).
Definition onRequest (callback : Js) s : Api J :=
  if negb (js_callable callback) then appendLog (lit "[ext] onRequest: argument is not a function") s
  else if negb (isAllowed (x_grants s) kModifyRequests) then
    appendLog (lit "[ext] onRequest DENIED: extension lacks the 'modify-requests' permission (add `// nullock:permissions modify-requests`)") s
  else refreshHandlerFlags (with_handlers (x_onResponse s) (x_onRequest s ++ [callback]) (x_onUnload s) (x_hasRequest s) (x_hasResponse s) s).
Definition onUnload (callback : Js) s : Api J :=
  if negb (js_callable callback) then appendLog (lit "[ext] onUnload: argument is not a function") s
  else with_handlers (x_onResponse s) (x_onRequest s) (x_onUnload s ++ [callback]) (x_hasRequest s) (x_hasResponse s) s.

Definition reportFinding (severity kind summary evidence url : qstr) s : Api J :=
  if w_scanner (x_wiring s) then tell (OFinding severity kind summary evidence url) s
  else appendLog (lit "[ext][finding] " ++ severity ++ lit "/" ++ kind ++ lit ": " ++ summary ++ lit " (" ++ url ++ lit ")") s.
Definition sendToRepeater (host : qstr) (port : Z) (tls : bool) (text : qstr) s : Api J :=
  if w_repeater (x_wiring s) then appendLog (arg (arg (lit "[ext] sendToRepeater %1:%2") host) (number 10 port)) (tell (OToRepeater host port tls text) s)
  else appendLog (lit "[ext] sendToRepeater ignored (Repeater not wired)") s.
Definition sendToIntruder (host : qstr) (port : Z) (tls : bool) (text : qstr) s : Api J :=
  if w_intruder (x_wiring s) then appendLog (arg (arg (lit "[ext] sendToIntruder %1:%2") host) (number 10 port)) (tell (OToIntruder host port tls text) s)
  else appendLog (lit "[ext] sendToIntruder ignored (Intruder not wired)") s.

Definition generate s : Api J * json :=
  match w_oast (x_wiring s) with
  | None => (s, JObject [])
  | Some mints =>
      let minted := hd [] mints in
      let tok := toString (value minted (lit "token")) in
      let w := x_wiring s in
      let w := mkWiring (w_scanner w) (w_repeater w) (w_intruder w) (Some (tl mints)) (w_httpHits w) (w_dnsHits w) in
      (with_store (if is_nil tok then x_tokens s else {[tok]} ∪ x_tokens s) w (x_storeLoaded s) (x_store s) (x_disk s) s, JObject minted)
  end.
Definition interactions s : list (Hit * qstr) :=
  if bool_decide (x_tokens s = ∅) then []
  else
    let mine := List.filter (fun h => bool_decide (hit_token h ∈ x_tokens s)) in
    match w_oast (x_wiring s) with Some _ => map (fun h => (h, lit "http")) (mine (w_httpHits (x_wiring s))) | None => [] end
    ++ match w_dnsHits (x_wiring s) with Some hits => map (fun h => (h, lit "dns")) (mine hits) | None => [] end.

Definition bridge (q : Query Js) s : Api J * Reply :=
  match q with
  | QLog message => (appendLog message s, RNone)
  | QOnResponse f => (onResponse f s, RNone)
  | QOnRequest f => (onRequest f s, RNone)
  | QOnUnload f => (onUnload f s, RNone)
  | QHistory max => (s, RHistory (history max s))
  | QReport a b c d e => (reportFinding a b c d e s, RNone)
  | QRepeater h p t x => (sendToRepeater h p t x s, RNone)
  | QIntruder h p t x => (sendToIntruder h p t x s, RNone)
  | QGenerate => let '(s', v) := generate s in (s', RValue v)
  | QInteractions => (s, RHits (interactions s))
  | QSet k v => (store_set k v s, RNone)
  | QGet k d => let '(s', v) := store_get k d s in (s', RValue v)
  | QRemove k => (store_remove k s, RNone)
  | QClear => (store_clear s, RNone)
  end.

(** A run against the host. *)
Fixpoint run_js (r : Run Heap Js) s : Api J * Js :=
  match r with
  | Done h v => (with_heap h s, v)
  | Ask q k => let '(s', reply) := bridge q s in run_js (k reply) s'
  end.
Definition call (f : Js) (args : list Js) s : Api J * Js := run_js (js_call (x_heap s) f args) s.
Definition line_of (r : Js) s : Z := js_toInt (x_heap s) (js_property (x_heap s) r (lit "lineNumber")).
Definition text_of (r : Js) s : qstr := js_toString (x_heap s) r.

(** ** Loading *)

Definition file_disabled_line (name : qstr) : qstr := arg (lit "[ext] %1 (disabled)") name.
(** One script of the directory. *)
Definition load_one (f : qstr * option bytes) s : Api J :=
  let name := fst f in
  let s := with_scripts (x_grants s) (x_scriptGrants s) (x_loaded s) (x_all s ++ [name]) (x_disabled s) s in
  if bool_decide (name ∈ x_disabled s) then appendLog (file_disabled_line name) s
  else
    match snd f with
    | None => s
    | Some content =>
        let source := u_fromutf8 content in
        let grants := parsePermissions source in
        let s := with_scripts grants (qm_insert name (elements grants) (x_scriptGrants s)) (x_loaded s) (x_all s) (x_disabled s) s in
        let '(s, result) := run_js (js_eval (x_heap s) source name) s in
        if js_isError result then
          let msg := arg (arg (arg (lit "%1: %2 at line %3") name) (text_of result s)) (number 10 (line_of result s)) in
          tell (OCrash (lit "extension-load") msg) (appendLog (lit "[ext] " ++ msg) s)
        else
          let s := with_scripts (x_grants s) (x_scriptGrants s) (x_loaded s ++ [name]) (x_all s) (x_disabled s) s in
          let g := default [] (qm_get name (x_scriptGrants s)) in
          appendLog (if is_nil g then arg (lit "[ext] loaded %1 (observe-only)") name
                     else arg (arg (lit "[ext] loaded %1 (granted: %2)") name) (join (lit ", ") g)) s
    end.

Definition disabled_of (file : option bytes) : gset qstr :=
  match file with
  | None => ∅
  | Some t =>
      list_to_set (flat_map (fun v => let n := toString v in if is_nil n then [] else [n]) (match json_parse t with Some (JArray l) => l | _ => [] end))
  end.
Definition loadDisabledSet s : Api J := with_scripts (x_grants s) (x_scriptGrants s) (x_loaded s) (x_all s) (disabled_of (d_disabled (x_disk s))) s.

Definition loadAll s : Api J :=
  let dir := d_scripts (x_disk s) in
  let s := with_dir dir (with_scripts (x_grants s) (x_scriptGrants s) (x_loaded s) [] (x_disabled s) s) in
  let s := fold_left (fun s f => load_one f s) dir (loadDisabledSet s) in
  with_scripts ∅ (x_scriptGrants s) (x_loaded s) (x_all s) (x_disabled s) s.

Definition rebuildEngine s : Api J := with_heap js_fresh (refreshHandlerFlags (with_handlers [] [] [] (x_hasRequest s) (x_hasResponse s) s)).

(** The teardown callbacks in turn.  A callback that registers another one while more
    follow invalidates the iterators of the list: [None]. *)
Fixpoint unload_loop (fns : list Js) (n : nat) s : option (Api J) :=
  match fns with
  | [] => Some s
  | fn :: rest =>
      let s' :=
        if negb (js_callable fn) then s
        else
          let '(s, r) := call fn [] s in
          if js_isError r then
            let msg := arg (arg (lit "onUnload handler error: %1 at line %2") (text_of r s)) (number 10 (line_of r s)) in
            tell (OCrash (lit "extension") msg) (appendLog (lit "[ext] " ++ msg) s)
          else s in
      if (length (x_onUnload s') =? n)%nat then unload_loop rest n s' else None
  end.
Definition runUnloadHandlers s : option (Api J) := unload_loop (x_onUnload s) (length (x_onUnload s)) s.

Definition reload s : option (Api J) :=
  match runUnloadHandlers s with
  | None => None
  | Some s => Some (loadAll (rebuildEngine (with_scripts ∅ [] [] (x_all s) (x_disabled s) s)))
  end.

(** The constructor on a disk. *)
Definition emptyApi (w : Wiring) (d : Disk) : Api J :=
  mkApi _ js_fresh [] [] [] false false [] [] ∅ [] [] [] ∅ ∅ false [] false w d [] [].
Definition construct (w : Wiring) (d : Disk) : Api J := loadAll (rebuildEngine (emptyApi w d)).

Definition disk_with_disabled (b : option bytes) (d : Disk) : Disk := if d_writable d then mkDisk (d_scripts d) b (d_storage d) (d_writable d) else d.
Definition saveDisabledSet s : Api J :=
  let names := fold_right (fun n l => qm_insert n tt l) [] (elements (x_disabled s)) in
  let file := if bool_decide (x_disabled s = ∅) then None else Some (json_compact (JArray (map (fun e => JString (fst e)) names))) in
  with_store (x_tokens s) (x_wiring s) (x_storeLoaded s) (x_store s) (disk_with_disabled file (x_disk s)) s.
Definition setExtensionEnabled (name : qstr) (enabled : bool) s : option (Api J) :=
  if is_nil name then Some s
  else if Bool.eqb enabled (negb (bool_decide (name ∈ x_disabled s))) then Some s
  else
    let disabled := if enabled then x_disabled s ∖ {[name]} else {[name]} ∪ x_disabled s in
    reload (saveDisabledSet (with_scripts (x_grants s) (x_scriptGrants s) (x_loaded s) (x_all s) disabled s)).
Definition setAutoReload (on : bool) s : Api J :=
  if Bool.eqb on (x_autoReload s) then s
  else appendLog (if on then lit "[ext] auto-reload ENABLED" else lit "[ext] auto-reload disabled") (with_auto on s).
(** The debounce timer of the watcher. *)
Definition watcherFired s : option (Api J) :=
  if x_autoReload s then reload (appendLog (lit "[ext] auto-reload: extensions dir changed") s) else Some s.

(** ** What comes back from a handler *)

Definition header_separators : qstr := [34] ++ lit "(),/:;<=>?@[\]{}".
Definition isValidHeaderName (name : qstr) : bool :=
  negb (is_nil name) && (zlen name <=? 256) && forallb (fun u => (33 <=? u) && (u <=? 126) && negb (contains_chr u header_separators)) name.
Definition isValidHeaderValue (value : qstr) : bool := (zlen value <=? 8192) && forallb (fun u => (32 <=? u) || (u =? 9)) value.

Definition kMaxHeaders : nat := 256.
Fixpoint headers_loop (h : Heap) (arr : Js) (n : nat) (i : Z) (out : list (qstr * qstr)) : list (qstr * qstr) :=
  match n with
  | O => out
  | S n' =>
      if (kMaxHeaders <=? length out)%nat then out
      else
        let pair := js_index h arr i in
        if negb (js_isArray pair) || (js_toInt h (js_property h pair (lit "length")) <? 2) then headers_loop h arr n' (i + 1) out
        else
          let k := js_toString h (js_index h pair 0) in
          let v := js_toString h (js_index h pair 1) in
          headers_loop h arr n' (i + 1) (if negb (isValidHeaderName k) || negb (isValidHeaderValue v) then out else out ++ [(k, v)])
  end.
Definition headersFromJs (h : Heap) (arr : Js) : list (qstr * qstr) :=
  if negb (js_isArray arr) then [] else headers_loop h arr (Z.to_nat (js_toInt h (js_property h arr (lit "length")))) 0 [].

Definition method_ok (m : qstr) : bool := negb (is_nil m) && (zlen m <=? 32) && forallb (fun u => (65 <=? u) && (u <=? 90)) m.
Definition path_ok (p : qstr) : bool := negb (is_nil p) && (zlen p <=? 8192) && forallb (fun u => negb (u =? 32) && (32 <=? u)) p.
Definition reason_ok (rp : qstr) : bool := (zlen rp <=? 128) && forallb (fun u => 32 <=? u) rp.

(** ** Mutations *)

Definition request_entry (req : HttpRequest) : Entry :=
  [(lit "method", EStr (rq_method req)); (lit "host", EStr (rq_host req)); (lit "port", EInt (rq_port req)); (lit "path", EStr (rq_path req));
   (lit "headers", EPairs (rq_headers req)); (lit "bodyText", EStr (u_fromutf8 (rq_body req)))].

(** The handlers on one shared entry; a returned object replaces it. *)
Fixpoint request_loop (handlers : list Js) (entry : Js) s : Api J * Js :=
  match handlers with
  | [] => (s, entry)
  | handler :: rest =>
      let '(s, r) := call handler [entry] s in
      if js_isError r then
        request_loop rest entry (appendLog (arg (arg (lit "[ext] onRequest threw: %1 at line %2") (text_of r s)) (number 10 (line_of r s))) s)
      else request_loop rest (if js_isObject r then r else entry) s
  end.
Definition read_request (h : Heap) (entry : Js) (req : HttpRequest) : HttpRequest :=
  let str k := js_toString h (js_property h entry (lit k)) in
  let m := str "method"%string in
  let p := str "path"%string in
  mkRequest (if method_ok m then m else rq_method req) (rq_target req) (rq_httpVersion req) (rq_host req) (rq_port req) (rq_tls req)
    (if path_ok p then p else rq_path req) (headersFromJs h (js_property h entry (lit "headers"))) (u_toutf8 (str "bodyText"%string)).
Definition doMutateRequest (req : HttpRequest) s : Api J * HttpRequest :=
  match x_onRequest s with
  | [] => (s, req)
  | handlers =>
      let '(h, entry) := js_object (request_entry req) (x_heap s) in
      let '(s, entry) := request_loop handlers entry (with_heap h s) in
      (s, read_request (x_heap s) entry req)
  end.

Definition to_int32 (n : Z) : Z := (n + 2 ^ 31) mod 2 ^ 32 - 2 ^ 31.
Definition scheme_text (wasTls : bool) : qstr := if wasTls then lit "https" else lit "http".
Definition exchange_url (wasTls : bool) (req : HttpRequest) : qstr := scheme_text wasTls ++ lit "://" ++ rq_host req ++ port_text (rq_port req) ++ rq_path req.
Definition response_entry (wasTls : bool) (req : HttpRequest) (resp : HttpResponse) : Entry :=
  [(lit "method", EStr (rq_method req)); (lit "url", EStr (exchange_url wasTls req)); (lit "status", EInt (rs_statusCode resp));
   (lit "reasonPhrase", EStr (rs_reasonPhrase resp)); (lit "headers", EPairs (rs_headers resp)); (lit "bodyText", EStr (u_fromutf8 (rs_body resp)));
   (lit "responseSize", EInt (to_int32 (zlen (rs_body resp))))].
Definition applyBack (h : Heap) (e : Js) (resp : HttpResponse) : HttpResponse :=
  let str k := js_toString h (js_property h e (lit k)) in
  let sc := js_toInt h (js_property h e (lit "status")) in
  let rp := str "reasonPhrase"%string in
  let returned := str "bodyText"%string in
  mkResponse (rs_httpVersion resp) (if (100 <=? sc) && (sc <? 600) then sc else rs_statusCode resp) (if reason_ok rp then rp else rs_reasonPhrase resp)
    (headersFromJs h (js_property h e (lit "headers"))) (if seq_eqb returned (u_fromutf8 (rs_body resp)) then rs_body resp else u_toutf8 returned)
    (rs_decodedBody resp) (rs_contentDecoded resp).

(** The handlers, each on an entry of its own; [None] when one registers another
    response handler while the list is walked. *)
Fixpoint response_loop (wasTls : bool) (req : HttpRequest) (handlers : list (ResponseHandler J)) (n : nat) (resp : HttpResponse) s : option (Api J * HttpResponse) :=
  match handlers with
  | [] => Some (s, resp)
  | handler :: rest =>
      let '(h, e) := js_object (response_entry wasTls req resp) (x_heap s) in
      let '(s, r) := call (h_fn handler) [e] (with_heap h s) in
      if negb (length (x_onResponse s) =? n)%nat then None
      else if js_isError r then
        response_loop wasTls req rest n resp (appendLog (arg (arg (lit "[ext] onResponse threw: %1 at line %2") (text_of r s)) (number 10 (line_of r s))) s)
      else if negb (h_mayMutate handler) then response_loop wasTls req rest n resp s
      else response_loop wasTls req rest n (applyBack (x_heap s) (if js_isObject r then r else e) resp) s
  end.
Definition doMutateResponse (wasTls : bool) (req : HttpRequest) (resp : HttpResponse) s : option (Api J * HttpResponse) :=
  response_loop wasTls req (x_onResponse s) (length (x_onResponse s)) resp s.

(** A caller on another thread reads the flag, then blocks on the owner; [None]: the host
    is gone before the call runs. *)
Definition applyRequestMutation (flag : bool) (owner : option (Api J)) (req : HttpRequest) : option (Api J) * HttpRequest :=
  if negb flag then (owner, req)
  else match owner with None => (None, req) | Some s => let '(s', r) := doMutateRequest req s in (Some s', r) end.

(** ** Observation *)

Definition observed_entry (wasTls : bool) (req : HttpRequest) (resp : HttpResponse) : Entry :=
  [(lit "method", EStr (rq_method req)); (lit "host", EStr (rq_host req)); (lit "port", EInt (rq_port req)); (lit "path", EStr (rq_path req));
   (lit "scheme", EStr (scheme_text wasTls)); (lit "url", EStr (exchange_url wasTls req)); (lit "status", EInt (rs_statusCode resp));
   (lit "reasonPhrase", EStr (rs_reasonPhrase resp)); (lit "responseSize", EInt (to_int32 (zlen (rs_body resp))));
   (lit "bodyPreview", EStr (u_fromutf8 (take (Z.to_nat kMaxScan) (rs_body resp)))); (lit "headers", EPairs (rs_headers resp))].
Definition history_of (wasTls : bool) (req : HttpRequest) (resp : HttpResponse) : HistoryEntry :=
  mkHistory (rq_method req) (rq_host req) (rq_port req) (rq_path req) (exchange_url wasTls req) wasTls (rs_statusCode resp) (to_int32 (zlen (rs_body resp))).

Fixpoint observe_loop (entry : Js) (handlers : list (ResponseHandler J)) (n : nat) s : option (Api J) :=
  match handlers with
  | [] => Some s
  | handler :: rest =>
      let '(s, r) := call (h_fn handler) [entry] s in
      if negb (length (x_onResponse s) =? n)%nat then None
      else observe_loop entry rest n
             (if js_isError r then appendLog (arg (arg (lit "[ext] handler threw: %1 at line %2") (text_of r s)) (number 10 (line_of r s))) s else s)
  end.
Definition onResponseReceived (wasTls : bool) (req : HttpRequest) (resp : HttpResponse) s : option (Api J) :=
  let s := with_records (last_n kMaxHistory (x_history s ++ [history_of wasTls req resp])) (x_log s) (x_out s) s in
  match x_onResponse s with
  | [] => Some s
  | handlers =>
      let '(h, entry) := js_object (observed_entry wasTls req resp) (x_heap s) in
      observe_loop entry handlers (length handlers) (with_heap h s)
  end.

(** ** The host's life *)

Inductive Label :=
| LDisk (d : Disk)
| LReload | LEnable (name : qstr) (enabled : bool) | LAuto (on : bool) | LWatcher
| LReceived (wasTls : bool) (req : HttpRequest) (resp : HttpResponse)
| LRequest (req : HttpRequest)
| LResponse (wasTls : bool) (req : HttpRequest) (resp : HttpResponse).

Definition exec s (l : Label) : option (Api J) :=
  match l with
  | LDisk d => Some (with_store (x_tokens s) (x_wiring s) (x_storeLoaded s) (x_store s) d s)
  | LReload => reload s
  | LEnable name on => setExtensionEnabled name on s
  | LAuto on => Some (setAutoReload on s)
  | LWatcher => watcherFired s
  | LReceived t req resp => onResponseReceived t req resp s
  | LRequest req => Some (fst (doMutateRequest req s))
  | LResponse t req resp => fst <$> doMutateResponse t req resp s
  end.
Definition xstep s (l : Label) s' : Prop := exec s l = Some s'.

(** ** The invariant of the host *)

(** An enabled script of the directory declares the capability. *)
Definition declared_in (dir : list (qstr * option bytes)) (disabled : gset qstr) (cap : qstr) : Prop :=
  exists name content, (name, Some content) ∈ dir /\ name ∉ disabled /\ cap ∈ parsePermissions (u_fromutf8 content).
Definition declares (cap : qstr) s : Prop := declared_in (x_loadedDir s) (x_disabled s) cap.

(** The worker-visible flags, the bounds, and what every registered mutation is backed
    by; [D] holds of the declared capabilities. *)
Definition host_ok (D : qstr -> Prop) s : Prop :=
  x_hasRequest s = negb (is_nil (x_onRequest s)) /\ x_hasResponse s = negb (is_nil (x_onResponse s)) /\
  zlen (x_log s) <= kMaxLogLines /\ zlen (x_history s) <= kMaxHistory /\
  (forall cap, cap ∈ x_grants s -> D cap) /\
  (x_onRequest s <> [] -> D kModifyRequests) /\
  (forall h, h ∈ x_onResponse s -> h_mayMutate h = true -> D kModifyResponses).

(** What no call of a script changes; without the grant it registers no request handler. *)
Definition bridged s s' : Prop :=
  x_grants s' = x_grants s /\ x_disabled s' = x_disabled s /\ x_loadedDir s' = x_loadedDir s /\ x_scriptGrants s' = x_scriptGrants s /\
  x_loaded s' = x_loaded s /\ x_all s' = x_all s /\ x_history s' = x_history s /\
  (kModifyRequests ∉ x_grants s -> x_onRequest s' = x_onRequest s) /\
  d_scripts (x_disk s') = d_scripts (x_disk s) /\ d_disabled (x_disk s') = d_disabled (x_disk s) /\ d_writable (x_disk s') = d_writable (x_disk s).

Lemma bridged_refl s : bridged s s.
Proof. by split_and!. Qed.
Lemma bridged_trans s1 s2 s3 : bridged s1 s2 -> bridged s2 s3 -> bridged s1 s3.
Proof.
  intros (A1 & A2 & A3 & A4 & A5 & A6 & A7 & A8 & A9 & A10 & A11) (B1 & B2 & B3 & B4 & B5 & B6 & B7 & B8 & B9 & B10 & B11). unfold bridged.
  refine (conj _ (conj _ (conj _ (conj _ (conj _ (conj _ (conj _ (conj _ (conj _ (conj _ _)))))))))); try (by etrans).
  intros H. rewrite B8 by (by rewrite A1). by apply A8.
Qed.

Lemma zlen_last_n {A} n (l : list A) : 0 <= n -> zlen (last_n n l) <= n.
Proof. intros Hn. unfold last_n, zlen. rewrite length_drop. lia. Qed.
Lemma last_n_all {A} n (l : list A) : zlen l <= n -> last_n n l = l.
Proof. intros Hn. unfold last_n. replace (Z.to_nat (zlen l - n)) with 0%nat by lia. done. Qed.

Section Invariant.
Variable D : qstr -> Prop.

(** The fields the invariant reads agree up to the log. *)
Lemma host_ok_ext s s' :
  x_hasRequest s' = x_hasRequest s -> x_hasResponse s' = x_hasResponse s -> x_onRequest s' = x_onRequest s -> x_onResponse s' = x_onResponse s ->
  zlen (x_log s') <= kMaxLogLines -> zlen (x_history s') <= kMaxHistory ->
  x_grants s' = x_grants s -> host_ok D s -> host_ok D s'.
Proof.
  intros E1 E2 E3 E4 E5 E6 E7 (H1 & H2 & H3 & H4 & H5 & H6 & H7). unfold host_ok. rewrite E1, E2, E3, E4, E7.
  by refine (conj H1 (conj H2 (conj E5 (conj E6 (conj H5 (conj H6 H7)))))).
Qed.

Lemma appendLog_ok msg s : host_ok D s -> host_ok D (appendLog msg s) /\ bridged s (appendLog msg s).
Proof.
  intros H. split; [|by split_and!]. apply (host_ok_ext s); try done; [|apply H].
  cbn [appendLog with_records x_log]. by apply zlen_last_n.
Qed.
Lemma tell_ok o s : host_ok D s -> host_ok D (tell o s) /\ bridged s (tell o s).
Proof. intros H. split; [|by split_and!]. apply (host_ok_ext s); try done; apply H. Qed.
Lemma heap_ok h s : host_ok D s -> host_ok D (with_heap h s) /\ bridged s (with_heap h s).
Proof. intros H. split; [|by split_and!]. apply (host_ok_ext s); try done; apply H. Qed.
Definition same_files (d d' : Disk) : Prop := d_scripts d' = d_scripts d /\ d_disabled d' = d_disabled d /\ d_writable d' = d_writable d.
Lemma storage_files b d : same_files d (disk_with_storage b d).
Proof. unfold disk_with_storage. destruct (d_writable d) eqn:E; by split_and!. Qed.
Lemma store_ok a b c d e s : same_files (x_disk s) e -> host_ok D s -> host_ok D (with_store a b c d e s) /\ bridged s (with_store a b c d e s).
Proof. intros (F1 & F2 & F3) H. split; [|by split_and!]. apply (host_ok_ext s); try done; apply H. Qed.

Lemma ok_trans s s1 s2 : (host_ok D s -> host_ok D s1 /\ bridged s s1) -> (host_ok D s1 -> host_ok D s2 /\ bridged s1 s2) -> host_ok D s -> host_ok D s2 /\ bridged s s2.
Proof. intros H1 H2 H. destruct (H1 H) as [G1 B1]. destruct (H2 G1) as [G2 B2]. split; [done|]. by eapply bridged_trans. Qed.

Lemma store_ready_ok s : host_ok D s -> host_ok D (store_ready s) /\ bridged s (store_ready s).
Proof. intros H. unfold store_ready, store_load. destruct (x_storeLoaded s); [split; [done|apply bridged_refl]|by apply (store_ok _ _ _ _ _ _ (conj eq_refl (conj eq_refl eq_refl)))]. Qed.
Lemma store_write_ok st s : host_ok D s -> host_ok D (store_write st s) /\ bridged s (store_write st s).
Proof. apply store_ok, storage_files. Qed.

Lemma onResponse_ok f s : host_ok D s -> host_ok D (onResponse f s) /\ bridged s (onResponse f s).
Proof.
  intros H. unfold onResponse. destruct (js_callable f); cbn [negb]; [|by apply appendLog_ok]. split; [|by split_and!].
  destruct H as (H1 & H2 & H3 & H4 & H5 & H6 & H7). unfold host_ok.
  cbn [refreshHandlerFlags with_handlers x_hasRequest x_hasResponse x_onRequest x_onResponse x_log x_history x_grants].
  refine (conj eq_refl (conj eq_refl (conj H3 (conj H4 (conj H5 (conj H6 _)))))).
  intros h [Hh|Hh]%elem_of_app; [by apply H7|]. apply list_elem_of_singleton in Hh as ->. cbn [h_mayMutate]. unfold isAllowed.
  change (requiresGrant kModifyResponses) with true. cbn [negb]. intros Hg. apply H5. by apply bool_decide_eq_true in Hg.
Qed.
Lemma onRequest_ok f s : host_ok D s -> host_ok D (onRequest f s) /\ bridged s (onRequest f s).
Proof.
  intros H. unfold onRequest. destruct (js_callable f); cbn [negb]; [|by apply appendLog_ok].
  unfold isAllowed. change (requiresGrant kModifyRequests) with true. cbn [negb]. case_bool_decide as Hg; cbn [negb]; [|by apply appendLog_ok].
  split; [|by split_and!]. destruct H as (H1 & H2 & H3 & H4 & H5 & H6 & H7). unfold host_ok.
  cbn [refreshHandlerFlags with_handlers x_hasRequest x_hasResponse x_onRequest x_onResponse x_log x_history x_grants].
  refine (conj eq_refl (conj eq_refl (conj H3 (conj H4 (conj H5 (conj _ H7)))))). intros _. by apply H5.
Qed.
Lemma onUnload_ok f s : host_ok D s -> host_ok D (onUnload f s) /\ bridged s (onUnload f s).
Proof.
  intros H. unfold onUnload. destruct (js_callable f); cbn [negb]; [|by apply appendLog_ok]. split; [|by split_and!].
  apply (host_ok_ext s); try done; apply H.
Qed.

Lemma bridge_ok q s : host_ok D s -> host_ok D (fst (bridge q s)) /\ bridged s (fst (bridge q s)).
Proof.
  intros H. destruct q; cbn [bridge fst].
  - by apply appendLog_ok.
  - by apply onResponse_ok.
  - by apply onRequest_ok.
  - by apply onUnload_ok.
  - split; [done|apply bridged_refl].
  - unfold reportFinding. destruct (w_scanner _); [by apply tell_ok|by apply appendLog_ok].
  - unfold sendToRepeater. destruct (w_repeater _); [|by apply appendLog_ok]. revert H. eapply ok_trans; [apply tell_ok|apply appendLog_ok].
  - unfold sendToIntruder. destruct (w_intruder _); [|by apply appendLog_ok]. revert H. eapply ok_trans; [apply tell_ok|apply appendLog_ok].
  - unfold generate. destruct (w_oast _); cbn [fst]; [by apply (store_ok _ _ _ _ _ _ (conj eq_refl (conj eq_refl eq_refl)))|split; [done|apply bridged_refl]].
  - split; [done|apply bridged_refl].
  - unfold store_set. destruct (is_nil key); [split; [done|apply bridged_refl]|]. revert H. eapply ok_trans; [apply store_ready_ok|apply store_write_ok].
  - by apply store_ready_ok.
  - unfold store_remove. destruct (qm_has _ _); [|by apply store_ready_ok]. revert H. eapply ok_trans; [apply store_ready_ok|apply store_write_ok].
  - unfold store_clear. destruct (is_nil _); [by apply store_ready_ok|]. revert H. eapply ok_trans; [apply store_ready_ok|apply store_write_ok].
Qed.

Lemma run_js_ok r : forall s, host_ok D s -> host_ok D (fst (run_js r s)) /\ bridged s (fst (run_js r s)).
Proof.
  induction r as [h v|q k IH]; intros s H; cbn [run_js fst]; [by apply heap_ok|].
  pose proof (bridge_ok q s H) as [H1 B1]. destruct (bridge q s) as [s1 reply]. cbn [fst] in *. destruct (IH reply s1 H1) as [H2 B2].
  split; [done|]. by eapply bridged_trans.
Qed.
Lemma call_ok f args s : host_ok D s -> host_ok D (fst (call f args s)) /\ bridged s (fst (call f args s)).
Proof. apply run_js_ok. Qed.

Lemma log_then_tell_ok msg o s : host_ok D s -> host_ok D (tell o (appendLog msg s)) /\ bridged s (tell o (appendLog msg s)).
Proof. eapply ok_trans; [apply appendLog_ok|apply tell_ok]. Qed.

Lemma unload_loop_ok fns n : forall s s', host_ok D s -> unload_loop fns n s = Some s' -> host_ok D s' /\ bridged s s'.
Proof.
  induction fns as [|fn rest IH]; intros s s' H E; cbn [unload_loop] in E; [injection E as <-; split; [done|apply bridged_refl]|].
  set (s1 := if negb (js_callable fn) then s else _) in E. destruct (length _ =? n)%nat; [|done].
  assert (H1 : host_ok D s1 /\ bridged s s1).
  { unfold s1. destruct (negb _); [split; [done|apply bridged_refl]|]. pose proof (call_ok fn [] s H) as [Hc Bc]. destruct (call fn [] s) as [sc r]. cbn [fst] in *.
    destruct (js_isError r); [|done]. destruct (log_then_tell_ok (lit "[ext] " ++ arg (arg (lit "onUnload handler error: %1 at line %2") (text_of r sc)) (number 10 (line_of r sc)))
      (OCrash (lit "extension") (arg (arg (lit "onUnload handler error: %1 at line %2") (text_of r sc)) (number 10 (line_of r sc)))) sc Hc) as [Ht Bt].
    split; [exact Ht|]. by eapply bridged_trans. }
  destruct H1 as [H1 B1]. destruct (IH _ _ H1 E) as [H2 B2]. split; [done|]. by eapply bridged_trans.
Qed.

(** While scripts load: the grants of the script being evaluated are declared by it. *)
Lemma scripts_ok grants sg ld al dis s :
  host_ok D s -> (forall cap, cap ∈ grants -> D cap) -> host_ok D (with_scripts grants sg ld al dis s).
Proof.
  intros (H1 & H2 & H3 & H4 & H5 & H6 & H7) Hg. unfold host_ok. cbn [with_scripts x_hasRequest x_hasResponse x_onRequest x_onResponse x_log x_history x_grants].
  exact (conj H1 (conj H2 (conj H3 (conj H4 (conj Hg (conj H6 H7)))))).
Qed.

Definition load_kept s s' : Prop := x_disabled s' = x_disabled s /\ x_loadedDir s' = x_loadedDir s /\ x_history s' = x_history s.
Lemma bridged_load_kept s s' : bridged s s' -> load_kept s s'.
Proof. intros (_ & A2 & A3 & _ & _ & _ & A7 & _). by split_and!. Qed.

(** The scripts that would be evaluated declare what [D] holds of. *)
Definition backs s : Prop := forall name content cap, (name, Some content) ∈ x_loadedDir s -> name ∉ x_disabled s -> cap ∈ parsePermissions (u_fromutf8 content) -> D cap.
Lemma backs_kept s s' : load_kept s s' -> backs s -> backs s'.
Proof. intros (E1 & E2 & _) H. unfold backs. by rewrite E1, E2. Qed.

Lemma load_one_ok f s : host_ok D s -> backs s -> f ∈ x_loadedDir s -> host_ok D (load_one f s) /\ load_kept s (load_one f s).
Proof.
  intros H Hb Hf. destruct f as [name content]. unfold load_one. cbn [fst snd]. cbv zeta.
  set (s0 := with_scripts _ _ _ (x_all s ++ [name]) _ s). assert (H0 : host_ok D s0) by (apply scripts_ok; [done|apply H]).
  assert (K0 : load_kept s s0) by by split_and!. case_bool_decide as Hd.
  { destruct (appendLog_ok (file_disabled_line name) s0 H0) as [H1 B1]. split; [done|]. apply bridged_load_kept in B1. unfold load_kept in *. by destruct B1 as (-> & -> & ->). }
  destruct content as [content|]; [|done].
  set (grants := parsePermissions _). set (s1 := with_scripts grants _ _ _ _ s0).
  assert (H1 : host_ok D s1).
  { apply scripts_ok; [done|]. intros cap Hc. by apply (Hb name content). }
  assert (K1 : load_kept s s1) by by split_and!.
  pose proof (run_js_ok (js_eval (x_heap s1) (u_fromutf8 content) name) s1 H1) as [H2 B2].
  destruct (run_js _ s1) as [s2 result]. cbn [fst] in *. apply bridged_load_kept in B2.
  assert (K2 : load_kept s s2) by (unfold load_kept in *; destruct B2 as (-> & -> & ->); exact K1).
  destruct (js_isError result).
  - set (msg := arg _ _). destruct (log_then_tell_ok (lit "[ext] " ++ msg) (OCrash (lit "extension-load") msg) s2 H2) as [H3 B3].
    split; [done|]. apply bridged_load_kept in B3. unfold load_kept in *. by destruct B3 as (-> & -> & ->).
  - set (s3 := with_scripts _ _ (x_loaded s2 ++ [name]) _ _ s2). assert (H3 : host_ok D s3) by (apply scripts_ok; [done|apply H2]).
    set (msg := if is_nil _ then _ else _). destruct (appendLog_ok msg s3 H3) as [H4 B4]. split; [done|]. apply bridged_load_kept in B4. unfold load_kept in *.
    by destruct B4 as (-> & -> & ->).
Qed.

Lemma load_loop_ok fs : forall s, host_ok D s -> backs s -> (forall f, f ∈ fs -> f ∈ x_loadedDir s) ->
  host_ok D (fold_left (fun s f => load_one f s) fs s) /\ load_kept s (fold_left (fun s f => load_one f s) fs s).
Proof.
  induction fs as [|f fs IH]; intros s H Hb Hfs; cbn [fold_left]; [by split; [|split_and!]|].
  destruct (load_one_ok f s H Hb) as [H1 K1]; [apply Hfs; left|]. pose proof K1 as (_ & Ed & _).
  destruct (IH _ H1 (backs_kept _ _ K1 Hb)) as [H2 K2]; [intros g Hg; rewrite Ed; apply Hfs; by right|]. split; [done|]. unfold load_kept in *. by destruct K2 as (-> & -> & ->).
Qed.

End Invariant.

(** A load into a fresh engine establishes the invariant, and no grant is left. *)
Definition api_ok s : Prop := host_ok (fun cap => declares cap s) s /\ x_grants s = ∅.

Lemma loadAll_ok s :
  x_onRequest s = [] -> x_onResponse s = [] -> x_hasRequest s = false -> x_hasResponse s = false -> x_grants s = ∅ ->
  zlen (x_log s) <= kMaxLogLines -> zlen (x_history s) <= kMaxHistory -> api_ok (loadAll s) /\ x_history (loadAll s) = x_history s.
Proof.
  intros E1 E2 E3 E4 E5 E6 E7. unfold loadAll. set (s0 := loadDisabledSet _). set (D := declared_in (x_loadedDir s0) (x_disabled s0)).
  assert (H0 : host_ok D s0).
  { unfold host_ok, s0, loadDisabledSet. cbn [with_scripts with_dir x_hasRequest x_hasResponse x_onRequest x_onResponse x_log x_history x_grants].
    rewrite E1, E2, E3, E4, E5. refine (conj eq_refl (conj eq_refl (conj E6 (conj E7 (conj _ (conj _ _)))))); [set_solver|done|set_solver]. }
  assert (Hb : backs D s0) by (intros name content cap ? ? ?; by exists name, content).
  destruct (load_loop_ok D (d_scripts (x_disk s)) s0 H0 Hb) as [H1 (K1 & K2 & K3)]; [done|]. set (s1 := fold_left _ _ s0) in *. split; [split; [|done]|exact K3].
  unfold declares. cbn [with_scripts x_loadedDir x_disabled]. rewrite K1, K2. apply (scripts_ok D); [exact H1|]. set_solver.
Qed.

(** A reload needs the bounds only. *)
Lemma reload_establishes s s' : host_ok (fun _ => True) s -> reload s = Some s' -> api_ok s' /\ x_history s' = x_history s.
Proof.
  intros H E. unfold reload, runUnloadHandlers in E. destruct (unload_loop _ _ s) as [s1|] eqn:E1; [|done]. injection E as <-.
  apply (unload_loop_ok (fun _ => True)) in E1 as [H1 B1]; [|done]. destruct H1 as (_ & _ & L1 & L2 & _). destruct B1 as (_ & _ & _ & _ & _ & _ & Eh & _).
  set (s2 := rebuildEngine _). destruct (loadAll_ok s2) as (G1 & G2); try done. split; [done|]. by rewrite G2.
Qed.
Lemma host_ok_weaken D s : host_ok D s -> host_ok (fun _ => True) s.
Proof. intros (H1 & H2 & H3 & H4 & _). by split_and!. Qed.

Lemma construct_ok w d : api_ok (construct w d).
Proof. unfold construct. set (s := rebuildEngine _). by destruct (loadAll_ok s) as (G1 & _). Qed.

Section Dispatch.
Variable D : qstr -> Prop.

Lemma request_loop_ok handlers : forall entry s, host_ok D s -> host_ok D (fst (request_loop handlers entry s)) /\ bridged s (fst (request_loop handlers entry s)).
Proof.
  induction handlers as [|f rest IH]; intros entry s H; cbn [request_loop fst]; [split; [done|apply bridged_refl]|].
  pose proof (call_ok D f [entry] s H) as [H1 B1]. destruct (call f [entry] s) as [s1 r]. cbn [fst] in *. destruct (js_isError r).
  - set (msg := arg _ _). destruct (appendLog_ok D msg s1 H1) as [H2 B2]. destruct (IH entry _ H2) as [H3 B3]. split; [done|].
    eapply bridged_trans; [exact B1|]. by eapply bridged_trans.
  - destruct (IH (if js_isObject r then r else entry) _ H1) as [H3 B3]. split; [done|]. by eapply bridged_trans.
Qed.

Lemma doMutateRequest_ok req s : host_ok D s -> host_ok D (fst (doMutateRequest req s)) /\ bridged s (fst (doMutateRequest req s)).
Proof.
  intros H. unfold doMutateRequest. destruct (x_onRequest s) as [|f fs]; [split; [done|apply bridged_refl]|].
  destruct (js_object _ _) as [h entry]. destruct (heap_ok D h s H) as [H1 B1].
  pose proof (request_loop_ok (f :: fs) entry _ H1) as [H2 B2]. destruct (request_loop _ _ _) as [s1 e1]. cbn [fst] in *. split; [done|]. by eapply bridged_trans.
Qed.

Lemma response_loop_ok t req handlers n : forall resp s s' resp', host_ok D s -> response_loop t req handlers n resp s = Some (s', resp') -> host_ok D s' /\ bridged s s'.
Proof.
  induction handlers as [|f rest IH]; intros resp s s' resp' H E; cbn [response_loop] in E; [injection E as <- <-; split; [done|apply bridged_refl]|].
  destruct (js_object _ _) as [h e]. destruct (heap_ok D h s H) as [H1 B1]. pose proof (call_ok D (h_fn f) [e] _ H1) as [H2 B2].
  destruct (call (h_fn f) [e] _) as [s1 r]. cbn [fst] in *. assert (B12 : bridged s s1) by (by eapply bridged_trans).
  destruct (negb _); [done|]. destruct (js_isError r).
  - apply IH in E as [H3 B3]; [|by apply appendLog_ok]. split; [done|]. eapply bridged_trans; [exact B12|]. eapply bridged_trans; [|exact B3]. by apply (appendLog_ok D).
  - destruct (negb (h_mayMutate f)); apply IH in E as [H3 B3]; try done; (split; [done|]; by eapply bridged_trans).
Qed.

Lemma observe_loop_ok entry handlers n : forall s s', host_ok D s -> observe_loop entry handlers n s = Some s' -> host_ok D s' /\ bridged s s'.
Proof.
  induction handlers as [|f rest IH]; intros s s' H E; cbn [observe_loop] in E; [injection E as <-; split; [done|apply bridged_refl]|].
  pose proof (call_ok D (h_fn f) [entry] _ H) as [H2 B2]. destruct (call (h_fn f) [entry] _) as [s1 r]. cbn [fst] in *. destruct (negb _); [done|].
  apply IH in E as [H3 B3]; [|destruct (js_isError r); [by apply appendLog_ok|done]]. split; [done|]. eapply bridged_trans; [exact B2|].
  eapply bridged_trans; [|exact B3]. destruct (js_isError r); [by apply (appendLog_ok D)|apply bridged_refl].
Qed.

End Dispatch.

(** Steps that keep the invariant for what the loaded directory declares. *)
Lemma bridged_api_ok s s' : api_ok s -> (forall D, host_ok D s -> host_ok D s' /\ bridged s s') -> api_ok s'.
Proof.
  intros [H Hg] Hs. destruct (Hs _ H) as [H' (B1 & B2 & B3 & _)]. split; [|by rewrite B1]. unfold declares. by rewrite B2, B3.
Qed.

Lemma xstep_ok s l s' : api_ok s -> xstep s l s' -> api_ok s'.
Proof.
  intros Hs E. pose proof Hs as [H Hg]. unfold xstep in E. destruct l; cbn [exec] in E.
  - injection E as <-. split; [|exact Hg]. exact H.
  - by apply reload_establishes in E as [? _]; [|apply host_ok_weaken in H].
  - unfold setExtensionEnabled in E. destruct (is_nil name); [by injection E as <-|]. destruct (Bool.eqb _ _); [by injection E as <-|].
    apply reload_establishes in E as [? _]; [done|]. apply host_ok_weaken in H. exact H.
  - injection E as <-. apply (bridged_api_ok s); [done|]. intros D HD. unfold setAutoReload. destruct (Bool.eqb _ _); [by split; [|apply bridged_refl]|].
    split; [|by split_and!]. apply appendLog_ok. apply (host_ok_ext D s); try done; apply HD.
  - unfold watcherFired in E. destruct (x_autoReload s); [|by injection E as <-]. apply reload_establishes in E as [? _]; [done|].
    apply host_ok_weaken in H. by apply appendLog_ok.
  - unfold onResponseReceived in E. set (s1 := with_records _ _ _ s) in E.
    assert (A1 : api_ok s1) by (split; [|done]; apply (host_ok_ext _ s); try done; [apply H|by apply zlen_last_n]).
    destruct (x_onResponse s1) as [|f fs]; [by injection E as <-|]. destruct (js_object _ _) as [h e].
    apply (bridged_api_ok s1); [done|]. intros D HD. destruct (heap_ok D h s1 HD) as [H2 B2]. apply (observe_loop_ok D) in E as [H3 B3]; [|done].
    split; [done|]. by eapply bridged_trans.
  - injection E as <-. apply (bridged_api_ok s); [done|]. intros D. apply doMutateRequest_ok.
  - destruct (doMutateResponse wasTls req resp s) as [[s1 r1]|] eqn:E1; [|done]. injection E as <-. apply (bridged_api_ok s); [done|]. intros D HD.
    unfold doMutateResponse in E1. by apply (response_loop_ok D) in E1.
Qed.

Lemma api_reachable w d tr s : steps xstep (construct w d) tr s -> api_ok s.
Proof. intros H. refine (steps_invariant xstep api_ok _ _ _ _ H (construct_ok w d)). intros ? ? ?. apply xstep_ok. Qed.

(** ** The capability gate *)

(** What a run of observers leaves: the response as it was. *)
Lemma response_loop_observers t req handlers n : forall resp s s' resp',
  Forall (fun h => h_mayMutate h = false) handlers -> response_loop t req handlers n resp s = Some (s', resp') -> resp' = resp.
Proof.
  induction handlers as [|f rest IH]; intros resp s s' resp' Hm E; cbn [response_loop] in E; [by injection E as _ <-|].
  apply Forall_cons in Hm as [Hf Hm]. destruct (js_object _ _) as [h e]. destruct (call _ _ _) as [s1 r]. destruct (negb _); [done|].
  rewrite Hf in E. destruct (js_isError r); exact (IH _ _ _ _ Hm E).
Qed.

(** C14. Traffic is changed only with a declared capability.  Whatever scripts do, in whatever
    order exchanges, reloads, changes of the disk and of the enabled set come: between
    calls no grant is active and the worker flags are those of the handler lists; unless
    an enabled script of the loaded directory declares modify-requests, requests pass
    unchanged; unless one declares modify-responses, responses do, even when handlers
    edit the objects they are given; log and history keep their bounds. *)
Theorem mutation_needs_grant w d tr s :
  steps xstep (construct w d) tr s ->
  x_grants s = ∅ /\ zlen (x_log s) <= kMaxLogLines /\ zlen (x_history s) <= kMaxHistory /\
  (~ declares kModifyRequests s -> x_hasRequest s = false /\ forall req, doMutateRequest req s = (s, req)) /\
  (~ declares kModifyResponses s -> forall t req resp s' resp', doMutateResponse t req resp s = Some (s', resp') -> resp' = resp).
Proof.
  intros H. apply api_reachable in H as [(H1 & H2 & H3 & H4 & H5 & H6 & H7) Hg]. refine (conj Hg (conj H3 (conj H4 (conj _ _)))).
  - intros Hn. assert (E : x_onRequest s = []) by (destruct (x_onRequest s); [done|by exfalso; apply Hn, H6]). rewrite H1. unfold doMutateRequest. by rewrite E.
  - intros Hn t req resp s' resp' E. eapply response_loop_observers; [|exact E]. apply Forall_forall. intros h Hh.
    destruct (h_mayMutate h) eqn:Em; [|done]. by exfalso; apply Hn, (H7 h).
Qed.

(** ** What reaches the wire *)

Definition printable_line (l : qstr) : Prop := Forall (fun u => 32 <= u \/ u = 9) l.
Definition header_wf (h : qstr * qstr) : Prop :=
  fst h <> [] /\ zlen (fst h) <= 256 /\ Forall (fun u => 33 <= u <= 126 /\ u <> 58) (fst h) /\ zlen (snd h) <= 8192 /\ printable_line (snd h).

Lemma isValidHeaderName_wf n : isValidHeaderName n = true -> n <> [] /\ zlen n <= 256 /\ Forall (fun u => 33 <= u <= 126 /\ u <> 58) n.
Proof.
  unfold isValidHeaderName. rewrite !andb_true_iff, negb_true_iff, Z.leb_le, forallb_forall. intros [[Hn Hl] Hf].
  split; [by destruct n|]. split; [done|]. apply Forall_forall. intros u Hu. apply list_elem_of_In in Hu. specialize (Hf u Hu).
  rewrite !andb_true_iff, !Z.leb_le, negb_true_iff in Hf. destruct Hf as [[? ?] Hs]. split; [lia|]. intros ->. by vm_compute in Hs.
Qed.
Lemma isValidHeaderValue_wf v : isValidHeaderValue v = true -> zlen v <= 8192 /\ printable_line v.
Proof.
  unfold isValidHeaderValue. rewrite andb_true_iff, Z.leb_le, forallb_forall. intros [Hl Hf]. split; [done|]. apply Forall_forall. intros u Hu.
  apply list_elem_of_In in Hu. specialize (Hf u Hu). rewrite orb_true_iff, Z.leb_le, Z.eqb_eq in Hf. done.
Qed.

Lemma headers_loop_wf h arr n : forall i out, (length out <= kMaxHeaders)%nat -> Forall header_wf out ->
  (length (headers_loop h arr n i out) <= kMaxHeaders)%nat /\ Forall header_wf (headers_loop h arr n i out).
Proof.
  induction n as [|n IH]; intros i out Hl Hf; cbn [headers_loop]; [done|]. destruct (kMaxHeaders <=? length out)%nat eqn:E; [done|]. apply Nat.leb_gt in E.
  cbv zeta. destruct (_ || _); [by apply IH|]. set (k := js_toString h _). set (v := js_toString h _).
  destruct (isValidHeaderName k) eqn:Ek; cbn [negb orb]; [|by apply IH]. destruct (isValidHeaderValue v) eqn:Ev; cbn [negb]; [|by apply IH].
  apply IH; [rewrite length_app; cbn; lia|]. apply Forall_app_2; [done|]. apply Forall_singleton.
  apply isValidHeaderName_wf in Ek as (? & ? & ?). apply isValidHeaderValue_wf in Ev as (? & ?). by split_and!.
Qed.
Lemma headersFromJs_wf h arr : (length (headersFromJs h arr) <= kMaxHeaders)%nat /\ Forall header_wf (headersFromJs h arr).
Proof. unfold headersFromJs. destruct (negb _); [split; [cbn; unfold kMaxHeaders; lia|constructor]|]. apply headers_loop_wf; [cbn; unfold kMaxHeaders; lia|constructor]. Qed.

Definition headers_safe (old new : list (qstr * qstr)) : Prop := new = old \/ ((length new <= kMaxHeaders)%nat /\ Forall header_wf new).
Definition response_safe (old new : HttpResponse) : Prop :=
  rs_httpVersion new = rs_httpVersion old /\ (rs_statusCode new = rs_statusCode old \/ 100 <= rs_statusCode new < 600) /\
  (rs_reasonPhrase new = rs_reasonPhrase old \/ (zlen (rs_reasonPhrase new) <= 128 /\ Forall (fun u => 32 <= u) (rs_reasonPhrase new))) /\
  headers_safe (rs_headers old) (rs_headers new).

Lemma response_safe_refl r : response_safe r r.
Proof. unfold response_safe, headers_safe. by split_and!; auto. Qed.
Lemma response_safe_trans r1 r2 r3 : response_safe r1 r2 -> response_safe r2 r3 -> response_safe r1 r3.
Proof.
  intros (A1 & A2 & A3 & A4) (B1 & B2 & B3 & B4). unfold response_safe, headers_safe in *. refine (conj _ (conj _ (conj _ _))).
  - by etrans.
  - destruct B2 as [-> |?]; [exact A2|by right].
  - destruct B3 as [-> |?]; [exact A3|by right].
  - destruct B4 as [-> |?]; [exact A4|by right].
Qed.
Lemma applyBack_safe h e resp : response_safe resp (applyBack h e resp).
Proof.
  unfold response_safe, applyBack. cbv zeta. cbn [rs_httpVersion rs_statusCode rs_reasonPhrase rs_headers]. refine (conj eq_refl (conj _ (conj _ _))).
  - destruct (_ && _) eqn:E; [right; to_prop; lia|by left].
  - set (rp := js_toString h _). destruct (reason_ok rp) eqn:E; [right|by left]. unfold reason_ok in E. apply andb_true_iff in E as [E1 E2]. to_prop. split; [done|].
    rewrite forallb_forall in E2. apply Forall_forall. intros u Hu. apply list_elem_of_In in Hu. specialize (E2 u Hu). to_prop. lia.
  - right. apply headersFromJs_wf.
Qed.
Lemma response_loop_safe t req handlers n : forall resp s s' resp', response_loop t req handlers n resp s = Some (s', resp') -> response_safe resp resp'.
Proof.
  induction handlers as [|f rest IH]; intros resp s s' resp' E; cbn [response_loop] in E; [injection E as _ <-; apply response_safe_refl|].
  destruct (js_object _ _) as [h e]. destruct (call _ _ _) as [s1 r]. destruct (negb (length _ =? n)%nat); [done|].
  destruct (js_isError r); [by eapply IH|]. destruct (negb _); [by eapply IH|]. eapply response_safe_trans; [apply applyBack_safe|by eapply IH].
Qed.

(** C15. No extension can inject a line or a field into a message head.  Whatever handlers
    return, a request keeps its origin and its version; its method stays or is 1 to 32
    capitals, its path stays or has neither blanks nor controls, and the headers stay or
    are at most 256 with token names and values without line breaks; a response keeps its
    version, its status stays or lies between 100 and 599, and reason and headers obey the
    same rules.  The body is not constrained, nor whether the headers returned still
    announce its length or its coding ([partial_result_drops_request]). *)
Theorem mutations_well_formed s req t resp :
  (let r := snd (doMutateRequest req s) in
   rq_target r = rq_target req /\ rq_httpVersion r = rq_httpVersion req /\ rq_host r = rq_host req /\ rq_port r = rq_port req /\ rq_tls r = rq_tls req /\
   (rq_method r = rq_method req \/ (1 <= zlen (rq_method r) <= 32 /\ Forall (fun u => 65 <= u <= 90) (rq_method r))) /\
   (rq_path r = rq_path req \/ (1 <= zlen (rq_path r) <= 8192 /\ Forall (fun u => 32 < u) (rq_path r))) /\
   headers_safe (rq_headers req) (rq_headers r)) /\
  match doMutateResponse t req resp s with Some (_, r) => response_safe resp r | None => True end.
Proof.
  split.
  - cbv zeta. unfold doMutateRequest. destruct (x_onRequest s) as [|f fs]; [cbn [snd]; unfold headers_safe; by split_and!; auto|].
    destruct (js_object _ _) as [h entry]. destruct (request_loop _ _ _) as [s1 e1]. cbn [snd].
    unfold read_request. cbv zeta. cbn [rq_target rq_httpVersion rq_host rq_port rq_tls rq_method rq_path rq_headers].
    refine (conj eq_refl (conj eq_refl (conj eq_refl (conj eq_refl (conj eq_refl (conj _ (conj _ _))))))).
    + set (m := js_toString _ _). destruct (method_ok m) eqn:E; [right|by left]. unfold method_ok in E. apply andb_true_iff in E as [E E2]. apply andb_true_iff in E as [E0 E1].
      to_prop. split; [destruct m; [done|unfold zlen in *; cbn in *; lia]|]. rewrite forallb_forall in E2. apply Forall_forall. intros u Hu. apply list_elem_of_In in Hu. specialize (E2 u Hu). to_prop. lia.
    + set (p := js_toString _ _). destruct (path_ok p) eqn:E; [right|by left]. unfold path_ok in E. apply andb_true_iff in E as [E E2]. apply andb_true_iff in E as [E0 E1].
      to_prop. split; [destruct p; [done|unfold zlen in *; cbn in *; lia]|]. rewrite forallb_forall in E2. apply Forall_forall. intros u Hu. apply list_elem_of_In in Hu. specialize (E2 u Hu). to_prop. lia.
    + right. apply headersFromJs_wf.
  - destruct (doMutateResponse t req resp s) as [[s' r]|] eqn:E; [|done]. by eapply response_loop_safe.
Qed.

(** ** The enabled set and the storage survive on disk *)

Lemma qm_insert_keys {V} k (v : V) m x : x ∈ map fst (qm_insert (K := qstr) k v m) <-> x = k \/ x ∈ map fst m.
Proof.
  induction m as [|[k' v'] m IH]; cbn [qm_insert map fst]; [rewrite list_elem_of_singleton; set_solver|].
  destruct (klt k' k) eqn:E1; [cbn [map fst]; rewrite !elem_of_cons, IH; tauto|]. destruct (klt k k') eqn:E2; cbn [map fst]; rewrite !elem_of_cons; [tauto|].
  rewrite (klt_total k' k E1 E2). tauto.
Qed.
Lemma sorted_names_elem l x : x ∈ map fst (fold_right (fun n (m : list (qstr * unit)) => qm_insert n tt m) [] l) <-> x ∈ l.
Proof. induction l as [|n l IH]; cbn [fold_right]; [done|]. rewrite qm_insert_keys, IH, elem_of_cons. done. Qed.

Lemma disabled_file_roundtrip {JL : QtJsonLaws JT} (names : gset qstr) :
  (forall n, n ∈ names -> plain_str n = true /\ n <> []) ->
  disabled_of (if bool_decide (names = ∅) then None
               else Some (json_compact (JArray (map (fun e => JString (fst e)) (fold_right (fun n m => qm_insert n tt m) [] (elements names)))))) = names.
Proof.
  intros Hp. case_bool_decide as E; [by rewrite E|]. unfold disabled_of. set (l := fold_right _ [] _).
  assert (Hl : forall x, x ∈ map fst l <-> x ∈ names) by (intros x; unfold l; by rewrite sorted_names_elem, elem_of_elements).
  rewrite law_json_text; [|apply (plain_array 511), Forall_forall; intros v (e & -> & He)%list_elem_of_fmap; cbn [json_plain]; apply Hp, Hl, list_elem_of_fmap; by exists e|done].
  apply set_eq. intros x. rewrite elem_of_list_to_set. rewrite <- Hl. clearbody l. clear E.
  assert (Hn : forall y, y ∈ map fst l -> y <> []) by (intros y Hy; by apply Hp, Hl). clear Hl Hp. induction l as [|e l IH]; [done|].
  cbn [map flat_map toString fst]. rewrite elem_of_app, elem_of_cons. rewrite IH by (intros y Hy; apply Hn; right; exact Hy).
  assert (He : fst e <> []) by (apply Hn; left). destruct (fst e) as [|c w] eqn:Ee; [done|]. cbn [is_nil]. rewrite list_elem_of_singleton. done.
Qed.

(** Calls of scripts keep what [bridged] says, whatever the state. *)
Lemma bridge_bridged q s : bridged s (fst (bridge q s)).
Proof.
  unfold bridge, onResponse, onRequest, onUnload, reportFinding, sendToRepeater, sendToIntruder, generate, store_set, store_get, store_remove, store_clear, store_ready, store_write, disk_with_storage.
  destruct q; repeat case_match; simplify_eq; cbn [fst]; unfold bridged; split_and!; try done.
  unfold isAllowed in *. intros Hk. exfalso. apply Hk. by match goal with H : negb (if _ then true else bool_decide _) = false |- _ => apply negb_false_iff, bool_decide_eq_true in H end.
Qed.
Lemma run_bridged r : forall s, bridged s (fst (run_js r s)).
Proof.
  induction r as [h v|q k IH]; intros s; cbn [run_js fst]; [by split_and!|]. pose proof (bridge_bridged q s) as B. destruct (bridge q s) as [s1 rep].
  eapply bridged_trans; [exact B|apply IH].
Qed.
Lemma unload_bridged fns n : forall s s', unload_loop fns n s = Some s' -> bridged s s'.
Proof.
  induction fns as [|f fns IH]; intros s s' E; cbn [unload_loop] in E; [injection E as <-; apply bridged_refl|].
  set (sx := if negb (js_callable f) then s else _) in E. destruct (_ =? _)%nat; [|done]. eapply bridged_trans; [|by apply IH].
  unfold sx. destruct (negb _); [apply bridged_refl|]. unfold call. pose proof (run_bridged (js_call (x_heap s) f []) s) as B. destruct (run_js _ s) as [sc r]. cbn [fst] in B.
  by destruct (js_isError r).
Qed.

(** Loading evaluates enabled scripts only and lists every file. *)
Lemma load_one_lists f s :
  x_all (load_one f s) = x_all s ++ [fst f] /\ x_disabled (load_one f s) = x_disabled s /\
  (forall n, n ∈ x_loaded (load_one f s) -> n ∈ x_loaded s \/ (n = fst f /\ n ∉ x_disabled s)).
Proof.
  destruct f as [name content]. unfold load_one. cbn [fst snd]. cbv zeta. set (s0 := with_scripts _ _ _ (x_all s ++ [name]) _ s). case_bool_decide as Hd.
  { by split_and!; [..|left]. }
  destruct content as [content|]; [|by split_and!; [..|left]]. set (s1 := with_scripts _ _ _ _ _ s0).
  pose proof (run_bridged (js_eval (x_heap s1) (u_fromutf8 content) name) s1) as H. destruct (run_js _ s1) as [s2 r]. cbn [fst] in H. destruct H as (_ & R2 & _ & _ & R3 & R1 & _).
  destruct (js_isError r); cbn [tell appendLog with_records with_scripts x_all x_disabled x_loaded]; rewrite R1, R2, R3; split_and!; try done; [by left|].
  intros n [Hn|Hn]%elem_of_app; [by left|]. apply list_elem_of_singleton in Hn as ->. by right.
Qed.
Lemma load_loop_lists fs : forall s, let s' := fold_left (fun s f => load_one f s) fs s in
  x_all s' = x_all s ++ map fst fs /\ x_disabled s' = x_disabled s /\ (forall n, n ∈ x_loaded s' -> n ∈ x_loaded s \/ (n ∈ map fst fs /\ n ∉ x_disabled s)).
Proof.
  induction fs as [|f fs IH]; intros s; cbn [fold_left map]; [rewrite app_nil_r; by split_and!; [..|left]|].
  destruct (load_one_lists f s) as (A1 & A2 & A3). destruct (IH (load_one f s)) as (B1 & B2 & B3). cbv zeta in *. rewrite B1, B2, A1, A2, <- app_assoc.
  split_and!; try done. intros n Hn. destruct (B3 n Hn) as [Hn'|[Hn' Hd]].
  - destruct (A3 n Hn') as [?|[-> ?]]; [by left|]. right. split; [left|done].
  - right. rewrite A2 in Hd. split; [by right|done].
Qed.

(** Switching an extension off or on takes effect and lasts: with a writable disk the set of
    disabled scripts afterwards is the old one with the change, read back from its file,
    the list shows every script of the directory, and no disabled script is loaded. *)
Theorem enablement_persists {JL : QtJsonLaws JT} s (name : qstr) (on : bool) s' :
  let want : gset qstr := if on then x_disabled s ∖ {[name]} else {[name]} ∪ x_disabled s in
  setExtensionEnabled name on s = Some s' -> d_writable (x_disk s) = true -> name <> [] -> (name ∈ x_disabled s <-> on = true) ->
  (forall n, n ∈ want -> plain_str n = true /\ n <> []) ->
  x_disabled s' = want /\ x_all s' = map fst (d_scripts (x_disk s)) /\ (forall n, n ∈ x_loaded s' -> n ∈ x_all s' /\ n ∉ want).
Proof.
  cbv zeta. intros E Hw Hn Hchange Hplain. unfold setExtensionEnabled in E. destruct name as [|c name]; [done|]. cbn [is_nil] in E. set (nm := c :: name) in *.
  assert (Hb : Bool.eqb on (negb (bool_decide (nm ∈ x_disabled s))) = false).
  { case_bool_decide as Hd; cbn [negb]; [by rewrite (proj1 Hchange Hd)|]. destruct on; [by exfalso; apply Hd, (proj2 Hchange)|done]. }
  rewrite Hb in E. set (want := if on then _ else _) in *. set (s1 := saveDisabledSet _) in E. unfold reload in E.
  destruct (runUnloadHandlers s1) as [s2|] eqn:E2; [|done]. injection E as <-.
  destruct (unload_bridged _ _ _ _ E2) as (_ & _ & _ & _ & _ & _ & _ & _ & Hd2 & Hd1 & _).
  set (s3 := rebuildEngine _).
  assert (Hs1 : d_scripts (x_disk s1) = d_scripts (x_disk s) /\ disabled_of (d_disabled (x_disk s1)) = want).
  { unfold s1, saveDisabledSet. cbn [with_store with_scripts x_disk x_disabled]. unfold disk_with_disabled. rewrite Hw. cbn [d_scripts d_disabled]. split; [done|].
    by apply disabled_file_roundtrip. }
  destruct Hs1 as [Hs1 Hs1']. unfold loadAll. set (s4 := loadDisabledSet _).
  destruct (load_loop_lists (d_scripts (x_disk s3)) s4) as (A1 & A2 & A3). set (s5 := fold_left _ _ s4) in *. cbn [with_scripts x_disabled x_all x_loaded].
  assert (Ed : x_disabled s4 = want) by (unfold s4, s3; cbn; by rewrite Hd1).
  assert (Es : d_scripts (x_disk s3) = d_scripts (x_disk s)) by (unfold s3; cbn; by rewrite Hd2).
  rewrite A2, Ed. split; [done|]. rewrite A1, Es. split; [done|]. intros n Hl. destruct (A3 n Hl) as [Hl'|[Hl' Hnd]]; [by apply not_elem_of_nil in Hl'|].
  rewrite Es in Hl'. rewrite Ed in Hnd. by split.
Qed.

(** What an extension stores is there after a restart: with a writable disk, a value that
    JSON can carry is read back by a new host from the file, and every other key keeps
    its value. *)
Theorem storage_survives_restart {JL : QtJsonLaws JT} s key v w d k :
  let s' := store_set key v s in
  d_writable (x_disk s) = true -> key <> [] -> json_plain 512 (JObject (qm_insert key v (x_store (store_ready s)))) = true ->
  snd (store_get k d (emptyApi w (x_disk s'))) = if decide (k = key) then v else snd (store_get k d s).
Proof.
  cbv zeta. intros Hw Hk Hp. unfold store_set. destruct key as [|c key]; [done|]. cbn [is_nil]. set (ky := c :: key) in *.
  assert (Hw' : d_writable (x_disk (store_ready s)) = true) by (unfold store_ready; by destruct (x_storeLoaded s)).
  unfold store_get at 1. cbn [emptyApi x_storeLoaded with_store x_store x_disk snd store_write]. unfold disk_with_storage. rewrite Hw'.
  unfold store_ready at 1. cbn [emptyApi x_storeLoaded store_load with_store x_store x_disk d_storage store_of]. rewrite law_json_text by done. unfold store_get. cbn [snd].
  destruct (decide (k = ky)) as [->|Hne]; [by rewrite qm_get_insert|by rewrite qm_get_insert_ne].
Qed.

(** The declaration that grants: a capability is granted exactly when some directive line
    names it, under its own name or an alias, before the first word that is not
    declaration-shaped. *)
Theorem permission_granted_iff src cap :
  cap ∈ parsePermissions src <->
  cap <> [] /\ exists m pre t post, m ∈ rg_global kDirective (take (Z.to_nat kMaxScan) src) /\
    split_tokens (nth 1 (rm_caps m) []) [] = pre ++ t :: post /\ Forall (fun t => isDeclarationToken t = true) (pre ++ [t]) /\ canonical t = cap.
Proof.
  unfold parsePermissions. rewrite elem_of_list_to_set.
  assert (Hd : forall toks, cap ∈ declared toks <-> cap <> [] /\ exists pre t post, toks = pre ++ t :: post /\ Forall (fun t => isDeclarationToken t = true) (pre ++ [t]) /\ canonical t = cap).
  { induction toks as [|x toks IH]; cbn [declared].
    - split; [by intros ?%not_elem_of_nil|]. intros (_ & pre & t & post & E & _). by destruct pre.
    - destruct (isDeclarationToken x) eqn:Ex; cbn [negb].
      + rewrite elem_of_app, IH. split.
        * intros [H|(Hne & pre & t & post & -> & Hf & Hc)].
          -- destruct (is_nil (canonical x)) eqn:En; [by apply not_elem_of_nil in H|]. apply list_elem_of_singleton in H as ->. split; [by destruct (canonical x)|].
             exists [], x, toks. split_and!; [done|by apply Forall_singleton|done].
          -- split; [done|]. exists (x :: pre), t, post. split_and!; [done|by constructor|done].
        * intros (Hne & [|y pre] & t & post & E & Hf & Hc).
          -- injection E as <- <-. left. rewrite Hc. destruct cap; [done|]. by apply list_elem_of_singleton.
          -- injection E as <- ->. right. split; [done|]. exists pre, t, post. apply Forall_cons in Hf as [_ Hf]. by split_and!.
      + split; [by intros ?%not_elem_of_nil|]. intros (_ & [|y pre] & t & post & E & Hf & _); injection E as <- ->; apply Forall_cons in Hf as [Hf _]; congruence. }
  rewrite list_elem_of_In, in_flat_map. split.
  - intros (m & Hm & Hin). apply list_elem_of_In, Hd in Hin as (Hne & pre & t & post & H). split; [done|]. exists m, pre, t, post. split; [by apply list_elem_of_In|done].
  - intros (Hne & m & pre & t & post & Hm & H). exists m. split; [by apply list_elem_of_In|]. apply list_elem_of_In, Hd. split; [done|]. by exists pre, t, post.
Qed.

Fixpoint exec_all s (tr : list Label) : option (Api J) :=
  match tr with
  | [] => Some s
  | l :: tr' => match exec s l with Some s' => exec_all s' tr' | None => None end
  end.
Lemma host_exec_steps tr : forall s s', exec_all s tr = Some s' -> steps xstep s tr s'.
Proof.
  induction tr as [|l tr IH]; intros s s' H; cbn [exec_all] in H; [injection H as <-; constructor|].
  destruct (exec s l) as [s1|] eqn:E; [|done]. econstructor; [exact E|by apply IH].
Qed.
End Host.

(** ** A concrete engine and witnesses *)

(** Values, some of them references to objects; function 1 looks on, 2 edits its argument
    in place, 3 returns an object with a path only, 4 registers a response handler. *)
Inductive SJs := SUndef | SFn (n : Z) | SStr (q : qstr) | SInt (n : Z) | SPairs (l : list (qstr * qstr)) | SPair (p : qstr * qstr) | SRef (n : nat).
Definition SHeap : Type := list (list (qstr * SJs)).
Definition assoc (k : qstr) (o : list (qstr * SJs)) : SJs := match List.find (fun e => seq_eqb (fst e) k) o with Some e => snd e | None => SUndef end.
Definition ev_js (v : EV) : SJs := match v with EStr q => SStr q | EInt n => SInt n | EPairs l => SPairs l end.
Definition sample_call (h : SHeap) (f : SJs) (args : list SJs) : Run SHeap SJs :=
  match f, args with
  | SFn n, SRef a :: _ =>
      if n =? 2 then Done (alter (fun o => (lit "bodyText", SStr (lit "injected")) :: o) a h) SUndef
      else if n =? 3 then Done (h ++ [[(lit "path", SStr (lit "/x"))]]) (SRef (length h))
      else if n =? 4 then Ask (QOnResponse (SFn 1)) (fun _ => Done h SUndef)
      else Done h SUndef
  | SFn n, [] => if n =? 4 then Ask (QOnUnload (SFn 1)) (fun _ => Done h SUndef) else Done h SUndef
  | _, _ => Done h SUndef
  end.
(** A script ends with the kind of handler it registers and the function's number. *)
Definition sample_eval (h : SHeap) (source name : qstr) : Run SHeap SJs :=
  match rev source with
  | d :: c :: _ =>
      let f := SFn (d - 48) in
      if c =? 113 then Ask (QOnRequest f) (fun _ => Done h SUndef)
      else if c =? 114 then Ask (QOnResponse f) (fun _ => Done h SUndef)
      else Ask (QOnUnload f) (fun _ => Done h SUndef)
  | _ => Done h SUndef
  end.
Definition sampleJs : QtJs := {|
  Js := SJs; Heap := SHeap; js_fresh := [];
  js_callable v := match v with SFn _ => true | _ => false end;
  js_isError _ := false;
  js_isObject v := match v with SRef _ => true | _ => false end;
  js_isArray v := match v with SPairs _ | SPair _ => true | _ => false end;
  js_property h v k :=
    match v with
    | SRef n => assoc k (nth n h [])
    | SPairs l => if seq_eqb k (lit "length") then SInt (zlen l) else SUndef
    | SPair _ => if seq_eqb k (lit "length") then SInt 2 else SUndef
    | _ => SUndef
    end;
  js_index h v i :=
    match v with
    | SPairs l => match nth_error l (Z.to_nat i) with Some p => SPair p | None => SUndef end
    | SPair (a, b) => if i =? 0 then SStr a else SStr b
    | _ => SUndef
    end;
  js_toString h v := match v with SStr q => q | SInt n => number 10 n | SUndef => lit "undefined" | _ => lit "[object Object]" end;
  js_toInt h v := match v with SInt n => n | _ => 0 end;
  js_object e h := (h ++ [map (fun p => (fst p, ev_js (snd p))) e], SRef (length h));
  js_eval := sample_eval; js_call := sample_call
|}.

(** A directive on the first line, in its usual spelling. *)
Definition directive_start : qstr := lit "// nullock:permissions ".
Definition sampleDirective : QtGlobal := {|
  rg_valid _ := true;
  rg_global p s :=
    if seq_eqb p kDirective && starts_with directive_start s then
      let line := match index_of 10 s with Some i => take i s | None => s end in [mkRx 0 (length line) [line; drop (length directive_start) line]]
    else [];
  u_digit c := if is_digit c then Some (c - 48) else None
|}.
Definition asciiLetter : QtLetter := {| u_letter := is_letter |}.

Section Examples.
#[local] Existing Instances utf8Text asciiChar asciiLetter sampleDirective treeJson sampleJs.

Definition ex_wiring : Wiring := mkWiring false false false None [] None.
Definition ex_grant (caps code : String.string) : bytes := directive_start ++ lit caps ++ [10] ++ lit code.
Definition ex_disk (scripts : list (qstr * option bytes)) : Disk := mkDisk scripts None None true.
Definition ex_observer : Disk := ex_disk [(lit "a.js", Some (ex_grant "observe -- not modify-responses" "r2")); (lit "b.js", Some (lit "q2"))].
Definition ex_host (d : Disk) (tr : list Label) : Api sampleJs := default (emptyApi ex_wiring d) (exec_all (construct ex_wiring d) tr).
Definition ex_req (body : bytes) : HttpRequest := mkRequest (lit "POST") (lit "/") (lit "HTTP/1.1") (lit "a.com") 80 false (lit "/") [(lit "Host", lit "a.com")] body.
Definition ex_resp : HttpResponse := mkResponse (lit "HTTP/1.1") 200 (lit "OK") [(lit "Server", lit "s")] (lit "hi") [] false.
Definition ex_tr : list Label := [LResponse false (ex_req []) ex_resp; LReload; LReceived false (ex_req []) ex_resp].

Lemma ex_host_reached d tr : (if exec_all (construct ex_wiring d) tr then true else false) = true -> steps xstep (construct ex_wiring d) tr (ex_host d tr).
Proof. intros Hs. apply host_exec_steps. unfold ex_host. by destruct (exec_all _ tr). Qed.

(** One handler edits its argument without a grant, one asks for requests without one. *)
Lemma mutation_needs_grant_witness :
  let s := ex_host ex_observer ex_tr in
  length (x_onResponse s) = 1%nat /\ x_log s <> [] /\ x_grants s = ∅ /\
  forall s' r, doMutateResponse false (ex_req []) ex_resp s = Some (s', r) -> r = ex_resp.
Proof.
  cbv zeta. split; [vm_compute; reflexivity|]. split; [vm_compute; discriminate|].
  assert (H : steps xstep (construct ex_wiring ex_observer) ex_tr (ex_host ex_observer ex_tr)) by (apply ex_host_reached; vm_compute; reflexivity).
  destruct (mutation_needs_grant _ _ _ _ H) as (Hg & _ & _ & _ & Hr). split; [exact Hg|].
  assert (Hn : ~ declares kModifyResponses (ex_host ex_observer ex_tr)).
  { intros (name & content & Hin & _ & Hc).
    assert (E : x_loadedDir (ex_host ex_observer ex_tr) = d_scripts ex_observer) by (vm_compute; reflexivity). rewrite E in Hin. clear E.
    cbn [ex_observer ex_disk d_scripts] in Hin. apply elem_of_cons in Hin as [[= -> ->]|Hin].
    - revert Hc. refine (bool_decide_eq_false_1 _ _). vm_compute. reflexivity.
    - apply list_elem_of_singleton in Hin as [= -> ->]. revert Hc. refine (bool_decide_eq_false_1 _ _). vm_compute. reflexivity. }
  intros s' r. apply (Hr Hn false (ex_req []) ex_resp s' r).
Defined.

Lemma enablement_persists_witness :
  let s := construct ex_wiring ex_observer in
  exists s', setExtensionEnabled (lit "a.js") false s = Some s' /\ x_disabled s' = {[lit "a.js"]} /\ lit "a.js" ∉ x_loaded s'.
Proof.
  cbv zeta. set (s := construct ex_wiring ex_observer).
  assert (Hs : (if setExtensionEnabled (lit "a.js") false s then true else false) = true) by (vm_compute; reflexivity).
  destruct (setExtensionEnabled (lit "a.js") false s) as [s'|] eqn:E; [clear Hs|discriminate].
  exists s'. split; [reflexivity|].
  assert (Hd : x_disabled s = ∅) by (vm_compute; reflexivity).
  destruct (enablement_persists (JL := treeJson_laws) s (lit "a.js") false s' E) as (H1 & _ & H3); [reflexivity|discriminate|rewrite Hd; split; [intros Hi; by apply not_elem_of_empty in Hi|discriminate]|..].
  - intros n Hn. rewrite Hd in Hn. rewrite union_empty_r_L in Hn. apply elem_of_singleton in Hn as ->. split; [reflexivity|discriminate].
  - rewrite Hd, union_empty_r_L in H1. split; [exact H1|]. intros Hi. apply (H3 _ Hi). rewrite Hd. set_solver.
Defined.

Lemma storage_survives_restart_witness :
  snd (store_get (lit "k") JNull (emptyApi ex_wiring (x_disk (store_set (lit "k") (JInt 5) (construct ex_wiring ex_observer))))) = JInt 5.
Proof.
  rewrite (storage_survives_restart (JL := treeJson_laws) (construct ex_wiring ex_observer) (lit "k") (JInt 5) ex_wiring JNull (lit "k"));
    [vm_compute; reflexivity|vm_compute; reflexivity|discriminate|vm_compute; reflexivity].
Defined.

(** The sentence that disclaims a capability does not grant it; an alias in a list does. *)
Example prose_grants_nothing : bool_decide (kModifyResponses ∈ parsePermissions (ex_grant "observe -- do NOT grant modify-responses" "")) = false.
Proof. vm_compute. reflexivity. Qed.
Example alias_grants : bool_decide (kModifyRequests ∈ parsePermissions (ex_grant "observe, onRequest" "")) = true.
Proof. vm_compute. reflexivity. Qed.

(** A granted request handler that only looks on: a body that is not UTF-8 comes back as
    replacement characters.  The response side compares the text first. *)
Definition ex_granted (code : String.string) : Disk := ex_disk [(lit "a.js", Some (ex_grant "modify-requests modify-responses" code))].
Example request_body_corrupted :
  rq_body (snd (doMutateRequest (ex_req [255; 0; 137]) (construct ex_wiring (ex_granted "q1")))) = [239; 191; 189; 0; 239; 191; 189].
Proof. vm_compute. reflexivity. Qed.
Example response_body_kept :
  (fun r => rs_body (snd r)) <$> doMutateResponse false (ex_req []) (mkResponse [] 200 [] [] [255; 0; 137] [] false) (construct ex_wiring (ex_granted "r1"))
  = Some [255; 0; 137].
Proof. vm_compute. reflexivity. Qed.

(** A handler that returns an object with the one property it changes: the others read as
    undefined, so the headers go and the body becomes that word. *)
Example partial_result_drops_request :
  let r := snd (doMutateRequest (ex_req (lit "a=1")) (construct ex_wiring (ex_granted "q3"))) in
  rq_path r = lit "/x" /\ rq_headers r = [] /\ rq_body r = lit "undefined".
Proof. vm_compute. by split_and!. Qed.

(** A handler that registers another one changes the list being walked. *)
Definition undefined {A} (o : option A) : bool := match o with None => true | Some _ => false end.
Example registration_during_dispatch :
  undefined (onResponseReceived false (ex_req []) ex_resp (construct ex_wiring (ex_granted "r4"))) = true.
Proof. vm_compute. reflexivity. Qed.
Example registration_during_unload : undefined (reload (construct ex_wiring (ex_granted "u4"))) = true.
Proof. vm_compute. reflexivity. Qed.
End Examples.
