(* ===== verification/Marketplace.v ===== *)
(** * Updates and the extension marketplace: Src/Core/Networking

    update_check_logic.cpp (version precedence, trusted links) with the check of
    update_check.cpp, and marketplace_logic.cpp (catalog, trust, integrity, audit, merge)
    with the downloads, installs and removals of marketplace.cpp.  The HTTP client is
    an argument, SHA-256, [QUrl] and the version pattern are parameters. *)

From S2P Require Import Prelude Qt QtSample QMap Json JsonSample HttpFraming Placeholders ChainRunner SessionRules Utf8 CertLogic Transcode Redirect HttpClient IntruderRules Extensions.

Local Open Scope Z_scope.

(** [QUrl] in strict mode, its user information, the first group of the version
    pattern's first match, and the error text of a JSON text that does not parse. *)
Class QtMarket (K : QtQUrl) := {
  qu_strict : qstr -> Url;
  qu_userInfo : Url -> qstr;
  rx_version : qstr -> option qstr;
  json_errorString : bytes -> qstr
}.

(** ** Version precedence *)

Section Semver.
Context {Q : QtText}.

(** The numbers and the pre-release part. *)
Record SemverParts := mkSemver { sv_nums : list Z; sv_pre : qstr }.

Definition parseSemver (input : qstr) : SemverParts :=
  let s := u_trimmed input in
  let s := if starts_with_chr 118 s || starts_with_chr 86 s then drop 1 s else s in
  let s := before_chr 43 s in
  let '(core, pre) := match index_of 45 s with Some dash => (take dash s, drop (dash + 1) s) | None => (s, []) end in
  let nums := map (fun p => default 0 (u_toint 10 p)) (split_skip 46 core) in
  mkSemver (nums ++ replicate (3 - length nums) 0) pre.

Definition allDigits (s : qstr) : bool := negb (is_nil s) && forallb is_digit s.

(** [x.compare(y)]: by code units. *)
Definition str_compare (x y : qstr) : Z := if str_ltb x y then -1 else if str_ltb y x then 1 else 0.

(** All but the last of the leading zeros are skipped. *)
Fixpoint skip_zeros (x : qstr) : qstr :=
  match x with
  | c :: (_ :: _) as rest => if c =? 48 then skip_zeros rest else x
  | _ => x
  end.
Definition cmpNumeric (x y : qstr) : Z :=
  let xs := skip_zeros x in
  let ys := skip_zeros y in
  if negb (length xs =? length ys)%nat then (if (length xs <? length ys)%nat then -1 else 1) else str_compare xs ys.

(** The identifiers in turn up to the shorter list, then the lengths. *)
Fixpoint compare_ids (ai bi : list qstr) : Z :=
  match ai, bi with
  | x :: ai', y :: bi' =>
      let xn := allDigits x in
      let yn := allDigits y in
      if xn && yn then (let c := cmpNumeric x y in if negb (c =? 0) then c else compare_ids ai' bi')
      else if negb (Bool.eqb xn yn) then (if xn then -1 else 1)
      else let c := str_compare x y in if negb (c =? 0) then c else compare_ids ai' bi'
  | [], [] => 0
  | [], _ => -1
  | _, [] => 1
  end.
Definition comparePre (a b : qstr) : Z :=
  if is_nil a && is_nil b then 0
  else if is_nil a then 1
  else if is_nil b then -1
  else compare_ids (split_skip 46 a) (split_skip 46 b).

Fixpoint compare_nums (n : nat) (a b : list Z) : Z :=
  match n with
  | O => 0
  | S n' => let x := hd 0 a in let y := hd 0 b in if negb (x =? y) then (if x <? y then -1 else 1) else compare_nums n' (tl a) (tl b)
  end.
Definition compareSemver (a b : qstr) : Z :=
  let pa := parseSemver a in
  let pb := parseSemver b in
  let c := compare_nums 3 (sv_nums pa) (sv_nums pb) in
  if negb (c =? 0) then c else comparePre (sv_pre pa) (sv_pre pb).

Definition noUpdateRequested (envValue : qstr) : bool :=
  let v := u_lower (u_trimmed envValue) in
  if is_nil v then false else negb (seq_eqb v (lit "0") || seq_eqb v (lit "false") || seq_eqb v (lit "no") || seq_eqb v (lit "off")).

Context {K : QtQUrl}.

Definition isTrustedReleaseUrl (url : qstr) : bool :=
  let u := qu_parse (u_trimmed url) in
  if negb (qu_isValid u) then false
  else if negb (u_cieq (qu_scheme u) (lit "https")) then false
  else let host := u_lower (qu_host u) in seq_eqb host (lit "github.com") || ends_with (lit ".github.com") host.

(** ** The update check *)

Context {JT : QtJson}.

Record UpdateInfo := mkUpdate {
  ui_currentVersion : qstr; ui_latestVersion : qstr; ui_releaseUrl : qstr; ui_releaseNotes : qstr; ui_publishedAt : qstr; ui_available : bool; ui_error : qstr
}.
Definition Net : Type := qstr -> Z -> bool -> bytes -> Sending.

Definition update_request : bytes :=
  lit "GET /repos/Bikebrainz/Nullock/releases/latest HTTP/1.1" ++ CRLF ++ lit "Host: api.github.com" ++ CRLF ++ lit "User-Agent: nullock-update-check/1.0" ++ CRLF
  ++ lit "Accept: application/vnd.github+json" ++ CRLF ++ lit "Connection: close" ++ CRLF ++ CRLF.
Definition doCheck (net : Net) (currentVersion : qstr) : UpdateInfo :=
  let failed e := mkUpdate currentVersion [] [] [] [] false e in
  let res := net (lit "api.github.com") 443 true update_request in
  if negb (hs_ok res) then failed (lit "fetch failed: " ++ hs_error res)
  else if negb (rs_statusCode (hs_parsed res) =? 200) then failed (arg (lit "HTTP %1 from github") (number 10 (rs_statusCode (hs_parsed res))))
  else
    match json_parse (rs_body (hs_parsed res)) with
    | Some (JObject o) =>
        let latest := toString (value o (lit "tag_name")) in
        let url := toString (value o (lit "html_url")) in
        let r available error :=
          mkUpdate currentVersion latest (if isTrustedReleaseUrl url then url else []) (take (Z.to_nat (8 * 1024)) (toString (value o (lit "body"))))
            (toString (value o (lit "published_at"))) available error in
        if is_nil latest then r false (lit "no tag_name in release") else r (compareSemver currentVersion latest <? 0) []
    | _ => failed (lit "github response not JSON")
    end.

(** ** The precedence of the semantic versioning specification *)

(** An identifier of the pre-release part. *)
Inductive Ident := Num (n : Z) | Alpha (s : qstr).
Fixpoint lex_compare {A} (cmp : A -> A -> comparison) (l k : list A) : comparison :=
  match l, k with
  | [], [] => Eq
  | [], _ :: _ => Lt
  | _ :: _, [] => Gt
  | x :: l', y :: k' => match cmp x y with Eq => lex_compare cmp l' k' | c => c end
  end.
(** Numbers by value and below the others, which go by code units. *)
Definition ident_compare (x y : Ident) : comparison :=
  match x, y with
  | Num a, Num b => a ?= b
  | Num _, Alpha _ => Lt
  | Alpha _, Num _ => Gt
  | Alpha a, Alpha b => lex_compare Z.compare a b
  end.
(** A release ranks above its pre-releases. *)
Definition pre_compare (a b : option (list Ident)) : comparison :=
  match a, b with
  | None, None => Eq
  | None, Some _ => Gt
  | Some _, None => Lt
  | Some l, Some k => lex_compare ident_compare l k
  end.
(** The second when the first does not decide. *)
Definition then_by (c d : comparison) : comparison := match c with Eq => d | _ => c end.
Definition Version : Type := list Z * option (list Ident).
Definition precedence (v w : Version) : comparison := then_by (lex_compare Z.compare (fst v) (fst w)) (pre_compare (snd v) (snd w)).

(** The grammar of the specification: [names text v] when the text, behind an optional v,
    is three numbers that fit an [int], the pre-release identifiers behind a hyphen if
    there are any, and build metadata behind a plus sign that plays no part. *)
Definition ident_char (c : Z) : bool := is_digit c || ((65 <=? c) && (c <=? 90)) || ((97 <=? c) && (c <=? 122)) || (c =? 45).
Inductive ident_text : qstr -> Ident -> Prop :=
| numeric_ident t : t <> [] -> Forall (fun c => is_digit c = true) t -> ident_text t (Num (digits_val 10 t))
| other_ident t : Forall (fun c => ident_char c = true) t -> (exists c, c ∈ t /\ is_digit c = false) -> ident_text t (Alpha t).
Inductive pre_text : qstr -> option (list Ident) -> Prop :=
| no_pre : pre_text [] None
| some_pre ts is_ : ts <> [] -> Forall2 ident_text ts is_ -> pre_text (lit "-" ++ join (lit ".") ts) (Some is_).
Inductive names : qstr -> Version -> Prop :=
| names_version v x y z pre is_ build :
    v = [] \/ v = lit "v" \/ v = lit "V" -> 0 <= x <= INT_MAX -> 0 <= y <= INT_MAX -> 0 <= z <= INT_MAX -> pre_text pre is_ ->
    build = [] \/ (exists b, build = lit "+" ++ b /\ Forall (fun c => ident_char c = true \/ c = 46) b) ->
    names (v ++ join (lit ".") [number 10 x; number 10 y; number 10 z] ++ pre ++ build) ([x; y; z], is_).

Definition ident_of (s : qstr) : Ident := if allDigits s then Num (digits_val 10 s) else Alpha s.
(** The version the program reads in a text, whatever it is. *)
Definition version_of (text : qstr) : Version :=
  let p := parseSemver text in (take 3 (sv_nums p), if is_nil (sv_pre p) then None else Some (map ident_of (split_skip 46 (sv_pre p)))).
Definition sign (c : comparison) : Z := match c with Lt => -1 | Eq => 0 | Gt => 1 end.
End Semver.

(** ** The catalog *)

Record CatalogEntry := mkEntry {
  ce_id : qstr; ce_name : qstr; ce_summary : qstr; ce_version : qstr; ce_author : qstr; ce_categories : list qstr; ce_url : qstr; ce_sha256 : qstr;
  ce_hooks : list qstr; ce_declaredPermissions : list qstr; ce_minVersion : qstr
}.
Record Catalog := mkCatalog { cg_version : Z; cg_updated : qstr; cg_entries : list CatalogEntry; cg_error : qstr }.

Definition kMaxCatalogBytes : Z := 1 * 1024 * 1024.
Definition kMaxScriptBytes : Z := 2 * 1024 * 1024.
Definition kMaxEntries : Z := 500.

Section Market.
Context {Q : QtText} {CH : QtChar} {LT : QtLetter} {G : QtGlobal} {JT : QtJson} {C : QtCodecs} {K : QtQUrl} {M : QtMarket K}.

Definition str (o : list (qstr * json)) (key : String.string) (maxLen : Z) : qstr := take (Z.to_nat maxLen) (toString (value o (lit key))).
Fixpoint strings (vs : list json) (maxItems : Z) (out : list qstr) : list qstr :=
  match vs with
  | [] => out
  | JString s :: vs' => let out := out ++ [take 64 s] in if maxItems <=? zlen out then out else strings vs' maxItems out
  | _ :: vs' => strings vs' maxItems out
  end.
Definition strList (o : list (qstr * json)) (key : String.string) (maxItems : Z) : list qstr := strings (toArray (value o (lit key))) maxItems [].

Definition reserved : list qstr := map lit [
  "con"; "prn"; "aux"; "nul"; "com1"; "com2"; "com3"; "com4"; "com5"; "com6"; "com7"; "com8"; "com9";
  "lpt1"; "lpt2"; "lpt3"; "lpt4"; "lpt5"; "lpt6"; "lpt7"; "lpt8"; "lpt9"]%string.
Definition isReservedDeviceName (stem : qstr) : bool := bool_decide (u_lower stem ∈ reserved).

Definition file_char (c : Z) : bool := is_letter c || is_digit c || (c =? 95) || (c =? 45) || (c =? 46).
Definition safeScriptFileName (id : qstr) : qstr :=
  let s := u_trimmed id in
  if is_nil s || (64 <? zlen s) then []
  else if negb (forallb file_char s) then []
  else if seq_eqb s (lit ".") || seq_eqb s (lit "..") then []
  else if starts_with_chr 46 s then []
  else if ends_with_chr 46 s then []
  else if isReservedDeviceName (before_chr 46 s) then []
  else s ++ lit ".js".

Definition trustedHosts : list qstr := [lit "raw.githubusercontent.com"; lit "bikebrainz.github.io"].
Definition isTrustedAssetUrl (url : qstr) : bool :=
  let u := qu_strict (u_trimmed url) in
  if negb (qu_isValid u) then false
  else if negb (u_cieq (qu_scheme u) (lit "https")) then false
  else if negb (is_nil (qu_userInfo u)) then false
  else if negb (qu_port_or 443 u =? 443) then false
  else
    let host := u_lower (qu_host u) in
    if is_nil host then false else existsb (fun t => seq_eqb host t || ends_with (46 :: t) host) trustedHosts.
Definition splitTrustedUrl (url : qstr) : option (qstr * qstr) :=
  if negb (isTrustedAssetUrl url) then None
  else
    let u := qu_strict (u_trimmed url) in
    let target := if is_nil (qu_path u) then lit "/" else qu_path u in
    let q := qu_query u in
    Some (u_lower (qu_host u), if is_nil q then target else target ++ [63] ++ q).

Definition sha256Hex (data : bytes) : qstr := to_hex (b_hash Sha256 data).
Definition hex_any (c : Z) : bool := is_digit c || ((97 <=? c) && (c <=? 102)) || ((65 <=? c) && (c <=? 70)).
Definition isWellFormedSha256 (s : qstr) : bool := (zlen s =? 64) && forallb hex_any s.
Definition verifyIntegrity (data : bytes) (expected : qstr) : bool :=
  if negb (isWellFormedSha256 expected) then false else u_cieq (sha256Hex data) expected.

Definition entry_of (o : list (qstr * json)) : CatalogEntry :=
  mkEntry (str o "id" 64) (str o "name" 128) (str o "summary" 2048) (str o "version" 32) (str o "author" 128) (strList o "categories" 32)
    (str o "url" 2048) (u_lower (u_trimmed (str o "sha256" 64))) (strList o "hooks" 32) (strList o "permissions" 8) (u_trimmed (str o "minVersion" 32)).
Fixpoint entries (arr : list json) (seen : gset qstr) (out : list CatalogEntry) : list CatalogEntry :=
  match arr with
  | [] => out
  | v :: arr' =>
      if kMaxEntries <=? zlen out then out
      else
        match v with
        | JObject o =>
            let e := entry_of o in
            if is_nil (safeScriptFileName (ce_id e)) then entries arr' seen out
            else if negb (isTrustedAssetUrl (ce_url e)) then entries arr' seen out
            else if negb (isWellFormedSha256 (ce_sha256 e)) then entries arr' seen out
            else if bool_decide (ce_id e ∈ seen) then entries arr' seen out
            else entries arr' ({[ce_id e]} ∪ seen) (out ++ [e])
        | _ => entries arr' seen out
        end
  end.
Definition parseCatalog (text : bytes) : Catalog :=
  if is_nil text then mkCatalog 0 [] [] (lit "catalog is empty")
  else if kMaxCatalogBytes <? zlen text then mkCatalog 0 [] [] (arg (lit "catalog is larger than %1 bytes") (number 10 kMaxCatalogBytes))
  else
    match json_parse text with
    | Some (JObject root) =>
        let version := toInt 0 (value root (lit "version")) in
        let updated := str root "updated" 32 in
        let arr := toArray (value root (lit "extensions")) in
        if is_nil arr then mkCatalog version updated [] (lit "catalog lists no extensions")
        else
          let es := entries arr ∅ [] in
          mkCatalog version updated es
            (if is_nil es then arg (lit "catalog had %1 entries but none were usable (each needs a safe id, an https allow-listed url, and a sha256)") (number 10 (zlen arr)) else [])
    | _ => mkCatalog 0 [] [] (arg (lit "catalog is not valid JSON: %1") (json_errorString text))
    end.

(** ** The audit of a script *)

Record InstallAudit := mkAudit {
  au_ok : bool; au_blocker : qstr; au_effective : list qstr; au_undeclared : list qstr; au_mutates : bool; au_warnings : list qstr
}.
Definition blocked (why : qstr) : InstallAudit := mkAudit false why [] [] false [].

Fixpoint insert_name (n : qstr) (l : list qstr) : list qstr :=
  match l with [] => [n] | x :: l' => if str_ltb x n then x :: insert_name n l' else n :: l end.
(** [sort] of the permissions. *)
Definition sorted_names (s : gset qstr) : list qstr := fold_right insert_name [] (elements s).
Definition mutating (p : qstr) : bool := u_cieq p (lit "modify-requests") || u_cieq p (lit "modify-responses").

Definition auditInstall (entry : CatalogEntry) (script : bytes) (effectiveFromScript : gset qstr) : InstallAudit :=
  if is_nil (safeScriptFileName (ce_id entry)) then blocked (arg (lit "extension id %1 is not a safe filename") (ce_id entry))
  else if is_nil script then blocked (lit "downloaded script is empty")
  else if kMaxScriptBytes <? zlen script then
    blocked (arg (arg (lit "downloaded script is %1 bytes, over the %2 limit") (number 10 (zlen script))) (number 10 kMaxScriptBytes))
  else
    let effective := sorted_names effectiveFromScript in
    let declared := map (fun d => u_lower (u_trimmed d)) (ce_declaredPermissions entry) in
    let undeclared := List.filter (fun p => negb (bool_decide (u_lower p ∈ declared))) effective in
    let mutates := existsb mutating effective in
    mkAudit true [] effective undeclared mutates
      ((if is_nil undeclared then []
        else [arg (lit "the script asks for %1, which the catalog entry did not list -- the script's own directive is what takes effect") (join (lit ", ") undeclared)])
       ++ (if mutates then [lit "this extension can REWRITE traffic in flight, not just observe it"] else [])
       ++ (if is_nil (u_trimmed (ce_summary entry)) then [lit "catalog entry has no description"] else [])).

(** ** Installed and offered *)

Inductive InstallState := NotInstalled | Installed | UpdateAvailable | Local.
Record MergedEntry := mkMerged { me_entry : CatalogEntry; me_state : InstallState; me_installedVersion : qstr; me_compatible : bool; me_incompatReason : qstr }.

Definition parseInstalledVersion (jsSource : qstr) : qstr := default [] (rx_version (take (Z.to_nat (64 * 1024)) jsSource)).
Definition isVersionCompatible (minVersion currentVersion : qstr) : bool :=
  if is_nil (u_trimmed minVersion) || is_nil (u_trimmed currentVersion) then true else 0 <=? compareSemver currentVersion minVersion.

Definition is_script (f : qstr) : bool := (3 <=? length f)%nat && u_cieq (drop (length f - 3) f) (lit ".js").
Definition stem (f : qstr) : qstr := take (length f - 3) f.
Definition installed_ids (files : list qstr) : gset qstr := list_to_set (map stem (List.filter is_script files)).

Definition merge_entry (ids : gset qstr) (versionOf : list (qstr * qstr)) (currentVersion : qstr) (e : CatalogEntry) : MergedEntry :=
  let ok := isVersionCompatible (ce_minVersion e) currentVersion in
  let reason := if ok then [] else lit "requires Nullock >= " ++ ce_minVersion e in
  if bool_decide (ce_id e ∈ ids) then
    let v := default [] (qm_get (ce_id e) versionOf) in
    mkMerged e (if negb (is_nil v) && negb (is_nil (ce_version e)) && (compareSemver v (ce_version e) <? 0) then UpdateAvailable else Installed) v ok reason
  else mkMerged e NotInstalled [] ok reason.
Definition local_entry (versionOf : list (qstr * qstr)) (id : qstr) : MergedEntry :=
  let v := default [] (qm_get id versionOf) in
  mkMerged (mkEntry id id (lit "Installed locally; not in the catalog.") v [] [] [] [] [] [] []) Local v true [].
(** The set of installed ids is walked in the order of [elements]. *)
Definition merge (catalog : Catalog) (installedFiles : list qstr) (installedVersions : list (qstr * qstr)) (currentVersion : qstr) : list MergedEntry :=
  let versionOf := fold_left (fun m kv => qm_insert (fst kv) (snd kv) m) installedVersions [] in
  let ids := installed_ids installedFiles in
  let covered : gset qstr := list_to_set (map ce_id (List.filter (fun e => bool_decide (ce_id e ∈ ids)) (cg_entries catalog))) in
  map (merge_entry ids versionOf currentVersion) (cg_entries catalog)
  ++ map (local_entry versionOf) (List.filter (fun id => negb (bool_decide (id ∈ covered))) (elements ids)).

(** ** Downloads *)

Record Fetched := mkFetched { fe_ok : bool; fe_body : bytes; fe_error : qstr; fe_status : Z }.
Definition fetch_request (host target : qstr) : bytes :=
  lit "GET " ++ u_toutf8 target ++ lit " HTTP/1.1" ++ CRLF ++ lit "Host: " ++ u_toutf8 host ++ CRLF ++ lit "User-Agent: nullock-marketplace/1.0" ++ CRLF
  ++ lit "Accept: */*" ++ CRLF ++ lit "Accept-Encoding: identity" ++ CRLF ++ lit "Connection: close" ++ CRLF ++ CRLF.
Definition fetchTrusted (net : Net) (url : qstr) (maxBytes : Z) : Fetched :=
  match splitTrustedUrl url with
  | None => mkFetched false [] (lit "refusing to fetch " ++ url ++ lit " -- marketplace downloads are limited to https on " ++ join (lit ", ") trustedHosts) 0
  | Some (host, target) =>
      let res := net host 443 true (fetch_request host target) in
      if negb (hs_ok res) then mkFetched false [] (arg (lit "fetch failed: %1") (hs_error res)) 0
      else
        let status := rs_statusCode (hs_parsed res) in
        if negb (status =? 200) then mkFetched false [] (arg (arg (lit "HTTP %1 from %2") (number 10 status)) host) status
        else
          let body := bodyForInspection (hs_parsed res) in
          if maxBytes <? zlen body then
            mkFetched false [] (arg (arg (lit "response is %1 bytes, over the %2 limit") (number 10 (zlen body))) (number 10 maxBytes)) status
          else mkFetched true body [] status
  end.

Definition defaultCatalogUrl : qstr := lit "https://bikebrainz.github.io/Nullock/marketplace/marketplace.json".
Record FetchResult := mkFetchResult { fr_ok : bool; fr_error : qstr; fr_status : Z; fr_catalog : Catalog }.
Definition emptyCatalog : Catalog := mkCatalog 0 [] [] [].
Definition fetchCatalog (net : Net) (catalogUrl : qstr) : FetchResult :=
  let f := fetchTrusted net (if is_nil catalogUrl then defaultCatalogUrl else catalogUrl) kMaxCatalogBytes in
  if negb (fe_ok f) then mkFetchResult false (fe_error f) (fe_status f) emptyCatalog
  else
    let c := parseCatalog (fe_body f) in
    if is_nil (cg_error c) then mkFetchResult true [] (fe_status f) c else mkFetchResult false (cg_error c) (fe_status f) c.

(** The extensions directory: its path and the absolute path of a name in it, its visible
    regular files by name, and what the file system lets happen: making the directory,
    opening and committing a file, whether a name resolves inside it and to which path,
    removing. *)
Record Folder := mkFolder {
  fo_path : qstr; fo_absolute : qstr -> qstr; fo_files : list (qstr * bytes); fo_mkpath : bool; fo_open : bool; fo_commit : bool; fo_inside : qstr -> bool;
  fo_canonical : qstr -> qstr; fo_remove : bool
}.
Definition with_files (files : list (qstr * bytes)) (d : Folder) : Folder :=
  mkFolder (fo_path d) (fo_absolute d) files (fo_mkpath d) (fo_open d) (fo_commit d) (fo_inside d) (fo_canonical d) (fo_remove d).

Record InstallResult := mkInstall {
  in_ok : bool; in_error : qstr; in_status : Z; in_sha256 : qstr; in_bytes : Z; in_warnings : list qstr; in_effective : list qstr; in_mutates : bool; in_path : qstr
}.
Definition install (net : Net) (entry : CatalogEntry) (confirmed : bool) (d : Folder) : Folder * InstallResult :=
  let fail0 e := (d, mkInstall false e 0 [] 0 [] [] false []) in
  let fileName := safeScriptFileName (ce_id entry) in
  if is_nil fileName then fail0 (arg (lit "extension id %1 is not a safe filename") (ce_id entry))
  else if negb (isWellFormedSha256 (ce_sha256 entry)) then
    fail0 (arg (lit "catalog entry for %1 has no usable sha256; refusing to install unverifiable code") (ce_id entry))
  else
    let f := fetchTrusted net (ce_url entry) kMaxScriptBytes in
    if negb (fe_ok f) then (d, mkInstall false (fe_error f) (fe_status f) [] 0 [] [] false [])
    else if negb (verifyIntegrity (fe_body f) (ce_sha256 entry)) then
      (d, mkInstall false (lit "integrity check FAILED for " ++ ce_id entry ++ lit ": catalog says sha256 " ++ ce_sha256 entry ++ lit ", downloaded bytes hash to "
                           ++ sha256Hex (fe_body f) ++ lit ". Not installing.") (fe_status f) [] 0 [] [] false [])
    else
      let audit := auditInstall entry (fe_body f) (parsePermissions (u_fromutf8 (fe_body f))) in
      let r ok e file := mkInstall ok e (fe_status f) (sha256Hex (fe_body f)) (zlen (fe_body f)) (au_warnings audit) (au_effective audit) (au_mutates audit) file in
      if negb (au_ok audit) then (d, r false (au_blocker audit) [])
      else if au_mutates audit && negb confirmed then
        (d, r false (arg (lit "confirmation required: this extension requests %1 and can rewrite traffic in flight") (join (lit ", ") (au_effective audit))) [])
      else if negb (fo_mkpath d) then (d, r false (arg (lit "could not create %1") (fo_path d)) [])
      else if negb (fo_open d) then (d, r false (arg (lit "could not open %1 for writing") (fo_absolute d fileName)) [])
      else if negb (fo_commit d) then (d, r false (arg (lit "could not write %1") (fo_absolute d fileName)) [])
      else (with_files (qm_insert fileName (fe_body f) (fo_files d)) d, r true [] (fo_absolute d fileName)).

Definition uninstall (id : qstr) (d : Folder) : Folder * (bool * qstr) :=
  let fileName := safeScriptFileName id in
  if is_nil fileName then (d, (false, arg (lit "%1 is not a safe extension id") id))
  else if negb (qm_has fileName (fo_files d)) then (d, (false, arg (lit "%1 is not installed") id))
  else if negb (fo_inside d fileName) then (d, (false, arg (lit "%1 does not resolve inside the extensions directory") id))
  else if negb (fo_remove d) then (d, (false, arg (lit "could not remove %1") fileName))
  else (with_files (qm_remove fileName (fo_files d)) d, (true, [])).

Definition installedFiles (d : Folder) : list qstr := List.filter is_script (map fst (fo_files d)).
Definition installedVersions (d : Folder) : list (qstr * qstr) :=
  flat_map (fun f => let v := parseInstalledVersion (u_fromutf8 (take (Z.to_nat (64 * 1024)) (snd f))) in if is_nil v then [] else [(stem (fst f), v)])
    (List.filter (fun f => is_script (fst f)) (fo_files d)).

(** ** Lemmas: precedence *)

(** A comparison that is a total order up to its [Eq]. *)
Record is_order {A} (cmp : A -> A -> comparison) : Prop := {
  order_flip x y : cmp y x = CompOpp (cmp x y);
  order_le x y z : cmp x y <> Gt -> cmp y z <> Gt -> cmp x z = match cmp x y with Eq => cmp y z | c => c end
}.

Lemma order_Z : is_order Z.compare.
Proof.
  split; [intros; apply Z.compare_antisym|]. intros x y z.
  destruct (Z.compare_spec x y), (Z.compare_spec y z), (Z.compare_spec x z); try done; lia.
Qed.

Lemma order_then {A B} (f : A -> A -> comparison) (g : B -> B -> comparison) : is_order f -> is_order g ->
  is_order (fun x y : A * B => then_by (f (fst x) (fst y)) (g (snd x) (snd y))).
Proof.
  intros Hf Hg. split; intros [x1 x2] [y1 y2]; cbn [fst snd].
  - rewrite (order_flip _ Hf x1), (order_flip _ Hg x2). by destruct (f x1 y1).
  - intros [z1 z2]. cbn [fst snd]. intros H1 H2. pose proof (order_le _ Hf x1 y1 z1) as Hf'. pose proof (order_le _ Hg x2 y2 z2) as Hg'.
    destruct (f x1 y1), (f y1 z1); cbn in *; try done; rewrite Hf' by done; cbn; auto. by destruct (g x2 y2).
Qed.

Lemma order_lex {A} (cmp : A -> A -> comparison) : is_order cmp -> is_order (lex_compare cmp).
Proof.
  intros H. split.
  - induction x as [|a x IH]; intros [|b y]; cbn; try done. rewrite (order_flip _ H a). destruct (cmp a b); cbn; auto.
  - induction x as [|a x IH]; intros [|b y] [|c z]; cbn; try done.
    intros H1 H2. pose proof (order_le _ H a b c) as Ho. destruct (cmp a b), (cmp b c); cbn in *; try done; rewrite Ho by done; auto. by destruct (lex_compare _ x y).
Qed.

Lemma order_ident : is_order ident_compare.
Proof.
  pose proof order_Z as HZ. pose proof (order_lex _ HZ) as HL. split.
  - intros [a|a] [b|b]; cbn; try done; [apply (order_flip _ HZ)|apply (order_flip _ HL)].
  - intros [a|a] [b|b] [c|c]; cbn; try done; try (intros H1 H2; by destruct (_ ?= _)); try (intros H1 H2; by destruct (lex_compare _ _ _));
      [apply (order_le _ HZ)|apply (order_le _ HL)].
Qed.

Lemma order_pre : is_order pre_compare.
Proof.
  pose proof (order_lex _ order_ident) as H. split.
  - intros [x|] [y|]; cbn; try done. apply (order_flip _ H).
  - intros [x|] [y|] [z|]; cbn; try done; try (intros H1 H2; by destruct (lex_compare _ _ _)). apply (order_le _ H).
Qed.

Lemma order_precedence : is_order precedence.
Proof.
  exact (order_then _ _ (order_lex _ order_Z) order_pre).
Qed.

Lemma sign_flip c : sign (CompOpp c) = - sign c.
Proof. by destruct c. Qed.

(** The value of the digits. *)
Lemma digits_val_cons c s : digits_val 10 (c :: s) = digit_val c * 10 ^ zlen s + digits_val 10 s.
Proof.
  unfold digits_val. cbn [fold_left]. rewrite Z.mul_0_l, Z.add_0_l. generalize (digit_val c). clear c.
  assert (H : forall s a, fold_left (fun acc c => acc * 10 + digit_val c) s a = a * 10 ^ zlen s + fold_left (fun acc c => acc * 10 + digit_val c) s 0).
  { clear s. induction s as [|c s IH]; intros a; [cbn [fold_left]; change (10 ^ zlen []) with 1; lia|]. cbn [fold_left]. rewrite IH, (IH (0 * 10 + _)), zlen_cons.
    rewrite (Z.pow_add_r 10 _ 1) by (pose proof (zlen_nonneg s); lia). lia. }
  intros a. apply H.
Qed.

Lemma digit_range c : is_digit c = true -> 0 <= digit_val c <= 9 /\ digit_val c = c - 48.
Proof. intros H. unfold digit_val. rewrite H. unfold is_digit in H. split_bools. to_prop. lia. Qed.

Lemma digits_val_bound s : forallb is_digit s = true -> 0 <= digits_val 10 s < 10 ^ zlen s.
Proof.
  induction s as [|c s IH]; [intros _; change (10 ^ zlen []) with 1; cbn; lia|]. cbn [forallb]. intros H. apply andb_true_iff in H as [Hc Hs]. specialize (IH Hs).
  rewrite digits_val_cons, zlen_cons. pose proof (digit_range c Hc). rewrite (Z.pow_add_r 10 _ 1) by (pose proof (zlen_nonneg s); lia). nia.
Qed.

Lemma skip_zeros_val s : digits_val 10 (skip_zeros s) = digits_val 10 s.
Proof.
  induction s as [|c [|d s] IH]; try done. change (skip_zeros (c :: d :: s)) with (if c =? 48 then skip_zeros (d :: s) else c :: d :: s).
  destruct (c =? 48) eqn:E; [|done]. to_prop. subst c. rewrite IH, (digits_val_cons 48). cbn. lia.
Qed.

(** What remains is all digits, and starts with a zero only when it is one digit long. *)
Lemma skip_zeros_lead s : allDigits s = true ->
  allDigits (skip_zeros s) = true /\ (zlen (skip_zeros s) = 1 \/ 10 ^ (zlen (skip_zeros s) - 1) <= digits_val 10 (skip_zeros s)).
Proof.
  induction s as [|c [|d s] IH]; [done| |].
  - intros H. split; [done|]. by left.
  - intros H. change (skip_zeros (c :: d :: s)) with (if c =? 48 then skip_zeros (d :: s) else c :: d :: s).
    unfold allDigits in H. cbn [is_nil negb andb forallb] in H. apply andb_true_iff in H as [Hc H]. destruct (c =? 48) eqn:E; [by apply IH|].
    split; [unfold allDigits; cbn [is_nil negb andb forallb]; by rewrite Hc, H|]. right. to_prop.
    pose proof (digit_range c Hc). pose proof (digits_val_bound (d :: s) H) as Hb. rewrite (digits_val_cons c). remember (d :: s) as t.
    rewrite zlen_cons. replace (zlen t + 1 - 1) with (zlen t) by lia. assert (0 < 10 ^ zlen t) by (apply Z.pow_pos_nonneg; [lia|apply zlen_nonneg]). nia.
Qed.

Lemma str_compare_lex x y : str_compare x y = sign (lex_compare Z.compare x y).
Proof.
  revert y. induction x as [|a x IH]; intros [|b y]; try done. specialize (IH y). unfold str_compare in *. cbn [str_ltb lex_compare].
  destruct (Z.compare_spec a b); subst.
  - by rewrite Z.ltb_irrefl.
  - by zdecide.
  - by zdecides.
Qed.

Lemma lex_digits x y : forallb is_digit x = true -> forallb is_digit y = true -> length x = length y ->
  lex_compare Z.compare x y = (digits_val 10 x ?= digits_val 10 y).
Proof.
  revert y. induction x as [|a x IH]; intros [|b y]; try done. cbn [forallb length lex_compare]. intros Hx Hy [= Hl].
  apply andb_true_iff in Hx as [Ha Hx], Hy as [Hb Hy]. rewrite (IH y Hx Hy Hl), !digits_val_cons.
  pose proof (digits_val_bound x Hx). pose proof (digits_val_bound y Hy). pose proof (digit_range a Ha). pose proof (digit_range b Hb).
  assert (El : zlen x = zlen y) by (unfold zlen; lia). rewrite El in *. symmetry.
  destruct (Z.compare_spec a b); subst.
  - destruct (Z.compare_spec (digits_val 10 x) (digits_val 10 y)); [apply Z.compare_eq_iff|apply Z.compare_lt_iff|apply Z.compare_gt_iff]; nia.
  - apply Z.compare_lt_iff. nia.
  - apply Z.compare_gt_iff. nia.
Qed.

Lemma cmpNumeric_value x y : allDigits x = true -> allDigits y = true -> cmpNumeric x y = sign (digits_val 10 x ?= digits_val 10 y).
Proof.
  intros Hx Hy. rewrite <- (skip_zeros_val x), <- (skip_zeros_val y). unfold cmpNumeric.
  destruct (skip_zeros_lead x Hx) as [Dx Lx], (skip_zeros_lead y Hy) as [Dy Ly]. set (a := skip_zeros x) in *. set (b := skip_zeros y) in *.
  unfold allDigits in Dx, Dy. apply andb_true_iff in Dx as [Nx Dx], Dy as [Ny Dy].
  pose proof (digits_val_bound a Dx). pose proof (digits_val_bound b Dy).
  assert (Hs : forall n m, 0 <= n <= m - 1 -> 10 ^ n <= 10 ^ (m - 1)) by (intros; apply Z.pow_le_mono_r; lia).
  assert (La : 1 <= zlen a) by (destruct a; [done|rewrite zlen_cons; pose proof (zlen_nonneg a); lia]).
  assert (Lb : 1 <= zlen b) by (destruct b; [done|rewrite zlen_cons; pose proof (zlen_nonneg b); lia]).
  destruct (Nat.eqb_spec (length a) (length b)) as [E|E]; cbn [negb].
  - rewrite str_compare_lex. f_equal. by apply lex_digits.
  - destruct (Nat.ltb_spec (length a) (length b)) as [F|F].
    + specialize (Hs (zlen a) (zlen b)). replace (_ ?= _) with Lt; [done|]. symmetry. apply Z.compare_lt_iff. unfold zlen in *. lia.
    + specialize (Hs (zlen b) (zlen a)). replace (_ ?= _) with Gt; [done|]. symmetry. apply Z.compare_gt_iff. unfold zlen in *. lia.
Qed.

Lemma compare_nums_lex n a b : (n <= length a)%nat -> (n <= length b)%nat -> compare_nums n a b = sign (lex_compare Z.compare (take n a) (take n b)).
Proof.
  revert a b. induction n as [|n IH]; intros [|x a] [|y b] Ha Hb; cbn [length] in *; try done; try lia.
  cbn [compare_nums take lex_compare hd tl]. rewrite IH by lia. destruct (Z.compare_spec x y) as [->| |]; by zdecides.
Qed.

Lemma compare_ids_lex ai bi : compare_ids ai bi = sign (lex_compare ident_compare (map ident_of ai) (map ident_of bi)).
Proof.
  revert bi. induction ai as [|x ai IH]; intros [|y bi]; try done. cbn [compare_ids map lex_compare]. rewrite IH.
  change (ident_of x) with (if allDigits x then Num (digits_val 10 x) else Alpha x). change (ident_of y) with (if allDigits y then Num (digits_val 10 y) else Alpha y).
  destruct (allDigits x) eqn:Ex, (allDigits y) eqn:Ey; cbn [andb Bool.eqb negb ident_compare]; try done.
  - rewrite cmpNumeric_value by done. by destruct (_ ?= _).
  - rewrite str_compare_lex. by destruct (lex_compare Z.compare x y).
Qed.

Lemma sv_nums_three s : (3 <= length (sv_nums (parseSemver s)))%nat.
Proof. unfold parseSemver. repeat case_match; cbn [sv_nums]; rewrite length_app, length_replicate; lia. Qed.

Lemma compareSemver_precedence a b : compareSemver a b = sign (precedence (version_of a) (version_of b)).
Proof.
  unfold compareSemver, precedence, version_of. cbn [fst snd]. rewrite compare_nums_lex by apply sv_nums_three.
  destruct (lex_compare Z.compare _ _); cbn [sign then_by]; try done.
  unfold comparePre. destruct (sv_pre (parseSemver a)) as [|c s], (sv_pre (parseSemver b)) as [|d t]; try done. apply compare_ids_lex.
Qed.

(** What the program reads in a text of the grammar is the version it names. *)
Lemma number_decimal x : 0 <= x -> Forall (fun c => is_digit c = true) (number 10 x).
Proof.
  intros Hx. apply List.Forall_forall. intros c Hc. pose proof (number_digits 10 x ltac:(lia) Hx) as Hd. rewrite forallb_forall in Hd.
  specialize (Hd c Hc). to_prop. unfold digit_val in Hd. destruct (is_digit c); [done|]. exfalso.
  destruct ((97 <=? c) && _) eqn:E1; [split_bools; to_prop; lia|]. destruct ((65 <=? c) && _) eqn:E2; split_bools; to_prop; lia.
Qed.

Lemma ident_text_facts t i : ident_text t i -> t <> [] /\ Forall (fun c => ident_char c = true) t /\ ident_of t = i.
Proof.
  intros [u Hne Hd|u Hc (c & Hin & Hcd)].
  - split_and!; [done|eapply Forall_impl; [exact Hd|]; intros c Hcd; unfold ident_char; by rewrite Hcd|]. unfold ident_of, allDigits. destruct u as [|c u]; [done|].
    replace (forallb is_digit (c :: u)) with true; [done|]. symmetry. apply forallb_forall. by apply List.Forall_forall.
  - split_and!; [by intros ->; apply not_elem_of_nil in Hin|done|]. unfold ident_of, allDigits. destruct (forallb is_digit u) eqn:E; [|by rewrite andb_false_r].
    rewrite forallb_forall in E. rewrite E in Hcd; [done|by apply list_elem_of_In].
Qed.

Lemma char_not f c (s : qstr) : Forall (fun d => f d = true) s -> f c = false -> c ∉ s.
Proof. intros Hf Hc Hin. rewrite Forall_forall in Hf. apply Hf in Hin. congruence. Qed.

Lemma ident_texts ts is_ : Forall2 ident_text ts is_ ->
  Forall (fun s => 46 ∉ s) ts /\ Forall (fun s => is_nil s = false) ts /\ Forall (fun c => ident_char c = true \/ c = 46) (join [46] ts) /\ map ident_of ts = is_.
Proof.
  induction 1 as [|t i ts is_ Ht _ IH]; [by repeat split; constructor|]. destruct IH as (I1 & I2 & I3 & I4).
  apply ident_text_facts in Ht as (Hne & Hc & Ho). split_and!.
  - constructor; [|done]. by apply (char_not ident_char).
  - constructor; [by destruct t|done].
  - assert (Hl : Forall (fun c => ident_char c = true \/ c = 46) t) by (eapply Forall_impl; [exact Hc|]; by left).
    destruct ts as [|t' ts]; [exact Hl|]. change (join [46] (t :: t' :: ts)) with (t ++ [46] ++ join [46] (t' :: ts)).
    repeat (apply Forall_app; split); [done|by constructor; [right|]|done].
  - cbn [map]. by rewrite Ho, I4.
Qed.

Lemma split_skip_join (segs : list qstr) : segs <> [] -> Forall (fun s => 46 ∉ s) segs -> Forall (fun s => is_nil s = false) segs -> split_skip 46 (join [46] segs) = segs.
Proof.
  intros Hne Hd Hn. unfold split_skip. rewrite split_join by done. clear Hne Hd. induction Hn as [|x l Hx _ IH]; [done|]. cbn [List.filter]. by rewrite Hx, IH.
Qed.

Lemma names_read {QL : QtTextLaws Q} text v : names text v -> version_of text = v.
Proof.
  intros [p x y z pre is_ build Hp Hx Hy Hz Hpre Hb]. set (core := join (lit ".") [number 10 x; number 10 y; number 10 z]).
  assert (Hnum : forall n, 0 <= n <= INT_MAX -> Forall (fun c => is_digit c = true) (number 10 n) /\ is_nil (number 10 n) = false /\ u_toint 10 (number 10 n) = Some n).
  { intros n Hn. split; [apply number_decimal; lia|]. split; [destruct (number 10 n) eqn:E; [by apply number_not_nil in E; [|lia]|done]|].
    unfold u_toint. rewrite tolonglong_number by (unfold INT_MAX, I64_MAX in *; lia). unfold INT_MIN, INT_MAX in *. by zdecides. }
  destruct (Hnum x Hx) as (Dx & Nx & Tx), (Hnum y Hy) as (Dy & Ny & Ty), (Hnum z Hz) as (Dz & Nz & Tz).
  assert (Hcore : Forall (fun c => is_digit c = true \/ c = 46) core).
  { assert (W : forall s, Forall (fun c => is_digit c = true) s -> Forall (fun c => is_digit c = true \/ c = 46) s) by (intros s Hs; eapply Forall_impl; [exact Hs|]; by left).
    unfold core. cbn [join]. repeat (apply Forall_app; split); auto; by constructor; [right|]. }
  assert (Hpc : Forall (fun c => ident_char c = true \/ c = 46) pre).
  { destruct Hpre as [|ts is_ Hne Hts]; [constructor|]. apply Forall_app. split; [by constructor; [left|]|]. by apply (ident_texts ts is_). }
  assert (Hno : forall c, is_digit c = false -> c <> 46 -> c ∉ core).
  { intros c H1 H2 Hin. rewrite Forall_forall in Hcore. apply Hcore in Hin as [H|H]; [congruence|done]. }
  assert (Hnp : 43 ∉ pre) by (intros Hin; rewrite Forall_forall in Hpc; apply Hpc in Hin as [H|H]; done).
  (* no blank at the ends *)
  assert (Hbody : Forall (fun c => ident_char c = true \/ c = 46 \/ c = 43) (p ++ core ++ pre ++ build)).
  { assert (Wc : forall s, Forall (fun c => ident_char c = true \/ c = 46) s -> Forall (fun c => ident_char c = true \/ c = 46 \/ c = 43) s)
      by (intros s Hs; eapply Forall_impl; [exact Hs|]; tauto).
    apply Forall_app_2; [|apply Forall_app_2; [|apply Forall_app_2]].
    - destruct Hp as [-> |[-> | ->]]; repeat constructor.
    - eapply Forall_impl; [exact Hcore|]. intros c [H|H]; [left; unfold ident_char; by rewrite H|tauto].
    - by apply Wc.
    - destruct Hb as [-> |(b & -> & Hb)]; [constructor|]. apply Forall_app. split; [by constructor; [right; right|]|by apply Wc]. }
  assert (Htrim : u_trimmed (p ++ core ++ pre ++ build) = p ++ core ++ pre ++ build).
  { apply trim_by_id. eapply Forall_impl; [exact Hbody|]. intros c Hc. cbv beta.
    assert (Hr : 43 <= c <= 122) by (unfold ident_char, is_digit in Hc; destruct Hc as [Hc|[->| ->]]; [split_bools; repeat (apply orb_true_iff in Hc as [Hc|Hc]); split_bools; to_prop; lia|lia|lia]).
    rewrite law_space_ascii; unfold is_ascii, b_space; by zdecides. }
  assert (Hhd : starts_with_chr 118 (core ++ pre ++ build) || starts_with_chr 86 (core ++ pre ++ build) = false).
  { unfold core. cbn [join]. destruct (number 10 x) as [|c r]; [done|]. apply Forall_cons in Dx as [Dc _]. cbn [app starts_with_chr].
    unfold is_digit in Dc. split_bools. to_prop. by zdecides. }
  assert (Hv : (if starts_with_chr 118 (p ++ core ++ pre ++ build) || starts_with_chr 86 (p ++ core ++ pre ++ build) then drop 1 (p ++ core ++ pre ++ build)
                else p ++ core ++ pre ++ build) = core ++ pre ++ build).
  { destruct Hp as [-> |[-> | ->]]; [cbn [app]; by rewrite Hhd|done|done]. }
  assert (Hplus : before_chr 43 (core ++ pre ++ build) = core ++ pre).
  { unfold before_chr. assert (Hc : 43 ∉ core ++ pre) by (rewrite not_elem_of_app; split; [by apply Hno|done]).
    destruct Hb as [-> |(b & -> & _)].
    - rewrite app_nil_r. by rewrite (proj2 (index_of_None 43 _) Hc).
    - change (core ++ pre ++ lit "+" ++ b) with (core ++ pre ++ 43 :: b). rewrite app_assoc, index_of_app by done. apply take_app_length. }
  assert (Hnums : map (fun q => default 0 (u_toint 10 q)) (split_skip 46 core) = [x; y; z]).
  { unfold core. change (lit ".") with [46]. rewrite split_skip_join; [cbn [map]; by rewrite Tx, Ty, Tz|done| |by repeat constructor].
    repeat constructor; by apply (char_not is_digit). }
  unfold version_of, parseSemver. rewrite Htrim, Hv, Hplus. destruct Hpre as [|ts is_ Hne Hts].
  - rewrite app_nil_r, (proj2 (index_of_None 45 core)) by (by apply Hno). cbn [sv_nums sv_pre is_nil]. by rewrite Hnums.
  - destruct (ident_texts ts is_ Hts) as (I1 & I2 & _ & I4). change (lit "-" ++ ?l) with (45 :: l). rewrite index_of_app by (by apply Hno).
    rewrite take_app_length. replace (drop (length core + 1) (core ++ 45 :: join (lit ".") ts)) with (join (lit ".") ts) by (by rewrite <- drop_drop, drop_app_length).
    cbn [sv_nums sv_pre]. rewrite Hnums. change (lit ".") with [46].
    assert (Hj : is_nil (join [46] ts) = false).
    { destruct ts as [|t ts]; [done|]. apply Forall_cons in I2 as [I2 _]. destruct t; [done|]. by destruct ts. }
    rewrite Hj, split_skip_join by done. cbn [length replicate take app]. by rewrite I4.
Qed.

(** C30. The version comparison behind the update check, the compatibility gate and the
    marketplace's update offers is the precedence of the semantic versioning
    specification on the texts of its grammar, with an optional v in front and core
    numbers that fit an [int]: the three numbers in turn, then a release above its
    pre-releases, then the identifiers in turn -- numeric ones by value, whatever their
    length, and below the alphanumeric ones, those by code units -- and the shorter list
    below; build metadata plays no part.  On all texts it is a total preorder: the
    converse comparison has the opposite sign and "not newer" is transitive.  (A larger
    core number is read as zero: [big_core_reads_zero].) *)
Theorem semver_reference {QL : QtTextLaws Q} a b c :
  (forall v w, names a v -> names b w -> compareSemver a b = sign (precedence v w)) /\
  compareSemver b a = - compareSemver a b /\
  (compareSemver a b <= 0 -> compareSemver b c <= 0 -> compareSemver a c <= 0 /\ (compareSemver a c = 0 -> compareSemver a b = 0 /\ compareSemver b c = 0)).
Proof.
  rewrite !compareSemver_precedence. split; [by intros v w <-%names_read <-%names_read|]. pose proof order_precedence as [Hf Hl]. split; [by rewrite Hf, sign_flip|].
  intros H1 H2. specialize (Hl (version_of a) (version_of b) (version_of c)).
  destruct (precedence (version_of a) (version_of b)), (precedence (version_of b) (version_of c)); cbn in *; try lia; rewrite Hl by done; cbn; lia.
Qed.

(** ** Lemmas: the catalog *)

Lemma zlen_take_le {A} (n : Z) (l : list A) : 0 <= n -> zlen (take (Z.to_nat n) l) <= n.
Proof. intros Hn. unfold zlen. rewrite length_take. lia. Qed.

Lemma strings_bounded n vs out : zlen out < n -> Forall (fun s => zlen s <= 64) out ->
  zlen (strings vs n out) <= n /\ Forall (fun s => zlen s <= 64) (strings vs n out).
Proof.
  revert out. induction vs as [|v vs IH]; intros out Hl Hf; [split; [cbn [strings]; lia|done]|].
  destruct v as [| | | | |s| |]; cbn [strings]; try by apply IH.
  assert (Hf' : Forall (fun s => zlen s <= 64) (out ++ [take 64 s])).
  { apply Forall_app. split; [done|]. constructor; [|constructor]. apply (zlen_take_le 64). lia. }
  assert (Ho : zlen (out ++ [take 64 s]) = zlen out + 1) by (rewrite zlen_app; done).
  rewrite Ho. destruct (n <=? zlen out + 1) eqn:E; to_prop; [split; [lia|done]|]. apply IH; [lia|done].
Qed.

Lemma zlen_trimmed f s : zlen (trim_by f s) <= zlen s.
Proof.
  assert (H : forall l, zlen (drop_while f l) <= zlen l).
  { induction l as [|c l IH]; [done|]. cbn [drop_while]. rewrite zlen_cons. case_match; [|rewrite zlen_cons]; lia. }
  unfold trim_by. unfold zlen at 1. rewrite length_rev. fold (zlen (drop_while f (rev (drop_while f s)))).
  etrans; [apply H|]. unfold zlen at 1. rewrite length_rev. apply H.
Qed.

(** What an offered entry is. *)
Definition entry_ok (e : CatalogEntry) : Prop :=
  safeScriptFileName (ce_id e) <> [] /\ isTrustedAssetUrl (ce_url e) = true /\ isWellFormedSha256 (ce_sha256 e) = true /\
  (zlen (ce_id e) <= 64 /\ zlen (ce_name e) <= 128 /\ zlen (ce_summary e) <= 2048 /\ zlen (ce_version e) <= 32 /\ zlen (ce_author e) <= 128 /\
   zlen (ce_url e) <= 2048 /\ zlen (ce_minVersion e) <= 32) /\
  (zlen (ce_categories e) <= 32 /\ zlen (ce_hooks e) <= 32 /\ zlen (ce_declaredPermissions e) <= 8 /\
   Forall (fun s => zlen s <= 64) (ce_categories e ++ ce_hooks e ++ ce_declaredPermissions e)).

Lemma strList_bounded o key n : 0 < n -> zlen (strList o key n) <= n /\ Forall (fun s => zlen s <= 64) (strList o key n).
Proof. intros Hn. apply strings_bounded; [done|constructor]. Qed.

Lemma entry_of_ok o : let e := entry_of o in
  safeScriptFileName (ce_id e) <> [] -> isTrustedAssetUrl (ce_url e) = true -> isWellFormedSha256 (ce_sha256 e) = true -> entry_ok e.
Proof.
  cbv zeta. intros H1 H2 H3. refine (conj H1 (conj H2 (conj H3 (conj _ _)))); cbn [entry_of ce_id ce_name ce_summary ce_version ce_author ce_url ce_minVersion
    ce_categories ce_hooks ce_declaredPermissions].
  - assert (Hm : zlen (u_trimmed (str o "minVersion" 32)) <= 32) by (etrans; [apply zlen_trimmed|by apply zlen_take_le]).
    repeat (refine (conj _ _)); try exact Hm; by apply zlen_take_le.
  - destruct (strList_bounded o "categories" 32) as [A1 A2]; [lia|]. destruct (strList_bounded o "hooks" 32) as [B1 B2]; [lia|].
    destruct (strList_bounded o "permissions" 8) as [C1 C2]; [lia|]. refine (conj A1 (conj B1 (conj C1 _))). by repeat (apply Forall_app; split).
Qed.

(** The loop keeps good entries, with the ids it has seen, at most [kMaxEntries]. *)
Definition entries_ok (seen : gset qstr) (out : list CatalogEntry) : Prop :=
  Forall entry_ok out /\ seen = list_to_set (map ce_id out) /\ NoDup (map ce_id out) /\ zlen out <= kMaxEntries.
Lemma entries_keep arr seen out : entries_ok seen out -> exists seen', entries_ok seen' (entries arr seen out).
Proof.
  revert seen out. induction arr as [|v arr IH]; intros seen out Hok; [by exists seen|]. cbn [entries].
  destruct (kMaxEntries <=? zlen out) eqn:El; [by exists seen|].
  destruct v as [| | | | | | |o]; try by apply IH.
  destruct (is_nil (safeScriptFileName (ce_id (entry_of o)))) eqn:E1; [by apply IH|].
  destruct (isTrustedAssetUrl (ce_url (entry_of o))) eqn:E2; cbn [negb]; [|by apply IH].
  destruct (isWellFormedSha256 (ce_sha256 (entry_of o))) eqn:E3; cbn [negb]; [|by apply IH].
  case_bool_decide as E4; [by apply IH|]. apply IH. destruct Hok as (Hf & -> & Hn & Hl). to_prop.
  assert (He : entry_ok (entry_of o)) by (apply entry_of_ok; [|done|done]; intros E; rewrite E in E1; done).
  refine (conj _ (conj _ (conj _ _))).
  - apply Forall_app. split; [done|]. by constructor.
  - rewrite map_app. cbn [map]. set_solver.
  - rewrite map_app. cbn [map]. apply NoDup_app. split; [done|]. split; [|apply NoDup_singleton].
    intros x Hx Hx'. apply list_elem_of_singleton in Hx' as ->. apply E4. by apply elem_of_list_to_set.
  - rewrite zlen_app, zlen_cons, zlen_nil. lia.
Qed.

Definition catalog_ok (c : Catalog) : Prop :=
  Forall entry_ok (cg_entries c) /\ NoDup (map ce_id (cg_entries c)) /\ zlen (cg_entries c) <= kMaxEntries /\ (cg_error c = [] <-> cg_entries c <> []) /\ zlen (cg_updated c) <= 32.

Lemma arg_nonempty c s a : c <> 37 -> arg (c :: s) a <> [].
Proof.
  intros Hc. unfold arg. destruct (lowest_marker (c :: s)) as [n|]; [|done]. cbn [arg_replace].
  assert (Hm : marker_at (c :: s) = None) by (destruct s; cbn [marker_at]; [done|by zdecide]). by rewrite Hm.
Qed.

Lemma parse_ok text : catalog_ok (parseCatalog text).
Proof.
  assert (Hn : forall v u e, zlen u <= 32 -> e <> [] -> catalog_ok (mkCatalog v u [] e)).
  { intros v u e Hu He. refine (conj _ (conj _ (conj _ (conj _ Hu)))); cbn; [constructor|constructor|done|]. by split. }
  unfold parseCatalog. destruct (is_nil text); [by apply Hn|]. destruct (kMaxCatalogBytes <? zlen text); [apply Hn; [done|by apply arg_nonempty]|].
  assert (Hj : forall a, catalog_ok (mkCatalog 0 [] [] (arg (lit "catalog is not valid JSON: %1") a))) by (intros a; apply Hn; [done|by apply arg_nonempty]).
  destruct (json_parse text) as [[| | | | | | |root]|]; try apply Hj.
  assert (Hu : zlen (str root "updated" 32) <= 32) by by apply zlen_take_le.
  destruct (is_nil (toArray _)); [by apply Hn|]. cbv zeta.
  destruct (entries_keep (toArray (value root (lit "extensions"))) ∅ []) as (seen & Hf & _ & Hd & Hl); [by split_and!; try constructor|].
  destruct (entries _ _ _) as [|e es] eqn:E; cbn [is_nil]; [apply Hn; [done|by apply arg_nonempty]|]. by refine (conj Hf (conj Hd (conj Hl (conj _ Hu)))).
Qed.
Lemma catalog_keys text : NoDup (map ce_id (cg_entries (parseCatalog text))).
Proof. apply parse_ok. Qed.

(** C17. Whatever bytes a catalog has, every entry it offers can be fetched, verified and
    stored -- a safe file name, an https address on a trusted host, a well-formed
    digest -- every string and list of it is bounded, no two entries have one id, there
    are at most 500, and it reports an error exactly when it offers nothing. *)
Theorem catalog_entries_installable text : catalog_ok (parseCatalog text).
Proof. apply parse_ok. Qed.

(** ** Lemmas: file names, downloads and the folder *)

(** A name that stays in its directory: of the allowed characters, neither hidden nor a
    device, with the suffix. *)
Definition plain_name (f : qstr) : Prop :=
  forallb file_char f = true /\ ~ 47 ∈ f /\ ~ 92 ∈ f /\ ~ 58 ∈ f /\ hd 0 f <> 46 /\ zlen f <= 67 /\ ends_with (lit ".js") f = true /\
  isReservedDeviceName (before_chr 46 f) = false.

Lemma file_char_not f c : forallb file_char f = true -> file_char c = false -> c ∉ f.
Proof. intros Hf Hc Hin. rewrite forallb_forall in Hf. rewrite (Hf c) in Hc; [done|by apply list_elem_of_In]. Qed.

Lemma before_dot s t : before_chr 46 (s ++ 46 :: t) = before_chr 46 s.
Proof.
  unfold before_chr. induction s as [|c s IH]; [done|]. cbn [app index_of]. destruct (c =? 46); [done|].
  destruct (index_of 46 (s ++ 46 :: t)) as [i|], (index_of 46 s) as [j|]; cbn [fmap option_fmap option_map take]; by rewrite ?IH || by rewrite <- ?IH.
Qed.

Lemma safe_name_plain id : safeScriptFileName id <> [] -> plain_name (safeScriptFileName id).
Proof.
  unfold safeScriptFileName. cbv zeta. set (s := u_trimmed id).
  destruct (is_nil s || (64 <? zlen s)) eqn:E1; [done|]. destruct (forallb file_char s) eqn:E2; cbn [negb]; [|done].
  destruct (seq_eqb s (lit ".") || seq_eqb s (lit "..")); [done|]. destruct (starts_with_chr 46 s) eqn:E3; [done|].
  destruct (ends_with_chr 46 s); [done|]. destruct (isReservedDeviceName (before_chr 46 s)) eqn:E4; [done|]. intros _.
  apply orb_false_iff in E1 as [N1 N2]. to_prop.
  assert (Hf : forallb file_char (s ++ lit ".js") = true) by (by rewrite forallb_app, E2).
  refine (conj Hf (conj _ (conj _ (conj _ (conj _ (conj _ (conj _ _))))))); try by apply (file_char_not _ _ Hf).
  - destruct s as [|c s]; [done|]. cbn. intros ->. done.
  - rewrite zlen_app. change (zlen (lit ".js")) with 3. lia.
  - apply ends_with_spec. by exists s.
  - change (lit ".js") with (46 :: lit "js"). by rewrite before_dot.
Qed.

Definition trusted_host (h : qstr) : Prop := exists t, t ∈ trustedHosts /\ (h = t \/ exists sub, h = sub ++ 46 :: t).
Lemma trusted_split url host target : splitTrustedUrl url = Some (host, target) -> trusted_host host /\ isTrustedAssetUrl url = true.
Proof.
  unfold splitTrustedUrl. destruct (isTrustedAssetUrl url) eqn:E; cbn [negb]; [|done]. intros [= <- _]. split; [|done].
  unfold isTrustedAssetUrl in E. repeat (case_match; [done|]). apply existsb_exists in E as (t & Ht & Hh).
  exists t. split; [by apply list_elem_of_In|]. apply orb_true_iff in Hh as [Hh|Hh]; [left; by apply seq_eqb_eq|right; by apply ends_with_spec].
Qed.

(** What a download that succeeds brought, and from where. *)
Lemma fetched_from net url max f : fetchTrusted net url max = f -> fe_ok f = true ->
  isTrustedAssetUrl url = true /\ zlen (fe_body f) <= max /\
  exists host target, splitTrustedUrl url = Some (host, target) /\ trusted_host host /\
    let res := net host 443 true (fetch_request host target) in
    hs_ok res = true /\ rs_statusCode (hs_parsed res) = 200 /\ fe_body f = bodyForInspection (hs_parsed res).
Proof.
  intros <-. unfold fetchTrusted. destruct (splitTrustedUrl url) as [[host target]|] eqn:E; [|done].
  destruct (trusted_split _ _ _ E) as [Hh Hu]. destruct (hs_ok _) eqn:Eo; cbn [negb]; [|done].
  destruct (_ =? 200) eqn:Es; cbn [negb]; [|done]. destruct (max <? _) eqn:Em; [done|]. intros _. to_prop.
  split; [done|]. split; [exact Em|]. by exists host, target.
Qed.

(** Two networks that agree on the trusted hosts are one to the downloads. *)
Definition same_trusted (net net' : Net) : Prop := forall host req, trusted_host host -> net host 443 true req = net' host 443 true req.
Lemma fetch_trusted_only net net' url max : same_trusted net net' -> fetchTrusted net url max = fetchTrusted net' url max.
Proof.
  intros H. unfold fetchTrusted. destruct (splitTrustedUrl url) as [[host target]|] eqn:E; [|done].
  by rewrite (H host _ (proj1 (trusted_split _ _ _ E))).
Qed.

Lemma sorted_permissions_elem s p : p ∈ sorted_names s <-> p ∈ s.
Proof.
  unfold sorted_names. rewrite <- elem_of_elements. induction (elements s) as [|n l IH]; [done|]. cbn [fold_right].
  assert (H : forall l', p ∈ insert_name n l' <-> p = n \/ p ∈ l').
  { induction l' as [|x l' IH']; cbn [insert_name]; [set_solver|]. destruct (str_ltb x n); set_solver. }
  rewrite H. set_solver.
Qed.

Context {QL : QtTextLaws Q}.

Lemma grant_mutates p : requiresGrant p = true -> mutating p = true.
Proof.
  unfold requiresGrant, mutating. rewrite orb_true_iff, !seq_eqb_eq. intros [-> | ->];
    rewrite !law_cieq_ascii by reflexivity; reflexivity.
Qed.

(** The audit passes a script by its size, and calls it mutating if it declares a
    capability that needs a grant. *)
Lemma audit_mutates entry script eff : au_ok (auditInstall entry script eff) = true ->
  script <> [] /\ zlen script <= kMaxScriptBytes /\
  (au_mutates (auditInstall entry script eff) = false -> forall p, p ∈ eff -> requiresGrant p = false).
Proof.
  unfold auditInstall. destruct (is_nil (safeScriptFileName _)); [done|]. destruct (is_nil script) eqn:E1; [done|].
  destruct (kMaxScriptBytes <? _) eqn:E2; [done|]. cbn [au_ok au_mutates]. intros _. to_prop. split; [by destruct script|]. split; [done|].
  intros Hm p Hp. destruct (requiresGrant p) eqn:E; [|done]. rewrite <- Hm. symmetry. apply existsb_exists. exists p.
  split; [|by apply grant_mutates]. by apply list_elem_of_In, sorted_permissions_elem.
Qed.

(** C16. The extensions directory changes only by an install that succeeds, and that
    writes one file: under a name that stays in the directory and is no device, the
    body a trusted host sent over TLS with status 200, not empty and within the size
    limit, whose SHA-256 is the well-formed digest of the catalog entry.  Unless the user
    confirmed, the written script declares no capability that needs a grant: adding it
    to a directory lets the extension engine grant none that was not declared before.
    Nothing of it depends on what any other host answers. *)
Theorem install_safe net net' entry confirmed d d' r :
  install net entry confirmed d = (d', r) ->
  (same_trusted net net' -> install net' entry confirmed d = (d', r)) /\
  (in_ok r = false -> d' = d) /\
  (in_ok r = true -> exists file body,
     d' = with_files (qm_insert file body (fo_files d)) d /\ file = safeScriptFileName (ce_id entry) /\ plain_name file /\
     isWellFormedSha256 (ce_sha256 entry) = true /\ u_cieq (sha256Hex body) (ce_sha256 entry) = true /\ body <> [] /\ zlen body <= kMaxScriptBytes /\
     (exists host target, trusted_host host /\ splitTrustedUrl (ce_url entry) = Some (host, target) /\
        let res := net host 443 true (fetch_request host target) in
        hs_ok res = true /\ rs_statusCode (hs_parsed res) = 200 /\ body = bodyForInspection (hs_parsed res)) /\
     (confirmed = false -> forall dir disabled cap, requiresGrant cap = true ->
        declared_in ((file, Some body) :: dir) disabled cap -> declared_in dir disabled cap)).
Proof.
  intros H. split; [intros Hs; rewrite <- H; unfold install; by rewrite (fetch_trusted_only net net' _ _ Hs)|].
  revert H. unfold install. cbv zeta.
  destruct (is_nil (safeScriptFileName _)) eqn:E1; [by intros [= <- <-]|].
  destruct (isWellFormedSha256 _) eqn:E2; cbn [negb]; [|by intros [= <- <-]].
  destruct (fetchTrusted _ _ _) as [fok body ferr fst_] eqn:Ef. cbn [fe_ok fe_body fe_error fe_status].
  destruct fok; cbn [negb]; [|by intros [= <- <-]].
  destruct (verifyIntegrity body _) eqn:E3; cbn [negb]; [|by intros [= <- <-]].
  destruct (au_ok _) eqn:E4; cbn [negb]; [|by intros [= <- <-]].
  destruct (_ && negb confirmed) eqn:E5; [by intros [= <- <-]|].
  destruct (fo_mkpath d); cbn [negb]; [|by intros [= <- <-]]. destruct (fo_open d); cbn [negb]; [|by intros [= <- <-]].
  destruct (fo_commit d); cbn [negb]; [|by intros [= <- <-]].
  intros [= <- <-]. split; [done|]. intros _. exists (safeScriptFileName (ce_id entry)), body.
  destruct (fetched_from net _ _ _ Ef eq_refl) as (_ & _ & host & target & Hsp & Hh & Hres). destruct (audit_mutates _ _ _ E4) as (Hb & Hl & Hm).
  unfold verifyIntegrity in E3. rewrite E2 in E3. cbn [negb] in E3.
  refine (conj eq_refl (conj eq_refl (conj _ (conj eq_refl (conj E3 (conj Hb (conj Hl (conj _ _)))))))).
  - apply safe_name_plain. intros E. by rewrite E in E1.
  - by exists host, target.
  - intros -> dir disabled cap Hc (name & content & Hin & Hd & Hp). exists name, content. split; [|done]. apply elem_of_cons in Hin as [[= -> ->]|Hin]; [|done].
    rewrite (Hm ltac:(by destruct (au_mutates _)) cap Hp) in Hc. done.
Qed.

(** A removal deletes at most the file of its id, inside the directory, and nothing
    when it fails; removing what an install just added leaves every name as it was
    before the install. *)
Theorem uninstall_undoes_install net entry confirmed d d' r :
  qm_sorted (fo_files d) -> install net entry confirmed d = (d', r) -> in_ok r = true -> qm_get (safeScriptFileName (ce_id entry)) (fo_files d) = None ->
  (forall g, g <> safeScriptFileName (ce_id entry) -> qm_get g (fo_files d') = qm_get g (fo_files d)) /\
  forall d2 ok e, uninstall (ce_id entry) d' = (d2, (ok, e)) ->
  (ok = false -> d2 = d') /\
  (ok = true -> fo_inside d (safeScriptFileName (ce_id entry)) = true /\ forall g, qm_get g (fo_files d2) = qm_get g (fo_files d)).
Proof.
  intros Hs Hi Hok Hn. set (f := safeScriptFileName (ce_id entry)) in *.
  assert (Hf : exists body, d' = with_files (qm_insert f body (fo_files d)) d).
  { revert Hi. unfold install. cbv zeta. repeat (case_match; [intros [= <- <-]; done|]). intros [= <- _]. eauto. }
  destruct Hf as [body ->]. cbn [with_files fo_files]. split; [intros g Hg; by apply qm_get_insert_ne|].
  intros d2 ok e. unfold uninstall. fold f. cbn [with_files fo_files fo_inside fo_remove].
  repeat (case_match; [by intros [= <- <- _]|]). intros [= <- <- _]. split; [done|]. intros _. split; [by destruct (fo_inside d f)|].
  intros g. cbn [with_files fo_files]. pose proof (qm_insert_sorted f body _ Hs) as Hs'. destruct (decide (g = f)) as [->|Hg].
  - by rewrite qm_get_remove.
  - rewrite qm_get_remove_ne by done. by apply qm_get_insert_ne.
Qed.

(** The update check offers an update only when GitHub answered 200 with a release
    whose tag is a later version, reports one of an error and an offer at most, and hands
    out no link but an https one on github.com. *)
Theorem update_check_sound net current : let u := doCheck net current in
  ui_currentVersion u = current /\
  (ui_releaseUrl u = [] \/ isTrustedReleaseUrl (ui_releaseUrl u) = true) /\ zlen (ui_releaseNotes u) <= 8 * 1024 /\
  (ui_available u = true -> ui_error u = [] /\ compareSemver current (ui_latestVersion u) = -1 /\
     let res := net (lit "api.github.com") 443 true update_request in hs_ok res = true /\ rs_statusCode (hs_parsed res) = 200).
Proof.
  cbv zeta. unfold doCheck. cbv zeta. destruct (hs_ok _); cbn [negb]; [|by split_and!; try left]. destruct (_ =? 200) eqn:Es; cbn [negb]; [|by split_and!; try left].
  destruct (json_parse _) as [[| | | | | | |o]|]; try (by split_and!; try left). to_prop.
  set (url := toString (value o (lit "html_url"))). set (latest := toString (value o (lit "tag_name"))).
  assert (Hu : (if isTrustedReleaseUrl url then url else []) = [] \/ isTrustedReleaseUrl (if isTrustedReleaseUrl url then url else []) = true)
    by (destruct (isTrustedReleaseUrl url) eqn:E; auto).
  assert (Hl : forall s : qstr, zlen (take (Z.to_nat (8 * 1024)) s) <= 8 * 1024) by (intros; by apply zlen_take_le).
  destruct (is_nil latest); cbn [ui_currentVersion ui_releaseUrl ui_releaseNotes ui_available ui_error ui_latestVersion];
    refine (conj eq_refl (conj Hu (conj (Hl _) _))); [done|].
  intros Hc. split; [done|]. split; [|done]. to_prop. rewrite compareSemver_precedence in *. destruct (precedence _ _); cbn in *; lia.
Qed.

(** ** Lemmas: the merged list *)

Lemma merge_entry_state ids versionOf cur e : let m := merge_entry ids versionOf cur e in
  me_entry m = e /\ (me_state m = NotInstalled <-> ce_id e ∉ ids) /\ me_state m <> Local /\
  (me_state m = UpdateAvailable -> me_installedVersion m <> [] /\ compareSemver (me_installedVersion m) (ce_version e) = -1).
Proof.
  cbv zeta. unfold merge_entry. case_bool_decide as Hi; cbn [me_entry me_state me_installedVersion]; [|by split_and!].
  refine (conj eq_refl (conj _ _)); [case_match; by split|]. destruct (_ && _) eqn:E; [|by split]. split; [done|]. intros _.
  apply andb_true_iff in E as [E Ec]. apply andb_true_iff in E as [Ev _]. split; [by destruct (default [] _)|].
  to_prop. rewrite compareSemver_precedence in *. by destruct (precedence _ _).
Qed.

(** The marketplace list shows every entry of the catalog once and in its order,
    then every other installed script once, and nothing else: an id is listed as not
    installed, exactly when no script of that name is on disk.  An update is offered
    only over a known installed version that precedes the entry's. *)
Theorem merge_reflects_disk text files versions cur :
  let c := parseCatalog text in let out := merge c files versions cur in
  map me_entry (take (length (cg_entries c)) out) = cg_entries c /\
  NoDup (map (fun m => ce_id (me_entry m)) out) /\
  (forall id, id ∈ map (fun m => ce_id (me_entry m)) out <-> id ∈ map ce_id (cg_entries c) \/ id ∈ installed_ids files) /\
  (forall m, m ∈ out -> (me_state m = NotInstalled <-> ce_id (me_entry m) ∉ installed_ids files) /\
     (me_state m = Local <-> ce_id (me_entry m) ∉ map ce_id (cg_entries c)) /\
     (me_state m = UpdateAvailable -> me_installedVersion m <> [] /\ compareSemver (me_installedVersion m) (ce_version (me_entry m)) = -1)).
Proof.
  cbv zeta. pose proof (catalog_keys text) as Hd. set (c := parseCatalog text) in *. unfold merge. cbv zeta. set (vs := fold_left _ _ _). set (ids := installed_ids files).
  set (covered := list_to_set _). set (rest := List.filter _ (elements ids)).
  assert (Hc : forall id, id ∈ covered <-> id ∈ ids /\ id ∈ map ce_id (cg_entries c)).
  { intros id. unfold covered. rewrite elem_of_list_to_set, !list_elem_of_fmap. setoid_rewrite list_elem_of_In. setoid_rewrite filter_In.
    setoid_rewrite bool_decide_eq_true. naive_solver. }
  assert (Hr : forall id, id ∈ rest <-> id ∈ ids /\ id ∉ map ce_id (cg_entries c)).
  { intros id. unfold rest. rewrite list_elem_of_In, filter_In, <- list_elem_of_In, elem_of_elements, negb_true_iff, bool_decide_eq_false, Hc. tauto. }
  assert (Ek : map (fun m => ce_id (me_entry m)) (map (merge_entry ids vs cur) (cg_entries c) ++ map (local_entry vs) rest) = map ce_id (cg_entries c) ++ rest).
  { rewrite map_app, !map_map. f_equal; [|apply map_id]. apply map_ext. intros e. by rewrite (proj1 (merge_entry_state ids vs cur e)). }
  refine (conj _ (conj _ (conj _ _))).
  - rewrite take_app_le by (by rewrite length_map). rewrite take_ge by (by rewrite length_map). rewrite map_map. etrans; [|apply map_id].
    apply map_ext. intros e. apply merge_entry_state.
  - rewrite Ek. apply NoDup_app. split; [done|]. split; [intros x Hx Hx'; by apply Hr in Hx' as []|]. unfold rest. apply NoDup_ListNoDup, List.NoDup_filter, NoDup_ListNoDup, NoDup_elements.
  - intros id. rewrite Ek, elem_of_app, Hr. destruct (decide (id ∈ map ce_id (cg_entries c))); tauto.
  - intros m. rewrite elem_of_app, !list_elem_of_fmap. intros [(e & -> & He)|(id & -> & Hi)].
    + destruct (merge_entry_state ids vs cur e) as (-> & H1 & H2 & H3). split; [done|]. split; [|done]. split; [done|]. intros Hn. destruct Hn. by exists e.
    + apply Hr in Hi as [H1 H2]. split; [by split|]. split; [|done]. split; [|done]. intros _. by rewrite <- list_elem_of_fmap.
Qed.
End Market.

(** ** A concrete instance and witnesses *)

(** User information is not split off; the version directive is the first line. *)
Definition version_start : qstr := lit "// nullock-version ".
Definition sampleMarket : QtMarket sampleQUrl := Build_QtMarket sampleQUrl sample_parse (fun _ => [])
  (fun s => if starts_with version_start s then (let l := drop (length version_start) s in Some (match index_of 10 l with Some i => take i l | None => l end)) else None)
  (fun _ => lit "illegal value").

Section Examples.
#[local] Existing Instances utf8Text asciiChar asciiLetter sampleDirective treeJson sampleCodecs sampleQUrl sampleMarket.

Definition ex_hash : String.string := "0000000000000000000000000000000000000000000000000000000000000000".
Definition ex_member (k v : String.string) : qstr * json := (lit k, JString (lit v)).
Definition ex_entry_json (id : String.string) : json :=
  JObject [ex_member "id" id; ex_member "sha256" ex_hash; ex_member "url" "https://bikebrainz.github.io/a.js"; ex_member "version" "1.10.0"].
Definition ex_catalog : bytes := json_compact (JObject [(lit "extensions", JArray [ex_entry_json "lens"; ex_entry_json "../up"; ex_entry_json "lens"; ex_entry_json " lens"])]).
Definition ex_entry : CatalogEntry := mkEntry (lit "lens") [] [] (lit "1.10.0") [] [] (lit "https://bikebrainz.github.io/a.js") (lit ex_hash) [] [] [].
Definition ex_market (script : bytes) : Net := fun host port tls req =>
  mkSending (seq_eqb host (lit "bikebrainz.github.io")) OOk [] [] [] (mkResponse (lit "HTTP/1.1") 200 (lit "OK") [] script [] false) None None.
Definition ex_folder : Folder := mkFolder (lit "/ext") (fun f => lit "/ext/" ++ f) [(lit "old.js", lit "x")] true true true (fun _ => true) (fun f => lit "/ext/" ++ f) true.

(** Versions in order: a pre-release below its release, numeric identifiers by value. *)
Example versions_ordered :
  forallb (fun p => compareSemver (lit (fst p)) (lit (snd p)) =? -1)
    [("1.2.3", "1.10.0"); ("1.3.0-rc.1", "v1.3.0"); ("1.0.0-9999999999", "1.0.0-10000000000"); ("1.0.0-2", "1.0.0-alpha"); ("1.0.0-alpha", "1.0.0-alpha.1")]%string = true.
Proof. vm_compute. reflexivity. Qed.

Lemma semver_reference_witness : compareSemver (lit "v1.10.0-rc.02+b1") (lit "1.10.0-rc.10") = -1.
Proof.
  assert (Hrc : ident_text (lit "rc") (Alpha (lit "rc"))).
  { apply other_ident; [repeat (apply Forall_cons; split; [reflexivity|]); constructor|]. exists 114. split; [left|reflexivity]. }
  assert (Hn : forall t, t <> [] -> forallb is_digit t = true -> ident_text t (Num (digits_val 10 t))).
  { intros t Ht Hd. apply numeric_ident; [exact Ht|]. apply List.Forall_forall. intros c Hc. rewrite forallb_forall in Hd. by apply Hd. }
  assert (Hv : names (lit "v1.10.0-rc.02+b1") ([1; 10; 0], Some [Alpha (lit "rc"); Num (digits_val 10 (lit "02"))])).
  { apply (names_version (lit "v") 1 10 0 (lit "-" ++ join (lit ".") [lit "rc"; lit "02"]) _ (lit "+b1")); try (unfold INT_MAX; lia); [by right; left| |].
    - apply some_pre; [discriminate|]. constructor; [exact Hrc|]. constructor; [by apply Hn|constructor].
    - right. exists (lit "b1"). split; [reflexivity|]. repeat (apply Forall_cons; split; [left; reflexivity|]). constructor. }
  assert (Hw : names (lit "1.10.0-rc.10") ([1; 10; 0], Some [Alpha (lit "rc"); Num (digits_val 10 (lit "10"))])).
  { apply (names_version [] 1 10 0 (lit "-" ++ join (lit ".") [lit "rc"; lit "10"]) _ []); try (unfold INT_MAX; lia); [by left| |by left].
    apply some_pre; [discriminate|]. constructor; [exact Hrc|]. constructor; [by apply Hn|constructor]. }
  rewrite (proj1 (semver_reference (QL := utf8Text_laws) (lit "v1.10.0-rc.02+b1") (lit "1.10.0-rc.10") []) _ _ Hv Hw). vm_compute. reflexivity.
Defined.

(** Defect: a core number above the range of an [int] is read as zero. *)
Example big_core_reads_zero : compareSemver (lit "2147483648.0.0") (lit "1.0.0") = -1.
Proof. vm_compute. reflexivity. Qed.

(** Of four entries one climbs and one repeats an id; the last is another id for the
    same file. *)
Example padded_id_shares_file :
  map ce_id (cg_entries (parseCatalog ex_catalog)) = [lit "lens"; lit " lens"] /\
  map (fun e => safeScriptFileName (ce_id e)) (cg_entries (parseCatalog ex_catalog)) = [lit "lens.js"; lit "lens.js"] /\
  map me_state (merge (parseCatalog ex_catalog) [lit "lens.js"] [] []) = [Installed; NotInstalled].
Proof. split_and!; vm_compute; reflexivity. Qed.

Definition ex_installed := install (ex_market (ex_grant "observe" "r2")) ex_entry false ex_folder.
Definition ex_refused := install (ex_market (ex_grant "modify-requests" "q1")) ex_entry false ex_folder.

(** A script that asks to rewrite requests needs the user; this one does not. *)
Lemma install_safe_witness :
  fst ex_refused = ex_folder /\
  exists body, fo_files (fst ex_installed) = [(lit "lens.js", body); (lit "old.js", lit "x")] /\ body <> [] /\
    forall cap, requiresGrant cap = true -> ~ declared_in [(lit "lens.js", Some body)] ∅ cap.
Proof.
  split.
  - destruct (install_safe (QL := utf8Text_laws) _ (ex_market []) ex_entry false ex_folder _ _ (surjective_pairing ex_refused)) as (_ & H & _).
    apply H. vm_compute. reflexivity.
  - destruct (install_safe (QL := utf8Text_laws) _ (ex_market []) ex_entry false ex_folder _ _ (surjective_pairing ex_installed)) as (_ & _ & H).
    destruct H as (file & body & Hd & Hf & _ & _ & _ & Hb & _ & _ & Hn); [vm_compute; reflexivity|].
    exists body. rewrite Hd. cbn [with_files fo_files]. assert (Ef : file = lit "lens.js") by (rewrite Hf; vm_compute; reflexivity).
    rewrite Ef in *. split; [reflexivity|]. split; [exact Hb|].
    intros cap Hc Hdec. destruct (Hn eq_refl [] ∅ cap Hc Hdec) as (name & content & Hin & _). by apply not_elem_of_nil in Hin.
Defined.

Lemma uninstall_undoes_install_witness :
  snd (uninstall (lit "lens") (fst ex_installed)) = (true, []) /\ forall g, qm_get g (fo_files (fst (uninstall (lit "lens") (fst ex_installed)))) = qm_get g (fo_files ex_folder).
Proof.
  split; [vm_compute; reflexivity|].
  assert (Hs : qm_sorted (fo_files ex_folder)) by (split; [constructor|exact I]).
  assert (Hok : in_ok (snd ex_installed) = true) by (vm_compute; reflexivity).
  assert (Hn : qm_get (safeScriptFileName (ce_id ex_entry)) (fo_files ex_folder) = None) by (vm_compute; reflexivity).
  destruct (uninstall_undoes_install _ ex_entry false ex_folder _ _ Hs (surjective_pairing ex_installed) Hok Hn) as [_ H].
  assert (Hu : fst (snd (uninstall (lit "lens") (fst ex_installed))) = true) by (vm_compute; reflexivity).
  destruct (uninstall (lit "lens") (fst ex_installed)) as [d2 [ok e]] eqn:E. cbn [fst snd] in Hu |- *. destruct (H d2 ok e E) as [_ H']. by apply H'.
Defined.
End Examples.
