(* ===== verification/Templates.v ===== *)
(** * Detection templates: Src/Core/Networking

    template_engine_logic.cpp, the matchers and extractors over a response, and
    template_request_logic.cpp, the requests a template builds: payload combinations,
    substitution, assembly.  Both start from the template's JSON object. *)

From Stdlib Require Import SpecFloat.
From S2P Require Import Prelude Qt QtSample QMap Json JsonSample HttpFraming ChainRunner SessionRules Utf8 Transcode Intruder IntruderRules.

Local Open Scope Z_scope.

(** ** The match engine *)

Definition kMaxScan : Z := 512 * 1024.
Record Matcher := mkMatcher { ma_type : qstr; ma_part : qstr; ma_values : list qstr; ma_condition : qstr; ma_negative : bool }.
Record Extractor := mkExtractor { ex_type : qstr; ex_part : qstr; ex_name : qstr; ex_values : list qstr }.
Record Template := mkTemplate {
  tl_id : qstr; tl_name : qstr; tl_severity : qstr; tl_matchersCondition : qstr; tl_matchers : list Matcher; tl_extractors : list Extractor
}.
Record Response := mkResp { re_statusCode : Z; re_headersText : qstr; re_body : qstr }.
Record MatchResult := mkResult { mr_matched : bool; mr_extracted : list (qstr * list qstr) }.

Section Engine.
Context {Q : QtText} {R : QtRegex} {J : QtJson} {G : QtGlobal}.

Definition boundedPartText (part : qstr) (r : Response) : qstr :=
  let s := if seq_eqb part (lit "header") then re_headersText r
           else if seq_eqb part (lit "all") then re_headersText r ++ [10] ++ re_body r
           else re_body r in
  if kMaxScan <? zlen s then take (Z.to_nat kMaxScan) s else s.

(** [jsonOne] is [json_leaf] of ChainRunner: the same code. *)
Definition jsonStrings (v : json) : list qstr :=
  match v with
  | JArray l => map json_leaf l
  | JNull | JUndefined | JObject _ => []
  | _ => [json_leaf v]
  end.

Definition matcherValues (o : list (qstr * json)) (type : qstr) : list qstr :=
  let has t k := seq_eqb type (lit t) && contains o (lit k) in
  if contains o (lit "values") then jsonStrings (value o (lit "values"))
  else if has "word"%string "words"%string then jsonStrings (value o (lit "words"))
  else if has "regex"%string "regex"%string then jsonStrings (value o (lit "regex"))
  else if has "regex"%string "patterns"%string then jsonStrings (value o (lit "patterns"))
  else if has "status"%string "status"%string then jsonStrings (value o (lit "status"))
  else [].

(** The values in turn, with early exit. *)
Fixpoint any_value (present : qstr -> bool) (wantAll : bool) (values : list qstr) : bool :=
  match values with
  | [] => wantAll
  | w :: rest =>
      let p := present w in
      if wantAll && negb p then false else if negb wantAll && p then true else any_value present wantAll rest
  end.

Definition matcherHits (m : Matcher) (r : Response) : bool :=
  let wantAll := seq_eqb (u_lower (u_trimmed (ma_condition m))) (lit "and") in
  if seq_eqb (ma_type m) (lit "status") then existsb (fun v => seq_eqb (u_trimmed v) (number 10 (re_statusCode r))) (ma_values m)
  else
    let hay := boundedPartText (ma_part m) r in
    if is_nil (ma_values m) then false
    else if seq_eqb (ma_type m) (lit "word") then any_value (fun w => negb (is_nil w) && contains_sub w hay) wantAll (ma_values m)
    else if seq_eqb (ma_type m) (lit "regex") then any_value (fun pat => rx_valid false pat && rx_match false pat hay) wantAll (ma_values m)
    else false.

(** [v.toString(d)]. *)
Definition toString_or (d : qstr) (v : json) : qstr := match v with JString s => s | _ => d end.

Definition parse_matcher (mo : list (qstr * json)) : Matcher :=
  let type := u_lower (toString (value mo (lit "type"))) in
  mkMatcher type (u_lower (toString_or (lit "body") (value mo (lit "part")))) (matcherValues mo type)
    (u_lower (toString_or (lit "or") (value mo (lit "condition")))) (toBool false (value mo (lit "negative"))).
Definition parse_extractor (eo : list (qstr * json)) : Extractor :=
  mkExtractor (u_lower (toString_or (lit "regex") (value eo (lit "type")))) (u_lower (toString_or (lit "body") (value eo (lit "part"))))
    (toString (value eo (lit "name"))) (if contains eo (lit "regex") then jsonStrings (value eo (lit "regex")) else jsonStrings (value eo (lit "values"))).

Definition parseTemplate (obj : list (qstr * json)) : Template :=
  let mc := toString_or (toString (value obj (lit "matchersCondition"))) (value obj (lit "matchers-condition")) in
  mkTemplate (toString (value obj (lit "id"))) (toString (value obj (lit "name"))) (toString (value obj (lit "severity")))
    (if is_nil mc then lit "and" else u_lower mc)
    (List.filter (fun m => negb (is_nil (ma_type m))) (map (fun mv => parse_matcher (toObject mv)) (toArray (value obj (lit "matchers")))))
    (map (fun ev => parse_extractor (toObject ev)) (toArray (value obj (lit "extractors")))).

(** The matchers in turn, with early exit. *)
Fixpoint run_matchers (wantAll : bool) (ms : list Matcher) (r : Response) : bool :=
  match ms with
  | [] => wantAll
  | m :: rest =>
      let hit := matcherHits m r in
      let hit := if ma_negative m then negb hit else hit in
      if wantAll then (if negb hit then false else run_matchers wantAll rest r) else (if hit then true else run_matchers wantAll rest r)
  end.

Definition kMaxCaptures : Z := 1000.
(** The first group of a match, or the whole of it. *)
Definition capture_text (m : RxMatch) : qstr := match rm_caps m with _ :: g :: _ => g | [g] => g | [] => [] end.
Definition extract (e : Extractor) (hay : qstr) : list qstr :=
  flat_map (fun pat => if negb (rg_valid pat) then [] else map capture_text (take (Z.to_nat kMaxCaptures) (rg_global pat hay))) (ex_values e).
Fixpoint run_extractors (es : list Extractor) (r : Response) (out : list (qstr * list qstr)) : list (qstr * list qstr) :=
  match es with
  | [] => out
  | e :: rest =>
      if negb (seq_eqb (ex_type e) (lit "regex")) || is_nil (ex_name e) then run_extractors rest r out
      else
        let caps := extract e (boundedPartText (ex_part e) r) in
        run_extractors rest r (if is_nil caps then out else qm_insert (ex_name e) caps out)
  end.

Definition evaluate (tpl : Template) (resp : Response) : MatchResult :=
  let wantAll := negb (seq_eqb (tl_matchersCondition tpl) (lit "or")) in
  mkResult (if is_nil (tl_matchers tpl) then false else run_matchers wantAll (tl_matchers tpl) resp) (run_extractors (tl_extractors tpl) resp []).
End Engine.

(** ** The requests *)

Definition kMaxRequests : Z := 10000.
Record RequestSpec := mkSpec { sp_method : qstr; sp_path : qstr; sp_headers : list (qstr * qstr); sp_body : qstr; sp_payloads : list (list qstr); sp_pitchfork : bool }.
Record Vars := mkVars { va_baseUrl : qstr; va_hostname : qstr }.
Record BuiltRequest := mkBuilt { br_bytes : bytes; br_usedPayloads : list qstr }.

Section Build.
Context {Q : QtText}.

Definition stripCrlf (s : qstr) : qstr := remove_chr 10 (remove_chr 13 s).
Definition token (key : qstr) : qstr := lit "{{" ++ key ++ lit "}}".
Definition substitute (text : qstr) (values : list (qstr * qstr)) (sanitize : bool) : qstr :=
  let out := fold_left (fun out kv => replace_all (token (fst kv)) (snd kv) out) values text in
  if sanitize then stripCrlf out else out.

Section Expand.
Variable sets : list (list qstr).
Definition set_len (k : nat) : nat := length (nth k sets []).
Definition pick (idx : list nat) : list qstr := map (fun k => nth (nth k idx 0%nat) (nth k sets []) []) (seq 0 (length sets)).
Definition minLen : nat := fold_left (fun n s => Nat.min n (length s)) sets (length (hd [] sets)).
Fixpoint zip_loop (is_ : list nat) (cap : Z) (out : list (list qstr)) : list (list qstr) :=
  match is_ with
  | [] => out
  | i :: rest => if zlen out <? cap then zip_loop rest cap (out ++ [map (fun s => nth i s []) sets]) else out
  end.
(** [None]: out of fuel. *)
Fixpoint product_loop (fuel : nat) (idx : list nat) (cap : Z) (out : list (list qstr)) : option (list (list qstr)) :=
  match fuel with
  | O => None
  | S fuel' =>
      if negb (zlen out <? cap) then Some out
      else
        let out := out ++ [pick idx] in
        match odometer set_len idx (length sets) with None => Some out | Some idx => product_loop fuel' idx cap out end
  end.
Definition expand (pitchfork : bool) (cap : Z) : option (list (list qstr)) :=
  if is_nil sets then Some [[]]
  else if existsb is_nil sets then Some []
  else if pitchfork then Some (zip_loop (seq 0 minLen) cap [])
  else product_loop (S (Z.to_nat cap)) (replicate (length sets) 0%nat) cap [].
End Expand.

Definition request_strings (v : json) : list qstr :=
  match v with JArray l => map toString l | JString s => [s] | _ => [] end.

Definition is_array (v : json) : bool := match v with JArray _ => true | _ => false end.
Definition parseRequest (obj : list (qstr * json)) : RequestSpec :=
  let m := u_trimmed (toString_or (lit "GET") (value obj (lit "method"))) in
  let p := toString_or (lit "/") (value obj (lit "path")) in
  mkSpec (if is_nil m then lit "GET" else m) (if is_nil p then lit "/" else p)
    (match value obj (lit "headers") with
     | JObject ho => map (fun kv => (fst kv, toString (snd kv))) ho
     | JArray l => map (fun e => (toString (value (toObject e) (lit "name")), toString (value (toObject e) (lit "value")))) l
     | _ => []
     end)
    (toString (value obj (lit "body")))
    (match value obj (lit "payloads") with
     | JArray pa => if existsb is_array pa then map request_strings pa else [request_strings (JArray pa)]
     | _ => []
     end)
    (seq_eqb (u_lower (toString (value obj (lit "attack")))) (lit "pitchfork")).

(** The substitution table of one combination. *)
Definition table (vars : Vars) (combo : list qstr) : list (qstr * qstr) :=
  [(lit "BaseURL", va_baseUrl vars); (lit "Hostname", va_hostname vars)]
  ++ match combo with
     | [] => []
     | c :: _ => (lit "payload", c) :: imap (fun i v => (lit "payload" ++ number 10 (Z.of_nat i + 1), v)) combo
     end.

Definition field (name value : qstr) : bytes := u_toutf8 name ++ lit ": " ++ u_toutf8 value ++ CRLF.
(** The headers of the template as they go out, the nameless ones left out. *)
Definition template_headers (spec : RequestSpec) (vals : list (qstr * qstr)) : list (qstr * qstr) :=
  List.filter (fun h => negb (is_nil (fst h))) (map (fun h => (substitute (fst h) vals true, substitute (snd h) vals true)) (sp_headers spec)).
Definition buildRequest (spec : RequestSpec) (vars : Vars) (combo : list qstr) : BuiltRequest :=
  let vals := table vars combo in
  let method := substitute (sp_method spec) vals true in
  let path := substitute (sp_path spec) vals true in
  let body := u_toutf8 (substitute (sp_body spec) vals false) in
  let hs := template_headers spec vals in
  let emitted (n : String.string) := bool_decide (lit n ∈ map (fun h => u_lower (fst h)) hs) in
  mkBuilt
    (u_toutf8 method ++ lit " " ++ u_toutf8 path ++ lit " HTTP/1.1" ++ CRLF
     ++ (if negb (emitted "host"%string) && negb (is_nil (va_hostname vars)) then lit "Host: " ++ u_toutf8 (stripCrlf (va_hostname vars)) ++ CRLF else [])
     ++ flat_map (fun h => field (fst h) (snd h)) hs
     ++ (if negb (is_nil body) && negb (emitted "content-length"%string) && negb (emitted "transfer-encoding"%string) then
           lit "Content-Length: " ++ number 10 (zlen body) ++ CRLF else [])
     ++ (if negb (emitted "connection"%string) then lit "Connection: close" ++ CRLF else [])
     ++ CRLF ++ body)
    combo.
Definition buildRequests (spec : RequestSpec) (vars : Vars) : option (list BuiltRequest) :=
  map (buildRequest spec vars) <$> expand (sp_payloads spec) (sp_pitchfork spec) kMaxRequests.

(** ** Lemmas: combinations *)

Section Expansion.
Variable sets : list (list qstr).

(** Index by index up to the shortest set. *)
Definition zipped : list (list qstr) := map (fun i => map (fun s => nth i s []) sets) (seq 0 (minLen sets)).
(** All the combinations the mode has, in order. *)
Definition combinations (pitchfork : bool) : list (list qstr) :=
  if is_nil sets then [[]] else if existsb is_nil sets then [] else if pitchfork then zipped else product sets.

Lemma zip_loop_spec is_ cap out : 0 <= cap -> zlen out <= cap ->
  zip_loop sets is_ cap out = take (Z.to_nat cap) (out ++ map (fun i => map (fun s => nth i s []) sets) is_).
Proof.
  intros Hc. revert out. induction is_ as [|i rest IH]; intros out Hl; cbn [zip_loop map].
  - rewrite app_nil_r, take_ge; [done|]. unfold zlen in Hl. lia.
  - destruct (zlen out <? cap) eqn:E; to_prop.
    + rewrite IH by (autorewrite with nlsize; lia). by rewrite <- app_assoc.
    + rewrite take_app_le by (unfold zlen in *; lia). rewrite take_ge; [done|]. unfold zlen in Hl. lia.
Qed.

Hypothesis Hne : Forall (fun s => s <> []) sets.

Lemma pick_zip ix : length ix = length sets -> pick sets ix = zip_with (fun s i => nth i s []) sets ix.
Proof using.
  intros Hl. unfold pick. apply list_eq. intros k. rewrite lookup_zip_with. destruct (decide (k < length sets)%nat) as [Hk|Hk].
  - rewrite (list_lookup_fmap _ (seq 0 (length sets))), lookup_seq_lt by done. cbn [fmap option_fmap option_map Nat.add].
    destruct (lookup_lt_is_Some_2 ix k) as [i Hi]; [lia|]. destruct (lookup_lt_is_Some_2 sets k) as [s Hs]; [done|].
    rewrite Hi, Hs. cbn. by rewrite (nth_lookup_Some _ _ _ _ Hi), (nth_lookup_Some _ _ _ _ Hs).
  - rewrite (list_lookup_fmap _ (seq 0 (length sets))), lookup_seq_ge by lia. rewrite (lookup_ge_None_2 sets) by lia. done.
Qed.

Lemma set_lens : map (set_len sets) (seq 0 (length sets)) = map length sets.
Proof using.
  apply list_eq. intros k. rewrite !(list_lookup_fmap). unfold set_len. destruct (decide (k < length sets)%nat) as [Hk|Hk].
  - rewrite lookup_seq_lt by done. cbn. destruct (lookup_lt_is_Some_2 sets k) as [s Hs]; [done|]. by rewrite Hs, (nth_lookup_Some _ _ _ _ Hs).
  - rewrite lookup_seq_ge by lia. by rewrite (lookup_ge_None_2 sets) by lia.
Qed.

Lemma product_loop_spec cap fuel : forall ix, let r := rank (map length sets) ix in
  digits (map length sets) ix -> Z.of_nat r <= cap -> cap < Z.of_nat (fuel + r) ->
  product_loop sets fuel ix cap (take r (product sets)) = Some (take (Z.to_nat cap) (product sets)).
Proof.
  induction fuel as [|fuel IH]; intros ix r Hd Hr Hf; [lia|]. cbn [product_loop].
  assert (HP : length (product sets) = size (map length sets)) by by apply length_product.
  pose proof (rank_lt _ _ Hd) as Hlt. fold r in Hlt.
  assert (Hz : zlen (take r (product sets)) = Z.of_nat r) by (unfold zlen; rewrite length_take; lia). rewrite Hz.
  destruct (Z.of_nat r <? cap) eqn:E; to_prop; cbn [negb]; [|do 2 f_equal; lia].
  assert (Hix : length ix = length sets) by (apply Forall2_length in Hd; by rewrite length_map in Hd).
  assert (Hlook : product sets !! r = Some (pick sets ix)) by (rewrite pick_zip by done; by apply product_lookup).
  assert (Hnext : take r (product sets) ++ [pick sets ix] = take (S r) (product sets)) by (symmetry; by apply take_S_r).
  rewrite Hnext. pose proof (odometer_tick (set_len sets) (length sets) ix [] Hix) as Ho. rewrite app_nil_r, set_lens in Ho. rewrite Ho.
  pose proof (tick_spec _ _ Hd) as Ht. destruct (tick (map length sets) ix) as [[] ix'].
  - destruct Ht as (_ & Hs & _). fold r in Hs. by rewrite !take_ge by lia.
  - destruct Ht as (Hd' & Hs). fold r in Hs. rewrite app_nil_r. specialize (IH ix'). cbv zeta in IH. rewrite Hs in IH. apply IH; [done|lia|lia].
Qed.
End Expansion.

Lemma no_empty_set sets : existsb is_nil sets = false -> Forall (fun s : list qstr => s <> []) sets.
Proof.
  intros H. apply Forall_forall. intros s Hs ->. apply not_true_iff_false in H. apply H, existsb_exists. exists []. by rewrite <- list_elem_of_In.
Qed.

Lemma expand_eq sets pitchfork cap : 0 < cap -> expand sets pitchfork cap = Some (take (Z.to_nat cap) (combinations sets pitchfork)).
Proof.
  intros Hc. unfold expand, combinations. destruct (is_nil sets); [f_equal; symmetry; apply take_ge; cbn; lia|].
  destruct (existsb is_nil sets) eqn:E; [by rewrite take_nil|]. destruct pitchfork.
  - rewrite zip_loop_spec by (autorewrite with nlsize; lia). done.
  - apply no_empty_set in E. pose proof (product_loop_spec sets E cap (S (Z.to_nat cap)) (replicate (length sets) 0%nat)) as H. cbv zeta in H.
    assert (Hr : replicate (length sets) 0%nat = replicate (length (map length sets)) 0%nat) by (by rewrite length_map).
    rewrite Hr, rank_zero in H. rewrite Hr. cbn [take] in H. apply H; [apply digits_zero|lia|lia].
Qed.

(** A template sends one request for each combination of its payloads, in order,
    up to 10000: all the combinations with the last set fastest, or index by index up
    to the shortest set; one request without payload sets, none with an empty one. *)
Theorem build_enumerates spec vars :
  buildRequests spec vars = Some (map (buildRequest spec vars) (take (Z.to_nat kMaxRequests) (combinations (sp_payloads spec) (sp_pitchfork spec)))).
Proof. unfold buildRequests. by rewrite expand_eq. Qed.

(** ** Lemmas: what a built request is *)

Lemma remove_chr_not c s : c ∉ remove_chr c s.
Proof. unfold remove_chr. intros Hin. apply list_elem_of_In, filter_In in Hin as [_ Hin]. by rewrite Z.eqb_refl in Hin. Qed.
Lemma remove_chr_incl c s x : x ∈ remove_chr c s -> x ∈ s.
Proof. unfold remove_chr. intros Hin. apply list_elem_of_In, filter_In in Hin as [Hin _]. by apply list_elem_of_In. Qed.

(** No line break. *)
Definition one_line (s : list Z) : Prop := 13 ∉ s /\ 10 ∉ s.
Lemma strip_one_line s : one_line (stripCrlf s).
Proof. unfold stripCrlf. split; [|apply remove_chr_not]. intros Hin. apply remove_chr_incl in Hin. by apply (remove_chr_not 13 s). Qed.
Lemma substitute_one_line text vals : one_line (substitute text vals true).
Proof. apply strip_one_line. Qed.

Lemma one_line_app a b : one_line a -> one_line b -> one_line (a ++ b).
Proof. unfold one_line. rewrite !not_elem_of_app. tauto. Qed.

Definition has_name (n : String.string) (hs : list (qstr * qstr)) : bool := bool_decide (lit n ∈ map (fun h => u_lower (fst h)) hs).

(** The headers of a built request, in order, and its body. *)
Definition request_body (spec : RequestSpec) (vars : Vars) (combo : list qstr) : bytes := u_toutf8 (substitute (sp_body spec) (table vars combo) false).
Definition all_headers (spec : RequestSpec) (vars : Vars) (combo : list qstr) : list (qstr * qstr) :=
  let hs := template_headers spec (table vars combo) in
  let body := request_body spec vars combo in
  (if negb (has_name "host" hs) && negb (is_nil (va_hostname vars)) then [(lit "Host", stripCrlf (va_hostname vars))] else [])
  ++ hs
  ++ (if negb (is_nil body) && negb (has_name "content-length" hs) && negb (has_name "transfer-encoding" hs) then [(lit "Content-Length", number 10 (zlen body))] else [])
  ++ (if negb (has_name "connection" hs) then [(lit "Connection", lit "close")] else []).
Definition first_line (spec : RequestSpec) (vars : Vars) (combo : list qstr) : bytes :=
  u_toutf8 (substitute (sp_method spec) (table vars combo) true) ++ lit " " ++ u_toutf8 (substitute (sp_path spec) (table vars combo) true) ++ lit " HTTP/1.1".
End Build.

Section Requests.
Context {Q : QtText} {QL : QtTextLaws Q} {QU : QtUtf8 Q}.

Lemma number_ascii n : 0 <= n -> all_ascii (number 10 n) = true.
Proof.
  intros Hn. apply forallb_forall. intros c Hc%list_elem_of_In. pose proof (number_alnum 10 n ltac:(lia) Hn) as Ha. rewrite Forall_forall in Ha.
  specialize (Ha c Hc). unfold is_alnum, is_ascii, is_digit in *. to_prop. destruct (0 <=? c) eqn:E1, (c <? 128) eqn:E2; [done|..]; exfalso; to_prop;
    repeat (apply orb_true_iff in Ha as [Ha|Ha]); to_prop; lia.
Qed.

(** A header as the octets of its name and value. *)
Definition wire (h : qstr * qstr) : bytes * bytes := (u_toutf8 (fst h), u_toutf8 (snd h)).

Lemma build_bytes spec vars combo :
  br_bytes (buildRequest spec vars combo) =
    first_line spec vars combo ++ CRLF ++ flat_map header_line (map wire (all_headers spec vars combo)) ++ CRLF ++ request_body spec vars combo.
Proof.
  assert (Hw : forall n v, header_line (wire (n, v)) = u_toutf8 n ++ lit ": " ++ u_toutf8 v ++ CRLF)
    by (intros; unfold header_line, wire; cbn [fst snd]; by rewrite !law_tolatin1 by apply law_toutf8_bytes).
  assert (Hs : forall (c : bool) n v n' v', u_toutf8 n = n' -> u_toutf8 v = v' ->
      flat_map header_line (map wire (if c then [(n, v)] else [])) = if c then n' ++ lit ": " ++ v' ++ CRLF else [])
    by (intros [] n v n' v' <- <-; [cbn [map flat_map]; by rewrite Hw, app_nil_r|done]).
  assert (Hf : forall hs, flat_map header_line (map wire hs) = flat_map (fun h => field (fst h) (snd h)) hs)
    by (induction hs as [|[n v] hs IH]; [done|cbn [map flat_map]; by rewrite Hw, IH]).
  unfold buildRequest, first_line, all_headers, request_body, has_name. cbn [br_bytes]. generalize (template_headers spec (table vars combo)). intros hs.
  generalize (u_toutf8 (substitute (sp_body spec) (table vars combo) false)). intros body. generalize (u_toutf8 (substitute (sp_method spec) (table vars combo) true)). intros m.
  generalize (u_toutf8 (substitute (sp_path spec) (table vars combo) true)). intros p. generalize (stripCrlf (va_hostname vars)). intros host.
  rewrite !map_app, !flat_map_app, (Hs _ (lit "Host") host (lit "Host") (u_toutf8 host)), (Hs _ (lit "Content-Length") (number 10 (zlen body)) (lit "Content-Length") (number 10 (zlen body))),
    (Hs _ (lit "Connection") (lit "close") (lit "Connection") (lit "close")), Hf by (done || (apply law_toutf8_ascii; (done || apply number_ascii, zlen_nonneg))).
  rewrite <- !app_assoc. reflexivity.
Qed.

(** A header a reader keeps as it is: an ASCII name of its own, nothing that is trimmed, no
    NUL.  Line breaks are not its matter. *)
Record plain_header (h : qstr * qstr) : Prop := mkPlainHeader {
  ph_ascii : all_ascii (fst h) = true;
  ph_name : fst h <> [];
  ph_colon : 58 ∉ fst h;
  ph_nul : 0 ∉ fst h /\ 0 ∉ u_toutf8 (snd h);
  ph_trim : u_trimmed (fst h) = fst h;
  ph_value : fieldValue (u_toutf8 (snd h)) = u_toutf8 (snd h)
}.
(** One that reads back as it was. *)
Record sent_header (h : qstr * qstr) : Prop := mkSentHeader {
  sh_plain : plain_header h;
  sh_line : one_line (fst h) /\ one_line (snd h)
}.

(** Whatever the values are, no header of a template has a line break. *)
Lemma template_headers_one_line spec vals : Forall (fun h => one_line (fst h) /\ one_line (snd h)) (template_headers spec vals).
Proof.
  apply Forall_forall. intros h Hh. apply list_elem_of_In, filter_In in Hh as [Hh _]. apply in_map_iff in Hh as (h0 & <- & _).
  split; apply substitute_one_line.
Qed.

Lemma toutf8_one_line s : one_line s -> one_line (u_toutf8 s).
Proof. intros [H1 H2]. split; intros Hin; destruct (law_toutf8_low s _ Hin) as [?|?]; try lia; auto. Qed.

Lemma wire_ok h : sent_header h -> field_ok (wire h) /\ nonempty_name (wire h) = true /\ clean_header (wire h) /\ 13 ∉ snd (wire h).
Proof.
  intros [[Ha Hn Hc [Hz1 Hz2] Ht Hv] [Hl1 Hl2]]. apply toutf8_one_line in Hl2 as [Hv1 Hv2]. destruct Hl1 as [Hn1 Hn2].
  pose proof (law_toutf8_ascii (fst h) Ha) as E. unfold wire, clean_header, nonempty_name. cbn [fst snd]. rewrite E.
  assert (Hcb : forall s, 13 ∉ s -> 10 ∉ s -> 0 ∉ s -> hasControlByte s = false).
  { intros s H1 H2 H3. apply not_true_iff_false. intros (c & Hin & Hc')%existsb_exists. apply list_elem_of_In in Hin.
    repeat (apply orb_true_iff in Hc' as [Hc'|Hc']); to_prop; subst; done. }
  split; [constructor; cbn [fst snd]; try done|]; [by rewrite <- E; apply law_toutf8_bytes|apply law_toutf8_bytes|].
  split; [by destruct (fst h)|]. split; [|done]. split; by apply Hcb.
Qed.

Definition named (n : String.string) (h : bytes * bytes) : bool := u_cieq (fst h) (lit n).
Lemma not_named n hs : all_ascii (lit n) = true -> Forall sent_header hs -> bool_decide (map ascii_lower1 (lit n) ∈ map (fun h => u_lower (fst h)) hs) = false ->
  Forall (fun h => named n h = false) (map wire hs).
Proof.
  intros Hn Hp Hd. apply bool_decide_eq_false in Hd. apply Forall_fmap, Forall_forall. intros h Hin. rewrite Forall_forall in Hp. destruct (Hp h Hin) as [[Ha _ _ _ _ _] _].
  unfold named, wire. cbn [compose fst]. rewrite law_toutf8_ascii, law_cieq_ascii by done. apply not_true_iff_false. intros Heq%seq_eqb_eq. apply Hd.
  apply list_elem_of_In, in_map_iff. exists h. split; [by rewrite law_lower_ascii|by apply list_elem_of_In].
Qed.

Lemma findHeader_skip n l r : Forall (fun h => named n h = false) l -> findHeader (l ++ r) (lit n) = findHeader r (lit n).
Proof. unfold named. induction 1 as [|h l Hh _ IH]; [done|]. cbn [app findHeader]. by rewrite Hh. Qed.

Lemma cl_elements_app l r : cl_elements (l ++ r) = cl_elements l ++ cl_elements r.
Proof. unfold cl_elements. apply flat_map_app. Qed.
Lemma cl_elements_skip l : Forall (fun h => named "Content-Length" h = false) l -> cl_elements l = [].
Proof.
  induction 1 as [|h l Hh _ IH]; [done|]. unfold cl_elements in *. cbn [flat_map]. rewrite IH. unfold isCL. unfold named in Hh. rewrite Hh. by rewrite andb_false_r.
Qed.
End Requests.

Lemma wire_all `{QtTextLaws} `{!QtUtf8 Q} l : Forall sent_header l ->
  Forall field_ok (map wire l) /\ Forall (fun h => 13 ∉ snd h) (map wire l) /\ Forall clean_header (map wire l) /\ List.filter nonempty_name (map wire l) = map wire l.
Proof.
  induction 1 as [|h l Hh _ IH]; [by repeat split|]. destruct IH as (I1 & I2 & I3 & I4). destruct (wire_ok h Hh) as (J1 & J2 & J3 & J4).
  cbn [map List.filter]. rewrite J2, I4. by repeat split; try constructor.
Qed.

Section Served.
Context {Q : QtText} {QL : QtTextLaws Q} {QU : QtUtf8 Q}.
Variables (spec : RequestSpec) (vars : Vars) (combo : list qstr).
Let hs := template_headers spec (table vars combo).
Let body := request_body spec vars combo.
Hypothesis Hplain : Forall plain_header hs.
Hypothesis Hcl : has_name "content-length" hs = false.
Hypothesis Hte : has_name "transfer-encoding" hs = false.
Hypothesis Hlen : zlen body <= kMaxBody.
Hypothesis Hhost : plain_header (lit "Host", stripCrlf (va_hostname vars)).

Lemma hs_sent : Forall sent_header hs.
Proof using Hplain.
  apply Forall_forall. intros h Hh. pose proof (template_headers_one_line spec (table vars combo)) as Hl. fold hs in Hl.
  rewrite Forall_forall in Hl. rewrite Forall_forall in Hplain. by constructor; [apply Hplain|apply Hl].
Qed.

Lemma auto_header n v : all_ascii (lit n) = true -> lit n <> [] -> bool_decide (58 ∈ lit n) = false -> bool_decide (0 ∈ lit n) = false ->
  b_trimmed (lit n) = lit n -> bool_decide (13 ∈ lit n) = false -> bool_decide (10 ∈ lit n) = false ->
  all_ascii v = true -> fieldValue v = v -> 0 ∉ v -> one_line v -> sent_header (lit n, v).
Proof using QL.
  intros Ha Hn H1%bool_decide_eq_false_1 H2%bool_decide_eq_false_1 Ht H3%bool_decide_eq_false_1 H4%bool_decide_eq_false_1 Hv Hf Hz Hl.
  constructor; [constructor|]; cbn [fst snd]; rewrite ?(law_toutf8_ascii v), ?u_trimmed_ascii by done; done.
Qed.

Let cl_field : list (qstr * qstr) := if is_nil body then [] else [(lit "Content-Length", number 10 (zlen body))].
Let host_field : list (qstr * qstr) := if negb (has_name "host" hs) && negb (is_nil (va_hostname vars)) then [(lit "Host", stripCrlf (va_hostname vars))] else [].
Let conn_field : list (qstr * qstr) := if negb (has_name "connection" hs) then [(lit "Connection", lit "close")] else [].

Lemma all_headers_eq : all_headers spec vars combo = host_field ++ hs ++ cl_field ++ conn_field.
Proof using Hcl Hte.
  unfold all_headers, cl_field, host_field, conn_field. fold hs. fold body. rewrite Hcl, Hte. cbn [negb]. rewrite !andb_true_r. by destruct (is_nil body).
Qed.

Lemma digit_list n : 0 <= n -> Forall (fun c => is_digit c = true) (number 10 n).
Proof using.
  intros Hn. apply Forall_forall. intros c Hc. pose proof (number_digits 10 n ltac:(lia) Hn) as Hd. rewrite forallb_forall in Hd.
  specialize (Hd c). rewrite <- list_elem_of_In in Hd. specialize (Hd Hc). to_prop. unfold digit_val in Hd. destruct (is_digit c); [done|].
  exfalso. destruct ((97 <=? c) && _) eqn:E1; [split_bools; to_prop; lia|]. destruct ((65 <=? c) && _) eqn:E2; split_bools; to_prop; lia.
Qed.

Lemma cl_field_plain : Forall sent_header cl_field.
Proof using QL.
  unfold cl_field. destruct (is_nil body); [constructor|]. constructor; [|constructor].
  pose proof (digit_list (zlen body) (zlen_nonneg _)) as Hd. rewrite Forall_forall in Hd.
  assert (Hno : forall c, is_digit c = false -> c ∉ number 10 (zlen body)) by (intros c Hc Hin; rewrite Hd in Hc by done; done).
  apply auto_header; try reflexivity; try done.
  - apply number_ascii, zlen_nonneg.
  - apply trim_by_id, Forall_forall. intros c Hc. specialize (Hd c Hc). unfold is_ows. unfold is_digit in Hd. to_prop. by zdecides.
  - by apply Hno.
  - split; by apply Hno.
Qed.

Lemma conn_field_plain : Forall sent_header conn_field.
Proof using QL.
  unfold conn_field. destruct (negb (has_name "connection" hs)); [|constructor]. constructor; [|constructor].
  apply auto_header; try reflexivity; try done; try (split); refine (bool_decide_eq_false_1 _ _); reflexivity.
Qed.

Lemma all_plain : Forall sent_header (all_headers spec vars combo).
Proof using All.
  rewrite all_headers_eq. repeat (apply Forall_app; split); [|exact hs_sent|apply cl_field_plain|apply conn_field_plain].
  unfold host_field. destruct (_ && _); [|constructor]. constructor; [|constructor]. constructor; [exact Hhost|].
  split; [split; refine (bool_decide_eq_false_1 _ _); reflexivity|apply strip_one_line].
Qed.

Lemma none_named (n : String.string) l : (forall h : qstr * qstr, h ∈ l -> all_ascii (fst h) = true) -> all_ascii (lit n) = true ->
  existsb (fun h => seq_eqb (map ascii_lower1 (fst h)) (map ascii_lower1 (lit n))) l = false -> Forall (fun h => named n h = false) (map wire l).
Proof using QL.
  intros Ha Hn He. apply Forall_fmap, Forall_forall. intros h Hin. unfold named, wire. cbn [compose fst].
  rewrite law_toutf8_ascii, law_cieq_ascii by auto. apply not_true_iff_false. intros Heq. apply not_true_iff_false in He. apply He, existsb_exists.
  exists h. by rewrite <- list_elem_of_In.
Qed.

Lemma template_named n : all_ascii (lit n) = true -> bool_decide (map ascii_lower1 (lit n) ∈ map (fun h => u_lower (fst h)) hs) = false ->
  existsb (fun h => seq_eqb (map ascii_lower1 (fst h)) (map ascii_lower1 (lit n))) (host_field ++ conn_field) = false ->
  Forall (fun h => named n h = false) (map wire (host_field ++ hs)) /\ Forall (fun h => named n h = false) (map wire conn_field).
Proof using Hplain QL.
  intros Hn Hd He. rewrite existsb_app in He. apply orb_false_iff in He as [He1 He2]. rewrite map_app. split; [apply Forall_app; split|].
  - apply none_named; [|done|done]. unfold host_field. destruct (_ && _); [|by intros h Hh; apply not_elem_of_nil in Hh]. intros h Hh. apply list_elem_of_singleton in Hh as ->. done.
  - apply not_named; [done|exact hs_sent|done].
  - apply none_named; [|done|done]. unfold conn_field. destruct (negb (has_name "connection" hs)); [|by intros h Hh; apply not_elem_of_nil in Hh]. intros h Hh. apply list_elem_of_singleton in Hh as ->. done.
Qed.

Lemma cl_elements_own n : 0 <= n -> cl_elements [(lit "Content-Length", number 10 n)] = [number 10 n].
Proof using QL.
  intros Hn. pose proof (number_alnum 10 n ltac:(lia) ltac:(lia)) as Hal. rewrite Forall_forall in Hal.
  assert (Hc : 44 ∉ number 10 n) by (intros Hi; by specialize (Hal _ Hi)).
  pose proof (number_not_nil 10 n Hn) as Hne. unfold cl_elements, isCL, isTE. cbn [flat_map fst snd]. rewrite !law_cieq_ascii by done.
  change (negb _ && _) with true. cbv iota. rewrite app_nil_r. unfold split_skip. rewrite split_on_no by done. cbn [List.filter].
  destruct (is_nil (number 10 n)) eqn:E; [by apply is_nil_true in E|]. cbn [negb List.filter map]. f_equal.
  apply trim_by_id, Forall_forall. intros c Hcin. specialize (Hal c Hcin). unfold is_alnum in Hal.
  rewrite law_space_ascii; unfold is_ascii, b_space; split_bools; to_prop; by zdecides.
Qed.

Lemma cl_own : Forall valid_cl (cl_elements (map wire cl_field)) /\ forall v w, v ∈ cl_elements (map wire cl_field) -> w ∈ cl_elements (map wire cl_field) -> v = w.
Proof using QL Hlen.
  unfold cl_field. destruct (is_nil body); [by split; [constructor|intros v w Hv; by apply not_elem_of_nil in Hv]|].
  pose proof (zlen_nonneg body). unfold wire. cbn [map fst snd]. rewrite !law_toutf8_ascii, cl_elements_own by (done || by apply number_ascii). split.
  - constructor; [|constructor]. split; [by apply number_not_nil|]. exists (zlen body). rewrite tolonglong_number by (unfold kMaxBody, I64_MAX in *; lia). done.
  - intros v w Hv%list_elem_of_singleton Hw%list_elem_of_singleton. congruence.
Qed.

(** The framing of the message: a Content-Length of its own when there is a body. *)
Lemma framing_facts :
  isFramingSafe (map wire (all_headers spec vars combo)) true = true /\
  findHeader (map wire (all_headers spec vars combo)) (lit "Content-Length") = if is_nil body then [] else number 10 (zlen body).
Proof using All.
  assert (Hx : forall n : String.string, existsb (fun h => seq_eqb (map ascii_lower1 (fst h)) (map ascii_lower1 (lit n))) [(lit "Host", @nil Z); (lit "Connection", @nil Z)] = false ->
    existsb (fun h => seq_eqb (map ascii_lower1 (fst h)) (map ascii_lower1 (lit n))) (host_field ++ conn_field) = false).
  { intros n Hn. cbn [existsb fst] in Hn. rewrite existsb_app. unfold host_field, conn_field. apply orb_false_iff in Hn as [H1 H2]. apply orb_false_iff in H2 as [H2 _].
    destruct (negb (has_name "host" hs) && _), (negb (has_name "connection" hs)); cbn [existsb fst]; by rewrite ?H1, ?H2. }
  destruct (template_named "Content-Length" eq_refl Hcl (Hx "Content-Length"%string eq_refl)) as [C1 C2].
  destruct (template_named "Transfer-Encoding" eq_refl Hte (Hx "Transfer-Encoding"%string eq_refl)) as [T1 T2].
  assert (Tc : Forall (fun h => named "Transfer-Encoding" h = false) (map wire cl_field)).
  { unfold cl_field. destruct (is_nil body); [constructor|]. apply none_named; [|done|reflexivity]. intros h Hh. by apply list_elem_of_singleton in Hh as ->. }
  rewrite all_headers_eq, app_assoc, (map_app wire (host_field ++ hs)), (map_app wire cl_field). split.
  - apply framing_safe_iff. split; [|split; [|split; [|split]]].
    + pose proof all_plain as Hall. rewrite all_headers_eq, app_assoc in Hall. rewrite <- !map_app. apply Forall_fmap. eapply Forall_impl; [exact Hall|]. intros h Hh. by apply wire_ok.
    + intros h Hin Hi. exfalso. assert (HT : Forall (fun h => named "Transfer-Encoding" h = false) (map wire (host_field ++ hs) ++ map wire cl_field ++ map wire conn_field)) by (repeat (apply Forall_app; split); done).
      rewrite List.Forall_forall in HT. specialize (HT h Hin). unfold named in HT. unfold isTE in Hi. congruence.
    + rewrite !cl_elements_app, (cl_elements_skip (map wire (host_field ++ hs))), (cl_elements_skip (map wire conn_field)), app_nil_r by done. cbn [app]. apply cl_own.
    + rewrite !cl_elements_app, (cl_elements_skip (map wire (host_field ++ hs))), (cl_elements_skip (map wire conn_field)), app_nil_r by done. cbn [app]. apply cl_own.
    + intros He. exfalso. apply existsb_exists in He as (h & Hin & Hi).
      assert (HT : Forall (fun h => named "Transfer-Encoding" h = false) (map wire (host_field ++ hs) ++ map wire cl_field ++ map wire conn_field)) by (repeat (apply Forall_app; split); done).
      rewrite List.Forall_forall in HT. specialize (HT h Hin). unfold named in HT. unfold isTE in Hi. congruence.
  - rewrite findHeader_skip by done. unfold cl_field. destruct (is_nil body); cbn [map app].
    + rewrite <- (app_nil_r (map wire conn_field)), findHeader_skip by done. done.
    + unfold wire. cbn [fst snd findHeader]. rewrite !law_toutf8_ascii by (done || apply number_ascii, zlen_nonneg). rewrite law_cieq_ascii by done. done.
Qed.

(** C18. What a template sends is one message, and no payload, variable or template text adds
    a line to it.  The conditions are on what a reader would take differently, not on
    line breaks: the substituted method and path have no blank, the method is not
    CONNECT, the host and every substituted header keep an ASCII name without a colon and
    values without NUL or outer blanks, no header of the template is named Content-Length
    or Transfer-Encoding, and the body is within the proxy's cap.  Then a reader with the
    proxy's rules finds in the bytes exactly the request line, the headers -- the
    template's, with Host, Content-Length and Connection supplied where they are
    missing -- and the body, and nothing after it.  A name with a trailing blank is outside
    ([trailing_space_duplicates_length]). *)
Theorem template_request_read :
  let m := u_toutf8 (substitute (sp_method spec) (table vars combo) true) in
  let p := u_toutf8 (substitute (sp_path spec) (table vars combo) true) in
  32 ∉ m -> 32 ∉ p -> u_cieq m (lit "CONNECT") = false ->
  readRequestFrom [br_bytes (buildRequest spec vars combo)] =
    Some (mkRequest m p (lit "HTTP/1.1") [] 80 false p (map wire (all_headers spec vars combo)) body, []) /\
  Forall (fun h => one_line (fst h) /\ one_line (snd h)) (all_headers spec vars combo).
Proof using All.
  cbv zeta. intros Hm Hp Hc. split; [|eapply Forall_impl; [apply all_plain|]; by intros h [_ ?]].
  pose proof all_plain as Hall. pose proof all_headers_eq as Hae. set (W := map wire (all_headers spec vars combo)).
  pose proof (wire_all _ Hall) as HW. fold W in HW.
  destruct HW as (Hok & H13 & Hcl' & Hne).
  assert (Hl : 10 ∉ first_line spec vars combo).
  { unfold first_line. rewrite !not_elem_of_app. split; [apply toutf8_one_line, substitute_one_line|]. split; [refine (bool_decide_eq_false_1 _ _); reflexivity|].
    split; [apply toutf8_one_line, substitute_one_line|refine (bool_decide_eq_false_1 _ _); reflexivity]. }
  pose proof (build_bytes spec vars combo) as Hout. fold W body in Hout. set (out := br_bytes _) in *.
  destruct (header_section_end W body Hok _ (no_crlf_lf _ Hl)) as (sep & Hi & Ht & Hd). rewrite <- Hout in Hi, Ht, Hd.
  assert (Hblock : readHeaderBlock [] [out] = Some (out, [])).
  { cbn [readHeaderBlock]. change (contains_sub CRLFCRLF []) with false. cbv iota. cbn [app].
    change (kMaxHeaderBytes <? zlen []) with false. cbv iota. unfold contains_sub. by rewrite Hi. }
  destruct (framing_facts) as (Hsafe & Hfind).
  unfold readRequestFrom. rewrite Hblock, Hi. cbn [default from_option id]. rewrite Ht, Hd, reread_line by done.
  assert (Hsp : split_on 32 (first_line spec vars combo) = [u_toutf8 (substitute (sp_method spec) (table vars combo) true); u_toutf8 (substitute (sp_path spec) (table vars combo) true); lit "HTTP/1.1"]).
  { unfold first_line. change (lit " " ++ ?x) with (32 :: x). rewrite split_on_app by done. change (lit " HTTP/1.1") with (32 :: lit "HTTP/1.1").
    rewrite split_on_app by done. rewrite split_on_no; [done|]. refine (bool_decide_eq_false_1 _ _). reflexivity. }
  rewrite Hsp, Hc, parse_section, first_line_fields_none by done. cbn [app]. rewrite Hne. fold W in Hsafe, Hfind. rewrite Hsafe, Hfind. cbn [negb].
  destruct body as [|b0 b1] eqn:Eb; [done|]. cbn [is_nil]. rewrite <- Eb in *.
  destruct (is_nil (number 10 (zlen body))) eqn:En; [by apply is_nil_true, number_not_nil in En; [|apply zlen_nonneg]|].
  unfold readLengthBody. rewrite tolonglong_number by (pose proof (zlen_nonneg body); unfold kMaxBody, I64_MAX in *; lia). cbn [default from_option]. unfold id.
  pose proof (zlen_nonneg body). rewrite (proj2 (Z.ltb_ge _ _)), (proj2 (Z.ltb_ge _ _)), Z.ltb_irrefl by done. cbn [orb]. unfold zlen. by rewrite Nat2Z.id, firstn_all.
Qed.
End Served.

(** ** The verdict *)

Section Verdict.
Context {Q : QtText} {R : QtRegex} {J : QtJson} {G : QtGlobal}.

Lemma any_value_spec present wantAll values :
  any_value present wantAll values = if wantAll then forallb present values else existsb present values.
Proof. induction values as [|w rest IH]; [by destruct wantAll|]. cbn [any_value forallb existsb]. by destruct wantAll, (present w). Qed.

(** Whether a matcher holds: a status by its number; words and patterns by all or any
    of the values, a word being a non-empty substring, an invalid pattern matching
    nothing; no values and unknown types never. *)
Definition holds (m : Matcher) (r : Response) : bool :=
  let quantified p := if seq_eqb (u_lower (u_trimmed (ma_condition m))) (lit "and") then forallb p (ma_values m) else existsb p (ma_values m) in
  let hay := boundedPartText (ma_part m) r in
  if seq_eqb (ma_type m) (lit "status") then existsb (fun v => seq_eqb (u_trimmed v) (number 10 (re_statusCode r))) (ma_values m)
  else negb (is_nil (ma_values m)) &&
    (if seq_eqb (ma_type m) (lit "word") then quantified (fun w => negb (is_nil w) && contains_sub w hay)
     else seq_eqb (ma_type m) (lit "regex") && quantified (fun p => rx_valid false p && rx_match false p hay)).
Definition effective (r : Response) (m : Matcher) : bool := xorb (ma_negative m) (holds m r).

Lemma matcherHits_holds m r : matcherHits m r = holds m r.
Proof.
  unfold matcherHits, holds. destruct (seq_eqb (ma_type m) (lit "status")); [done|]. destruct (is_nil (ma_values m)); [done|]. cbn [negb andb].
  rewrite !any_value_spec. destruct (seq_eqb (ma_type m) (lit "word")); [done|]. by destruct (seq_eqb (ma_type m) (lit "regex")).
Qed.

Lemma run_matchers_spec wantAll ms r : run_matchers wantAll ms r = if wantAll then forallb (effective r) ms else existsb (effective r) ms.
Proof.
  induction ms as [|m ms IH]; [by destruct wantAll|]. cbn [run_matchers forallb existsb]. rewrite IH, matcherHits_holds. change (effective r m) with (xorb (ma_negative m) (holds m r)).
  destruct wantAll, (ma_negative m), (holds m r); done.
Qed.

(** The captures an extractor contributes under a name, if any. *)
Definition contributed (n : qstr) (r : Response) (e : Extractor) : list (list qstr) :=
  let caps := extract e (boundedPartText (ex_part e) r) in
  if seq_eqb (ex_type e) (lit "regex") && negb (is_nil (ex_name e)) && seq_eqb (ex_name e) n && negb (is_nil caps) then [caps] else [].
Lemma run_extractors_spec n es r : forall out, qm_get n (run_extractors es r out) = match last (flat_map (contributed n r) es) with Some c => Some c | None => qm_get n out end.
Proof.
  induction es as [|e es IH]; intros out; [done|]. cbn [run_extractors flat_map]. unfold contributed at 1.
  assert (Hlast : forall (c : list qstr) l, last (c :: l) = match last l with Some d => Some d | None => Some c end).
  { intros c l. revert c. induction l as [|d l IHl]; intros c; [done|]. change (last (c :: d :: l)) with (last (d :: l)). rewrite IHl. by destruct (last l). }
  destruct (seq_eqb (ex_type e) (lit "regex")); cbn [negb orb andb]; [|apply IH]. destruct (is_nil (ex_name e)); cbn [negb andb]; [apply IH|].
  rewrite IH. destruct (is_nil (extract e _)) eqn:En; cbn [negb]; [by rewrite andb_false_r|]. rewrite andb_true_r.
  destruct (seq_eqb (ex_name e) n) eqn:Ee.
  - apply seq_eqb_eq in Ee as ->. rewrite qm_get_insert. cbn [app]. rewrite Hlast. by destruct (last _).
  - cbn [app]. rewrite qm_get_insert_ne; [done|]. intros ->. by rewrite seq_eqb_refl in Ee.
Qed.

(** A template matches a response exactly when it has matchers and all of them (any
    of them, with the condition "or") hold after their negations; whatever the verdict,
    each extracted name has the captures of the last extractor of that name that
    captured something. *)
Theorem evaluate_verdict tpl resp :
  mr_matched (evaluate tpl resp) =
    negb (is_nil (tl_matchers tpl)) &&
    (if seq_eqb (tl_matchersCondition tpl) (lit "or") then existsb (effective resp) (tl_matchers tpl) else forallb (effective resp) (tl_matchers tpl)) /\
  forall n, qm_get n (mr_extracted (evaluate tpl resp)) = last (flat_map (contributed n resp) (tl_extractors tpl)).
Proof.
  unfold evaluate. cbn [mr_matched mr_extracted]. rewrite run_matchers_spec. split.
  - destruct (is_nil (tl_matchers tpl)); [done|]. cbn [negb andb]. by destruct (seq_eqb _ _).
  - intros n. rewrite run_extractors_spec. by destruct (last _).
Qed.

(** A template read from an object never asserts a matcher without a type, and its
    conditions are lower-case words. *)
Lemma parse_typed obj : Forall (fun m => ma_type m <> []) (tl_matchers (parseTemplate obj)).
Proof.
  unfold parseTemplate. cbn [tl_matchers]. apply Forall_forall. intros m Hm. apply list_elem_of_In, filter_In in Hm as [_ Hm]. intros E. by rewrite E in Hm.
Qed.
End Verdict.

(** ** A concrete instance and witnesses *)

Section Examples.
#[local] Existing Instance asciiText.

Definition ex_spec (headers : list (qstr * qstr)) (path body : String.string) (payloads : list (list qstr)) : RequestSpec :=
  mkSpec (lit "POST") (lit path) headers (lit body) payloads false.
Definition ex_vars : Vars := mkVars (lit "https://a.com") (lit "a.com").

(** A payload with line breaks in the path and in a header. *)
Lemma template_request_read_witness :
  let payload := lit "x" ++ [13; 10] ++ lit "Evil: 1" in
  let spec := ex_spec [(lit "X-Id", lit "{{payload}}")] "/q/{{payload2}}" "v={{payload}}" [[payload]; [lit "p"]] in
  exists body,
  readRequestFrom [br_bytes (buildRequest spec ex_vars [payload; lit "p"])] =
    Some (mkRequest (lit "POST") (lit "/q/p") (lit "HTTP/1.1") [] 80 false (lit "/q/p")
      [(lit "Host", lit "a.com"); (lit "X-Id", lit "xEvil: 1"); (lit "Content-Length", lit "12"); (lit "Connection", lit "close")] body, []).
Proof.
  cbv zeta. set (payload := lit "x" ++ [13; 10] ++ lit "Evil: 1").
  set (spec := ex_spec _ _ _ _). exists (request_body spec ex_vars [payload; lit "p"]).
  destruct (template_request_read (QL := asciiText_laws) (QU := asciiText_utf8) spec ex_vars [payload; lit "p"]) as [H _].
  - assert (E : template_headers spec (table ex_vars [payload; lit "p"]) = [(lit "X-Id", lit "xEvil: 1")]) by (vm_compute; reflexivity).
    rewrite E. constructor; [|constructor]. constructor; try (vm_compute; reflexivity); try discriminate;
      repeat split; refine (bool_decide_eq_false_1 _ _); vm_compute; reflexivity.
  - vm_compute. reflexivity.
  - vm_compute. reflexivity.
  - vm_compute. discriminate.
  - constructor; try (vm_compute; reflexivity); try discriminate; repeat split; refine (bool_decide_eq_false_1 _ _); vm_compute; reflexivity.
  - refine (bool_decide_eq_false_1 _ _). vm_compute. reflexivity.
  - refine (bool_decide_eq_false_1 _ _). vm_compute. reflexivity.
  - vm_compute. reflexivity.
  - etrans; [exact H|]. vm_compute. reflexivity.
Defined.

(** Defect: the values of one variable are searched for the next ones, so a payload
    that contains the token of a later payload is expanded again. *)
Example payload_expanded_twice :
  substitute (lit "/{{payload1}}") (table ex_vars [lit "{{payload2}}"; lit "secret"]) true = lit "/secret".
Proof. vm_compute. reflexivity. Qed.

(** Defect: a header name with a space after it does not stop the automatic
    Content-Length, though a reader that trims names sees two of them: the guard of the
    proxy itself refuses the message as ambiguous. *)
Example trailing_space_duplicates_length :
  let hs := all_headers (ex_spec [(lit "Content-Length ", lit "0")] "/" "GET /admin" []) ex_vars [] in
  map fst hs = [lit "Host"; lit "Content-Length "; lit "Content-Length"; lit "Connection"] /\
  isFramingSafe (parseHeaders (lit "POST / HTTP/1.1" ++ flat_map (fun h => CRLF ++ core (wire h)) hs)) true = false.
Proof. split; vm_compute; reflexivity. Qed.
End Examples.
