(* ===== verification/NucleiYaml.v ===== *)
(** * Imported templates: Src/Core/Networking/nuclei_yaml_logic.cpp

    The reader of the YAML subset that the templates of nuclei use -- block maps and
    sequences by indentation, quoted and plain scalars, flow sequences, block scalars --
    and the mapping of a document onto a template object. *)

From S2P Require Import Prelude Qt QtSample QMap Json JsonSample HttpFraming Placeholders ChainRunner SessionRules Utf8 IntruderRules.

Local Open Scope Z_scope.

(** A significant line: its indentation, its trimmed text, its raw line. *)
Record Line := mkLine { ln_indent : Z; ln_text : qstr; ln_rawIdx : Z }.
(** [lines] from index [i] on: the parser never looks back. *)
Record Ctx := mkCtx { cx_lines : list Line; cx_raw : list qstr }.

Section Yaml.
Context {Q : QtText} {G : QtGlobal}.

(** ** Scanning a line *)

(** Where a quote opens: at the beginning or after one of these units. *)
Definition atNodeStart (prev : option Z) : bool :=
  match prev with None => true | Some p => u_space p || (p =? 44) || (p =? 91) || (p =? 123) end.

(** The quote tracking the three scanners share: a doubled apostrophe inside apostrophes,
    the state after a quote or a literal apostrophe, or another unit. *)
Inductive Scanned := Doubled | Quoted (inS inD : bool) | Plain.
Definition scan (prev : option Z) (inS inD : bool) (c : Z) (rest : qstr) : Scanned :=
  if (c =? 39) && negb inD then
    (if inS then (if starts_with_chr 39 rest then Doubled else Quoted false inD) else Quoted (atNodeStart prev) inD)
  else if (c =? 34) && negb inS then Quoted inS (negb inD)
  else Plain.

Definition before_space (prev : option Z) : bool := match prev with None => true | Some p => u_space p end.
Fixpoint strip_loop (prev : option Z) (inS inD : bool) (s : qstr) : qstr :=
  match s with
  | [] => []
  | c :: s' =>
      match scan prev inS inD c s', s' with
      | Doubled, d :: s'' => c :: d :: strip_loop (Some d) inS inD s''
      | Doubled, [] => [c]
      | Quoted inS inD, _ => c :: strip_loop (Some c) inS inD s'
      | Plain, _ => if (c =? 35) && negb inS && negb inD && before_space prev then [] else c :: strip_loop (Some c) inS inD s'
      end
  end.
Definition stripComment (raw : qstr) : qstr := strip_loop None false false raw.

(** The parts between the commas; [cur] is the current one. *)
Fixpoint flow_loop (prev : option Z) (inS inD : bool) (s cur : qstr) : list qstr :=
  match s with
  | [] => [cur]
  | c :: s' =>
      match scan prev inS inD c s', s' with
      | Doubled, d :: s'' => flow_loop (Some d) inS inD s'' (cur ++ [c; d])
      | Doubled, [] => [cur ++ [c]]
      | Quoted inS inD, _ => flow_loop (Some c) inS inD s' (cur ++ [c])
      | Plain, _ => if (c =? 44) && negb inS && negb inD then cur :: flow_loop (Some c) inS inD s' [] else flow_loop (Some c) inS inD s' (cur ++ [c])
      end
  end.
Definition splitFlow (inner : qstr) : list qstr := flow_loop None false false inner [].

Fixpoint colon_loop (prev : option Z) (inS inD : bool) (s : qstr) (i : nat) : option nat :=
  match s with
  | [] => None
  | c :: s' =>
      match scan prev inS inD c s', s' with
      | Doubled, d :: s'' => colon_loop (Some d) inS inD s'' (S (S i))
      | Doubled, [] => None
      | Quoted inS inD, _ => colon_loop (Some c) inS inD s' (S i)
      | Plain, _ =>
          if (c =? 58) && negb inS && negb inD && (is_nil s' || starts_with_chr 32 s') then Some i else colon_loop (Some c) inS inD s' (S i)
      end
  end.
Definition keyColon (s : qstr) : option nat := colon_loop None false false s 0.

Fixpoint indent_of (s : qstr) : Z := match s with c :: s' => if c =? 32 then 1 + indent_of s' else 0 | [] => 0 end.

Definition raw_line (ln0 : qstr) : qstr := let ln := replace_all [9] [32; 32] ln0 in if ends_with_chr 13 ln then chop1 ln else ln.
Definition significant (idx : Z) (ln : qstr) : list Line :=
  let noComment := stripComment ln in
  let trimmed := u_trimmed noComment in
  if is_nil trimmed then [] else if seq_eqb trimmed (lit "---") then [] else [mkLine (indent_of noComment) trimmed idx].
Fixpoint number_lines (idx : Z) (raw : list qstr) : list Line :=
  match raw with [] => [] | ln :: raw' => significant idx ln ++ number_lines (idx + 1) raw' end.
Definition tokenize (yaml : qstr) : Ctx := let raw := map raw_line (split_on 10 yaml) in mkCtx (number_lines 0 raw) raw.

(** ** Scalars *)

Fixpoint unescape (s : qstr) : qstr :=
  match s with
  | [] => []
  | c :: s' =>
      match s' with
      | d :: s'' =>
          if c =? 92 then
            (if d =? 34 then 34 :: unescape s'' else if d =? 92 then 92 :: unescape s'' else if d =? 110 then 10 :: unescape s''
             else if d =? 114 then 13 :: unescape s'' else if d =? 116 then 9 :: unescape s'' else c :: unescape s')
          else c :: unescape s'
      | [] => [c]
      end
  end.
Definition quoted_by (q : Z) (t : qstr) : bool := starts_with_chr q t && ends_with_chr q t.
Definition unquote (s : qstr) : qstr :=
  let t := u_trimmed s in
  if (2 <=? zlen t) && (quoted_by 34 t || quoted_by 39 t) then
    let inner := mid t 1 (length t - 2) in
    if starts_with_chr 39 t then replace_all [39; 39] [39] inner else unescape inner
  else t.

(** [static_cast<double>(n)] of a 64-bit integer, back as an integer: 53 significant
    bits, ties to even. *)
Definition double_of (n : Z) : Z :=
  let m := Z.abs n in
  if m <=? 2 ^ 53 then n
  else
    let k := Z.log2 m - 52 in
    let q := m / 2 ^ k in
    let r := m mod 2 ^ k in
    let half := 2 ^ (k - 1) in
    Z.sgn n * ((if (half <? r) || ((r =? half) && Z.odd q) then q + 1 else q) * 2 ^ k).

Definition scalar (raw : qstr) : json :=
  let t := u_trimmed raw in
  if is_nil t then JNull
  else if starts_with_chr 34 t || starts_with_chr 39 t then JString (unquote t)
  else if seq_eqb t (lit "true") then JBool true
  else if seq_eqb t (lit "false") then JBool false
  else if seq_eqb t (lit "null") || seq_eqb t (lit "~") then JNull
  else match u_tolonglong 10 t with
       | Some n => if seq_eqb (number 10 n) t then JInt (double_of n) else JString t
       | None => JString t
       end.

Definition scalarOrFlow (raw : qstr) : json :=
  let t := u_trimmed raw in
  if starts_with_chr 91 t && ends_with_chr 93 t then
    let inner := u_trimmed (mid t 1 (length t - 2)) in
    JArray (if is_nil inner then [] else map (fun part => scalar (u_trimmed part)) (splitFlow inner))
  else scalar t.

(** ** Block scalars *)

(** The style and the last chomping mark. *)
Fixpoint chomp_marks (s : qstr) (chomp : option Z) : option (option Z) :=
  match s with
  | [] => Some chomp
  | c :: s' =>
      if (c =? 45) || (c =? 43) then chomp_marks s' (Some c)
      else if match u_digit c with Some _ => true | None => false end then chomp_marks s' chomp else None
  end.
Definition blockScalarIndicator (rest : qstr) : option (Z * option Z) :=
  match u_trimmed rest with
  | [] => None
  | c :: t => if negb ((c =? 124) || (c =? 62)) then None else match chomp_marks t None with Some chomp => Some (c, chomp) | None => None end
  end.

Definition blank (ln : qstr) : bool := is_nil (u_trimmed ln).
Fixpoint take_block (keyIndent : Z) (raw : list qstr) : list qstr :=
  match raw with
  | [] => []
  | ln :: raw' => if blank ln then [] :: take_block keyIndent raw' else if indent_of ln <=? keyIndent then [] else ln :: take_block keyIndent raw'
  end.
Definition block_indent (block : list qstr) : Z :=
  fold_left (fun b ln => if blank ln then b else if b <? 0 then indent_of ln else Z.min b (indent_of ln)) block (-1).
(** The content without its trailing empty lines, and how many those are. *)
Fixpoint peel (content : list qstr) : list qstr * Z :=
  match content with
  | [] => ([], 0)
  | l :: ls => let '(kept, n) := peel ls in if is_nil kept && is_nil l then ([], n + 1) else (l :: kept, n)
  end.
Fixpoint fold_lines (prevBlank : bool) (content : list qstr) : qstr :=
  match content with
  | [] => []
  | l :: ls => if is_nil l then 10 :: fold_lines true ls else (if prevBlank then [] else [32]) ++ l ++ fold_lines false ls
  end.
Definition readBlockScalar (raw : list qstr) (start keyIndent : Z) (style : Z) (chomp : option Z) : qstr * Z :=
  let block := take_block keyIndent (drop (Z.to_nat start) raw) in
  let endRaw := start + zlen block in
  let blockIndent := block_indent block in
  if blockIndent <? 0 then ([], endRaw)
  else
    let content := map (fun ln => if blockIndent <=? zlen ln then drop (Z.to_nat blockIndent) ln else []) block in
    let '(content, trailingBlanks) := peel content in
    if is_nil content then ([], endRaw)
    else
      let body := if style =? 124 then join [10] content else fold_lines true content in
      (match chomp with
       | Some c => if c =? 45 then body else if c =? 43 then body ++ replicate (Z.to_nat (1 + trailingBlanks)) 10 else body ++ [10]
       | None => body ++ [10]
       end, endRaw).

(** ** Blocks *)

Definition dash (l : Line) : bool := starts_with_chr 45 (ln_text l).
(** [insert] of a value that is never undefined. *)
Definition item_rest (text : qstr) : qstr := let rest := drop 1 text in u_trimmed (if starts_with_chr 32 rest then drop 1 rest else rest).
Fixpoint skip_raw (endRaw : Z) (ls : list Line) : list Line :=
  match ls with [] => [] | l :: ls' => if ln_rawIdx l <? endRaw then skip_raw endRaw ls' else ls end.

(** The parser over the remaining lines and the guard, which every line of a block
    counts down; [None]: out of fuel.  A sequence item that starts a map becomes the
    first line of that map in place. *)
Definition Parsed (A : Type) : Type := option (A * list Line * Z).
Section Blocks.
Variable raw : list qstr.
Fixpoint parseBlock (fuel : nat) (indent : Z) (ls : list Line) (guard : Z) {struct fuel} : Parsed json :=
  match fuel with
  | O => None
  | S fuel' =>
      match ls with
      | [] => Some (JNull, ls, guard)
      | l :: _ =>
          if guard <=? 0 then Some (JNull, ls, guard)
          else if dash l && (ln_indent l =? indent) then
            match parseSeq fuel' indent ls guard [] with Some (arr, ls', g) => Some (JArray arr, ls', g) | None => None end
          else match parseMap fuel' indent ls guard [] with Some (obj, ls', g) => Some (JObject obj, ls', g) | None => None end
      end
  end
with parseSeq (fuel : nat) (indent : Z) (ls : list Line) (guard : Z) (arr : list json) {struct fuel} : Parsed (list json) :=
  match fuel with
  | O => None
  | S fuel' =>
      match ls with
      | [] => Some (arr, ls, guard)
      | l :: ls' =>
          if negb ((ln_indent l =? indent) && dash l) then Some (arr, ls, guard)
          else if negb (0 <? guard) then Some (arr, ls, guard - 1)
          else
            let guard := guard - 1 in
            let rest := item_rest (ln_text l) in
            if is_nil rest then
              match ls' with
              | n :: _ =>
                  if indent <? ln_indent n then
                    match parseBlock fuel' (ln_indent n) ls' guard with Some (v, ls'', g) => parseSeq fuel' indent ls'' g (arr ++ [v]) | None => None end
                  else parseSeq fuel' indent ls' guard (arr ++ [JNull])
              | [] => parseSeq fuel' indent ls' guard (arr ++ [JNull])
              end
            else match keyColon rest with
                 | Some _ =>
                     match parseBlock fuel' (indent + 2) (mkLine (indent + 2) rest (ln_rawIdx l) :: ls') guard with
                     | Some (v, ls'', g) => parseSeq fuel' indent ls'' g (arr ++ [v])
                     | None => None
                     end
                 | None => parseSeq fuel' indent ls' guard (arr ++ [scalarOrFlow rest])
                 end
      end
  end
with parseMap (fuel : nat) (indent : Z) (ls : list Line) (guard : Z) (obj : list (qstr * json)) {struct fuel} : Parsed (list (qstr * json)) :=
  match fuel with
  | O => None
  | S fuel' =>
      match ls with
      | [] => Some (obj, ls, guard)
      | l :: ls' =>
          if negb ((ln_indent l =? indent) && negb (dash l)) then Some (obj, ls, guard)
          else if negb (0 <? guard) then Some (obj, ls, guard - 1)
          else
            let guard := guard - 1 in
            match keyColon (ln_text l) with
            | None => parseMap fuel' indent ls' guard obj
            | Some c =>
                let key := unquote (u_trimmed (take c (ln_text l))) in
                let rest := u_trimmed (drop (c + 1) (ln_text l)) in
                match (if is_nil rest then None else blockScalarIndicator rest) with
                | Some (style, chomp) =>
                    let '(text, endRaw) := readBlockScalar raw (ln_rawIdx l + 1) indent style chomp in
                    parseMap fuel' indent (skip_raw endRaw ls') guard (insert key (JString text) obj)
                | None =>
                    if negb (is_nil rest) then parseMap fuel' indent ls' guard (insert key (scalarOrFlow rest) obj)
                    else
                      match ls' with
                      | n :: _ =>
                          if indent <? ln_indent n then
                            match parseBlock fuel' (ln_indent n) ls' guard with Some (v, ls'', g) => parseMap fuel' indent ls'' g (insert key v obj) | None => None end
                          else if (ln_indent n =? indent) && dash n then
                            match parseSeq fuel' indent ls' guard [] with Some (arr, ls'', g) => parseMap fuel' indent ls'' g (insert key (JArray arr) obj) | None => None end
                          else parseMap fuel' indent ls' guard (insert key JNull obj)
                      | [] => parseMap fuel' indent ls' guard (insert key JNull obj)
                      end
                end
            end
      end
  end.
End Blocks.

Definition kGuard : Z := 100000.
Definition parse_fuel (guard : Z) : nat := Z.to_nat (2 * Z.max 0 guard + 2).
Definition parseYaml (yaml : qstr) : option json :=
  let ctx := tokenize yaml in
  match cx_lines ctx with
  | [] => Some JNull
  | l :: _ => match parseBlock (cx_raw ctx) (parse_fuel kGuard) (ln_indent l) (cx_lines ctx) kGuard with Some (v, _, _) => Some v | None => None end
  end.

(** ** The template of a document *)

Definition toString_or (d : qstr) (v : json) : qstr := match v with JString s => s | _ => d end.
Definition firstPath (v : json) : qstr := match v with JArray (p :: _) => toString p | JString s => s | _ => [] end.
Definition copy (key : String.string) (from to : list (qstr * json)) : list (qstr * json) :=
  if contains from (lit key) then insert (lit key) (value from (lit key)) to else to.

Definition request_block (root : list (qstr * json)) : list (qstr * json) :=
  let http := value root (lit "http") in
  let v := match http with JUndefined | JNull => value root (lit "requests") | _ => http end in
  match v with JArray (b :: _) => toObject b | JArray [] => [] | _ => toObject v end.
Definition origin_path (p : qstr) : qstr :=
  let p := if starts_with (lit "{{BaseURL}}") p then drop (length (lit "{{BaseURL}}")) p
           else if starts_with (lit "{{RootURL}}") p then drop (length (lit "{{RootURL}}")) p else p in
  if is_nil p then lit "/" else p.
Definition nucleiToTemplate (doc : json) : list (qstr * json) :=
  match doc with
  | JObject root =>
      let info := toObject (value root (lit "info")) in
      let tpl := insert (lit "severity") (JString (toString (value info (lit "severity"))))
        (insert (lit "name") (JString (toString (value info (lit "name")))) (insert (lit "id") (JString (toString (value root (lit "id")))) [])) in
      let block := request_block root in
      if is_nil block then tpl
      else
        let tpl := copy "extractors" block (copy "matchers" block (copy "matchers-condition" block tpl)) in
        let request := insert (lit "path") (JString (origin_path (firstPath (value block (lit "path")))))
          (insert (lit "method") (JString (toString_or (lit "GET") (value block (lit "method")))) []) in
        let request := copy "headers" block request in
        let request := if contains block (lit "body") then insert (lit "body") (JString (toString (value block (lit "body")))) request else request in
        insert (lit "request") (JObject request) tpl
  | _ => []
  end.
Definition nucleiYamlToTemplate (yaml : qstr) : option (list (qstr * json)) := nucleiToTemplate <$> parseYaml yaml.

(** ** Termination *)

(** A run ends, with a guard no larger than before. *)
Definition ends {A} (guard : Z) (p : Parsed A) : Prop := exists v ls g, p = Some (v, ls, g) /\ g <= guard.
Lemma ends_some {A} guard (v : A) ls g : g <= guard -> ends guard (Some (v, ls, g)).
Proof. intros Hg. by exists v, ls, g. Qed.
Lemma ends_le {A} g g' (p : Parsed A) : ends g p -> g <= g' -> ends g' p.
Proof. intros (v & ls & h & -> & Hh) Hg. exists v, ls, h. split; [done|lia]. Qed.

Lemma parse_ends raw fuel :
  (forall indent ls g, 2 * Z.max 0 g + 2 <= Z.of_nat fuel -> ends g (parseBlock raw fuel indent ls g)) /\
  (forall indent ls g arr, 2 * Z.max 0 g + 1 <= Z.of_nat fuel -> ends g (parseSeq raw fuel indent ls g arr)) /\
  (forall indent ls g obj, 2 * Z.max 0 g + 1 <= Z.of_nat fuel -> ends g (parseMap raw fuel indent ls g obj)).
Proof.
  induction fuel as [|fuel (IB & IS & IM)]; [split; [|split]; intros; lia|].
  assert (HB : forall indent ls g, 0 <= g -> 2 * g + 2 <= Z.of_nat fuel -> ends g (parseBlock raw fuel indent ls g)) by (intros; apply IB; lia).
  split; [|split].
  - intros indent ls g Hf. cbn [parseBlock]. destruct ls as [|l ls]; [apply ends_some; lia|]. destruct (g <=? 0); [apply ends_some; lia|].
    destruct (dash l && _).
    + destruct (IS indent (l :: ls) g []) as (v & ls' & g' & -> & Hg); [lia|]. by apply ends_some.
    + destruct (IM indent (l :: ls) g []) as (v & ls' & g' & -> & Hg); [lia|]. by apply ends_some.
  - intros indent ls g arr Hf. cbn [parseSeq]. destruct ls as [|l ls]; [apply ends_some; lia|]. destruct (negb _); [apply ends_some; lia|].
    destruct (0 <? g) eqn:E; cbn [negb]; [to_prop|apply ends_some; lia]. cbv zeta.
    assert (HS : forall ls g' arr, g' <= g - 1 -> ends g (parseSeq raw fuel indent ls g' arr)) by (intros ls0 g' arr0 Hg; apply (ends_le g'); [apply IS|]; lia).
    destruct (is_nil _).
    + destruct ls as [|n ls]; [apply HS; lia|]. destruct (indent <? ln_indent n); [|apply HS; lia].
      destruct (HB (ln_indent n) (n :: ls) (g - 1)) as (v & ls' & g' & -> & Hg); [lia|lia|]. by apply HS.
    + destruct (keyColon _); [|apply HS; lia]. destruct (HB (indent + 2) (mkLine (indent + 2) (item_rest (ln_text l)) (ln_rawIdx l) :: ls) (g - 1)) as (v & ls' & g' & -> & Hg); [lia|lia|]. by apply HS.
  - intros indent ls g obj Hf. cbn [parseMap]. destruct ls as [|l ls]; [apply ends_some; lia|]. destruct (negb _); [apply ends_some; lia|].
    destruct (0 <? g) eqn:E; cbn [negb]; [to_prop|apply ends_some; lia]. cbv zeta.
    assert (HM : forall ls g' obj, g' <= g - 1 -> ends g (parseMap raw fuel indent ls g' obj)) by (intros ls0 g' obj0 Hg; apply (ends_le g'); [apply IM|]; lia).
    destruct (keyColon _) as [c|]; [|apply HM; lia]. destruct (if is_nil _ then None else _) as [[style chomp]|].
    { destruct (readBlockScalar _ _ _ _ _). apply HM. lia. }
    destruct (is_nil _); cbn [negb]; [|apply HM; lia]. destruct ls as [|n ls]; [apply HM; lia|].
    destruct (indent <? ln_indent n).
    { destruct (HB (ln_indent n) (n :: ls) (g - 1)) as (v & ls' & g' & -> & Hg); [lia|lia|]. by apply HM. }
    destruct (_ && dash n); [|apply HM; lia].
    destruct (IS indent (n :: ls) (g - 1) []) as (v & ls' & g' & -> & Hg); [lia|]. by apply HM.
Qed.

(** Every text is read: whatever it says and however it nests, the reader returns a
    value, within a hundred thousand block lines. *)
Theorem yaml_total yaml : exists v, parseYaml yaml = Some v.
Proof.
  unfold parseYaml. destruct (cx_lines (tokenize yaml)) as [|l ls]; [by exists JNull|].
  destruct (proj1 (parse_ends (cx_raw (tokenize yaml)) (parse_fuel kGuard)) (ln_indent l) (l :: ls) kGuard) as (v & ls' & g & -> & _).
  - unfold parse_fuel, kGuard. lia.
  - by exists v.
Qed.

(** ** Writing documents: block style, strings in apostrophes *)

Definition esc (s : qstr) : qstr := flat_map (fun c => if c =? 39 then [39; 39] else [c]) s.
Definition leaf_text (v : json) : option qstr :=
  match v with
  | JNull => Some (lit "~")
  | JBool b => Some (if b then lit "true" else lit "false")
  | JInt n => Some (number 10 n)
  | JString s => Some (39 :: esc s ++ [39])
  | JArray [] => Some (lit "[]")
  | _ => None
  end.

(** The first line of an item's map takes the dash. *)
Definition merge_dash (n : Z) (ls : list (Z * qstr)) : list (Z * qstr) := match ls with (_, t) :: r => (n, lit "- " ++ t) :: r | [] => [] end.
Definition is_object (v : json) : bool := match v with JObject _ => true | _ => false end.
Fixpoint block_lines (n : Z) (v : json) : list (Z * qstr) :=
  match v with
  | JArray l =>
      flat_map (fun x => match leaf_text x with
                         | Some t => [(n, lit "- " ++ t)]
                         | None => if is_object x then merge_dash n (block_lines (n + 2) x) else (n, lit "-") :: block_lines (n + 2) x
                         end) l
  | JObject m =>
      flat_map (fun e => match leaf_text (snd e) with
                         | Some t => [(n, fst e ++ lit ": " ++ t)]
                         | None => (n, fst e ++ lit ":") :: block_lines (n + 2) (snd e)
                         end) m
  | _ => []
  end.
Definition spaces (n : Z) : qstr := replicate (Z.to_nat n) 32.
Definition write_yaml (v : json) : qstr := join [10] (map (fun e => spaces (fst e) ++ snd e) (block_lines 0 v)).

(** What is written so: strings of one line without tabulators, naturals that are exact
    as doubles, plain keys in order, no empty map. *)
Definition key_char (c : Z) : bool := is_letter c || is_digit c || (c =? 45) || (c =? 95).
Definition key_ok (k : qstr) : bool := negb (is_nil k) && forallb key_char k && negb (starts_with_chr 45 k).
Fixpoint yaml_ok (v : json) : bool :=
  match v with
  | JUndefined | JDouble _ => false
  | JNull | JBool _ => true
  | JInt n => (0 <=? n) && (n <=? 2 ^ 53)
  | JString s => forallb (fun c => negb (c =? 10) && negb (c =? 9)) s
  | JArray l => forallb yaml_ok l
  | JObject m => negb (is_nil m) && bool_decide (qm_sorted m) && forallb (fun e => key_ok (fst e) && yaml_ok (snd e)) m
  end.
(** The block lines the reader will count. *)
Fixpoint entry_count (v : json) : Z :=
  match v with
  | JArray l => fold_right (fun x n => 1 + entry_count x + n) 0 l
  | JObject m => fold_right (fun e n => 1 + entry_count (snd e) + n) 0 m
  | _ => 0
  end.
End Yaml.

Section Lines.
Context {Q : QtText} {G : QtGlobal} {QL : QtTextLaws Q}.

(** *** Scanning what is written *)

(** No quote, comment sign, colon or comma. *)
Definition quiet (s : qstr) : bool := forallb (fun c => negb (bool_decide (c ∈ [39; 34; 35; 58; 44]))) s.
Definition last_unit (prev : option Z) (s : qstr) : option Z := match last s with Some c => Some c | None => prev end.

Lemma quiet_scan prev c s r : quiet (c :: s) = true -> scan prev false false c r = Plain /\ (c =? 35) = false /\ (c =? 58) = false /\ (c =? 44) = false /\ quiet s = true.
Proof.
  unfold quiet. cbn [forallb]. intros [Hc Hs]%andb_true_iff. apply negb_true_iff, bool_decide_eq_false in Hc. unfold scan.
  assert (c <> 39 /\ c <> 34 /\ c <> 35 /\ c <> 58 /\ c <> 44) as (H1 & H2 & H3 & H4 & H5) by (split_and!; intros ->; apply Hc; set_solver). by zdecides.
Qed.
Lemma last_unit_cons prev c s : last_unit (Some c) s = last_unit prev (c :: s).
Proof. unfold last_unit. destruct s as [|d s]; [done|]. change (last (c :: d :: s)) with (last (d :: s)). destruct (last (d :: s)) eqn:E; [done|by apply last_None in E]. Qed.

Lemma strip_quiet prev s r : quiet s = true -> strip_loop prev false false (s ++ r) = s ++ strip_loop (last_unit prev s) false false r.
Proof.
  revert prev. induction s as [|c s IH]; intros prev Hq; [done|]. destruct (quiet_scan prev c s (s ++ r) Hq) as (E & E1 & _ & _ & Hs).
  cbn [app strip_loop]. rewrite E, E1. cbn [andb]. rewrite (IH _ Hs), (last_unit_cons prev). done.
Qed.
Lemma colon_quiet prev s r i : quiet s = true -> colon_loop prev false false (s ++ r) i = colon_loop (last_unit prev s) false false r (i + length s).
Proof.
  revert prev i. induction s as [|c s IH]; intros prev i Hq; [cbn [app length]; by rewrite Nat.add_0_r|].
  destruct (quiet_scan prev c s (s ++ r) Hq) as (E & _ & E1 & _ & Hs).
  cbn [app colon_loop length]. rewrite E, E1. cbn [andb]. rewrite (IH _ _ Hs), (last_unit_cons prev). f_equal. lia.
Qed.

(** Between apostrophes nothing is special. *)
Lemma scan_inside prev c r : c <> 39 -> scan prev true false c r = Plain.
Proof. intros Hc. unfold scan. zdecide. by rewrite andb_false_r. Qed.
Lemma strip_inside s : forall prev, strip_loop prev true false (esc s ++ [39]) = esc s ++ [39].
Proof.
  induction s as [|c s IH]; intros prev; [done|]. unfold esc in *. cbn [flat_map]. destruct (Z.eqb_spec c 39) as [->|Hc].
  - cbn [app strip_loop scan]. change (scan prev true false 39 (39 :: flat_map _ s ++ [39])) with Doubled. cbv iota. by rewrite IH.
  - cbn [app strip_loop]. rewrite scan_inside, IH by done. cbn [negb]. by rewrite andb_false_r.
Qed.
Lemma colon_inside s : forall prev i, colon_loop prev true false (esc s ++ [39]) i = None.
Proof.
  induction s as [|c s IH]; intros prev i; [done|]. unfold esc in *. cbn [flat_map]. destruct (Z.eqb_spec c 39) as [->|Hc].
  - cbn [app colon_loop scan]. change (scan prev true false 39 (39 :: flat_map _ s ++ [39])) with Doubled. cbv iota. by rewrite IH.
  - cbn [app colon_loop]. rewrite scan_inside, IH by done. cbn [negb]. by rewrite andb_false_r.
Qed.

Lemma unesc s : replace_all [39; 39] [39] (esc s) = s.
Proof.
  induction s as [|c s IH]; [by apply replace_all_nil|]. unfold esc in *. cbn [flat_map]. destruct (Z.eqb_spec c 39) as [->|Hc].
  - cbn [app]. rewrite replace_all_cons by done. cbn [starts_with Z.eqb Pos.eqb andb length app]. rewrite !skipn_cons, skipn_O. by rewrite IH.
  - cbn [app]. rewrite replace_all_cons by done. cbn [starts_with]. zdecide. cbn [andb]. by rewrite IH.
Qed.

Lemma digits_quiet n : 0 <= n -> quiet (number 10 n) = true.
Proof.
  intros Hn. apply forallb_forall. intros c Hc%list_elem_of_In. pose proof (number_alnum 10 n ltac:(lia) Hn) as Ha. rewrite Forall_forall in Ha. specialize (Ha c Hc).
  apply negb_true_iff, bool_decide_eq_false. intros Hin. repeat (apply elem_of_cons in Hin as [->|Hin]; [done|]). by apply not_elem_of_nil in Hin.
Qed.

(** A written leaf: quiet, or a string between apostrophes. *)
Lemma leaf_shape v t : yaml_ok v = true -> leaf_text v = Some t -> (quiet t = true /\ exists c r, t = c :: r /\ c <> 39) \/ exists s, v = JString s /\ t = 39 :: esc s ++ [39].
Proof.
  intros Hok Ht. destruct v as [| |b|n| |s|[|x l]|m]; cbn [leaf_text] in Ht; simplify_eq.
  - left. split; [done|]. by exists 126, [].
  - left. split; [by destruct b|]. destruct b; [by exists 116, (lit "rue")|by exists 102, (lit "alse")].
  - left. cbn [yaml_ok] in Hok. split_bools. to_prop. split; [by apply digits_quiet|]. destruct (number 10 n) as [|c r] eqn:E; [by apply number_not_nil in E|].
    exists c, r. split; [done|]. pose proof (number_alnum 10 n ltac:(lia) ltac:(lia)) as Ha. rewrite E in Ha. apply Forall_cons in Ha as [Ha _]. by intros ->.
  - right. by exists s.
  - left. split; [done|]. by exists 91, [93].
Qed.

Lemma leaf_strip v t prev : yaml_ok v = true -> leaf_text v = Some t -> atNodeStart prev = true -> strip_loop prev false false t = t.
Proof.
  intros Hok Ht Hp. destruct (leaf_shape v t Hok Ht) as [[Hq _]|(s & _ & ->)].
  - rewrite <- (app_nil_r t) at 1. rewrite strip_quiet by done. by rewrite app_nil_r.
  - cbn [strip_loop scan]. unfold scan. cbn [Z.eqb Pos.eqb negb andb]. rewrite Hp. by rewrite strip_inside.
Qed.
Lemma leaf_colon v t : yaml_ok v = true -> leaf_text v = Some t -> keyColon t = None.
Proof.
  intros Hok Ht. unfold keyColon. destruct (leaf_shape v t Hok Ht) as [[Hq _]|(s & _ & ->)].
  - rewrite <- (app_nil_r t) at 1. by rewrite colon_quiet.
  - cbn [colon_loop]. unfold scan. cbn [Z.eqb Pos.eqb negb andb atNodeStart]. by rewrite colon_inside.
Qed.

(** *** Lines that read back *)

Record clean_text (t : qstr) : Prop := mkCleanText {
  ct_strip : forall prev, atNodeStart prev = true -> strip_loop prev false false t = t;
  ct_ends : ends_clean u_space t;
  ct_some : t <> [];
  ct_sep : t <> lit "---";
  ct_line : 10 ∉ t /\ 9 ∉ t;
  ct_cr : last t <> Some 13
}.

Lemma space_at : u_space 32 = true /\ u_space 45 = false /\ u_space 58 = false.
Proof. by rewrite !law_space_ascii. Qed.
Lemma at_space : atNodeStart (Some 32) = true.
Proof. cbn [atNodeStart]. by rewrite (proj1 space_at). Qed.

Lemma last_app_some {A} (l k : list A) : k <> [] -> last (l ++ k) = last k.
Proof. intros Hk. destruct (exists_last Hk) as (k' & x & ->). by rewrite app_assoc, !last_snoc. Qed.
Lemma ends_join f c s t : f c = false -> t <> [] -> ends_clean f t -> ends_clean f (c :: s ++ t).
Proof. intros Hc Ht [_ Hl]. split; [done|]. change (c :: s ++ t) with ((c :: s) ++ t). by rewrite last_app_some. Qed.

Lemma significant_line n t idx : 0 <= n -> clean_text t -> significant idx (raw_line (spaces n ++ t)) = [mkLine n t idx].
Proof.
  intros Hn [Hs He Hne Hsep [Hlf Htab] Hcr].
  assert (H9 : forall s, 9 ∉ s -> replace_all [9] [32; 32] s = s).
  { induction s as [|c s IH]; intros Hs9; [apply replace_all_nil|]. apply not_elem_of_cons in Hs9 as [Hc Hs9]. rewrite replace_all_cons by done.
    cbn [starts_with]. zdecide. cbn [andb]. by rewrite IH. }
  assert (Hsp : forall c, c ∈ spaces n -> c = 32) by (intros c Hc; by apply elem_of_replicate in Hc as []).
  unfold raw_line. rewrite H9 by (rewrite not_elem_of_app; split; [intros Hi; by specialize (Hsp _ Hi)|done]).
  assert (Hcr' : ends_with_chr 13 (spaces n ++ t) = false).
  { destruct (exists_last Hne) as (t' & x & ->). rewrite last_snoc in Hcr. unfold ends_with_chr. rewrite app_assoc, last_snoc. apply Z.eqb_neq. congruence. }
  rewrite Hcr'. unfold significant, stripComment.
  assert (Hq : quiet (spaces n) = true) by (apply forallb_forall; intros c Hc%list_elem_of_In; by rewrite (Hsp c Hc)).
  rewrite strip_quiet by done. rewrite Hs.
  2: { unfold last_unit. destruct (last (spaces n)) as [c|] eqn:El; [|done]. apply last_Some_elem_of in El. rewrite (Hsp c El). apply at_space. }
  assert (Ht : u_trimmed (spaces n ++ t) = t).
  { unfold u_trimmed. unfold spaces. generalize (Z.to_nat n). intros k. induction k as [|k IH]; [by apply trim_by_clean|].
    cbn [replicate app]. unfold trim_by in *. cbn [drop_while]. rewrite (proj1 space_at). exact IH. }
  rewrite Ht. destruct (is_nil t) eqn:En; [by apply is_nil_true in En|]. destruct (seq_eqb t (lit "---")) eqn:E; [by apply seq_eqb_eq in E|].
  do 2 f_equal. destruct t as [|c t]; [done|]. destruct He as [Hc _].
  assert (Hc32 : c <> 32) by (intros ->; by rewrite (proj1 space_at) in Hc). unfold spaces. rewrite <- (Z2Nat.id n) at 2 by done. generalize (Z.to_nat n). intros k.
  induction k as [|k IH]; cbn [replicate app indent_of Z.of_nat]; [by zdecide|]. change (32 =? 32) with true. cbv iota. rewrite IH. lia.
Qed.

Lemma last_esc (s : qstr) : last (39 :: esc s ++ [39]) = Some 39.
Proof. change (39 :: esc s ++ [39]) with ((39 :: esc s) ++ [39]). by rewrite last_snoc. Qed.
Lemma esc_elem s x : x ∈ esc s -> x ∈ s.
Proof.
  unfold esc. intros Hx. apply list_elem_of_In, in_flat_map in Hx as (c & Hc & Hx). apply list_elem_of_In in Hc.
  destruct (Z.eqb_spec c 39) as [->|_]; apply list_elem_of_In in Hx; repeat (apply elem_of_cons in Hx as [->|Hx]; [done|]); by apply not_elem_of_nil in Hx.
Qed.

(** The units of a leaf that is no string. *)
Definition word_char (c : Z) : bool := is_letter c || is_digit c || (c =? 126) || (c =? 91) || (c =? 93).
Lemma word_space c : word_char c = true -> u_space c = false /\ c <> 10 /\ c <> 9 /\ c <> 13 /\ c <> 45 /\ c <> 32 /\ c <> 34.
Proof.
  unfold word_char. intros H. assert (Hr : 48 <= c < 127) by (unfold is_letter, is_digit in H; repeat (apply orb_true_iff in H as [H|H]); split_bools; to_prop; lia).
  rewrite law_space_ascii by (unfold is_ascii; zdecides; done). unfold b_space. zdecides. split; [done|]. lia.
Qed.
Lemma key_space c : key_char c = true -> u_space c = false /\ c <> 10 /\ c <> 9 /\ c <> 13 /\ c <> 32 /\ c <> 39 /\ c <> 34 /\ c <> 35 /\ c <> 58 /\ c <> 44.
Proof.
  unfold key_char. intros H. assert (Hr : 45 <= c < 127 /\ c <> 58) by (unfold is_letter, is_digit in H; repeat (apply orb_true_iff in H as [H|H]); split_bools; to_prop; lia).
  rewrite law_space_ascii by (unfold is_ascii; zdecides; done). unfold b_space. zdecides. split; [done|]. lia.
Qed.

Lemma leaf_words v t : yaml_ok v = true -> leaf_text v = Some t -> (forallb word_char t = true /\ t <> []) \/ exists s, v = JString s /\ t = 39 :: esc s ++ [39].
Proof.
  intros Hok Ht. destruct v as [| |b|n| |s|[|x l]|m]; cbn [leaf_text] in Ht; simplify_eq.
  - by left.
  - left. destruct b; (split; [reflexivity|done]).
  - left. cbn [yaml_ok] in Hok. split_bools. to_prop. split; [|by apply number_not_nil]. apply forallb_forall. intros c Hc%list_elem_of_In.
    pose proof (number_alnum 10 n ltac:(lia) ltac:(lia)) as Ha. rewrite Forall_forall in Ha. specialize (Ha c Hc). unfold is_alnum in Ha. unfold word_char, is_letter, is_digit. apply orb_true_iff in Ha as [Ha|Ha]; split_bools; to_prop; by zdecides.
  - right. by exists s.
  - by left.
Qed.

Lemma clean_leaf v t : yaml_ok v = true -> leaf_text v = Some t -> clean_text t.
Proof.
  intros Hok Ht. pose proof (leaf_strip v t) as Hs. destruct (leaf_words v t Hok Ht) as [[Hw Hne]|(s & -> & ->)].
  - rewrite forallb_forall in Hw. assert (Hw' : forall c, c ∈ t -> word_char c = true) by (intros c Hc; apply Hw; by apply list_elem_of_In). clear Hw.
    assert (Hin : forall c, c ∈ t -> u_space c = false /\ c <> 10 /\ c <> 9 /\ c <> 13 /\ c <> 45 /\ c <> 32 /\ c <> 34) by (intros c Hc; by apply word_space, Hw').
    constructor; try done.
    + intros prev Hp. by apply Hs.
    + split; [destruct t; [done|apply Hin; left]|]. destruct (last t) eqn:El; [|done]. apply last_Some_elem_of in El. by apply Hin.
    + intros ->. destruct (Hin 45) as (_ & _ & _ & _ & ? & _); [left|done].
    + split; intros Hi; apply Hin in Hi; lia.
    + intros El. apply last_Some_elem_of in El. apply Hin in El. lia.
  - assert (H39 : u_space 39 = false) by by rewrite law_space_ascii. pose proof Hok as Hf. cbn [yaml_ok] in Hf. rewrite forallb_forall in Hf.
    constructor; try done.
    + intros prev Hp. by apply Hs.
    + split; [done|]. by rewrite last_esc.
    + assert (Hno : forall c, c = 10 \/ c = 9 -> c ∉ 39 :: esc s ++ [39]).
      { intros c Hc Hin. apply elem_of_cons in Hin as [->|Hin]; [lia|]. apply elem_of_app in Hin as [Hin|Hin]; [|apply list_elem_of_singleton in Hin; lia].
        apply esc_elem, list_elem_of_In, Hf in Hin. split_bools. to_prop. lia. }
      split; apply Hno; lia.
    + by rewrite last_esc.
Qed.

Lemma clean_lone_dash : clean_text (lit "-").
Proof. constructor; try done; try (split; refine (bool_decide_eq_false_1 _ _); reflexivity). split; cbn; apply space_at. Qed.
Lemma clean_dash t : clean_text t -> clean_text (lit "- " ++ t).
Proof.
  intros [Hs He Hne Hsep [Hlf Htab] Hcr]. change (lit "- " ++ t) with (45 :: [32] ++ t). constructor; try done.
  - intros prev Hp. cbn [app strip_loop]. unfold scan. cbn [Z.eqb Pos.eqb negb andb]. by rewrite Hs by apply at_space.
  - apply ends_join; try done. apply space_at.
  - cbn [app]. by rewrite !not_elem_of_cons.
  - change (45 :: [32] ++ t) with ([45; 32] ++ t). by rewrite last_app_some.
Qed.

Lemma key_facts k : key_ok k = true -> quiet k = true /\ (forall c, c ∈ k -> key_char c = true) /\ k <> [] /\ starts_with_chr 45 k = false.
Proof.
  unfold key_ok. intros H. split_bools. assert (Hk : forall c, c ∈ k -> key_char c = true) by (intros c Hc; match goal with E : forallb key_char k = true |- _ => rewrite forallb_forall in E; by apply E, list_elem_of_In end).
  split; [|split; [done|split; [by intros ->|done]]]. apply forallb_forall. intros c Hc%list_elem_of_In. apply negb_true_iff, bool_decide_eq_false. intros Hin.
  pose proof (key_space c (Hk c Hc)) as Hs. repeat (apply elem_of_cons in Hin as [->|Hin]; [lia|]). by apply not_elem_of_nil in Hin.
Qed.

Lemma strip_colon prev r : strip_loop prev false false (58 :: r) = 58 :: strip_loop (Some 58) false false r.
Proof. done. Qed.
Lemma strip_blank prev r : strip_loop prev false false (32 :: r) = 32 :: strip_loop (Some 32) false false r.
Proof. done. Qed.

Lemma clean_key k r : key_ok k = true -> r = [] \/ (exists t, r = 32 :: t /\ clean_text t) -> clean_text (k ++ 58 :: r).
Proof.
  intros Hk Hr. destruct (key_facts k Hk) as (Hq & Hc & Hne & Hd). destruct k as [|c k]; [done|].
  assert (Hlast : last ((c :: k) ++ 58 :: r) = last (58 :: r)) by by apply last_app_some.
  assert (Hfirst : u_space c = false) by (apply key_space, Hc; left).
  assert (Hkno : forall x, x = 10 \/ x = 9 -> x ∉ c :: k) by (intros x Hx Hin; apply Hc, key_space in Hin; lia).
  constructor; try done.
  - intros prev Hp. rewrite strip_quiet, strip_colon by done. destruct Hr as [->|(t & -> & [Hs _ _ _ _ _])]; [done|]. by rewrite strip_blank, Hs by apply at_space.
  - split; [done|]. rewrite Hlast. destruct Hr as [->|(t & -> & [_ [_ He] Hn _ _ _])]; [apply space_at|].
    change (58 :: 32 :: t) with ([58; 32] ++ t). by rewrite last_app_some.
  - intros E. apply (f_equal (starts_with_chr 45)) in E. cbn in E, Hd. by rewrite E in Hd.
  - assert (Hr' : forall x, x = 10 \/ x = 9 -> x ∉ r).
    { intros x Hx. destruct Hr as [->|(t & -> & [_ _ _ _ [H1 H2] _])]; [apply not_elem_of_nil|]. apply not_elem_of_cons. split; [lia|]. by destruct Hx as [->| ->]. }
    split; apply not_elem_of_app; (split; [apply Hkno; lia|apply not_elem_of_cons; split; [done|apply Hr'; lia]]).
  - rewrite Hlast. destruct Hr as [->|(t & -> & [_ _ Hn _ _ Hcr])]; [done|]. change (58 :: 32 :: t) with ([58; 32] ++ t). by rewrite last_app_some.
Qed.
End Lines.

Section Documents.
Context {Q : QtText} {G : QtGlobal} {QL : QtTextLaws Q}.

Definition tok (l : Line) : Z * qstr := (ln_indent l, ln_text l).
Definition line_ok (n : Z) (e : Z * qstr) : Prop := n <= fst e /\ clean_text (snd e).

Lemma ok_items l : yaml_ok (JArray l) = true -> Forall (fun v => yaml_ok v = true) l.
Proof. cbn [yaml_ok]. intros H. apply Forall_forall. intros v Hv. rewrite forallb_forall in H. by apply H, list_elem_of_In. Qed.
Lemma ok_members m : yaml_ok (JObject m) = true -> m <> [] /\ qm_sorted m /\ Forall (fun e => key_ok (fst e) = true /\ yaml_ok (snd e) = true) m.
Proof.
  cbn [yaml_ok]. intros H. split_bools. split; [by destruct m|]. split; [done|]. apply Forall_forall. intros e He.
  match goal with E : forallb _ m = true |- _ => rewrite forallb_forall in E; specialize (E e); rewrite <- list_elem_of_In in E; specialize (E He) end. by split_bools.
Qed.

(** *** The lines of a block *)

Definition item_lines (n : Z) (x : json) : list (Z * qstr) :=
  match leaf_text x with
  | Some t => [(n, lit "- " ++ t)]
  | None => if is_object x then merge_dash n (block_lines (n + 2) x) else (n, lit "-") :: block_lines (n + 2) x
  end.
Definition member_lines (n : Z) (e : qstr * json) : list (Z * qstr) :=
  match leaf_text (snd e) with
  | Some t => [(n, fst e ++ lit ": " ++ t)]
  | None => (n, fst e ++ lit ":") :: block_lines (n + 2) (snd e)
  end.

Lemma merge_ok n ls : 0 <= n -> Forall (line_ok (n + 2)) ls -> Forall (line_ok n) (merge_dash n ls).
Proof.
  intros Hn H. destruct ls as [|[i t] ls]; [constructor|]. apply Forall_cons in H as [[_ Ht] H]. constructor; [split; [done|by apply clean_dash]|].
  eapply Forall_impl; [exact H|]. intros [i' t'] [Hi Ht']. split; [cbn [fst] in *; lia|done].
Qed.

Lemma lines_ok v : yaml_ok v = true -> forall n, 0 <= n -> Forall (line_ok n) (block_lines n v).
Proof.
  assert (Hup : forall n ls, Forall (line_ok (n + 2)) ls -> Forall (line_ok n) ls)
    by (intros n ls H; eapply Forall_impl; [exact H|]; intros [i t] [Hi Ht]; split; [cbn [fst] in *; lia|done]).
  induction v as [| |b|z|d|s|l IH|m IH] using json_ind'; intros Hok n Hn; try constructor.
  - apply ok_items in Hok. cbn [block_lines]. change (Forall (line_ok n) (flat_map (item_lines n) l)).
    induction l as [|x l IHl]; [constructor|]. apply Forall_cons in IH as [Hx IH]. apply Forall_cons in Hok as [Hox Hok]. cbn [flat_map]. apply Forall_app.
    split; [|by apply IHl]. unfold item_lines. destruct (leaf_text x) as [t|] eqn:Et.
    + constructor; [|constructor]. split; [done|]. by eapply clean_dash, clean_leaf.
    + pose proof (Hx Hox (n + 2) ltac:(lia)) as Hb. destruct (is_object x); [by apply merge_ok|]. constructor; [split; [done|apply clean_lone_dash]|by apply Hup].
  - apply ok_members in Hok as (_ & _ & Hok). cbn [block_lines]. change (Forall (line_ok n) (flat_map (member_lines n) m)).
    induction m as [|[k x] m IHm]; [constructor|]. apply Forall_cons in IH as [Hx IH]. apply Forall_cons in Hok as [[Hk Hox] Hok]. cbn [flat_map]. apply Forall_app.
    split; [|by apply IHm]. unfold member_lines. cbn [fst snd] in *. destruct (leaf_text x) as [t|] eqn:Et.
    + constructor; [|constructor]. split; [done|]. cbn [snd]. change (lit ": " ++ t) with (58 :: 32 :: t). apply clean_key; [done|]. right. exists t. split; [done|]. by eapply clean_leaf.
    + constructor; [split; [done|]; cbn [snd]; apply clean_key; [done|by left]|]. apply Hup, Hx; [done|lia].
Qed.

Lemma number_lines_tok ls : forall idx, Forall (line_ok 0) ls -> map tok (number_lines idx (map raw_line (map (fun e => spaces (fst e) ++ snd e) ls))) = ls.
Proof.
  induction ls as [|[n t] ls IH]; intros idx H; [done|]. apply Forall_cons in H as [[Hn Ht] H]. cbn [map number_lines fst snd] in *.
  rewrite significant_line by done. cbn [app map]. unfold tok at 1. cbn [ln_indent ln_text]. f_equal. by apply IH.
Qed.

(** A block is a map or a sequence with entries. *)
Definition container (v : json) : Prop := leaf_text v = None /\ yaml_ok v = true.
Lemma container_cases v : container v -> (exists x l, v = JArray (x :: l)) \/ exists m, v = JObject m /\ m <> [].
Proof.
  intros [Hl Hok]. destruct v as [| |b|n|d|s|[|x l]|m]; try done; [left; eauto|]. right. exists m. split; [done|]. by apply ok_members in Hok as [].
Qed.

Lemma head_indent v n : container v -> exists t r, block_lines n v = (n, t) :: r /\ (is_object v = true -> starts_with_chr 45 t = false) /\ (is_object v = false -> starts_with_chr 45 t = true).
Proof.
  intros Hc. pose proof Hc as [_ Hok]. destruct (container_cases v Hc) as [(x & l & ->)|(m & -> & Hm)].
  - cbn [block_lines flat_map is_object]. destruct (leaf_text x) as [t|] eqn:Et; [by exists (lit "- " ++ t), (flat_map (item_lines n) l)|].
    destruct (is_object x) eqn:Ex; [|by eexists _, _]. destruct x as [| | | | | | |m]; try done.
    apply ok_items, Forall_cons in Hok as [Hox _]. apply ok_members in Hox as (Hm & _ & _). destruct m as [|[k v] m]; [done|].
    cbn [block_lines flat_map snd]. destruct (leaf_text v); cbn [app merge_dash]; eexists _, _; (split; [reflexivity|]); by split.
  - apply ok_members in Hok as (_ & _ & Hok). destruct m as [|[k v] m]; [done|]. apply Forall_cons in Hok as [[Hk _] _]. cbn [fst] in Hk.
    destruct (key_facts k Hk) as (_ & _ & Hne & Hd). assert (Hd' : forall r, starts_with_chr 45 (k ++ r) = false) by (intros r; by destruct k).
    cbn [block_lines flat_map fst snd is_object]. destruct (leaf_text v) as [t|]; eexists _, _; (split; [reflexivity|]); split; intros; try done; apply Hd'.
Qed.

(** *** Reading the pieces *)

Lemma trimmed_clean_text t : clean_text t -> u_trimmed t = t.
Proof. intros Ht. by apply trim_by_clean, Ht. Qed.

Lemma number_head n : 0 <= n -> exists c r, number 10 n = c :: r /\ is_alnum c = true.
Proof.
  intros Hn. destruct (number 10 n) as [|c r] eqn:E; [by apply number_not_nil in E|]. exists c, r. split; [done|].
  pose proof (number_alnum 10 n ltac:(lia) Hn) as Ha. rewrite E in Ha. by apply Forall_cons in Ha as [Ha _].
Qed.

Lemma scalar_leaf v t : yaml_ok v = true -> leaf_text v = Some t -> scalarOrFlow t = v /\ blockScalarIndicator t = None /\ t <> [].
Proof.
  intros Hok Ht. pose proof (clean_leaf v t Hok Ht) as Hc. pose proof (trimmed_clean_text t Hc) as Htr. unfold scalarOrFlow, blockScalarIndicator. rewrite Htr.
  destruct v as [| |b|n| |s|[|x l]|m]; cbn [leaf_text] in Ht; simplify_eq.
  - split; [|done]. cbn [starts_with_chr Z.eqb andb]. unfold scalar. rewrite Htr. reflexivity.
  - split; [|by destruct b]. destruct b; cbn [starts_with_chr Z.eqb andb]; unfold scalar; rewrite Htr; reflexivity.
  - cbn [yaml_ok] in Hok. split_bools. to_prop. destruct (number_head n) as (c & r & E & Ha); [done|].
    assert (Hcn : c <> 91 /\ c <> 34 /\ c <> 39 /\ c <> 116 /\ c <> 110 /\ c <> 126 /\ c <> 124 /\ c <> 62) by (repeat split; by intros ->).
    split; [|split].
    + assert (Hsw : forall d, d <> c -> starts_with_chr d (number 10 n) = false) by (intros d Hd; rewrite E; apply Z.eqb_neq; congruence).
      assert (Hnil : is_nil (number 10 n) = false) by by rewrite E.
      rewrite (Hsw 91) by lia. cbn [andb]. unfold scalar. rewrite Htr, Hnil, (Hsw 34), (Hsw 39) by lia. cbn [orb].
      assert (Hne : forall d l, d <> c -> seq_eqb (number 10 n) (d :: l) = false) by (intros d l Hd; rewrite E; apply bool_decide_eq_false; congruence).
      change (lit "true") with (116 :: lit "rue"). change (lit "null") with (110 :: lit "ull"). change (lit "~") with [126]. change (lit "false") with (102 :: lit "alse").
      assert (Hf : seq_eqb (number 10 n) (102 :: lit "alse") = false).
      { apply bool_decide_eq_false. intros Ef. pose proof (number_alnum 10 n ltac:(lia) ltac:(lia)) as Hal. pose proof (number_digits 10 n ltac:(lia) ltac:(lia)) as Hd.
        rewrite Ef in Hd. by vm_compute in Hd. }
      rewrite (Hne 116), Hf, (Hne 110), (Hne 126) by lia. cbn [orb]. rewrite tolonglong_number by (unfold I64_MAX; auto; lia). rewrite seq_eqb_refl. f_equal.
      unfold double_of. rewrite Z.abs_eq by lia.
      rewrite (proj2 (Z.leb_le _ _)) by done. done.
    + rewrite E. by zdecides.
    + by rewrite E.
  - split; [|done]. cbn [starts_with_chr Z.eqb andb]. unfold scalar. rewrite Htr. cbn [is_nil starts_with_chr Z.eqb Pos.eqb orb].
    f_equal. unfold unquote. rewrite Htr. assert (Hlen : (2 <=? zlen (39 :: esc s ++ [39])) = true).
    { rewrite zlen_cons, zlen_app. change (zlen [39]) with 1. apply Z.leb_le. pose proof (zlen_nonneg (esc s)). lia. }
    rewrite Hlen. unfold quoted_by, ends_with_chr. rewrite last_esc. cbn [starts_with_chr Z.eqb Pos.eqb andb orb].
    assert (Hm : mid (39 :: esc s ++ [39]) 1 (length (39 :: esc s ++ [39]) - 2) = esc s).
    { unfold mid. cbn [length drop]. rewrite length_app. cbn [length]. replace (S (length (esc s) + 1) - 2)%nat with (length (esc s)) by lia. apply take_app_length. }
    rewrite Hm. apply unesc.
  - split; [|done]. reflexivity.
Qed.

Lemma item_rest_dash t : clean_text t -> item_rest (lit "- " ++ t) = t.
Proof. intros Ht. unfold item_rest. cbn. by apply trimmed_clean_text. Qed.

(** A member line: its key, and the rest of it. *)
Lemma member_read k r : key_ok k = true ->
  starts_with_chr 45 (k ++ 58 :: r) = false /\
  (r = [] \/ starts_with_chr 32 r = true -> keyColon (k ++ 58 :: r) = Some (length k)) /\
  unquote (u_trimmed (take (length k) (k ++ 58 :: r))) = k /\ drop (length k + 1) (k ++ 58 :: r) = r.
Proof.
  intros Hk. destruct (key_facts k Hk) as (Hq & Hc & Hne & Hd). rewrite take_app_length. split; [by destruct k|]. split; [|split].
  - intros Hr. unfold keyColon. rewrite colon_quiet by done. cbn [colon_loop Nat.add]. unfold scan. cbn [Z.eqb Pos.eqb andb negb].
    destruct Hr as [->|Hr]; [done|]. by rewrite Hr, orb_true_r.
  - assert (Htr : u_trimmed k = k) by (apply trim_by_id, Forall_forall; intros c Hin; by apply key_space, Hc).
    rewrite Htr. unfold unquote. rewrite Htr. destruct k as [|c k]; [done|]. pose proof (key_space c (Hc c ltac:(left))) as Hs. unfold quoted_by. cbn [starts_with_chr].
    zdecides. cbn [andb orb]. by rewrite andb_false_r.
  - replace (length k + 1)%nat with (length (k ++ [58])) by (rewrite length_app; cbn; lia). replace (k ++ 58 :: r) with ((k ++ [58]) ++ r) by (by rewrite <- app_assoc).
    apply drop_app_length.
Qed.

(** *** Reading a block *)

Section Reading.
Variable raw : list qstr.

(** What follows a block is indented less. *)
Definition below (n : Z) (R : list Line) : Prop := match R with [] => True | l :: _ => ln_indent l < n end.
Definition reads (v : json) : Prop := container v -> forall n L R fuel g, 0 <= n -> map tok L = block_lines n v -> below n R -> entry_count v <= g ->
  2 * g + 2 <= Z.of_nat fuel -> parseBlock raw fuel n (L ++ R) g = Some (v, R, g - entry_count v).

Lemma entry_count_nonneg v : 0 <= entry_count v.
Proof.
  induction v as [| |b|n|d|s|l IH|m IH] using json_ind'; try done; cbn [entry_count].
  - induction IH as [|x l Hx _ IH]; cbn [fold_right]; [done|lia].
  - induction IH as [|x l Hx _ IH]; cbn [fold_right]; [done|lia].
Qed.

Lemma container_or_leaf v : yaml_ok v = true -> container v \/ exists t, leaf_text v = Some t.
Proof. intros Hok. destruct (leaf_text v) as [t|] eqn:E; [right; eauto|by left]. Qed.

(** A block whose parts are read from its own lines and what follows them. *)
Lemma tok_cons L i t ls : map tok L = (i, t) :: ls -> exists l L', L = l :: L' /\ ln_indent l = i /\ ln_text l = t /\ map tok L' = ls.
Proof. destruct L as [|l L']; [done|]. cbn [map]. intros [= H1 H2 H3]. by exists l, L'. Qed.
Lemma tok_app L a b : map tok L = a ++ b -> exists L1 L2, L = L1 ++ L2 /\ map tok L1 = a /\ map tok L2 = b.
Proof. intros H. apply List.map_eq_app in H as (L1 & L2 & -> & H1 & H2). by exists L1, L2. Qed.

Lemma below_items n x l R L : 0 <= n -> Forall (fun v => yaml_ok v = true) l -> map tok L = flat_map (item_lines n) l -> below n R -> (n < x) -> below x (L ++ R).
Proof.
  intros Hn Hok HL HR Hx. destruct L as [|l0 L]; cbn [app below]; [destruct R; [done|]; cbn [below] in *; lia|].
  destruct l as [|v l]; [done|]. apply Forall_cons in Hok as [Hv _]. cbn [flat_map] in HL. unfold item_lines at 1 in HL.
  destruct (leaf_text v) eqn:Et; [injection HL as ? ? ?; lia|]. destruct (is_object v); [|injection HL as ? ? ?; lia].
  destruct (head_indent v (n + 2)) as (t & r & E & _); [done|]. rewrite E in HL. cbn [merge_dash app] in HL. injection HL as ? ? ?. lia.
Qed.

Lemma read_seq l : Forall reads l -> Forall (fun v => yaml_ok v = true) l -> forall n L R fuel g arr, 0 <= n ->
  map tok L = flat_map (item_lines n) l -> below n R -> entry_count (JArray l) <= g -> 2 * g + 1 <= Z.of_nat fuel ->
  parseSeq raw fuel n (L ++ R) g arr = Some (arr ++ l, R, g - entry_count (JArray l)).
Proof.
  induction l as [|x l IH]; intros HR Hok n L R fuel g arr Hn HL Hb Hg Hf; (assert (Hg0 : 0 <= g) by (etrans; [apply entry_count_nonneg|exact Hg])); (destruct fuel as [|fuel]; [lia|]).
  - apply map_eq_nil in HL as ->. cbn [app parseSeq entry_count fold_right]. rewrite app_nil_r, Z.sub_0_r. destruct R as [|r R]; [done|].
    cbn [below] in Hb. rewrite (proj2 (Z.eqb_neq (ln_indent r) n)) by lia. done.
  - apply Forall_cons in HR as [Hx HR]. apply Forall_cons in Hok as [Hox Hok]. cbn [flat_map] in HL.
    change (entry_count (JArray (x :: l))) with (1 + entry_count x + entry_count (JArray l)) in *.
    pose proof (entry_count_nonneg x) as Hx0. pose proof (entry_count_nonneg (JArray l)) as Hl0.
    apply tok_app in HL as (L1 & L2 & -> & H1 & H2). rewrite <- app_assoc.
    assert (Hnext : forall g' arr', entry_count (JArray l) <= g' -> g' <= g - 1 -> parseSeq raw fuel n (L2 ++ R) g' arr' = Some (arr' ++ l, R, g' - entry_count (JArray l)))
      by (intros; apply IH; (done || lia)).
    assert (Hdone : forall arr' g', g' = g - 1 - entry_count x -> arr' = arr ++ [x] -> parseSeq raw fuel n (L2 ++ R) g' arr' = Some (arr ++ x :: l, R, g - (1 + entry_count x + entry_count (JArray l)))).
    { intros arr' g' -> ->. rewrite Hnext by lia. rewrite <- app_assoc. cbn [app]. do 2 f_equal. lia. }
    assert (Hbelow : below (n + 2) (L2 ++ R)) by (by apply (below_items n _ l); [| | | |lia]).
    unfold item_lines in H1. destruct (leaf_text x) as [t|] eqn:Et.
    + apply tok_cons in H1 as (l0 & L' & -> & Hi & Ht & H1). apply map_eq_nil in H1 as ->. cbn [app parseSeq]. unfold dash. rewrite Hi, Ht, Z.eqb_refl.
      change (starts_with_chr 45 (lit "- " ++ t)) with true. cbn [andb negb]. rewrite (proj2 (Z.ltb_lt 0 g)) by lia. cbn [negb].
      rewrite item_rest_dash by (by eapply clean_leaf). destruct (scalar_leaf x t Hox Et) as (Hs & _ & Hne). destruct (is_nil t) eqn:En; [by apply is_nil_true in En|].
      rewrite (leaf_colon x t Hox Et), Hs. apply Hdone; [|done]. destruct x as [| | | | | |[|]|]; try done; cbn; lia.
    + assert (Hc : container x) by done. destruct (head_indent x (n + 2) Hc) as (t0 & r0 & E0 & Hd0 & Hd1). pose proof (lines_ok x Hox (n + 2) ltac:(lia)) as Hlo. rewrite E0 in Hlo.
      apply Forall_cons in Hlo as [[_ Hct] _]. cbn [snd] in Hct. destruct (is_object x) eqn:Ex.
      * rewrite E0 in H1. cbn [merge_dash] in H1. apply tok_cons in H1 as (l0 & L' & -> & Hi & Ht & H1). cbn [app parseSeq]. unfold dash. rewrite Hi, Ht, Z.eqb_refl.
        change (starts_with_chr 45 (lit "- " ++ t0)) with true. cbn [andb negb]. rewrite (proj2 (Z.ltb_lt 0 g)) by lia. cbn [negb].
        rewrite item_rest_dash by done. destruct (is_nil t0) eqn:En; [apply is_nil_true in En as ->; by destruct Hct|].
        assert (Hk : exists c, keyColon t0 = Some c).
        { destruct x as [| | | | | | |m]; try done. apply ok_members in Hox as (Hm & _ & Hok'). destruct m as [|[k v] m]; [done|]. apply Forall_cons in Hok' as [[Hk _] _].
          cbn [fst] in Hk. cbn [block_lines flat_map fst snd] in E0. destruct (leaf_text v); cbn [app] in E0; injection E0 as <- _; eexists; apply (member_read k); try done; first [by left|by right]. }
        destruct Hk as [c ->]. change (mkLine (n + 2) t0 (ln_rawIdx l0) :: L' ++ L2 ++ R) with ((mkLine (n + 2) t0 (ln_rawIdx l0) :: L') ++ L2 ++ R).
        rewrite (Hx Hc (n + 2)) by (try lia; try done; cbn [map tok ln_indent ln_text]; by rewrite E0, H1). apply Hdone; [lia|done].
      * apply tok_cons in H1 as (l0 & L' & -> & Hi & Ht & H1). cbn [app parseSeq]. unfold dash. rewrite Hi, Ht, Z.eqb_refl.
        change (starts_with_chr 45 (lit "-")) with true. cbn [andb negb]. rewrite (proj2 (Z.ltb_lt 0 g)) by lia. cbn [negb]. change (item_rest (lit "-")) with (u_trimmed []). change (u_trimmed []) with (@nil Z). cbn [is_nil].
        pose proof H1 as H1'. rewrite E0 in H1'. apply tok_cons in H1' as (l1 & L'' & -> & Hi1 & _ & _). cbn [app]. rewrite Hi1, (proj2 (Z.ltb_lt n (n + 2))) by lia.
        change (l1 :: L'' ++ L2 ++ R) with ((l1 :: L'') ++ L2 ++ R). rewrite (Hx Hc (n + 2)) by (done || lia). apply Hdone; [lia|done].
Qed.

Lemma insert_last k (v : json) acc m : v <> JUndefined -> qm_sorted (acc ++ (k, v) :: m) -> insert k v acc = acc ++ [(k, v)].
Proof.
  intros Hv Hs. assert (E : insert k v acc = qm_insert k v acc) by by destruct v. rewrite E. clear E. induction acc as [|[k1 v1] acc IH]; [done|].
  cbn [app qm_sorted] in Hs. destruct Hs as [Ha Hs]. unfold above in Ha. rewrite Forall_app, Forall_cons in Ha. destruct Ha as (_ & Hk & _). cbn [fst] in Hk.
  cbn [qm_insert app]. by rewrite Hk, IH.
Qed.

Lemma ok_defined v : yaml_ok v = true -> v <> JUndefined.
Proof. by intros H ->. Qed.

Lemma below_members n x m R L : 0 <= n -> map tok L = flat_map (member_lines n) m -> below n R -> n < x -> below x (L ++ R).
Proof.
  intros Hn HL HR Hx. destruct L as [|l0 L]; cbn [app below]; [destruct R; [done|]; cbn [below] in *; lia|].
  destruct m as [|[k v] m]; [done|]. cbn [flat_map] in HL. unfold member_lines at 1 in HL. destruct (leaf_text _); injection HL as ? ? ?; lia.
Qed.

Lemma read_map m : Forall (fun e => reads (snd e)) m -> Forall (fun e => key_ok (fst e) = true /\ yaml_ok (snd e) = true) m -> forall n L R fuel g acc, 0 <= n ->
  map tok L = flat_map (member_lines n) m -> below n R -> entry_count (JObject m) <= g -> 2 * g + 1 <= Z.of_nat fuel -> qm_sorted (acc ++ m) ->
  parseMap raw fuel n (L ++ R) g acc = Some (acc ++ m, R, g - entry_count (JObject m)).
Proof.
  induction m as [|[k x] m IH]; intros HR Hok n L R fuel g acc Hn HL Hb Hg Hf Hs; (assert (Hg0 : 0 <= g) by (etrans; [apply entry_count_nonneg|exact Hg])); (destruct fuel as [|fuel]; [lia|]).
  - apply map_eq_nil in HL as ->. cbn [app parseMap entry_count fold_right]. rewrite app_nil_r, Z.sub_0_r. destruct R as [|r R]; [done|].
    cbn [below] in Hb. rewrite (proj2 (Z.eqb_neq (ln_indent r) n)) by lia. done.
  - apply Forall_cons in HR as [Hx HR]. apply Forall_cons in Hok as [[Hk Hox] Hok]. cbn [flat_map fst snd] in *.
    change (entry_count (JObject ((k, x) :: m))) with (1 + entry_count x + entry_count (JObject m)) in *.
    pose proof (entry_count_nonneg x) as Hx0. pose proof (entry_count_nonneg (JObject m)) as Hl0.
    apply tok_app in HL as (L1 & L2 & -> & H1 & H2). rewrite <- app_assoc.
    assert (Hdone : forall g', g' = g - 1 - entry_count x -> parseMap raw fuel n (L2 ++ R) g' (insert k x acc) = Some (acc ++ (k, x) :: m, R, g - (1 + entry_count x + entry_count (JObject m)))).
    { intros g' ->. rewrite (insert_last k x acc m) by (done || by apply ok_defined). rewrite IH; try done; try lia.
      - rewrite <- app_assoc. cbn [app]. do 2 f_equal. lia.
      - by rewrite <- app_assoc. }
    assert (Hbelow : below (n + 2) (L2 ++ R)) by (by apply (below_members n _ m); [| | |lia]).
    unfold member_lines in H1. cbn [fst snd] in H1. destruct (leaf_text x) as [t|] eqn:Et.
    + apply tok_cons in H1 as (l0 & L' & -> & Hi & Ht & H1). apply map_eq_nil in H1 as ->. cbn [app parseMap]. unfold dash. rewrite Hi, Ht, Z.eqb_refl.
      change (k ++ lit ": " ++ t) with (k ++ 58 :: 32 :: t). destruct (member_read k (32 :: t) Hk) as (Hd & Hkc & Hu & Hdr). rewrite Hd, (Hkc ltac:(by right)), Hu, Hdr.
      cbn [andb negb]. rewrite (proj2 (Z.ltb_lt 0 g)) by lia. cbn [negb].
      assert (Htr : u_trimmed (32 :: t) = t).
      { pose proof (trimmed_clean_text t (clean_leaf x t Hox Et)) as Htc. unfold u_trimmed, trim_by in *. cbn [drop_while]. by rewrite (proj1 space_at). }
      rewrite Htr. destruct (scalar_leaf x t Hox Et) as (Hsc & Hbl & Hne). destruct (is_nil t) eqn:En; [by apply is_nil_true in En|]. rewrite Hbl, Hsc. cbn [negb].
      apply Hdone. destruct x as [| | | | | |[|]|]; try done; cbn; lia.
    + assert (Hc : container x) by done. destruct (head_indent x (n + 2) Hc) as (t0 & r0 & E0 & _ & _).
      apply tok_cons in H1 as (l0 & L' & -> & Hi & Ht & H1). cbn [app parseMap]. unfold dash. rewrite Hi, Ht, Z.eqb_refl.
      change (k ++ lit ":") with (k ++ 58 :: []). destruct (member_read k [] Hk) as (Hd & Hkc & Hu & Hdr). rewrite Hd, (Hkc ltac:(by left)), Hu, Hdr.
      cbn [andb negb]. rewrite (proj2 (Z.ltb_lt 0 g)) by lia. cbn [negb]. change (u_trimmed []) with (@nil Z). cbn [is_nil negb].
      pose proof H1 as H1'. rewrite E0 in H1'. apply tok_cons in H1' as (l1 & L'' & -> & Hi1 & _ & _). cbn [app]. rewrite Hi1, (proj2 (Z.ltb_lt n (n + 2))) by lia.
      change (l1 :: L'' ++ L2 ++ R) with ((l1 :: L'') ++ L2 ++ R). rewrite (Hx Hc (n + 2)) by (done || lia). by apply Hdone; lia.
Qed.

Lemma reads_all v : reads v.
Proof.
  induction v as [| |b|z|d|s|l IH|m IH] using json_ind'; intros Hc n L R fuel g Hn HL Hb Hg Hf; try (by destruct Hc).
  - destruct (head_indent _ n Hc) as (t & r & E & _ & Hd). pose proof HL as HL'. rewrite E in HL'. apply tok_cons in HL' as (l0 & L' & EL & Hi & Ht & _).
    destruct Hc as [Hlt Hok]. destruct fuel as [|fuel]; [pose proof (entry_count_nonneg (JArray l)); lia|].
    assert (Hg1 : 1 <= g). { destruct l as [|x l]; [done|]. change (entry_count (JArray (x :: l))) with (1 + entry_count x + entry_count (JArray l)) in Hg. pose proof (entry_count_nonneg x). pose proof (entry_count_nonneg (JArray l)). lia. }
    cbn [parseBlock]. rewrite EL at 1. cbn [app]. rewrite (proj2 (Z.leb_gt g 0)) by lia. unfold dash. rewrite Ht, Hd, Hi, Z.eqb_refl by done. cbn [andb].
    rewrite (read_seq l IH (ok_items l Hok)); [done|done|exact HL|done|done|lia].
  - destruct (head_indent _ n Hc) as (t & r & E & Hd & _). pose proof HL as HL'. rewrite E in HL'. apply tok_cons in HL' as (l0 & L' & EL & Hi & Ht & _).
    destruct Hc as [Hlt Hok]. destruct (ok_members m Hok) as (Hm & Hs & Hom). destruct fuel as [|fuel]; [pose proof (entry_count_nonneg (JObject m)); lia|].
    assert (Hg1 : 1 <= g). { destruct m as [|x m]; [done|]. change (entry_count (JObject (x :: m))) with (1 + entry_count (snd x) + entry_count (JObject m)) in Hg. pose proof (entry_count_nonneg (snd x)). pose proof (entry_count_nonneg (JObject m)). lia. }
    cbn [parseBlock]. rewrite EL at 1. cbn [app]. rewrite (proj2 (Z.leb_gt g 0)) by lia. unfold dash. rewrite Ht, Hd by done. cbn [andb].
    rewrite (read_map m IH Hom); [done|done|exact HL|done|done|lia|done].
Qed.
End Reading.

(** C19. What is written in block style is read back: any nesting of non-empty maps and
    sequences, at the top one of them, whose map keys are in order and made of letters,
    digits, hyphens and underscores (no hyphen in front), over strings without line feeds
    and tabulators -- whatever quotes, comment signs, colons or commas they hold --,
    naturals up to 2^53, booleans, nulls and empty sequences, up to a hundred thousand
    entries.  The reader does not keep a tabulator even inside quotes
    ([quoted_tab_changes]), nor larger integers ([big_integer_changes]). *)
Theorem yaml_roundtrip v : container v -> entry_count v <= kGuard -> parseYaml (write_yaml v) = Some v.
Proof.
  intros Hc Hg. pose proof Hc as [_ Hok]. pose proof (lines_ok v Hok 0 ltac:(lia)) as Hl. destruct (head_indent v 0 Hc) as (t & r & E & _ & _).
  unfold parseYaml, tokenize, write_yaml. cbn [cx_lines cx_raw]. set (texts := map (fun e => spaces (fst e) ++ snd e) (block_lines 0 v)).
  assert (Hsp : split_on 10 (join [10] texts) = texts).
  { apply split_join; [unfold texts; by rewrite E|]. unfold texts. apply Forall_fmap. eapply Forall_impl; [exact Hl|]. intros [n x] [_ [_ _ _ _ [Hlf _] _]]. cbn [compose fst snd] in *.
    rewrite not_elem_of_app. split; [|done]. intros Hin. by apply elem_of_replicate in Hin as []. }
  rewrite Hsp. pose proof (number_lines_tok (block_lines 0 v) 0 Hl) as Ht. fold texts in Ht. set (L := number_lines 0 (map raw_line texts)) in *.
  pose proof Ht as Ht'. rewrite E in Ht'. apply tok_cons in Ht' as (l0 & L' & EL & Hi & _ & _). rewrite EL, Hi, <- EL.
  rewrite <- (app_nil_r L) at 1. rewrite (reads_all (map raw_line texts) v Hc 0 L []); [done|lia|done|done|done|unfold parse_fuel, kGuard; lia].
Qed.

(** ** Literal block scalars *)

Definition written_line (k : Z) (c : qstr) : qstr := if is_nil c then [] else spaces k ++ c.

Lemma trimmed_spaces k c : u_trimmed (spaces k ++ c) = u_trimmed c.
Proof.
  unfold spaces. generalize (Z.to_nat k). intros n. induction n as [|n IH]; [done|]. cbn [replicate app]. unfold u_trimmed, trim_by in *. cbn [drop_while].
  rewrite (proj1 space_at). exact IH.
Qed.
Lemma indent_spaces k c : 0 <= k -> indent_of (spaces k ++ c) = k + indent_of c.
Proof.
  intros Hk. unfold spaces. rewrite <- (Z2Nat.id k) at 2 by done. generalize (Z.to_nat k). intros n. induction n as [|n IH]; [done|].
  cbn [replicate app indent_of]. change (32 =? 32) with true. cbv iota. rewrite IH. lia.
Qed.
Lemma indent_nonneg c : 0 <= indent_of c.
Proof. induction c as [|x c IH]; cbn [indent_of]; [done|]. destruct (x =? 32); lia. Qed.

(** Lines of a literal block: empty, or with something to see in them. *)
Definition content_line (c : qstr) : Prop := c = [] \/ blank c = false.

Lemma take_written k keyIndent cs rest : 0 <= keyIndent < k -> Forall content_line cs ->
  match rest with [] => True | l :: _ => blank l = false /\ indent_of l <= keyIndent end ->
  take_block keyIndent (map (written_line k) cs ++ rest) = map (written_line k) cs.
Proof.
  intros Hk Hc Hr. induction Hc as [|c cs Hl _ IH]; cbn [map app].
  - destruct rest as [|l rest]; [done|]. destruct Hr as [Hb Hi]. cbn [take_block]. by rewrite Hb, (proj2 (Z.leb_le _ _)) by done.
  - cbn [take_block]. rewrite IH. destruct Hl as [->|Hb]; [done|]. destruct (is_nil c) eqn:En; [apply is_nil_true in En as ->; done|].
    assert (Ew : written_line k c = spaces k ++ c) by (unfold written_line; by rewrite En). rewrite Ew. unfold blank in *. rewrite trimmed_spaces, Hb, indent_spaces by lia. pose proof (indent_nonneg c). by rewrite (proj2 (Z.leb_gt _ _)) by lia.
Qed.

Lemma block_indent_written k cs b : 0 <= k -> Forall content_line cs -> b = -1 \/ k <= b ->
  let r := fold_left (fun b ln => if blank ln then b else if b <? 0 then indent_of ln else Z.min b (indent_of ln)) (map (written_line k) cs) b in
  (r = -1 \/ k <= r) /\ (b = k -> r = k) /\ (Exists (fun c => c <> [] /\ indent_of c = 0) cs -> r = k).
Proof.
  intros Hk Hc. revert b. induction Hc as [|c cs Hl _ IH]; intros b Hb; cbn [map fold_left]; [split; [done|]; split; [done|]; intros He; by apply Exists_nil in He|].
  destruct Hl as [->|Hbl].
  - change (written_line k []) with (@nil Z). change (blank []) with true. cbv iota. destruct (IH b Hb) as (I1 & I2 & I3). split; [done|]. split; [done|]. intros He. apply Exists_cons in He as [[? _]|He]; [done|by apply I3].
  - destruct (is_nil c) eqn:En; [apply is_nil_true in En as ->; done|]. pose proof (indent_nonneg c) as Hc0.
    assert (Ew : written_line k c = spaces k ++ c) by (unfold written_line; by rewrite En).
    assert (Hnb : blank (spaces k ++ c) = false) by (unfold blank in *; by rewrite trimmed_spaces). rewrite Ew, Hnb, indent_spaces by done.
    set (b' := if b <? 0 then k + indent_of c else Z.min b (k + indent_of c)).
    assert (Hb' : k <= b' /\ (b = k -> b' = k) /\ (indent_of c = 0 -> b' = k)) by (unfold b'; destruct Hb as [->|Hb]; [cbn|rewrite (proj2 (Z.ltb_ge b 0)) by lia]; lia).
    destruct Hb' as (B1 & B2 & B3). destruct (IH b' (or_intror B1)) as (I1 & I2 & I3). split; [done|]. split; [auto|]. intros He. apply Exists_cons in He as [[_ Hi]|He]; auto.
Qed.

Lemma peel_last cs c : last cs = Some c -> c <> [] -> peel cs = (cs, 0).
Proof.
  induction cs as [|x cs IH]; [done|]. intros Hl Hc. cbn [peel]. destruct cs as [|y cs].
  - cbn in Hl. injection Hl as ->. cbn [peel]. destruct (is_nil c) eqn:E; [by apply is_nil_true in E|]. done.
  - rewrite IH by done. done.
Qed.

(** A literal block keeps its text: lines indented by more than the key, some of
    them by no more than that, empty lines between them included, are the value with
    line breaks between and one at the end (none with the strip mark), and reading goes
    on after them. *)
Theorem literal_block_exact (pre cs rest : list qstr) (k keyIndent : Z) (strip : bool) (c : qstr) :
  0 <= keyIndent < k -> Forall content_line cs -> Exists (fun c => c <> [] /\ indent_of c = 0) cs -> last cs = Some c -> c <> [] ->
  match rest with [] => True | l :: _ => blank l = false /\ indent_of l <= keyIndent end ->
  readBlockScalar (pre ++ map (written_line k) cs ++ rest) (zlen pre) keyIndent 124 (if strip then Some 45 else None) =
    (join [10] cs ++ (if strip then [] else [10]), zlen pre + zlen cs).
Proof.
  intros Hk Hc He Hl Hne Hr. unfold readBlockScalar.
  assert (Hd : forall X : list qstr, drop (Z.to_nat (zlen pre)) (pre ++ X) = X) by (intros X; unfold zlen; rewrite Nat2Z.id; apply drop_app_length).
  rewrite Hd, take_written by done.
  assert (Hlen : zlen (map (written_line k) cs) = zlen cs) by (unfold zlen; by rewrite length_map). rewrite Hlen.
  destruct (block_indent_written k cs (-1) ltac:(lia) Hc (or_introl eq_refl)) as (_ & _ & Hb). unfold block_indent. rewrite (Hb He).
  rewrite (proj2 (Z.ltb_ge k 0)) by lia. rewrite map_map.
  assert (Hm : map (fun c => if k <=? zlen (written_line k c) then drop (Z.to_nat k) (written_line k c) else []) cs = cs).
  { etrans; [|apply map_id]. apply map_ext. intros x. unfold written_line. destruct (is_nil x) eqn:En.
    - apply is_nil_true in En as ->. change (zlen []) with 0. by rewrite (proj2 (Z.leb_gt k 0)) by lia.
    - rewrite zlen_app. assert (Hs : zlen (spaces k) = k) by (unfold zlen, spaces; rewrite length_replicate; lia). rewrite Hs.
      pose proof (zlen_nonneg x). rewrite (proj2 (Z.leb_le _ _)) by lia. assert (Hl' : Z.to_nat k = length (spaces k)) by (unfold spaces; by rewrite length_replicate). rewrite Hl'. apply drop_app_length. }
  rewrite Hm, (peel_last cs c Hl Hne). destruct (is_nil cs) eqn:En; [apply is_nil_true in En as ->; done|]. change (124 =? 124) with true. cbv iota.
  destruct strip; [cbn [Z.eqb Pos.eqb]; by rewrite app_nil_r|done].
Qed.
End Documents.

(** ** A concrete instance and witnesses *)

Section Examples.
#[local] Existing Instances asciiText sampleGlobal.

Definition ex_doc : json :=
  JObject [(lit "http", JArray [JObject [(lit "matchers", JArray [JString (lit "it's: #1, ok"); JInt 200]); (lit "path", JArray [])]]); (lit "id", JString (lit "x-1"))].

Lemma yaml_roundtrip_witness :
  split_on 10 (write_yaml ex_doc) =
    [lit "http:"; lit "  - matchers:"; lit "      - 'it''s: #1, ok'"; lit "      - 200"; lit "    path: []"; lit "id: 'x-1'"] /\
  parseYaml (write_yaml ex_doc) = Some ex_doc.
Proof.
  split; [vm_compute; reflexivity|]. apply (yaml_roundtrip (QL := asciiText_laws)); [split; vm_compute; reflexivity|vm_compute; discriminate].
Defined.

Lemma literal_block_exact_witness :
  readBlockScalar [lit "k: |"; lit "   a # b"; []; lit "     c"; lit "next: 1"] 1 0 124 None = (lit "a # b" ++ [10; 10] ++ lit "  c" ++ [10], 4).
Proof.
  etrans; [apply (literal_block_exact (QL := asciiText_laws) [lit "k: |"] [lit "a # b"; []; lit "  c"] [lit "next: 1"] 3 0 false (lit "  c"))|vm_compute; reflexivity].
  - lia.
  - constructor; [right; vm_compute; reflexivity|]. constructor; [by left|]. constructor; [right; vm_compute; reflexivity|constructor].
  - constructor. split; [discriminate|vm_compute; reflexivity].
  - reflexivity.
  - discriminate.
  - split; [vm_compute; reflexivity|vm_compute; discriminate].
Defined.

(** A document as the templates are written. *)
Definition yaml_text (ls : list String.string) : qstr := join [10] (map lit ls).
Example nuclei_template :
  nucleiYamlToTemplate (yaml_text ["id: demo # a comment"; "info:"; "  name: 'Demo'"; "http:"; "- method: POST"; "  path:"; "    - '{{BaseURL}}/login'"; "  matchers:"; "  - type: word"; "    words: [ok, 'a,b']"]%string)
  = Some [(lit "id", JString (lit "demo")); (lit "matchers", JArray [JObject [(lit "type", JString (lit "word")); (lit "words", JArray [JString (lit "ok"); JString (lit "a,b")])]]);
          (lit "name", JString (lit "Demo")); (lit "request", JObject [(lit "method", JString (lit "POST")); (lit "path", JString (lit "/login"))]); (lit "severity", JString [])].
Proof. vm_compute. reflexivity. Qed.

(** Defect: the keep mark counts the empty text after the last line break of the file as
    a line of the block. *)
Example keep_adds_line : parseYaml (yaml_text ["a: |+"; "  x"; ""]%string) = Some (JObject [(lit "a", JString (lit "x" ++ [10; 10]))]).
Proof. vm_compute. reflexivity. Qed.

(** Defect: an escaped quote in a double-quoted scalar ends the quoting for the comment
    scanner, so the rest of the value is lost. *)
Definition dq : qstr := [34].
Example escaped_quote_cuts_value :
  parseYaml (lit "a: " ++ dq ++ lit "5\" ++ dq ++ lit " # x" ++ dq) = Some (JObject [(lit "a", JString (lit "5\"))]).
Proof. vm_compute. reflexivity. Qed.

(** Defect: a double quote inside a plain scalar opens a quoted region, which an
    apostrophe there does not. *)
Example inner_quote_keeps_comment :
  parseYaml (lit "a: 5" ++ dq ++ lit " disk # note") = Some (JObject [(lit "a", JString (lit "5" ++ dq ++ lit " disk # note"))]) /\
  parseYaml (lit "a: 5' disk # note") = Some (JObject [(lit "a", JString (lit "5' disk"))]).
Proof. split; vm_compute; reflexivity. Qed.

(** Defect: tabulators are replaced by two blanks before quotes are looked at, so a quoted
    string is read back changed. *)
Example quoted_tab_changes :
  parseYaml (lit "a: 'x" ++ [9] ++ lit "y'") = Some (JObject [(lit "a", JString (lit "x  y"))]).
Proof. vm_compute. reflexivity. Qed.

(** Defect: an integer above 2^53 passes the check that it round-trips, which compares
    the integer and not the double it is stored as. *)
Example big_integer_changes : parseYaml (lit "w: 9007199254740993") = Some (JObject [(lit "w", JInt 9007199254740992)]).
Proof. vm_compute. reflexivity. Qed.
End Examples.
