(* ===== verification/Repeater.v ===== *)
(** * The repeater: Src/Core/Networking/repeater.cpp

    Tabs with their requests, responses and histories; one send with its normalization,
    session rules and redirects; the worker that sends in the background while the
    tabs are edited; the JSON state of the project file.  The network, the flag as the
    worker reads it and the session rules are arguments of a send. *)

From S2P Require Import Prelude Qt QtSample QMap Json JsonSample HttpFraming NetFraming ProxyPolicy ChainRunner Utf8 Redirect SessionRules HttpClient Transcode IntruderRunner.

Local Open Scope Z_scope.

(** ** Data *)

(** What a send leaves in a tab. *)
Record Response := mkResp {
  rp_text : qstr; rp_raw : bytes; rp_body : bytes; rp_decoded : bool; rp_status : qstr; rp_elapsed : Z; rp_bytes : Z
}.
Definition noResponse : Response := mkResp [] [] [] false [] (-1) (-1).

Record RepeaterHistoryEntry := mkEntry { he_request : qstr; he_latin1 : bool; he_response : Response; he_sentAt : qstr }.

Record RepeaterTab := mkTab {
  tb_name : qstr; tb_host : qstr; tb_port : Z; tb_tls : bool; tb_request : qstr; tb_latin1 : bool;
  tb_response : Response; tb_notes : qstr; tb_history : list RepeaterHistoryEntry
}.
Definition makeBlankTab (name : qstr) : RepeaterTab := mkTab name [] 443 true [] false noResponse [] [].

Definition with_target (host : qstr) (port : Z) (tls : bool) (t : RepeaterTab) : RepeaterTab :=
  mkTab (tb_name t) host port tls (tb_request t) (tb_latin1 t) (tb_response t) (tb_notes t) (tb_history t).
Definition with_request (text : qstr) (latin1 : bool) (t : RepeaterTab) : RepeaterTab :=
  mkTab (tb_name t) (tb_host t) (tb_port t) (tb_tls t) text latin1 (tb_response t) (tb_notes t) (tb_history t).
Definition with_response (r : Response) (t : RepeaterTab) : RepeaterTab :=
  mkTab (tb_name t) (tb_host t) (tb_port t) (tb_tls t) (tb_request t) (tb_latin1 t) r (tb_notes t) (tb_history t).
Definition with_history (h : list RepeaterHistoryEntry) (t : RepeaterTab) : RepeaterTab :=
  mkTab (tb_name t) (tb_host t) (tb_port t) (tb_tls t) (tb_request t) (tb_latin1 t) (tb_response t) (tb_notes t) h.
Definition with_name (n : qstr) (t : RepeaterTab) : RepeaterTab :=
  mkTab n (tb_host t) (tb_port t) (tb_tls t) (tb_request t) (tb_latin1 t) (tb_response t) (tb_notes t) (tb_history t).
Definition with_notes (n : qstr) (t : RepeaterTab) : RepeaterTab :=
  mkTab (tb_name t) (tb_host t) (tb_port t) (tb_tls t) (tb_request t) (tb_latin1 t) (tb_response t) n (tb_history t).

Section Operations.
Context {Q : QtText} {R : QtRegex} {RR : QtReplace} {J : QtJson} {UD : QtUrl} {C : QtCodecs} {LL : QtLenient} {K : QtQUrl} {JJ : QtCookieJar K}.

(** The settings a send copies. *)
Record Settings := mkSettings { st_auto : bool; st_policy : Z; st_cookies : bool; st_inScope : option (Url -> bool) }.

(** A background send: the tab it was started on, a copy of it, the shared flag and, once
    the worker is through, the tab it queues back. *)
Record Job := mkJob { jb_index : Z; jb_tab : RepeaterTab; jb_settings : Settings; jb_cancel : bool; jb_done : option RepeaterTab }.

(** [m_flag]: [m_cancel] is set (it is the flag of the newest job). *)
Record Repeater := mkRepeater {
  m_tabs : list RepeaterTab; m_active : Z; m_busy : bool; m_flag : bool; m_settings : Settings; m_jobs : list Job
}.
Definition emptyRepeater (inScope : option (Url -> bool)) : Repeater :=
  mkRepeater [makeBlankTab (lit "tab 1")] 0 false false (mkSettings true FollowNever true inScope) [].

Definition with_tabs (tabs : list RepeaterTab) (active : Z) (r : Repeater) : Repeater :=
  mkRepeater tabs active (m_busy r) (m_flag r) (m_settings r) (m_jobs r).
Definition with_settings (s : Settings) (r : Repeater) : Repeater :=
  mkRepeater (m_tabs r) (m_active r) (m_busy r) (m_flag r) s (m_jobs r).
Definition with_jobs (busy flag : bool) (jobs : list Job) (r : Repeater) : Repeater :=
  mkRepeater (m_tabs r) (m_active r) busy flag (m_settings r) jobs.

(** [activeTab_()]: repairs the index first. *)
Definition activeTab_ (r : Repeater) : Repeater :=
  if (m_active r <? 0) || (zlen (m_tabs r) <=? m_active r)
  then with_tabs (if is_nil (m_tabs r) then [makeBlankTab (lit "tab 1")] else m_tabs r) 0 r else r.
Definition activeTab (r : Repeater) : RepeaterTab := default (makeBlankTab []) (m_tabs r !! Z.to_nat (m_active r)).
Definition on_active (f : RepeaterTab -> RepeaterTab) (r : Repeater) : Repeater :=
  let r := activeTab_ r in with_tabs (alter f (Z.to_nat (m_active r)) (m_tabs r)) (m_active r) r.
Definition in_range (i : Z) (r : Repeater) : bool := (0 <=? i) && (i <? zlen (m_tabs r)).

Definition responseDisplay (wire body : bytes) : qstr :=
  match index_sub CRLFCRLF wire with
  | None => u_fromutf8 wire
  | Some e => u_fromutf8 (take (e + 4)%nat wire ++ body)
  end.

Definition autoTabName (host request : qstr) : qstr :=
  let first := u_trimmed (before_chr 10 request) in
  let first := if 60 <? zlen first then take 57 first ++ lit "..." else first in
  if is_nil first then (if is_nil host then lit "tab" else host) else take 48 (first ++ lit " @ " ++ host).

(** ** One send *)

(** The flag as it is read at the start, before each redirect and at the end. *)
Record Reads := mkReads { cr_start : bool; cr_hop : nat -> bool; cr_end : bool }.

Definition ToolRepeater : Z := 2.
Definition kMaxTabHistory : nat := 100.
Definition encodingResponse : Response :=
  mkResp (lit "[error] Request contains characters outside Latin-1. Select UTF-8 encoding.") [] [] false (lit "Encoding error") 0 0.

Definition wireBytes (s : Settings) (rules : option State) (host : qstr) (bytes0 : bytes) : bytes :=
  let b := if st_auto s then normalizeContentLength bytes0 else bytes0 in
  match rules with Some sr => fst (applyToRequestBytes sr b host ToolRepeater) | None => b end.

Definition response_of (result : SendResult) (hops : nat) (stopped : bool) (elapsed : Z) : Response :=
  let p := sd_parsed result in
  let raw := sd_rawResponse result in
  let body := bodyForInspection p in
  let note :=
    (if (0 <? hops)%nat then lit "  [followed " ++ number 10 (Z.of_nat hops) ++ lit " redirect" ++ (if (hops =? 1)%nat then [] else lit "s") ++ lit "]" else [])
    ++ (if stopped then lit "  [stopped after current response]" else []) in
  let decoded := rs_contentDecoded p || negb (is_nil (rs_decodedBody p)) in
  if sd_ok result then
    mkResp (responseDisplay raw body) raw body decoded
      (arg (arg (arg (lit "%1 %2 %3") (rs_httpVersion p)) (number 10 (rs_statusCode p))) (rs_reasonPhrase p) ++ note) elapsed (zlen raw)
  else mkResp (lit "[error] " ++ sd_errorMessage result) raw body decoded (lit "error" ++ note) elapsed (zlen raw).

Definition append_history (e : RepeaterHistoryEntry) (h : list RepeaterHistoryEntry) : list RepeaterHistoryEntry :=
  drop (length (h ++ [e]) - kMaxTabHistory)%nat (h ++ [e]).

(** [send()] on one tab: the tab it leaves and what it sent. *)
Definition send_tab (s : Settings) (rules : option State) (net : Net) (c : Reads) (elapsed : Z) (sentAt : qstr) (t : RepeaterTab) : RepeaterTab * list Sent :=
  if cr_start c || is_nil (tb_host t) || is_nil (tb_request t) then (t, [])
  else
    let encoded := encodeRequestText (tb_request t) (tb_latin1 t) in
    if is_nil encoded then (with_response encodingResponse t, [])
    else
      let request := wireBytes s rules (tb_host t) encoded in
      let '(result, log) := client_send net [] (mkSent (tb_host t) (tb_port t mod 2 ^ 16) (tb_tls t) request) in
      let '(result, hops, log) :=
        followRedirects net (in_scope_of (st_inScope s)) (st_policy s) (st_cookies s) (cr_hop c) (tb_tls t) (tb_host t) (tb_port t) request result log in
      let r := response_of result hops (cr_end c) elapsed in
      (with_history (append_history (mkEntry (tb_request t) (tb_latin1 t) r sentAt) (tb_history t)) (with_response r t), log).

(** ** The methods *)

Definition setHost (h : qstr) : Repeater -> Repeater := on_active (fun t =>
  if seq_eqb h (tb_host t) then t
  else with_request (rewriteHostHeader (tb_request t) (tb_host t) h) (tb_latin1 t) (with_target h (tb_port t) (tb_tls t) t)).
Definition setPort (p : Z) : Repeater -> Repeater := on_active (fun t => with_target (tb_host t) p (tb_tls t) t).
Definition setUseTls (tls : bool) : Repeater -> Repeater := on_active (fun t =>
  if Bool.eqb tls (tb_tls t) then t
  else with_target (tb_host t) (if (tb_port t =? 80) && tls then 443 else if (tb_port t =? 443) && negb tls then 80 else tb_port t) tls t).
Definition setRequestBytes (b : bytes) : Repeater -> Repeater := on_active (fun t =>
  let '(text, latin1) := decodeRequestText b in with_request text latin1 t).
Definition setRequestLatin1 (on : bool) : Repeater -> Repeater := on_active (fun t => with_request (tb_request t) on t).
Definition setRequestText (text : qstr) : Repeater -> Repeater := on_active (fun t => with_request text (tb_latin1 t) t).

(** A row of the proxy history; a row that is not there has an empty host. *)
Record HistoryRow := mkHRow { hr_host : qstr; hr_port : Z; hr_tls : bool; hr_request : HttpRequest }.

Definition loadFromHistory (row : option HistoryRow) (r : Repeater) : Repeater :=
  match row with
  | None => r
  | Some h =>
      if is_nil (hr_host h) then r
      else on_active (fun t =>
        let '(text, latin1) := decodeRequestText (serializeRequestForOrigin (hr_request h)) in
        let t := with_request text latin1 (with_target (hr_host h) (hr_port h) (hr_tls h) t) in
        if is_nil (tb_name t) || starts_with (lit "tab ") (tb_name t) then with_name (autoTabName (tb_host t) (tb_request t)) t else t) r
  end.

Definition clear (r : Repeater) : Repeater :=
  if m_busy r then r else on_active (fun t => with_response noResponse (with_request [] false t)) r.
Definition clearAll (r : Repeater) : Repeater :=
  if m_busy r then r else with_tabs [makeBlankTab (lit "tab 1")] 0 r.

(** The flag of the newest job. *)
Definition set_cancel (jobs : list Job) : list Job :=
  alter (fun j => mkJob (jb_index j) (jb_tab j) (jb_settings j) true (jb_done j)) (length jobs - 1)%nat jobs.
Definition cancel (r : Repeater) : Repeater := if m_flag r then with_jobs (m_busy r) true (set_cancel (m_jobs r)) r else r.

Definition sendAsync (r : Repeater) : Repeater :=
  if m_busy r then r
  else
    let r := activeTab_ r in
    let t := activeTab r in
    if is_nil (tb_host t) || is_nil (tb_request t) then r
    else with_jobs true true (m_jobs r ++ [mkJob (m_active r) t (m_settings r) false None]) r.

(** The worker of a job: a repeater of its own with one tab. *)
Definition work (k : nat) (rules : option State) (net : Net) (c : Reads) (elapsed : Z) (sentAt : qstr) (r : Repeater) : option (Repeater * list Sent) :=
  match m_jobs r !! k with
  | Some (mkJob i t s flag None) =>
      let c := mkReads (flag || cr_start c) (fun n => flag || cr_hop c n) (flag || cr_end c) in
      let '(t', log) := send_tab s rules net c elapsed sentAt t in
      Some (with_jobs (m_busy r) (m_flag r) (<[k := mkJob i t s flag (Some t')]> (m_jobs r)) r, log)
  | _ => None
  end.

(** The call a finished worker queues. *)
Definition deliver (k : nat) (r : Repeater) : option Repeater :=
  match m_jobs r !! k with
  | Some (mkJob i _ _ _ (Some done)) =>
      let tabs := if in_range i r then alter (fun t => with_history (tb_history done) (with_response (tb_response done) t)) (Z.to_nat i) (m_tabs r) else m_tabs r in
      Some (with_jobs false false (delete k (m_jobs r)) (with_tabs tabs (m_active r) r))
  | _ => None
  end.

(** [send()] on the GUI thread. *)
Definition send (rules : option State) (net : Net) (elapsed : Z) (sentAt : qstr) (r : Repeater) : Repeater * list Sent :=
  if m_busy r then (r, [])
  else
    let flag := m_flag r && match last (m_jobs r) with Some j => jb_cancel j | None => false end in
    if flag then (r, [])
    else
      let r := activeTab_ r in
      let t := activeTab r in
      let '(t', log) := send_tab (m_settings r) rules net (mkReads false (fun _ => false) false) elapsed sentAt t in
      (on_active (fun _ => t') r, log).

Definition loadHistoryAt (i : Z) (r : Repeater) : Repeater :=
  on_active (fun t =>
    if (i <? 0) || (zlen (tb_history t) <=? i) then t
    else match tb_history t !! Z.to_nat i with
         | Some h => with_response (he_response h) (with_request (he_request h) (he_latin1 h) t)
         | None => t
         end) r.

Definition setAutoContentLength (on : bool) (r : Repeater) : Repeater :=
  let s := m_settings r in with_settings (mkSettings on (st_policy s) (st_cookies s) (st_inScope s)) r.
Definition setFollowRedirects (policy : Z) (r : Repeater) : Repeater :=
  let s := m_settings r in
  let policy := if (policy <? FollowNever) || (FollowAlways <? policy) then FollowNever else policy in
  with_settings (mkSettings (st_auto s) policy (st_cookies s) (st_inScope s)) r.
Definition setProcessCookies (on : bool) (r : Repeater) : Repeater :=
  let s := m_settings r in with_settings (mkSettings (st_auto s) (st_policy s) on (st_inScope s)) r.

(** [deliver] or [work] on a job that is not there does nothing: it is not a step. *)

Definition tabToJson (t : RepeaterTab) : json :=
  let r := tb_response t in
  JObject (object [
    (lit "name", JString (tb_name t)); (lit "host", JString (tb_host t)); (lit "port", JInt (tb_port t)); (lit "tls", JBool (tb_tls t));
    (lit "request", JString (tb_request t)); (lit "requestLatin1", JBool (tb_latin1 t)); (lit "notes", JString (tb_notes t));
    (lit "statusLine", JString (rp_status r)); (lit "responseWireBase64", JString (b64_encode false (rp_raw r)));
    (lit "responseBodyBase64", JString (b64_encode false (rp_body r))); (lit "responseBodyDecoded", JBool (rp_decoded r));
    (lit "responseError", JString (if starts_with (lit "[error]") (rp_text r) then rp_text r else []));
    (lit "elapsedMs", JInt (rp_elapsed r)); (lit "responseBytes", JInt (rp_bytes r))]).

Definition exportState (r : Repeater) : list (qstr * json) :=
  let s := m_settings r in
  object [(lit "activeTab", JInt (m_active r)); (lit "tabs", JArray (map tabToJson (m_tabs r)));
    (lit "autoContentLength", JBool (st_auto s)); (lit "followRedirects", JInt (st_policy s)); (lit "processCookies", JBool (st_cookies s))].

Definition tabFromJson (v : json) : RepeaterTab :=
  let o := toObject v in
  let raw := b64_lenient (u_tolatin1 (toString (value o (lit "responseWireBase64")))) in
  let body := b64_lenient (u_tolatin1 (toString (value o (lit "responseBodyBase64")))) in
  let err := toString (value o (lit "responseError")) in
  mkTab (toString (value o (lit "name"))) (toString (value o (lit "host"))) (toInt 443 (value o (lit "port"))) (toBool true (value o (lit "tls")))
    (toString (value o (lit "request"))) (toBool false (value o (lit "requestLatin1")))
    (mkResp (if is_nil err then responseDisplay raw body else err) raw body (toBool false (value o (lit "responseBodyDecoded")))
       (toString (value o (lit "statusLine")))
       (if negb (contains o (lit "elapsedMs")) then -1 else variant_longlong (value o (lit "elapsedMs")))
       (toInt (-1) (value o (lit "responseBytes"))))
    (toString (value o (lit "notes"))) [].

Definition importState (o : list (qstr * json)) (r : Repeater) : Repeater :=
  if m_busy r then r
  else
    let restored := map tabFromJson (toArray (value o (lit "tabs"))) in
    let restored := if is_nil restored then [makeBlankTab (lit "tab 1")] else restored in
    let active := Z.max 0 (Z.min (toInt 0 (value o (lit "activeTab"))) (zlen restored - 1)) in
    setProcessCookies (toBool true (value o (lit "processCookies")))
      (setFollowRedirects (toInt 0 (value o (lit "followRedirects")))
         (setAutoContentLength (toBool true (value o (lit "autoContentLength"))) (with_tabs restored active r))).

(** ** Managing tabs *)

Definition append_tab (t : RepeaterTab) (r : Repeater) : Repeater * Z := (with_tabs (m_tabs r ++ [t]) (zlen (m_tabs r)) r, zlen (m_tabs r)).

Definition addTab (name : qstr) (r : Repeater) : Repeater * Z :=
  append_tab (makeBlankTab (if is_nil name then lit "tab " ++ number 10 (zlen (m_tabs r) + 1) else name)) r.

(** Both by row and by stable id. *)
Definition addTabFromHistory (row : option HistoryRow) (r : Repeater) : Repeater * Z :=
  match row with
  | None => (r, -1)
  | Some h =>
      if is_nil (hr_host h) then (r, -1)
      else
        let '(text, latin1) := decodeRequestText (serializeRequestForOrigin (hr_request h)) in
        append_tab (mkTab (autoTabName (hr_host h) text) (hr_host h) (hr_port h) (hr_tls h) text latin1 noResponse [] []) r
  end.

Definition closeTab (i : Z) (r : Repeater) : Repeater * bool :=
  if m_busy r then (r, false)
  else if negb (in_range i r) then (r, false)
  else
    let tabs := delete (Z.to_nat i) (m_tabs r) in
    let tabs := if is_nil tabs then [makeBlankTab (lit "tab 1")] else tabs in
    let active := if zlen tabs <=? m_active r then zlen tabs - 1 else m_active r in
    (with_tabs tabs (if active <? 0 then 0 else active) r, true).

Definition setActiveTab (i : Z) (r : Repeater) : Repeater * bool :=
  if negb (in_range i r) then (r, false) else (with_tabs (m_tabs r) i r, true).
Definition renameTab (i : Z) (name : qstr) (r : Repeater) : Repeater * bool :=
  if negb (in_range i r) then (r, false) else (with_tabs (alter (with_name name) (Z.to_nat i) (m_tabs r)) (m_active r) r, true).
Definition setTabNotes (i : Z) (notes : qstr) (r : Repeater) : Repeater * bool :=
  if negb (in_range i r) then (r, false) else (with_tabs (alter (with_notes notes) (Z.to_nat i) (m_tabs r)) (m_active r) r, true).

Definition duplicateTab (i : Z) (r : Repeater) : Repeater * Z :=
  match (if in_range i r then m_tabs r !! Z.to_nat i else None) with
  | None => (r, -1)
  | Some t => append_tab (with_response noResponse (with_name (tb_name t ++ lit " (copy)") t)) r
  end.

(** ** The repeater as a machine *)

Inductive Label :=
| LHost (h : qstr) | LPort (p : Z) | LTls (on : bool) | LBytes (b : bytes) | LLatin1 (on : bool) | LText (t : qstr)
| LLoad (row : option HistoryRow) | LClear | LClearAll | LAuto (on : bool) | LFollow (p : Z) | LCookies (on : bool)
| LRecall (i : Z) | LImport (o : list (qstr * json))
| LAdd (name : qstr) | LAddRow (row : option HistoryRow) | LClose (i : Z) | LActive (i : Z) | LRename (i : Z) (n : qstr) | LNotes (i : Z) (n : qstr) | LDuplicate (i : Z)
| LSend (rules : option State) (net : Net) (elapsed : Z) (sentAt : qstr)
| LSendAsync | LCancel
| LWork (k : nat) (rules : option State) (net : Net) (c : Reads) (elapsed : Z) (sentAt : qstr)
| LDeliver (k : nat).

Definition exec (r : Repeater) (l : Label) : option Repeater :=
  match l with
  | LHost h => Some (setHost h r) | LPort p => Some (setPort p r) | LTls on => Some (setUseTls on r) | LBytes b => Some (setRequestBytes b r)
  | LLatin1 on => Some (setRequestLatin1 on r) | LText t => Some (setRequestText t r) | LLoad row => Some (loadFromHistory row r)
  | LClear => Some (clear r) | LClearAll => Some (clearAll r) | LAuto on => Some (setAutoContentLength on r) | LFollow p => Some (setFollowRedirects p r)
  | LCookies on => Some (setProcessCookies on r) | LRecall i => Some (loadHistoryAt i r) | LImport o => Some (importState o r)
  | LAdd n => Some (fst (addTab n r)) | LAddRow row => Some (fst (addTabFromHistory row r)) | LClose i => Some (fst (closeTab i r))
  | LActive i => Some (fst (setActiveTab i r)) | LRename i n => Some (fst (renameTab i n r)) | LNotes i n => Some (fst (setTabNotes i n r))
  | LDuplicate i => Some (fst (duplicateTab i r))
  | LSend rules net e at_ => Some (fst (send rules net e at_ r))
  | LSendAsync => Some (sendAsync r) | LCancel => Some (cancel r)
  | LWork k rules net c e at_ => fst <$> work k rules net c e at_ r
  | LDeliver k => deliver k r
  end.
Definition rstep (r : Repeater) (l : Label) (r' : Repeater) : Prop := exec r l = Some r'.

(** ** The state stays well-formed *)

Definition capped (t : RepeaterTab) : Prop := (length (tb_history t) <= kMaxTabHistory)%nat.

(** There is a tab, the active one exists, the policy is one of the four, the histories
    are capped. *)
Definition shape (r : Repeater) : Prop :=
  m_tabs r <> [] /\ 0 <= m_active r < zlen (m_tabs r) /\ FollowNever <= st_policy (m_settings r) <= FollowAlways /\ Forall capped (m_tabs r).
Definition same_control (r r' : Repeater) : Prop := m_busy r' = m_busy r /\ m_flag r' = m_flag r /\ m_jobs r' = m_jobs r.
(** Tabs keep their place and their history. *)
Definition extends (r r' : Repeater) : Prop :=
  forall i t, m_tabs r !! i = Some t -> exists t', m_tabs r' !! i = Some t' /\ tb_history t' = tb_history t.
(** What a call other than a send does; tabs are dropped only when nothing is under way. *)
Definition quiet (r r' : Repeater) : Prop := shape r' /\ same_control r r' /\ (m_busy r = true -> extends r r').

Lemma tabs_extend_refl r : extends r r.
Proof. intros i t H. by exists t. Qed.
Lemma quiet_refl r : shape r -> quiet r r.
Proof. intros H. refine (conj H (conj _ _)); [done|intros _; apply tabs_extend_refl]. Qed.

Lemma activeTab_ok r : shape r -> activeTab_ r = r.
Proof.
  intros (_ & H & _). unfold activeTab_. destruct (_ <? 0) eqn:E1; to_prop; [lia|]. destruct (_ <=? _) eqn:E2; to_prop; [lia|done].
Qed.
Lemma activeTab_lookup r : shape r -> m_tabs r !! Z.to_nat (m_active r) = Some (activeTab r).
Proof.
  intros (_ & H & _). unfold activeTab. destruct (m_tabs r !! Z.to_nat (m_active r)) eqn:E; [done|]. apply lookup_ge_None in E.
  unfold zlen in H. lia.
Qed.

Lemma alter_shape f i r : shape r -> (forall t, capped t -> capped (f t)) -> shape (with_tabs (alter f i (m_tabs r)) (m_active r) r).
Proof.
  intros (H1 & H2 & H3 & H4) Hf. unfold shape, with_tabs. cbn [m_tabs m_active m_settings]. refine (conj _ (conj _ (conj H3 _))).
  - intros E. apply (f_equal length) in E. rewrite length_alter in E. by destruct (m_tabs r).
  - unfold zlen in *. rewrite length_alter. lia.
  - by apply Forall_alter; [|intros x _; apply Hf].
Qed.
Lemma alter_extends f i r : (forall t, tb_history (f t) = tb_history t) -> extends r (with_tabs (alter f i (m_tabs r)) (m_active r) r).
Proof.
  intros Hf k t Hk. cbn [m_tabs with_tabs]. destruct (decide (i = k)) as [->|Hne].
  - rewrite list_lookup_alter_eq, Hk. by exists (f t).
  - rewrite list_lookup_alter_ne by done. by exists t.
Qed.
Lemma alter_quiet f i r : shape r -> (forall t, tb_history (f t) = tb_history t) -> quiet r (with_tabs (alter f i (m_tabs r)) (m_active r) r).
Proof.
  intros Hs Hf. refine (conj _ (conj _ _)); [|done|intros _; by apply alter_extends].
  apply alter_shape; [done|]. intros t. unfold capped. by rewrite Hf.
Qed.
Lemma on_active_quiet f r : shape r -> (forall t, tb_history (f t) = tb_history t) -> quiet r (on_active f r).
Proof. intros Hs Hf. unfold on_active. rewrite activeTab_ok by done. by apply alter_quiet. Qed.

Lemma append_quiet t r : shape r -> capped t -> quiet r (fst (append_tab t r)).
Proof.
  intros (H1 & H2 & H3 & H4) Ht. unfold append_tab. cbn [fst]. refine (conj _ (conj _ _)); [|done|].
  - unfold shape, with_tabs. cbn [m_tabs m_active m_settings]. refine (conj _ (conj _ (conj H3 _))).
    + by destruct (m_tabs r).
    + rewrite zlen_app. change (zlen [t]) with 1. pose proof (zlen_nonneg (m_tabs r)). lia.
    + apply Forall_app_2; [done|by apply Forall_singleton].
  - intros _ i t' Hi. exists t'. split; [|done]. cbn [with_tabs m_tabs]. rewrite lookup_app_l; [done|by eapply lookup_lt_Some].
Qed.

Lemma settings_quiet s r : shape r -> FollowNever <= st_policy s <= FollowAlways -> quiet r (with_settings s r).
Proof. intros (H1 & H2 & H3 & H4) Hs. refine (conj (conj H1 (conj H2 (conj Hs H4))) (conj _ _)); [done|intros _ i t Hi; by exists t]. Qed.
Lemma follow_quiet p r : shape r -> quiet r (setFollowRedirects p r).
Proof.
  intros Hs. unfold setFollowRedirects. apply settings_quiet; [done|]. cbn [st_policy].
  destruct (_ || _) eqn:E; [by vm_compute|]. apply orb_false_iff in E as [? ?]. to_prop. lia.
Qed.

Lemma replace_quiet tabs active r : shape r -> m_busy r = false -> tabs <> [] -> 0 <= active < zlen tabs -> Forall capped tabs -> quiet r (with_tabs tabs active r).
Proof. intros (H1 & H2 & H3 & H4) Hb Ht Ha Hc. refine (conj (conj Ht (conj Ha (conj H3 Hc))) (conj _ _)); [done|by rewrite Hb]. Qed.

Lemma blank_capped n : capped (makeBlankTab n).
Proof. unfold capped. cbn. lia. Qed.

Lemma import_quiet o r : shape r -> quiet r (importState o r).
Proof.
  intros Hs. unfold importState. destruct (m_busy r) eqn:Hb; [by apply quiet_refl|]. cbv zeta.
  set (tabs := if is_nil (map _ _) then _ else _). set (active := Z.max 0 _).
  assert (Ht : tabs <> []) by (unfold tabs; by destruct (map _ _)).
  assert (Hc : Forall capped tabs).
  { unfold tabs. destruct (is_nil _); [apply Forall_singleton, blank_capped|]. apply Forall_map, Forall_true. intros v. unfold capped. cbn. lia. }
  assert (Hz : 0 < zlen tabs) by (unfold zlen; destruct tabs; [done|cbn; lia]).
  assert (H1 : quiet r (with_tabs tabs active r)) by (apply replace_quiet; try done; unfold active; lia).
  set (r1 := setAutoContentLength _ _). assert (H2 : shape r1) by (apply H1).
  destruct (follow_quiet (toInt 0 (value o (lit "followRedirects"))) r1 H2) as (H3 & H4 & _).
  set (r2 := setFollowRedirects _ r1) in *. refine (conj _ (conj _ _)); [exact H3|done|by rewrite Hb].
Qed.

Lemma history_kept_request t x y : tb_history (with_request x y t) = tb_history t. Proof. done. Qed.

Lemma close_quiet i r : shape r -> quiet r (fst (closeTab i r)).
Proof.
  intros Hs. unfold closeTab. destruct (m_busy r) eqn:Hb; [by apply quiet_refl|]. destruct (negb _); [by apply quiet_refl|]. cbn [fst]. cbv zeta.
  set (tabs := if is_nil _ then _ else _).
  assert (Ht : tabs <> []) by (unfold tabs; by destruct (delete _ _)).
  assert (Hz : 0 < zlen tabs) by (unfold zlen; destruct tabs; [done|cbn; lia]).
  destruct Hs as (H1 & H2 & H3 & H4). apply replace_quiet; [exact (conj H1 (conj H2 (conj H3 H4)))|done|done| |].
  - destruct (zlen tabs <=? m_active r) eqn:E; to_prop; case_match; to_prop; lia.
  - unfold tabs. destruct (is_nil _); [apply Forall_singleton, blank_capped|by apply Forall_delete].
Qed.

(** The labels of sending. *)
Definition sending (l : Label) : bool :=
  match l with LSend _ _ _ _ | LSendAsync | LCancel | LWork _ _ _ _ _ _ | LDeliver _ => true | _ => false end.

Lemma quiet_step r l r' : shape r -> sending l = false -> rstep r l r' -> quiet r r'.
Proof.
  unfold rstep. intros Hs Hl H. destruct l; cbn [exec sending] in *; try discriminate Hl; injection H as <-.
  - apply on_active_quiet; [done|]. intros t. by case_match.
  - by apply on_active_quiet.
  - apply on_active_quiet; [done|]. intros t. by case_match.
  - apply on_active_quiet; [done|]. intros t. by destruct (decodeRequestText b).
  - by apply on_active_quiet.
  - by apply on_active_quiet.
  - unfold loadFromHistory. destruct row as [h|]; [|by apply quiet_refl]. destruct (is_nil _); [by apply quiet_refl|].
    apply on_active_quiet; [done|]. intros t. destruct (decodeRequestText _). cbv zeta. by case_match.
  - unfold clear. destruct (m_busy r); [by apply quiet_refl|]. by apply on_active_quiet.
  - unfold clearAll. destruct (m_busy r) eqn:Hb; [by apply quiet_refl|].
    apply replace_quiet; try done. apply Forall_singleton, blank_capped.
  - apply settings_quiet; [done|]. apply Hs.
  - by apply follow_quiet.
  - apply settings_quiet; [done|]. apply Hs.
  - apply on_active_quiet; [done|]. intros t. case_match; [done|]. by case_match.
  - by apply import_quiet.
  - apply append_quiet; [done|]. apply blank_capped.
  - unfold addTabFromHistory. destruct row as [h|]; [|by apply quiet_refl]. destruct (is_nil _); [by apply quiet_refl|].
    destruct (decodeRequestText _). apply append_quiet; [done|]. unfold capped. cbn. lia.
  - by apply close_quiet.
  - unfold setActiveTab. destruct (in_range i r) eqn:E; [|by apply quiet_refl]. cbn [negb fst]. apply andb_true_iff in E as [? ?]. to_prop.
    refine (conj _ (conj _ _)); [|done|intros _ k t Hk; by exists t]. destruct Hs as (H1 & H2 & H3 & H4). refine (conj H1 (conj (conj _ _) (conj H3 H4))); done.
  - unfold renameTab. destruct (in_range i r); [|by apply quiet_refl]. by apply alter_quiet.
  - unfold setTabNotes. destruct (in_range i r); [|by apply quiet_refl]. by apply alter_quiet.
  - unfold duplicateTab. destruct (in_range i r); [|by apply quiet_refl]. destruct (m_tabs r !! Z.to_nat i) as [t|] eqn:E; [|by apply quiet_refl].
    apply append_quiet; [done|]. destruct Hs as (_ & _ & _ & H4). rewrite Forall_lookup in H4. by apply (H4 _ _ E).
Qed.

(** ** One send *)

Lemma append_history_spec e h : (length h <= kMaxTabHistory)%nat ->
  (length (append_history e h) <= kMaxTabHistory)%nat /\ last (append_history e h) = Some e /\ exists old, h = old ++ take (length (append_history e h) - 1) (drop (length old) h) /\
  append_history e h = drop (length old) h ++ [e].
Proof.
  intros Hh. unfold append_history. set (k := (length (h ++ [e]) - kMaxTabHistory)%nat).
  assert (Hk : (k <= length h)%nat) by (unfold k, kMaxTabHistory in *; rewrite length_app; cbn [length]; lia).
  assert (E : drop k (h ++ [e]) = drop k h ++ [e]) by (by apply drop_app_le).
  rewrite E. split_and!.
  - rewrite <- E, length_drop. unfold k. lia.
  - apply last_snoc.
  - exists (take k h). rewrite length_take, Nat.min_l by done. rewrite length_app, length_drop. cbn [length]. split; [|done].
    rewrite <- (take_drop k h) at 1. f_equal. rewrite take_ge; [done|]. rewrite length_drop. lia.
Qed.

(** Whether a send gets as far as the wire. *)
Definition attempted (c : Reads) (t : RepeaterTab) : bool :=
  negb (cr_start c || is_nil (tb_host t) || is_nil (tb_request t)) && negb (is_nil (encodeRequestText (tb_request t) (tb_latin1 t))).

Lemma send_tab_spec s rules net c elapsed sentAt t :
  let '(t', log) := send_tab s rules net c elapsed sentAt t in
  t' = with_history (tb_history t') (with_response (tb_response t') t) /\
  (attempted c t = false -> log = [] /\ tb_history t' = tb_history t) /\
  (attempted c t = true ->
     let request := wireBytes s rules (tb_host t) (encodeRequestText (tb_request t) (tb_latin1 t)) in
     tb_history t' = append_history (mkEntry (tb_request t) (tb_latin1 t) (tb_response t') sentAt) (tb_history t) /\
     rp_raw (tb_response t') = sd_rawResponse (net log) /\ rp_body (tb_response t') = bodyForInspection (sd_parsed (net log)) /\ rp_elapsed (tb_response t') = elapsed /\
     rp_bytes (tb_response t') = zlen (rp_raw (tb_response t')) /\
     rp_text (tb_response t') = (if sd_ok (net log) then responseDisplay (rp_raw (tb_response t')) (rp_body (tb_response t')) else lit "[error] " ++ sd_errorMessage (net log)) /\
     exists urls sents, log = mkSent (tb_host t) (tb_port t mod 2 ^ 16) (tb_tls t) request :: sents /\
       (length urls <= kMaxRedirectHops)%nat /\ Forall2 goes_to urls sents /\
       allowed_chain (in_scope_of (st_inScope s)) (st_policy s) (requestUrl (tb_tls t) (tb_host t) (tb_port t) request) urls /\
       (st_policy s = FollowNever -> sents = [])).
Proof.
  unfold send_tab, attempted. destruct (cr_start c || is_nil (tb_host t) || is_nil (tb_request t)) eqn:E0; cbn [negb andb]; [by destruct t|].
  destruct (is_nil (encodeRequestText _ _)) eqn:E1; cbn [negb]; [by destruct t|]. cbv zeta.
  set (request := wireBytes _ _ _ _). unfold client_send. set (first := mkSent _ _ _ _). set (r0 := net ([] ++ [first])).
  pose proof (follow_redirects_spec net (in_scope_of (st_inScope s)) (st_policy s) (st_cookies s) (cr_hop c) (tb_tls t) (tb_host t) (tb_port t) request r0 ([] ++ [first])) as H.
  destruct (followRedirects _ _ _ _ _ _ _ _ _ _ _) as [[final hops] log]. destruct H as (urls & sents & -> & -> & Hh & Hg & Ha & _ & Hn & Hf).
  assert (Hfin : final = net ([first] ++ sents)).
  { rewrite Hf. destruct sents; [|done]. cbn [is_nil]. by rewrite app_nil_r. }
  split; [by destruct t|]. split; [done|]. intros _. cbn [with_history tb_response tb_history with_response tb_latin1 tb_request].
  unfold response_of. rewrite Hfin. cbn [app]. destruct (sd_ok (net (first :: sents))); cbn [rp_raw rp_body rp_elapsed rp_bytes rp_text]; split_and!; try reflexivity.
  all: exists urls, sents; split_and!; try done; intros Hp; apply Hn; by left.
Qed.

Lemma send_tab_capped s rules net c elapsed sentAt t : capped t -> capped (fst (send_tab s rules net c elapsed sentAt t)).
Proof.
  intros Hc. pose proof (send_tab_spec s rules net c elapsed sentAt t) as H. destruct (send_tab _ _ _ _ _ _ _) as [t' log]. cbn [fst].
  destruct H as (_ & H1 & H2). unfold capped in *. destruct (attempted c t) eqn:E.
  - destruct (H2 eq_refl) as (-> & _). by apply append_history_spec.
  - by destruct (H1 eq_refl) as [_ ->].
Qed.

(** One send of a tab: nothing is sent for a stopped send, an empty target or text
    outside the encoding; otherwise the first request on the wire is the text in the
    tab encoded, with its length made right and the session rules applied as
    configured, to the tab's target; then at most ten redirects follow, each allowed
    by the policy against the URL before it.  The tab shows the raw bytes and the body of
    the last answer, its target and request stay as they were, and exactly this
    exchange is appended to its history. *)
Theorem send_one_exchange s rules net c elapsed sentAt t :
  let '(t', log) := send_tab s rules net c elapsed sentAt t in
  t' = with_history (tb_history t') (with_response (tb_response t') t) /\
  (attempted c t = false -> log = [] /\ tb_history t' = tb_history t) /\
  (attempted c t = true ->
     let request := wireBytes s rules (tb_host t) (encodeRequestText (tb_request t) (tb_latin1 t)) in
     tb_history t' = append_history (mkEntry (tb_request t) (tb_latin1 t) (tb_response t') sentAt) (tb_history t) /\
     rp_raw (tb_response t') = sd_rawResponse (net log) /\ rp_body (tb_response t') = bodyForInspection (sd_parsed (net log)) /\ rp_elapsed (tb_response t') = elapsed /\
     rp_bytes (tb_response t') = zlen (rp_raw (tb_response t')) /\
     rp_text (tb_response t') = (if sd_ok (net log) then responseDisplay (rp_raw (tb_response t')) (rp_body (tb_response t')) else lit "[error] " ++ sd_errorMessage (net log)) /\
     exists urls sents, log = mkSent (tb_host t) (tb_port t mod 2 ^ 16) (tb_tls t) request :: sents /\
       (length urls <= kMaxRedirectHops)%nat /\ Forall2 goes_to urls sents /\
       allowed_chain (in_scope_of (st_inScope s)) (st_policy s) (requestUrl (tb_tls t) (tb_host t) (tb_port t) request) urls /\
       (st_policy s = FollowNever -> sents = [])).
Proof. apply send_tab_spec. Qed.

(** ** Sends in the background *)

Lemma send_tab_frame s rules net c e a t :
  fst (send_tab s rules net c e a t) =
  with_history (tb_history (fst (send_tab s rules net c e a t))) (with_response (tb_response (fst (send_tab s rules net c e a t))) t).
Proof. pose proof (send_tab_spec s rules net c e a t) as H. destruct (send_tab _ _ _ _ _ _ _). apply H. Qed.

(** The result of a job, if there is one, is what a send of the copied tab gives. *)
Definition result_of (j : Job) : Prop :=
  match jb_done j with
  | None => True
  | Some d => exists rules net c e a, d = fst (send_tab (jb_settings j) rules net c e a (jb_tab j))
  end.
Definition job_ok (r : Repeater) (j : Job) : Prop :=
  0 <= jb_index j /\ capped (jb_tab j) /\ result_of j /\
  exists t, m_tabs r !! Z.to_nat (jb_index j) = Some t /\ tb_history t = tb_history (jb_tab j).
Definition inv (r : Repeater) : Prop :=
  shape r /\
  if m_busy r then m_flag r = true /\ exists j, m_jobs r = [j] /\ job_ok r j else m_flag r = false /\ m_jobs r = [].

Lemma job_ok_extends r r' j : extends r r' -> job_ok r j -> job_ok r' j.
Proof.
  intros He (H1 & H2 & H3 & t & Ht & Hh). destruct (He _ _ Ht) as (t' & Ht' & Hh'). split_and!; try done. exists t'. split; [done|congruence].
Qed.

Lemma inv_empty f : inv (emptyRepeater f).
Proof.
  split; [|done]. refine (conj _ (conj _ (conj _ _))); [done|vm_compute; split; [intros ?; discriminate|reflexivity]|vm_compute; split; intros ?; discriminate|].
  apply Forall_singleton, blank_capped.
Qed.

Lemma shape_tab r i t : shape r -> m_tabs r !! i = Some t -> capped t.
Proof. intros (_ & _ & _ & H) Hi. rewrite Forall_lookup in H. by apply (H _ _ Hi). Qed.

(** What a step other than a delivery does to the job under way. *)
Definition job_step (l : Label) (j j' : Job) : Prop :=
  jb_index j' = jb_index j /\ jb_tab j' = jb_tab j /\ jb_settings j' = jb_settings j /\
  (jb_done j' = jb_done j \/
   exists rules net c c' e a, l = LWork 0 rules net c e a /\ jb_done j' = Some (fst (send_tab (jb_settings j) rules net c' e a (jb_tab j)))).

Definition delivers (l : Label) : bool := match l with LDeliver _ => true | _ => false end.

Lemma busy_step_spec r l r' j : shape r -> m_busy r = true -> m_flag r = true -> m_jobs r = [j] -> delivers l = false -> rstep r l r' ->
  shape r' /\ m_busy r' = true /\ m_flag r' = true /\ extends r r' /\ exists j', m_jobs r' = [j'] /\ job_step l j j'.
Proof.
  intros Hs Hb Hf Hj Hl H. assert (Hsame : shape r /\ m_busy r = true /\ m_flag r = true /\ extends r r /\ exists j', m_jobs r = [j'] /\ job_step l j j').
  { split_and!; try apply Hs; try done; [apply tabs_extend_refl|]. exists j. split; [done|]. split_and!; try done. by left. }
  destruct (sending l) eqn:El.
  - unfold rstep in H. destruct l; cbn [sending exec] in *; try discriminate El.
    + injection H as <-. unfold send. by rewrite Hb.
    + injection H as <-. unfold sendAsync. by rewrite Hb.
    + injection H as <-. unfold cancel. rewrite Hf, Hj. cbn [set_cancel with_jobs m_busy m_flag m_jobs m_tabs].
      refine (conj Hs (conj Hb (conj eq_refl (conj _ _)))); [intros i t Hi; by exists t|].
      eexists. split; [reflexivity|]. split_and!; try done. by left.
    + unfold work in H. rewrite Hj in H. destruct k; [|done]. cbn [lookup list_lookup] in H. destruct j as [i t s flag [d|]]; [done|].
      destruct (send_tab _ _ _ _ _ _ _) as [t' log] eqn:Et. cbn [fmap option_fmap option_map fst] in H. injection H as <-.
      refine (conj Hs (conj Hb (conj Hf (conj _ _)))); [intros i' t'' Hi; by exists t''|].
      eexists. split; [reflexivity|]. split_and!; try done. right. do 6 eexists. split; [reflexivity|]. cbn [jb_done jb_settings jb_tab]. by rewrite Et.
    + done.
  - destruct (quiet_step _ _ _ Hs El H) as (Hs' & (H1 & H2 & H3) & He).
    refine (conj Hs' (conj _ (conj _ (conj (He Hb) _)))); [congruence|congruence|]. exists j. split; [congruence|]. split_and!; try done. by left.
Qed.

Lemma deliver_step r k r' j : shape r -> m_jobs r = [j] -> job_ok r j -> deliver k r = Some r' ->
  k = 0%nat /\ shape r' /\ m_busy r' = false /\ m_flag r' = false /\ m_jobs r' = [] /\ m_settings r' = m_settings r /\ m_active r' = m_active r /\
  exists d, jb_done j = Some d /\
    m_tabs r' = alter (fun t => with_history (tb_history d) (with_response (tb_response d) t)) (Z.to_nat (jb_index j)) (m_tabs r).
Proof.
  intros Hs Hj (Hi & Hc & Hd & t & Ht & Hh) H. unfold deliver in H. rewrite Hj in H. destruct k; [|done]. cbn [lookup list_lookup] in H.
  destruct j as [i jt s flag [d|]]; [|done]. cbn [jb_index jb_tab jb_settings jb_done] in *.
  assert (Hr : in_range i r = true).
  { unfold in_range. apply lookup_lt_Some in Ht. apply andb_true_iff. split; [by apply Z.leb_le|]. apply Z.ltb_lt. unfold zlen. lia. }
  rewrite Hr in H. injection H as <-. cbn [with_jobs with_tabs m_busy m_flag m_jobs m_settings m_active m_tabs]. split_and!; try done; [|by exists d].
  assert (Hcd : capped d) by (destruct Hd as (rules & net & c & e & a & ->); by apply send_tab_capped).
  apply (alter_shape _ _ r Hs). intros t' _. unfold capped in *. done.
Qed.

Lemma tabs_step r l r' : inv r -> rstep r l r' -> inv r'.
Proof.
  intros [Hs Hc] H. destruct (m_busy r) eqn:Hb.
  - destruct Hc as (Hf & j & Hj & Hok). destruct (delivers l) eqn:Hnd.
    + destruct l; try discriminate Hnd. destruct (deliver_step _ _ _ _ Hs Hj Hok H) as (_ & Hs' & Hb' & Hf' & Hj' & _). split; [done|]. by rewrite Hb'.
    + destruct (busy_step_spec _ _ _ _ Hs Hb Hf Hj Hnd H) as (Hs' & Hb' & Hf' & He & j' & Hj' & Hst).
      split; [done|]. rewrite Hb'. split; [done|]. exists j'. split; [done|]. apply (job_ok_extends r r' j He) in Hok.
      destruct Hok as (H1 & H2 & H3 & H4). destruct Hst as (E1 & E2 & E3 & E4). unfold job_ok, result_of in *. rewrite E1, E2, E3. split_and!; try done.
      destruct E4 as [->|(rules & net & c & c' & e & a & _ & ->)]; [done|]. by exists rules, net, c', e, a.
  - destruct Hc as [Hf Hj]. destruct (sending l) eqn:El.
    + unfold rstep in H. destruct l; cbn [sending exec] in *; try discriminate El.
      * injection H as <-. unfold send. rewrite Hb, Hf. cbn [andb]. rewrite activeTab_ok by done.
        pose proof (send_tab_capped (m_settings r) rules net (mkReads false (fun _ => false) false) elapsed sentAt (activeTab r) (shape_tab _ _ _ Hs (activeTab_lookup r Hs))) as Hc.
        destruct (send_tab _ _ _ _ _ _ _) as [t' log]. cbn [fst] in *. unfold on_active. rewrite activeTab_ok by done.
        split; [by apply alter_shape|]. cbn [with_tabs m_busy m_flag m_jobs]. by rewrite Hb.
      * injection H as <-. unfold sendAsync. rewrite Hb, activeTab_ok by done. cbv zeta. destruct (_ || _); [split; [done|by rewrite Hb]|].
        split; [done|]. cbn [with_jobs m_busy m_flag m_jobs]. split; [done|]. eexists. rewrite Hj. split; [reflexivity|]. unfold job_ok. cbn [jb_index jb_tab result_of jb_done].
        pose proof (activeTab_lookup r Hs) as Ht. split_and!; [destruct Hs as (_ & ? & _); lia|by apply (shape_tab _ _ _ Hs Ht)|done|]. by exists (activeTab r).
      * injection H as <-. unfold cancel. rewrite Hf. split; [done|]. by rewrite Hb.
      * unfold work in H. rewrite Hj in H. by destruct k.
      * unfold deliver in H. rewrite Hj in H. by destruct k.
    + destruct (quiet_step _ _ _ Hs El H) as (Hs' & (H1 & H2 & H3) & He). split; [done|]. rewrite H1, Hb. split; congruence.
Qed.

Lemma tabs_reachable f tr r : steps rstep (emptyRepeater f) tr r -> inv r.
Proof. intros H. apply (steps_invariant rstep inv) in H; [done| |apply inv_empty]. intros s a s'. apply tabs_step. Qed.

(** However its methods, its worker and its event loop interleave, the repeater keeps a
    tab and a valid active index, a redirect policy that exists and histories of at
    most a hundred entries; it is busy exactly while one background send is under way,
    that send can be cancelled, and its tab is there. *)
Theorem repeater_well_formed f tr r :
  steps rstep (emptyRepeater f) tr r ->
  m_tabs r <> [] /\ 0 <= m_active r < zlen (m_tabs r) /\ FollowNever <= st_policy (m_settings r) <= FollowAlways /\
  Forall capped (m_tabs r) /\ (length (m_jobs r) <= 1)%nat /\ (m_busy r = true <-> m_jobs r <> []) /\ m_flag r = m_busy r /\
  Forall (fun j => is_Some (m_tabs r !! Z.to_nat (jb_index j))) (m_jobs r).
Proof.
  intros H. apply tabs_reachable in H as [(H1 & H2 & H3 & H4) Hc]. split; [done|]. split; [done|]. split; [done|]. split; [done|].
  destruct (m_busy r).
  - destruct Hc as (-> & j & -> & (_ & _ & _ & t & Ht & _)). split_and!; try done. apply Forall_singleton. by eexists.
  - destruct Hc as [-> ->]. split_and!; try done. cbn. lia.
Qed.

(** Between the start of a background send and its delivery. *)
Definition under_way (r0 : Repeater) (tr : list Label) (r : Repeater) : Prop :=
  shape r /\ m_busy r = true /\ m_flag r = true /\ extends r0 r /\
  exists j, m_jobs r = [j] /\ jb_index j = m_active r0 /\ jb_tab j = activeTab r0 /\ jb_settings j = m_settings r0 /\
    match jb_done j with
    | None => True
    | Some d => exists rules net c c' e a, LWork 0 rules net c e a ∈ tr /\ d = fst (send_tab (m_settings r0) rules net c' e a (activeTab r0))
    end.

Lemma under_way_trace r0 r1 tr r2 :
  under_way r0 [] r1 -> steps rstep r1 tr r2 -> Forall (fun l => delivers l = false) tr -> under_way r0 tr r2.
Proof.
  intros H0 Hs. assert (H : Forall (fun l => delivers l = false) [] -> under_way r0 [] r1) by done.
  refine (steps_invariant_trace rstep (fun pre r => Forall (fun l => delivers l = false) pre -> under_way r0 pre r) _ [] _ _ _ Hs H).
  clear. intros pre r l r' IH Hst Hf. apply Forall_app in Hf as [Hf Hl]. rewrite Forall_singleton in Hl.
  destruct (IH Hf) as (Hs & Hb & Hfl & He & j & Hj & H1 & H2 & H3 & H4).
  destruct (busy_step_spec _ _ _ _ Hs Hb Hfl Hj Hl Hst) as (Hs' & Hb' & Hf' & He' & j' & Hj' & (E1 & E2 & E3 & E4)).
  split; [done|]. split; [done|]. split; [done|]. split.
  { intros i t Hi. destruct (He _ _ Hi) as (t1 & Ht1 & Hh1). destruct (He' _ _ Ht1) as (t2 & Ht2 & Hh2). exists t2. split; [done|congruence]. }
  exists j'. rewrite E1, E2, E3. split_and!; try done. destruct E4 as [->|(rules & net & c & c' & e & a & -> & ->)].
  - destruct (jb_done j) as [d|]; [|done]. destruct H4 as (rules & net & c & c' & e & a & Hin & Hd). exists rules, net, c, c', e, a.
    split; [apply elem_of_app; by left|done].
  - exists rules, net, c, c', e, a. split; [apply elem_of_app; right; by apply list_elem_of_singleton|]. by rewrite H2, H3.
Qed.

(** C22. A background send is isolated from the tabs.  Whatever is edited, loaded, added or
    tried between its start and its delivery, what is delivered is the result of one send
    of the tab as it was at the start with the settings of the start; it arrives in
    that very tab, replaces its response and history only, loses no exchange of that
    history, and touches no other tab. *)
Theorem async_send_isolated f tr0 r0 tr r2 k r3 :
  steps rstep (emptyRepeater f) tr0 r0 -> m_busy r0 = false -> m_busy (sendAsync r0) = true ->
  steps rstep (sendAsync r0) tr r2 -> Forall (fun l => delivers l = false) tr -> deliver k r2 = Some r3 ->
  exists rules net c c' e a t2,
    LWork 0 rules net c e a ∈ tr /\
    let d := fst (send_tab (m_settings r0) rules net c' e a (activeTab r0)) in
    (length (m_tabs r0) <= length (m_tabs r2))%nat /\
    m_tabs r2 !! Z.to_nat (m_active r0) = Some t2 /\ tb_history t2 = tb_history (activeTab r0) /\
    m_tabs r3 = <[Z.to_nat (m_active r0) := with_history (tb_history d) (with_response (tb_response d) t2)]> (m_tabs r2) /\
    m_active r3 = m_active r2 /\ m_settings r3 = m_settings r2 /\ m_busy r3 = false /\ m_jobs r3 = [].
Proof.
  intros H0 Hb0 Hb1 Hs Hf Hd. apply tabs_reachable in H0 as Hi. destruct Hi as [Hsh Hc]. rewrite Hb0 in Hc. destruct Hc as [Hfl Hj0].
  assert (H1 : under_way r0 [] (sendAsync r0)).
  { unfold sendAsync in *. rewrite Hb0 in *. rewrite activeTab_ok in * by done. cbv zeta in *. destruct (_ || _); [congruence|].
    split; [done|]. split; [done|]. split; [done|]. split; [intros i t Hi; by exists t|]. eexists. cbn [with_jobs m_jobs]. rewrite Hj0.
    split; [reflexivity|]. cbn. by split_and!. }
  destruct (under_way_trace _ _ _ _ H1 Hs Hf) as (Hs2 & Hb2 & Hf2 & He & j & Hj & E1 & E2 & E3 & E4).
  pose proof (activeTab_lookup r0 Hsh) as Ht0. destruct (He _ _ Ht0) as (t2 & Ht2 & Hh2).
  assert (Hok : job_ok r2 j).
  { unfold job_ok, result_of. rewrite E1, E2, E3. split_and!; [destruct Hsh as (_ & ? & _); lia|by apply (shape_tab _ _ _ Hsh Ht0)| |by exists t2].
    destruct (jb_done j) as [d|]; [|done]. destruct E4 as (rules & net & c & c' & e & a & _ & ->). by exists rules, net, c', e, a. }
  destruct (deliver_step _ _ _ _ Hs2 Hj Hok Hd) as (_ & _ & Hb3 & _ & Hj3 & Hset & Hact & d & Hdone & Htabs). rewrite Hdone in E4.
  destruct E4 as (rules & net & c & c' & e & a & Hin & ->). exists rules, net, c, c', e, a, t2. split; [done|]. cbv zeta. split_and!; try done.
  - destruct (Nat.le_gt_cases (length (m_tabs r0)) (length (m_tabs r2))) as [?|Hlt]; [done|]. exfalso.
    destruct (lookup_lt_is_Some_2 (m_tabs r0) (length (m_tabs r2)) Hlt) as [t Ht]. destruct (He _ _ Ht) as (t' & Ht' & _).
    apply lookup_lt_Some in Ht'. lia.
  - rewrite Htabs, E1. symmetry. apply list_eq. intros i. destruct (decide (i = Z.to_nat (m_active r0))) as [->|Hne].
    + rewrite list_lookup_insert_eq by (by eapply lookup_lt_Some). by rewrite list_lookup_alter_eq, Ht2.
    + rewrite list_lookup_insert_ne by done. by rewrite list_lookup_alter_ne.
Qed.

(** ** The project file *)

(** What an answer of the network leaves. *)
Definition answer_fits (r : SendResult) : Prop :=
  wf_bytes (sd_rawResponse r) /\ wf_bytes (bodyForInspection (sd_parsed r)) /\ int_ok (zlen (sd_rawResponse r)).

(** A response whose shown text follows from what is saved. *)
Definition resp_ok (r : Response) : Prop :=
  wf_bytes (rp_raw r) /\ wf_bytes (rp_body r) /\ int_ok (rp_bytes r) /\
  (starts_with (lit "[error]") (rp_text r) = false -> rp_text r = responseDisplay (rp_raw r) (rp_body r)).
Definition saved_ok (t : RepeaterTab) : Prop :=
  int_ok (tb_port t) /\ resp_ok (tb_response t) /\ Forall (fun h => resp_ok (he_response h)) (tb_history t).

(** Ports are of type [int]; what is imported comes from an export. *)
Definition row_fits (row : option HistoryRow) : Prop := match row with Some h => int_ok (hr_port h) | None => True end.
Definition fits (l : Label) : Prop :=
  match l with
  | LPort p => int_ok p
  | LLoad row | LAddRow row => row_fits row
  | LImport o => exists tabs, Forall saved_ok tabs /\ value o (lit "tabs") = JArray (map tabToJson tabs)
  | LSend _ net _ _ | LWork _ _ net _ _ _ => forall log, answer_fits (net log)
  | _ => True
  end.

Section SavedState.
Context {QL : QtTextLaws Q} {CL : QtCodecsLaws C} {VL : QtLenientLaws C LL}.

Lemma noResponse_ok : resp_ok noResponse.
Proof.
  unfold resp_ok, noResponse. cbn [rp_raw rp_body rp_bytes rp_text]. split_and!; try constructor; try (by vm_compute).
  intros _. unfold responseDisplay. cbn. by rewrite law_fromutf8_ascii.
Qed.

Lemma encodingResponse_ok : resp_ok encodingResponse.
Proof. unfold resp_ok, encodingResponse. cbn [rp_raw rp_body rp_bytes rp_text]. split_and!; try constructor; by vm_compute. Qed.

Lemma tab_roundtrip t : saved_ok t -> tabFromJson (tabToJson t) = with_history [] t.
Proof.
  intros (Hp & (Hr & Hb & Hn & Ht) & _). destruct t as [n h p tls rq l1 [tx raw body dc st el by_] nt hi]. cbn [tb_port tb_response rp_raw rp_body rp_bytes rp_text] in *.
  set (err := if starts_with (lit "[error]") tx then tx else []).
  transitivity (mkTab n h (toInt 443 (JInt p)) tls rq l1
    (mkResp (if is_nil err then responseDisplay (b64_lenient (u_tolatin1 (b64_encode false raw))) (b64_lenient (u_tolatin1 (b64_encode false body))) else err)
       (b64_lenient (u_tolatin1 (b64_encode false raw))) (b64_lenient (u_tolatin1 (b64_encode false body))) dc st (variant_longlong (JInt el)) (toInt (-1) (JInt by_))) nt []); [reflexivity|].
  rewrite !toInt_ok, law_variant_int, !saved_base64_roundtrip by done. unfold with_history. cbn [tb_name tb_host tb_port tb_tls tb_request tb_latin1 tb_response tb_notes].
  do 2 f_equal. unfold err. destruct (starts_with (lit "[error]") tx) eqn:E; [by destruct tx|]. cbn [is_nil]. by rewrite Ht.
Qed.

Lemma import_tabs tabs : Forall saved_ok tabs -> map tabFromJson (map tabToJson tabs) = map (with_history []) tabs.
Proof.
  intros H. rewrite map_map. induction H as [|t ts Ht _ IH]; [done|]. cbn [map]. by rewrite tab_roundtrip, IH.
Qed.

Lemma roundtrip_state r r' : shape r -> Forall saved_ok (m_tabs r) -> int_ok (m_active r) -> m_busy r' = false ->
  importState (exportState r) r' =
  mkRepeater (map (with_history []) (m_tabs r)) (m_active r) false (m_flag r')
    (mkSettings (st_auto (m_settings r)) (st_policy (m_settings r)) (st_cookies (m_settings r)) (st_inScope (m_settings r'))) (m_jobs r').
Proof.
  intros (H1 & H2 & H3 & _) Ht Ha Hb. unfold importState. rewrite Hb.
  change (toArray (value (exportState r) (lit "tabs"))) with (map tabToJson (m_tabs r)).
  change (value (exportState r) (lit "activeTab")) with (JInt (m_active r)).
  change (value (exportState r) (lit "autoContentLength")) with (JBool (st_auto (m_settings r))).
  change (value (exportState r) (lit "followRedirects")) with (JInt (st_policy (m_settings r))).
  change (value (exportState r) (lit "processCookies")) with (JBool (st_cookies (m_settings r))).
  rewrite import_tabs by done. assert (Hne : is_nil (map (with_history []) (m_tabs r)) = false) by (by destruct (m_tabs r)).
  cbv zeta. rewrite Hne. rewrite (toInt_ok 0 (m_active r)) by done.
  rewrite (toInt_ok 0 (st_policy (m_settings r))) by (unfold int_ok, FollowNever, FollowAlways, INT_MIN, INT_MAX in *; lia).
  assert (Hz : zlen (map (with_history []) (m_tabs r)) = zlen (m_tabs r)) by (unfold zlen; by rewrite length_map).
  rewrite Hz. rewrite Z.min_l, Z.max_r by lia. unfold setProcessCookies, setFollowRedirects, setAutoContentLength.
  cbn [with_tabs with_settings m_settings m_tabs m_active m_busy m_flag m_jobs st_auto st_policy st_cookies st_inScope toBool].
  destruct (_ || _) eqn:E; [apply orb_true_iff in E as [E|E]; to_prop; lia|]. unfold with_settings, with_tabs. cbn [m_tabs m_active m_busy m_flag m_settings m_jobs]. by rewrite Hb.
Qed.

Lemma send_tab_saved s rules net c e a t : (forall log, answer_fits (net log)) -> saved_ok t -> saved_ok (fst (send_tab s rules net c e a t)).
Proof.
  intros Hn (Hp & Hr & Hh). pose proof (send_tab_spec s rules net c e a t) as H. pose proof (eq_refl (send_tab s rules net c e a t)) as E.
  unfold send_tab in E at 1. destruct (send_tab s rules net c e a t) as [t' log]. cbn [fst]. destruct H as (Hf & H1 & H2).
  assert (Hport : tb_port t' = tb_port t) by (by rewrite Hf). destruct (attempted c t) eqn:Ea.
  - destruct (H2 eq_refl) as (Hhist & Hraw & Hbody & _ & Hbytes & Htext & _). destruct (Hn log) as (A1 & A2 & A3).
    assert (Hresp : resp_ok (tb_response t')).
    { unfold resp_ok. rewrite Hbytes, Hraw, Hbody, Htext. split_and!; try done. rewrite Hraw, Hbody. destruct (sd_ok _); [done|]. intros Hx. vm_compute in Hx. discriminate Hx. }
    split_and!; [by rewrite Hport|done|]. rewrite Hhist. unfold append_history. apply Forall_drop, Forall_app_2; [done|by apply Forall_singleton].
  - destruct (H1 eq_refl) as [_ Hhist]. split_and!; [by rewrite Hport| |by rewrite Hhist].
    unfold attempted in Ea. destruct (_ || _); [injection E as <- _; done|]. cbn [negb andb] in Ea. cbv zeta in E.
    destruct (is_nil (encodeRequestText _ _)); [|done]. injection E as <- _. apply encodingResponse_ok.
Qed.

Definition all_saved (r : Repeater) : Prop :=
  Forall saved_ok (m_tabs r) /\ Forall (fun j => saved_ok (jb_tab j) /\ match jb_done j with Some d => saved_ok d | None => True end) (m_jobs r).

Lemma alter_saved f i tabs : Forall saved_ok tabs -> (forall t, saved_ok t -> saved_ok (f t)) -> Forall saved_ok (alter f i tabs).
Proof. intros H Hf. apply Forall_alter; [done|]. intros t _. apply Hf. Qed.
Lemma on_active_saved f r : shape r -> all_saved r -> (forall t, saved_ok t -> saved_ok (f t)) -> all_saved (on_active f r).
Proof. intros Hs [H1 H2] Hf. unfold on_active. rewrite activeTab_ok by done. split; [by apply alter_saved|done]. Qed.
Lemma append_saved t r : saved_ok t -> all_saved r -> all_saved (fst (append_tab t r)).
Proof. intros Ht [H1 H2]. split; [|done]. apply Forall_app_2; [done|by apply Forall_singleton]. Qed.

Lemma blank_saved n : saved_ok (makeBlankTab n).
Proof. split_and!; [by vm_compute..|apply noResponse_ok|constructor]. Qed.
Lemma with_request_saved x y t : saved_ok t -> saved_ok (with_request x y t). Proof. done. Qed.
Lemma with_target_saved h p b t : int_ok p -> saved_ok t -> saved_ok (with_target h p b t).
Proof. intros Hp (_ & H). by split. Qed.
Lemma with_response_saved r t : resp_ok r -> saved_ok t -> saved_ok (with_response r t).
Proof. intros Hr (Hp & _ & Hh). by split_and!. Qed.
Lemma swap_port_ok p (a b : bool) : int_ok p -> int_ok (if a then 443 else if b then 80 else p).
Proof. intros H. destruct a; [by vm_compute|]. destruct b; [by vm_compute|done]. Qed.

Lemma active_saved r : shape r -> all_saved r -> saved_ok (activeTab r).
Proof. intros Hs [H _]. rewrite Forall_lookup in H. exact (H _ _ (activeTab_lookup r Hs)). Qed.

Lemma quiet_saved r l r' : shape r -> all_saved r -> fits l -> sending l = false -> rstep r l r' -> all_saved r'.
Proof.
  unfold rstep. intros Hs Ha Hfit Hl H. destruct l; cbn [exec sending fits] in *; try discriminate Hl; injection H as <-.
  - apply on_active_saved; [done..|]. intros t Ht. case_match; [done|]. apply with_request_saved, with_target_saved; [apply Ht|done].
  - apply on_active_saved; [done..|]. intros t. by apply with_target_saved.
  - apply on_active_saved; [done..|]. intros t Ht. case_match; [done|]. apply with_target_saved; [|done]. apply swap_port_ok, Ht.
  - apply on_active_saved; [done..|]. intros t Ht. by destruct (decodeRequestText b).
  - by apply on_active_saved.
  - by apply on_active_saved.
  - unfold loadFromHistory. destruct row as [h|]; [|done]. destruct (is_nil _); [done|].
    apply on_active_saved; [done..|]. intros t Ht. destruct (decodeRequestText _). cbv zeta.
    assert (H1 : saved_ok (with_request l b (with_target (hr_host h) (hr_port h) (hr_tls h) t))) by (by apply with_request_saved, with_target_saved).
    by case_match.
  - unfold clear. destruct (m_busy r); [done|]. apply on_active_saved; [done..|]. intros t Ht. apply with_response_saved; [apply noResponse_ok|done].
  - unfold clearAll. destruct (m_busy r); [done|]. split; [apply Forall_singleton, blank_saved|apply Ha].
  - done.
  - done.
  - done.
  - apply on_active_saved; [done..|]. intros t Ht. case_match; [done|]. case_match; [|done]. apply with_response_saved; [|done].
    destruct Ht as (_ & _ & Hh). rewrite Forall_lookup in Hh. by eapply Hh.
  - unfold importState. destruct (m_busy r); [done|]. cbv zeta. destruct Hfit as (tabs & Ht & ->). cbn [toArray]. rewrite import_tabs by done.
    split; [|apply Ha]. unfold setProcessCookies, setFollowRedirects, setAutoContentLength, with_settings, with_tabs. cbn [m_tabs].
    destruct (is_nil _); [apply Forall_singleton, blank_saved|]. apply Forall_map. eapply Forall_impl; [exact Ht|]. intros t (H1 & H2 & _). by split_and!.
  - apply append_saved; [apply blank_saved|done].
  - unfold addTabFromHistory. destruct row as [h|]; [|done]. destruct (is_nil _); [done|]. destruct (decodeRequestText _).
    apply append_saved; [|done]. split_and!; [apply Hfit..|apply noResponse_ok|constructor].
  - unfold closeTab. destruct (m_busy r); [done|]. destruct (negb _); [done|]. cbn [fst]. cbv zeta. split; [|apply Ha]. cbn [with_tabs m_tabs].
    destruct (is_nil _); [apply Forall_singleton, blank_saved|]. apply Forall_delete, Ha.
  - unfold setActiveTab. by destruct (in_range i r).
  - unfold renameTab. destruct (in_range i r); [|done]. split; [|apply Ha]. by apply alter_saved; [apply Ha|].
  - unfold setTabNotes. destruct (in_range i r); [|done]. split; [|apply Ha]. by apply alter_saved; [apply Ha|].
  - unfold duplicateTab. destruct (in_range i r); [|done]. destruct (m_tabs r !! Z.to_nat i) as [t|] eqn:E; [|done].
    apply append_saved; [|done]. apply with_response_saved; [apply noResponse_ok|]. destruct Ha as [Ha _]. rewrite Forall_lookup in Ha. by apply (Ha _ _ E).
Qed.

Lemma sending_saved r l r' : inv r -> all_saved r -> fits l -> sending l = true -> rstep r l r' -> all_saved r'.
Proof.
  unfold rstep. intros [Hs Hc] Ha Hfit Hl H. destruct l; cbn [exec sending fits] in *; try discriminate Hl.
  - injection H as <-. unfold send. destruct (m_busy r); [done|]. destruct Hc as [-> _]. cbn [andb]. rewrite activeTab_ok by done.
    pose proof (send_tab_saved (m_settings r) rules net (mkReads false (fun _ => false) false) elapsed sentAt (activeTab r) Hfit (active_saved r Hs Ha)) as Ht.
    destruct (send_tab _ _ _ _ _ _ _) as [t' log]. cbn [fst] in *. by apply on_active_saved.
  - injection H as <-. unfold sendAsync. destruct (m_busy r); [done|]. rewrite activeTab_ok by done. cbv zeta. destruct (_ || _); [done|].
    split; [apply Ha|]. apply Forall_app_2; [apply Ha|]. apply Forall_singleton. split; [by apply active_saved|done].
  - injection H as <-. unfold cancel. destruct (m_flag r); [|done]. split; [apply Ha|]. cbn [with_jobs m_jobs]. unfold set_cancel.
    apply Forall_alter; [apply Ha|]. done.
  - unfold work in H. destruct (m_jobs r !! k) as [[i t s flag [d|]]|] eqn:Ej; try done.
    destruct Ha as [Ha1 Ha2]. rewrite Forall_lookup in Ha2. destruct (Ha2 _ _ Ej) as [Ht _]. cbn [jb_tab] in Ht.
    pose proof (send_tab_saved s rules net (mkReads (flag || cr_start c) (fun n => flag || cr_hop c n) (flag || cr_end c)) elapsed sentAt t Hfit Ht) as Hd.
    destruct (send_tab _ _ _ _ _ _ _) as [t' log]. cbn [fmap option_fmap option_map fst] in *. injection H as <-. split; [done|]. cbn [with_jobs m_jobs].
    apply Forall_insert; [by rewrite Forall_lookup|done].
  - unfold deliver in H. destruct (m_jobs r !! k) as [[i t s flag [d|]]|] eqn:Ej; try done. injection H as <-.
    destruct Ha as [Ha1 Ha2]. pose proof Ha2 as Ha3. rewrite Forall_lookup in Ha3. destruct (Ha3 _ _ Ej) as [_ Hd]. cbn [jb_done] in Hd.
    split; [|by apply Forall_delete]. cbn [with_jobs with_tabs m_tabs]. destruct (in_range i r); [|done].
    apply alter_saved; [done|]. intros t' (Hp & _ & _). destruct Hd as (_ & Hr & Hh). by split_and!.
Qed.

Lemma saved_reachable f tr r : steps rstep (emptyRepeater f) tr r -> Forall fits tr -> all_saved r.
Proof.
  intros Hs Hf. assert (H0 : Forall fits [] -> inv (emptyRepeater f) /\ all_saved (emptyRepeater f)).
  { intros _. split; [apply inv_empty|]. split; [apply Forall_singleton, blank_saved|constructor]. }
  refine (proj2 (steps_invariant_trace rstep (fun pre r => Forall fits pre -> inv r /\ all_saved r) _ [] _ _ _ Hs H0 Hf)).
  intros pre r1 l r2 IH Hst Hf1. apply Forall_app in Hf1 as [Hf1 Hl]. rewrite Forall_singleton in Hl. destruct (IH Hf1) as [Hi Ha].
  split; [by apply (tabs_step r1 l)|]. destruct (sending l) eqn:El; [by apply (sending_saved r1 l)|apply (quiet_saved r1 l); try done; apply Hi].
Qed.

(** The project file brings the repeater back.  From every state the repeater can get
    into over a network of byte strings, exporting and importing into a repeater that
    is not busy restores every tab with its target, request, notes, exact response bytes
    and shown text, the active tab and the settings; only the histories are left out, as
    intended. *)
Theorem repeater_project_roundtrip f tr r r' :
  steps rstep (emptyRepeater f) tr r -> Forall fits tr -> zlen (m_tabs r) <= INT_MAX -> m_busy r' = false ->
  importState (exportState r) r' =
  mkRepeater (map (with_history []) (m_tabs r)) (m_active r) false (m_flag r')
    (mkSettings (st_auto (m_settings r)) (st_policy (m_settings r)) (st_cookies (m_settings r)) (st_inScope (m_settings r'))) (m_jobs r').
Proof.
  intros Hs Hf Hn Hb. destruct (tabs_reachable _ _ _ Hs) as [Hsh _]. destruct (saved_reachable _ _ _ Hs Hf) as [Ht _].
  apply roundtrip_state; try done. destruct Hsh as (_ & Ha & _). unfold int_ok, INT_MIN in *. lia.
Qed.
End SavedState.

Fixpoint exec_all (r : Repeater) (tr : list Label) : option Repeater :=
  match tr with
  | [] => Some r
  | l :: tr' => match exec r l with Some r' => exec_all r' tr' | None => None end
  end.
Lemma tab_exec_steps tr : forall r r', exec_all r tr = Some r' -> steps rstep r tr r'.
Proof.
  induction tr as [|l tr IH]; intros r r' H; cbn [exec_all] in H; [injection H as <-; constructor|].
  destruct (exec r l) as [r1|] eqn:E; [|done]. econstructor; [exact E|by apply IH].
Qed.
End Operations.


Section Examples.
#[local] Existing Instances utf8Text sampleCodecs treeJson literalRegex literalReplace sampleUrl sampleQUrl sampleJar sampleLenient.

Definition ex_net : Net := fun _ =>
  mkSend true [] (mkResponse (lit "HTTP/1.1") 200 (lit "OK") [] (lit "hi") [] false) (lit "HTTP/1.1 200 OK" ++ CRLFCRLF ++ lit "hi") 0.
Definition ex_reads : Reads := mkReads false (fun _ => false) false.
Definition ex_text : qstr := lit "GET / HTTP/1.1" ++ [10] ++ lit "Host: a" ++ [10; 10].
Definition ex_ready : list Label := [LHost (lit "a"); LText ex_text].
Definition ex_sent : list Label := ex_ready ++ [LSend None ex_net 5 (lit "now")].
Definition ex_busy : list Label := [LText (lit "edited"); LAdd []; LClose 0; LActive 1; LWork 0 None ex_net ex_reads 5 (lit "now")].
Definition ex_state (tr : list Label) : Repeater := or_else (emptyRepeater None) (exec_all (emptyRepeater None) tr).

Lemma ex_tabs_reached tr : exec_all (emptyRepeater None) tr = Some (ex_state tr) -> steps rstep (emptyRepeater None) tr (ex_state tr).
Proof. apply tab_exec_steps. Qed.

Lemma repeater_well_formed_witness :
  let r := ex_state (ex_ready ++ [LSendAsync]) in m_busy r = true /\ m_active r < zlen (m_tabs r) /\ m_flag r = m_busy r.
Proof.
  cbv zeta. assert (H : steps rstep (emptyRepeater None) (ex_ready ++ [LSendAsync]) (ex_state (ex_ready ++ [LSendAsync]))) by (apply ex_tabs_reached; vm_compute; reflexivity).
  destruct (repeater_well_formed _ _ _ H) as (_ & [_ H1] & _ & _ & _ & _ & H2 & _). split; [vm_compute; reflexivity|]. split; [exact H1|exact H2].
Defined.

Lemma async_send_isolated_witness :
  let r0 := ex_state ex_ready in
  let r2 := or_else r0 (exec_all (sendAsync r0) ex_busy) in
  let r3 := or_else r0 (deliver 0 r2) in
  map tb_request (m_tabs r3) = [lit "edited"; []] /\ exists t2, m_tabs r2 !! 0%nat = Some t2 /\ tb_history t2 = [] /\ m_busy r3 = false.
Proof.
  cbv zeta. set (r0 := ex_state ex_ready). set (r2 := or_else r0 (exec_all (sendAsync r0) ex_busy)). set (r3 := or_else r0 (deliver 0 r2)).
  assert (H0 : steps rstep (emptyRepeater None) ex_ready r0) by (apply ex_tabs_reached; vm_compute; reflexivity).
  assert (H2 : steps rstep (sendAsync r0) ex_busy r2) by (apply tab_exec_steps, some_or_else; vm_compute; reflexivity).
  assert (H3 : deliver 0 r2 = Some r3) by (apply some_or_else; vm_compute; reflexivity).
  assert (Hb : Forall (fun l => delivers l = false) ex_busy) by (repeat (apply Forall_cons; split; [reflexivity|]); constructor).
  split; [vm_compute; reflexivity|].
  destruct (async_send_isolated None ex_ready r0 ex_busy r2 0%nat r3 H0 eq_refl eq_refl H2 Hb H3)
    as (rules & net & c & c' & e & a & t2 & _ & _ & Ht & Hh & _ & _ & _ & Hd & _).
  exists t2. split; [exact Ht|]. split; [rewrite Hh; vm_compute; reflexivity|exact Hd].
Defined.

Lemma repeater_project_roundtrip_witness :
  let r := ex_state ex_sent in
  map rp_text (map tb_response (m_tabs r)) = [lit "HTTP/1.1 200 OK" ++ CRLFCRLF ++ lit "hi"] /\
  m_tabs (importState (exportState r) (emptyRepeater None)) = map (with_history []) (m_tabs r).
Proof.
  cbv zeta. split; [vm_compute; reflexivity|].
  assert (H : steps rstep (emptyRepeater None) ex_sent (ex_state ex_sent)) by (apply ex_tabs_reached; vm_compute; reflexivity).
  rewrite (repeater_project_roundtrip None ex_sent (ex_state ex_sent) (emptyRepeater None) H); [reflexivity| |vm_compute; intros ?; discriminate|reflexivity].
  repeat (apply Forall_cons; split; [try exact I|]); [|constructor]. intros log. unfold answer_fits. cbn [ex_net sd_rawResponse sd_parsed].
  unfold wf_bytes, is_byte. split_and!; [| |by vm_compute..]; vm_compute; repeat (apply List.Forall_cons; [split; [intros ?; discriminate|reflexivity]|]); constructor.
Defined.

Example send_runs :
  map (fun t => (rp_status (tb_response t), rp_bytes (tb_response t), length (tb_history t))) (m_tabs (ex_state ex_sent)) = [(lit "HTTP/1.1 200 OK", 21, 1%nat)].
Proof. vm_compute. reflexivity. Qed.

(** A tab closed while its neighbour's answer is awaited: refused, as everything that
    would move the tab. *)
Example close_refused_while_busy :
  closeTab 0 (ex_state (ex_ready ++ [LSendAsync])) = (ex_state (ex_ready ++ [LSendAsync]), false).
Proof. vm_compute. reflexivity. Qed.
End Examples.
