(* ===== verification/ProxyModel.v ===== *)
(** * The live history: Src/FrontEnd/GUI/Models/Proxy

    [ProxyModel] (proxy_model.cpp) is the table of captured transactions with its bounded
    window, [SiteMapModel] (site_map_model.cpp) the hosts with their counts, kept by the
    table's signals, [ProxyFilterModel] (proxy_filter_model.cpp) the filtered view.
    Formatting a time is Qt's ([QtClock]).  A signal's slot runs where the signal is
    emitted: the site map counts a row after it is appended and before old rows go. *)

From stdpp Require Import sorting.
From S2P Require Import Prelude Qt QtSample HttpFraming SessionRules.

Local Open Scope Z_scope.

(** [QDateTime::toString("HH:mm:ss.zzz")] of a valid time, in milliseconds. *)
Class QtClock := { clock_text : Z -> qstr }.

(** What is captured: the request with its [timestamp] ([None] when not valid), the
    response with [wasTls] and [peerAddress]. *)
Record Transaction := mkTx {
  tx_request : HttpRequest; tx_time : option Z; tx_response : HttpResponse; tx_tls : bool; tx_peer : qstr
}.

Section ProxyModel.
Context {Q : QtText} {K : QtClock}.

(** ** The table *)

Record Entry := mkEntry { e_id : Z; e_tx : Transaction }.
Record ProxyModel := mkModel { m_entries : list Entry; m_nextId : Z; m_firstId : Z; m_maxRows : Z }.

Definition newModel : ProxyModel := mkModel [] 1 1 10000.
Definition rowCount (m : ProxyModel) : Z := zlen (m_entries m).
Definition lastId (m : ProxyModel) : Z := m_firstId m + rowCount m - 1.

Definition clear (m : ProxyModel) : ProxyModel := mkModel [] 1 1 (m_maxRows m).

(** The loop of both: rows leave at the front while there are too many. *)
Fixpoint evict (maxRows : Z) (es : list Entry) (first : Z) : list Entry * Z :=
  match es with
  | [] => ([], first)
  | _ :: es' => if maxRows <? zlen es then evict maxRows es' (first + 1) else (es, first)
  end.
Definition trim (m : ProxyModel) : ProxyModel :=
  let '(es, first) := evict (m_maxRows m) (m_entries m) (m_firstId m) in mkModel es (m_nextId m) first (m_maxRows m).

Definition setMaxRowsInMemory (n : Z) (m : ProxyModel) : ProxyModel :=
  trim (mkModel (m_entries m) (m_nextId m) (m_firstId m) (Z.max 100 n)).

(** [addResponse] up to [endInsertRows]; the identifier overflows behind [INT_MAX]. *)
Definition append_row (tx : Transaction) (m : ProxyModel) : option ProxyModel :=
  if m_nextId m =? INT_MAX then None
  else Some (mkModel (m_entries m ++ [mkEntry (m_nextId m) tx]) (m_nextId m + 1) (m_firstId m) (m_maxRows m)).
Definition addResponse (tx : Transaction) (m : ProxyModel) : option ProxyModel := trim <$> append_row tx m.

(** ** Lookups *)

Definition entry_at (m : ProxyModel) (row : Z) : option Entry :=
  if (row <? 0) || (rowCount m <=? row) then None else m_entries m !! Z.to_nat row.
Definition requestAt (m : ProxyModel) (row : Z) : option HttpRequest := tx_request ∘ e_tx <$> entry_at m row.
Definition responseAt (m : ProxyModel) (row : Z) : option HttpResponse := tx_response ∘ e_tx <$> entry_at m row.
Definition hostAt (m : ProxyModel) (row : Z) : qstr := from_option (rq_host ∘ tx_request ∘ e_tx) [] (entry_at m row).
Definition portAt (m : ProxyModel) (row : Z) : Z := from_option (rq_port ∘ tx_request ∘ e_tx) 0 (entry_at m row).
Definition tlsAt (m : ProxyModel) (row : Z) : bool := from_option (tx_tls ∘ e_tx) false (entry_at m row).

(** The guard of the functions by identifier: the row an identifier has, if any. *)
Definition row_of_id (m : ProxyModel) (id : Z) : option Z :=
  if id <? m_firstId m then None
  else let idx := id - m_firstId m in if (idx <? 0) || (rowCount m <=? idx) then None else Some idx.
Definition requestById (m : ProxyModel) (id : Z) : option HttpRequest := row_of_id m id ≫= requestAt m.
Definition responseById (m : ProxyModel) (id : Z) : option HttpResponse := row_of_id m id ≫= responseAt m.
Definition hostById (m : ProxyModel) (id : Z) : qstr := from_option (hostAt m) [] (row_of_id m id).
Definition portById (m : ProxyModel) (id : Z) : Z := from_option (portAt m) 0 (row_of_id m id).
Definition tlsById (m : ProxyModel) (id : Z) : bool := from_option (tlsAt m) false (row_of_id m id).

(** ** What is shown *)

Definition count_chr (c : Z) (s : list Z) : Z := zlen (List.filter (fun x => x =? c) s).

Fixpoint form_params (hs : list (qstr * qstr)) (body : bytes) : Z :=
  match hs with
  | [] => 0
  | h :: hs' =>
      if u_cieq (fst h) (lit "Content-Type") && u_contains_ci (snd h) (lit "application/x-www-form-urlencoded")
      then if is_nil body then 0 else count_chr 38 body + 1
      else form_params hs' body
  end.
Definition countParams (r : HttpRequest) : Z :=
  match index_of 63 (rq_path r) with
  | Some q => if (q + 1 <? length (rq_path r))%nat then count_chr 38 (drop (q + 1) (rq_path r)) + 1 else 0
  | None => 0
  end + form_params (rq_headers r) (rq_body r).

Fixpoint extractMime (hs : list (qstr * qstr)) : qstr :=
  match hs with
  | [] => []
  | h :: hs' =>
      if u_cieq (fst h) (lit "Content-Type")
      then match index_of 59 (snd h) with Some semi => u_trimmed (take semi (snd h)) | None => u_trimmed (snd h) end
      else extractMime hs'
  end.

Inductive Role := IdRole | HostRole | MethodRole | UrlRole | StatusCodeRole | MimeRole | ParamsRole | TlsRole | IpRole | TimestampRole.
(** [QVariant]; [toString], [toInt] and [toBool] of one that holds no such value. *)
Inductive Variant := VNone | VInt (n : Z) | VString (s : qstr) | VBool (b : bool).
Definition v_string (v : Variant) : qstr := match v with VString s => s | _ => [] end.
Definition v_int (v : Variant) : Z := match v with VInt n => n | _ => 0 end.
Definition v_bool (v : Variant) : bool := match v with VBool b => b | _ => false end.

Definition data (m : ProxyModel) (row : Z) (r : Role) : Variant :=
  match entry_at m row with
  | None => VNone
  | Some e =>
      let tx := e_tx e in
      match r with
      | IdRole => VInt (e_id e)
      | HostRole => VString (rq_host (tx_request tx))
      | MethodRole => VString (rq_method (tx_request tx))
      | UrlRole => VString (rq_path (tx_request tx))
      | StatusCodeRole => VInt (rs_statusCode (tx_response tx))
      | MimeRole => VString (extractMime (rs_headers (tx_response tx)))
      | ParamsRole => VInt (countParams (tx_request tx))
      | TlsRole => VBool (tx_tls tx)
      | IpRole => VString (tx_peer tx)
      | TimestampRole => VString (from_option clock_text [] (tx_time tx))
      end
  end.

Definition kMaxBodyPreviewBytes : Z := 64 * 1024.
Definition looksTextual (contentType : qstr) : bool :=
  u_starts_ci contentType (lit "text/") || u_contains_ci contentType (lit "json") || u_contains_ci contentType (lit "javascript")
  || u_contains_ci contentType (lit "xml") || u_contains_ci contentType (lit "html")
  || u_contains_ci contentType (lit "x-www-form-urlencoded") || is_nil contentType.
Definition renderBody (body : bytes) (headers : list (qstr * qstr)) (headerName : qstr) : qstr :=
  if is_nil body then []
  else
    let contentType := findHeader headers headerName in
    if negb (looksTextual contentType) then
      arg (arg (lit "[binary %1 bytes, %2]") (number 10 (zlen body))) (if is_nil contentType then lit "no content-type" else contentType)
    else
      u_fromutf8 (take (Z.to_nat kMaxBodyPreviewBytes) body)
      ++ (if kMaxBodyPreviewBytes <? zlen body then [10; 10] ++ arg (lit "[truncated; %1 more bytes]") (number 10 (zlen body - kMaxBodyPreviewBytes)) else []).

Definition header_lines (hs : list (qstr * qstr)) : qstr := flat_map (fun h => fst h ++ lit ": " ++ snd h ++ [10]) hs.
(** The body as text, or byte by byte when it is not UTF-8. *)
Definition raw_text (body : bytes) : qstr :=
  let text := u_fromutf8 body in if seq_eqb (u_toutf8 text) body then text else body.
Definition requestRawAt (m : ProxyModel) (row : Z) : qstr :=
  match requestAt m row with
  | None => []
  | Some req => rq_method req ++ [32] ++ rq_path req ++ [32] ++ rq_httpVersion req ++ [10] ++ header_lines (rq_headers req) ++ [10] ++ raw_text (rq_body req)
  end.
(** [QString::number] of an [int]. *)
Definition int_text (n : Z) : qstr := if n <? 0 then 45 :: number 10 (- n) else number 10 n.
Definition responseRawAt (m : ProxyModel) (row : Z) : qstr :=
  match responseAt m row with
  | None => []
  | Some resp =>
      arg (arg (arg (lit "%1 %2 %3" ++ [10]) (rs_httpVersion resp)) (int_text (rs_statusCode resp))) (rs_reasonPhrase resp)
      ++ header_lines (rs_headers resp) ++ [10] ++ renderBody (bodyForInspection resp) (rs_headers resp) (lit "Content-Type")
  end.
Definition requestRawById (m : ProxyModel) (id : Z) : qstr := from_option (requestRawAt m) [] (row_of_id m id).
Definition responseRawById (m : ProxyModel) (id : Z) : qstr := from_option (responseRawAt m) [] (row_of_id m id).

(** The markers of the summary; 8594 is the arrow. *)
Definition summary_template : qstr := lit "#%1  %2  %3://%4:%5%6  " ++ [8594] ++ lit "  %7 %8".
Definition summaryAt (m : ProxyModel) (row : Z) : qstr :=
  match entry_at m row with
  | None => []
  | Some e =>
      let tx := e_tx e in
      fold_left arg [int_text (e_id e); rq_method (tx_request tx); if tx_tls tx then lit "https" else lit "http"; rq_host (tx_request tx);
        int_text (rq_port (tx_request tx)); rq_path (tx_request tx); int_text (rs_statusCode (tx_response tx)); rs_reasonPhrase (tx_response tx)] summary_template
  end.

(** ** The filtered view *)

Record ProxyFilterModel := mkFilter { f_hostSubstring : qstr; f_statusClass : qstr; f_methodFilter : qstr }.
Definition newFilter : ProxyFilterModel := mkFilter [] (lit "all") [].

(** The setters; the flag says whether the filter was invalidated. *)
Definition setHostSubstring (s : qstr) (f : ProxyFilterModel) : ProxyFilterModel * bool :=
  if seq_eqb s (f_hostSubstring f) then (f, false) else (mkFilter s (f_statusClass f) (f_methodFilter f), true).
Definition setStatusClass (c : qstr) (f : ProxyFilterModel) : ProxyFilterModel * bool :=
  if seq_eqb c (f_statusClass f) then (f, false) else (mkFilter (f_hostSubstring f) c (f_methodFilter f), true).
Definition setMethodFilter (s : qstr) (f : ProxyFilterModel) : ProxyFilterModel * bool :=
  if seq_eqb s (f_methodFilter f) then (f, false) else (mkFilter (f_hostSubstring f) (f_statusClass f) s, true).
Definition clearFilters (f : ProxyFilterModel) : ProxyFilterModel * bool := (newFilter, true).

Definition filterAcceptsRow (f : ProxyFilterModel) (src : ProxyModel) (sourceRow : Z) : bool :=
  let host := v_string (data src sourceRow HostRole) in
  let family := Z.quot (v_int (data src sourceRow StatusCodeRole)) 100 in
  let method := v_string (data src sourceRow MethodRole) in
  if negb (is_nil (f_hostSubstring f)) && negb (u_contains_ci host (f_hostSubstring f)) then false
  else if negb (seq_eqb (f_statusClass f) (lit "all")) && negb (is_nil (f_statusClass f))
    && ((seq_eqb (f_statusClass f) (lit "2xx") && negb (family =? 2)) || (seq_eqb (f_statusClass f) (lit "3xx") && negb (family =? 3))
        || (seq_eqb (f_statusClass f) (lit "4xx") && negb (family =? 4)) || (seq_eqb (f_statusClass f) (lit "5xx") && negb (family =? 5))) then false
  else if negb (is_nil (f_methodFilter f)) && negb (u_cieq method (f_methodFilter f)) then false
  else true.

(** [QSortFilterProxyModel] without sorting: the accepted rows in order. *)
Definition rows_of (m : ProxyModel) : list Z := map Z.of_nat (seq 0 (length (m_entries m))).
Definition shown_rows (f : ProxyFilterModel) (src : ProxyModel) : list Z := List.filter (filterAcceptsRow f src) (rows_of src).
Definition hiddenCount (f : ProxyFilterModel) (src : ProxyModel) : Z := rowCount src - zlen (shown_rows f src).
Definition sourceRow (f : ProxyFilterModel) (src : ProxyModel) (filteredRow : Z) : Z :=
  if (filteredRow <? 0) || (zlen (shown_rows f src) <=? filteredRow) then -1
  else default (-1) (shown_rows f src !! Z.to_nat filteredRow).

(** ** The site map *)

Record SiteEntry := mkSite { s_host : qstr; s_count : Z; s_anyTls : bool }.
Record SiteMapModel := mkSites { sm_entries : list SiteEntry; sm_lookup : gmap qstr nat }.
Definition emptySites : SiteMapModel := mkSites [] ∅.

Definition indexOfHost (host : qstr) (s : SiteMapModel) : option nat := sm_lookup s !! host.
(** The body of both loops. *)
Definition count_row (src : ProxyModel) (row : Z) (s : SiteMapModel) : SiteMapModel :=
  let host := v_string (data src row HostRole) in
  let tls := v_bool (data src row TlsRole) in
  if is_nil host then s
  else match indexOfHost host s with
       | Some existing => mkSites (alter (fun e => mkSite (s_host e) (s_count e + 1) (s_anyTls e || tls)) existing (sm_entries s)) (sm_lookup s)
       | None => mkSites (sm_entries s ++ [mkSite host 1 tls]) (<[host := length (sm_entries s)]> (sm_lookup s))
       end.
Definition rebuild (src : ProxyModel) (s : SiteMapModel) : SiteMapModel :=
  fold_left (fun s row => count_row src row s) (rows_of src) emptySites.
Definition onSourceRowsInserted (src : ProxyModel) (first last : Z) (s : SiteMapModel) : SiteMapModel :=
  fold_left (fun s row => count_row src row s) (map (fun k => first + Z.of_nat k) (seq 0 (Z.to_nat (last - first + 1)))) s.
Definition onSourceModelReset : ProxyModel -> SiteMapModel -> SiteMapModel := rebuild.
Definition clear_sites (s : SiteMapModel) : SiteMapModel := if is_nil (sm_entries s) then s else emptySites.

(** ** The table with its site map *)

Record Tables := mkTables { t_model : ProxyModel; t_sites : SiteMapModel }.
Definition newTables : Tables := mkTables newModel (rebuild newModel emptySites).

Inductive Op := Add (tx : Transaction) | SetMax (n : Z) | Clear | ClearSites.
Definition exec (t : Tables) (o : Op) : option Tables :=
  match o with
  | Add tx =>
      m ← append_row tx (t_model t);
      let row := rowCount (t_model t) in
      Some (mkTables (trim m) (onSourceRowsInserted m row row (t_sites t)))
  | SetMax n => Some (mkTables (setMaxRowsInMemory n (t_model t)) (t_sites t))
  | Clear => let m := clear (t_model t) in Some (mkTables m (onSourceModelReset m (t_sites t)))
  | ClearSites => Some (mkTables (t_model t) (clear_sites (t_sites t)))
  end.
Definition run (ops : list Op) (t : Tables) : option Tables := foldl (fun t o => t ≫= fun t => exec t o) (Some t) ops.

(** ** Choosing rows to probe (control_server.cpp, /api/probe/all) *)

Definition probe_wanted (r : HttpRequest) : bool :=
  negb (starts_with (lit "WS") (rq_method r))
  && match index_of 63 (rq_path r) with Some q => negb (is_nil (drop (q + 1) (rq_path r))) | None => false end.
Fixpoint probe_loop (m : ProxyModel) (n : nat) (limit : Z) (rowIds : list Z) : list Z :=
  match n with
  | O => rowIds
  | S i =>
      if limit <=? zlen rowIds then rowIds
      else match requestAt m (Z.of_nat i) with
           | Some r => probe_loop m i limit (if probe_wanted r then rowIds ++ [Z.of_nat i + 1] else rowIds)
           | None => probe_loop m i limit rowIds
           end
  end.
Definition probe_all (m : ProxyModel) (limit : Z) : list Z := probe_loop m (Z.to_nat (rowCount m)) limit [].

(** ** What the table promises: a log *)

(** The transactions captured since the last clear, and since the site map was emptied. *)
Definition captured (ops : list Op) : list Transaction :=
  fold_left (fun log o => match o with Add tx => log ++ [tx] | Clear => [] | SetMax _ | ClearSites => log end) ops [].
Definition mapped (ops : list Op) : list Transaction :=
  fold_left (fun log o => match o with Add tx => log ++ [tx] | Clear | ClearSites => [] | SetMax _ => log end) ops [].

Definition tx_host (tx : Transaction) : qstr := rq_host (tx_request tx).
(** Each text once, where it appears first; empty ones are none. *)
Fixpoint first_seen (l : list qstr) : list qstr :=
  match l with
  | [] => []
  | h :: l' => if is_nil h then first_seen l' else h :: List.filter (fun x => negb (seq_eqb x h)) (first_seen l')
  end.
Definition host_count (h : qstr) (txs : list Transaction) : Z := zlen (List.filter (fun tx => seq_eqb (tx_host tx) h) txs).
Definition host_tls (h : qstr) (txs : list Transaction) : bool := existsb (fun tx => seq_eqb (tx_host tx) h && tx_tls tx) txs.
(** The site map of a log. *)
Definition site_summary (txs : list Transaction) : list SiteEntry :=
  map (fun h => mkSite h (host_count h txs) (host_tls h txs)) (first_seen (map tx_host txs)).

Definition numbered (first : Z) (txs : list Transaction) : list Entry := imap (fun i tx => mkEntry (first + Z.of_nat i) tx) txs.

(** ** The window *)

Lemma evict_spec maxRows es first : 0 <= maxRows ->
  evict maxRows es first = (drop (length es - Z.to_nat maxRows) es, first + Z.of_nat (length es - Z.to_nat maxRows)).
Proof.
  intros Hm. revert first. induction es as [|e es IH]; intros first; [cbn; f_equal; lia|]. cbn [evict].
  destruct (maxRows <? zlen (e :: es)) eqn:E; unfold zlen in E; cbn [length] in *.
  - apply Z.ltb_lt in E. rewrite IH. replace (S (length es) - Z.to_nat maxRows)%nat with (S (length es - Z.to_nat maxRows)) by lia.
    cbn [drop]. f_equal. lia.
  - apply Z.ltb_ge in E. replace (S (length es) - Z.to_nat maxRows)%nat with 0%nat by lia. cbn. f_equal. lia.
Qed.

Lemma length_numbered first txs : length (numbered first txs) = length txs.
Proof. apply length_imap. Qed.
Lemma numbered_lookup first txs i : numbered first txs !! i = (fun tx => mkEntry (first + Z.of_nat i) tx) <$> txs !! i.
Proof. unfold numbered. by rewrite list_lookup_imap. Qed.
Lemma numbered_drop first txs k : drop k (numbered first txs) = numbered (first + Z.of_nat k) (drop k txs).
Proof.
  apply list_eq. intros i. rewrite lookup_drop, !numbered_lookup, lookup_drop. destruct (txs !! (k + i)%nat); [|done]. cbn. do 2 f_equal. lia.
Qed.
Lemma numbered_snoc first txs tx : numbered first (txs ++ [tx]) = numbered first txs ++ [mkEntry (first + zlen txs) tx].
Proof. unfold numbered. rewrite imap_app. cbn. by rewrite Nat.add_0_r. Qed.

(** The table against its log. *)
Record window (m : ProxyModel) (log : list Transaction) : Prop := {
  win_next : m_nextId m = zlen log + 1;
  win_first : 1 <= m_firstId m <= zlen log + 1;
  win_entries : m_entries m = numbered (m_firstId m) (drop (Z.to_nat (m_firstId m - 1)) log);
  win_cap : 100 <= m_maxRows m;
  win_size : rowCount m <= m_maxRows m;
  win_range : m_nextId m <= INT_MAX
}.

Lemma window_rows m log : window m log -> rowCount m = zlen log + 1 - m_firstId m.
Proof. intros [H1 H2 H3 _ _ _]. unfold rowCount, zlen in *. rewrite H3, length_numbered, length_drop. lia. Qed.

(** Trimming a table that is right but for its size. *)
Lemma trim_window es next first maxRows log :
  next = zlen log + 1 -> 1 <= first <= zlen log + 1 -> es = numbered first (drop (Z.to_nat (first - 1)) log) -> 100 <= maxRows -> next <= INT_MAX ->
  window (trim (mkModel es next first maxRows)) log /\ rowCount (trim (mkModel es next first maxRows)) = Z.min (zlen es) maxRows /\
  m_maxRows (trim (mkModel es next first maxRows)) = maxRows.
Proof.
  intros Hn Hf He Hm Hr. unfold trim. cbn [m_maxRows m_entries m_firstId m_nextId]. rewrite evict_spec by lia. set (k := (length es - Z.to_nat maxRows)%nat).
  assert (Hl : length es = Z.to_nat (zlen log + 1 - first)). { rewrite He, length_numbered, length_drop. unfold zlen in *. lia. }
  split_and!; [|unfold rowCount, zlen; cbn [m_entries]; rewrite length_drop; lia|done].
  split; cbn [m_entries m_nextId m_firstId m_maxRows]; try done.
  - unfold zlen in *. lia.
  - rewrite He, numbered_drop, drop_drop. repeat f_equal. lia.
  - unfold rowCount, zlen. cbn [m_entries]. rewrite length_drop. lia.
Qed.

Lemma append_window tx m m' log : window m log -> append_row tx m = Some m' ->
  m_nextId m' = zlen (log ++ [tx]) + 1 /\ 1 <= m_firstId m' <= zlen (log ++ [tx]) + 1 /\
  m_entries m' = numbered (m_firstId m') (drop (Z.to_nat (m_firstId m' - 1)) (log ++ [tx])) /\ m_maxRows m' = m_maxRows m /\ m_nextId m' <= INT_MAX /\
  rowCount m' = rowCount m + 1 /\ m_entries m' = m_entries m ++ [mkEntry (m_nextId m) tx].
Proof.
  intros [H1 H2 H3 H4 H5 H6] H. unfold append_row in H. destruct (m_nextId m =? INT_MAX) eqn:E; [done|]. apply Z.eqb_neq in E. injection H as <-.
  cbn [m_entries m_nextId m_firstId m_maxRows]. unfold rowCount, zlen in *. cbn [m_entries]. rewrite !length_app. cbn [length].
  split_and!; try done; try lia. rewrite drop_app_le by lia. rewrite numbered_snoc, <- H3. do 3 f_equal. unfold zlen. rewrite length_drop. lia.
Qed.

Lemma exec_window t o t' log : window (t_model t) log -> exec t o = Some t' ->
  window (t_model t') (match o with Add tx => log ++ [tx] | Clear => [] | SetMax _ | ClearSites => log end).
Proof.
  intros Hw H. destruct o as [tx|n| |]; cbn [exec] in H.
  - destruct (append_row tx (t_model t)) as [m|] eqn:Ea; [|done]. injection H as <-. cbn [t_model].
    destruct (append_window _ _ _ _ Hw Ea) as (H1 & H2 & H3 & H4 & H5 & _ & _). destruct m as [es nx fi mx]. cbn [m_entries m_nextId m_firstId m_maxRows] in *.
    destruct Hw. apply trim_window; [done..|lia|done].
  - injection H as <-. cbn [t_model]. unfold setMaxRowsInMemory. destruct Hw. apply trim_window; [done..|lia|done].
  - injection H as <-. cbn [t_model]. destruct Hw. unfold clear. split; cbn [m_entries m_nextId m_firstId m_maxRows]; unfold rowCount, zlen, INT_MAX in *; cbn [m_entries length] in *; try done; lia.
  - injection H as <-. done.
Qed.

Lemma run_snoc ops o t : run (ops ++ [o]) t = run ops t ≫= fun t => exec t o.
Proof. unfold run. by rewrite foldl_app. Qed.
Lemma captured_snoc ops o : captured (ops ++ [o]) = match o with Add tx => captured ops ++ [tx] | Clear => [] | SetMax _ | ClearSites => captured ops end.
Proof. unfold captured. by rewrite fold_left_app. Qed.
Lemma mapped_snoc ops o : mapped (ops ++ [o]) = match o with Add tx => mapped ops ++ [tx] | Clear | ClearSites => [] | SetMax _ => mapped ops end.
Proof. unfold mapped. by rewrite fold_left_app. Qed.

Lemma run_window ops t : run ops newTables = Some t -> window (t_model t) (captured ops).
Proof.
  revert t. induction ops as [|o ops IH] using rev_ind; intros t H.
  - injection H as <-. split; cbn; try done; unfold rowCount, INT_MAX, zlen; cbn; lia.
  - rewrite run_snoc in H. destruct (run ops newTables) as [t0|] eqn:E; [|done]. cbn [mbind option_bind] in H. rewrite captured_snoc.
    by apply (exec_window t0 o t); [apply IH|].
Qed.

(** A row of the window is the transaction of its identifier. *)
Lemma window_entry m log row : window m log -> 0 <= row < rowCount m ->
  exists tx, log !! Z.to_nat (m_firstId m + row - 1) = Some tx /\ entry_at m row = Some (mkEntry (m_firstId m + row) tx).
Proof.
  intros Hw Hr. pose proof (window_rows m log Hw) as Hn. destruct Hw as [H1 H2 H3 _ _ _]. unfold entry_at.
  rewrite (proj2 (Z.ltb_ge row 0)), (proj2 (Z.leb_gt (rowCount m) row)) by lia. cbn [orb]. rewrite H3, numbered_lookup, lookup_drop.
  destruct (lookup_lt_is_Some_2 log (Z.to_nat (m_firstId m + row - 1))) as [tx Ht]; [unfold zlen in *; lia|]. exists tx. split; [done|].
  replace (Z.to_nat (m_firstId m - 1) + Z.to_nat row)%nat with (Z.to_nat (m_firstId m + row - 1)) by lia. rewrite Ht. cbn. do 2 f_equal. lia.
Qed.

(** What an identifier leads to. *)
Lemma window_id m log id : window m log ->
  (m_firstId m <= id <= zlen log /\ exists tx, log !! Z.to_nat (id - 1) = Some tx /\ row_of_id m id = Some (id - m_firstId m) /\ entry_at m (id - m_firstId m) = Some (mkEntry id tx))
  \/ ((id < m_firstId m \/ zlen log < id) /\ row_of_id m id = None).
Proof.
  intros Hw. pose proof (window_rows m log Hw) as Hn. unfold row_of_id. destruct (id <? m_firstId m) eqn:E1; to_prop.
  - right. split; [by left|done].
  - destruct (zlen log <? id) eqn:E2; to_prop.
    + right. split; [by right|]. rewrite (proj2 (Z.leb_le (rowCount m) (id - m_firstId m))) by lia. by rewrite orb_true_r.
    + left. split; [lia|]. destruct (window_entry m log (id - m_firstId m) Hw) as (tx & Ht & He); [lia|]. exists tx.
      rewrite (proj2 (Z.ltb_ge (id - m_firstId m) 0)), (proj2 (Z.leb_gt (rowCount m) (id - m_firstId m))) by lia.
      split_and!; [by replace (m_firstId m + (id - m_firstId m) - 1) with (id - 1) in Ht by lia|done|].
      by replace (m_firstId m + (id - m_firstId m)) with id in He by lia.
Qed.

Definition keeps_cap (o : Op) : bool := match o with SetMax _ => false | _ => true end.

Lemma run_default ops t : run ops newTables = Some t -> forallb keeps_cap ops = true ->
  m_maxRows (t_model t) = 10000 /\ rowCount (t_model t) = Z.min (zlen (captured ops)) 10000.
Proof.
  revert t. induction ops as [|o ops IH] using rev_ind; intros t H Hc; [injection H as <-; done|].
  rewrite run_snoc in H. destruct (run ops newTables) as [t0|] eqn:E; [|done]. cbn [mbind option_bind] in H. rewrite forallb_app in Hc. apply andb_true_iff in Hc as [Hc Ho]. destruct (IH t0 eq_refl Hc) as [Hm Hn]. rewrite captured_snoc. pose proof (run_window ops t0 E) as Hw.
  destruct o as [tx|n| |]; cbn [exec] in H; [|done|injection H as <-|injection H as <-]; [|cbn; by rewrite Hm|done].
  destruct (append_row tx (t_model t0)) as [m|] eqn:Ea; [|done]. injection H as <-. cbn [t_model].
  destruct (append_window _ _ _ _ Hw Ea) as (H1 & H2 & H3 & H4 & H5 & H6 & _). destruct m as [es nx fi mx]. cbn [m_entries m_nextId m_firstId m_maxRows] in *.
  destruct (trim_window es nx fi mx (captured ops ++ [tx]) H1 H2 H3) as (_ & Hs & ->); [destruct Hw; lia|done|]. rewrite Hs, H4, Hm. split; [done|].
  change (zlen es) with (rowCount (mkModel es nx fi mx)). rewrite H6, Hn. unfold zlen. rewrite length_app. cbn [length]. lia.
Qed.

(** C31. The table is a window on the log of what was captured since the last clear.
    However captures, changes of its size and clears follow each other, identifiers
    number the log from 1, the window is its end, never longer than its cap (10000 rows
    unless changed, and at least 100), and an identifier leads to its own transaction
    while that is in the window and to nothing otherwise. *)
Theorem window_refines_log ops t : run ops newTables = Some t ->
  let m := t_model t in let log := captured ops in
  lastId m = zlen log /\ 1 <= m_firstId m <= zlen log + 1 /\ rowCount m <= m_maxRows m /\ 100 <= m_maxRows m /\
  (forallb keeps_cap ops = true -> rowCount m = Z.min (zlen log) 10000) /\
  (forall row, 0 <= row < rowCount m -> data m row IdRole = VInt (m_firstId m + row) /\
    requestAt m row = tx_request <$> log !! Z.to_nat (m_firstId m + row - 1)) /\
  (forall id, let tx := if (m_firstId m <=? id) && (id <=? zlen log) then log !! Z.to_nat (id - 1) else None in
    requestById m id = tx_request <$> tx /\ responseById m id = tx_response <$> tx /\
    hostById m id = from_option tx_host [] tx /\ portById m id = from_option (rq_port ∘ tx_request) 0 tx /\ tlsById m id = from_option tx_tls false tx).
Proof.
  intros H m log. pose proof (run_window ops t H) as Hw. fold m log in Hw. pose proof (window_rows m log Hw) as Hn.
  split_and!; try (destruct Hw; unfold lastId; lia).
  - intros Hk. by destruct (run_default ops t H Hk).
  - intros row Hr. destruct (window_entry m log row Hw Hr) as (tx & Ht & He). unfold data, requestAt. rewrite He, Ht. done.
  - intros id. cbv zeta. unfold requestById, responseById, hostById, portById, tlsById.
    destruct (window_id m log id Hw) as [(Hr & tx & Ht & -> & He)|[Hr ->]]; cbn [mbind option_bind from_option].
    + rewrite (proj2 (Z.leb_le (m_firstId m) id)), (proj2 (Z.leb_le id (zlen log))) by lia. cbn [andb]. rewrite Ht.
      unfold requestAt, responseAt, hostAt, portAt, tlsAt. rewrite He. done.
    + replace ((m_firstId m <=? id) && (id <=? zlen log)) with false; [done|]. symmetry. apply andb_false_iff. destruct Hr; [left|right]; by apply Z.leb_gt.
Qed.

(** ** The site map *)

Lemma first_seen_in h l : h ∈ first_seen l <-> h ∈ l /\ h <> [].
Proof.
  induction l as [|x l IH]; cbn [first_seen]; [set_solver|]. destruct (is_nil x) eqn:E.
  - apply is_nil_true in E. subst. rewrite IH. set_solver.
  - assert (x <> []) by (intros ->; done). rewrite list_elem_of_In. cbn [In]. rewrite List.filter_In, <- list_elem_of_In, IH, negb_true_iff. split.
    + intros [->|[[H1 H2] H3]]; set_solver.
    + intros [H1 H2]. destruct (decide (x = h)) as [->|Hne]; [by left|right]. split; [set_solver|].
      apply not_true_iff_false. rewrite seq_eqb_eq. congruence.
Qed.

Lemma first_seen_snoc l h : first_seen (l ++ [h]) = first_seen l ++ (if is_nil h || bool_decide (h ∈ l) then [] else [h]).
Proof.
  induction l as [|x l IH]; cbn [app first_seen].
  - rewrite bool_decide_false by set_solver. by destruct (is_nil h).
  - rewrite IH. destruct (is_nil x) eqn:E.
    + f_equal. destruct (is_nil h) eqn:Eh; [done|]. cbn [orb]. apply is_nil_true in E. subst x.
      assert (h <> []) by (intros ->; done). by rewrite (bool_decide_ext (h ∈ [] :: l) (h ∈ l)) by set_solver.
    + cbn [app]. f_equal. rewrite List.filter_app. f_equal. destruct (is_nil h) eqn:Eh; [done|]. cbn [orb].
      case_bool_decide as D; [by rewrite bool_decide_true by set_solver|]. cbn [List.filter].
      destruct (seq_eqb h x) eqn:Ex; cbn [negb].
      * apply seq_eqb_eq in Ex as ->. by rewrite bool_decide_true by set_solver.
      * rewrite bool_decide_false; [done|]. intros [->|?]%elem_of_cons; [by rewrite seq_eqb_refl in Ex|done].
Qed.

Lemma host_count_snoc h txs tx : host_count h (txs ++ [tx]) = host_count h txs + (if seq_eqb (tx_host tx) h then 1 else 0).
Proof. unfold host_count, zlen. rewrite List.filter_app, length_app. cbn [List.filter]. destruct (seq_eqb _ _); cbn [length]; lia. Qed.
Lemma host_tls_snoc h txs tx : host_tls h (txs ++ [tx]) = host_tls h txs || (seq_eqb (tx_host tx) h && tx_tls tx).
Proof. unfold host_tls. rewrite existsb_app. cbn [existsb]. by rewrite orb_false_r. Qed.
Lemma host_none h txs : h ∉ map tx_host txs -> host_count h txs = 0 /\ host_tls h txs = false.
Proof.
  induction txs as [|tx txs IH]; intros Hn; [done|]. cbn [map] in Hn. destruct IH as [IH1 IH2]; [set_solver|].
  assert (E : seq_eqb (tx_host tx) h = false) by (apply not_true_iff_false; rewrite seq_eqb_eq; set_solver).
  unfold host_count, host_tls in *. cbn [List.filter existsb]. rewrite E. done.
Qed.

Lemma first_seen_nodup l : NoDup (first_seen l).
Proof.
  induction l as [|x l IH]; cbn [first_seen]; [constructor|]. destruct (is_nil x); [done|]. constructor.
  - rewrite list_elem_of_In, List.filter_In, seq_eqb_refl. intros [_ H]. done.
  - revert IH. generalize (first_seen l). clear l. intros l IH. induction IH as [|y l' Hy _ IH]; cbn [List.filter]; [constructor|]. destruct (seq_eqb y x); cbn [negb]; [done|].
    constructor; [|done]. rewrite list_elem_of_In, List.filter_In, <- list_elem_of_In. tauto.
Qed.

(** The site map holds the summary of a log, and its lookup the rows of its hosts. *)
Record sites_of (s : SiteMapModel) (txs : list Transaction) : Prop := {
  so_entries : sm_entries s = site_summary txs;
  so_lookup : forall h i, sm_lookup s !! h = Some i <-> first_seen (map tx_host txs) !! i = Some h
}.

Lemma count_sites src row s txs tx : sites_of s txs -> v_string (data src row HostRole) = tx_host tx -> v_bool (data src row TlsRole) = tx_tls tx ->
  sites_of (count_row src row s) (txs ++ [tx]).
Proof.
  intros [He Hl] Hh Ht. unfold count_row. rewrite Hh, Ht. cbv zeta. unfold site_summary in *. set (h := tx_host tx) in *.
  assert (Hfs : first_seen (map tx_host (txs ++ [tx])) = first_seen (map tx_host txs) ++ (if is_nil h || bool_decide (h ∈ map tx_host txs) then [] else [h])).
  { rewrite map_app. apply first_seen_snoc. }
  destruct (is_nil h) eqn:En.
  - cbn [orb] in Hfs. rewrite app_nil_r in Hfs. apply is_nil_true in En. split; [|by rewrite Hfs]. unfold site_summary. rewrite Hfs, He. apply map_ext_in. intros x Hx.
    apply list_elem_of_In, first_seen_in in Hx as [_ Hx]. rewrite host_count_snoc, host_tls_snoc. fold h. rewrite En.
    replace (seq_eqb [] x) with false by (symmetry; apply not_true_iff_false; rewrite seq_eqb_eq; congruence). cbn [andb]. by rewrite Z.add_0_r, orb_false_r.
  - assert (Hne : h <> []) by (intros Hx; by rewrite Hx in En). unfold indexOfHost. destruct (sm_lookup s !! h) as [i|] eqn:Ei.
    + apply Hl in Ei. assert (Hin : h ∈ map tx_host txs) by (apply list_elem_of_lookup_2, first_seen_in in Ei; tauto).
      rewrite bool_decide_true in Hfs by done. cbn [orb] in Hfs. rewrite app_nil_r in Hfs. split; cbn [sm_entries sm_lookup]; [|by rewrite Hfs].
      unfold site_summary. rewrite Hfs, He. apply list_eq. intros j. rewrite list_lookup_fmap.
      destruct (decide (i = j)) as [<-|Hij].
      * rewrite list_lookup_alter, list_lookup_fmap, Ei. cbn. rewrite host_count_snoc, host_tls_snoc. fold h. by rewrite !seq_eqb_refl, decide_True by done.
      * rewrite list_lookup_alter_ne, list_lookup_fmap by done. destruct (first_seen (map tx_host txs) !! j) as [x|] eqn:Ej; [|done]. cbn.
        rewrite host_count_snoc, host_tls_snoc. fold h. replace (seq_eqb h x) with false; [cbn [andb]; by rewrite Z.add_0_r, orb_false_r|].
        symmetry. apply not_true_iff_false. rewrite seq_eqb_eq. intros <-. apply Hij. by apply (NoDup_lookup _ _ _ _ (first_seen_nodup (map tx_host txs)) Ei).
    + assert (Hin : h ∉ map tx_host txs).
      { intros Hin. assert (Hf : h ∈ first_seen (map tx_host txs)) by (by apply first_seen_in). apply list_elem_of_lookup_1 in Hf as [i Hi].
        apply Hl in Hi. congruence. }
      rewrite bool_decide_false in Hfs by done. cbn [orb] in Hfs. split; cbn [sm_entries sm_lookup].
      * unfold site_summary. rewrite Hfs, map_app, He. cbn [map]. f_equal.
        -- apply map_ext_in. intros x Hx%list_elem_of_In. apply first_seen_in in Hx as [Hx _]. rewrite host_count_snoc, host_tls_snoc. fold h.
           replace (seq_eqb h x) with false; [cbn [andb]; by rewrite Z.add_0_r, orb_false_r|].
           symmetry. apply not_true_iff_false. rewrite seq_eqb_eq. congruence.
        -- destruct (host_none h txs Hin) as [H1 H2]. rewrite host_count_snoc, host_tls_snoc, H1, H2. fold h. by rewrite seq_eqb_refl.
      * intros x i. rewrite Hfs, He, length_map. destruct (decide (x = h)) as [->|Hx].
        -- rewrite lookup_insert_eq. split.
           ++ intros [= <-]. by rewrite lookup_app_r, Nat.sub_diag by done.
           ++ intros [Hi|[Hi Hj]]%lookup_app_Some.
              ** exfalso. apply Hin. apply list_elem_of_lookup_2, first_seen_in in Hi. tauto.
              ** f_equal. destruct (i - length (first_seen (map tx_host txs)))%nat eqn:E; [lia|]. by destruct n.
        -- rewrite lookup_insert_ne, Hl by done. split; intros Hi.
           ++ by apply lookup_app_l_Some.
           ++ apply lookup_app_Some in Hi as [Hi|[_ Hi]]; [done|]. apply list_lookup_singleton_Some in Hi. naive_solver.
Qed.

Lemma sites_empty : sites_of emptySites [].
Proof. split; [done|]. intros h i. cbn. rewrite lookup_empty. done. Qed.

Lemma exec_sites t o t' log txs : window (t_model t) log -> sites_of (t_sites t) txs -> exec t o = Some t' ->
  sites_of (t_sites t') (match o with Add tx => txs ++ [tx] | Clear | ClearSites => [] | SetMax _ => txs end).
Proof.
  intros Hw Hs H. destruct o as [tx|n| |]; cbn [exec] in H.
  - destruct (append_row tx (t_model t)) as [m|] eqn:Ea; [|done]. injection H as <-. cbn [t_sites].
    destruct (append_window _ _ _ _ Hw Ea) as (_ & _ & _ & _ & _ & Hn & He). unfold onSourceRowsInserted.
    replace (Z.to_nat (rowCount (t_model t) - rowCount (t_model t) + 1)) with 1%nat by lia. cbn [seq map fold_left].
    replace (rowCount (t_model t) + Z.of_nat 0) with (rowCount (t_model t)) by lia.
    assert (Hd : entry_at m (rowCount (t_model t)) = Some (mkEntry (m_nextId (t_model t)) tx)).
    { unfold entry_at. rewrite Hn, He. unfold rowCount, zlen. rewrite (proj2 (Z.ltb_ge _ 0)), (proj2 (Z.leb_gt _ _)) by lia. cbn [orb].
      rewrite lookup_app_r by lia. by replace (Z.to_nat (Z.of_nat (length (m_entries (t_model t)))) - length (m_entries (t_model t)))%nat with 0%nat by lia. }
    apply count_sites; [done| |]; unfold data; rewrite Hd; done.
  - by injection H as <-.
  - injection H as <-. apply sites_empty.
  - injection H as <-. cbn [t_sites]. unfold clear_sites. destruct (is_nil (sm_entries (t_sites t))) eqn:E; [|apply sites_empty].
    apply is_nil_true in E. destruct Hs as [He Hl]. rewrite E in He. assert (Hf : first_seen (map tx_host txs) = []) by (unfold site_summary in He; by destruct (first_seen _)).
    split; [by rewrite E|]. intros h i. rewrite Hl, Hf. done.
Qed.

Lemma run_sites ops t : run ops newTables = Some t -> sites_of (t_sites t) (mapped ops).
Proof.
  revert t. induction ops as [|o ops IH] using rev_ind; intros t H; [injection H as <-; apply sites_empty|].
  rewrite run_snoc in H. destruct (run ops newTables) as [t0|] eqn:E; [|done]. cbn [mbind option_bind] in H. rewrite mapped_snoc.
  apply (exec_sites t0 o t (captured ops)); [by apply run_window|by apply IH|done].
Qed.

(** The site map equals the summary of the captures since the last clear: each host
    once, in the order of first appearance, with the number of its transactions and
    whether one of them was encrypted; also of those the window has let go. *)
Theorem site_map_counts ops t : run ops newTables = Some t -> sm_entries (t_sites t) = site_summary (mapped ops).
Proof. intros H. by destruct (run_sites ops t H). Qed.

(** ** The filtered view *)

Lemma rows_lookup m k : rows_of m !! k = if decide (k < length (m_entries m))%nat then Some (Z.of_nat k) else None.
Proof. unfold rows_of. rewrite list_lookup_fmap. destruct (decide _); [by rewrite lookup_seq_lt by done|by rewrite lookup_seq_ge by lia]. Qed.

Lemma shown_sorted f m : StronglySorted Z.lt (shown_rows f m).
Proof.
  unfold shown_rows, rows_of. generalize (length (m_entries m)). intros n. generalize 0%nat. induction n as [|n IH]; intros k; cbn [seq map List.filter]; [constructor|].
  destruct (filterAcceptsRow f m (Z.of_nat k)); [|apply IH]. constructor; [apply IH|]. apply List.Forall_forall. intros x [Hx _]%List.filter_In.
  apply in_map_iff in Hx as (j & <- & Hj%in_seq). lia.
Qed.

(** The filtered table shows exactly the accepted rows, each once and in order: its
    row k leads to one of them, and every accepted row is shown; the rest is counted
    as hidden. *)
Theorem filter_rows f m :
  (forall k, 0 <= k < zlen (shown_rows f m) ->
    0 <= sourceRow f m k < rowCount m /\ filterAcceptsRow f m (sourceRow f m k) = true /\
    (forall j, 0 <= j < k -> sourceRow f m j < sourceRow f m k)) /\
  (forall k, ~ 0 <= k < zlen (shown_rows f m) -> sourceRow f m k = -1) /\
  (forall r, 0 <= r < rowCount m -> filterAcceptsRow f m r = true -> exists k, 0 <= k < zlen (shown_rows f m) /\ sourceRow f m k = r) /\
  hiddenCount f m = zlen (List.filter (fun r => negb (filterAcceptsRow f m r)) (rows_of m)).
Proof.
  assert (HS : forall k, 0 <= k < zlen (shown_rows f m) -> shown_rows f m !! Z.to_nat k = Some (sourceRow f m k)).
  { intros k Hk. unfold sourceRow. rewrite (proj2 (Z.ltb_ge k 0)), (proj2 (Z.leb_gt _ k)) by lia. cbn [orb].
    destruct (lookup_lt_is_Some_2 (shown_rows f m) (Z.to_nat k)) as [x Hx]; [unfold zlen in Hk; lia|]. by rewrite Hx. }
  split_and!.
  - intros k Hk. pose proof (HS k Hk) as Hl. pose proof (list_elem_of_lookup_2 _ _ _ Hl) as Hin. unfold shown_rows in Hin.
    apply list_elem_of_In, List.filter_In in Hin as [Hr Ha]. split_and!; [| |done|].
    1,2: unfold rows_of in Hr; apply in_map_iff in Hr as (n & <- & Hn%in_seq); unfold rowCount, zlen; lia.
    intros j Hj. pose proof (HS j ltac:(lia)) as Hlj. pose proof (shown_sorted f m) as Hst.
    rewrite <- (take_drop (S (Z.to_nat j)) (shown_rows f m)) in Hst. apply (StronglySorted_app_1_elem_of _ _ _ _ _ Hst).
    + apply list_elem_of_lookup. exists (Z.to_nat j). rewrite lookup_take_lt by lia. done.
    + apply list_elem_of_lookup. exists (Z.to_nat k - S (Z.to_nat j))%nat. rewrite lookup_drop. by replace (S (Z.to_nat j) + (Z.to_nat k - S (Z.to_nat j)))%nat with (Z.to_nat k) by lia.
  - intros k Hk. unfold sourceRow. destruct (k <? 0) eqn:E1; [done|]. destruct (zlen (shown_rows f m) <=? k) eqn:E2; [done|]. to_prop. lia.
  - intros r Hr Ha. assert (Hin : r ∈ shown_rows f m).
    { unfold shown_rows. apply list_elem_of_In, List.filter_In. split; [|done]. apply in_map_iff. exists (Z.to_nat r). split; [lia|]. apply in_seq. unfold rowCount, zlen in Hr. lia. }
    apply list_elem_of_lookup_1 in Hin as [k Hk]. pose proof (lookup_lt_Some _ _ _ Hk). exists (Z.of_nat k).
    assert (Hb : 0 <= Z.of_nat k < zlen (shown_rows f m)) by (unfold zlen; lia). split; [done|]. pose proof (HS _ Hb) as Hl. rewrite Nat2Z.id in Hl. congruence.
  - unfold hiddenCount, shown_rows, rowCount, zlen. assert (Hn : length (m_entries m) = length (rows_of m)) by (unfold rows_of; by rewrite length_map, length_seq).
    rewrite Hn. clear. induction (rows_of m) as [|x l IH]; [done|]. cbn [List.filter length]. destruct (filterAcceptsRow f m x); cbn [negb length]; lia.
Qed.

(** ** Rows to probe *)

Lemma probe_loop_ids m log n limit acc : window m log -> (Z.of_nat n <= rowCount m) -> (forall id, In id acc -> exists r, requestAt m (id - 1) = Some r /\ probe_wanted r = true) ->
  forall id, In id (probe_loop m n limit acc) -> exists r, requestAt m (id - 1) = Some r /\ probe_wanted r = true.
Proof.
  intros Hw. revert acc. induction n as [|n IH]; intros acc Hn Ha id; cbn [probe_loop]; [by apply Ha|].
  destruct (limit <=? zlen acc); [by apply Ha|]. destruct (requestAt m (Z.of_nat n)) as [r|] eqn:Er; [|apply IH; [lia|done]].
  apply IH; [lia|]. intros x. destruct (probe_wanted r) eqn:Ew; [|by apply Ha]. intros [Hx|[<-|[]]]%in_app_iff; [by apply Ha|].
  replace (Z.of_nat n + 1 - 1) with (Z.of_nat n) by lia. by exists r.
Qed.

(** While nothing has left the window, the identifiers sent to be probed lead to
    requests with a query that are no WebSocket messages. *)
Theorem probe_all_ids ops t limit : run ops newTables = Some t -> m_firstId (t_model t) = 1 ->
  forall id, In id (probe_all (t_model t) limit) -> exists r, requestById (t_model t) id = Some r /\ probe_wanted r = true.
Proof.
  intros H Hf id Hin. pose proof (run_window ops t H) as Hw. unfold probe_all in Hin.
  destruct (probe_loop_ids _ _ (Z.to_nat (rowCount (t_model t))) limit [] Hw) with (id := id) as (r & Hr & Hp); [unfold rowCount, zlen; lia|done|done|].
  exists r. split; [|done]. unfold requestById, row_of_id. rewrite Hf. unfold requestAt, entry_at in Hr.
  destruct ((id - 1 <? 0) || (rowCount (t_model t) <=? id - 1)) eqn:E; [done|]. apply orb_false_iff in E as [E1 E2].
  replace (id <? 1) with (id - 1 <? 0) by (apply eq_true_iff_eq; rewrite !Z.ltb_lt; lia). rewrite E1. cbn [mbind option_bind]. unfold requestAt, entry_at. by rewrite E1, E2.
Qed.
End ProxyModel.

(** ** Examples *)

Definition sampleClock : QtClock := {| clock_text := number 10 |}.
#[local] Existing Instances asciiText sampleClock.

Definition sample_tx (method host path : qstr) (tls : bool) : Transaction :=
  mkTx (mkRequest method path (lit "HTTP/1.1") host 443 tls path [] []) (Some 0) (mkResponse (lit "HTTP/1.1") 200 (lit "OK") [] [] [] false) tls [].
(** A hundred and two captures into the smallest window. *)
Definition sample_ops : list Op :=
  SetMax 0 :: Add (sample_tx (lit "GET") (lit "a") (lit "/?first") true) :: Add (sample_tx (lit "GET") (lit "b") (lit "/") false)
  :: repeat (Add (sample_tx (lit "GET") (lit "c") (lit "/x?q=1") true)) 99 ++ [Add (sample_tx (lit "GET") (lit "a") (lit "/") false)].

Lemma window_refines_log_witness : exists t, run sample_ops newTables = Some t /\ m_firstId (t_model t) = 3 /\ lastId (t_model t) = zlen (captured sample_ops).
Proof.
  destruct (run sample_ops newTables) as [t|] eqn:E; [|vm_compute in E; discriminate E]. exists t. split; [reflexivity|]. split.
  - vm_compute in E. injection E as <-. reflexivity.
  - destruct (window_refines_log sample_ops t E) as [H _]. exact H.
Defined.

Lemma site_map_counts_witness : exists t, run sample_ops newTables = Some t /\
  sm_entries (t_sites t) = [mkSite (lit "a") 2 true; mkSite (lit "b") 1 false; mkSite (lit "c") 99 true].
Proof.
  destruct (run sample_ops newTables) as [t|] eqn:E; [|vm_compute in E; discriminate E]. exists t. split; [reflexivity|].
  rewrite (site_map_counts sample_ops t E). vm_compute. reflexivity.
Defined.

Lemma probe_all_ids_witness : exists t, run [Add (sample_tx (lit "GET") (lit "a") (lit "/?q=1") true)] newTables = Some t /\
  exists r, requestById (t_model t) 1 = Some r /\ probe_wanted r = true.
Proof.
  destruct (run [Add (sample_tx (lit "GET") (lit "a") (lit "/?q=1") true)] newTables) as [t|] eqn:E; [|vm_compute in E; discriminate E]. exists t. split; [reflexivity|].
  apply (probe_all_ids _ t 50 E); vm_compute in E; injection E as <-; [reflexivity|vm_compute; by left].
Defined.

(** Defect: the rows are numbered by their place in the window.  With rows gone, the
    identifiers are those of other requests, or of none. *)
Example probe_wrong_rows : exists t, run sample_ops newTables = Some t /\
  probe_all (t_model t) 99 = rev (map Z.of_nat (seq 1 99)) /\ m_firstId (t_model t) = 3 /\
  requestById (t_model t) 1 = None /\ requestById (t_model t) 101 <> None.
Proof.
  destruct (run sample_ops newTables) as [t|] eqn:E; [|vm_compute in E; discriminate E]. exists t. vm_compute in E. injection E as <-.
  split_and!; [reflexivity..|discriminate].
Qed.

(** Defect: rows that leave the window stay counted, so the map is not what a rebuild
    from the same table gives. *)
Example site_map_keeps_evicted : (fun t => (map s_count (sm_entries (t_sites t)), map s_count (sm_entries (rebuild (t_model t) emptySites)))) <$> run sample_ops newTables
  = Some ([2; 1; 99], [99; 1]).
Proof. vm_compute. reflexivity. Qed.

(** Defect: the summary's markers are filled one after the other, so an escaped octet
    of the path is taken for one of them. *)
Example summary_path_corrupted :
  (fun m => summaryAt m 0) <$> addResponse (sample_tx (lit "GET") (lit "h") (lit "/a%2Fb") true) newModel
  = Some (lit "#1  GET  https://h:443/a200Fb  " ++ [8594] ++ lit "  OK %8").
Proof. vm_compute. reflexivity. Qed.
