(* ===== verification/ProjectMeta.v ===== *)
(** * The project's metadata: Src/Core/Storage/project_store.cpp and project_logic.cpp

    What project.json holds ([ProjectMeta]), how it is written ([metaToJson]) and read
    back ([metaFromJson], with the quarantine of suspicious rules), the edits of scope,
    rules and triage with the signals they emit, and the names a project may have.  The
    text of dates is Qt's ([QtDates]); writing is [QSaveFile]'s, which leaves the old
    file in place unless everything was written. *)

From S2P Require Import Prelude Qt QtSample QMap Json JsonSample CertLogic Transcode.

Local Open Scope Z_scope.

(** A date and time in milliseconds, [None] when not valid: [toUTC().toString] and
    [fromString] with [Qt::ISODateWithMs]. *)
Class QtDates := { iso_text : option Z -> qstr; iso_parse : qstr -> option Z }.
(** Through the year 9999. *)
Definition date_ok (t : option Z) : Prop := match t with Some ms => 0 <= ms < 253402300800000 | None => True end.
Class QtDatesLaws (D : QtDates) : Prop := {
  law_iso t : date_ok t -> iso_parse (iso_text t) = t;
  law_iso_plain t : date_ok t -> plain_str (iso_text t) = true
}.

(** [MatchReplaceRule]; the section is the number the enumerator was cast from. *)
Record Rule := mkRule {
  r_enabled : bool; r_name : qstr; r_hostGlob : qstr; r_section : Z; r_find : qstr; r_replace : qstr;
  r_caseInsensitive : bool; r_literal : bool; r_comment : qstr
}.

Record ProjectMeta := mkMeta {
  p_name : qstr; p_historyEpoch : qstr; p_historyAnnotations : list (qstr * json);
  p_inScope : list qstr; p_outOfScope : list qstr; p_notes : qstr; p_created : option Z; p_updated : option Z;
  p_rules : list Rule; p_repeaterState : list (qstr * json); p_interceptRules : list json;
  p_interceptAutoContentLength : bool; p_interceptAutoFixNewlines : bool; p_logOutOfScope : bool;
  p_sessionMacros : list json; p_advancedScope : list json; p_acceptInvalidUpstreamHosts : list json;
  p_sessionRulesJson : list json; p_cookieJar : list json;
  p_suppressedKinds : list qstr; p_falsePositiveKeys : list qstr; p_severityOverrides : list json; p_deletedKeys : list qstr
}.
Definition defaultMeta : ProjectMeta :=
  mkMeta [] [] [] [] [] [] None None [] [] [] true true false [] [] [] [] [] [] [] [] [].

(** Assignments to one field. *)
Definition set_historyEpoch (x : qstr) (m : ProjectMeta) : ProjectMeta :=
  mkMeta (p_name m) x (p_historyAnnotations m) (p_inScope m) (p_outOfScope m) (p_notes m) (p_created m) (p_updated m) (p_rules m) (p_repeaterState m)
    (p_interceptRules m) (p_interceptAutoContentLength m) (p_interceptAutoFixNewlines m) (p_logOutOfScope m) (p_sessionMacros m) (p_advancedScope m)
    (p_acceptInvalidUpstreamHosts m) (p_sessionRulesJson m) (p_cookieJar m) (p_suppressedKinds m) (p_falsePositiveKeys m) (p_severityOverrides m)
    (p_deletedKeys m).
Definition set_historyAnnotations (x : list (qstr * json)) (m : ProjectMeta) : ProjectMeta :=
  mkMeta (p_name m) (p_historyEpoch m) x (p_inScope m) (p_outOfScope m) (p_notes m) (p_created m) (p_updated m) (p_rules m) (p_repeaterState m)
    (p_interceptRules m) (p_interceptAutoContentLength m) (p_interceptAutoFixNewlines m) (p_logOutOfScope m) (p_sessionMacros m) (p_advancedScope m)
    (p_acceptInvalidUpstreamHosts m) (p_sessionRulesJson m) (p_cookieJar m) (p_suppressedKinds m) (p_falsePositiveKeys m) (p_severityOverrides m)
    (p_deletedKeys m).
Definition set_inScope (x : list qstr) (m : ProjectMeta) : ProjectMeta :=
  mkMeta (p_name m) (p_historyEpoch m) (p_historyAnnotations m) x (p_outOfScope m) (p_notes m) (p_created m) (p_updated m) (p_rules m)
    (p_repeaterState m) (p_interceptRules m) (p_interceptAutoContentLength m) (p_interceptAutoFixNewlines m) (p_logOutOfScope m) (p_sessionMacros m)
    (p_advancedScope m) (p_acceptInvalidUpstreamHosts m) (p_sessionRulesJson m) (p_cookieJar m) (p_suppressedKinds m) (p_falsePositiveKeys m)
    (p_severityOverrides m) (p_deletedKeys m).
Definition set_outOfScope (x : list qstr) (m : ProjectMeta) : ProjectMeta :=
  mkMeta (p_name m) (p_historyEpoch m) (p_historyAnnotations m) (p_inScope m) x (p_notes m) (p_created m) (p_updated m) (p_rules m) (p_repeaterState
    m) (p_interceptRules m) (p_interceptAutoContentLength m) (p_interceptAutoFixNewlines m) (p_logOutOfScope m) (p_sessionMacros m) (p_advancedScope
    m) (p_acceptInvalidUpstreamHosts m) (p_sessionRulesJson m) (p_cookieJar m) (p_suppressedKinds m) (p_falsePositiveKeys m) (p_severityOverrides m)
    (p_deletedKeys m).
Definition set_notes (x : qstr) (m : ProjectMeta) : ProjectMeta :=
  mkMeta (p_name m) (p_historyEpoch m) (p_historyAnnotations m) (p_inScope m) (p_outOfScope m) x (p_created m) (p_updated m) (p_rules m)
    (p_repeaterState m) (p_interceptRules m) (p_interceptAutoContentLength m) (p_interceptAutoFixNewlines m) (p_logOutOfScope m) (p_sessionMacros m)
    (p_advancedScope m) (p_acceptInvalidUpstreamHosts m) (p_sessionRulesJson m) (p_cookieJar m) (p_suppressedKinds m) (p_falsePositiveKeys m)
    (p_severityOverrides m) (p_deletedKeys m).
Definition set_updated (x : option Z) (m : ProjectMeta) : ProjectMeta :=
  mkMeta (p_name m) (p_historyEpoch m) (p_historyAnnotations m) (p_inScope m) (p_outOfScope m) (p_notes m) (p_created m) x (p_rules m)
    (p_repeaterState m) (p_interceptRules m) (p_interceptAutoContentLength m) (p_interceptAutoFixNewlines m) (p_logOutOfScope m) (p_sessionMacros m)
    (p_advancedScope m) (p_acceptInvalidUpstreamHosts m) (p_sessionRulesJson m) (p_cookieJar m) (p_suppressedKinds m) (p_falsePositiveKeys m)
    (p_severityOverrides m) (p_deletedKeys m).
Definition set_rules (x : list Rule) (m : ProjectMeta) : ProjectMeta :=
  mkMeta (p_name m) (p_historyEpoch m) (p_historyAnnotations m) (p_inScope m) (p_outOfScope m) (p_notes m) (p_created m) (p_updated m) x
    (p_repeaterState m) (p_interceptRules m) (p_interceptAutoContentLength m) (p_interceptAutoFixNewlines m) (p_logOutOfScope m) (p_sessionMacros m)
    (p_advancedScope m) (p_acceptInvalidUpstreamHosts m) (p_sessionRulesJson m) (p_cookieJar m) (p_suppressedKinds m) (p_falsePositiveKeys m)
    (p_severityOverrides m) (p_deletedKeys m).
Definition set_repeaterState (x : list (qstr * json)) (m : ProjectMeta) : ProjectMeta :=
  mkMeta (p_name m) (p_historyEpoch m) (p_historyAnnotations m) (p_inScope m) (p_outOfScope m) (p_notes m) (p_created m) (p_updated m) (p_rules m) x
    (p_interceptRules m) (p_interceptAutoContentLength m) (p_interceptAutoFixNewlines m) (p_logOutOfScope m) (p_sessionMacros m) (p_advancedScope m)
    (p_acceptInvalidUpstreamHosts m) (p_sessionRulesJson m) (p_cookieJar m) (p_suppressedKinds m) (p_falsePositiveKeys m) (p_severityOverrides m)
    (p_deletedKeys m).
Definition set_interceptRules (x : list json) (m : ProjectMeta) : ProjectMeta :=
  mkMeta (p_name m) (p_historyEpoch m) (p_historyAnnotations m) (p_inScope m) (p_outOfScope m) (p_notes m) (p_created m) (p_updated m) (p_rules m)
    (p_repeaterState m) x (p_interceptAutoContentLength m) (p_interceptAutoFixNewlines m) (p_logOutOfScope m) (p_sessionMacros m) (p_advancedScope m)
    (p_acceptInvalidUpstreamHosts m) (p_sessionRulesJson m) (p_cookieJar m) (p_suppressedKinds m) (p_falsePositiveKeys m) (p_severityOverrides m)
    (p_deletedKeys m).
Definition set_interceptAutoContentLength (x : bool) (m : ProjectMeta) : ProjectMeta :=
  mkMeta (p_name m) (p_historyEpoch m) (p_historyAnnotations m) (p_inScope m) (p_outOfScope m) (p_notes m) (p_created m) (p_updated m) (p_rules m)
    (p_repeaterState m) (p_interceptRules m) x (p_interceptAutoFixNewlines m) (p_logOutOfScope m) (p_sessionMacros m) (p_advancedScope m)
    (p_acceptInvalidUpstreamHosts m) (p_sessionRulesJson m) (p_cookieJar m) (p_suppressedKinds m) (p_falsePositiveKeys m) (p_severityOverrides m)
    (p_deletedKeys m).
Definition set_interceptAutoFixNewlines (x : bool) (m : ProjectMeta) : ProjectMeta :=
  mkMeta (p_name m) (p_historyEpoch m) (p_historyAnnotations m) (p_inScope m) (p_outOfScope m) (p_notes m) (p_created m) (p_updated m) (p_rules m)
    (p_repeaterState m) (p_interceptRules m) (p_interceptAutoContentLength m) x (p_logOutOfScope m) (p_sessionMacros m) (p_advancedScope m)
    (p_acceptInvalidUpstreamHosts m) (p_sessionRulesJson m) (p_cookieJar m) (p_suppressedKinds m) (p_falsePositiveKeys m) (p_severityOverrides m)
    (p_deletedKeys m).
Definition set_logOutOfScope (x : bool) (m : ProjectMeta) : ProjectMeta :=
  mkMeta (p_name m) (p_historyEpoch m) (p_historyAnnotations m) (p_inScope m) (p_outOfScope m) (p_notes m) (p_created m) (p_updated m) (p_rules m)
    (p_repeaterState m) (p_interceptRules m) (p_interceptAutoContentLength m) (p_interceptAutoFixNewlines m) x (p_sessionMacros m) (p_advancedScope m)
    (p_acceptInvalidUpstreamHosts m) (p_sessionRulesJson m) (p_cookieJar m) (p_suppressedKinds m) (p_falsePositiveKeys m) (p_severityOverrides m)
    (p_deletedKeys m).
Definition set_sessionMacros (x : list json) (m : ProjectMeta) : ProjectMeta :=
  mkMeta (p_name m) (p_historyEpoch m) (p_historyAnnotations m) (p_inScope m) (p_outOfScope m) (p_notes m) (p_created m) (p_updated m) (p_rules m)
    (p_repeaterState m) (p_interceptRules m) (p_interceptAutoContentLength m) (p_interceptAutoFixNewlines m) (p_logOutOfScope m) x (p_advancedScope m)
    (p_acceptInvalidUpstreamHosts m) (p_sessionRulesJson m) (p_cookieJar m) (p_suppressedKinds m) (p_falsePositiveKeys m) (p_severityOverrides m)
    (p_deletedKeys m).
Definition set_advancedScope (x : list json) (m : ProjectMeta) : ProjectMeta :=
  mkMeta (p_name m) (p_historyEpoch m) (p_historyAnnotations m) (p_inScope m) (p_outOfScope m) (p_notes m) (p_created m) (p_updated m) (p_rules m)
    (p_repeaterState m) (p_interceptRules m) (p_interceptAutoContentLength m) (p_interceptAutoFixNewlines m) (p_logOutOfScope m) (p_sessionMacros m) x
    (p_acceptInvalidUpstreamHosts m) (p_sessionRulesJson m) (p_cookieJar m) (p_suppressedKinds m) (p_falsePositiveKeys m) (p_severityOverrides m)
    (p_deletedKeys m).
Definition set_acceptInvalidUpstreamHosts (x : list json) (m : ProjectMeta) : ProjectMeta :=
  mkMeta (p_name m) (p_historyEpoch m) (p_historyAnnotations m) (p_inScope m) (p_outOfScope m) (p_notes m) (p_created m) (p_updated m) (p_rules m)
    (p_repeaterState m) (p_interceptRules m) (p_interceptAutoContentLength m) (p_interceptAutoFixNewlines m) (p_logOutOfScope m) (p_sessionMacros m)
    (p_advancedScope m) x (p_sessionRulesJson m) (p_cookieJar m) (p_suppressedKinds m) (p_falsePositiveKeys m) (p_severityOverrides m) (p_deletedKeys
    m).
Definition set_sessionRulesJson (x : list json) (m : ProjectMeta) : ProjectMeta :=
  mkMeta (p_name m) (p_historyEpoch m) (p_historyAnnotations m) (p_inScope m) (p_outOfScope m) (p_notes m) (p_created m) (p_updated m) (p_rules m)
    (p_repeaterState m) (p_interceptRules m) (p_interceptAutoContentLength m) (p_interceptAutoFixNewlines m) (p_logOutOfScope m) (p_sessionMacros m)
    (p_advancedScope m) (p_acceptInvalidUpstreamHosts m) x (p_cookieJar m) (p_suppressedKinds m) (p_falsePositiveKeys m) (p_severityOverrides m)
    (p_deletedKeys m).
Definition set_cookieJar (x : list json) (m : ProjectMeta) : ProjectMeta :=
  mkMeta (p_name m) (p_historyEpoch m) (p_historyAnnotations m) (p_inScope m) (p_outOfScope m) (p_notes m) (p_created m) (p_updated m) (p_rules m)
    (p_repeaterState m) (p_interceptRules m) (p_interceptAutoContentLength m) (p_interceptAutoFixNewlines m) (p_logOutOfScope m) (p_sessionMacros m)
    (p_advancedScope m) (p_acceptInvalidUpstreamHosts m) (p_sessionRulesJson m) x (p_suppressedKinds m) (p_falsePositiveKeys m) (p_severityOverrides
    m) (p_deletedKeys m).
Definition set_suppressedKinds (x : list qstr) (m : ProjectMeta) : ProjectMeta :=
  mkMeta (p_name m) (p_historyEpoch m) (p_historyAnnotations m) (p_inScope m) (p_outOfScope m) (p_notes m) (p_created m) (p_updated m) (p_rules m)
    (p_repeaterState m) (p_interceptRules m) (p_interceptAutoContentLength m) (p_interceptAutoFixNewlines m) (p_logOutOfScope m) (p_sessionMacros m)
    (p_advancedScope m) (p_acceptInvalidUpstreamHosts m) (p_sessionRulesJson m) (p_cookieJar m) x (p_falsePositiveKeys m) (p_severityOverrides m)
    (p_deletedKeys m).
Definition set_falsePositiveKeys (x : list qstr) (m : ProjectMeta) : ProjectMeta :=
  mkMeta (p_name m) (p_historyEpoch m) (p_historyAnnotations m) (p_inScope m) (p_outOfScope m) (p_notes m) (p_created m) (p_updated m) (p_rules m)
    (p_repeaterState m) (p_interceptRules m) (p_interceptAutoContentLength m) (p_interceptAutoFixNewlines m) (p_logOutOfScope m) (p_sessionMacros m)
    (p_advancedScope m) (p_acceptInvalidUpstreamHosts m) (p_sessionRulesJson m) (p_cookieJar m) (p_suppressedKinds m) x (p_severityOverrides m)
    (p_deletedKeys m).
Definition set_severityOverrides (x : list json) (m : ProjectMeta) : ProjectMeta :=
  mkMeta (p_name m) (p_historyEpoch m) (p_historyAnnotations m) (p_inScope m) (p_outOfScope m) (p_notes m) (p_created m) (p_updated m) (p_rules m)
    (p_repeaterState m) (p_interceptRules m) (p_interceptAutoContentLength m) (p_interceptAutoFixNewlines m) (p_logOutOfScope m) (p_sessionMacros m)
    (p_advancedScope m) (p_acceptInvalidUpstreamHosts m) (p_sessionRulesJson m) (p_cookieJar m) (p_suppressedKinds m) (p_falsePositiveKeys m) x
    (p_deletedKeys m).
Definition set_deletedKeys (x : list qstr) (m : ProjectMeta) : ProjectMeta :=
  mkMeta (p_name m) (p_historyEpoch m) (p_historyAnnotations m) (p_inScope m) (p_outOfScope m) (p_notes m) (p_created m) (p_updated m) (p_rules m)
    (p_repeaterState m) (p_interceptRules m) (p_interceptAutoContentLength m) (p_interceptAutoFixNewlines m) (p_logOutOfScope m) (p_sessionMacros m)
    (p_advancedScope m) (p_acceptInvalidUpstreamHosts m) (p_sessionRulesJson m) (p_cookieJar m) (p_suppressedKinds m) (p_falsePositiveKeys m)
    (p_severityOverrides m) x.

Section ProjectMeta.
Context {Q : QtText} {J : QtJson} {C : QtCodecs} {D : QtDates} {U : QtChar}.

(** ** Annotations of history rows *)

Definition kMaxAnnotationsBytes : Z := 1024 * 1024.
Definition annotation_colors : list qstr :=
  map lit [""; "red"; "orange"; "yellow"; "green"; "cyan"; "blue"; "purple"; "pink"; "gray"]%string.
Fixpoint annotation_fields (entries : list (qstr * json)) : qstr :=
  match entries with
  | [] => []
  | (k, v) :: rest =>
      if negb (seq_eqb k (lit "color")) && negb (seq_eqb k (lit "comment")) then lit "Unknown annotation field"
      else match v with JString _ => annotation_fields rest | _ => lit "Annotation fields must be strings" end
  end.
(** The empty text when there is none. *)
Definition annotationError (note : list (qstr * json)) : qstr :=
  let e := annotation_fields note in
  if negb (is_nil e) then e
  else if negb (bool_decide (toString (value note (lit "color")) ∈ annotation_colors)) then lit "Unknown highlight color"
  else if 4096 <? zlen (toString (value note (lit "comment"))) then lit "Comments are limited to 4096 characters"
  else [].

(** The check of one stored entry: a row's number and a note or null.  [number] is the
    text [QString::number] gives a positive number. *)
Definition annotation_entry_ok (e : qstr * json) : bool :=
  match u_toint 10 (fst e) with
  | None => false
  | Some id => negb (id <=? 0) && seq_eqb (number 10 id) (fst e)
  end
  && match snd e with
     | JNull => true
     | JObject note => is_nil (annotationError note)
     | _ => false
     end.
Definition annotations_ok (notes : list (qstr * json)) : bool :=
  (zlen (json_compact (JObject notes)) <=? kMaxAnnotationsBytes) && forallb annotation_entry_ok notes.

(** ** Quarantine *)

Definition kCredentialMarkers : list qstr :=
  map lit ["cookie"; "set-cookie"; "authorization"; "proxy-authorization"; "bearer"; "x-api-key"; "x-auth-token"; "x-csrf-token";
    "x-xsrf-token"; "x-session-id"; "x-amz-security-token"]%string.
Definition isWildcardHost (g : qstr) : bool :=
  let t := u_trimmed g in is_nil t || seq_eqb t (lit "*") || seq_eqb t (lit ".*") || seq_eqb t (lit "**").
Definition looksCredential (s : qstr) : bool := existsb (fun m => contains_sub m (u_lower s)) kCredentialMarkers.
Definition suspicious (r : Rule) : bool :=
  r_enabled r && isWildcardHost (r_hostGlob r) && (looksCredential (r_find r) || looksCredential (r_replace r)).
Definition quarantine_tag : qstr :=
  lit " [QUARANTINED on load: catch-all host + credential-header touch. Review and re-enable if intentional.]".
Definition quarantine (r : Rule) : Rule :=
  if suspicious r then
    mkRule false (r_name r) (r_hostGlob r) (r_section r) (r_find r) (r_replace r) (r_caseInsensitive r) (r_literal r)
      (if contains_sub (lit "QUARANTINED") (r_comment r) then r_comment r else r_comment r ++ quarantine_tag)
  else r.

Definition ruleToJson (r : Rule) : json :=
  JObject (object [(lit "enabled", JBool (r_enabled r)); (lit "name", JString (r_name r)); (lit "hostGlob", JString (r_hostGlob r));
    (lit "section", JInt (r_section r)); (lit "find", JString (r_find r)); (lit "replace", JString (r_replace r));
    (lit "caseInsensitive", JBool (r_caseInsensitive r)); (lit "literal", JBool (r_literal r)); (lit "comment", JString (r_comment r))]).
Definition ruleFromJson (v : json) : Rule :=
  let r := toObject v in
  quarantine (mkRule (toBool true (value r (lit "enabled"))) (toString (value r (lit "name"))) (toString (value r (lit "hostGlob")))
    (toInt 1 (value r (lit "section"))) (toString (value r (lit "find"))) (toString (value r (lit "replace")))
    (toBool true (value r (lit "caseInsensitive"))) (toBool false (value r (lit "literal"))) (toString (value r (lit "comment")))).

(** ** project.json *)

Definition texts (l : list qstr) : json := JArray (map JString l).
Definition texts_of (v : json) : list qstr := map toString (toArray v).

(** [saveMetadata] up to the file: the document, with the time of writing. *)
Definition metaToJson (now : option Z) (m : ProjectMeta) : list (qstr * json) :=
  object [
    (lit "v", JInt 1); (lit "name", JString (p_name m)); (lit "historyEpoch", JString (p_historyEpoch m));
    (lit "historyAnnotations", JObject (p_historyAnnotations m)); (lit "notes", JString (p_notes m));
    (lit "created", JString (iso_text (p_created m))); (lit "updated", JString (iso_text now));
    (lit "inScope", texts (p_inScope m)); (lit "outOfScope", texts (p_outOfScope m)); (lit "rules", JArray (map ruleToJson (p_rules m)));
    (lit "repeater", JObject (p_repeaterState m)); (lit "interceptRules", JArray (p_interceptRules m));
    (lit "interceptAutoContentLength", JBool (p_interceptAutoContentLength m)); (lit "interceptAutoFixNewlines", JBool (p_interceptAutoFixNewlines m));
    (lit "logOutOfScope", JBool (p_logOutOfScope m)); (lit "sessionMacros", JArray (p_sessionMacros m));
    (lit "advancedScope", JArray (p_advancedScope m)); (lit "acceptInvalidUpstreamHosts", JArray (p_acceptInvalidUpstreamHosts m));
    (lit "sessionRules", JArray (p_sessionRulesJson m)); (lit "cookieJar", JArray (p_cookieJar m));
    (lit "suppressedKinds", texts (p_suppressedKinds m)); (lit "falsePositiveKeys", texts (p_falsePositiveKeys m));
    (lit "severityOverrides", JArray (p_severityOverrides m)); (lit "deletedKeys", texts (p_deletedKeys m))].

Definition metaFromJson (o : list (qstr * json)) : option ProjectMeta :=
  let notes := toObject (value o (lit "historyAnnotations")) in
  if annotations_ok notes then
    Some (mkMeta (toString (value o (lit "name"))) (toString (value o (lit "historyEpoch"))) notes
      (texts_of (value o (lit "inScope"))) (texts_of (value o (lit "outOfScope"))) (toString (value o (lit "notes")))
      (iso_parse (toString (value o (lit "created")))) (iso_parse (toString (value o (lit "updated"))))
      (map ruleFromJson (toArray (value o (lit "rules")))) (toObject (value o (lit "repeater"))) (toArray (value o (lit "interceptRules")))
      (toBool true (value o (lit "interceptAutoContentLength"))) (toBool true (value o (lit "interceptAutoFixNewlines")))
      (toBool false (value o (lit "logOutOfScope"))) (toArray (value o (lit "sessionMacros"))) (toArray (value o (lit "advancedScope")))
      (toArray (value o (lit "acceptInvalidUpstreamHosts"))) (toArray (value o (lit "sessionRules"))) (toArray (value o (lit "cookieJar")))
      (texts_of (value o (lit "suppressedKinds"))) (texts_of (value o (lit "falsePositiveKeys")))
      (toArray (value o (lit "severityOverrides"))) (texts_of (value o (lit "deletedKeys"))))
  else None.

(** The file as it is after [saveMetadata]: the new text, or the old one when the file
    cannot be written ([writable] is false). *)
Definition saveMetadata (writable : bool) (now : option Z) (file : option bytes) (m : ProjectMeta) : option bytes * ProjectMeta * bool :=
  let m' := set_updated now m in
  if writable then (Some (json_indented (JObject (metaToJson now m))), m', true) else (file, m', false).

(** What a refused document leaves: its fields up to the annotations, and the project
    before's behind them. *)
Definition metaPartial (old : ProjectMeta) (o : list (qstr * json)) : ProjectMeta :=
  mkMeta (toString (value o (lit "name"))) (toString (value o (lit "historyEpoch"))) (toObject (value o (lit "historyAnnotations")))
    (texts_of (value o (lit "inScope"))) (texts_of (value o (lit "outOfScope"))) (toString (value o (lit "notes")))
    (iso_parse (toString (value o (lit "created")))) (iso_parse (toString (value o (lit "updated"))))
    (map ruleFromJson (toArray (value o (lit "rules")))) (toObject (value o (lit "repeater"))) (p_interceptRules old)
    (p_interceptAutoContentLength old) (p_interceptAutoFixNewlines old) (p_logOutOfScope old) (p_sessionMacros old) (p_advancedScope old)
    (p_acceptInvalidUpstreamHosts old) (p_sessionRulesJson old) (p_cookieJar old) (p_suppressedKinds old) (p_falsePositiveKeys old)
    (p_severityOverrides old) (p_deletedKeys old).

(** [ensureMetadata] for the directory called [dirName], over the metadata before. *)
Definition ensureMetadata (writable : bool) (now : option Z) (dirName : qstr) (file : option bytes) (old : ProjectMeta) : option bytes * ProjectMeta * bool :=
  match file with
  | Some text =>
      match json_parse text with
      | Some (JObject o) => match metaFromJson o with Some m => (file, m, true) | None => (file, metaPartial old o, false) end
      | _ => (file, old, false)
      end
  | None =>
      saveMetadata writable now None
        (mkMeta dirName [] [] [] [] [] now now [] [] [] true true false [] [] [] [] [] [] [] [] [])
  end.

(** ** Edits

    Each saves the metadata and emits its signal; the flag of the functions that return
    one says whether the index or the edit was accepted. *)

Inductive Signal := Saved | ScopeChanged | RulesChanged | TriageChanged | AdvancedScopeChanged | AcceptInvalidHostsChanged.
Definition Edit : Type := ProjectMeta * list Signal.
Definition unchanged (m : ProjectMeta) : Edit := (m, []).

(** [QStringList::removeOne]: the first occurrence. *)
Fixpoint remove_one (s : qstr) (l : list qstr) : option (list qstr) :=
  match l with
  | [] => None
  | x :: l' => if seq_eqb x s then Some l' else (fun r => x :: r) <$> remove_one s l'
  end.

Definition setInScope (globs : list qstr) (m : ProjectMeta) : Edit := (set_inScope globs m, [Saved; ScopeChanged]).
Definition setOutOfScope (globs : list qstr) (m : ProjectMeta) : Edit := (set_outOfScope globs m, [Saved; ScopeChanged]).
Definition setNotes (notes : qstr) (m : ProjectMeta) : Edit := (set_notes notes m, [Saved]).
Definition addInScope (glob : qstr) (m : ProjectMeta) : Edit :=
  if is_nil glob || bool_decide (glob ∈ p_inScope m) then unchanged m else (set_inScope (p_inScope m ++ [glob]) m, [Saved; ScopeChanged]).
Definition addOutOfScope (glob : qstr) (m : ProjectMeta) : Edit :=
  if is_nil glob || bool_decide (glob ∈ p_outOfScope m) then unchanged m else (set_outOfScope (p_outOfScope m ++ [glob]) m, [Saved; ScopeChanged]).
Definition removeInScope (glob : qstr) (m : ProjectMeta) : Edit :=
  match remove_one glob (p_inScope m) with Some l => (set_inScope l m, [Saved; ScopeChanged]) | None => unchanged m end.
Definition removeOutOfScope (glob : qstr) (m : ProjectMeta) : Edit :=
  match remove_one glob (p_outOfScope m) with Some l => (set_outOfScope l m, [Saved; ScopeChanged]) | None => unchanged m end.

Definition setRules (rules : list Rule) (m : ProjectMeta) : Edit := (set_rules rules m, [Saved; RulesChanged]).
Definition addRule (r : Rule) (m : ProjectMeta) : Edit * Z := ((set_rules (p_rules m ++ [r]) m, [Saved; RulesChanged]), zlen (p_rules m)).
Definition rule_index (i : Z) (m : ProjectMeta) : bool := negb ((i <? 0) || (zlen (p_rules m) <=? i)).
Definition updateRule (i : Z) (r : Rule) (m : ProjectMeta) : Edit * bool :=
  if rule_index i m then ((set_rules (<[Z.to_nat i := r]> (p_rules m)) m, [Saved; RulesChanged]), true) else (unchanged m, false).
Definition removeRule (i : Z) (m : ProjectMeta) : Edit * bool :=
  if rule_index i m then ((set_rules (delete (Z.to_nat i) (p_rules m)) m, [Saved; RulesChanged]), true) else (unchanged m, false).
Definition toggle (r : Rule) : Rule :=
  mkRule (negb (r_enabled r)) (r_name r) (r_hostGlob r) (r_section r) (r_find r) (r_replace r) (r_caseInsensitive r) (r_literal r) (r_comment r).
Definition toggleRule (i : Z) (m : ProjectMeta) : Edit * bool :=
  if rule_index i m then ((set_rules (alter toggle (Z.to_nat i) (p_rules m)) m, [Saved; RulesChanged]), true) else (unchanged m, false).
(** [QList::move]: taken out and put in at the target. *)
Definition move {A} (from to : nat) (l : list A) : list A :=
  match l !! from with
  | Some x => let l' := delete from l in take to l' ++ x :: drop to l'
  | None => l
  end.
Definition moveRule (from to : Z) (m : ProjectMeta) : Edit * bool :=
  if negb (rule_index from m) || negb (rule_index to m) then (unchanged m, false)
  else if from =? to then (unchanged m, true)
  else ((set_rules (move (Z.to_nat from) (Z.to_nat to) (p_rules m)) m, [Saved; RulesChanged]), true).

(** Membership of a text set to a flag; [None] when it has it already. *)
Definition set_member (s : qstr) (on : bool) (l : list qstr) : option (list qstr) :=
  let present := bool_decide (s ∈ l) in
  if on && negb present then Some (l ++ [s])
  else if negb on && present then Some (List.filter (fun x => negb (seq_eqb x s)) l)
  else None.
Definition setKindSuppressed (kind : qstr) (suppressed : bool) (m : ProjectMeta) : Edit :=
  if is_nil kind then unchanged m
  else match set_member kind suppressed (p_suppressedKinds m) with Some l => (set_suppressedKinds l m, [Saved; TriageChanged]) | None => unchanged m end.
Definition setFindingFalsePositive (key : qstr) (falsePositive : bool) (m : ProjectMeta) : Edit :=
  if is_nil key then unchanged m
  else match set_member key falsePositive (p_falsePositiveKeys m) with Some l => (set_falsePositiveKeys l m, [Saved; TriageChanged]) | None => unchanged m end.
Definition setFindingDeleted (key : qstr) (deleted : bool) (m : ProjectMeta) : Edit :=
  if is_nil key then unchanged m
  else match set_member key deleted (p_deletedKeys m) with Some l => (set_deletedKeys l m, [Saved; TriageChanged]) | None => unchanged m end.

Definition override_key (v : json) : qstr := toString (value (toObject v) (lit "key")).
Definition setFindingSeverity (key severity : qstr) (m : ProjectMeta) : Edit :=
  if is_nil key then unchanged m
  else
    let next := List.filter (fun v => negb (seq_eqb (override_key v) key)) (p_severityOverrides m) in
    let removed := existsb (fun v => seq_eqb (override_key v) key) (p_severityOverrides m) in
    let next := if is_nil severity then next else next ++ [JObject (object [(lit "key", JString key); (lit "severity", JString severity)])] in
    if removed || negb (is_nil severity) then (set_severityOverrides next m, [Saved; TriageChanged]) else unchanged m.

Definition setInterceptRules (rules : list json) (m : ProjectMeta) : Edit := (set_interceptRules rules m, [Saved]).
Definition setInterceptAutoContentLength (on : bool) (m : ProjectMeta) : Edit :=
  if Bool.eqb (p_interceptAutoContentLength m) on then unchanged m else (set_interceptAutoContentLength on m, [Saved]).
Definition setInterceptAutoFixNewlines (on : bool) (m : ProjectMeta) : Edit :=
  if Bool.eqb (p_interceptAutoFixNewlines m) on then unchanged m else (set_interceptAutoFixNewlines on m, [Saved]).
Definition setLogOutOfScope (on : bool) (m : ProjectMeta) : Edit :=
  if Bool.eqb (p_logOutOfScope m) on then unchanged m else (set_logOutOfScope on m, [Saved]).
Definition setSessionMacros (x : list json) (m : ProjectMeta) : Edit := (set_sessionMacros x m, [Saved]).
Definition setAdvancedScope (x : list json) (m : ProjectMeta) : Edit := (set_advancedScope x m, [Saved; AdvancedScopeChanged]).
Definition setAcceptInvalidUpstreamHosts (x : list json) (m : ProjectMeta) : Edit := (set_acceptInvalidUpstreamHosts x m, [Saved; AcceptInvalidHostsChanged]).
Definition setSessionRulesJson (x : list json) (m : ProjectMeta) : Edit := (set_sessionRulesJson x m, [Saved]).
Definition setCookieJar (x : list json) (m : ProjectMeta) : Edit := (set_cookieJar x m, [Saved]).
Definition setRepeaterState (x : list (qstr * json)) (m : ProjectMeta) : Edit := (set_repeaterState x m, [Saved]).
(** Both or, when the file cannot be written, neither. *)
Definition saveSessionWorkspace (writable : bool) (now : option Z) (file : option bytes) (repeater : list (qstr * json)) (cookies : list json) (m : ProjectMeta) : option bytes * ProjectMeta * bool :=
  let '(file', m', saved) := saveMetadata writable now file (set_cookieJar cookies (set_repeaterState repeater m)) in
  if saved then (file', m', true) else (file', set_cookieJar (p_cookieJar m) (set_repeaterState (p_repeaterState m) m'), false).

(** ** Project names (project_logic.cpp) *)

Definition kReserved : list qstr :=
  map lit ["CON"; "NUL"; "PRN"; "AUX"; "CONIN$"; "CONOUT$"; "COM1"; "COM2"; "COM3"; "COM4"; "COM5"; "COM6"; "COM7"; "COM8"; "COM9";
    "LPT1"; "LPT2"; "LPT3"; "LPT4"; "LPT5"; "LPT6"; "LPT7"; "LPT8"; "LPT9"]%string.
(** The loop that chops spaces and dots. *)
Definition rtrim_stem (s : qstr) : qstr := rev (drop_while (fun c => (c =? 32) || (c =? 46)) (rev s)).
Definition fold_superscript (c : Z) : Z := if c =? 185 then 49 else if c =? 178 then 50 else if c =? 179 then 51 else c.
Definition stem_of (name : qstr) : qstr :=
  rtrim_stem (map fold_superscript (u_upper (match split_on 46 name with s :: _ => s | [] => [] end))).
Definition name_char (c : Z) : bool := negb (c <? 32) && (u_alnum c || (c =? 95) || (c =? 45) || (c =? 32) || (c =? 46)).
Definition isValidProjectName (name : qstr) : bool :=
  if is_nil name || (64 <? zlen name) then false
  else if contains_chr 0 name || contains_chr 47 name || contains_chr 92 name || contains_sub (lit "..") name || starts_with_chr 46 name
    || starts_with_chr 32 name || ends_with_chr 46 name || ends_with_chr 32 name then false
  else if bool_decide (stem_of name ∈ kReserved) then false
  else forallb name_char name.

(** ** Quarantine *)

Lemma quarantine_clears r : suspicious (quarantine r) = false.
Proof. unfold quarantine. destruct (suspicious r) eqn:E; [done|exact E]. Qed.

(** A host glob that the quarantine takes for every host, and a text it takes for one about
    credentials. *)
Definition every_host (g : qstr) : Prop := u_trimmed g ∈ [[]; lit "*"; lit ".*"; lit "**"].
Definition about_credentials (s : qstr) : Prop :=
  exists m a b, m ∈ ["cookie"; "set-cookie"; "authorization"; "proxy-authorization"; "bearer"; "x-api-key"; "x-auth-token";
    "x-csrf-token"; "x-xsrf-token"; "x-session-id"; "x-amz-security-token"]%string /\ u_lower s = a ++ lit m ++ b.

Lemma isWildcardHost_spec g : isWildcardHost g = true <-> every_host g.
Proof.
  unfold isWildcardHost, every_host. rewrite !orb_true_iff, !seq_eqb_eq, is_nil_true, !elem_of_cons, elem_of_nil. tauto.
Qed.
Lemma looksCredential_spec s : looksCredential s = true <-> about_credentials s.
Proof.
  unfold looksCredential, about_credentials, kCredentialMarkers. rewrite existsb_exists. split.
  - intros (x & Hin & Hc). apply in_map_iff in Hin as (m & <- & Hm). apply contains_sub_spec in Hc as (a & b & E). exists m, a, b.
    by rewrite list_elem_of_In.
  - intros (m & a & b & Hm & E). exists (lit m). split; [apply in_map, list_elem_of_In, Hm|]. apply contains_sub_spec. by exists a, b.
Qed.
Lemma suspicious_spec r : suspicious r = true <->
  r_enabled r = true /\ every_host (r_hostGlob r) /\ (about_credentials (r_find r) \/ about_credentials (r_replace r)).
Proof. unfold suspicious. rewrite !andb_true_iff, orb_true_iff, isWildcardHost_spec, !looksCredential_spec. tauto. Qed.

Lemma quarantine_marks c : contains_sub (lit "QUARANTINED") (if contains_sub (lit "QUARANTINED") c then c else c ++ quarantine_tag) = true.
Proof.
  destruct (contains_sub (lit "QUARANTINED") c) eqn:E; [done|].
  replace quarantine_tag with (lit " [" ++ lit "QUARANTINED" ++ lit " on load: catch-all host + credential-header touch. Review and re-enable if intentional.]") by reflexivity.
  rewrite app_assoc. apply contains_sub_spec. by do 2 eexists.
Qed.

(** C24. The quarantine of loaded rules is exact.  Every rule of a project file reaches the
    proxy with its name, host, section, patterns and options as the file has them.  If
    the file enables it, its host glob is, without outer blanks, empty or one of the three
    texts *, .* and **, and its pattern or its replacement holds one of the eleven
    markers of credentials in any case, then it arrives disabled, with the mark
    QUARANTINED in its comment, which is the file's with the note behind it unless the
    mark was there; every other rule arrives enabled or not and commented as the file
    has it.  Other globs that match every host are not caught
    ([three_stars_not_quarantined]). *)
Theorem quarantine_on_load writable now dir text old file m :
  ensureMetadata writable now dir (Some text) old = (file, m, true) ->
  exists o, json_parse text = Some (JObject o) /\
    Forall2 (fun v r => let w := toObject v in
      let enabled := toBool true (value w (lit "enabled")) in
      let comment := toString (value w (lit "comment")) in
      r_name r = toString (value w (lit "name")) /\ r_hostGlob r = toString (value w (lit "hostGlob")) /\ r_section r = toInt 1 (value w (lit "section")) /\
      r_find r = toString (value w (lit "find")) /\ r_replace r = toString (value w (lit "replace")) /\
      r_caseInsensitive r = toBool true (value w (lit "caseInsensitive")) /\ r_literal r = toBool false (value w (lit "literal")) /\
      let caught := enabled = true /\ every_host (r_hostGlob r) /\ (about_credentials (r_find r) \/ about_credentials (r_replace r)) in
      (caught -> r_enabled r = false /\ contains_sub (lit "QUARANTINED") (r_comment r) = true /\
         (r_comment r = comment \/ r_comment r = comment ++ lit " [QUARANTINED on load: catch-all host + credential-header touch. Review and re-enable if intentional.]")) /\
      (~ caught -> r_enabled r = enabled /\ r_comment r = comment))
      (toArray (value o (lit "rules"))) (p_rules m).
Proof.
  cbn [ensureMetadata]. destruct (json_parse text) as [[| | | | | | |o]|]; try done. unfold metaFromJson. destruct (annotations_ok _); [|done]. intros [= <- <-].
  cbn [p_rules]. exists o. split; [done|]. generalize (toArray (value o (lit "rules"))). intros l. induction l as [|v l IH]; cbn [map]; constructor; [|exact IH].
  cbv zeta. unfold ruleFromJson. cbv zeta. set (r := mkRule _ _ _ _ _ _ _ _ _). pose proof (suspicious_spec r) as Hs. unfold quarantine.
  destruct (suspicious r); subst r; cbn [r_name r_hostGlob r_section r_find r_replace r_caseInsensitive r_literal r_enabled r_comment] in *; split_and!; try done.
  - intros _. split_and!; [done|apply quarantine_marks|]. destruct (contains_sub _ _); [by left|by right].
  - intros Hn. destruct Hn. by apply Hs.
  - intros Hc. by apply Hs in Hc.
Qed.

(** ** The file's round trip *)

Definition plain_texts (l : list qstr) : Prop := Forall (fun s => plain_str s = true) l.
Definition rule_plain (r : Rule) : Prop :=
  int_ok (r_section r) /\ plain_texts [r_name r; r_hostGlob r; r_find r; r_replace r; r_comment r].
(** What a project holds that can be written: text without surrogates, values of the
    other components within the reader's nesting, notes that were accepted. *)
Record meta_ok (m : ProjectMeta) : Prop := {
  mo_texts : plain_texts ([p_name m; p_historyEpoch m; p_notes m] ++ p_inScope m ++ p_outOfScope m ++ p_suppressedKinds m ++ p_falsePositiveKeys m ++ p_deletedKeys m);
  mo_rules : Forall rule_plain (p_rules m);
  mo_objects : Forall (fun o => json_plain 500 (JObject o) = true) [p_historyAnnotations m; p_repeaterState m];
  mo_arrays : Forall (fun a => json_plain 500 (JArray a) = true) [p_interceptRules m; p_sessionMacros m; p_advancedScope m; p_acceptInvalidUpstreamHosts m;
    p_sessionRulesJson m; p_cookieJar m; p_severityOverrides m];
  mo_notes : annotations_ok (p_historyAnnotations m) = true;
  mo_created : date_ok (p_created m)
}.

Lemma texts_plain l depth : plain_texts l -> json_plain (S (S depth)) (texts l) = true.
Proof. intros H. apply plain_array, Forall_map. eapply Forall_impl; [exact H|]. done. Qed.
Lemma texts_back l : texts_of (texts l) = l.
Proof. unfold texts_of, texts. cbn [toArray]. rewrite map_map. apply map_id. Qed.

Lemma rule_json_plain r depth : rule_plain r -> json_plain (S (S depth)) (ruleToJson r) = true.
Proof.
  intros [Hs Ht]. apply plain_object. unfold plain_texts in Ht. rewrite !Forall_cons in Ht.
  repeat (apply Forall_cons; split; [cbn [fst snd]; split; [reflexivity|]; first [by apply plain_int|apply plain_string; tauto|done]|]). constructor.
Qed.
Lemma rule_back r : int_ok (r_section r) -> ruleFromJson (ruleToJson r) = quarantine r.
Proof.
  intros Hs. transitivity (quarantine (mkRule (r_enabled r) (r_name r) (r_hostGlob r) (toInt 1 (JInt (r_section r))) (r_find r) (r_replace r) (r_caseInsensitive r) (r_literal r) (r_comment r))); [reflexivity|].
  rewrite toInt_ok by done. by destruct r.
Qed.
Lemma rules_back rs : Forall rule_plain rs -> map ruleFromJson (map ruleToJson rs) = map quarantine rs.
Proof. intros H. rewrite map_map. induction H as [|r rs [Hr _] _ IH]; [done|]. cbn [map]. by rewrite rule_back, IH. Qed.

Lemma meta_json_plain {DL : QtDatesLaws D} now m : meta_ok m -> date_ok now -> json_plain 512 (JObject (metaToJson now m)) = true.
Proof.
  intros [Ht Hr Ho Ha _ Hc] Hn. apply plain_object. unfold plain_texts in Ht. rewrite !Forall_app, !Forall_cons in Ht. rewrite !Forall_cons in Ho. rewrite !Forall_cons in Ha.
  destruct Ht as ((H1 & H2 & H3 & _) & H4 & H5 & H6 & H7 & H8). destruct Ho as (O1 & O2 & _). destruct Ha as (A1 & A2 & A3 & A4 & A5 & A6 & A7 & _).
  repeat (apply Forall_cons; split; [cbn [fst snd]; split; [reflexivity|]; lazymatch goal with
    | |- json_plain _ (JString (iso_text _)) = _ => apply plain_string, law_iso_plain; assumption
    | |- json_plain _ (JString _) = _ => apply plain_string; assumption
    | |- json_plain _ (texts _) = _ => apply texts_plain; assumption
    | |- json_plain _ (JArray (map ruleToJson _)) = _ =>
        apply plain_array, Forall_map; eapply Forall_impl; [exact Hr|]; intros r; apply rule_json_plain
    | |- json_plain _ (JArray _) = _ => apply (plain_mono _ 500); [lia|assumption]
    | |- json_plain _ (JObject _) = _ => apply (plain_mono _ 500); [lia|assumption]
    | |- _ => reflexivity
    end|]).
  constructor.
Qed.

(** C34. A project comes back from its file.  What [saveMetadata] writes, [ensureMetadata]
    accepts and reads as the same metadata with the time of writing, except that the
    rules pass the quarantine again. *)
Theorem metadata_roundtrip {JL : QtIndentedLaws J C} {DL : QtDatesLaws D} now m file writable later dir old :
  meta_ok m -> date_ok now ->
  let '(file', m', saved) := saveMetadata true now file m in
  saved = true /\ ensureMetadata writable later dir file' old = (file', set_rules (map quarantine (p_rules m)) m', true) /\ m' = set_updated now m.
Proof.
  intros Hm Hn. cbn [saveMetadata]. split_and!; [done| |done]. cbn [ensureMetadata].
  rewrite law_indented by (done || by apply meta_json_plain). destruct Hm as [Ht Hr Ho Ha Hno Hc]. unfold metaFromJson.
  change (value (metaToJson now m) (lit "historyAnnotations")) with (JObject (p_historyAnnotations m)). cbn [toObject]. rewrite Hno.
  transitivity (Some (json_indented (JObject (metaToJson now m))), mkMeta (p_name m) (p_historyEpoch m) (p_historyAnnotations m)
    (texts_of (texts (p_inScope m))) (texts_of (texts (p_outOfScope m))) (p_notes m) (iso_parse (iso_text (p_created m))) (iso_parse (iso_text now))
    (map ruleFromJson (map ruleToJson (p_rules m))) (p_repeaterState m) (p_interceptRules m) (p_interceptAutoContentLength m) (p_interceptAutoFixNewlines m)
    (p_logOutOfScope m) (p_sessionMacros m) (p_advancedScope m) (p_acceptInvalidUpstreamHosts m) (p_sessionRulesJson m) (p_cookieJar m)
    (texts_of (texts (p_suppressedKinds m))) (texts_of (texts (p_falsePositiveKeys m))) (p_severityOverrides m) (texts_of (texts (p_deletedKeys m))), true); [reflexivity|].
  by rewrite !texts_back, !law_iso, rules_back by done.
Qed.

(** A setting that is missing from the file, or of another type there, is the safe
    one: every certificate is verified, traffic out of scope is not logged, edited
    messages are repaired, and there are no rules, macros or cookies. *)
Theorem missing_settings_fail_closed writable now dir text old file m o :
  ensureMetadata writable now dir (Some text) old = (file, m, true) -> json_parse text = Some (JObject o) ->
  (match value o (lit "acceptInvalidUpstreamHosts") with JArray _ => False | _ => True end -> p_acceptInvalidUpstreamHosts m = []) /\
  (match value o (lit "logOutOfScope") with JBool _ => False | _ => True end -> p_logOutOfScope m = false) /\
  (match value o (lit "interceptAutoContentLength") with JBool _ => False | _ => True end -> p_interceptAutoContentLength m = true) /\
  (match value o (lit "interceptAutoFixNewlines") with JBool _ => False | _ => True end -> p_interceptAutoFixNewlines m = true) /\
  (match value o (lit "rules") with JArray _ => False | _ => True end -> p_rules m = []).
Proof.
  intros H Ho. cbn [ensureMetadata] in H. rewrite Ho in H. unfold metaFromJson in H. destruct (annotations_ok _); [|done]. injection H as <- <-.
  cbn [p_acceptInvalidUpstreamHosts p_logOutOfScope p_interceptAutoContentLength p_interceptAutoFixNewlines p_rules].
  split_and!; intros Hv; (destruct (value o _) in Hv |- *; first [done|by destruct Hv]).
Qed.

(** ** Project names *)

Lemma rtrim_device dev k : forallb (fun c => negb ((c =? 32) || (c =? 46))) dev = true -> rtrim_stem (dev ++ repeat 32 k) = dev.
Proof.
  intros Hd. unfold rtrim_stem. rewrite rev_app_distr, rev_repeat.
  assert (H1 : forall t, drop_while (fun c => (c =? 32) || (c =? 46)) (repeat 32 k ++ t) = drop_while (fun c => (c =? 32) || (c =? 46)) t).
  { intros t. induction k as [|k IH]; [done|]. exact IH. }
  rewrite H1. assert (H2 : drop_while (fun c => (c =? 32) || (c =? 46)) (rev dev) = rev dev).
  { destruct (rev dev) as [|c l] eqn:E; [done|]. cbn [drop_while]. rewrite forallb_forall in Hd.
    assert (Hc : In c dev) by (apply in_rev; rewrite E; by left). specialize (Hd c Hc). apply negb_true_iff in Hd. by rewrite Hd. }
  rewrite H2. apply rev_involutive.
Qed.

Lemma reserved_chars dev : dev ∈ kReserved -> forallb (fun c => negb ((c =? 32) || (c =? 46)) && is_ascii c) dev = true.
Proof.
  assert (H : forallb (fun d => forallb (fun c => negb ((c =? 32) || (c =? 46)) && is_ascii c) d) kReserved = true) by (vm_compute; reflexivity).
  rewrite forallb_forall in H. intros Hd. apply H. by apply list_elem_of_In.
Qed.

Lemma stem_device {L : QtTextLaws Q} s dev k rest : dev ∈ kReserved -> all_ascii s = true -> map ascii_upper1 s = dev ->
  (rest = [] \/ starts_with_chr 46 rest = true) -> stem_of (s ++ repeat 32 k ++ rest) = dev.
Proof.
  intros Hd Ha Hu Hr. pose proof (reserved_chars dev Hd) as Hc. rewrite forallb_forall in Hc.
  assert (Hdot : 46 ∉ s ++ repeat 32 k).
  { intros [Hi|Hi]%elem_of_app; [|apply list_elem_of_In, repeat_spec in Hi; done]. apply list_elem_of_In in Hi.
    assert (Hi' : In 46 dev) by (rewrite <- Hu; apply (in_map ascii_upper1) in Hi; exact Hi). specialize (Hc 46 Hi'). done. }
  assert (Hs : exists tl, split_on 46 (s ++ repeat 32 k ++ rest) = (s ++ repeat 32 k) :: tl).
  { rewrite app_assoc. destruct Hr as [->|Hr]; [rewrite app_nil_r, split_on_no by done; by eexists|].
    destruct rest as [|c rest]; [done|]. cbn [starts_with_chr] in Hr. assert (c = 46) as -> by (unfold starts_with_chr in Hr; cbn in Hr; by to_prop).
    rewrite split_on_app by done. by eexists. }
  destruct Hs as [tl Hs]. unfold stem_of. rewrite Hs. rewrite law_upper_ascii.
  - rewrite map_app, Hu. replace (map ascii_upper1 (repeat 32 k)) with (repeat 32 k) by (by rewrite map_repeat).
    rewrite map_app. replace (map fold_superscript (repeat 32 k)) with (repeat 32 k) by (by rewrite map_repeat).
    replace (map fold_superscript dev) with dev.
    + apply rtrim_device. apply forallb_forall. intros c Hi. specialize (Hc c Hi). by apply andb_true_iff in Hc as [? _].
    + clear - Hc. induction dev as [|c l IH]; [done|]. cbn [map]. rewrite <- IH by (intros x Hx; apply Hc; by right). f_equal.
      specialize (Hc c (or_introl eq_refl)). apply andb_true_iff in Hc as [_ Hc]. unfold is_ascii in Hc. unfold fold_superscript.
      repeat (case_match; to_prop; [lia|]). done.
  - unfold all_ascii in *. rewrite forallb_app, Ha. cbn [andb]. apply forallb_forall. intros x Hx%repeat_spec. by subst.
Qed.

(** A project's name is one plain component of its path: the directory is a child of
    the projects folder, the name is no dot name, has no separator or control character
    and at most 64 characters, and is none of the reserved device names, whatever its
    case, extension and padding. *)
Theorem project_name_safe {L : QtTextLaws Q} root name : isValidProjectName name = true ->
  split_on 47 (root ++ [47] ++ name) = split_on 47 root ++ [name] /\
  name <> [] /\ name <> lit "." /\ name <> lit ".." /\ 92 ∉ name /\ zlen name <= 64 /\ Forall (fun c => 32 <= c) name /\
  (forall dev s k rest, dev ∈ kReserved -> all_ascii s = true -> map ascii_upper1 s = dev -> rest = [] \/ starts_with_chr 46 rest = true ->
    name <> s ++ repeat 32 k ++ rest).
Proof.
  unfold isValidProjectName. intros H. destruct (is_nil name || (64 <? zlen name)) eqn:E1; [done|]. apply orb_false_iff in E1 as [E1 E2]. to_prop.
  destruct (_ || _) eqn:E3 in H; [done|]. rewrite !orb_false_iff in E3. destruct E3 as (((((((E3 & E4) & E5) & E6) & E7) & E8) & E9) & E10).
  case_bool_decide as E11; [done|]. assert (H47 : 47 ∉ name). { unfold contains_chr in E4. destruct (index_of 47 name) eqn:E; [done|]. by apply index_of_None in E. }
  split_and!; try done.
  - cbn [app]. rewrite split_on_sep. by rewrite (split_on_no 47 name).
  - by intros ->.
  - by intros ->.
  - by intros ->.
  - unfold contains_chr in E5. destruct (index_of 92 name) eqn:E; [done|]. by apply index_of_None in E.
  - rewrite List.Forall_forall. intros c Hc. rewrite forallb_forall in H. specialize (H c Hc). unfold name_char in H. apply andb_true_iff in H as [H _].
    apply negb_true_iff in H. to_prop. lia.
  - intros dev s k rest Hd Ha Hu Hr ->. apply E11. by rewrite (stem_device s dev k rest).
Qed.

(** ** Triage *)

Lemma set_member_spec s on l : let l' := default l (set_member s on l) in
  (s ∈ l' <-> on = true) /\ (forall x, x <> s -> x ∈ l' <-> x ∈ l) /\ set_member s on l' = None.
Proof.
  cbv zeta. assert (Hf : s ∉ List.filter (fun x => negb (seq_eqb x s)) l) by (rewrite list_elem_of_In, List.filter_In, seq_eqb_refl; intros [_ H]; done).
  unfold set_member. destruct on; case_bool_decide as Hb; cbn [andb negb default from_option].
  - split_and!; [done|done|]. by rewrite bool_decide_true.
  - split_and!; [set_solver|set_solver|]. by rewrite bool_decide_true by set_solver.
  - split_and!; [done| |by rewrite bool_decide_false].
    intros x Hx. unfold id. rewrite !list_elem_of_In, List.filter_In, negb_true_iff, <- not_true_iff_false, seq_eqb_eq. tauto.
  - split_and!; [done|done|]. by rewrite bool_decide_false.
Qed.


(** Triage is exact: a kind or finding is in its list after an edit exactly when it was
    set, nothing else moves in or out, and an edit that changes nothing saves nothing; a
    finding has at most the one severity it was last given. *)
Theorem triage_exact m key on sev : key <> [] ->
  (let '(m', sig) := setKindSuppressed key on m in (key ∈ p_suppressedKinds m' <-> on = true) /\
     (forall x, x <> key -> x ∈ p_suppressedKinds m' <-> x ∈ p_suppressedKinds m) /\ setKindSuppressed key on m' = unchanged m') /\
  (let '(m', sig) := setFindingFalsePositive key on m in (key ∈ p_falsePositiveKeys m' <-> on = true) /\
     (forall x, x <> key -> x ∈ p_falsePositiveKeys m' <-> x ∈ p_falsePositiveKeys m) /\ setFindingFalsePositive key on m' = unchanged m') /\
  (let '(m', sig) := setFindingDeleted key on m in (key ∈ p_deletedKeys m' <-> on = true) /\
     (forall x, x <> key -> x ∈ p_deletedKeys m' <-> x ∈ p_deletedKeys m) /\ setFindingDeleted key on m' = unchanged m') /\
  (let m' := fst (setFindingSeverity key sev m) in
     List.filter (fun v => seq_eqb (override_key v) key) (p_severityOverrides m')
       = (if is_nil sev then [] else [JObject (object [(lit "key", JString key); (lit "severity", JString sev)])]) /\
     List.filter (fun v => negb (seq_eqb (override_key v) key)) (p_severityOverrides m')
       = List.filter (fun v => negb (seq_eqb (override_key v) key)) (p_severityOverrides m)).
Proof.
  intros Hk. assert (Hn : is_nil key = false) by (by destruct key). split_and!.
  - unfold setKindSuppressed. rewrite Hn. pose proof (set_member_spec key on (p_suppressedKinds m)) as (H1 & H2 & H3).
    destruct (set_member key on (p_suppressedKinds m)) as [l'|] eqn:E; cbn in *; split_and!; try done; rewrite ?H3, ?E; done.
  - unfold setFindingFalsePositive. rewrite Hn. pose proof (set_member_spec key on (p_falsePositiveKeys m)) as (H1 & H2 & H3).
    destruct (set_member key on (p_falsePositiveKeys m)) as [l'|] eqn:E; cbn in *; split_and!; try done; rewrite ?H3, ?E; done.
  - unfold setFindingDeleted. rewrite Hn. pose proof (set_member_spec key on (p_deletedKeys m)) as (H1 & H2 & H3).
    destruct (set_member key on (p_deletedKeys m)) as [l'|] eqn:E; cbn in *; split_and!; try done; rewrite ?H3, ?E; done.
  - unfold setFindingSeverity. rewrite Hn. cbv zeta.
    assert (HF : forall l, List.filter (fun v => seq_eqb (override_key v) key) (List.filter (fun v => negb (seq_eqb (override_key v) key)) l) = []).
    { intros l. induction l as [|v l IH]; [done|]. cbn [List.filter]. destruct (seq_eqb (override_key v) key) eqn:E; cbn [negb]; [done|]. cbn [List.filter]. by rewrite E. }
    assert (HG : forall l, List.filter (fun v => negb (seq_eqb (override_key v) key)) (List.filter (fun v => negb (seq_eqb (override_key v) key)) l) = List.filter (fun v => negb (seq_eqb (override_key v) key)) l).
    { intros l. induction l as [|v l IH]; [done|]. cbn [List.filter]. destruct (seq_eqb (override_key v) key) eqn:E; cbn [negb]; [done|]. cbn [List.filter]. rewrite E. cbn [negb]. by f_equal. }
    destruct (is_nil sev) eqn:Es; cbn [negb].
    + rewrite orb_false_r. destruct (existsb _ _) eqn:Ex; cbn [fst set_severityOverrides p_severityOverrides unchanged]; [by rewrite HF, HG|]. split; [|done].
    revert Ex. induction (p_severityOverrides m) as [|v l IH]; [done|]. cbn [existsb List.filter]. intros Ex. apply orb_false_iff in Ex as [-> Ex]. by apply IH.
    + rewrite orb_true_r. cbn [fst set_severityOverrides p_severityOverrides]. rewrite !List.filter_app, HF, HG. cbn [List.filter].
    replace (override_key (JObject (object [(lit "key", JString key); (lit "severity", JString sev)]))) with key by reflexivity. rewrite seq_eqb_refl. cbn [negb]. by rewrite app_nil_r.
Qed.
End ProjectMeta.

(** ** Examples *)

Definition sampleDates : QtDates := {|
  iso_text t := match t with Some ms => number 10 ms | None => [] end;
  iso_parse s := if is_nil s then None else Some (digits_val 10 s) |}.
#[export] Instance sampleDates_laws : QtDatesLaws sampleDates.
Proof.
  split; intros [ms|] H; cbn [iso_parse iso_text sampleDates]; try done.
  - cbn in H. destruct (is_nil (number 10 ms)) eqn:E; [apply is_nil_true in E; exfalso; revert E; apply number_not_nil; lia|].
    rewrite number_value; [done|lia|]. unfold I64_MAX. lia.
  - cbn in H. unfold plain_str. apply forallb_forall. intros c Hc. pose proof (number_alnum 10 ms ltac:(lia) ltac:(lia)) as Ha. rewrite List.Forall_forall in Ha.
    specialize (Ha c Hc). unfold is_alnum, is_digit in Ha. apply andb_true_iff.
    repeat (apply orb_true_iff in Ha as [Ha|Ha]); to_prop; split; [apply Z.leb_le; lia|apply Z.ltb_lt; lia|apply Z.leb_le; lia|apply Z.ltb_lt; lia].
Qed.
#[local] Existing Instances asciiText treeJson sampleCodecs sampleDates asciiChar.

Definition leaking_rule : Rule :=
  mkRule true (lit "x") (lit ".*") 1 (lit "^Cookie: (.*)$") (lit "X-Copy: \1") true false [].
Definition sample_meta : ProjectMeta :=
  set_rules [leaking_rule; mkRule true (lit "ua") [] 1 (lit "^User-Agent: .*$") (lit "User-Agent: n") true false []]
    (set_historyAnnotations (object [(lit "3", JObject (object [(lit "color", JString (lit "red"))]))]) (set_inScope [lit "*.h"] defaultMeta)).

Lemma quarantine_on_load_witness :
  let text := json_indented (JObject (metaToJson (Some 5) sample_meta)) in
  exists m, ensureMetadata true None [] (Some text) defaultMeta = (Some text, m, true) /\ map r_enabled (p_rules m) = [false; true] /\
    exists o, json_parse text = Some (JObject o) /\ length (toArray (value o (lit "rules"))) = length (p_rules m).
Proof.
  cbv zeta. destruct (ensureMetadata true None [] (Some (json_indented (JObject (metaToJson (Some 5) sample_meta)))) defaultMeta) as [[f m] b] eqn:E.
  assert (Hb : f = Some (json_indented (JObject (metaToJson (Some 5) sample_meta))) /\ b = true /\ map r_enabled (p_rules m) = [false; true]) by (vm_compute in E; injection E as <- <- <-; vm_compute; done).
  destruct Hb as (-> & -> & Hm). exists m. split; [reflexivity|]. split; [exact Hm|].
  destruct (quarantine_on_load _ _ _ _ _ _ _ E) as (o & Ho & Hr). exists o. split; [exact Ho|exact (Forall2_length _ _ _ Hr)].
Defined.

Lemma sample_meta_ok : meta_ok sample_meta.
Proof.
  split; unfold plain_texts.
  - apply List.Forall_forall. intros s Hs. vm_compute in Hs. repeat (destruct Hs as [<-|Hs]; [vm_compute; reflexivity|]). by destruct Hs.
  - repeat constructor; cbn; unfold int_ok, INT_MIN, INT_MAX; lia.
  - repeat (apply Forall_cons; split; [vm_compute; reflexivity|]). constructor.
  - repeat (apply Forall_cons; split; [vm_compute; reflexivity|]). constructor.
  - vm_compute. reflexivity.
  - done.
Qed.

Lemma metadata_roundtrip_witness :
  let '(file', m', saved) := saveMetadata true (Some 5) None sample_meta in
  saved = true /\ ensureMetadata true None [] file' defaultMeta = (file', set_rules (map quarantine (p_rules sample_meta)) m', true) /\ m' = set_updated (Some 5) sample_meta.
Proof. apply (metadata_roundtrip (Some 5) sample_meta None true None [] defaultMeta); [apply sample_meta_ok|cbn; lia]. Defined.

Lemma missing_settings_fail_closed_witness :
  exists m, ensureMetadata true None [] (Some (json_indented (JObject []))) defaultMeta = (Some (json_indented (JObject [])), m, true) /\ p_acceptInvalidUpstreamHosts m = [].
Proof.
  destruct (ensureMetadata true None [] (Some (json_indented (JObject []))) defaultMeta) as [[f m] b] eqn:E.
  assert (Hb : f = Some (json_indented (JObject [])) /\ b = true) by (vm_compute in E; injection E as <- <- <-; vm_compute; done).
  destruct Hb as [-> ->]. exists m. split; [reflexivity|]. by apply (missing_settings_fail_closed _ _ _ _ _ _ _ [] E).
Defined.

Lemma project_name_safe_witness : isValidProjectName (lit "client-2024 (ext)") = false /\ lit "client-2024.ext" <> lit "con" ++ repeat 32 2 ++ lit ".txt".
Proof.
  split; [vm_compute; reflexivity|].
  assert (H : isValidProjectName (lit "client-2024.ext") = true) by (vm_compute; reflexivity).
  destruct (project_name_safe [] (lit "client-2024.ext") H) as (_ & _ & _ & _ & _ & _ & _ & HD).
  apply (HD (lit "CON")); [vm_compute; by left|vm_compute; reflexivity|vm_compute; reflexivity|right; vm_compute; reflexivity].
Defined.

Lemma triage_exact_witness : lit "k" ∈ p_deletedKeys (fst (setFindingDeleted (lit "k") true defaultMeta)).
Proof.
  assert (Hk : lit "k" <> []) by discriminate.
  destruct (triage_exact defaultMeta (lit "k") true [] Hk) as (_ & _ & H & _). exact (proj2 (proj1 H) eq_refl).
Defined.

(** Device names are refused in any spelling. *)
Example device_names : map isValidProjectName (map lit ["con"; "COM1 .log"; "Lpt9.a.b"; "CONIN$"; "console"; "com10"]%string) = [false; false; false; false; true; true].
Proof. vm_compute. reflexivity. Qed.

(** Defect: a host glob of three stars compiles to the pattern of every host
    ([ProxyPolicy.three_stars_pattern]) and passes the quarantine. *)
Example three_stars_not_quarantined :
  let r := mkRule true (lit "x") (lit "***") 1 (lit "^Cookie: (.*)$") (lit "X-Copy: \1") true false [] in
  quarantine r = r /\ r_enabled (quarantine r) = true.
Proof. vm_compute. done. Qed.

(** Defect: a rule the operator looked at and enabled again is disabled by every load. *)
Example quarantine_repeats : let r := toggle (quarantine leaking_rule) in
  r_enabled r = true /\ contains_sub (lit "QUARANTINED") (r_comment r) = true /\ r_enabled (quarantine r) = false.
Proof. vm_compute. done. Qed.
