(* ===== verification/HistoryStore.v ===== *)
(** * The history on disk: Src/Core/Storage/project_store.cpp and history_index.cpp

    The project's history.ndjson, one JSON object a line, its index ([HistoryIndex], a
    table in SQLite, here its rows in the order of their identifiers), the notes on rows,
    opening and clearing; and, with [ProxyModel], the history as the operator meets it: a
    row of the live table, of the file and of the index under one identifier.

    The index's statements are taken to succeed once it is open.  The opaque revision
    tokens of the web client are left out. *)

From S2P Require Import Prelude Qt QtSample QMap Json JsonSample HttpFraming Transcode ProxyModel ProjectMeta.

Local Open Scope Z_scope.

(** What is known of compact JSON text: one line, valid UTF-8, no space around it. *)
Class QtJsonLine (Q : QtText) (J : QtJson) : Prop := {
  law_one_line o : json_plain 512 (JObject o) = true -> 10 ∉ json_compact (JObject o) /\ 13 ∉ json_compact (JObject o);
  law_line_utf8 o : json_plain 512 (JObject o) = true -> u_toutf8 (u_fromutf8 (json_compact (JObject o))) = json_compact (JObject o);
  law_line_trimmed o : json_plain 512 (JObject o) = true -> b_trimmed (json_compact (JObject o)) = json_compact (JObject o) /\ json_compact (JObject o) <> []
}.

Section HistoryStore.
Context {Q : QtText} {K : QtClock} {J : QtJson} {C : QtCodecs} {LL : QtLenient} {D : QtDates}.

(** ** Messages as JSON *)

Definition headersToJson (hs : list (qstr * qstr)) : json := JArray (map (fun h => JArray [JString (fst h); JString (snd h)]) hs).
Definition headersFromJson (arr : list json) : list (qstr * qstr) :=
  flat_map (fun v => match toArray v with [k; x] => [(toString k, toString x)] | _ => [] end) arr.

Definition requestToJson (r : HttpRequest) : list (qstr * json) :=
  object [(lit "method", JString (rq_method r)); (lit "host", JString (rq_host r)); (lit "port", JInt (rq_port r)); (lit "path", JString (rq_path r));
    (lit "target", JString (rq_target r)); (lit "httpVersion", JString (rq_httpVersion r)); (lit "headers", headersToJson (rq_headers r));
    (lit "body_b64", JString (b64_encode false (rq_body r)))].
Definition responseToJson (r : HttpResponse) (wasTls : bool) (peer : qstr) : list (qstr * json) :=
  object [(lit "httpVersion", JString (rs_httpVersion r)); (lit "statusCode", JInt (rs_statusCode r)); (lit "reasonPhrase", JString (rs_reasonPhrase r));
    (lit "headers", headersToJson (rs_headers r)); (lit "body_b64", JString (b64_encode false (rs_body r)));
    (lit "peerAddress", JString peer); (lit "wasTls", JBool wasTls)].

(** [static_cast<quint16>]. *)
Definition u16 (n : Z) : Z := n mod 65536.
Definition body_of_json (o : list (qstr * json)) : bytes := b64_lenient (u_tolatin1 (toString (value o (lit "body_b64")))).
Definition requestFromJson (o : list (qstr * json)) : HttpRequest :=
  mkRequest (toString (value o (lit "method"))) (toString (value o (lit "target"))) (toString (value o (lit "httpVersion")))
    (toString (value o (lit "host"))) (u16 (toInt 80 (value o (lit "port")))) false (toString (value o (lit "path")))
    (headersFromJson (toArray (value o (lit "headers")))) (body_of_json o).
Definition responseFromJson (o : list (qstr * json)) : HttpResponse :=
  mkResponse (toString (value o (lit "httpVersion"))) (toInt 0 (value o (lit "statusCode"))) (toString (value o (lit "reasonPhrase")))
    (headersFromJson (toArray (value o (lit "headers")))) (body_of_json o) [] false.
Definition transactionFromJson (o : list (qstr * json)) : Transaction :=
  let resp := toObject (value o (lit "response")) in
  mkTx (requestFromJson (toObject (value o (lit "request")))) None (responseFromJson resp)
    (toBool false (value resp (lit "wasTls"))) (toString (value resp (lit "peerAddress"))).

Definition kSchemaVersion : Z := 1.
Definition entryToJson (tx : Transaction) (annotation : list (qstr * json)) : list (qstr * json) :=
  object ([(lit "v", JInt kSchemaVersion); (lit "ts", JString (iso_text (tx_time tx)));
    (lit "request", JObject (requestToJson (tx_request tx))); (lit "response", JObject (responseToJson (tx_response tx) (tx_tls tx) (tx_peer tx)))]
    ++ if is_nil annotation then [] else [(lit "annotation", JObject annotation)]).
Definition entry_line (tx : Transaction) (annotation : list (qstr * json)) : bytes := json_compact (JObject (entryToJson tx annotation)) ++ [10].

(** ** The index (history_index.cpp) *)

Record IndexRow := mkRow {
  ix_ts : Z; ix_method : qstr; ix_host : qstr; ix_port : Z; ix_path : qstr; ix_status : Z; ix_size : Z; ix_tls : bool; ix_mime : qstr;
  ix_req : qstr; ix_resp : qstr
}.
(** [None] while the connection is closed. *)
Definition Index : Type := option (list (Z * IndexRow)).

Definition mimeOf (r : HttpResponse) : qstr := findHeader (rs_headers r) (lit "Content-Type").
Definition indexRequestToJson (r : HttpRequest) (time : option Z) : list (qstr * json) :=
  object [(lit "method", JString (rq_method r)); (lit "target", JString (rq_target r)); (lit "path", JString (rq_path r)); (lit "host", JString (rq_host r));
    (lit "port", JInt (rq_port r)); (lit "httpVersion", JString (rq_httpVersion r)); (lit "ts", JInt (default 0 time));
    (lit "headers", headersToJson (rq_headers r)); (lit "body_b64", JString (b64_encode false (rq_body r)))].
Definition indexRequestFromJson (o : list (qstr * json)) : HttpRequest :=
  mkRequest (toString (value o (lit "method"))) (toString (value o (lit "target"))) (toString (value o (lit "httpVersion")))
    (toString (value o (lit "host"))) (u16 (toInt 0 (value o (lit "port")))) false (toString (value o (lit "path")))
    (headersFromJson (toArray (value o (lit "headers")))) (body_of_json o).
Definition index_text (o : list (qstr * json)) : qstr := u_fromutf8 (json_compact (JObject o)).
Definition index_row (now : Z) (tx : Transaction) : IndexRow :=
  let req := tx_request tx in let resp := tx_response tx in
  mkRow (default now (tx_time tx)) (rq_method req) (rq_host req) (rq_port req) (rq_path req) (rs_statusCode resp) (zlen (rs_body resp)) (tx_tls tx) (mimeOf resp)
    (index_text (indexRequestToJson req (tx_time tx))) (index_text (responseToJson resp (tx_tls tx) (tx_peer tx))).
(** The insertion that updates on a conflict of identifiers. *)
Definition index_append (now : Z) (rowId : Z) (tx : Transaction) (ix : Index) : Index := qm_insert rowId (index_row now tx) <$> ix.
Definition index_clear (ix : Index) : Index := (fun _ => []) <$> ix.
Definition index_rowCount (ix : Index) : Z := from_option zlen 0 ix.
Definition allIds (ix : Index) : list Z := from_option (map fst) [] ix.
Definition loadFullRow (ix : Index) (id : Z) : option Transaction :=
  rows ← ix; row ← qm_get id rows;
  match json_parse (u_toutf8 (ix_req row)), json_parse (u_toutf8 (ix_resp row)) with
  | Some (JObject req), Some (JObject resp) =>
      Some (mkTx (indexRequestFromJson req) (Some (variant_longlong (value req (lit "ts")))) (responseFromJson resp)
        (toBool false (value resp (lit "wasTls"))) (toString (value resp (lit "peerAddress"))))
  | _, _ => None
  end.

(** ** The store *)

Record Files := mkFiles { f_meta : option bytes; f_history : bytes }.
Definition noFiles : Files := mkFiles None [].
(** [m_history.isOpen()] is the store's own [isOpen]. *)
Record Store := mkStore {
  h_dir : qstr; h_isOpen : bool; h_meta : ProjectMeta; h_nextRowId : Z; h_archive : list (qstr * json); h_index : Index; h_lastError : qstr
}.
Definition newStore : Store := mkStore [] false defaultMeta 1 [] None [].

Definition with_meta (m : ProjectMeta) (s : Store) : Store := mkStore (h_dir s) (h_isOpen s) m (h_nextRowId s) (h_archive s) (h_index s) (h_lastError s).
Definition with_error (e : qstr) (s : Store) : Store := mkStore (h_dir s) (h_isOpen s) (h_meta s) (h_nextRowId s) (h_archive s) (h_index s) e.

Definition row_key (id : Z) : qstr := number 10 id.
(** A saved note goes over the archive's; null takes it away. *)
Definition overlay_one (notes : list (qstr * json)) (e : qstr * json) : list (qstr * json) :=
  match snd e with JNull => qm_remove (fst e) notes | v => insert (fst e) v notes end.
Definition overlay (notes archive : list (qstr * json)) : list (qstr * json) := fold_left overlay_one notes archive.
Definition patched (note patch : list (qstr * json)) : list (qstr * json) := fold_left (fun n kv => insert (fst kv) (snd kv) n) patch note.
Definition historyAnnotations (s : Store) : list (qstr * json) :=
  if negb (h_isOpen s) then []
  else overlay (p_historyAnnotations (h_meta s)) (h_archive s).

(** [appendAnnotatedEntry]; [writes] is false when the line cannot be written: the file
    is cut back to its size. *)
Definition appendAnnotatedEntry (writes : bool) (now : Z) (tx : Transaction) (annotation : list (qstr * json)) (s : Store) (f : Files) : Store * Files * bool :=
  if negb (h_isOpen s) then (s, f, false)
  else if negb writes then (with_error (lit "Could not append project history") s, f, false)
  else
    let rowId := h_nextRowId s in
    (mkStore (h_dir s) true (h_meta s) (rowId + 1)
       (if is_nil annotation then h_archive s else insert (row_key rowId) (JObject annotation) (h_archive s))
       (index_append now rowId tx (h_index s)) (h_lastError s),
     mkFiles (f_meta f) (f_history f ++ entry_line tx annotation), true).

(** ** Notes *)

Definition too_large (notes : list (qstr * json)) : bool := kMaxAnnotationsBytes <? zlen (json_compact (JObject notes)).
Definition annotateHistory (writable : bool) (now : option Z) (id : Z) (patch : list (qstr * json)) (s : Store) (f : Files) : Store * Files * bool :=
  let e := annotationError patch in
  if negb (is_nil e) then (with_error e s, f, false)
  else if negb (h_isOpen s) || (id <=? 0) || (h_nextRowId s <=? id) then (with_error (lit "History row not found in this project") s, f, false)
  else if is_nil patch then (with_error (lit "Supply a color or comment") s, f, false)
  else
    let key := row_key id in
    let note := patched (toObject (value (historyAnnotations s) key)) patch in
    let previous := p_historyAnnotations (h_meta s) in
    let next :=
      if is_nil (toString (value note (lit "color"))) && is_nil (toString (value note (lit "comment"))) then
        if contains (h_archive s) key then insert key JNull previous else qm_remove key previous
      else insert key (JObject note) previous in
    let s1 := with_meta (set_historyAnnotations next (h_meta s)) s in
    if too_large next || too_large (historyAnnotations s1) then
      (with_error (lit "Project annotations exceed the 1 MiB limit") s, f, false)
    else
      let '(file, m, saved) := saveMetadata writable now (f_meta f) (h_meta s1) in
      if saved then (with_error [] (with_meta m s1), mkFiles file (f_history f), true)
      else (with_error (lit "Could not save annotation; the previous note is unchanged") (with_meta (set_historyAnnotations previous m) s1), f, false).

(** ** Opening and clearing *)

Definition strip_cr (l : bytes) : bytes := if ends_with_chr 13 l then chop1 l else l.
(** [QTextStream::readLine] on a file opened as text, back in UTF-8, without blank lines. *)
Definition text_lines (content : bytes) : list bytes :=
  List.filter (fun l => negb (is_nil (b_trimmed l))) (map (fun l => u_toutf8 (u_fromutf8 (strip_cr l))) (split_on 10 content)).

Inductive Emitted := HistoryShouldClear | HistoryCleared | EntryLoaded (tx : Transaction) | ErrorOccurred.

(** One line of [streamExistingHistory]. *)
Definition stream_line (now : Z) (line : bytes) (st : Store * list Emitted) : Store * list Emitted :=
  let '(s, out) := st in
  match json_parse line with
  | Some (JObject o) =>
      let tx := transactionFromJson o in
      let note := toObject (value o (lit "annotation")) in
      let rowId := h_nextRowId s in
      (mkStore (h_dir s) (h_isOpen s) (h_meta s) (rowId + 1)
         (if negb (is_nil note) && is_nil (annotationError note) then insert (row_key rowId) (JObject note) (h_archive s) else h_archive s)
         (index_append now rowId tx (h_index s)) (h_lastError s),
       out ++ [EntryLoaded tx])
  | _ => (s, out ++ [ErrorOccurred])
  end.
Definition streamExistingHistory (now : Z) (content : bytes) (s : Store) : Store * list Emitted :=
  fold_left (fun st line => stream_line now line st) (text_lines content) (s, []).

(** [close]: the index and the files. *)
Definition close (s : Store) : Store := mkStore [] false (h_meta s) (h_nextRowId s) (h_archive s) None (h_lastError s).

(** What [open] meets: the error it is refused with -- the guard, the directory, a
    workspace that cannot be read or saved --, whether the metadata can be written, the
    index and the history opened, and the new epoch. *)
Record OpenIo := mkOpenIo { oi_refused : option qstr; oi_writable : bool; oi_index : bool; oi_history : bool; oi_epoch : qstr; oi_now : Z; oi_name : qstr }.
Definition open (io : OpenIo) (dir : qstr) (s : Store) (f : Files) : Store * Files * list Emitted * bool :=
  match oi_refused io with
  | Some e => (with_error e s, f, [ErrorOccurred], false)
  | None =>
    let s := close (with_error [] s) in
    let '(file, meta, ok) := ensureMetadata (oi_writable io) (Some (oi_now io)) (oi_name io) (f_meta f) (h_meta s) in
    let s := mkStore dir false meta (h_nextRowId s) (h_archive s) None (h_lastError s) in
    if negb ok then (s, mkFiles file (f_history f), [HistoryShouldClear; ErrorOccurred], false)
    else
      let '(file, meta) :=
        if is_nil (p_historyEpoch meta) then fst (saveMetadata (oi_writable io) (Some (oi_now io)) file (set_historyEpoch (oi_epoch io) meta)) else (file, meta) in
      let s := mkStore dir false meta 1 [] (if oi_index io then Some [] else None) (h_lastError s) in
      let '(s, loaded) := streamExistingHistory (oi_now io) (f_history f) s in
      let out := HistoryShouldClear :: loaded in
      if oi_history io
      then (mkStore (h_dir s) true (h_meta s) (h_nextRowId s) (h_archive s) (h_index s) (h_lastError s), mkFiles file (f_history f), out, true)
      else (s, mkFiles file (f_history f), out ++ [ErrorOccurred], false)
  end.

(** What [clearHistory] meets: the error it is refused with, can both archives be moved aside, the new
    ones be opened, the metadata be saved and the index emptied; and, when it has to roll
    back, whether the archive of the history is moved back and opened again, that of the
    findings too, and the metadata saved. *)
Record ClearIo := mkClearIo {
  ci_refused : option qstr; ci_moved : bool; ci_findings : bool; ci_opened : bool; ci_saved : bool; ci_index : bool;
  ci_restored : bool; ci_reopened : bool; ci_refound : bool; ci_resaved : bool; ci_epoch : qstr; ci_now : Z
}.
Definition clearHistory (io : ClearIo) (s : Store) (f : Files) : Store * Files * list Emitted * bool :=
  if negb (h_isOpen s) then (s, f, [], false)
  else match ci_refused io with
  | Some e => (with_error e s, f, [ErrorOccurred], false)
  | None =>
    let s := with_error [] s in
    let old := h_meta s in
    let roll_back (meta : ProjectMeta) (file : option bytes) (moved : bool) : Store * Files * list Emitted * bool :=
      let meta := set_historyAnnotations (p_historyAnnotations old) (set_historyEpoch (p_historyEpoch old) meta) in
      let back := negb moved || ci_restored io in
      (mkStore (h_dir s) (ci_reopened io) meta (h_nextRowId s) (h_archive s) (h_index s)
         (if back && ci_reopened io && ci_refound io then lit "Could not clear project history; original archives retained"
          else lit "Could not restore history; recover the .clear-backup files in the project directory"),
       mkFiles file (if back then f_history f else []), [ErrorOccurred], false) in
    if negb (ci_moved io) then roll_back old (f_meta f) false
    else if negb (ci_findings io) || negb (ci_opened io) then roll_back old (f_meta f) true
    else
      let '(file, meta, saved) := saveMetadata (ci_saved io) (Some (ci_now io)) (f_meta f) (set_historyAnnotations [] (set_historyEpoch (ci_epoch io) old)) in
      if negb saved then roll_back meta file true
      else if negb (ci_index io) then
        let '(s', f', out, _) := roll_back meta file true in
        let '(file', meta', _) := saveMetadata (ci_resaved io) (Some (ci_now io)) (f_meta f') (h_meta s') in
        (with_meta meta' s', mkFiles file' (f_history f'), out, false)
      else (mkStore (h_dir s) true meta 1 [] (index_clear (h_index s)) (h_lastError s), mkFiles file [], [HistoryCleared], true)
  end.

(** ** The history the operator meets *)

(** The live table beside the store: [clear] on both signals, a row for each entry. *)
Definition on_emitted (e : Emitted) (m : ProxyModel) : option ProxyModel :=
  match e with
  | HistoryShouldClear | HistoryCleared => Some (ProxyModel.clear m)
  | EntryLoaded tx => addResponse tx m
  | ErrorOccurred => Some m
  end.
Definition on_all (out : list Emitted) (m : ProxyModel) : option ProxyModel := foldl (fun m e => m ≫= on_emitted e) (Some m) out.

(** The files of every project directory. *)
Record Project := mkProject { pr_model : ProxyModel; pr_store : Store; pr_disk : gmap qstr Files }.
Definition newProject : Project := mkProject newModel newStore ∅.
Definition files_of (p : Project) (dir : qstr) : Files := default noFiles (pr_disk p !! dir).
Definition put (m : ProxyModel) (dir : qstr) (s : Store) (f : Files) (p : Project) : Project := mkProject m s (<[dir := f]> (pr_disk p)).

(** What goes on while projects are open.  A captured row (of the proxy, the crawler, a
    replay) is two slots of one signal, each posted on its own: anything can come
    between them. *)
Inductive Step :=
| Show (tx : Transaction)                                     (* ProxyModel::addResponse *)
| Append (writes : bool) (now : Z) (tx : Transaction)         (* ProjectStore::appendEntry *)
| ImportEntry (writes : bool) (now : Z) (tx : Transaction) (note : list (qstr * json))
| Annotate (writable : bool) (now : option Z) (id : Z) (patch : list (qstr * json))
| EditMeta (writable : bool) (now : option Z) (edit : ProjectMeta -> Edit)    (* scope, rules, triage, session *)
| Open (io : OpenIo) (dir : qstr)
| ClearHistory (io : ClearIo)
| SetMaxRows (n : Z).

Definition is_saved (g : Signal) : bool := match g with Saved => true | _ => false end.

(** An imported row reaches the table behind the store, and only if it was written. *)
Definition step (p : Project) (a : Step) : option Project :=
  let s := pr_store p in let f := files_of p (h_dir s) in
  match a with
  | Show tx => m ← addResponse tx (pr_model p); Some (mkProject m s (pr_disk p))
  | Append writes now tx =>
      let '(s', f', _) := appendAnnotatedEntry writes now tx [] s f in Some (put (pr_model p) (h_dir s) s' f' p)
  | ImportEntry writes now tx note =>
      let '(s', f', ok) := appendAnnotatedEntry writes now tx note s f in
      m ← (if ok then addResponse tx (pr_model p) else Some (pr_model p));
      Some (put m (h_dir s) s' f' p)
  | Annotate writable now id patch =>
      let '(s', f', _) := annotateHistory writable now id patch s f in Some (put (pr_model p) (h_dir s) s' f' p)
  | EditMeta writable now edit =>
      let '(meta, signals) := edit (h_meta s) in
      let '(file, meta, _) :=
        if existsb is_saved signals && negb (is_nil (h_dir s)) then saveMetadata writable now (f_meta f) meta else (f_meta f, meta, false) in
      Some (put (pr_model p) (h_dir s) (with_meta meta s) (mkFiles file (f_history f)) p)
  | Open io dir =>
      let '(s', f', out, _) := open io dir s (files_of p dir) in
      m ← on_all out (pr_model p);
      Some (put m dir s' f' p)
  | ClearHistory io =>
      let '(s', f', out, _) := clearHistory io s f in
      m ← on_all out (pr_model p);
      Some (put m (h_dir s) s' f' p)
  | SetMaxRows n => Some (mkProject (setMaxRowsInMemory n (pr_model p)) s (pr_disk p))
  end.
Definition run_steps (steps : list Step) (p : Project) : option Project := foldl (fun p a => p ≫= fun p => step p a) (Some p) steps.

(** A row as the web client asks for it: out of the window, or out of the index. *)
Definition history_row (p : Project) (id : Z) : option HttpRequest :=
  match requestById (pr_model p) id with
  | Some r => Some r
  | None => tx_request <$> loadFullRow (h_index (pr_store p)) id
  end.

(** ** What a line keeps *)

(** A transaction as the file has it: without the time, the encryption of the client's
    leg and the decoded body. *)
Definition stored (tx : Transaction) : Transaction :=
  let req := tx_request tx in let resp := tx_response tx in
  mkTx (mkRequest (rq_method req) (rq_target req) (rq_httpVersion req) (rq_host req) (rq_port req) false (rq_path req) (rq_headers req) (rq_body req)) None
    (mkResponse (rs_httpVersion resp) (rs_statusCode resp) (rs_reasonPhrase resp) (rs_headers resp) (rs_body resp) [] false) (tx_tls tx) (tx_peer tx).

Definition plain_headers (hs : list (qstr * qstr)) : Prop := Forall (fun h => plain_str (fst h) = true /\ plain_str (snd h) = true) hs.
(** What JSON text can carry: no lone surrogates, numbers in their range, octets. *)
Definition storable (tx : Transaction) : Prop :=
  let req := tx_request tx in let resp := tx_response tx in
  plain_texts [rq_method req; rq_target req; rq_httpVersion req; rq_host req; rq_path req; rs_httpVersion resp; rs_reasonPhrase resp; tx_peer tx] /\
  plain_headers (rq_headers req) /\ plain_headers (rs_headers resp) /\ 0 <= rq_port req < 65536 /\ int_ok (rs_statusCode resp) /\
  wf_bytes (rq_body req) /\ wf_bytes (rs_body resp) /\ date_ok (tx_time tx).

Lemma stored_storable tx : storable tx -> storable (stored tx).
Proof. unfold storable. cbn. tauto. Qed.
Lemma stored_stored tx : stored (stored tx) = stored tx.
Proof. done. Qed.

Context {QL : QtTextLaws Q} {JL : QtJsonLaws J} {JT : QtJsonLine Q J} {CL : QtCodecsLaws C} {VL : QtLenientLaws C LL} {DL : QtDatesLaws D}.

Lemma headers_back hs : headersFromJson (map (fun h => JArray [JString (fst h); JString (snd h)]) hs) = hs.
Proof. induction hs as [|[k v] hs IH]; [done|]. unfold headersFromJson in *. cbn. by rewrite IH. Qed.
Lemma headers_plain hs depth : plain_headers hs -> json_plain (S (S (S depth))) (headersToJson hs) = true.
Proof.
  intros H. apply plain_array, Forall_map. eapply Forall_impl; [exact H|]. intros [k v] [Hk Hv]. cbn in *. by rewrite Hk, Hv.
Qed.
Lemma b64_plain b : wf_bytes b -> plain_str (b64_encode false b) = true.
Proof.
  intros Hb. apply forallb_forall. intros c Hc%list_elem_of_In. destruct (law_b64_chars false b c Hb Hc) as [Ha _]. unfold is_ascii in Ha.
  apply andb_true_iff in Ha as [H1 H2]. to_prop. apply andb_true_iff. split; [apply Z.leb_le; lia|apply Z.ltb_lt; lia].
Qed.
Lemma u16_id n : 0 <= n < 65536 -> u16 n = n.
Proof. intros H. unfold u16. by rewrite Z.mod_small. Qed.
Lemma port_int_ok n : 0 <= n < 65536 -> int_ok n.
Proof. unfold int_ok, INT_MIN, INT_MAX. lia. Qed.

Lemma request_back tx : storable tx -> requestFromJson (requestToJson (tx_request tx)) = tx_request (stored tx).
Proof.
  intros (_ & _ & _ & Hp & _ & Hb & _). destruct tx as [[me ta ve ho po tl pa hs bo] ti re tls pe]. cbn [tx_request rq_port rq_body stored rq_method rq_target rq_httpVersion rq_host rq_path rq_headers] in *.
  transitivity (mkRequest me ta ve ho (u16 (toInt 80 (JInt po))) false pa (headersFromJson (map (fun h => JArray [JString (fst h); JString (snd h)]) hs)) (b64_lenient (u_tolatin1 (b64_encode false bo)))); [reflexivity|].
  by rewrite toInt_ok, u16_id, headers_back, saved_base64_roundtrip by (done || by apply port_int_ok).
Qed.
Lemma response_back tx : storable tx -> responseFromJson (responseToJson (tx_response tx) (tx_tls tx) (tx_peer tx)) = tx_response (stored tx).
Proof.
  intros (_ & _ & _ & _ & Hs & _ & Hb & _). destruct tx as [rq ti [ve st re hs bo db dc] tls pe]. cbn [tx_response rs_statusCode rs_body stored rs_httpVersion rs_reasonPhrase rs_headers] in *.
  transitivity (mkResponse ve (toInt 0 (JInt st)) re (headersFromJson (map (fun h => JArray [JString (fst h); JString (snd h)]) hs)) (b64_lenient (u_tolatin1 (b64_encode false bo))) [] false); [reflexivity|].
  by rewrite toInt_ok, headers_back, saved_base64_roundtrip by done.
Qed.

Lemma transaction_back tx note : storable tx -> transactionFromJson (entryToJson tx note) = stored tx.
Proof.
  intros H. transitivity (mkTx (requestFromJson (requestToJson (tx_request tx))) None (responseFromJson (responseToJson (tx_response tx) (tx_tls tx) (tx_peer tx))) (tx_tls tx) (tx_peer tx));
    [unfold entryToJson; by destruct note|]. rewrite request_back, response_back by done. done.
Qed.

Ltac plain_fields := repeat (apply Forall_cons; split; [cbn [fst snd]; split; [reflexivity|]; lazymatch goal with
    | |- json_plain _ (JString (iso_text _)) = _ => apply plain_string, law_iso_plain; assumption
    | |- json_plain _ (JString (b64_encode _ _)) = _ => apply plain_string, b64_plain; assumption
    | |- json_plain _ (JString _) = _ => apply plain_string; assumption
    | |- json_plain _ (headersToJson _) = _ => apply headers_plain; assumption
    | |- json_plain _ (JInt (rq_port _)) = _ => apply plain_int, port_int_ok; assumption
    | |- json_plain _ (JInt (rs_statusCode _)) = _ => apply plain_int; assumption
    | |- _ => idtac end|]).

Ltac storable_facts H := destruct H as (Ht & Hh1 & Hh2 & Hp & Hs & Hb1 & Hb2 & Hd); unfold plain_texts in Ht; rewrite !Forall_cons in Ht;
  destruct Ht as (T1 & T2 & T3 & T4 & T5 & T6 & T7 & T8 & _).

Lemma request_json_plain tx depth : storable tx -> json_plain (4 + depth) (JObject (requestToJson (tx_request tx))) = true.
Proof. intros H. storable_facts H. apply plain_object. plain_fields. constructor. Qed.
Lemma index_request_plain tx depth : storable tx -> json_plain (4 + depth) (JObject (indexRequestToJson (tx_request tx) (tx_time tx))) = true.
Proof.
  intros H. storable_facts H. apply plain_object. plain_fields; [|constructor]. cbn [json_plain]. unfold date_ok in Hd.
  change (2 ^ 53) with 9007199254740992. apply andb_true_iff. destruct (tx_time tx) in Hd |- *; cbn [from_option]; unfold id; split; apply Z.leb_le; lia.
Qed.
Lemma response_json_plain tx depth : storable tx -> json_plain (4 + depth) (JObject (responseToJson (tx_response tx) (tx_tls tx) (tx_peer tx))) = true.
Proof. intros H. storable_facts H. apply plain_object. plain_fields; [reflexivity|constructor]. Qed.

Definition note_ok (note : list (qstr * json)) : Prop := json_plain 500 (JObject note) = true.
Lemma entry_json_plain tx note : storable tx -> note_ok note -> json_plain 512 (JObject (entryToJson tx note)) = true.
Proof.
  intros H Hn. pose proof (request_json_plain tx 507 H) as H1. pose proof (response_json_plain tx 507 H) as H2. storable_facts H. apply plain_object.
  apply Forall_app. split.
  - plain_fields; [reflexivity|exact H1|exact H2|constructor].
  - destruct (is_nil note); [constructor|]. apply Forall_singleton. cbn [fst snd]. split; [reflexivity|]. apply (plain_mono _ 500); [lia|exact Hn].
Qed.

(** ** Reading what was written *)

Lemma strip_cr_id t : 13 ∉ t -> strip_cr t = t.
Proof.
  intros H. unfold strip_cr, ends_with_chr. destruct (last t) as [c|] eqn:E; [|done]. apply last_Some_elem_of in E.
  rewrite (proj2 (Z.eqb_neq c 13)); [done|]. intros ->. done.
Qed.

Lemma text_lines_written es : Forall (fun e => storable (fst e) /\ note_ok (snd e)) es ->
  text_lines (concat (map (fun e => entry_line (fst e) (snd e)) es)) = map (fun e => json_compact (JObject (entryToJson (fst e) (snd e)))) es.
Proof.
  intros H. unfold text_lines. induction H as [|[tx note] es [Hs Hn] _ IH]; [cbn; by rewrite law_fromutf8_ascii, law_toutf8_ascii|]. cbn [map concat fst snd].
  pose proof (entry_json_plain tx note Hs Hn) as Hp. destruct (law_one_line _ Hp) as [H10 H13]. destruct (law_line_trimmed _ Hp) as [Ht Hne]. pose proof (law_line_utf8 _ Hp) as Hu.
  unfold entry_line at 1. revert H10 H13 Ht Hne Hu. generalize (json_compact (JObject (entryToJson tx note))). intros t H10 H13 Ht Hne Hu.
  rewrite <- app_assoc. cbn [app]. rewrite split_on_app by done. cbn [map List.filter].
  rewrite strip_cr_id, Hu, Ht by done. assert (Hn' : is_nil t = false) by (by destruct t). rewrite Hn'. cbn [negb]. by rewrite IH.
Qed.

(** ** The index *)

Lemma index_back now tx : storable tx -> exists t, loadFullRow (Some [(1, index_row now tx)]) 1 = Some (mkTx (tx_request (stored tx)) (Some t) (tx_response (stored tx)) (tx_tls tx) (tx_peer tx)).
Proof.
  intros H. unfold loadFullRow. cbn [mbind option_bind qm_get]. rewrite klt_irrefl. cbn [mbind option_bind index_row ix_req ix_resp]. unfold index_text.
  assert (HP : forall o, json_plain 512 (JObject o) = true -> json_parse (u_toutf8 (u_fromutf8 (json_compact (JObject o)))) = Some (JObject o)).
  { intros o Ho. rewrite law_line_utf8 by done. by apply law_json_text. }
  rewrite !HP by (apply (index_request_plain tx 508 H) || apply (response_json_plain tx 508 H)). eexists.
  change (toBool false (value (responseToJson (tx_response tx) (tx_tls tx) (tx_peer tx)) (lit "wasTls"))) with (tx_tls tx).
  change (toString (value (responseToJson (tx_response tx) (tx_tls tx) (tx_peer tx)) (lit "peerAddress"))) with (tx_peer tx).
  rewrite response_back by done. do 2 f_equal. destruct H as (_ & _ & _ & Hp & _ & Hb & _).
  destruct tx as [[me ta ve ho po tl pa hs bo] ti re tls pe]. cbn [tx_request rq_port rq_body stored rq_method rq_target rq_httpVersion rq_host rq_path rq_headers] in *.
  transitivity (mkRequest me ta ve ho (u16 (toInt 0 (JInt po))) false pa (headersFromJson (map (fun h => JArray [JString (fst h); JString (snd h)]) hs)) (b64_lenient (u_tolatin1 (b64_encode false bo)))); [reflexivity|].
  by rewrite toInt_ok, u16_id, headers_back, saved_base64_roundtrip by (done || by apply port_int_ok).
Qed.

(** The open index has a row for each of the file's, and no other. *)
Definition index_holds (ix : Index) (rows : list Transaction) : Prop :=
  match ix with
  | None => True
  | Some m => forall id,
      if (1 <=? id) && (id <=? zlen rows)
      then exists now tx, qm_get id m = Some (index_row now tx) /\ storable tx /\ rows !! Z.to_nat (id - 1) = Some (stored tx)
      else qm_get id m = None
  end.

Lemma index_holds_append now tx ix rows : storable tx -> index_holds ix rows -> index_holds (index_append now (zlen rows + 1) tx ix) (rows ++ [stored tx]).
Proof.
  intros Hs. destruct ix as [m|]; [|done]. cbn [index_holds index_append fmap option_fmap option_map]. intros H id. unfold zlen in *. rewrite length_app. cbn [length].
  destruct (decide (id = Z.of_nat (length rows) + 1)) as [->|Hne].
  - rewrite (proj2 (Z.leb_le 1 _)), (proj2 (Z.leb_le (Z.of_nat (length rows) + 1) _)) by lia. cbn [andb]. exists now, tx. rewrite qm_get_insert. split_and!; [done..|].
    rewrite lookup_app_r by lia. by replace (Z.to_nat (Z.of_nat (length rows) + 1 - 1) - length rows)%nat with 0%nat by lia.
  - rewrite qm_get_insert_ne by done. specialize (H id).
    replace ((1 <=? id) && (id <=? Z.of_nat (length rows + 1))) with ((1 <=? id) && (id <=? Z.of_nat (length rows))).
    + destruct (_ && _) eqn:E; [|done]. destruct H as (n & t & H1 & H2 & H3). exists n, t. split_and!; [done..|]. by apply lookup_app_l_Some.
    + apply eq_true_iff_eq. rewrite !andb_true_iff, !Z.leb_le. lia.
Qed.

Lemma index_row_back m rows id : index_holds (Some m) rows -> 1 <= id <= zlen rows ->
  exists tx, loadFullRow (Some m) id = Some tx /\ rows !! Z.to_nat (id - 1) = Some (stored tx).
Proof.
  intros H Hid. specialize (H id). rewrite (proj2 (Z.leb_le 1 id)), (proj2 (Z.leb_le id _)) in H by lia. cbn [andb] in H. destruct H as (now & tx & Hg & Hs & Hr).
  destruct (index_back now tx Hs) as [t Ht]. unfold loadFullRow in *. cbn [mbind option_bind] in *. rewrite Hg. cbn [qm_get] in Ht. rewrite klt_irrefl in Ht.
  eexists. split; [exact Ht|]. rewrite Hr. done.
Qed.

(** ** Reading the file *)

Definition written (es : list (Transaction * list (qstr * json))) : bytes := concat (map (fun e => entry_line (fst e) (snd e)) es).
Definition entry_ok (e : Transaction * list (qstr * json)) : Prop := storable (fst e) /\ note_ok (snd e).
Definition rows_of_file (es : list (Transaction * list (qstr * json))) : list Transaction := map (fun e => stored (fst e)) es.

Lemma stream_lines now es : Forall entry_ok es -> forall s out rows, h_nextRowId s = zlen rows + 1 -> index_holds (h_index s) rows ->
  let r := fold_left (fun st line => stream_line now line st) (map (fun e => json_compact (JObject (entryToJson (fst e) (snd e)))) es) (s, out) in
  snd r = out ++ map EntryLoaded (rows_of_file es) /\ h_nextRowId (fst r) = zlen (rows ++ rows_of_file es) + 1 /\
  index_holds (h_index (fst r)) (rows ++ rows_of_file es) /\
  h_dir (fst r) = h_dir s /\ h_isOpen (fst r) = h_isOpen s /\ h_meta (fst r) = h_meta s /\ (h_index s = None <-> h_index (fst r) = None).
Proof.
  induction 1 as [|[tx note] es [Hs Hn] _ IH]; intros s out rows Hx Hi; cbn [map fold_left rows_of_file fst snd]; [rewrite !app_nil_r; split_and!; done|].
  cbv zeta. assert (E : exists s', stream_line now (json_compact (JObject (entryToJson tx note))) (s, out) = (s', out ++ [EntryLoaded (stored tx)]) /\
    h_nextRowId s' = h_nextRowId s + 1 /\ h_index s' = index_append now (h_nextRowId s) (stored tx) (h_index s) /\ h_dir s' = h_dir s /\ h_isOpen s' = h_isOpen s /\ h_meta s' = h_meta s).
  { unfold stream_line. rewrite law_json_text by (done || by apply entry_json_plain). rewrite transaction_back by done. eexists. split; [reflexivity|]. done. }
  destruct E as (s' & -> & E1 & E2 & E3 & E4 & E5). destruct (IH s' (out ++ [EntryLoaded (stored tx)]) (rows ++ [stored tx])) as (H1 & H2 & H3 & H4 & H5 & H6 & H7).
  - rewrite E1, Hx. unfold zlen. rewrite length_app. cbn [length]. lia.
  - rewrite E2, Hx. exact (index_holds_append now (stored tx) _ _ (stored_storable _ Hs) Hi).
  - rewrite <- app_assoc in H1. rewrite <- app_assoc in H2. rewrite <- app_assoc in H3. split_and!; [exact H1|exact H2|exact H3|congruence..|].
    rewrite <- H7, E2. by destruct (h_index s).
Qed.

(** ** The table along the way *)

Lemma add_window tx m m' log : window m log -> addResponse tx m = Some m' -> window m' (log ++ [tx]).
Proof.
  intros Hw H. apply (exec_window (mkTables m emptySites) (Add tx) (mkTables m' (t_sites (default (mkTables m' emptySites) (exec (mkTables m emptySites) (Add tx))))) log Hw).
  unfold addResponse in H. cbn [exec t_model]. destruct (append_row tx m); [|done]. injection H as <-. done.
Qed.
Lemma clear_window m log : window m log -> window (ProxyModel.clear m) [].
Proof. intros Hw. exact (exec_window (mkTables m emptySites) Clear (mkTables (ProxyModel.clear m) emptySites) log Hw eq_refl). Qed.
Lemma set_max_window n m log : window m log -> window (setMaxRowsInMemory n m) log.
Proof. intros Hw. exact (exec_window (mkTables m emptySites) (SetMax n) (mkTables (setMaxRowsInMemory n m) emptySites) log Hw eq_refl). Qed.

Lemma on_all_cons e out m : on_all (e :: out) m = on_emitted e m ≫= on_all out.
Proof.
  unfold on_all. cbn [foldl mbind option_bind]. destruct (on_emitted e m); [done|]. cbn [mbind option_bind]. by induction out.
Qed.
Lemma on_all_window out m m' log : window m log -> on_all out m = Some m' -> exists log', window m' log'.
Proof.
  revert m log. induction out as [|e out IH]; intros m log Hw H; [injection H as <-; by exists log|]. rewrite on_all_cons in H.
  destruct (on_emitted e m) as [m1|] eqn:E; [|done]. cbn [mbind option_bind] in H. destruct e as [| |tx|]; cbn [on_emitted] in E.
  - injection E as <-. by apply (IH _ [] (clear_window m log Hw)).
  - injection E as <-. by apply (IH _ [] (clear_window m log Hw)).
  - by apply (IH _ _ (add_window tx m m1 log Hw E)).
  - injection E as <-. by apply (IH _ log Hw).
Qed.
Lemma on_loaded_window rows m m' log : window m log -> on_all (map EntryLoaded rows) m = Some m' -> window m' (log ++ rows).
Proof.
  revert m log. induction rows as [|tx rows IH]; intros m log Hw H; cbn [map] in H; [injection H as <-; by rewrite app_nil_r|]. rewrite on_all_cons in H.
  cbn [on_emitted] in H. destruct (addResponse tx m) as [m1|] eqn:E; [|done]. cbn [mbind option_bind] in H.
  specialize (IH m1 (log ++ [tx]) (add_window tx m m1 log Hw E) H). by rewrite <- app_assoc in IH.
Qed.

(** ** One identifier *)

(** What the steps meet: rows JSON can carry, archives that can be moved back. *)
Definition step_ok (a : Step) : Prop :=
  match a with
  | Append _ _ tx => storable tx
  | ImportEntry _ _ tx note => storable tx /\ note_ok note
  | ClearHistory io => ci_restored io = true
  | _ => True
  end.

(** The slots of captured rows reach table and store in one order, and every row is
    written: [q] are the rows the table shows and the store has still to append.  No
    import, switch or clear comes between the two slots of a row. *)
Inductive slot : Step -> list Transaction -> list Transaction -> Prop :=
| slot_show tx q : slot (Show tx) q (q ++ [tx])
| slot_append now tx q : slot (Append true now tx) (tx :: q) q
| slot_import writes now tx note : slot (ImportEntry writes now tx note) [] []
| slot_open io dir : slot (Open io dir) [] []
| slot_clear io : slot (ClearHistory io) [] []
| slot_annotate w now id patch q : slot (Annotate w now id patch) q q
| slot_edit w now edit q : slot (EditMeta w now edit) q q
| slot_resize n q : slot (SetMaxRows n) q q.
Inductive in_order : list Step -> list Transaction -> Prop :=
| in_order_nil : in_order [] []
| in_order_step steps a q q' : in_order steps q -> slot a q q' -> in_order (steps ++ [a]) q'.

Definition clean (content : bytes) : Prop := exists es, Forall entry_ok es /\ content = written es.
(** The file and the index hold the rows [kept] and the table those it was shown: the same,
    with the rows still to append behind them, whenever [R] knows these. *)
Definition in_step (R : list Transaction -> Prop) (m : ProxyModel) (s : Store) (content : bytes) : Prop :=
  exists es shown kept, Forall entry_ok es /\ content = written es /\ h_nextRowId s = zlen es + 1 /\
    window m shown /\ map stored kept = rows_of_file es /\ index_holds (h_index s) (rows_of_file es) /\
    (forall q, R q -> shown = kept ++ q).
Definition agree (R : list Transaction -> Prop) (p : Project) : Prop :=
  (exists log, window (pr_model p) log) /\ (forall dir, clean (f_history (files_of p dir))) /\
  (h_isOpen (pr_store p) = true -> in_step R (pr_model p) (pr_store p) (f_history (files_of p (h_dir (pr_store p))))).
(** What is still to append after a step. *)
Definition after (a : Step) (R : list Transaction -> Prop) (q' : list Transaction) : Prop := exists q, R q /\ slot a q q'.

Lemma written_snoc es tx note : written (es ++ [(tx, note)]) = written es ++ entry_line tx note.
Proof. unfold written. rewrite map_app, concat_app. cbn. by rewrite app_nil_r. Qed.

(** A row behind the rows of the file. *)
Lemma append_rows now tx note s f es kept : Forall entry_ok es -> f_history f = written es -> h_nextRowId s = zlen es + 1 ->
  map stored kept = rows_of_file es -> index_holds (h_index s) (rows_of_file es) -> h_isOpen s = true -> storable tx -> note_ok note ->
  let '(s', f', _) := appendAnnotatedEntry true now tx note s f in
  let es' := es ++ [(tx, note)] in
  Forall entry_ok es' /\ f_history f' = written es' /\ h_nextRowId s' = zlen es' + 1 /\
    map stored (kept ++ [tx]) = rows_of_file es' /\ index_holds (h_index s') (rows_of_file es').
Proof.
  intros Hes Hc Hn Hl Hi Ho Hs Hno. unfold appendAnnotatedEntry. rewrite Ho. cbn [negb f_history]. cbv zeta. split_and!.
  - apply Forall_app. split; [done|]. by apply Forall_singleton.
  - by rewrite Hc, written_snoc.
  - cbn [h_nextRowId]. rewrite Hn. unfold zlen. rewrite length_app. cbn [length]. lia.
  - unfold rows_of_file in *. by rewrite !map_app, Hl.
  - cbn [h_index]. unfold rows_of_file in *. rewrite map_app. cbn [map fst]. rewrite Hn. replace (zlen es) with (zlen (map (fun e => stored (fst e)) es)) by (unfold zlen; by rewrite length_map).
    by apply index_holds_append.
Qed.

Lemma append_clean writes now tx note s f : clean (f_history f) -> storable tx -> note_ok note ->
  let '(s', f', _) := appendAnnotatedEntry writes now tx note s f in clean (f_history f').
Proof.
  intros (es & Hes & Hc) Hs Hn. unfold appendAnnotatedEntry. destruct (negb (h_isOpen s)); [by exists es|]. destruct (negb writes); [by exists es|].
  exists (es ++ [(tx, note)]). split; [apply Forall_app; split; [done|by apply Forall_singleton]|]. cbn [f_history]. by rewrite Hc, written_snoc.
Qed.

Lemma files_put m dir s f p dir' : files_of (put m dir s f p) dir' = if decide (dir' = dir) then f else files_of p dir'.
Proof.
  unfold files_of, put. cbn [pr_disk]. destruct (decide (dir' = dir)) as [->|Hne]; [by rewrite lookup_insert_eq|by rewrite lookup_insert_ne by done].
Qed.

(** The fields an append or a note leaves alone. *)
Lemma append_dir writes now tx note s f : let '(s', f', ok) := appendAnnotatedEntry writes now tx note s f in
  h_dir s' = h_dir s /\ h_isOpen s' = h_isOpen s /\ (ok = true <-> h_isOpen s = true /\ writes = true) /\ (ok = false -> h_nextRowId s' = h_nextRowId s /\ h_index s' = h_index s /\ f' = f).
Proof. unfold appendAnnotatedEntry. destruct (h_isOpen s) eqn:E, writes; cbn; rewrite ?E; split_and!; try done; naive_solver. Qed.
Lemma annotate_frame w now id patch s f : let '(s', f', _) := annotateHistory w now id patch s f in
  h_dir s' = h_dir s /\ h_isOpen s' = h_isOpen s /\ h_nextRowId s' = h_nextRowId s /\ h_index s' = h_index s /\ f_history f' = f_history f.
Proof.
  unfold annotateHistory. cbv zeta. destruct (negb (is_nil _)); [done|]. destruct (_ || _); [done|]. destruct (is_nil patch); [done|].
  destruct (too_large _ || _); [done|]. unfold saveMetadata. destruct w; done.
Qed.

Lemma agree_put R m dir s f p : (exists log, window m log) -> (forall d, clean (f_history (files_of p d))) -> clean (f_history f) ->
  (h_isOpen s = true -> h_dir s = dir /\ in_step R m s (f_history f)) -> agree R (put m dir s f p).
Proof.
  intros Hw Hc Hf Hs. split_and!; [done| |].
  - intros d. rewrite files_put. destruct (decide _); [done|apply Hc].
  - cbn [pr_store pr_model put]. intros Ho. destruct (Hs Ho) as [Hd Hi]. rewrite files_put, decide_True by done. exact Hi.
Qed.

(** What only changes the store's messages and metadata. *)
Definition same_rows (s s' : Store) : Prop := h_dir s' = h_dir s /\ h_isOpen s' = h_isOpen s /\ h_nextRowId s' = h_nextRowId s /\ h_index s' = h_index s.
Lemma in_step_same R R' m s s' c : (forall q, R' q -> R q) -> same_rows s s' -> in_step R m s c -> in_step R' m s' c.
Proof.
  intros HR (_ & _ & E1 & E2) (es & shown & kept & H1 & H2 & H3 & H4 & H5 & H6 & H7). exists es, shown, kept. rewrite E1, E2. split_and!; auto.
Qed.

Lemma agree_same R R' dir s' f' p : (forall q, R' q -> R q) -> agree R p -> same_rows (pr_store p) s' -> f_history f' = f_history (files_of p dir) ->
  agree R' (put (pr_model p) dir s' f' p).
Proof.
  intros HR (Hw & Hc & Hs) He Hf. pose proof He as (E1 & E2 & _). split_and!; [done| |].
  - intros d. rewrite files_put. destruct (decide _) as [->|]; [rewrite Hf|]; apply Hc.
  - cbn [pr_store pr_model put]. rewrite E2. intros Ho. apply (in_step_same _ _ _ _ _ _ HR He). rewrite files_put, E1.
    destruct (decide _) as [E|]; [rewrite Hf, <- E|]; by apply Hs.
Qed.

Lemma stored_rows es : map stored (rows_of_file es) = rows_of_file es.
Proof. unfold rows_of_file. rewrite map_map. by apply map_ext. Qed.

Lemma stream_clean now es s : Forall entry_ok es -> h_nextRowId s = 1 -> index_holds (h_index s) [] ->
  let r := streamExistingHistory now (written es) s in
  snd r = map EntryLoaded (rows_of_file es) /\ h_nextRowId (fst r) = zlen es + 1 /\ index_holds (h_index (fst r)) (rows_of_file es) /\
  h_dir (fst r) = h_dir s /\ h_isOpen (fst r) = h_isOpen s.
Proof.
  intros Hes Hn Hi. unfold streamExistingHistory, written. rewrite text_lines_written by done.
  destruct (stream_lines now es Hes s [] [] Hn Hi) as (H1 & H2 & H3 & H4 & H5 & _ & _). cbv zeta. rewrite H1, H2, H4, H5. split_and!; try done.
  unfold rows_of_file, zlen. cbn [app]. by rewrite length_map.
Qed.

Lemma index_holds_nil ix : ix = None \/ ix = Some [] -> index_holds ix [].
Proof.
  intros [->| ->]; [done|]. intros id. destruct ((1 <=? id) && (id <=? zlen ([] : list Transaction))) eqn:E; [|done].
  apply andb_true_iff in E as [E1 E2]. to_prop. unfold zlen in E2. cbn in E2. lia.
Qed.

(** Opening: whatever was open, the table ends with the rows of the file. *)
Lemma open_agree R io dir p p' : agree R p -> step p (Open io dir) = Some p' -> agree (after (Open io dir) R) p'.
Proof.
  intros Hp H. pose proof Hp as ([log Hw] & Hc & Hs). cbn [step] in H. unfold open in H. destruct (oi_refused io) as [e|].
  { cbn in H. injection H as <-. apply (agree_same R); [|done..]. intros q' (q & Hq & Hsl). by inversion Hsl; subst. }
  destruct (ensureMetadata _ _ _ _ _) as [[file meta] ok]. destruct ok; cbn [negb] in H.
  2: { destruct (on_all _ _) as [m|] eqn:Ea; [|done]. injection H as <-. apply agree_put; [by apply (on_all_window _ _ _ _ Hw Ea)|done|apply Hc|done]. }
  destruct (if is_nil (p_historyEpoch meta) then _ else _) as [file2 meta2].
  destruct (Hc dir) as (es & Hes & Hf). rewrite Hf in H.
  match type of H with context [streamExistingHistory ?n _ ?s0] => destruct (stream_clean n es s0 Hes eq_refl) as (H1 & H2 & H3 & H4 & H5); [apply index_holds_nil; cbn [h_index]; destruct (oi_index io); [by right|by left]|];
    destruct (streamExistingHistory n (written es) s0) as [s1 loaded] end.
  cbn [fst snd h_dir h_isOpen] in H1, H2, H3, H4, H5. subst loaded. destruct (oi_history io).
  - destruct (on_all _ _) as [m|] eqn:Ea; [|done]. injection H as <-. rewrite on_all_cons in Ea. cbn [on_emitted mbind option_bind] in Ea.
    pose proof (on_loaded_window _ _ _ [] (clear_window _ _ Hw) Ea) as Hm. cbn [app] in Hm.
    apply agree_put; [by eexists|done|by exists es|]. cbn [h_dir h_isOpen f_history]. intros _. split; [done|].
    exists es, (rows_of_file es), (rows_of_file es). split_and!; try done; [apply stored_rows|].
    intros q' (q & Hq & Hsl). inversion Hsl; subst. by rewrite app_nil_r.
  - destruct (on_all _ _) as [m|] eqn:Ea; [|done]. injection H as <-. apply agree_put; [by apply (on_all_window _ _ _ _ Hw Ea)|done|by exists es|].
    rewrite H5. done.
Qed.

Lemma clear_agree R io p p' : ci_restored io = true -> agree R p -> step p (ClearHistory io) = Some p' -> agree (after (ClearHistory io) R) p'.
Proof.
  intros Hr Hp H. pose proof Hp as ([log Hw] & Hc & Hs). cbn [step] in H. unfold clearHistory in H.
  assert (HR : forall q, after (ClearHistory io) R q -> R q) by (intros q' (q & Hq & Hsl); by inversion Hsl; subst).
  destruct (h_isOpen (pr_store p)) eqn:Ho; cbn [negb orb] in H.
  2: { injection H as <-. by apply (agree_same R). }
  destruct (ci_refused io) as [e|]; [cbn in H; injection H as <-; by apply (agree_same R)|].
    specialize (Hs eq_refl). set (s := pr_store p) in *. set (f := files_of p (h_dir s)) in *. rewrite Hr in H.
  assert (HB : forall s' f', h_dir s' = h_dir s -> h_nextRowId s' = h_nextRowId s -> h_index s' = h_index s -> f_history f' = f_history f -> agree (after (ClearHistory io) R) (put (pr_model p) (h_dir s) s' f' p)).
  { intros s' f' E1 E2 E3 E4. apply agree_put; [by exists log|done|rewrite E4; apply Hc|]. intros _. split; [done|]. rewrite E4.
    destruct Hs as (es & shown & kept & K1 & K2 & K3 & K4 & K5 & K6 & K7). exists es, shown, kept. rewrite E2, E3. split_and!; auto. }
  destruct (ci_moved io); cbn [negb orb] in H; [|injection H as <-; by apply HB].
  destruct (ci_findings io); cbn [negb orb] in H; [|injection H as <-; by apply HB].
  destruct (ci_opened io); cbn [negb orb] in H; [|injection H as <-; by apply HB].
  unfold saveMetadata in H. destruct (ci_saved io); cbn [negb orb] in H; [|injection H as <-; by apply HB].
  destruct (ci_index io); cbn [negb orb] in H.
  - cbn [on_all foldl mbind option_bind on_emitted] in H. injection H as <-. apply agree_put; [exists []; by apply (clear_window _ log)|done|by exists []|].
    intros _. split; [done|]. exists [], [], []. split_and!; try done; [by apply (clear_window _ log)| |].
    + apply index_holds_nil. cbn [h_index]. destruct (h_index s); [by right|by left].
    + intros q' (q & Hq & Hsl). by inversion Hsl; subst.
  - destruct (ci_resaved io); cbn in H; injection H as <-; by apply HB.
Qed.

Lemma step_agree R p a p' : step_ok a -> agree R p -> step p a = Some p' -> agree (after a R) p'.
Proof.
  intros Hok Hp H. pose proof Hp as ([log Hw] & Hc & Hs). destruct a as [tx|writes now tx|writes now tx note|w now id patch|w now e|io dir|io|n]; cbn [step_ok] in Hok.
  - cbn [step] in H. destruct (addResponse tx (pr_model p)) as [m|] eqn:Ea; [|done]. injection H as <-.
    split_and!; [exists (log ++ [tx]); by apply (add_window tx (pr_model p))|done|]. cbn [pr_store pr_model]. intros Ho.
    destruct (Hs Ho) as (es & shown & kept & K1 & K2 & K3 & K4 & K5 & K6 & K7). exists es, (shown ++ [tx]), kept.
    split_and!; try done; [by apply (add_window tx (pr_model p))|]. intros q' (q & Hq & Hsl). inversion Hsl; subst. by rewrite (K7 q Hq), app_assoc.
  - cbn [step] in H. set (f := files_of p (h_dir (pr_store p))) in *.
    pose proof (append_dir writes now tx [] (pr_store p) f) as Hd.
    pose proof (append_clean writes now tx [] (pr_store p) _ (Hc (h_dir (pr_store p))) Hok eq_refl) as Hcl. fold f in Hcl.
    pose proof (fun es kept => append_rows now tx [] (pr_store p) f es kept) as Hin.
    destruct (appendAnnotatedEntry writes now tx [] _ _) as [[s' f'] ok] eqn:Eap. injection H as <-. destruct Hd as (E1 & E2 & E3 & E4).
    apply agree_put; [by exists log|done|done|]. rewrite E2. intros Ho. split; [done|].
    destruct (Hs Ho) as (es & shown & kept & K1 & K2 & K3 & K4 & K5 & K6 & K7). destruct writes.
    + specialize (Hin es kept). rewrite Eap in Hin. destruct Hin as (J1 & J2 & J3 & J4 & J5); try done.
      exists (es ++ [(tx, [])]), shown, (kept ++ [tx]). split_and!; try done.
      intros q' (q & Hq & Hsl). inversion Hsl; subst. rewrite (K7 _ Hq). by rewrite <- app_assoc.
    + destruct ok; [by destruct (proj1 E3 eq_refl)|]. destruct (E4 eq_refl) as (E5 & E6 & ->). exists es, shown, kept. rewrite E5, E6. split_and!; try done.
      intros q' (q & Hq & Hsl). inversion Hsl.
  - destruct Hok as [Hst Hno]. cbn [step] in H. set (f := files_of p (h_dir (pr_store p))) in *.
    pose proof (append_dir writes now tx note (pr_store p) f) as Hd.
    pose proof (append_clean writes now tx note (pr_store p) _ (Hc (h_dir (pr_store p))) Hst Hno) as Hcl. fold f in Hcl.
    pose proof (fun es kept => append_rows now tx note (pr_store p) f es kept) as Hin.
    destruct (appendAnnotatedEntry writes now tx note _ _) as [[s' f'] ok] eqn:Eap. destruct Hd as (E1 & E2 & E3 & E4). destruct ok.
    + destruct (addResponse tx (pr_model p)) as [m|] eqn:Ea; [|done]. injection H as <-. destruct (proj1 E3 eq_refl) as [Ho ->].
      apply agree_put; [exists (log ++ [tx]); by apply (add_window tx (pr_model p))|done|done|]. intros _. split; [done|].
      destruct (Hs Ho) as (es & shown & kept & K1 & K2 & K3 & K4 & K5 & K6 & K7).
      specialize (Hin es kept). rewrite Eap in Hin. destruct Hin as (J1 & J2 & J3 & J4 & J5); try done.
      exists (es ++ [(tx, note)]), (shown ++ [tx]), (kept ++ [tx]). split_and!; try done; [by apply (add_window tx (pr_model p))|].
      intros q' (q & Hq & Hsl). inversion Hsl; subst. rewrite (K7 _ Hq). by rewrite !app_nil_r.
    + injection H as <-. destruct (E4 eq_refl) as (E5 & E6 & ->). apply agree_put; [by exists log|done|done|]. rewrite E2. intros Ho. split; [done|].
      apply (in_step_same R _ _ (pr_store p)); [|by split_and!|by apply Hs]. intros q' (q & Hq & Hsl). by inversion Hsl; subst.
  - cbn [step] in H. pose proof (annotate_frame w now id patch (pr_store p) (files_of p (h_dir (pr_store p)))) as Hd.
    destruct (annotateHistory _ _ _ _ _ _) as [[s' f'] ok]. injection H as <-. destruct Hd as (E1 & E2 & E3 & E4 & E5).
    apply (agree_same R); [|done|by split_and!|done]. intros q' (q & Hq & Hsl). by inversion Hsl; subst.
  - cbn [step] in H. destruct (e _) as [meta signals]. destruct (if existsb is_saved signals && _ then _ else _) as [[file meta'] ok] eqn:E.
    injection H as <-. apply (agree_same R); [|done..]. intros q' (q & Hq & Hsl). by inversion Hsl; subst.
  - by apply (open_agree R io dir p).
  - by apply (clear_agree R io p).
  - injection H as <-. split_and!; [exists log; by apply set_max_window|done|]. cbn [pr_store pr_model]. intros Ho.
    destruct (Hs Ho) as (es & shown & kept & K1 & K2 & K3 & K4 & K5 & K6 & K7). exists es, shown, kept. split_and!; try done; [by apply set_max_window|].
    intros q' (q & Hq & Hsl). inversion Hsl; subst. by apply K7.
Qed.

Lemma in_step_weaken (R R' : list Transaction -> Prop) p : (forall q, R' q -> R q) -> agree R p -> agree R' p.
Proof.
  intros HR (Hw & Hc & Hs). split_and!; [done..|]. intros Ho. by apply (in_step_same R _ _ (pr_store p)); [|split_and!|apply Hs].
Qed.

Lemma run_agree steps p : Forall step_ok steps -> run_steps steps newProject = Some p -> agree (in_order steps) p.
Proof.
  revert p. induction steps as [|a steps IH] using rev_ind; intros p Hok H.
  - injection H as <-. split_and!; [|intros d; unfold files_of, newProject; cbn; rewrite lookup_empty; by exists []|done].
    exists []. exact (run_window [] newTables eq_refl).
  - unfold run_steps in H. rewrite foldl_app in H. cbn [foldl] in H. fold (run_steps steps newProject) in H.
    destruct (run_steps steps newProject) as [p0|] eqn:E; [|done]. cbn [mbind option_bind] in H. apply Forall_app in Hok as [Hok Ha]. rewrite Forall_singleton in Ha.
    apply (in_step_weaken (after a (in_order steps))); [|apply (step_agree _ p0 a p Ha); [by apply IH|done]].
    intros q' Hq. inversion Hq as [E'|steps' a' q q'' H1 H2 E']; [by destruct steps|]. apply app_inj_tail in E' as [-> ->]. by exists q.
Qed.

(** C25. A row has one identifier.  While a project is open, whatever captures, imports,
    notes, edits, clears, resizings and switches went before: row n of the table is the
    n-th transaction it was shown, as long as it is in the window; and row n of the file,
    as it would be read again, and of the index are one transaction, but for what a line
    does not keep (its time, the encryption of the client's leg and the decoded body).
    If moreover the two slots of every captured row came in one order -- with no import,
    clear or switch between them -- and its row could be written, then the table was shown
    the rows of the file and behind them those still to append, so that an
    identifier means the same row in all three, and a row that left the window is found
    in the index.  Slots that cross, or a row that is not written, break this
    ([crossed_slots_swap_ids], [failed_append_shifts_ids]). *)
Theorem history_ids_agree steps p now : Forall step_ok steps -> run_steps steps newProject = Some p -> h_isOpen (pr_store p) = true ->
  let s := pr_store p in let m := pr_model p in
  exists shown kept : list Transaction,
    lastId m = zlen shown /\ h_nextRowId s = zlen kept + 1 /\
    (forall id, 1 <= id <= zlen shown -> exists tx, shown !! Z.to_nat (id - 1) = Some tx /\
      requestById m id = (if m_firstId m <=? id then Some (tx_request tx) else None)) /\
    snd (streamExistingHistory now (f_history (files_of p (h_dir s))) newStore) = map (fun tx => EntryLoaded (stored tx)) kept /\
    (h_index s <> None -> forall id, 1 <= id <= zlen kept -> exists tx found, kept !! Z.to_nat (id - 1) = Some tx /\
      loadFullRow (h_index s) id = Some found /\ stored found = stored tx) /\
    (forall waiting, in_order steps waiting -> shown = kept ++ waiting /\
      (h_index s <> None -> forall id, 1 <= id <= zlen kept -> exists tx found r, kept !! Z.to_nat (id - 1) = Some tx /\
        loadFullRow (h_index s) id = Some found /\ history_row p id = Some r /\ (r = tx_request tx \/ r = tx_request found))).
Proof.
  intros Hok H Ho s m. destruct (run_agree steps p Hok H) as (_ & _ & Hs). destruct (Hs Ho) as (es & shown & kept & Hes & Hc & Hn & Hw & Hl & Hi & Hq).
  fold s m in Hn, Hw, Hi, Hc. exists shown, kept.
  assert (Hrl : zlen (rows_of_file es) = zlen es) by (unfold rows_of_file, zlen; by rewrite length_map).
  assert (Hlen : zlen kept = zlen es) by (rewrite <- Hrl, <- Hl; unfold zlen; by rewrite length_map).
  assert (Hrow : forall id, 1 <= id <= zlen shown -> exists tx, shown !! Z.to_nat (id - 1) = Some tx /\
    requestById m id = (if m_firstId m <=? id then Some (tx_request tx) else None)).
  { intros id Hid. destruct (window_id m shown id Hw) as [(Hf & tx & Ht & Hr & He)|[Hf Hr]].
    - exists tx. split; [done|]. unfold requestById. rewrite Hr. cbn [mbind option_bind]. unfold requestAt. rewrite He. by rewrite (proj2 (Z.leb_le _ _)) by lia.
    - destruct (lookup_lt_is_Some_2 shown (Z.to_nat (id - 1))) as [tx Ht]; [unfold zlen in *; lia|]. exists tx. split; [done|]. unfold requestById. rewrite Hr.
      rewrite (proj2 (Z.leb_gt _ _)) by lia. done. }
  assert (Hix : h_index s <> None -> forall id, 1 <= id <= zlen kept -> exists tx found, kept !! Z.to_nat (id - 1) = Some tx /\
      loadFullRow (h_index s) id = Some found /\ stored found = stored tx).
  { intros Hx id Hid. destruct (h_index s) as [ix|]; [|done]. destruct (index_row_back ix (rows_of_file es) id Hi ltac:(lia)) as (found & Hf & Hfr).
    rewrite <- Hl, list_lookup_fmap in Hfr. destruct (kept !! Z.to_nat (id - 1)) as [tx|]; [|done]. exists tx, found.
    cbn [fmap option_fmap option_map] in Hfr. injection Hfr as Hfr1 Hfr2 Hfr3 Hfr4 Hfr5 Hfr6 Hfr7. split_and!; [done..|]. unfold stored. congruence. }
  pose proof (window_rows m shown Hw) as Hr. split_and!; [unfold lastId; lia|lia|done| |done|].
  - rewrite Hc. destruct (stream_clean now es newStore Hes eq_refl (index_holds_nil None (or_introl eq_refl))) as (-> & _). by rewrite <- Hl, map_map.
  - intros waiting Hin. pose proof (Hq waiting Hin) as E. split; [done|]. intros Hx id Hid. destruct (Hix Hx id Hid) as (tx & found & Ht & Hf & _).
    exists tx, found. unfold history_row. fold m s. destruct (Hrow id) as (tx' & Ht' & ->).
    { rewrite E. unfold zlen in *. rewrite length_app. lia. }
    rewrite E, (lookup_app_l_Some _ _ _ _ Ht) in Ht'. injection Ht' as <-. rewrite Hf.
    destruct (m_firstId m <=? id); cbn [fmap option_fmap option_map]; eexists; split_and!; try done; [by left|by right].
Qed.

(** ** Notes *)

Lemma overlay_get notes : forall archive k, qm_sorted notes -> qm_sorted archive -> Forall (fun e => snd e <> JUndefined) notes ->
  qm_get k (overlay notes archive) = match qm_get k notes with Some JNull => None | Some v => Some v | None => qm_get k archive end.
Proof.
  induction notes as [|[k0 v0] notes IH]; intros archive k Hs Ha Hu; [done|]. destruct Hs as [Hab Hs]. apply Forall_cons in Hu as [Hv Hu]. cbn [snd] in Hv.
  change (overlay ((k0, v0) :: notes) archive) with (overlay notes (overlay_one archive (k0, v0))). set (archive' := overlay_one archive (k0, v0)).
  assert (Ha' : qm_sorted archive') by (unfold archive', overlay_one; cbn [fst snd]; destruct v0; (by apply qm_remove_sorted) || by apply insert_sorted).
  rewrite IH by done. destruct (decide (k = k0)) as [->|Hne].
  - rewrite qm_get_above by done. cbn [qm_get]. rewrite klt_irrefl. unfold archive', overlay_one. cbn [fst snd]. destruct v0; cbn [insert]; rewrite ?qm_get_insert by done; try done. by apply qm_get_remove.
  - assert (E1 : qm_get k ((k0, v0) :: notes) = qm_get k notes).
    { cbn [qm_get]. destruct (klt k0 k) eqn:E1; [done|]. destruct (klt k k0) eqn:E2; [|by destruct Hne; symmetry; apply klt_total].
      symmetry. apply qm_get_above. by apply (above_trans k k0). }
    assert (E2 : qm_get k archive' = qm_get k archive).
    { unfold archive', overlay_one. cbn [fst snd]. destruct v0; cbn [insert]; try done; by (rewrite qm_get_remove_ne || rewrite qm_get_insert_ne). }
    by rewrite E1, E2.
Qed.

Definition notes_ok (s : Store) : Prop :=
  qm_sorted (p_historyAnnotations (h_meta s)) /\ qm_sorted (h_archive s) /\ Forall (fun e => snd e <> JUndefined) (p_historyAnnotations (h_meta s)).

Lemma insert_get k k' v o : v <> JUndefined -> qm_get k (insert k' v o) = if decide (k = k') then Some v else qm_get k o.
Proof.
  intros Hv. assert (E : insert k' v o = qm_insert k' v o) by (by destruct v). rewrite E. destruct (decide (k = k')) as [->|Hne]; [by rewrite qm_get_insert|by rewrite qm_get_insert_ne].
Qed.

Lemma defined_insert k v o : v <> JUndefined -> Forall (fun e : qstr * json => snd e <> JUndefined) o -> Forall (fun e => snd e <> JUndefined) (insert k v o).
Proof.
  intros Hv Ho. apply List.Forall_forall. intros e He. apply insert_members in He as [->|He]; [done|]. rewrite List.Forall_forall in Ho. by apply Ho.
Qed.
Lemma defined_remove k o : Forall (fun e : qstr * json => snd e <> JUndefined) o -> Forall (fun e => snd e <> JUndefined) (qm_remove k o).
Proof.
  induction 1 as [|[k' v'] o Hv Ho IH]; [constructor|]. cbn [qm_remove]. repeat case_match; [by constructor|by constructor|done].
Qed.
Lemma key_get_remove (k k' : qstr) (o : list (qstr * json)) : qm_sorted o -> qm_get k (qm_remove k' o) = if decide (k = k') then None else qm_get k o.
Proof. intros Ho. destruct (decide (k = k')) as [->|Hne]; [by apply qm_get_remove|by apply qm_get_remove_ne]. Qed.

(** A note stays with its row.  When [annotateHistory] reports success, the row has
    its former note with the given fields replaced -- or none, when colour and comment
    are both empty then -- every other row has the note it had, the notes are saved within
    their limit; when it reports a failure nothing is noted and nothing is saved. *)
Theorem annotate_exact writable now id patch s f :
  notes_ok s ->
  let '(s', f', ok) := annotateHistory writable now id patch s f in
  let key := row_key id in
  let note := patched (toObject (value (historyAnnotations s) key)) patch in
  if ok then
    1 <= id < h_nextRowId s /\ annotationError patch = [] /\ notes_ok s' /\
    qm_get key (historyAnnotations s') =
      (if is_nil (toString (value note (lit "color"))) && is_nil (toString (value note (lit "comment"))) then None else Some (JObject note)) /\
    (forall k, k <> key -> qm_get k (historyAnnotations s') = qm_get k (historyAnnotations s)) /\
    zlen (json_compact (JObject (historyAnnotations s'))) <= kMaxAnnotationsBytes /\
    f_history f' = f_history f /\ f_meta f' = Some (json_indented (JObject (metaToJson now (h_meta s'))))
  else historyAnnotations s' = historyAnnotations s /\ f' = f.
Proof.
  intros (Hs & Ha & Hu). unfold annotateHistory. cbv zeta. destruct (is_nil (annotationError patch)) eqn:E1; cbn [negb]; [|done]. apply is_nil_true in E1.
  destruct (h_isOpen s) eqn:Eo; cbn [negb orb].
  2: { split; [|done]. unfold historyAnnotations, with_error. cbn [h_isOpen]. by rewrite Eo. }
  assert (HA : forall e, historyAnnotations (with_error e s) = historyAnnotations s) by (intros e; unfold historyAnnotations, with_error; cbn [h_isOpen h_meta h_archive]; done).
  destruct (id <=? 0) eqn:E2; cbn [orb]; [done|]. destruct (h_nextRowId s <=? id) eqn:E3; [done|]. destruct (is_nil patch); [done|].
  set (key := row_key id). set (note := patched _ patch). set (next := if _ && _ then _ else _).
  destruct (too_large next || too_large _) eqn:E4; [done|]. apply orb_false_iff in E4 as [E4 E5]. unfold saveMetadata. destruct writable.
  - assert (HN : qm_sorted next /\ Forall (fun e => snd e <> JUndefined) next).
    { unfold next. repeat case_match; (split; [(by apply insert_sorted) || by apply qm_remove_sorted|(by apply defined_insert) || by apply defined_remove]). }
    destruct HN as [HN1 HN2].
    assert (HE : historyAnnotations (with_error [] (with_meta (set_updated now (h_meta (with_meta (set_historyAnnotations next (h_meta s)) s))) (with_meta (set_historyAnnotations next (h_meta s)) s))) = overlay next (h_archive s)).
    { unfold historyAnnotations, with_error, with_meta. cbn [h_isOpen h_meta h_archive]. by rewrite Eo. }
    assert (HO : historyAnnotations s = overlay (p_historyAnnotations (h_meta s)) (h_archive s)) by (unfold historyAnnotations; by rewrite Eo).
    rewrite HE, HO. split_and!; try done.
    1,2: to_prop; lia.
    + rewrite overlay_get by done. unfold next. destruct (is_nil (toString (value note (lit "color"))) && is_nil (toString (value note (lit "comment")))).
      * destruct (contains (h_archive s) key) eqn:Ec.
        -- by rewrite insert_get, decide_True by done.
        -- rewrite key_get_remove, decide_True by done. unfold contains, qm_has in Ec. by destruct (qm_get key (h_archive s)).
      * by rewrite insert_get, decide_True by done.
    + intros k Hk. rewrite !overlay_get by done.
      assert (E : qm_get k next = qm_get k (p_historyAnnotations (h_meta s))) by (unfold next; repeat case_match; (rewrite insert_get, decide_False by done; done) || (rewrite key_get_remove, decide_False by done; done)).
      by rewrite E.
    + unfold historyAnnotations, with_meta in E5. cbn [h_isOpen h_meta h_archive] in E5. rewrite Eo in E5. unfold too_large in E5. by apply Z.ltb_ge in E5.
  - split; [|done]. unfold historyAnnotations, with_error, with_meta. cbn [h_isOpen h_meta h_archive]. by rewrite Eo.
Qed.
End HistoryStore.

(** ** A concrete text of one line

    Each number of [JsonSample]'s code as its sign and binary digits, between braces. *)

Fixpoint bits (p : positive) : list Z := match p with xH => [] | xO p' => 48 :: bits p' | xI p' => 49 :: bits p' end.
Fixpoint of_bits (l : list Z) : positive := match l with [] => xH | c :: l' => if c =? 48 then xO (of_bits l') else xI (of_bits l') end.
Definition z_text (z : Z) : list Z := match z with Z0 => [48] | Zpos p => 43 :: bits p | Zneg p => 45 :: bits p end.
Definition z_of (t : list Z) : Z := match t with c :: l => if c =? 43 then Zpos (of_bits l) else if c =? 45 then Zneg (of_bits l) else 0 | [] => 0 end.
Definition line_text (v : json) : bytes := 123 :: flat_map (fun z => z_text z ++ [44]) (enc v) ++ [125].
Definition line_parse (t : bytes) : option json :=
  match t with
  | [] => None
  | _ :: r => match dec 512 (map z_of (split_skip 44 (take (length r - 1) r))) with
              | Some ((JArray _ | JObject _) as v, []) => Some v
              | _ => None
              end
  end.
Definition lineJson : QtJson := {| json_parse := line_parse; json_compact := line_text; number_g17 _ := [] |}.

Lemma of_bits_bits p : of_bits (bits p) = p.
Proof. induction p as [p IH|p IH|]; cbn; by rewrite ?IH. Qed.
Lemma z_of_text z : z_of (z_text z) = z.
Proof. destruct z; cbn; by rewrite ?of_bits_bits. Qed.
Lemma bits_chars p c : c ∈ bits p -> c = 48 \/ c = 49.
Proof. induction p as [p IH|p IH|]; cbn [bits]; rewrite ?elem_of_cons, ?elem_of_nil; tauto. Qed.
Lemma z_text_chars z c : c ∈ z_text z -> c = 43 \/ c = 45 \/ c = 48 \/ c = 49.
Proof. destruct z as [|p|p]; cbn [z_text]; rewrite ?elem_of_cons, ?elem_of_nil; intros H; try pose proof (bits_chars p c); naive_solver. Qed.

Lemma split_texts l : split_skip 44 (flat_map (fun z => z_text z ++ [44]) l) = map z_text l.
Proof.
  unfold split_skip. induction l as [|z l IH]; [done|]. cbn [flat_map map]. rewrite <- app_assoc. cbn [app]. rewrite split_on_app.
  - cbn [List.filter]. rewrite IH. by destruct z.
  - intros H. apply z_text_chars in H. lia.
Qed.

Lemma line_back v : json_plain 512 v = true -> match v with JArray _ | JObject _ => True | _ => False end -> line_parse (line_text v) = Some v.
Proof.
  intros Hp Hv. unfold line_text, line_parse. rewrite length_app. cbn [length]. rewrite Nat.add_sub, take_app_length, split_texts, map_map.
  rewrite (map_ext _ (fun z => z)) by apply z_of_text. rewrite map_id, <- (app_nil_r (enc v)), (dec_enc v 512 512 [] Hp) by done. by destruct v.
Qed.
#[export] Instance lineJson_laws : QtJsonLaws lineJson.
Proof. split. exact line_back. Qed.

Lemma line_chars v c : c ∈ line_text v -> is_ascii c = true /\ c <> 10 /\ c <> 13.
Proof.
  unfold line_text. rewrite elem_of_cons, elem_of_app, list_elem_of_In, in_flat_map. intros [->|[(z & _ & Hc)| ->%list_elem_of_singleton]]; [done| |done].
  apply in_app_iff in Hc as [Hc%list_elem_of_In%z_text_chars|[<-|[]]]; [|done]. naive_solver.
Qed.
#[export] Instance lineJson_line : QtJsonLine asciiText lineJson.
Proof.
  assert (HA : forall o, all_ascii (json_compact (QtJson := lineJson) (JObject o)) = true).
  { intros o. apply forallb_forall. intros c Hc%list_elem_of_In. apply line_chars in Hc as [Hc _]. exact Hc. }
  split; intros o _.
  - split; intros H; apply line_chars in H as (_ & H1 & H2); done.
  - rewrite law_fromutf8_ascii, law_toutf8_ascii by apply HA. done.
  - split; [|done]. cbn [json_compact lineJson]. unfold line_text, b_trimmed, trim_by. generalize (flat_map (fun z => z_text z ++ [44]) (enc (JObject o))). intros l.
    cbn [drop_while]. change (b_space 123) with false. cbn iota. change (123 :: l ++ [125]) with ((123 :: l) ++ [125]). rewrite rev_app_distr. cbn [rev app drop_while].
    change (b_space 125) with false. cbn iota. cbn [rev]. rewrite rev_app_distr. cbn [rev app]. by rewrite rev_involutive.
Qed.

(** The codecs with this text. *)
Definition lineCodecs : QtCodecs := {|
  b64_encode := b64_encode (QtCodecs := sampleCodecs); b64_decode := b64_decode (QtCodecs := sampleCodecs);
  b_pct_decode := b_pct_decode (QtCodecs := sampleCodecs); b_hash := b_hash (QtCodecs := sampleCodecs);
  u_toulonglong := u_toulonglong (QtCodecs := sampleCodecs); json_indented := line_text |}.
#[export] Instance lineCodecs_laws : QtCodecsLaws lineCodecs.
Proof. destruct sampleCodecs_laws. split; assumption. Qed.
#[export] Instance lineCodecs_lenient : QtLenientLaws lineCodecs sampleLenient.
Proof. destruct sampleLenient_laws. split; assumption. Qed.
#[export] Instance lineCodecs_indented : QtIndentedLaws lineJson lineCodecs.
Proof. split. exact line_back. Qed.

#[local] Existing Instances asciiText sampleClock lineJson lineCodecs sampleLenient sampleDates.

(** ** Examples *)

Definition sample_io : OpenIo := mkOpenIo None true true true (lit "e") 7 (lit "p").
Definition get (host path : qstr) : Transaction := sample_tx (lit "GET") host path true.
Definition history_steps : list Step :=
  [Open sample_io (lit "p"); Show (get (lit "a") (lit "/1")); Append true 1 (get (lit "a") (lit "/1")); ImportEntry true 2 (get (lit "b") (lit "/2")) (object [(lit "comment", JString (lit "x"))]);
   Annotate true (Some 3) 1 (object [(lit "color", JString (lit "red"))]); EditMeta true (Some 4) (setNotes (lit "n")); Open sample_io (lit "q"); Show (get (lit "c") (lit "/3")); Append true 4 (get (lit "c") (lit "/3"));
   Open sample_io (lit "p"); Show (get (lit "d") (lit "/4")); Show (get (lit "d") (lit "/5")); Append true 5 (get (lit "d") (lit "/4"))].

Lemma get_storable host path : plain_str host = true -> plain_str path = true -> storable (get host path).
Proof.
  intros Hh Hp. unfold storable, get, sample_tx, plain_texts, plain_headers. cbn.
  split_and!; try (by constructor); try lia; try (unfold int_ok, INT_MIN, INT_MAX; lia).
  repeat (apply Forall_cons; split; [first [exact Hh|exact Hp|vm_compute; reflexivity]|]). constructor.
Qed.
Lemma history_steps_ok : Forall step_ok history_steps.
Proof.
  repeat (apply Forall_cons; split; [cbn [step_ok]; try done; try (split; [reflexivity || apply get_storable; vm_compute; reflexivity|]; first [apply get_storable; vm_compute; reflexivity|vm_compute; reflexivity])|]). constructor.
Qed.

Fixpoint slots (l : list Step) (q q' : list Transaction) : Prop :=
  match l with [] => q = q' | a :: l => exists q1, slot a q q1 /\ slots l q1 q' end.
Lemma slots_order l : forall steps q q', in_order steps q -> slots l q q' -> in_order (steps ++ l) q'.
Proof.
  induction l as [|a l IH]; intros steps q q' H; cbn [slots]; [intros <-; by rewrite app_nil_r|]. intros (q1 & H1 & H2).
  change (a :: l) with ([a] ++ l). rewrite app_assoc. apply (IH _ q1); [by eapply in_order_step|done].
Qed.
Lemma history_steps_order : in_order history_steps [get (lit "d") (lit "/5")].
Proof.
  apply (slots_order history_steps [] []); [constructor|]. unfold history_steps. cbn [slots].
  repeat (eexists; split; [constructor|]). reflexivity.
Qed.

Lemma history_ids_agree_witness : exists p, run_steps history_steps newProject = Some p /\ h_isOpen (pr_store p) = true /\
  exists shown kept : list Transaction, lastId (pr_model p) = 4 /\ zlen shown = 4 /\ zlen kept = 3 /\ shown = kept ++ [get (lit "d") (lit "/5")].
Proof.
  destruct (run_steps history_steps newProject) as [p|] eqn:E; [|vm_compute in E; discriminate E]. exists p. split; [reflexivity|].
  assert (Hf : h_isOpen (pr_store p) = true /\ h_nextRowId (pr_store p) = 4 /\ lastId (pr_model p) = 4) by (vm_compute in E; injection E as <-; vm_compute; done).
  destruct Hf as (Ho & Hn & Hm). split; [exact Ho|].
  destruct (history_ids_agree history_steps p 0 history_steps_ok E Ho) as (shown & kept & H1 & H2 & _ & _ & _ & H3). exists shown, kept.
  split_and!; [exact Hm|lia|lia|]. exact (proj1 (H3 _ history_steps_order)).
Defined.

Lemma annotate_exact_witness : exists s f s' f', annotateHistory true (Some 3) 1 (object [(lit "color", JString (lit "red"))]) s f = (s', f', true) /\
  qm_get (row_key 1) (historyAnnotations s') = Some (JObject (object [(lit "color", JString (lit "red"))])).
Proof.
  set (s := mkStore (lit "p") true defaultMeta 2 [] None []). set (f := noFiles).
  destruct (annotateHistory true (Some 3) 1 (object [(lit "color", JString (lit "red"))]) s f) as [[s' f'] ok] eqn:E. exists s, f, s', f'.
  assert (Hok : ok = true) by (vm_compute in E; injection E as _ _ <-; reflexivity). subst ok. split; [exact E|].
  assert (Hn : notes_ok s) by (split_and!; [exact I|exact I|constructor]).
  pose proof (annotate_exact true (Some 3) 1 (object [(lit "color", JString (lit "red"))]) s f Hn) as H. rewrite E in H. destruct H as (_ & _ & _ & H & _). exact H.
Defined.

(** Defect: a row that cannot be appended stays in the table, which numbers on: from then
    on an identifier means one request in the table and another in the file, the index
    and the notes. *)
Example failed_append_shifts_ids :
  (fun p => (rq_path <$> requestById (pr_model p) 2, rq_path ∘ tx_request <$> loadFullRow (h_index (pr_store p)) 1, rq_path ∘ tx_request <$> loadFullRow (h_index (pr_store p)) 2))
    <$> (let lost := get (lit "a") (lit "/lost") in let kept := get (lit "a") (lit "/kept") in
         run_steps [Open sample_io (lit "p"); Show lost; Append false 1 lost; Show kept; Append true 2 kept] newProject)
  = Some (Some (lit "/kept"), Some (lit "/kept"), None).
Proof. vm_compute. reflexivity. Qed.

(** Defect: two workers that signal at once can have their slots posted crossed: the table
    and the store then number the two rows differently. *)
Example crossed_slots_swap_ids :
  let a := get (lit "a") (lit "/a") in let b := get (lit "b") (lit "/b") in
  (fun p => (rq_path <$> requestById (pr_model p) 1, rq_path ∘ tx_request <$> loadFullRow (h_index (pr_store p)) 1))
    <$> run_steps [Open sample_io (lit "p"); Show a; Show b; Append true 1 b; Append true 2 a] newProject
  = Some (Some (lit "/a"), Some (lit "/b")).
Proof. vm_compute. reflexivity. Qed.

(** Defect: an entry appended behind a torn last line goes into that line, and both are
    lost when the file is read again. *)
Example torn_line_swallows_next :
  let tail := take 20 (entry_line (get (lit "a") (lit "/1")) []) in
  let '(s, f, _, _) := open sample_io (lit "p") newStore (mkFiles None tail) in
  let '(s', f', ok) := appendAnnotatedEntry true 1 (get (lit "a") (lit "/2")) [] s f in
  ok = true /\ h_nextRowId s' = 2 /\ snd (streamExistingHistory 2 (f_history f') newStore) = [ErrorOccurred].
Proof. vm_compute. done. Qed.

(** Defect: the time of a row and its decoded body are not read back: the time that is
    written is never read, and a compressed body is shown as it was sent. *)
Example reopened_row_differs :
  let tx := mkTx (tx_request (get (lit "a") (lit "/"))) (Some 5) (mkResponse (lit "HTTP/1.1") 200 (lit "OK") [(lit "Content-Encoding", lit "gzip")] [31; 139] (lit "text") true) true [] in
  (fun o => (tx_time (transactionFromJson o), bodyForInspection (tx_response (transactionFromJson o)))) <$> (toObject <$> json_parse (json_compact (JObject (entryToJson tx []))))
  = Some (None, [31; 139]) /\ bodyForInspection (tx_response tx) = lit "text".
Proof. vm_compute. done. Qed.
