(* ===== verification/Crawler.v ===== *)
(** * The crawler: Src/Core/Networking/crawler.cpp and crawler_logic.cpp

    Link extraction, the default scope, and the breadth-first walk of a background
    worker whose start, stop and clearing the main thread commands.  [QUrl], the HTML
    patterns' matches and the answers of the HTTP client are arguments.  The installed
    scope checker is one function for the whole run: the application's asks the live
    scope, so the theorems hold between two edits of the scope. *)

From S2P Require Import Prelude Qt QtSample QMap Json HttpFraming ChainRunner SessionRules Redirect HttpClient.

Local Open Scope Z_scope.

(** The rest of [QUrl] that the crawler uses, and what it relies on: schemes are lower
    case, setters change one component, an absolute reference resolves to itself, and a
    valid URL's text names the same scheme, host and port. *)
Class QtCrawlUrl (K : QtQUrl) := {
  qu_noFragment : Url -> Url;    (* setFragment(QString()) *)
  qu_hasQuery : Url -> bool;
  qu_toString : Url -> qstr
}.
Definition same_origin {K : QtQUrl} (u v : Url) : Prop := qu_scheme u = qu_scheme v /\ qu_host u = qu_host v /\ qu_port u = qu_port v.
Class QtCrawlUrlLaws (Q : QtText) (K : QtQUrl) (KC : QtCrawlUrl K) : Prop := {
  law_port_range u : -1 <= qu_port u <= 65535;
  law_scheme_lower u : qu_isValid u = true -> u_lower (qu_scheme u) = qu_scheme u;
  law_noFragment u : qu_isValid u = true -> qu_isValid (qu_noFragment u) = true /\ same_origin (qu_noFragment u) u;
  law_setPath u : qu_isValid u = true -> qu_isValid (qu_setPath (lit "/") u) = true /\ same_origin (qu_setPath (lit "/") u) u;
  law_absolute b u : qu_isValid u = true -> qu_scheme u <> [] -> same_origin (qu_resolved b u) u;
  law_toString u : qu_isValid u = true -> qu_host u <> [] -> same_origin (qu_parse (qu_toString u)) u
}.

(** [globalMatch] of a pattern with the case-insensitive option: every match with its
    groups, the whole first; [None] is a null capture. *)
Class QtHtmlRegex := { rx_all : qstr -> qstr -> list (list (option qstr)) }.

(** A pattern text; a backtick stands for the double quote. *)
Definition pat (s : String.string) : qstr := map (fun c => if c =? 96 then 34 else c) (lit s).
Arguments pat s%_string_scope.

Section Extraction.
Context {Q : QtText} {K : QtQUrl} {KC : QtCrawlUrl K} {RX : QtHtmlRegex}.

Definition truncateBodyAtTag (body : bytes) (maxBytes : Z) : bytes :=
  if (maxBytes <? 0) || (zlen body <=? maxBytes) then body
  else
    let head := take (Z.to_nat maxBytes) body in
    match last_index_of 62 head with None => [] | Some i => take (i + 1) head end.

Definition captured (m : list (option qstr)) (n : nat) : qstr := default [] (nth n m None).
Definition attrValue (m : list (option qstr)) : qstr :=
  match nth 1 m None with
  | Some v => v
  | None => match nth 2 m None with Some v => v | None => captured m 3 end
  end.

Definition kValue : qstr := pat "(?:`([^`]*)`|'([^']*)'|([^`'\s>]+))".
Definition kBase : qstr := pat "<base\b[^>]*\bhref\s*=\s*" ++ kValue.
Definition kLinks : qstr := pat "(?:href|src|action)\s*=\s*" ++ kValue.
Definition kSrcset : qstr := pat "\bsrcset\s*=\s*" ++ kValue.
Definition kMetaTag : qstr := pat "<meta\b[^>]*>".
Definition kMetaUrl : qstr := pat "\burl\s*=\s*['`]?([^'`\s;>]+)".
Definition kForm : qstr := pat "<form\b([^>]*)>([\s\S]*?)</form>".
Definition kMethodGet : qstr := pat "\bmethod\s*=\s*[`']?\s*get\b".
Definition kAction : qstr := pat "\baction\s*=\s*" ++ kValue.
Definition kName : qstr := pat "<(?:input|select|textarea)\b[^>]*\bname\s*=\s*" ++ kValue.

Definition nonempty (l : list qstr) : list qstr := List.filter (fun v => negb (is_nil v)) l.

Definition resolveBase (html : qstr) (pageUrl : Url) : Url :=
  match rx_all kBase html with
  | [] => pageUrl
  | m :: _ =>
      let href := u_trimmed (attrValue m) in
      if is_nil href then pageUrl
      else let b := qu_resolved pageUrl (qu_parse href) in if qu_isValid b && negb (is_nil (qu_host b)) then b else pageUrl
  end.

Definition extractRawLinks (html : qstr) : list qstr := nonempty (map (fun m => u_trimmed (attrValue m)) (rx_all kLinks html)).

Definition extractSrcset (html : qstr) : list qstr :=
  nonempty (flat_map (fun m => map (fun cand => u_trimmed (before_chr 32 (u_trimmed cand))) (split_skip 44 (attrValue m))) (rx_all kSrcset html)).

Definition extractMetaRefresh (html : qstr) : list qstr :=
  flat_map (fun m =>
    let tag := captured m 0 in
    if negb (u_contains_ci tag (lit "refresh")) then []
    else match rx_all kMetaUrl tag with um :: _ => [u_trimmed (captured um 1)] | [] => [] end) (rx_all kMetaTag html).

Definition form_query (names : list qstr) : qstr := fold_left (fun q n => q ++ (if is_nil q then [63] else [38]) ++ n ++ [61]) names [].
Definition extractFormGets (html : qstr) : list qstr :=
  flat_map (fun m =>
    let attrs := captured m 1 in
    if is_nil (rx_all kMethodGet attrs) then []
    else
      let action := match rx_all kAction attrs with am :: _ => u_trimmed (attrValue am) | [] => [] end in
      let names := nonempty (map (fun n => u_trimmed (attrValue n)) (rx_all kName (captured m 2))) in
      if is_nil names then [] else [action ++ form_query names]) (rx_all kForm html).

(** The key and the host; both empty for a link that is not crawled. *)
Definition canonicalLink (href : qstr) (base : Url) : qstr * qstr :=
  let abs := qu_resolved base (qu_parse href) in
  if negb (qu_isValid abs) || is_nil (qu_host abs) then ([], [])
  else
    let scheme := u_lower (qu_scheme abs) in
    if negb (seq_eqb scheme (lit "http")) && negb (seq_eqb scheme (lit "https")) then ([], [])
    else
      let abs := qu_noFragment abs in
      let abs := if is_nil (qu_path abs) then qu_setPath (lit "/") abs else abs in
      (qu_toString abs, qu_host abs).

(** ** The default scope *)

Definition apexOf (host : qstr) : qstr := let h := u_lower host in if starts_with (lit "www.") h then drop 4 h else h.

Definition twoLevel : list qstr := map lit [
  "co.uk"; "org.uk"; "gov.uk"; "ac.uk"; "me.uk"; "net.uk"; "com.au"; "net.au"; "org.au"; "gov.au"; "edu.au"; "co.nz"; "net.nz"; "org.nz";
  "co.jp"; "or.jp"; "ne.jp"; "go.jp"; "co.za"; "org.za"; "com.br"; "net.br"; "com.cn"; "net.cn"; "org.cn"; "gov.cn"; "co.in"; "com.mx";
  "com.tr"; "com.sg"]%string.
Definition isPublicSuffix (apex : qstr) : bool := negb (contains_chr 46 apex) || bool_decide (apex ∈ twoLevel).

Definition inDefaultScope (host seedHost : qstr) : bool :=
  if is_nil host || is_nil seedHost then false
  else
    let h := u_lower host in
    let seed := u_lower seedHost in
    if seq_eqb h seed then true
    else
      let apex := apexOf seed in
      if isPublicSuffix apex then false else seq_eqb h apex || ends_with (46 :: apex) h.

Definition effectivePort (scheme : qstr) (port : Z) : Z := if 0 <? port then port else if u_cieq scheme (lit "https") then 443 else 80.
Definition isStdWeb (p : Z) : bool := (p =? 80) || (p =? 443).
Definition inDefaultScopeOrigin (scheme host : qstr) (port : Z) (seedScheme seedHost : qstr) (seedPort : Z) : bool :=
  if negb (inDefaultScope host seedHost) then false
  else
    let ep := effectivePort scheme port in
    let sep := effectivePort seedScheme seedPort in
    if isStdWeb sep then isStdWeb ep else ep =? sep.
End Extraction.

(** ** The walk *)

Section Walk.
Context {Q : QtText} {K : QtQUrl} {KC : QtCrawlUrl K} {RX : QtHtmlRegex}.

Definition ScopeFn : Type := qstr -> qstr -> Z -> qstr -> bool.
Definition Net : Type := qstr -> Z -> bool -> bytes -> Sending.

(** One page fetched: what was asked of the client and its answer. *)
Record Fetch := mkFetch { f_url : qstr; f_depth : Z; f_host : qstr; f_port : Z; f_tls : bool; f_request : bytes; f_answer : Sending }.

(** The worker: at the head of its loop, with a dequeued page, or behind the loop. *)
Inductive Worker := WLoop | WPage (url : qstr) (depth : Z) | WFinishing.

(** [k_log] is the list of this crawl's fetches, [k_old] the workers whose future a
    later start replaced. *)
Record Crawler := mkCrawler {
  k_scope : option ScopeFn; k_running : bool; k_stop : bool; k_worker : option Worker; k_old : nat;
  k_seed : qstr; k_seedHost : qstr; k_seedScheme : qstr; k_seedPort : Z;
  k_maxPages : Z; k_maxDepth : Z; k_throttle : Z;
  k_visited : Z; k_seen : gset qstr; k_queue : list (qstr * Z); k_log : list Fetch
}.
(** The checker is wired before anything crawls. *)
Definition emptyCrawler (scope : option ScopeFn) : Crawler := mkCrawler scope false false None 0 [] [] [] (-1) 200 4 200 0 ∅ [] [].

Definition inScopeOf (scope : option ScopeFn) (seedScheme seedHost : qstr) (seedPort : Z) : ScopeFn :=
  fun scheme host port path =>
    match scope with
    | Some f => f scheme host port path
    | None => inDefaultScopeOrigin scheme host port seedScheme seedHost seedPort
    end.
Definition inScope (k : Crawler) : ScopeFn := inScopeOf (k_scope k) (k_seedScheme k) (k_seedHost k) (k_seedPort k).

Definition with_seed (seed host scheme : qstr) (port : Z) (k : Crawler) : Crawler :=
  mkCrawler (k_scope k) (k_running k) (k_stop k) (k_worker k) (k_old k) seed host scheme port (k_maxPages k) (k_maxDepth k) (k_throttle k)
    (k_visited k) (k_seen k) (k_queue k) (k_log k).
Definition with_worker (running : bool) (w : option Worker) (queue : list (qstr * Z)) (k : Crawler) : Crawler :=
  mkCrawler (k_scope k) running (k_stop k) w (k_old k) (k_seed k) (k_seedHost k) (k_seedScheme k) (k_seedPort k) (k_maxPages k) (k_maxDepth k) (k_throttle k)
    (k_visited k) (k_seen k) queue (k_log k).
Definition with_walk (visited : Z) (seen : gset qstr) (queue : list (qstr * Z)) (log : list Fetch) (k : Crawler) : Crawler :=
  mkCrawler (k_scope k) (k_running k) (k_stop k) (k_worker k) (k_old k) (k_seed k) (k_seedHost k) (k_seedScheme k) (k_seedPort k) (k_maxPages k) (k_maxDepth k)
    (k_throttle k) visited seen queue log.

(** The boolean is the result. *)
Definition start (seed : qstr) (maxPages maxDepth throttleMs : Z) (k : Crawler) : Crawler * bool :=
  if k_running k then (k, false)
  else
    let u := qu_parse seed in
    if negb (qu_isValid u) || is_nil (qu_scheme u) || is_nil (qu_host u) then (k, false)
    else
      let '(canonSeed, seedHost) := canonicalLink seed u in
      if is_nil canonSeed then (k, false)
      else
        let k := with_seed seed seedHost (u_lower (qu_scheme u)) (qu_port u) k in
        if negb (inScope k (k_seedScheme k) seedHost (k_seedPort k) (qu_path (qu_parse canonSeed))) then (k, false)
        else
          (mkCrawler (k_scope k) true false (Some WLoop) (match k_worker k with Some _ => S (k_old k) | None => k_old k end)
             seed seedHost (k_seedScheme k) (k_seedPort k) (Z.max 1 (Z.min 5000 maxPages)) (Z.max 0 (Z.min 10 maxDepth)) (Z.max 0 (Z.min 60000 throttleMs))
             0 {[canonSeed]} [(canonSeed, 0)] [], true).

Definition clear (k : Crawler) : Crawler :=
  if k_running k || bool_decide (is_Some (k_worker k)) then k
  else mkCrawler (k_scope k) (k_running k) (k_stop k) (k_worker k) (k_old k) [] [] [] (-1) (k_maxPages k) (k_maxDepth k) (k_throttle k) 0 ∅ [] [].

Definition stop (k : Crawler) : Crawler :=
  mkCrawler (k_scope k) (k_running k) true (k_worker k) (k_old k) (k_seed k) (k_seedHost k) (k_seedScheme k) (k_seedPort k) (k_maxPages k) (k_maxDepth k)
    (k_throttle k) (k_visited k) (k_seen k) (k_queue k) (k_log k).

Definition kMaxSeen : Z := 50000.
Definition zsize (seen : gset qstr) : Z := Z.of_nat (size seen).

(** The links of a page that the walk may follow, with the host the scope was asked for. *)
Definition refs_of (text : qstr) : list qstr := extractRawLinks text ++ extractSrcset text ++ extractMetaRefresh text ++ extractFormGets text.
Fixpoint enqueue (scope : ScopeFn) (base : Url) (depth : Z) (refs : list qstr) (seen : gset qstr) (queue : list (qstr * Z)) : gset qstr * list (qstr * Z) :=
  match refs with
  | [] => (seen, queue)
  | href :: refs' =>
      if kMaxSeen <=? zsize seen then (seen, queue)
      else
        let '(canon, host) := canonicalLink href base in
        let next := enqueue scope base depth refs' in
        if is_nil canon then next seen queue
        else
          let cu := qu_parse canon in
          if negb (scope (qu_scheme cu) host (qu_port cu) (qu_path cu)) then next seen queue
          else if bool_decide (canon ∈ seen) then next seen queue
          else next ({[canon]} ∪ seen) (queue ++ [(canon, depth)])
  end.

Definition kBodyCap : Z := 4 * 1024 * 1024.
Definition page_text (body : bytes) : qstr := u_fromutf8 (truncateBodyAtTag body kBodyCap).
Definition extractAndEnqueue (fromUrl : qstr) (body : bytes) (depth : Z) (k : Crawler) : Crawler :=
  let text := page_text body in
  let base := resolveBase text (qu_parse fromUrl) in
  let '(seen, queue) := enqueue (inScope k) base depth (refs_of text) (k_seen k) (k_queue k) in
  with_walk (k_visited k) seen queue (k_log k) k.

(** What a page's URL makes the client do. *)
Definition tls_of (u : Url) : bool := u_cieq (qu_scheme u) (lit "https").
Definition port_of (u : Url) : Z := qu_port_or (if tls_of u then 443 else 80) u mod 2 ^ 16.
Definition crawl_request (u : Url) : bytes :=
  let p := if is_nil (qu_path u) then lit "/" else qu_path u in
  let p := if qu_hasQuery u then p ++ [63] ++ qu_query u else p in
  lit "GET " ++ u_toutf8 p ++ lit " HTTP/1.1" ++ CRLF ++ lit "Host: " ++ u_toutf8 (qu_host u) ++ CRLF ++ lit "User-Agent: nullock-crawler/1.0" ++ CRLF
  ++ lit "Accept: text/html,*/*;q=0.5" ++ CRLF ++ lit "Connection: close" ++ CRLF ++ CRLF.

Definition crawlOne (net : Net) (url : qstr) (depth : Z) (k : Crawler) : Crawler :=
  let u := qu_parse url in
  let request := crawl_request u in
  let res := net (qu_host u) (port_of u) (tls_of u) request in
  let k := with_walk (k_visited k) (k_seen k) (k_queue k) (k_log k ++ [mkFetch url depth (qu_host u) (port_of u) (tls_of u) request res]) k in
  if negb (hs_ok res) then k
  else if k_maxDepth k <=? depth then k
  else extractAndEnqueue url (rs_body (hs_parsed res)) (depth + 1) k.

(** The head of the worker's loop. *)
Definition turn (k : Crawler) : Crawler :=
  match k_queue k with
  | (url, depth) :: queue =>
      if k_running k && negb (k_stop k) && (k_visited k <? k_maxPages k) then with_worker (k_running k) (Some (WPage url depth)) queue k
      else with_worker false (Some WFinishing) (k_queue k) k
  | [] => with_worker false (Some WFinishing) (k_queue k) k
  end.
Definition page (net : Net) (url : qstr) (depth : Z) (k : Crawler) : Crawler :=
  let k := crawlOne net url depth k in
  with_worker (k_running k) (Some WLoop) (k_queue k) (with_walk (k_visited k + 1) (k_seen k) (k_queue k) (k_log k) k).

Inductive Label :=
| LStart (seed : qstr) (maxPages maxDepth throttleMs : Z)
| LStop | LClear
| LTurn | LPage (net : Net) | LReturn | LReturnOld.

Definition exec (k : Crawler) (l : Label) : option Crawler :=
  match l with
  | LStart seed pages depth ms => Some (fst (start seed pages depth ms k))
  | LStop => Some (stop k)
  | LClear => Some (clear k)
  | LTurn => match k_worker k with Some WLoop => Some (turn k) | _ => None end
  | LPage net => match k_worker k with Some (WPage url depth) => Some (page net url depth k) | _ => None end
  | LReturn => match k_worker k with Some WFinishing => Some (with_worker (k_running k) None (k_queue k) k) | _ => None end
  | LReturnOld => match k_old k with
                  | O => None
                  | S n => Some (mkCrawler (k_scope k) (k_running k) (k_stop k) (k_worker k) n (k_seed k) (k_seedHost k) (k_seedScheme k) (k_seedPort k)
                                   (k_maxPages k) (k_maxDepth k) (k_throttle k) (k_visited k) (k_seen k) (k_queue k) (k_log k))
                  end
  end.
Definition kstep (k : Crawler) (l : Label) (k' : Crawler) : Prop := exec k l = Some k'.

(** ** Links *)

Context {QL : QtTextLaws Q} {CL : QtCrawlUrlLaws Q K KC}.

Definition http_scheme (s : qstr) : Prop := s = lit "http" \/ s = lit "https".

(** A crawled link names an http or https URL of the host it is checked for. *)
Lemma canonicalLink_origin href base c h :
  canonicalLink href base = (c, h) -> c <> [] ->
  let v := qu_parse c in http_scheme (qu_scheme v) /\ qu_host v = h /\ h <> [] /\ same_origin v (qu_resolved base (qu_parse href)).
Proof.
  unfold canonicalLink. set (a := qu_resolved base (qu_parse href)). destruct (qu_isValid a) eqn:Ev; cbn [negb orb]; [|by intros [= <- <-]].
  destruct (qu_host a) as [|x hs] eqn:Eh; cbn [is_nil]; [by intros [= <- <-]|].
  rewrite (law_scheme_lower a Ev). destruct (negb _ && negb _) eqn:Es; [by intros [= <- <-]|].
  destruct (law_noFragment a Ev) as [Ev1 (O1 & O2 & O3)]. set (a1 := qu_noFragment a) in *.
  set (a2 := if is_nil (qu_path a1) then qu_setPath (lit "/") a1 else a1).
  assert (H2 : qu_isValid a2 = true /\ same_origin a2 a1).
  { unfold a2. destruct (is_nil (qu_path a1)); [by apply law_setPath|]. by split. }
  destruct H2 as [Ev2 (P1 & P2 & P3)]. intros [= <- <-] _.
  assert (Hh : qu_host a2 <> []) by congruence. destruct (law_toString a2 Ev2 Hh) as (V1 & V2 & V3).
  split_and!; [|done|done|by split_and!; congruence].
  rewrite V1, P1, O1. unfold http_scheme. apply andb_false_iff in Es as [Es|Es]; apply negb_false_iff, seq_eqb_eq in Es; auto.
Qed.

(** ** One page's links *)

Definition followable (sc : ScopeFn) (u : qstr) : Prop :=
  let v := qu_parse u in http_scheme (qu_scheme v) /\ sc (qu_scheme v) (qu_host v) (qu_port v) (qu_path v) = true.

(** The links of a page in the sense of the specification. *)
Definition page_links (sc : ScopeFn) (url : qstr) (body : bytes) : list qstr :=
  let text := page_text body in
  let base := resolveBase text (qu_parse url) in
  List.filter (fun c => let cu := qu_parse c in negb (is_nil c) && sc (qu_scheme cu) (qu_host cu) (qu_port cu) (qu_path cu))
    (map (fun href => fst (canonicalLink href base)) (refs_of text)).

Lemma enqueue_spec sc base depth refs : forall seen queue seen' queue',
  enqueue sc base depth refs seen queue = (seen', queue') ->
  exists new, queue' = queue ++ map (fun c => (c, depth)) new /\ seen' = list_to_set new ∪ seen /\ NoDup new /\ (forall c, c ∈ new -> c ∉ seen) /\
    zsize seen' <= Z.max kMaxSeen (zsize seen) /\ Forall (followable sc) new /\
    (kMaxSeen <= zsize seen' \/
     forall href, href ∈ refs -> let c := fst (canonicalLink href base) in c <> [] -> followable sc c -> c ∈ seen').
Proof.
  induction refs as [|href refs IH]; intros seen queue seen' queue' H; cbn [enqueue] in H.
  { injection H as <- <-. exists []. cbn. rewrite app_nil_r. split_and!; try done; [set_solver|constructor|set_solver|lia|right; set_solver]. }
  destruct (kMaxSeen <=? zsize seen) eqn:Es.
  { apply Z.leb_le in Es. injection H as <- <-. exists []. cbn. rewrite app_nil_r. split_and!; try done; [set_solver|constructor|set_solver|lia|by left]. }
  apply Z.leb_gt in Es. destruct (canonicalLink href base) as [c h] eqn:Ec.
  assert (Hskip : forall R : Prop, (c <> [] -> followable sc c -> c ∈ seen) -> enqueue sc base depth refs seen queue = (seen', queue') ->
    exists new, queue' = queue ++ map (fun c => (c, depth)) new /\ seen' = list_to_set new ∪ seen /\ NoDup new /\ (forall c, c ∈ new -> c ∉ seen) /\
    zsize seen' <= Z.max kMaxSeen (zsize seen) /\ Forall (followable sc) new /\
    (kMaxSeen <= zsize seen' \/
     forall hr, hr ∈ href :: refs -> let c := fst (canonicalLink hr base) in c <> [] -> followable sc c -> c ∈ seen')).
  { intros _ Hin H'. apply IH in H' as (new & G1 & G2 & G3 & G4 & G5 & G6 & G7). exists new. split_and!; try done.
    destruct G7 as [G7|G7]; [by left|right]. intros hr [->|Hr]%elem_of_cons; [|by apply G7]. rewrite Ec. cbn. intros Hne Hf. rewrite G2. set_solver. }
  destruct (is_nil c) eqn:En; [apply is_nil_true in En; by apply (Hskip True)|].
  assert (Hne : c <> []) by (by destruct c). destruct (canonicalLink_origin _ _ _ _ Ec Hne) as (V1 & V2 & V3 & _). rewrite <- V2 in H.
  destruct (sc _ _ _ _) eqn:Esc; cbn [negb] in H; [|apply (Hskip True); [|done]; intros _ [_ Hf]; congruence].
  case_bool_decide as Hin; [by apply (Hskip True)|].
  apply IH in H as (new & G1 & G2 & G3 & G4 & G5 & G6 & G7). exists (c :: new).
  assert (Hsz : zsize ({[c]} ∪ seen) <= kMaxSeen) by (unfold zsize in *; rewrite size_union, size_singleton by set_solver; lia).
  split_and!.
  - by rewrite G1, <- app_assoc.
  - rewrite G2. set_solver.
  - constructor; [|done]. intros Hc. apply (G4 _ Hc). set_solver.
  - intros x [->|Hx]%elem_of_cons; [done|]. intros ?. apply (G4 _ Hx). set_solver.
  - lia.
  - constructor; [by split|done].
  - destruct G7 as [G7|G7]; [by left|right]. intros hr [->|Hr]%elem_of_cons; [|by apply G7]. rewrite Ec. cbn. intros _ _. rewrite G2. set_solver.
Qed.

(** ** The invariant of the walk *)

Definition frontier (k : Crawler) : list (qstr * Z) := match k_worker k with Some (WPage u d) => [(u, d)] | _ => [] end ++ k_queue k.
Definition urls (k : Crawler) : list qstr := map f_url (k_log k) ++ map fst (frontier k).

(** What one fetch asked for. *)
Definition asked_ok (f : Fetch) : Prop :=
  let u := qu_parse (f_url f) in f_host f = qu_host u /\ f_tls f = tls_of u /\ f_port f = port_of u /\ f_request f = crawl_request u.
(** Every link of a fetched page is known, unless the set of known links is full. *)
Definition closed_in (k : Crawler) (f : Fetch) : Prop :=
  hs_ok (f_answer f) = true -> f_depth f < k_maxDepth k ->
  kMaxSeen <= zsize (k_seen k) \/ forall c, c ∈ page_links (inScope k) (f_url f) (rs_body (hs_parsed (f_answer f))) -> c ∈ k_seen k.

Definition depth_ok (k : Crawler) (ud : qstr * Z) : Prop := 0 <= snd ud <= k_maxDepth k /\ followable (inScope k) (fst ud).

Definition walk_ok (k : Crawler) : Prop :=
  NoDup (urls k) /\ (forall u, u ∈ k_seen k <-> u ∈ urls k) /\ zsize (k_seen k) <= kMaxSeen /\
  Forall (depth_ok k) (map (fun f => (f_url f, f_depth f)) (k_log k) ++ frontier k) /\ Forall asked_ok (k_log k) /\ Forall (closed_in k) (k_log k).
Definition counts_ok (k : Crawler) : Prop :=
  1 <= k_maxPages k <= 5000 /\ 0 <= k_maxDepth k <= 10 /\ k_visited k = zlen (k_log k) /\ k_visited k <= k_maxPages k /\
  match k_worker k with
  | Some WLoop => k_running k = true
  | Some (WPage _ _) => k_running k = true /\ k_visited k < k_maxPages k
  | _ => k_running k = false /\ (k_stop k = false -> k_visited k = k_maxPages k \/ k_queue k = [])
  end.
Definition crawler_ok (k : Crawler) : Prop := walk_ok k /\ counts_ok k.

Definition fetch_of (net : Net) (url : qstr) (depth : Z) : Fetch :=
  let u := qu_parse url in mkFetch url depth (qu_host u) (port_of u) (tls_of u) (crawl_request u) (net (qu_host u) (port_of u) (tls_of u) (crawl_request u)).

Lemma crawlOne_spec net url depth k :
  zsize (k_seen k) <= kMaxSeen ->
  exists new, let f := fetch_of net url depth in let seen := list_to_set new ∪ k_seen k in
    crawlOne net url depth k = with_walk (k_visited k) seen (k_queue k ++ map (fun c => (c, depth + 1)) new) (k_log k ++ [f]) k /\
    NoDup new /\ (forall c, c ∈ new -> c ∉ k_seen k) /\ zsize seen <= kMaxSeen /\ Forall (followable (inScope k)) new /\ (new <> [] -> depth < k_maxDepth k) /\
    (hs_ok (f_answer f) = true -> depth < k_maxDepth k ->
     kMaxSeen <= zsize seen \/ forall c, c ∈ page_links (inScope k) url (rs_body (hs_parsed (f_answer f))) -> c ∈ seen).
Proof.
  intros Hsz. unfold crawlOne. cbv zeta.
  set (res := net _ _ _ _). assert (Hf : f_answer (fetch_of net url depth) = res) by done. set (k1 := with_walk _ _ _ _ k).
  assert (Hnone : (hs_ok res = true -> depth < k_maxDepth k -> False) ->
    exists new, k1 = with_walk (k_visited k) (list_to_set new ∪ k_seen k) (k_queue k ++ map (fun c => (c, depth + 1)) new) (k_log k ++ [fetch_of net url depth]) k /\
      NoDup new /\ (forall c, c ∈ new -> c ∉ k_seen k) /\ zsize (list_to_set new ∪ k_seen k) <= kMaxSeen /\ Forall (followable (inScope k)) new /\ (new <> [] -> depth < k_maxDepth k) /\
      (hs_ok res = true -> depth < k_maxDepth k -> kMaxSeen <= zsize (list_to_set new ∪ k_seen k) \/
         forall c, c ∈ page_links (inScope k) url (rs_body (hs_parsed res)) -> c ∈ (list_to_set new ∪ k_seen k : gset qstr))).
  { intros Hno. exists []. cbn [map list_to_set]. rewrite app_nil_r. assert (E : list_to_set [] ∪ k_seen k = k_seen k :> gset qstr) by set_solver.
    cbn [list_to_set] in E. rewrite E. split_and!; try done; [constructor|set_solver|intros ? ?; by exfalso; apply Hno]. }
  rewrite Hf. destruct (hs_ok res) eqn:Eok; cbn [negb]; [|by apply Hnone]. cbn [k1 with_walk k_maxDepth].
  destruct (k_maxDepth k <=? depth) eqn:Ed; to_prop; [apply Hnone; lia|]. clear Hnone.
  unfold extractAndEnqueue. cbv zeta. change (inScope k1) with (inScope k). change (k_seen k1) with (k_seen k). change (k_queue k1) with (k_queue k).
  set (text := page_text _). set (base := resolveBase _ _).
  destruct (enqueue _ _ _ _ _ _) as [seen queue] eqn:Ee. apply enqueue_spec in Ee as (new & -> & -> & N1 & N2 & N3 & N4 & N5). exists new.
  split_and!; try done; [lia|]. intros _ _. destruct N5 as [?|N5]; [by left|right]. intros c Hc. unfold page_links in Hc. cbv zeta in Hc. fold text base in Hc.
  apply list_elem_of_In, filter_In in Hc as [Hc Hp]. apply in_map_iff in Hc as (href & <- & Hr). apply list_elem_of_In in Hr.
  apply andb_true_iff in Hp as [Hn Hsc]. assert (Hne : fst (canonicalLink href base) <> []) by (by destruct (fst _)).
  apply (N5 _ Hr Hne). split; [|done]. destruct (canonicalLink href base) as [c h] eqn:Ec. by apply (canonicalLink_origin _ _ _ _ Ec Hne).
Qed.

Lemma zlen_snoc {A} (l : list A) x : zlen (l ++ [x]) = zlen l + 1.
Proof. unfold zlen. rewrite length_app. cbn. lia. Qed.

Lemma page_ok net url depth k : crawler_ok k -> k_worker k = Some (WPage url depth) -> crawler_ok (page net url depth k).
Proof.
  intros [(W1 & W2 & W3 & W4 & W5 & W6) (C1 & C2 & C3 & C4 & C5)] Hw. unfold frontier, urls, frontier in W1, W2, W4. unfold counts_ok in C5. rewrite Hw in W1, W2, W4, C5.
  cbn [app map fst] in W1, W2, W4. destruct C5 as [Cr Cv].
  destruct (crawlOne_spec net url depth k W3) as (new & E & N1 & N2 & N3 & N4 & N5 & N6). cbv zeta in E, N6. unfold page. cbv zeta. rewrite E. clear E.
  cbn [with_worker with_walk k_running k_queue k_visited k_seen k_log]. set (f := fetch_of net url depth) in *.
  assert (Hurls : (map f_url (k_log k ++ [f])) ++ map fst (k_queue k ++ map (fun c => (c, depth + 1)) new) = (map f_url (k_log k) ++ url :: map fst (k_queue k)) ++ new).
  { rewrite !map_app, map_map. cbn. rewrite map_id. by rewrite <- !app_assoc. }
  split; [split_and!|].
  - unfold urls, frontier. cbn [with_worker with_walk k_worker k_queue k_log app]. rewrite Hurls. apply NoDup_app. split_and!; [done| |done].
    intros x Hx Hn. by apply (N2 x Hn), W2.
  - intros x. unfold urls, frontier. cbn [with_worker with_walk k_worker k_queue k_log k_seen app]. rewrite Hurls, elem_of_app, <- W2. set_solver.
  - done.
  - unfold frontier. cbn [with_worker with_walk k_worker k_queue k_log k_seen app]. rewrite map_app, <- app_assoc. cbn [map app f fetch_of f_url f_depth].
    rewrite Forall_app, Forall_cons in W4. destruct W4 as (F1 & F2 & F3). apply Forall_app_2; [done|]. constructor; [done|]. apply Forall_app_2; [done|].
    apply Forall_forall. intros ud (c & -> & Hc)%list_elem_of_fmap. unfold depth_ok. cbn [fst snd with_worker with_walk k_maxDepth].
    assert (depth < k_maxDepth k) by (apply N5; intros ->; by apply not_elem_of_nil in Hc). destruct F2 as [Fd _]. cbn in Fd. split; [lia|].
    rewrite Forall_forall in N4. by apply N4.
  - cbn [with_worker with_walk k_log]. apply Forall_app_2; [done|]. by apply Forall_singleton.
  - cbn [with_worker with_walk k_log]. apply Forall_app_2.
    + eapply Forall_impl; [exact W6|]. intros g Hg Ho Hd. destruct (Hg Ho Hd) as [Hg'|Hg'].
      * left. cbn [with_worker with_walk k_seen]. unfold zsize in *. pose proof (subseteq_size (k_seen k) (list_to_set new ∪ k_seen k) ltac:(set_solver)). lia.
      * right. intros c Hc. cbn [with_worker with_walk k_seen]. apply elem_of_union_r. by apply Hg'.
    + apply Forall_singleton. exact N6.
  - split_and!; try done; cbn [with_worker with_walk k_maxPages k_maxDepth k_visited k_log]; [lia|lia|lia|lia|rewrite zlen_snoc; lia|lia].
Qed.

Lemma turn_ok k : crawler_ok k -> k_worker k = Some WLoop -> crawler_ok (turn k).
Proof.
  intros [(W1 & W2 & W3 & W4 & W5 & W6) (C1 & C2 & C3 & C4 & C5)] Hw. unfold frontier, urls, frontier in W1, W2, W4. unfold counts_ok in C5. rewrite Hw in W1, W2, W4, C5.
  cbn [app] in W1, W2, W4. unfold turn.
  assert (Hstop : (k_stop k = false -> k_visited k = k_maxPages k \/ k_queue k = []) -> crawler_ok (with_worker false (Some WFinishing) (k_queue k) k)).
  { intros Hs. split; [by split_and!|]. unfold counts_ok. cbn [with_worker k_maxPages k_maxDepth k_visited k_log k_worker k_running k_stop k_queue]. by split_and!; try lia. }
  destruct (k_queue k) as [|[url depth] queue] eqn:Eq; [apply Hstop; auto|].
  destruct (k_running k && negb (k_stop k) && (k_visited k <? k_maxPages k)) eqn:Ec.
  - to_prop. split; [by split_and!|]. unfold counts_ok. cbn [with_worker k_maxPages k_maxDepth k_visited k_log k_worker k_running k_stop k_queue]. by split_and!; try lia.
  - apply Hstop. intros Hs. left. rewrite C5, Hs in Ec. cbn in Ec. to_prop. lia.
Qed.

Lemma default_scope_self s h p : h <> [] -> inDefaultScopeOrigin s h p s h p = true.
Proof.
  intros Hh. unfold inDefaultScopeOrigin, inDefaultScope. assert (is_nil h = false) as -> by (by destruct h). cbn [orb]. rewrite seq_eqb_refl. cbn [negb].
  destruct (isStdWeb _); [done|by apply Z.eqb_refl].
Qed.

(** A transition that keeps what the walk's invariant reads. *)
Lemma walk_ok_ext k k' :
  k_log k' = k_log k -> frontier k' = frontier k -> k_seen k' = k_seen k -> k_maxDepth k' = k_maxDepth k -> inScope k' = inScope k -> walk_ok k -> walk_ok k'.
Proof.
  intros E1 E2 E3 E4 E5 (W1 & W2 & W3 & W4 & W5 & W6). unfold walk_ok, urls in *. rewrite E1, E2, E3. split_and!; try done.
  - eapply Forall_impl; [exact W4|]. intros ud [H1 H2]. unfold depth_ok. by rewrite E4, E5.
  - eapply Forall_impl; [exact W6|]. intros f Hf. unfold closed_in. by rewrite E3, E4, E5.
Qed.

Lemma start_ok seed pages depth ms k : crawler_ok k -> crawler_ok (fst (start seed pages depth ms k)).
Proof.
  intros Hk. pose proof Hk as [W C]. unfold start. destruct (k_running k) eqn:Er; [done|]. cbv zeta. set (u := qu_parse seed).
  destruct (_ || _) eqn:Ev; [done|]. apply orb_false_iff in Ev as [Ev Eh]. apply orb_false_iff in Ev as [Ev Es]. apply negb_false_iff in Ev.
  destruct (canonicalLink seed u) as [c h] eqn:Ec. destruct (is_nil c) eqn:En; [done|].
  assert (Hne : c <> []) by (by destruct c). assert (Hsn : qu_scheme u <> []) by (by destruct (qu_scheme u)).
  destruct (canonicalLink_origin _ _ _ _ Ec Hne) as (V1 & V2 & V3 & O1 & O2 & O3).
  destruct (law_absolute u u Ev Hsn) as (P1 & P2 & P3). fold u in O1, O2, O3.
  set (k1 := with_seed _ _ _ _ k). cbn [k1 with_seed k_seedScheme k_seedPort]. destruct (inScope k1 _ _ _ _) eqn:Ei; cbn [negb fst].
  - assert (Hf : followable (inScope k1) c).
    { split; [done|]. cbn. rewrite V2, O1, P1, O3, P3. by rewrite law_scheme_lower in Ei by done. }
    split.
    + unfold walk_ok, urls, frontier. cbn [k_worker k_queue k_log k_seen map app fst]. split_and!; try done.
      * by apply NoDup_singleton.
      * intros x. rewrite elem_of_singleton, list_elem_of_singleton. done.
      * unfold zsize. by rewrite size_singleton.
      * apply Forall_singleton. split; [cbn [snd k_maxDepth]; lia|exact Hf].
    + unfold counts_ok. cbn [k_worker k_running k_maxPages k_maxDepth k_visited k_log]. refine (conj _ (conj _ (conj eq_refl (conj _ eq_refl)))); lia.
  - destruct (k_scope k) as [sc|] eqn:Esc.
    + split; [|exact C]. apply (walk_ok_ext k); try done. unfold inScope. cbn [k1 with_seed k_scope k_seedScheme k_seedHost k_seedPort]. by rewrite Esc.
    + exfalso. unfold inScope, inScopeOf in Ei. cbn [k1 with_seed k_scope k_seedScheme k_seedHost k_seedPort] in Ei. rewrite Esc in Ei. by rewrite default_scope_self in Ei.
Qed.

Lemma crawler_step_ok k l k' : crawler_ok k -> kstep k l k' -> crawler_ok k'.
Proof.
  intros Hk H. unfold kstep in H. pose proof Hk as [W C]. destruct l as [seed pages depth ms| | | |net| |]; cbn [exec] in H.
  - injection H as <-. by apply start_ok.
  - injection H as <-. split; [by apply (walk_ok_ext k)|]. destruct C as (C1 & C2 & C3 & C4 & C5). refine (conj C1 (conj C2 (conj C3 (conj C4 _)))). cbn [stop k_worker k_running k_stop k_queue k_visited k_maxPages].
    destruct (k_worker k) as [[]|]; try done; by destruct C5.
  - injection H as <-. unfold clear. destruct (_ || _) eqn:E; [done|]. apply orb_false_iff in E as [Er Ew]. case_bool_decide as Hw; [done|].
    destruct C as (C1 & C2 & C3 & C4 & C5). assert (Hn : k_worker k = None) by (by apply eq_None_not_Some).
    split.
    + unfold walk_ok, urls, frontier. cbn [k_worker k_queue k_log k_seen map app fst]. rewrite Hn. cbn. refine (conj _ (conj _ (conj _ (conj _ (conj _ _))))); [constructor|set_solver|unfold zsize; by rewrite size_empty|constructor|constructor|constructor].
    + unfold counts_ok. cbn [k_worker k_running k_stop k_queue k_maxPages k_maxDepth k_visited k_log]. rewrite Hn. refine (conj C1 (conj C2 (conj eq_refl (conj _ (conj Er _))))); [lia|]. intros _. by right.
  - destruct (k_worker k) as [[]|] eqn:Ew; try done. injection H as <-. by apply turn_ok.
  - destruct (k_worker k) as [[]|] eqn:Ew; try done. injection H as <-. by apply page_ok.
  - destruct (k_worker k) as [[]|] eqn:Ew; try done. injection H as <-. split.
    + apply (walk_ok_ext k); try done. unfold frontier. cbn [with_worker k_worker k_queue]. by rewrite Ew.
    + unfold counts_ok in *. rewrite Ew in C. exact C.
  - destruct (k_old k); [done|]. injection H as <-. split; [by apply (walk_ok_ext k)|exact C].
Qed.

Lemma crawler_reachable scope tr k : steps kstep (emptyCrawler scope) tr k -> crawler_ok k.
Proof.
  intros H. refine (steps_invariant kstep crawler_ok _ _ _ _ H _); [intros ? ? ?; apply crawler_step_ok|]. split.
  - unfold walk_ok, urls, frontier. cbn. refine (conj _ (conj _ (conj _ (conj _ (conj _ _))))); [constructor|set_solver|unfold zsize; by rewrite size_empty|constructor|constructor|constructor].
  - unfold counts_ok. cbn. refine (conj _ (conj _ (conj eq_refl (conj _ (conj eq_refl _))))); [lia|lia|lia|]. intros _. by right.
Qed.

(** ** What a crawl does *)

(** The host is the seed's or belongs to its domain, which is never a public suffix. *)
Definition in_tree (host seedHost : qstr) : Prop :=
  u_lower host = u_lower seedHost \/
  (let apex := apexOf (u_lower seedHost) in isPublicSuffix apex = false /\ (u_lower host = apex \/ exists sub, u_lower host = sub ++ 46 :: apex)).

Lemma inDefaultScope_iff host seedHost : inDefaultScope host seedHost = true <-> host <> [] /\ seedHost <> [] /\ in_tree host seedHost.
Proof.
  unfold inDefaultScope, in_tree. destruct host as [|x host]; cbn [is_nil orb]; [by split; [|intros []]|]. destruct seedHost as [|y seedHost]; cbn [is_nil orb]; [by split; [|intros (_ & ? & _)]|].
  cbv zeta. set (h := u_lower _). set (s := u_lower (y :: _)). destruct (seq_eqb h s) eqn:E.
  - apply seq_eqb_eq in E. split; [|done]. intros _. split_and!; try done. by left.
  - assert (Hne : h <> s) by (intros ->; by rewrite seq_eqb_refl in E). destruct (isPublicSuffix _) eqn:Ep.
    + split; [done|]. intros (_ & _ & [?|[? _]]); done.
    + rewrite orb_true_iff, seq_eqb_eq, ends_with_spec. split.
      * intros H. split_and!; try done. right. split; [done|]. destruct H as [?|H]; [by left|right]. by destruct H as [u Hu]; exists u.
      * intros (_ & _ & [?|[_ [?|[u Hu]]]]); [done|by left|right; by exists u].
Qed.

Lemma tls_of_http u : http_scheme (qu_scheme u) -> tls_of u = seq_eqb (qu_scheme u) (lit "https").
Proof. unfold tls_of. intros [-> | ->]; rewrite law_cieq_ascii by reflexivity; reflexivity. Qed.
Lemma effectivePort_asked u : http_scheme (qu_scheme u) -> qu_port u <> 0 -> effectivePort (qu_scheme u) (qu_port u) = port_of u.
Proof.
  intros _ Hp. pose proof (law_port_range u) as Hr. unfold effectivePort, port_of, qu_port_or. change (u_cieq (qu_scheme u) (lit "https")) with (tls_of u).
  destruct (0 <? qu_port u) eqn:E; to_prop.
  - assert ((qu_port u =? -1) = false) as -> by (apply Z.eqb_neq; lia). by rewrite Z.mod_small by lia.
  - assert (qu_port u = -1) as -> by lia. cbn [Z.eqb Pos.eqb]. by destruct (tls_of u).
Qed.

(** C20. A crawl stays where it may go.  Every request of a crawl is a GET to the scheme, host
    and port of an http or https page at an allowed depth, which the installed checker
    accepted; without one the host lies in the seed's domain, never beyond a public
    suffix, and the port is the seed's service: a standard web port for a seed on one,
    the same port otherwise (a page with the explicit port 0 apart).  No page is asked
    for twice, and at most 5000 are. *)
Theorem crawl_scoped scope tr k f :
  steps kstep (emptyCrawler scope) tr k -> f ∈ k_log k ->
  let u := qu_parse (f_url f) in
  http_scheme (qu_scheme u) /\ f_host f = qu_host u /\ f_tls f = seq_eqb (qu_scheme u) (lit "https") /\ f_port f = port_of u /\ f_request f = crawl_request u /\
  0 <= f_depth f <= k_maxDepth k /\ NoDup (map f_url (k_log k)) /\ zlen (k_log k) <= k_maxPages k <= 5000 /\
  match scope with
  | Some sc => sc (qu_scheme u) (f_host f) (qu_port u) (qu_path u) = true
  | None =>
      in_tree (f_host f) (k_seedHost k) /\
      (qu_port u <> 0 -> let seed := effectivePort (k_seedScheme k) (k_seedPort k) in if isStdWeb seed then isStdWeb (f_port f) = true else f_port f = seed)
  end.
Proof.
  intros Hs Hin. cbv zeta. assert (Hsc : k_scope k = scope).
  { refine (steps_invariant kstep (fun k => k_scope k = scope) _ _ _ _ Hs eq_refl). clear. intros k l k' <- H. unfold kstep in H.
    destruct l; cbn [exec] in H.
    - injection H as <-. unfold start. destruct (k_running k); [done|]. cbv zeta. destruct (_ || _ || _); [done|].
      destruct (canonicalLink _ _) as [c h]. destruct (is_nil c); [done|]. by destruct (inScope _ _ _ _ _).
    - by injection H as <-.
    - injection H as <-. unfold clear. by destruct (k_running k || _).
    - destruct (k_worker k) as [[]|]; try done. injection H as <-. unfold turn. destruct (k_queue k) as [|[]]; [done|]. by destruct (_ && _ && _).
    - destruct (k_worker k) as [[]|]; try done. injection H as <-. unfold page, crawlOne, extractAndEnqueue. cbv zeta. destruct (negb _); [done|].
      destruct (_ <=? _); [done|]. by destruct (enqueue _ _ _ _ _ _).
    - destruct (k_worker k) as [[]|]; try done. by injection H as <-.
    - destruct (k_old k); [done|]. by injection H as <-. }
  apply crawler_reachable in Hs as [(W1 & _ & _ & W4 & W5 & _) (C1 & C2 & C3 & C4 & _)].
  unfold urls in W1. apply NoDup_app in W1 as (W1 & _ & _). rewrite Forall_app in W4. destruct W4 as [W4 _].
  rewrite Forall_forall in W4. rewrite Forall_forall in W5. destruct (W5 _ Hin) as (A1 & A2 & A3 & A4).
  destruct (W4 (f_url f, f_depth f) ltac:(apply list_elem_of_fmap; by exists f)) as [Hd [Hh Hf]]. cbn [fst snd] in *.
  split_and!; try done; try lia; [by rewrite A2, tls_of_http|].
  unfold inScope, inScopeOf in Hf. rewrite Hsc in Hf. rewrite A1, A3. destruct scope as [sc|]; [done|].
  unfold inDefaultScopeOrigin in Hf. destruct (inDefaultScope _ _) eqn:E; [|done]. cbn [negb] in Hf. apply inDefaultScope_iff in E as (_ & _ & E). split; [done|].
  intros Hp. rewrite effectivePort_asked in Hf by done. cbv zeta in *. destruct (isStdWeb (effectivePort _ _)); [done|]. by apply Z.eqb_eq.
Qed.

Definition same_crawl (l : Label) : Prop := match l with LStart _ _ _ _ | LClear => False | _ => True end.

Lemma seen_grows k l k' : kstep k l k' -> same_crawl l -> k_seen k ⊆ k_seen k'.
Proof.
  intros H Hl. unfold kstep in H. destruct l; cbn [exec] in H; try done.
  - by injection H as <-.
  - destruct (k_worker k) as [[]|]; try done. injection H as <-. unfold turn. destruct (k_queue k) as [|[]]; [done|]. by destruct (_ && _ && _).
  - destruct (k_worker k) as [[]|]; try done. injection H as <-. unfold page, crawlOne, extractAndEnqueue. cbv zeta. destruct (negb _); [done|].
    destruct (_ <=? _); [done|]. destruct (enqueue _ _ _ _ _ _) eqn:E.
    apply enqueue_spec in E as (new & _ & E & _). cbn [with_walk with_worker k_seen] in *. set_solver.
  - destruct (k_worker k) as [[]|]; try done. by injection H as <-.
  - destruct (k_old k); [done|]. by injection H as <-.
Qed.

Lemma seen_grows_steps k tr k' : steps kstep k tr k' -> Forall same_crawl tr -> k_seen k ⊆ k_seen k'.
Proof.
  intros H. induction H as [|s l s1 tr s2 H1 H2 IH]; intros Htr; [done|]. apply Forall_cons in Htr as [Hl Htr]. etrans; [by apply (seen_grows s l s1)|by apply IH].
Qed.

(** C21. A crawl that ends by itself below its limits has covered the site: it has fetched the
    seed, and of every page fetched above the depth limit every link in scope. *)
Theorem crawl_complete scope tr0 k0 seed pages depth ms k1 tr k :
  steps kstep (emptyCrawler scope) tr0 k0 -> start seed pages depth ms k0 = (k1, true) -> steps kstep k1 tr k -> Forall same_crawl tr ->
  k_running k = false -> k_stop k = false -> k_visited k < k_maxPages k -> zsize (k_seen k) < kMaxSeen ->
  fst (canonicalLink seed (qu_parse seed)) ∈ map f_url (k_log k) /\
  forall f, f ∈ k_log k -> hs_ok (f_answer f) = true -> f_depth f < k_maxDepth k ->
    forall c, c ∈ page_links (inScope k) (f_url f) (rs_body (hs_parsed (f_answer f))) -> c ∈ map f_url (k_log k).
Proof.
  intros Hs Hst Hs1 Htr Hr Hnst Hv Hz. apply crawler_reachable in Hs.
  assert (H1 : crawler_ok k1) by (pose proof (start_ok seed pages depth ms k0 Hs) as H; by rewrite Hst in H).
  assert (Hk : crawler_ok k) by (refine (steps_invariant kstep crawler_ok _ _ _ _ Hs1 H1); intros ? ? ?; apply crawler_step_ok).
  assert (Hseed : fst (canonicalLink seed (qu_parse seed)) ∈ k_seen k1).
  { unfold start in Hst. destruct (k_running k0); [done|]. cbv zeta in Hst. destruct (_ || _); [done|]. destruct (canonicalLink seed _) as [c h]. destruct (is_nil c); [done|].
    destruct (negb _); [done|]. injection Hst as <-. cbn. set_solver. }
  assert (Hgrow : k_seen k1 ⊆ k_seen k) by exact (seen_grows_steps k1 tr k Hs1 Htr).
  destruct Hk as [(_ & W2 & _ & _ & _ & W6) (_ & _ & _ & _ & C5)].
  assert (Hall : forall u, u ∈ k_seen k -> u ∈ map f_url (k_log k)).
  { intros u Hu. apply W2 in Hu. unfold urls, frontier in Hu. destruct (k_worker k) as [[]|]; [congruence|by destruct C5; congruence| |];
      destruct C5 as [_ C5]; destruct (C5 Hnst) as [?|Hq]; try lia; rewrite Hq in Hu; by rewrite app_nil_r in Hu. }
  split; [apply Hall, Hgrow, Hseed|]. intros f Hf Ho Hd c Hc. rewrite Forall_forall in W6. destruct (W6 _ Hf Ho Hd) as [?|Hl]; [lia|]. by apply Hall, Hl.
Qed.

(** ** Termination *)

Definition is_worker (l : Label) : bool := match l with LTurn | LPage _ | LReturn => true | _ => false end.
Definition no_start (l : Label) : Prop := match l with LStart _ _ _ _ => False | _ => True end.
Definition work_left (k : Crawler) : Z :=
  match k_worker k with
  | None => 0 | Some WFinishing => 1
  | Some WLoop => 2 * (k_maxPages k - k_visited k) + 2
  | Some (WPage _ _) => 2 * (k_maxPages k - k_visited k) + 1
  end.
Definition stopping_left (k : Crawler) : Z := match k_worker k with None => 0 | Some WFinishing => 1 | Some WLoop => 2 | Some (WPage _ _) => 3 end.

Lemma step_work k l k' : crawler_ok k -> kstep k l k' -> no_start l ->
  work_left k' + (if is_worker l then 1 else 0) <= work_left k /\
  (k_stop k = true -> k_stop k' = true /\ stopping_left k' + (if is_worker l then 1 else 0) <= stopping_left k).
Proof.
  intros [_ (C1 & C2 & C3 & C4 & C5)] H Hl. pose proof (zlen_nonneg (k_log k)). unfold kstep in H. destruct l as [seed pages depth ms| | | |net| |]; cbn [exec is_worker] in *; try done.
  - injection H as <-. unfold work_left, stopping_left. cbn [stop k_worker k_maxPages k_visited k_stop]. split; [lia|intros _; split; [done|lia]].
  - injection H as <-. unfold clear. destruct (_ || _) eqn:E; [split; [lia|intros ?; split; [done|lia]]|]. apply orb_false_iff in E as [_ E]. case_bool_decide as Hn; [done|].
    apply eq_None_not_Some in Hn. unfold work_left, stopping_left. cbn [k_worker k_stop]. rewrite Hn. split; [lia|intros ?; split; [done|lia]].
  - destruct (k_worker k) as [[]|] eqn:Ew; try done. injection H as <-. unfold turn.
    assert (Hfin : work_left (with_worker false (Some WFinishing) (k_queue k) k) + 1 <= work_left k /\
       (k_stop k = true -> k_stop (with_worker false (Some WFinishing) (k_queue k) k) = true /\ stopping_left (with_worker false (Some WFinishing) (k_queue k) k) + 1 <= stopping_left k)).
    { unfold work_left, stopping_left. cbn [with_worker k_worker k_stop]. rewrite Ew. split; [lia|intros ?; split; [done|lia]]. }
    destruct (k_queue k) as [|[u d] q]; [done|]. destruct (_ && _ && _) eqn:E; [|done]. apply andb_true_iff in E as [E Ev]. apply andb_true_iff in E as [_ E]. apply Z.ltb_lt in Ev.
    unfold work_left, stopping_left. cbn [with_worker k_worker k_stop k_maxPages k_visited]. rewrite Ew. split; [lia|]. intros Hst. by rewrite Hst in E.
  - destruct (k_worker k) as [[]|] eqn:Ew; try done. injection H as <-.
    assert (E : exists sn q lg, crawlOne net url depth k = with_walk (k_visited k) sn q lg k).
    { unfold crawlOne, extractAndEnqueue. cbv zeta. destruct (negb _); [by do 3 eexists|]. destruct (_ <=? _); [by do 3 eexists|]. destruct (enqueue _ _ _ _ _ _). by do 3 eexists. }
    destruct E as (sn & q & lg & E). unfold page. rewrite E. unfold work_left, stopping_left. cbn [with_worker with_walk k_worker k_stop k_maxPages k_visited]. rewrite Ew.
    split; [lia|intros ?; split; [done|lia]].
  - destruct (k_worker k) as [[]|] eqn:Ew; try done. injection H as <-. unfold work_left, stopping_left. cbn [with_worker k_worker k_stop]. rewrite Ew. split; [lia|intros ?; split; [done|lia]].
  - destruct (k_old k); [done|]. injection H as <-. unfold work_left, stopping_left. cbn [k_worker k_stop k_maxPages k_visited]. split; [lia|intros ?; split; [done|lia]].
Qed.

(** A crawl ends: in every reachable state a live worker can take its next step, and
    until the next start it takes at most two for each page still allowed, two more at its
    loop's end, and at most three once it was told to stop, whatever pages answer and
    whatever else is called meanwhile. *)
Theorem crawl_terminates scope tr0 k tr k' :
  steps kstep (emptyCrawler scope) tr0 k -> steps kstep k tr k' -> Forall no_start tr ->
  let n := zlen (List.filter is_worker tr) in
  n <= 2 * (k_maxPages k - k_visited k) + 2 /\ (k_stop k = true -> n <= 3) /\
  (k_worker k <> None -> forall net, exists l k1, is_worker l = true /\ kstep k l k1 /\ (l = LTurn \/ l = LPage net \/ l = LReturn)).
Proof.
  intros Hr Hs Htr. cbv zeta. apply crawler_reachable in Hr. pose proof Hr as [_ (C1 & C2 & C3 & C4 & C5)].
  assert (Hw : zlen (List.filter is_worker tr) + work_left k' <= work_left k /\ (k_stop k = true -> zlen (List.filter is_worker tr) + stopping_left k' <= stopping_left k)).
  { clear C1 C2 C3 C4 C5. revert Hr. induction Hs as [s|s l s1 tr s2 H1 H2 IH]; intros Hr; [change (zlen (List.filter is_worker [])) with 0; split; [lia|intros _; lia]|].
    apply Forall_cons in Htr as [Hl Htr]. destruct (step_work s l s1 Hr H1 Hl) as [G1 G2]. destruct (IH Htr (crawler_step_ok _ _ _ Hr H1)) as [I1 I2].
    cbn [List.filter]. assert (E : zlen (if is_worker l then l :: List.filter is_worker tr else List.filter is_worker tr) = (if is_worker l then 1 else 0) + zlen (List.filter is_worker tr)).
    { destruct (is_worker l); unfold zlen; cbn [length]; lia. }
    rewrite E. split; [lia|]. intros Hst. destruct (G2 Hst) as [Hst1 G3]. specialize (I2 Hst1). lia. }
  assert (Hnn : 0 <= work_left k' /\ 0 <= stopping_left k').
  { assert (Hk' : crawler_ok k') by (refine (steps_invariant kstep crawler_ok _ _ _ _ Hs Hr); intros ? ? ?; apply crawler_step_ok). destruct Hk' as [_ (D1 & D2 & D3 & D4 & D5)].
    unfold work_left, stopping_left. destruct (k_worker k') as [[]|]; lia. }
  destruct Hw as [Hw1 Hw2]. split_and!.
  - assert (work_left k <= 2 * (k_maxPages k - k_visited k) + 2) by (unfold work_left; destruct (k_worker k) as [[]|]; lia). lia.
  - intros Hst. specialize (Hw2 Hst). assert (stopping_left k <= 3) by (unfold stopping_left; destruct (k_worker k) as [[]|]; lia). lia.
  - intros Hne net. unfold kstep. destruct (k_worker k) as [[|u d|]|] eqn:Ew; [| | |done].
    + exists LTurn. cbn [exec]. rewrite Ew. eauto 6.
    + exists (LPage net). cbn [exec]. rewrite Ew. eauto 7.
    + exists LReturn. cbn [exec]. rewrite Ew. eauto 7.
Qed.

(** The cut of a page: a prefix within the cap that ends behind a tag, and nothing when
    the cap holds no whole tag. *)
Lemma truncate_at_tag body maxBytes :
  0 <= maxBytes -> let t := truncateBodyAtTag body maxBytes in
  (exists rest, body = t ++ rest) /\ zlen t <= maxBytes /\ (zlen body <= maxBytes -> t = body) /\ (maxBytes < zlen body -> t = [] \/ exists u, t = u ++ [62]).
Proof.
  intros Hm. cbv zeta. unfold truncateBodyAtTag. assert ((maxBytes <? 0) = false) as -> by (apply Z.ltb_ge; lia). cbn [orb].
  destruct (zlen body <=? maxBytes) eqn:E; to_prop; [split; [exists []; by rewrite app_nil_r|]; split; [lia|]; split; [done|lia]|].
  set (head := take _ body). assert (Hl : zlen head <= maxBytes) by (unfold head, zlen in *; rewrite length_take; lia).
  destruct (last_index_of 62 head) as [i|] eqn:Ei; [|split; [by exists body|]; split; [done|]; split; [lia|by left]].
  unfold last_index_of in Ei. destruct (index_of 62 (rev head)) as [j|] eqn:Ej; [|done]. injection Ei as <-.
  destruct (index_of_Some _ _ _ Ej) as (Hj & _ & _). rewrite length_rev in Hj. apply index_of_split in Ej as [Er _].
  set (r := drop (S j) (rev head)) in Er. assert (Hh : head = rev r ++ 62 :: rev (take j (rev head))).
  { apply (f_equal (@rev Z)) in Er. rewrite rev_involutive, rev_app_distr in Er. cbn [rev] in Er. by rewrite <- app_assoc in Er. }
  assert (Hlen : (length head = length r + 1 + j)%nat) by (unfold r; rewrite length_drop, length_rev; lia).
  replace (length head - 1 - j + 1)%nat with (length r + 1)%nat by lia.
  assert (Ht : take (length r + 1) head = rev r ++ [62]).
  { rewrite Hh. rewrite take_app_ge by (rewrite length_rev; lia). rewrite length_rev. by replace (length r + 1 - length r)%nat with 1%nat by lia. }
  split; [|split; [|split; [lia|right; exists (rev r); exact Ht]]].
  - exists (drop (length r + 1) head ++ drop (Z.to_nat maxBytes) body). unfold head. rewrite app_assoc, take_drop. by rewrite take_drop.
  - unfold zlen in *. rewrite length_take. lia.
Qed.

Fixpoint exec_all (k : Crawler) (tr : list Label) : option Crawler :=
  match tr with
  | [] => Some k
  | l :: tr' => match exec k l with Some k' => exec_all k' tr' | None => None end
  end.
Lemma crawl_exec_steps tr : forall k k', exec_all k tr = Some k' -> steps kstep k tr k'.
Proof.
  induction tr as [|l tr IH]; intros k k' H; cbn [exec_all] in H; [injection H as <-; constructor|].
  destruct (exec k l) as [k1|] eqn:E; [|done]. econstructor; [exact E|by apply IH].
Qed.
End Walk.

(** ** A concrete instance and witnesses *)

Definition sp_port (u : SUrl) : Z := if (-1 <=? su_port u) && (su_port u <=? 65535) then su_port u else -1.
Definition sp_text (u : SUrl) : qstr :=
  su_scheme u ++ lit "://" ++ su_host u ++ (if sp_port u =? -1 then [] else [58] ++ number 10 (sp_port u)) ++ su_path u
  ++ (if is_nil (su_query u) then [] else [63] ++ su_query u).
(** A valid URL reads back from its text. *)
Definition sp_valid (u : SUrl) : bool :=
  let v := sample_parse (sp_text u) in
  all_ascii (su_scheme u) && seq_eqb (map ascii_lower1 (su_scheme u)) (su_scheme u) && seq_eqb (su_scheme v) (su_scheme u) && seq_eqb (su_host v) (su_host u)
  && (sp_port v =? sp_port u).
Definition sp_set_path (p : qstr) (u : SUrl) : SUrl :=
  let v := mkUrl (su_scheme u) (su_host u) (su_port u) p (su_query u) in if sp_valid v then v else u.

Definition sampleWebUrl : QtQUrl := {|
  Url := SUrl;
  qu_parse := sample_parse;
  qu_isValid := sp_valid;
  qu_isEmpty := @qu_isEmpty sampleQUrl;
  qu_resolved := sample_resolved;
  qu_scheme := su_scheme; qu_host := su_host; qu_port := sp_port; qu_path := su_path; qu_query := su_query;
  qu_empty := @qu_empty sampleQUrl;
  qu_setScheme := @qu_setScheme sampleQUrl; qu_setHost := @qu_setHost sampleQUrl; qu_setPort := @qu_setPort sampleQUrl;
  qu_setPath := sp_set_path; qu_setQuery := @qu_setQuery sampleQUrl
|}.
Definition sampleCrawlUrl : QtCrawlUrl sampleWebUrl := {|
  qu_noFragment := (fun u : SUrl => u) : @Url sampleWebUrl -> @Url sampleWebUrl;
  qu_hasQuery := (fun u : SUrl => negb (is_nil (su_query u))) : @Url sampleWebUrl -> bool;
  qu_toString := sp_text |}.
#[export] Instance sampleCrawlUrl_laws : QtCrawlUrlLaws asciiText sampleWebUrl sampleCrawlUrl.
Proof.
  assert (Hv : forall u, sp_valid u = true -> all_ascii (su_scheme u) = true /\ map ascii_lower1 (su_scheme u) = su_scheme u /\
    let v := sample_parse (sp_text u) in su_scheme v = su_scheme u /\ su_host v = su_host u /\ sp_port v = sp_port u).
  { intros u. unfold sp_valid. cbv zeta. rewrite !andb_true_iff, !seq_eqb_eq, Z.eqb_eq. tauto. }
  split; unfold same_origin; cbn [qu_port qu_isValid qu_scheme qu_host qu_setPath qu_resolved qu_parse qu_noFragment qu_toString sampleWebUrl sampleCrawlUrl].
  - intros u. unfold sp_port. destruct (_ && _) eqn:E; [to_prop; lia|lia].
  - intros u H. destruct (Hv _ H) as (Ha & Hl & _). by rewrite law_lower_ascii.
  - intros u H. by split.
  - intros u H. unfold sp_set_path. cbv zeta. destruct (sp_valid (mkUrl _ _ _ _ _)) eqn:E; by split.
  - intros b u H Hs. unfold sample_resolved. assert (is_nil (su_scheme u) = false) as -> by (by destruct (su_scheme u)). by split.
  - intros u H _. apply (Hv _ H).
Qed.

(** Only links in double quotes are found. *)
Fixpoint sample_links (s : qstr) : list (list (option qstr)) :=
  match s with
  | [] => []
  | _ :: s' => (if starts_with (pat "href=`") s then [[Some []; Some (before_chr 34 (drop 6 s)); None; None]] else []) ++ sample_links s'
  end.
Definition sampleHtml : QtHtmlRegex := {| rx_all p s := if seq_eqb p kLinks then sample_links s else [] |}.

Section Examples.
#[local] Existing Instances asciiText sampleWebUrl sampleCrawlUrl sampleHtml.

Definition ex_page : bytes := pat "<a href=`/x`><a href=`http://www.b.com/`><a href=`https://sub.a.com/y`><a href=`http://a.com:8080/`>".
Definition ex_net : Net := fun host port tls request =>
  mkSending true OOk [] request [] (mkResponse (lit "HTTP/1.1") 200 (lit "OK") [] (if starts_with (lit "GET / ") request then ex_page else []) [] false) (Some request) None.
Definition ex_start : Label := LStart (lit "http://a.com") 10 2 0.
Definition ex_walk : list Label := [LTurn; LPage ex_net; LTurn; LPage ex_net; LTurn; LPage ex_net; LTurn; LReturn].
Definition ex_state (tr : list Label) : Crawler := default (emptyCrawler None) (exec_all (emptyCrawler None) tr).

Lemma ex_crawl_reached tr : is_Some (exec_all (emptyCrawler None) tr) -> steps kstep (emptyCrawler None) tr (ex_state tr).
Proof. intros [k Hk]. apply crawl_exec_steps. unfold ex_state. by rewrite Hk. Qed.

Lemma crawl_scoped_witness :
  let k := ex_state (ex_start :: ex_walk) in
  map f_url (k_log k) = [lit "http://a.com/"; lit "http://a.com/x"; lit "https://sub.a.com/y"] /\ NoDup (map f_url (k_log k)).
Proof.
  cbv zeta. split; [vm_compute; reflexivity|].
  assert (H : steps kstep (emptyCrawler None) (ex_start :: ex_walk) (ex_state (ex_start :: ex_walk))) by (apply ex_crawl_reached; vm_compute; eexists; reflexivity).
  destruct (k_log (ex_state (ex_start :: ex_walk))) as [|f l] eqn:E; [exfalso; revert E; vm_compute; discriminate|].
  destruct (crawl_scoped None _ _ f H ltac:(rewrite E; apply list_elem_of_here)) as (_ & _ & _ & _ & _ & _ & Hn & _). rewrite <- E. exact Hn.
Defined.

Lemma crawl_complete_witness :
  let k := ex_state (ex_start :: ex_walk) in k_stop k = false /\ lit "http://a.com/" ∈ map f_url (k_log k).
Proof.
  cbv zeta. split; [vm_compute; reflexivity|].
  set (s := start (lit "http://a.com") 10 2 0 (emptyCrawler None)). assert (Es : s = (fst s, true)) by (vm_compute; reflexivity).
  assert (H : steps kstep (fst s) ex_walk (ex_state (ex_start :: ex_walk))).
  { apply crawl_exec_steps. vm_compute. reflexivity. }
  assert (Hl : Forall same_crawl ex_walk) by (repeat (apply Forall_cons; split; [exact I|]); constructor).
  destruct (crawl_complete None [] (emptyCrawler None) (lit "http://a.com") 10 2 0 (fst s) ex_walk _ (steps_nil kstep _) Es H Hl) as [Hc _];
    [vm_compute; reflexivity|vm_compute; reflexivity|vm_compute; reflexivity|vm_compute; reflexivity|].
  assert (E : fst (canonicalLink (lit "http://a.com") (qu_parse (lit "http://a.com"))) = lit "http://a.com/") by (vm_compute; reflexivity).
  rewrite E in Hc. exact Hc.
Defined.

Lemma crawl_terminates_witness :
  let k := ex_state [ex_start] in zlen (List.filter is_worker ex_walk) = 8 /\ zlen (List.filter is_worker ex_walk) <= 2 * (k_maxPages k - k_visited k) + 2.
Proof.
  cbv zeta. split; [vm_compute; reflexivity|].
  assert (H0 : steps kstep (emptyCrawler None) [ex_start] (ex_state [ex_start])) by (apply ex_crawl_reached; vm_compute; eexists; reflexivity).
  assert (H1 : steps kstep (ex_state [ex_start]) ex_walk (ex_state (ex_start :: ex_walk))) by (apply crawl_exec_steps; vm_compute; reflexivity).
  assert (Hl : Forall no_start ex_walk) by (repeat (apply Forall_cons; split; [exact I|]); constructor).
  destruct (crawl_terminates None _ _ _ _ H0 H1 Hl) as [Hn _]. exact Hn.
Defined.

(** An explicit port 0 passes the default scope as the scheme's port and is then asked
    for as port 0. *)
Example port_zero_in_scope :
  inDefaultScopeOrigin (lit "http") (lit "a.com") (qu_port (qu_parse (lit "http://a.com:0/"))) (lit "http") (lit "a.com") (-1) = true /\
  port_of (qu_parse (lit "http://a.com:0/")) = 0.
Proof. split; vm_compute; reflexivity. Qed.

(** A crawl started between the end of the last worker's loop and its return replaces
    the only handle on that worker: both crawls later ended, the destructor has nothing
    to wait for, yet the first worker has not returned. *)
Example replaced_worker_not_joined :
  let k := ex_state [ex_start; LStop; LTurn; ex_start; LStop; LTurn; LReturn] in k_worker k = None /\ k_old k = 1%nat.
Proof. split; vm_compute; reflexivity. Qed.
End Examples.
