(* ===== verification/Compare.v ===== *)
(** * The comparer: Src/Core/Networking/compare.{hpp,cpp}

    Tokenisers, the cell budget, the interning of tokens, the flat table of the
    longest common subsequence and the walk that emits the segments.  The flat
    [std::vector] is a list indexed as the code indexes it; the token table
    ([QHash]) is a [gmap]. *)

From S2P Require Import Prelude Qt QtSample.

Local Open Scope Z_scope.

Definition kMaxCells : Z := 16000000.
Definition kMaxTokensPerSide : Z := 20000.

(** ** Tokenisers *)

Section Tokenize.
Context `{QtText}.

(** The scan [while (j < size && f(s[j])) ++j]: what is passed and what is left. *)
Fixpoint span (f : Z -> bool) (s : qstr) : qstr * qstr :=
  match s with
  | [] => ([], [])
  | x :: s' => if f x then let '(p, r) := span f s' in (x :: p, r) else ([], s)
  end.

(** [s] is what is left of the input, [s.mid(i)]. *)
Fixpoint words_loop (fuel : nat) (s : qstr) (out : list qstr) : option (list qstr) :=
  match fuel with
  | O => None
  | S fuel' =>
      match s with
      | [] => Some out
      | x :: _ =>
          if kMaxTokensPerSide <? zlen out then Some out
          else if u_space x then
            let '(p, r) := span u_space s in
            words_loop fuel' r (out ++ [p])
          else
            let '(p, r) := span (fun c => negb (u_space c)) s in
            let '(q, r) := span u_space r in
            words_loop fuel' r (out ++ [p ++ q])
      end
  end.

Definition tokenizeWords (s : qstr) : option (list qstr) := words_loop (S (length s)) s [].

(** [cur] is the line begun so far, [s.mid(start, i - start)]. *)
Fixpoint lines_loop (s cur : qstr) (out : list qstr) : qstr * list qstr :=
  match s with
  | [] => (cur, out)
  | x :: s' =>
      if kMaxTokensPerSide <? zlen out then (cur ++ s, out)
      else if x =? 10 then lines_loop s' [] (out ++ [cur ++ [x]])
      else lines_loop s' (cur ++ [x]) out
  end.

Definition tokenizeLines (s : qstr) : list qstr :=
  let '(rest, out) := lines_loop s [] [] in
  if negb (is_nil rest) && (zlen out <=? kMaxTokensPerSide) then out ++ [rest] else out.

Definition isHighSurrogate (c : Z) : bool := (55296 <=? c) && (c <=? 56319).
Definition isLowSurrogate (c : Z) : bool := (56320 <=? c) && (c <=? 57343).

Fixpoint chars_loop (s : qstr) (out : list qstr) : list qstr :=
  match s with
  | [] => out
  | x :: s' =>
      if kMaxTokensPerSide <? zlen out then out
      else match s' with
           | y :: s'' =>
               if isHighSurrogate x && isLowSurrogate y then chars_loop s'' (out ++ [[x; y]])
               else chars_loop s' (out ++ [[x]])
           | [] => chars_loop s' (out ++ [[x]])
           end
  end.

Definition tokenizeChars (s : qstr) : list qstr := chars_loop s [].

Fixpoint bytes_loop (b : bytes) (out : list qstr) : list qstr :=
  match b with
  | [] => out
  | c :: b' => if kMaxTokensPerSide <? zlen out then out else bytes_loop b' (out ++ [hex_byte c])
  end.

Definition tokenizeBytes (b : bytes) : list qstr := bytes_loop b [].
End Tokenize.

(** ** The diff *)

Record Segment := mkSegment { seg_op : qstr; seg_text : qstr }.

Record DiffResult := mkDiff {
  df_segments : list Segment;
  df_added : Z; df_removed : Z; df_common : Z;
  df_identical : bool; df_truncated : bool
}.

(** [floor(sqrt(double(kMaxCells)))] is exact for this constant. *)
Definition budgetedSizes (n m : Z) : Z * Z :=
  if (n <=? 0) || (m <=? 0) then (n, m)
  else if n * m <=? kMaxCells then (n, m)
  else
    let side := Z.sqrt kMaxCells in
    if n <=? side then (n, Z.quot kMaxCells n)
    else if m <=? side then (Z.quot kMaxCells m, m)
    else (side, side).

(** [idOf] over a token list. *)
Fixpoint intern (ids : gmap qstr nat) (ts : list qstr) : gmap qstr nat * list nat :=
  match ts with
  | [] => (ids, [])
  | t :: ts' =>
      match ids !! t with
      | Some id => let '(ids', l) := intern ids ts' in (ids', id :: l)
      | None =>
          let id := size ids in
          let '(ids', l) := intern (<[t := id]> ids) ts' in (ids', id :: l)
      end
  end.

(** [cell(i, j)] of the flat table. *)
Definition cell (stride : nat) (dp : list Z) (i j : nat) : Z := nth (i * stride + j) dp 0.
Definition set_cell (stride : nat) (dp : list Z) (i j : nat) (v : Z) : list Z := <[(i * stride + j)%nat := v]> dp.

Section Table.
Context (ai bi : list nat).
Let n := length ai.
Let m := length bi.
Let stride := (m + 1)%nat.

(** The inner loop for row [i]: columns [j - 1] down to 0. *)
Fixpoint fill_row (i j : nat) (dp : list Z) : list Z :=
  match j with
  | O => dp
  | S j' =>
      let v := if (nth i ai 0 =? nth j' bi 0)%nat then cell stride dp (i + 1) (j' + 1) + 1
               else Z.max (cell stride dp (i + 1) j') (cell stride dp i (j' + 1)) in
      fill_row i j' (set_cell stride dp i j' v)
  end.

Fixpoint fill_rows (i : nat) (dp : list Z) : list Z :=
  match i with
  | O => dp
  | S i' => fill_rows i' (fill_row i' m dp)
  end.

Definition table : list Z := fill_rows n (replicate ((n + 1) * (m + 1)) 0).
End Table.

Definition push (segments : list Segment) (op text : qstr) : list Segment :=
  match last segments with
  | Some s =>
      if seq_eqb (seg_op s) op
      then take (length segments - 1) segments ++ [mkSegment (seg_op s) (seg_text s ++ text)]
      else segments ++ [mkSegment op text]
  | None => segments ++ [mkSegment op text]
  end.

Record Walk := mkWalk { wk_segments : list Segment; wk_added : Z; wk_removed : Z }.

Definition push_eq (w : Walk) (t : qstr) : Walk :=
  mkWalk (push (wk_segments w) (lit "eq") t) (wk_added w) (wk_removed w).
Definition push_del (w : Walk) (t : qstr) : Walk :=
  mkWalk (push (wk_segments w) (lit "del") t) (wk_added w) (wk_removed w + 1).
Definition push_ins (w : Walk) (t : qstr) : Walk :=
  mkWalk (push (wk_segments w) (lit "ins") t) (wk_added w + 1) (wk_removed w).

(** The three loops of the walk from [(i, j)]. *)
Fixpoint walk (fuel : nat) (a b : list qstr) (ai bi : list nat) (dp : list Z) (i j : nat) (w : Walk) : option Walk :=
  match fuel with
  | O => None
  | S fuel' =>
      let stride := (length b + 1)%nat in
      if (i <? length a)%nat && (j <? length b)%nat then
        if (nth i ai 0 =? nth j bi 0)%nat
        then walk fuel' a b ai bi dp (i + 1) (j + 1) (push_eq w (nth i a []))
        else if cell stride dp i (j + 1) <=? cell stride dp (i + 1) j
        then walk fuel' a b ai bi dp (i + 1) j (push_del w (nth i a []))
        else walk fuel' a b ai bi dp i (j + 1) (push_ins w (nth j b []))
      else Some (fold_left push_ins (drop j b) (fold_left push_del (drop i a) w))
  end.

(** Clip one side to [k] tokens. *)
Definition clip (k : Z) (p : list qstr * bool) : list qstr * bool :=
  if k <? zlen (fst p) then (take (Z.to_nat k) (fst p), true) else p.

Definition lcsDiff (a b : list qstr) : option DiffResult :=
  let '(a, ta) := clip kMaxTokensPerSide (a, false) in
  let '(b, tb) := clip kMaxTokensPerSide (b, false) in
  let bs := budgetedSizes (zlen a) (zlen b) in
  let '(a, ta) := clip (fst bs) (a, ta) in
  let '(b, tb) := clip (snd bs) (b, tb) in
  let truncated := ta || tb in
  let '(ids, ai) := intern ∅ a in
  let '(_, bi) := intern ids b in
  let dp := table ai bi in
  let common := if is_nil a || is_nil b then 0 else cell (length b + 1) dp 0 0 in
  (fun w =>
     mkDiff (wk_segments w) (wk_added w) (wk_removed w) common
       (negb truncated && (wk_added w =? 0) && (wk_removed w =? 0)) truncated)
  <$> walk (S (length a + length b)) a b ai bi dp 0 0 (mkWalk [] 0 0).

Definition diff `{QtText} (mode a b : qstr) : option DiffResult :=
  let m := u_lower (u_trimmed mode) in
  if seq_eqb m (lit "lines") then lcsDiff (tokenizeLines a) (tokenizeLines b)
  else if seq_eqb m (lit "chars") then lcsDiff (tokenizeChars a) (tokenizeChars b)
  else if seq_eqb m (lit "bytes") then lcsDiff (tokenizeBytes (u_toutf8 a)) (tokenizeBytes (u_toutf8 b))
  else
    match tokenizeWords a, tokenizeWords b with
    | Some x, Some y => lcsDiff x y
    | _, _ => None
    end.

Definition diffBytes (a b : bytes) : option DiffResult := lcsDiff (tokenizeBytes a) (tokenizeBytes b).

(** ** Longest common subsequences *)

Section Lcs.
Context {A : Type} `{EqDecision A}.
Implicit Types a b c : list A.

Fixpoint lcs (a : list A) : list A -> Z :=
  fix inner b :=
    match a, b with
    | x :: a', y :: b' => if decide (x = y) then lcs a' b' + 1 else Z.max (lcs a' b) (inner b')
    | _, _ => 0
    end.

Lemma lcs_nil_l b : lcs [] b = 0.
Proof. by destruct b. Qed.
Lemma lcs_nil_r a : lcs a [] = 0.
Proof. by destruct a. Qed.
Lemma lcs_cons x a y b :
  lcs (x :: a) (y :: b) = if decide (x = y) then lcs a b + 1 else Z.max (lcs a (y :: b)) (lcs (x :: a) b).
Proof. done. Qed.

(** [k] is the length of a longest common subsequence. *)
Definition is_lcs a b (k : Z) : Prop :=
  (exists c, c `sublist_of` a /\ c `sublist_of` b /\ zlen c = k) /\
  forall c, c `sublist_of` a -> c `sublist_of` b -> zlen c <= k.

Lemma sublist_cons_tail x c a : (x :: c) `sublist_of` a -> c `sublist_of` a.
Proof. intros H. etrans; [|exact H]. by apply sublist_cons. Qed.

Lemma sublist_skip_ne z c x a : z <> x -> (z :: c) `sublist_of` (x :: a) -> (z :: c) `sublist_of` a.
Proof. intros Hn H. inversion H; by subst. Qed.

Lemma sublist_pop z c x a : (z :: c) `sublist_of` (x :: a) -> c `sublist_of` a.
Proof. intros H. inversion H; subst; [done|]. by eapply sublist_cons_tail. Qed.

Lemma sublist_full c a : c `sublist_of` a -> (length a <= length c)%nat -> c = a.
Proof.
  induction 1 as [|x c a Hs IH|x c a Hs IH]; intros Hl; [done| |].
  - f_equal. apply IH. cbn in Hl. lia.
  - apply sublist_length in Hs. cbn in Hl. lia.
Qed.

Lemma lcs_upper a : forall b c, c `sublist_of` a -> c `sublist_of` b -> zlen c <= lcs a b.
Proof.
  induction a as [|x a IHa]; intros b.
  { intros c Hc _. apply sublist_nil_r in Hc as ->. by rewrite lcs_nil_l. }
  induction b as [|y b IHb]; intros c Hca Hcb.
  { apply sublist_nil_r in Hcb as ->. by rewrite lcs_nil_r. }
  rewrite lcs_cons. destruct (decide (x = y)) as [->|Hxy].
  - destruct c as [|z c]; [pose proof (IHa b [] (sublist_nil_l _) (sublist_nil_l _)) as Hn; rewrite zlen_nil in *; lia|].
    rewrite zlen_cons. apply sublist_pop in Hca, Hcb. specialize (IHa b c Hca Hcb). lia.
  - destruct c as [|z c].
    + pose proof (IHa (y :: b) [] (sublist_nil_l _) (sublist_nil_l _)). lia.
    + destruct (decide (z = x)) as [->|Hz].
      * assert (Hb : (x :: c) `sublist_of` b) by by eapply sublist_skip_ne. specialize (IHb _ Hca Hb). lia.
      * assert (Ha : (z :: c) `sublist_of` a) by by eapply sublist_skip_ne. specialize (IHa _ _ Ha Hcb). lia.
Qed.

Lemma lcs_witness a : forall b, exists c, c `sublist_of` a /\ c `sublist_of` b /\ zlen c = lcs a b.
Proof.
  induction a as [|x a IHa]; intros b.
  { exists []. rewrite lcs_nil_l. split; [done|]. split; [apply sublist_nil_l|done]. }
  induction b as [|y b IHb].
  { exists []. rewrite lcs_nil_r. split; [apply sublist_nil_l|done]. }
  rewrite lcs_cons. destruct (decide (x = y)) as [->|Hxy].
  - destruct (IHa b) as (c & Ha & Hb & Hl). exists (y :: c). rewrite zlen_cons, Hl.
    split; [by apply sublist_skip|]. split; [by apply sublist_skip|done].
  - destruct (Z.max_spec (lcs a (y :: b)) (lcs (x :: a) b)) as [[_ ->]|[_ ->]].
    + destruct IHb as (c & Ha & Hb & Hl). exists c. split; [done|]. split; [by apply sublist_cons|done].
    + destruct (IHa (y :: b)) as (c & Ha & Hb & Hl). exists c. split; [by apply sublist_cons|done].
Qed.

Lemma lcs_is_lcs a b : is_lcs a b (lcs a b).
Proof. split; [apply lcs_witness|]. intros c. apply lcs_upper. Qed.

Lemma lcs_bounds a b : 0 <= lcs a b <= zlen a /\ lcs a b <= zlen b.
Proof.
  destruct (lcs_witness a b) as (c & Ha & Hb & <-). apply sublist_length in Ha, Hb.
  unfold zlen. lia.
Qed.

Lemma lcs_refl a : lcs a a = zlen a.
Proof. pose proof (lcs_bounds a a). pose proof (lcs_upper a a a). specialize (H0 (reflexivity a) (reflexivity a)). lia. Qed.

Lemma lcs_full a b : lcs a b = zlen a -> lcs a b = zlen b -> a = b.
Proof.
  destruct (lcs_witness a b) as (c & Ha & Hb & Hl). rewrite <- Hl. unfold zlen. intros E1 E2.
  rewrite <- (sublist_full c a Ha) by lia. apply (sublist_full c b Hb). lia.
Qed.
End Lcs.

(** Names for the elements that respect equality do not change it. *)
Lemma lcs_rename {A B} `{EqDecision A, EqDecision B} (R : A -> B -> Prop) (a b : list A) (ai bi : list B) :
  (forall x y i j, R x i -> R y j -> (x = y <-> i = j)) ->
  Forall2 R a ai -> Forall2 R b bi -> lcs a b = lcs ai bi.
Proof.
  intros HR Ha. revert b bi. induction Ha as [|x i a ai Hxi Ha IHa]; intros b bi Hb.
  { by rewrite !lcs_nil_l. }
  induction Hb as [|y j b bi Hyj Hb IHb]; [by rewrite !lcs_nil_r|].
  rewrite !lcs_cons. rewrite (IHa b bi Hb), (IHa (y :: b) (j :: bi)), IHb by by constructor.
  specialize (HR _ _ _ _ Hxi Hyj). destruct (decide (x = y)), (decide (i = j)); tauto.
Qed.

(** ** The table *)

Section TableSpec.
Context (ai bi : list nat).
Let n := length ai.
Let m := length bi.
Let stride := (m + 1)%nat.

(** Rows below [i], and row [i] from column [j] on, hold their LCS lengths; the
    last column is still zero everywhere. *)
Definition filled (dp : list Z) (i j : nat) : Prop :=
  length dp = ((n + 1) * (m + 1))%nat /\
  (forall i', (i' <= n)%nat -> cell stride dp i' m = 0) /\
  forall i' j', (i' <= n)%nat -> (j' <= m)%nat -> (i < i' \/ i' = i /\ j <= j')%nat ->
    cell stride dp i' j' = lcs (drop i' ai) (drop j' bi).

Lemma cell_set_same dp i j v :
  length dp = ((n + 1) * (m + 1))%nat -> (i <= n)%nat -> (j <= m)%nat ->
  cell stride (set_cell stride dp i j v) i j = v.
Proof.
  intros Hl Hi Hj. unfold cell, set_cell, stride. apply nth_lookup_Some, list_lookup_insert_eq. nia.
Qed.

Lemma cell_set_other dp i j i' j' v :
  (j <= m)%nat -> (j' <= m)%nat -> (i, j) <> (i', j') ->
  cell stride (set_cell stride dp i j v) i' j' = cell stride dp i' j'.
Proof.
  intros Hj Hj' Hne. unfold cell, set_cell, stride. rewrite !nth_lookup. rewrite list_lookup_insert_ne; [done|].
  intros E. apply Hne. assert (i = i') as -> by nia. f_equal. lia.
Qed.

Lemma drop_nth (l : list nat) i : (i < length l)%nat -> drop i l = nth i l 0%nat :: drop (i + 1) l.
Proof.
  intros Hi. destruct (lookup_lt_is_Some_2 l i Hi) as [x Hx].
  rewrite (drop_S _ _ _ Hx), (nth_lookup_Some _ _ _ _ Hx). by rewrite Nat.add_1_r.
Qed.

Lemma fill_row_filled i j : forall dp,
  (i < n)%nat -> (j <= m)%nat -> filled dp i j -> filled (fill_row ai bi i j dp) i 0.
Proof.
  induction j as [|j IH]; intros dp Hi Hj Hf; [done|]. cbn [fill_row]. fold m. fold stride. apply IH; [done|lia|].
  destruct Hf as (Hl & Hz & Hc). match goal with |- filled (set_cell _ _ _ _ ?e) _ _ => set (v := e) end.
  assert (Hv : v = lcs (drop i ai) (drop j bi)).
  { subst v. rewrite (drop_nth ai i), (drop_nth bi j) by done. rewrite lcs_cons. rewrite !Hc by lia.
    rewrite (drop_nth ai i), (drop_nth bi j) by done.
    destruct (decide _) as [->|Hne]; [by rewrite Nat.eqb_refl|]. by apply Nat.eqb_neq in Hne as ->. }
  split; [unfold set_cell; by rewrite length_insert|]. split.
  - intros i' Hi'. rewrite cell_set_other; [by apply Hz|lia|done|]. intros E. injection E. lia.
  - intros i' j' Hi' Hj' Hor. destruct (decide ((i, j) = (i', j'))) as [E|Hne].
    + injection E as <- <-. rewrite cell_set_same by (done || lia). done.
    + rewrite cell_set_other by (done || lia). apply Hc; [done|done|].
      destruct (decide (i = i')) as [->|]; [|lia]. assert (j <> j') by congruence. lia.
Qed.

Lemma fill_rows_filled i : forall dp, (i <= n)%nat -> filled dp i 0 -> filled (fill_rows ai bi i dp) 0 0.
Proof.
  induction i as [|i IH]; intros dp Hi Hf; [done|]. cbn [fill_rows]. fold m. apply IH; [lia|].
  apply fill_row_filled; [lia|done|]. destruct Hf as (Hl & Hz & Hc). split; [done|]. split; [done|].
  intros i' j' Hi' Hj' [Hlt|[-> Hj]].
  - apply Hc; [done|done|lia].
  - assert (j' = m) as -> by lia. rewrite Hz by lia. by rewrite (drop_ge bi), lcs_nil_r.
Qed.

Lemma table_spec i j :
  (i <= n)%nat -> (j <= m)%nat -> cell stride (table ai bi) i j = lcs (drop i ai) (drop j bi).
Proof.
  intros Hi Hj. unfold table. fold n m.
  assert (Hzero : forall i j, cell stride (replicate ((n + 1) * (m + 1)) 0) i j = 0).
  { intros i' j'. unfold cell. rewrite nth_lookup. destruct (_ !! _) eqn:E; [|done]. by apply lookup_replicate in E as [-> _]. }
  assert (Hf : filled (replicate ((n + 1) * (m + 1)) 0) n 0).
  { split; [apply length_replicate|]. split; [intros; apply Hzero|]. intros i' j' Hi' Hj' Hor.
    rewrite Hzero, (drop_ge ai) by (fold n; lia). by rewrite lcs_nil_l. }
  destruct (fill_rows_filled n _ (Nat.le_refl n) Hf) as (_ & _ & Hc). apply Hc; lia.
Qed.
End TableSpec.

(** ** Interning *)

Definition ids_ok (ids : gmap qstr nat) : Prop :=
  (forall t v, ids !! t = Some v -> (v < size ids)%nat) /\
  forall t t' v, ids !! t = Some v -> ids !! t' = Some v -> t = t'.

Lemma ids_ok_insert ids t : ids_ok ids -> ids !! t = None -> ids_ok (<[t := size ids]> ids).
Proof.
  intros [Hlt Hinj] Hn. split.
  - intros t' v Hv. rewrite map_size_insert_None by done. apply lookup_insert_Some in Hv as [[_ <-]|[_ Hv]]; [lia|].
    specialize (Hlt _ _ Hv). lia.
  - intros t1 t2 v H1 H2. apply lookup_insert_Some in H1 as [[<- <-]|[_ H1]], H2 as [[<- E]|[_ H2]].
    + done.
    + apply Hlt in H2. lia.
    + subst v. apply Hlt in H1. lia.
    + by eapply Hinj.
Qed.

Lemma intern_spec ts : forall ids, ids_ok ids ->
  let '(ids', l) := intern ids ts in
  ids_ok ids' /\ ids ⊆ ids' /\ Forall2 (fun t v => ids' !! t = Some v) ts l.
Proof.
  induction ts as [|t ts IH]; intros ids Hok; cbn [intern]; [done|]. destruct (ids !! t) as [v|] eqn:E.
  - specialize (IH ids Hok). destruct (intern ids ts) as [ids' l]. destruct IH as (Hok' & Hsub & Hf).
    split; [done|]. split; [done|]. constructor; [|done]. by eapply lookup_weaken.
  - specialize (IH _ (ids_ok_insert _ _ Hok E)). destruct (intern _ ts) as [ids' l]. destruct IH as (Hok' & Hsub & Hf).
    split; [done|]. split; [etrans; [by apply insert_subseteq|exact Hsub]|]. constructor; [|done].
    eapply lookup_weaken; [apply lookup_insert_eq|exact Hsub].
Qed.

Lemma intern_both a b :
  let '(ids, ai) := intern ∅ a in
  let '(_, bi) := intern ids b in
  exists R : qstr -> nat -> Prop,
    (forall x y i j, R x i -> R y j -> (x = y <-> i = j)) /\ Forall2 R a ai /\ Forall2 R b bi.
Proof.
  pose proof (intern_spec a ∅) as Ha. destruct (intern ∅ a) as [ids ai].
  destruct Ha as (Hok & _ & Ha). { split; [intros t v Hv|intros t t' v Hv _]; by rewrite lookup_empty in Hv. }
  pose proof (intern_spec b ids Hok) as Hb. destruct (intern ids b) as [ids' bi]. destruct Hb as ((_ & Hinj) & Hsub & Hb).
  exists (fun t v => ids' !! t = Some v). split; [|split; [|done]].
  - intros x y i j Hx Hy. split; [intros ->; congruence|]. intros ->. by eapply Hinj.
  - eapply Forall2_impl; [exact Ha|]. intros t v Hv. exact (lookup_weaken _ _ _ _ Hv Hsub).
Qed.

(** ** Segments *)

(** The text of the segments whose operation is one of [ops]. *)
Definition side (ops : list qstr) (segs : list Segment) : qstr :=
  flat_map (fun s => if bool_decide (seg_op s ∈ ops) then seg_text s else []) segs.

(** Runs are maximal: neighbours have different operations. *)
Definition coalesced (segs : list Segment) : Prop :=
  forall i s1 s2, segs !! i = Some s1 -> segs !! S i = Some s2 -> seg_op s1 <> seg_op s2.

Lemma coalesced_snoc segs x :
  coalesced (segs ++ [x]) <-> coalesced segs /\ forall y, last segs = Some y -> seg_op y <> seg_op x.
Proof.
  unfold coalesced. split.
  - intros Hc. split.
    + intros i s1 s2 H1 H2. eapply (Hc i); by apply lookup_app_l_Some.
    + intros y Hy. rewrite last_lookup in Hy. apply (Hc (Nat.pred (length segs))); [by apply lookup_app_l_Some|].
      assert (segs <> []) by by destruct segs.
      replace (S (Nat.pred (length segs))) with (length segs) by (destruct segs; done).
      rewrite lookup_app_r by lia. by rewrite Nat.sub_diag.
  - intros [Hc Hl] i s1 s2 H1 H2. destruct (decide (S i < length segs)%nat).
    + rewrite lookup_app_l in H1, H2 by lia. by eapply Hc.
    + rewrite lookup_app_r in H2 by lia. apply list_lookup_singleton_Some in H2 as [Hi <-].
      apply Hl. rewrite last_lookup. rewrite lookup_app_l in H1 by lia. by replace (Nat.pred (length segs)) with i by lia.
Qed.

Lemma push_spec ops segs op t :
  coalesced segs ->
  coalesced (push segs op t) /\
  side ops (push segs op t) = side ops segs ++ (if bool_decide (op ∈ ops) then t else []).
Proof.
  intros Hc. unfold push. destruct (last segs) as [s|] eqn:El.
  - apply last_Some in El as [l ->]. apply coalesced_snoc in Hc as [Hc Hl]. destruct (seq_eqb (seg_op s) op) eqn:E.
    + apply seq_eqb_eq in E as <-. rewrite length_app, Nat.add_sub, take_app_length. split.
      * apply coalesced_snoc. split; [done|]. intros y Hy. cbn. by apply Hl.
      * unfold side. rewrite !flat_map_app. cbn. rewrite !app_nil_r, <- app_assoc.
        by destruct (bool_decide (seg_op s ∈ ops)).
    + split.
      * apply coalesced_snoc. split; [by apply coalesced_snoc|]. intros y Hy. rewrite last_snoc in Hy.
        injection Hy as <-. cbn. intros Heq. rewrite Heq in E. by rewrite seq_eqb_refl in E.
      * unfold side. rewrite flat_map_app. cbn. by rewrite app_nil_r.
  - apply last_None in El as ->. split; [|cbn; by rewrite app_nil_r].
    intros [|i] s1 s2 _ H2; [done|]. by destruct i.
Qed.

Definition opsA : list qstr := [lit "eq"; lit "del"].
Definition opsB : list qstr := [lit "eq"; lit "ins"].

(** What a piece of the walk adds to the result. *)
Definition extends (w w' : Walk) (ta tb : list qstr) (na nr : Z) : Prop :=
  (coalesced (wk_segments w) -> coalesced (wk_segments w')) /\
  (coalesced (wk_segments w) ->
   side opsA (wk_segments w') = side opsA (wk_segments w) ++ concat ta /\
   side opsB (wk_segments w') = side opsB (wk_segments w) ++ concat tb) /\
  wk_added w' = wk_added w + na /\ wk_removed w' = wk_removed w + nr.

Lemma extends_refl w : extends w w [] [] 0 0.
Proof. split; [done|]. split; [intros _; by rewrite !app_nil_r|lia]. Qed.

Lemma extends_eq w w' ta tb na nr na' nr' :
  extends w w' ta tb na nr -> na = na' -> nr = nr' -> extends w w' ta tb na' nr'.
Proof. by intros ? -> ->. Qed.

Lemma extends_trans w1 w2 w3 ta ta' tb tb' na na' nr nr' :
  extends w1 w2 ta tb na nr -> extends w2 w3 ta' tb' na' nr' ->
  extends w1 w3 (ta ++ ta') (tb ++ tb') (na + na') (nr + nr').
Proof.
  intros (Hc1 & Hs1 & ? & ?) (Hc2 & Hs2 & ? & ?). split; [auto|]. split; [|lia]. intros Hc.
  destruct (Hs1 Hc) as [EA EB]. destruct (Hs2 (Hc1 Hc)) as [EA' EB'].
  by rewrite EA', EB', EA, EB, !concat_app, <- !app_assoc.
Qed.

Lemma push_extends w w' op t ta tb na nr :
  wk_segments w' = push (wk_segments w) op t ->
  concat ta = (if bool_decide (op ∈ opsA) then t else []) ->
  concat tb = (if bool_decide (op ∈ opsB) then t else []) ->
  wk_added w' = wk_added w + na -> wk_removed w' = wk_removed w + nr ->
  extends w w' ta tb na nr.
Proof.
  intros Hw Ha Hb Hna Hnr. unfold extends. rewrite Hw, Ha, Hb. split; [intros Hc; by apply (push_spec [])|].
  split; [|done]. intros Hc. split; by apply push_spec.
Qed.

Lemma push_eq_extends w t : extends w (push_eq w t) [t] [t] 0 0.
Proof. apply (push_extends _ _ (lit "eq") t); cbn; rewrite ?app_nil_r; done || lia. Qed.
Lemma push_del_extends w t : extends w (push_del w t) [t] [] 0 1.
Proof. apply (push_extends _ _ (lit "del") t); cbn; rewrite ?app_nil_r; done || lia. Qed.
Lemma push_ins_extends w t : extends w (push_ins w t) [] [t] 1 0.
Proof. apply (push_extends _ _ (lit "ins") t); cbn; rewrite ?app_nil_r; done || lia. Qed.

Lemma fold_del_extends l : forall w, extends w (fold_left push_del l w) l [] 0 (zlen l).
Proof.
  induction l as [|t l IH]; intros w; [apply extends_refl|]. cbn [fold_left]. rewrite zlen_cons, Z.add_comm.
  exact (extends_trans _ _ _ _ _ _ _ _ _ _ _ (push_del_extends w t) (IH _)).
Qed.
Lemma fold_ins_extends l : forall w, extends w (fold_left push_ins l w) [] l (zlen l) 0.
Proof.
  induction l as [|t l IH]; intros w; [apply extends_refl|]. cbn [fold_left]. rewrite zlen_cons, Z.add_comm.
  exact (extends_trans _ _ _ _ _ _ _ _ _ _ _ (push_ins_extends w t) (IH _)).
Qed.

(** ** The walk *)

Section WalkSpec.
Context (a b : list qstr) (ai bi : list nat) (R : qstr -> nat -> Prop).
Context (HR : forall x y i j, R x i -> R y j -> (x = y <-> i = j)).
Context (Ha : Forall2 R a ai) (Hb : Forall2 R b bi).

Lemma cell_lcs i j :
  (i <= length a)%nat -> (j <= length b)%nat ->
  cell (length b + 1) (table ai bi) i j = lcs (drop i a) (drop j b).
Proof.
  intros Hi Hj. pose proof (Forall2_length _ _ _ Ha) as La. pose proof (Forall2_length _ _ _ Hb) as Lb. rewrite Lb.
  rewrite table_spec by lia. symmetry. apply (lcs_rename R); [done| |]; by apply Forall2_drop.
Qed.

Lemma nth_eq i j :
  (i < length a)%nat -> (j < length b)%nat ->
  (nth i ai 0%nat = nth j bi 0%nat <-> nth i a [] = nth j b []).
Proof.
  intros Hi Hj. destruct (lookup_lt_is_Some_2 a i Hi) as [x Hx]. destruct (lookup_lt_is_Some_2 b j Hj) as [y Hy].
  destruct (Forall2_lookup_l _ _ _ _ _ Ha Hx) as (u & Hu & Hxu). destruct (Forall2_lookup_l _ _ _ _ _ Hb Hy) as (v & Hv & Hyv).
  rewrite (nth_lookup_Some _ _ _ _ Hx), (nth_lookup_Some _ _ _ _ Hy), (nth_lookup_Some _ _ _ _ Hu), (nth_lookup_Some _ _ _ _ Hv).
  symmetry. by apply HR.
Qed.

Lemma drop_nth_str (l : list qstr) i : (i < length l)%nat -> drop i l = nth i l [] :: drop (i + 1) l.
Proof.
  intros Hi. destruct (lookup_lt_is_Some_2 l i Hi) as [x Hx].
  rewrite (drop_S _ _ _ Hx), (nth_lookup_Some _ _ _ _ Hx). by rewrite Nat.add_1_r.
Qed.

Lemma extends_step w w1 w' ta tb na nr ta' tb' na' nr' :
  extends w w1 ta tb na nr -> extends w1 w' ta' tb' (na' - na) (nr' - nr) ->
  extends w w' (ta ++ ta') (tb ++ tb') na' nr'.
Proof.
  intros H1 H2. pose proof (extends_trans _ _ _ _ _ _ _ _ _ _ _ H1 H2) as H3.
  replace (na + (na' - na)) with na' in H3 by lia. by replace (nr + (nr' - nr)) with nr' in H3 by lia.
Qed.

Lemma walk_spec fuel : forall i j w,
  (i <= length a)%nat -> (j <= length b)%nat -> (length a + length b < fuel + i + j)%nat ->
  let l := lcs (drop i a) (drop j b) in
  exists w', walk fuel a b ai bi (table ai bi) i j w = Some w' /\
    extends w w' (drop i a) (drop j b) (zlen (drop j b) - l) (zlen (drop i a) - l).
Proof.
  induction fuel as [|fuel IH]; intros i j w Hi Hj Hf; cbv zeta; [lia|]. cbn [walk].
  destruct (i <? length a)%nat eqn:Ei; [destruct (j <? length b)%nat eqn:Ej|]; to_prop; cbn [andb].
  - rewrite (drop_nth_str a i), (drop_nth_str b j) by done. rewrite lcs_cons, !cell_lcs, !zlen_cons by lia.
    destruct (_ =? _)%nat eqn:E; to_prop.
    + apply nth_eq in E; [|done|done]. rewrite decide_True by done.
      destruct (IH (i + 1)%nat (j + 1)%nat (push_eq w (nth i a []))) as (w' & -> & He); [lia|lia|lia|].
      exists w'. split; [done|]. eapply (extends_step _ _ _ [_] [_]); [rewrite <- E; apply push_eq_extends|].
      eapply extends_eq; [exact He|lia|lia].
    + rewrite nth_eq in E by done. rewrite decide_False by done.
      rewrite (drop_nth_str b j), (drop_nth_str a i) by done. destruct (_ <=? _) eqn:Ec; to_prop.
      * destruct (IH (i + 1)%nat j (push_del w (nth i a []))) as (w' & -> & He); [lia|lia|lia|].
        exists w'. split; [done|]. rewrite (drop_nth_str b j) in He by done. rewrite zlen_cons in He.
        eapply (extends_step _ _ _ [_] []); [apply push_del_extends|]. eapply extends_eq; [exact He|lia|lia].
      * destruct (IH i (j + 1)%nat (push_ins w (nth j b []))) as (w' & -> & He); [lia|lia|lia|].
        exists w'. split; [done|]. rewrite (drop_nth_str a i) in He by done. rewrite zlen_cons in He.
        eapply (extends_step _ _ _ [] [_]); [apply push_ins_extends|]. eapply extends_eq; [exact He|lia|lia].
  - rewrite (drop_ge b) by lia. rewrite lcs_nil_r, (zlen_nil (A := qstr)). cbn [fold_left]. eexists. split; [done|].
    rewrite !Z.sub_0_r. apply fold_del_extends.
  - rewrite (drop_ge a) by lia. rewrite lcs_nil_l, (zlen_nil (A := qstr)). cbn [fold_left]. eexists. split; [done|].
    rewrite !Z.sub_0_r. apply fold_ins_extends.
Qed.
End WalkSpec.

(** ** The tokenisers *)

Lemma concat_snoc {A} (ls : list (list A)) l : concat (ls ++ [l]) = concat ls ++ l.
Proof. rewrite concat_app. cbn. by rewrite app_nil_r. Qed.

Section TokenizeSpec.
Context `{QtText}.

Lemma span_spec f s : s = fst (span f s) ++ snd (span f s).
Proof.
  induction s as [|x s IH]; [done|]. cbn [span]. destruct (f x); [|done].
  destruct (span f s) as [p r]. cbn in *. by f_equal.
Qed.

Lemma span_shorter f x s : f x = true -> (length (snd (span f (x :: s))) <= length s)%nat.
Proof.
  intros Hx. cbn [span]. rewrite Hx. pose proof (span_spec f s) as Hs. destruct (span f s) as [p r]. cbn in *.
  rewrite Hs, length_app. lia.
Qed.

Lemma words_loop_spec fuel : forall s out, (length s < fuel)%nat ->
  exists r, words_loop fuel s out = Some r /\ (zlen r <= kMaxTokensPerSide -> concat r = concat out ++ s).
Proof.
  induction fuel as [|fuel IH]; intros s out Hf; [lia|]. cbn [words_loop].
  destruct s as [|x s]; [exists out; by rewrite app_nil_r|].
  destruct (_ <? _) eqn:E; to_prop; [exists out; split; [done|lia]|]. destruct (u_space x) eqn:Ex.
  - pose proof (span_spec u_space (x :: s)) as Hs. pose proof (span_shorter u_space x s Ex) as Hl.
    destruct (span u_space (x :: s)) as [p r]. cbn [fst snd length] in *.
    destruct (IH r (out ++ [p])) as (t & Ht & Hc); [lia|]. exists t. split; [done|]. intros Hz.
    by rewrite (Hc Hz), concat_snoc, <- app_assoc, Hs.
  - pose proof (span_spec (fun c => negb (u_space c)) (x :: s)) as Hs.
    pose proof (span_shorter (fun c => negb (u_space c)) x s) as Hl.
    destruct (span _ (x :: s)) as [p r]. cbn [fst snd length] in *. rewrite Ex in Hl. specialize (Hl eq_refl).
    pose proof (span_spec u_space r) as Hs2. destruct (span u_space r) as [q r2]. cbn [fst snd] in *.
    destruct (IH r2 (out ++ [p ++ q])) as (t & Ht & Hc); [rewrite Hs2, length_app in Hl; lia|].
    exists t. split; [done|]. intros Hz. by rewrite (Hc Hz), concat_snoc, <- !app_assoc, Hs, Hs2.
Qed.

Lemma tokenizeWords_spec s :
  exists r, tokenizeWords s = Some r /\ (zlen r <= kMaxTokensPerSide -> concat r = s).
Proof. apply words_loop_spec. lia. Qed.

Lemma lines_loop_spec s : forall cur out,
  let '(rest, out') := lines_loop s cur out in
  concat out' ++ rest = concat out ++ cur ++ s.
Proof.
  induction s as [|x s IH]; intros cur out; cbn [lines_loop]; [by rewrite app_nil_r|].
  destruct (_ <? _); [done|]. destruct (x =? 10).
  - specialize (IH [] (out ++ [cur ++ [x]])). destruct (lines_loop _ _ _) as [rest out'].
    rewrite IH, concat_snoc. by rewrite <- !app_assoc.
  - specialize (IH (cur ++ [x]) out). destruct (lines_loop _ _ _) as [rest out']. rewrite IH. by rewrite <- !app_assoc.
Qed.

Lemma tokenizeLines_spec s : zlen (tokenizeLines s) <= kMaxTokensPerSide -> concat (tokenizeLines s) = s.
Proof.
  unfold tokenizeLines. pose proof (lines_loop_spec s [] []) as Hl. destruct (lines_loop s [] []) as [rest out].
  cbn [app concat] in Hl. destruct rest as [|x rest]; cbn [is_nil negb andb].
  - intros _. by rewrite app_nil_r in Hl.
  - destruct (_ <=? _) eqn:E; to_prop; [intros _; by rewrite concat_snoc|lia].
Qed.

Lemma chars_loop_spec n : forall s out, (length s <= n)%nat ->
  zlen (chars_loop s out) <= kMaxTokensPerSide -> concat (chars_loop s out) = concat out ++ s.
Proof.
  induction n as [|n IH]; intros s out Hn.
  { destruct s; [cbn; by rewrite app_nil_r|cbn in Hn; lia]. }
  destruct s as [|x s]; [cbn; by rewrite app_nil_r|]. cbn [chars_loop length] in *.
  destruct (_ <? _) eqn:E; to_prop; [lia|]. destruct s as [|y s].
  - intros _. cbn. by rewrite concat_snoc.
  - destruct (_ && _); intros Hz.
    + rewrite IH by (cbn in Hn; done || lia). by rewrite concat_snoc, <- app_assoc.
    + rewrite IH by (done || lia). by rewrite concat_snoc, <- app_assoc.
Qed.

Lemma bytes_loop_spec b : forall out,
  zlen (bytes_loop b out) <= kMaxTokensPerSide -> bytes_loop b out = out ++ map hex_byte b.
Proof.
  induction b as [|c b IH]; intros out; cbn [bytes_loop map]; [by rewrite app_nil_r|].
  destruct (_ <? _) eqn:E; to_prop; [lia|]. intros Hz. rewrite IH by done. by rewrite <- app_assoc.
Qed.

Lemma tokenizeBytes_spec b : zlen (tokenizeBytes b) <= kMaxTokensPerSide -> concat (tokenizeBytes b) = to_hex b.
Proof.
  intros Hz. unfold tokenizeBytes in *. rewrite bytes_loop_spec by done. unfold to_hex. cbn [app].
  clear Hz. induction b as [|c b IH]; [done|]. cbn [map concat flat_map]. by rewrite IH.
Qed.
End TokenizeSpec.

Lemma concat_pairs_inj (l k : list qstr) :
  Forall (fun s => length s = 2%nat) l -> Forall (fun s => length s = 2%nat) k -> concat l = concat k -> l = k.
Proof.
  intros Hl. revert k. induction Hl as [|s l Hs _ IH]; intros k Hk Hc.
  - destruct Hk as [|u k Hu _]; [done|]. by destruct u.
  - destruct Hk as [|u k Hu Hk]; [by destruct s|]. cbn [concat] in Hc. apply app_inj_1 in Hc as [-> Hc]; [|congruence].
    f_equal. by apply IH.
Qed.

(** ** Clipping *)

Lemma clip_spec k l t :
  0 <= k -> clip k (l, t) = (take (Z.to_nat k) l, t || (k <? zlen l)).
Proof.
  intros Hk. unfold clip. cbn [fst]. destruct (k <? zlen l) eqn:E; to_prop; [by rewrite orb_true_r|].
  rewrite orb_false_r. unfold zlen in E. by rewrite take_ge by lia.
Qed.

Lemma budgetedSizes_spec n m :
  0 <= n -> 0 <= m ->
  let '(n', m') := budgetedSizes n m in
  0 <= n' <= n /\ 0 <= m' <= m /\ n' * m' <= kMaxCells /\ (n * m <= kMaxCells -> n' = n /\ m' = m).
Proof.
  intros Hn Hm. unfold budgetedSizes. change (Z.sqrt kMaxCells) with 4000. unfold kMaxCells.
  destruct (_ || _) eqn:E0.
  - apply orb_true_iff in E0. repeat split; try lia; destruct E0 as [E|E]; to_prop; nia.
  - split_bools. to_prop. destruct (n * m <=? _) eqn:E1; to_prop; [lia|].
    destruct (n <=? 4000) eqn:E2; to_prop; [|destruct (m <=? 4000) eqn:E3; to_prop; [|lia]].
    + rewrite Z.quot_div_nonneg by lia. pose proof (Z.mul_div_le 16000000 n).
      assert (0 <= 16000000 / n) by (apply Z.div_pos; lia). repeat split; nia.
    + rewrite Z.quot_div_nonneg by lia. pose proof (Z.mul_div_le 16000000 m).
      assert (0 <= 16000000 / m) by (apply Z.div_pos; lia). repeat split; nia.
Qed.

(** ** The result *)

(** What a diff says about the token lists [a] and [b] it compared. *)
Definition diff_of (a b : list qstr) (r : DiffResult) : Prop :=
  coalesced (df_segments r) /\
  side opsA (df_segments r) = concat a /\ side opsB (df_segments r) = concat b /\
  is_lcs a b (df_common r) /\
  df_added r = zlen b - df_common r /\ df_removed r = zlen a - df_common r.

Lemma diff_of_equal a b r : diff_of a b r -> (df_added r = 0 /\ df_removed r = 0 <-> a = b).
Proof.
  intros (_ & _ & _ & [(c & Ha & Hb & Hl) Hmax] & Hadd & Hrem). split.
  - intros [E1 E2]. unfold zlen in *. rewrite <- (sublist_full c a Ha) by lia. apply (sublist_full c b Hb). lia.
  - intros ->. specialize (Hmax b (reflexivity b) (reflexivity b)). apply sublist_length in Hb. unfold zlen in *. lia.
Qed.

Lemma lcsDiff_spec a b :
  exists r na nb, lcsDiff a b = Some r /\
    diff_of (take na a) (take nb b) r /\
    zlen (take na a) * zlen (take nb b) <= kMaxCells /\
    (df_truncated r = false ->
      take na a = a /\ take nb b = b /\ zlen a <= kMaxTokensPerSide /\ zlen b <= kMaxTokensPerSide) /\
    df_identical r = negb (df_truncated r) && bool_decide (take na a = take nb b).
Proof.
  unfold lcsDiff. rewrite !clip_spec by done.
  set (a1 := take (Z.to_nat kMaxTokensPerSide) a). set (b1 := take (Z.to_nat kMaxTokensPerSide) b).
  pose proof (budgetedSizes_spec (zlen a1) (zlen b1) (zlen_nonneg _) (zlen_nonneg _)) as Hbud.
  destruct (budgetedSizes (zlen a1) (zlen b1)) as [n' m']. destruct Hbud as (Hn & Hm & Hcells & Hfit). cbn [fst snd].
  rewrite !clip_spec by lia. set (a2 := take (Z.to_nat n') a1). set (b2 := take (Z.to_nat m') b1).
  pose proof (intern_both a2 b2) as Hint. destruct (intern ∅ a2) as [ids ai]. destruct (intern ids b2) as [ids' bi].
  destruct Hint as (R & HR & Ha & Hb).
  destruct (walk_spec a2 b2 ai bi R HR Ha Hb (S (length a2 + length b2)) 0 0 (mkWalk [] 0 0)) as (w & Hw & He); [lia|lia|lia|].
  rewrite Hw. rewrite !drop_0 in He. destruct He as (Hco & Hside & Hadd & Hrem). cbn [wk_segments wk_added wk_removed] in *.
  assert (Hnil : coalesced []) by (by intros ? ? ? ?).
  assert (Hcommon : (if is_nil a2 || is_nil b2 then 0 else cell (length b2 + 1) (table ai bi) 0 0) = lcs a2 b2).
  { destruct a2 as [|x a2']; [by rewrite lcs_nil_l|]. destruct b2 as [|y b2']; [by rewrite lcs_nil_r|]. cbn [is_nil orb].
    rewrite (cell_lcs _ _ _ _ R HR Ha Hb) by lia. done. }
  assert (Ea : take (Z.to_nat n' `min` Z.to_nat kMaxTokensPerSide) a = a2) by (unfold a2, a1; by rewrite take_take).
  assert (Eb : take (Z.to_nat m' `min` Z.to_nat kMaxTokensPerSide) b = b2) by (unfold b2, b1; by rewrite take_take).
  eexists _, _, _. split; [done|]. rewrite Ea, Eb.
  match goal with |- diff_of _ _ ?r /\ _ => assert (Hd : diff_of a2 b2 r) end.
  { split; [by apply Hco|]. destruct (Hside Hnil) as [SA SB]. cbn [df_segments df_common df_added df_removed]. rewrite SA, SB, Hcommon.
    split; [done|]. split; [done|]. split; [apply lcs_is_lcs|]. lia. }
  split; [exact Hd|]. split.
  { unfold a2, b2, zlen. rewrite !length_take. unfold zlen in Hn, Hm. nia. }
  split.
  - cbn [df_truncated]. intros Ht. split_bools. to_prop. unfold a2, b2, a1, b1 in *. unfold zlen in *.
    split; [|split; [|lia]]; rewrite !take_ge; try done; rewrite ?length_take in *; lia.
  - apply diff_of_equal in Hd. cbn [df_identical df_truncated df_added df_removed] in *.
    rewrite <- andb_assoc. f_equal. apply eq_true_iff_eq. rewrite andb_true_iff, bool_decide_eq_true, !Z.eqb_eq. done.
Qed.

(** The mode as [diff] reads it. *)
Section Modes.
Context `{QtText}.

Definition is_mode (mode name : qstr) : bool := seq_eqb (u_lower (u_trimmed mode)) name.
Definition bytes_mode (mode : qstr) : bool :=
  negb (is_mode mode (lit "lines")) && negb (is_mode mode (lit "chars")) && is_mode mode (lit "bytes").

(** What the two sides of a diff display. *)
Definition shown (mode s : qstr) : qstr := if bytes_mode mode then to_hex (u_toutf8 s) else s.

(** The tokeniser [diff] uses. *)
Definition mode_tokens (mode s : qstr) : option (list qstr) :=
  if is_mode mode (lit "lines") then Some (tokenizeLines s)
  else if is_mode mode (lit "chars") then Some (tokenizeChars s)
  else if is_mode mode (lit "bytes") then Some (tokenizeBytes (u_toutf8 s))
  else tokenizeWords s.

Lemma diff_tokens mode a b :
  diff mode a b = match mode_tokens mode a, mode_tokens mode b with Some x, Some y => lcsDiff x y | _, _ => None end.
Proof. unfold diff, mode_tokens, is_mode. by repeat case_match. Qed.

Lemma mode_tokens_spec mode s :
  exists ts, mode_tokens mode s = Some ts /\ (zlen ts <= kMaxTokensPerSide ->
    concat ts = shown mode s /\ (bytes_mode mode = true -> Forall (fun t => length t = 2%nat) ts)).
Proof.
  unfold mode_tokens, shown, bytes_mode.
  destruct (is_mode mode (lit "lines")); [|destruct (is_mode mode (lit "chars"));
    [|destruct (is_mode mode (lit "bytes"))]]; cbn [negb andb].
  - eexists. split; [done|]. intros Hz. split; [by apply tokenizeLines_spec|done].
  - eexists. split; [done|]. intros Hz. split; [by apply (chars_loop_spec (length s))|done].
  - eexists. split; [done|]. intros Hz. split; [by apply tokenizeBytes_spec|]. intros _.
    unfold tokenizeBytes in *. rewrite bytes_loop_spec by done.
    apply Forall_forall. intros t Ht. apply list_elem_of_In, in_map_iff in Ht as (c & <- & _). done.
  - destruct (tokenizeWords_spec s) as (ts & Hts & Hc).
    exists ts. split; [done|]. intros Hz. split; [by apply Hc|done].
Qed.
End Modes.

(** Comparing two texts always yields a diff that can be trusted: the kept and
    deleted segments spell the first input, the kept and inserted ones the
    second, runs are maximal, the common count is the length of a longest
    common subsequence of the tokens and the added and removed counts are what
    remains; "identical" is said exactly of equal inputs, and never of a
    clipped comparison, whose table stays within 16 million cells. *)
Theorem diff_correct `{QtText} mode a b :
  exists r xa xb na nb, diff mode a b = Some r /\
    mode_tokens mode a = Some xa /\ mode_tokens mode b = Some xb /\
    diff_of (take na xa) (take nb xb) r /\ zlen (take na xa) * zlen (take nb xb) <= kMaxCells /\
    (df_truncated r = true -> df_identical r = false) /\
    (df_truncated r = false ->
      side opsA (df_segments r) = shown mode a /\ side opsB (df_segments r) = shown mode b /\
      (df_identical r = true <-> shown mode a = shown mode b)).
Proof.
  destruct (mode_tokens_spec mode a) as (xa & Ha & Hca). destruct (mode_tokens_spec mode b) as (xb & Hb & Hcb).
  rewrite diff_tokens, Ha, Hb.
  destruct (lcsDiff_spec xa xb) as (r & na & nb & Hr & Hd & Hcells & Htr & Hid).
  exists r, xa, xb, na, nb. do 5 (split; [done|]).
  split; [intros Ht; by rewrite Hid, Ht|].
  intros Ht. destruct (Htr Ht) as (Ea & Eb & Hza & Hzb). rewrite Ea, Eb in *.
  destruct (Hca Hza) as [Sa Pa]. destruct (Hcb Hzb) as [Sb Pb]. rewrite <- Sa, <- Sb.
  destruct Hd as (_ & HA & HB & _). split; [done|]. split; [done|].
  rewrite Hid, Ht. cbn [negb andb]. rewrite bool_decide_eq_true. split; [by intros ->|].
  intros Heq. destruct (bytes_mode mode) eqn:Em; [by apply concat_pairs_inj; auto|].
  unfold shown in Sa, Sb. rewrite Em in Sa, Sb. congruence.
Qed.

Lemma diff_correct_witness :
  let QT := asciiText in
  exists r, diff (lit "words") (lit "a b c") (lit "a c") = Some r /\ df_truncated r = false /\ df_common r = 2 /\
    side opsB (df_segments r) = lit "a c".
Proof.
  intros QT.
  destruct (diff_correct (H := asciiText) (lit "words") (lit "a b c") (lit "a c")) as (r & xa & xb & na & nb & Hr & _ & _ & _ & _ & _ & Hf).
  exists r. split; [done|]. vm_compute in Hr. injection Hr as <-. split; [done|]. split; [done|].
  destruct (Hf eq_refl) as (_ & HB & _). exact HB.
Defined.
