(* ===== verification/CiGate.v ===== *)
(** * The CI gate: Src/Core/Networking/ci_gate_logic.{hpp,cpp}

    Severity names and ranks, thresholds, the verdict over a list of findings
    and the verdict of a run that never reached its target. *)

From S2P Require Import Prelude Qt QtSample QMap.

Local Open Scope Z_scope.

Definition kNeverFail : Z := 1000.
Definition kExitPass : Z := 0.
Definition kExitFail : Z := 1.
Definition kExitUnreachable : Z := 3.

Record GateResult := mkGate {
  g_pass : bool; g_exitCode : Z; g_threshold : qstr; g_thresholdRank : Z;
  g_offendingCount : Z; g_total : Z; g_bySeverity : list (qstr * Z);
  g_reachable : bool; g_error : qstr
}.

Definition severities_seed : list qstr := [lit "critical"; lit "high"; lit "medium"; lit "low"; lit "info"].

(** The breakdown seeded with zeros. *)
Definition seeded : list (qstr * Z) := fold_left (fun m k => qm_insert k 0 m) severities_seed [].

Section Gate.
Context `{QtText}.

Definition canonicalSeverity (sev : qstr) : qstr :=
  let s := u_lower (u_trimmed sev) in
  if seq_eqb s (lit "critical") then lit "critical"
  else if seq_eqb s (lit "high") then lit "high"
  else if seq_eqb s (lit "medium") then lit "medium"
  else if seq_eqb s (lit "low") then lit "low"
  else lit "info".

Definition severityRank (sev : qstr) : Z :=
  let s := canonicalSeverity sev in
  if seq_eqb s (lit "critical") then 4
  else if seq_eqb s (lit "high") then 3
  else if seq_eqb s (lit "medium") then 2
  else if seq_eqb s (lit "low") then 1
  else 0.

Definition thresholdRank (failOn : qstr) : Z :=
  let s := u_lower (u_trimmed failOn) in
  if seq_eqb s (lit "none") || seq_eqb s (lit "off") || seq_eqb s (lit "never") then kNeverFail
  else if seq_eqb s (lit "critical") then 4
  else if seq_eqb s (lit "high") then 3
  else if seq_eqb s (lit "medium") then 2
  else if seq_eqb s (lit "low") then 1
  else if seq_eqb s (lit "info") then 0
  else 3.

Definition thresholdName (failOn : qstr) : qstr :=
  let s := u_lower (u_trimmed failOn) in
  if seq_eqb s (lit "none") || seq_eqb s (lit "off") || seq_eqb s (lit "never") then lit "none"
  else if seq_eqb s (lit "critical") || seq_eqb s (lit "high") || seq_eqb s (lit "medium")
          || seq_eqb s (lit "low") || seq_eqb s (lit "info") then s
  else lit "high".

(** [m[c] += 1] ([operator[]] creates a missing entry as 0). *)
Definition bump (c : qstr) (m : list (qstr * Z)) : list (qstr * Z) :=
  qm_insert c (default 0 (qm_get c m) + 1) m.

Fixpoint gate_loop (rank : Z) (severities : list qstr) (m : list (qstr * Z)) (offending : Z)
    : list (qstr * Z) * Z :=
  match severities with
  | [] => (m, offending)
  | sev :: rest =>
      gate_loop rank rest (bump (canonicalSeverity sev) m)
        (if rank <=? severityRank sev then offending + 1 else offending)
  end.

Definition evaluate (severities : list qstr) (failOn : qstr) : GateResult :=
  let rank := thresholdRank failOn in
  let '(m, offending) := gate_loop rank severities seeded 0 in
  let pass := offending =? 0 in
  mkGate pass (if pass then kExitPass else kExitFail) (thresholdName failOn) rank
    offending (zlen severities) m true [].

Definition unreachable (failOn error : qstr) : GateResult :=
  let rank := thresholdRank failOn in
  let neverFail := kNeverFail <=? rank in
  mkGate neverFail (if neverFail then kExitPass else kExitUnreachable) (thresholdName failOn) rank
    0 0 seeded false error.

(** ** Correctness *)

(** How many findings fall into a bucket. *)
Definition bucket (c : qstr) (severities : list qstr) : Z :=
  zlen (List.filter (fun s => seq_eqb (canonicalSeverity s) c) severities).

Lemma bump_get c c' m :
  default 0 (qm_get c (bump c' m)) = default 0 (qm_get c m) + (if seq_eqb c' c then 1 else 0).
Proof.
  unfold bump. destruct (seq_eqb c' c) eqn:E.
  - apply seq_eqb_eq in E as ->. by rewrite qm_get_insert.
  - rewrite qm_get_insert_ne; [cbn; lia|]. intros ->. by rewrite seq_eqb_refl in E.
Qed.

Lemma gate_loop_spec rank severities : forall m n,
  let '(m', n') := gate_loop rank severities m n in
  n' = n + zlen (List.filter (fun s => rank <=? severityRank s) severities) /\
  forall c, default 0 (qm_get c m') = default 0 (qm_get c m) + bucket c severities.
Proof.
  induction severities as [|sev rest IH]; intros m n; cbn [gate_loop List.filter].
  - rewrite zlen_nil. split; [lia|]. intros c. unfold bucket. cbn [List.filter]. change (zlen (@nil qstr)) with 0. lia.
  - specialize (IH (bump (canonicalSeverity sev) m) (if rank <=? severityRank sev then n + 1 else n)).
    destruct (gate_loop _ _ _ _) as [m' n']. destruct IH as [Hn Hm]. split.
    + rewrite Hn. destruct (rank <=? severityRank sev); [rewrite zlen_cons|]; lia.
    + intros c. rewrite Hm, bump_get. unfold bucket. cbn [List.filter].
      destruct (seq_eqb _ c); [rewrite zlen_cons|]; lia.
Qed.

Lemma canonicalSeverity_cases sev : canonicalSeverity sev ∈ severities_seed.
Proof. unfold canonicalSeverity, severities_seed. repeat case_match; repeat constructor. Qed.

(** Evaluate comparisons of literals. *)
Ltac eval_seq_eqb :=
  repeat match goal with
  | |- context [seq_eqb (lit ?a) (lit ?b)] =>
      let v := eval vm_compute in (seq_eqb (lit a) (lit b)) in change (seq_eqb (lit a) (lit b)) with v
  end; cbn iota.

(** The buckets partition the findings. *)
Lemma buckets_total severities :
  fold_right Z.add 0 (map (fun c => bucket c severities) severities_seed) = zlen severities.
Proof.
  induction severities as [|sev rest IH]; [done|]. rewrite zlen_cons, <- IH. unfold bucket. cbn [List.filter].
  pose proof (canonicalSeverity_cases sev) as Hc. unfold severities_seed in *. cbn [map fold_right].
  repeat (apply elem_of_cons in Hc as [->|Hc]; [eval_seq_eqb; rewrite ?zlen_cons; lia|]). by apply not_elem_of_nil in Hc.
Qed.

Lemma severityRank_lt sev : severityRank sev < kNeverFail.
Proof. unfold severityRank, kNeverFail. repeat case_match; lia. Qed.

Lemma thresholdRank_le failOn : thresholdRank failOn <= kNeverFail.
Proof. unfold thresholdRank, kNeverFail. repeat case_match; lia. Qed.

Lemma filter_none {A} (f : A -> bool) l : zlen (List.filter f l) = 0 <-> Forall (fun x => f x = false) l.
Proof.
  induction l as [|x l IH]; cbn [List.filter]; [by split; [constructor|]|].
  rewrite Forall_cons. destruct (f x) eqn:E; [|tauto]. rewrite zlen_cons.
  pose proof (zlen_nonneg (List.filter f l)). split; [lia|]. by intros [? _].
Qed.
End Gate.

(** The gate passes, with exit code 0, exactly when every finding ranks below
    the threshold, and fails with exit code 1 otherwise; its breakdown counts
    each severity and sums to the number of findings; a threshold of "none"
    never fails, and a run that never reached its target fails with exit code
    3 at every other threshold, however clean it looks. *)
Theorem gate_decision `{QtText} severities failOn error :
  let r := evaluate severities failOn in
  let u := unreachable failOn error in
  (g_pass r = true <-> Forall (fun s => severityRank s < thresholdRank failOn) severities) /\
  g_exitCode r = (if g_pass r then 0 else 1) /\
  (forall c, default 0 (qm_get c (g_bySeverity r)) = bucket c severities) /\
  fold_right Z.add 0 (map (fun c => default 0 (qm_get c (g_bySeverity r))) severities_seed) = zlen severities /\
  (thresholdName failOn = lit "none" -> g_pass r = true /\ g_pass u = true) /\
  (thresholdName failOn <> lit "none" -> g_pass u = false /\ g_exitCode u = 3).
Proof.
  unfold evaluate. pose proof (gate_loop_spec (thresholdRank failOn) severities seeded 0) as Hg.
  destruct (gate_loop _ _ _ _) as [m n]. destruct Hg as [Hn Hm]. cbn [g_pass g_exitCode g_bySeverity].
  assert (Hseed : forall c, default 0 (qm_get c seeded) = 0).
  { intros c. unfold seeded, severities_seed. cbn [fold_left].
    repeat match goal with |- context [qm_get c (qm_insert ?k 0 ?m)] =>
      destruct (decide (c = k)) as [->|?]; [by rewrite qm_get_insert|rewrite (qm_get_insert_ne c k 0 m) by done] end. done. }
  assert (Hb : forall c, default 0 (qm_get c m) = bucket c severities) by (intros c; rewrite Hm, Hseed; lia).
  rewrite Z.add_0_l in Hn. subst n.
  assert (Hpass : (zlen (List.filter (fun s => thresholdRank failOn <=? severityRank s) severities) =? 0) = true
    <-> Forall (fun s => severityRank s < thresholdRank failOn) severities).
  { rewrite Z.eqb_eq, filter_none. split; intros Hf; (eapply Forall_impl; [exact Hf|]); intros s Hs; cbn in *; to_prop; [done|].
    by apply Z.leb_gt. }
  assert (Hname : thresholdName failOn = lit "none" <-> thresholdRank failOn = kNeverFail).
  { unfold thresholdName, thresholdRank. set (s := u_lower _). destruct (_ || _ || _); [done|].
    destruct (seq_eqb s (lit "critical")) eqn:E1; [apply seq_eqb_eq in E1 as ->; done|].
    destruct (seq_eqb s (lit "high")) eqn:E2; [apply seq_eqb_eq in E2 as ->; done|].
    destruct (seq_eqb s (lit "medium")) eqn:E3; [apply seq_eqb_eq in E3 as ->; done|].
    destruct (seq_eqb s (lit "low")) eqn:E4; [apply seq_eqb_eq in E4 as ->; done|].
    destruct (seq_eqb s (lit "info")) eqn:E5; [apply seq_eqb_eq in E5 as ->; done|]. done. }
  split; [exact Hpass|]. split; [done|]. split; [exact Hb|].
  split; [rewrite (map_ext _ _ Hb); apply buckets_total|]. split.
  - intros Hnone. apply Hname in Hnone. split.
    + apply Hpass. rewrite Hnone. apply Forall_forall. intros s _. apply severityRank_lt.
    + unfold unreachable. cbn [g_pass]. by rewrite Hnone.
  - intros Hne. unfold unreachable. cbn [g_pass g_exitCode].
    assert (Hlt : thresholdRank failOn < kNeverFail) by (pose proof (thresholdRank_le failOn); rewrite Hname in Hne; lia).
    by zdecide.
Qed.

Lemma gate_decision_witness :
  let QT := asciiText in
  thresholdName (lit "medium") <> lit "none" /\
  g_exitCode (evaluate [lit "Low"; lit "HIGH "] (lit "medium")) = 1 /\
  g_exitCode (unreachable (lit "medium") []) = 3.
Proof.
  intros QT. assert (Hne : thresholdName (lit "medium") <> lit "none") by discriminate.
  split; [exact Hne|]. split; [reflexivity|].
  apply (gate_decision (H := asciiText) [lit "Low"; lit "HIGH "] (lit "medium") []). exact Hne.
Defined.
