(* ===== verification/HistoryLogic.v ===== *)
(** * History queries: Src/Core/Storage/history_logic.{hpp,cpp}

    The construction of the parameterised SELECT from an operator's filter
    object.  A JSON integer is read through [toDouble] as the code reads it,
    so it is rounded to 53 bits; a double is a [spec_float]. *)

From Stdlib Require Import SpecFloat.
From S2P Require Import Prelude Qt QtSample QMap Json.

Local Open Scope Z_scope.

Definition kFindLimitDefault : Z := 200.
Definition kFindLimitMax : Z := 5000.

(** [QVariant]s of the types bound. *)
Inductive variant := VInt (n : Z) | VLongLong (n : Z) | VString (s : qstr).

Record FindQuery := mkQuery { q_sql : qstr; q_binds : list variant }.

Definition asciiUpper (s : qstr) : qstr := map ascii_upper1 s.

(** [int] and [qint64] to [double], round to nearest even. *)
Definition double_of_Z (n : Z) : spec_float := binary_normalize 53 1024 n 0 false.

(** [static_cast<qint64>(d)] of a finite [d] in range, and the range test:
    [d < -2^63 || d >= 2^63], exact on the fraction [num / den]. *)
Definition cast_int64 (d : spec_float) : option Z :=
  match d with
  | S754_zero _ => Some 0
  | S754_finite s m e =>
      let num := (if s then Z.neg m else Z.pos m) * 2 ^ Z.max 0 e in
      let den := 2 ^ Z.max 0 (- e) in
      if (num <? - 2 ^ 63 * den) || (2 ^ 63 * den <=? num) then None else Some (Z.quot num den)
  | S754_infinity _ | S754_nan => None
  end.

Definition readInt64 (f : list (qstr * json)) (key : qstr) : option Z :=
  match value f key with
  | JInt n => cast_int64 (double_of_Z n)
  | JDouble d => cast_int64 d
  | _ => None
  end.

(** [static_cast<int>] of a [qint64]. *)

Record Builder := mkBuilder { b_sql : qstr; b_binds : list variant; b_ignored : list qstr }.

Definition addNumeric (f : list (qstr * json)) (key clause : qstr) (asInt : bool) (b : Builder) : Builder :=
  if negb (contains f key) then b
  else
    match readInt64 f key with
    | None => mkBuilder (b_sql b) (b_binds b) (b_ignored b ++ [key])
    | Some n =>
        mkBuilder (b_sql b ++ clause)
          (b_binds b ++ [if asInt then VInt (s32 n) else VLongLong n]) (b_ignored b)
    end.

(** One of the three text filters. *)
Definition addText (f : list (qstr * json)) (key clause : qstr) (g : qstr -> qstr) (b : Builder) : Builder :=
  if contains f key
  then mkBuilder (b_sql b ++ clause) (b_binds b ++ [VString (g (toString (value f key)))]) (b_ignored b)
  else b.

Definition find_limit (f : list (qstr * json)) : Z :=
  let limit := toInt kFindLimitDefault (value f (lit "limit")) in
  let limit := if limit <=? 0 then kFindLimitDefault else limit in
  if kFindLimitMax <? limit then kFindLimitMax else limit.

(** The query and [ignoredFilters]. *)
Definition buildFindQuery (f : list (qstr * json)) : FindQuery * list qstr :=
  let b := mkBuilder (lit "SELECT id, ts, method, host, port, path, status, size, tls, mime FROM rows WHERE 1=1") [] [] in
  let b := addText f (lit "method") (lit " AND UPPER(method) = ?") asciiUpper b in
  let b := addText f (lit "host") (lit " AND host LIKE ?") id b in
  let b := addText f (lit "path") (lit " AND path LIKE ?") id b in
  let b := addNumeric f (lit "status") (lit " AND status = ?") true b in
  let b := addNumeric f (lit "minSize") (lit " AND size >= ?") false b in
  let b := addNumeric f (lit "maxSize") (lit " AND size <= ?") false b in
  let b := addNumeric f (lit "sinceMs") (lit " AND ts >= ?") false b in
  (mkQuery (b_sql b ++ lit " ORDER BY id DESC" ++ lit " LIMIT ?") (b_binds b ++ [VInt (find_limit f)]),
   b_ignored b).

(** ** Correctness *)

(** Placeholders of a statement. *)
Definition markers (sql : qstr) : Z := zlen (List.filter (fun c => c =? 63) sql).

Lemma markers_app a b : markers (a ++ b) = markers a + markers b.
Proof. unfold markers. by rewrite List.filter_app, zlen_app. Qed.

(** Statement and values stay in step. *)
Definition in_step (b : Builder) : Prop := markers (b_sql b) = zlen (b_binds b).

Lemma addText_in_step f key clause g b : markers clause = 1 -> in_step b -> in_step (addText f key clause g b).
Proof.
  unfold in_step, addText. intros Hc Hb. destruct (contains f key); [|done].
  cbn [b_sql b_binds]. rewrite markers_app, Hc, Hb, zlen_app. done.
Qed.

Lemma addNumeric_in_step f key clause asInt b :
  markers clause = 1 -> in_step b -> in_step (addNumeric f key clause asInt b).
Proof.
  unfold in_step, addNumeric. intros Hc Hb. destruct (negb _); [done|]. destruct (readInt64 f key); [|done].
  cbn [b_sql b_binds]. rewrite markers_app, Hc, Hb, zlen_app. done.
Qed.

(** Two filter objects that make the same choices write the same statement. *)
Definition same_shape (b1 b2 : Builder) : Prop := b_sql b1 = b_sql b2.

Lemma addText_shape f1 f2 key clause g b1 b2 :
  contains f1 key = contains f2 key -> same_shape b1 b2 ->
  same_shape (addText f1 key clause g b1) (addText f2 key clause g b2).
Proof. unfold same_shape, addText. intros -> Hb. destruct (contains f2 key); [|done]. cbn. by rewrite Hb. Qed.

Definition readable (f : list (qstr * json)) (key : qstr) : bool :=
  contains f key && match readInt64 f key with Some _ => true | None => false end.

Lemma addNumeric_shape f1 f2 key clause asInt b1 b2 :
  readable f1 key = readable f2 key -> same_shape b1 b2 ->
  same_shape (addNumeric f1 key clause asInt b1) (addNumeric f2 key clause asInt b2).
Proof.
  unfold same_shape, addNumeric, readable. intros Hr Hb.
  destruct (contains f1 key), (contains f2 key), (readInt64 f1 key), (readInt64 f2 key); cbn in *; congruence.
Qed.

Definition text_keys : list qstr := [lit "method"; lit "host"; lit "path"].
Definition numeric_keys : list qstr := [lit "status"; lit "minSize"; lit "maxSize"; lit "sinceMs"].

Lemma addNumeric_ignored f key clause asInt b :
  b_ignored (addNumeric f key clause asInt b) =
    b_ignored b ++ List.filter (fun k => contains f k && negb (readable f k)) [key].
Proof.
  unfold addNumeric, readable. cbn [List.filter].
  destruct (contains f key), (readInt64 f key); cbn; by rewrite ?app_nil_r.
Qed.

Lemma addText_ignored f key clause g b : b_ignored (addText f key clause g b) = b_ignored b.
Proof. unfold addText. by destruct (contains f key). Qed.

Lemma find_limit_range f : 1 <= find_limit f <= kFindLimitMax.
Proof. unfold find_limit, kFindLimitDefault, kFindLimitMax. repeat case_match; to_prop; lia. Qed.

Lemma build_in_step f : markers (q_sql (fst (buildFindQuery f))) = zlen (q_binds (fst (buildFindQuery f))).
Proof.
  unfold buildFindQuery. cbn [fst q_sql q_binds]. rewrite !markers_app, zlen_app.
  match goal with |- markers (b_sql ?b) + _ = _ => assert (Hb : in_step b) end.
  { repeat first [apply addNumeric_in_step; [done|] | apply addText_in_step; [done|]]. done. }
  rewrite Hb. done.
Qed.

(** A history query cannot be injected into: filter objects that have the same
    keys with the same numeric ones readable get the same statement whatever
    their values; there is one bound value per placeholder, the limit bound
    last and between 1 and 5000; and the filters reported as ignored are
    exactly the numeric ones present but unreadable. *)
Theorem find_query_injection_safe f1 f2 :
  (forall k, k ∈ text_keys -> contains f1 k = contains f2 k) ->
  (forall k, k ∈ numeric_keys -> readable f1 k = readable f2 k) ->
  let '(q1, ignored1) := buildFindQuery f1 in
  let '(q2, _) := buildFindQuery f2 in
  q_sql q1 = q_sql q2 /\ markers (q_sql q1) = zlen (q_binds q1) /\
  (exists limit, last (q_binds q1) = Some (VInt limit) /\ 1 <= limit <= kFindLimitMax) /\
  ignored1 = List.filter (fun k => contains f1 k && negb (readable f1 k)) numeric_keys.
Proof.
  intros Ht Hn. pose proof (build_in_step f1) as Hstep. unfold buildFindQuery in *.
  cbn [fst q_sql q_binds] in *. split; [|split; [exact Hstep|split]].
  - f_equal.
    repeat first [apply addNumeric_shape; [apply Hn; repeat constructor|]
                 | apply addText_shape; [apply Ht; repeat constructor|]]. done.
  - exists (find_limit f1). rewrite last_snoc. split; [done|apply find_limit_range].
  - cbn [b_ignored]. rewrite !addNumeric_ignored, !addText_ignored. cbn [b_ignored app].
    rewrite <- !List.filter_app. done.
Qed.

Lemma find_query_injection_safe_witness :
  let f1 := object [(lit "host", JString (lit "x' OR 1=1 --")); (lit "status", JInt 200)] in
  let f2 := object [(lit "host", JString (lit "y")); (lit "status", JInt 404)] in
  (forall k, k ∈ text_keys -> contains f1 k = contains f2 k) /\
  (forall k, k ∈ numeric_keys -> readable f1 k = readable f2 k) /\
  q_sql (fst (buildFindQuery f1)) = q_sql (fst (buildFindQuery f2)).
Proof.
  intros f1 f2.
  assert (Ht : forall k, k ∈ text_keys -> contains f1 k = contains f2 k).
  { apply Forall_forall. repeat constructor. }
  assert (Hn : forall k, k ∈ numeric_keys -> readable f1 k = readable f2 k).
  { apply Forall_forall. repeat constructor. }
  split; [exact Ht|]. split; [exact Hn|].
  destruct (buildFindQuery f1) as [q1 i1] eqn:E1. destruct (buildFindQuery f2) as [q2 i2] eqn:E2.
  pose proof (find_query_injection_safe f1 f2 Ht Hn) as Hs. rewrite E1, E2 in Hs. apply Hs.
Defined.

(** An in-range status that does not fit [int] is bound truncated: status
    4294967496 queries status 200 and is not reported as ignored. *)
Theorem status_filter_truncated :
  let '(q, ignored) := buildFindQuery (object [(lit "status", JInt 4294967496)]) in
  q_binds q = [VInt 200; VInt 200] /\ ignored = [].
Proof. vm_compute. done. Qed.
