(* ===== verification/Dns.v ===== *)
(** * DNS callbacks: Src/Core/APIs/Oast/dns_logic.cpp, [buildResponse] of dns_sink.cpp

    [parseDnsQuery] walks the question of a datagram anybody may send.  Every
    indexed read of the datagram is the partial [d !! i] and the loop has fuel, so
    that [None] is a read out of bounds (or a loop that did not end) and safety is
    a theorem.  [buildResponse] frames the answer. *)

From S2P Require Import Prelude Qt QtSample.

Local Open Scope Z_scope.

(** ** Parsing *)

Definition kMaxDnsNameChars : nat := 255.

Definition is_ldh (b : Z) : bool :=
  ((65 <=? b) && (b <=? 90)) || ((97 <=? b) && (b <=? 122)) || ((48 <=? b) && (b <=? 57)) || (b =? 45) || (b =? 95).

Definition safeLabelChar (b : Z) : Z := if is_ldh b then b else 63.

Record ParsedQuery := mkQuery {
  pq_valid : bool; pq_qname : qstr; pq_questionEnd : nat; pq_qdcount : Z; pq_qtype : Z
}.

(** [quint16((d[i] << 8) | d[i + 1])]. *)
Definition be16 (d : bytes) (i : nat) : option Z :=
  hi ← d !! i; lo ← d !! S i; Some (Z.lor (Z.shiftl hi 8) lo).

(** The body of the walk: one label, within the name's cap. *)
Definition append_label (d : bytes) (start len : nat) (qname : qstr) : option qstr :=
  if (length qname <? kMaxDnsNameChars)%nat then
    let q := if is_nil qname then [] else qname ++ [46] in
    let room := (kMaxDnsNameChars - length q)%nat in
    let n := (len `min` room)%nat in
    chars ← mapM (fun i => safeLabelChar <$> d !! (start + i)%nat) (seq 0 n);
    Some (q ++ chars)
  else Some qname.

(** How the walk over the labels ends. *)
Inductive Walk := Refused (qname : qstr) | Unterminated (qname : qstr) | Root (pos : nat) (qname : qstr).

Fixpoint walk (fuel : nat) (d : bytes) (pos : nat) (qname : qstr) : option Walk :=
  match fuel with
  | O => None
  | S fuel' =>
      if (pos <? length d)%nat then
        len ← d !! pos;
        if len =? 0 then Some (Root (S pos) qname)
        else if negb (Z.land len 192 =? 0) then Some (Refused qname)
        else if (length d <? pos + 1 + Z.to_nat len)%nat then Some (Refused qname)
        else
          qname' ← append_label d (pos + 1) (Z.to_nat len) qname;
          walk fuel' d (pos + 1 + Z.to_nat len) qname'
      else Some (Unterminated qname)
  end.

Definition noQuery : ParsedQuery := mkQuery false [] 0 0 0.

Definition parseDnsQuery (d : bytes) : option ParsedQuery :=
  if (length d <? 12)%nat then Some noQuery
  else
    flags ← d !! 2%nat;
    if negb (Z.land flags 128 =? 0) then Some noQuery
    else if negb (Z.land (Z.shiftr flags 3) 15 =? 0) then Some noQuery
    else
      qdcount ← be16 d 4;
      if negb (qdcount =? 1) then Some (mkQuery false [] 0 qdcount 0)
      else
        w ← walk (S (length d)) d 12 [];
        match w with
        | Refused qname | Unterminated qname => Some (mkQuery false qname 0 qdcount 0)
        | Root pos qname =>
            if (length d <? pos + 4)%nat then Some (mkQuery false qname 0 qdcount 0)
            else qtype ← be16 d pos; Some (mkQuery true qname (pos + 4) qdcount qtype)
        end.

(** The pattern [\A[0-9a-f]{16}\z]. *)
Definition is_lower_hex (c : Z) : bool := is_digit c || ((97 <=? c) && (c <=? 102)).
Definition hex16 (s : qstr) : bool := (length s =? 16)%nat && forallb is_lower_hex s.

(** [extractToken(qname)]; the empty string for none. *)
Definition dnsExtractToken `{QtText} (qname : qstr) : qstr :=
  let head := u_lower (match index_of 46 qname with Some (S n) => take (S n) qname | _ => qname end) in
  if hex16 head then head else [].

Definition qtypeName (qtype : Z) : qstr :=
  match qtype with
  | 1 => lit "A" | 2 => lit "NS" | 5 => lit "CNAME" | 6 => lit "SOA" | 12 => lit "PTR"
  | 15 => lit "MX" | 16 => lit "TXT" | 28 => lit "AAAA" | 33 => lit "SRV" | 255 => lit "ANY"
  | _ => lit "TYPE" ++ number 10 qtype
  end.

(** ** Answering *)

(** [m_answerIp.toIPv4Address()] and [toIPv6Address()]. *)
Record AnswerIp := mkAnswerIp { ip_v4 : Z; ip_v6 : bytes }.

Definition answer_a (ip : Z) : bytes :=
  [0; 1; 0; 1; 0; 0; 0; 30; 0; 4] ++
  [Z.land (Z.shiftr ip 24) 255; Z.land (Z.shiftr ip 16) 255; Z.land (Z.shiftr ip 8) 255; Z.land ip 255].
Definition answer_aaaa (ip : bytes) : bytes := [0; 28; 0; 1; 0; 0; 0; 30; 0; 16] ++ take 16 ip.

Definition answerFor (ip : AnswerIp) (qtype : Z) : bytes :=
  if (qtype =? 1) || (qtype =? 255) then answer_a (ip_v4 ip)
  else if qtype =? 28 then answer_aaaa (ip_v6 ip)
  else [].

(** [None] is a read out of bounds; [Some None] is okOut = false. *)
Definition buildResponse (ip : AnswerIp) (query : bytes) : option (option bytes) :=
  pq ← parseDnsQuery query;
  if negb (pq_valid pq) then Some None
  else
    id0 ← query !! 0%nat; id1 ← query !! 1%nat;
    let answer := answerFor ip (pq_qtype pq) in
    let haveAnswer := negb (is_nil answer) in
    Some (Some ([id0; id1; 132; 0; 0; 1; 0; if haveAnswer then 1 else 0; 0; 0; 0; 0]
                ++ mid query 12 (pq_questionEnd pq - 12)
                ++ (if haveAnswer then [192; 12] ++ answer else []))).

(** ** The wire format, as a specification *)

(** A label as it is sent: its length, then its octets. *)
Definition label_ok (l : bytes) : Prop := (1 <= length l <= 63)%nat.
Definition wire_label (l : bytes) : bytes := zlen l :: l.
Definition wire_name (labels : list bytes) : bytes := flat_map wire_label labels ++ [0].

(** The header of a standard query with one question. *)
Definition query_header (h : bytes) : Prop :=
  length h = 12%nat /\ Z.land (at_ h 2) 128 = 0 /\ Z.land (Z.shiftr (at_ h 2) 3) 15 = 0 /\
  at_ h 4 = 0 /\ at_ h 5 = 1.

(** The name that is logged. *)
Definition logged_name (labels : list bytes) : qstr :=
  take kMaxDnsNameChars (join [46] (map (map safeLabelChar) labels)).

(** ** The walk over the labels *)

Lemma mapM_read (f : Z -> Z) d a n : forall k, (a + k + n <= length d)%nat ->
  mapM (fun i => f <$> d !! (a + i)%nat) (seq k n) = Some (map f (take n (drop (a + k) d))).
Proof.
  induction n as [|n IH]; intros k Hk; cbn [seq mapM]; [by rewrite take_0|].
  destruct (lookup_lt_is_Some_2 d (a + k)) as [x Hx]; [lia|].
  rewrite Hx. cbn. rewrite IH by lia. cbn. rewrite (drop_S _ _ _ Hx). cbn. by rewrite Nat.add_succ_r.
Qed.

(** One more label on a name, as the loop does it. *)
Definition add_label (q : qstr) (l : bytes) : qstr :=
  if (length q <? kMaxDnsNameChars)%nat then
    let q' := if is_nil q then [] else q ++ [46] in q' ++ take (kMaxDnsNameChars - length q') (map safeLabelChar l)
  else q.

Lemma append_label_eq d start len q : (start + len <= length d)%nat ->
  append_label d start len q = Some (add_label q (take len (drop start d))).
Proof.
  intros Hl. unfold append_label, add_label. case_if E; [|done]. cbn zeta.
  rewrite mapM_read by lia. cbn. rewrite Nat.add_0_r, firstn_map, take_take.
  by rewrite Nat.min_comm.
Qed.

(** Reads stay in bounds and the fuel is enough: a round consumes an octet. *)
Lemma walk_total d fuel : forall pos q, (length d < fuel + pos)%nat -> (0 < fuel)%nat -> exists w, walk fuel d pos q = Some w.
Proof.
  induction fuel as [|fuel IH]; intros pos q Hf Hp; [lia|]. cbn [walk].
  destruct (pos <? length d)%nat eqn:E; to_prop; [|by eexists].
  destruct (lookup_lt_is_Some_2 d pos E) as [len Hlen]. rewrite Hlen. cbn [mbind option_bind].
  do 2 (case_if E1; [by eexists|clear E1]). destruct (length d <? pos + 1 + Z.to_nat len)%nat eqn:E3; to_prop; [by eexists|].
  rewrite append_label_eq by lia. cbn [mbind option_bind]. apply IH; lia.
Qed.

Lemma walk_fuel d fuel : forall fuel' pos q w, walk fuel d pos q = Some w -> (fuel <= fuel')%nat -> walk fuel' d pos q = Some w.
Proof.
  induction fuel as [|fuel IH]; intros fuel' pos q w Hw Hle; [done|]. destruct fuel' as [|fuel']; [lia|].
  cbn [walk] in *. case_if E; [|done]. destruct (d !! pos) as [len|]; [cbn [mbind option_bind] in *|done].
  do 3 (case_if E0; [done|]; clear E0). destruct (append_label d (pos + 1) (Z.to_nat len) q) as [q'|]; [cbn [mbind option_bind] in *|done].
  eapply IH; [done|lia].
Qed.

Lemma wire_label_length l : length (wire_label l) = S (length l).
Proof. done. Qed.

Lemma label_len_flags l : label_ok l -> Z.land (zlen l) 192 = 0.
Proof.
  intros [Hl Hu]. unfold zlen. assert (Hin : In (length l) (seq 1 63)) by (apply in_seq; lia).
  revert Hin. generalize (length l). intros n Hn. cbn in Hn. repeat (destruct Hn as [<-|Hn]; [done|]). done.
Qed.

(** Octets whose top bits are clear are lengths below 64. *)
Lemma len_flags_label b : 0 <= b < 256 -> Z.land b 192 = 0 -> b < 64.
Proof.
  intros Hb Hl. destruct (Z.lt_ge_cases b 64); [done|]. exfalso.
  assert (Hin : In b (map Z.of_nat (seq 64 192))) by (apply in_map_iff; exists (Z.to_nat b); split; [lia|apply in_seq; lia]).
  cbn in Hin. revert Hl. repeat (destruct Hin as [<-|Hin]; [done|]). done.
Qed.

Lemma walk_complete d labels : forall pos q rest, Forall label_ok labels ->
  drop pos d = wire_name labels ++ rest ->
  walk (S (length d)) d pos q = Some (Root (pos + length (wire_name labels)) (fold_left add_label labels q)).
Proof.
  intros pos q rest Hok Hd.
  assert (Hw : exists fuel, walk fuel d pos q = Some (Root (pos + length (wire_name labels)) (fold_left add_label labels q))).
  { revert pos q Hd. induction Hok as [|l labels Hl Hok IH]; intros pos q Hd.
    - exists 1%nat. cbn in Hd. cbn [walk]. assert (Hlen : (pos < length d)%nat).
      { destruct (Nat.lt_ge_cases pos (length d)) as [|Hge]; [done|]. by rewrite drop_ge in Hd. }
      zdecide. assert (Hx : d !! pos = Some 0) by (rewrite <- (Nat.add_0_r pos), <- lookup_drop, Hd; done).
      rewrite Hx. cbn. by rewrite Nat.add_1_r.
    - assert (Hd' : drop pos d = zlen l :: l ++ wire_name labels ++ rest)
        by (rewrite Hd; unfold wire_name; cbn; by rewrite <- !app_assoc).
      assert (Hx : d !! pos = Some (zlen l)) by (rewrite <- (Nat.add_0_r pos), <- lookup_drop, Hd'; done).
      assert (Hd1 : drop (pos + 1) d = l ++ wire_name labels ++ rest).
      { rewrite <- drop_drop, Hd'. done. }
      assert (Hlen : (pos + 1 + length l <= length d)%nat).
      { apply (f_equal length) in Hd1. rewrite length_drop, length_app in Hd1. destruct Hl. lia. }
      destruct (IH (pos + 1 + length l)%nat (add_label q l)) as [fuel Hf].
      { rewrite <- drop_drop, Hd1. by rewrite drop_app_length. }
      exists (S fuel). cbn [walk]. zdecide. rewrite Hx. cbn [mbind option_bind].
      assert (Hz : 0 < zlen l) by (unfold zlen; destruct Hl; lia). zdecide. rewrite label_len_flags by done. cbn [Z.eqb negb].
      unfold zlen. rewrite Nat2Z.id. zdecide. rewrite append_label_eq by lia. rewrite Hd1, take_app_length. cbn [mbind option_bind].
      rewrite Hf. unfold wire_name. cbn [flat_map fold_left]. rewrite <- app_assoc, (length_app (wire_label l)), wire_label_length.
      do 2 f_equal. lia. }
  destruct Hw as [fuel Hw]. destruct (walk_total d (S (length d)) pos q) as [w Hw']; [lia..|].
  destruct (Nat.le_ge_cases fuel (S (length d))) as [Hle|Hle].
  - by eapply walk_fuel.
  - pose proof (walk_fuel _ _ _ _ _ _ Hw' Hle) as E. rewrite Hw in E. injection E as <-. done.
Qed.

Lemma walk_sound d fuel : forall pos q p q', wf_bytes d -> walk fuel d pos q = Some (Root p q') ->
  exists labels, Forall label_ok labels /\ drop pos d = wire_name labels ++ drop p d /\
    p = (pos + length (wire_name labels))%nat /\ q' = fold_left add_label labels q.
Proof.
  induction fuel as [|fuel IH]; intros pos q p q' Hwf; cbn [walk]; [done|].
  destruct (pos <? length d)%nat eqn:E; [to_prop|done].
  destruct (d !! pos) as [len|] eqn:Hx; [cbn [mbind option_bind]|done].
  assert (Hb : is_byte len) by (by eapply (Forall_lookup_1 is_byte)).
  destruct (len =? 0) eqn:E0; to_prop.
  - intros [= <- <-]. exists []. subst len. split; [constructor|]. cbn. rewrite (drop_S _ _ _ Hx).
    by rewrite Nat.add_1_r.
  - destruct (Z.land len 192 =? 0) eqn:E1; cbn [negb]; [to_prop|done].
    destruct (length d <? pos + 1 + Z.to_nat len)%nat eqn:E2; [done|to_prop].
    rewrite append_label_eq by lia. cbn [mbind option_bind]. intros Hw.
    destruct (IH _ _ _ _ Hwf Hw) as (labels & Hok & Hd & Hp & Hq).
    pose proof (len_flags_label len Hb E1). destruct Hb. set (l := take (Z.to_nat len) (drop (pos + 1) d)) in *.
    assert (Hl : length l = Z.to_nat len) by (unfold l; rewrite length_take, length_drop; lia).
    exists (l :: labels). split; [constructor; [split; lia|done]|].
    unfold wire_name. cbn [flat_map fold_left]. split; [|split; [|done]].
    + rewrite (drop_S _ _ _ Hx), <- Nat.add_1_r, <- app_assoc. unfold wire_label, zlen. rewrite Hl, Z2Nat.id by lia.
      cbn. f_equal. rewrite <- (take_drop (Z.to_nat len) (drop (pos + 1) d)) at 1. fold l. rewrite drop_drop, Hd.
      unfold wire_name. by rewrite <- !app_assoc.
    + rewrite <- app_assoc, length_app, wire_label_length, Hl, Hp. unfold wire_name. lia.
Qed.

(** ** Names *)

Lemma take_take_app {A} n (x y : list A) : take n (take n x ++ y) = take n (x ++ y).
Proof.
  destruct (Nat.le_ge_cases (length x) n).
  - by rewrite (take_ge x).
  - rewrite take_app_le by (rewrite length_take; lia). rewrite take_take, Nat.min_id. by rewrite take_app_le.
Qed.

Lemma add_label_long q l : q <> [] -> (length q <= kMaxDnsNameChars)%nat ->
  add_label q l = take kMaxDnsNameChars (q ++ 46 :: map safeLabelChar l).
Proof.
  intros Hq Hle. unfold add_label. destruct (length q <? kMaxDnsNameChars)%nat eqn:E; to_prop.
  - replace (is_nil q) with false by by destruct q. change (46 :: map safeLabelChar l) with ([46] ++ map safeLabelChar l).
    rewrite app_assoc. rewrite (take_app_ge (q ++ [46])); [done|]. rewrite length_app. cbn. unfold kMaxDnsNameChars in *. lia.
  - rewrite take_app_le by lia. by rewrite take_ge by lia.
Qed.

Lemma fold_add_long labels : forall q, q <> [] -> (length q <= kMaxDnsNameChars)%nat ->
  fold_left add_label labels q = take kMaxDnsNameChars (q ++ flat_map (fun l => 46 :: map safeLabelChar l) labels).
Proof.
  induction labels as [|l labels IH]; intros q Hq Hle; cbn [fold_left flat_map].
  - by rewrite app_nil_r, take_ge by lia.
  - rewrite add_label_long by done. rewrite IH.
    + rewrite take_take_app. by rewrite <- app_assoc.
    + destruct q; [done|]. by unfold kMaxDnsNameChars.
    + rewrite length_take. lia.
Qed.

Lemma join_flat_map sep p ps : join sep (p :: ps) = p ++ flat_map (fun q => sep ++ q) ps.
Proof.
  revert p. induction ps as [|q ps IH]; intros p; [cbn; by rewrite app_nil_r|].
  change (join sep (p :: q :: ps)) with (p ++ sep ++ join sep (q :: ps)). rewrite IH. cbn [flat_map]. by rewrite <- app_assoc.
Qed.

Lemma fold_add_logged labels : Forall label_ok labels -> fold_left add_label labels [] = logged_name labels.
Proof.
  intros Hok. destruct Hok as [|l labels Hl Hok]; [done|]. cbn [fold_left]. unfold logged_name. cbn [map].
  rewrite join_flat_map.
  assert (Hlen : (length (map safeLabelChar l) <= 63)%nat) by (rewrite length_map; by destruct Hl).
  assert (Ha : add_label [] l = map safeLabelChar l).
  { unfold add_label. change (length (@nil Z) <? kMaxDnsNameChars)%nat with true. cbn [is_nil length app].
    apply take_ge. unfold kMaxDnsNameChars. lia. }
  rewrite Ha, fold_add_long.
  - f_equal. f_equal. clear. induction labels as [|x labels IH]; cbn; [done|by rewrite IH].
  - destruct l; [destruct Hl; cbn in *; lia|done].
  - unfold kMaxDnsNameChars. lia.
Qed.

(** What may appear in a logged name. *)
Definition name_char (c : Z) : bool := is_ldh c || (c =? 46) || (c =? 63).
Definition name_ok (q : qstr) : Prop := (length q <= kMaxDnsNameChars)%nat /\ forallb name_char q = true.

Lemma safeLabelChar_ok b : name_char (safeLabelChar b) = true.
Proof. unfold safeLabelChar. destruct (is_ldh b) eqn:E; [|done]. unfold name_char. by rewrite E. Qed.

Lemma add_label_ok q l : name_ok q -> name_ok (add_label q l).
Proof.
  intros [Hl Hc]. unfold add_label. destruct (length q <? kMaxDnsNameChars)%nat eqn:E; [to_prop|done].
  set (q' := if is_nil q then [] else q ++ [46]).
  assert (Hq' : name_ok q').
  { unfold q'. destruct (is_nil q); [by split; [cbn; unfold kMaxDnsNameChars; lia|]|].
    split; [rewrite length_app; cbn; lia|]. by rewrite forallb_app, Hc. }
  destruct Hq' as [Hl' Hc']. split; cbn zeta.
  - rewrite length_app, length_take. lia.
  - rewrite forallb_app, Hc'. cbn [andb]. apply forallb_forall. intros c Hin.
    apply list_elem_of_In, elem_of_take in Hin as (i & Hi & _).
    apply list_elem_of_lookup_2, list_elem_of_In, in_map_iff in Hi as (b & <- & _). apply safeLabelChar_ok.
Qed.

Definition walk_name (w : Walk) : qstr := match w with Refused q | Unterminated q | Root _ q => q end.

Lemma walk_name_ok d fuel : forall pos q w, name_ok q -> walk fuel d pos q = Some w -> name_ok (walk_name w).
Proof.
  induction fuel as [|fuel IH]; intros pos q w Hq; cbn [walk]; [done|].
  case_if E; [|by intros [= <-]]. destruct (d !! pos) as [len|]; [cbn [mbind option_bind]|done].
  do 2 (case_if E0; [by intros [= <-]|clear E0]).
  destruct (length d <? pos + 1 + Z.to_nat len)%nat eqn:E3; [by intros [= <-]|to_prop].
  rewrite append_label_eq by lia. cbn [mbind option_bind]. apply IH. by apply add_label_ok.
Qed.

Lemma be16_read d i : (S i < length d)%nat -> be16 d i = Some (Z.lor (Z.shiftl (at_ d i) 8) (at_ d (S i))).
Proof.
  intros Hi. unfold be16, at_. destruct (lookup_lt_is_Some_2 d i) as [x Hx]; [lia|].
  destruct (lookup_lt_is_Some_2 d (S i)) as [y Hy]; [done|]. rewrite Hx, Hy. cbn.
  by rewrite !(nth_lookup_Some _ _ _ _ Hx), !(nth_lookup_Some _ _ _ _ Hy).
Qed.

Lemma at_lookup d i : (i < length d)%nat -> d !! i = Some (at_ d i).
Proof. intros Hi. unfold at_. destruct (lookup_lt_is_Some_2 d i Hi) as [x Hx]. by rewrite Hx, (nth_lookup_Some _ _ _ _ Hx). Qed.

(** The parser is safe on any datagram: no octet is read out of bounds and the
    walk ends; the logged name has at most 255 characters, all of them letters,
    digits, hyphens, underscores, dots or question marks; and the end of an
    answerable question lies within the datagram. *)
Theorem dns_parse_safe d :
  exists r, parseDnsQuery d = Some r /\
    (length (pq_qname r) <= kMaxDnsNameChars)%nat /\ forallb name_char (pq_qname r) = true /\
    (pq_valid r = true -> (17 <= pq_questionEnd r <= length d)%nat).
Proof.
  assert (H0 : name_ok []) by (split; [cbn; unfold kMaxDnsNameChars; lia|done]).
  assert (Hno : forall q qd, name_ok q -> exists r, Some (mkQuery false q 0 qd 0) = Some r /\
    (length (pq_qname r) <= kMaxDnsNameChars)%nat /\ forallb name_char (pq_qname r) = true /\
    (pq_valid r = true -> (17 <= pq_questionEnd r <= length d)%nat)).
  { intros q qd [Hl Hc]. eexists. split; [done|]. by repeat (split; [done|]). }
  unfold parseDnsQuery. destruct (length d <? 12)%nat eqn:E; to_prop; [by apply Hno|].
  rewrite (at_lookup d 2) by lia. cbn [mbind option_bind]. do 2 (case_if E0; [by apply Hno|clear E0]).
  rewrite be16_read by lia. cbn [mbind option_bind]. case_if E0; [by apply Hno|clear E0].
  destruct (walk_total d (S (length d)) 12 []) as [w Hw]; [lia..|]. rewrite Hw. cbn [mbind option_bind].
  pose proof (walk_name_ok _ _ _ _ _ H0 Hw) as [Hl Hc]. destruct w as [q|q|pos q]; cbn [walk_name] in *; [by apply Hno..|].
  destruct (length d <? pos + 4)%nat eqn:Ep; to_prop; [by apply Hno|]. rewrite be16_read by lia. cbn [mbind option_bind].
  eexists. split; [done|]. cbn [pq_qname pq_questionEnd]. do 2 (split; [done|]). intros _. split; [|done].
  assert (Hpos : forall fuel pos0 q0 p q', walk fuel d pos0 q0 = Some (Root p q') -> (pos0 < p)%nat).
  { clear. induction fuel as [|fuel IH]; intros pos0 q0 p q'; cbn [walk]; [done|]. case_if E; [|done].
    destruct (d !! pos0) as [len|]; [cbn [mbind option_bind]|done]. case_if E0; [intros [= <- <-]; lia|].
    do 2 (case_if E1; [done|clear E1]). destruct (append_label _ _ _ _); [cbn [mbind option_bind]|done].
    intros Hw. apply IH in Hw. lia. }
  apply Hpos in Hw. lia.
Qed.

(** ** What is a query *)

Lemma be16_one a b : is_byte a -> is_byte b -> Z.lor (Z.shiftl a 8) b = 1 <-> a = 0 /\ b = 1.
Proof. intros [Ha _] Hb. rewrite lor_shiftl_8 by apply Hb. destruct Hb. lia. Qed.

Lemma at_take (d : bytes) n i : (i < n)%nat -> at_ (take n d) i = at_ d i.
Proof.
  intros Hi. unfold at_. destruct (Nat.lt_ge_cases i (length d)).
  - rewrite <- (take_drop n d) at 2. rewrite app_nth1; [done|]. rewrite length_take. lia.
  - rewrite !nth_overflow; rewrite ?length_take; lia || done.
Qed.

(** The parser accepts exactly the standard single-question queries: a header
    with QR = 0, opcode 0 and one question, a name of uncompressed labels of 1 to 63
    octets, a type and a class, whatever follows.  It then reports the type, the
    end of the question, and the labels joined by dots, sanitized, cut at 255. *)
Theorem dns_parse_iff d r : wf_bytes d ->
  parseDnsQuery d = Some r /\ pq_valid r = true <->
  exists h labels t1 t2 c rest,
    d = h ++ wire_name labels ++ [t1; t2] ++ c ++ rest /\ query_header h /\ Forall label_ok labels /\ length c = 2%nat /\
    r = mkQuery true (logged_name labels) (12 + length (wire_name labels) + 4) 1 (t1 * 256 + t2).
Proof.
  intros Hwf. split.
  - unfold parseDnsQuery. intros [Hp Hv]. revert Hp. destruct (length d <? 12)%nat eqn:E; to_prop; [by intros [= <-]|].
    rewrite (at_lookup d 2) by lia. cbn [mbind option_bind].
    destruct (Z.land (at_ d 2) 128 =? 0) eqn:Eq; cbn [negb]; [|by intros [= <-]].
    destruct (Z.land (Z.shiftr (at_ d 2) 3) 15 =? 0) eqn:Eo; cbn [negb]; [to_prop|by intros [= <-]].
    rewrite be16_read by lia. cbn [mbind option_bind].
    destruct (_ =? 1) eqn:Ec; cbn [negb]; [to_prop|by intros [= <-]].
    destruct (walk _ d 12 []) as [[q|q|pos q]|] eqn:Hw; cbn [mbind option_bind]; [by intros [= <-]..| |done].
    destruct (length d <? pos + 4)%nat eqn:Ep; [by intros [= <-]|to_prop].
    rewrite be16_read by lia. cbn [mbind option_bind]. intros [= <-].
    destruct (walk_sound _ _ _ _ _ _ Hwf Hw) as (labels & Hok & Hd & Hpos & Hq).
    pose proof (at_wf d pos Hwf) as Hb1. pose proof (at_wf d (S pos) Hwf) as Hb2.
    exists (take 12 d), labels, (at_ d pos), (at_ d (S pos)), (take 2 (drop (pos + 2) d)), (drop (pos + 4) d).
    split; [|split; [|split; [done|split]]].
    + rewrite <- (take_drop 12 d) at 1. f_equal. rewrite Hd. f_equal.
      rewrite (drop_S _ _ pos (at_lookup d pos ltac:(lia))), (drop_S _ _ (S pos) (at_lookup d (S pos) ltac:(lia))). cbn [app]. do 2 f_equal.
      replace (S (S pos)) with (pos + 2)%nat by lia. rewrite <- (take_drop 2 (drop (pos + 2) d)) at 1. rewrite drop_drop.
      by replace (pos + 2 + 2)%nat with (pos + 4)%nat by lia.
    + split; [rewrite length_take; lia|]. rewrite !at_take by lia. split; [done|]. split; [done|].
      apply be16_one; [apply at_wf..|]; done.
    + rewrite length_take, length_drop. lia.
    + rewrite Ec, lor_shiftl_8 by apply Hb2. f_equal; [by rewrite Hq, fold_add_logged|lia].
  - intros (h & labels & t1 & t2 & c & rest & -> & (Hh & Hqr & Hop & H4 & H5) & Hok & Hc & ->). split; [|done].
    assert (Hlen : length (h ++ wire_name labels ++ [t1; t2] ++ c ++ rest) = (16 + length (wire_name labels) + length rest)%nat)
      by (rewrite !length_app; cbn; lia).
    assert (Hat : forall i, (i < 12)%nat -> at_ (h ++ wire_name labels ++ [t1; t2] ++ c ++ rest) i = at_ h i)
      by (intros i Hi; apply at_app_l; lia).
    assert (Hpos : forall i, at_ (h ++ wire_name labels ++ [t1; t2] ++ c ++ rest) (12 + length (wire_name labels) + i)
                       = at_ ([t1; t2] ++ c ++ rest) i).
    { intros i. rewrite <- Hh, <- Nat.add_assoc, at_app_r. apply at_app_r. }
    unfold parseDnsQuery. zdecide. rewrite (at_lookup _ 2) by lia. cbn [mbind option_bind].
    rewrite Hat by lia. rewrite Hqr, Hop. cbn [Z.eqb negb]. rewrite be16_read by lia. cbn [mbind option_bind].
    rewrite !Hat, H4, H5 by lia. change (Z.lor (Z.shiftl 0 8) 1) with 1. cbn [Z.eqb Pos.eqb negb].
    rewrite (walk_complete _ labels 12 [] ([t1; t2] ++ c ++ rest)); [|done|by rewrite <- Hh, drop_app_length].
    cbn [mbind option_bind]. rewrite Hlen. replace (16 + _ + _ <? _)%nat with false by (symmetry; apply Nat.ltb_ge; lia).
    rewrite be16_read by lia. cbn [mbind option_bind]. do 2 f_equal; [by apply fold_add_logged|].
    pose proof (Hpos 0%nat) as P0. pose proof (Hpos 1%nat) as P1. rewrite Nat.add_0_r in P0. rewrite P0.
    replace (S (12 + length (wire_name labels))) with (12 + length (wire_name labels) + 1)%nat by lia. rewrite P1. cbn.
    apply lor_shiftl_8. apply (Forall_app is_byte) in Hwf as [_ Hwf]. apply (Forall_app is_byte) in Hwf as [_ Hwf].
    apply Forall_cons in Hwf as [_ Hwf]. by apply Forall_cons in Hwf as [Hb _].
Qed.

(** ** The token of a callback *)

Lemma hex16_len t : hex16 t = true -> length t = 16%nat /\ forallb is_lower_hex t = true.
Proof. unfold hex16. intros H. split_bools. by to_prop. Qed.

Lemma logged_name_head l labels : Forall label_ok (l :: labels) ->
  match index_of 46 (logged_name (l :: labels)) with
  | Some (S n) => take (S n) (logged_name (l :: labels)) | _ => logged_name (l :: labels) end = map safeLabelChar l.
Proof.
  intros [Hl Hok]%Forall_cons. unfold logged_name. cbn [map]. rewrite join_flat_map.
  assert (Hlen : length (map safeLabelChar l) = length l) by apply length_map.
  assert (Hdot : 46 ∉ map safeLabelChar l).
  { intros (b & Hb & _)%list_elem_of_In%in_map_iff. revert Hb. unfold safeLabelChar. destruct (is_ldh b) eqn:E; [|done].
    intros ->. done. }
  destruct Hl as [Hl Hu]. unfold kMaxDnsNameChars.
  destruct labels as [|l' labels]; cbn [map flat_map].
  - rewrite app_nil_r, take_ge by lia. by rewrite (proj2 (index_of_None 46 _) Hdot).
  - cbn [app]. rewrite take_app_ge by lia. destruct (255 - length (map safeLabelChar l))%nat as [|n] eqn:En; [lia|].
    cbn [take]. rewrite index_of_app by done. destruct (length (map safeLabelChar l)) as [|m] eqn:Em; [lia|].
    rewrite <- Em. by rewrite take_app_length.
Qed.

Lemma hex_safe l : forallb is_lower_hex (map ascii_lower1 (map safeLabelChar l)) = true -> map safeLabelChar l = l.
Proof.
  rewrite map_map. intros Hf. rewrite <- (map_id l) at 2. apply map_ext_in. intros b Hb.
  rewrite forallb_forall in Hf. specialize (Hf _ (in_map _ _ _ Hb)). cbn beta in Hf. unfold safeLabelChar in *. by destruct (is_ldh b).
Qed.

Lemma safe_lower_hex l : forallb is_lower_hex (map ascii_lower1 l) = true -> map safeLabelChar l = l.
Proof.
  intros Hf. rewrite <- (map_id l) at 2. apply map_ext_in. intros b Hb. rewrite forallb_forall in Hf.
  specialize (Hf _ (in_map _ _ _ Hb)). unfold safeLabelChar, is_ldh. unfold is_lower_hex, is_digit, ascii_lower1 in Hf.
  destruct ((65 <=? b) && (b <=? 90)); [done|]. cbn [orb].
  destruct ((97 <=? b) && (b <=? 122)) eqn:E; [done|cbn [orb]].
  destruct ((48 <=? b) && (b <=? 57)); [done|cbn [orb] in *]. split_bools. to_prop.
  apply andb_false_iff in E as [E|E]; to_prop; lia.
Qed.

(** A callback carries a token exactly when the first label of the queried name
    is that token, in any letter case: sixteen hexadecimal digits, nothing else. *)
Theorem dns_token_iff `{QtTextLaws} l labels t :
  Forall label_ok (l :: labels) -> t <> [] ->
  dnsExtractToken (logged_name (l :: labels)) = t <-> hex16 t = true /\ map ascii_lower1 l = t.
Proof.
  intros Hok Ht. unfold dnsExtractToken. rewrite logged_name_head by done.
  assert (Ha : all_ascii (map safeLabelChar l) = true).
  { apply forallb_forall. intros c (b & <- & _)%in_map_iff. unfold safeLabelChar. destruct (is_ldh b) eqn:E; [|done].
    unfold is_ascii. unfold is_ldh in E. repeat (apply orb_true_iff in E as [E|E]); split_bools; to_prop; join_bools; zdecides; done. }
  rewrite law_lower_ascii by done. split.
  - destruct (hex16 _) eqn:Eh; [|by intros <-]. intros <-. split; [done|].
    destruct (hex16_len _ Eh) as [_ Hf]. by rewrite (hex_safe l Hf).
  - intros [Hh <-]. destruct (hex16_len _ Hh) as [_ Hf]. rewrite (safe_lower_hex l Hf). by rewrite Hh.
Qed.

(** ** Answers *)

Lemma answerFor_length ip t : length (ip_v6 ip) = 16%nat -> length (answerFor ip t) = 0%nat \/ length (answerFor ip t) = 14%nat \/ length (answerFor ip t) = 26%nat.
Proof.
  intros Hv. unfold answerFor. case_if E; [by right; left|]. case_if E1; [|by left]. right; right.
  unfold answer_aaaa. rewrite length_app, length_take, Hv. done.
Qed.

(** A valid query gets an answer and nothing else does.  The answer repeats the
    query's identifier and question, announces as many answer records as it has,
    is at most 28 octets longer than the question's end, and is not itself a query:
    two such responders cannot keep answering each other. *)
Theorem dns_response_correct ip d : length (ip_v6 ip) = 16%nat ->
  exists r, parseDnsQuery d = Some r /\
    if pq_valid r then
      exists resp r', buildResponse ip d = Some (Some resp) /\
        take 2 resp = take 2 d /\ mid resp 12 (pq_questionEnd r - 12) = mid d 12 (pq_questionEnd r - 12) /\
        (length resp <= pq_questionEnd r + 28)%nat /\
        (at_ resp 7 = 0 <-> drop (pq_questionEnd r) resp = []) /\
        parseDnsQuery resp = Some r' /\ pq_valid r' = false
    else buildResponse ip d = Some None.
Proof.
  intros Hv6. destruct (dns_parse_safe d) as (r & Hp & _ & _ & Hv). exists r. split; [done|].
  unfold buildResponse. rewrite Hp. cbn [mbind option_bind]. destruct (pq_valid r) eqn:Er; cbn [negb]; [|done].
  specialize (Hv eq_refl). rewrite (at_lookup d 0), (at_lookup d 1) by lia. cbn [mbind option_bind].
  set (ans := answerFor ip (pq_qtype r)). pose proof (answerFor_length ip (pq_qtype r) Hv6) as Hl. fold ans in Hl.
  set (hd := [at_ d 0; at_ d 1; 132; 0; 0; 1; 0; if negb (is_nil ans) then 1 else 0; 0; 0; 0; 0]).
  set (tl := if negb (is_nil ans) then [192; 12] ++ ans else []).
  assert (Hm : length (mid d 12 (pq_questionEnd r - 12)) = (pq_questionEnd r - 12)%nat) by (rewrite length_mid; lia).
  assert (Hlen : length (hd ++ mid d 12 (pq_questionEnd r - 12) ++ tl) = (pq_questionEnd r + length tl)%nat).
  { rewrite !length_app, Hm. cbn [length hd]. lia. }
  eexists _, noQuery. split; [done|]. split; [|split; [|split; [|split; [|split; [|done]]]]].
  - rewrite <- (take_drop 2 d) at 2. destruct d as [|a [|b d]]; [cbn in Hv; lia..|]. done.
  - change 12%nat with (length hd) at 1. rewrite mid_app. by rewrite <- Hm at 1; rewrite take_app_length.
  - rewrite Hlen. unfold tl. destruct (is_nil ans); cbn [negb]; rewrite ?length_app; cbn [length]; lia.
  - replace (pq_questionEnd r) with (length (hd ++ mid d 12 (pq_questionEnd r - 12))) at 2
      by (rewrite length_app, Hm; cbn [length hd]; lia).
    rewrite app_assoc, drop_app_length. unfold tl. change (at_ _ 7) with (if negb (is_nil ans) then 1 else 0).
    by destruct (is_nil ans).
  - unfold parseDnsQuery. rewrite Hlen. replace (_ <? 12)%nat with false by (symmetry; apply Nat.ltb_ge; lia). done.
Qed.

(** ** Concrete datagrams *)

#[local] Existing Instance asciiText.

Definition ex_token : bytes := lit "0123456789ABcdef".
Definition ex_header : bytes := [18; 52; 1; 0; 0; 1; 0; 0; 0; 0; 0; 0].
Definition ex_query : bytes := ex_header ++ wire_name [ex_token; lit "oast"; lit "me"] ++ [0; 28; 0; 1].
Definition ex_ip : AnswerIp := mkAnswerIp 2130706433 (repeat 0 10 ++ [255; 255; 127; 0; 0; 1]).

Lemma ex_labels_ok : Forall label_ok [ex_token; lit "oast"; lit "me"].
Proof. repeat constructor; vm_compute; lia. Qed.

Lemma dns_parse_iff_witness :
  parseDnsQuery ex_query = Some (mkQuery true (lit "0123456789ABcdef.oast.me") 42 1 28).
Proof.
  refine (proj1 (proj2 (dns_parse_iff ex_query (mkQuery true (lit "0123456789ABcdef.oast.me") 42 1 28) _) _)).
  - unfold wf_bytes. refine (bool_decide_eq_true_1 _ _). vm_compute. reflexivity.
  - exists ex_header, [ex_token; lit "oast"; lit "me"], 0, 28, [0; 1], [].
    split; [reflexivity|]. split; [by vm_compute|]. split; [exact ex_labels_ok|]. by vm_compute.
Defined.

Lemma dns_token_iff_witness :
  dnsExtractToken (logged_name [ex_token; lit "oast"; lit "me"]) = lit "0123456789abcdef".
Proof.
  apply (dns_token_iff ex_token [lit "oast"; lit "me"] (lit "0123456789abcdef")); [exact ex_labels_ok|done|].
  split; vm_compute; reflexivity.
Defined.

Lemma dns_response_correct_witness :
  exists r, parseDnsQuery ex_query = Some r /\
    if pq_valid r then
      exists resp r', buildResponse ex_ip ex_query = Some (Some resp) /\
        take 2 resp = take 2 ex_query /\ mid resp 12 (pq_questionEnd r - 12) = mid ex_query 12 (pq_questionEnd r - 12) /\
        (length resp <= pq_questionEnd r + 28)%nat /\
        (at_ resp 7 = 0 <-> drop (pq_questionEnd r) resp = []) /\
        parseDnsQuery resp = Some r' /\ pq_valid r' = false
    else buildResponse ex_ip ex_query = Some None.
Proof. apply (dns_response_correct ex_ip ex_query). reflexivity. Defined.
