(* ===== verification/Oast.v ===== *)
(** * Out-of-band callbacks: Src/Core/APIs/Oast

    A probe embeds a minted token; the HTTP sink (oast_server.cpp, [OastServer]), the
    DNS sink (dns_sink.cpp over [Dns]) or a polled remote sink logs the callback that
    carries it; the correlator (oast_correlator.cpp) turns the first callback of a
    registered token into a finding and keeps its registry in a file
    (oast_logic.cpp).  A socket is the list of the segments [readAll] returns before
    the deadline; the clock, the random number and the peer are arguments. *)

From Stdlib Require Import SpecFloat.
From S2P Require Import Prelude Qt QtSample QMap Json JsonSample HistoryLogic Dns.

Local Open Scope Z_scope.

(** ** [QString::arg] *)

(** A format taken apart: characters, and place markers with their number and text
    ([%1] to [%99], an optional L). *)
Inductive Piece := PChar (c : Z) | PMark (n : Z) (text : qstr).

(** The marker whose digits start here, and how many units they are. *)
Definition mark_digits (s : qstr) : option (Z * qstr) :=
  match s with
  | d :: s' =>
      if is_digit d then
        match s' with
        | e :: _ => if is_digit e then Some (10 * (d - 48) + (e - 48), [d; e]) else Some (d - 48, [d])
        | [] => Some (d - 48, [d])
        end
      else None
  | [] => None
  end.

(** A marker at the start of [s]. *)
Definition mark_here (s : qstr) : option (Z * qstr) :=
  match s with
  | 37 :: 76 :: t => (fun m => (fst m, 37 :: 76 :: snd m)) <$> mark_digits t
  | 37 :: t => (fun m => (fst m, 37 :: snd m)) <$> mark_digits t
  | _ => None
  end.

(** [skip] units belong to the marker already taken. *)
Fixpoint pieces_from (skip : nat) (s : qstr) : list Piece :=
  match s with
  | [] => []
  | c :: t =>
      match skip with
      | S skip' => pieces_from skip' t
      | O => match mark_here s with
             | Some (n, text) => PMark n text :: pieces_from (length text - 1) t
             | None => PChar c :: pieces_from 0 t
             end
      end
  end.
Definition pieces : qstr -> list Piece := pieces_from 0.

(** The numbers of the markers in ascending order, each once. *)
Fixpoint insert_num (n : Z) (l : list Z) : list Z :=
  match l with
  | [] => [n]
  | m :: l' => if n <? m then n :: l else if n =? m then l else m :: insert_num n l'
  end.
Definition marks (ps : list Piece) : list Z :=
  fold_right (fun p l => match p with PMark n _ => insert_num n l | PChar _ => l end) [] ps.

(** [s.arg(a1, ..., an)]: all at once; [s.arg(a)] is the case of one.  A marker
    that no argument replaces stays as it was written. *)
Definition qargs (s : qstr) (args : list qstr) : qstr :=
  let ps := pieces s in
  let table := zip (marks ps) args in
  flat_map (fun p => match p with
    | PChar c => [c]
    | PMark n text => match find (fun e => fst e =? n) table with Some (_, a) => a | None => text end
    end) ps.

(** ** Tokens *)

Section Tokens.
Context `{QtText}.

(** The end of the path's segment: the next of [/ ? #]. *)
Fixpoint segment_end (s : qstr) : option nat :=
  match s with
  | [] => None
  | c :: s' => if (c =? 47) || (c =? 63) || (c =? 35) then Some 0%nat else S <$> segment_end s'
  end.

(** The path form: /oast/<token>. *)
Definition pathToken (path : qstr) : qstr :=
  if starts_with (lit "/oast/") path then
    let seg := match segment_end (drop 6 path) with Some n => mid path 6 n | None => drop 6 path end in
    if hex16 seg then seg else []
  else [].

(** The subdomain form first. *)
Definition extractToken (hostHeader path : qstr) : qstr :=
  match index_of 46 hostHeader with
  | Some (S n) =>
      let head := u_lower (take (S n) hostHeader) in
      if hex16 head then head else pathToken path
  | _ => pathToken path
  end.

(** ** Minting *)

(** [^...$] without the multiline option: also before a final newline. *)
Definition dollar (p : qstr -> bool) (s : qstr) : bool := p s || (ends_with_chr 10 s && p (chop1 s)).

Definition octet_text (s : qstr) : bool := (1 <=? length s)%nat && (length s <=? 3)%nat && forallb is_digit s.
Definition kIpv4 : qstr -> bool :=
  dollar (fun s => let parts := split_on 46 s in (length parts =? 4)%nat && forallb octet_text parts).
Definition kIpv6 : qstr -> bool :=
  dollar (fun s => negb (is_nil s) && forallb (fun c => is_hexdigit c || (c =? 58)) s).

Definition baseIsIpLiteral (baseHost : qstr) : bool :=
  kIpv4 baseHost || (contains_chr 58 baseHost && kIpv6 baseHost).

(** [s.rightJustified(16, '0')]. *)
Definition rightJustified16 (s : qstr) : qstr := repeat 48 (16 - length s) ++ s.

Record Minted := mkMinted { mt_token : qstr; mt_pathUrl : qstr; mt_hostUrl : qstr; mt_port : Z; mt_baseHost : qstr }.

Definition mintToken (random : Z) (baseHost : qstr) (port : Z) : Minted :=
  let tok := rightJustified16 (number 16 random) in
  let pathUrl := qargs (qargs (qargs (lit "http://%1:%2/oast/%3/cb") [baseHost]) [number 10 port]) [tok] in
  let hostUrl := if baseIsIpLiteral baseHost then pathUrl
                 else qargs (qargs (lit "http://%1.%2:%3/") [tok; baseHost]) [number 10 port] in
  mkMinted tok pathUrl hostUrl port baseHost.
End Tokens.

(** ** The hit log of a sink *)

Record OastHit := mkHit {
  h_id : Z; h_atMs : Z; h_token : qstr; h_sourceIp : qstr; h_method : qstr; h_hostHeader : qstr; h_path : qstr;
  h_bodyBytes : Z; h_userAgent : qstr; h_bodyPreview : qstr
}.

Definition kMaxHits : nat := 1000.

Record HitLog := mkLog { m_hits : list OastHit; m_nextHitId : Z }.
Definition emptyLog : HitLog := mkLog [] 1.

(** [m_hits.append(hit); while (m_hits.size() > kMaxHits) m_hits.removeFirst()]. *)
Definition push_hit (hits : list OastHit) (h : OastHit) : list OastHit :=
  let hits := hits ++ [h] in drop (length hits - kMaxHits) hits.

(** A hit gets the next number and is logged. *)
Definition with_id (h : OastHit) (id : Z) : OastHit :=
  mkHit id (h_atMs h) (h_token h) (h_sourceIp h) (h_method h) (h_hostHeader h) (h_path h) (h_bodyBytes h) (h_userAgent h) (h_bodyPreview h).
Definition log_hit (l : HitLog) (h : OastHit) : HitLog * OastHit :=
  let h := with_id h (m_nextHitId l) in
  (mkLog (push_hit (m_hits l) h) (m_nextHitId l + 1), h).

Definition hitsSince (l : HitLog) (sinceId : Z) : list OastHit := List.filter (fun h => sinceId <? h_id h) (m_hits l).

(** ** The HTTP sink *)

Section Server.
Context `{QtText}.

(** The header read: until the blank line, a lost connection or more than 64 KB. *)
Fixpoint readHeader (buf : bytes) (segs : list bytes) : option (bytes * list bytes) :=
  if contains_sub [13; 10; 13; 10] buf then Some (buf, segs)
  else match segs with
       | [] => None
       | seg :: segs' =>
           let buf := buf ++ seg in
           if 65536 <? zlen buf then Some (buf, segs') else readHeader buf segs'
       end.

(** The body read of [contentLength] octets, as far as they come. *)
Fixpoint readBody (rest : bytes) (contentLength : Z) (segs : list bytes) : bytes :=
  if zlen rest <? contentLength then
    match segs with [] => rest | seg :: segs' => readBody (rest ++ seg) contentLength segs' end
  else rest.

(** Host, User-Agent and Content-Length, the last of each. *)
Definition headerLine (acc : qstr * qstr * Z) (line : bytes) : qstr * qstr * Z :=
  let '(hostHdr, ua, contentLength) := acc in
  let l := if ends_with_chr 13 line then chop1 line else line in
  match index_of 58 l with
  | None | Some O => acc
  | Some c =>
      let key := take c l in
      let val := b_trimmed (drop (c + 1) l) in
      if u_cieq key (lit "Host") then (val, ua, contentLength)
      else if u_cieq key (lit "User-Agent") then (hostHdr, val, contentLength)
      else if u_cieq key (lit "Content-Length") then (hostHdr, ua, default 0 (u_tolonglong 10 val))
      else acc
  end.

Definition okResponse : bytes :=
  let body := lit "nullock-oast: callback received" ++ [10] in
  lit "HTTP/1.1 200 OK" ++ [13; 10] ++ lit "Content-Type: text/plain" ++ [13; 10] ++
  lit "Content-Length: " ++ number 10 (zlen body) ++ [13; 10] ++ lit "Connection: close" ++ [13; 10; 13; 10] ++ body.

(** The hit of a connection, before its number; [None] when it is dropped unread. *)
Definition clientHit (atMs : Z) (peer : qstr) (segs : list bytes) : option OastHit :=
  match readHeader [] segs with
  | None => None
  | Some (buf, segs) =>
      match index_sub [13; 10; 13; 10] buf with
      | None => None
      | Some sep =>
          let header := take sep buf in
          let rest := drop (sep + 4) buf in
          let requestLine := match index_sub [13; 10] header with Some (S n) => take (S n) header | _ => header end in
          let '(method, path) := match split_on 32 requestLine with m :: p :: _ => (m, p) | _ => ([], []) end in
          let '(hostHdr, ua, contentLength) := fold_left headerLine (split_on 10 header) ([], [], 0) in
          let rest :=
            if (0 <? contentLength) && (contentLength <=? 4194304)
            then take (Z.to_nat contentLength) (readBody rest contentLength segs) else rest in
          Some (mkHit 0 atMs (extractToken hostHdr path) peer method hostHdr path (zlen rest) ua (u_fromutf8 (take 4096 rest)))
      end
  end.

(** [handleClient]: the new log, the emitted hit and what is written back. *)
Definition handleClient (atMs : Z) (peer : qstr) (segs : list bytes) (l : HitLog) : HitLog * option OastHit * bytes :=
  match clientHit atMs peer segs with
  | None => (l, None, [])
  | Some h => let '(l', h') := log_hit l h in (l', Some h', okResponse)
  end.

(** ** The DNS sink *)

(** One datagram: the new log, the answer written and the hit emitted. *)
Definition onDatagram (ip : AnswerIp) (atMs : Z) (sender : qstr) (buf : bytes) (l : HitLog)
    : option (HitLog * option bytes * option OastHit) :=
  pq ← parseDnsQuery buf;
  resp ← buildResponse ip buf;
  if negb (pq_valid pq) then Some (l, resp, None)
  else
    let token := dnsExtractToken (pq_qname pq) in
    if is_nil token then Some (l, resp, None)
    else
      let '(l', h) := log_hit l (mkHit 0 atMs token sender (lit "DNS") (pq_qname pq) (qtypeName (pq_qtype pq)) 0 (lit "(dns-resolver)") []) in
      Some (l', resp, Some h).

(** ** A remote sink, polled *)

Definition toDouble (v : json) : spec_float :=
  match v with JInt n => double_of_Z n | JDouble d => d | _ => S754_zero false end.

(** One entry of [o["hits"]]; [None]: a number outside the 64 bits (undefined). *)
Definition pollEntry (st : HitLog * Z * list OastHit) (v : json) : option (HitLog * Z * list OastHit) :=
  let '(l, since, out) := st in
  let ho := toObject v in
  remoteId ← cast_int64 (toDouble (value ho (lit "id")));
  atMs ← cast_int64 (toDouble (value ho (lit "atMs")));
  let since := if since <? remoteId then remoteId else since in
  let '(l', h) := log_hit l (mkHit 0 atMs (toString (value ho (lit "token"))) (toString (value ho (lit "sourceIp")))
    (toString (value ho (lit "method"))) (toString (value ho (lit "hostHeader"))) (toString (value ho (lit "path")))
    (toInt 0 (value ho (lit "bodyBytes"))) (toString (value ho (lit "userAgent"))) (toString (value ho (lit "bodyPreview")))) in
  Some (l', since, out ++ [h]).

(** A reply to [/poll?since=...]; [None] for the document when the request failed. *)
Definition pollReply (doc : option json) (l : HitLog) (since : Z) : option (HitLog * Z * list OastHit) :=
  match doc with
  | None => Some (l, since, [])
  | Some o =>
      fold_left (fun st v => st ← st; pollEntry st v) (toArray (value (toObject o) (lit "hits"))) (Some (l, since, []))
  end.
End Server.

(** ** The correlator *)

Record OastOrigin := mkOrigin { o_rowId : Z; o_host : qstr; o_param : qstr; o_url : qstr; o_kind : qstr; o_note : qstr }.

Definition kStateVersion : Z := 1.
Definition kMaxTokens : Z := 50000.

Definition tokenJson (e : qstr * OastOrigin) : json :=
  let '(token, o) := e in
  JObject (object [(lit "token", JString token); (lit "rowId", JInt (o_rowId o)); (lit "host", JString (o_host o));
    (lit "param", JString (o_param o)); (lit "url", JString (o_url o)); (lit "kind", JString (o_kind o)); (lit "note", JString (o_note o))]).

(** [serializeState] of the two containers in the order their iterators give. *)
Definition serializeState (tokens : list (qstr * OastOrigin)) (confirmed : list qstr) : list (qstr * json) :=
  object [(lit "version", JInt kStateVersion); (lit "tokens", JArray (map tokenJson tokens));
          (lit "confirmed", JArray (map JString confirmed))].

Definition readToken (m : gmap qstr OastOrigin) (v : json) : gmap qstr OastOrigin :=
  let e := toObject v in
  let token := toString (value e (lit "token")) in
  if is_nil token then m
  else <[token := mkOrigin (toInt 0 (value e (lit "rowId"))) (toString (value e (lit "host"))) (toString (value e (lit "param")))
                    (toString (value e (lit "url"))) (toString (value e (lit "kind"))) (toString (value e (lit "note")))]> m.

Definition readConfirmed (s : gset qstr) (v : json) : gset qstr :=
  let t := toString v in if is_nil t then s else {[t]} ∪ s.

(** [deserializeState]: the containers are replaced. *)
Definition deserializeState (obj : list (qstr * json)) : gmap qstr OastOrigin * gset qstr :=
  if toInt 0 (value obj (lit "version")) =? kStateVersion then
    (fold_left readToken (toArray (value obj (lit "tokens"))) ∅,
     fold_left readConfirmed (toArray (value obj (lit "confirmed"))) ∅)
  else (∅, ∅).

Record Correlator := mkCorr {
  m_tokens : gmap qstr OastOrigin; m_confirmed : gset qstr; m_persistPath : qstr; m_scanner : bool
}.

Record Finding := mkFinding {
  f_rowId : Z; f_severity : qstr; f_kind : qstr; f_summary : qstr; f_evidence : qstr; f_host : qstr; f_url : qstr
}.

(** The files, by path. *)
Abbreviation disk := (gmap qstr bytes).

Section Correlation.
Context `{QtText, QtJson}.

Definition setPersistPath (path : qstr) (d : disk) (c : Correlator) : Correlator :=
  let c := mkCorr (m_tokens c) (m_confirmed c) path (m_scanner c) in
  if is_nil path then c
  else match d !! path with
       | None => c
       | Some file =>
           match json_parse file with
           | Some (JObject obj) => let '(tokens, confirmed) := deserializeState obj in mkCorr tokens confirmed path (m_scanner c)
           | _ => c
           end
       end.

(** [ok]: the file could be opened and committed. *)
Definition saveLocked (ok : bool) (d : disk) (c : Correlator) : disk :=
  if is_nil (m_persistPath c) || negb ok then d
  else <[m_persistPath c := json_compact (JObject (serializeState (map_to_list (m_tokens c)) (elements (m_confirmed c))))]> d.

Definition registerToken (ok : bool) (token : qstr) (origin : OastOrigin) (d : disk) (c : Correlator) : disk * Correlator :=
  if is_nil token then (d, c)
  else
    let tokens := <[token := origin]> (m_tokens c) in
    let c' := if kMaxTokens <? Z.of_nat (size tokens) then mkCorr ∅ ∅ (m_persistPath c) (m_scanner c)
              else mkCorr tokens (m_confirmed c) (m_persistPath c) (m_scanner c) in
    (saveLocked ok d c', c').

(** [reportFinding]'s arguments. *)
Definition findingOf (hit : OastHit) (origin : OastOrigin) : Finding :=
  let baseKind := if is_nil (o_kind origin) then lit "ssrf-oast" else o_kind origin in
  let summary := qargs (lit "Confirmed out-of-band interaction: target reached our OAST sink" ++ lit "%1%2")
    [if is_nil (o_param origin) then [] else qargs (lit " via '%1'") [o_param origin];
     if is_nil (o_note origin) then [] else qargs (lit " [%1]") [o_note origin]] in
  let evidence := qargs (lit "token=%1 " ++ [183] ++ lit " callback from %2 (%3 %4) " ++ [183] ++ lit " UA=%5 " ++ [183] ++ lit " embedded-url=%6")
    [h_token hit; h_sourceIp hit; h_method hit; h_hostHeader hit ++ h_path hit; take 80 (h_userAgent hit); o_url origin] in
  let severity := if starts_with (lit "log4shell") baseKind || starts_with (lit "rce") baseKind
                  then lit "critical" else lit "high" in
  mkFinding (o_rowId origin) severity (baseKind ++ lit "-confirmed") summary evidence (o_host origin) (o_url origin).

Definition onHit (ok : bool) (hit : OastHit) (d : disk) (c : Correlator) : disk * Correlator * option Finding :=
  if is_nil (h_token hit) then (d, c, None)
  else
    match m_tokens c !! h_token hit with
    | None => (d, c, None)
    | Some origin =>
        if bool_decide (h_token hit ∈ m_confirmed c) then (d, c, None)
        else
          let c' := mkCorr (m_tokens c) ({[h_token hit]} ∪ m_confirmed c) (m_persistPath c) (m_scanner c) in
          (saveLocked ok d c', c', if m_scanner c then Some (findingOf hit origin) else None)
    end.

(** ** Runs *)

(** What happens to a correlator; [CRestart] is a new process on the same files, set
    up as app.cpp does. *)
Inductive CEvent :=
| CRegister (token : qstr) (origin : OastOrigin)
| CHit (hit : OastHit)
| CRestart (path : qstr).

Definition freshCorr : Correlator := mkCorr ∅ ∅ [] true.

(** Every save succeeds; the reports of a run, with the hits that caused them. *)
Fixpoint corr_run (es : list CEvent) (d : disk) (c : Correlator) : disk * Correlator * list (OastHit * Finding) :=
  match es with
  | [] => (d, c, [])
  | e :: es' =>
      match e with
      | CRegister t o => let '(d, c) := registerToken true t o d c in corr_run es' d c
      | CRestart path => corr_run es' d (setPersistPath path d freshCorr)
      | CHit hit =>
          let '(d, c, f) := onHit true hit d c in
          let '(d, c, out) := corr_run es' d c in
          (d, c, match f with Some f => (hit, f) :: out | None => out end)
      end
  end.
End Correlation.

(** ** The registry and its file *)

Section Registry.
Implicit Types (m : gmap qstr OastOrigin) (s : gset qstr).

Definition origin_ok (o : OastOrigin) : Prop :=
  INT_MIN <= o_rowId o <= INT_MAX /\ plain_str (o_host o) = true /\ plain_str (o_param o) = true /\
  plain_str (o_url o) = true /\ plain_str (o_kind o) = true /\ plain_str (o_note o) = true.
Definition registry_ok m s : Prop :=
  (forall t o, m !! t = Some o -> t <> [] /\ plain_str t = true /\ origin_ok o) /\
  (forall t, t ∈ s -> t <> [] /\ plain_str t = true).

Lemma readToken_json m t o : t <> [] -> INT_MIN <= o_rowId o <= INT_MAX -> readToken m (tokenJson (t, o)) = <[t := o]> m.
Proof.
  intros Ht Hr. unfold readToken.
  change (toString (value (toObject (tokenJson (t, o))) (lit "token"))) with t. destruct t as [|x t]; [done|]. cbn [is_nil].
  change (toInt 0 (value (toObject (tokenJson (x :: t, o))) (lit "rowId"))) with (toInt 0 (JInt (o_rowId o))).
  unfold toInt. zdecides. by destruct o.
Qed.

Lemma fold_readToken toks : forall m k, NoDup (fst <$> toks) ->
  Forall (fun e => fst e <> [] /\ INT_MIN <= o_rowId (snd e) <= INT_MAX) toks ->
  forall o, fold_left readToken (map tokenJson toks) m !! k = Some o <->
    (k, o) ∈ toks \/ (k ∉ (fst <$> toks) /\ m !! k = Some o).
Proof.
  induction toks as [|[t o'] toks IH]; intros m k Hnd Hok o; cbn [map fold_left].
  - split; [intros Hm; right; split; [apply not_elem_of_nil|done]|]. intros [Hin|[_ Hm]]; [by apply not_elem_of_nil in Hin|done].
  - cbn in Hnd. apply NoDup_cons in Hnd as [Hn Hnd]. apply Forall_cons in Hok as [[H1 H2] Hok]. cbn [fst snd] in *.
    rewrite readToken_json by done. rewrite IH by done. cbn. rewrite !elem_of_cons.
    destruct (decide (k = t)) as [->|Hne].
    + rewrite lookup_insert_eq. split.
      * intros [Hin|[_ [= <-]]]; [left; by right|left; by left].
      * intros [[[= <-]|Hin]|[Hk _]]; [right; by split|by left|]. destruct Hk. by left.
    + rewrite lookup_insert_ne by done. split.
      * intros [Hin|[Hk Hm]]; [left; by right|right; split; [|done]]. intros [?|?]; done.
      * intros [[[= <- <-]|Hin]|[Hk Hm]]; [done|by left|right; split; [|done]]. intros Hin. apply Hk. by right.
Qed.

Lemma fold_readConfirmed conf : forall s, Forall (fun t => t <> []) conf ->
  fold_left readConfirmed (map JString conf) s = list_to_set conf ∪ s.
Proof.
  induction conf as [|t conf IH]; intros s Hok; cbn [map fold_left]; [set_solver|].
  apply Forall_cons in Hok as [Ht Hok]. unfold readConfirmed at 2. cbn [toString]. destruct t as [|x t]; [done|]. cbn [is_nil].
  rewrite IH by done. set_solver.
Qed.

(** The registry survives its file: whatever order the hash containers are
    written in, reading the document back gives the same tokens with the same
    origins and the same confirmed set. *)
Theorem oast_state_roundtrip m s toks conf :
  (forall t o, m !! t = Some o -> t <> [] /\ INT_MIN <= o_rowId o <= INT_MAX) -> [] ∉ s ->
  toks ≡ₚ map_to_list m -> conf ≡ₚ elements s ->
  deserializeState (serializeState toks conf) = (m, s).
Proof.
  intros Hm Hs Ht Hc. unfold deserializeState.
  change (value (serializeState toks conf) (lit "version")) with (JInt 1).
  change (value (serializeState toks conf) (lit "tokens")) with (JArray (map tokenJson toks)).
  change (value (serializeState toks conf) (lit "confirmed")) with (JArray (map JString conf)).
  change (toInt 0 (JInt 1) =? kStateVersion) with true. cbn [toArray]. f_equal.
  - apply map_eq. intros k. apply option_eq. intros o. rewrite fold_readToken.
    + rewrite Ht, elem_of_map_to_list, lookup_empty. naive_solver.
    + rewrite Ht. apply NoDup_fst_map_to_list.
    + rewrite Ht. apply Forall_forall. intros [t o'] Hin%elem_of_map_to_list. by apply Hm.
  - rewrite fold_readConfirmed.
    + rewrite union_empty_r_L. apply set_eq. intros t. by rewrite elem_of_list_to_set, Hc, elem_of_elements.
    + rewrite Hc. apply Forall_forall. intros t Hin%elem_of_elements ->. done.
Qed.

(** A token with its origin, as it is written. *)
Lemma plain_token depth t o : plain_str t = true -> origin_ok o -> json_plain (S (S depth)) (tokenJson (t, o)) = true.
Proof.
  intros Ht (Hr & H1 & H2 & H3 & H4 & H5).
  change (tokenJson (t, o)) with (JObject [(lit "host", JString (o_host o)); (lit "kind", JString (o_kind o)); (lit "note", JString (o_note o));
    (lit "param", JString (o_param o)); (lit "rowId", JInt (o_rowId o)); (lit "token", JString t); (lit "url", JString (o_url o))]).
  apply plain_members.
  - cbn [qm_sorted]. repeat split; repeat constructor.
  - unfold INT_MIN, INT_MAX in Hr. repeat (constructor; [split; [reflexivity|cbn [snd json_plain]]|]); try done.
    zdecides. done.
Qed.

(** The document of a good registry has a text. *)
Lemma serialize_plain m s : registry_ok m s ->
  forall depth, json_plain (S (S (S (S depth)))) (JObject (serializeState (map_to_list m) (elements s))) = true.
Proof.
  intros [Hm Hs] depth.
  change (serializeState _ _) with [(lit "confirmed", JArray (map JString (elements s))); (lit "tokens", JArray (map tokenJson (map_to_list m)));
    (lit "version", JInt 1)].
  apply plain_members.
  - cbn [qm_sorted]. repeat split; repeat constructor.
  - apply Forall_cons. split; [|apply Forall_cons; split; [|by repeat constructor]]; (split; [reflexivity|]); apply plain_array, Forall_forall.
    + intros v (t & <- & Hin)%list_elem_of_In%in_map_iff. apply list_elem_of_In, elem_of_elements in Hin. cbn [json_plain]. by apply Hs.
    + intros v ([t o] & <- & Hin)%list_elem_of_In%in_map_iff. apply list_elem_of_In, elem_of_map_to_list in Hin.
      destruct (Hm t o Hin) as (_ & Ht & Ho). by apply plain_token.
Qed.
End Registry.

(** ** Reports *)

Section Reports.
Context `{QtText, J : QtJson, !QtJsonLaws J}.

Definition registrations (es : list CEvent) : nat :=
  length (List.filter (fun e => match e with CRegister _ _ => true | _ => false end) es).

(** Runs of one installation: the file stays where it is, texts are plain. *)
Definition event_ok (P : qstr) (e : CEvent) : Prop :=
  match e with
  | CRegister t o => plain_str t = true /\ origin_ok o
  | CHit _ => True
  | CRestart path => path = P
  end.

(** The registry is in its file, and every entry comes from a registration. *)
Record corr_inv (P : qstr) (n : nat) (from : qstr -> OastOrigin -> Prop) (d : disk) (c : Correlator) : Prop := mkCorrInv {
  ci_path : m_persistPath c = P;
  ci_size : (size (m_tokens c) <= n)%nat;
  ci_ok : registry_ok (m_tokens c) (m_confirmed c);
  ci_file : d !! P = Some (json_compact (JObject (serializeState (map_to_list (m_tokens c)) (elements (m_confirmed c)))))
            \/ (d !! P = None /\ m_tokens c = ∅ /\ m_confirmed c = ∅);
  ci_from t o : m_tokens c !! t = Some o -> from t o
}.

Lemma restart_same P n from d c : P <> [] -> corr_inv P n from d c ->
  corr_inv P n from d (setPersistPath P d freshCorr) /\
  m_tokens (setPersistPath P d freshCorr) = m_tokens c /\ m_confirmed (setPersistPath P d freshCorr) = m_confirmed c.
Proof.
  intros HP Hi.
  assert (E : setPersistPath P d freshCorr = mkCorr (m_tokens c) (m_confirmed c) P true).
  { unfold setPersistPath. destruct P as [|x P]; [done|]. cbn [is_nil].
    destruct (ci_file _ _ _ _ _ Hi) as [-> | (-> & -> & ->)]; [|done].
    rewrite law_json_text; [|exact (serialize_plain _ _ (ci_ok _ _ _ _ _ Hi) 508)|done].
    rewrite (oast_state_roundtrip (m_tokens c) (m_confirmed c)); [done| | |done|done].
    - intros t o Ho. destruct (ci_ok _ _ _ _ _ Hi) as [Hm _]. destruct (Hm t o Ho) as (Ht & _ & Hr & _). done.
    - intros Hin. destruct (ci_ok _ _ _ _ _ Hi) as [_ Hs]. by destruct (Hs [] Hin). }
  rewrite E. destruct Hi as [I1 I2 I3 I4 I5]. split; [by split|by split].
Qed.

Lemma register_inv P n from d c t o : P <> [] -> corr_inv P n from d c -> plain_str t = true -> origin_ok o -> from t o ->
  Z.of_nat (S n) <= kMaxTokens ->
  let '(d', c') := registerToken true t o d c in corr_inv P (S n) from d' c' /\ m_confirmed c' = m_confirmed c.
Proof.
  intros HP [I1 I2 I3 I4 I5] Ht Ho Hfrom Hn. unfold registerToken. destruct t as [|x t]; cbn [is_nil].
  { split; [|done]. split; try done. lia. }
  assert (Hsz : (size (<[x :: t:=o]> (m_tokens c)) <= S n)%nat).
  { rewrite map_size_insert. case_match; cbn; lia. }
  replace (kMaxTokens <? Z.of_nat (size (<[x :: t:=o]> (m_tokens c)))) with false by (symmetry; apply Z.ltb_ge; lia).
  split; [|done]. split; cbn [m_persistPath m_tokens m_confirmed]; [done|done| | |].
  - destruct I3 as [Hm Hs]. split; [|done]. intros t' o' [[<- <-]|[_ Ho']]%lookup_insert_Some; [by split|by apply Hm].
  - left. unfold saveLocked. cbn [m_persistPath m_tokens m_confirmed]. rewrite I1. destruct P as [|y P]; [done|].
    cbn [is_nil negb orb]. apply lookup_insert_eq.
  - intros t' o' [[<- <-]|[_ Ho']]%lookup_insert_Some; [done|by apply I5].
Qed.

Lemma hit_inv P n from d c hit : P <> [] -> corr_inv P n from d c ->
  let '(d', c', f) := onHit true hit d c in
  corr_inv P n from d' c' /\
  match f with
  | Some f => m_confirmed c' = {[h_token hit]} ∪ m_confirmed c /\ h_token hit ∉ m_confirmed c /\
              exists o, from (h_token hit) o /\ f = findingOf hit o
  | None => forall t, t ∈ m_confirmed c -> t ∈ m_confirmed c'
  end.
Proof.
  intros HP Hi. pose proof Hi as [I1 I2 I3 I4 I5]. unfold onHit. destruct (is_nil (h_token hit)) eqn:E0; [done|].
  destruct (m_tokens c !! h_token hit) as [o|] eqn:Eo; [|done]. case_bool_decide as Hc; [done|].
  assert (Hnew : corr_inv P n from
    (saveLocked true d (mkCorr (m_tokens c) ({[h_token hit]} ∪ m_confirmed c) (m_persistPath c) (m_scanner c)))
    (mkCorr (m_tokens c) ({[h_token hit]} ∪ m_confirmed c) (m_persistPath c) (m_scanner c))).
  { split; cbn [m_persistPath m_tokens m_confirmed]; [done|done| | |done].
    - destruct I3 as [Hm Hs]. split; [done|]. intros t Ht. apply elem_of_union in Ht as [->%elem_of_singleton|Ht]; [|by apply Hs].
      by destruct (Hm _ _ Eo) as (? & ? & _).
    - left. unfold saveLocked. cbn [m_persistPath m_tokens m_confirmed]. rewrite I1. destruct P as [|y P]; [done|].
      cbn [is_nil negb orb]. apply lookup_insert_eq. }
  destruct (m_scanner c); (split; [exact Hnew|]); cbn [m_confirmed].
  - split; [done|]. split; [done|]. exists o. split; [by apply I5|done].
  - intros t Ht. apply elem_of_union. by right.
Qed.

Lemma corr_run_once P from es : P <> [] -> forall n d c,
  corr_inv P n from d c -> Forall (event_ok P) es -> (forall t o, CRegister t o ∈ es -> from t o) ->
  Z.of_nat (n + registrations es) <= kMaxTokens ->
  let '(_, _, out) := corr_run es d c in
  NoDup (map (fun e => h_token (fst e)) out) /\ (forall e, e ∈ out -> h_token (fst e) ∉ m_confirmed c) /\
  (forall hit f, (hit, f) ∈ out -> exists o, from (h_token hit) o /\ f = findingOf hit o).
Proof.
  intros HP. induction es as [|e es IH]; intros n d c Hi Hok Hfrom Hn.
  { cbn. split; [constructor|]. split; [by intros e He%not_elem_of_nil|]. by intros hit f He%not_elem_of_nil. }
  apply Forall_cons in Hok as [He Hok].
  assert (Hfrom' : forall t o, CRegister t o ∈ es -> from t o) by (intros t o Hin; apply Hfrom; by right).
  destruct e as [t o|hit|path]; cbn [corr_run event_ok] in *.
  - destruct He as [Ht Ho]. unfold registrations in Hn. cbn [List.filter length] in Hn. fold (registrations es) in Hn.
    pose proof (register_inv P n from d c t o HP Hi Ht Ho (Hfrom t o ltac:(by left)) ltac:(lia)) as Hr.
    destruct (registerToken true t o d c) as [d' c']. destruct Hr as [Hi' Hc].
    specialize (IH (S n) d' c' Hi' Hok Hfrom' ltac:(lia)). destruct (corr_run es d' c') as [[d2 c2] out].
    by rewrite Hc in IH.
  - pose proof (hit_inv P n from d c hit HP Hi) as Hh. destruct (onHit true hit d c) as [[d' c'] f]. destruct Hh as [Hi' Hf].
    specialize (IH n d' c' Hi' Hok Hfrom' Hn). destruct (corr_run es d' c') as [[d2 c2] out].
    destruct IH as (Hnd & Hnc & Hor). destruct f as [f|].
    + destruct Hf as (Ec & Hnew & Hex). split; [|split].
      * cbn [map fst]. constructor; [|done]. intros (e & Eq & Hin)%list_elem_of_In%in_map_iff.
        apply list_elem_of_In in Hin. apply (Hnc e Hin). rewrite Ec, Eq. set_solver.
      * intros e [->|Hin]%elem_of_cons; [done|]. intros Hc. apply (Hnc e Hin). rewrite Ec. set_solver.
      * intros hit' f' [[= -> ->]|Hin]%elem_of_cons; [done|by apply Hor].
    + split; [done|]. split; [|done]. intros e Hin Hc. by apply (Hnc e Hin), Hf.
  - subst path. destruct (restart_same P n from d c HP Hi) as (Hi' & _ & Ec).
    specialize (IH n d (setPersistPath P d freshCorr) Hi' Hok Hfrom' Hn).
    destruct (corr_run es d (setPersistPath P d freshCorr)) as [[d2 c2] out]. by rewrite Ec in IH.
Qed.
End Reports.

(** However registrations, callbacks and restarts of the program follow each
    other, a token is reported at most once, and every report is for a token that was
    registered and carries the origin registered for it.  The run starts without a
    file, every save succeeds and at most 50000 tokens are registered. *)
Theorem one_report_per_token `{QtText, J : QtJson, !QtJsonLaws J} P es :
  P <> [] -> Forall (event_ok P) es -> Z.of_nat (registrations es) <= kMaxTokens ->
  let '(_, _, out) := corr_run es ∅ (setPersistPath P ∅ freshCorr) in
  NoDup (map (fun e => h_token (fst e)) out) /\
  forall hit f, (hit, f) ∈ out -> exists o, CRegister (h_token hit) o ∈ es /\ f = findingOf hit o.
Proof.
  intros HP Hok Hn.
  assert (Hi : corr_inv P 0 (fun t o => CRegister t o ∈ es) ∅ (setPersistPath P ∅ freshCorr)).
  { assert (E : setPersistPath P ∅ freshCorr = mkCorr ∅ ∅ P true) by (unfold setPersistPath; by destruct P).
    rewrite E. split; [done|done| |right; done|].
    - split; cbn [m_tokens m_confirmed]; [intros t o Ho; by rewrite lookup_empty in Ho|intros t Ht; set_solver].
    - cbn [m_tokens]. intros t o Ho. by rewrite lookup_empty in Ho. }
  pose proof (corr_run_once P _ es HP 0 ∅ _ Hi Hok ltac:(done) Hn) as Hr.
  destruct (corr_run es ∅ (setPersistPath P ∅ freshCorr)) as [[d c] out]. by destruct Hr as (H1 & _ & H3).
Qed.

(** The first callback of a registered token is reported, with the row, host and
    URL it was registered with, and confirmed; the token's later callbacks are not. *)
Theorem registered_callback_reported `{QtText, QtJson} ok ok' hit hit' o d c :
  h_token hit <> [] -> m_tokens c !! h_token hit = Some o -> h_token hit ∉ m_confirmed c -> m_scanner c = true ->
  h_token hit' = h_token hit ->
  let '(d', c', f) := onHit ok hit d c in
  (exists fd, f = Some fd /\ f_rowId fd = o_rowId o /\ f_host fd = o_host o /\ f_url fd = o_url o /\
     (f_severity fd = lit "critical" <->
        starts_with (lit "log4shell") (o_kind o) = true \/ starts_with (lit "rce") (o_kind o) = true)) /\
  onHit ok' hit' d' c' = (d', c', None).
Proof.
  intros Ht Ho Hc Hs E. unfold onHit. rewrite E. destruct (h_token hit) as [|x t] eqn:Et; [done|]. cbn [is_nil].
  rewrite Ho, bool_decide_false by done. rewrite Hs. cbn [m_tokens m_confirmed]. rewrite Ho, bool_decide_true by set_solver.
  split; [|done]. eexists. split; [done|]. do 3 (split; [done|]). cbn [findingOf f_severity].
  destruct (o_kind o) as [|k ks]; [split; [done|by intros [?|?]]|]. cbn [is_nil]. rewrite <- orb_true_iff.
  by destruct (starts_with _ _ || starts_with _ _).
Qed.

(** When the registry is full the token being registered is forgotten with all
    the others: its callback is never reported. *)
Theorem registry_overflow_forgets `{QtText, QtJson} ok token origin d c hit :
  token <> [] -> Z.of_nat (size (<[token := origin]> (m_tokens c))) = kMaxTokens + 1 -> h_token hit = token ->
  let '(d', c') := registerToken ok token origin d c in
  m_tokens c' = ∅ /\ m_confirmed c' = ∅ /\ onHit ok hit d' c' = (d', c', None).
Proof.
  intros Ht Hs Hh. unfold registerToken. destruct token as [|x t]; [done|]. cbn [is_nil]. rewrite Hs.
  replace (kMaxTokens <? kMaxTokens + 1) with true by (symmetry; apply Z.ltb_lt; lia).
  split; [done|]. split; [done|]. unfold onHit. rewrite Hh. cbn [is_nil m_tokens]. by rewrite lookup_empty.
Qed.

(** ** Tokens come back *)

Section TokenFacts.
Context `{QtTextLaws}.

Lemma digit_chr_hex d : 0 <= d < 16 -> is_lower_hex (digit_chr d) = true.
Proof.
  intros Hd. unfold digit_chr, is_lower_hex, is_digit. destruct (d <? 10) eqn:E; to_prop; zdecides; done.
Qed.

Lemma to_digits_length fuel base n acc : 2 <= base -> 0 <= n < base ^ Z.of_nat fuel ->
  forall k, (0 < k)%nat -> n < base ^ Z.of_nat k -> (length (to_digits fuel base n acc) <= k + length acc)%nat.
Proof.
  intros Hb. revert n acc. induction fuel as [|fuel IH]; intros n acc Hn k Hk Hnk; cbn [to_digits]; [lia|].
  destruct (n <? base) eqn:E; to_prop; [cbn; lia|].
  destruct k as [|[|k]]; [lia|cbn in Hnk; lia|].
  assert (Hdiv : forall j, n < base ^ Z.of_nat (S j) -> n / base < base ^ Z.of_nat j).
  { intros j Hj. apply Z.div_lt_upper_bound; [lia|]. rewrite Nat2Z.inj_succ, Z.pow_succ_r in Hj by lia. done. }
  pose proof (IH (n / base) (digit_chr (n mod base) :: acc)) as IH'.
  etransitivity; [apply (IH' ltac:(split; [apply Z.div_pos; lia|apply Hdiv; lia]) (S k) ltac:(lia) (Hdiv _ Hnk))|cbn; lia].
Qed.

Definition mint_text (random : Z) : qstr := rightJustified16 (number 16 random).

Lemma mint_hex16 random : 0 <= random < 2 ^ 64 -> hex16 (mint_text random) = true.
Proof.
  intros Hr. unfold mint_text, rightJustified16, hex16.
  assert (Hl : (length (number 16 random) <= 16)%nat).
  { unfold number. zdecide. pose proof (to_digits_length 64 16 random [] ltac:(lia)) as Hd. rewrite Nat.add_0_r in Hd || idtac.
    specialize (Hd ltac:(split; [lia|]; eapply Z.lt_le_trans; [apply Hr|done]) 16%nat ltac:(lia)).
    cbn [length] in Hd. rewrite Nat.add_0_r in Hd. apply Hd. change (16 ^ Z.of_nat 16) with (2 ^ 64). lia. }
  apply andb_true_iff. split; [apply Nat.eqb_eq; rewrite length_app, repeat_length; lia|].
  rewrite forallb_app. apply andb_true_iff. split.
  - apply forallb_forall. intros c ->%repeat_spec. done.
  - apply forallb_forall. intros c Hc%list_elem_of_In. revert c Hc. apply Forall_forall.
    unfold number. zdecide. apply to_digits_forall; try done; [lia|]. intros d Hd. by apply digit_chr_hex.
Qed.

Lemma digits_val_zeros base n s : digits_val base (repeat 48 n ++ s) = digits_val base s.
Proof. unfold digits_val. rewrite fold_left_app. f_equal. induction n as [|n IH]; [done|]. cbn. by destruct base. Qed.

(** Different random numbers, different tokens. *)
Lemma mint_inj r r' : 0 <= r < 2 ^ 63 -> 0 <= r' < 2 ^ 63 -> mint_text r = mint_text r' -> r = r'.
Proof.
  intros Hr Hr' E. apply (f_equal (digits_val 16)) in E. unfold mint_text, rightJustified16 in E.
  rewrite !digits_val_zeros, !number_value in E by (unfold I64_MAX; lia). done.
Qed.

Lemma lower_hex_lower t : forallb is_lower_hex t = true -> map ascii_lower1 t = t /\ all_ascii t = true /\ 46 ∉ t /\
  Forall (fun c => (c =? 47) || (c =? 63) || (c =? 35) = false) t /\ 37 ∉ t.
Proof.
  intros Ht.
  assert (Hc : forall c, c ∈ t -> 48 <= c <= 57 \/ 97 <= c <= 102).
  { intros c Hc%list_elem_of_In. rewrite forallb_forall in Ht. specialize (Ht c Hc).
    unfold is_lower_hex, is_digit in Ht. apply orb_true_iff in Ht as [Ht|Ht]; split_bools; to_prop; lia. }
  split; [|split; [|split; [|split]]].
  - rewrite <- (map_id t) at 2. apply map_ext_in. intros c Hc'%list_elem_of_In%Hc. unfold ascii_lower1. 
    destruct (65 <=? c) eqn:E; [|done]. destruct (c <=? 90) eqn:E'; [|done]. to_prop. lia.
  - apply forallb_forall. intros c Hc'%list_elem_of_In%Hc. unfold is_ascii. zdecides. done.
  - intros Hin%Hc. lia.
  - apply Forall_forall. intros c Hc'%Hc. zdecides. done.
  - intros Hin%Hc. lia.
Qed.

Lemma segment_end_app t c s : Forall (fun c => (c =? 47) || (c =? 63) || (c =? 35) = false) t ->
  (c =? 47) || (c =? 63) || (c =? 35) = true -> segment_end (t ++ c :: s) = Some (length t).
Proof. intros Ht Hc. induction Ht as [|x t Hx _ IH]; cbn [segment_end app]; [by rewrite Hc|]. rewrite Hx, IH. done. Qed.

(** A token in either form is found. *)
Lemma extract_path_form host t s :
  hex16 t = true -> (forall n, index_of 46 host = Some n -> hex16 (u_lower (take n host)) = false) ->
  s = [] \/ (exists c s', s = c :: s' /\ (c =? 47) || (c =? 63) || (c =? 35) = true) ->
  extractToken host (lit "/oast/" ++ t ++ s) = t.
Proof.
  intros Ht Hh Hs. destruct (hex16_len _ Ht) as [Hl Hx]. destruct (lower_hex_lower t Hx) as (_ & _ & _ & Hseg & _).
  assert (Hp : pathToken (lit "/oast/" ++ t ++ s) = t).
  { unfold pathToken. rewrite starts_with_app. change (drop 6 (lit "/oast/" ++ t ++ s)) with (t ++ s). cbn zeta. destruct Hs as [->|(c & s' & -> & Hc)].
    - rewrite app_nil_r. assert (E : segment_end t = None).
      { clear -Hseg. induction Hseg as [|x t Hx _ IH]; cbn [segment_end]; [done|]. by rewrite Hx, IH. }
      by rewrite E, Ht.
    - rewrite segment_end_app by done. unfold mid. change (drop 6 (lit "/oast/" ++ t ++ c :: s')) with (t ++ c :: s').
      by rewrite take_app_length, Ht. }
  unfold extractToken. rewrite Hp. destruct (index_of 46 host) as [[|n]|] eqn:E; [done| |done]. by rewrite (Hh _ eq_refl).
Qed.

Lemma extract_host_form t s path : hex16 t = true -> extractToken (t ++ 46 :: s) path = t.
Proof.
  intros Ht. destruct (hex16_len _ Ht) as [Hl Hx]. destruct (lower_hex_lower t Hx) as (Hlow & Ha & Hd & _).
  unfold extractToken. rewrite index_of_app by done. destruct (length t) as [|n] eqn:E; [done|]. rewrite <- E, take_app_length.
  by rewrite law_lower_ascii, Hlow, Ht by done.
Qed.

(** A format whose markers all get arguments without place markers of their own. *)
Lemma pieces_plain s : 37 ∉ s -> forall t, pieces (s ++ t) = map PChar s ++ pieces t.
Proof.
  induction s as [|c s IH]; intros Hs t; [done|]. apply not_elem_of_cons in Hs as [Hc Hs].
  unfold pieces in *. cbn [app pieces_from map]. destruct (mark_here (c :: s ++ t)) as [[n text]|] eqn:E.
  - exfalso. unfold mark_here in E. destruct c as [|c|c]; try done. repeat (destruct c as [c|c|]; try done).
  - by rewrite IH.
Qed.
End TokenFacts.

Section Formats.
Lemma flat_map_plain (f : Piece -> qstr) s : (forall c, f (PChar c) = [c]) -> flat_map f (map PChar s) = s.
Proof. intros Hf. induction s as [|c s IH]; cbn [flat_map map]; [done|]. by rewrite Hf, IH. Qed.

(** Text without a place marker passes through. *)
Lemma qargs_prefix s t args : 37 ∉ s -> qargs (s ++ t) args = s ++ qargs t args.
Proof.
  intros Hs. unfold qargs. rewrite pieces_plain by done.
  assert (Hm : marks (map PChar s ++ pieces t) = marks (pieces t)).
  { unfold marks. rewrite fold_right_app. generalize (fold_right (fun p l => match p with PMark n _ => insert_num n l | PChar _ => l end) [] (pieces t)).
    intros l. induction s as [|c s IH]; cbn [map fold_right]; [done|]. apply not_elem_of_cons in Hs as [_ Hs]. by apply IH. }
  rewrite Hm, flat_map_app. f_equal. by apply flat_map_plain.
Qed.

Lemma number_no_percent n : 0 <= n -> 37 ∉ number 10 n.
Proof.
  intros Hn Hin. pose proof (number_alnum 10 n ltac:(lia) Hn) as Hf. rewrite Forall_forall in Hf. by specialize (Hf 37 Hin).
Qed.
End Formats.

(** A minted token is sixteen lower-case hexadecimal digits and both callback URLs
    carry it back: the path form whatever the Host field is (unless that starts with
    another token), the subdomain form, used when the base is a name, whatever the
    path is.  The base has no percent sign, which [QString::arg] would expand. *)
Theorem mint_roundtrip `{QtTextLaws} random baseHost port :
  0 <= random < 2 ^ 64 -> 0 <= port < 2 ^ 16 -> 37 ∉ baseHost ->
  let m := mintToken random baseHost port in
  let tok := mt_token m in
  hex16 tok = true /\
  mt_pathUrl m = lit "http://" ++ baseHost ++ lit ":" ++ number 10 port ++ lit "/oast/" ++ tok ++ lit "/cb" /\
  mt_hostUrl m = (if baseIsIpLiteral baseHost then mt_pathUrl m
                  else lit "http://" ++ tok ++ lit "." ++ baseHost ++ lit ":" ++ number 10 port ++ lit "/") /\
  (forall host, (forall n, index_of 46 host = Some n -> hex16 (u_lower (take n host)) = false) ->
     extractToken host (lit "/oast/" ++ tok ++ lit "/cb") = tok) /\
  (forall path, extractToken (tok ++ lit "." ++ baseHost ++ lit ":" ++ number 10 port) path = tok).
Proof.
  intros Hr Hp Hb. cbn zeta. cbn [mintToken mt_token mt_pathUrl mt_hostUrl]. change (rightJustified16 (number 16 random)) with (mint_text random).
  pose proof (mint_hex16 random Hr) as Hh. destruct (lower_hex_lower _ (proj2 (hex16_len _ Hh))) as (_ & _ & _ & _ & Hpt).
  pose proof (number_no_percent port ltac:(lia)) as Hpp.
  assert (Ea : qargs (lit "http://%1:%2/oast/%3/cb") [baseHost] = (lit "http://" ++ baseHost ++ lit ":") ++ lit "%2/oast/%3/cb")
    by (change (qargs _ _) with (lit "http://" ++ baseHost ++ lit ":%2/oast/%3/cb"); by rewrite <- !app_assoc).
  assert (Eb : 37 ∉ lit "http://" ++ baseHost ++ lit ":") by (rewrite !not_elem_of_app; repeat split; [|done|]; by apply index_of_None).
  assert (Ec : qargs (lit "%2/oast/%3/cb") [number 10 port] = (number 10 port ++ lit "/oast/") ++ lit "%3/cb")
    by (change (qargs _ _) with (number 10 port ++ lit "/oast/%3/cb"); by rewrite <- app_assoc).
  assert (Ed : 37 ∉ number 10 port ++ lit "/oast/") by (rewrite not_elem_of_app; split; [done|by apply index_of_None]).
  assert (Ee : qargs (lit "%3/cb") [mint_text random] = mint_text random ++ lit "/cb") by reflexivity.
  split; [done|]. split; [|split; [|split]].
  - rewrite Ea, qargs_prefix, Ec by done. rewrite app_assoc, qargs_prefix, Ee; [by rewrite <- !app_assoc|].
    rewrite not_elem_of_app. by split.
  - destruct (baseIsIpLiteral baseHost); [done|].
    assert (Ef : qargs (lit "http://%1.%2:%3/") [mint_text random; baseHost]
                 = (lit "http://" ++ mint_text random ++ lit "." ++ baseHost ++ lit ":") ++ lit "%3/")
      by (change (qargs _ _) with (lit "http://" ++ mint_text random ++ lit "." ++ baseHost ++ lit ":%3/"); by rewrite <- !app_assoc).
    rewrite Ef, qargs_prefix; [change (qargs (lit "%3/") [number 10 port]) with (number 10 port ++ lit "/"); by rewrite <- !app_assoc|].
    rewrite !not_elem_of_app. repeat split; try done; by apply index_of_None.
  - intros host Hhost. apply extract_path_form; [done..|]. right. by exists 47, (lit "cb").
  - intros path. by apply (extract_host_form (mint_text random)).
Qed.

(** ** Logs and cursors *)

Section Log.
Definition record_all (l : HitLog) (hs : list OastHit) : HitLog := fold_left (fun l h => fst (log_hit l h)) hs l.

(** Hits with their numbers. *)
Fixpoint numbered (id : Z) (hs : list OastHit) : list OastHit :=
  match hs with [] => [] | h :: hs' => with_id h id :: numbered (id + 1) hs' end.

Lemma numbered_app id hs hs' : numbered id (hs ++ hs') = numbered id hs ++ numbered (id + zlen hs) hs'.
Proof.
  revert id. induction hs as [|h hs IH]; intros id; cbn [numbered app]; [by rewrite Z.add_0_r|].
  rewrite IH, zlen_cons. do 3 f_equal. lia.
Qed.

Lemma numbered_length id hs : length (numbered id hs) = length hs.
Proof. revert id. induction hs as [|h hs IH]; intros id; cbn; [done|by rewrite IH]. Qed.

Lemma numbered_ids id hs h : h ∈ numbered id hs -> id <= h_id h < id + zlen hs.
Proof.
  revert id. induction hs as [|h' hs IH]; intros id; cbn [numbered]; [by intros ?%not_elem_of_nil|].
  rewrite zlen_cons. pose proof (zlen_nonneg hs). intros [->|Hin]%elem_of_cons; [cbn; lia|]. apply IH in Hin. lia.
Qed.

Lemma record_all_spec hs :
  m_hits (record_all emptyLog hs) = drop (length hs - kMaxHits) (numbered 1 hs) /\ m_nextHitId (record_all emptyLog hs) = 1 + zlen hs.
Proof.
  induction hs as [|h hs [IH1 IH2]] using rev_ind; [done|]. unfold record_all in *. rewrite fold_left_app.
  set (l := fold_left _ hs emptyLog) in *. cbn [fold_left log_hit fst m_hits m_nextHitId]. rewrite IH1, IH2, zlen_app. split; [|unfold zlen; cbn; lia].
  unfold push_hit. rewrite numbered_app. cbn [numbered]. rewrite !length_app, length_drop, numbered_length. cbn [length].
  destruct (Nat.le_ge_cases (length hs) kMaxHits).
  - replace (length hs - kMaxHits)%nat with 0%nat by lia. rewrite drop_0. do 2 f_equal; lia.
  - rewrite <- (drop_app_le (numbered 1 hs)) by (rewrite numbered_length; lia). rewrite drop_drop. do 2 f_equal; lia.
Qed.

End Log.

(** The log never holds more than a thousand hits, and a reader who asks for the
    hits after the last number it has seen gets exactly those that came since, in
    order and each once, provided it asks before a thousand more have come. *)
Theorem poll_exactly_once hs hs' :
  (length hs' <= kMaxHits)%nat ->
  hitsSince (record_all emptyLog (hs ++ hs')) (zlen hs) = numbered (1 + zlen hs) hs' /\
  (length (m_hits (record_all emptyLog (hs ++ hs'))) <= kMaxHits)%nat.
Proof.
  intros Hl. unfold hitsSince. rewrite (proj1 (record_all_spec (hs ++ hs'))). split.
  - rewrite numbered_app, drop_app_le, List.filter_app by (rewrite numbered_length, length_app; lia).
    rewrite (filter_drop_all _ (drop _ _)), filter_keep_all; [done| |].
    + intros h Hh%numbered_ids. apply Z.ltb_lt. lia.
    + intros h (i & Hi)%list_elem_of_lookup. rewrite lookup_drop in Hi. apply list_elem_of_lookup_2, numbered_ids in Hi.
      apply Z.ltb_ge. lia.
  - rewrite length_drop, numbered_length. lia.
Qed.

(** ** Polling a remote sink *)

Section Polling.
Context `{QtText}.

Definition poll_fold (st : option (HitLog * Z * list OastHit)) (vs : list json) : option (HitLog * Z * list OastHit) :=
  fold_left (fun st v => st ← st; pollEntry st v) vs st.

Definition remote_id (v : json) : option Z := cast_int64 (toDouble (value (toObject v) (lit "id"))).

Lemma poll_fold_None vs : poll_fold None vs = None.
Proof. unfold poll_fold. by induction vs. Qed.

Lemma poll_fold_cons st v vs : poll_fold (Some st) (v :: vs) = poll_fold (pollEntry st v) vs.
Proof. done. Qed.

Lemma poll_fold_spec vs : forall l since out l' since' out',
  poll_fold (Some (l, since, out)) vs = Some (l', since', out') ->
  since <= since' /\ (forall v i, v ∈ vs -> remote_id v = Some i -> i <= since') /\
  map h_token out' = map h_token out ++ map (fun v => toString (value (toObject v) (lit "token"))) vs /\
  forall l2 since2 out2, exists l2' since2' out2',
    poll_fold (Some (l2, since2, out2)) vs = Some (l2', since2', out2') /\
    map h_token out2' = map h_token out2 ++ map (fun v => toString (value (toObject v) (lit "token"))) vs.
Proof.
  induction vs as [|v vs IH]; intros l since out l' since' out'; rewrite ?poll_fold_cons.
  - intros [= <- <- <-]. split; [lia|]. split; [by intros v i ?%not_elem_of_nil|]. rewrite app_nil_r. split; [done|].
    intros l2 since2 out2. exists l2, since2, out2. by rewrite app_nil_r.
  - destruct (cast_int64 (toDouble (value (toObject v) (lit "id")))) as [i|] eqn:Ei;
      [|unfold pollEntry; rewrite Ei; cbn [mbind option_bind]; by rewrite poll_fold_None].
    destruct (cast_int64 (toDouble (value (toObject v) (lit "atMs")))) as [a|] eqn:Ea;
      [|unfold pollEntry; rewrite Ei, Ea; cbn [mbind option_bind]; by rewrite poll_fold_None].
    unfold pollEntry at 1. rewrite Ei, Ea. cbn [mbind option_bind log_hit].
    intros Hp. apply IH in Hp as (H1 & H2 & H3 & H4). split; [destruct (since <? i) eqn:E; to_prop; lia|]. split; [|split].
    + intros v' i' [->|Hin]%elem_of_cons Hi; [|by eapply H2]. unfold remote_id in Hi. rewrite Ei in Hi. injection Hi as <-.
      destruct (since <? i) eqn:E; to_prop; lia.
    + rewrite H3, map_app, <- app_assoc. done.
    + intros l2 since2 out2. rewrite poll_fold_cons.
      unfold pollEntry at 1. rewrite Ei, Ea. cbn [mbind option_bind log_hit].
      destruct (H4 (mkLog (push_hit (m_hits l2) (with_id (mkHit 0 a (toString (value (toObject v) (lit "token")))
          (toString (value (toObject v) (lit "sourceIp"))) (toString (value (toObject v) (lit "method")))
          (toString (value (toObject v) (lit "hostHeader"))) (toString (value (toObject v) (lit "path")))
          (toInt 0 (value (toObject v) (lit "bodyBytes"))) (toString (value (toObject v) (lit "userAgent")))
          (toString (value (toObject v) (lit "bodyPreview")))) (m_nextHitId l2))) (m_nextHitId l2 + 1))
          (if since2 <? i then i else since2)
          (out2 ++ [with_id (mkHit 0 a (toString (value (toObject v) (lit "token")))
          (toString (value (toObject v) (lit "sourceIp"))) (toString (value (toObject v) (lit "method")))
          (toString (value (toObject v) (lit "hostHeader"))) (toString (value (toObject v) (lit "path")))
          (toInt 0 (value (toObject v) (lit "bodyBytes"))) (toString (value (toObject v) (lit "userAgent")))
          (toString (value (toObject v) (lit "bodyPreview")))) (m_nextHitId l2)])) as (l3 & s3 & o3 & E & Ho).
      exists l3, s3, o3. split; [exact E|]. rewrite Ho, map_app, <- app_assoc. done.
Qed.
End Polling.

(** A reply moves the cursor past every hit in it, never back, so that polls one
    after the other see each remote hit once.  But a reply is not filtered by the
    cursor: when two polls are outstanding at a time, which a reply slower than the
    timer causes, both answers emit the same hits. *)
Theorem poll_watermark `{QtText} doc l since l' since' out :
  pollReply (Some doc) l since = Some (l', since', out) ->
  since <= since' /\
  (forall v i, v ∈ toArray (value (toObject doc) (lit "hits")) -> remote_id v = Some i -> i <= since') /\
  exists l'' since'' out'', pollReply (Some doc) l' since' = Some (l'', since'', out'') /\ map h_token out'' = map h_token out.
Proof.
  unfold pollReply. intros Hp. apply poll_fold_spec in Hp as (H1 & H2 & H3 & H4). split; [done|]. split; [done|].
  destruct (H4 l' since' []) as (l2 & s2 & o2 & E & Ho). exists l2, s2, o2. split; [exact E|]. by rewrite Ho, H3.
Qed.

(** The DNS sink handles any datagram: it answers the valid queries only, emits a
    hit only for a token, and what it logs of the name has no character but letters,
    digits, hyphens, underscores, dots and question marks. *)
Theorem dns_sink_correct `{QtText} ip atMs sender buf l :
  length (ip_v6 ip) = 16%nat ->
  exists l' resp hit, onDatagram ip atMs sender buf l = Some (l', resp, hit) /\
    (is_Some resp <-> exists r, parseDnsQuery buf = Some r /\ pq_valid r = true) /\
    match hit with
    | None => l' = l
    | Some h => is_Some resp /\ hex16 (h_token h) = true /\ forallb name_char (h_hostHeader h) = true /\
                (length (h_hostHeader h) <= kMaxDnsNameChars)%nat /\ h_id h = m_nextHitId l /\ h ∈ m_hits l' /\
                (length (m_hits l') <= kMaxHits)%nat
    end.
Proof.
  intros Hip. destruct (dns_parse_safe buf) as (r & Hp & Hl & Hc & _).
  unfold onDatagram, buildResponse. rewrite Hp. cbn [mbind option_bind]. destruct (pq_valid r) eqn:Hv; cbn [negb mbind option_bind].
  - destruct (dns_parse_safe buf) as (r' & Hp' & _ & _ & Hq). rewrite Hp in Hp'. injection Hp' as <-. specialize (Hq Hv).
    rewrite (at_lookup buf 0), (at_lookup buf 1) by lia. cbn [mbind option_bind].
    destruct (is_nil (dnsExtractToken (pq_qname r))) eqn:Et; cbn [log_hit].
    + eexists _, _, _. split; [done|]. split; [|done]. split; [intros _; by exists r|by eexists].
    + eexists _, _, _. split; [done|]. split; [split; [intros _; by exists r|by eexists]|]. split; [by eexists|].
      split; [|split; [done|split; [done|split; [done|]]]].
      * cbn [h_token with_id]. unfold dnsExtractToken in *. by destruct (hex16 _) eqn:E.
      * cbn [m_hits]. unfold push_hit. rewrite length_drop, length_app. cbn [length]. split; [|lia].
        rewrite drop_app_le by (unfold kMaxHits; lia). apply elem_of_app. right. by left.
  - eexists _, _, _. split; [done|]. split; [|done]. split; [by intros [? ?]|]. intros (r' & Hp' & Hv').
    injection Hp' as <-. congruence.
Qed.

(** ** The HTTP sink reads what a callback sends *)

Section Sink.
Context `{QtText}.

Lemma readBody_bound contentLength segs : forall rest, exists more, readBody rest contentLength segs = rest ++ more.
Proof.
  induction segs as [|seg segs IH]; intros rest; cbn [readBody]; case_if E; try (by exists []; rewrite app_nil_r).
  destruct (IH (rest ++ seg)) as [more ->]. exists (seg ++ more). by rewrite app_assoc.
Qed.

Lemma extractToken_shape host path : extractToken host path = [] \/ hex16 (extractToken host path) = true.
Proof.
  assert (Hp : pathToken path = [] \/ hex16 (pathToken path) = true).
  { unfold pathToken. case_if E; [|by left]. cbn zeta. case_if E1; [by right|by left]. }
  unfold extractToken. destruct (index_of 46 host) as [[|n]|]; [done| |done]. cbn zeta. case_if E; [by right|done].
Qed.
End Sink.

(** Whatever a connection sends, it is either dropped unlogged and unanswered,
    when its header never ends, or logged once and answered 200.  A token in the hit
    is sixteen hexadecimal digits; a declared body is never read past its declared
    length. *)
Theorem http_sink_correct `{QtText} atMs peer segs l :
  let '(l', hit, resp) := handleClient atMs peer segs l in
  match hit with
  | None => l' = l /\ resp = []
  | Some h =>
      resp = okResponse /\ h_id h = m_nextHitId l /\ m_nextHitId l' = m_nextHitId l + 1 /\ h ∈ m_hits l' /\
      (length (m_hits l') <= kMaxHits)%nat /\ (h_token h = [] \/ hex16 (h_token h) = true) /\
      exists buf segs', readHeader [] segs = Some (buf, segs') /\
        forall contentLength, contentLength = snd (fold_left headerLine (split_on 10 (take (default 0%nat (index_sub [13; 10; 13; 10] buf)) buf)) ([], [], 0)) ->
        0 < contentLength <= 4194304 -> h_bodyBytes h <= contentLength
  end.
Proof.
  unfold handleClient, clientHit. destruct (readHeader [] segs) as [[buf segs']|] eqn:Er; [|done].
  destruct (index_sub _ buf) as [sep|] eqn:Es; [|done]. cbn zeta.
  destruct (match split_on 32 _ with m :: p :: _ => (m, p) | _ => ([], []) end) as [method path].
  destruct (fold_left headerLine _ _) as [[hostHdr ua] cl] eqn:Eh. cbn [log_hit].
  split; [done|]. split; [done|]. split; [done|]. split; [|split; [|split; [|]]].
  - cbn [m_hits]. unfold push_hit. rewrite length_app. cbn [length]. rewrite drop_app_le by (unfold kMaxHits; lia).
    apply elem_of_app. right. by left.
  - cbn [m_hits]. unfold push_hit. rewrite length_drop, length_app. cbn [length]. lia.
  - cbn [h_token with_id]. apply extractToken_shape.
  - exists buf, segs'. split; [done|]. rewrite Es. change (default 0%nat (Some sep)) with sep. rewrite Eh. cbn [snd]. intros ? -> Hcl. cbn [h_bodyBytes with_id].
    zdecides. unfold zlen. rewrite length_take. lia.
Qed.

(** ** Concrete executions *)

#[local] Existing Instances asciiText treeJson.

Definition ex_path : qstr := lit "oast-interactions.json".
Definition ex_minted : Minted := mintToken 81985529216486895 (lit "oast.example") 8089.
Definition ex_origin : OastOrigin := mkOrigin 7 (lit "shop.example") (lit "url") (mt_pathUrl ex_minted) (lit "log4shell-oast") [].

(** The target fetches the path form of the minted URL, in two segments. *)
Definition ex_callback : list bytes :=
  [lit "GET /oast/" ++ mt_token ex_minted; lit "/cb HTTP/1.1" ++ [13; 10] ++ lit "Host: oast.example:8089" ++ [13; 10; 13; 10]].
Definition ex_hit : OastHit := default (mkHit 0 0 [] [] [] [] [] 0 [] []) (snd (fst (handleClient 5 (lit "10.0.0.9") ex_callback emptyLog))).

Definition ex_events : list CEvent :=
  [CRegister (mt_token ex_minted) ex_origin; CRestart ex_path; CHit ex_hit; CRestart ex_path; CHit ex_hit].

(** From the minted URL to the report: one finding, for the row that sent the probe. *)
Example callback_end_to_end :
  map (fun e => (f_rowId (snd e), f_severity (snd e), f_kind (snd e)))
    (snd (corr_run ex_events ∅ (setPersistPath ex_path ∅ freshCorr)))
  = [(7, lit "critical", lit "log4shell-oast-confirmed")].
Proof. vm_compute. reflexivity. Qed.

(** A bare IPv6 literal as the base gives a URL without the brackets it needs. *)
Example ipv6_base_malformed :
  mt_pathUrl (mintToken 1 (lit "::1") 8089) = lit "http://::1:8089/oast/0000000000000001/cb".
Proof. vm_compute. reflexivity. Qed.

Lemma mint_roundtrip_witness :
  hex16 (mt_token ex_minted) = true /\ forall path, extractToken (mt_token ex_minted ++ lit ".oast.example:8089") path = mt_token ex_minted.
Proof.
  destruct (mint_roundtrip 81985529216486895 (lit "oast.example") 8089) as (H1 & _ & _ & _ & H5); [lia..| |].
  - apply index_of_None. reflexivity.
  - split; [exact H1|exact H5].
Defined.

Lemma oast_state_roundtrip_witness :
  let m : gmap qstr OastOrigin := {[ mt_token ex_minted := ex_origin ]} in
  deserializeState (serializeState (map_to_list m) (elements ({[ mt_token ex_minted ]} : gset qstr)))
  = (m, {[ mt_token ex_minted ]}).
Proof.
  cbn zeta. apply (oast_state_roundtrip {[ mt_token ex_minted := ex_origin ]} {[ mt_token ex_minted ]}).
  - intros t o [<- <-]%lookup_singleton_Some. split; [done|]. vm_compute. split; discriminate.
  - rewrite elem_of_singleton. done.
  - done.
  - done.
Defined.

Lemma one_report_per_token_witness :
  NoDup (map (fun e => h_token (fst e)) (snd (corr_run ex_events ∅ (setPersistPath ex_path ∅ freshCorr)))).
Proof.
  pose proof (one_report_per_token ex_path ex_events) as Hr.
  destruct (corr_run ex_events ∅ (setPersistPath ex_path ∅ freshCorr)) as [[d c] out] eqn:E. cbn [snd].
  refine (proj1 (Hr _ _ _)); [done| |vm_compute; discriminate].
  repeat constructor; vm_compute; try reflexivity; discriminate.
Defined.

Lemma registered_callback_reported_witness :
  let c := mkCorr {[ mt_token ex_minted := ex_origin ]} ∅ [] true in
  exists fd, snd (onHit true ex_hit ∅ c) = Some fd /\ f_rowId fd = 7.
Proof.
  cbn zeta. set (c := mkCorr _ _ _ _).
  assert (Hc : m_tokens c !! h_token ex_hit = Some ex_origin) by (vm_compute; reflexivity).
  assert (Hn : h_token ex_hit <> []) by (vm_compute; discriminate).
  pose proof (registered_callback_reported true true ex_hit ex_hit ex_origin ∅ c Hn Hc (not_elem_of_empty _) eq_refl eq_refl) as Hr.
  destruct (onHit true ex_hit ∅ c) as [[d' c'] f]. destruct Hr as [(fd & -> & Hrow & _) _]. exists fd. split; [reflexivity|exact Hrow].
Defined.

Lemma poll_exactly_once_witness :
  hitsSince (record_all emptyLog [ex_hit; ex_hit]) 1 = [with_id ex_hit 2].
Proof. exact (proj1 (poll_exactly_once [ex_hit] [ex_hit] ltac:(vm_compute; lia))). Defined.

Definition ex_reply : json :=
  JObject (object [(lit "hits", JArray [JObject (object [(lit "id", JInt 5); (lit "token", JString (mt_token ex_minted))])])]).

Lemma poll_watermark_witness :
  exists l' out, pollReply (Some ex_reply) emptyLog 0 = Some (l', 5, out) /\
    exists l'' since'' out'', pollReply (Some ex_reply) l' 5 = Some (l'', since'', out'') /\ map h_token out'' = map h_token out.
Proof.
  destruct (pollReply (Some ex_reply) emptyLog 0) as [[[l' s'] out]|] eqn:E; [|vm_compute in E; discriminate].
  assert (s' = 5) as ->.
  { apply (f_equal (fun o => match o with Some (_, s, _) => s | None => 0 end)) in E. vm_compute in E. by symmetry. }
  exists l', out. split; [reflexivity|]. exact (proj2 (proj2 (poll_watermark ex_reply emptyLog 0 l' 5 out E))).
Defined.
